(* ===== verification/_CoqProject ===== *)
-Q . S2P
Prelude.v
Sorting.v
Text.v
Bytes.v
TextFacts.v
BTree.v
Timestamp.v
TimestampFacts.v
Clocks.v
TimestampProps.v
PortablePath.v
Canonical.v
CanonicalWrite.v
CanonicalParse.v
CanonicalLaws.v
CanonicalProps.v
Oid.v
RefStore.v
RefStoreProps.v
ScaledInteger.v
ScaledProps.v
SchemaSemantics.v
Registry.v
RegistryProps.v
ObjectStore.v
FileStore.v
FileStoreProps.v
Inventory.v
InventoryProps.v
Closure.v
ClosureFacts.v
ClosureProps.v
Repository.v
Archive.v
Fsck.v
Repair.v
Policy.v
Binding.v
Authorization.v
BindingFacts.v
AuthorizationFacts.v
AuthorizationSample.v
RepositorySample.v
FsckProps.v
RepairProps.v
RestoreFacts.v
RestoreProps.v
Artifact.v
ArtifactProps.v
AuthorizationProps.v
HumanDecision.v
HumanDecisionFacts.v
HumanDecisionProps.v
Journal.v
JournalOps.v
JournalEffects.v
JournalSound.v
JournalClean.v
JournalRuns.v
JournalProps.v
AppState.v
AppPrograms.v
AppLogic.v
AppRules.v
AppOperations.v
AppRuns.v
AppProps.v
Checkout.v
CheckoutFacts.v
CheckoutProps.v
Approval.v
ApprovalProps.v
WorkflowRecords.v
WorkflowChecks.v
Workflow.v
WorkflowFacts.v
WorkflowProps.v
Durable.v
DurableProps.v
Observation.v
