(* ===== verification/Prelude.v ===== *)
(** * A verification development for SynapseGit

    SynapseGit (src/crates/) records versioned, attributable knowledge: structured objects are
    canonical JSON documents named by their SHA-256 digest, kept in a content-addressed store;
    mutable names (Refs) move by compare-and-swap in a SQLite database that also keeps the
    history (reflog); AI writers act only within authorizations that humans grant.  The crates
    build on each other in this order: synapse-canonical (values, bytes, identifiers, time,
    paths), synapse-schema (dispatch and semantic rules over canonical values), synapse-cas
    (closures over object references), synapse-sqlite (Refs), synapse-core (authorization and
    the repository operations), synapse-application (concurrent calls), then the crates above.

    ** The files

    - Prelude: the [result] monad, its inversion tactic [result_inv], machine-width bounds and
      shared list lemmas.  Sorting: stable sort by a comparison ([sort_by], ORDER BY).
      Text, TextFacts: Rust [str] as UTF-8 bytes, [char], decimal formatting,
      splitting, byte and UTF-16 order.  Bytes: big-endian integers and length-framed parts,
      which the digests hash.  BTree: [BTreeSet<String>] and [BTreeMap<String, _>] as
      lists in the order of their keys.
    - Canonical: [Value], [ResourceLimits], [ErrorCode], the size pass, the writer and the
      strict parser of crates/synapse-canonical/src/lib.rs.  CanonicalWrite (the reference
      text [render] and the writer's agreement with it), CanonicalParse (the parser reads
      canonical text back), CanonicalLaws (what the parser accepts, on any input; the normal
      form; canonical text is no longer than its source), CanonicalProps (the properties).
    - Oid: object identifiers of the same file.  PortablePath: its path syntax.
    - Timestamp, TimestampFacts: canonical timestamps (synapse-canonical/src/lib.rs and
      synapse-schema/src/canonical_timestamp.rs).  Clocks: the authorization clock
      (synapse-core/src/authorization.rs) and the recording clock
      (synapse-creator/src/time.rs).  TimestampProps: the properties of both.
    - RefStore, RefStoreProps: crates/synapse-sqlite/src/lib.rs.
    - ScaledInteger, ScaledProps: crates/synapse-schema/src/scaled_integer.rs and
      [compare_scaled] of crates/synapse-schema/src/lib.rs.
    - SchemaSemantics: schema dispatch and the local semantic rules of
      crates/synapse-schema/src/lib.rs.  Registry: the rest of that file (the embedded schema
      registry, its startup audits, the walk of a value along the annotated schemas, and
      ingestion).  RegistryProps: its lemmas and properties.
    - ObjectStore: the object store interface of crates/synapse-cas/src/store.rs as type
      classes ([ObjectStore], [BoundedObjectStore], [ObjectStoreLaws]) with an in-memory
      instance.  FileStore, FileStoreProps: the file object store of the same file, a map from
      paths to files.  Inventory, InventoryProps: the rest of that file, the
      directory scans, the verified copies and the memo of verified objects.
    - Closure, ClosureFacts, ClosureProps: closure verification
      (crates/synapse-cas/src/graph.rs), proved against the [ObjectStore] interface.
    - Repository: the parts of crates/synapse-core/src/lib.rs that guard the stores: error
      codes, ingestion into the object store, head validation by closure, and Ref updates.
      Archive (the manifest, export, inspection, restore), Fsck (with fsck of
      crates/synapse-cas/src/graph.rs) and Repair: the operations of the same file on whole
      repositories.  RestoreFacts, RestoreProps, FsckProps and RepairProps hold their lemmas
      and properties, RepositorySample the repository of their witnesses.
    - Policy, Binding, Authorization: crates/synapse-core/src/authorization.rs.  Policy holds
      capabilities, selectors and Policy rules; Binding the snapshots, closures and the output
      binding of a candidate; Authorization the resolution of authority, the preflight and the
      publication of an AI proposal, over any [BoundedObjectStore].  BindingFacts,
      AuthorizationFacts, AuthorizationSample (a repository in memory, from the registry to a
      published proposal) and AuthorizationProps hold their lemmas and properties.
    - HumanDecision: crates/synapse-core/src/human_decision.rs, the publication of a human's
      decision on a proposal.  HumanDecisionFacts and HumanDecisionProps (with a decided
      proposal in memory) hold its lemmas and properties.
    - Journal: data, validation and rows of crates/synapse-artifact-journal/src (types.rs,
      error.rs, validate.rs, decode.rs, schema.rs).  JournalOps: its operations (journal/).
      JournalEffects (well-formed journals and what they load; the journal as a transition
      system), JournalSound (every operation is one of its transitions), JournalClean
      (operations of the strict protocol never find corrupt data), JournalRuns (what later
      operations preserve, and sequences of operations)
      and JournalProps (the properties).
    - AppState: crates/synapse-application/src/lib.rs and human.rs, the values that cross the
      boundary, the process-local security state and each block of code that runs under its
      lock.  AppPrograms: the sixteen operations as programs of atomic actions, the FIFO gate
      of a project, and the machine of concurrent calls.  AppLogic: a rely-guarantee logic for the threads
      and its soundness for every interleaving.  AppRules, AppOperations: its proof rules and
      the proof that every operation satisfies it.  AppRuns: facts of runs, termination, an
      executable scheduler and a concrete run.  AppProps: the properties.
    - Artifact: crates/synapse-artifact/src/lib.rs, the manifests of regular files and their
      mapping to Blobs and Trees, and the digest of a manifest (workflow.rs).  ArtifactProps:
      its lemmas and properties.
    - Checkout: crates/synapse-artifact/src/checkout.rs, the verification of a decided artifact
      and the reading of its files.  CheckoutFacts (it always answers, the walk over the site,
      and what the verification establishes) and CheckoutProps (with a decided artifact, from
      the mapper to the Decision).
    - Approval: crates/synapse-artifact/src/approval.rs, the registry of approvals as blocks under
      its lock and the machine of concurrent calls.  ApprovalProps: its invariant and property.
    - WorkflowRecords: the Records, Commits and identifiers that crates/synapse-artifact/src/workflow.rs
      writes.  WorkflowChecks: the checks of that file that only read a repository.  Workflow: its
      operations (prepare, publish and recover a proposal; prepare and publish a Decision), which
      thread the repositories on disk, the approvals and the private Application of a proposal.
      WorkflowFacts (what a composed operation may change, and which objects it stores) and
      WorkflowProps: their lemmas and properties.
    - Durable: crates/synapse-artifact/src/durable.rs, the workflow joined with the journal, on a
      service of journal, repositories on disk and approvals.  DurableProps: its lemmas and
      properties.
    - Observation: crates/synapse-observation/src, the adapter that compares Observations by the
      bytes of their media, with its property.

    ** How the model corresponds to the code

    Each Rust function is one definition of the same name; loops are Fixpoints named after the
    function they belong to ([size_object_loop], [parse_object_loop], [replay]).  [Result] is
    [result], error enums are Inductives with the source's constructors, messages are left
    out.  [usize], [u64], [i64] and [i128] are [Z] with their checked, saturating and wrapping
    operations written out.  A Ref store is the record of its two tables; a SQL statement is a
    function on them, and an error leaves the tables as they were (rollback).  The journal is
    the record of its five tables in the same way.  An object store is a map from paths to
    files; a directory that is scanned is a tree whose entries stand in the order in which
    [read_dir] yields them; an archive is a map from names to files.  Operations that write
    objects before they fail return the store next to the error.  The memo of an integrity
    check is threaded through its reads.

    Code outside src/ is a parameter: Unicode normalization ([nfc]), SHA-256 ([sha256], of
    which only the digest width is used), the object validator and the guard closure of a
    compare-and-swap, the operating system's clocks (samples or readings), the bytes of the
    random source, the JSON Schema validators, JSON pointers and the reader of the embedded schema documents,
    the text that serde_json makes of a value, and [char::to_lowercase]; so are the sources
    that synapse-observation compiles into itself.  The JSON text of an
    archive manifest is the class [ManifestFormat], whose law is that it reads back.

    Recursion that is not structural runs on fuel: the parser on [2 * length + 3] calls
    ([parse_strict_coded] shows it never runs out), the year search on 14 halvings and the
    month search on 12 steps ([from_unix_nanos_total]), the expansion of schema entries on the
    number of schema nodes plus one, since each call marks a new node as seen
    ([ingest_answers]), and the closure walk on [max_objects + max_edges + 1] steps, since
    every step is the entry or the exit of a node within these limits ([closure_answers]).
    The snapshot of a Commit takes [max_edges + 1] steps, since each entry is counted against
    [max_edges]; the closure of declared outputs takes as many steps as there are roots and
    edges, plus one ([publish_answers]).  The walk over the ancestry of a decision takes
    [max_edges + 1] steps for the same reason ([decision_answers]).  Repair runs as many rounds
    as there are files in the target and identifiers in the sources, plus one: a round that
    goes on restores an object or moves a file aside ([repair_terminates]).  The walks of a
    checkout take [max_authority_nodes + 1] and [max_tree_nodes + 1] steps, since each step
    is counted against these limits ([checkout_answers]).  The walks of the workflow over
    Decisions and snapshots end after 10,000 steps with an error, as in the code, and the reading
    of a published site takes 100,001 steps, since each counts a Tree against 100,000
    ([read_site_manifest_answers]).

    A workflow operation is sequential: during it nobody else changes a repository, and each of
    its calls of the Application runs alone; between operations anything may have happened to
    the repository.  The readings of the clock and the number of a new Application are arguments.

    What is no value of the code is an error of its own, which the error mappings of the store, the
    checkout, the workflow and the application keep: [Panic] (an [expect] that fails), [OutOfFuel], and [Aborted], the end of the process
    when an allocation asks for more than the 2^47 bytes that an address space holds
    ([string_with_capacity]; a machine with less memory ends earlier).  The only allocation whose
    size an input controls beyond its own length is that of [compare_scaled].

    ** What the theorems show

    Canonical JSON: parse and write are inverse on canonical text, canonical bytes identify
    values up to entry order ([canonical_bytes_identity]), the size pass is exact, the parser is total and sound, and
    accepted input can always be identified.  Identifiers: equal OIDs mean equal objects, or
    the two texts that were hashed for them collide ([collides] names both); the grammar of OIDs.  Time: parse/format round trip, text order is time
    order, two calendars agree, both clocks are monotone.  Paths: accepted paths stay inside
    their root.  Ref store: the reflog is the exact history of the Refs in every reachable
    state, compare-and-swap refines an atomic map update and never loses a race, archives
    round-trip, paging is complete.  Fixed point: unique normal forms, numeric comparison,
    exact decimal conversion.  Semantic rules: manifests.  Ingestion: it answers on all bytes with
    one exception, which is a defect: the comparison of a confidence pads by a scale that nothing
    has bounded yet, and ends the process ([ingest_answers], [confidence_aborts]); idempotent on
    its own canonical bytes.  Object
    store: what is put reads back, and intact objects are permanent; the scan of its directory
    is exact.  Whole repositories: a check is clean exactly when the repository is sound;
    repair ends and only adds verified copies that no Tombstone forbids, neither one of a source
    nor one of the repository; export and restore
    give the repository back, and a restore never harms what is there.  Closures: a complete
    report is exactly the set of reachable objects, has no structural cycle, and verification
    always answers.  AI publication: a publication moves one proposal Ref or nothing, is
    covered by an unexpired Grant and an applicable Policy, bound in the snapshot of the base that
    stands at the moment of the publication, contains no undeclared
    object, does what its preflight decided, and always answers; Policies decide by precedence.
    Human decisions: a decision moves one decision Ref from the head the human saw, says what
    the human decided, and no proposal is decided twice along one history.  Journal: every
    reachable journal is well-formed, the strict protocol never reads as corrupt, reviews move
    only along their state machine, outcomes and registrations answer retries for ever; one
    defect (a publication adopts a review whatever its state, and the restart view then rejects
    exactly those whose state needs what the journal does not have, [adoption_restart_view]).
    Application: in every interleaving of calls a publication is authorized at the moment it
    moves a Ref, revoked or replaced authority fences what was prepared under it, a permit is
    used at most once, prepared calls are admitted while their authority stands, the gate of a
    project is FIFO, and every call returns.  Artifacts: the loader accepts exactly the sets of
    files that every system can hold, the digest of a manifest names its files, and a checkout
    returns exactly the files that the bound Decision selected, and always answers.  Approvals: in
    every interleaving an approval is claimed at most once, for what it was issued.  Workflow:
    preparing moves no Ref, starts from an empty project or the verified current Decision with its
    snapshot and authority, and maps exactly the proposed files ([site_tree] says which Trees are
    those of a set of files); publishing moves exactly the Refs it names; a Decision is prepared only under a spent
    approval and published only while its proposal stands; recovery answers what was published
    and writes nothing; and the check of a history accepts exactly chains of generated Decisions.
    Durable reviews: the journal says that the outcome is unknown before a decision Ref may move;
    a reconciliation writes only to the journal, and only the verdict that the reflog of the Ref
    justifies; and after exactly the intended transition that verdict is that it is committed.
    Observation: a comparison says exactly whether the bytes are the same, and only adds objects.

    ** Not modelled

    Error messages, file-system and SQLite mechanics (opening, locking, fsync, temporary files
    and hard links, schema migration), mutex poisoning, the JSON Schema validator, the serde
    forms and [Debug] texts of public types, repositories on disk that were opened with other than
    the default limits, and the crates above, which are chiefly files, HTML, SQL views and HTTP:
    creator sessions, projection, publication, the HTTP server and the command line. *)

From stdpp Require Import base list numbers.
From Stdlib Require Import ZArith Lia.

#[local] Open Scope Z_scope.

(** ** Fallible computations *)

(** Rust's [Result<A, E>]. *)
Inductive result (E A : Type) : Type :=
| Ok (a : A)
| Err (e : E).

Arguments Ok {E A} a.
Arguments Err {E A} e.

#[export] Instance result_ret {E} : MRet (result E) := fun A a => Ok a.
#[export] Instance result_bind {E} : MBind (result E) :=
  fun A B f m => match m with Ok a => f a | Err e => Err e end.
#[export] Instance result_fmap {E} : FMap (result E) :=
  fun A B f m => match m with Ok a => Ok (f a) | Err e => Err e end.

#[export] Instance result_eq_dec {E A} `{EqDecision E, EqDecision A} : EqDecision (result E A).
Proof. solve_decision. Defined.

(** [opt.ok_or(e)] *)
Definition ok_or {E A} (o : option A) (e : E) : result E A :=
  match o with Some a => Ok a | None => Err e end.

(** A check written [if bad { return Err(e) }]. *)
Definition reject_if {E} (bad : bool) (e : E) : result E unit :=
  if bad then Err e else Ok tt.

(** A [for] loop that stops at the first error. *)
Fixpoint for_each {E A} (body : A -> result E unit) (l : list A) : result E unit :=
  match l with
  | [] => Ok tt
  | x :: l => body x ≫= fun _ => for_each body l
  end.

(** [result.map_err(f)] *)
Definition map_err {E F A} (f : E -> F) (r : result E A) : result F A :=
  match r with Ok a => Ok a | Err e => Err (f e) end.

Definition is_ok {E A} (r : result E A) : bool :=
  match r with Ok _ => true | Err _ => false end.

Lemma bind_Ok {E A B} (m : result E A) (f : A -> result E B) b :
  m ≫= f = Ok b <-> exists a, m = Ok a /\ f a = Ok b.
Proof.
  destruct m; simpl; split.
  all: first [ by eauto | intros (? & ? & ?); congruence | congruence ].
Qed.

Lemma bind_Err {E A B} (m : result E A) (f : A -> result E B) e :
  m ≫= f = Err e <-> m = Err e \/ exists a, m = Ok a /\ f a = Err e.
Proof.
  destruct m as [a|e']; simpl; split.
  - intros H. right. by exists a.
  - intros [?|(? & ? & ?)]; congruence.
  - intros [= ->]. by left.
  - intros [?|(? & ? & ?)]; congruence.
Qed.

Lemma fmap_Ok {E A B} (m : result E A) (f : A -> B) b :
  f <$> m = Ok b <-> exists a, m = Ok a /\ f a = b.
Proof.
  destruct m; simpl; split.
  - intros [= <-]. by eauto.
  - intros (? & ? & ?). congruence.
  - congruence.
  - intros (? & ? & ?). congruence.
Qed.

Lemma ok_or_Ok {E A} (o : option A) (e : E) a : ok_or o e = Ok a <-> o = Some a.
Proof. destruct o; simpl; split; congruence. Qed.

Lemma reject_if_Ok {E} b (e : E) u : reject_if b e = Ok u <-> b = false.
Proof. destruct b, u; simpl; split; congruence. Qed.

Lemma for_each_Ok {E A} (f : A -> result E unit) l u : for_each f l = Ok u <-> Forall (fun x => f x = Ok tt) l.
Proof.
  destruct u. induction l as [|x l IH]; cbn [for_each]; [done|]. rewrite bind_Ok, Forall_cons_iff, <- IH. split.
  - intros ([] & ? & ?). done.
  - intros [? ?]. by exists tt.
Qed.

Lemma map_err_Ok {E F A} (f : E -> F) (r : result E A) a : map_err f r = Ok a <-> r = Ok a.
Proof. destruct r; simpl; split; congruence. Qed.

(** [result_inv]: decompose every hypothesis [_ = Ok _] built from the
    combinators above. *)
Ltac result_inv :=
  repeat match goal with
  | H : _ ≫= _ = Ok _ |- _ => apply bind_Ok in H as (? & ? & H)
  | H : _ <$> _ = Ok _ |- _ => apply fmap_Ok in H as (? & H & ?)
  | H : ok_or _ _ = Ok _ |- _ => apply ok_or_Ok in H
  | H : reject_if _ _ = Ok _ |- _ => apply reject_if_Ok in H
  | H : map_err _ _ = Ok _ |- _ => apply map_err_Ok in H
  | H : Err _ = Ok _ |- _ => discriminate H
  | H : Ok ?a = Ok ?b |- _ => injection H as H; simplify_eq
  | H : (let '(_, _) := ?x in _) = Ok _ |- _ => is_var x; destruct x
  end.

(** Boolean tests of the code turned into propositions. *)
Ltac bool_props :=
  repeat match goal with
  | H : (_ && _)%bool = true |- _ => apply andb_true_iff in H as [? H]
  | H : (_ || _)%bool = false |- _ => apply orb_false_iff in H as [? H]
  | H : negb _ = true |- _ => apply negb_true_iff in H
  | H : negb _ = false |- _ => apply negb_false_iff in H
  | H : bool_decide _ = true |- _ => apply bool_decide_eq_true in H
  | H : bool_decide _ = false |- _ => apply bool_decide_eq_false in H
  | H : Z.gtb _ _ = _ |- _ => rewrite Z.gtb_ltb in H
  | H : Z.geb _ _ = _ |- _ => rewrite Z.geb_leb in H
  | H : Z.eqb _ _ = true |- _ => apply Z.eqb_eq in H
  | H : Z.eqb _ _ = false |- _ => apply Z.eqb_neq in H
  | H : Z.leb _ _ = true |- _ => apply Z.leb_le in H
  | H : Z.leb _ _ = false |- _ => apply Z.leb_gt in H
  | H : Z.ltb _ _ = true |- _ => apply Z.ltb_lt in H
  | H : Z.ltb _ _ = false |- _ => apply Z.ltb_ge in H
  end.

(** ** Machine integers *)

Definition usize_max : Z := 2 ^ 64 - 1.
Definition i64_min : Z := - 2 ^ 63.
Definition i64_max : Z := 2 ^ 63 - 1.
Definition i128_min : Z := - 2 ^ 127.
Definition i128_max : Z := 2 ^ 127 - 1.

Definition in_i64 (z : Z) : bool := (i64_min <=? z) && (z <=? i64_max).
Definition in_i128 (z : Z) : bool := (i128_min <=? z) && (z <=? i128_max).

(** [usize::checked_add] and [usize::saturating_add] on a 64-bit target, [i64::checked_add], [i128::checked_add]. *)
Definition usize_checked_add (a b : Z) : option Z :=
  if a + b <=? usize_max then Some (a + b) else None.
Definition usize_saturating_add (a b : Z) : Z := Z.min (a + b) usize_max.
Definition i64_checked_add (a b : Z) : option Z :=
  if in_i64 (a + b) then Some (a + b) else None.
Definition i128_checked_add (a b : Z) : option Z :=
  if in_i128 (a + b) then Some (a + b) else None.

(** [Vec::len], [str::len] and [slice::len] as a [usize]. *)
Definition len {A} (l : list A) : Z := Z.of_nat (length l).

Lemma len_nil {A} : len (@nil A) = 0.
Proof. reflexivity. Qed.

Lemma len_cons {A} (x : A) l : len (x :: l) = 1 + len l.
Proof. unfold len; simpl; lia. Qed.

Lemma len_app {A} (l k : list A) : len (l ++ k) = len l + len k.
Proof. unfold len; rewrite length_app; lia. Qed.

Lemma len_nonneg {A} (l : list A) : 0 <= len l.
Proof. unfold len; lia. Qed.

Create HintDb synapse discriminated.
Create Rewrite HintDb synapse.
#[export] Hint Resolve len_nonneg : synapse.
#[export] Hint Rewrite @len_nil @len_cons @len_app : synapse.

Ltac len_simpl := autorewrite with synapse in *.
Ltac len_lia := len_simpl;
  repeat match goal with
  | |- context [len ?l] => lazymatch goal with H : 0 <= len l |- _ => fail | _ => pose proof (len_nonneg l) end
  | H : context [len ?l] |- _ => lazymatch goal with H' : 0 <= len l |- _ => fail | _ => pose proof (len_nonneg l) end
  end; lia.
