(* ===== verification/Sorting.v ===== *)
(** * Stable insertion sort by a comparison, for the [sort_by] calls and ORDER BY clauses *)

From stdpp Require Import base list numbers sorting sets.
From Stdlib Require Import ZArith Lia.
From S2P Require Import Prelude.

Section SortBy.
Context {A : Type} (cmp : A -> A -> comparison).

Fixpoint insert_by (x : A) (l : list A) : list A :=
  match l with
  | [] => [x]
  | y :: l' => match cmp x y with Gt => y :: insert_by x l' | _ => x :: l end
  end.

Fixpoint sort_by (l : list A) : list A :=
  match l with
  | [] => []
  | x :: l => insert_by x (sort_by l)
  end.

(** The first two neighbours that compare equal: [windows(2).find(..)]. *)
Fixpoint adjacent_equal (l : list A) : bool :=
  match l with
  | x :: (y :: _) as l' => match cmp x y with Eq => true | _ => adjacent_equal l' end
  | _ => false
  end.

Definition cmp_le (x y : A) : Prop := cmp x y <> Gt.
Definition cmp_lt (x y : A) : Prop := cmp x y = Lt.

Lemma insert_by_perm x l : insert_by x l ≡ₚ x :: l.
Proof.
  induction l as [|y l IH]; simpl; [done|]. destruct (cmp x y); [done..|]. rewrite IH. by constructor.
Qed.

Lemma sort_by_perm l : sort_by l ≡ₚ l.
Proof. induction l as [|x l IH]; simpl; [done|]. by rewrite insert_by_perm, IH. Qed.

Lemma sort_by_id l : Sorted cmp_le l -> sort_by l = l.
Proof.
  induction 1 as [|x l Hl IH Hx]; simpl; [done|]. rewrite IH. destruct l as [|y l]; [done|].
  simpl. inversion Hx as [|? ? Hle]; subst. unfold cmp_le in Hle. by destruct (cmp x y).
Qed.

Lemma sorted_lt_le l : Sorted cmp_lt l -> Sorted cmp_le l.
Proof.
  induction 1 as [|x l Hl IH Hx]; constructor; [done|]. destruct Hx as [|y l Hxy]; constructor.
  unfold cmp_lt, cmp_le in *. congruence.
Qed.

Hypothesis antisym : forall x y, cmp y x = CompOpp (cmp x y).
Hypothesis lt_trans : forall x y z, cmp x y = Lt -> cmp y z = Lt -> cmp x z = Lt.

Lemma insert_by_sorted x l : Sorted cmp_le l -> Sorted cmp_le (insert_by x l).
Proof.
  induction 1 as [|y l Hl IH Hy]; simpl; [repeat constructor|].
  destruct (cmp x y) eqn:E; [constructor; [by constructor|constructor; unfold cmp_le; congruence]..|].
  assert (cmp_le y x) as Hyx by (unfold cmp_le; rewrite antisym, E; done).
  constructor; [done|]. destruct l as [|z l]; simpl; [by constructor|].
  destruct (cmp x z); try (by constructor). inversion Hy; subst. by constructor.
Qed.

Lemma sort_by_sorted l : Sorted cmp_le (sort_by l).
Proof. induction l; simpl; [constructor|]. by apply insert_by_sorted. Qed.

Lemma adjacent_equal_strict l : Sorted cmp_le l -> adjacent_equal l = false -> Sorted cmp_lt l.
Proof.
  induction 1 as [|x l Hl IH Hx]; intros H; [constructor|]. destruct l as [|y l]; [by repeat constructor|].
  simpl in H. inversion Hx as [|? ? Hle]; subst. unfold cmp_le in Hle.
  destruct (cmp x y) eqn:E; [done| |done]. constructor; [by apply IH|]. by constructor.
Qed.

Lemma strict_adjacent_equal l : Sorted cmp_lt l -> adjacent_equal l = false.
Proof.
  induction 1 as [|x l Hl IH Hx]; [done|]. destruct l as [|y l]; [done|]. simpl.
  inversion Hx as [|? ? Hlt]; subst. unfold cmp_lt in Hlt. rewrite Hlt. apply IH.
Qed.

#[local] Instance cmp_lt_transitive : Transitive cmp_lt.
Proof. intros x y z. apply lt_trans. Qed.

Lemma sorted_strong l : Sorted cmp_lt l -> StronglySorted cmp_lt l.
Proof. apply Sorted_StronglySorted, _. Qed.

(** Strictly sorted lists with the same elements are equal. *)
Lemma strict_sorted_unique l k : Sorted cmp_lt l -> Sorted cmp_lt k -> l ≡ₚ k -> l = k.
Proof.
  intros Hl Hk Hp. apply (Sorted_unique_strong cmp_lt); [|done..].
  intros x y _ _ Hxy Hyx. unfold cmp_lt in *. rewrite antisym, Hxy in Hyx. done.
Qed.

Lemma strict_sorted_NoDup l : Sorted cmp_lt l -> NoDup l.
Proof.
  intros Hs%sorted_strong. induction Hs as [|x l _ IH Hx]; constructor; [|done].
  intros Hin. rewrite Forall_forall in Hx. specialize (Hx x Hin). unfold cmp_lt in Hx.
  pose proof (antisym x x) as H. rewrite Hx in H. done.
Qed.

Lemma sort_by_strict l : Sorted cmp_lt l -> sort_by l = l.
Proof. intros H. by apply sort_by_id, sorted_lt_le. Qed.

(** Sorting a permutation of a strictly sorted list restores it. *)
Lemma sort_by_perm_strict l k :
  (forall x y, x ∈ l -> y ∈ l -> cmp x y = Eq -> x = y) -> NoDup l -> l ≡ₚ k -> sort_by l = sort_by k.
Proof.
  intros Heq Hn Hp.
  assert (forall m, m ≡ₚ l -> Sorted cmp_lt (sort_by m)) as Hs.
  { intros m Hm. pose proof (sort_by_sorted m) as Hs. assert (sort_by m ≡ₚ l) as Hpm by (transitivity m; [apply sort_by_perm|done]).
    assert (NoDup (sort_by m)) as Hnm by (by rewrite Hpm).
    assert (forall x, x ∈ sort_by m -> x ∈ l) as Hin by (intros x; by rewrite Hpm).
    clear Hpm Hm. induction Hs as [|x s Hs IH Hx]; [constructor|]. apply NoDup_cons in Hnm as [Hxs Hnm].
    constructor; [apply IH; [done|]; intros; apply Hin; by right|].
    destruct Hx as [|y s Hle]; constructor. unfold cmp_le, cmp_lt in *. destruct (cmp x y) eqn:E; [|done|done].
    apply Heq in E; [|apply Hin; set_solver..]. subst. set_solver. }
  apply strict_sorted_unique; [by apply Hs|by apply Hs|]. by rewrite !sort_by_perm.
Qed.
End SortBy.

(** ** Binary search *)

(** The loop of the standard library's [binary_search_by]: [size] values from [base] on. *)
Fixpoint binary_search_loop {A} (fuel : nat) (compare : A -> comparison) (l : list A) (base size : nat) : nat :=
  match fuel with
  | O => base
  | S fuel =>
    if (size <=? 1)%nat then base
    else
      let half := Nat.div2 size in
      let base := match compare <$> l !! (base + half)%nat with Some Gt | None => base | _ => (base + half)%nat end in
      binary_search_loop fuel compare l base (size - half)%nat
  end.

Definition binary_search_by {A} (compare : A -> comparison) (l : list A) : option nat :=
  let base := binary_search_loop (length l) compare l 0 (length l) in
  match compare <$> l !! base with Some Eq => Some base | _ => None end.

Lemma binary_search_loop_spec {A} (compare : A -> comparison) (l : list A) target :
  (forall i x, l !! i = Some x -> (i < target)%nat -> compare x = Lt) ->
  (forall x, l !! target = Some x -> compare x = Eq) ->
  (forall i x, l !! i = Some x -> (target < i)%nat -> compare x = Gt) ->
  forall fuel base size, (base <= target < base + size)%nat -> (base + size <= length l)%nat -> (size <= fuel)%nat ->
  binary_search_loop fuel compare l base size = target.
Proof.
  intros Hlt Heq Hgt. induction fuel as [|fuel IH]; intros base size Hb Hl Hf; [lia|]. cbn [binary_search_loop].
  destruct (Nat.leb_spec size 1); [lia|].
  pose proof (Nat.div2_odd size) as Hd. assert (Nat.b2n (Nat.odd size) <= 1)%nat by (destruct (Nat.odd size); cbn; lia).
  set (half := Nat.div2 size) in *. destruct (lookup_lt_is_Some_2 l (base + half)) as [x Hx]; [lia|]. rewrite Hx. cbn.
  destruct (lt_eq_lt_dec (base + half) target) as [[Hc|Hc]|Hc].
  - rewrite (Hlt _ _ Hx Hc). apply IH; lia.
  - rewrite Hc in Hx. rewrite (Heq _ Hx). apply IH; lia.
  - rewrite (Hgt _ _ Hx Hc). apply IH; lia.
Qed.
