(* ===== verification/Text.v ===== *)
(** * Rust text: [u8], [str], [char] and the string operations the sources use

    A [str] is its sequence of UTF-8 bytes, each byte a [Z] in [0, 256); a
    [char] is its Unicode scalar value.  [utf8_chars] is the validating decoder
    ([std::str::from_utf8] followed by [chars]), [encode_utf8] the encoder.
    The decimal formatting of integers, the splitting and prefix operations,
    and the lexicographic orders of byte and UTF-16 sequences are here too. *)

From stdpp Require Import base list numbers strings.
From Stdlib Require Import ZArith Lia.
From S2P Require Import Prelude.

#[local] Open Scope Z_scope.

Abbreviation byte := Z (only parsing).
Abbreviation char := Z (only parsing).
Abbreviation str := (list Z).

(** A string or byte-string literal of the sources. *)
Fixpoint lit (s : String.string) : str :=
  match s with
  | String.EmptyString => []
  | String.String c s => Z.of_N (Ascii.N_of_ascii c) :: lit s
  end.
Arguments lit s%_string : simpl never.

Definition is_u8 (b : Z) : Prop := 0 <= b < 256.

Definition str_eqb (a b : str) : bool := bool_decide (a = b).

Lemma str_eqb_eq a b : str_eqb a b = true <-> a = b.
Proof. unfold str_eqb. rewrite bool_decide_eq_true. done. Qed.

Lemma str_eqb_neq a b : str_eqb a b = false <-> a <> b.
Proof. unfold str_eqb. rewrite bool_decide_eq_false. done. Qed.

Lemma str_eqb_refl a : str_eqb a a = true.
Proof. by apply str_eqb_eq. Qed.

(** ** Character classes *)

Definition is_ascii_digit (b : byte) : bool := (48 <=? b) && (b <=? 57).
Definition is_ascii_lowercase (b : byte) : bool := (97 <=? b) && (b <=? 122).
Definition is_ascii_uppercase (b : byte) : bool := (65 <=? b) && (b <=? 90).
Definition is_ascii_alphabetic (b : byte) : bool := is_ascii_lowercase b || is_ascii_uppercase b.
Definition is_ascii_hexdigit (b : byte) : bool :=
  is_ascii_digit b || ((97 <=? b) && (b <=? 102)) || ((65 <=? b) && (b <=? 70)).

(** ** UTF-8 *)

(** A Unicode scalar value: what Rust's [char] can hold. *)
Definition char_ok (c : char) : bool :=
  (0 <=? c) && (c <? 1114112) && negb ((55296 <=? c) && (c <? 57344)).

(** [char::encode_utf8] *)
Definition encode_utf8 (c : char) : str :=
  if c <? 128 then [c]
  else if c <? 2048 then [192 + c / 64; 128 + c mod 64]
  else if c <? 65536 then [224 + c / 4096; 128 + c / 64 mod 64; 128 + c mod 64]
  else [240 + c / 262144; 128 + c / 4096 mod 64; 128 + c / 64 mod 64; 128 + c mod 64].

Definition len_utf8 (c : char) : Z :=
  if c <? 128 then 1 else if c <? 2048 then 2 else if c <? 65536 then 3 else 4.

Definition is_continuation (b : byte) : bool := (128 <=? b) && (b <? 192).

(** Decode the first scalar value of a byte sequence; [None] when the bytes do
    not start with a well-formed encoding (overlong forms, surrogates and
    values beyond U+10FFFF are ill-formed). *)
Definition utf8_next (bs : str) : option (char * str) :=
  match bs with
  | [] => None
  | b0 :: r0 =>
    if (0 <=? b0) && (b0 <? 128) then Some (b0, r0)
    else match r0 with
    | [] => None
    | b1 :: r1 =>
      if negb (is_continuation b1) then None
      else if (194 <=? b0) && (b0 <? 224) then
        Some ((b0 - 192) * 64 + (b1 - 128), r1)
      else match r1 with
      | [] => None
      | b2 :: r2 =>
        if negb (is_continuation b2) then None
        else if (224 <=? b0) && (b0 <? 240) then
          let c := (b0 - 224) * 4096 + (b1 - 128) * 64 + (b2 - 128) in
          if (2048 <=? c) && char_ok c then Some (c, r2) else None
        else match r2 with
        | [] => None
        | b3 :: r3 =>
          if negb (is_continuation b3) then None
          else if (240 <=? b0) && (b0 <? 245) then
            let c := (b0 - 240) * 262144 + (b1 - 128) * 4096 + (b2 - 128) * 64 + (b3 - 128) in
            if (65536 <=? c) && char_ok c then Some (c, r3) else None
          else None
        end
      end
    end
  end.

(** [n] bounds the number of characters; the length of the input is enough. *)
Fixpoint utf8_chars_fuel (n : nat) (bs : str) : option (list char) :=
  match bs with
  | [] => Some []
  | _ =>
    match n with
    | O => None
    | S n =>
      '(c, rest) ← utf8_next bs;
      cs ← utf8_chars_fuel n rest;
      Some (c :: cs)
    end
  end.

Definition utf8_chars (bs : str) : option (list char) := utf8_chars_fuel (length bs) bs.

(** [std::str::from_utf8(bytes).is_ok()]: the type invariant of [str]. *)
Definition utf8_valid (bs : str) : bool := bool_decide (is_Some (utf8_chars bs)).

(** [str::chars] *)
Definition chars (s : str) : list char := default [] (utf8_chars s).

(** [String::from_iter] of characters. *)
Definition string_of_chars (cs : list char) : str := concat (map encode_utf8 cs).

(** [char::encode_utf16] and [str::encode_utf16] *)
Definition encode_utf16_char (c : char) : list Z :=
  if c <? 65536 then [c]
  else [55296 + (c - 65536) / 1024; 56320 + (c - 65536) mod 1024].

Definition encode_utf16 (s : str) : list Z := concat (map encode_utf16_char (chars s)).

(** ** Lexicographic comparison ([Ord] of [str], [Vec<u8>], and UTF-16 iterators) *)

Fixpoint lex_compare (a b : list Z) : comparison :=
  match a, b with
  | [], [] => Eq
  | [], _ :: _ => Lt
  | _ :: _, [] => Gt
  | x :: a, y :: b =>
    match x ?= y with Eq => lex_compare a b | c => c end
  end.

(** ** Decimal text *)

(** Digits of [n], least significant last; [fuel] bounds the digit count. *)
Fixpoint show_digits (fuel : nat) (n : Z) : str :=
  match fuel with
  | O => [48 + n mod 10]
  | S fuel => if n <? 10 then [48 + n] else show_digits fuel (n / 10) ++ [48 + n mod 10]
  end.

(** [Display] of a non-negative integer. *)
Definition show_nonneg (n : Z) : str := show_digits (Z.to_nat (Z.log2 n)) n.

(** [Display] of an integer. *)
Definition show_int (n : Z) : str := if n <? 0 then 45 :: show_nonneg (- n) else show_nonneg n.

(** [{n:0w}] for a non-negative integer. *)
Definition show_padded (w : nat) (n : Z) : str :=
  let d := show_nonneg n in replicate (w - length d) 48 ++ d.

(** The value of a digit sequence, most significant first. *)
Definition digits_value (ds : str) : Z := fold_left (fun n d => n * 10 + (d - 48)) ds 0.

(** ** Splitting and prefixes *)

(** [str::strip_prefix] *)
Fixpoint strip_prefix (p s : str) : option str :=
  match p, s with
  | [], _ => Some s
  | x :: p, y :: s => if x =? y then strip_prefix p s else None
  | _ :: _, [] => None
  end.

Definition starts_with (p s : str) : bool := bool_decide (is_Some (strip_prefix p s)).

(** [str::parse::<i64>] on an optional [-] and digits. *)
Definition parse_i64 (s : str) : option Z :=
  let '(neg, ds) := match strip_prefix (lit "-") s with
                    | Some ds => (true, ds)
                    | None => (false, s)
                    end in
  if bool_decide (ds = []) || negb (forallb is_ascii_digit ds) then None
  else
    let v := if neg then - digits_value ds else digits_value ds in
    if in_i64 v then Some v else None.

(** [str::strip_suffix] *)
Definition strip_suffix (p s : str) : option str :=
  (@rev Z) <$> strip_prefix (rev p) (rev s).

Definition ends_with (p s : str) : bool := bool_decide (is_Some (strip_suffix p s)).

(** [char::is_control]: the general category Cc. *)
Definition is_control (c : char) : bool := (c <? 32) || ((127 <=? c) && (c <=? 159)).

(** [str::contains(char)] for an ASCII character. *)
Definition contains_byte (b : byte) (s : str) : bool := existsb (Z.eqb b) s.

(** [str::split(sep)] for an ASCII separator: always at least one piece. *)
Fixpoint split_on (sep : byte) (s : str) : list str :=
  match s with
  | [] => [[]]
  | b :: s =>
    if b =? sep then [] :: split_on sep s
    else match split_on sep s with
         | [] => [[b]]
         | piece :: pieces => (b :: piece) :: pieces
         end
  end.

(** [str::split_once(sep)] for an ASCII separator. *)
Fixpoint split_once (sep : byte) (s : str) : option (str * str) :=
  match s with
  | [] => None
  | b :: s =>
    if b =? sep then Some ([], s)
    else '(l, r) ← split_once sep s; Some (b :: l, r)
  end.

Fixpoint drop_leading (b : byte) (s : str) : str :=
  match s with
  | x :: r => if x =? b then drop_leading b r else s
  | [] => []
  end.

(** [str::trim_end_matches(char)] for an ASCII character. *)
Definition trim_end_matches (b : byte) (s : str) : str := rev (drop_leading b (rev s)).

(** [pieces.join(sep)] *)
Fixpoint join_with (sep : str) (ps : list str) : str :=
  match ps with
  | [] => []
  | [p] => p
  | p :: ps => p ++ sep ++ join_with sep ps
  end.
