(* ===== verification/Bytes.v ===== *)
(** * Byte strings for digests

    Integers as bytes, and lists of byte strings each preceded by its length, as the
    digests of the workspace frame what they hash. *)

From stdpp Require Import base list numbers.
From Stdlib Require Import ZArith Lia.
From S2P Require Import Prelude Text.

#[local] Open Scope Z_scope.

(** [u64::to_be_bytes] *)
Definition u64_be (n : Z) : list byte := map (fun i => Z.land (Z.shiftr n (8 * i)) 255) [7; 6; 5; 4; 3; 2; 1; 0].

(** [u64::try_from(part.len()).unwrap_or(u64::MAX)], then the part. *)
Definition framed (parts : list (list byte)) : list byte :=
  concat (map (fun part => u64_be (Z.min (len part) (2 ^ 64 - 1)) ++ part) parts).

Lemma u64_be_length n : length (u64_be n) = 8%nat.
Proof. done. Qed.

Lemma byte_at_testbit n i k : 0 <= i -> 0 <= k < 8 -> Z.testbit (Z.land (Z.shiftr n (8 * i)) 255) k = Z.testbit n (8 * i + k).
Proof.
  intros Hi Hk. rewrite Z.land_spec, Z.shiftr_spec by lia. change 255 with (Z.ones 8). rewrite Z.ones_spec_low by lia.
  rewrite andb_true_r. f_equal. lia.
Qed.

Lemma u64_be_inj m n : 0 <= m < 2 ^ 64 -> 0 <= n < 2 ^ 64 -> u64_be m = u64_be n -> m = n.
Proof.
  intros Hm Hn E. apply Z.bits_inj'. intros b Hb. destruct (Z_lt_le_dec b 64) as [Hlt|Hge].
  - assert (Hdiv : b = 8 * (b / 8) + b mod 8) by (apply Z.div_mod; lia).
    assert (Hmod : 0 <= b mod 8 < 8) by (apply Z.mod_pos_bound; lia).
    assert (Hq : 0 <= b / 8 < 8) by (split; [apply Z.div_pos; lia|apply Z.div_lt_upper_bound; lia]).
    rewrite Hdiv, <- !byte_at_testbit by lia. f_equal. unfold u64_be in E. cbn [map] in E. injection E as E7 E6 E5 E4 E3 E2 E1 E0.
    assert (b / 8 = 0 \/ b / 8 = 1 \/ b / 8 = 2 \/ b / 8 = 3 \/ b / 8 = 4 \/ b / 8 = 5 \/ b / 8 = 6 \/ b / 8 = 7) as Hcases by lia.
    destruct Hcases as [->|[->|[->|[->|[->|[->|[->| ->]]]]]]]; assumption.
  - rewrite !Z.bits_above_log2; [done| | | |]; try lia.
    + destruct (decide (n = 0)) as [->|]; [cbn; lia|]. apply Z.log2_lt_pow2; [lia|]. apply Z.lt_le_trans with (2 ^ 64); [lia|]. apply Z.pow_le_mono_r; lia.
    + destruct (decide (m = 0)) as [->|]; [cbn; lia|]. apply Z.log2_lt_pow2; [lia|]. apply Z.lt_le_trans with (2 ^ 64); [lia|]. apply Z.pow_le_mono_r; lia.
Qed.

(** A part shorter than 2^64 bytes. *)
Definition sized (part : list byte) : Prop := len part < 2 ^ 64.

(** The framing is injective, whatever the number of the parts. *)
Lemma framed_inj parts : forall parts', Forall sized parts -> Forall sized parts' -> framed parts = framed parts' -> parts = parts'.
Proof.
  unfold framed. induction parts as [|p parts IH]; intros [|p' parts'] Hs Hs'; cbn [map concat]; rewrite <- ?app_assoc; intros E; [done|done|done|].
  inversion_clear Hs as [|? ? Hp Hps]; inversion_clear Hs' as [|? ? Hp' Hps']. unfold sized in Hp, Hp'.
  apply app_inj_1 in E as [E1 E]; [|done]. pose proof (len_nonneg p). pose proof (len_nonneg p').
  apply u64_be_inj in E1; [|lia..]. assert (len p = len p') as El by lia.
  apply app_inj_1 in E as [-> E]; [|unfold len in El; lia]. f_equal. by apply IH.
Qed.
