(* ===== verification/TextFacts.v ===== *)
(** * Text: facts

    Bytes, characters and UTF-8; decimal formatting; splitting and joining. *)

From stdpp Require Import base list numbers strings.
From Stdlib Require Import ZArith Lia.
From S2P Require Import Prelude Text.

#[local] Open Scope Z_scope.

(** ** Facts about text: UTF-8 and decimal round trips, orders, splitting *)

(** ** UTF-8 *)

Ltac Zb := repeat match goal with
  | |- context [Z.ltb ?a ?b] => destruct (Z.ltb_spec a b)
  | |- context [Z.leb ?a ?b] => destruct (Z.leb_spec a b)
  end; simpl; try lia.

Lemma char_ok_spec c :
  char_ok c = true <-> 0 <= c < 1114112 /\ ~ (55296 <= c < 57344).
Proof. unfold char_ok. Zb; split; intros; try discriminate; try reflexivity; lia. Qed.

Lemma len_encode_utf8 c : len (encode_utf8 c) = len_utf8 c.
Proof. unfold encode_utf8, len_utf8. Zb; reflexivity. Qed.

Lemma encode_utf8_cons c : exists b r, encode_utf8 c = b :: r.
Proof. unfold encode_utf8. Zb; by eauto. Qed.

Lemma encode_utf8_u8 c : char_ok c = true -> Forall is_u8 (encode_utf8 c).
Proof.
  rewrite char_ok_spec. intros [H _]. unfold encode_utf8, is_u8.
  Zb; repeat constructor; try apply Z.mod_pos_bound; Z.to_euclidean_division_equations; lia.
Qed.

(** The lead byte of a multi-byte character is outside ASCII. *)
Lemma encode_utf8_lead c b r :
  char_ok c = true -> encode_utf8 c = b :: r -> (c < 128 /\ b = c /\ r = []) \/ (128 <= c /\ 194 <= b < 245).
Proof.
  rewrite char_ok_spec. unfold encode_utf8. intros [H ?].
  Zb; intros [= <- <-]; [by left | right..]; Z.to_euclidean_division_equations; lia.
Qed.

Ltac Zif := repeat (match goal with
  | |- context [if ?b then _ else _] =>
    first [ replace b with true by (symmetry; unfold is_continuation; Zb; Z.to_euclidean_division_equations; lia)
          | replace b with false by (symmetry; unfold is_continuation; Zb; Z.to_euclidean_division_equations; lia) ]
  end; simpl).

Lemma utf8_next_encode c r :
  char_ok c = true -> utf8_next (encode_utf8 c ++ r) = Some (c, r).
Proof.
  intros Hok. pose proof Hok as Hc. rewrite char_ok_spec in Hc. destruct Hc as [Hr Hs].
  unfold encode_utf8.
  destruct (Z.ltb_spec c 128); [simpl; Zif; done|].
  destruct (Z.ltb_spec c 2048); [simpl; Zif; do 2 f_equal; Z.to_euclidean_division_equations; lia|].
  destruct (Z.ltb_spec c 65536); simpl; Zif.
  - replace ((224 + c / 4096 - 224) * 4096 + (128 + c / 64 mod 64 - 128) * 64 + (128 + c mod 64 - 128))
      with c by (Z.to_euclidean_division_equations; lia).
    rewrite Hok. by Zb.
  - replace ((240 + c / 262144 - 240) * 262144 + (128 + c / 4096 mod 64 - 128) * 4096
      + (128 + c / 64 mod 64 - 128) * 64 + (128 + c mod 64 - 128))
      with c by (Z.to_euclidean_division_equations; lia).
    rewrite Hok. by Zb.
Qed.

Lemma utf8_next_inv bs c r :
  utf8_next bs = Some (c, r) -> char_ok c = true /\ bs = encode_utf8 c ++ r.
Proof.
  unfold utf8_next, is_continuation.
  destruct bs as [|b0 r0]; [done|].
  destruct (_ && _) eqn:E0.
  { intros [= <- <-]. bool_props. unfold encode_utf8. rewrite char_ok_spec. split; [lia|]. by Zb. }
  destruct r0 as [|b1 r1]; [done|].
  destruct (negb _) eqn:E1; [done|]. bool_props.
  destruct ((194 <=? b0) && _) eqn:E2.
  { intros [= <- <-]. bool_props. rewrite char_ok_spec. split; [lia|].
    unfold encode_utf8. Zb. repeat f_equal; Z.to_euclidean_division_equations; lia. }
  destruct r1 as [|b2 r2]; [done|].
  destruct (negb _) eqn:E3; [done|]. bool_props.
  destruct ((224 <=? b0) && _) eqn:E4.
  { destruct (_ && char_ok _) eqn:E5; intros [= <- <-]. bool_props. split; [done|].
    match goal with H : char_ok _ = true |- _ => rewrite char_ok_spec in H end.
    unfold encode_utf8. Zb. repeat f_equal; Z.to_euclidean_division_equations; lia. }
  destruct r2 as [|b3 r3]; [done|].
  destruct (negb _) eqn:E5; [done|]. bool_props.
  destruct ((240 <=? b0) && _) eqn:E6; [|done].
  destruct (_ && char_ok _) eqn:E7; intros [= <- <-]. bool_props. split; [done|].
  match goal with H : char_ok _ = true |- _ => rewrite char_ok_spec in H end.
  unfold encode_utf8. Zb. repeat f_equal; Z.to_euclidean_division_equations; lia.
Qed.

Lemma string_of_chars_cons c cs : string_of_chars (c :: cs) = encode_utf8 c ++ string_of_chars cs.
Proof. reflexivity. Qed.

Lemma string_of_chars_app cs ds : string_of_chars (cs ++ ds) = string_of_chars cs ++ string_of_chars ds.
Proof. unfold string_of_chars. by rewrite map_app, concat_app. Qed.

Lemma length_encode_utf8_pos c : (1 <= length (encode_utf8 c))%nat.
Proof. destruct (encode_utf8_cons c) as (b & r & ->). simpl. lia. Qed.

Lemma utf8_chars_fuel_encode cs : forall n,
  Forall (fun c => char_ok c = true) cs -> (length (string_of_chars cs) <= n)%nat ->
  utf8_chars_fuel n (string_of_chars cs) = Some cs.
Proof.
  induction cs as [|c cs IH]; intros n Hcs Hn; [by destruct n|].
  inversion Hcs as [|? ? Hc Hcs']; subst. rewrite string_of_chars_cons in *.
  pose proof (length_encode_utf8_pos c). rewrite length_app in Hn.
  destruct n as [|n]; [lia|].
  cbn [utf8_chars_fuel]. rewrite utf8_next_encode by done.
  destruct (encode_utf8_cons c) as (b & r & Hb). rewrite Hb. simpl.
  rewrite IH by (done || lia). done.
Qed.

Lemma utf8_chars_encode cs :
  Forall (fun c => char_ok c = true) cs -> utf8_chars (string_of_chars cs) = Some cs.
Proof. intros. by apply utf8_chars_fuel_encode. Qed.

Lemma utf8_chars_fuel_step n bs :
  bs <> [] ->
  utf8_chars_fuel (S n) bs = '(c, r) ← utf8_next bs; cs ← utf8_chars_fuel n r; Some (c :: cs).
Proof. by destruct bs. Qed.

Lemma utf8_chars_fuel_inv n : forall bs cs,
  utf8_chars_fuel n bs = Some cs ->
  Forall (fun c => char_ok c = true) cs /\ bs = string_of_chars cs.
Proof.
  induction n as [|n IH]; intros bs cs H.
  { destruct bs; simpl in H; simplify_eq. by split. }
  destruct (decide (bs = [])) as [->|Hne]; [simpl in H; simplify_eq; by split|].
  rewrite utf8_chars_fuel_step in H by done.
  destruct (utf8_next bs) as [[c r]|] eqn:E; simpl in H; [|done].
  destruct (utf8_chars_fuel n r) as [cs'|] eqn:E'; simpl in H; simplify_eq.
  apply IH in E' as [Hcs ->]. apply utf8_next_inv in E as [Hc ->].
  split; [by constructor | done].
Qed.

Lemma utf8_chars_inv bs cs :
  utf8_chars bs = Some cs -> Forall (fun c => char_ok c = true) cs /\ bs = string_of_chars cs.
Proof. apply utf8_chars_fuel_inv. Qed.

Lemma utf8_valid_spec s :
  utf8_valid s = true <-> exists cs, Forall (fun c => char_ok c = true) cs /\ s = string_of_chars cs.
Proof.
  unfold utf8_valid. rewrite bool_decide_eq_true. split.
  - intros [cs H]. exists cs. by apply utf8_chars_inv.
  - intros (cs & Hcs & ->). rewrite utf8_chars_encode by done. by eexists.
Qed.

Lemma chars_string_of_chars cs :
  Forall (fun c => char_ok c = true) cs -> chars (string_of_chars cs) = cs.
Proof. intros. unfold chars. by rewrite utf8_chars_encode. Qed.

Lemma string_of_chars_chars s : utf8_valid s = true -> string_of_chars (chars s) = s.
Proof. rewrite utf8_valid_spec. intros (cs & Hcs & ->). by rewrite chars_string_of_chars. Qed.

Lemma chars_char_ok s : Forall (fun c => char_ok c = true) (chars s).
Proof.
  unfold chars. destruct (utf8_chars s) eqn:E; simpl; [|constructor].
  by apply utf8_chars_inv in E as [? _].
Qed.

Lemma utf8_valid_string_of_chars cs :
  Forall (fun c => char_ok c = true) cs -> utf8_valid (string_of_chars cs) = true.
Proof. intros. apply utf8_valid_spec. by eauto. Qed.

Lemma utf8_valid_app s t : utf8_valid s = true -> utf8_valid t = true -> utf8_valid (s ++ t) = true.
Proof.
  rewrite !utf8_valid_spec. intros (cs & ? & ->) (ds & ? & ->).
  exists (cs ++ ds). split; [by apply Forall_app | by rewrite string_of_chars_app].
Qed.

Lemma utf8_valid_ascii s : Forall (fun b => 0 <= b < 128) s -> utf8_valid s = true.
Proof.
  intros H. apply utf8_valid_spec. exists s. split.
  - eapply Forall_impl; [done|]. intros b Hb. apply char_ok_spec. simpl in Hb. lia.
  - induction H as [|b s Hb _ IH]; [done|]. rewrite string_of_chars_cons, <- IH.
    unfold encode_utf8. by Zb.
Qed.

Lemma utf8_valid_cons_ascii b s : 0 <= b < 128 -> utf8_valid s = true -> utf8_valid (b :: s) = true.
Proof. intros. apply (utf8_valid_app [b]); [apply utf8_valid_ascii, Forall_singleton; done | done]. Qed.

Lemma utf8_valid_u8 s : utf8_valid s = true -> Forall is_u8 s.
Proof.
  rewrite utf8_valid_spec. intros (cs & Hcs & ->).
  induction Hcs; [constructor|]. rewrite string_of_chars_cons.
  apply Forall_app. by split; [apply encode_utf8_u8|].
Qed.

(** ** UTF-16 *)

Lemma encode_utf16_char_inj c d u v :
  char_ok c = true -> char_ok d = true ->
  encode_utf16_char c ++ u = encode_utf16_char d ++ v -> c = d /\ u = v.
Proof.
  rewrite !char_ok_spec. unfold encode_utf16_char. intros Hc Hd.
  Zb; intros H'; simplify_eq; try (split; [|done]); Z.to_euclidean_division_equations; try lia.
Qed.

Lemma encode_utf16_inj s t :
  utf8_valid s = true -> utf8_valid t = true -> encode_utf16 s = encode_utf16 t -> s = t.
Proof.
  rewrite !utf8_valid_spec. intros (cs & Hcs & ->) (ds & Hds & ->).
  unfold encode_utf16. rewrite !chars_string_of_chars by done. intros H. f_equal.
  revert ds Hds H. induction Hcs as [|c cs Hc Hcs IH]; intros [|d ds] Hds H; simpl in H; [done| | |].
  - exfalso. unfold encode_utf16_char in H. by destruct (d <? 65536).
  - exfalso. unfold encode_utf16_char in H. by destruct (c <? 65536).
  - inversion Hds; subst. apply encode_utf16_char_inj in H as [-> H]; [|done..].
    f_equal. by apply IH.
Qed.

(** ** Lexicographic order *)

Lemma lex_compare_refl a : lex_compare a a = Eq.
Proof. induction a; simpl; [done|]. by rewrite Z.compare_refl. Qed.

Lemma lex_compare_eq a : forall b, lex_compare a b = Eq <-> a = b.
Proof.
  induction a as [|x a IH]; intros [|y b]; simpl; try (split; congruence).
  destruct (Z.compare_spec x y) as [->|?|?]; [rewrite IH; split; congruence| |]; split; try done.
  all: intros [= -> ->]; lia.
Qed.

Lemma lex_compare_antisym a : forall b, lex_compare b a = CompOpp (lex_compare a b).
Proof.
  induction a as [|x a IH]; intros [|y b]; simpl; try done.
  rewrite Z.compare_antisym. destruct (x ?= y); simpl; auto.
Qed.

Lemma lex_compare_lt_trans a : forall b c,
  lex_compare a b = Lt -> lex_compare b c = Lt -> lex_compare a c = Lt.
Proof.
  induction a as [|x a IH]; intros [|y b] [|z c]; simpl; try done.
  destruct (Z.compare_spec x y), (Z.compare_spec y z), (Z.compare_spec x z);
    subst; try done; try lia; eauto.
Qed.

Lemma lex_compare_gt_lt a b : lex_compare a b = Gt <-> lex_compare b a = Lt.
Proof. rewrite (lex_compare_antisym a b). destruct (lex_compare a b); simpl; split; congruence. Qed.

(** ** Decimal text *)

Definition is_digits (ds : str) : Prop := Forall (fun d => is_ascii_digit d = true) ds.

Lemma is_ascii_digit_spec d : is_ascii_digit d = true <-> 48 <= d <= 57.
Proof. unfold is_ascii_digit. Zb; split; try lia; done. Qed.

Lemma is_digits_forallb ds : forallb is_ascii_digit ds = true <-> is_digits ds.
Proof.
  unfold is_digits. induction ds as [|d ds IH]; simpl; [by split|].
  rewrite andb_true_iff, IH, Forall_cons. done.
Qed.

Lemma digits_value_fold ds : forall n,
  fold_left (fun n d => n * 10 + (d - 48)) ds n = n * 10 ^ len ds + digits_value ds.
Proof.
  unfold digits_value. induction ds as [|d ds IH]; intros n; simpl; [len_simpl; lia|].
  rewrite IH, (IH (0 + _)). len_simpl. rewrite Z.pow_add_r by (try lia; auto with synapse). lia.
Qed.

Lemma digits_value_cons d ds : digits_value (d :: ds) = (d - 48) * 10 ^ len ds + digits_value ds.
Proof. unfold digits_value at 1. simpl. rewrite digits_value_fold. lia. Qed.

Lemma digits_value_app a b : digits_value (a ++ b) = digits_value a * 10 ^ len b + digits_value b.
Proof. unfold digits_value at 1. rewrite fold_left_app, digits_value_fold. done. Qed.

Lemma digits_value_bound ds : is_digits ds -> 0 <= digits_value ds < 10 ^ len ds.
Proof.
  induction 1 as [|d ds Hd _ IH]; [done|].
  apply is_ascii_digit_spec in Hd. rewrite digits_value_cons, len_cons.
  rewrite Z.pow_add_r by (try lia; auto with synapse). nia.
Qed.

Lemma digits_value_inj a b :
  is_digits a -> is_digits b -> len a = len b -> digits_value a = digits_value b -> a = b.
Proof.
  intros Ha. revert b. induction Ha as [|x a Hx Ha IH]; intros [|y b] Hb Hl Hv; len_simpl;
    try len_lia; [done|].
  inversion Hb; subst. rewrite !digits_value_cons in Hv.
  pose proof (digits_value_bound _ Ha). pose proof (digits_value_bound b ltac:(done)).
  rewrite is_ascii_digit_spec in *. assert (len a = len b) as Hab by lia. rewrite Hab in *.
  assert (x = y) by nia. subst. f_equal. apply IH; [done|done|]. lia.
Qed.

Lemma show_digits_spec fuel : forall n,
  0 <= n < 10 * 10 ^ Z.of_nat fuel ->
  is_digits (show_digits fuel n) /\ digits_value (show_digits fuel n) = n.
Proof.
  induction fuel as [|fuel IH]; intros n Hn; simpl.
  - rewrite Z.mod_small by (simpl in Hn; lia). split.
    + constructor; [|constructor]. apply is_ascii_digit_spec. simpl in Hn. lia.
    + unfold digits_value. simpl. lia.
  - destruct (Z.ltb_spec n 10).
    + split; [|unfold digits_value; simpl; lia].
      constructor; [|constructor]. apply is_ascii_digit_spec. lia.
    + destruct (IH (n / 10)) as [Hd Hv].
      { rewrite Nat2Z.inj_succ, Z.pow_succ_r in Hn by lia. Z.to_euclidean_division_equations; lia. }
      split.
      * apply Forall_app. split; [done|]. constructor; [|constructor].
        apply is_ascii_digit_spec. Z.to_euclidean_division_equations; lia.
      * rewrite digits_value_app, Hv. unfold digits_value. simpl. len_simpl.
        Z.to_euclidean_division_equations; lia.
Qed.

Lemma show_nonneg_fuel n : 0 <= n -> 0 <= n < 10 * 10 ^ Z.of_nat (Z.to_nat (Z.log2 n)).
Proof.
  intros Hn. rewrite Z2Nat.id by apply Z.log2_nonneg. split; [done|].
  destruct (decide (n = 0)) as [->|]; [done|].
  pose proof (Z.log2_spec n ltac:(lia)) as [_ H]. rewrite Z.pow_succ_r in H by apply Z.log2_nonneg.
  pose proof (Z.pow_le_mono_l 2 10 (Z.log2 n) ltac:(lia)). lia.
Qed.

Lemma show_nonneg_digits n : 0 <= n -> is_digits (show_nonneg n).
Proof. intros. by apply show_digits_spec, show_nonneg_fuel. Qed.

Lemma show_nonneg_value n : 0 <= n -> digits_value (show_nonneg n) = n.
Proof. intros. by apply show_digits_spec, show_nonneg_fuel. Qed.

Lemma show_digits_head fuel : forall n,
  0 < n < 10 * 10 ^ Z.of_nat fuel -> exists d ds, show_digits fuel n = d :: ds /\ 48 < d <= 57.
Proof.
  induction fuel as [|fuel IH]; intros n Hn; simpl.
  - rewrite Z.mod_small by (simpl in Hn; lia). do 2 eexists. split; [done|]. simpl in Hn. lia.
  - destruct (Z.ltb_spec n 10); [do 2 eexists; split; [done|]; lia|].
    destruct (IH (n / 10)) as (d & ds & -> & Hd).
    { rewrite Nat2Z.inj_succ, Z.pow_succ_r in Hn by lia. Z.to_euclidean_division_equations; lia. }
    by exists d, (ds ++ [48 + n mod 10]).
Qed.

Lemma show_nonneg_head n :
  0 < n -> exists d ds, show_nonneg n = d :: ds /\ 48 < d <= 57.
Proof.
  intros Hn. apply show_digits_head. pose proof (show_nonneg_fuel n ltac:(lia)). lia.
Qed.

Lemma show_nonneg_cons n :
  0 <= n -> exists d ds, show_nonneg n = d :: ds /\ 48 <= d <= 57.
Proof.
  intros Hn. destruct (decide (n = 0)) as [->|]; [by exists 48, []|].
  destruct (show_nonneg_head n) as (d & ds & -> & Hd); [lia|]. exists d, ds. split; [done|lia].
Qed.

(** A decimal numeral without a leading zero is the shortest one. *)
Lemma digits_value_lower d ds :
  is_digits (d :: ds) -> d <> 48 -> 10 ^ len ds <= digits_value (d :: ds).
Proof.
  intros H Hd. inversion H as [|? ? Hd' Hds]; subst. rewrite digits_value_cons.
  pose proof (digits_value_bound ds Hds). rewrite is_ascii_digit_spec in Hd'.
  pose proof (Z.pow_pos_nonneg 10 (len ds) ltac:(lia) ltac:(auto with synapse)). nia.
Qed.

Lemma numeral_unique a b :
  is_digits a -> is_digits b ->
  (a = lit "0" \/ exists d ds, a = d :: ds /\ d <> 48) ->
  (b = lit "0" \/ exists d ds, b = d :: ds /\ d <> 48) ->
  digits_value a = digits_value b -> a = b.
Proof.
  intros Ha Hb Ca Cb Hv. apply digits_value_inj; [done..| |done].
  pose proof (digits_value_bound a Ha) as Ba. pose proof (digits_value_bound b Hb) as Bb.
  destruct Ca as [->|(d & ds & -> & Hd)], Cb as [->|(e & es & -> & He)]; [done| | |].
  - pose proof (digits_value_lower _ _ Hb He) as L. rewrite <- Hv in L.
    change (digits_value (lit "0")) with 0 in L.
    pose proof (Z.pow_pos_nonneg 10 (len es) ltac:(lia) ltac:(auto with synapse)). lia.
  - pose proof (digits_value_lower _ _ Ha Hd) as L. rewrite Hv in L.
    change (digits_value (lit "0")) with 0 in L.
    pose proof (Z.pow_pos_nonneg 10 (len ds) ltac:(lia) ltac:(auto with synapse)). lia.
  - pose proof (digits_value_lower _ _ Ha Hd). pose proof (digits_value_lower _ _ Hb He).
    rewrite !len_cons in *.
    assert (len ds < 1 + len es) by (apply (Z.pow_lt_mono_r_iff 10); len_lia).
    assert (len es < 1 + len ds) by (apply (Z.pow_lt_mono_r_iff 10); len_lia). lia.
Qed.

Lemma show_int_shape n :
  (0 <= n /\ exists d ds, show_int n = d :: ds /\ 48 <= d <= 57 /\ is_digits (d :: ds) /\ (d = 48 -> ds = []))
  \/ (n < 0 /\ exists d ds, show_int n = 45 :: d :: ds /\ 48 < d <= 57 /\ is_digits (d :: ds)).
Proof.
  unfold show_int. destruct (Z.ltb_spec n 0).
  - right. split; [done|]. destruct (show_nonneg_head (- n)) as (d & ds & E & Hd); [lia|].
    exists d, ds. rewrite E. split_and!; [done|lia|lia|].
    rewrite <- E. apply show_nonneg_digits. lia.
  - left. split; [done|]. destruct (decide (n = 0)) as [->|].
    + exists 48, []. split_and!; [done|lia|lia| |done]. repeat constructor.
    + destruct (show_nonneg_head n) as (d & ds & E & Hd); [lia|].
      exists d, ds. rewrite E. split_and!; [done|lia|lia| |lia].
      rewrite <- E. apply show_nonneg_digits. lia.
Qed.

Lemma strip_prefix_cons_ne x p y s : x <> y -> strip_prefix (x :: p) (y :: s) = None.
Proof. intros H. cbn [strip_prefix]. by rewrite (proj2 (Z.eqb_neq x y)). Qed.

Lemma strip_prefix_cons_eq x p s : strip_prefix (x :: p) (x :: s) = strip_prefix p s.
Proof. cbn [strip_prefix]. by rewrite Z.eqb_refl. Qed.

Lemma parse_i64_show n : in_i64 n = true -> parse_i64 (show_int n) = Some n.
Proof.
  intros Hn. unfold parse_i64, show_int. change (lit "-") with [45].
  destruct (Z.ltb_spec n 0).
  - destruct (show_nonneg_cons (- n)) as (d & ds & E & Hd); [lia|].
    rewrite strip_prefix_cons_eq. cbn [strip_prefix].
    rewrite bool_decide_eq_false_2 by (rewrite E; done).
    rewrite (proj2 (is_digits_forallb _)) by (apply show_nonneg_digits; lia). cbn [negb orb].
    rewrite show_nonneg_value by lia. by rewrite Z.opp_involutive, Hn.
  - destruct (show_nonneg_cons n) as (d & ds & E & Hd); [lia|].
    rewrite E at 1. rewrite strip_prefix_cons_ne by lia.
    rewrite bool_decide_eq_false_2 by (rewrite E; done).
    rewrite (proj2 (is_digits_forallb _)) by (apply show_nonneg_digits; lia). cbn [negb orb].
    by rewrite show_nonneg_value, Hn by lia.
Qed.

(** ** Fixed-width decimal fields *)

Lemma show_nonneg_len n w : 0 <= n < 10 ^ Z.of_nat w -> (0 < w)%nat -> (length (show_nonneg n) <= w)%nat.
Proof.
  intros Hn Hw. destruct (decide (n = 0)) as [->|]; [simpl; lia|].
  destruct (show_nonneg_head n) as (d & ds & E & Hd); [lia|].
  pose proof (show_nonneg_digits n ltac:(lia)) as Hdig. rewrite E in Hdig.
  pose proof (digits_value_lower d ds Hdig ltac:(lia)) as L.
  rewrite <- E, show_nonneg_value in L by lia.
  assert (len ds < Z.of_nat w) by (apply (Z.pow_lt_mono_r_iff 10); len_lia).
  rewrite E. unfold len in *. simpl. lia.
Qed.

Lemma digits_value_zeros k ds : digits_value (replicate k 48 ++ ds) = digits_value ds.
Proof. induction k as [|k IH]; simpl; [done|]. rewrite digits_value_cons, IH. lia. Qed.

Lemma show_padded_spec w n :
  0 <= n < 10 ^ Z.of_nat w -> (0 < w)%nat ->
  length (show_padded w n) = w /\ is_digits (show_padded w n) /\ digits_value (show_padded w n) = n.
Proof.
  intros Hn Hw. unfold show_padded. pose proof (show_nonneg_len n w Hn Hw).
  split_and!.
  - rewrite length_app, length_replicate. lia.
  - apply Forall_app. split; [|apply show_nonneg_digits; lia].
    apply Forall_replicate. done.
  - rewrite digits_value_zeros. apply show_nonneg_value. lia.
Qed.

(** Fixed-width numerals compare as their values do. *)
Lemma lex_compare_digits a : forall b u v,
  is_digits a -> is_digits b -> length a = length b ->
  lex_compare (a ++ u) (b ++ v) =
  match digits_value a ?= digits_value b with Eq => lex_compare u v | c => c end.
Proof.
  induction a as [|x a IH]; intros [|y b] u v Ha Hb Hl; simpl in Hl; try done.
  inversion Ha as [|? ? Hx Ha']; inversion Hb as [|? ? Hy Hb']; subst.
  rewrite !digits_value_cons. simpl. rewrite IH by (done || lia).
  assert (len a = len b) as -> by (unfold len; lia).
  pose proof (digits_value_bound a Ha') as Ba. pose proof (digits_value_bound b Hb') as Bb.
  assert (len a = len b) as Hab by (unfold len; lia). rewrite Hab in Ba.
  destruct (Z.compare_spec x y) as [->|Hlt|Hlt].
  - destruct (Z.compare_spec (digits_value a) (digits_value b)), (Z.compare_spec
      ((y - 48) * 10 ^ len b + digits_value a) ((y - 48) * 10 ^ len b + digits_value b)); try done; lia.
  - rewrite (proj2 (Z.compare_lt_iff _ _)) by nia. done.
  - rewrite (proj2 (Z.compare_gt_iff _ _)) by nia. done.
Qed.

(** ** Facts about splitting and joining text *)

Lemma contains_byte_spec b s : contains_byte b s = true <-> b ∈ s.
Proof.
  unfold contains_byte. rewrite existsb_exists. split.
  - intros (x & Hx & E). apply Z.eqb_eq in E as ->. by apply list_elem_of_In.
  - intros H. exists b. split; [by apply list_elem_of_In|]. by apply Z.eqb_refl.
Qed.

Lemma contains_byte_false b s : contains_byte b s = false <-> b ∉ s.
Proof. rewrite <- contains_byte_spec. destruct (contains_byte b s); split; done. Qed.

Lemma split_on_cons_ne sep b s piece pieces :
  b <> sep -> split_on sep s = piece :: pieces -> split_on sep (b :: s) = (b :: piece) :: pieces.
Proof. intros Hne E. cbn [split_on]. by rewrite (proj2 (Z.eqb_neq b sep)), E by done. Qed.

Lemma split_on_nonempty sep s : exists piece pieces, split_on sep s = piece :: pieces.
Proof.
  induction s as [|b s (p & ps & IH)]; [by do 2 eexists|]. cbn [split_on].
  destruct (b =? sep); [by do 2 eexists|]. rewrite IH. by do 2 eexists.
Qed.

Lemma split_on_app sep a s : sep ∉ a -> split_on sep (a ++ sep :: s) = a :: split_on sep s.
Proof.
  induction a as [|b a IH]; intros Hn.
  - cbn [app split_on]. by rewrite Z.eqb_refl.
  - apply not_elem_of_cons in Hn as [Hb Hn]. cbn [app]. by apply split_on_cons_ne; [congruence|auto].
Qed.

Lemma split_on_single sep a : sep ∉ a -> split_on sep a = [a].
Proof.
  induction a as [|b a IH]; intros Hn; [done|]. apply not_elem_of_cons in Hn as [Hb Hn].
  by apply split_on_cons_ne; [congruence|auto].
Qed.

Lemma split_on_app_sep sep a s : split_on sep (a ++ sep :: s) = split_on sep a ++ split_on sep s.
Proof.
  induction a as [|b a IH]; cbn [app split_on]; [by rewrite Z.eqb_refl|]. rewrite IH.
  destruct (split_on_nonempty sep a) as (p & ps & ->). by destruct (b =? sep).
Qed.

Lemma join_with_app sep a b : a <> [] -> b <> [] -> join_with [sep] (a ++ b) = join_with [sep] a ++ sep :: join_with [sep] b.
Proof.
  intros Ha Hb. induction a as [|p a IH]; [done|]. destruct a as [|q a].
  - destruct b as [|r b]; done.
  - change (join_with [sep] ((p :: q :: a) ++ b)) with (p ++ [sep] ++ join_with [sep] ((q :: a) ++ b)).
    rewrite IH by done. change (join_with [sep] (p :: q :: a)) with (p ++ [sep] ++ join_with [sep] (q :: a)).
    by rewrite <- !app_assoc.
Qed.

(** Splitting a joined list of pieces that do not contain the separator. *)
Lemma split_on_join sep ps :
  ps <> [] -> Forall (fun p => sep ∉ p) ps -> split_on sep (join_with [sep] ps) = ps.
Proof.
  intros Hne H. induction H as [|p ps Hp Hps IH]; [done|]. destruct ps as [|q ps].
  - by apply split_on_single.
  - change (join_with [sep] (p :: q :: ps)) with (p ++ sep :: join_with [sep] (q :: ps)).
    rewrite split_on_app by done. f_equal. by apply IH.
Qed.

(** The pieces joined again give the text. *)
Lemma join_split_on sep s : join_with [sep] (split_on sep s) = s.
Proof.
  induction s as [|b s IH]; [done|]. cbn [split_on]. destruct (split_on_nonempty sep s) as (p & ps & E).
  destruct (Z.eqb_spec b sep) as [->|_]; rewrite E in *.
  - change (join_with [sep] ([] :: p :: ps)) with (sep :: join_with [sep] (p :: ps)). by rewrite IH.
  - destruct ps as [|q ps]; [by cbn [join_with] in *; subst|].
    change (join_with [sep] ((b :: p) :: q :: ps)) with (b :: (p ++ [sep] ++ join_with [sep] (q :: ps))).
    f_equal. exact IH.
Qed.

Lemma split_on_pieces sep s : Forall (fun p => sep ∉ p) (split_on sep s).
Proof.
  induction s as [|b s IH]; [repeat constructor; apply not_elem_of_nil|]. cbn [split_on].
  destruct (split_on_nonempty sep s) as (p & ps & E). rewrite E in *. inversion IH; subst.
  destruct (Z.eqb_spec b sep) as [->|Hne]; [by constructor; [apply not_elem_of_nil|]|].
  constructor; [|done]. by apply not_elem_of_cons.
Qed.

Lemma split_on_elem sep s p x : p ∈ split_on sep s -> x ∈ p -> x ∈ s.
Proof.
  revert p. induction s as [|b s IH]; intros p; cbn [split_on].
  { intros ->%list_elem_of_singleton ?. done. }
  destruct (split_on_nonempty sep s) as (q & qs & E). rewrite E in *.
  destruct (b =? sep).
  - intros [->|H]%elem_of_cons Hx; [by apply not_elem_of_nil in Hx|]. right. by eapply IH.
  - intros [->|H]%elem_of_cons Hx.
    + apply elem_of_cons in Hx as [->|Hx]; [left|right]. eapply IH; [by left|done].
    + right. eapply IH; [by right|done].
Qed.

(** A separator that occurs in neither prefix marks where they end. *)
Lemma sep_app_inj {A} (sep : A) a b x y :
  sep ∉ a -> sep ∉ b -> a ++ sep :: x = b ++ sep :: y -> a = b /\ x = y.
Proof.
  revert b. induction a as [|c a IH]; intros [|d b] Ha Hb E; cbn [app] in E; simplify_eq.
  - done.
  - by apply not_elem_of_cons in Hb as [? _].
  - by apply not_elem_of_cons in Ha as [? _].
  - apply not_elem_of_cons in Ha as [_ Ha]. apply not_elem_of_cons in Hb as [_ Hb].
    destruct (IH b Ha Hb ltac:(done)) as [-> ->]. done.
Qed.

Lemma digits_not_elem b ds : is_digits ds -> b < 48 \/ 57 < b -> b ∉ ds.
Proof.
  intros H Hb Hin. unfold is_digits in H. rewrite Forall_forall in H.
  apply H, is_ascii_digit_spec in Hin. lia.
Qed.

Lemma show_int_not_nul n : 0 <= n -> 0 ∉ show_int n.
Proof.
  intros Hn. unfold show_int. rewrite (proj2 (Z.ltb_ge n 0)) by done.
  apply digits_not_elem; [by apply show_nonneg_digits|lia].
Qed.

Lemma strip_prefix_Some p : forall s r, strip_prefix p s = Some r <-> s = p ++ r.
Proof.
  induction p as [|x p IH]; intros [|y s] r; cbn [strip_prefix app]; try (split; congruence).
  destruct (Z.eqb_spec x y) as [->|Hne]; [rewrite IH|]; split; congruence.
Qed.
