(* ===== verification/BTree.v ===== *)
(** * Ordered sets and maps of strings

    [BTreeSet<String>] and [BTreeMap<String, V>] as lists in the order of their keys. *)

From Stdlib Require Import ZArith Lia Sorted.
From stdpp Require Import base list numbers sorting sets.
From S2P Require Import Prelude Sorting Text TextFacts.

#[local] Open Scope Z_scope.

(** ** Sets of strings in their order

    A [BTreeSet<String>] in its iteration order, which is also what [sort_unstable]
    and [dedup] leave of a [Vec<String>]. *)

(** [sort_unstable(); dedup();] *)
Definition sort_dedup (ss : list str) : list str := sort_by lex_compare (remove_dups ss).

Abbreviation lex_lt := (cmp_lt lex_compare).

Lemma elem_of_sort_dedup s ss : s ∈ sort_dedup ss <-> s ∈ ss.
Proof. unfold sort_dedup. by rewrite sort_by_perm, elem_of_remove_dups. Qed.

Lemma sort_strs_sorted ss : NoDup ss -> Sorted lex_lt (sort_by lex_compare ss).
Proof.
  intros Hn. apply adjacent_equal_strict; [apply sort_by_sorted; intros; apply lex_compare_antisym|].
  assert (NoDup (sort_by lex_compare ss)) as Hs by (by rewrite sort_by_perm).
  clear Hn. induction (sort_by lex_compare ss) as [|x l IH]; [done|]. destruct l as [|y l]; [done|].
  cbn [adjacent_equal]. apply NoDup_cons in Hs as [Hx Hs].
  destruct (lex_compare x y) eqn:E; [|by apply IH..]. apply lex_compare_eq in E as ->. set_solver.
Qed.

Lemma sort_dedup_sorted ss : Sorted lex_lt (sort_dedup ss).
Proof. apply sort_strs_sorted, NoDup_remove_dups. Qed.

Lemma sorted_strs_NoDup ss : Sorted lex_lt ss -> NoDup ss.
Proof. apply strict_sorted_NoDup; intros; [apply lex_compare_antisym|by eapply lex_compare_lt_trans]. Qed.

(** Strictly sorted lists with the same elements are equal. *)
Lemma sorted_strs_ext l k : Sorted lex_lt l -> Sorted lex_lt k -> (forall s, s ∈ l <-> s ∈ k) -> l = k.
Proof.
  intros Hl Hk He. apply (strict_sorted_unique lex_compare); [apply lex_compare_antisym|apply lex_compare_lt_trans|done..|].
  apply NoDup_Permutation; [by apply sorted_strs_NoDup|by apply sorted_strs_NoDup|done].
Qed.

Lemma sort_dedup_ext l k : (forall s, s ∈ l <-> s ∈ k) -> sort_dedup l = sort_dedup k.
Proof. intros He. apply sorted_strs_ext; [apply sort_dedup_sorted..|]. intros s. by rewrite !elem_of_sort_dedup. Qed.

Lemma sort_dedup_id l : Sorted lex_lt l -> sort_dedup l = l.
Proof.
  intros Hl. apply sorted_strs_ext; [apply sort_dedup_sorted|done|]. intros s. apply elem_of_sort_dedup.
Qed.

Lemma sort_strs_id l : Sorted lex_lt l -> sort_by lex_compare l = l.
Proof. apply sort_by_strict. Qed.

Lemma len_sort_dedup l : NoDup l -> len (sort_dedup l) = len l.
Proof.
  intros Hn. unfold len. f_equal. apply Permutation_length. unfold sort_dedup. rewrite sort_by_perm.
  apply NoDup_Permutation; [apply NoDup_remove_dups|done|]. intros s. apply elem_of_remove_dups.
Qed.

(** ** Ordered maps

    [BTreeMap<String, V>] as the list of its entries in the order of their keys, bytewise. *)

Section BTree.
Context {V : Type}.

Abbreviation btree := (list (str * V)).

(** [BTreeMap::get] *)
Fixpoint bt_get (key : str) (m : btree) : option V :=
  match m with
  | [] => None
  | (k, v) :: m =>
    match lex_compare key k with Lt => None | Eq => Some v | Gt => bt_get key m end
  end.

(** [BTreeMap::insert] *)
Fixpoint bt_insert (key : str) (value : V) (m : btree) : btree :=
  match m with
  | [] => [(key, value)]
  | (k, v) :: m' =>
    match lex_compare key k with
    | Lt => (key, value) :: m
    | Eq => (key, value) :: m'
    | Gt => (k, v) :: bt_insert key value m'
    end
  end.

(** The keys are strictly increasing. *)
Definition bt_ok (m : btree) : Prop := StronglySorted lex_lt (map fst m).

Lemma bt_nil_ok : bt_ok [].
Proof. constructor. Qed.

Lemma bt_cons_inv e m : bt_ok (e :: m) -> bt_ok m /\ forall k v, (k, v) ∈ m -> lex_compare (fst e) k = Lt.
Proof.
  unfold bt_ok. cbn [map]. intros H. apply StronglySorted_inv in H as [H Hf]. split; [exact H|]. intros k v Hin.
  rewrite Forall_map, Forall_forall in Hf.
  exact (Hf _ Hin).
Qed.

Lemma bt_get_elem m : bt_ok m -> forall key v, bt_get key m = Some v <-> (key, v) ∈ m.
Proof.
  induction m as [|[k w] m IH]; intros Hm key v; [split; [done|by intros ?%not_elem_of_nil]|].
  apply bt_cons_inv in Hm as [Hm Hlt]. cbn [bt_get fst] in *. rewrite elem_of_cons.
  destruct (lex_compare key k) eqn:E.
  - apply lex_compare_eq in E as ->. split; [intros [= ->]; by left|]. intros [[= ->]|Hin]; [done|].
    apply Hlt in Hin. by rewrite lex_compare_refl in Hin.
  - split; [done|]. intros [[= -> ->]|Hin]; [by rewrite lex_compare_refl in E|]. apply Hlt in Hin.
    pose proof (lex_compare_lt_trans _ _ _ E Hin) as Hc. by rewrite lex_compare_refl in Hc.
  - rewrite IH by done. split; [by right|]. intros [[= -> ->]|]; [by rewrite lex_compare_refl in E|done].
Qed.

Lemma bt_insert_elem m key value : bt_ok m -> forall k v,
  (k, v) ∈ bt_insert key value m <-> (k = key /\ v = value) \/ (k <> key /\ (k, v) ∈ m).
Proof.
  induction m as [|[k0 v0] m IH]; intros Hm k v; cbn [bt_insert].
  { rewrite list_elem_of_singleton. split; [intros [= -> ->]; by left|]. intros [[-> ->]|[_ H]]; [done|by apply not_elem_of_nil in H]. }
  apply bt_cons_inv in Hm as [Hm Hlt]. cbn [fst] in Hlt. destruct (lex_compare key k0) eqn:E.
  - apply lex_compare_eq in E as ->. rewrite !elem_of_cons. split.
    + intros [[= -> ->]|Hin]; [by left|right]. split; [|by right]. intros ->. apply Hlt in Hin. by rewrite lex_compare_refl in Hin.
    + intros [[-> ->]|[Hne [[= -> ->]|Hin]]]; [by left|done|by right].
  - rewrite elem_of_cons. split.
    + intros [[= -> ->]|Hin]; [by left|right]. split; [|done]. intros ->. apply elem_of_cons in Hin as [[= -> ->]|Hin].
      * by rewrite lex_compare_refl in E.
      * apply Hlt in Hin. pose proof (lex_compare_lt_trans _ _ _ E Hin) as Hc. by rewrite lex_compare_refl in Hc.
    + intros [[-> ->]|[_ Hin]]; [by left|by right].
  - rewrite !elem_of_cons, IH by done. split.
    + intros [[= -> ->]|[?|[? ?]]]; [right|by left|by right; split; [|right]]. split; [|by left]. intros ->. by rewrite lex_compare_refl in E.
    + intros [?|[Hne [?|?]]]; [by right; left|by left|by right; right].
Qed.

Lemma bt_insert_ok m key value : bt_ok m -> bt_ok (bt_insert key value m).
Proof.
  induction m as [|[k v] m IH]; intros Hm; cbn [bt_insert]; [repeat constructor|].
  pose proof Hm as Hm'. apply bt_cons_inv in Hm' as [Hm' Hlt]. cbn [fst] in Hlt. destruct (lex_compare key k) eqn:E.
  - apply lex_compare_eq in E as ->. exact Hm.
  - unfold bt_ok in *. cbn [map fst] in *. constructor; [exact Hm|]. constructor; [exact E|]. rewrite Forall_map. apply Forall_forall. intros [k' v'] Hin.
    cbn [fst]. by eapply lex_compare_lt_trans, Hlt.
  - unfold bt_ok in *. cbn [map fst] in *. constructor; [by apply IH|]. rewrite Forall_map. apply Forall_forall. intros [k' v'] Hin. cbn [fst].
    apply bt_insert_elem in Hin as [[-> ->]|[_ Hin]]; [by apply lex_compare_gt_lt|by eapply Hlt|done].
Qed.

Lemma bt_get_insert m key value k : bt_ok m ->
  bt_get k (bt_insert key value m) = if decide (k = key) then Some value else bt_get k m.
Proof.
  intros Hm. pose proof (bt_insert_ok m key value Hm) as Hi. apply option_eq. intros v.
  rewrite (bt_get_elem _ Hi), bt_insert_elem by done. case_decide as E.
  - split; [intros [[_ ->]|[? _]]; done|intros [= ->]; by left].
  - rewrite bt_get_elem by done. split; [intros [[? _]|[_ ?]]; done|by right].
Qed.

(** Two ordered maps with the same entries are equal. *)
Lemma bt_ext m m' : bt_ok m -> bt_ok m' -> (forall k v, (k, v) ∈ m <-> (k, v) ∈ m') -> m = m'.
Proof.
  revert m'. induction m as [|[k v] m IH]; intros m' Hm Hm' He.
  - destruct m' as [|[k' v'] m']; [done|]. specialize (He k' v'). rewrite elem_of_nil in He. set_solver.
  - destruct m' as [|[k' v'] m']; [specialize (He k v); rewrite elem_of_nil in He; set_solver|].
    apply bt_cons_inv in Hm as [Hm Hlt]. apply bt_cons_inv in Hm' as [Hm' Hlt']. cbn [fst] in *.
    assert ((k, v) = (k', v')) as E.
    { pose proof (proj1 (He k v) ltac:(by left)) as H1. pose proof (proj2 (He k' v') ltac:(by left)) as H2.
      apply elem_of_cons in H1 as [|H1]; [done|]. apply elem_of_cons in H2 as [|H2]; [done|].
      apply Hlt in H2. apply Hlt' in H1. pose proof (lex_compare_lt_trans _ _ _ H1 H2) as Hc. by rewrite lex_compare_refl in Hc. }
    injection E as <- <-. f_equal. apply IH; [done..|]. intros k1 v1. split; intros Hin.
    + pose proof (proj1 (He k1 v1) ltac:(by right)) as H1. apply elem_of_cons in H1 as [[= -> ->]|]; [|done].
      apply Hlt in Hin. by rewrite lex_compare_refl in Hin.
    + pose proof (proj2 (He k1 v1) ltac:(by right)) as H1. apply elem_of_cons in H1 as [[= -> ->]|]; [|done].
      apply Hlt' in Hin. by rewrite lex_compare_refl in Hin.
Qed.

Lemma bt_insert_len m key value : bt_ok m -> bt_get key m = None -> len (bt_insert key value m) = len m + 1.
Proof.
  induction m as [|[k v] m IH]; intros Hm Hg; cbn [bt_insert bt_get] in *; [done|].
  destruct (lex_compare key k) eqn:E; [done|by len_lia|]. apply bt_cons_inv in Hm as [Hm _]. rewrite !len_cons, IH by done. lia.
Qed.

Lemma bt_keys_NoDup m : bt_ok m -> NoDup (map fst m).
Proof. intros H. by apply sorted_strs_NoDup, StronglySorted_Sorted. Qed.
End BTree.

(** ** Searching a list in the order of its keys *)

Lemma sorted_keys_lt {A} (key : A -> str) (l : list A) i j x y : StronglySorted lex_lt (map key l) ->
  l !! i = Some x -> l !! j = Some y -> (i < j)%nat -> lex_compare (key x) (key y) = Lt.
Proof.
  intros Hs. revert i j. induction l as [|z l IH]; intros i j Hi Hj Hij; [done|]. cbn [map] in Hs. apply StronglySorted_inv in Hs as [Hs Hf].
  destruct j as [|j]; [lia|]. destruct i as [|i]; [|apply (IH Hs i j); [done|done|lia]]. cbn in Hi, Hj. injection Hi as ->.
  rewrite Forall_map, Forall_forall in Hf. apply Hf. by eapply list_elem_of_lookup_2.
Qed.

Lemma binary_search_keys {A} (key : A -> str) (l : list A) k x : StronglySorted lex_lt (map key l) ->
  (exists i, binary_search_by (fun y => lex_compare (key y) k) l = Some i /\ l !! i = Some x) <-> x ∈ l /\ key x = k.
Proof.
  intros Hs. unfold binary_search_by. split.
  - intros (i & H & Hx). destruct (_ <$> _) as [[]|] eqn:E; simplify_eq. rewrite Hx in E. cbn in E. injection E as E.
    split; [by eapply list_elem_of_lookup_2|by apply lex_compare_eq].
  - intros [[i Hi]%list_elem_of_lookup <-]. exists i. split; [|done].
    rewrite (binary_search_loop_spec _ _ i); [by rewrite Hi; cbn; rewrite lex_compare_refl|..|lia|lia].
    + intros j y Hj Hlt. by eapply (sorted_keys_lt key l).
    + intros y Hy. assert (y = x) as -> by congruence. apply lex_compare_refl.
    + intros j y Hj Hgt. apply lex_compare_gt_lt. by eapply (sorted_keys_lt key l).
    + apply lookup_lt_Some in Hi. lia.
Qed.

#[export] Hint Resolve bt_nil_ok bt_insert_ok : synapse.
