(* ===== verification/Timestamp.v ===== *)
(** * Canonical timestamps

    Models [parse_canonical_timestamp_unix_nanos] and its civil-calendar helpers
    (crates/synapse-canonical/src/lib.rs) and [CanonicalTimestamp]
    (crates/synapse-schema/src/canonical_timestamp.rs).  The calendar loops run
    on fuel: 14 halvings of [0, 10000) and 12 months, which the lemmas show to
    be enough. *)

From stdpp Require Import base list numbers strings.
From Stdlib Require Import ZArith Lia.
From S2P Require Import Prelude Text TextFacts.

#[local] Open Scope Z_scope.

(** ** Civil calendar *)

Definition is_civil_leap_year (year : Z) : bool :=
  (year mod 4 =? 0) && (negb (year mod 100 =? 0) || (year mod 400 =? 0)).

Definition days_in_civil_month (year month : Z) : Z :=
  match month with
  | 1 | 3 | 5 | 7 | 8 | 10 | 12 => 31
  | 4 | 6 | 9 | 11 => 30
  | 2 => if is_civil_leap_year year then 29 else 28
  | _ => 0
  end.

Definition days_before_civil_year (year : Z) : Z :=
  if year =? 0 then 0
  else
    let completed := year - 1 in
    year * 365 + completed / 4 - completed / 100 + completed / 400 + 1.

(** [(1..month).map(days_in_civil_month).sum()] *)
Definition days_before_month (year month : Z) : Z :=
  fold_right Z.add 0 (map (days_in_civil_month year) (seqZ 1 (month - 1))).

(** ** Parsing *)

Inductive CanonicalTimestampErrorKind := InvalidLexicalForm | InvalidCalendarDate | OutOfRange.

#[export] Instance CanonicalTimestampErrorKind_eq_dec : EqDecision CanonicalTimestampErrorKind.
Proof. solve_decision. Defined.

Abbreviation tresult := (result CanonicalTimestampErrorKind).

Definition byte_at (s : str) (i : nat) (b : byte) : bool := bool_decide (s !! i = Some b).

Definition is_separator_index (i : nat) : bool := existsb (Nat.eqb i) [4; 7; 10; 13; 16; 19; 29]%nat.

Fixpoint digits_outside_separators (i : nat) (s : str) : bool :=
  match s with
  | [] => true
  | b :: s => (is_separator_index i || is_ascii_digit b) && digits_outside_separators (S i) s
  end.

Definition timestamp_lexical (s : str) : bool :=
  (len s =? 30) && byte_at s 4 45 && byte_at s 7 45 && byte_at s 10 84 && byte_at s 13 58 &&
  byte_at s 16 58 && byte_at s 19 46 && byte_at s 29 90 && digits_outside_separators 0 s.

(** [number(start, end)]; at most nine digits, so the [u32] fold does not overflow. *)
Definition number (s : str) (start stop : nat) : Z := digits_value (take (stop - start) (drop start s)).

Definition parse_canonical_timestamp_unix_nanos (value : str) : tresult Z :=
  if negb (timestamp_lexical value) then Err InvalidLexicalForm
  else
    let year := number value 0 4 in
    let month := number value 5 7 in
    let day := number value 8 10 in
    let hour := number value 11 13 in
    let minute := number value 14 16 in
    let second := number value 17 19 in
    let nanos := number value 20 29 in
    if negb ((1 <=? month) && (month <=? 12)) || (day =? 0) || (day >? days_in_civil_month year month) ||
       (hour >? 23) || (minute >? 59) || (second >? 59)
    then Err InvalidCalendarDate
    else
      let day_of_year := days_before_month year month + (day - 1) in
      let absolute_days := days_before_civil_year year + day_of_year in
      let unix_days := absolute_days - days_before_civil_year 1970 in
      let unix_seconds := unix_days * 86400 + hour * 3600 + minute * 60 + second in
      Ok (unix_seconds * 1000000000 + nanos).

(** ** [CanonicalTimestamp] *)

Record CanonicalTimestamp := { encoded : str; unix_nanos : Z }.

#[export] Instance CanonicalTimestamp_eq_dec : EqDecision CanonicalTimestamp.
Proof. solve_decision. Defined.

Definition timestamp_parse (value : str) : tresult CanonicalTimestamp :=
  nanos ← parse_canonical_timestamp_unix_nanos value;
  Ok {| encoded := value; unix_nanos := nanos |}.

Definition NANOS_PER_SECOND : Z := 1000000000.
Definition SECONDS_PER_DAY : Z := 86400.

(** The helpers of canonical_timestamp.rs repeat those of synapse-canonical. *)
Definition is_leap_year (year : Z) : bool :=
  (year mod 4 =? 0) && (negb (year mod 100 =? 0) || (year mod 400 =? 0)).

Definition days_in_month (year month : Z) : Z :=
  match month with
  | 1 | 3 | 5 | 7 | 8 | 10 | 12 => 31
  | 4 | 6 | 9 | 11 => 30
  | 2 => if is_leap_year year then 29 else 28
  | _ => 0
  end.

Definition days_before_year (year : Z) : Z :=
  if year =? 0 then 0
  else
    let completed := year - 1 in
    year * 365 + completed / 4 - completed / 100 + completed / 400 + 1.

(** [while lower + 1 < upper] *)
Fixpoint year_search (fuel : nat) (absolute_days lower upper : Z) : option Z :=
  if negb (lower + 1 <? upper) then Some lower
  else
    match fuel with
    | O => None
    | S fuel =>
      let middle := lower + (upper - lower) / 2 in
      if days_before_year middle <=? absolute_days
      then year_search fuel absolute_days middle upper
      else year_search fuel absolute_days lower middle
    end.

(** [while day_of_year >= days_in_month(year, month)] *)
Fixpoint month_search (fuel : nat) (year day_of_year month : Z) : option (Z * Z) :=
  if negb (day_of_year >=? days_in_month year month) then Some (month, day_of_year)
  else
    match fuel with
    | O => None
    | S fuel => month_search fuel year (day_of_year - days_in_month year month) (month + 1)
    end.

(** [format!("{year:04}-{month:02}-{day:02}T{hour:02}:{minute:02}:{second:02}.{nanos:09}Z")] *)
Definition format_fields (year month day hour minute second nanos : Z) : str :=
  show_padded 4 year ++ lit "-" ++ show_padded 2 month ++ lit "-" ++ show_padded 2 day ++ lit "T" ++
  show_padded 2 hour ++ lit ":" ++ show_padded 2 minute ++ lit ":" ++ show_padded 2 second ++ lit "." ++
  show_padded 9 nanos ++ lit "Z".

(** [None] is an exhausted search bound; see [from_unix_nanos_total]. *)
Definition from_unix_nanos (unix_nanos : Z) : option (tresult CanonicalTimestamp) :=
  let unix_seconds := unix_nanos / NANOS_PER_SECOND in
  let nanos := unix_nanos mod NANOS_PER_SECOND in
  let unix_days := unix_seconds / SECONDS_PER_DAY in
  let second_of_day := unix_seconds mod SECONDS_PER_DAY in
  let absolute_days := unix_days + days_before_year 1970 in
  if (absolute_days <? 0) || (absolute_days >=? days_before_year 10000) then Some (Err OutOfRange)
  else
    year ← year_search 14 absolute_days 0 10000;
    '(month, day_of_year) ← month_search 12 year (absolute_days - days_before_year year) 1;
    let day := day_of_year + 1 in
    let hour := second_of_day / 3600 in
    let minute := second_of_day mod 3600 / 60 in
    let second := second_of_day mod 60 in
    Some (Ok {| encoded := format_fields year month day hour minute second nanos;
                unix_nanos := unix_nanos |}).

(** ** Calendar facts *)

(** A day of the proleptic Gregorian calendar with a four-digit year. *)
Definition valid_date (y m d : Z) : Prop :=
  0 <= y <= 9999 /\ 1 <= m <= 12 /\ 1 <= d <= days_in_civil_month y m.

(** Days since 0000-01-01. *)
Definition date_days (y m d : Z) : Z := days_before_civil_year y + days_before_month y m + (d - 1).

Definition year_length (y : Z) : Z := if is_civil_leap_year y then 366 else 365.

Lemma days_before_year_floor y :
  0 <= y ->
  days_before_civil_year y = y * 365 + (y - 1) / 4 - (y - 1) / 100 + (y - 1) / 400 + 1.
Proof.
  intros Hy. unfold days_before_civil_year. destruct (Z.eqb_spec y 0) as [->|]; reflexivity.
Qed.

Lemma days_before_year_succ y :
  0 <= y -> days_before_civil_year (y + 1) = days_before_civil_year y + year_length y.
Proof.
  intros Hy. rewrite !days_before_year_floor by lia. unfold year_length, is_civil_leap_year.
  replace (y + 1 - 1) with y by lia.
  destruct (Z.eqb_spec (y mod 4) 0), (Z.eqb_spec (y mod 100) 0), (Z.eqb_spec (y mod 400) 0); cbn [andb orb negb];
    Z.to_euclidean_division_equations; lia.
Qed.
