(* ===== verification/TimestampFacts.v ===== *)
(** * Calendar arithmetic and the fixed-width text of timestamps *)

From stdpp Require Import base list numbers strings.
From Stdlib Require Import ZArith Lia.
From S2P Require Import Prelude Text TextFacts Timestamp.

#[local] Open Scope Z_scope.

Lemma days_before_year_mono y z : 0 <= y <= z -> days_before_civil_year y <= days_before_civil_year z.
Proof.
  intros H. rewrite !days_before_year_floor by lia. Z.to_euclidean_division_equations. lia.
Qed.

(** Case analysis on a month number. *)
Ltac month_cases m :=
  let H := fresh "Hm" in
  assert (m = 1 \/ m = 2 \/ m = 3 \/ m = 4 \/ m = 5 \/ m = 6 \/ m = 7 \/ m = 8 \/ m = 9 \/ m = 10 \/
          m = 11 \/ m = 12) as H by lia;
  repeat (destruct H as [->|H]); [..|subst m].

Lemma days_in_month_pos y m : 1 <= m <= 12 -> 28 <= days_in_civil_month y m <= 31.
Proof. intros H. month_cases m; cbn; try lia. destruct (is_civil_leap_year y); lia. Qed.

Lemma days_before_month_succ y m :
  1 <= m <= 12 -> days_before_month y (m + 1) = days_before_month y m + days_in_civil_month y m.
Proof.
  intros H. unfold days_before_month. replace (m + 1 - 1) with ((m - 1) + 1) by lia.
  rewrite seqZ_app by lia. rewrite map_app. replace (1 + (m - 1)) with m by lia.
  induction (map (days_in_civil_month y) (seqZ 1 (m - 1))) as [|x l IH]; [apply Z.add_0_r|].
  cbn [app fold_right]. rewrite IH. lia.
Qed.

Lemma days_before_month_13 y : days_before_month y 13 = year_length y.
Proof.
  unfold days_before_month, year_length. change (seqZ 1 (13 - 1)) with [1; 2; 3; 4; 5; 6; 7; 8; 9; 10; 11; 12].
  cbn. by destruct (is_civil_leap_year y).
Qed.

Lemma days_before_month_mono y m m' :
  1 <= m -> m < m' -> m' <= 13 -> days_before_month y m + days_in_civil_month y m <= days_before_month y m'.
Proof.
  intros Hm Hlt Hm'. assert (m' = m + 1 + Z.of_nat (Z.to_nat (m' - m - 1))) as E by lia.
  rewrite E in Hlt, Hm' |- *. clear E. revert Hlt Hm'. generalize (Z.to_nat (m' - m - 1)) as k. induction k as [|k IH]; intros Hlt Hm'.
  - rewrite Z.add_0_r, days_before_month_succ by lia. lia.
  - replace (m + 1 + Z.of_nat (S k)) with (m + 1 + Z.of_nat k + 1) in * by lia.
    rewrite days_before_month_succ by lia. specialize (IH ltac:(lia) ltac:(lia)).
    pose proof (days_in_month_pos y (m + 1 + Z.of_nat k) ltac:(lia)). lia.
Qed.

Lemma days_before_month_nonneg y m : 1 <= m <= 12 -> 0 <= days_before_month y m.
Proof.
  intros H. destruct (decide (m = 1)) as [->|]; [done|].
  pose proof (days_before_month_mono y 1 m). change (days_before_month y 1) with 0 in *.
  pose proof (days_in_month_pos y 1). lia.
Qed.

(** ** Dates and day numbers correspond *)

Lemma date_days_year y m d :
  valid_date y m d -> days_before_civil_year y <= date_days y m d < days_before_civil_year (y + 1).
Proof.
  intros (Hy & Hm & Hd). unfold date_days. rewrite days_before_year_succ by lia.
  pose proof (days_before_month_nonneg y m Hm). pose proof (days_before_month_mono y m 13).
  rewrite days_before_month_13 in *. lia.
Qed.

(** Later dates have larger day numbers. *)
Definition date_lt (y m d y' m' d' : Z) : Prop := y < y' \/ (y = y' /\ (m < m' \/ (m = m' /\ d < d'))).

Lemma date_days_lt y m d y' m' d' :
  valid_date y m d -> valid_date y' m' d' -> date_lt y m d y' m' d' -> date_days y m d < date_days y' m' d'.
Proof.
  intros Hv Hv' [Hy|[<- [Hm|[<- Hd]]]].
  - pose proof (date_days_year _ _ _ Hv). pose proof (date_days_year _ _ _ Hv').
    destruct Hv as [? _]. pose proof (days_before_year_mono (y + 1) y'). lia.
  - destruct Hv as (? & ? & ?), Hv' as (? & ? & ?). unfold date_days.
    pose proof (days_before_month_mono y m m'). lia.
  - unfold date_days. lia.
Qed.

Lemma date_days_inj y m d y' m' d' :
  valid_date y m d -> valid_date y' m' d' -> date_days y m d = date_days y' m' d' -> y = y' /\ m = m' /\ d = d'.
Proof.
  intros Hv Hv' E.
  assert (~ date_lt y m d y' m' d') by (intros ?%date_days_lt; [lia|done..]).
  assert (~ date_lt y' m' d' y m d) by (intros ?%date_days_lt; [lia|done..]).
  unfold date_lt in *. lia.
Qed.

Lemma date_days_bounds y m d : valid_date y m d -> 0 <= date_days y m d < days_before_civil_year 10000.
Proof.
  intros Hv. pose proof (date_days_year _ _ _ Hv). destruct Hv as [? _].
  pose proof (days_before_year_mono 0 y). pose proof (days_before_year_mono (y + 1) 10000).
  change (days_before_civil_year 0) with 0 in *. lia.
Qed.

(** ** The searches of [from_unix_nanos] *)

Lemma year_search_spec fuel a : forall lo hi,
  0 <= lo < hi -> hi - lo <= 2 ^ Z.of_nat fuel ->
  days_before_civil_year lo <= a < days_before_civil_year hi ->
  exists y, year_search fuel a lo hi = Some y /\ lo <= y < hi /\
    days_before_civil_year y <= a < days_before_civil_year (y + 1).
Proof.
  induction fuel as [|fuel IH]; intros lo hi Hlo Hf Ha; cbn [year_search].
  - simpl in Hf. rewrite (proj2 (Z.ltb_ge _ _)) by lia. exists lo. split_and!; try done; try lia.
    replace (lo + 1) with hi by lia; lia.
  - destruct (Z.ltb_spec (lo + 1) hi); cbn [negb].
    + rewrite Nat2Z.inj_succ, Z.pow_succ_r in Hf by lia.
      set (mid := lo + (hi - lo) / 2). assert (lo < mid < hi /\ hi - mid <= 2 ^ Z.of_nat fuel /\ mid - lo <= 2 ^ Z.of_nat fuel) as (? & ? & ?).
      { subst mid. Z.to_euclidean_division_equations. lia. }
      change (days_before_year mid) with (days_before_civil_year mid).
      destruct (Z.leb_spec (days_before_civil_year mid) a).
      * destruct (IH mid hi) as (y & ? & ? & ?); [lia|lia|lia|]. exists y. split_and!; try done; lia.
      * destruct (IH lo mid) as (y & ? & ? & ?); [lia|lia|lia|]. exists y. split_and!; try done; lia.
    + exists lo. split_and!; try done; try lia. replace (lo + 1) with hi by lia; lia.
Qed.

Lemma month_search_spec fuel y : forall doy m,
  1 <= m <= 12 -> 12 - m < Z.of_nat fuel -> 0 <= doy -> doy + days_before_month y m < year_length y ->
  exists m' r, month_search fuel y doy m = Some (m', r) /\ m <= m' <= 12 /\
    0 <= r < days_in_civil_month y m' /\ days_before_month y m' + r = days_before_month y m + doy.
Proof.
  induction fuel as [|fuel IH]; intros doy m Hm Hf Hd Hl; [lia|]. cbn [month_search].
  change (days_in_month y m) with (days_in_civil_month y m). rewrite Z.geb_leb.
  destruct (Z.leb_spec (days_in_civil_month y m) doy); cbn [negb].
  - assert (m < 12).
    { destruct (decide (m = 12)) as [->|]; [|lia]. pose proof (days_before_month_succ y 12 ltac:(lia)) as E.
      change (12 + 1) with 13 in E. rewrite days_before_month_13 in E. lia. }
    destruct (IH (doy - days_in_civil_month y m) (m + 1)) as (m' & r & ? & ? & ? & E); [lia..| |].
    + rewrite days_before_month_succ by lia. lia.
    + rewrite days_before_month_succ in E by lia. exists m', r. split_and!; try done; lia.
  - exists m, doy. split_and!; try done; lia.
Qed.

(** ** Fixed-width text *)

(** The text of seven digit groups. *)
Definition stamp (ye mo da ho mi se na : str) : str :=
  ye ++ [45] ++ mo ++ [45] ++ da ++ [84] ++ ho ++ [58] ++ mi ++ [58] ++ se ++ [46] ++ na ++ [90].

Definition group (w : nat) (ds : str) : Prop := length ds = w /\ is_digits ds.

Lemma format_fields_stamp y m d h mi s n :
  format_fields y m d h mi s n =
  stamp (show_padded 4 y) (show_padded 2 m) (show_padded 2 d) (show_padded 2 h) (show_padded 2 mi)
        (show_padded 2 s) (show_padded 9 n).
Proof. reflexivity. Qed.

Lemma timestamp_lexical_stamp ye mo da ho mi se na :
  group 4 ye -> group 2 mo -> group 2 da -> group 2 ho -> group 2 mi -> group 2 se -> group 9 na ->
  timestamp_lexical (stamp ye mo da ho mi se na) = true /\
  number (stamp ye mo da ho mi se na) 0 4 = digits_value ye /\
  number (stamp ye mo da ho mi se na) 5 7 = digits_value mo /\
  number (stamp ye mo da ho mi se na) 8 10 = digits_value da /\
  number (stamp ye mo da ho mi se na) 11 13 = digits_value ho /\
  number (stamp ye mo da ho mi se na) 14 16 = digits_value mi /\
  number (stamp ye mo da ho mi se na) 17 19 = digits_value se /\
  number (stamp ye mo da ho mi se na) 20 29 = digits_value na.
Proof.
  intros [L1 D1] [L2 D2] [L3 D3] [L4 D4] [L5 D5] [L6 D6] [L7 D7]. unfold is_digits in *.
  repeat match goal with
  | L : length ?l = S _ |- _ => destruct l as [|? l]; [discriminate L|]; cbn [length] in L; injection L as L
  | L : length ?l = O |- _ => apply nil_length_inv in L; subst l
  | D : Forall _ (_ :: _) |- _ => apply Forall_cons in D as [? D]
  end.
  split; [|repeat split; reflexivity].
  unfold timestamp_lexical, stamp. cbn [app]. unfold len, byte_at. cbn [length lookup list_lookup].
  rewrite !bool_decide_eq_true_2 by done.
  cbn [digits_outside_separators is_separator_index existsb Nat.eqb orb].
  repeat match goal with H : is_ascii_digit _ = true |- _ => rewrite H; clear H end. reflexivity.
Qed.

(** Every lexically valid text is of this form. *)
Lemma timestamp_lexical_inv s :
  timestamp_lexical s = true ->
  exists ye mo da ho mi se na, s = stamp ye mo da ho mi se na /\
    group 4 ye /\ group 2 mo /\ group 2 da /\ group 2 ho /\ group 2 mi /\ group 2 se /\ group 9 na.
Proof.
  unfold timestamp_lexical. rewrite !andb_true_iff. intros ((((((((Hl & H4) & H7) & H10) & H13) & H16) & H19) & H29) & Hd).
  apply Z.eqb_eq in Hl. assert (length s = 30%nat) as L by (unfold len in Hl; lia). clear Hl.
  do 30 (destruct s as [|? s]; [discriminate L|]; cbn [length] in L; injection L as L).
  apply nil_length_inv in L as ->.
  unfold byte_at in *. cbn [lookup list_lookup] in *.
  repeat match goal with H : bool_decide (_ = _) = true |- _ => apply bool_decide_eq_true in H; injection H as -> end.
  cbn [digits_outside_separators is_separator_index existsb Nat.eqb orb] in Hd.
  rewrite !andb_true_iff in Hd. cbn [andb] in Hd. destruct_and!.
  eexists [_; _; _; _], [_; _], [_; _], [_; _], [_; _], [_; _], [_; _; _; _; _; _; _; _; _].
  split; [reflexivity|]. split_and!; (split; [reflexivity|]); repeat (apply Forall_cons; split; [eassumption|]); constructor.
Qed.

(** ** Fields, nanoseconds and text *)

Record Fields := { f_year : Z; f_month : Z; f_day : Z; f_hour : Z; f_minute : Z; f_second : Z; f_nanos : Z }.

Definition fields_valid (f : Fields) : Prop :=
  valid_date (f_year f) (f_month f) (f_day f) /\ 0 <= f_hour f <= 23 /\ 0 <= f_minute f <= 59 /\
  0 <= f_second f <= 59 /\ 0 <= f_nanos f < 1000000000.

Definition nanos_of_day (f : Fields) : Z :=
  (f_hour f * 3600 + f_minute f * 60 + f_second f) * 1000000000 + f_nanos f.

Definition fields_nanos (f : Fields) : Z :=
  (date_days (f_year f) (f_month f) (f_day f) - days_before_civil_year 1970) * 86400000000000 + nanos_of_day f.

Definition fields_text (f : Fields) : str :=
  format_fields (f_year f) (f_month f) (f_day f) (f_hour f) (f_minute f) (f_second f) (f_nanos f).

Lemma nanos_of_day_bounds f : fields_valid f -> 0 <= nanos_of_day f < 86400000000000.
Proof. intros (_ & ? & ? & ? & ?). unfold nanos_of_day. lia. Qed.

Lemma show_padded_group w n : 0 <= n < 10 ^ Z.of_nat w -> (0 < w)%nat -> group w (show_padded w n).
Proof. intros H Hw. destruct (show_padded_spec w n H Hw) as (? & ? & ?). by split. Qed.

Lemma show_padded_value w ds : (0 < w)%nat -> group w ds -> show_padded w (digits_value ds) = ds.
Proof.
  intros Hw [Hl Hd]. pose proof (digits_value_bound ds Hd) as Hb.
  assert (len ds = Z.of_nat w) as L by (unfold len; lia). rewrite L in Hb.
  destruct (show_padded_spec w (digits_value ds) Hb Hw) as (? & ? & ?).
  apply digits_value_inj; [done..| |done]. unfold len. lia.
Qed.

Lemma fields_groups f : fields_valid f ->
  group 4 (show_padded 4 (f_year f)) /\ group 2 (show_padded 2 (f_month f)) /\
  group 2 (show_padded 2 (f_day f)) /\ group 2 (show_padded 2 (f_hour f)) /\
  group 2 (show_padded 2 (f_minute f)) /\ group 2 (show_padded 2 (f_second f)) /\
  group 9 (show_padded 9 (f_nanos f)).
Proof.
  intros ((Hy & Hm & Hd) & ? & ? & ? & ?). pose proof (days_in_month_pos (f_year f) (f_month f) Hm).
  split_and!; (apply show_padded_group; [|lia]); simpl (10 ^ _); lia.
Qed.

Lemma parse_fields_text f :
  fields_valid f -> parse_canonical_timestamp_unix_nanos (fields_text f) = Ok (fields_nanos f).
Proof.
  intros Hf. pose proof (fields_groups f Hf) as (G1 & G2 & G3 & G4 & G5 & G6 & G7).
  unfold parse_canonical_timestamp_unix_nanos, fields_text. rewrite format_fields_stamp.
  destruct (timestamp_lexical_stamp _ _ _ _ _ _ _ G1 G2 G3 G4 G5 G6 G7) as (-> & -> & -> & -> & -> & -> & -> & ->).
  destruct Hf as ((Hy & Hm & Hd) & Hh & Hmi & Hs & Hn). pose proof (days_in_month_pos (f_year f) (f_month f) Hm).
  assert (forall w n, 0 <= n < 10 ^ Z.of_nat w -> (0 < w)%nat -> digits_value (show_padded w n) = n) as Hv
    by (intros w n ? ?; by apply show_padded_spec).
  rewrite !Hv by (lia || (simpl (10 ^ _); lia)). cbn [negb].
  rewrite (proj2 (Z.leb_le 1 _)), (proj2 (Z.leb_le _ 12)) by lia. rewrite !Z.gtb_ltb.
  rewrite (proj2 (Z.eqb_neq (f_day f) 0)) by lia.
  rewrite !(proj2 (Z.ltb_ge _ _)) by lia. cbn [andb orb negb]. f_equal.
  unfold fields_nanos, nanos_of_day, date_days. lia.
Qed.

Lemma parse_timestamp_inv s n :
  parse_canonical_timestamp_unix_nanos s = Ok n ->
  exists f, fields_valid f /\ s = fields_text f /\ n = fields_nanos f.
Proof.
  intros H. unfold parse_canonical_timestamp_unix_nanos in H.
  destruct (timestamp_lexical s) eqn:El; [|done]. cbn [negb] in H.
  apply timestamp_lexical_inv in El as (ye & mo & da & ho & mi & se & na & -> & G1 & G2 & G3 & G4 & G5 & G6 & G7).
  destruct (timestamp_lexical_stamp _ _ _ _ _ _ _ G1 G2 G3 G4 G5 G6 G7) as (_ & E1 & E2 & E3 & E4 & E5 & E6 & E7).
  rewrite E1, E2, E3, E4, E5, E6, E7 in H. clear E1 E2 E3 E4 E5 E6 E7.
  destruct (_ || _) eqn:Ec in H; [done|]. bool_props.
  injection H as <-.
  assert (forall w ds, group w ds -> 0 <= digits_value ds < 10 ^ Z.of_nat w) as Hb.
  { intros w ds [<- Hd]. by apply digits_value_bound. }
  pose proof (Hb _ _ G1) as B1; pose proof (Hb _ _ G3) as B3; pose proof (Hb _ _ G4) as B4.
  pose proof (Hb _ _ G5) as B5; pose proof (Hb _ _ G6) as B6; pose proof (Hb _ _ G7) as B7.
  simpl (10 ^ _) in *.
  exists {| f_year := digits_value ye; f_month := digits_value mo; f_day := digits_value da;
            f_hour := digits_value ho; f_minute := digits_value mi; f_second := digits_value se;
            f_nanos := digits_value na |}.
  split_and!.
  - unfold fields_valid, valid_date. cbn. lia.
  - unfold fields_text. cbn [f_year f_month f_day f_hour f_minute f_second f_nanos].
    rewrite format_fields_stamp, !show_padded_value by (done || lia). done.
  - unfold fields_nanos, nanos_of_day, date_days. cbn [f_year f_month f_day f_hour f_minute f_second f_nanos]. lia.
Qed.

(** ** Formatting *)

Lemma fields_nanos_split f : fields_valid f ->
  fields_nanos f / 86400000000000 + days_before_civil_year 1970 = date_days (f_year f) (f_month f) (f_day f) /\
  fields_nanos f mod 86400000000000 = nanos_of_day f.
Proof.
  intros Hf. pose proof (nanos_of_day_bounds f Hf). unfold fields_nanos.
  generalize dependent (nanos_of_day f). intros t Ht.
  generalize (date_days (f_year f) (f_month f) (f_day f)), (days_before_civil_year 1970). intros d e.
  Z.to_euclidean_division_equations. lia.
Qed.

Lemma nanos_of_day_inj f g :
  fields_valid f -> fields_valid g -> nanos_of_day f = nanos_of_day g ->
  f_hour f = f_hour g /\ f_minute f = f_minute g /\ f_second f = f_second g /\ f_nanos f = f_nanos g.
Proof. intros (_ & ? & ? & ? & ?) (_ & ? & ? & ? & ?) E. unfold nanos_of_day in E. lia. Qed.

Lemma fields_nanos_inj f g : fields_valid f -> fields_valid g -> fields_nanos f = fields_nanos g -> f = g.
Proof.
  intros Hf Hg E. destruct (fields_nanos_split f Hf) as [Df Tf], (fields_nanos_split g Hg) as [Dg Tg].
  rewrite E, Dg in Df. rewrite E, Tg in Tf.
  destruct (nanos_of_day_inj g f) as (? & ? & ? & ?); [done..|].
  destruct Hf as [Hf _], Hg as [Hg _]. apply date_days_inj in Df as (? & ? & ?); [|done..].
  destruct f, g; simpl in *; congruence.
Qed.

(** The instants with a four-digit year. *)
Definition MIN_UNIX_NANOS : Z := -62167219200000000000.
Definition MAX_UNIX_NANOS : Z := 253402300799999999999.

Lemma day_in_range n :
  MIN_UNIX_NANOS <= n <= MAX_UNIX_NANOS <->
  0 <= n / 86400000000000 + days_before_civil_year 1970 < days_before_civil_year 10000.
Proof.
  change (days_before_civil_year 1970) with 719528. change (days_before_civil_year 10000) with 3652425.
  unfold MIN_UNIX_NANOS, MAX_UNIX_NANOS. Z.to_euclidean_division_equations. lia.
Qed.

Lemma nanos_of_day_fields n :
  let s := n / NANOS_PER_SECOND mod SECONDS_PER_DAY in
  n mod 86400000000000 = (s / 3600 * 3600 + s mod 3600 / 60 * 60 + s mod 60) * 1000000000 + n mod NANOS_PER_SECOND /\
  0 <= s / 3600 <= 23 /\ 0 <= s mod 3600 / 60 <= 59 /\ 0 <= s mod 60 <= 59 /\ 0 <= n mod NANOS_PER_SECOND < 1000000000.
Proof.
  intros s. unfold NANOS_PER_SECOND, SECONDS_PER_DAY in *.
  assert (n mod 86400000000000 = s * 1000000000 + n mod 1000000000) as ->.
  { subst s. Z.to_euclidean_division_equations. lia. }
  assert (0 <= s < 86400) by (apply Z.mod_pos_bound; lia). clearbody s.
  assert (s = s / 3600 * 3600 + s mod 3600 / 60 * 60 + s mod 60) as Hs.
  { Z.to_euclidean_division_equations. lia. }
  split_and!; try (Z.to_euclidean_division_equations; lia).
Qed.

Lemma from_unix_nanos_in_range n :
  MIN_UNIX_NANOS <= n <= MAX_UNIX_NANOS ->
  exists f, fields_valid f /\ n = fields_nanos f /\
    from_unix_nanos n = Some (Ok {| encoded := fields_text f; unix_nanos := n |}).
Proof.
  intros Hn%day_in_range. unfold from_unix_nanos.
  destruct (nanos_of_day_fields n) as (Ht & Hh & Hmi & Hs & Hna).
  change (days_before_year ?y) with (days_before_civil_year y).
  rewrite Z.div_div in * by done. change (NANOS_PER_SECOND * SECONDS_PER_DAY) with 86400000000000.
  set (a := n / 86400000000000 + days_before_civil_year 1970) in *.
  rewrite (proj2 (Z.ltb_ge a 0)), Z.geb_leb, (proj2 (Z.leb_gt _ a)) by lia. cbn [orb].
  destruct (year_search_spec 14 a 0 10000) as (y & -> & Hy & Ha); [lia|done|done|]. cbn [mbind option_bind].
  rewrite days_before_year_succ in Ha by lia.
  destruct (month_search_spec 12 y (a - days_before_civil_year y) 1) as (m & r & -> & Hm & Hr & Hd).
  { lia. } { lia. } { lia. } { change (days_before_month y 1) with 0. lia. }
  change (days_before_month y 1) with 0 in Hd. cbn [mbind option_bind].
  set (s := n / NANOS_PER_SECOND mod SECONDS_PER_DAY) in *.
  exists {| f_year := y; f_month := m; f_day := r + 1; f_hour := s / 3600; f_minute := s mod 3600 / 60;
            f_second := s mod 60; f_nanos := n mod NANOS_PER_SECOND |}.
  split_and!; [unfold fields_valid, valid_date; cbn; lia| |reflexivity].
  unfold fields_nanos, nanos_of_day, date_days. cbn [f_year f_month f_day f_hour f_minute f_second f_nanos].
  rewrite <- Ht. pose proof (Z.div_mod n 86400000000000). lia.
Qed.

Lemma from_unix_nanos_fields f :
  fields_valid f ->
  from_unix_nanos (fields_nanos f) = Some (Ok {| encoded := fields_text f; unix_nanos := fields_nanos f |}).
Proof.
  intros Hf. destruct (from_unix_nanos_in_range (fields_nanos f)) as (g & Hg & E & ->).
  - apply day_in_range. destruct (fields_nanos_split f Hf) as [-> _]. apply date_days_bounds, Hf.
  - by apply fields_nanos_inj in E as ->.
Qed.

Lemma from_unix_nanos_out_of_range n :
  ~ (MIN_UNIX_NANOS <= n <= MAX_UNIX_NANOS) -> from_unix_nanos n = Some (Err OutOfRange).
Proof.
  rewrite day_in_range. intros Hn. unfold from_unix_nanos. rewrite Z.div_div by done.
  change (NANOS_PER_SECOND * SECONDS_PER_DAY) with 86400000000000.
  change (days_before_year ?y) with (days_before_civil_year y). rewrite Z.geb_leb.
  destruct (Z.ltb_spec (n / 86400000000000 + days_before_civil_year 1970) 0); [done|].
  by rewrite (proj2 (Z.leb_le _ _)) by lia.
Qed.

(** ** Text order is time order *)

Lemma padded_compare w a b u v :
  (0 < w)%nat -> 0 <= a < 10 ^ Z.of_nat w -> 0 <= b < 10 ^ Z.of_nat w ->
  lex_compare (show_padded w a ++ u) (show_padded w b ++ v) = match a ?= b with Eq => lex_compare u v | c => c end.
Proof.
  intros Hw Ha Hb. destruct (show_padded_spec w a Ha Hw) as (La & Da & Va), (show_padded_spec w b Hb Hw) as (Lb & Db & Vb).
  rewrite lex_compare_digits by congruence. by rewrite Va, Vb.
Qed.

Lemma lex_compare_sep c u v : lex_compare (c :: u) (c :: v) = lex_compare u v.
Proof. cbn [lex_compare]. by rewrite Z.compare_refl. Qed.

Lemma fields_text_compare f g :
  fields_valid f -> fields_valid g -> lex_compare (fields_text f) (fields_text g) = (fields_nanos f ?= fields_nanos g).
Proof.
  intros Hf Hg. pose proof (nanos_of_day_bounds f Hf). pose proof (nanos_of_day_bounds g Hg).
  pose proof Hf as (Df & ? & ? & ? & ?). pose proof Hg as (Dg & ? & ? & ? & ?).
  pose proof (date_days_lt _ _ _ _ _ _ Df Dg) as Hlt. pose proof (date_days_lt _ _ _ _ _ _ Dg Df) as Hgt.
  unfold date_lt in *. pose proof Df as (? & Hm & ?). pose proof Dg as (? & Hm' & ?).
  pose proof (days_in_month_pos (f_year f) _ Hm). pose proof (days_in_month_pos (f_year g) _ Hm').
  unfold fields_text, format_fields.
  repeat match goal with |- context [lit ?s] => let t := eval vm_compute in (lit s) in change (lit s) with t end.
  cbn [app].
  repeat (rewrite padded_compare by (lia || (simpl (10 ^ _); lia)); rewrite lex_compare_sep).
  unfold fields_nanos.
  repeat match goal with
  | |- match ?a ?= ?b with _ => _ end = _ => destruct (Z.compare_spec a b)
  end; symmetry; rewrite ?Z.compare_eq_iff, ?Z.compare_lt_iff, ?Z.compare_gt_iff.
  all: try (assert (date_days (f_year f) (f_month f) (f_day f) < date_days (f_year g) (f_month g) (f_day g))
    by (apply Hlt; lia); lia).
  all: try (assert (date_days (f_year g) (f_month g) (f_day g) < date_days (f_year f) (f_month f) (f_day f))
    by (apply Hgt; lia); lia).
  all: assert (date_days (f_year f) (f_month f) (f_day f) = date_days (f_year g) (f_month g) (f_day g)) as -> by congruence.
  all: unfold nanos_of_day; first [lia|cbn [lex_compare]; lia].
Qed.
