(* ===== verification/Clocks.v ===== *)
(** * Clocks

    [SystemAuthorizationClock] (crates/synapse-core/src/authorization.rs): wall
    time made monotone by a process-wide state.  [RecordingClock] and
    [format_timestamp] (crates/synapse-creator/src/time.rs): strictly increasing
    protocol timestamps, formatted with a closed-form civil calendar.

    What the operating system answers is the input: a [Sample] holds the wall
    clock (nanoseconds relative to the Unix epoch, negative before it) and the
    monotonic clock in nanoseconds.  A poisoned mutex is not modelled. *)

From stdpp Require Import base list numbers strings.
From Stdlib Require Import ZArith Lia.
From S2P Require Import Prelude Text TextFacts Timestamp TimestampFacts.

#[local] Open Scope Z_scope.

Inductive ClockError :=
| MonotonicBackwards | ElapsedRange | AuthorizationTimeRange | BeforeEpoch | SystemTimeRange
| ReflogRange | CreatorBeforeEpoch | YearRange | ProtocolOverflow.

#[export] Instance ClockError_eq_dec : EqDecision ClockError.
Proof. solve_decision. Defined.

Abbreviation clresult := (result ClockError).

(** ** The system authorization clock *)

Record Sample := { wall : Z; monotonic : Z }.

Record SystemAuthorizationClockState := { last_unix_nanos : Z; last_monotonic : Z }.

Definition observe (self : SystemAuthorizationClockState) (wall_unix_nanos monotonic_now : Z)
  : clresult (SystemAuthorizationClockState * Z) :=
  elapsed ← (if monotonic_now <? last_monotonic self then Err MonotonicBackwards
             else Ok (monotonic_now - last_monotonic self));
  elapsed_nanos ← (if elapsed >? i128_max then Err ElapsedRange else Ok elapsed);
  monotonic_floor ← ok_or (i128_checked_add (last_unix_nanos self) elapsed_nanos) AuthorizationTimeRange;
  let observed := Z.max wall_unix_nanos monotonic_floor in
  Ok ({| last_unix_nanos := observed; last_monotonic := monotonic_now |}, observed).

(** The state behind the mutex, and the answer.  An error leaves the state alone. *)
Definition now_unix_nanos (state : option SystemAuthorizationClockState) (sample : Sample)
  : option SystemAuthorizationClockState * clresult Z :=
  if wall sample <? 0 then (state, Err BeforeEpoch)
  else if wall sample >? i128_max then (state, Err SystemTimeRange)
  else
    match state with
    | Some self =>
      match observe self (wall sample) (monotonic sample) with
      | Ok (self, observed) => (Some self, Ok observed)
      | Err e => (state, Err e)
      end
    | None =>
      (Some {| last_unix_nanos := wall sample; last_monotonic := monotonic sample |}, Ok (wall sample))
    end.

(** ** Protocol timestamps *)

Definition civil_from_days (days_since_epoch : Z) : Z * Z * Z :=
  let z := days_since_epoch + 719468 in
  let era := Z.quot (if z >=? 0 then z else z - 146096) 146097 in
  let day_of_era := z - era * 146097 in
  let year_of_era :=
    Z.quot (day_of_era - Z.quot day_of_era 1460 + Z.quot day_of_era 36524 - Z.quot day_of_era 146096) 365 in
  let year := year_of_era + era * 400 in
  let day_of_year := day_of_era - (365 * year_of_era + Z.quot year_of_era 4 - Z.quot year_of_era 100) in
  let month_prime := Z.quot (5 * day_of_year + 2) 153 in
  let day := day_of_year - Z.quot (153 * month_prime + 2) 5 + 1 in
  let month := month_prime + (if month_prime <? 10 then 3 else -9) in
  let year := year + (if month <=? 2 then 1 else 0) in
  (year, month, day).

Definition format_timestamp (seconds nanos : Z) : clresult str :=
  if seconds <? 0 then Err CreatorBeforeEpoch
  else
    let days := seconds / 86400 in
    let seconds_of_day := seconds mod 86400 in
    let '(year, month, day) := civil_from_days days in
    if negb ((0 <=? year) && (year <=? 9999)) then Err YearRange
    else
      let hour := Z.quot seconds_of_day 3600 in
      let minute := Z.quot (Z.rem seconds_of_day 3600) 60 in
      let second := Z.rem seconds_of_day 60 in
      Ok (format_fields year month day hour minute second nanos).

Record ProtocolTime := { pt_timestamp : str; pt_unix_nanos : Z; pt_seconds : Z; pt_subsec_nanos : Z }.

Definition after_seconds (self : ProtocolTime) (delta : Z) : clresult str :=
  seconds ← ok_or (i64_checked_add (pt_seconds self) delta) ProtocolOverflow;
  format_timestamp seconds (pt_subsec_nanos self).

(** [RecordingClock]: its [last_unix_nanos]. *)
Record RecordingClock := { rc_last_unix_nanos : option Z }.

(** [tick] after the system clock's answer [observed]; the logical time is kept
    even when it does not fit the reflog range. *)
Definition tick_observed (self : RecordingClock) (observed : Z) : RecordingClock * clresult ProtocolTime :=
  let logical :=
    match rc_last_unix_nanos self ≫= (fun last => i128_checked_add last 1) with
    | None => observed
    | Some next => Z.max observed next
    end in
  let self := {| rc_last_unix_nanos := Some logical |} in
  if negb (in_i64 logical) then (self, Err ReflogRange)
  else
    let seconds := logical / 1000000000 in
    let subsec_nanos := logical mod 1000000000 in
    (self,
     timestamp ← format_timestamp seconds subsec_nanos;
     Ok {| pt_timestamp := timestamp; pt_unix_nanos := logical; pt_seconds := seconds;
           pt_subsec_nanos := subsec_nanos |}).

Definition tick (system : option SystemAuthorizationClockState) (self : RecordingClock) (sample : Sample)
  : option SystemAuthorizationClockState * RecordingClock * clresult ProtocolTime :=
  match now_unix_nanos system sample with
  | (system, Err e) => (system, self, Err e)
  | (system, Ok observed) =>
    let '(self, r) := tick_observed self observed in (system, self, r)
  end.

(** The ticks a clock answers on a sequence of samples, failures dropped. *)
Fixpoint ticks (system : option SystemAuthorizationClockState) (self : RecordingClock)
    (samples : list Sample) : list ProtocolTime :=
  match samples with
  | [] => []
  | sample :: samples =>
    let '(system, self, r) := tick system self sample in
    match r with
    | Ok t => t :: ticks system self samples
    | Err _ => ticks system self samples
    end
  end.

(** The same for the system clock: every answered reading with its sample. *)
Fixpoint readings (state : option SystemAuthorizationClockState) (samples : list Sample) : list (Sample * Z) :=
  match samples with
  | [] => []
  | sample :: samples =>
    let '(state, r) := now_unix_nanos state sample in
    match r with
    | Ok n => (sample, n) :: readings state samples
    | Err _ => readings state samples
    end
  end.
