(* ===== verification/TimestampProps.v ===== *)
(** * Timestamps and clocks: the properties *)

From stdpp Require Import base list numbers strings sorting.
From Stdlib Require Import ZArith Lia.
From S2P Require Import Prelude Text TextFacts Timestamp TimestampFacts Clocks.

#[local] Open Scope Z_scope.

(** ** The closed-form calendar agrees with the searching one *)

(** The day of the March-based year, within a 400-year era. *)
Lemma year_of_era_spec doe :
  0 <= doe <= 146096 ->
  let Y := (doe - doe / 1460 + doe / 36524 - doe / 146096) / 365 in
  0 <= Y <= 399 /\ 0 <= doe - (365 * Y + Y / 4 - Y / 100) <= 365 /\
  (doe - (365 * Y + Y / 4 - Y / 100) = 365 ->
   (Y + 1) mod 4 = 0 /\ ((Y + 1) mod 100 <> 0 \/ (Y + 1) mod 400 = 0)).
Proof.
  intros H Y. subst Y.
  assert (doe / 36524 = 0 \/ doe / 36524 = 1 \/ doe / 36524 = 2 \/ doe / 36524 = 3 \/ doe / 36524 = 4)
    by (Z.to_euclidean_division_equations; lia).
  split; [|split]; [Z.to_euclidean_division_equations; lia..|].
  intros E. Z.to_euclidean_division_equations. split; lia.
Qed.

(** 1 March of the year [yoe + 400 * era]. *)
Lemma march_first era yoe :
  0 <= era -> 0 <= yoe <= 399 ->
  days_before_civil_year (yoe + era * 400 + 1) = 146097 * era + (365 * yoe + yoe / 4 - yoe / 100) + 366.
Proof.
  intros. rewrite days_before_year_floor by lia. Z.to_euclidean_division_equations. lia.
Qed.

Lemma leap_next era yoe :
  (yoe + 1) mod 4 = 0 /\ ((yoe + 1) mod 100 <> 0 \/ (yoe + 1) mod 400 = 0) ->
  is_civil_leap_year (yoe + era * 400 + 1) = true.
Proof.
  intros [H1 H2]. unfold is_civil_leap_year.
  assert ((yoe + era * 400 + 1) mod 4 = (yoe + 1) mod 4) as -> by (Z.to_euclidean_division_equations; lia).
  assert ((yoe + era * 400 + 1) mod 100 = (yoe + 1) mod 100) as -> by (Z.to_euclidean_division_equations; lia).
  assert ((yoe + era * 400 + 1) mod 400 = (yoe + 1) mod 400) as -> by (Z.to_euclidean_division_equations; lia).
  rewrite H1. destruct H2 as [H2|H2].
  - rewrite (proj2 (Z.eqb_neq ((yoe + 1) mod 100) 0)) by done. reflexivity.
  - rewrite H2. by rewrite orb_true_r.
Qed.

(** Month and day from the day of the March-based year. *)
Lemma month_of_march_year y doy :
  0 <= doy <= 365 ->
  let mp := (5 * doy + 2) / 153 in
  let d := doy - (153 * mp + 2) / 5 + 1 in
  let m := mp + (if mp <? 10 then 3 else -9) in
  let leap := if is_civil_leap_year y then 1 else 0 in
  (3 <= m <= 12 /\ days_before_month y m + (d - 1) = 59 + leap + doy /\ 1 <= d <= days_in_civil_month y m) \/
  (1 <= m <= 2 /\ days_before_month (y + 1) m + (d - 1) = doy - 306 /\
   1 <= d <= (if m =? 1 then 31 else 29) /\ (m = 2 -> d = 29 -> doy = 365)).
Proof.
  intros H mp d m leap.
  assert (0 <= mp <= 11 /\ 153 * mp <= 5 * doy + 2 < 153 * mp + 153) as [Hmp Hb]
    by (subst mp; Z.to_euclidean_division_equations; lia).
  assert (mp = 0 \/ mp = 1 \/ mp = 2 \/ mp = 3 \/ mp = 4 \/ mp = 5 \/ mp = 6 \/ mp = 7 \/ mp = 8 \/ mp = 9 \/
          mp = 10 \/ mp = 11) as Hc by lia.
  clearbody mp. subst d m leap.
  repeat (destruct Hc as [->|Hc]); [..|subst mp];
    match goal with |- context [Z.div ?a 5] => let v := eval vm_compute in (Z.div a 5) in change (Z.div a 5) with v end;
    cbn [Z.ltb Z.compare Pos.compare Pos.compare_cont].
  11-12: right.
  1-10: left.
  all: unfold days_before_month;
    match goal with |- context [seqZ 1 ?e] => let v := eval vm_compute in (seqZ 1 e) in change (seqZ 1 e) with v end.
  all: match goal with |- context [?a + ?b <= 12] => let v := eval vm_compute in (a + b) in change (a + b) with v
                     | |- context [?a + ?b <= 2] => let v := eval vm_compute in (a + b) in change (a + b) with v end.
  all: cbn; destruct (is_civil_leap_year y); lia.
Qed.

Lemma civil_from_days_spec days :
  0 <= days ->
  exists y m d, civil_from_days days = (y, m, d) /\ 0 <= y /\ 1 <= m <= 12 /\
    1 <= d <= days_in_civil_month y m /\ date_days y m d = days + days_before_civil_year 1970.
Proof.
  intros Hd. unfold civil_from_days. change (days_before_civil_year 1970) with 719528.
  set (z := days + 719468). rewrite Z.geb_leb, (proj2 (Z.leb_le 0 z)) by lia.
  rewrite (Z.quot_div_nonneg z) by lia.
  set (era := z / 146097). set (doe := z - era * 146097).
  assert (0 <= era /\ 0 <= doe <= 146096 /\ z = era * 146097 + doe) as (Hera & Hdoe & Hz).
  { subst doe era. Z.to_euclidean_division_equations. lia. }
  clearbody era doe. rewrite !(Z.quot_div_nonneg doe) by lia.
  destruct (year_of_era_spec doe Hdoe) as (Hy & Hdoy & Hleap).
  rewrite Z.quot_div_nonneg by (Z.to_euclidean_division_equations; lia).
  set (yoe := (doe - doe / 1460 + doe / 36524 - doe / 146096) / 365) in *. clearbody yoe.
  rewrite !(Z.quot_div_nonneg yoe) by lia.
  set (doy := doe - (365 * yoe + yoe / 4 - yoe / 100)) in *.
  rewrite (Z.quot_div_nonneg (5 * doy + 2)) by lia.
  pose proof (march_first era yoe Hera Hy) as Hm1.
  pose proof (month_of_march_year (yoe + era * 400) doy Hdoy) as Hm. cbv zeta in Hm.
  set (mp := (5 * doy + 2) / 153) in *.
  rewrite Z.quot_div_nonneg by (try lia; subst mp; Z.to_euclidean_division_equations; lia).
  set (d := doy - (153 * mp + 2) / 5 + 1) in *. set (m := mp + (if mp <? 10 then 3 else -9)) in *.
  assert (doe = doy + (365 * yoe + yoe / 4 - yoe / 100)) as Hdoe' by (subst doy; lia).
  clearbody d m mp doy.
  destruct Hm as [(Hm & E & Hr)|(Hm & E & Hr & H29)].
  - rewrite (proj2 (Z.leb_gt m 2)) by lia. exists (yoe + era * 400 + 0), m, d. rewrite Z.add_0_r.
    split_and!; [done|lia..|]. rewrite days_before_year_succ in Hm1 by lia.
    unfold date_days, year_length in *. destruct (is_civil_leap_year _); lia.
  - rewrite (proj2 (Z.leb_le m 2)) by lia. exists (yoe + era * 400 + 1), m, d.
    split_and!; [done|lia..| |unfold date_days; lia].
    assert (m = 1 \/ m = 2) as [->| ->] by lia; cbn; cbn in Hr; [lia|].
    destruct (decide (d = 29)) as [E29|]; [|destruct (is_civil_leap_year _); lia].
    rewrite leap_next by (apply Hleap, H29; [done|exact E29]). lia.
Qed.

(** ** Formatting *)

(** For instants after the epoch with a four-digit year both formatters agree. *)
Lemma format_timestamp_fields f :
  fields_valid f -> 0 <= fields_nanos f ->
  format_timestamp (fields_nanos f / 1000000000) (fields_nanos f mod 1000000000) = Ok (fields_text f).
Proof.
  intros Hf Hn. destruct (fields_nanos_split f Hf) as [Hd Ht]. unfold format_timestamp.
  set (n := fields_nanos f) in *. destruct (nanos_of_day_fields n) as (Hs & Hh & Hmi & Hse & Hna).
  change NANOS_PER_SECOND with 1000000000 in *. change SECONDS_PER_DAY with 86400 in *.
  assert (0 <= n / 1000000000) by (apply Z.div_pos; lia).
  rewrite (proj2 (Z.ltb_ge (n / 1000000000) 0)) by done. rewrite Z.div_div by lia.
  change (1000000000 * 86400) with 86400000000000.
  destruct (civil_from_days_spec (n / 86400000000000)) as (y & m & d & -> & Hy & Hm & Hday & E);
    [apply Z.div_pos; lia|]. rewrite Hd in E.
  assert (0 <= n / 1000000000 mod 86400) by (apply Z.mod_pos_bound; lia).
  set (s := n / 1000000000 mod 86400) in *.
  rewrite Z.quot_div_nonneg, !Z.rem_mod_nonneg by lia.
  rewrite Z.quot_div_nonneg by (try lia; apply Z.mod_pos_bound; lia).
  assert (y <= 9999) as Hy'.
  { pose proof (date_days_bounds (f_year f) (f_month f) (f_day f) ltac:(apply Hf)) as Hb. rewrite <- E in Hb.
    destruct (decide (y <= 9999)); [done|]. exfalso. unfold date_days in Hb.
    pose proof (days_before_year_mono 10000 y). pose proof (days_before_month_nonneg y m). lia. }
  destruct (date_days_inj y m d (f_year f) (f_month f) (f_day f)) as (-> & -> & ->);
    [split_and!; lia|apply Hf|done|].
  rewrite (proj2 (Z.leb_le 0 _)), (proj2 (Z.leb_le _ 9999)) by lia. cbn [andb negb]. f_equal.
  rewrite Hs in Ht. destruct Hf as (_ & ? & ? & ? & ?). unfold nanos_of_day, fields_text in *. f_equal; lia.
Qed.

Lemma format_timestamp_year_range n :
  MAX_UNIX_NANOS < n -> format_timestamp (n / 1000000000) (n mod 1000000000) = Err YearRange.
Proof.
  unfold MAX_UNIX_NANOS. intros Hn. unfold format_timestamp.
  rewrite (proj2 (Z.ltb_ge (n / 1000000000) 0)) by (apply Z.div_pos; lia).
  destruct (civil_from_days_spec (n / 1000000000 / 86400)) as (y & m & d & -> & Hy & Hm & Hday & E).
  { apply Z.div_pos; [apply Z.div_pos|]; lia. }
  assert (9999 < y); [|by rewrite (proj2 (Z.leb_gt y 9999)), andb_false_r by done].
  destruct (decide (9999 < y)); [done|]. exfalso.
  assert (valid_date y m d) as Hv by (split_and!; lia). apply date_days_bounds in Hv. rewrite E in Hv.
  change (days_before_civil_year 1970) with 719528 in *. change (days_before_civil_year 10000) with 3652425 in *.
  Z.to_euclidean_division_equations. lia.
Qed.

(** ** Timestamps and clocks: the properties *)

(** Parsing and formatting are inverse: a text parses to a timestamp exactly when the
    timestamp carries that text and formatting its instant gives the timestamp back.  So each
    instant has one canonical text, and formatted text always parses to its instant. *)
Lemma timestamp_roundtrip s t :
  timestamp_parse s = Ok t <-> encoded t = s /\ from_unix_nanos (unix_nanos t) = Some (Ok t).
Proof.
  unfold timestamp_parse. split.
  - intros H. result_inv. match goal with H : parse_canonical_timestamp_unix_nanos _ = _ |- _ =>
      apply parse_timestamp_inv in H as (f & Hf & -> & ->) end.
    split; [done|]. by apply from_unix_nanos_fields.
  - intros [<- H]. destruct (decide (MIN_UNIX_NANOS <= unix_nanos t <= MAX_UNIX_NANOS)) as [Hr|Hr].
    + apply from_unix_nanos_in_range in Hr as (f & Hf & E & E'). rewrite E' in H. injection H as H.
      rewrite <- H. cbn [encoded]. rewrite parse_fields_text by done. cbn [mbind result_bind]. by rewrite <- E.
    + by rewrite from_unix_nanos_out_of_range in H.
Qed.

(** [from_unix_nanos] always terminates within its search bounds; it succeeds exactly on
    the instants of the years 0000 to 9999, keeping the instant, and reports [OutOfRange] on
    every other. *)
Lemma from_unix_nanos_total n :
  if bool_decide (-62167219200000000000 <= n <= 253402300799999999999)
  then exists t, from_unix_nanos n = Some (Ok t) /\ unix_nanos t = n /\ len (encoded t) = 30
  else from_unix_nanos n = Some (Err OutOfRange).
Proof.
  case_bool_decide as Hr.
  - apply from_unix_nanos_in_range in Hr as (f & Hf & E & ->). eexists. split_and!; [done..|]. cbn [encoded].
    pose proof (parse_fields_text f Hf) as Hp. unfold parse_canonical_timestamp_unix_nanos in Hp.
    destruct (timestamp_lexical (fields_text f)) eqn:El; [|done].
    unfold timestamp_lexical in El. bool_props. done.
  - by apply from_unix_nanos_out_of_range.
Qed.

(** Canonical timestamps sort as text the way they sort as instants. *)
Lemma timestamp_order a b t u :
  timestamp_parse a = Ok t -> timestamp_parse b = Ok u ->
  lex_compare (encoded t) (encoded u) = (unix_nanos t ?= unix_nanos u).
Proof.
  unfold timestamp_parse. intros Ha Hb. result_inv.
  repeat match goal with H : parse_canonical_timestamp_unix_nanos _ = _ |- _ =>
    apply parse_timestamp_inv in H as (? & ? & -> & ->) end.
  cbn [encoded unix_nanos]. by apply fields_text_compare.
Qed.

(** The creator's closed-form formatter produces, for every instant from the epoch on, the
    same text as [CanonicalTimestamp::from_unix_nanos], and refuses the same instants. *)
Lemma format_timestamp_agrees n :
  0 <= n ->
  from_unix_nanos n =
  Some match format_timestamp (n / 1000000000) (n mod 1000000000) with
       | Ok text => Ok {| encoded := text; unix_nanos := n |}
       | Err _ => Err OutOfRange
       end.
Proof.
  intros Hn. destruct (decide (n <= MAX_UNIX_NANOS)) as [Hr|Hr].
  - assert (MIN_UNIX_NANOS <= n) as Hlo by (unfold MIN_UNIX_NANOS; lia).
    destruct (from_unix_nanos_in_range n (conj Hlo Hr)) as (f & Hf & -> & E). rewrite E.
    by rewrite format_timestamp_fields.
  - rewrite format_timestamp_year_range by lia. apply from_unix_nanos_out_of_range. lia.
Qed.

(** ** Clocks *)

Lemma now_unix_nanos_Ok st sample st' n :
  now_unix_nanos st sample = (st', Ok n) ->
  st' = Some {| last_unix_nanos := n; last_monotonic := monotonic sample |} /\ 0 <= wall sample <= n /\ n <= i128_max /\
  match st with
  | Some s => last_monotonic s <= monotonic sample /\ last_unix_nanos s + (monotonic sample - last_monotonic s) <= n
  | None => True
  end.
Proof.
  unfold now_unix_nanos. intros H. destruct (wall sample <? 0) eqn:E1; [done|].
  destruct (wall sample >? i128_max) eqn:E2; [done|]. bool_props. destruct st as [s|]; [|simplify_eq; split_and!; done || lia].
  destruct (observe s (wall sample) (monotonic sample)) as [[s' o]|e] eqn:E; [|done]. simplify_eq.
  unfold observe in E. destruct (monotonic sample <? last_monotonic s) eqn:E3; [done|]. cbn [mbind result_bind] in E.
  destruct (_ >? _) in E; [done|]. cbn [mbind result_bind] in E. result_inv.
  unfold i128_checked_add in *. destruct (in_i128 _) eqn:E4; [|done]. simplify_eq. unfold in_i128 in E4. bool_props.
  split_and!; [done|lia..].
Qed.

Lemma now_unix_nanos_Err st sample st' e : now_unix_nanos st sample = (st', Err e) -> st' = st.
Proof. unfold now_unix_nanos. intros H. repeat case_match; by simplify_eq. Qed.

(** Reading [b] comes after reading [a]. *)
Definition reading_after (a b : Sample * Z) : Prop :=
  monotonic (fst a) <= monotonic (fst b) /\
  snd a + (monotonic (fst b) - monotonic (fst a)) <= snd b.

Lemma readings_after samples : forall st,
  Forall (fun r => wall (fst r) <= snd r /\
    match st with
    | Some s => reading_after ({| wall := 0; monotonic := last_monotonic s |}, last_unix_nanos s) r
    | None => True
    end) (readings st samples) /\ StronglySorted reading_after (readings st samples).
Proof.
  induction samples as [|sample samples IH]; intros st; [split; constructor|]. cbn [readings].
  destruct (now_unix_nanos st sample) as [st' [n|e]] eqn:E.
  - apply now_unix_nanos_Ok in E as (-> & [_ Hw] & _ & Hst). specialize (IH (Some {| last_unix_nanos := n; last_monotonic := monotonic sample |})).
    cbn [last_monotonic last_unix_nanos] in IH. destruct IH as [IHf IHs]. unfold reading_after in *. cbn [fst snd monotonic] in *. split.
    + constructor; [by destruct st|]. eapply Forall_impl; [exact IHf|]. cbn.
      intros r (? & ? & ?). destruct st; [|done]. lia.
    + constructor; [done|]. eapply Forall_impl; [exact IHf|]. cbn. intros r (? & ? & ?). lia.
  - apply now_unix_nanos_Err in E as ->. apply IH.
Qed.

(** For every sequence of operating-system samples, whatever the wall clock does, the
    answered readings of the authorization clock never go back: each is at least the wall time
    of its own sample and later than every earlier reading by at least the monotonic time
    that passed between them. *)
Lemma authorization_clock_monotone st samples :
  StronglySorted reading_after (readings st samples) /\
  Forall (fun r => wall (fst r) <= snd r) (readings st samples).
Proof.
  destruct (readings_after samples st) as [Hf Hs]. split; [done|].
  eapply Forall_impl; [exact Hf|]. by intros r [? _].
Qed.

(** *** The recording clock *)

Definition tick_after (a b : ProtocolTime) : Prop :=
  pt_unix_nanos a < pt_unix_nanos b /\ lex_compare (pt_timestamp a) (pt_timestamp b) = Lt.

Definition tick_ok (t : ProtocolTime) : Prop :=
  timestamp_parse (pt_timestamp t) = Ok {| encoded := pt_timestamp t; unix_nanos := pt_unix_nanos t |}.

Lemma tick_ok_lt t u : tick_ok t -> tick_ok u -> pt_unix_nanos t < pt_unix_nanos u -> tick_after t u.
Proof.
  unfold tick_ok, timestamp_parse, tick_after. intros Ht Hu Hlt. split; [done|]. result_inv.
  repeat match goal with H : parse_canonical_timestamp_unix_nanos _ = _ |- _ =>
    apply parse_timestamp_inv in H as (? & ? & -> & ?) end.
  rewrite fields_text_compare by done. apply Z.compare_lt_iff. congruence.
Qed.

Lemma tick_observed_spec self observed self' r :
  tick_observed self observed = (self', r) ->
  exists l, self' = {| rc_last_unix_nanos := Some l |} /\ observed <= l /\
    (forall last, rc_last_unix_nanos self = Some last -> last + 1 <= i128_max -> i128_min <= last + 1 ->
       l = Z.max observed (last + 1)) /\
    ((forall last, rc_last_unix_nanos self = Some last -> ~ (i128_min <= last + 1 <= i128_max)) -> l = observed) /\
    forall t, r = Ok t -> pt_unix_nanos t = l /\ l <= i64_max /\ tick_ok t.
Proof.
  unfold tick_observed. set (logical := match _ with None => _ | Some _ => _ end). intros H.
  exists logical.
  assert (self' = {| rc_last_unix_nanos := Some logical |}) as -> by (destruct (negb _); by simplify_eq).
  split_and!; [done|subst logical; clear; destruct (rc_last_unix_nanos self ≫= _); lia| | |].
  - intros last E Hhi Hlo. subst logical. rewrite E. cbn [mbind option_bind]. unfold i128_checked_add, in_i128.
    by rewrite (proj2 (Z.leb_le _ _)), (proj2 (Z.leb_le _ _)) by lia.
  - intros Hn. subst logical. destruct (rc_last_unix_nanos self) as [last|] eqn:E; [|done].
    cbn [mbind option_bind]. unfold i128_checked_add, in_i128. specialize (Hn last eq_refl).
    destruct (_ && _) eqn:Eb; [|done]. bool_props. lia.
  - intros t ->. clearbody logical. destruct (in_i64 logical) eqn:Ei; cbn [negb] in H; [|by simplify_eq].
    injection H as H. result_inv. unfold in_i64 in Ei. bool_props. cbn. split_and!; [done..|].
    match goal with H : format_timestamp _ _ = Ok ?ts |- _ => rename ts into text; rename H into Hfmt end.
    destruct (decide (0 <= logical)) as [Hpos|Hneg].
    + unfold tick_ok. cbn [pt_timestamp pt_unix_nanos].
      destruct (from_unix_nanos_in_range logical) as (f & Hf & E & _).
      { unfold MIN_UNIX_NANOS, MAX_UNIX_NANOS, i64_max in *. lia. }
      rewrite E in Hfmt, Hpos |- *. rewrite format_timestamp_fields in Hfmt by done. injection Hfmt as <-.
      unfold timestamp_parse. by rewrite parse_fields_text.
    + unfold format_timestamp in Hfmt. rewrite (proj2 (Z.ltb_lt _ 0)) in Hfmt; [done|].
      apply Z.div_lt_upper_bound; lia.
Qed.

Definition system_floor (system : option SystemAuthorizationClockState) : Z :=
  match system with Some s => last_unix_nanos s | None => 0 end.

(** The clock has answered [v] and ticked at most [c] times since it was fresh. *)
Definition recorded (system : option SystemAuthorizationClockState) (self : RecordingClock) (v c : Z) : Prop :=
  v <= i64_max /\ exists l, rc_last_unix_nanos self = Some l /\ v <= l /\ l <= Z.max i64_max (system_floor system) + c.

Lemma tick_recorded system self sample v c system' self' r :
  -1 <= v -> 0 <= c <= 2 ^ 126 -> recorded system self v c -> tick system self sample = (system', self', r) ->
  recorded system' self' v (c + 1) /\
  forall t, r = Ok t -> v < pt_unix_nanos t /\ tick_ok t /\ recorded system' self' (pt_unix_nanos t) (c + 1).
Proof.
  intros Hv Hc (Hvm & l & Hl & Hvl & Hlc). unfold tick. intros H.
  destruct (now_unix_nanos system sample) as [sys1 [n|e]] eqn:En.
  2: { apply now_unix_nanos_Err in En as ->. simplify_eq. split; [|done]. split; [done|]. exists l. split_and!; try done; lia. }
  apply now_unix_nanos_Ok in En as (-> & _ & Hn & Hfloor).
  destruct (tick_observed self n) as [self1 r1] eqn:Et. simplify_eq.
  apply tick_observed_spec in Et as (l' & -> & Hnl & Hmax & Hnone & Hok).
  assert (system_floor system <= n \/ system_floor system = 0) as Hsf by (destruct system; cbn; [left; lia|by right]).
  unfold recorded. cbn [system_floor last_unix_nanos rc_last_unix_nanos].
  unfold i128_min, i128_max, i64_max in *.
  destruct (decide (l + 1 <= 2 ^ 127 - 1)) as [Hlt|Hge].
  - specialize (Hmax l Hl ltac:(lia) ltac:(lia)).
    split; [split; [done|]; exists l'; split_and!; [done|lia|lia]|].
    intros t Ht. apply Hok in Ht as (-> & ? & ?). split_and!; [lia|done|done|]. exists l'. split_and!; [done|lia|lia].
  - rewrite Hnone in * by (intros last E; simplify_eq; lia).
    split; [split; [done|]; exists n; split_and!; [done|lia|lia]|].
    intros t Ht. apply Hok in Ht as (-> & ? & ?). lia.
Qed.

Lemma ticks_recorded samples : forall system self v c,
  -1 <= v -> 0 <= c -> c + len samples <= 2 ^ 126 -> recorded system self v c ->
  Forall (fun t => v < pt_unix_nanos t /\ tick_ok t) (ticks system self samples) /\
  StronglySorted tick_after (ticks system self samples).
Proof.
  induction samples as [|sample samples IH]; intros system self v c Hv Hc Hl Hr; [split; constructor|].
  cbn [ticks]. destruct (tick system self sample) as [[system' self'] r] eqn:E. rewrite len_cons in Hl.
  pose proof (len_nonneg samples).
  destruct (tick_recorded _ _ _ _ c _ _ _ Hv ltac:(lia) Hr E) as [Hr' Hok].
  destruct r as [t|e]; [|eapply IH; [..|exact Hr']; lia].
  destruct (Hok t eq_refl) as (Hlt & Htok & Hrt).
  destruct (IH system' self' (pt_unix_nanos t) (c + 1)) as [IHf IHs]; [lia..|done|]. split.
  - constructor; [done|]. eapply Forall_impl; [exact IHf|]. cbn. intros u (? & ?). split; [lia|done].
  - constructor; [done|]. eapply Forall_impl; [exact IHf|]. cbn. intros u [Hlt' Hu]. by apply tick_ok_lt.
Qed.

(** A fresh recording clock hands out strictly increasing protocol times over any (fewer
    than 2^126) operating-system samples, whatever the system clock does between them: each
    tick is later than every earlier one as a number and as text, and its text parses back
    to exactly its nanoseconds. *)
Lemma recording_clock_strict system samples :
  len samples <= 2 ^ 126 ->
  StronglySorted tick_after (ticks system {| rc_last_unix_nanos := None |} samples) /\
  Forall tick_ok (ticks system {| rc_last_unix_nanos := None |} samples).
Proof.
  revert system. induction samples as [|sample samples IH]; intros system Hl; [split; constructor|].
  cbn [ticks]. rewrite len_cons in Hl. unfold tick.
  destruct (now_unix_nanos system sample) as [sys1 [n|e]] eqn:En; [|apply IH; lia].
  apply now_unix_nanos_Ok in En as (-> & Hw & Hn & _).
  destruct (tick_observed _ n) as [self r] eqn:Et.
  apply tick_observed_spec in Et as (l & -> & _ & _ & Hnone & Hok).
  rewrite Hnone in * by done. clear Hnone. pose proof (len_nonneg samples).
  assert (forall v, -1 <= v <= n -> v <= i64_max ->
    recorded (Some {| last_unix_nanos := n; last_monotonic := monotonic sample |})
      {| rc_last_unix_nanos := Some n |} v 0) as Hrec.
  { intros v ? ?. split; [done|]. exists n. cbn. split_and!; [done|lia..]. }
  destruct r as [t|e].
  - destruct (Hok t eq_refl) as (Et & ? & Htok).
    destruct (ticks_recorded samples _ _ n 0 ltac:(lia) ltac:(lia) ltac:(lia) (Hrec n ltac:(lia) ltac:(lia))) as [Hf Hs].
    split; constructor; try done; (eapply Forall_impl; [exact Hf|]); cbn; intros u [Hlt Hu]; [|done].
    apply tick_ok_lt; [done..|]. lia.
  - destruct (ticks_recorded samples _ _ (-1) 0 ltac:(lia) ltac:(lia) ltac:(lia) (Hrec (-1) ltac:(lia) ltac:(done))) as [Hf Hs].
    split; [done|]. eapply Forall_impl; [exact Hf|]. by intros u [_ Hu].
Qed.
