(* ===== verification/PortablePath.v ===== *)
(** * Portable paths

    The path-syntax floor of crates/synapse-canonical/src/lib.rs:
    [is_portable_segment], [has_windows_drive_letter_prefix] and
    [is_portable_relative_path]. *)

From stdpp Require Import base list numbers strings.
From Stdlib Require Import ZArith Lia.
From S2P Require Import Prelude Text TextFacts.

#[local] Open Scope Z_scope.

Inductive PortablePathErrorKind :=
| EmptyPath | LeadingSlash | Backslash | WindowsDriveLetter | CurrentDirSegment | ParentDirSegment
| EmptySegment | NulByte.

#[export] Instance PortablePathErrorKind_eq_dec : EqDecision PortablePathErrorKind.
Proof. solve_decision. Defined.

Definition is_portable_segment (segment : str) : bool :=
  negb (bool_decide (segment = [])) && negb (str_eqb segment (lit ".")) &&
  negb (str_eqb segment (lit "..")) && negb (contains_byte 47 segment || contains_byte 0 segment).

Definition has_windows_drive_letter_prefix (path : str) : bool :=
  match path with
  | b0 :: b1 :: _ => is_ascii_alphabetic b0 && (b1 =? 58)
  | _ => false
  end.

(** The loop over [path.split('/')]. *)
Fixpoint check_segments (segments : list str) : result PortablePathErrorKind unit :=
  match segments with
  | [] => Ok tt
  | segment :: segments =>
    if bool_decide (segment = []) then Err EmptySegment
    else if str_eqb segment (lit ".") then Err CurrentDirSegment
    else if str_eqb segment (lit "..") then Err ParentDirSegment
    else check_segments segments
  end.

Definition is_portable_relative_path (path : str) : result PortablePathErrorKind unit :=
  if bool_decide (path = []) then Err EmptyPath
  else if starts_with (lit "/") path then Err LeadingSlash
  else if contains_byte 92 path then Err Backslash
  else if has_windows_drive_letter_prefix path then Err WindowsDriveLetter
  else if contains_byte 0 path then Err NulByte
  else check_segments (split_on 47 path).

(** A directory walk: [.] stays, [..] leaves one level, any other name enters one.
    [None] means the walk went above where it started. *)
Fixpoint walk (depth : nat) (segments : list str) : option nat :=
  match segments with
  | [] => Some depth
  | segment :: segments =>
    if bool_decide (segment = []) || str_eqb segment (lit ".") then walk depth segments
    else if str_eqb segment (lit "..") then match depth with O => None | S depth => walk depth segments end
    else walk (S depth) segments
  end.

Lemma check_segments_Ok ss u :
  check_segments ss = Ok u <-> Forall (fun s => s <> [] /\ s <> lit "." /\ s <> lit "..") ss.
Proof.
  destruct u. induction ss as [|s ss IH]; cbn [check_segments]; [by split|]. rewrite Forall_cons, <- IH.
  case_bool_decide; [split; [done|naive_solver]|].
  destruct (str_eqb s (lit ".")) eqn:E1; [apply str_eqb_eq in E1; naive_solver|].
  destruct (str_eqb s (lit "..")) eqn:E2; [apply str_eqb_eq in E2; naive_solver|].
  assert (s <> lit "." /\ s <> lit "..").
  { split; intros E; by rewrite (proj2 (str_eqb_eq _ _) E) in *. }
  naive_solver.
Qed.

Lemma is_portable_segment_spec s :
  is_portable_segment s = true <-> s <> [] /\ s <> lit "." /\ s <> lit ".." /\ 47 ∉ s /\ 0 ∉ s.
Proof.
  unfold is_portable_segment. rewrite !andb_true_iff, !negb_true_iff, orb_false_iff, !contains_byte_false.
  rewrite bool_decide_eq_false. rewrite <- !not_true_iff_false, !str_eqb_eq. tauto.
Qed.

Lemma walk_names ss : forall d,
  Forall (fun s => s <> [] /\ s <> lit "." /\ s <> lit "..") ss -> walk d ss = Some (length ss + d)%nat.
Proof.
  induction ss as [|s ss IH]; intros d H; [done|]. inversion H as [|? ? (H1 & H2 & H3) Hss]; subst.
  cbn [walk]. rewrite bool_decide_eq_false_2 by done.
  rewrite <- str_eqb_eq, not_true_iff_false in H2, H3. rewrite H2, H3. cbn [orb].
  rewrite IH by done. f_equal. cbn [length]. lia.
Qed.

Lemma portable_path_Ok p u :
  is_portable_relative_path p = Ok u <->
  92 ∉ p /\ has_windows_drive_letter_prefix p = false /\ Forall (fun s => is_portable_segment s = true) (split_on 47 p).
Proof.
  unfold is_portable_relative_path.
  assert (Forall (fun s => is_portable_segment s = true) (split_on 47 p) <->
    0 ∉ p /\ Forall (fun s => s <> [] /\ s <> lit "." /\ s <> lit "..") (split_on 47 p)) as ->.
  { rewrite !Forall_forall. pose proof (split_on_pieces 47 p) as Hp. rewrite Forall_forall in Hp. split.
    - intros H. split; [|intros s Hs; apply H, is_portable_segment_spec in Hs; tauto].
      rewrite <- (join_split_on 47 p). clear Hp.
      assert (Forall (fun s => 0 ∉ s) (split_on 47 p)) as Hn.
      { apply Forall_forall. intros s Hs. apply H, is_portable_segment_spec in Hs. tauto. }
      induction Hn as [|s ss Hs Hss IH]; [apply not_elem_of_nil|]. destruct ss as [|s' ss]; [done|].
      change (join_with [47] (s :: s' :: ss)) with (s ++ [47] ++ join_with [47] (s' :: ss)).
      rewrite !not_elem_of_app. split_and!; [done|by apply contains_byte_false|apply IH].
      intros t Ht. apply H. by right.
    - intros [Hn H] s Hs. apply is_portable_segment_spec. destruct (H s Hs) as (? & ? & ?).
      split_and!; [done..|by apply Hp|]. intros Hnul. apply Hn. by eapply split_on_elem. }
  case_bool_decide as Hp.
  { subst p. split; [done|]. intros (_ & _ & _ & H). inversion H as [|? ? (? & _) _]; subst. done. }
  destruct (starts_with (lit "/") p) eqn:Es.
  { split; [done|]. intros (_ & _ & _ & H). unfold starts_with in Es. bool_props.
    destruct p as [|b p]; [done|]. change (lit "/") with [47] in Es. destruct Es as [r Es]. cbn [strip_prefix] in Es.
    destruct (Z.eqb_spec 47 b) as [<-|]; [|done]. cbn [split_on] in H. rewrite Z.eqb_refl in H.
    inversion H as [|? ? (? & _) _]; subst. done. }
  destruct (contains_byte 92 p) eqn:Eb.
  { apply contains_byte_spec in Eb. split; [done|]. tauto. }
  apply contains_byte_false in Eb. destruct (has_windows_drive_letter_prefix p); [split; [done|]; by intros (_ & ? & _)|].
  destruct (contains_byte 0 p) eqn:E0.
  { apply contains_byte_spec in E0. split; [done|]. tauto. }
  apply contains_byte_false in E0. rewrite check_segments_Ok. tauto.
Qed.

(** An accepted path is a non-empty sequence of portable segments (the same segments
    [is_portable_segment] accepts) joined by [/], has no backslash, NUL or drive prefix, and
    walking it from any directory only descends: it never leaves the directory it starts in. *)
Lemma portable_path_confined path :
  is_portable_relative_path path = Ok tt ->
  exists segments, segments <> [] /\ path = join_with (lit "/") segments /\
    Forall (fun s => is_portable_segment s = true) segments /\
    92 ∉ path /\ has_windows_drive_letter_prefix path = false /\
    forall depth k, walk depth (take k segments) = Some (length (take k segments) + depth)%nat.
Proof.
  intros (Hb & Hw & Hs)%portable_path_Ok. exists (split_on 47 path).
  destruct (split_on_nonempty 47 path) as (q & qs & E).
  split_and!; [by rewrite E|by rewrite <- (join_split_on 47 path) at 1|done..|].
  intros d k. apply walk_names, Forall_take. eapply Forall_impl; [exact Hs|].
  intros s ?%is_portable_segment_spec. tauto.
Qed.

(** Every way of joining portable segments without backslashes into a path that does not
    look like a drive prefix is accepted, and splitting the path gives the segments back. *)
Lemma portable_path_complete segments :
  segments <> [] -> Forall (fun s => is_portable_segment s = true /\ 92 ∉ s) segments ->
  has_windows_drive_letter_prefix (join_with (lit "/") segments) = false ->
  is_portable_relative_path (join_with (lit "/") segments) = Ok tt /\
  split_on 47 (join_with (lit "/") segments) = segments.
Proof.
  intros Hne Hs Hw. change (lit "/") with [47] in *.
  assert (split_on 47 (join_with [47] segments) = segments) as E.
  { apply split_on_join; [done|]. eapply Forall_impl; [exact Hs|]. intros s [?%is_portable_segment_spec _]. tauto. }
  split; [|done]. apply portable_path_Ok. rewrite E. split_and!; [|done|].
  - clear E Hw Hne. induction Hs as [|s ss [_ Hb] _ IH]; [apply not_elem_of_nil|]. destruct ss as [|t ss]; [done|].
    change (join_with [47] (s :: t :: ss)) with (s ++ [47] ++ join_with [47] (t :: ss)).
    rewrite !not_elem_of_app. split_and!; [done|by apply contains_byte_false|done].
  - eapply Forall_impl; [exact Hs|]. by intros s [? _].
Qed.

