(* ===== verification/Canonical.v ===== *)
(** * Synapse Canonical JSON: the restricted JSON domain, its writer and its strict parser

    Models crates/synapse-canonical/src/lib.rs: [Value], [ResourceLimits],
    [ErrorCode], the size pass and the writer behind [canonical_json], and the
    strict [Parser].  Error messages are not modelled, error codes are.  The
    parser's [text]/[bytes]/[position] triple is the suffix of the input that
    is still to be read ([rest]).  Unicode NFC ([unicode_normalization]) is the
    parameter [nfc].  Recursion is bounded by an explicit [fuel]; running out
    of it is the separate error [OutOfFuel], and a failed [expect] is [Panic];
    CanonicalLaws shows that [parse_strict_with_limits] returns neither. *)

From stdpp Require Import base list numbers strings.
From Stdlib Require Import ZArith Lia.
From S2P Require Import Prelude Text.

#[local] Open Scope Z_scope.

Inductive ErrorCode :=
| InvalidUtf8 | BomForbidden | DuplicateKey | NumberTokenForbidden | UnsafeInteger
| LoneSurrogate | KeyNotNfc | IdentifierNotNfc | SetNotSorted | SetDuplicate
| TimestampInvalid | IntervalInvalid | FixedPointNotNormalized | PathSegmentInvalid
| ResourceLimit | SchemaInvalid | ReferenceTypeMismatch | OidMismatch | ClosureMissing
| AuthorizationDenied | HumanGateRequired | StaleBase | RefConflict.

#[export] Instance ErrorCode_eq_dec : EqDecision ErrorCode.
Proof. solve_decision. Defined.

(** [CoreError] keeps its code.  [Panic] is a failed [expect], [Aborted] an allocation
    that ends the process and [OutOfFuel] an exhausted recursion bound: none of them is a
    value the code returns. *)
Inductive CoreError :=
| Core (code : ErrorCode)
| Panic
| Aborted
| OutOfFuel.

#[export] Instance CoreError_eq_dec : EqDecision CoreError.
Proof. solve_decision. Defined.

Abbreviation cresult := (result CoreError).
Abbreviation fail code := (Err (Core code)).

Definition MAX_SAFE_INTEGER : Z := 9007199254740991.
Definition DEFAULT_MAX_STRUCTURED_BYTES : Z := 16 * 1024 * 1024.
Definition DEFAULT_MAX_NESTING_DEPTH : Z := 128.
Definition HARD_MAX_NESTING_DEPTH : Z := 256.
Definition DEFAULT_MAX_NODES : Z := 100000.
Definition DEFAULT_MAX_CONTAINER_ITEMS : Z := 50000.

Record ResourceLimits := {
  max_input_bytes : Z;
  max_nesting_depth : Z;
  max_nodes : Z;
  max_container_items : Z;
  max_canonical_bytes : Z;
}.

Definition default_limits : ResourceLimits := {|
  max_input_bytes := DEFAULT_MAX_STRUCTURED_BYTES;
  max_nesting_depth := DEFAULT_MAX_NESTING_DEPTH;
  max_nodes := DEFAULT_MAX_NODES;
  max_container_items := DEFAULT_MAX_CONTAINER_ITEMS;
  max_canonical_bytes := DEFAULT_MAX_STRUCTURED_BYTES;
|}.

Unset Elimination Schemes.
Inductive Value :=
| Null
| Bool (b : bool)
| Integer (i : Z)
| Str (s : str)
| Arr (values : list Value)
| Obj (entries : list (str * Value)).
Set Elimination Schemes.

(** The induction principle that reaches through arrays and objects. *)
Section Value_ind.
Variable P : Value -> Prop.
Hypothesis Hnull : P Null.
Hypothesis Hbool : forall b, P (Bool b).
Hypothesis Hint : forall i, P (Integer i).
Hypothesis Hstr : forall s, P (Str s).
Hypothesis Harr : forall vs, Forall P vs -> P (Arr vs).
Hypothesis Hobj : forall es, Forall (fun e => P (snd e)) es -> P (Obj es).

Fixpoint Value_ind (v : Value) : P v :=
  match v with
  | Null => Hnull
  | Bool b => Hbool b
  | Integer i => Hint i
  | Str s => Hstr s
  | Arr vs => Harr vs
      ((fix go vs : Forall P vs :=
          match vs with
          | [] => Forall_nil_2 P
          | v :: vs => Forall_cons_2 P v vs (Value_ind v) (go vs)
          end) vs)
  | Obj es => Hobj es
      ((fix go es : Forall (fun e => P (snd e)) es :=
          match es with
          | [] => Forall_nil_2 _
          | e :: es => Forall_cons_2 (fun e => P (snd e)) e es (Value_ind (snd e)) (go es)
          end) es)
  end.
End Value_ind.

(** ** Accessors *)

Definition object_field (fields : list (str * Value)) (name : str) : option Value :=
  snd <$> find (fun e => str_eqb (fst e) name) fields.

Definition get (v : Value) (key : str) : option Value :=
  match v with Obj entries => object_field entries key | _ => None end.

Definition as_str (v : Value) : option str := match v with Str s => Some s | _ => None end.
Definition as_i64 (v : Value) : option Z := match v with Integer i => Some i | _ => None end.
Definition as_array (v : Value) : option (list Value) := match v with Arr vs => Some vs | _ => None end.
Definition as_object (v : Value) : option (list (str * Value)) :=
  match v with Obj es => Some es | _ => None end.

(** [value.get(key).and_then(Value::as_str)] *)
Definition get_str (v : Value) (key : str) : option str := get v key ≫= as_str.

(** ** Resource accounting *)

Definition validate_limits (limits : ResourceLimits) : cresult unit :=
  if max_nesting_depth limits >? HARD_MAX_NESTING_DEPTH then fail ResourceLimit else Ok tt.

Definition consume_node (nodes limit : Z) : cresult Z :=
  nodes ← ok_or (usize_checked_add nodes 1) (Core ResourceLimit);
  if nodes >? limit then fail ResourceLimit else Ok nodes.

Definition check_container_items (items limit : Z) : cresult unit :=
  if items >? limit then fail ResourceLimit else Ok tt.

Definition checked_child_depth (depth limit : Z) : cresult Z :=
  child_depth ← ok_or (usize_checked_add depth 1) (Core ResourceLimit);
  if child_depth >? limit then fail ResourceLimit else Ok child_depth.

Definition ensure_size (size limit : Z) : cresult Z :=
  if size >? limit then fail ResourceLimit else Ok size.

Definition checked_size_add (total addition limit : Z) : cresult Z :=
  size ← ok_or (usize_checked_add total addition) (Core ResourceLimit);
  ensure_size size limit.

Definition in_safe_range (i : Z) : bool := (- MAX_SAFE_INTEGER <=? i) && (i <=? MAX_SAFE_INTEGER).

(** ** Strings *)

(** The characters with a two-character escape: quote, backslash, \b, \t, \n, \f, \r. *)
Definition short_escape (c : char) : option char :=
  if c =? 34 then Some 34
  else if c =? 92 then Some 92
  else if c =? 8 then Some 98
  else if c =? 9 then Some 116
  else if c =? 10 then Some 110
  else if c =? 12 then Some 102
  else if c =? 13 then Some 114
  else None.

Definition canonical_char_size (c : char) : Z :=
  match short_escape c with
  | Some _ => 2
  | None => if (0 <=? c) && (c <=? 31) then 6 else len_utf8 c
  end.

Definition canonical_string_size (value : str) (limit : Z) : cresult Z :=
  foldl (fun total character =>
           total ← total;
           checked_size_add total (canonical_char_size character) limit)
        (Ok 2) (chars value).

Definition hex_digit (n : Z) : byte := if n <? 10 then 48 + n else 87 + n.

(** [{:04x}] of a value below 65536. *)
Definition hex4 (n : Z) : str :=
  [hex_digit (n / 4096 mod 16); hex_digit (n / 256 mod 16);
   hex_digit (n / 16 mod 16); hex_digit (n mod 16)].

Definition write_json_char (c : char) : str :=
  match short_escape c with
  | Some e => [92; e]
  | None =>
    if (0 <=? c) && (c <=? 31) then lit "\u" ++ hex4 c
    else encode_utf8 c
  end.

Definition write_json_string (value output : str) : str :=
  foldl (fun output character => output ++ write_json_char character)
        (output ++ [34]) (chars value) ++ [34].

Definition utf16_compare (left right : str) : comparison :=
  lex_compare (encode_utf16 left) (encode_utf16 right).

(** [ordered.sort_by(utf16_compare)]: a stable sort. *)
Section Sort.
Context {A : Type}.

Fixpoint insert_by_key (e : str * A) (l : list (str * A)) : list (str * A) :=
  match l with
  | [] => [e]
  | f :: l' =>
    match utf16_compare (fst e) (fst f) with
    | Gt => f :: insert_by_key e l'
    | _ => e :: l
    end
  end.

Fixpoint sort_by_key (l : list (str * A)) : list (str * A) :=
  match l with
  | [] => []
  | e :: l => insert_by_key e (sort_by_key l)
  end.
End Sort.

Section Canonical.

(** Unicode canonical composition of a character sequence. *)
Variable nfc : list char -> list char.

Definition is_nfc (s : str) : bool := bool_decide (nfc (chars s) = chars s).

Definition require_nfc_key (key : str) : cresult unit :=
  if negb (is_nfc key) then fail KeyNotNfc else Ok tt.

(** A [HashSet] of the keys seen so far. *)
Definition insert_seen (seen : list str) (key : str) : cresult (list str) :=
  if existsb (str_eqb key) seen then fail DuplicateKey else Ok (key :: seen).

(** ** The size pass *)

(** The two loops of [canonical_size], over the function that measures a child. *)
Section SizeLoops.
Variable limit : Z.
Variable child_size_of : Value -> Z -> cresult (Z * Z).

Definition add_separator (index : nat) (total : Z) : cresult Z :=
  match index with O => Ok total | S _ => checked_size_add total 1 limit end.

Fixpoint size_array_loop (index : nat) (values : list Value) (total nodes : Z) : cresult (Z * Z) :=
  match values with
  | [] => Ok (total, nodes)
  | child :: values =>
    total ← add_separator index total;
    '(child_size, nodes) ← child_size_of child nodes;
    total ← checked_size_add total child_size limit;
    size_array_loop (S index) values total nodes
  end.

Fixpoint size_object_loop (index : nat) (entries : list (str * Value)) (seen : list str)
    (total nodes : Z) : cresult (Z * Z) :=
  match entries with
  | [] => Ok (total, nodes)
  | (key, child) :: entries =>
    seen ← insert_seen seen key;
    require_nfc_key key;;
    total ← add_separator index total;
    key_size ← canonical_string_size key limit;
    total ← checked_size_add total key_size limit;
    total ← checked_size_add total 1 limit;
    '(child_size, nodes) ← child_size_of child nodes;
    total ← checked_size_add total child_size limit;
    size_object_loop (S index) entries seen total nodes
  end.
End SizeLoops.

Fixpoint canonical_size (value : Value) (depth : Z) (limits : ResourceLimits) (nodes : Z)
  : cresult (Z * Z) :=
  nodes ← consume_node nodes (max_nodes limits);
  '(size, nodes) ←
    match value with
    | Null => Ok (4, nodes)
    | Bool true => Ok (4, nodes)
    | Bool false => Ok (5, nodes)
    | Integer i =>
      if negb (in_safe_range i) then fail NumberTokenForbidden
      else Ok (len (show_int i), nodes)
    | Str s =>
      size ← canonical_string_size s (max_canonical_bytes limits);
      Ok (size, nodes)
    | Arr values =>
      child_depth ← checked_child_depth depth (max_nesting_depth limits);
      check_container_items (len values) (max_container_items limits);;
      size_array_loop (max_canonical_bytes limits)
        (fun child => canonical_size child child_depth limits) O values 2 nodes
    | Obj entries =>
      child_depth ← checked_child_depth depth (max_nesting_depth limits);
      check_container_items (len entries) (max_container_items limits);;
      size_object_loop (max_canonical_bytes limits)
        (fun child => canonical_size child child_depth limits) O entries [] 2 nodes
    end;
  size ← ensure_size size (max_canonical_bytes limits);
  Ok (size, nodes).

(** ** The writer *)

(** The check every object passes before its entries are ordered. *)
Fixpoint check_object_keys (seen : list str) (keys : list str) : cresult unit :=
  match keys with
  | [] => Ok tt
  | key :: keys =>
    seen ← insert_seen seen key;
    require_nfc_key key;;
    check_object_keys seen keys
  end.

(** [if index != 0 { output.push(',') }] *)
Definition push_separator (index : nat) (output : str) : str :=
  match index with O => output | S _ => output ++ lit "," end.

Section WriteLoops.
Variable write_child : Value -> str -> cresult str.

Fixpoint write_array_loop (index : nat) (values : list Value) (output : str) : cresult str :=
  match values with
  | [] => Ok output
  | child :: values =>
    output ← write_child child (push_separator index output);
    write_array_loop (S index) values output
  end.
End WriteLoops.

(** The object loop runs over the ordered entries, each child already paired
    with its writer. *)
Fixpoint write_object_loop (index : nat) (ordered : list (str * (str -> cresult str))) (output : str)
  : cresult str :=
  match ordered with
  | [] => Ok output
  | (key, write_child) :: ordered =>
    output ← write_child (write_json_string key (push_separator index output) ++ lit ":");
    write_object_loop (S index) ordered output
  end.

Fixpoint write_canonical (value : Value) (output : str) : cresult str :=
  match value with
  | Null => Ok (output ++ lit "null")
  | Bool true => Ok (output ++ lit "true")
  | Bool false => Ok (output ++ lit "false")
  | Integer i =>
    if negb (in_safe_range i) then fail NumberTokenForbidden
    else Ok (output ++ show_int i)
  | Str s => Ok (write_json_string s output)
  | Arr values =>
    output ← write_array_loop write_canonical O values (output ++ lit "[");
    Ok (output ++ lit "]")
  | Obj entries =>
    check_object_keys [] (map fst entries);;
    let ordered := sort_by_key (map (fun e => (fst e, write_canonical (snd e))) entries) in
    output ← write_object_loop O ordered (output ++ lit "{");
    Ok (output ++ lit "}")
  end.

Definition canonical_json_with_limits (value : Value) (limits : ResourceLimits) : cresult str :=
  validate_limits limits;;
  canonical_size value 0 limits 0;;
  write_canonical value [].

Definition canonical_bytes_with_limits (value : Value) (limits : ResourceLimits) : cresult str :=
  canonical_json_with_limits value limits.

Definition canonical_json (value : Value) : cresult str := canonical_json_with_limits value default_limits.
Definition canonical_bytes (value : Value) : cresult str := canonical_bytes_with_limits value default_limits.

(** ** The strict parser *)

Record Parser := { rest : str; nodes : Z }.

Definition peek (p : Parser) : option byte := head (rest p).

(** [self.position += n] *)
Definition advance (n : nat) (p : Parser) : Parser := {| rest := drop n (rest p); nodes := nodes p |}.

Definition set_rest (p : Parser) (r : str) : Parser := {| rest := r; nodes := nodes p |}.

Definition is_whitespace (b : byte) : bool := (b =? 32) || (b =? 9) || (b =? 13) || (b =? 10).

Fixpoint skip_ws (s : str) : str :=
  match s with
  | b :: r => if is_whitespace b then skip_ws r else s
  | [] => []
  end.

Definition skip_whitespace (p : Parser) : Parser := set_rest p (skip_ws (rest p)).

Definition parser_consume_node (limits : ResourceLimits) (p : Parser) : cresult Parser :=
  n ← consume_node (nodes p) (max_nodes limits);
  Ok {| rest := rest p; nodes := n |}.

(** [u16::from_str_radix(token, 16)] on checked digits. *)
Definition hex_value (b : byte) : Z :=
  if is_ascii_digit b then b - 48 else if 97 <=? b then b - 87 else b - 55.

Definition parse_hex_u16 (s : str) : cresult (Z * str) :=
  match s with
  | a :: b :: c :: d :: r =>
    if negb (forallb is_ascii_hexdigit [a; b; c; d]) then fail SchemaInvalid
    else Ok (hex_value a * 4096 + hex_value b * 256 + hex_value c * 16 + hex_value d, r)
  | _ => fail SchemaInvalid
  end.

Definition parse_unicode_escape (s output : str) : cresult (str * str) :=
  '(first, s) ← parse_hex_u16 s;
  '(scalar, s) ←
    (if (55296 <=? first) && (first <=? 56319) then
       s ← ok_or (strip_prefix (lit "\u") s) (Core LoneSurrogate);
       '(second, s) ← parse_hex_u16 s;
       if negb ((56320 <=? second) && (second <=? 57343)) then fail LoneSurrogate
       else Ok (65536 + Z.lor (Z.shiftl (first - 55296) 10) (second - 56320), s)
     else if (56320 <=? first) && (first <=? 57343) then fail LoneSurrogate
     else Ok (first, s));
  if char_ok scalar then Ok (output ++ encode_utf8 scalar, s) else Err Panic.

Definition parse_escape (s output : str) : cresult (str * str) :=
  match s with
  | [] => fail SchemaInvalid
  | e :: s =>
    if e =? 34 then Ok (output ++ [34], s)
    else if e =? 92 then Ok (output ++ [92], s)
    else if e =? 47 then Ok (output ++ [47], s)
    else if e =? 98 then Ok (output ++ [8], s)
    else if e =? 102 then Ok (output ++ [12], s)
    else if e =? 110 then Ok (output ++ [10], s)
    else if e =? 114 then Ok (output ++ [13], s)
    else if e =? 116 then Ok (output ++ [9], s)
    else if e =? 117 then parse_unicode_escape s output
    else fail SchemaInvalid
  end.

(** The loop of [parse_string], after the opening quote. *)
Fixpoint parse_string_loop (fuel : nat) (s value : str) : cresult (str * str) :=
  match fuel with
  | O => Err OutOfFuel
  | S fuel =>
    match s with
    | [] => fail SchemaInvalid
    | byte :: s' =>
      if byte =? 34 then Ok (value, s')
      else if byte =? 92 then
        '(value, s') ← parse_escape s' value;
        parse_string_loop fuel s' value
      else if (0 <=? byte) && (byte <=? 31) then fail SchemaInvalid
      else if (32 <=? byte) && (byte <=? 127) then parse_string_loop fuel s' (value ++ [byte])
      else
        match utf8_next s with
        | Some (character, s') => parse_string_loop fuel s' (value ++ encode_utf8 character)
        | None => Err Panic
        end
    end
  end.

Definition parse_string (p : Parser) : cresult (str * Parser) :=
  '(value, s) ← parse_string_loop (S (length (rest p))) (drop 1 (rest p)) [];
  Ok (value, set_rest p s).

Definition valid_integer_token (token : str) : bool :=
  let digits := default token (strip_prefix (lit "-") token) in
  if bool_decide (digits = []) || negb (forallb is_ascii_digit digits) then false
  else str_eqb digits (lit "0") || negb (starts_with (lit "0") digits).

Definition ends_number (b : byte) : bool :=
  is_whitespace b || (b =? 44) || (b =? 93) || (b =? 125).

(** The bytes up to the first one that ends a number token, and the others. *)
Fixpoint take_number (s : str) : str * str :=
  match s with
  | [] => ([], [])
  | b :: r => if ends_number b then ([], s) else let '(t, u) := take_number r in (b :: t, u)
  end.

Definition parse_number (p : Parser) : cresult (Value * Parser) :=
  let '(token, s) := take_number (rest p) in
  if negb (valid_integer_token token) || str_eqb token (lit "-0") then fail NumberTokenForbidden
  else
    value ← ok_or (parse_i64 token) (Core UnsafeInteger);
    if negb (in_safe_range value) then fail UnsafeInteger
    else Ok (Integer value, set_rest p s).

Definition parse_keyword (keyword : str) (value : Value) (p : Parser) : cresult (Value * Parser) :=
  match strip_prefix keyword (rest p) with
  | None => fail SchemaInvalid
  | Some s => Ok (value, set_rest p s)
  end.

(** [parse_value], with the opening of [parse_object] and [parse_array] (skip the
    bracket, return at once for an empty container) in the two bracket cases. *)
Fixpoint parse_value (fuel : nat) (limits : ResourceLimits) (depth : Z) (p : Parser)
  : cresult (Value * Parser) :=
  match fuel with
  | O => Err OutOfFuel
  | S fuel =>
    let p := skip_whitespace p in
    p ← parser_consume_node limits p;
    match peek p with
    | None => fail SchemaInvalid
    | Some b =>
      if b =? 123 then
        child_depth ← checked_child_depth depth (max_nesting_depth limits);
        let p := skip_whitespace (advance 1 p) in
        if bool_decide (peek p = Some 125) then Ok (Obj [], advance 1 p)
        else parse_object_loop fuel limits child_depth [] [] p
      else if b =? 91 then
        child_depth ← checked_child_depth depth (max_nesting_depth limits);
        let p := skip_whitespace (advance 1 p) in
        if bool_decide (peek p = Some 93) then Ok (Arr [], advance 1 p)
        else parse_array_loop fuel limits child_depth [] p
      else if b =? 34 then '(s, p) ← parse_string p; Ok (Str s, p)
      else if b =? 116 then parse_keyword (lit "true") (Bool true) p
      else if b =? 102 then parse_keyword (lit "false") (Bool false) p
      else if b =? 110 then parse_keyword (lit "null") Null p
      else if (b =? 45) || is_ascii_digit b then parse_number p
      else fail SchemaInvalid
    end
  end

(** The loop of [parse_object], after the opening brace of a non-empty object. *)
with parse_object_loop (fuel : nat) (limits : ResourceLimits) (depth : Z)
    (entries : list (str * Value)) (keys : list str) (p : Parser) : cresult (Value * Parser) :=
  match fuel with
  | O => Err OutOfFuel
  | S fuel =>
    if len entries >=? max_container_items limits then fail ResourceLimit
    else if negb (bool_decide (peek p = Some 34)) then fail SchemaInvalid
    else
      '(key, p) ← parse_string p;
      keys ← insert_seen keys key;
      require_nfc_key key;;
      let p := skip_whitespace p in
      if negb (bool_decide (peek p = Some 58)) then fail SchemaInvalid
      else
        let p := skip_whitespace (advance 1 p) in
        '(value, p) ← parse_value fuel limits depth p;
        let entries := entries ++ [(key, value)] in
        let p := skip_whitespace p in
        match peek p with
        | Some b =>
          if b =? 125 then Ok (Obj entries, advance 1 p)
          else if b =? 44 then
            parse_object_loop fuel limits depth entries keys (skip_whitespace (advance 1 p))
          else fail SchemaInvalid
        | None => fail SchemaInvalid
        end
  end

(** The loop of [parse_array], after the opening bracket of a non-empty array. *)
with parse_array_loop (fuel : nat) (limits : ResourceLimits) (depth : Z)
    (values : list Value) (p : Parser) : cresult (Value * Parser) :=
  match fuel with
  | O => Err OutOfFuel
  | S fuel =>
    if len values >=? max_container_items limits then fail ResourceLimit
    else
      '(value, p) ← parse_value fuel limits depth p;
      let values := values ++ [value] in
      let p := skip_whitespace p in
      match peek p with
      | Some b =>
        if b =? 93 then Ok (Arr values, advance 1 p)
        else if b =? 44 then
          parse_array_loop fuel limits depth values (skip_whitespace (advance 1 p))
        else fail SchemaInvalid
      | None => fail SchemaInvalid
      end
  end.

(** Two units of fuel per input byte, and three for the outermost calls. *)
Definition parse_fuel (s : str) : nat := 2 * length s + 3.

Definition parse_text (text : str) (limits : ResourceLimits) : cresult Value :=
  let p := skip_whitespace {| rest := text; nodes := 0 |} in
  '(value, p) ← parse_value (parse_fuel text) limits 0 p;
  let p := skip_whitespace p in
  if negb (bool_decide (rest p = [])) then fail SchemaInvalid else Ok value.

Definition parse_strict_with_limits (input : str) (limits : ResourceLimits) : cresult Value :=
  validate_limits limits;;
  (if len input >? max_input_bytes limits then fail ResourceLimit else Ok tt);;
  (if starts_with [239; 187; 191] input then fail BomForbidden else Ok tt);;
  (if negb (utf8_valid input) then fail InvalidUtf8 else Ok tt);;
  (if bool_decide (head (chars input) = Some 65279) then fail BomForbidden else Ok tt);;
  parse_text input limits.

Definition parse_strict (input : str) : cresult Value := parse_strict_with_limits input default_limits.

End Canonical.
