(* ===== verification/CanonicalWrite.v ===== *)
(** * The canonical writer: reference rendering and its agreement with the code

    [render] is the canonical text as a pure function, [canonicalize] the value
    with every object's entries in UTF-16 key order.  The lemmas relate the
    size pass and the writer of Canonical to them. *)

From stdpp Require Import base list numbers strings sorting.
From Stdlib Require Import ZArith Lia.
From S2P Require Import Prelude Text TextFacts Canonical.

#[local] Open Scope Z_scope.

(** ** Ordering of object entries *)

Definition key_le (a b : str) : Prop := utf16_compare a b <> Gt.

Section SortFacts.
Context {A : Type}.
Implicit Types (l : list (str * A)).

Lemma insert_by_key_perm (e : str * A) l : insert_by_key e l ≡ₚ e :: l.
Proof.
  induction l as [|f l IH]; simpl; [done|].
  destruct (utf16_compare (fst e) (fst f)); [done..|]. rewrite IH. by constructor.
Qed.

Lemma sort_by_key_perm l : sort_by_key l ≡ₚ l.
Proof. induction l as [|e l IH]; simpl; [done|]. by rewrite insert_by_key_perm, IH. Qed.

Definition keys_sorted l : Prop := Sorted (fun e f => key_le (fst e) (fst f)) l.

Lemma utf16_compare_antisym a b : utf16_compare b a = CompOpp (utf16_compare a b).
Proof. apply lex_compare_antisym. Qed.

Lemma insert_by_key_sorted (e : str * A) l : keys_sorted l -> keys_sorted (insert_by_key e l).
Proof.
  induction 1 as [|f l Hl IH Hf]; simpl; [repeat constructor|].
  destruct (utf16_compare (fst e) (fst f)) eqn:E;
    [constructor; [by constructor|constructor; unfold key_le; congruence]..|].
  constructor; [done|]. destruct l as [|g l]; simpl; [|destruct (utf16_compare (fst e) (fst g))].
  all: try (constructor; unfold key_le; rewrite utf16_compare_antisym, E; done).
  inversion Hf; subst. by constructor.
Qed.

Lemma sort_by_key_sorted l : keys_sorted (sort_by_key l).
Proof. induction l; simpl; [constructor|]. by apply insert_by_key_sorted. Qed.

Lemma sort_by_key_id l : keys_sorted l -> sort_by_key l = l.
Proof.
  induction 1 as [|e l Hl IH He]; simpl; [done|]. rewrite IH.
  destruct l as [|f l]; [done|]. simpl. inversion He as [|? ? Hle]; subst. unfold key_le in Hle.
  by destruct (utf16_compare (fst e) (fst f)).
Qed.
End SortFacts.

Lemma insert_by_key_map {A B} (f : A -> B) (e : str * A) l :
  insert_by_key (prod_map id f e) (map (prod_map id f) l) = map (prod_map id f) (insert_by_key e l).
Proof.
  induction l as [|g l IH]; simpl; [done|]. unfold prod_map in *; simpl in *.
  destruct (utf16_compare _ _); simpl; [done..|]. by rewrite IH.
Qed.

Lemma sort_by_key_map {A B} (f : A -> B) (l : list (str * A)) :
  sort_by_key (map (prod_map id f) l) = map (prod_map id f) (sort_by_key l).
Proof. induction l as [|e l IH]; simpl; [done|]. by rewrite IH, insert_by_key_map. Qed.

(** Entries with pairwise distinct (valid) keys have exactly one sorted order. *)
Lemma key_le_antisym a b :
  utf8_valid a = true -> utf8_valid b = true -> key_le a b -> key_le b a -> a = b.
Proof.
  unfold key_le. intros Ha Hb Hab Hba. apply encode_utf16_inj; [done..|]. apply lex_compare_eq.
  rewrite utf16_compare_antisym in Hba. unfold utf16_compare in *.
  by destruct (lex_compare (encode_utf16 a) (encode_utf16 b)).
Qed.

Lemma key_le_trans a b c : key_le a b -> key_le b c -> key_le a c.
Proof.
  unfold key_le, utf16_compare. intros Hab Hbc.
  destruct (lex_compare (encode_utf16 a) (encode_utf16 b)) eqn:E1; [..|done].
  - apply lex_compare_eq in E1. by rewrite E1.
  - destruct (lex_compare (encode_utf16 b) (encode_utf16 c)) eqn:E2; [..|done].
    + apply lex_compare_eq in E2. rewrite <- E2, E1. done.
    + by erewrite lex_compare_lt_trans.
Qed.

(** ** The canonical text *)

Definition quote (s : str) : str := [34] ++ concat (map write_json_char (chars s)) ++ [34].

Fixpoint render (v : Value) : str :=
  match v with
  | Null => lit "null"
  | Bool true => lit "true"
  | Bool false => lit "false"
  | Integer i => show_int i
  | Str s => quote s
  | Arr vs => lit "[" ++ join_with (lit ",") (map render vs) ++ lit "]"
  | Obj es =>
    lit "{" ++ join_with (lit ",")
      (map (fun e => quote (fst e) ++ lit ":" ++ snd e)
         (sort_by_key (map (fun e => (fst e, render (snd e))) es))) ++ lit "}"
  end.

Fixpoint canonicalize (v : Value) : Value :=
  match v with
  | Arr vs => Arr (map canonicalize vs)
  | Obj es => Obj (sort_by_key (map (fun e => (fst e, canonicalize (snd e))) es))
  | _ => v
  end.

Definition render_entry (e : str * Value) : str := quote (fst e) ++ lit ":" ++ render (snd e).

Lemma render_obj es :
  render (Obj es) = lit "{" ++ join_with (lit ",") (map render_entry (sort_by_key es)) ++ lit "}".
Proof.
  cbn [render]. change (fun e : str * Value => (fst e, render (snd e))) with (prod_map (@id str) render).
  by rewrite sort_by_key_map, map_map.
Qed.

Lemma canonicalize_obj es :
  canonicalize (Obj es) = Obj (map (prod_map id canonicalize) (sort_by_key es)).
Proof.
  cbn [canonicalize].
  change (fun e : str * Value => (fst e, canonicalize (snd e))) with (prod_map (@id str) canonicalize).
  by rewrite sort_by_key_map.
Qed.

(** Number of nodes, and the container limits at a depth. *)
Fixpoint node_count (v : Value) : Z :=
  match v with
  | Arr vs => 1 + foldr (fun v n => node_count v + n) 0 vs
  | Obj es => 1 + foldr (fun e n => node_count (snd e) + n) 0 es
  | _ => 1
  end.

Fixpoint shape_ok (limits : ResourceLimits) (depth : Z) (v : Value) : Prop :=
  match v with
  | Arr vs =>
    depth + 1 <= max_nesting_depth limits /\ len vs <= max_container_items limits /\
    foldr (fun v Q => shape_ok limits (depth + 1) v /\ Q) True vs
  | Obj es =>
    depth + 1 <= max_nesting_depth limits /\ len es <= max_container_items limits /\
    foldr (fun e Q => shape_ok limits (depth + 1) (snd e) /\ Q) True es
  | _ => True
  end.

(** Every string and key is text, the type invariant of [String]. *)
Fixpoint text_ok (v : Value) : Prop :=
  match v with
  | Str s => utf8_valid s = true
  | Arr vs => foldr (fun v Q => text_ok v /\ Q) True vs
  | Obj es => foldr (fun e Q => utf8_valid (fst e) = true /\ text_ok (snd e) /\ Q) True es
  | _ => True
  end.

Section Domain.
Variable nfc : list char -> list char.

(** The canonical domain: safe integers, distinct NFC keys. *)
Fixpoint domain_ok (v : Value) : Prop :=
  match v with
  | Integer i => in_safe_range i = true
  | Arr vs => foldr (fun v Q => domain_ok v /\ Q) True vs
  | Obj es =>
    NoDup (map fst es) /\ Forall (fun k => is_nfc nfc k = true) (map fst es) /\
    foldr (fun e Q => domain_ok (snd e) /\ Q) True es
  | _ => True
  end.
End Domain.

Lemma foldr_Forall {A} (P : A -> Prop) l : foldr (fun x Q => P x /\ Q) True l <-> Forall P l.
Proof. induction l as [|x l IH]; simpl; [by split|]. rewrite IH, Forall_cons. done. Qed.

Lemma foldr_Forall2 {A} (P R : A -> Prop) l :
  foldr (fun x Q => P x /\ R x /\ Q) True l <-> Forall (fun x => P x /\ R x) l.
Proof. induction l as [|x l IH]; simpl; [by split|]. rewrite IH, Forall_cons. tauto. Qed.

(** ** Strings *)

Lemma len_write_json_char c : len (write_json_char c) = canonical_char_size c.
Proof.
  unfold write_json_char, canonical_char_size. destruct (short_escape c); [done|].
  destruct (_ && _); [done|]. apply len_encode_utf8.
Qed.

Lemma write_json_string_spec s out : write_json_string s out = out ++ quote s.
Proof.
  unfold write_json_string, quote.
  assert (forall cs acc, foldl (fun output character => output ++ write_json_char character) acc cs
    = acc ++ concat (map write_json_char cs)) as H.
  { induction cs as [|c cs IH]; intros acc; simpl; [by rewrite app_nil_r|]. by rewrite IH, app_assoc. }
  by rewrite H, <- !app_assoc.
Qed.

Lemma checked_size_add_Ok t a limit z :
  checked_size_add t a limit = Ok z -> z = t + a /\ z <= limit.
Proof.
  unfold checked_size_add, usize_checked_add, ensure_size.
  destruct (t + a <=? usize_max); simpl; [|done].
  destruct (t + a >? limit) eqn:E; [done|]. intros [= <-]. bool_props. lia.
Qed.

Lemma checked_size_add_fits t a limit :
  limit <= usize_max -> t + a <= limit -> checked_size_add t a limit = Ok (t + a).
Proof.
  intros Hl H. unfold checked_size_add, usize_checked_add, ensure_size.
  rewrite (proj2 (Z.leb_le _ _)) by lia. simpl.
  rewrite Z.gtb_ltb, (proj2 (Z.ltb_ge _ _)) by lia. done.
Qed.

Definition char_sizes (cs : list char) : Z := foldr (fun c n => canonical_char_size c + n) 0 cs.

Lemma canonical_char_size_pos c : 1 <= canonical_char_size c.
Proof.
  unfold canonical_char_size, len_utf8. destruct (short_escape c); [lia|]. destruct (_ && _); [lia|]. Zb.
Qed.

Lemma char_sizes_nonneg cs : 0 <= char_sizes cs.
Proof. induction cs as [|c cs IH]; simpl; [lia|]. pose proof (canonical_char_size_pos c). lia. Qed.

Lemma len_quote s : len (quote s) = 2 + char_sizes (chars s).
Proof.
  unfold quote. len_simpl. enough (len (concat (map write_json_char (chars s))) = char_sizes (chars s)) by lia.
  induction (chars s) as [|c cs IH]; simpl; [done|]. len_simpl. by rewrite IH, len_write_json_char.
Qed.

Lemma canonical_string_size_loop cs limit : forall t z,
  foldl (fun total c => total ← total; checked_size_add total (canonical_char_size c) limit) (Ok t) cs = Ok z
  -> z = t + char_sizes cs /\ (cs <> [] -> z <= limit).
Proof.
  induction cs as [|c cs IH]; intros t z H; simpl in *; [simplify_eq; split; [lia|done]|].
  destruct (checked_size_add t (canonical_char_size c) limit) as [t'|e] eqn:E.
  - apply checked_size_add_Ok in E as [-> Hl]. apply IH in H as [-> H']. split; [lia|].
    intros _. destruct cs; simpl in *; [lia|]. by apply H'.
  - exfalso. clear -H. induction cs; simpl in H; [done|]. by apply IHcs.
Qed.

Lemma canonical_string_size_Ok s limit z :
  canonical_string_size s limit = Ok z -> z = len (quote s).
Proof. unfold canonical_string_size. intros H. apply canonical_string_size_loop in H as [-> _]. by rewrite len_quote. Qed.

Lemma canonical_string_size_fits s limit :
  limit <= usize_max -> len (quote s) <= limit -> canonical_string_size s limit = Ok (len (quote s)).
Proof.
  intros Hu. rewrite len_quote. unfold canonical_string_size. generalize 2.
  induction (chars s) as [|c cs IH]; intros t Hl; simpl in *; [by rewrite Z.add_0_r|].
  pose proof (char_sizes_nonneg cs).
  rewrite checked_size_add_fits by lia. rewrite IH by lia. f_equal. lia.
Qed.

(** ** Keys *)

Section Write.
Variable nfc : list char -> list char.

Lemma insert_seen_Ok seen k seen' :
  insert_seen seen k = Ok seen' <-> k ∉ seen /\ seen' = k :: seen.
Proof.
  unfold insert_seen.
  assert (existsb (str_eqb k) seen = true <-> k ∈ seen) as Hex.
  { rewrite existsb_exists. setoid_rewrite str_eqb_eq. setoid_rewrite <- list_elem_of_In.
    split; [intros (? & ? & ->); done | by eauto]. }
  destruct (existsb (str_eqb k) seen); split.
  - done.
  - intros [Hk _]. exfalso. by apply Hk, Hex.
  - intros [= <-]. split; [|done]. intros Hk. by apply Hex in Hk.
  - intros [_ ->]. done.
Qed.

Lemma require_nfc_key_Ok k u : require_nfc_key nfc k = Ok u <-> is_nfc nfc k = true.
Proof. unfold require_nfc_key. destruct (is_nfc nfc k), u; simpl; split; congruence. Qed.

Definition keys_ok (seen ks : list str) : Prop :=
  NoDup ks /\ Forall (fun k => is_nfc nfc k = true) ks /\ (forall k, k ∈ ks -> k ∉ seen).

Lemma keys_ok_nil seen : keys_ok seen [].
Proof. split_and!; [constructor..|]. intros k Hk. by apply not_elem_of_nil in Hk. Qed.

Lemma keys_ok_cons seen k ks :
  keys_ok seen (k :: ks) <-> k ∉ seen /\ is_nfc nfc k = true /\ keys_ok (k :: seen) ks.
Proof. unfold keys_ok. rewrite NoDup_cons, Forall_cons. setoid_rewrite elem_of_cons. naive_solver. Qed.

Lemma check_object_keys_Ok ks : forall seen u,
  check_object_keys nfc seen ks = Ok u <-> keys_ok seen ks.
Proof.
  induction ks as [|k ks IH]; intros seen u; simpl.
  - split; [|by destruct u]. intros _. apply keys_ok_nil.
  - rewrite keys_ok_cons, bind_Ok. setoid_rewrite insert_seen_Ok. setoid_rewrite bind_Ok.
    setoid_rewrite require_nfc_key_Ok. setoid_rewrite IH. split.
    + intros (? & [? ->] & [] & ? & ?). done.
    + intros (? & ? & ?). exists (k :: seen). split; [done|]. by exists tt.
Qed.

(** ** The writer writes the reference text *)

Lemma join_with_cons sep p ps :
  join_with sep (p :: ps) = p ++ concat (map (fun q => sep ++ q) ps).
Proof.
  revert p. induction ps as [|q ps IH]; intros p; simpl; [by rewrite app_nil_r|].
  cbn [join_with] in IH. rewrite IH. by rewrite <- app_assoc.
Qed.

Definition tail_text (index : nat) (ps : list str) : str :=
  match index with O => join_with (lit ",") ps | S _ => concat (map (fun q => lit "," ++ q) ps) end.

Lemma tail_text_cons index p ps out :
  push_separator index out ++ p ++ tail_text (S index) ps = out ++ tail_text index (p :: ps).
Proof.
  destruct index; cbn [push_separator tail_text].
  - by rewrite join_with_cons.
  - simpl. by rewrite <- !app_assoc.
Qed.

Definition total_len (ps : list str) : Z := foldr (fun p n => len p + n) 0 ps.

Lemma total_len_perm ps qs : ps ≡ₚ qs -> total_len ps = total_len qs.
Proof. induction 1; simpl; lia. Qed.

Lemma len_tail_text index ps :
  len (tail_text index ps) =
  total_len ps + match index, ps with O, [] => 0 | O, _ => len ps - 1 | S _, _ => len ps end.
Proof.
  assert (forall qs, len (concat (map (fun q => lit "," ++ q) qs)) = total_len qs + len qs) as H.
  { induction qs as [|q qs IH]; [done|]. cbn [map concat]. rewrite !len_app, len_cons, IH.
    change (len (lit ",")) with 1. simpl. lia. }
  destruct index as [|index]; [|apply H]. destruct ps as [|p ps]; [done|].
  cbn [tail_text]. rewrite join_with_cons, len_app, H, len_cons. simpl. lia.
Qed.

Lemma len_tail_text_perm index ps qs :
  ps ≡ₚ qs -> len (tail_text index ps) = len (tail_text index qs).
Proof.
  intros Hp. rewrite !len_tail_text, (total_len_perm ps qs) by done.
  assert (len ps = len qs) as -> by (unfold len; by rewrite Hp).
  destruct index; [|done]. destruct ps, qs; try done; apply Permutation_length in Hp; simpl in Hp; lia.
Qed.

Lemma write_array_loop_spec vs : forall index out,
  Forall (fun v => forall out, write_canonical nfc v out = Ok (out ++ render v)) vs ->
  write_array_loop (write_canonical nfc) index vs out = Ok (out ++ tail_text index (map render vs)).
Proof.
  induction vs as [|v vs IH]; intros index out H; simpl.
  - destruct index; simpl; by rewrite app_nil_r.
  - inversion H as [|? ? Hv Hvs]; subst. rewrite Hv. simpl. rewrite IH by done.
    by rewrite <- app_assoc, tail_text_cons.
Qed.

Lemma write_object_loop_spec es : forall index out,
  Forall (fun e => forall out, write_canonical nfc (snd e) out = Ok (out ++ render (snd e))) es ->
  write_object_loop index (map (prod_map id (write_canonical nfc)) es) out
    = Ok (out ++ tail_text index (map render_entry es)).
Proof.
  induction es as [|[k v] es IH]; intros index out H; simpl.
  - destruct index; simpl; by rewrite app_nil_r.
  - inversion H as [|? ? Hv Hvs]; subst. simpl in Hv. rewrite Hv. simpl. rewrite IH by done.
    rewrite write_json_string_spec. f_equal. rewrite <- (tail_text_cons index (render_entry (k, v))).
    unfold render_entry. cbn [fst snd]. by rewrite <- !app_assoc.
Qed.

Lemma write_canonical_spec v : domain_ok nfc v -> forall out, write_canonical nfc v out = Ok (out ++ render v).
Proof.
  induction v as [|[]|i|s|vs IH|es IH] using Value_ind; intros Hd out; simpl; try done.
  - simpl in Hd. by rewrite Hd.
  - by rewrite write_json_string_spec.
  - simpl in Hd. rewrite foldr_Forall in Hd. rewrite write_array_loop_spec.
    + simpl. by rewrite <- !app_assoc.
    + eapply Forall_impl; [apply Forall_and; split; [exact IH|exact Hd]|]. simpl. intros v [H1 H2]. by apply H1.
  - simpl in Hd. destruct Hd as (Hnd & Hnfc & Hes). rewrite foldr_Forall in Hes.
    rewrite (proj2 (check_object_keys_Ok (map fst es) [] tt)).
    2: { split_and!; [done..|]. intros k _. apply not_elem_of_nil. }
    simpl. change (fun e : str * Value => (fst e, write_canonical nfc (snd e)))
      with (prod_map (@id str) (write_canonical nfc)).
    rewrite sort_by_key_map, write_object_loop_spec.
    + cbn [mbind result_bind tail_text]. f_equal. rewrite <- !app_assoc. f_equal. symmetry. apply render_obj.
    + rewrite sort_by_key_perm.
      eapply Forall_impl; [apply Forall_and; split; [exact IH|exact Hes]|]. simpl. intros e [H1 H2]. by apply H1.
Qed.

(** ** The size pass measures the reference text *)

Lemma consume_node_Ok n limit n' : consume_node n limit = Ok n' -> n' = n + 1 /\ n' <= limit.
Proof.
  unfold consume_node, usize_checked_add. destruct (n + 1 <=? usize_max); simpl; [|done].
  destruct (n + 1 >? limit) eqn:E; [done|]. intros [= <-]. bool_props. lia.
Qed.

Lemma consume_node_fits n limit :
  limit <= usize_max -> n + 1 <= limit -> consume_node n limit = Ok (n + 1).
Proof.
  intros. unfold consume_node, usize_checked_add. rewrite (proj2 (Z.leb_le _ _)) by lia. simpl.
  by rewrite Z.gtb_ltb, (proj2 (Z.ltb_ge _ _)) by lia.
Qed.

Lemma checked_child_depth_Ok d limit d' :
  checked_child_depth d limit = Ok d' -> d' = d + 1 /\ d' <= limit.
Proof. apply consume_node_Ok. Qed.

Lemma checked_child_depth_fits d limit :
  limit <= usize_max -> d + 1 <= limit -> checked_child_depth d limit = Ok (d + 1).
Proof. apply consume_node_fits. Qed.

Lemma check_container_items_Ok n limit u : check_container_items n limit = Ok u <-> n <= limit.
Proof.
  unfold check_container_items. destruct u, (n >? limit) eqn:E; bool_props; split; try done; lia.
Qed.

Lemma ensure_size_Ok s limit z : ensure_size s limit = Ok z <-> z = s /\ s <= limit.
Proof.
  unfold ensure_size. destruct (s >? limit) eqn:E; bool_props; split; try done; try lia.
  - intros [= <-]. lia.
  - intros [-> ?]. done.
Qed.

Lemma ensure_size_fits s limit : s <= limit -> ensure_size s limit = Ok s.
Proof. intros. by apply ensure_size_Ok. Qed.

Lemma add_separator_Ok limit index t t' :
  add_separator limit index t = Ok t' -> t' = t + match index with O => 0 | S _ => 1 end.
Proof. destruct index; simpl; [intros [= <-]; lia|]. intros H. by apply checked_size_add_Ok in H as [-> _]. Qed.

Definition nodes_total (vs : list Value) : Z := foldr (fun v n => node_count v + n) 0 vs.

Lemma node_count_arr vs : node_count (Arr vs) = 1 + nodes_total vs.
Proof. done. Qed.

Lemma node_count_obj es : node_count (Obj es) = 1 + nodes_total (map snd es).
Proof. cbn [node_count]. f_equal. induction es as [|e es IH]; simpl; [done|]. by rewrite IH. Qed.

Lemma len_tail_text_step index p ps :
  len (tail_text index (p :: ps)) =
  match index with O => 0 | S _ => 1 end + len p + len (tail_text (S index) ps).
Proof. rewrite !len_tail_text. destruct index, ps; simpl; len_lia. Qed.

Lemma len_render_entry e : len (render_entry e) = len (quote (fst e)) + 1 + len (render (snd e)).
Proof. unfold render_entry. rewrite !len_app. change (len (lit ":")) with 1. lia. Qed.

Lemma len_render_obj es : len (render (Obj es)) = 2 + len (tail_text O (map render_entry es)).
Proof.
  rewrite render_obj, !len_app. change (len (lit "{")) with 1. change (len (lit "}")) with 1.
  change (join_with (lit ",")) with (tail_text O).
  rewrite (len_tail_text_perm _ _ (map render_entry es)); [lia|]. by rewrite sort_by_key_perm.
Qed.

Lemma len_render_arr vs : len (render (Arr vs)) = 2 + len (tail_text O (map render vs)).
Proof. cbn [render tail_text]. rewrite !len_app. change (len (lit "[")) with 1. change (len (lit "]")) with 1. lia. Qed.

Section Size.
Variable limits : ResourceLimits.

(** Invert every successful accounting step. *)
Ltac size_inv := result_inv;
  repeat match goal with
  | H : consume_node _ _ = Ok _ |- _ => apply consume_node_Ok in H as [-> ?]
  | H : checked_child_depth _ _ = Ok _ |- _ => apply checked_child_depth_Ok in H as [-> ?]
  | H : check_container_items _ _ = Ok _ |- _ => apply check_container_items_Ok in H
  | H : ensure_size _ _ = Ok _ |- _ => apply ensure_size_Ok in H as [-> ?]
  | H : insert_seen _ _ = Ok _ |- _ => apply insert_seen_Ok in H as [? ->]
  | H : require_nfc_key _ _ = Ok _ |- _ => apply require_nfc_key_Ok in H
  | H : add_separator _ _ _ = Ok _ |- _ => apply add_separator_Ok in H as ->
  | H : canonical_string_size _ _ = Ok _ |- _ => apply canonical_string_size_Ok in H as ->
  | H : checked_size_add _ _ _ = Ok _ |- _ => apply checked_size_add_Ok in H as [-> ?]
  | H : (if negb _ then _ else _) = Ok _ |- _ =>
    let E := fresh "E" in destruct (negb _) eqn:E in H; [discriminate H|]; result_inv
  end.

(** What a successful measurement of [v] at depth [d] establishes. *)
Definition measured (d : Z) (v : Value) (n sz n' : Z) : Prop :=
  domain_ok nfc v /\ shape_ok limits d v /\ sz = len (render v) /\
  n' = n + node_count v /\ n' <= max_nodes limits.

Lemma size_array_loop_Ok d vs :
  Forall (fun v => forall n sz n', canonical_size nfc v d limits n = Ok (sz, n') -> measured d v n sz n') vs ->
  forall index t n t' n',
  size_array_loop (max_canonical_bytes limits) (fun c => canonical_size nfc c d limits) index vs t n = Ok (t', n') ->
  n <= max_nodes limits ->
  Forall (domain_ok nfc) vs /\ Forall (shape_ok limits d) vs /\
  t' = t + len (tail_text index (map render vs)) /\ n' = n + nodes_total vs /\ n' <= max_nodes limits.
Proof.
  induction 1 as [|v vs Hv _ IH]; intros index t n t' n' H Hn; cbn [size_array_loop] in H.
  - simplify_eq. split_and!; [constructor..| |simpl; lia|done]. destruct index; simpl; len_simpl; lia.
  - size_inv.
    match goal with H : canonical_size _ _ _ _ _ = _ |- _ => apply Hv in H as (? & ? & -> & -> & ?) end.
    match goal with H : size_array_loop _ _ _ _ _ _ = _ |- _ => apply IH in H as (? & ? & -> & -> & ?); [|done] end.
    split_and!; [by constructor..| |simpl; lia|done].
    cbn [map]. rewrite len_tail_text_step. lia.
Qed.

Lemma size_object_loop_Ok d es :
  Forall (fun e => forall n sz n', canonical_size nfc (snd e) d limits n = Ok (sz, n') -> measured d (snd e) n sz n') es ->
  forall index seen t n t' n',
  size_object_loop nfc (max_canonical_bytes limits) (fun c => canonical_size nfc c d limits) index es seen t n = Ok (t', n') ->
  n <= max_nodes limits ->
  keys_ok seen (map fst es) /\ Forall (fun e => domain_ok nfc (snd e)) es /\
  Forall (fun e => shape_ok limits d (snd e)) es /\
  t' = t + len (tail_text index (map render_entry es)) /\
  n' = n + nodes_total (map snd es) /\ n' <= max_nodes limits.
Proof.
  induction 1 as [|[k v] es Hv _ IH]; intros index seen t n t' n' H Hn; cbn [size_object_loop] in H.
  - simplify_eq. split_and!; [apply keys_ok_nil|constructor..| |simpl; lia|done].
    destruct index; simpl; len_simpl; lia.
  - cbn [fst snd] in Hv. size_inv.
    match goal with H : canonical_size _ _ _ _ _ = _ |- _ => apply Hv in H as (? & ? & -> & -> & ?) end.
    match goal with H : size_object_loop _ _ _ _ _ _ _ _ = _ |- _ =>
      apply IH in H as (? & ? & ? & -> & -> & ?); [|done] end.
    split_and!; [by apply keys_ok_cons|by constructor..| |simpl; lia|done].
    cbn [map]. rewrite len_tail_text_step, len_render_entry. cbn [fst snd]. lia.
Qed.

Lemma canonical_size_Ok v : forall d n sz n',
  canonical_size nfc v d limits n = Ok (sz, n') ->
  measured d v n sz n' /\ sz <= max_canonical_bytes limits.
Proof.
  induction v as [|[]|i|s|vs IH|es IH] using Value_ind; intros d n sz n' H;
    cbn [canonical_size] in H; size_inv; (split; [|done]); try (by split_and!).
  - bool_props. by split_and!.
  - match goal with H : size_array_loop _ _ _ _ _ _ = _ |- _ =>
      eapply size_array_loop_Ok in H as (? & ? & -> & -> & ?); [..|done] end.
    2: { eapply Forall_impl; [exact IH|]. simpl. intros v Hv ? ? ? Hc. by apply Hv in Hc as [? _]. }
    split_and!; [| |by rewrite len_render_arr|rewrite node_count_arr; lia|done].
    + cbn [domain_ok]. by rewrite foldr_Forall.
    + cbn [shape_ok]. by rewrite foldr_Forall.
  - match goal with H : size_object_loop _ _ _ _ _ _ _ _ = _ |- _ =>
      eapply size_object_loop_Ok in H as ((? & ? & ?) & ? & ? & -> & -> & ?); [..|done] end.
    2: { eapply Forall_impl; [exact IH|]. simpl. intros e Hv ? ? ? Hc. by apply Hv in Hc as [? _]. }
    split_and!; [| |by rewrite len_render_obj|rewrite node_count_obj; lia|done].
    + cbn [domain_ok]. by rewrite foldr_Forall.
    + cbn [shape_ok]. by rewrite foldr_Forall.
Qed.

(** ** Values within the limits are measured successfully *)

(** The limits are [usize] values. *)
Definition limits_usize : Prop :=
  max_nesting_depth limits <= usize_max /\ max_nodes limits <= usize_max /\
  max_canonical_bytes limits <= usize_max.

Lemma node_count_pos v : 1 <= node_count v.
Proof.
  induction v as [| | | |vs IH|es IH] using Value_ind; try (simpl; lia).
  - rewrite node_count_arr. enough (0 <= nodes_total vs) by lia.
    induction IH; simpl; lia.
  - rewrite node_count_obj. enough (0 <= nodes_total (map snd es)) by lia.
    induction IH; simpl; lia.
Qed.

Lemma nodes_total_nonneg vs : 0 <= nodes_total vs.
Proof. induction vs as [|v vs IH]; simpl; [lia|]. pose proof (node_count_pos v). lia. Qed.

Lemma add_separator_fits index t :
  limits_usize -> t + match index with O => 0 | S _ => 1 end <= max_canonical_bytes limits ->
  add_separator (max_canonical_bytes limits) index t = Ok (t + match index with O => 0 | S _ => 1 end).
Proof.
  intros (_ & _ & Hu) H. destruct index; simpl; [by rewrite Z.add_0_r|]. by apply checked_size_add_fits.
Qed.

(** [fits d v]: measuring [v] at depth [d] succeeds whenever the budget allows. *)
Definition fits (d : Z) (v : Value) : Prop := forall n,
  n + node_count v <= max_nodes limits -> len (render v) <= max_canonical_bytes limits ->
  canonical_size nfc v d limits n = Ok (len (render v), n + node_count v).

Lemma size_array_loop_fits d vs :
  limits_usize -> Forall (fits d) vs -> forall index t n,
  t + len (tail_text index (map render vs)) <= max_canonical_bytes limits -> 0 <= t ->
  n + nodes_total vs <= max_nodes limits ->
  size_array_loop (max_canonical_bytes limits) (fun c => canonical_size nfc c d limits) index vs t n
  = Ok (t + len (tail_text index (map render vs)), n + nodes_total vs).
Proof.
  intros Hu. induction 1 as [|v vs Hv _ IH]; intros index t n Ht Ht0 Hn; cbn [size_array_loop].
  - do 2 f_equal; [destruct index; simpl; len_simpl; lia|simpl; lia].
  - cbn [map] in *. rewrite len_tail_text_step in *. simpl in Hn.
    pose proof (len_nonneg (render v)). pose proof (len_nonneg (tail_text (S index) (map render vs))).
    pose proof (nodes_total_nonneg vs). pose proof Hu as (_ & _ & ?).
    rewrite add_separator_fits by (done || lia). cbn [mbind result_bind].
    rewrite Hv by (destruct index; lia). cbn [mbind result_bind].
    rewrite checked_size_add_fits by (destruct index; lia). cbn [mbind result_bind].
    rewrite IH by (destruct index; lia). do 2 f_equal; [lia|simpl; lia].
Qed.

Lemma size_object_loop_fits d es :
  limits_usize -> Forall (fun e => fits d (snd e)) es -> forall index seen t n,
  keys_ok seen (map fst es) ->
  t + len (tail_text index (map render_entry es)) <= max_canonical_bytes limits -> 0 <= t ->
  n + nodes_total (map snd es) <= max_nodes limits ->
  size_object_loop nfc (max_canonical_bytes limits) (fun c => canonical_size nfc c d limits) index es seen t n
  = Ok (t + len (tail_text index (map render_entry es)), n + nodes_total (map snd es)).
Proof.
  intros Hu. induction 1 as [|[k v] es Hv _ IH]; intros index seen t n Hk Ht Ht0 Hn;
    cbn [size_object_loop].
  - do 2 f_equal; [destruct index; simpl; len_simpl; lia|simpl; lia].
  - cbn [map fst snd] in *. rewrite len_tail_text_step, len_render_entry in *. simpl in Hn.
    cbn [fst snd] in *. apply keys_ok_cons in Hk as (? & ? & Hk).
    pose proof (len_nonneg (render v)). pose proof (len_nonneg (quote k)).
    pose proof (len_nonneg (tail_text (S index) (map render_entry es))).
    pose proof (nodes_total_nonneg (map snd es)). pose proof Hu as (_ & _ & ?).
    rewrite (proj2 (insert_seen_Ok _ _ _)) by done. cbn [mbind result_bind].
    rewrite (proj2 (require_nfc_key_Ok k tt)) by done. cbn [mbind result_bind].
    rewrite add_separator_fits by (done || lia). cbn [mbind result_bind].
    rewrite canonical_string_size_fits by (destruct index; lia). cbn [mbind result_bind].
    rewrite checked_size_add_fits by (destruct index; lia). cbn [mbind result_bind].
    rewrite checked_size_add_fits by (destruct index; lia). cbn [mbind result_bind].
    rewrite Hv by (destruct index; lia). cbn [mbind result_bind].
    rewrite checked_size_add_fits by (destruct index; lia). cbn [mbind result_bind].
    rewrite IH by (done || destruct index; lia). do 2 f_equal; [lia|simpl; lia].
Qed.

Lemma canonical_size_fits v : limits_usize -> forall d, domain_ok nfc v -> shape_ok limits d v -> fits d v.
Proof.
  intros Hu. pose proof Hu as (? & ? & ?).
  induction v as [|[]|i|s|vs IH|es IH] using Value_ind; intros d Hd Hs n Hn Hl;
    (match type of Hn with context [node_count ?v] => pose proof (node_count_pos v) end);
    cbn [canonical_size]; rewrite (consume_node_fits n) by (done || lia); cbn [mbind result_bind].
  - by rewrite ensure_size_fits.
  - by rewrite ensure_size_fits.
  - by rewrite ensure_size_fits.
  - cbn [domain_ok] in Hd. rewrite Hd. cbn [negb mbind result_bind].
    by rewrite ensure_size_fits.
  - rewrite canonical_string_size_fits by done. cbn [mbind result_bind].
    by rewrite ensure_size_fits.
  - cbn [domain_ok shape_ok] in *. destruct Hs as (? & ? & Hs). rewrite foldr_Forall in Hd, Hs.
    rewrite len_render_arr, node_count_arr in *.
    rewrite checked_child_depth_fits by done. cbn [mbind result_bind].
    rewrite (proj2 (check_container_items_Ok _ _ tt)) by done. cbn [mbind result_bind].
    rewrite size_array_loop_fits; [|done| |lia..].
    + cbn [mbind result_bind]. rewrite ensure_size_fits by lia.
      cbn [mbind result_bind]. do 2 f_equal. lia.
    + rewrite !Forall_forall in *. eauto.
  - cbn [domain_ok shape_ok] in *. destruct Hs as (? & ? & Hs). destruct Hd as (? & ? & Hd).
    rewrite foldr_Forall in Hd, Hs. rewrite len_render_obj, node_count_obj in *.
    rewrite checked_child_depth_fits by done. cbn [mbind result_bind].
    rewrite (proj2 (check_container_items_Ok _ _ tt)) by done. cbn [mbind result_bind].
    rewrite size_object_loop_fits; [|done| | |lia..].
    + cbn [mbind result_bind]. rewrite ensure_size_fits by lia.
      cbn [mbind result_bind]. do 2 f_equal. lia.
    + rewrite !Forall_forall in *. eauto.
    + split_and!; [done..|]. intros k _. apply not_elem_of_nil.
Qed.

Lemma validate_limits_Ok u : validate_limits limits = Ok u <-> max_nesting_depth limits <= HARD_MAX_NESTING_DEPTH.
Proof. unfold validate_limits. destruct u, (_ >? _) eqn:E; bool_props; split; try done; lia. Qed.

(** Exactly the values of the canonical domain that fit the limits have a
    canonical text, and it is the reference text. *)
Lemma canonical_json_Ok v out :
  canonical_json_with_limits nfc v limits = Ok out ->
  max_nesting_depth limits <= HARD_MAX_NESTING_DEPTH /\ domain_ok nfc v /\ shape_ok limits 0 v /\
  node_count v <= max_nodes limits /\ len (render v) <= max_canonical_bytes limits /\ out = render v.
Proof.
  unfold canonical_json_with_limits. intros H. result_inv.
  match goal with H : validate_limits _ = _ |- _ => apply validate_limits_Ok in H end.
  match goal with H : canonical_size _ _ _ _ _ = Ok ?x |- _ =>
    destruct x as [sz n']; apply canonical_size_Ok in H as [(? & ? & -> & -> & ?) ?] end.
  rewrite write_canonical_spec in H by done. by simplify_eq.
Qed.

Lemma canonical_json_fits v :
  limits_usize -> max_nesting_depth limits <= HARD_MAX_NESTING_DEPTH -> domain_ok nfc v ->
  shape_ok limits 0 v -> node_count v <= max_nodes limits -> len (render v) <= max_canonical_bytes limits ->
  canonical_json_with_limits nfc v limits = Ok (render v).
Proof.
  intros. unfold canonical_json_with_limits.
  rewrite (proj2 (validate_limits_Ok tt)) by done. cbn [mbind result_bind].
  rewrite (canonical_size_fits v) by (done || lia). cbn [mbind result_bind].
  by rewrite write_canonical_spec.
Qed.
End Size.
End Write.
