(* ===== verification/CanonicalParse.v ===== *)
(** * The strict parser reads canonical text back

    For every value in the canonical domain and within the limits, the parser
    run on its reference text consumes exactly that text and returns the
    canonical form of the value; token by token, then by induction on the value. *)

From stdpp Require Import base list numbers strings sorting sets.
From Stdlib Require Import ZArith Lia.
From S2P Require Import Prelude Text TextFacts Canonical CanonicalWrite.

#[local] Open Scope Z_scope.

Abbreviation mkp r n := {| rest := r; nodes := n |}.

(** ** Strings *)

Lemma short_escape_cases c e :
  short_escape c = Some e ->
  (c, e) ∈ [(34, 34); (92, 92); (8, 98); (9, 116); (10, 110); (12, 102); (13, 114)].
Proof.
  unfold short_escape. intros H.
  repeat (case_match; bool_props; subst; simplify_eq; try (by rewrite !elem_of_cons; tauto)).
Qed.

Lemma parse_escape_short c e s acc :
  short_escape c = Some e -> parse_escape (e :: s) acc = Ok (acc ++ encode_utf8 c, s).
Proof.
  intros H. apply short_escape_cases in H.
  repeat (apply elem_of_cons in H as [H|H]; [by simplify_eq|]). by apply not_elem_of_nil in H.
Qed.

Lemma parse_escape_control c s acc :
  0 <= c <= 31 -> parse_escape (117 :: hex4 c ++ s) acc = Ok (acc ++ encode_utf8 c, s).
Proof.
  intros H. assert (c ∈ seqZ 0 32) as Hc by (apply elem_of_seqZ; lia).
  repeat (apply elem_of_cons in Hc as [Hc|Hc]; [by subst|]). by apply not_elem_of_nil in Hc.
Qed.

Lemma parse_string_step c s acc fuel :
  char_ok c = true ->
  parse_string_loop (S fuel) (write_json_char c ++ s) acc = parse_string_loop fuel s (acc ++ encode_utf8 c).
Proof.
  intros Hc. unfold write_json_char. destruct (short_escape c) as [e|] eqn:E.
  { cbn [app]. change (parse_string_loop (S fuel) (92 :: e :: s) acc)
      with ('(value, s') ← parse_escape (e :: s) acc; parse_string_loop fuel s' value).
    by rewrite (parse_escape_short c e). }
  destruct ((0 <=? c) && (c <=? 31)) eqn:Hctl.
  { bool_props. change (lit "\u") with [92; 117].
    change (parse_string_loop (S fuel) (([92; 117] ++ hex4 c) ++ s) acc)
      with ('(value, s') ← parse_escape (117 :: hex4 c ++ s) acc; parse_string_loop fuel s' value).
    rewrite parse_escape_control by lia. done. }
  assert (c <> 34 /\ c <> 92) as [H34 H92].
  { split; intros ->; done. }
  pose proof Hc as Hr. apply char_ok_spec in Hr as [Hr _].
  assert (31 < c) as H31. { apply andb_false_iff in Hctl as [?|?]; bool_props; lia. }
  destruct (encode_utf8_cons c) as (b & r & Hb).
  destruct (encode_utf8_lead c b r Hc Hb) as [(Hlt & -> & ->)|[Hge Hlead]].
  - rewrite Hb. cbn [parse_string_loop app].
    rewrite (proj2 (Z.eqb_neq c 34)), (proj2 (Z.eqb_neq c 92)) by done.
    rewrite (proj2 (Z.leb_gt c 31)), andb_false_r by lia.
    rewrite (proj2 (Z.leb_le 32 c)), (proj2 (Z.leb_le c 127)) by lia. done.
  - pose proof (utf8_next_encode c s Hc) as Hn. rewrite Hb in Hn |- *. cbn [parse_string_loop app] in *.
    rewrite (proj2 (Z.eqb_neq b 34)), (proj2 (Z.eqb_neq b 92)) by lia.
    rewrite (proj2 (Z.leb_gt b 31)), andb_false_r by lia.
    rewrite (proj2 (Z.leb_gt b 127)), andb_false_r by lia. rewrite Hn. by rewrite Hb.
Qed.

Lemma length_write_json_char c : (1 <= length (write_json_char c))%nat.
Proof. pose proof (len_write_json_char c). pose proof (canonical_char_size_pos c). unfold len in *. lia. Qed.

Lemma parse_string_loop_quote cs : forall fuel acc r,
  Forall (fun c => char_ok c = true) cs ->
  (length (concat (map write_json_char cs)) < fuel)%nat ->
  parse_string_loop fuel (concat (map write_json_char cs) ++ 34 :: r) acc = Ok (acc ++ string_of_chars cs, r).
Proof.
  induction cs as [|c cs IH]; intros fuel acc r Hcs Hf.
  - destruct fuel; [simpl in Hf; lia|]. simpl. by rewrite app_nil_r.
  - inversion Hcs; subst. cbn [map concat] in *. rewrite length_app in Hf.
    pose proof (length_write_json_char c). destruct fuel as [|fuel]; [lia|].
    rewrite <- app_assoc, parse_string_step by done. rewrite IH by (done || lia).
    by rewrite string_of_chars_cons, app_assoc.
Qed.

Lemma parse_string_quote s r n :
  utf8_valid s = true -> parse_string (mkp (quote s ++ r) n) = Ok (s, mkp r n).
Proof.
  intros Hs. unfold parse_string, quote. cbn [rest nodes set_rest].
  replace (drop 1 (([34] ++ concat (map write_json_char (chars s)) ++ [34]) ++ r))
    with (concat (map write_json_char (chars s)) ++ 34 :: r) by (cbn; by rewrite drop_0, <- app_assoc).
  rewrite parse_string_loop_quote.
  - cbn [mbind result_bind app]. by rewrite string_of_chars_chars.
  - apply chars_char_ok.
  - cbn [app length]. rewrite !length_app. simpl. lia.
Qed.

(** ** Numbers *)

(** What may follow a value in canonical text. *)
Definition follows (r : str) : Prop := match r with [] => True | b :: _ => ends_number b = true end.

Definition numeral_byte (b : byte) : Prop := b = 45 \/ 48 <= b <= 57.

Lemma ends_number_numeral b : numeral_byte b -> ends_number b = false.
Proof.
  intros H. unfold ends_number, is_whitespace. unfold numeral_byte in H.
  repeat (rewrite (proj2 (Z.eqb_neq b _)) by lia). done.
Qed.

Lemma take_number_app t r : Forall numeral_byte t -> follows r -> take_number (t ++ r) = (t, r).
Proof.
  intros Ht Hr. induction Ht as [|b t Hb _ IH]; cbn [take_number app].
  - destruct r as [|b r]; [done|]. cbn [take_number]. simpl in Hr. by rewrite Hr.
  - rewrite (ends_number_numeral b Hb), IH. done.
Qed.

Lemma digits_numeral ds : is_digits ds -> Forall numeral_byte ds.
Proof. intros H. eapply Forall_impl; [exact H|]. simpl. intros d Hd. apply is_ascii_digit_spec in Hd. right. lia. Qed.

Lemma show_int_numeral i : Forall numeral_byte (show_int i).
Proof.
  destruct (show_int_shape i) as [(_ & d & ds & -> & _ & H & _)|(_ & d & ds & -> & _ & H)].
  - by apply digits_numeral.
  - constructor; [by left|]. by apply digits_numeral.
Qed.

Lemma starts_with_0_digits d ds : d <> 48 -> starts_with (lit "0") (d :: ds) = false.
Proof.
  intros H. unfold starts_with. change (lit "0") with [48]. rewrite strip_prefix_cons_ne by lia.
  apply bool_decide_eq_false_2. by intros [? ?].
Qed.

Lemma valid_digits d ds :
  is_digits (d :: ds) -> (d = 48 -> ds = []) ->
  str_eqb (d :: ds) (lit "0") || negb (starts_with (lit "0") (d :: ds)) = true.
Proof.
  intros _ H. destruct (decide (d = 48)) as [->|Hne].
  - by rewrite H.
  - by rewrite starts_with_0_digits, orb_true_r.
Qed.

Lemma valid_integer_token_show i :
  valid_integer_token (show_int i) = true /\ str_eqb (show_int i) (lit "-0") = false.
Proof.
  unfold valid_integer_token. change (lit "-") with [45].
  destruct (show_int_shape i) as [(_ & d & ds & -> & Hr & H & H0)|(_ & d & ds & -> & Hr & H)].
  - rewrite strip_prefix_cons_ne by lia. cbn [from_option id].
    rewrite bool_decide_eq_false_2 by done. rewrite (proj2 (is_digits_forallb _)) by done.
    cbn [negb orb]. rewrite valid_digits by done. split; [done|].
    apply str_eqb_neq. change (lit "-0") with [45; 48]. intros [= -> ?]. lia.
  - rewrite strip_prefix_cons_eq. cbn [strip_prefix from_option id].
    rewrite bool_decide_eq_false_2 by done. rewrite (proj2 (is_digits_forallb _)) by done.
    cbn [negb orb]. rewrite valid_digits by (done || lia). split; [done|].
    apply str_eqb_neq. change (lit "-0") with [45; 48]. intros [= -> ?]. lia.
Qed.

Lemma in_safe_range_i64 i : in_safe_range i = true -> in_i64 i = true.
Proof.
  unfold in_safe_range, in_i64, MAX_SAFE_INTEGER, i64_min, i64_max. intros H. bool_props.
  rewrite (proj2 (Z.leb_le _ _)), (proj2 (Z.leb_le _ _)) by lia. done.
Qed.

Lemma parse_number_show i r n :
  in_safe_range i = true -> follows r -> parse_number (mkp (show_int i ++ r) n) = Ok (Integer i, mkp r n).
Proof.
  intros Hi Hr. unfold parse_number. cbn [rest].
  rewrite (take_number_app _ _ (show_int_numeral i) Hr).
  destruct (valid_integer_token_show i) as [-> ->]. cbn [negb orb].
  rewrite parse_i64_show by (by apply in_safe_range_i64). cbn [ok_or mbind result_bind].
  by rewrite Hi.
Qed.

(** ** Values *)

(** The bytes a value of canonical text can start with. *)
Definition value_start (b : byte) : Prop :=
  b = 123 \/ b = 91 \/ b = 34 \/ b = 116 \/ b = 102 \/ b = 110 \/ numeral_byte b.

Lemma value_start_neq b c :
  value_start b -> c = 93 \/ c = 125 \/ c = 44 \/ c = 58 \/ c = 32 \/ c = 9 \/ c = 13 \/ c = 10 -> b <> c.
Proof. unfold value_start, numeral_byte. lia. Qed.

Lemma not_whitespace b : b <> 32 -> b <> 9 -> b <> 13 -> b <> 10 -> is_whitespace b = false.
Proof. intros. unfold is_whitespace. by repeat (rewrite (proj2 (Z.eqb_neq b _)) by done). Qed.

Lemma skip_ws_cons b r : is_whitespace b = false -> skip_ws (b :: r) = b :: r.
Proof. intros H. cbn [skip_ws]. by rewrite H. Qed.

Lemma skip_whitespace_cons b r n :
  is_whitespace b = false -> skip_whitespace (mkp (b :: r) n) = mkp (b :: r) n.
Proof. intros H. unfold skip_whitespace, set_rest. cbn [rest nodes]. by rewrite skip_ws_cons. Qed.

Lemma advance_1 b r n : advance 1 (mkp (b :: r) n) = mkp r n.
Proof. reflexivity. Qed.

Lemma value_start_not_whitespace b : value_start b -> is_whitespace b = false.
Proof. intros H. apply not_whitespace; eapply value_start_neq; eauto 10. Qed.

Lemma render_start v : exists b r, render v = b :: r /\ value_start b.
Proof.
  unfold value_start, numeral_byte.
  destruct v as [|[]|i|s|vs|es]; try (do 2 eexists; split; [reflexivity|]; tauto).
  pose proof (show_int_numeral i) as H. cbn [render].
  destruct (show_int_shape i) as [(_ & d & ds & E & _)|(_ & d & ds & E & _)]; rewrite E in *;
    (do 2 eexists; split; [done|]); inversion H; subst; unfold numeral_byte in *; tauto.
Qed.

Section Parse.
Variable nfc : list char -> list char.
Variable limits : ResourceLimits.
Hypothesis usize_nodes : max_nodes limits <= usize_max.
Hypothesis usize_depth : max_nesting_depth limits <= usize_max.

Definition parses (d : Z) (v : Value) : Prop := forall fuel r n,
  (2 * length (render v) < fuel)%nat -> follows r -> n + node_count v <= max_nodes limits ->
  parse_value nfc fuel limits d (mkp (render v ++ r) n)
  = Ok (canonicalize v, mkp r (n + node_count v)).

(** The common start of [parse_value]. *)
Lemma parse_value_start fuel d b r n :
  is_whitespace b = false -> n + 1 <= max_nodes limits ->
  parse_value nfc (S fuel) limits d (mkp (b :: r) n) =
  (let p := mkp (b :: r) (n + 1) in
   if b =? 123 then
     child_depth ← checked_child_depth d (max_nesting_depth limits);
     let p := skip_whitespace (advance 1 p) in
     if bool_decide (peek p = Some 125) then Ok (Obj [], advance 1 p)
     else parse_object_loop nfc fuel limits child_depth [] [] p
   else if b =? 91 then
     child_depth ← checked_child_depth d (max_nesting_depth limits);
     let p := skip_whitespace (advance 1 p) in
     if bool_decide (peek p = Some 93) then Ok (Arr [], advance 1 p)
     else parse_array_loop nfc fuel limits child_depth [] p
   else if b =? 34 then '(s, p) ← parse_string p; Ok (Str s, p)
   else if b =? 116 then parse_keyword (lit "true") (Bool true) p
   else if b =? 102 then parse_keyword (lit "false") (Bool false) p
   else if b =? 110 then parse_keyword (lit "null") Null p
   else if (b =? 45) || is_ascii_digit b then parse_number p
   else fail SchemaInvalid).
Proof.
  intros Hb Hn. cbn [parse_value]. rewrite skip_whitespace_cons by done.
  unfold parser_consume_node. cbn [nodes rest]. rewrite (consume_node_fits n (max_nodes limits)) by done. reflexivity.
Qed.

Lemma parses_scalar d v :
  domain_ok nfc v -> text_ok v ->
  match v with Arr _ | Obj _ => False | _ => True end -> parses d v.
Proof.
  intros Hd Ht Hv fuel r n Hf Hr Hn.
  destruct fuel as [|fuel]; [lia|]. pose proof (node_count_pos v).
  destruct (render_start v) as (b & tl & E & Hb). rewrite E. cbn [app].
  rewrite parse_value_start by (lia || by apply value_start_not_whitespace).
  destruct v as [|[]|i|s|vs|es]; try done; try (injection E as <- <-; reflexivity).
  - cbn [render] in E. change (b :: tl ++ r) with ((b :: tl) ++ r). rewrite <- E.
    pose proof (show_int_numeral i) as Hnum. rewrite E in Hnum. inversion Hnum as [|? ? Hnb _]; subst.
    unfold numeral_byte in Hnb. cbv zeta.
    repeat (rewrite (proj2 (Z.eqb_neq b _)) by lia).
    replace ((b =? 45) || is_ascii_digit b) with true.
    + by rewrite parse_number_show.
    + symmetry. apply orb_true_iff. rewrite Z.eqb_eq, is_ascii_digit_spec. lia.
  - cbn [render] in E. change (b :: tl ++ r) with ((b :: tl) ++ r). rewrite <- E.
    assert (b = 34) as -> by (unfold quote in E; cbn [app] in E; congruence). cbv zeta.
    cbn [Z.eqb Pos.eqb]. by rewrite parse_string_quote.
Qed.

Lemma render_list_start {A} (f : A -> str) x xs sep :
  (forall x, exists b r, f x = b :: r /\ value_start b) ->
  exists b r, join_with sep (map f (x :: xs)) = b :: r /\ value_start b.
Proof.
  intros H. destruct (H x) as (b & r & E & Hb). cbn [map]. rewrite join_with_cons, E. cbn [app]. eauto.
Qed.

Lemma join_length sep p q ps :
  length (join_with sep (p :: q :: ps)) = (length p + length sep + length (join_with sep (q :: ps)))%nat.
Proof. cbn [join_with]. rewrite !length_app. lia. Qed.

Lemma parse_array_loop_render d : forall vs v acc fuel r n,
  Forall (parses d) (v :: vs) ->
  (2 * length (join_with (lit ",") (map render (v :: vs))) + 1 < fuel)%nat ->
  len acc + len (v :: vs) <= max_container_items limits ->
  n + nodes_total (v :: vs) <= max_nodes limits ->
  parse_array_loop nfc fuel limits d acc
    (mkp (join_with (lit ",") (map render (v :: vs)) ++ 93 :: r) n)
  = Ok (Arr (acc ++ map canonicalize (v :: vs)), mkp r (n + nodes_total (v :: vs))).
Proof.
  induction vs as [|w vs IH]; intros v acc fuel r n Hp Hf Hl Hn.
  all: destruct fuel as [|fuel]; [lia|]; cbn [parse_array_loop].
  all: inversion Hp as [|? ? Hv Hvs]; subst.
  all: rewrite Z.geb_leb.
  all: rewrite (proj2 (Z.leb_gt _ _)) by len_lia.
  - cbn [map join_with] in *. simpl in Hn. rewrite Hv by (done || lia). cbn [mbind result_bind].
    rewrite skip_whitespace_cons, advance_1 by done. cbn [peek rest head Z.eqb Pos.eqb].
    do 3 f_equal. simpl. lia.
  - cbn [map] in *. rewrite join_length in Hf. change (length (lit ",")) with 1%nat in Hf.
    cbn [nodes_total foldr] in Hn. pose proof (nodes_total_nonneg (w :: vs)) as Hnn.
    change (join_with (lit ",") (render v :: render w :: map render vs))
      with (render v ++ 44 :: join_with (lit ",") (render w :: map render vs)).
    rewrite <- app_assoc. cbn [app]. unfold nodes_total in Hnn.
    rewrite Hv by (done || (cbn [foldr] in *; lia)). cbn [mbind result_bind].
    rewrite skip_whitespace_cons, advance_1 by done. cbn [peek rest head Z.eqb Pos.eqb].
    destruct (render_list_start render w vs (lit ",") render_start) as (b & tl & E & Hb).
    cbn [map] in E. rewrite E. cbn [app]. rewrite skip_whitespace_cons by (by apply value_start_not_whitespace).
    change (b :: tl ++ 93 :: r) with ((b :: tl) ++ 93 :: r). rewrite <- E.
    rewrite (IH w); [|done|cbn [map] in *; lia|len_lia|cbn [nodes_total foldr] in *; lia].
    f_equal. rewrite <- app_assoc. cbn [app map nodes_total foldr]. do 2 f_equal. lia.
Qed.

Lemma render_entry_start e : exists b r, render_entry e = b :: r /\ value_start b.
Proof. unfold render_entry, quote. do 2 eexists. split; [reflexivity|]. unfold value_start. tauto. Qed.

Lemma length_render_entry e :
  (2 * length (render (snd e)) + 2 < 2 * length (render_entry e))%nat.
Proof.
  pose proof (len_render_entry e) as H. pose proof (len_quote (fst e)).
  pose proof (char_sizes_nonneg (chars (fst e))). unfold len in *. lia.
Qed.

(** One entry: the key, the colon, the value. *)
Lemma parse_object_loop_step d fuel e acc keys r n :
  parses d (snd e) -> utf8_valid (fst e) = true -> is_nfc nfc (fst e) = true -> fst e ∉ keys ->
  len acc < max_container_items limits -> (2 * length (render (snd e)) < fuel)%nat ->
  n + node_count (snd e) <= max_nodes limits -> follows r ->
  parse_object_loop nfc (S fuel) limits d acc keys (mkp (render_entry e ++ r) n) =
  (let p := skip_whitespace (mkp r (n + node_count (snd e))) in
   let acc := acc ++ [(fst e, canonicalize (snd e))] in
   match peek p with
   | Some b =>
     if b =? 125 then Ok (Obj acc, advance 1 p)
     else if b =? 44 then
       parse_object_loop nfc fuel limits d acc (fst e :: keys) (skip_whitespace (advance 1 p))
     else fail SchemaInvalid
   | None => fail SchemaInvalid
   end).
Proof.
  intros Hv Hk Hnfc Hnew Hl Hf Hn Hr. destruct e as [k v]. cbn [fst snd] in *. cbn [parse_object_loop].
  rewrite Z.geb_leb, (proj2 (Z.leb_gt _ _)) by lia.
  unfold render_entry. cbn [fst snd].
  assert (peek (mkp ((quote k ++ lit ":" ++ render v) ++ r) n) = Some 34) as -> by reflexivity.
  rewrite bool_decide_eq_true_2 by done. cbn [negb].
  rewrite <- !app_assoc, parse_string_quote by done. cbn [mbind result_bind].
  rewrite (proj2 (insert_seen_Ok keys k _)) by done. cbn [mbind result_bind].
  rewrite (proj2 (require_nfc_key_Ok nfc k tt)) by done. cbn [mbind result_bind].
  change (lit ":" ++ render v ++ r) with (58 :: render v ++ r).
  rewrite skip_whitespace_cons, advance_1 by done. cbn [peek rest head].
  rewrite bool_decide_eq_true_2 by done. cbn [negb].
  destruct (render_start v) as (b & tl & E & Hb). rewrite E. cbn [app].
  rewrite skip_whitespace_cons by (by apply value_start_not_whitespace).
  change (b :: tl ++ r) with ((b :: tl) ++ r). rewrite <- E.
  rewrite Hv by (done || lia). reflexivity.
Qed.

Lemma parse_object_loop_render d : forall es e acc keys fuel r n,
  Forall (fun e => parses d (snd e) /\ utf8_valid (fst e) = true) (e :: es) ->
  keys_ok nfc keys (map fst (e :: es)) ->
  (2 * length (join_with (lit ",") (map render_entry (e :: es))) < fuel)%nat ->
  len acc + len (e :: es) <= max_container_items limits ->
  n + nodes_total (map snd (e :: es)) <= max_nodes limits ->
  parse_object_loop nfc fuel limits d acc keys
    (mkp (join_with (lit ",") (map render_entry (e :: es)) ++ 125 :: r) n)
  = Ok (Obj (acc ++ map (prod_map id canonicalize) (e :: es)), mkp r (n + nodes_total (map snd (e :: es)))).
Proof.
  induction es as [|f es IH]; intros e acc keys fuel r n Hp Hk Hf Hl Hn.
  all: destruct fuel as [|fuel]; [lia|].
  all: inversion Hp as [|? ? [Hv Ht] Hvs]; subst.
  all: cbn [map] in Hk; apply keys_ok_cons in Hk as (Hnew & Hnfc & Hk).
  all: pose proof (length_render_entry e) as Hle.
  - cbn [map join_with] in *. simpl in Hn. rewrite parse_object_loop_step by (done || len_lia).
    cbv zeta. rewrite skip_whitespace_cons, advance_1 by done. cbn [peek rest head Z.eqb Pos.eqb].
    do 3 f_equal. simpl. lia.
  - cbn [map] in *. rewrite join_length in Hf. change (length (lit ",")) with 1%nat in Hf.
    pose proof (nodes_total_nonneg (map snd (f :: es))) as Hnn.
    change (join_with (lit ",") (render_entry e :: render_entry f :: map render_entry es))
      with (render_entry e ++ 44 :: join_with (lit ",") (render_entry f :: map render_entry es)).
    cbn [nodes_total foldr map] in Hn, Hnn.
    rewrite <- app_assoc. cbn [app].
    rewrite parse_object_loop_step by (done || len_lia).
    cbv zeta. rewrite skip_whitespace_cons, advance_1 by done. cbn [peek rest head Z.eqb Pos.eqb].
    destruct (render_list_start render_entry f es (lit ",") render_entry_start) as (b & tl & E & Hb).
    cbn [map] in E. rewrite E. cbn [app]. rewrite skip_whitespace_cons by (by apply value_start_not_whitespace).
    change (b :: tl ++ 125 :: r) with ((b :: tl) ++ 125 :: r). rewrite <- E.
    rewrite (IH f); [|done|done|cbn [map] in *; lia|len_lia|cbn [nodes_total foldr map] in *; lia].
    f_equal. rewrite <- app_assoc. cbn [app map nodes_total foldr]. do 2 f_equal. lia.
Qed.

Lemma nodes_total_perm vs ws : vs ≡ₚ ws -> nodes_total vs = nodes_total ws.
Proof. induction 1; simpl; lia. Qed.

Lemma text_ok_obj es :
  text_ok (Obj es) <-> Forall (fun e => utf8_valid (fst e) = true /\ text_ok (snd e)) es.
Proof. cbn [text_ok]. apply foldr_Forall2. Qed.

(** Canonical text parses back to the canonical value. *)
Lemma parses_render v : forall d, domain_ok nfc v -> text_ok v -> shape_ok limits d v -> parses d v.
Proof.
  induction v as [| | | |vs IH|es IH] using Value_ind; intros d Hd Ht Hs; try (by apply parses_scalar).
  - cbn [domain_ok text_ok shape_ok] in *. destruct Hs as (Hdep & Hit & Hs). rewrite !foldr_Forall in *.
    intros fuel r n Hf Hr Hn. destruct fuel as [|fuel]; [lia|]. rewrite node_count_arr in *.
    pose proof (nodes_total_nonneg vs).
    cbn [render] in *. change (lit "[") with [91] in *. change (lit "]") with [93] in *.
    rewrite !length_app in Hf. cbn [length] in Hf. rewrite <- !app_assoc. cbn [app].
    rewrite parse_value_start by (done || lia). cbn [Z.eqb Pos.eqb].
    rewrite checked_child_depth_fits by done. cbn [mbind result_bind]. rewrite advance_1.
    destruct vs as [|v vs].
    { cbn [map join_with app]. rewrite skip_whitespace_cons by done. cbn [peek rest head].
      rewrite bool_decide_eq_true_2 by done. reflexivity. }
    destruct (render_list_start render v vs (lit ",") render_start) as (b & tl & E & Hb).
    rewrite E. cbn [app]. rewrite skip_whitespace_cons by (by apply value_start_not_whitespace).
    cbn [peek rest head]. rewrite bool_decide_eq_false_2.
    2: { intros [= ->]. by apply (value_start_neq 93 93 Hb); [tauto|]. }
    change (b :: tl ++ 93 :: r) with ((b :: tl) ++ 93 :: r). rewrite <- E.
    rewrite parse_array_loop_render; [|rewrite !Forall_forall in *; by eauto|lia|len_lia|lia].
    f_equal. f_equal. f_equal. lia.
  - rewrite text_ok_obj in Ht. cbn [domain_ok shape_ok] in *. destruct Hs as (Hdep & Hit & Hs).
    destruct Hd as (Hnd & Hnfc & Hd). rewrite !foldr_Forall in *.
    intros fuel r n Hf Hr Hn. destruct fuel as [|fuel]; [lia|].
    rewrite canonicalize_obj, node_count_obj, render_obj in *.
    pose proof (sort_by_key_perm es) as Hperm. set (ses := sort_by_key es) in *.
    assert (nodes_total (map snd es) = nodes_total (map snd ses)) as Hnt
      by (apply nodes_total_perm; by rewrite Hperm).
    rewrite Hnt in *.
    pose proof (nodes_total_nonneg (map snd ses)).
    assert (len ses = len es) as Hlen by (unfold len; by rewrite Hperm).
    change (lit "{") with [123] in *. change (lit "}") with [125] in *.
    rewrite !length_app in Hf. cbn [length] in Hf. rewrite <- !app_assoc. cbn [app].
    rewrite parse_value_start by (done || lia). cbn [Z.eqb Pos.eqb].
    rewrite checked_child_depth_fits by done. cbn [mbind result_bind]. rewrite advance_1.
    assert (Forall (fun e => parses (d + 1) (snd e) /\ utf8_valid (fst e) = true) ses) as Hses.
    { rewrite Hperm. rewrite !Forall_forall in *. intros e He.
      destruct (Ht e He). split; [|done]. apply IH; auto. }
    assert (keys_ok nfc [] (map fst ses)) as Hkeys.
    { split_and!; [by rewrite Hperm|by rewrite Hperm|]. intros k _. apply not_elem_of_nil. }
    clearbody ses. destruct ses as [|e ses].
    { cbn [map join_with app]. rewrite skip_whitespace_cons by done. cbn [peek rest head].
      rewrite bool_decide_eq_true_2 by done. reflexivity. }
    destruct (render_list_start render_entry e ses (lit ",") render_entry_start) as (b & tl & E & Hb).
    rewrite E. cbn [app]. rewrite skip_whitespace_cons by (by apply value_start_not_whitespace).
    cbn [peek rest head]. rewrite bool_decide_eq_false_2.
    2: { intros [= ->]. by apply (value_start_neq 125 125 Hb); [tauto|]. }
    change (b :: tl ++ 125 :: r) with ((b :: tl) ++ 125 :: r). rewrite <- E.
    rewrite parse_object_loop_render; [|done|done|lia|len_lia|lia].
    f_equal. f_equal. f_equal. lia.
Qed.
End Parse.
