(* ===== verification/CanonicalLaws.v ===== *)
(** * Canonical JSON: what the parser accepts, the normal form, and lengths *)

From stdpp Require Import base list numbers strings sorting sets.
From Stdlib Require Import ZArith Lia.
From S2P Require Import Prelude Text TextFacts Canonical CanonicalWrite CanonicalParse.

#[local] Open Scope Z_scope.

(** ** The strict parser on arbitrary input: what it accepts, and that it always answers *)

(** ** Progress and UTF-8 alignment *)

Lemma utf8_valid_tail b r : utf8_valid (b :: r) = true -> 0 <= b < 128 -> utf8_valid r = true.
Proof.
  rewrite !utf8_valid_spec. intros (cs & Hcs & E) Hb. destruct cs as [|c cs]; [done|].
  inversion Hcs; subst. rewrite string_of_chars_cons in E.
  destruct (encode_utf8_cons c) as (b' & r' & Hc). rewrite Hc in E. cbn [app] in E. injection E as -> ->.
  destruct (encode_utf8_lead c b' r' ltac:(done) Hc) as [(_ & _ & ->)|[_ ?]]; [|lia].
  by exists cs.
Qed.

Lemma utf8_valid_drop_ascii t r :
  utf8_valid (t ++ r) = true -> Forall (fun b => 0 <= b < 128) t -> utf8_valid r = true.
Proof. intros H Ht. induction Ht; [done|]. apply IHHt. by eapply utf8_valid_tail. Qed.

(** [shrinks s s']: [s'] is what is left after reading a non-empty part of [s]
    that ends on a character boundary. *)
Definition shrinks (s s' : str) : Prop :=
  (length s' < length s)%nat /\ (utf8_valid s = true -> utf8_valid s' = true).

Lemma shrinks_trans a b c : shrinks a b -> shrinks b c -> shrinks a c.
Proof. unfold shrinks. intros [? ?] [? ?]. split; [lia|auto]. Qed.

Lemma shrinks_ascii b r : 0 <= b < 128 -> shrinks (b :: r) r.
Proof. intros H. split; [simpl; lia|]. intros Hv. by eapply utf8_valid_tail. Qed.

(** Whitespace may be skipped on either side. *)
Definition shrinks_eq (s s' : str) : Prop :=
  (length s' <= length s)%nat /\ (utf8_valid s = true -> utf8_valid s' = true).

Lemma is_whitespace_ascii b : is_whitespace b = true -> 0 <= b < 128.
Proof. unfold is_whitespace. rewrite !orb_true_iff, !Z.eqb_eq. lia. Qed.

Lemma skip_ws_shrinks s : shrinks_eq s (skip_ws s).
Proof.
  induction s as [|b s [IH1 IH2]]; [by split|]. cbn [skip_ws].
  destruct (is_whitespace b) eqn:E; [|by split]. split; [simpl; lia|].
  intros H. apply IH2. eapply utf8_valid_tail; [done|]. by apply is_whitespace_ascii.
Qed.

Lemma shrinks_eq_l a b c : shrinks_eq a b -> shrinks b c -> shrinks a c.
Proof. intros [? ?] [? ?]. split; [lia|auto]. Qed.

Lemma shrinks_eq_r a b c : shrinks a b -> shrinks_eq b c -> shrinks a c.
Proof. intros [? ?] [? ?]. split; [lia|auto]. Qed.

(** ** Strings *)

Lemma is_ascii_hexdigit_ascii b : is_ascii_hexdigit b = true -> 0 <= b < 128 /\ 0 <= hex_value b < 16.
Proof.
  unfold is_ascii_hexdigit, hex_value, is_ascii_digit. rewrite !orb_true_iff, !andb_true_iff, !Z.leb_le.
  intros H. Zb.
Qed.

Lemma parse_hex_u16_Ok s v s' : parse_hex_u16 s = Ok (v, s') -> 0 <= v < 65536 /\ shrinks s s'.
Proof.
  destruct s as [|a [|b [|c [|d r]]]]; try done. cbn [parse_hex_u16].
  destruct (negb _) eqn:E; [done|]. intros [= <- <-]. apply negb_false_iff in E.
  cbn [forallb] in E. rewrite !andb_true_iff in E. destruct E as (Ha & Hb & Hc & Hd & _).
  apply is_ascii_hexdigit_ascii in Ha as [Ha ?], Hb as [Hb ?], Hc as [Hc ?], Hd as [Hd ?]. split; [lia|].
  eapply shrinks_trans; [by apply shrinks_ascii|]. eapply shrinks_trans; [by apply shrinks_ascii|].
  eapply shrinks_trans; by apply shrinks_ascii.
Qed.

Lemma parse_hex_u16_coded s e : parse_hex_u16 s = Err e -> exists c, e = Core c.
Proof.
  destruct s as [|a [|b [|c [|d r]]]]; cbn [parse_hex_u16]; try (intros [= <-]; by eexists).
  destruct (negb _); intros [= <-]. by eexists.
Qed.

(** The surrogate pair arithmetic always yields a scalar value. *)
Lemma surrogate_pair_scalar hi lo :
  55296 <= hi <= 56319 -> 56320 <= lo <= 57343 ->
  char_ok (65536 + Z.lor (Z.shiftl (hi - 55296) 10) (lo - 56320)) = true.
Proof.
  intros Hh Hl. assert (Z.lor (Z.shiftl (hi - 55296) 10) (lo - 56320) = (hi - 55296) * 1024 + (lo - 56320)) as ->.
  { rewrite <- (Z.shiftl_mul_pow2 _ 10) by lia.
    rewrite <- Z.lxor_lor, <- Z.add_nocarry_lxor; [done|..];
      apply Z.bits_inj'; intros i Hi; rewrite Z.land_spec, Z.shiftl_spec, Z.bits_0 by done;
      (destruct (Z.ltb_spec i 10);
        [rewrite (Z.testbit_neg_r _ (i - 10)) by lia; done
        |rewrite (Z.bits_above_log2 (lo - 56320) i), andb_false_r; [done|lia|];
         destruct (decide (lo - 56320 = 0)) as [->|]; [simpl; lia|];
         apply Z.log2_lt_pow2; [lia|]; eapply Z.lt_le_trans; [|apply (Z.pow_le_mono_r 2 10); lia]; lia]). }
  apply char_ok_spec. lia.
Qed.

Lemma utf8_valid_encode c : char_ok c = true -> utf8_valid (encode_utf8 c) = true.
Proof.
  intros Hc. apply utf8_valid_spec. exists [c]. split; [by repeat constructor|].
  unfold string_of_chars. simpl. by rewrite app_nil_r.
Qed.

Lemma utf8_next_shrinks s c r : utf8_next s = Some (c, r) -> shrinks s r.
Proof.
  intros En. apply utf8_next_inv in En as [Hc ->]. pose proof (length_encode_utf8_pos c).
  split; [rewrite length_app; lia|]. rewrite !utf8_valid_spec. intros (cs & Hcs & Ecs).
  destruct cs as [|c' cs]; [destruct (encode_utf8_cons c) as (? & ? & Ec); by rewrite Ec in Ecs|].
  inversion Hcs as [|? ? Hc' Hcs']; subst. rewrite string_of_chars_cons in Ecs. exists cs. split; [done|].
  pose proof (utf8_next_encode c r Hc) as E1. rewrite Ecs, utf8_next_encode in E1 by done. by simplify_eq.
Qed.

Lemma parse_unicode_escape_Ok s acc v s' :
  parse_unicode_escape s acc = Ok (v, s') -> utf8_valid acc = true -> utf8_valid v = true /\ shrinks s s'.
Proof.
  unfold parse_unicode_escape. intros H Hacc. result_inv.
  match goal with H : parse_hex_u16 s = _ |- _ => apply parse_hex_u16_Ok in H as [? Hs1] end.
  destruct (char_ok _) eqn:Hc; [|done]. result_inv. split.
  { apply utf8_valid_app; [done|]. by apply utf8_valid_encode. }
  destruct (_ && _).
  - result_inv. match goal with H : strip_prefix _ _ = _ |- _ => apply strip_prefix_Some in H as -> end.
    match goal with H : parse_hex_u16 _ = _ |- _ => apply parse_hex_u16_Ok in H as [_ Hs2] end.
    destruct (negb _); simplify_eq/=. eapply shrinks_trans; [done|].
    change (lit "\u" ++ x) with (92 :: 117 :: x).
    eapply shrinks_trans; [by apply shrinks_ascii|]. by eapply shrinks_trans; [apply shrinks_ascii|].
  - destruct (_ && _); by simplify_eq.
Qed.

Lemma parse_unicode_escape_coded s acc e : parse_unicode_escape s acc = Err e -> exists c, e = Core c.
Proof.
  unfold parse_unicode_escape. intros H.
  apply bind_Err in H as [H|([first s1] & Hh & H)]; [by eapply parse_hex_u16_coded|].
  apply parse_hex_u16_Ok in Hh as [Hr _].
  apply bind_Err in H as [H|([scalar s2] & Hs & H)].
  - destruct (_ && _); [|destruct (_ && _); simplify_eq; by eexists].
    apply bind_Err in H as [H|(s2 & _ & H)].
    { destruct (strip_prefix _ _); simplify_eq/=. by eexists. }
    apply bind_Err in H as [H|([second s3] & _ & H)]; [by eapply parse_hex_u16_coded|].
    destruct (negb _); simplify_eq. by eexists.
  - destruct (char_ok scalar) eqn:Hc; [done|]. exfalso.
    destruct ((55296 <=? first) && _) eqn:E1 in Hs.
    + result_inv. destruct (negb _) eqn:E2 in Hs; simplify_eq/=. bool_props.
      rewrite surrogate_pair_scalar in Hc by lia. done.
    + destruct ((56320 <=? first) && _) eqn:E2 in Hs; simplify_eq/=.
      rewrite (proj2 (char_ok_spec scalar)) in Hc; [done|]. split; [lia|].
      apply andb_false_iff in E1. apply andb_false_iff in E2. rewrite !Z.leb_gt in *. lia.
Qed.

Lemma parse_escape_Ok s acc v s' :
  parse_escape s acc = Ok (v, s') -> utf8_valid acc = true -> utf8_valid v = true /\ shrinks s s'.
Proof.
  intros H Hacc. destruct s as [|e s]; [done|]. cbn [parse_escape] in H.
  assert (forall b, 0 <= b < 128 -> utf8_valid (acc ++ [b]) = true) as Happ.
  { intros b Hb. apply utf8_valid_app; [done|]. by apply utf8_valid_ascii, Forall_singleton. }
  repeat match type of H with
  | (if ?e =? ?k then Ok _ else _) = _ =>
    destruct (Z.eqb_spec e k) as [->|_];
      [injection H as <- <-; split; [apply Happ; lia|by apply shrinks_ascii]|]
  end.
  destruct (Z.eqb_spec e 117) as [->|_]; [|done].
  apply parse_unicode_escape_Ok in H as [? ?]; [|done]. split; [done|].
  by eapply shrinks_trans; [apply shrinks_ascii|].
Qed.

Lemma parse_escape_coded s acc e : parse_escape s acc = Err e -> exists c, e = Core c.
Proof.
  destruct s as [|b s]; cbn [parse_escape]; [intros [= <-]; by eexists|].
  repeat (case_match; [try discriminate|]); [by apply parse_unicode_escape_coded|].
  intros [= <-]. by eexists.
Qed.

Lemma parse_string_loop_Ok fuel : forall s acc v s',
  parse_string_loop fuel s acc = Ok (v, s') -> utf8_valid acc = true -> utf8_valid v = true /\ shrinks s s'.
Proof.
  induction fuel as [|fuel IH]; intros s acc v s' H Hacc; [done|]. cbn [parse_string_loop] in H.
  destruct s as [|b s]; [done|].
  destruct (Z.eqb_spec b 34) as [->|_]; [simplify_eq; split; [done|by apply shrinks_ascii]|].
  destruct (Z.eqb_spec b 92) as [->|_].
  { result_inv. match goal with H : parse_escape _ _ = _ |- _ => apply parse_escape_Ok in H as [? ?]; [|done] end.
    apply IH in H as [? ?]; [|done]. split; [done|].
    eapply shrinks_trans; [by apply shrinks_ascii|]. by eapply shrinks_trans. }
  destruct (_ && _); [done|]. destruct ((32 <=? b) && _) eqn:E.
  { bool_props. apply IH in H as [? ?].
    - split; [done|]. by eapply shrinks_trans; [apply shrinks_ascii; lia|].
    - apply utf8_valid_app; [done|]. apply utf8_valid_ascii, Forall_singleton. lia. }
  destruct (utf8_next (b :: s)) as [[c r]|] eqn:En; [|done].
  pose proof (utf8_next_shrinks _ _ _ En). apply utf8_next_inv in En as [Hc _].
  apply IH in H as [? ?]; [split; [done|by eapply shrinks_trans]|].
  apply utf8_valid_app; [done|]. by apply utf8_valid_encode.
Qed.

Lemma utf8_valid_next b s : utf8_valid (b :: s) = true -> exists c r, utf8_next (b :: s) = Some (c, r).
Proof.
  rewrite utf8_valid_spec. intros (cs & Hcs & E). destruct cs as [|c cs]; [done|]. inversion Hcs; subst.
  rewrite E, string_of_chars_cons, utf8_next_encode by done. by do 2 eexists.
Qed.

Lemma parse_string_loop_coded fuel : forall s acc e,
  parse_string_loop fuel s acc = Err e -> utf8_valid acc = true -> utf8_valid s = true ->
  (length s < fuel)%nat -> exists c, e = Core c.
Proof.
  induction fuel as [|fuel IH]; intros s acc e H Hacc Hs Hf; [lia|]. cbn [parse_string_loop] in H.
  destruct s as [|b s]; [injection H as <-; by eexists|].
  destruct (Z.eqb_spec b 34) as [->|_]; [done|]. cbn [length] in Hf.
  destruct (Z.eqb_spec b 92) as [->|_].
  { apply bind_Err in H as [H|([v r] & He & H)]; [by eapply parse_escape_coded|].
    apply parse_escape_Ok in He as [? [? Hvr]]; [|done].
    eapply IH; [done..| |lia]. apply Hvr. by eapply utf8_valid_tail. }
  destruct (_ && _); [injection H as <-; by eexists|]. destruct ((32 <=? b) && _) eqn:E.
  { bool_props. eapply IH; [done|..|lia].
    - apply utf8_valid_app; [done|]. apply utf8_valid_ascii, Forall_singleton. lia.
    - eapply utf8_valid_tail; [done|lia]. }
  destruct (utf8_valid_next b s Hs) as (c & r & En). rewrite En in H.
  pose proof (utf8_next_shrinks _ _ _ En) as [Hlen Hval]. apply utf8_next_inv in En as [Hc _].
  eapply IH; [done|..|simpl in Hlen; lia].
  - apply utf8_valid_app; [done|]. by apply utf8_valid_encode.
  - by apply Hval.
Qed.

Lemma parse_string_Ok p s p' :
  parse_string p = Ok (s, p') -> peek p = Some 34 ->
  utf8_valid s = true /\ nodes p' = nodes p /\ shrinks (rest p) (rest p').
Proof.
  unfold parse_string, peek. intros H Hp. result_inv.
  match goal with H : parse_string_loop _ _ _ = _ |- _ => apply parse_string_loop_Ok in H as [? ?]; [|done] end.
  split_and!; [done..|]. cbn [set_rest rest]. destruct (rest p) as [|b r]; [done|]. simplify_eq/=.
  rewrite drop_0 in *. by eapply shrinks_trans; [apply shrinks_ascii|].
Qed.

Lemma parse_string_coded p e :
  parse_string p = Err e -> peek p = Some 34 -> utf8_valid (rest p) = true -> exists c, e = Core c.
Proof.
  unfold parse_string, peek. intros H Hp Hv. apply bind_Err in H as [H|([v r] & _ & H)]; [|done].
  destruct (rest p) as [|b r]; [done|]. injection Hp as ->. cbn [drop] in H. rewrite drop_0 in H.
  eapply parse_string_loop_coded; [done|done| |simpl; lia]. by eapply utf8_valid_tail.
Qed.

(** ** Numbers and keywords *)

Lemma take_number_split s t u : take_number s = (t, u) -> s = t ++ u.
Proof.
  revert t u. induction s as [|b s IH]; intros t u H; cbn [take_number] in H; [by simplify_eq|].
  destruct (ends_number b); [by simplify_eq|].
  destruct (take_number s) as [t' u']. simplify_eq. cbn [app]. f_equal. by apply IH.
Qed.

Lemma valid_integer_token_ascii t :
  valid_integer_token t = true -> t <> [] /\ Forall (fun b => 0 <= b < 128) t.
Proof.
  unfold valid_integer_token. intros H.
  destruct (strip_prefix (lit "-") t) as [ds|] eqn:E; cbn [from_option id] in H;
    destruct (_ || negb _) eqn:E2 in H; try done; apply orb_false_iff in E2 as [Hne Hd];
    apply negb_false_iff, is_digits_forallb in Hd; apply bool_decide_eq_false in Hne.
  - apply strip_prefix_Some in E as ->. split; [done|]. change (lit "-" ++ ds) with (45 :: ds).
    constructor; [done|]. eapply Forall_impl; [exact Hd|]. simpl. intros b ?%is_ascii_digit_spec. lia.
  - split; [done|]. eapply Forall_impl; [exact Hd|]. simpl. intros b ?%is_ascii_digit_spec. lia.
Qed.

Lemma parse_number_Ok p v p' :
  parse_number p = Ok (v, p') ->
  (exists i, v = Integer i /\ in_safe_range i = true) /\ nodes p' = nodes p /\ shrinks (rest p) (rest p').
Proof.
  unfold parse_number. destruct (take_number (rest p)) as [t u] eqn:E. intros H.
  destruct (negb (valid_integer_token t) || _) eqn:E2; [done|].
  apply orb_false_iff in E2 as [Ht _]. apply negb_false_iff, valid_integer_token_ascii in Ht as [Hne Ha].
  result_inv. destruct (negb _) eqn:E3; simplify_eq/=. apply negb_false_iff in E3.
  split; [by eexists|]. split; [done|]. apply take_number_split in E. rewrite E. split.
  - rewrite length_app. destruct t; [done|]. simpl. lia.
  - intros Hv. by eapply utf8_valid_drop_ascii.
Qed.

Lemma parse_keyword_Ok k v0 p v p' :
  parse_keyword k v0 p = Ok (v, p') -> k <> [] -> Forall (fun b => 0 <= b < 128) k ->
  v = v0 /\ nodes p' = nodes p /\ shrinks (rest p) (rest p').
Proof.
  unfold parse_keyword. intros H Hne Hk. destruct (strip_prefix k (rest p)) as [s|] eqn:E; [|done].
  simplify_eq/=. split_and!; [done..|]. apply strip_prefix_Some in E. rewrite E. split.
  - rewrite length_app. destruct k; [done|]. simpl. lia.
  - intros Hv. by eapply utf8_valid_drop_ascii.
Qed.

(** ** Values *)

Section Sound.
Variable nfc : list char -> list char.
Variable limits : ResourceLimits.

(** [v] was read between [p] and [p'], at depth [d]. *)
Definition parsed (d : Z) (p : Parser) (v : Value) (p' : Parser) : Prop :=
  domain_ok nfc v /\ text_ok v /\ shape_ok limits d v /\
  nodes p' = nodes p + node_count v /\ nodes p' <= max_nodes limits /\ shrinks (rest p) (rest p').

Lemma skip_whitespace_rest p : shrinks_eq (rest p) (rest (skip_whitespace p)).
Proof. apply skip_ws_shrinks. Qed.

Lemma advance_shrinks p b : peek p = Some b -> 0 <= b < 128 -> shrinks (rest p) (rest (advance 1 p)).
Proof.
  unfold peek, advance. cbn [rest]. destruct (rest p) as [|c r]; [done|]. intros [= ->] Hb.
  cbn [drop]. rewrite drop_0. by apply shrinks_ascii.
Qed.

Definition entry_ok (d : Z) (e : str * Value) : Prop :=
  utf8_valid (fst e) = true /\ domain_ok nfc (snd e) /\ text_ok (snd e) /\ shape_ok limits d (snd e).

Definition element_ok (d : Z) (v : Value) : Prop :=
  domain_ok nfc v /\ text_ok v /\ shape_ok limits d v.

Definition value_sound (fuel : nat) : Prop := forall d p v p',
  parse_value nfc fuel limits d p = Ok (v, p') -> parsed d p v p'.

Definition array_sound (fuel : nat) : Prop := forall d acc p v p',
  parse_array_loop nfc fuel limits d acc p = Ok (v, p') ->
  exists vs, v = Arr (acc ++ vs) /\ Forall (element_ok d) vs /\
    len (acc ++ vs) <= max_container_items limits /\
    nodes p' = nodes p + nodes_total vs /\ nodes p' <= max_nodes limits /\ shrinks (rest p) (rest p').

Definition object_sound (fuel : nat) : Prop := forall d acc keys p v p',
  parse_object_loop nfc fuel limits d acc keys p = Ok (v, p') ->
  exists es, v = Obj (acc ++ es) /\ Forall (entry_ok d) es /\ keys_ok nfc keys (map fst es) /\
    len (acc ++ es) <= max_container_items limits /\
    nodes p' = nodes p + nodes_total (map snd es) /\ nodes p' <= max_nodes limits /\
    shrinks (rest p) (rest p').

Lemma array_sound_step fuel : value_sound fuel -> array_sound fuel -> array_sound (S fuel).
Proof.
  intros Hv IH d acc p v p' H. cbn [parse_array_loop] in H.
  destruct (len acc >=? _) eqn:El; [done|]. bool_props. result_inv.
  match goal with H : parse_value _ _ _ _ _ = Ok (?w, ?q) |- _ =>
    rename w into v1; rename q into p1; apply Hv in H as (Hd & Ht & Hs & Hn & Hm & Hr) end.
  destruct (peek (skip_whitespace p1)) as [b|] eqn:Ep; [|done].
  destruct (Z.eqb_spec b 93) as [->|_]; [|destruct (Z.eqb_spec b 44) as [->|_]; [|done]].
  - simplify_eq. pose proof (advance_shrinks _ _ Ep ltac:(lia)). exists [v1].
    split_and!; [done|by repeat constructor|len_lia|simpl in *; lia|done|].
    eapply shrinks_trans; [exact Hr|]. by eapply shrinks_eq_l; [apply skip_whitespace_rest|].
  - pose proof (advance_shrinks _ _ Ep ltac:(lia)).
    apply IH in H as (vs & -> & Hvs & Hl & Hn' & Hm' & Hr'). exists (v1 :: vs).
    rewrite <- app_assoc in *. cbn [app skip_whitespace set_rest nodes advance] in *.
    split_and!; [done|by constructor|done|simpl in *; lia|done|].
    eapply shrinks_trans; [exact Hr|]. eapply shrinks_eq_l; [apply skip_whitespace_rest|].
    eapply shrinks_trans; [eassumption|]. eapply shrinks_eq_l; [apply skip_whitespace_rest|]. done.
Qed.

Lemma object_sound_step fuel : value_sound fuel -> object_sound fuel -> object_sound (S fuel).
Proof.
  intros Hv IH d acc keys p v p' H. cbn [parse_object_loop] in H.
  destruct (len acc >=? _) eqn:El; [done|]. bool_props.
  destruct (negb (bool_decide (peek p = Some 34))) eqn:Eq; [done|]. bool_props. result_inv.
  match goal with H : parse_string _ = Ok (?k, ?q) |- _ =>
    rename k into key; rename q into p1; apply parse_string_Ok in H as (Hk & Hn1 & Hr1); [|done] end.
  match goal with H : insert_seen _ _ = _ |- _ => apply insert_seen_Ok in H as [Hnew ->] end.
  match goal with H : require_nfc_key _ _ = _ |- _ => apply require_nfc_key_Ok in H as Hnfc end.
  destruct (negb (bool_decide (peek (skip_whitespace p1) = Some 58))) eqn:Ec; [done|]. bool_props. result_inv.
  pose proof (advance_shrinks _ _ Ec ltac:(lia)) as Hr2.
  match goal with H : parse_value _ _ _ _ _ = Ok (?w, ?q) |- _ =>
    rename w into v1; rename q into p3; apply Hv in H as (Hd & Ht & Hs & Hn & Hm & Hr3) end.
  assert (shrinks (rest p) (rest p3)) as Hr.
  { eapply shrinks_trans; [exact Hr1|]. eapply shrinks_eq_l; [apply skip_whitespace_rest|].
    eapply shrinks_trans; [exact Hr2|]. eapply shrinks_eq_l; [apply skip_whitespace_rest|]. done. }
  assert (nodes p3 = nodes p + node_count v1) as Hn3.
  { rewrite Hn. cbn [skip_whitespace set_rest advance nodes]. by rewrite Hn1. }
  destruct (peek (skip_whitespace p3)) as [b|] eqn:Ep; [|done].
  destruct (Z.eqb_spec b 125) as [->|_]; [|destruct (Z.eqb_spec b 44) as [->|_]; [|done]].
  - simplify_eq. pose proof (advance_shrinks _ _ Ep ltac:(lia)). exists [(key, v1)].
    split_and!; [done|by repeat constructor| |len_lia|simpl in *; lia|done|].
    { cbn [map fst]. apply keys_ok_cons. split_and!; [done..|apply keys_ok_nil]. }
    eapply shrinks_trans; [exact Hr|]. by eapply shrinks_eq_l; [apply skip_whitespace_rest|].
  - pose proof (advance_shrinks _ _ Ep ltac:(lia)).
    apply IH in H as (es & -> & Hes & Hks & Hl & Hn' & Hm' & Hr'). exists ((key, v1) :: es).
    rewrite <- app_assoc in *. cbn [app skip_whitespace set_rest nodes advance] in *.
    split_and!; [done|by constructor|by apply keys_ok_cons|done|simpl in *; lia|done|].
    eapply shrinks_trans; [exact Hr|]. eapply shrinks_eq_l; [apply skip_whitespace_rest|].
    eapply shrinks_trans; [eassumption|]. by eapply shrinks_eq_l; [apply skip_whitespace_rest|].
Qed.

Lemma scalar_parsed d p v p' :
  match v with Integer i => in_safe_range i = true | Str s => utf8_valid s = true
             | Arr _ | Obj _ => False | _ => True end ->
  nodes p' = nodes p + 1 -> nodes p' <= max_nodes limits -> shrinks (rest p) (rest p') -> parsed d p v p'.
Proof. intros Hv ? ? ?. unfold parsed. destruct v as [| | | | |]; try done; by split_and!. Qed.

Lemma obj_parsed d p es p' :
  Forall (entry_ok (d + 1)) es -> keys_ok nfc [] (map fst es) -> d + 1 <= max_nesting_depth limits ->
  len es <= max_container_items limits -> nodes p' = nodes p + (1 + nodes_total (map snd es)) ->
  nodes p' <= max_nodes limits -> shrinks (rest p) (rest p') -> parsed d p (Obj es) p'.
Proof.
  intros Hes (? & ? & _) ? ? ? ? ?. split_and!; [| | |by rewrite node_count_obj|done|done].
  - cbn [domain_ok]. rewrite foldr_Forall. split_and!; [done..|].
    eapply Forall_impl; [exact Hes|]. by intros e (? & ? & ? & ?).
  - rewrite text_ok_obj. eapply Forall_impl; [exact Hes|]. by intros e (? & ? & ? & ?).
  - cbn [shape_ok]. rewrite foldr_Forall. split_and!; [done..|].
    eapply Forall_impl; [exact Hes|]. by intros e (? & ? & ? & ?).
Qed.

Lemma arr_parsed d p vs p' :
  Forall (element_ok (d + 1)) vs -> d + 1 <= max_nesting_depth limits ->
  len vs <= max_container_items limits -> nodes p' = nodes p + (1 + nodes_total vs) ->
  nodes p' <= max_nodes limits -> shrinks (rest p) (rest p') -> parsed d p (Arr vs) p'.
Proof.
  intros Hvs ? ? ? ? ?. split_and!; [| | |by rewrite node_count_arr|done|done];
    cbn [domain_ok text_ok shape_ok]; rewrite foldr_Forall; split_and?; try done;
    (eapply Forall_impl; [exact Hvs|]; by intros v (? & ? & ?)).
Qed.

Ltac depth_inv :=
  match goal with H : checked_child_depth _ _ = Ok _ |- _ => apply checked_child_depth_Ok in H as [-> ?] end.

Hypothesis items_nonneg : 0 <= max_container_items limits.

Lemma value_sound_step fuel : array_sound fuel -> object_sound fuel -> value_sound (S fuel).
Proof.
  intros Ha Ho d p v p' H. cbn [parse_value] in H.
  pose proof (skip_whitespace_rest p) as Hq. set (q := skip_whitespace p) in *.
  assert (nodes q = nodes p) as Hqn by done. clearbody q.
  apply bind_Ok in H as (q1 & Hc & H). unfold parser_consume_node in Hc. result_inv.
  match goal with H : consume_node _ _ = _ |- _ => apply consume_node_Ok in H as [-> Hm] end.
  rewrite Hqn in *. change (peek (mkp (rest q) (nodes p + 1))) with (peek q) in H.
  destruct (peek q) as [b|] eqn:Ep; [|done].
  (* past an opening bracket *)
  assert (0 <= b < 128 -> shrinks (rest p) (rest (skip_whitespace (advance 1 (mkp (rest q) (nodes p + 1))))))
    as Hopen.
  { intros Hb. eapply shrinks_eq_l; [exact Hq|]. apply (shrinks_eq_r _ (rest (advance 1 q))); [|apply skip_ws_shrinks].
    by eapply advance_shrinks. }
  set (q2 := skip_whitespace (advance 1 (mkp (rest q) (nodes p + 1)))) in *.
  assert (nodes q2 = nodes p + 1) as Hq2 by done. clearbody q2.
  destruct (Z.eqb_spec b 123) as [->|_].
  { result_inv. depth_inv. specialize (Hopen ltac:(lia)). destruct (bool_decide _) eqn:Eb; bool_props.
    - result_inv. pose proof (advance_shrinks _ _ Eb ltac:(lia)).
      apply obj_parsed; [constructor|apply keys_ok_nil|done|done|simpl; lia|simpl; lia|by eapply shrinks_trans].
    - apply Ho in H as (es & -> & ? & ? & ? & ? & ? & ?). cbn [app] in *.
      apply obj_parsed; [done|done|lia|done|lia|done|by eapply shrinks_trans]. }
  destruct (Z.eqb_spec b 91) as [->|_].
  { result_inv. depth_inv. specialize (Hopen ltac:(lia)). destruct (bool_decide _) eqn:Eb; bool_props.
    - result_inv. pose proof (advance_shrinks _ _ Eb ltac:(lia)).
      apply arr_parsed; [constructor|done|done|simpl; lia|simpl; lia|by eapply shrinks_trans].
    - apply Ha in H as (vs & -> & ? & ? & ? & ? & ?). cbn [app] in *.
      apply arr_parsed; [done|lia|done|lia|done|by eapply shrinks_trans]. }
  destruct (Z.eqb_spec b 34) as [->|_].
  { result_inv. match goal with H : parse_string _ = _ |- _ => apply parse_string_Ok in H as (? & Hn & ?); [|done] end.
    cbn [nodes rest] in *. apply scalar_parsed; [done|done|lia|by eapply shrinks_eq_l]. }
  destruct (Z.eqb_spec b 116) as [->|_]; [|destruct (Z.eqb_spec b 102) as [->|_]; [|destruct (Z.eqb_spec b 110) as [->|_]]].
  1-3: apply parse_keyword_Ok in H as (-> & Hn & ?); [|done|by repeat constructor]; cbn [nodes rest] in *;
    apply scalar_parsed; [done|done|lia|by eapply shrinks_eq_l].
  destruct (_ || _); [|done]. apply parse_number_Ok in H as ((i & -> & Hi) & Hn & ?). cbn [nodes rest] in *.
  apply scalar_parsed; [done|done|lia|by eapply shrinks_eq_l].
Qed.

Lemma parse_sound fuel : value_sound fuel /\ array_sound fuel /\ object_sound fuel.
Proof.
  induction fuel as [|fuel (Hv & Ha & Ho)]; [by split_and!|].
  split_and!; [by apply value_sound_step|by apply array_sound_step|by apply object_sound_step].
Qed.

(** ** Every call answers: no panic, no exhausted fuel *)

(** A result is [coded] when its error, if any, is a protocol error code. *)
Definition coded {A} (r : cresult A) : Prop := forall e, r = Err e -> exists c, e = Core c.

Lemma coded_bind {A B} (m : cresult A) (f : A -> cresult B) :
  coded m -> (forall a, m = Ok a -> coded (f a)) -> coded (m ≫= f).
Proof. intros Hm Hf e He. apply bind_Err in He as [He|(a & Ha & He)]; [by apply Hm|by eapply Hf]. Qed.

Lemma coded_Ok {A} (a : A) : coded (Ok a).
Proof. by intros e He. Qed.

Lemma coded_fail {A} c : coded (fail c : cresult A).
Proof. intros e [= <-]. by eexists. Qed.

Lemma coded_consume_node n l : coded (consume_node n l).
Proof.
  unfold consume_node. destruct (usize_checked_add n 1); cbn [ok_or mbind result_bind].
  - destruct (_ >? _); [apply coded_fail|apply coded_Ok].
  - apply coded_fail.
Qed.

Lemma coded_insert_seen seen k : coded (insert_seen seen k).
Proof. unfold insert_seen. destruct (existsb _ _); [apply coded_fail|apply coded_Ok]. Qed.

Lemma coded_require_nfc_key k : coded (require_nfc_key nfc k).
Proof. unfold require_nfc_key. destruct (negb _); [apply coded_fail|apply coded_Ok]. Qed.

Lemma coded_parse_number p : coded (parse_number p).
Proof.
  unfold parse_number. destruct (take_number _) as [t u]. destruct (_ || _); [apply coded_fail|].
  apply coded_bind; [destruct (parse_i64 t); [apply coded_Ok|apply coded_fail]|].
  intros i _. destruct (negb _); [apply coded_fail|apply coded_Ok].
Qed.

Lemma coded_parse_keyword k v p : coded (parse_keyword k v p).
Proof. unfold parse_keyword. destruct (strip_prefix _ _); [apply coded_Ok|apply coded_fail]. Qed.

Lemma coded_parse_string p : peek p = Some 34 -> utf8_valid (rest p) = true -> coded (parse_string p).
Proof. intros Hp Hv e He. by eapply parse_string_coded. Qed.

Definition value_coded (fuel : nat) : Prop := forall d p,
  utf8_valid (rest p) = true -> (2 * length (rest p) < fuel)%nat ->
  coded (parse_value nfc fuel limits d p).
Definition array_coded (fuel : nat) : Prop := forall d acc p,
  utf8_valid (rest p) = true -> (2 * length (rest p) + 1 < fuel)%nat ->
  coded (parse_array_loop nfc fuel limits d acc p).
Definition object_coded (fuel : nat) : Prop := forall d acc keys p,
  utf8_valid (rest p) = true -> (2 * length (rest p) < fuel)%nat ->
  coded (parse_object_loop nfc fuel limits d acc keys p).

(** The tail of both loops: after an element, a closing bracket or a comma. *)
Lemma coded_loop_tail {A} (close : byte) (fin : Parser -> A) (next : Parser -> cresult A) p :
  utf8_valid (rest p) = true ->
  (forall q, utf8_valid (rest q) = true -> (length (rest q) < length (rest p))%nat -> coded (next q)) ->
  coded (match peek (skip_whitespace p) with
         | Some b => if b =? close then Ok (fin (advance 1 (skip_whitespace p)))
                     else if b =? 44 then next (skip_whitespace (advance 1 (skip_whitespace p)))
                     else fail SchemaInvalid
         | None => fail SchemaInvalid
         end).
Proof.
  intros Hv Hn. destruct (peek (skip_whitespace p)) as [b|] eqn:Ep; [|apply coded_fail].
  destruct (b =? close); [apply coded_Ok|]. destruct (Z.eqb_spec b 44) as [->|_]; [|apply coded_fail].
  pose proof (advance_shrinks _ _ Ep ltac:(lia)) as [Hl Hu]. destruct (skip_whitespace_rest p) as [Hl0 Hu0].
  destruct (skip_whitespace_rest (advance 1 (skip_whitespace p))) as [Hl1 Hu1].
  apply Hn; [auto|lia].
Qed.

Lemma array_coded_step fuel : value_coded fuel -> array_coded fuel -> array_coded (S fuel).
Proof.
  intros Hv Ha d acc p Hp Hf. cbn [parse_array_loop].
  destruct (_ >=? _); [apply coded_fail|]. apply coded_bind; [apply Hv; [done|lia]|].
  intros [v p1] H. apply (proj1 (parse_sound fuel)) in H as (_ & _ & _ & _ & _ & [Hl Hu]).
  apply coded_loop_tail; [auto|]. intros q Hq Hlq. apply Ha; [done|lia].
Qed.

Lemma object_coded_step fuel : value_coded fuel -> object_coded fuel -> object_coded (S fuel).
Proof.
  intros Hv Ho d acc keys p Hp Hf. cbn [parse_object_loop].
  destruct (_ >=? _); [apply coded_fail|].
  destruct (negb (bool_decide _)) eqn:Eq; [apply coded_fail|]. bool_props.
  apply coded_bind; [by apply coded_parse_string|]. intros [k p1] H.
  apply parse_string_Ok in H as (_ & _ & [Hl Hu]); [|done].
  apply coded_bind; [apply coded_insert_seen|]. intros keys' _.
  apply coded_bind; [apply coded_require_nfc_key|]. intros _ _.
  destruct (negb (bool_decide _)) eqn:Ec; [apply coded_fail|]. bool_props.
  pose proof (advance_shrinks _ _ Ec ltac:(lia)) as [Hl2 Hu2]. destruct (skip_whitespace_rest p1) as [Hl1 Hu1].
  destruct (skip_whitespace_rest (advance 1 (skip_whitespace p1))) as [Hl3 Hu3].
  apply coded_bind; [apply Hv; [auto 10|lia]|].
  intros [v p4] H. apply (proj1 (parse_sound fuel)) in H as (_ & _ & _ & _ & _ & [Hl4 Hu4]).
  apply coded_loop_tail; [auto 10|]. intros q Hq Hlq. apply Ho; [done|lia].
Qed.

Lemma value_coded_step fuel : array_coded fuel -> object_coded fuel -> value_coded (S fuel).
Proof.
  intros Ha Ho d p Hp Hf. cbn [parse_value]. destruct (skip_whitespace_rest p) as [Hl Hu].
  set (q := skip_whitespace p) in *. clearbody q. specialize (Hu Hp).
  unfold parser_consume_node. apply coded_bind.
  { apply coded_bind; [apply coded_consume_node|]. intros n _. apply coded_Ok. }
  intros q1 Hq1. result_inv. change (peek (mkp (rest q) x)) with (peek q).
  destruct (peek q) as [b|] eqn:Ep; [|apply coded_fail].
  assert (0 <= b < 128 -> utf8_valid (rest (skip_whitespace (advance 1 (mkp (rest q) x)))) = true /\
    (length (rest (skip_whitespace (advance 1 (mkp (rest q) x)))) < length (rest q))%nat) as Hopen.
  { intros Hb. destruct (advance_shrinks _ _ Ep Hb) as [? ?].
    destruct (skip_whitespace_rest (advance 1 (mkp (rest q) x))) as [? Hs].
    split; [apply Hs; auto|]. change (rest (advance 1 (mkp (rest q) x))) with (rest (advance 1 q)) in *. lia. }
  destruct (Z.eqb_spec b 123) as [->|_]; [|destruct (Z.eqb_spec b 91) as [->|_]].
  1-2: apply coded_bind; [apply coded_consume_node|]; intros d' _; destruct Hopen as [? ?]; [lia|];
    (destruct (bool_decide _); [apply coded_Ok|]).
  - apply Ho; [done|lia].
  - apply Ha; [done|lia].
  - destruct (Z.eqb_spec b 34) as [->|_].
    { apply coded_bind; [by apply coded_parse_string|]. intros [s r] _. apply coded_Ok. }
    destruct (b =? 116); [apply coded_parse_keyword|]. destruct (b =? 102); [apply coded_parse_keyword|].
    destruct (b =? 110); [apply coded_parse_keyword|].
    destruct (_ || _); [apply coded_parse_number|apply coded_fail].
Qed.

Lemma parse_coded fuel : value_coded fuel /\ array_coded fuel /\ object_coded fuel.
Proof.
  induction fuel as [|fuel (Hv & Ha & Ho)].
  - split_and!; repeat intro; lia.
  - split_and!; [by apply value_coded_step|by apply array_coded_step|by apply object_coded_step].
Qed.
End Sound.

(** Where containers may have no item, the parser does not recur. *)
Lemma parse_value_small nfc limits fuel d p : max_container_items limits < 0 -> utf8_valid (rest p) = true ->
  (2 * length (rest p) < fuel)%nat -> coded (parse_value nfc fuel limits d p).
Proof.
  intros Hi Hp Hf. destruct fuel as [|fuel]; [lia|]. cbn [parse_value]. destruct (skip_whitespace_rest p) as [Hl Hu].
  set (q := skip_whitespace p) in *. clearbody q. specialize (Hu Hp).
  unfold parser_consume_node. apply coded_bind.
  { apply coded_bind; [apply coded_consume_node|]. intros n _. apply coded_Ok. }
  intros q1 Hq1. result_inv. change (peek (mkp (rest q) x)) with (peek q).
  destruct (peek q) as [b|] eqn:Ep; [|apply coded_fail].
  assert (1 <= length (rest q))%nat as Hne by (destruct q as [[|? ?] ?]; [done|cbn; lia]).
  destruct fuel as [|fuel]; [lia|].
  destruct (Z.eqb_spec b 123) as [->|_]; [|destruct (Z.eqb_spec b 91) as [->|_]].
  1-2: apply coded_bind; [apply coded_consume_node|]; intros d' _; (destruct (bool_decide _); [apply coded_Ok|]).
  - cbn [parse_object_loop]. rewrite Z.geb_leb, (proj2 (Z.leb_le _ _)) by (unfold len; cbn [length]; lia). apply coded_fail.
  - cbn [parse_array_loop]. rewrite Z.geb_leb, (proj2 (Z.leb_le _ _)) by (unfold len; cbn [length]; lia). apply coded_fail.
  - destruct (Z.eqb_spec b 34) as [->|_].
    { apply coded_bind; [by apply coded_parse_string|]. intros [s r] _. apply coded_Ok. }
    destruct (b =? 116); [apply coded_parse_keyword|]. destruct (b =? 102); [apply coded_parse_keyword|].
    destruct (b =? 110); [apply coded_parse_keyword|].
    destruct (_ || _); [apply coded_parse_number|apply coded_fail].
Qed.

(** ** Laws of canonicalization

    [canonicalize] as a normal form: it is idempotent, keeps the text, the
    domain, the shape and the node count of a value, and identifies exactly the
    values that differ in the order of object entries ([reordered]). *)

Section SortUnique.
Context {A : Type}.
Implicit Types (l k : list (str * A)).

Lemma NoDup_fst_inj l (e f : str * A) : NoDup (map fst l) -> e ∈ l -> f ∈ l -> fst e = fst f -> e = f.
Proof.
  intros Hn He Hf E. induction l as [|g l IH]; [by apply not_elem_of_nil in He|].
  cbn [map] in Hn. apply NoDup_cons in Hn as [Hg Hn].
  apply elem_of_cons in He as [->|He], Hf as [->|Hf]; [done|..|by apply IH].
  - destruct Hg. rewrite E. apply list_elem_of_fmap. by exists f.
  - destruct Hg. rewrite <- E. apply list_elem_of_fmap. by exists e.
Qed.

(** Entries with distinct keys have one sorted order, whatever order they came in. *)
Lemma sort_by_key_unique l k :
  l ≡ₚ k -> NoDup (map fst l) -> Forall (fun s => utf8_valid s = true) (map fst l) ->
  sort_by_key l = sort_by_key k.
Proof.
  intros Hp Hn Hv. rewrite Forall_forall in Hv.
  assert (Transitive (fun e f : str * A => key_le (fst e) (fst f))) as Ht.
  { intros ? ? ? ? ?. by eapply key_le_trans. }
  assert (forall e, e ∈ l -> utf8_valid (fst e) = true) as Hve.
  { intros e He. apply Hv, list_elem_of_fmap. by exists e. }
  apply (Sorted_unique_strong (fun e f => key_le (fst e) (fst f))).
  - intros e f He Hf. rewrite sort_by_key_perm in He, Hf. rewrite <- Hp in Hf. intros Hef Hfe.
    eapply NoDup_fst_inj; [done..|]. apply key_le_antisym; auto.
  - apply sort_by_key_sorted.
  - apply sort_by_key_sorted.
  - by rewrite !sort_by_key_perm.
Qed.
End SortUnique.

Lemma map_fst_prod_map {A B} (f : A -> B) (es : list (str * A)) :
  map fst (map (prod_map id f) es) = map fst es.
Proof. by rewrite map_map. Qed.

(** ** Canonicalization is a normal form *)

Lemma canonicalize_idemp v : canonicalize (canonicalize v) = canonicalize v.
Proof.
  induction v as [| | | |vs IH|es IH] using Value_ind; try done.
  - cbn [canonicalize]. f_equal. rewrite map_map. apply map_ext_Forall. exact IH.
  - rewrite !canonicalize_obj. f_equal.
    assert (map (prod_map id canonicalize) (map (prod_map id canonicalize) es)
            = map (prod_map id canonicalize) es) as E.
    { rewrite map_map. apply map_ext_Forall. eapply Forall_impl; [exact IH|]. intros [k v] Hv.
      unfold prod_map; simpl in *. by rewrite Hv. }
    rewrite <- (sort_by_key_map canonicalize es), (sort_by_key_id (sort_by_key _)) by apply sort_by_key_sorted.
    by rewrite <- sort_by_key_map, E.
Qed.

Lemma render_canonicalize v : render (canonicalize v) = render v.
Proof.
  induction v as [| | | |vs IH|es IH] using Value_ind; try done.
  - cbn [canonicalize render]. rewrite map_map. do 3 f_equal. by apply map_ext_Forall.
  - rewrite canonicalize_obj, !render_obj. rewrite <- sort_by_key_map.
    rewrite sort_by_key_id by apply sort_by_key_sorted. rewrite sort_by_key_map, map_map.
    do 3 f_equal. apply map_ext_Forall. rewrite sort_by_key_perm.
    eapply Forall_impl; [exact IH|]. intros [k v] Hv. unfold render_entry; simpl in *. by rewrite Hv.
Qed.

Lemma node_count_canonicalize v : node_count (canonicalize v) = node_count v.
Proof.
  induction v as [| | | |vs IH|es IH] using Value_ind; try done.
  - cbn [canonicalize]. rewrite !node_count_arr. f_equal. induction IH as [|v vs Hv _ IH]; [done|].
    cbn [map nodes_total foldr]. rewrite Hv. unfold nodes_total in IH. lia.
  - rewrite canonicalize_obj, !node_count_obj, map_map. f_equal.
    transitivity (nodes_total (map (fun e => canonicalize (snd e)) es)).
    { apply nodes_total_perm. by rewrite sort_by_key_perm. }
    induction IH as [|e es He _ IH]; [done|].
    cbn [map nodes_total foldr]. rewrite He. unfold nodes_total in IH. lia.
Qed.

Lemma shape_ok_canonicalize limits v : forall d, shape_ok limits d v -> shape_ok limits d (canonicalize v).
Proof.
  induction v as [| | | |vs IH|es IH] using Value_ind; intros d; try done.
  - cbn [canonicalize shape_ok]. rewrite !foldr_Forall. unfold len. rewrite length_map. intros (? & ? & H).
    split_and!; [done..|]. apply Forall_map. rewrite Forall_forall in *. eauto.
  - rewrite canonicalize_obj. cbn [shape_ok]. rewrite !foldr_Forall. unfold len.
    rewrite length_map, sort_by_key_perm. intros (? & ? & H). split_and!; [done..|].
    apply Forall_map. rewrite Forall_forall in *. intros e He.
    simpl. auto.
Qed.

Lemma text_ok_canonicalize v : text_ok v -> text_ok (canonicalize v).
Proof.
  induction v as [| | | |vs IH|es IH] using Value_ind; try done.
  - cbn [canonicalize text_ok]. rewrite !foldr_Forall. intros H. apply Forall_map.
    rewrite Forall_forall in *. auto.
  - rewrite canonicalize_obj, !text_ok_obj. intros H. apply Forall_map. rewrite sort_by_key_perm.
    rewrite Forall_forall in *. intros e He. destruct (H e He). simpl. auto.
Qed.

Lemma domain_ok_canonicalize nfc v : domain_ok nfc v -> domain_ok nfc (canonicalize v).
Proof.
  induction v as [| | | |vs IH|es IH] using Value_ind; try done.
  - cbn [canonicalize domain_ok]. rewrite !foldr_Forall. intros H. apply Forall_map.
    rewrite Forall_forall in *. auto.
  - rewrite canonicalize_obj. cbn [domain_ok]. rewrite !foldr_Forall, map_fst_prod_map.
    rewrite sort_by_key_perm. intros (? & ? & H). split_and!; [done..|].
    apply Forall_map. rewrite Forall_forall in *. simpl. auto.
Qed.

(** ** Equality up to the order of object entries *)

Unset Elimination Schemes.
Inductive reordered : Value -> Value -> Prop :=
| reordered_null : reordered Null Null
| reordered_bool b : reordered (Bool b) (Bool b)
| reordered_integer i : reordered (Integer i) (Integer i)
| reordered_str s : reordered (Str s) (Str s)
| reordered_arr vs ws : Forall2 reordered vs ws -> reordered (Arr vs) (Arr ws)
| reordered_obj es es' fs fs' :
    es ≡ₚ es' -> fs ≡ₚ fs' ->
    Forall2 (fun e f => fst e = fst f /\ reordered (snd e) (snd f)) es' fs' ->
    reordered (Obj es) (Obj fs).
Set Elimination Schemes.

Lemma canonicalize_reordered v : forall w, canonicalize v = canonicalize w -> reordered v w.
Proof.
  induction v as [|b|i|s|vs IH|es IH] using Value_ind; intros w E; destruct w as [| | | |ws|fs];
    try (cbn [canonicalize] in E; discriminate E); try (cbn [canonicalize] in E; simplify_eq; constructor).
  - revert ws E. induction IH as [|v vs Hv _ IHl]; intros [|w ws] E; cbn [map] in E; simplify_eq; constructor; auto.
  - rewrite !canonicalize_obj in E. injection E as E.
    eapply reordered_obj; [symmetry; apply sort_by_key_perm..|].
    assert (Forall (fun e => forall w, canonicalize (snd e) = canonicalize w -> reordered (snd e) w)
      (sort_by_key es)) as IH' by (by rewrite sort_by_key_perm).
    revert E. generalize (sort_by_key fs). clear IH. induction IH' as [|e l He _ IHl]; intros [|f k] E;
      cbn [map] in E; try discriminate E; constructor.
    + unfold prod_map in E. injection E as ? ? _. split; [done|]. by apply He.
    + injection E as _ _ E. by apply IHl.
Qed.

Lemma reordered_canonicalize nfc v : forall w,
  domain_ok nfc v -> text_ok v -> reordered v w -> canonicalize v = canonicalize w.
Proof.
  induction v as [|b|i|s|vs IH|es IH] using Value_ind; intros w Hd Ht R; inversion R; subst; try done.
  - cbn [canonicalize domain_ok text_ok] in *. rewrite foldr_Forall in Hd, Ht. f_equal. clear R.
    match goal with H : Forall2 _ _ _ |- _ => induction H as [|v w vs ws Hr _ IHl] end; [done|].
    inversion IH; inversion Hd; inversion Ht; subst. cbn [map]. f_equal; auto.
  - cbn [canonicalize]. f_equal. rewrite text_ok_obj in Ht. cbn [domain_ok] in Hd. destruct Hd as (Hn & _ & Hd).
    rewrite foldr_Forall in Hd. match goal with H1 : es ≡ₚ _, H2 : fs ≡ₚ _ |- _ => rename H1 into Hes; rename H2 into Hfs end.
    transitivity (sort_by_key (map (prod_map id canonicalize) es')); [|transitivity (sort_by_key (map (prod_map id canonicalize) fs'))].
    + apply sort_by_key_unique; [by rewrite Hes|..]; rewrite map_map; [done|].
      apply Forall_map. eapply Forall_impl; [exact Ht|]. by intros e [? ?].
    + f_equal. rewrite Hes in IH, Hd, Ht. clear R Hes Hfs Hn.
      match goal with H : Forall2 _ _ _ |- _ => induction H as [|e f l k [Hk Hr] _ IHl] end; [done|].
      inversion IH; inversion Hd; inversion Ht; subst. cbn [map]. unfold prod_map at 1 3. f_equal; [|by auto].
      rewrite Hk. f_equal. destruct_and?. by auto.
    + symmetry. apply sort_by_key_unique; [by rewrite Hfs|..]; rewrite map_map; cbn [fst prod_map].
      all: assert (map fst fs ≡ₚ map fst es) as Hk
        by (rewrite Hes, Hfs; match goal with H : Forall2 _ _ _ |- _ =>
              clear - H; induction H as [|e f l k [Hk _] _ IHl]; [done|]; cbn [map]; by rewrite Hk, IHl end).
      * by rewrite Hk.
      * rewrite Hk. apply Forall_map. eapply Forall_impl; [exact Ht|]. by intros e [? ?].
Qed.

(** ** The canonical text as input of the parser *)

Lemma utf8_valid_concat ss : Forall (fun s => utf8_valid s = true) ss -> utf8_valid (concat ss) = true.
Proof. induction 1; [done|]. cbn [concat]. by apply utf8_valid_app. Qed.

Lemma utf8_valid_join sep ss :
  utf8_valid sep = true -> Forall (fun s => utf8_valid s = true) ss -> utf8_valid (join_with sep ss) = true.
Proof.
  intros Hs. induction 1 as [|s ss Hv Hvs IH]; [done|]. destruct ss as [|t ss]; [done|].
  change (join_with sep (s :: t :: ss)) with (s ++ sep ++ join_with sep (t :: ss)).
  by repeat apply utf8_valid_app.
Qed.

Lemma utf8_valid_write_json_char c : char_ok c = true -> utf8_valid (write_json_char c) = true.
Proof.
  intros Hc. unfold write_json_char. destruct (short_escape c) as [e|] eqn:E.
  - apply short_escape_cases in E.
    repeat (apply elem_of_cons in E as [E|E]; [by simplify_eq|]). by apply not_elem_of_nil in E.
  - destruct ((0 <=? c) && (c <=? 31)) eqn:Hctl.
    + bool_props. assert (c ∈ seqZ 0 32) as Hs by (apply elem_of_seqZ; lia).
      repeat (apply elem_of_cons in Hs as [Hs|Hs]; [by subst|]). by apply not_elem_of_nil in Hs.
    + pose proof (utf8_valid_string_of_chars [c]) as H. rewrite string_of_chars_cons in H.
      change (string_of_chars []) with (@nil Z) in H. rewrite app_nil_r in H. apply H. by constructor.
Qed.

Lemma utf8_valid_quote s : utf8_valid s = true -> utf8_valid (quote s) = true.
Proof.
  intros H. unfold quote. apply utf8_valid_cons_ascii; [lia|]. apply utf8_valid_app; [|done].
  apply utf8_valid_concat, Forall_map. apply utf8_valid_spec in H as (cs & Hcs & ->).
  rewrite chars_string_of_chars by done. eapply Forall_impl; [exact Hcs|]. apply utf8_valid_write_json_char.
Qed.

Lemma utf8_valid_render v : text_ok v -> utf8_valid (render v) = true.
Proof.
  induction v as [|[]|i|s|vs IH|es IH] using Value_ind; intros Ht; try done.
  - cbn [render]. apply utf8_valid_ascii. eapply Forall_impl; [apply show_int_numeral|].
    unfold numeral_byte. simpl. lia.
  - cbn [render]. by apply utf8_valid_quote.
  - cbn [render text_ok] in *. rewrite foldr_Forall in Ht.
    apply utf8_valid_app; [done|]. apply utf8_valid_app; [|done]. apply utf8_valid_join; [done|].
    apply Forall_map. rewrite Forall_forall in *. auto.
  - rewrite render_obj. rewrite text_ok_obj in Ht.
    apply utf8_valid_app; [done|]. apply utf8_valid_app; [|done]. apply utf8_valid_join; [done|].
    apply Forall_map. rewrite sort_by_key_perm. rewrite Forall_forall in *. intros e He.
    destruct (Ht e He). unfold render_entry. apply utf8_valid_app; [by apply utf8_valid_quote|].
    apply utf8_valid_app; [done|]. by apply IH.
Qed.

Lemma head_chars_ascii b s : utf8_valid (b :: s) = true -> 0 <= b < 128 -> head (chars (b :: s)) = Some b.
Proof.
  rewrite utf8_valid_spec. intros (cs & Hcs & E) Hb. rewrite E, chars_string_of_chars by done.
  destruct cs as [|c cs]; [done|]. inversion Hcs; subst. rewrite string_of_chars_cons in E.
  destruct (encode_utf8_cons c) as (b' & r' & Hc). rewrite Hc in E. cbn [app] in E. injection E as -> ->.
  destruct (encode_utf8_lead c b' r' ltac:(done) Hc) as [(_ & -> & _)|[_ ?]]; [done|lia].
Qed.

Lemma value_start_ascii b : value_start b -> 0 <= b < 128.
Proof. unfold value_start, numeral_byte. lia. Qed.

(** Canonical text that fits the limits reads back as the canonical value. *)
Lemma parse_strict_render nfc limits v :
  limits_usize limits -> max_nesting_depth limits <= HARD_MAX_NESTING_DEPTH ->
  domain_ok nfc v -> text_ok v -> shape_ok limits 0 v ->
  node_count v <= max_nodes limits -> len (render v) <= max_input_bytes limits ->
  parse_strict_with_limits nfc (render v) limits = Ok (canonicalize v).
Proof.
  intros (? & ? & ?) Hh Hd Ht Hs Hn Hl. unfold parse_strict_with_limits.
  rewrite (proj2 (validate_limits_Ok _ tt)) by done. cbn [mbind result_bind].
  rewrite Z.gtb_ltb, (proj2 (Z.ltb_ge _ _)) by done. cbn [mbind result_bind].
  pose proof (utf8_valid_render v Ht) as Hv. destruct (render_start v) as (b & r & E & Hb).
  pose proof (value_start_ascii b Hb).
  assert (starts_with [239; 187; 191] (render v) = false) as ->.
  { unfold starts_with. rewrite E, strip_prefix_cons_ne by lia. by apply bool_decide_eq_false_2; intros [? ?]. }
  rewrite Hv. cbn [negb mbind result_bind].
  assert (head (chars (render v)) = Some b) as ->.
  { rewrite E in Hv |- *. by apply head_chars_ascii. }
  rewrite bool_decide_eq_false_2 by (intros [= ?]; lia).
  cbn [mbind result_bind]. unfold parse_text.
  assert (skip_whitespace (mkp (render v) 0) = mkp (render v ++ []) 0) as ->.
  { rewrite app_nil_r, E. by apply skip_whitespace_cons, value_start_not_whitespace. }
  rewrite (parses_render nfc limits) with (v := v) (d := 0); [|try done; try lia..].
  - cbn [mbind result_bind]. change (rest (skip_whitespace (mkp [] (0 + node_count v)))) with (@nil Z).
    by rewrite bool_decide_eq_true_2.
  - unfold parse_fuel. lia.
Qed.

(** ** Canonical text is never longer than the text it was parsed from

    Every token of the input is at least as long as the token the writer emits
    for it; so a value read under an input limit can be written under an equal
    canonical limit. *)

(** ** Strings *)

Lemma canonical_char_size_le c : canonical_char_size c <= 6.
Proof. unfold canonical_char_size, len_utf8. repeat case_match; lia. Qed.

Lemma canonical_char_size_raw c :
  31 < c -> c <> 34 -> c <> 92 -> canonical_char_size c = len_utf8 c.
Proof.
  intros. unfold canonical_char_size, short_escape.
  repeat (rewrite (proj2 (Z.eqb_neq c _)) by lia). by rewrite (proj2 (Z.leb_gt c 31)), andb_false_r by lia.
Qed.

Lemma parse_hex_u16_len s v s' : parse_hex_u16 s = Ok (v, s') -> len s = 4 + len s'.
Proof.
  destruct s as [|a [|b [|c [|d r]]]]; try done. cbn [parse_hex_u16].
  destruct (negb _); [done|]. intros [= _ <-]. len_lia.
Qed.

Lemma parse_unicode_escape_len s acc v s' :
  parse_unicode_escape s acc = Ok (v, s') ->
  exists c, char_ok c = true /\ v = acc ++ encode_utf8 c /\ 4 + len s' <= len s.
Proof.
  unfold parse_unicode_escape. intros H. result_inv.
  match goal with H : parse_hex_u16 s = _ |- _ => apply parse_hex_u16_len in H end.
  destruct (char_ok _) eqn:Hc; [|done]. result_inv. eexists. split_and!; [done..|].
  destruct (_ && _).
  - result_inv. match goal with H : strip_prefix _ _ = _ |- _ => apply strip_prefix_Some in H as -> end.
    match goal with H : parse_hex_u16 _ = _ |- _ => apply parse_hex_u16_len in H end.
    destruct (negb _); simplify_eq/=. len_lia.
  - destruct (_ && _); simplify_eq. lia.
Qed.

Lemma parse_escape_len s acc v s' :
  parse_escape s acc = Ok (v, s') ->
  exists c, char_ok c = true /\ v = acc ++ encode_utf8 c /\ canonical_char_size c + len s' <= len s + 1.
Proof.
  intros H. destruct s as [|e s]; [done|]. cbn [parse_escape] in H.
  repeat match type of H with
  | (if ?e =? ?k then Ok (?a ++ [?b], _) else _) = _ =>
    destruct (Z.eqb_spec e k) as [->|_];
      [injection H as <- <-; exists b; rewrite len_cons; split_and!; [reflexivity|reflexivity|enough (canonical_char_size b <= 2) by lia; by vm_compute]|]
  end.
  destruct (Z.eqb_spec e 117) as [->|_]; [|done].
  apply parse_unicode_escape_len in H as (c & ? & ? & ?). exists c. split_and!; [done..|].
  pose proof (canonical_char_size_le c). rewrite len_cons. lia.
Qed.

Lemma string_of_chars_snoc cs c : string_of_chars cs ++ encode_utf8 c = string_of_chars (cs ++ [c]).
Proof. rewrite string_of_chars_app. unfold string_of_chars. simpl. by rewrite app_nil_r. Qed.

Definition chars_ok (cs : list char) : Prop := Forall (fun c => char_ok c = true) cs.

(** One character read, the rest of the loop after it. *)
Lemma string_loop_len_cons cs c v (s r : str) n :
  chars_ok cs -> char_ok c = true -> canonical_char_size c + len r <= n ->
  (chars_ok (cs ++ [c]) -> exists ds, chars_ok ds /\ v = string_of_chars ((cs ++ [c]) ++ ds) /\ char_sizes ds + 1 + len s <= len r) ->
  exists ds, chars_ok ds /\ v = string_of_chars (cs ++ ds) /\ char_sizes ds + 1 + len s <= n.
Proof.
  intros Hcs Hc Hl H. destruct H as (ds & ? & -> & ?).
  { apply Forall_app. split; [done|by repeat constructor]. }
  exists (c :: ds). rewrite <- app_assoc. split_and!; [by constructor|done|]. simpl. lia.
Qed.

Lemma parse_string_loop_len fuel : forall s cs v s',
  parse_string_loop fuel s (string_of_chars cs) = Ok (v, s') -> chars_ok cs ->
  exists ds, chars_ok ds /\ v = string_of_chars (cs ++ ds) /\ char_sizes ds + 1 + len s' <= len s.
Proof.
  induction fuel as [|fuel IH]; intros s cs v s' H Hcs; [done|]. cbn [parse_string_loop] in H.
  destruct s as [|b s]; [done|]. rewrite len_cons.
  destruct (Z.eqb_spec b 34) as [->|Hq].
  { simplify_eq. exists []. rewrite app_nil_r. split_and!; [constructor|done|simpl; lia]. }
  destruct (Z.eqb_spec b 92) as [->|Hb].
  { result_inv. match goal with H : parse_escape _ _ = _ |- _ => apply parse_escape_len in H as (c & Hc & -> & ?) end.
    rewrite string_of_chars_snoc in H.
    eapply (string_loop_len_cons cs c); [done|done| |by apply IH]. lia. }
  destruct (_ && _) eqn:E1; [done|]. destruct ((32 <=? b) && _) eqn:E.
  { bool_props. assert (encode_utf8 b = [b]) as Eb by (unfold encode_utf8; by rewrite (proj2 (Z.ltb_lt b 128)) by lia).
    rewrite <- Eb, string_of_chars_snoc in H.
    eapply (string_loop_len_cons cs b); [done| | |by apply IH].
    - apply char_ok_spec. lia.
    - rewrite canonical_char_size_raw by lia. unfold len_utf8. rewrite (proj2 (Z.ltb_lt b 128)); lia. }
  destruct (utf8_next (b :: s)) as [[c r]|] eqn:En; [|done]. apply utf8_next_inv in En as [Hc En].
  assert (1 + len s = len_utf8 c + len r) as Hl by (rewrite <- (len_cons b), En, len_app, len_encode_utf8; done).
  rewrite string_of_chars_snoc in H.
  eapply (string_loop_len_cons cs c); [done|done| |by apply IH].
  destruct (encode_utf8_cons c) as (b' & r' & Ec). rewrite Ec in En. injection En as -> _.
  destruct (encode_utf8_lead c b' r' Hc Ec) as [(? & ? & ?)|[? ?]].
  - subst. apply char_ok_spec in Hc as [? _]. apply andb_false_iff in E1. apply andb_false_iff in E. rewrite !Z.leb_gt in *. lia.
  - rewrite canonical_char_size_raw by lia. lia.
Qed.

Lemma parse_string_len p s p' :
  parse_string p = Ok (s, p') -> peek p = Some 34 -> len (quote s) + len (rest p') <= len (rest p).
Proof.
  unfold parse_string, peek. intros H Hp. result_inv.
  match goal with H : parse_string_loop _ _ _ = _ |- _ =>
    apply (parse_string_loop_len _ _ []) in H as (ds & Hds & -> & Hl); [|constructor] end.
  cbn [set_rest rest app] in *. destruct (rest p) as [|b r]; [done|]. simplify_eq/=.
  rewrite drop_0 in *. rewrite len_quote, chars_string_of_chars, len_cons by done. lia.
Qed.

(** ** Numbers *)

Lemma valid_numeral ds :
  ds <> [] -> is_digits ds -> str_eqb ds (lit "0") || negb (starts_with (lit "0") ds) = true ->
  ds = lit "0" \/ exists d r, ds = d :: r /\ d <> 48.
Proof.
  intros Hne Hd H. apply orb_true_iff in H as [H|H].
  - left. unfold str_eqb in H. by bool_props.
  - right. destruct ds as [|d r]; [done|]. exists d, r. split; [done|]. intros ->.
    apply negb_true_iff in H. unfold starts_with in H. apply bool_decide_eq_false in H.
    destruct H. change (lit "0") with [48]. rewrite strip_prefix_cons_eq. by eexists.
Qed.

Lemma show_nonneg_numeral n : 0 <= n -> show_nonneg n = lit "0" \/ exists d r, show_nonneg n = d :: r /\ d <> 48.
Proof.
  intros Hn. destruct (decide (n = 0)) as [->|]; [by left|]. right.
  destruct (show_nonneg_head n) as (d & r & ? & ?); [lia|]. exists d, r. split; [done|lia].
Qed.

(** A token the parser accepts is the numeral the writer prints. *)
Lemma valid_token_show t i :
  valid_integer_token t = true -> str_eqb t (lit "-0") = false -> parse_i64 t = Some i -> show_int i = t.
Proof.
  unfold valid_integer_token, parse_i64. intros Hv Hz Hp.
  destruct (strip_prefix (lit "-") t) as [ds|] eqn:E; cbn [default from_option id] in Hv;
    destruct (bool_decide _ || negb _) eqn:E2; try done; apply orb_false_iff in E2 as [Hne Hd];
    apply negb_false_iff, is_digits_forallb in Hd; apply bool_decide_eq_false in Hne;
    destruct (in_i64 _); simplify_eq;
    pose proof (digits_value_bound _ Hd) as [Hb _]; apply valid_numeral in Hv; try done.
  - apply strip_prefix_Some in E as ->. unfold show_int.
    assert (digits_value ds <> 0) as Hnz.
    { destruct Hv as [->|(d & r & -> & Hd0)]; [done|].
      pose proof (digits_value_lower d r Hd Hd0) as L.
      pose proof (Z.pow_pos_nonneg 10 (len r) ltac:(lia) ltac:(auto with synapse)). lia. }
    rewrite (proj2 (Z.ltb_lt _ 0)) by lia. change (lit "-" ++ ds) with (45 :: ds). f_equal.
    rewrite Z.opp_involutive. apply numeral_unique; [by apply show_nonneg_digits|done|by apply show_nonneg_numeral|done|].
    by apply show_nonneg_value.
  - unfold show_int. rewrite (proj2 (Z.ltb_ge _ 0)) by lia.
    apply numeral_unique; [by apply show_nonneg_digits|done|by apply show_nonneg_numeral|done|].
    by apply show_nonneg_value.
Qed.

Lemma parse_number_len p v p' :
  parse_number p = Ok (v, p') -> len (render v) + len (rest p') <= len (rest p).
Proof.
  unfold parse_number. destruct (take_number (rest p)) as [t u] eqn:E. intros H.
  destruct (_ || _) eqn:E2; [done|]. apply orb_false_iff in E2 as [Ht Hz]. apply negb_false_iff in Ht.
  result_inv. destruct (negb _); simplify_eq. apply take_number_split in E. rewrite E.
  cbn [render set_rest rest]. erewrite valid_token_show by done. rewrite len_app. lia.
Qed.

Lemma parse_keyword_len k v p v' p' :
  parse_keyword k v p = Ok (v', p') -> render v = k -> len (render v') + len (rest p') <= len (rest p).
Proof.
  unfold parse_keyword. destruct (strip_prefix k (rest p)) as [s|] eqn:E; [|done]. intros [= <- <-] ->.
  apply strip_prefix_Some in E as ->. cbn [set_rest rest]. rewrite len_app. lia.
Qed.

(** ** Values *)

Section Length.
Variable nfc : list char -> list char.
Variable limits : ResourceLimits.

Definition value_shorter (fuel : nat) : Prop := forall d p v p',
  parse_value nfc fuel limits d p = Ok (v, p') -> len (render v) + len (rest p') <= len (rest p).

(** The text of the elements still to come, with a separator before each but the first. *)
Definition array_shorter (fuel : nat) : Prop := forall d acc p v p',
  parse_array_loop nfc fuel limits d acc p = Ok (v, p') ->
  exists vs, v = Arr (acc ++ vs) /\ vs <> [] /\
    len (tail_text O (map render vs)) + 1 + len (rest p') <= len (rest p).

Definition object_shorter (fuel : nat) : Prop := forall d acc keys p v p',
  parse_object_loop nfc fuel limits d acc keys p = Ok (v, p') ->
  exists es, v = Obj (acc ++ es) /\ es <> [] /\
    len (tail_text O (map render_entry es)) + 1 + len (rest p') <= len (rest p).

Lemma skip_whitespace_len p : len (rest (skip_whitespace p)) <= len (rest p).
Proof. destruct (skip_whitespace_rest p) as [? _]. unfold len. lia. Qed.

Lemma advance_len p b : peek p = Some b -> len (rest p) = 1 + len (rest (advance 1 p)).
Proof.
  unfold peek, advance. cbn [rest]. destruct (rest p) as [|c r]; [done|]. intros [= ->].
  cbn [drop]. by rewrite drop_0, len_cons.
Qed.

Lemma len_tail_text_comma {A} (f : A -> str) x xs :
  xs <> [] -> len (tail_text O (map f (x :: xs))) = len (f x) + 1 + len (tail_text O (map f xs)).
Proof.
  intros Hne. cbn [map]. rewrite len_tail_text_step. destruct xs as [|y ys]; [done|].
  cbn [map]. rewrite !len_tail_text. simpl. lia.
Qed.

Lemma array_shorter_step fuel : value_shorter fuel -> array_shorter fuel -> array_shorter (S fuel).
Proof.
  intros Hv IH d acc p v p' H. cbn [parse_array_loop] in H. destruct (_ >=? _); [done|]. result_inv.
  match goal with H : parse_value _ _ _ _ _ = Ok (?w, ?q) |- _ => rename w into v1; rename q into p1; apply Hv in H end.
  pose proof (skip_whitespace_len p1).
  destruct (peek (skip_whitespace p1)) as [b|] eqn:Ep; [|done]. pose proof (advance_len _ _ Ep).
  destruct (b =? 93); [|destruct (b =? 44); [|done]].
  - simplify_eq. exists [v1]. split_and!; [done..|]. cbn [map]. rewrite len_tail_text_step. cbn [map]. simpl (len (tail_text _ _)). len_lia.
  - apply IH in H as (vs & -> & Hne & Hl). exists (v1 :: vs). rewrite <- app_assoc. split_and!; [done..|].
    pose proof (skip_whitespace_len (advance 1 (skip_whitespace p1))). rewrite len_tail_text_comma by done. lia.
Qed.

Lemma object_shorter_step fuel : value_shorter fuel -> object_shorter fuel -> object_shorter (S fuel).
Proof.
  intros Hv IH d acc keys p v p' H. cbn [parse_object_loop] in H. destruct (_ >=? _); [done|].
  destruct (negb (bool_decide (peek p = Some 34))) eqn:Eq; [done|]. bool_props. result_inv.
  match goal with H : parse_string _ = Ok (?k, ?q) |- _ =>
    rename k into key; rename q into p1; apply parse_string_len in H; [|done] end.
  pose proof (skip_whitespace_len p1).
  destruct (negb (bool_decide (peek (skip_whitespace p1) = Some 58))) eqn:Ec; [done|]. bool_props. result_inv.
  pose proof (advance_len _ _ Ec). pose proof (skip_whitespace_len (advance 1 (skip_whitespace p1))).
  match goal with H : parse_value _ _ _ _ _ = Ok (?w, ?q) |- _ => rename w into v1; rename q into p3; apply Hv in H end.
  pose proof (skip_whitespace_len p3). pose proof (len_render_entry (key, v1)) as He. cbn [fst snd] in He.
  destruct (peek (skip_whitespace p3)) as [b|] eqn:Ep; [|done]. pose proof (advance_len _ _ Ep).
  destruct (b =? 125); [|destruct (b =? 44); [|done]].
  - simplify_eq. exists [(key, v1)]. split_and!; [done..|]. cbn [map]. rewrite len_tail_text_step. simpl (len (tail_text _ _)). len_lia.
  - apply IH in H as (es & -> & Hne & Hl). exists ((key, v1) :: es). rewrite <- app_assoc. split_and!; [done..|].
    pose proof (skip_whitespace_len (advance 1 (skip_whitespace p3))). rewrite len_tail_text_comma by done. lia.
Qed.

Lemma value_shorter_step fuel : array_shorter fuel -> object_shorter fuel -> value_shorter (S fuel).
Proof.
  intros Ha Ho d p v p' H. cbn [parse_value] in H. pose proof (skip_whitespace_len p).
  set (q := skip_whitespace p) in *. clearbody q.
  apply bind_Ok in H as (q1 & Hc & H). unfold parser_consume_node in Hc. result_inv.
  change (peek (mkp (rest q) x)) with (peek q) in H.
  destruct (peek q) as [b|] eqn:Ep; [|done].
  pose proof (advance_len (mkp (rest q) x) b Ep). cbn [rest] in *.
  pose proof (skip_whitespace_len (advance 1 (mkp (rest q) x))).
  destruct (b =? 123); [|destruct (b =? 91)].
  1-2: result_inv; destruct (bool_decide _) eqn:Eb; bool_props; result_inv.
  - pose proof (advance_len _ _ Eb). rewrite len_render_obj. simpl (len (tail_text _ _)). len_lia.
  - apply Ho in H as (es & -> & _ & ?). rewrite len_render_obj. cbn [app]. lia.
  - pose proof (advance_len _ _ Eb). rewrite len_render_arr. simpl (len (tail_text _ _)). len_lia.
  - apply Ha in H as (vs & -> & _ & ?). rewrite len_render_arr. cbn [app]. lia.
  - destruct (Z.eqb_spec b 34) as [->|_].
    { result_inv. match goal with H : parse_string _ = _ |- _ => apply parse_string_len in H; [|done] end.
      cbn [render rest] in *. lia. }
    destruct (b =? 116); [|destruct (b =? 102); [|destruct (b =? 110)]].
    1-3: apply parse_keyword_len in H; [cbn [rest] in H; lia|done].
    destruct (_ || _); [|done]. apply parse_number_len in H. cbn [rest] in H. lia.
Qed.

Lemma parse_shorter fuel : value_shorter fuel /\ array_shorter fuel /\ object_shorter fuel.
Proof.
  induction fuel as [|fuel (Hv & Ha & Ho)]; [by split_and!|].
  split_and!; [by apply value_shorter_step|by apply array_shorter_step|by apply object_shorter_step].
Qed.
End Length.
