(* ===== verification/CanonicalProps.v ===== *)
(** * Canonical JSON: the properties

    Round trip, identity of canonical bytes up to entry order, exactness of the
    size pass, the accepted domain, and totality of the strict parser, each for
    every Unicode normalizer [nfc]. *)

From stdpp Require Import base list numbers strings sorting sets.
From Stdlib Require Import ZArith Lia.
From S2P Require Import Prelude Text TextFacts Canonical CanonicalWrite CanonicalParse CanonicalLaws.

#[local] Open Scope Z_scope.

(** Equal texts come from values with the same canonical form. *)
Lemma render_inj nfc limits v w :
  limits_usize limits -> domain_ok nfc v -> domain_ok nfc w -> text_ok v -> text_ok w ->
  shape_ok limits 0 v -> shape_ok limits 0 w -> node_count v <= max_nodes limits ->
  node_count w <= max_nodes limits -> render v = render w -> canonicalize v = canonicalize w.
Proof.
  intros (? & ? & ?) ? ? ? ? ? ? ? ? E.
  assert (parses nfc limits 0 v) as Hv by (by apply parses_render).
  assert (parses nfc limits 0 w) as Hw by (by apply parses_render).
  specialize (Hv (S (2 * length (render v))) [] 0 ltac:(lia) I ltac:(lia)).
  specialize (Hw (S (2 * length (render v))) [] 0 ltac:(rewrite E; lia) I ltac:(lia)).
  rewrite E in Hv at 2. rewrite Hv in Hw. by simplify_eq.
Qed.

Lemma parse_text_Ok nfc limits text v :
  0 <= max_container_items limits -> parse_text nfc text limits = Ok v ->
  domain_ok nfc v /\ text_ok v /\ shape_ok limits 0 v /\ node_count v <= max_nodes limits /\
  len (render v) <= len text.
Proof.
  unfold parse_text. intros Hi H. result_inv.
  match goal with H : parse_value _ ?f _ _ _ = Ok (?w, ?q) |- _ =>
    pose proof (proj1 (parse_shorter nfc limits f) _ _ _ _ H) as Hl;
    apply (proj1 (parse_sound nfc limits Hi f)) in H as (? & ? & ? & ? & ? & ?) end.
  destruct (negb _); [done|]. result_inv. split_and!; [done..| |].
  - cbn [skip_whitespace set_rest nodes] in *. lia.
  - pose proof (skip_whitespace_len (mkp text 0)). cbn [rest] in *. len_lia.
Qed.

Lemma parse_strict_with_limits_inv nfc input limits v :
  parse_strict_with_limits nfc input limits = Ok v ->
  max_nesting_depth limits <= HARD_MAX_NESTING_DEPTH /\ len input <= max_input_bytes limits /\
  utf8_valid input = true /\ parse_text nfc input limits = Ok v.
Proof.
  unfold parse_strict_with_limits. intros H. result_inv.
  match goal with H : validate_limits _ = _ |- _ => apply validate_limits_Ok in H end.
  destruct (len input >? _) eqn:E1; [done|]. destruct (negb (utf8_valid input)) eqn:E2; [done|]. by bool_props.
Qed.

Lemma default_limits_usize : limits_usize default_limits.
Proof. by split_and!. Qed.

(** ** Sample values for the witnesses *)

Definition nfc_id : list char -> list char := fun cs => cs.

(** {"b": [1, "é\n"], "a": null} and the same with its entries the other way round. *)
Definition sample : Value :=
  Obj [(lit "b", Arr [Integer 1; Str [195; 169; 10]]); (lit "a", Null)].
Definition sample' : Value :=
  Obj [(lit "a", Null); (lit "b", Arr [Integer 1; Str [195; 169; 10]])].
Definition sample_text : str := Eval vm_compute in render sample.

(** C1: canonical text read back by the strict parser gives the canonical form of the value,
    and writing that form again gives the same bytes: canonical bytes are a fixed point of
    parse-then-write. *)
Theorem canonical_roundtrip nfc limits v out :
  limits_usize limits -> text_ok v ->
  canonical_json_with_limits nfc v limits = Ok out -> len out <= max_input_bytes limits ->
  parse_strict_with_limits nfc out limits = Ok (canonicalize v) /\
  canonical_json_with_limits nfc (canonicalize v) limits = Ok out.
Proof.
  intros Hu Ht (? & ? & ? & ? & ? & ->)%canonical_json_Ok Hl. split; [by apply parse_strict_render|].
  rewrite <- (render_canonicalize v) in *. apply canonical_json_fits; try done.
  - by apply domain_ok_canonicalize.
  - by apply shape_ok_canonicalize.
  - by rewrite node_count_canonicalize.
Qed.

Lemma canonical_roundtrip_witness :
  parse_strict_with_limits nfc_id sample_text default_limits = Ok (canonicalize sample) /\
  canonical_json_with_limits nfc_id (canonicalize sample) default_limits = Ok sample_text.
Proof.
  apply (canonical_roundtrip nfc_id default_limits sample sample_text).
  - by split_and!.
  - by split_and!.
  - vm_compute. reflexivity.
  - vm_compute. discriminate.
Defined.

(** Two values have the same canonical bytes exactly when they differ only in the order of
    object entries (at any depth): object identity neither depends on entry order nor
    confuses two different values. *)
Lemma canonical_bytes_identity nfc limits v w a b :
  limits_usize limits -> text_ok v -> text_ok w ->
  canonical_bytes_with_limits nfc v limits = Ok a -> canonical_bytes_with_limits nfc w limits = Ok b ->
  (a = b <-> reordered v w).
Proof.
  intros Hu Hv Hw (? & ? & ? & ? & ? & ->)%canonical_json_Ok (? & ? & ? & ? & ? & ->)%canonical_json_Ok.
  split.
  - intros E. apply canonicalize_reordered. by eapply render_inj.
  - intros R%(reordered_canonicalize nfc); [|done..].
    by rewrite <- (render_canonicalize v), <- (render_canonicalize w), R.
Qed.

(** The size pass is exact: when it accepts, the writer that runs after it succeeds with
    exactly the number of bytes it announced, within the limit, and the node counter is the
    number of values in the tree. *)
Lemma canonical_size_exact nfc limits v size nodes' :
  canonical_size nfc v 0 limits 0 = Ok (size, nodes') ->
  exists out, write_canonical nfc v [] = Ok out /\ len out = size /\
    size <= max_canonical_bytes limits /\ nodes' = node_count v /\ nodes' <= max_nodes limits.
Proof.
  intros [(? & ? & -> & -> & ?) ?]%canonical_size_Ok. exists (render v).
  rewrite write_canonical_spec by done. by split_and!.
Qed.

(** [canonical_json_with_limits] succeeds exactly on the values of the canonical domain
    (safe integers, distinct NFC keys) whose depth, container sizes, node count and text
    length are within the limits, and then returns the reference text. *)
Lemma canonical_json_domain nfc limits v out :
  limits_usize limits ->
  (canonical_json_with_limits nfc v limits = Ok out <->
   max_nesting_depth limits <= HARD_MAX_NESTING_DEPTH /\ domain_ok nfc v /\ shape_ok limits 0 v /\
   node_count v <= max_nodes limits /\ len (render v) <= max_canonical_bytes limits /\ out = render v).
Proof.
  intros Hu. split; [by apply canonical_json_Ok|]. intros (? & ? & ? & ? & ? & ->).
  by apply canonical_json_fits.
Qed.

(** C2: whatever the strict parser accepts is valid UTF-8 within the input limit, and the value
    it returns is in the canonical domain, made of valid strings, within the depth,
    container and node limits. *)
Theorem parse_strict_sound nfc limits input v :
  0 <= max_container_items limits -> parse_strict_with_limits nfc input limits = Ok v ->
  utf8_valid input = true /\ len input <= max_input_bytes limits /\
  domain_ok nfc v /\ text_ok v /\ shape_ok limits 0 v /\ node_count v <= max_nodes limits.
Proof.
  intros Hi (? & ? & ? & H)%parse_strict_with_limits_inv.
  by apply parse_text_Ok in H as (? & ? & ? & ? & ?).
Qed.

Lemma parse_strict_sound_witness :
  utf8_valid sample_text = true /\ len sample_text <= max_input_bytes default_limits /\
  domain_ok nfc_id sample' /\ text_ok sample' /\ shape_ok default_limits 0 sample' /\
  node_count sample' <= max_nodes default_limits.
Proof.
  apply (parse_strict_sound nfc_id default_limits sample_text sample').
  - vm_compute. discriminate.
  - vm_compute. reflexivity.
Defined.

(** The strict parser always answers: on any input its error is one of the protocol's error
    codes, never a panic (no [expect] fails) and never an exhausted recursion bound. *)
Lemma parse_strict_coded nfc limits input : coded (parse_strict_with_limits nfc input limits).
Proof.
  unfold parse_strict_with_limits.
  apply coded_bind; [unfold validate_limits; case_match; [apply coded_fail|apply coded_Ok]|intros _ _].
  do 2 (apply coded_bind; [case_match; [apply coded_fail|apply coded_Ok]|intros _ _]).
  apply coded_bind; [case_match; [apply coded_fail|apply coded_Ok]|intros ? E].
  destruct (negb (utf8_valid input)) eqn:Hv; [done|]. bool_props.
  apply coded_bind; [case_match; [apply coded_fail|apply coded_Ok]|intros _ _].
  unfold parse_text. apply coded_bind.
  - destruct (skip_whitespace_rest (mkp input 0)) as [Hl Hu]. cbn [rest] in *.
    destruct (decide (0 <= max_container_items limits)) as [Hi|Hi].
    + apply (proj1 (parse_coded nfc limits Hi _)); [by apply Hu|]. unfold parse_fuel. lia.
    + apply parse_value_small; [lia|by apply Hu|]. unfold parse_fuel. lia.
  - intros [v q] _. case_match; [apply coded_fail|apply coded_Ok].
Qed.

(** What the parser accepts under the default limits can be written, and the text read again. *)
Lemma accepted_text nfc input v :
  parse_strict nfc input = Ok v ->
  canonical_bytes nfc v = Ok (render v) /\ len (render v) <= len input /\
  parse_strict nfc (render v) = Ok (canonicalize v).
Proof.
  intros (? & ? & ? & H)%parse_strict_with_limits_inv.
  apply parse_text_Ok in H as (? & ? & ? & ? & ?); [|done]. split_and!; [|done|].
  - apply canonical_json_fits; [apply default_limits_usize|done..|]. cbn [max_canonical_bytes max_input_bytes default_limits] in *. lia.
  - apply parse_strict_render; [apply default_limits_usize|done..|]. lia.
Qed.

(** Every document accepted under the default limits has canonical bytes, no longer than
    the document itself, and those bytes are accepted again: ingestion never accepts a
    value it cannot identify. *)
Lemma accepted_input_canonicalizes nfc input v :
  parse_strict nfc input = Ok v ->
  exists out, canonical_bytes nfc v = Ok out /\ len out <= len input /\
    parse_strict nfc out = Ok (canonicalize v).
Proof.
  intros (? & ? & ?)%accepted_text. by exists (render v).
Qed.

