(* ===== verification/Oid.v ===== *)
(** * Object identifiers

    Models the [sg-oid-v1] part of crates/synapse-canonical/src/lib.rs:
    [ObjectKind], [parse_oid], [lower_hex], [structured_oid_unchecked], [blob_oid]
    and the two verifiers.  SHA-256 (the [sha2] crate) is the parameter
    [sha256]; what is used of it is that a digest is 32 bytes. *)

From stdpp Require Import base list numbers strings.
From Stdlib Require Import ZArith Lia.
From S2P Require Import Prelude Text TextFacts Canonical CanonicalWrite CanonicalLaws CanonicalProps.

#[local] Open Scope Z_scope.

Definition PROFILE_DOMAIN : str := lit "synapsegit/core/v0.1".

Inductive ObjectKind := Blob | Record | Tree | Commit.

#[export] Instance ObjectKind_eq_dec : EqDecision ObjectKind.
Proof. solve_decision. Defined.

Definition prefix (k : ObjectKind) : str :=
  match k with Blob => lit "blob" | Record => lit "record" | Tree => lit "tree" | Commit => lit "commit" end.

Definition is_structured (k : ObjectKind) : bool := negb (bool_decide (k = Blob)).

Definition kind_of_prefix (s : str) : option ObjectKind :=
  if str_eqb s (lit "blob") then Some Blob
  else if str_eqb s (lit "record") then Some Record
  else if str_eqb s (lit "tree") then Some Tree
  else if str_eqb s (lit "commit") then Some Commit
  else None.

Definition is_lower_hex (b : byte) : bool := is_ascii_digit b || ((97 <=? b) && (b <=? 102)).

Definition parse_oid (oid : str) : cresult ObjectKind :=
  let parts := split_on 58 oid in
  kind ← ok_or (head parts ≫= kind_of_prefix) (Core SchemaInvalid);
  if negb (bool_decide (parts !! 1%nat = Some (lit "sg-oid-v1"))) ||
     negb (bool_decide (parts !! 2%nat = Some (lit "sha256")))
  then fail SchemaInvalid
  else
    digest ← ok_or (parts !! 3%nat) (Core SchemaInvalid);
    if bool_decide (is_Some (parts !! 4%nat)) || negb (len digest =? 64) ||
       negb (forallb is_lower_hex digest)
    then fail SchemaInvalid
    else Ok kind.

Definition DIGITS : str := lit "0123456789abcdef".

Definition lower_hex (bytes : list byte) : str :=
  flat_map (fun byte => [nth (Z.to_nat (Z.shiftr byte 4)) DIGITS 0;
                         nth (Z.to_nat (Z.land byte 15)) DIGITS 0]) bytes.

Section Oid.
Variable sha256 : list byte -> list byte.
Variable nfc : list char -> list char.

Definition sha256_hex (bytes : list byte) : str := lower_hex (sha256 bytes).

Definition blob_oid (bytes : list byte) : str := lit "blob:sg-oid-v1:sha256:" ++ sha256_hex bytes.

(** The bytes hashed for a structured object. *)
Definition oid_preimage (object_type : str) (body : list byte) : list byte :=
  (PROFILE_DOMAIN ++ [0] ++ object_type ++ [0] ++ show_int (len body) ++ [0]) ++ body.

Definition structured_oid_unchecked_with_limits (value : Value) (limits : ResourceLimits) : cresult str :=
  object_type ← ok_or (get_str value (lit "object_type")) (Core SchemaInvalid);
  prefix ←
    (if str_eqb object_type (lit "record") then Ok (lit "record")
     else if str_eqb object_type (lit "tree") then Ok (lit "tree")
     else if str_eqb object_type (lit "commit") then Ok (lit "commit")
     else fail SchemaInvalid);
  body ← canonical_bytes_with_limits nfc value limits;
  Ok (prefix ++ lit ":sg-oid-v1:sha256:" ++ lower_hex (sha256 (oid_preimage object_type body))).

Definition structured_oid_unchecked (value : Value) : cresult str :=
  structured_oid_unchecked_with_limits value default_limits.

Definition verify_blob_oid (claimed_oid : str) (bytes : list byte) : cresult unit :=
  kind ← parse_oid claimed_oid;
  if negb (bool_decide (kind = Blob)) then fail OidMismatch
  else if negb (str_eqb claimed_oid (blob_oid bytes)) then fail OidMismatch
  else Ok tt.

Definition verify_claimed_oid_unchecked_with_limits (claimed_oid : str) (value : Value)
    (limits : ResourceLimits) : cresult unit :=
  expected ← structured_oid_unchecked_with_limits value limits;
  if negb (str_eqb claimed_oid expected) then fail OidMismatch else Ok tt.

Definition verify_claimed_oid_unchecked (claimed_oid : str) (value : Value) : cresult unit :=
  verify_claimed_oid_unchecked_with_limits claimed_oid value default_limits.

(** ** Facts *)

(** These two inputs are different and have the same digest. *)
Definition collides (m m' : list byte) : Prop := m <> m' /\ sha256 m = sha256 m'.

(** What [sha2] documents of its output. *)
Definition sha256_digest : Prop := forall m, length (sha256 m) = 32%nat /\ Forall is_u8 (sha256 m).

Lemma hex_pair_inj a b :
  is_u8 a -> is_u8 b ->
  nth (Z.to_nat (Z.shiftr a 4)) DIGITS 0 = nth (Z.to_nat (Z.shiftr b 4)) DIGITS 0 ->
  nth (Z.to_nat (Z.land a 15)) DIGITS 0 = nth (Z.to_nat (Z.land b 15)) DIGITS 0 -> a = b.
Proof.
  unfold is_u8. intros Ha Hb.
  rewrite !Z.shiftr_div_pow2 by lia. change 15 with (Z.ones 4). rewrite !Z.land_ones by lia.
  change (2 ^ 4) with 16. intros H1 H2.
  assert (NoDup DIGITS) as Hn by (by apply (bool_decide_unpack _); vm_compute).
  pose proof (Z.mod_pos_bound a 16 ltac:(lia)). pose proof (Z.mod_pos_bound b 16 ltac:(lia)).
  assert (0 <= a / 16 < 16) by (split; [apply Z.div_pos; lia|apply Z.div_lt_upper_bound; lia]).
  assert (0 <= b / 16 < 16) by (split; [apply Z.div_pos; lia|apply Z.div_lt_upper_bound; lia]).
  assert (forall i, (i < 16)%nat -> DIGITS !! i = Some (nth i DIGITS 0)) as Hnth.
  { intros i Hi. by destruct (nth_lookup_or_length DIGITS i 0) as [?|?%Nat.le_ngt]. }
  assert (forall i j, (i < 16)%nat -> (j < 16)%nat -> nth i DIGITS 0 = nth j DIGITS 0 -> i = j) as Hinj.
  { intros i j Hi Hj E. apply Hnth in Hi, Hj. rewrite <- E in Hj. by eapply (NoDup_lookup DIGITS). }
  apply Hinj in H1; [|lia..]. apply Hinj in H2; [|lia..].
  rewrite (Z.div_mod a 16), (Z.div_mod b 16) by lia. lia.
Qed.

Lemma lower_hex_inj a : forall b,
  Forall is_u8 a -> Forall is_u8 b -> lower_hex a = lower_hex b -> a = b.
Proof.
  induction a as [|x a IH]; intros [|y b] Ha Hb E; try done.
  inversion Ha; inversion Hb; subst. cbn [lower_hex flat_map app] in E. injection E as E1 E2 E.
  f_equal; [by apply hex_pair_inj|by apply IH].
Qed.

Lemma lower_hex_digit n : (n < 16)%nat -> is_lower_hex (nth n DIGITS 0) = true.
Proof. intros Hn. do 16 (destruct n as [|n]; [reflexivity|]). lia. Qed.

Lemma lower_hex_shape bs :
  Forall is_u8 bs -> len (lower_hex bs) = 2 * len bs /\ forallb is_lower_hex (lower_hex bs) = true.
Proof.
  induction 1 as [|b bs Hb _ [IHl IHd]]; [done|]. unfold is_u8 in Hb.
  assert ((Z.to_nat (Z.shiftr b 4) < 16)%nat).
  { rewrite Z.shiftr_div_pow2 by lia. change (2 ^ 4) with 16.
    pose proof (Z.div_lt_upper_bound b 16 16). pose proof (Z.div_pos b 16). lia. }
  assert ((Z.to_nat (Z.land b 15) < 16)%nat).
  { change 15 with (Z.ones 4). rewrite Z.land_ones by lia. change (2 ^ 4) with 16.
    pose proof (Z.mod_pos_bound b 16). lia. }
  split.
  - change (lower_hex (b :: bs)) with ([nth (Z.to_nat (Z.shiftr b 4)) DIGITS 0;
      nth (Z.to_nat (Z.land b 15)) DIGITS 0] ++ lower_hex bs). rewrite len_app, IHl, len_cons. len_lia.
  - cbn [lower_hex flat_map app forallb]. rewrite !lower_hex_digit by done. exact IHd.
Qed.

Lemma lower_hex_no_colon h : forallb is_lower_hex h = true -> 58 ∉ h.
Proof.
  intros H Hin. rewrite forallb_forall in H. apply list_elem_of_In, H in Hin. done.
Qed.

Lemma kind_of_prefix_prefix k : kind_of_prefix (prefix k) = Some k.
Proof. by destruct k. Qed.

(** The lexical form of an identifier. *)
Definition oid_text (k : ObjectKind) (digest : str) : str :=
  prefix k ++ lit ":sg-oid-v1:sha256:" ++ digest.

Lemma oid_text_split k digest :
  58 ∉ digest ->
  split_on 58 (oid_text k digest) = [prefix k; lit "sg-oid-v1"; lit "sha256"; digest].
Proof.
  intros Hd.
  assert (oid_text k digest = join_with [58] [prefix k; lit "sg-oid-v1"; lit "sha256"; digest]) as ->.
  { unfold oid_text. cbn [join_with]. by destruct k. }
  apply split_on_join; [done|]. repeat constructor; [..|done];
    apply contains_byte_false; by destruct k.
Qed.

Lemma parse_oid_text k digest :
  len digest = 64 -> forallb is_lower_hex digest = true -> parse_oid (oid_text k digest) = Ok k.
Proof.
  intros Hl Hd. unfold parse_oid. rewrite oid_text_split by (by apply lower_hex_no_colon).
  cbn [head mbind option_bind]. rewrite kind_of_prefix_prefix. cbn [ok_or mbind result_bind lookup list_lookup].
  rewrite !bool_decide_eq_true_2 by done. cbn [negb orb ok_or mbind result_bind].
  rewrite bool_decide_eq_false_2 by (by intros [? ?]). by rewrite Hl, Hd.
Qed.

Lemma parse_oid_Ok oid k :
  parse_oid oid = Ok k ->
  exists digest, oid = oid_text k digest /\ len digest = 64 /\ forallb is_lower_hex digest = true.
Proof.
  unfold parse_oid. intros H. pose proof (join_split_on 58 oid) as Hj. result_inv.
  set (parts := split_on 58 oid) in *. destruct parts as [|p0 [|p1 [|p2 [|p3 [|p4 ps]]]]];
    cbn [lookup list_lookup head mbind option_bind] in *; try done;
    (destruct (_ || _) eqn:E1 in H; [done|]); result_inv; try done.
  - destruct (_ || _ || _) eqn:E2 in H; [done|]. result_inv. bool_props. simplify_eq.
    eexists. split_and!; [|done..]. cbn [join_with].
    match goal with H : kind_of_prefix p0 = _ |- _ => unfold kind_of_prefix in H end.
    repeat case_match; simplify_eq;
      match goal with E : str_eqb p0 _ = true |- _ => apply str_eqb_eq in E as -> end; reflexivity.
Qed.

(** ** Domain separation *)

Lemma oid_preimage_inj t1 b1 t2 b2 :
  0 ∉ t1 -> 0 ∉ t2 -> oid_preimage t1 b1 = oid_preimage t2 b2 -> t1 = t2 /\ b1 = b2.
Proof.
  intros H1 H2 E. unfold oid_preimage in E. rewrite <- !app_assoc in E. apply app_inv_head in E.
  cbn [app] in E. injection E as E.
  apply sep_app_inj in E as [-> E]; [|done..]. apply sep_app_inj in E as [_ ->]; [done|..];
    apply show_int_not_nul; auto with synapse.
Qed.

Lemma structured_oid_Ok v limits oid :
  structured_oid_unchecked_with_limits v limits = Ok oid <->
  exists k body, is_structured k = true /\ get_str v (lit "object_type") = Some (prefix k) /\
    canonical_bytes_with_limits nfc v limits = Ok body /\
    oid = oid_text k (lower_hex (sha256 (oid_preimage (prefix k) body))).
Proof.
  unfold structured_oid_unchecked_with_limits. split.
  - intros H. result_inv. match goal with H : get_str _ _ = Some ?t |- _ => rename t into t0; rename H into Ht end.
    match goal with H : canonical_bytes_with_limits _ _ _ = Ok ?b |- _ => rename b into body end.
    repeat case_match; simplify_eq;
      match goal with E : str_eqb t0 _ = true |- _ => apply str_eqb_eq in E as -> end.
    + by exists Record, body.
    + by exists Tree, body.
    + by exists Commit, body.
  - intros (k & body & Hk & Ht & Hb & ->). rewrite Ht. cbn [ok_or mbind result_bind].
    destruct k; [done|..]; rewrite Hb; reflexivity.
Qed.

Lemma prefix_not_nul k : 0 ∉ prefix k.
Proof. apply contains_byte_false. by destruct k. Qed.

Lemma oid_text_inj k1 k2 d1 d2 : 58 ∉ d1 -> 58 ∉ d2 -> oid_text k1 d1 = oid_text k2 d2 -> k1 = k2 /\ d1 = d2.
Proof.
  intros H1 H2 E. apply (f_equal (split_on 58)) in E. rewrite !oid_text_split in E by done.
  injection E as E ->. split; [|done]. by destruct k1, k2.
Qed.
End Oid.

(** ** Properties *)

(** A stand-in digest for the witnesses: 32 bytes that depend on the length. *)
Definition toy_sha256 (m : list byte) : list byte := replicate 32 (len m mod 256).

Lemma toy_sha256_digest : sha256_digest toy_sha256.
Proof.
  intros m. split; [apply length_replicate|]. apply Forall_replicate. apply Z.mod_pos_bound. lia.
Qed.

Definition sample_record : Value :=
  Obj [(lit "object_type", Str (lit "record")); (lit "body", Arr [Integer 1])].
Definition sample_record' : Value :=
  Obj [(lit "body", Arr [Integer 1]); (lit "object_type", Str (lit "record"))].
Definition sample_oid : str := Eval vm_compute in
  match structured_oid_unchecked toy_sha256 nfc_id sample_record with Ok oid => oid | Err _ => [] end.

Lemma lower_hex_digest_no_colon sha256 m : sha256_digest sha256 -> 58 ∉ lower_hex (sha256 m).
Proof. intros H. apply lower_hex_no_colon, lower_hex_shape, H. Qed.

(** C4: an identifier names one object: if two structured objects have the same OID then they
    have the same object type, that of the identifier, and they are the same value up to the
    order of object entries, or else the very texts hashed for the two objects, domain, object
    type, length and canonical body, differ and have the same SHA-256 digest. *)
Theorem structured_oid_identity sha256 nfc limits v w oid :
  sha256_digest sha256 -> limits_usize limits -> text_ok v -> text_ok w ->
  structured_oid_unchecked_with_limits sha256 nfc v limits = Ok oid ->
  structured_oid_unchecked_with_limits sha256 nfc w limits = Ok oid ->
  exists k body body', is_structured k = true /\
    get_str v (lit "object_type") = Some (prefix k) /\ get_str w (lit "object_type") = Some (prefix k) /\
    canonical_bytes_with_limits nfc v limits = Ok body /\ canonical_bytes_with_limits nfc w limits = Ok body' /\
    oid = prefix k ++ lit ":sg-oid-v1:sha256:" ++ lower_hex (sha256 (oid_preimage (prefix k) body)) /\
    (reordered v w \/ collides sha256 (oid_preimage (prefix k) body) (oid_preimage (prefix k) body')).
Proof.
  intros Hs Hu Hv Hw (k & b & Hk & Ht & Hb & ->)%structured_oid_Ok (k' & b' & Hk' & Ht' & Hb' & E)%structured_oid_Ok.
  apply oid_text_inj in E as [<- E]; [|by apply lower_hex_digest_no_colon..].
  apply lower_hex_inj in E; [|apply Hs..]. exists k, b, b'. split_and!; [done..|].
  destruct (decide (oid_preimage (prefix k) b = oid_preimage (prefix k) b')) as [Ep|Hne].
  - apply oid_preimage_inj in Ep as [_ <-]; [|apply prefix_not_nul..]. left.
    apply canonical_json_Ok in Hb as (? & ? & ? & ? & ? & ->), Hb' as (? & ? & ? & ? & ? & E').
    apply canonicalize_reordered. by eapply render_inj.
  - right. by split.
Qed.

Lemma structured_oid_identity_witness :
  exists k body body', is_structured k = true /\
    get_str sample_record (lit "object_type") = Some (prefix k) /\ get_str sample_record' (lit "object_type") = Some (prefix k) /\
    canonical_bytes_with_limits nfc_id sample_record default_limits = Ok body /\
    canonical_bytes_with_limits nfc_id sample_record' default_limits = Ok body' /\
    sample_oid = prefix k ++ lit ":sg-oid-v1:sha256:" ++ lower_hex (toy_sha256 (oid_preimage (prefix k) body)) /\
    (reordered sample_record sample_record' \/ collides toy_sha256 (oid_preimage (prefix k) body) (oid_preimage (prefix k) body')).
Proof.
  apply (structured_oid_identity toy_sha256 nfc_id default_limits sample_record sample_record' sample_oid).
  - exact toy_sha256_digest.
  - by split_and!.
  - by split_and!.
  - by split_and!.
  - vm_compute. reflexivity.
  - vm_compute. reflexivity.
Defined.

(** The OID of a structured object is a well-formed identifier of the kind that its
    [object_type] names, and never a Blob identifier. *)
Lemma structured_oid_kind sha256 nfc limits v oid :
  sha256_digest sha256 -> structured_oid_unchecked_with_limits sha256 nfc v limits = Ok oid ->
  exists k, parse_oid oid = Ok k /\ is_structured k = true /\
    get_str v (lit "object_type") = Some (prefix k).
Proof.
  intros Hs (k & b & Hk & Ht & _ & ->)%structured_oid_Ok. exists k. split_and!; [|done..].
  destruct (Hs (oid_preimage (prefix k) b)) as [Hl Hd]. apply lower_hex_shape in Hd as [Hn Hd].
  apply parse_oid_text; [|done]. rewrite Hn. unfold len. by rewrite Hl.
Qed.

(** [verify_blob_oid] accepts exactly the OID of the supplied bytes, so two byte sequences
    verified against the same claimed OID are equal, or they collide. *)
Lemma verify_blob_oid_identity sha256 claimed a b :
  sha256_digest sha256 -> verify_blob_oid sha256 claimed a = Ok tt ->
  claimed = blob_oid sha256 a /\
  (verify_blob_oid sha256 claimed b = Ok tt <-> claimed = blob_oid sha256 b) /\
  (verify_blob_oid sha256 claimed b = Ok tt -> a = b \/ collides sha256 a b).
Proof.
  intros Hs H.
  assert (forall c, verify_blob_oid sha256 c b = Ok tt -> c = blob_oid sha256 b) as Hv.
  { intros c Hc. unfold verify_blob_oid in Hc. result_inv. repeat case_match; try done. bool_props. by apply str_eqb_eq. }
  assert (claimed = blob_oid sha256 a) as Ha.
  { unfold verify_blob_oid in H. result_inv. repeat case_match; try done. bool_props. by apply str_eqb_eq. }
  split_and!; [done|split; [apply Hv|]|].
  - intros E. unfold verify_blob_oid. destruct (Hs b) as [Hl Hd]. apply lower_hex_shape in Hd as [Hn Hd].
    assert (parse_oid claimed = Ok Blob) as ->.
    { rewrite E. apply (parse_oid_text Blob); [unfold sha256_hex; rewrite Hn; unfold len; by rewrite Hl|done]. }
    cbn [mbind result_bind].
    rewrite bool_decide_eq_true_2 by done. cbn [negb]. by rewrite (proj2 (str_eqb_eq _ _) E).
  - intros E%Hv. rewrite E in Ha. apply (oid_text_inj Blob Blob) in Ha as [_ Ha];
      [|by apply lower_hex_digest_no_colon..]. apply lower_hex_inj in Ha; [|apply Hs..].
    destruct (decide (a = b)) as [->|Hne]; [by left|]. right. by split.
Qed.

(** [parse_oid] accepts exactly the texts [<kind>:sg-oid-v1:sha256:<64 lower-case hex digits>]. *)
Lemma parse_oid_grammar oid k :
  parse_oid oid = Ok k <->
  exists digest, oid = prefix k ++ lit ":sg-oid-v1:sha256:" ++ digest /\ len digest = 64 /\
    Forall (fun b => 48 <= b <= 57 \/ 97 <= b <= 102) digest.
Proof.
  assert (forall d, forallb is_lower_hex d = true <-> Forall (fun b => 48 <= b <= 57 \/ 97 <= b <= 102) d) as Hf.
  { induction d as [|b d IH]; [by split|]. cbn [forallb]. rewrite andb_true_iff, IH, Forall_cons.
    unfold is_lower_hex. rewrite orb_true_iff, is_ascii_digit_spec, andb_true_iff, !Z.leb_le. tauto. }
  split.
  - intros (d & -> & ? & ?)%parse_oid_Ok. exists d. by rewrite <- Hf.
  - intros (d & -> & ? & ?). apply parse_oid_text; [done|]. by apply Hf.
Qed.
