(* ===== verification/RefStore.v ===== *)
(** * The Ref store

    Models crates/synapse-sqlite/src/lib.rs: the two SQLite tables [refs] and
    [ref_events] with their AUTOINCREMENT sequence, the lexical checks, the
    compare-and-swap transaction, reads, pagination, and archive export and
    restore.

    A SQL statement is a function on the tables: SELECT .. ORDER BY sorts rows,
    INSERT and UPDATE report the rows changed, and a constraint that fails is the
    error [Storage].  An operation takes the tables at the start of its
    transaction and returns those at the end of it: an error returns the tables
    it started from (the dropped transaction rolls back).  BEGIN IMMEDIATE makes
    transactions of several connections one sequence of such operations.  I/O
    errors of SQLite and the file handling around it are not modelled.  The
    object-store validator and the transaction guard are arguments. *)

From stdpp Require Import base list numbers strings gmap.
From Stdlib Require Import ZArith Lia.
From S2P Require Import Prelude Sorting Text BTree.

#[local] Open Scope Z_scope.

Definition DEFAULT_MAX_REF_ARCHIVE_REFS : Z := 100000.
Definition DEFAULT_MAX_REF_ARCHIVE_REFLOG_ENTRIES : Z := 100000.
Definition DEFAULT_MAX_REF_ARCHIVE_TEXT_BYTES : Z := 64 * 1024 * 1024.
Definition MAX_REFLOG_PAGE_ENTRIES : Z := 500.
Definition MAX_REF_SNAPSHOT_ENTRIES : Z := 100000.
Definition MAX_ACTOR_BYTES : Z := 1024.
Definition MAX_MESSAGE_BYTES : Z := 16 * 1024.
Definition COMMIT_OID_PREFIX : str := lit "commit:sg-oid-v1:sha256:".

Record RefRecord := { name : str; head : str; updated_event_id : Z }.

Record RefSnapshot := { refs : list RefRecord }.

Record ReflogEntry := {
  id : Z;
  ref_name : str;
  old_head : option str;
  new_head : str;
  occurred_at_unix_nanos : Z;
  actor : option str;
  message : option str;
}.

#[export] Instance RefRecord_eq_dec : EqDecision RefRecord.
Proof. solve_decision. Defined.
#[export] Instance ReflogEntry_eq_dec : EqDecision ReflogEntry.
Proof. solve_decision. Defined.

Record RefReadPage := {
  page_snapshot : RefSnapshot;
  entries : list ReflogEntry;
  next_after_event_id : option Z;
}.

Record RefTransitionEvidence := {
  evidence_snapshot : RefSnapshot;
  candidate_touch_count : Z;
  exact_transition_count : Z;
  exact_transition_entry : option ReflogEntry;
  latest_entry : option ReflogEntry;
}.

Record RefArchive := { snapshot : RefSnapshot; reflog : list ReflogEntry }.

Record RefArchiveExportLimits := { max_refs : Z; max_reflog_entries : Z; max_text_bytes : Z }.

Definition default_export_limits : RefArchiveExportLimits := {|
  max_refs := DEFAULT_MAX_REF_ARCHIVE_REFS;
  max_reflog_entries := DEFAULT_MAX_REF_ARCHIVE_REFLOG_ENTRIES;
  max_text_bytes := DEFAULT_MAX_REF_ARCHIVE_TEXT_BYTES;
|}.

Record ReflogMetadata := { md_occurred_at : Z; md_actor : option str; md_message : option str }.

Record RefUpdate := {
  u_ref_name : str;
  u_expected_head : option str;
  u_new_head : str;
  u_metadata : ReflogMetadata;
}.

Record RefPrecondition := { pre_ref_name : str; pre_expected_head : option str }.

(** [ValidationError] keeps its code. *)
Inductive RefStoreError :=
| ReadOnly
| InvalidRefName (value : str)
| InvalidCommitOid (value : str)
| InvalidMetadata
| Validation (code : str)
| RefConflict (r : str) (expected actual : option str)
| PreconditionFailed (r : str) (expected actual : option str)
| ArchiveNotEmpty
| ArchiveInvalid
| Storage.

#[export] Instance RefStoreError_eq_dec : EqDecision RefStoreError.
Proof. solve_decision. Defined.

Abbreviation rresult := (result RefStoreError).

Definition resource_limit : RefStoreError := Validation (lit "resource_limit").

(** ** Lexical checks *)

Definition valid_ref_segment (segment : str) : bool :=
  match segment with
  | [] => false
  | first :: others =>
    (1 <=? len segment) && (len segment <=? 128) &&
    (is_ascii_lowercase first || is_ascii_digit first) &&
    forallb (fun b => is_ascii_lowercase b || is_ascii_digit b ||
                      (b =? 46) || (b =? 95) || (b =? 58) || (b =? 45)) others
  end.

Definition valid_namespace (namespace : str) : bool :=
  existsb (str_eqb namespace)
    [lit "proposal"; lit "decision"; lit "release"; lit "observed"; lit "material-events"].

Definition validate_ref_name (n : str) : rresult unit :=
  let valid :=
    (len n <=? 500) &&
    match split_on 47 n with
    | [] => false
    | namespace :: rest =>
      valid_namespace namespace && negb (bool_decide (rest = [])) && forallb valid_ref_segment rest
    end in
  if valid then Ok tt else Err (InvalidRefName n).

Definition validate_commit_oid (oid : str) : rresult unit :=
  match strip_prefix COMMIT_OID_PREFIX oid with
  | Some digest =>
    if (len digest =? 64) && forallb (fun b => is_ascii_digit b || ((97 <=? b) && (b <=? 102))) digest
    then Ok tt else Err (InvalidCommitOid oid)
  | None => Err (InvalidCommitOid oid)
  end.

Definition validate_optional_oid (oid : option str) : rresult unit :=
  match oid with Some oid => validate_commit_oid oid | None => Ok tt end.

Definition opt_len (s : option str) : Z := match s with Some s => len s | None => 0 end.

Definition validate_metadata (actor message : option str) : rresult unit :=
  if opt_len actor >? MAX_ACTOR_BYTES then Err InvalidMetadata
  else if opt_len message >? MAX_MESSAGE_BYTES then Err InvalidMetadata
  else Ok tt.

(** ** Tables *)

Record Tables := {
  t_refs : gmap str (str * Z);        (* name -> (head, updated_event_id) *)
  t_events : list ReflogEntry;        (* rows of ref_events, in insertion order *)
  t_sequence : Z;                     (* largest id ever used *)
}.

Definition empty_tables : Tables := {| t_refs := ∅; t_events := []; t_sequence := 0 |}.

Definition record_of_row (row : str * (str * Z)) : RefRecord :=
  {| name := fst row; head := fst (snd row); updated_event_id := snd (snd row) |}.

Definition name_cmp (a b : RefRecord) : comparison := lex_compare (name a) (name b).
Definition id_cmp (a b : ReflogEntry) : comparison := (id a ?= id b).

(** SELECT .. FROM refs ORDER BY name ASC *)
Definition select_refs (t : Tables) : list RefRecord :=
  sort_by name_cmp (record_of_row <$> map_to_list (t_refs t)).

(** SELECT .. FROM ref_events WHERE .. ORDER BY id ASC *)
Definition select_events (p : ReflogEntry -> bool) (t : Tables) : list ReflogEntry :=
  sort_by id_cmp (List.filter p (t_events t)).

(** SELECT head FROM refs WHERE name = ?1 *)
Definition query_head (t : Tables) (n : str) : option str := fst <$> t_refs t !! n.

(** The row of ref_events a statement inserts, without its id. *)
Definition event_row (i : Z) (n : str) (old : option str) (new : str) (md : ReflogMetadata) : ReflogEntry :=
  {| id := i; ref_name := n; old_head := old; new_head := new;
     occurred_at_unix_nanos := md_occurred_at md; actor := md_actor md; message := md_message md |}.

Definition has_event (i : Z) (t : Tables) : bool := existsb (fun e => id e =? i) (t_events t).

(** INSERT INTO ref_events(..) without an id, and [last_insert_rowid]. *)
Definition insert_event (n : str) (old : option str) (new : str) (md : ReflogMetadata) (t : Tables)
  : rresult (Tables * Z) :=
  if t_sequence t >=? i64_max then Err Storage
  else
    let i := t_sequence t + 1 in
    Ok ({| t_refs := t_refs t; t_events := t_events t ++ [event_row i n old new md]; t_sequence := i |}, i).

(** INSERT INTO ref_events(id, ..) *)
Definition insert_event_with_id (e : ReflogEntry) (t : Tables) : rresult Tables :=
  if has_event (id e) t then Err Storage
  else Ok {| t_refs := t_refs t; t_events := t_events t ++ [e];
             t_sequence := Z.max (t_sequence t) (id e) |}.

(** UNIQUE(updated_event_id), against the rows of other Refs. *)
Definition event_id_unused (n : str) (i : Z) (t : Tables) : bool :=
  forallb (fun row => str_eqb (fst row) n || negb (snd (snd row) =? i)) (map_to_list (t_refs t)).

Definition write_ref (n h : str) (i : Z) (t : Tables) : Tables :=
  {| t_refs := <[n := (h, i)]> (t_refs t); t_events := t_events t; t_sequence := t_sequence t |}.

(** UPDATE refs SET head, updated_event_id WHERE name AND head *)
Definition update_ref (new : str) (i : Z) (n expected : str) (t : Tables) : rresult (Tables * Z) :=
  match t_refs t !! n with
  | Some (h, _) =>
    if negb (str_eqb h expected) then Ok (t, 0)
    else if has_event i t && event_id_unused n i t then Ok (write_ref n new i t, 1)
    else Err Storage
  | None => Ok (t, 0)
  end.

(** INSERT OR IGNORE INTO refs: a UNIQUE conflict skips the row, the foreign key does not. *)
Definition insert_or_ignore_ref (n h : str) (i : Z) (t : Tables) : rresult (Tables * Z) :=
  match t_refs t !! n with
  | Some _ => Ok (t, 0)
  | None =>
    if negb (event_id_unused n i t) then Ok (t, 0)
    else if has_event i t then Ok (write_ref n h i t, 1) else Err Storage
  end.

(** INSERT INTO refs *)
Definition insert_ref (r : RefRecord) (t : Tables) : rresult Tables :=
  match t_refs t !! name r with
  | Some _ => Err Storage
  | None =>
    if has_event (updated_event_id r) t && event_id_unused (name r) (updated_event_id r) t
    then Ok (write_ref (name r) (head r) (updated_event_id r) t) else Err Storage
  end.

(** ** Reads *)

Definition get (n : str) (t : Tables) : rresult (option RefRecord) :=
  validate_ref_name n;;
  Ok ((fun row => record_of_row (n, row)) <$> t_refs t !! n).

Definition load_snapshot (t : Tables) : RefSnapshot := {| refs := select_refs t |}.

(** The row loop of [load_snapshot_count_limited]. *)
Fixpoint push_limited (max : Z) (acc rows : list RefRecord) : rresult (list RefRecord) :=
  match rows with
  | [] => Ok acc
  | row :: rows => if len acc =? max then Err resource_limit else push_limited max (acc ++ [row]) rows
  end.

Definition load_snapshot_count_limited (max : Z) (t : Tables) : rresult RefSnapshot :=
  let row_limit := usize_saturating_add max 1 in
  if row_limit >? i64_max then Err resource_limit
  else
    refs ← push_limited max [] (take (Z.to_nat row_limit) (select_refs t));
    Ok {| refs := refs |}.

Definition snapshot_limited (max : Z) (t : Tables) : rresult RefSnapshot :=
  if max =? 0 then Err resource_limit else load_snapshot_count_limited max t.

Definition is_empty (t : Tables) : bool :=
  bool_decide (map_to_list (t_refs t) = []) && bool_decide (t_events t = []).

Definition for_ref (n : option str) (e : ReflogEntry) : bool :=
  match n with Some n => str_eqb (ref_name e) n | None => true end.

Definition load_reflog (n : option str) (t : Tables) : list ReflogEntry := select_events (for_ref n) t.

Definition reflog_for_ref (n : str) (t : Tables) : rresult (list ReflogEntry) :=
  validate_ref_name n;; Ok (load_reflog (Some n) t).

Definition load_reflog_page (n : option str) (after row_limit : Z) (t : Tables) : rresult (list ReflogEntry) :=
  if row_limit >? i64_max then Err resource_limit
  else Ok (take (Z.to_nat row_limit) (select_events (fun e => for_ref n e && (id e >? after)) t)).

Definition read_reflog_page (n : option str) (after : option Z) (limit : Z) (t : Tables)
  : rresult RefReadPage :=
  match n with Some n => validate_ref_name n | None => Ok tt end;;
  reject_if (match after with Some event_id => event_id <? 0 | None => false end) InvalidMetadata;;
  reject_if (negb ((1 <=? limit) && (limit <=? MAX_REFLOG_PAGE_ENTRIES))) resource_limit;;
  snap ← load_snapshot_count_limited MAX_REF_SNAPSHOT_ENTRIES t;
  rows ← load_reflog_page n (default 0 after) (limit + 1) t;
  let has_more := len rows >? limit in
  let rows := if has_more then removelast rows else rows in
  Ok {| page_snapshot := snap; entries := rows;
        next_after_event_id := if has_more then id <$> last rows else None |}.

Definition is_exact (n : str) (expected_old : option str) (candidate : str) (e : ReflogEntry) : bool :=
  str_eqb (ref_name e) n && bool_decide (old_head e = expected_old) && str_eqb (new_head e) candidate.

Definition read_ref_transition_evidence (n : str) (expected_old : option str) (candidate : str)
    (t : Tables) : rresult RefTransitionEvidence :=
  validate_ref_name n;;
  validate_optional_oid expected_old;;
  validate_commit_oid candidate;;
  snap ← load_snapshot_count_limited MAX_REF_SNAPSHOT_ENTRIES t;
  Ok {| evidence_snapshot := snap;
        candidate_touch_count := len (select_events (fun e =>
          str_eqb (ref_name e) n &&
          (bool_decide (old_head e = Some candidate) || str_eqb (new_head e) candidate)) t);
        exact_transition_count := len (select_events (is_exact n expected_old candidate) t);
        exact_transition_entry := last (select_events (is_exact n expected_old candidate) t);
        latest_entry := last (select_events (for_ref (Some n)) t) |}.

(** ** Compare and swap *)

Fixpoint validate_preconditions (preconditions : list RefPrecondition) : rresult unit :=
  match preconditions with
  | [] => Ok tt
  | p :: preconditions =>
    validate_ref_name (pre_ref_name p);;
    validate_optional_oid (pre_expected_head p);;
    validate_preconditions preconditions
  end.

Fixpoint check_preconditions (preconditions : list RefPrecondition) (t : Tables) : rresult unit :=
  match preconditions with
  | [] => Ok tt
  | p :: preconditions =>
    let actual_head := query_head t (pre_ref_name p) in
    if negb (bool_decide (actual_head = pre_expected_head p))
    then Err (PreconditionFailed (pre_ref_name p) (pre_expected_head p) actual_head)
    else check_preconditions preconditions t
  end.

(** What happens between BEGIN IMMEDIATE and COMMIT. *)
Definition cas_transaction (update : RefUpdate) (preconditions : list RefPrecondition)
    (guard : result str unit) (t : Tables) : rresult (Tables * ReflogEntry) :=
  map_err Validation guard;;
  check_preconditions preconditions t;;
  let current_head := query_head t (u_ref_name update) in
  reject_if (negb (bool_decide (current_head = u_expected_head update)))
    (RefConflict (u_ref_name update) (u_expected_head update) current_head);;
  '(t, event_id) ← insert_event (u_ref_name update) current_head (u_new_head update) (u_metadata update) t;
  '(t, changed) ←
    match u_expected_head update with
    | Some expected_head => update_ref (u_new_head update) event_id (u_ref_name update) expected_head t
    | None => insert_or_ignore_ref (u_ref_name update) (u_new_head update) event_id t
    end;
  reject_if (negb (changed =? 1))
    (RefConflict (u_ref_name update) (u_expected_head update) (query_head t (u_ref_name update)));;
  Ok (t, event_row event_id (u_ref_name update) current_head (u_new_head update) (u_metadata update)).

Record SqliteRefStore := { tables : Tables; read_only : bool }.

Definition commit_tables (t : Tables) (s : SqliteRefStore) : SqliteRefStore :=
  {| tables := t; read_only := read_only s |}.

Definition ensure_writable (s : SqliteRefStore) : rresult unit := reject_if (read_only s) ReadOnly.

(** Ends a transaction: commit on success, roll back on error. *)
Definition finish {A} (s : SqliteRefStore) (r : rresult (Tables * A)) : SqliteRefStore * rresult A :=
  match r with
  | Ok (t, a) => (commit_tables t s, Ok a)
  | Err e => (s, Err e)
  end.

Definition compare_and_swap_with_preconditions_and_guard (update : RefUpdate)
    (preconditions : list RefPrecondition) (validator : str -> result str unit)
    (guard : result str unit) (s : SqliteRefStore) : SqliteRefStore * rresult ReflogEntry :=
  finish s (
    ensure_writable s;;
    validate_ref_name (u_ref_name update);;
    validate_optional_oid (u_expected_head update);;
    validate_commit_oid (u_new_head update);;
    validate_metadata (md_actor (u_metadata update)) (md_message (u_metadata update));;
    validate_preconditions preconditions;;
    map_err Validation (validator (u_new_head update));;
    cas_transaction update preconditions guard (tables s)).

Definition compare_and_swap_with_preconditions (update : RefUpdate) (preconditions : list RefPrecondition)
    (validator : str -> result str unit) (s : SqliteRefStore) : SqliteRefStore * rresult ReflogEntry :=
  compare_and_swap_with_preconditions_and_guard update preconditions validator (Ok tt) s.

Definition compare_and_swap (update : RefUpdate) (validator : str -> result str unit) (s : SqliteRefStore)
  : SqliteRefStore * rresult ReflogEntry :=
  compare_and_swap_with_preconditions update [] validator s.

(** ** Archives *)

Definition export_archive (t : Tables) : RefArchive :=
  {| snapshot := load_snapshot t; reflog := load_reflog None t |}.

Record PreparedArchive := { p_refs : list RefRecord; p_reflog : list ReflogEntry; p_heads : list str }.

Fixpoint check_snapshot_refs (rs : list RefRecord) : rresult unit :=
  match rs with
  | [] => Ok tt
  | r :: rs =>
    map_err (fun _ => ArchiveInvalid) (validate_ref_name (name r));;
    map_err (fun _ => ArchiveInvalid) (validate_commit_oid (head r));;
    reject_if (updated_event_id r <=? 0) ArchiveInvalid;;
    check_snapshot_refs rs
  end.

Definition check_event (e : ReflogEntry) : rresult unit :=
  reject_if (id e <=? 0) ArchiveInvalid;;
  map_err (fun _ => ArchiveInvalid)
    (validate_ref_name (ref_name e);;
     validate_optional_oid (old_head e);;
     validate_commit_oid (new_head e);;
     validate_metadata (actor e) (message e)).

(** The loop over the sorted reflog: the chain state of every Ref, and the heads in order. *)
Fixpoint replay (events : list ReflogEntry) (final_state : gmap str (str * Z)) (heads : list str)
  : rresult (gmap str (str * Z) * list str) :=
  match events with
  | [] => Ok (final_state, heads)
  | e :: events =>
    check_event e;;
    reject_if (negb (bool_decide (old_head e = fst <$> final_state !! ref_name e))) ArchiveInvalid;;
    replay events (<[ref_name e := (new_head e, id e)]> final_state) (heads ++ [new_head e])
  end.

Fixpoint check_final (rs : list RefRecord) (final_state : gmap str (str * Z)) : rresult unit :=
  match rs with
  | [] => Ok tt
  | r :: rs =>
    match final_state !! name r with
    | None => Err ArchiveInvalid
    | Some (final_head, final_event_id) =>
      reject_if (negb (str_eqb final_head (head r)) || negb (final_event_id =? updated_event_id r)) ArchiveInvalid;;
      check_final rs final_state
    end
  end.

(** A [BTreeSet<String>] of the heads, in its iteration order. *)
Definition head_set (heads : list str) : list str := sort_dedup heads.

Definition prepare_archive (archive : RefArchive) : rresult PreparedArchive :=
  let rs := sort_by name_cmp (refs (snapshot archive)) in
  reject_if (adjacent_equal name_cmp rs) ArchiveInvalid;;
  check_snapshot_refs rs;;
  let log := sort_by id_cmp (reflog archive) in
  reject_if (adjacent_equal id_cmp log) ArchiveInvalid;;
  '(final_state, heads) ← replay log ∅ [];
  reject_if (negb (Z.of_nat (size final_state) =? len rs)) ArchiveInvalid;;
  check_final rs final_state;;
  Ok {| p_refs := rs; p_reflog := log; p_heads := head_set heads |}.

Definition add_ref_archive_text_bytes (total additional limit : Z) : rresult Z :=
  if total + additional >? 2 ^ 64 - 1 then Err resource_limit
  else if total + additional >? limit then Err resource_limit
  else Ok (total + additional).

Fixpoint load_snapshot_limited (rows : list RefRecord) (limits : RefArchiveExportLimits)
    (acc : list RefRecord) (text_bytes : Z) : rresult (list RefRecord * Z) :=
  match rows with
  | [] => Ok (acc, text_bytes)
  | row :: rows =>
    reject_if (len acc =? max_refs limits) resource_limit;;
    text_bytes ← add_ref_archive_text_bytes text_bytes (len (name row)) (max_text_bytes limits);
    load_snapshot_limited rows limits (acc ++ [row]) text_bytes
  end.

Definition entry_text_bytes (e : ReflogEntry) : option Z :=
  a ← usize_checked_add (len (ref_name e)) (opt_len (actor e));
  usize_checked_add a (opt_len (message e)).

Fixpoint load_reflog_limited (rows : list ReflogEntry) (limits : RefArchiveExportLimits)
    (acc : list ReflogEntry) (text_bytes : Z) : rresult (list ReflogEntry * Z) :=
  match rows with
  | [] => Ok (acc, text_bytes)
  | row :: rows =>
    reject_if (len acc =? max_reflog_entries limits) resource_limit;;
    n ← ok_or (entry_text_bytes row) resource_limit;
    text_bytes ← add_ref_archive_text_bytes text_bytes n (max_text_bytes limits);
    load_reflog_limited rows limits (acc ++ [row]) text_bytes
  end.

Definition export_archive_with_limits (limits : RefArchiveExportLimits) (t : Tables) : rresult RefArchive :=
  reject_if (max_refs limits =? 0) resource_limit;;
  reject_if (max_reflog_entries limits =? 0) resource_limit;;
  reject_if (max_text_bytes limits =? 0) resource_limit;;
  '(rs, text_bytes) ← load_snapshot_limited (select_refs t) limits [] 0;
  '(log, _) ← load_reflog_limited (select_events (fun _ => true) t) limits [] text_bytes;
  let archive := {| snapshot := {| refs := rs |}; reflog := log |} in
  prepare_archive archive;;
  Ok archive.

Fixpoint validate_heads (validator : str -> result str unit) (heads : list str) : rresult unit :=
  match heads with
  | [] => Ok tt
  | h :: heads => map_err Validation (validator h);; validate_heads validator heads
  end.

Fixpoint insert_events (events : list ReflogEntry) (t : Tables) : rresult Tables :=
  match events with
  | [] => Ok t
  | e :: events => t ← insert_event_with_id e t; insert_events events t
  end.

Fixpoint insert_refs (rs : list RefRecord) (t : Tables) : rresult Tables :=
  match rs with
  | [] => Ok t
  | r :: rs => t ← insert_ref r t; insert_refs rs t
  end.

(** [restore_archive] for a validation of the distinct heads, in their order. *)
Definition restore_archive_with (archive : RefArchive) (validate : list str -> rresult unit)
    (s : SqliteRefStore) : SqliteRefStore * rresult unit :=
  finish s (
    ensure_writable s;;
    prepared ← prepare_archive archive;
    validate (p_heads prepared);;
    reject_if (negb (is_empty (tables s))) ArchiveNotEmpty;;
    t ← insert_events (p_reflog prepared) (tables s);
    t ← insert_refs (p_refs prepared) t;
    Ok (t, tt)).

Definition restore_archive (archive : RefArchive) (validator : str -> result str unit)
    (s : SqliteRefStore) : SqliteRefStore * rresult unit :=
  restore_archive_with archive (validate_heads validator) s.
