(* ===== verification/RefStoreProps.v ===== *)
(** * Ref store: lemmas and properties *)

From stdpp Require Import base list numbers strings gmap sorting sets relations.
From Stdlib Require Import ZArith Lia.
From S2P Require Import Prelude Sorting Text TextFacts BTree PortablePath RefStore.

#[local] Open Scope Z_scope.

(** ** The Ref store invariant and the lemmas behind its properties *)

(** ** Orders *)

Lemma id_cmp_antisym a b : id_cmp b a = CompOpp (id_cmp a b).
Proof. apply Z.compare_antisym. Qed.

Lemma id_cmp_trans a b c : id_cmp a b = Lt -> id_cmp b c = Lt -> id_cmp a c = Lt.
Proof. unfold id_cmp. rewrite !Z.compare_lt_iff. lia. Qed.

Lemma name_cmp_antisym a b : name_cmp b a = CompOpp (name_cmp a b).
Proof. apply lex_compare_antisym. Qed.

Lemma name_cmp_trans a b c : name_cmp a b = Lt -> name_cmp b c = Lt -> name_cmp a c = Lt.
Proof. apply lex_compare_lt_trans. Qed.

(** ** The invariant *)

Definition ids_increase (events : list ReflogEntry) : Prop := Sorted (cmp_lt id_cmp) events.

(** The tables agree: the reflog is the complete, valid history of the Refs. *)
Record wf (t : Tables) : Prop := {
  wf_ids : ids_increase (t_events t);
  wf_sequence : t_sequence t = default 0 (id <$> last (t_events t));
  wf_i64 : t_sequence t <= i64_max;
  wf_replay : replay (t_events t) ∅ [] = Ok (t_refs t, new_head <$> t_events t);
}.

Lemma replay_app es fs m h :
  replay (es ++ fs) m h = ('(m, h) ← replay es m h; replay fs m h).
Proof.
  revert m h. induction es as [|e es IH]; intros m h; [done|]. cbn [app replay].
  destruct (check_event e) as [[]|]; [|done]. cbn [mbind result_bind].
  destruct (reject_if _ _) as [[]|]; [|done]. cbn [mbind result_bind]. apply IH.
Qed.

Lemma replay_Ok_heads es : forall m h m' h', replay es m h = Ok (m', h') -> h' = h ++ (new_head <$> es).
Proof.
  induction es as [|e es IH]; intros m h m' h' H; cbn [replay] in H; [simplify_eq; by rewrite app_nil_r|].
  result_inv. apply IH in H as ->. by rewrite <- app_assoc.
Qed.

(** The replayed map does not depend on the accumulated heads. *)
Lemma replay_heads_irrelevant es : forall m h k m' h',
  replay es m h = Ok (m', h') -> replay es m k = Ok (m', k ++ (new_head <$> es)).
Proof.
  induction es as [|e es IH]; intros m h k m' h' H; cbn [replay] in *; [simplify_eq; by rewrite app_nil_r|].
  destruct (check_event e) as [[]|]; [|done]. cbn [mbind result_bind] in *.
  destruct (reject_if _ _) as [[]|]; [|done]. cbn [mbind result_bind] in *.
  erewrite IH by exact H. by rewrite <- app_assoc.
Qed.

(** Every Ref's event is one of the replayed events, with its name and head. *)
Lemma replay_lookup es : forall m h m' h' n x i,
  replay es m h = Ok (m', h') -> m' !! n = Some (x, i) ->
  m !! n = Some (x, i) \/ exists e, e ∈ es /\ id e = i /\ ref_name e = n /\ new_head e = x.
Proof.
  induction es as [|e es IH]; intros m h m' h' n x i H Hn; cbn [replay] in H; [simplify_eq; by left|].
  result_inv. destruct (IH _ _ _ _ _ _ _ H Hn) as [Hm|(f & Hf & ?)].
  - destruct (decide (ref_name e = n)) as [<-|Hne].
    + rewrite lookup_insert_eq in Hm. simplify_eq. right. exists e. split; [by left|done].
    + rewrite lookup_insert_ne in Hm by done. by left.
  - right. exists f. split; [by right|done].
Qed.

Lemma check_event_id e u : check_event e = Ok u -> 0 < id e.
Proof. unfold check_event. intros H. result_inv. bool_props. lia. Qed.

Lemma replay_checked es : forall m h r, replay es m h = Ok r -> Forall (fun e => check_event e = Ok tt) es.
Proof.
  induction es as [|e es IH]; intros m h r H; [constructor|]. cbn [replay] in H. result_inv.
  constructor; [|by eapply IH]. by match goal with H : check_event e = Ok ?u |- _ => destruct u end.
Qed.

Lemma wf_positive t : wf t -> Forall (fun e => 0 < id e) (t_events t).
Proof.
  intros H. eapply Forall_impl; [by eapply replay_checked, wf_replay|]. cbn. intros e He. by apply check_event_id in He.
Qed.

Lemma last_elem {A} (l : list A) x : last l = Some x -> x ∈ l.
Proof. rewrite last_Some. intros [l' ->]. set_solver. Qed.

Lemma increasing_last es e f : ids_increase es -> last es = Some f -> e ∈ es -> id e <= id f.
Proof.
  intros Hs%sorted_strong Hl He; [|apply id_cmp_trans].
  apply last_Some in Hl as [es' ->]. apply elem_of_app in He as [He|He%list_elem_of_singleton]; [|by subst].
  induction es' as [|g es' IH]; [by apply not_elem_of_nil in He|]. inversion Hs as [|? ? Hs' Hg]; subst.
  apply elem_of_cons in He as [->|He]; [|by apply IH].
  rewrite Forall_forall in Hg. specialize (Hg f). unfold cmp_lt, id_cmp in Hg. rewrite Z.compare_lt_iff in Hg.
  apply Z.lt_le_incl, Hg. set_solver.
Qed.

Lemma wf_bounds t e : wf t -> e ∈ t_events t -> 0 < id e <= t_sequence t.
Proof.
  intros Hw He. pose proof (wf_positive t Hw) as Hp. rewrite Forall_forall in Hp. split; [by apply Hp|].
  rewrite (wf_sequence t Hw). destruct (last (t_events t)) as [f|] eqn:El.
  - cbn. eapply increasing_last; [apply Hw|done..].
  - apply last_None in El. rewrite El in He. by apply not_elem_of_nil in He.
Qed.

Lemma wf_sequence_nonneg t : wf t -> 0 <= t_sequence t.
Proof.
  intros Hw. rewrite (wf_sequence t Hw). destruct (last (t_events t)) as [f|] eqn:El; cbn; [|lia].
  apply last_elem in El. pose proof (wf_bounds t f Hw El). lia.
Qed.

Lemma wf_ref_event t n h i :
  wf t -> t_refs t !! n = Some (h, i) -> exists e, e ∈ t_events t /\ id e = i /\ ref_name e = n /\ new_head e = h.
Proof. intros Hw Hn. by destruct (replay_lookup _ _ _ _ _ _ _ _ (wf_replay t Hw) Hn). Qed.

(** ** Selecting from well-formed tables *)

Lemma sorted_filter {A} (R : A -> A -> Prop) p l :
  StronglySorted R l -> StronglySorted R (List.filter p l).
Proof.
  induction 1 as [|x l Hl IH Hx]; cbn; [constructor|]. destruct (p x); [|done]. constructor; [done|].
  rewrite Forall_forall in *. intros y Hy. apply Hx.
  apply list_elem_of_In, filter_In in Hy as [Hy _]. by apply list_elem_of_In.
Qed.

Lemma select_events_wf p t : wf t -> select_events p t = List.filter p (t_events t).
Proof.
  intros Hw. unfold select_events. apply sort_by_strict. apply StronglySorted_Sorted, sorted_filter.
  apply sorted_strong, Hw. apply id_cmp_trans.
Qed.

Lemma filter_true {A} (l : list A) : List.filter (fun _ => true) l = l.
Proof. induction l as [|x l IH]; cbn; [done|]. by rewrite IH. Qed.

Lemma select_all_events t : wf t -> select_events (fun _ => true) t = t_events t.
Proof. intros Hw. rewrite select_events_wf by done. apply filter_true. Qed.

Lemma record_of_row_inj a b : record_of_row a = record_of_row b -> a = b.
Proof. destruct a as [? [? ?]], b as [? [? ?]]. intros [= -> -> ->]. done. Qed.

Lemma ref_rows_unique (m : gmap str (str * Z)) x y :
  x ∈ record_of_row <$> map_to_list m -> y ∈ record_of_row <$> map_to_list m -> name_cmp x y = Eq -> x = y.
Proof.
  intros ([n a] & -> & Ha)%list_elem_of_fmap ([k b] & -> & Hb)%list_elem_of_fmap E.
  unfold name_cmp in E. apply lex_compare_eq in E. cbn in E. subst k.
  apply elem_of_map_to_list in Ha, Hb. by simplify_eq.
Qed.

Lemma ref_rows_NoDup (m : gmap str (str * Z)) : NoDup (record_of_row <$> map_to_list m).
Proof. apply NoDup_fmap_2; [intros ? ?; apply record_of_row_inj|apply NoDup_map_to_list]. Qed.

Lemma select_refs_sorted t : Sorted (cmp_lt name_cmp) (select_refs t).
Proof.
  unfold select_refs. set (l := record_of_row <$> map_to_list (t_refs t)).
  pose proof (sort_by_sorted name_cmp name_cmp_antisym l) as Hs.
  pose proof (sort_by_perm name_cmp l) as Hp.
  apply adjacent_equal_strict; [done|].
  assert (NoDup (sort_by name_cmp l)) as Hn by (rewrite Hp; apply ref_rows_NoDup).
  assert (forall x y, x ∈ sort_by name_cmp l -> y ∈ sort_by name_cmp l -> name_cmp x y = Eq -> x = y) as Hu.
  { intros x y. rewrite !Hp. apply ref_rows_unique. }
  clear Hs Hp. revert Hn Hu. generalize (sort_by name_cmp l). clear l.
  induction l as [|x l IH]; intros Hn Hu; [done|]. destruct l as [|y l]; [done|]. cbn [adjacent_equal].
  apply NoDup_cons in Hn as [Hx Hn]. destruct (name_cmp x y) eqn:E.
  - apply Hu in E; [|set_solver..]. subst. set_solver.
  - apply IH; [done|]. intros a b ? ?. apply Hu; set_solver.
  - apply IH; [done|]. intros a b ? ?. apply Hu; set_solver.
Qed.

Lemma select_refs_elem t n h i :
  {| name := n; head := h; updated_event_id := i |} ∈ select_refs t <-> t_refs t !! n = Some (h, i).
Proof.
  unfold select_refs. rewrite sort_by_perm, list_elem_of_fmap. split.
  - intros ([k [a b]] & [= -> -> ->] & H). by apply elem_of_map_to_list.
  - intros H. exists (n, (h, i)). split; [done|]. by apply elem_of_map_to_list.
Qed.

Lemma len_select_refs t : len (select_refs t) = Z.of_nat (size (t_refs t)).
Proof.
  unfold len, select_refs. rewrite sort_by_perm, length_fmap. by rewrite length_map_to_list.
Qed.

(** ** Compare and swap *)

Definition cas_entry (update : RefUpdate) (t : Tables) : ReflogEntry :=
  event_row (t_sequence t + 1) (u_ref_name update) (u_expected_head update) (u_new_head update) (u_metadata update).

Definition cas_tables (update : RefUpdate) (t : Tables) : Tables := {|
  t_refs := <[u_ref_name update := (u_new_head update, t_sequence t + 1)]> (t_refs t);
  t_events := t_events t ++ [cas_entry update t];
  t_sequence := t_sequence t + 1;
|}.

Definition precondition_holds (t : Tables) (p : RefPrecondition) : Prop :=
  query_head t (pre_ref_name p) = pre_expected_head p.

Lemma check_preconditions_Ok ps t u : check_preconditions ps t = Ok u <-> Forall (precondition_holds t) ps.
Proof.
  destruct u. induction ps as [|p ps IH]; cbn [check_preconditions]; [by split|].
  rewrite Forall_cons. unfold precondition_holds at 1. case_bool_decide as E; cbn [negb].
  - rewrite IH. naive_solver.
  - split; [done|]. naive_solver.
Qed.

Lemma event_id_unused_fresh n i t : wf t -> t_sequence t < i -> event_id_unused n i t = true.
Proof.
  intros Hw Hi. unfold event_id_unused. apply forallb_forall. intros [k [h j]] Hin.
  apply orb_true_iff. right. cbn. apply negb_true_iff, Z.eqb_neq.
  apply list_elem_of_In, elem_of_map_to_list in Hin.
  destruct (wf_ref_event _ _ _ _ Hw Hin) as (e & He & <- & _). pose proof (wf_bounds _ _ Hw He). lia.
Qed.

Lemma has_event_app i t e r s : id e = i -> has_event i {| t_refs := r; t_events := t_events t ++ [e]; t_sequence := s |} = true.
Proof.
  intros <-. unfold has_event. cbn [t_events]. rewrite existsb_app. cbn. by rewrite Z.eqb_refl, orb_true_r.
Qed.

Lemma cas_transaction_Ok update ps guard t r :
  wf t ->
  cas_transaction update ps guard t = Ok r <->
  guard = Ok tt /\ Forall (precondition_holds t) ps /\ query_head t (u_ref_name update) = u_expected_head update /\
  t_sequence t < i64_max /\ r = (cas_tables update t, cas_entry update t).
Proof.
  intros Hw. unfold cas_transaction. destruct guard as [[]|c]; cbn [map_err mbind result_bind]; [|naive_solver].
  destruct (check_preconditions ps t) as [u|e] eqn:Ep.
  2: { split; [done|]. intros (_ & Hps & _). apply (check_preconditions_Ok ps t tt) in Hps. congruence. }
  apply check_preconditions_Ok in Ep. cbn [mbind result_bind].
  case_bool_decide as Eh; cbn [negb reject_if mbind result_bind]; [|naive_solver].
  rewrite !Eh. unfold insert_event. rewrite Z.geb_leb.
  destruct (Z.leb_spec i64_max (t_sequence t)); cbn [mbind result_bind].
  { split; [done|]. intros (_ & _ & _ & ? & _). lia. }
  set (t1 := {| t_refs := t_refs t; t_events := _; t_sequence := _ |}).
  assert (has_event (t_sequence t + 1) t1 = true) as He1 by (by apply has_event_app).
  assert (event_id_unused (u_ref_name update) (t_sequence t + 1) t1 = true) as Hu1.
  { change (event_id_unused (u_ref_name update) (t_sequence t + 1) t1)
      with (event_id_unused (u_ref_name update) (t_sequence t + 1) t). apply event_id_unused_fresh; [done|lia]. }
  assert (match u_expected_head update with
          | Some expected => update_ref (u_new_head update) (t_sequence t + 1) (u_ref_name update) expected t1
          | None => insert_or_ignore_ref (u_ref_name update) (u_new_head update) (t_sequence t + 1) t1
          end = Ok (cas_tables update t, 1)) as ->.
  { unfold query_head in Eh. unfold update_ref, insert_or_ignore_ref. rewrite Hu1, He1. cbn [negb andb].
    change (t_refs t1) with (t_refs t).
    destruct (t_refs t !! u_ref_name update) as [[h i]|]; cbn in Eh; rewrite <- Eh.
    - by rewrite (proj2 (str_eqb_eq h h) eq_refl).
    - done. }
  cbn [mbind result_bind]. change (negb (1 =? 1)) with false. cbn [reject_if mbind result_bind].
  split; [intros [= <-]; by split_and!|]. by intros (_ & _ & _ & _ & ->).
Qed.

Lemma cas_transaction_Err update ps guard t e :
  wf t -> cas_transaction update ps guard t = Err e ->
  (exists c, guard = Err c /\ e = Validation c) \/
  (exists p, p ∈ ps /\ ~ precondition_holds t p /\
     e = PreconditionFailed (pre_ref_name p) (pre_expected_head p) (query_head t (pre_ref_name p))) \/
  (query_head t (u_ref_name update) <> u_expected_head update /\
     e = RefConflict (u_ref_name update) (u_expected_head update) (query_head t (u_ref_name update))) \/
  (t_sequence t = i64_max /\ e = Storage).
Proof.
  intros Hw H. destruct guard as [[]|c]; [|left; exists c; split; [done|]; by injection H as <-]. right.
  destruct (check_preconditions ps t) as [u|e'] eqn:Ep.
  2: { left. unfold cas_transaction in H. rewrite Ep in H. cbn in H. simplify_eq.
       clear Hw. induction ps as [|p ps IH]; [done|]. cbn [check_preconditions] in Ep.
       case_bool_decide as E; cbn [negb] in Ep.
       - destruct (IH Ep) as (q & ? & ?). exists q. split; [by right|done].
       - simplify_eq. exists p. split_and!; [by left|done..]. }
  right. destruct (decide (query_head t (u_ref_name update) = u_expected_head update)) as [Eh|Eh].
  - right. destruct (decide (t_sequence t < i64_max)) as [Hs|Hs].
    + apply check_preconditions_Ok in Ep.
      assert (cas_transaction update ps (Ok tt) t = Ok (cas_tables update t, cas_entry update t)) as E
        by (apply cas_transaction_Ok; [done|]; by split_and!). congruence.
    + split; [pose proof (wf_i64 t Hw); lia|]. unfold cas_transaction in H. rewrite Ep in H.
      cbn [map_err mbind result_bind] in H. rewrite bool_decide_eq_true_2 in H by done.
      cbn [negb reject_if mbind result_bind] in H. unfold insert_event in H.
      rewrite Z.geb_leb, (proj2 (Z.leb_le _ _)) in H by lia. by simplify_eq/=.
  - left. split; [done|]. unfold cas_transaction in H. rewrite Ep in H. cbn [map_err mbind result_bind] in H.
    rewrite bool_decide_eq_false_2 in H by done. by simplify_eq/=.
Qed.

Lemma sorted_snoc es e : ids_increase es -> Forall (fun f => id f < id e) es -> ids_increase (es ++ [e]).
Proof.
  intros Hs Hf. unfold ids_increase in *.
  induction Hs as [|f es Hs IH Hd]; cbn [app]; [by repeat constructor|].
  inversion Hf; subst. constructor; [by apply IH|].
  destruct es as [|g es]; cbn [app]; constructor; [by apply Z.compare_lt_iff|]. by inversion Hd.
Qed.

Definition update_valid (update : RefUpdate) : Prop :=
  validate_ref_name (u_ref_name update) = Ok tt /\ validate_optional_oid (u_expected_head update) = Ok tt /\
  validate_commit_oid (u_new_head update) = Ok tt /\
  validate_metadata (md_actor (u_metadata update)) (md_message (u_metadata update)) = Ok tt.

Lemma cas_tables_wf update t :
  wf t -> update_valid update -> query_head t (u_ref_name update) = u_expected_head update ->
  t_sequence t < i64_max -> wf (cas_tables update t).
Proof.
  intros Hw (Hn & Ho & Hc & Hm) Hh Hs. pose proof (wf_sequence_nonneg t Hw). constructor; cbn [cas_tables t_events t_sequence t_refs].
  - apply sorted_snoc; [apply Hw|]. apply Forall_forall. intros e He. cbn. pose proof (wf_bounds t e Hw He). lia.
  - by rewrite last_snoc.
  - lia.
  - rewrite replay_app, (wf_replay t Hw). cbn [mbind result_bind replay].
    assert (check_event (cas_entry update t) = Ok tt) as ->.
    { unfold check_event. cbn [cas_entry event_row id ref_name old_head new_head actor message].
      rewrite (proj2 (Z.leb_gt _ 0)) by lia. cbn [reject_if mbind result_bind]. rewrite Hn, Ho, Hc. cbn. by rewrite Hm. }
    cbn [mbind result_bind cas_entry event_row old_head ref_name new_head id].
    rewrite bool_decide_eq_true_2 by done. cbn [negb reject_if mbind result_bind]. by rewrite fmap_app.
Qed.

Lemma finish_Ok {A} s (r : rresult (Tables * A)) s' a :
  finish s r = (s', Ok a) <-> exists t, r = Ok (t, a) /\ s' = commit_tables t s.
Proof. destruct r as [[t b]|e]; cbn; split; [intros [= <- <-]|intros (? & [= <- <-] & ->)|..]; naive_solver. Qed.

Lemma finish_Err {A} s (r : rresult (Tables * A)) s' e : finish s r = (s', Err e) <-> r = Err e /\ s' = s.
Proof. destruct r as [[t b]|c]; cbn; naive_solver. Qed.

Lemma unit_Ok {E} (r : result E unit) u : r = Ok u <-> r = Ok tt.
Proof. by destruct u. Qed.

Lemma cas_Ok_inv update ps validator guard s s' e :
  compare_and_swap_with_preconditions_and_guard update ps validator guard s = (s', Ok e) ->
  read_only s = false /\ update_valid update /\ validate_preconditions ps = Ok tt /\ validator (u_new_head update) = Ok tt /\
  exists t, cas_transaction update ps guard (tables s) = Ok (t, e) /\ s' = commit_tables t s.
Proof.
  intros (t & H & ->)%finish_Ok. unfold ensure_writable in H. result_inv.
  unfold update_valid. repeat match goal with x : unit |- _ => destruct x end.
  split_and!; [done..|]. by exists t.
Qed.

(** ** Archives *)

Lemma increasing_app_inv es fs e f : ids_increase (es ++ fs) -> e ∈ es -> f ∈ fs -> id e < id f.
Proof.
  intros Hs%sorted_strong He Hf; [|apply id_cmp_trans].
  induction es as [|g es IH]; [by apply not_elem_of_nil in He|]. inversion Hs as [|? ? Hs' Hg]; subst.
  apply elem_of_cons in He as [->|He]; [|by apply IH]. rewrite Forall_forall in Hg.
  specialize (Hg f). unfold cmp_lt, id_cmp in Hg. rewrite Z.compare_lt_iff in Hg. apply Hg. set_solver.
Qed.

Lemma increasing_ids_unique es e f : ids_increase es -> e ∈ es -> f ∈ es -> id e = id f -> e = f.
Proof.
  intros Hs He Hf E. apply list_elem_of_split in He as (l & r & ->).
  apply elem_of_app in Hf as [Hf|Hf].
  - pose proof (increasing_app_inv _ _ f e Hs Hf ltac:(set_solver)). lia.
  - apply elem_of_cons in Hf as [->|Hf]; [done|]. rewrite cons_middle, app_assoc in Hs.
    pose proof (increasing_app_inv _ _ e f Hs ltac:(set_solver) Hf). lia.
Qed.

Lemma insert_events_Ok es : forall t,
  ids_increase (t_events t ++ es) ->
  exists seq, insert_events es t = Ok {| t_refs := t_refs t; t_events := t_events t ++ es; t_sequence := seq |} /\
    seq = foldl (fun m e => Z.max m (id e)) (t_sequence t) es.
Proof.
  induction es as [|e es IH]; intros t Hs; cbn [insert_events].
  - exists (t_sequence t). rewrite app_nil_r. by destruct t.
  - unfold insert_event_with_id.
    assert (has_event (id e) t = false) as ->.
    { unfold has_event. apply not_true_iff_false. rewrite existsb_exists. intros (f & Hf & E).
      apply list_elem_of_In in Hf. pose proof (increasing_app_inv _ _ f e Hs Hf ltac:(by left)). bool_props. lia. }
    cbn [mbind result_bind]. rewrite cons_middle, app_assoc in Hs.
    destruct (IH {| t_refs := t_refs t; t_events := t_events t ++ [e]; t_sequence := Z.max (t_sequence t) (id e) |} Hs)
      as (seq & -> & E). exists seq. cbn [t_refs t_events t_sequence] in *. by rewrite <- app_assoc.
Qed.

Lemma foldl_max_last es : forall m,
  Forall (fun e => m <= id e) es -> ids_increase es ->
  foldl (fun m e => Z.max m (id e)) m es = default m (id <$> last es).
Proof.
  induction es as [|e es IH]; intros m Hf Hs; [done|]. inversion Hf; subst. cbn [foldl].
  rewrite Z.max_r by done. inversion Hs as [|? ? Hs' _]; subst. rewrite IH; [|..|done].
  - destruct es as [|f es]; [done|]. change (last (e :: f :: es)) with (last (f :: es)).
    by destruct (last (f :: es)) eqn:El; [|by apply last_None in El].
  - apply Forall_forall. intros f Hf'. pose proof (increasing_app_inv [e] es e f Hs ltac:(by left) Hf'). lia.
Qed.

Section InsertRefs.
Variables (es : list ReflogEntry) (m : gmap str (str * Z)).
Hypothesis increasing : ids_increase es.
Hypothesis replayed : exists h, replay es ∅ [] = Ok (m, h).

Lemma replayed_event n x i : m !! n = Some (x, i) -> exists e, e ∈ es /\ id e = i /\ ref_name e = n /\ new_head e = x.
Proof. intros Hn. destruct replayed as [h Hr]. by destruct (replay_lookup _ _ _ _ _ _ _ _ Hr Hn). Qed.

Definition record_in (r : RefRecord) : Prop := m !! name r = Some (head r, updated_event_id r).

Lemma insert_refs_Ok rs : forall t,
  t_events t = es -> t_refs t ⊆ m -> Forall record_in rs -> NoDup (map name rs) ->
  (forall r, r ∈ rs -> t_refs t !! name r = None) ->
  exists refs', insert_refs rs t = Ok {| t_refs := refs'; t_events := es; t_sequence := t_sequence t |} /\
    refs' ⊆ m /\ size refs' = (size (t_refs t) + length rs)%nat.
Proof.
  induction rs as [|r rs IH]; intros t Ht Hsub Hin Hn Hnew; cbn [insert_refs].
  - exists (t_refs t). rewrite <- Ht. destruct t. split_and!; [done..|]. cbn. lia.
  - apply Forall_cons in Hin as [Hr Hin']. cbn [map] in Hn. apply NoDup_cons in Hn as [Hnr Hn].
    unfold insert_ref. rewrite (Hnew r) by (by left).
    assert (has_event (updated_event_id r) t = true) as ->.
    { destruct (replayed_event _ _ _ Hr) as (e & He & <- & _). unfold has_event. apply existsb_exists.
      exists e. rewrite Ht. split; [by apply list_elem_of_In|by apply Z.eqb_refl]. }
    assert (event_id_unused (name r) (updated_event_id r) t = true) as ->.
    { unfold event_id_unused. apply forallb_forall. intros [k [h j]] Hk%list_elem_of_In%elem_of_map_to_list.
      cbn. apply orb_true_iff. destruct (decide (k = name r)) as [->|Hne]; [left; by apply str_eqb_eq|]. right.
      apply negb_true_iff, Z.eqb_neq. intros ->. apply Hne.
      eapply lookup_weaken in Hk; [|exact Hsub].
      destruct (replayed_event _ _ _ Hk) as (e & He & Hi & <- & _), (replayed_event _ _ _ Hr) as (f & Hf & Hj & <- & _).
      f_equal. eapply increasing_ids_unique; [exact increasing|done|done|congruence]. }
    cbn [andb mbind result_bind].
    destruct (IH (write_ref (name r) (head r) (updated_event_id r) t)) as (refs' & -> & Hs & Hsz); [done|..|done|done| |].
    + cbn. apply insert_subseteq_l; [done|done].
    + intros q Hq. cbn. rewrite lookup_insert_ne; [apply Hnew; by right|].
      intros E. apply Hnr. rewrite E. apply list_elem_of_fmap. by exists q.
    + exists refs'. split_and!; [done..|]. rewrite Hsz. cbn. rewrite map_size_insert_None by (apply Hnew; by left). lia.
Qed.
End InsertRefs.

Lemma check_final_Ok rs m u : check_final rs m = Ok u <-> Forall (record_in m) rs.
Proof.
  destruct u. induction rs as [|r rs IH]; cbn [check_final]; [by split|]. rewrite Forall_cons. unfold record_in at 1.
  destruct (m !! name r) as [[h i]|]; [|naive_solver].
  destruct (str_eqb h (head r)) eqn:E1; cbn [negb orb reject_if mbind result_bind].
  2: { split; [done|]. intros [[= -> ->] _]. by rewrite (proj2 (str_eqb_eq _ _) eq_refl) in E1. }
  apply str_eqb_eq in E1 as ->. destruct (Z.eqb_spec i (updated_event_id r)) as [->|Hne]; cbn [negb reject_if mbind result_bind].
  - rewrite IH. naive_solver.
  - naive_solver.
Qed.

Lemma sorted_names_NoDup rs : Sorted (cmp_lt name_cmp) rs -> NoDup (map name rs).
Proof.
  intros Hs%sorted_strong; [|apply name_cmp_trans]. induction Hs as [|r rs _ IH Hr]; cbn; constructor; [|done].
  intros (q & E & Hq)%list_elem_of_fmap. rewrite Forall_forall in Hr. specialize (Hr q Hq).
  unfold cmp_lt, name_cmp in Hr. rewrite E, lex_compare_refl in Hr. done.
Qed.

(** What an accepted archive establishes. *)
Definition archive_consistent (p : PreparedArchive) (m : gmap str (str * Z)) : Prop :=
  Sorted (cmp_lt name_cmp) (p_refs p) /\ ids_increase (p_reflog p) /\
  replay (p_reflog p) ∅ [] = Ok (m, new_head <$> p_reflog p) /\
  Z.of_nat (size m) = len (p_refs p) /\ Forall (record_in m) (p_refs p) /\
  p_heads p = head_set (new_head <$> p_reflog p).

Lemma prepare_archive_Ok archive p :
  prepare_archive archive = Ok p ->
  p_refs p ≡ₚ refs (snapshot archive) /\ p_reflog p ≡ₚ reflog archive /\ exists m, archive_consistent p m.
Proof.
  unfold prepare_archive. intros H. result_inv. bool_props.
  match goal with H : check_final _ _ = _ |- _ => apply check_final_Ok in H end.
  match goal with H : replay _ _ _ = Ok (?m, ?h) |- _ => pose proof (replay_Ok_heads _ _ _ _ _ H) as Hh; cbn [app] in Hh; subst h end.
  cbn. split_and!; [apply sort_by_perm..|]. eexists. split_and!; [..|done|done|done|done]; cbn.
  - apply adjacent_equal_strict; [|done]. apply sort_by_sorted, name_cmp_antisym.
  - apply adjacent_equal_strict; [|done]. apply sort_by_sorted, id_cmp_antisym.
Qed.

Lemma restore_tables p m t :
  archive_consistent p m -> Forall (fun e => id e <= i64_max) (p_reflog p) -> is_empty t = true -> wf t ->
  exists t', (t ← insert_events (p_reflog p) t; insert_refs (p_refs p) t) = Ok t' /\
    wf t' /\ t_refs t' = m /\ t_events t' = p_reflog p.
Proof.
  intros (Hrs & Hids & Hrep & Hsz & Hin & _) Hi64 He Hw. unfold is_empty in He. bool_props.
  destruct t as [r es seq]. cbn in *. subst es. pose proof (wf_sequence _ Hw) as Hseq. cbn in Hseq. subst seq.
  apply map_to_list_empty_iff in H as ->.
  destruct (insert_events_Ok (p_reflog p) empty_tables Hids) as (seq & E & Hseq). cbn [t_events empty_tables t_refs app t_sequence] in E, Hseq.
  change {| t_refs := ∅; t_events := []; t_sequence := 0 |} with empty_tables. rewrite E. cbn [mbind result_bind].
  assert (Forall (fun e => 0 < id e) (p_reflog p)) as Hpos.
  { eapply Forall_impl; [by eapply replay_checked|]. cbn. intros e ?%check_event_id. done. }
  rewrite foldl_max_last in Hseq; [|eapply Forall_impl; [exact Hpos|]; cbn; lia|done].
  destruct (insert_refs_Ok (p_reflog p) m Hids (ex_intro _ _ Hrep) (p_refs p)
    {| t_refs := ∅; t_events := p_reflog p; t_sequence := seq |}) as (refs' & -> & Hsub & Hsize).
  { done. } { apply map_empty_subseteq. } { done. } { by apply sorted_names_NoDup. } { done. }
  assert (refs' = m) as ->.
  { apply map_subseteq_size_eq; [done|]. cbn in Hsize. rewrite map_size_empty in Hsize. unfold len in Hsz. lia. }
  eexists. split_and!; [done| |done|done]. constructor; cbn; [done|done| |done].
  rewrite Hseq. destruct (last (p_reflog p)) as [e|] eqn:El; cbn; [|done].
  apply last_elem in El. rewrite Forall_forall in Hi64. by apply Hi64.
Qed.

(** ** The Ref store: the properties

    The invariant of every reachable store, compare-and-swap against its
    abstract specification (a map from Ref names to heads), archive round trip,
    and paging. *)

(** The abstract store: the head of every Ref. *)
Definition heads (t : Tables) : gmap str str := fst <$> t_refs t.

Lemma heads_lookup t n : heads t !! n = query_head t n.
Proof. unfold heads, query_head. apply lookup_fmap. Qed.

Lemma heads_cas update t : heads (cas_tables update t) = <[u_ref_name update := u_new_head update]> (heads t).
Proof. unfold heads. cbn. by rewrite fmap_insert. Qed.

(** ** Reachable stores *)

Definition archive_i64 (archive : RefArchive) : Prop := Forall (fun e => id e <= i64_max) (reflog archive).

(** One operation of one connection; a connection may be reopened read-only or writable. *)
Inductive step : SqliteRefStore -> SqliteRefStore -> Prop :=
| step_cas update ps validator guard s s' r :
    compare_and_swap_with_preconditions_and_guard update ps validator guard s = (s', r) -> step s s'
| step_restore archive validator s s' r :
    archive_i64 archive -> restore_archive archive validator s = (s', r) -> step s s'
| step_reopen s mode : step s {| tables := tables s; read_only := mode |}.

Definition initial : SqliteRefStore := {| tables := empty_tables; read_only := false |}.

Definition reachable (s : SqliteRefStore) : Prop := rtc step initial s.

Lemma wf_empty : wf empty_tables.
Proof. constructor; try done. constructor. Qed.

Lemma restore_Ok_inv archive validator s s' :
  restore_archive archive validator s = (s', Ok tt) ->
  read_only s = false /\ is_empty (tables s) = true /\
  exists p t, prepare_archive archive = Ok p /\ validate_heads validator (p_heads p) = Ok tt /\
    (t ← insert_events (p_reflog p) (tables s); insert_refs (p_refs p) t) = Ok t /\ s' = commit_tables t s.
Proof.
  intros (t & H & ->)%finish_Ok. unfold ensure_writable in H. result_inv. bool_props. split_and!; [done..|].
  do 2 eexists. split_and!; [done|..|done].
  - by match goal with H : validate_heads _ _ = Ok ?u |- _ => destruct u end.
  - match goal with H : insert_events _ _ = _ |- _ => rewrite H end. done.
Qed.

Lemma step_wf s s' : step s s' -> wf (tables s) -> wf (tables s').
Proof.
  intros Hs Hw. destruct Hs as [update ps validator guard s s' [e|err] H|archive validator s s' [[]|err] Hi H|s mode].
  - apply cas_Ok_inv in H as (_ & Hv & _ & _ & t & Ht & ->).
    apply cas_transaction_Ok in Ht as (_ & _ & ? & ? & [= -> _]); [|done]. by apply cas_tables_wf.
  - apply finish_Err in H as [_ ->]. done.
  - apply restore_Ok_inv in H as (_ & He & p & t & Hp & _ & Ht & ->).
    apply prepare_archive_Ok in Hp as (_ & Hlog & m & Hc).
    destruct (restore_tables p m (tables s) Hc) as (t' & E & Hw' & _); [|done|done|].
    + unfold archive_i64 in Hi. by rewrite Hlog.
    + rewrite E in Ht. by simplify_eq.
  - apply finish_Err in H as [_ ->]. done.
  - done.
Qed.

Lemma reachable_wf s : reachable s -> wf (tables s).
Proof.
  intros H. apply (rtc_ind_r (fun s => wf (tables s)) initial) in H; [done|apply wf_empty|].
  intros a b _ Hs Ha. by eapply step_wf.
Qed.

(** C37: in every reachable store (any sequence of compare-and-swaps, restores of arbitrary
    archives and reopenings, failed ones included) the reflog is the exact history of the Refs:
    event ids are positive and strictly increasing up to the sequence counter, every event is
    lexically valid and starts from the head the previous one left, and replaying the reflog
    from nothing gives precisely the current Refs with the ids of their last events. *)
Theorem ref_store_invariant s :
  reachable s ->
  ids_increase (t_events (tables s)) /\
  Forall (fun e => check_event e = Ok tt /\ 0 < id e <= t_sequence (tables s)) (t_events (tables s)) /\
  replay (t_events (tables s)) ∅ [] = Ok (t_refs (tables s), new_head <$> t_events (tables s)).
Proof.
  intros Hw%reachable_wf. split_and!; [apply Hw| |apply Hw]. apply Forall_forall. intros e He. split.
  - pose proof (replay_checked _ _ _ _ (wf_replay _ Hw)) as Hc. rewrite Forall_forall in Hc. by apply Hc.
  - by apply wf_bounds.
Qed.

(** *** A sample store *)

Definition sample_oid_a : str := Eval vm_compute in COMMIT_OID_PREFIX ++ replicate 64 97.
Definition sample_oid_b : str := Eval vm_compute in COMMIT_OID_PREFIX ++ replicate 64 98.
Definition sample_md : ReflogMetadata := {| md_occurred_at := 7; md_actor := Some (lit "me"); md_message := None |}.
Definition sample_update : RefUpdate :=
  {| u_ref_name := lit "proposal/x"; u_expected_head := None; u_new_head := sample_oid_a; u_metadata := sample_md |}.
Definition sample_update2 : RefUpdate :=
  {| u_ref_name := lit "proposal/x"; u_expected_head := Some sample_oid_a; u_new_head := sample_oid_b; u_metadata := sample_md |}.
Definition accept : str -> result str unit := fun _ => Ok tt.
Definition store1 : SqliteRefStore := (compare_and_swap sample_update accept initial).1.
Definition store2 : SqliteRefStore := (compare_and_swap sample_update2 accept store1).1.

Lemma store1_reachable : reachable store1.
Proof.
  eapply rtc_once, (step_cas sample_update [] accept (Ok tt)). unfold store1, compare_and_swap, compare_and_swap_with_preconditions.
  apply surjective_pairing.
Qed.

Lemma store2_reachable : reachable store2.
Proof.
  eapply rtc_r; [exact store1_reachable|]. eapply (step_cas sample_update2 [] accept (Ok tt)).
  unfold store2, compare_and_swap, compare_and_swap_with_preconditions. apply surjective_pairing.
Qed.

Lemma ref_store_invariant_witness :
  ids_increase (t_events (tables store2)) /\
  Forall (fun e => check_event e = Ok tt /\ 0 < id e <= t_sequence (tables store2)) (t_events (tables store2)) /\
  replay (t_events (tables store2)) ∅ [] = Ok (t_refs (tables store2), new_head <$> t_events (tables store2)).
Proof. apply (ref_store_invariant store2). exact store2_reachable. Defined.

(** C38: compare-and-swap refines the abstract store.  A success means the guard and the
    validator agreed, every precondition and the expected head held in the state the
    transaction saw, exactly this Ref's head changed, and exactly one reflog entry, with an id
    above all earlier ones and the given metadata, was appended.  Any failure leaves Refs and
    reflog untouched. *)
Theorem cas_refines update ps validator guard s s' r :
  reachable s ->
  compare_and_swap_with_preconditions_and_guard update ps validator guard s = (s', r) ->
  match r with
  | Ok e =>
    read_only s = false /\ validator (u_new_head update) = Ok tt /\ guard = Ok tt /\
    Forall (fun p => heads (tables s) !! pre_ref_name p = pre_expected_head p) ps /\
    heads (tables s) !! u_ref_name update = u_expected_head update /\
    heads (tables s') = <[u_ref_name update := u_new_head update]> (heads (tables s)) /\
    t_events (tables s') = t_events (tables s) ++ [e] /\
    Forall (fun f => id f < id e) (t_events (tables s)) /\
    e = event_row (id e) (u_ref_name update) (u_expected_head update) (u_new_head update) (u_metadata update)
  | Err _ => s' = s
  end.
Proof.
  intros Hw%reachable_wf H. destruct r as [e|err]; [|by apply finish_Err in H as [_ ->]].
  apply cas_Ok_inv in H as (? & Hv & _ & ? & t & Ht & ->).
  apply cas_transaction_Ok in Ht as (? & Hp & Hh & ? & [= -> ->]); [|done].
  rewrite heads_lookup. split_and!; [done|done|done| |done| | | |].
  - eapply Forall_impl; [exact Hp|]. cbn. intros p ?. by rewrite heads_lookup.
  - apply heads_cas.
  - done.
  - apply Forall_forall. intros f Hf. pose proof (wf_bounds _ _ Hw Hf). cbn. lia.
  - done.
Qed.

Lemma cas_refines_witness :
  match (compare_and_swap sample_update2 accept store1).2 with
  | Ok e =>
    read_only store1 = false /\ accept sample_oid_b = Ok tt /\ @Ok str unit tt = Ok tt /\
    Forall (fun p => heads (tables store1) !! pre_ref_name p = pre_expected_head p) [] /\
    heads (tables store1) !! lit "proposal/x" = Some sample_oid_a /\
    heads (tables store2) = <[lit "proposal/x" := sample_oid_b]> (heads (tables store1)) /\
    t_events (tables store2) = t_events (tables store1) ++ [e] /\
    Forall (fun f => id f < id e) (t_events (tables store1)) /\
    e = event_row (id e) (lit "proposal/x") (Some sample_oid_a) sample_oid_b sample_md
  | Err _ => store2 = store1
  end.
Proof.
  apply (cas_refines sample_update2 [] accept (Ok tt) store1 store2).
  - exact store1_reachable.
  - apply surjective_pairing.
Defined.

(** C39: compare-and-swap succeeds whenever it should: a writable store, valid names, OIDs and
    metadata, an accepting validator and guard, preconditions and expected head that hold, and
    an event counter that is not exhausted. *)
Theorem cas_succeeds update ps validator guard s :
  reachable s -> read_only s = false -> update_valid update -> validate_preconditions ps = Ok tt ->
  validator (u_new_head update) = Ok tt -> guard = Ok tt ->
  Forall (fun p => heads (tables s) !! pre_ref_name p = pre_expected_head p) ps ->
  heads (tables s) !! u_ref_name update = u_expected_head update ->
  t_sequence (tables s) < i64_max ->
  exists e, compare_and_swap_with_preconditions_and_guard update ps validator guard s
    = (commit_tables (cas_tables update (tables s)) s, Ok e).
Proof.
  intros Hw%reachable_wf Hro (Hn & Ho & Hc & Hm) Hps Hval -> Hp Hh Hs. exists (cas_entry update (tables s)).
  unfold compare_and_swap_with_preconditions_and_guard, ensure_writable. rewrite Hro, Hn, Ho, Hc, Hm, Hps, Hval.
  cbn [reject_if map_err mbind result_bind].
  assert (cas_transaction update ps (Ok tt) (tables s) = Ok (cas_tables update (tables s), cas_entry update (tables s))) as ->.
  { apply cas_transaction_Ok; [done|]. rewrite heads_lookup in Hh. split_and!; [done| |done..].
    eapply Forall_impl; [exact Hp|]. cbn. intros p. by rewrite heads_lookup. }
  done.
Qed.

Lemma cas_succeeds_witness :
  exists e, compare_and_swap_with_preconditions_and_guard sample_update2
      [{| pre_ref_name := lit "decision/y"; pre_expected_head := None |}] accept (Ok tt) store1
    = (commit_tables (cas_tables sample_update2 (tables store1)) store1, Ok e).
Proof.
  apply (cas_succeeds sample_update2 [{| pre_ref_name := lit "decision/y"; pre_expected_head := None |}]).
  - exact store1_reachable.
  - vm_compute. reflexivity.
  - split_and!; vm_compute; reflexivity.
  - vm_compute. reflexivity.
  - reflexivity.
  - reflexivity.
  - constructor; [vm_compute; reflexivity|constructor].
  - vm_compute. reflexivity.
  - vm_compute. reflexivity.
Defined.

(** Of two writers that start from the same expected head at most one wins: once the first
    has moved the Ref away from that head, the second is told [RefConflict] with the head the
    first one wrote, and changes nothing. *)
Lemma cas_race update1 update2 ps validator guard s s1 s2 e r :
  reachable s -> u_ref_name update2 = u_ref_name update1 ->
  u_expected_head update2 = u_expected_head update1 -> Some (u_new_head update1) <> u_expected_head update1 ->
  compare_and_swap update1 validator s = (s1, Ok e) ->
  update_valid update2 -> validator (u_new_head update2) = Ok tt -> guard = Ok tt -> ps = [] ->
  compare_and_swap_with_preconditions_and_guard update2 ps validator guard s1 = (s2, r) ->
  r = Err (RefConflict (u_ref_name update1) (u_expected_head update1) (Some (u_new_head update1))) /\ s2 = s1.
Proof.
  intros Hw%reachable_wf En Eo Hne H (Hn & Ho & Hc & Hm) Hval -> -> H2.
  unfold compare_and_swap, compare_and_swap_with_preconditions in H.
  apply cas_Ok_inv in H as (Hro & _ & _ & _ & t & Ht & ->).
  apply cas_transaction_Ok in Ht as (_ & _ & _ & _ & [= -> _]); [|done].
  unfold compare_and_swap_with_preconditions_and_guard, ensure_writable in H2. cbn [commit_tables read_only tables] in H2.
  rewrite Hro, Hn, Ho, Hc, Hm, Hval in H2. cbn [reject_if map_err mbind result_bind validate_preconditions] in H2.
  unfold cas_transaction in H2. cbn [map_err check_preconditions mbind result_bind] in H2.
  assert (query_head (cas_tables update1 (tables s)) (u_ref_name update2) = Some (u_new_head update1)) as Eq.
  { rewrite <- heads_lookup, heads_cas, En. apply lookup_insert_eq. }
  rewrite Eq, bool_decide_eq_false_2 in H2 by congruence. cbn in H2. simplify_eq. by rewrite En, Eo.
Qed.

(** ** Archives *)

Lemma wf_record t r : wf t -> r ∈ select_refs t ->
  record_in (t_refs t) r /\ exists e, check_event e = Ok tt /\ ref_name e = name r /\ new_head e = head r /\ id e = updated_event_id r.
Proof.
  intros Hw Hr. assert (record_in (t_refs t) r) as Hin by (destruct r; by apply select_refs_elem). split; [done|].
  destruct (wf_ref_event _ _ _ _ Hw Hin) as (e & He & Hi & Hn & Hh). exists e. split_and!; [|done..].
  pose proof (replay_checked _ _ _ _ (wf_replay _ Hw)) as Hc. rewrite Forall_forall in Hc. by apply Hc.
Qed.

Lemma check_snapshot_refs_Ok rs :
  Forall (fun r => exists e, check_event e = Ok tt /\ ref_name e = name r /\ new_head e = head r /\ id e = updated_event_id r) rs ->
  check_snapshot_refs rs = Ok tt.
Proof.
  induction 1 as [|r rs (e & He & En & Eh & Ei) _ IH]; [done|]. cbn [check_snapshot_refs].
  unfold check_event in He. result_inv. bool_props. repeat match goal with u : unit |- _ => destruct u end.
  rewrite <- En, <- Eh, <- Ei.
  repeat match goal with H : _ = Ok tt |- _ => rewrite H; clear H; cbn [map_err mbind result_bind] end.
  rewrite (proj2 (Z.leb_gt _ _)) by lia. done.
Qed.

Lemma prepare_export t :
  wf t -> prepare_archive (export_archive t) =
    Ok {| p_refs := select_refs t; p_reflog := t_events t; p_heads := head_set (new_head <$> t_events t) |}.
Proof.
  intros Hw. unfold prepare_archive, export_archive, load_snapshot, load_reflog. cbn [snapshot reflog refs].
  change (for_ref None) with (fun _ : ReflogEntry => true). rewrite select_all_events by done.
  rewrite (sort_by_strict name_cmp) by apply select_refs_sorted.
  rewrite (strict_adjacent_equal name_cmp) by apply select_refs_sorted. cbn [reject_if mbind result_bind].
  rewrite check_snapshot_refs_Ok.
  2: { apply Forall_forall. intros r Hr. by apply (wf_record t r). }
  cbn [mbind result_bind]. rewrite (sort_by_strict id_cmp) by apply Hw.
  rewrite (strict_adjacent_equal id_cmp) by apply Hw. cbn [reject_if mbind result_bind].
  rewrite (wf_replay t Hw). cbn [mbind result_bind]. rewrite len_select_refs, Z.eqb_refl.
  cbn [negb reject_if mbind result_bind].
  rewrite (proj2 (check_final_Ok (select_refs t) (t_refs t) tt)); [done|].
  apply Forall_forall. intros r Hr. by apply (wf_record t r).
Qed.

Lemma validate_heads_Ok validator hs : Forall (fun h => validator h = Ok tt) hs -> validate_heads validator hs = Ok tt.
Proof. induction 1 as [|h hs Hh _ IH]; [done|]. cbn [validate_heads]. by rewrite Hh. Qed.

Lemma head_set_elem h hs : h ∈ head_set hs <-> h ∈ hs.
Proof. apply elem_of_sort_dedup. Qed.

Lemma restore_export_with t s validate :
  wf t -> wf (tables s) -> is_empty (tables s) = true -> read_only s = false ->
  restore_archive_with (export_archive t) validate s =
    finish s (validate (head_set (new_head <$> t_events t));; Ok (t, tt)).
Proof.
  intros Hw Hws He Hro. pose proof (prepare_export t Hw) as Hp.
  pose proof (prepare_archive_Ok _ _ Hp) as (_ & _ & m & Hc).
  destruct (restore_tables _ m (tables s) Hc) as (t' & Ht & Hw' & Hm & Hev); [|done..|].
  { apply Forall_forall. intros e Hin. pose proof (wf_bounds t e Hw Hin). pose proof (wf_i64 t Hw). lia. }
  assert (t' = t) as ->.
  { destruct Hc as (_ & _ & Hrep & _). cbn in Hrep. rewrite (wf_replay t Hw) in Hrep. simplify_eq.
    pose proof (wf_sequence _ Hw) as S1. pose proof (wf_sequence _ Hw') as S2. cbn in Hev. rewrite Hev in S2.
    destruct t as [r1 e1 q1], t' as [r2 e2 q2]. cbn in *. congruence. }
  unfold restore_archive_with, ensure_writable. rewrite Hro, Hp. cbn [reject_if mbind result_bind p_heads p_reflog p_refs] in *.
  destruct (validate _) as [[]|e]; cbn [mbind result_bind]; [|done].
  rewrite He. cbn [negb reject_if mbind result_bind].
  apply bind_Ok in Ht as (t1 & -> & Ht). cbn [mbind result_bind]. by rewrite Ht.
Qed.

Lemma restore_export t s validator :
  wf t -> wf (tables s) -> is_empty (tables s) = true -> read_only s = false ->
  Forall (fun e => validator (new_head e) = Ok tt) (t_events t) ->
  restore_archive (export_archive t) validator s = (commit_tables t s, Ok tt).
Proof.
  intros Hw Hws He Hro Hv. unfold restore_archive. rewrite restore_export_with by done.
  rewrite validate_heads_Ok; [done|]. apply Forall_forall. intros h Hh. rewrite head_set_elem in Hh.
  apply list_elem_of_fmap in Hh as (e & -> & Hin). rewrite Forall_forall in Hv. by apply Hv.
Qed.

(** A restore that succeeds is one whose validator accepts every head. *)
Lemma restore_with_Ok archive validate s s' :
  restore_archive_with archive validate s = (s', Ok tt) ->
  restore_archive archive (fun _ => Ok tt) s = (s', Ok tt) /\
  exists p, prepare_archive archive = Ok p /\ validate (p_heads p) = Ok tt.
Proof.
  unfold restore_archive, restore_archive_with. intros H. pose proof (proj1 (finish_Ok _ _ _ _) H) as (t & Ht & _).
  apply bind_Ok in Ht as (u & Hw & (p & Hp & ([] & Hv & _)%bind_Ok)%bind_Ok). rewrite Hw, Hp in *. cbn [mbind result_bind] in *.
  rewrite Hv in H. cbn [mbind result_bind] in H. rewrite validate_heads_Ok by (by apply Forall_true). split; [done|]. by exists p.
Qed.

Lemma restore_with_Err archive validate s s' e : restore_archive_with archive validate s = (s', Err e) -> s' = s.
Proof. by intros [_ ->]%finish_Err. Qed.

(** Export then restore is the identity: the archive of any reachable store is accepted by
    any empty writable store whose object store validates the archived heads, and the restored
    tables (Refs, reflog with its event ids, and event counter) are equal to the exported ones. *)
Lemma archive_roundtrip source target validator :
  reachable source -> reachable target -> is_empty (tables target) = true -> read_only target = false ->
  Forall (fun e => validator (new_head e) = Ok tt) (t_events (tables source)) ->
  restore_archive (export_archive (tables source)) validator target
  = (commit_tables (tables source) target, Ok tt).
Proof. intros Hs%reachable_wf Ht%reachable_wf ? ? ?. by apply restore_export. Qed.

(** *** Bounded export *)

Lemma load_snapshot_limited_Ok rows limits : forall acc tb rs tb',
  load_snapshot_limited rows limits acc tb = Ok (rs, tb') -> rs = acc ++ rows.
Proof.
  induction rows as [|r rows IH]; intros acc tb rs tb' H; cbn [load_snapshot_limited] in H.
  - simplify_eq. by rewrite app_nil_r.
  - result_inv. apply IH in H as ->. by rewrite <- app_assoc.
Qed.

Lemma load_reflog_limited_Ok rows limits : forall acc tb rs tb',
  load_reflog_limited rows limits acc tb = Ok (rs, tb') -> rs = acc ++ rows.
Proof.
  induction rows as [|r rows IH]; intros acc tb rs tb' H; cbn [load_reflog_limited] in H.
  - simplify_eq. by rewrite app_nil_r.
  - result_inv. apply IH in H as ->. by rewrite <- app_assoc.
Qed.

(** A limited export that succeeds exports everything. *)
Lemma limited_export_Ok limits t archive : export_archive_with_limits limits t = Ok archive -> archive = export_archive t.
Proof.
  unfold export_archive_with_limits. intros H. result_inv.
  repeat match goal with x : (_ * Z)%type |- _ => destruct x end. result_inv.
  match goal with H : load_snapshot_limited _ _ _ _ = _ |- _ => apply load_snapshot_limited_Ok in H as -> end.
  match goal with H : load_reflog_limited _ _ _ _ = _ |- _ => apply load_reflog_limited_Ok in H as -> end.
  done.
Qed.

Definition limited {A} (r : rresult A) : Prop := forall e, r = Err e -> e = resource_limit.

Lemma limited_bind {A B} (m : rresult A) (f : A -> rresult B) :
  limited m -> (forall a, m = Ok a -> limited (f a)) -> limited (m ≫= f).
Proof. intros Hm Hf e [He|(a & Ha & He)]%bind_Err; [by apply Hm|by eapply Hf]. Qed.

Lemma limited_Ok {A} (a : A) : limited (Ok a).
Proof. by intros e H. Qed.

Lemma limited_reject b : limited (reject_if b resource_limit).
Proof. destruct b; intros e H; by simplify_eq/=. Qed.

Lemma limited_text t n l : limited (add_ref_archive_text_bytes t n l).
Proof. unfold add_ref_archive_text_bytes. intros e H. repeat case_match; by simplify_eq. Qed.

Lemma limited_ok_or {A} (o : option A) : limited (ok_or o resource_limit).
Proof. destruct o; intros e H; by simplify_eq/=. Qed.

#[local] Hint Resolve limited_bind limited_Ok limited_reject limited_text limited_ok_or : synapse.

Lemma limited_load_snapshot rows limits : forall acc tb, limited (load_snapshot_limited rows limits acc tb).
Proof. induction rows as [|r rows IH]; intros acc tb; cbn [load_snapshot_limited]; auto 10 with synapse. Qed.

Lemma limited_load_reflog rows limits : forall acc tb, limited (load_reflog_limited rows limits acc tb).
Proof. induction rows as [|r rows IH]; intros acc tb; cbn [load_reflog_limited]; auto 10 with synapse. Qed.

(** The bounded export of a reachable store returns the complete archive or nothing: a
    success is exactly [export_archive] (so it restores), and the only failure is
    [resource_limit]; validation of its own archive never fails. *)
Lemma bounded_export_exact s limits :
  reachable s ->
  match export_archive_with_limits limits (tables s) with
  | Ok archive => archive = export_archive (tables s)
  | Err e => e = resource_limit
  end.
Proof.
  intros Hw%reachable_wf.
  assert (limited (export_archive_with_limits limits (tables s)) /\
    forall a, export_archive_with_limits limits (tables s) = Ok a -> a = export_archive (tables s)) as [He Ho].
  { unfold export_archive_with_limits. pose proof (prepare_export _ Hw) as Hp.
    unfold export_archive, load_snapshot, load_reflog in Hp |- *. change (for_ref None) with (fun _ : ReflogEntry => true) in *.
    split.
    - repeat (apply limited_bind; [apply limited_reject|intros _ _]).
      apply limited_bind; [apply limited_load_snapshot|]. intros [rs tb] Hrs.
      apply limited_bind; [apply limited_load_reflog|]. intros [log tb'] Hlog.
      apply load_snapshot_limited_Ok in Hrs as ->. apply load_reflog_limited_Ok in Hlog as ->. cbn [app].
      rewrite Hp. cbn [mbind result_bind]. apply limited_Ok.
    - intros a H. result_inv. match goal with H : load_snapshot_limited _ _ _ _ = _ |- _ => apply load_snapshot_limited_Ok in H as -> end.
      match goal with H : load_reflog_limited _ _ _ _ = _ |- _ => apply load_reflog_limited_Ok in H as -> end. done. }
  destruct (export_archive_with_limits limits (tables s)); [by apply Ho|by apply He].
Qed.

(** ** Paging *)

(** A reader that follows [next_after_event_id] until it is absent. *)
Fixpoint read_all_pages (fuel : nat) (n : option str) (after : option Z) (limit : Z) (t : Tables)
  : option (rresult (list ReflogEntry)) :=
  match fuel with
  | O => None
  | S fuel =>
    match read_reflog_page n after limit t with
    | Err e => Some (Err e)
    | Ok page =>
      match next_after_event_id page with
      | None => Some (Ok (entries page))
      | Some next =>
        r ← read_all_pages fuel n (Some next) limit t;
        Some (more ← r; Ok (entries page ++ more))
      end
    end
  end.

Lemma push_limited_rows max rows : forall acc l, push_limited max acc rows = Ok l -> l = acc ++ rows.
Proof.
  induction rows as [|row rows IH]; intros acc l H; cbn [push_limited] in H; [injection H as <-; by rewrite app_nil_r|].
  case_match; [done|]. apply IH in H as ->. by rewrite <- app_assoc.
Qed.

Lemma push_limited_Ok max rows : forall acc, len acc + len rows <= max -> push_limited max acc rows = Ok (acc ++ rows).
Proof.
  induction rows as [|r rows IH]; intros acc H; cbn [push_limited]; [by rewrite app_nil_r|]. rewrite len_cons in H.
  pose proof (len_nonneg rows). rewrite (proj2 (Z.eqb_neq _ _)) by lia. rewrite IH by len_lia. by rewrite <- app_assoc.
Qed.

Lemma filter_after (L k : list ReflogEntry) after :
  Forall (fun e => id e <= after) L -> Forall (fun e => after < id e) k ->
  List.filter (fun e => id e >? after) (L ++ k) = k.
Proof.
  intros HL Hk. rewrite List.filter_app.
  assert (List.filter (fun e => id e >? after) L = []) as ->.
  { induction HL as [|e L He _ IH]; cbn; [done|]. by rewrite Z.gtb_ltb, (proj2 (Z.ltb_ge _ _)) by lia. }
  induction Hk as [|e k He _ IH]; cbn; [done|]. rewrite Z.gtb_ltb, (proj2 (Z.ltb_lt _ _)) by lia. f_equal. exact IH.
Qed.

Lemma filter_filter {A} (p q : A -> bool) l : List.filter (fun x => p x && q x) l = List.filter q (List.filter p l).
Proof. induction l as [|x l IH]; cbn; [done|]. destruct (p x); cbn; [destruct (q x)|]; by rewrite IH. Qed.

Lemma ids_increase_app L k : ids_increase (L ++ k) -> ids_increase L /\ ids_increase k.
Proof.
  unfold ids_increase. induction L as [|e L IH]; cbn [app]; intros H; [split; [constructor|done]|].
  inversion H as [|? ? Hs Hd]; subst. destruct (IH Hs) as [HL Hk]. split; [|done]. constructor; [done|].
  destruct L; [constructor|]. inversion Hd; subst. by constructor.
Qed.

Section Paging.
Variables (t : Tables) (n : option str) (limit : Z).
Hypothesis Hw : wf t.
Hypothesis name_valid : match n with Some n => validate_ref_name n = Ok tt | None => True end.
Hypothesis limit_range : 1 <= limit <= MAX_REFLOG_PAGE_ENTRIES.
Hypothesis refs_fit : Z.of_nat (size (t_refs t)) <= MAX_REF_SNAPSHOT_ENTRIES.

(** The page after the entries [L], when [k] are still to come. *)
Lemma page_split after L k :
  load_reflog n t = L ++ k -> Forall (fun e => id e <= default 0 after) L -> Forall (fun e => default 0 after < id e) k ->
  0 <= default 0 after ->
  exists snap, read_reflog_page n after limit t = Ok {|
    page_snapshot := snap; entries := take (Z.to_nat limit) k;
    next_after_event_id := if len k >? limit then id <$> last (take (Z.to_nat limit) k) else None |}.
Proof.
  intros E HL Hk Ha. unfold read_reflog_page.
  assert (match n with Some n => validate_ref_name n | None => Ok tt end = Ok tt) as -> by (by destruct n).
  cbn [mbind result_bind].
  assert (reject_if (match after with Some i => i <? 0 | None => false end) InvalidMetadata = Ok tt) as ->.
  { destruct after as [i|]; [|done]. cbn in Ha. by rewrite (proj2 (Z.ltb_ge i 0)). }
  rewrite (proj2 (Z.leb_le 1 limit)), (proj2 (Z.leb_le limit _)) by lia. cbn [andb negb reject_if mbind result_bind].
  assert (exists snap, load_snapshot_count_limited MAX_REF_SNAPSHOT_ENTRIES t = Ok snap) as [snap ->].
  { unfold load_snapshot_count_limited. change (usize_saturating_add MAX_REF_SNAPSHOT_ENTRIES 1) with 100001.
    change (100001 >? i64_max) with false. cbv iota. rewrite push_limited_Ok.
    - by eexists.
    - rewrite len_nil. unfold len. rewrite length_take. pose proof (len_select_refs t) as Hl. unfold len in Hl. lia. }
  cbn [mbind result_bind]. unfold load_reflog_page. unfold MAX_REFLOG_PAGE_ENTRIES in limit_range.
  rewrite Z.gtb_ltb, (proj2 (Z.ltb_ge i64_max (limit + 1))) by (unfold i64_max; lia). cbn [mbind result_bind].
  unfold load_reflog in E. rewrite select_events_wf in E by done. rewrite select_events_wf, filter_filter, E by done.
  rewrite filter_after by done. exists snap. f_equal.
  replace (Z.to_nat (limit + 1)) with (S (Z.to_nat limit)) by lia.
  destruct (Z.gtb_spec (len k) limit) as [Hgt|Hle].
  - assert (len (take (S (Z.to_nat limit)) k) >? limit = true) as ->.
    { rewrite Z.gtb_ltb. apply Z.ltb_lt. unfold len in *. rewrite length_take. lia. }
    assert (removelast (take (S (Z.to_nat limit)) k) = take (Z.to_nat limit) k) as ->; [|done].
    { apply removelast_firstn. unfold len in Hgt. lia. }
  - assert (len (take (S (Z.to_nat limit)) k) >? limit = false) as ->.
    { rewrite Z.gtb_ltb. apply Z.ltb_ge. unfold len in *. rewrite length_take. lia. }
    unfold len in Hle. rewrite !take_ge by lia. done.
Qed.

Lemma read_all_from fuel : forall after L k,
  load_reflog n t = L ++ k -> Forall (fun e => id e <= default 0 after) L -> Forall (fun e => default 0 after < id e) k ->
  0 <= default 0 after -> (length k < fuel)%nat ->
  read_all_pages fuel n after limit t = Some (Ok k).
Proof.
  induction fuel as [|fuel IH]; intros after L k E HL Hk Ha Hf; [lia|]. cbn [read_all_pages].
  destruct (page_split after L k E HL Hk Ha) as [snap ->]. cbn [next_after_event_id entries].
  destruct (Z.gtb_spec (len k) limit) as [Hgt|Hle].
  2: { unfold len in Hle. by rewrite take_ge by lia. }
  assert (ids_increase (load_reflog n t)) as Hs.
  { unfold load_reflog. rewrite select_events_wf by done. apply StronglySorted_Sorted, sorted_filter, sorted_strong, Hw. apply id_cmp_trans. }
  rewrite <- (take_drop (Z.to_nat limit) k), app_assoc in E.
  destruct (last (take (Z.to_nat limit) k)) as [f|] eqn:El.
  2: { apply last_None in El. apply (f_equal length) in El. rewrite length_take in El. unfold len in Hgt. cbn in El. lia. }
  cbn [fmap option_fmap option_map]. pose proof (last_elem _ _ El) as Hfin.
  assert (f ∈ L ++ take (Z.to_nat limit) k) as Hfin' by (apply elem_of_app; by right).
  rewrite (IH (Some (id f)) (L ++ take (Z.to_nat limit) k) (drop (Z.to_nat limit) k)); [|done|..].
  - cbn. by rewrite take_drop.
  - cbn. rewrite Forall_forall in HL, Hk. rewrite E in Hs. pose proof Hs as [[_ Ht]%ids_increase_app _]%ids_increase_app.
    apply Forall_app. rewrite !Forall_forall. split; intros e He.
    + specialize (HL e He). assert (default 0 after < id f) by (apply Hk; rewrite <- (take_drop (Z.to_nat limit) k); set_solver). lia.
    + by eapply increasing_last.
  - cbn. apply Forall_forall. intros e He. rewrite E in Hs. by eapply increasing_app_inv.
  - cbn. rewrite Forall_forall in Hk.
    assert (default 0 after < id f) by (apply Hk; rewrite <- (take_drop (Z.to_nat limit) k); set_solver). lia.
  - rewrite length_drop. unfold len in Hgt. lia.
Qed.
End Paging.

(** Paging loses and repeats nothing: from any reachable store, following the returned
    cursor from the start with any legal page size terminates and yields exactly the reflog
    (of one Ref or of all of them), in event order. *)
Lemma paging_complete s n limit :
  reachable s -> match n with Some n => validate_ref_name n = Ok tt | None => True end ->
  1 <= limit <= MAX_REFLOG_PAGE_ENTRIES -> Z.of_nat (size (t_refs (tables s))) <= MAX_REF_SNAPSHOT_ENTRIES ->
  read_all_pages (S (length (load_reflog n (tables s)))) n None limit (tables s)
  = Some (Ok (load_reflog n (tables s))).
Proof.
  intros Hw%reachable_wf Hn Hl Hr. apply (read_all_from (tables s) n limit Hw Hn Hl Hr _ None []); [done|constructor| |done|lia].
  cbn. pose proof (wf_positive _ Hw) as Hp. rewrite Forall_forall in *. intros e He. apply Hp.
  unfold load_reflog in He. rewrite select_events_wf in He by done.
  apply list_elem_of_In, filter_In in He as [He _]. by apply list_elem_of_In.
Qed.

(** ** Transition evidence *)

Lemma replay_last es : forall m h m' h' n,
  replay es m h = Ok (m', h') ->
  m' !! n = match last (List.filter (for_ref (Some n)) es) with
            | Some e => Some (new_head e, id e)
            | None => m !! n
            end.
Proof.
  induction es as [|e es IH]; intros m h m' h' n H; cbn [replay] in H; [by simplify_eq|]. result_inv.
  rewrite (IH _ _ _ _ n H). cbn [List.filter for_ref]. destruct (str_eqb (ref_name e) n) eqn:E.
  - apply str_eqb_eq in E as <-.
    destruct (List.filter (for_ref (Some (ref_name e))) es) as [|f fs] eqn:Ef.
    + cbn. apply lookup_insert_eq.
    + change (last (e :: f :: fs)) with (last (f :: fs)). destruct (last (f :: fs)) eqn:El; [done|]. by apply last_None in El.
  - destruct (last _); [done|]. rewrite lookup_insert_ne; [done|].
    intros Hn%str_eqb_eq. congruence.
Qed.

(** Transition evidence is conclusive: in any reachable store the newest event of a Ref
    carries its current head and event id (and a Ref without events is absent); so when no event
    of the Ref ever touched the candidate, the candidate is not its head, and when the exact
    transition was recorded, the candidate was its head after that event. *)
Lemma evidence_conclusive s n expected candidate evidence :
  reachable s ->
  read_ref_transition_evidence n expected candidate (tables s) = Ok evidence ->
  t_refs (tables s) !! n = (fun e => (new_head e, id e)) <$> latest_entry evidence /\
  (candidate_touch_count evidence = 0 -> heads (tables s) !! n <> Some candidate) /\
  (0 < exact_transition_count evidence <-> is_Some (exact_transition_entry evidence)) /\
  forall e, exact_transition_entry evidence = Some e ->
    e ∈ t_events (tables s) /\ ref_name e = n /\ old_head e = expected /\ new_head e = candidate.
Proof.
  intros Hw%reachable_wf H. unfold read_ref_transition_evidence in H. result_inv. cbn.
  rewrite !select_events_wf by done.
  pose proof (replay_last _ _ _ _ _ n (wf_replay _ Hw)) as Hl. rewrite lookup_empty in Hl.
  split_and!.
  - rewrite Hl. by destruct (last _).
  - intros Hz. rewrite heads_lookup. unfold query_head. rewrite Hl.
    destruct (last _) as [e|] eqn:El; [|done]. cbn. intros [= Hc]. apply last_elem, list_elem_of_In, filter_In in El as [He Hn].
    assert (e ∈ List.filter (fun e => str_eqb (ref_name e) n &&
      (bool_decide (old_head e = Some candidate) || str_eqb (new_head e) candidate)) (t_events (tables s))) as Hin.
    { apply list_elem_of_In, filter_In. split; [done|]. cbn in Hn. by rewrite Hn, (proj2 (str_eqb_eq _ _) Hc), orb_true_r. }
    destruct (List.filter _ _) in Hz, Hin; [by apply not_elem_of_nil in Hin|]. rewrite len_cons in Hz. pose proof (len_nonneg l). lia.
  - clear Hl. destruct (List.filter _ _) as [|f l]; [unfold len; cbn; split; [lia|by intros [? ?]]|]. split; intros _.
    + apply last_is_Some. done.
    + rewrite len_cons. pose proof (len_nonneg l). lia.
  - intros e El%last_elem%list_elem_of_In%filter_In. destruct El as [He Hx]. unfold is_exact in Hx.
    rewrite !andb_true_iff in Hx. destruct Hx as [[Hn Ho] Hc]. apply str_eqb_eq in Hn, Hc. bool_props.
    split_and!; [by apply list_elem_of_In|done..].
Qed.

(** ** Ref names *)

(** The bytes of namespaces and segments: lower-case letters, digits, [.], [_], [:], [-]. *)
Definition ref_byte (b : byte) : Prop := 97 <= b <= 122 \/ 45 <= b <= 46 \/ 48 <= b <= 58 \/ b = 95.

#[local] Instance ref_byte_dec b : Decision (ref_byte b).
Proof. unfold ref_byte. apply _. Defined.

Lemma segment_chars s : valid_ref_segment s = true -> is_portable_segment s = true /\ Forall ref_byte s.
Proof.
  unfold valid_ref_segment. destruct s as [|c s]; [done|]. intros H. bool_props.
  match goal with H : forallb _ s = true |- _ => rename H into Hs end.
  assert (Forall ref_byte s) as Hall.
  { apply Forall_forall. intros b Hb. rewrite forallb_forall in Hs. apply list_elem_of_In, Hs in Hb.
    unfold is_ascii_lowercase, is_ascii_digit in Hb. rewrite !orb_true_iff, !andb_true_iff, !Z.leb_le, !Z.eqb_eq in Hb.
    unfold ref_byte. lia. }
  assert (97 <= c <= 122 \/ 48 <= c <= 57) as Hc.
  { unfold is_ascii_lowercase, is_ascii_digit in *. match goal with H : (_ || _)%bool = true |- _ => rewrite orb_true_iff, !andb_true_iff, !Z.leb_le in H; lia end. }
  assert (Forall ref_byte (c :: s)) as Hcs by (constructor; [unfold ref_byte; lia|done]). split; [|done].
  apply is_portable_segment_spec. rewrite Forall_forall in Hcs. split_and!; [done|..].
  - intros [= -> _]. lia.
  - intros [= -> _]. lia.
  - intros Hin%Hcs. unfold ref_byte in Hin. lia.
  - intros Hin%Hcs. unfold ref_byte in Hin. lia.
Qed.

Lemma ref_text_portable n :
  Forall (fun s => is_portable_segment s = true /\ Forall ref_byte s) (split_on 47 n) ->
  has_windows_drive_letter_prefix n = false -> is_portable_relative_path n = Ok tt.
Proof.
  intros Hs Hd. apply portable_path_Ok. split_and!; [|done|].
  - rewrite <- (join_split_on 47 n). induction Hs as [|s ss [_ Hb] Hss IH]; [apply not_elem_of_nil|].
    assert (92 ∉ s) as H92 by (rewrite Forall_forall in Hb; intros Hin%Hb; unfold ref_byte in Hin; lia).
    destruct ss as [|s' ss]; [done|].
    change (join_with [47] (s :: s' :: ss)) with (s ++ [47] ++ join_with [47] (s' :: ss)).
    rewrite !not_elem_of_app. split_and!; [done|by apply contains_byte_false|apply IH].
  - eapply Forall_impl; [exact Hs|]. by intros s [? _].
Qed.

Lemma namespace_no_drive ns rest n :
  split_on 47 n = ns :: rest ->
  ns ∈ [lit "proposal"; lit "decision"; lit "release"; lit "observed"; lit "material-events"] ->
  (is_portable_segment ns = true /\ Forall ref_byte ns) /\ has_windows_drive_letter_prefix n = false.
Proof.
  intros E Hin. assert (n = join_with [47] (ns :: rest)) as -> by (rewrite <- E; symmetry; apply join_split_on).
  repeat (apply elem_of_cons in Hin as [->|Hin]);
    [split; [split; [vm_compute; reflexivity|]|by destruct rest]..|by apply not_elem_of_nil in Hin].
  all: apply (bool_decide_unpack _); vm_compute; exact I.
Qed.

(** An accepted Ref name is [namespace/segments] with one of the five namespaces, at most
    500 bytes, and is always a portable relative path. *)
Lemma ref_name_portable n :
  validate_ref_name n = Ok tt ->
  len n <= 500 /\ is_portable_relative_path n = Ok tt /\
  exists namespace rest, split_on 47 n = namespace :: rest /\ rest <> [] /\
    namespace ∈ [lit "proposal"; lit "decision"; lit "release"; lit "observed"; lit "material-events"] /\
    Forall (fun s => 1 <= len s <= 128) rest.
Proof.
  unfold validate_ref_name. intros H. destruct (split_on 47 n) as [|ns rest] eqn:E; [by rewrite andb_false_r in H|].
  destruct ((len n <=? 500) && _) eqn:Ev; [|done]. clear H. bool_props.
  match goal with H : forallb valid_ref_segment rest = true |- _ => rename H into Hrest end.
  match goal with H : valid_namespace ns = true |- _ => rename H into Hns end.
  assert (Forall (fun s => valid_ref_segment s = true) rest) as Hr.
  { apply Forall_forall. intros s Hs. rewrite forallb_forall in Hrest. by apply Hrest, list_elem_of_In. }
  unfold valid_namespace in Hns. apply existsb_exists in Hns as (ns' & Hin & Ens). apply str_eqb_eq in Ens as <-.
  apply list_elem_of_In in Hin.
  split_and!; [done| |exists ns, rest; split_and!; [done..|]].
  - destruct (namespace_no_drive ns rest n E Hin) as [Hn Hd].
    apply ref_text_portable; [|done]. rewrite E. constructor; [done|].
    eapply Forall_impl; [exact Hr|]. apply segment_chars.
  - eapply Forall_impl; [exact Hr|]. intros s Hs. unfold valid_ref_segment in Hs. destruct s; [done|]. by bool_props.
Qed.
