(* ===== verification/ScaledInteger.v ===== *)
(** * Exact fixed-point numbers

    Models crates/synapse-schema/src/scaled_integer.rs ([Unit],
    [ScaledInteger::try_from_parts], [from_decimal_str], [validate_parts]) and
    the comparison [compare_scaled] of crates/synapse-schema/src/lib.rs, with
    the two strings that it allocates. *)

From stdpp Require Import base list numbers strings.
From Stdlib Require Import ZArith Lia.
From S2P Require Import Prelude Text Canonical.

#[local] Open Scope Z_scope.

Definition MAX_MANTISSA_BYTES : Z := 257.
Definition MAX_DECIMAL_INPUT_BYTES : Z := 1024.
Definition MIN_SCALE : Z := -24.
Definition MAX_SCALE : Z := 24.

Inductive Unit :=
| Unitless | Ratio | Percent | Count | Byte | Px | Mm | M | Ms | S_ | Deg | Rad | Kelvin | Celsius | DeltaE.

#[export] Instance Unit_eq_dec : EqDecision Unit.
Proof. solve_decision. Defined.

Definition unit_as_str (u : Unit) : str :=
  match u with
  | Unitless => lit "unitless" | Ratio => lit "ratio" | Percent => lit "percent" | Count => lit "count"
  | Byte => lit "byte" | Px => lit "px" | Mm => lit "mm" | M => lit "m" | Ms => lit "ms" | S_ => lit "s"
  | Deg => lit "deg" | Rad => lit "rad" | Kelvin => lit "kelvin" | Celsius => lit "celsius"
  | DeltaE => lit "delta_e"
  end.

Inductive ScaledIntegerErrorKind :=
| InvalidDecimal | NegativeZero | NotNormalized | MantissaTooLong | ScaleOutOfRange | InvalidUnit.

#[export] Instance ScaledIntegerErrorKind_eq_dec : EqDecision ScaledIntegerErrorKind.
Proof. solve_decision. Defined.

Abbreviation sresult := (result ScaledIntegerErrorKind).

Definition unit_from_str (value : str) : sresult Unit :=
  if str_eqb value (lit "unitless") then Ok Unitless
  else if str_eqb value (lit "ratio") then Ok Ratio
  else if str_eqb value (lit "percent") then Ok Percent
  else if str_eqb value (lit "count") then Ok Count
  else if str_eqb value (lit "byte") then Ok Byte
  else if str_eqb value (lit "px") then Ok Px
  else if str_eqb value (lit "mm") then Ok Mm
  else if str_eqb value (lit "m") then Ok M
  else if str_eqb value (lit "ms") then Ok Ms
  else if str_eqb value (lit "s") then Ok S_
  else if str_eqb value (lit "deg") then Ok Deg
  else if str_eqb value (lit "rad") then Ok Rad
  else if str_eqb value (lit "kelvin") then Ok Kelvin
  else if str_eqb value (lit "celsius") then Ok Celsius
  else if str_eqb value (lit "delta_e") then Ok DeltaE
  else Err InvalidUnit.

Record ScaledInteger := { mantissa : str; scale : Z; unit_of : Unit }.

Definition validate_parts (mantissa : str) (scale : Z) : sresult unit :=
  if len mantissa >? MAX_MANTISSA_BYTES then Err MantissaTooLong
  else if negb ((MIN_SCALE <=? scale) && (scale <=? MAX_SCALE)) then Err ScaleOutOfRange
  else if str_eqb mantissa (lit "-0") then Err NegativeZero
  else if str_eqb mantissa (lit "0") then (if scale =? 0 then Ok tt else Err NotNormalized)
  else
    let digits := default mantissa (strip_prefix (lit "-") mantissa) in
    if bool_decide (digits = []) || starts_with (lit "0") digits || ends_with (lit "0") digits ||
       negb (forallb is_ascii_digit digits)
    then Err NotNormalized
    else Ok tt.

Definition try_from_parts (mantissa : str) (scale : Z) (u : Unit) : sresult ScaledInteger :=
  validate_parts mantissa scale;;
  Ok {| mantissa := mantissa; scale := scale; unit_of := u |}.

(** [while digits.ends_with('0') { digits.pop(); scale += 1 }], on the reversed digits.
    The scale starts at most 1024 below zero and rises by one per digit, so
    [checked_add] cannot fail. *)
Fixpoint pop_zeros (reversed : str) (scale : Z) : str * Z :=
  match reversed with
  | d :: r => if d =? 48 then pop_zeros r (scale + 1) else (reversed, scale)
  | [] => ([], scale)
  end.

Definition from_decimal_str (value : str) (u : Unit) : sresult ScaledInteger :=
  if bool_decide (value = []) || (len value >? MAX_DECIMAL_INPUT_BYTES) || negb (forallb (fun b => b <? 128) value)
  then Err InvalidDecimal
  else
    let '(negative, unsigned) :=
      match strip_prefix (lit "-") value with Some unsigned => (true, unsigned) | None => (false, value) end in
    let '(integer, fraction) :=
      match split_once 46 unsigned with
      | Some (integer, fraction) => (integer, Some fraction)
      | None => (unsigned, None)
      end in
    if bool_decide (integer = []) || negb (forallb is_ascii_digit integer) ||
       match fraction with
       | Some fraction => bool_decide (fraction = []) || negb (forallb is_ascii_digit fraction)
       | None => false
       end
    then Err InvalidDecimal
    else
      let fraction_len := match fraction with Some f => len f | None => 0 end in
      let digits := integer ++ default [] fraction in
      let stripped := drop_leading 48 digits in
      if bool_decide (stripped = []) then
        if negative then Err NegativeZero else try_from_parts (lit "0") 0 u
      else
        let '(reversed, scale) := pop_zeros (rev stripped) (- fraction_len) in
        let digits := rev reversed in
        let digits := if negative then 45 :: digits else digits in
        try_from_parts digits scale u.

(** ** Comparison *)

Record ScaledNumber := { sn_negative : bool; sn_digits : str; sn_scale : Z; sn_unit : str }.

(** What one string can hold.  The user part of the address space of a 64-bit process has
    2^47 bytes, so [String::with_capacity] of more cannot be served and
    [handle_alloc_error] ends the process; a smaller request is taken to succeed. *)
Definition MAX_ALLOCATION : Z := 2 ^ 47.

Definition string_with_capacity (capacity : Z) : cresult str :=
  if capacity >? MAX_ALLOCATION then Err Aborted else Ok [].

(** The digits padded to the common scale: [left_aligned] and [right_aligned].  Scales are
    integers of at most 53 bits, so their difference and the capacity do not overflow. *)
Definition aligned (n : ScaledNumber) (common_scale : Z) : cresult str :=
  let zeroes := Z.max 0 (sn_scale n - common_scale) in
  empty ← string_with_capacity (len (sn_digits n) + zeroes);
  Ok (empty ++ sn_digits n ++ replicate (Z.to_nat zeroes) 48).

Definition compare_scaled (left right : ScaledNumber) : cresult comparison :=
  if str_eqb (sn_digits left) (lit "0") then
    Ok (if str_eqb (sn_digits right) (lit "0") then Eq
        else if sn_negative right then Gt else Lt)
  else if str_eqb (sn_digits right) (lit "0") then
    Ok (if sn_negative left then Lt else Gt)
  else if negb (Bool.eqb (sn_negative left) (sn_negative right)) then
    Ok (if sn_negative left then Lt else Gt)
  else
    let common_scale := Z.min (sn_scale left) (sn_scale right) in
    left_aligned ← aligned left common_scale;
    right_aligned ← aligned right common_scale;
    let absolute :=
      match len left_aligned ?= len right_aligned with
      | Eq => lex_compare left_aligned right_aligned
      | c => c
      end in
    Ok (if sn_negative left then CompOpp absolute else absolute).
