(* ===== verification/ScaledProps.v ===== *)
(** * Fixed-point numbers: exactness, uniqueness and order *)

From stdpp Require Import base list numbers strings.
From Stdlib Require Import ZArith Lia Znumtheory.
From S2P Require Import Prelude Text TextFacts Canonical CanonicalLaws ScaledInteger.

#[local] Open Scope Z_scope.

(** ** What the texts denote *)

Definition mantissa_value (t : str) : Z :=
  match strip_prefix (lit "-") t with Some ds => - digits_value ds | None => digits_value t end.

(** Order of [m1 * 10^s1] and [m2 * 10^s2], by integers at the common scale. *)
Definition value_compare (m1 s1 m2 s2 : Z) : comparison :=
  m1 * 10 ^ (s1 - Z.min s1 s2) ?= m2 * 10 ^ (s2 - Z.min s1 s2).

(** [s] is a plain decimal of value [m * 10^k]. *)
Definition denotes (s : str) (m k : Z) : Prop :=
  exists (negative : bool) (integer : str) (fraction : option str),
    s = (if negative then lit "-" else []) ++ integer ++ (match fraction with Some f => lit "." ++ f | None => [] end) /\
    integer <> [] /\ is_digits integer /\ (forall f, fraction = Some f -> f <> [] /\ is_digits f) /\
    m = (if negative then -1 else 1) * digits_value (integer ++ default [] fraction) /\
    k = - len (default [] fraction).

(** ** Normal form *)

(** Digits of a normalized non-zero mantissa. *)
Definition normal_digits (ds : str) : Prop :=
  is_digits ds /\ (exists d r, ds = d :: r /\ d <> 48) /\ (exists r d, ds = r ++ [d] /\ d <> 48).

Lemma starts_with_zero ds : ds <> [] -> starts_with (lit "0") ds = false <-> exists d r, ds = d :: r /\ d <> 48.
Proof.
  intros Hne. unfold starts_with. rewrite bool_decide_eq_false. change (lit "0") with [48].
  destruct ds as [|d r]; [done|]. cbn [strip_prefix]. destruct (Z.eqb_spec 48 d) as [<-|Hd]; split.
  - intros []. by eexists.
  - intros (? & ? & [= <- <-] & []). done.
  - intros _. exists d, r. split; [done|congruence].
  - intros _ [? ?]. done.
Qed.

Lemma ends_with_zero ds : ds <> [] -> ends_with (lit "0") ds = false <-> exists r d, ds = r ++ [d] /\ d <> 48.
Proof.
  intros Hne. destruct (exists_last Hne) as (r & d & ->). unfold ends_with, strip_suffix.
  rewrite bool_decide_eq_false, rev_app_distr. change (rev (lit "0")) with [48]. cbn [rev app strip_prefix].
  destruct (Z.eqb_spec 48 d) as [<-|Hd]; split.
  - intros []. by eexists.
  - intros (r' & d' & E & []). apply app_inj_tail in E as [_ <-]. done.
  - intros _. exists r, d. split; [done|congruence].
  - intros _ [? ?]. done.
Qed.

Lemma strip_minus_digits ds : is_digits ds -> strip_prefix (lit "-") ds = None.
Proof.
  intros H. change (lit "-") with [45]. destruct ds as [|d r]; [done|]. apply Forall_cons in H as [Hd _].
  apply strip_prefix_cons_ne. apply is_ascii_digit_spec in Hd. lia.
Qed.

(** The two shapes [validate_parts] accepts. *)
Lemma validate_parts_Ok t s :
  validate_parts t s = Ok tt <->
  len t <= MAX_MANTISSA_BYTES /\ MIN_SCALE <= s <= MAX_SCALE /\
  ((t = lit "0" /\ s = 0) \/ exists (negative : bool) ds, t = (if negative then lit "-" else []) ++ ds /\ normal_digits ds).
Proof.
  unfold validate_parts. rewrite Z.gtb_ltb. destruct (Z.ltb_spec MAX_MANTISSA_BYTES (len t)); [split; [done|lia]|].
  destruct ((MIN_SCALE <=? s) && (s <=? MAX_SCALE)) eqn:Es; cbn [negb].
  2: { split; [done|]. intros (_ & ? & _). apply andb_false_iff in Es. rewrite !Z.leb_gt in Es. lia. }
  bool_props. destruct (str_eqb t (lit "-0")) eqn:E1.
  { apply str_eqb_eq in E1 as ->. change (lit "-0") with [45; 48]. split; [done|].
    intros (_ & _ & [[? _]|(neg & ds & E & (Hd & (d & r & -> & Hne) & _))]); [done|].
    change (lit "-") with [45] in E. destruct neg; cbn [app] in E; simplify_eq.
    apply Forall_cons in Hd as [Hd _]. done. }
  destruct (str_eqb t (lit "0")) eqn:E2.
  { apply str_eqb_eq in E2 as ->. destruct (Z.eqb_spec s 0) as [->|Hs].
    - split; [|done]. intros _. split_and!; [done..|]. by left.
    - change (lit "0") with [48]. split; [done|].
      intros (_ & _ & [[_ ?]|(neg & ds & E & (_ & (d & r & -> & Hne) & _))]); [done|].
      change (lit "-") with [45] in E. destruct neg; cbn [app] in E; simplify_eq. }
  set (ds := default t (strip_prefix (lit "-") t)).
  assert (t = (if bool_decide (is_Some (strip_prefix (lit "-") t)) then lit "-" else []) ++ ds) as Et.
  { subst ds. destruct (strip_prefix (lit "-") t) as [d|] eqn:E; [|done]. by apply strip_prefix_Some in E. }
  assert ((bool_decide (ds = []) || starts_with (lit "0") ds || ends_with (lit "0") ds || negb (forallb is_ascii_digit ds))%bool = false
    <-> normal_digits ds) as Hn.
  { unfold normal_digits. rewrite !orb_false_iff, negb_false_iff, is_digits_forallb, bool_decide_eq_false. split.
    - intros (((Hne & H1) & H2) & H3). split_and!; [done|by apply starts_with_zero|by apply ends_with_zero].
    - intros (H1 & H2 & H3). assert (ds <> []) by (by destruct H2 as (? & ? & -> & _)).
      split_and!; [done|by apply starts_with_zero|by apply ends_with_zero|done]. }
  destruct (_ || _ || _ || _) eqn:Eb.
  - split; [done|]. intros (_ & _ & [[-> _]|(neg & ds' & E & Hd)]).
    + by rewrite (proj2 (str_eqb_eq _ _) eq_refl) in E2.
    + assert (ds = ds') as Eds; [|subst ds'; apply Hn in Hd; congruence].
      subst ds. rewrite E. destruct neg; [done|]. cbn [app].
      by rewrite strip_minus_digits by apply Hd.
  - split; [|done]. intros _. split_and!; [done..|]. right. eexists _, ds. split; [exact Et|by apply Hn].
Qed.

(** A normalized mantissa, as sign and digits. *)
Lemma mantissa_value_signed (negative : bool) ds :
  is_digits ds -> mantissa_value ((if negative then lit "-" else []) ++ ds) = (if negative then -1 else 1) * digits_value ds.
Proof.
  intros Hd. unfold mantissa_value. destruct negative.
  - change (strip_prefix (lit "-") (lit "-" ++ ds)) with (Some ds). cbv iota. lia.
  - cbn [app]. rewrite strip_minus_digits by done. cbv iota. lia.
Qed.

Lemma normal_digits_pos ds : normal_digits ds -> 0 < digits_value ds.
Proof.
  intros (Hd & (d & r & -> & Hne) & _). pose proof (digits_value_lower d r Hd Hne).
  pose proof (Z.pow_pos_nonneg 10 (len r) ltac:(lia) ltac:(auto with synapse)). lia.
Qed.

Lemma normal_digits_mod ds : normal_digits ds -> digits_value ds mod 10 <> 0.
Proof.
  intros (Hd & _ & (r & d & -> & Hne)). rewrite digits_value_app. change (len [d]) with 1. rewrite Z.pow_1_r.
  apply Forall_app in Hd as [_ Hd]. apply Forall_cons in Hd as [Hd%is_ascii_digit_spec _].
  change (digits_value [d]) with (0 * 10 + (d - 48)). rewrite Z.add_comm, Z.mod_add by lia.
  rewrite Z.mod_small by lia. lia.
Qed.

(** Numbers not divisible by ten have one exponent. *)
Lemma exponent_unique m1 s1 m2 s2 :
  m1 mod 10 <> 0 -> m2 mod 10 <> 0 -> m1 * 10 ^ (s1 - Z.min s1 s2) = m2 * 10 ^ (s2 - Z.min s1 s2) -> m1 = m2 /\ s1 = s2.
Proof.
  intros H1 H2 E. destruct (Z.lt_trichotomy s1 s2) as [Hlt|[->|Hlt]].
  - exfalso. rewrite Z.min_l in E by lia. rewrite Z.sub_diag, Z.mul_1_r in E.
    apply H1. rewrite E. replace (s2 - s1) with (Z.succ (s2 - s1 - 1)) by lia.
    rewrite Z.pow_succ_r by lia. rewrite (Z.mul_comm 10), Z.mul_assoc. apply Z.mod_mul. lia.
  - rewrite Z.min_id, Z.sub_diag, !Z.mul_1_r in E. done.
  - exfalso. rewrite Z.min_r in E by lia. rewrite Z.sub_diag, Z.mul_1_r in E.
    apply H2. rewrite <- E. replace (s1 - s2) with (Z.succ (s1 - s2 - 1)) by lia.
    rewrite Z.pow_succ_r by lia. rewrite (Z.mul_comm 10), Z.mul_assoc. apply Z.mod_mul. lia.
Qed.

Lemma opp_mod_10 m : m mod 10 <> 0 -> (- m) mod 10 <> 0.
Proof. intros H E. apply H. apply Z.mod_divide in E; [|lia]. apply Z.mod_divide; [lia|]. by apply Z.divide_opp_r. Qed.

(** The normalized form is unique: two accepted fixed-point wire values that denote the same
    number have the same mantissa text and the same scale, so equal numbers have equal
    canonical bytes. *)
Lemma scaled_unique m1 s1 m2 s2 :
  validate_parts m1 s1 = Ok tt -> validate_parts m2 s2 = Ok tt ->
  value_compare (mantissa_value m1) s1 (mantissa_value m2) s2 = Eq -> m1 = m2 /\ s1 = s2.
Proof.
  intros (_ & _ & H1)%validate_parts_Ok (_ & _ & H2)%validate_parts_Ok E. unfold value_compare in E. apply Z.compare_eq_iff in E.
  assert (forall m (negative : bool) ds, m = (if negative then lit "-" else []) ++ ds -> normal_digits ds ->
    mantissa_value m mod 10 <> 0 /\ mantissa_value m <> 0) as Hn.
  { intros m neg ds -> Hd. rewrite mantissa_value_signed by apply Hd. pose proof (normal_digits_pos ds Hd).
    pose proof (normal_digits_mod ds Hd). destruct neg; split; try lia.
    - replace (-1 * digits_value ds) with (- digits_value ds) by lia. by apply opp_mod_10.
    - by rewrite Z.mul_1_l. }
  assert (forall k, 0 <= k -> 10 ^ k <> 0) as Hp by (intros k ?; pose proof (Z.pow_pos_nonneg 10 k); lia).
  destruct H1 as [[-> ->]|(n1 & d1 & E1 & N1)], H2 as [[-> ->]|(n2 & d2 & E2 & N2)]; [done|..].
  - exfalso. change (mantissa_value (lit "0")) with 0 in E. destruct (Hn m2 n2 d2 E2 N2) as [_ Hz].
    rewrite Z.mul_0_l in E. symmetry in E. apply Z.mul_eq_0 in E as [?|?]; [done|]. by eapply Hp; [|done]; lia.
  - exfalso. change (mantissa_value (lit "0")) with 0 in E. destruct (Hn m1 n1 d1 E1 N1) as [_ Hz].
    rewrite Z.mul_0_l in E. apply Z.mul_eq_0 in E as [?|?]; [done|]. by eapply Hp; [|done]; lia.
  - apply exponent_unique in E as [E ->]; [|by eapply Hn..]. split; [|done]. subst m1 m2.
    rewrite !mantissa_value_signed in E by (apply N1 || apply N2).
    pose proof (normal_digits_pos _ N1). pose proof (normal_digits_pos _ N2).
    assert (n1 = n2 /\ digits_value d1 = digits_value d2) as [-> Ed] by (destruct n1, n2; lia).
    f_equal. apply numeral_unique; [apply N1|apply N2|right; apply N1|right; apply N2|done].
Qed.

(** ** Order *)

(** [scaled_integer] on the parts of a validated value. *)
Definition scaled_number (x : ScaledInteger) : ScaledNumber := {|
  sn_negative := starts_with (lit "-") (mantissa x);
  sn_digits := default (mantissa x) (strip_prefix (lit "-") (mantissa x));
  sn_scale := scale x; sn_unit := unit_as_str (unit_of x) |}.

Lemma digits_value_zeros_after ds k : digits_value (ds ++ replicate k 48) = digits_value ds * 10 ^ Z.of_nat k.
Proof.
  rewrite digits_value_app. pose proof (digits_value_zeros k []) as E. rewrite app_nil_r in E. rewrite E.
  unfold len. rewrite length_replicate. change (digits_value []) with 0. lia.
Qed.

(** Digit strings without a leading zero order by length, then as text. *)
Lemma length_lex_compare a b :
  is_digits a -> is_digits b -> (exists d r, a = d :: r /\ d <> 48) -> (exists d r, b = d :: r /\ d <> 48) ->
  match len a ?= len b with Eq => lex_compare a b | c => c end = (digits_value a ?= digits_value b).
Proof.
  intros Ha Hb (d & r & -> & Hd) (e & q & -> & He).
  pose proof (digits_value_lower d r Ha Hd) as La. pose proof (digits_value_lower e q Hb He) as Lb.
  pose proof (digits_value_bound _ Ha) as [_ Ba]. pose proof (digits_value_bound _ Hb) as [_ Bb].
  destruct (Z.compare_spec (len (d :: r)) (len (e :: q))) as [E|E|E].
  - rewrite <- (app_nil_r (d :: r)), <- (app_nil_r (e :: q)) at 1. rewrite lex_compare_digits by (done || (unfold len in E; lia)).
    by destruct (_ ?= _).
  - symmetry. apply Z.compare_lt_iff. pose proof (Z.pow_le_mono_r 10 (len (d :: r)) (len q)). len_lia.
  - symmetry. apply Z.compare_gt_iff. pose proof (Z.pow_le_mono_r 10 (len (e :: q)) (len r)). len_lia.
Qed.

(** The padded digits, when they fit. *)
Lemma aligned_value n c ds :
  sn_digits n = ds -> normal_digits ds -> c <= sn_scale n -> len ds + (sn_scale n - c) <= MAX_ALLOCATION ->
  exists t, aligned n c = Ok t /\ digits_value t = digits_value ds * 10 ^ (sn_scale n - c) /\ is_digits t /\
    exists d r, t = d :: r /\ d <> 48.
Proof.
  intros E (Hd & (d & r & Ed & Hne) & _) Hc Hfit. unfold aligned, string_with_capacity.
  rewrite Z.max_r, E, Z.gtb_ltb, (proj2 (Z.ltb_ge _ _)) by lia. eexists. split; [reflexivity|]. cbn [app].
  rewrite digits_value_zeros_after. split_and!; [f_equal; f_equal; lia| |].
  - apply Forall_app. split; [done|]. by apply Forall_replicate.
  - rewrite Ed. cbn [app]. by do 2 eexists.
Qed.

Lemma scaled_number_parts (negative : bool) ds s u :
  normal_digits ds ->
  scaled_number {| mantissa := (if negative then lit "-" else []) ++ ds; scale := s; unit_of := u |}
  = {| sn_negative := negative; sn_digits := ds; sn_scale := s; sn_unit := unit_as_str u |}.
Proof.
  intros Hn. unfold scaled_number, starts_with. cbn [mantissa scale unit_of]. destruct negative.
  - change (strip_prefix (lit "-") (lit "-" ++ ds)) with (Some ds). by rewrite bool_decide_eq_true_2 by (by eexists).
  - cbn [app]. rewrite strip_minus_digits by apply Hn. by rewrite bool_decide_eq_false_2 by (by intros [? ?]).
Qed.

Lemma normal_digits_not_zero ds : normal_digits ds -> str_eqb ds (lit "0") = false.
Proof.
  intros (_ & (d & r & -> & Hd) & _). apply not_true_iff_false. rewrite str_eqb_eq. intros [= -> _]. done.
Qed.

Lemma sign_compare (n : bool) a b :
  (if n then CompOpp (a ?= b) else (a ?= b)) = ((if n then -1 else 1) * a ?= (if n then -1 else 1) * b).
Proof.
  destruct n; [|by rewrite !Z.mul_1_l]. replace (-1 * a) with (- a) by lia. replace (-1 * b) with (- b) by lia.
  by rewrite Z.compare_opp, <- Z.compare_antisym.
Qed.

(** On accepted fixed-point values [compare_scaled] is the numeric order, although it only
    compares digit strings, and the strings are short. *)
Lemma compare_scaled_numeric x y :
  validate_parts (mantissa x) (scale x) = Ok tt -> validate_parts (mantissa y) (scale y) = Ok tt ->
  compare_scaled (scaled_number x) (scaled_number y)
  = Ok (value_compare (mantissa_value (mantissa x)) (scale x) (mantissa_value (mantissa y)) (scale y)).
Proof.
  destruct x as [m1 s1 u1], y as [m2 s2 u2]. cbn [mantissa scale].
  intros (Hl1 & Hs1 & H1)%validate_parts_Ok (Hl2 & Hs2 & H2)%validate_parts_Ok. unfold value_compare.
  assert (forall k, 0 <= k -> 0 < 10 ^ k) as Hp by (intros; by apply Z.pow_pos_nonneg).
  pose proof (Hp (s1 - Z.min s1 s2) ltac:(lia)). pose proof (Hp (s2 - Z.min s1 s2) ltac:(lia)).
  destruct H1 as [[-> ->]|(n1 & d1 & -> & N1)], H2 as [[-> ->]|(n2 & d2 & -> & N2)];
    rewrite ?scaled_number_parts, ?mantissa_value_signed by (done || apply N1 || apply N2);
    change (mantissa_value (lit "0")) with 0; unfold compare_scaled; cbn [sn_digits sn_negative sn_scale].
  - done.
  - change (str_eqb (sn_digits (scaled_number {| mantissa := lit "0"; scale := 0; unit_of := u1 |})) (lit "0")) with true.
    cbv iota. rewrite normal_digits_not_zero by done. pose proof (normal_digits_pos _ N2). symmetry. f_equal.
    destruct n2; [apply Z.compare_gt_iff|apply Z.compare_lt_iff]; nia.
  - rewrite normal_digits_not_zero by done.
    change (str_eqb (sn_digits (scaled_number {| mantissa := lit "0"; scale := 0; unit_of := u2 |})) (lit "0")) with true.
    cbv iota. pose proof (normal_digits_pos _ N1). symmetry. f_equal.
    destruct n1; [apply Z.compare_lt_iff|apply Z.compare_gt_iff]; nia.
  - rewrite !normal_digits_not_zero by done. pose proof (normal_digits_pos _ N1). pose proof (normal_digits_pos _ N2).
    destruct (Bool.eqb n1 n2) eqn:En; cbn [negb].
    2: { symmetry. f_equal. assert (0 < digits_value d1 * 10 ^ (s1 - Z.min s1 s2)) by (by apply Z.mul_pos_pos).
         assert (0 < digits_value d2 * 10 ^ (s2 - Z.min s1 s2)) by (by apply Z.mul_pos_pos).
         destruct n1, n2; try done; [apply Z.compare_lt_iff|apply Z.compare_gt_iff]; lia. }
    apply eqb_prop in En as <-.
    rewrite !len_app in Hl1, Hl2. pose proof (len_nonneg (if n1 then lit "-" else [])).
    unfold MAX_MANTISSA_BYTES, MIN_SCALE, MAX_SCALE in *.
    edestruct (aligned_value {| sn_negative := n1; sn_digits := d1; sn_scale := s1; sn_unit := unit_as_str u1 |} (Z.min s1 s2))
      as (t1 & -> & V1 & D1 & L1); [reflexivity|done|cbn; lia|change MAX_ALLOCATION with 140737488355328; cbn [sn_scale sn_digits]; lia|].
    edestruct (aligned_value {| sn_negative := n1; sn_digits := d2; sn_scale := s2; sn_unit := unit_as_str u2 |} (Z.min s1 s2))
      as (t2 & -> & V2 & D2 & L2); [reflexivity|done|cbn; lia|change MAX_ALLOCATION with 140737488355328; cbn [sn_scale sn_digits]; lia|].
    cbn [mbind result_bind]. rewrite length_lex_compare, V1, V2 by done. cbn [sn_scale sn_digits]. rewrite sign_compare. do 2 f_equal; lia.
Qed.

(** ** Decimal text *)

Lemma split_once_app sep l r : sep ∉ l -> split_once sep (l ++ sep :: r) = Some (l, r).
Proof.
  induction l as [|b l IH]; intros Hn; cbn [app split_once]; [by rewrite Z.eqb_refl|].
  apply not_elem_of_cons in Hn as [Hb Hn]. rewrite (proj2 (Z.eqb_neq b sep)) by congruence. by rewrite IH.
Qed.

Lemma split_once_none sep l : sep ∉ l -> split_once sep l = None.
Proof.
  induction l as [|b l IH]; intros Hn; cbn [split_once]; [done|].
  apply not_elem_of_cons in Hn as [Hb Hn]. rewrite (proj2 (Z.eqb_neq b sep)) by congruence. by rewrite IH.
Qed.

Lemma split_once_Some sep s l r : split_once sep s = Some (l, r) -> s = l ++ sep :: r.
Proof.
  revert l. induction s as [|b s IH]; intros l H; cbn [split_once] in H; [done|].
  destruct (Z.eqb_spec b sep) as [->|_]; [by simplify_eq|].
  destruct (split_once sep s) as [[l' r']|]; [|done]. cbn in H. simplify_eq. cbn [app]. f_equal. by apply IH.
Qed.

Lemma drop_leading_spec b s :
  exists k, s = replicate k b ++ drop_leading b s /\ (forall d r, drop_leading b s = d :: r -> d <> b).
Proof.
  induction s as [|c s (k & E & H)]; [by exists O|]. cbn [drop_leading]. destruct (Z.eqb_spec c b) as [->|Hne].
  - exists (S k). split; [cbn; by f_equal|done].
  - exists O. split; [done|]. by intros d r [= <- _].
Qed.

Lemma pop_zeros_spec r : forall s r' s',
  pop_zeros r s = (r', s') -> exists k, r = replicate k 48 ++ r' /\ s' = s + Z.of_nat k /\ (forall d q, r' = d :: q -> d <> 48).
Proof.
  induction r as [|c r IH]; intros s r' s' H; cbn [pop_zeros] in H.
  - simplify_eq. exists O. split_and!; [done|lia|done].
  - destruct (Z.eqb_spec c 48) as [->|Hne].
    + apply IH in H as (k & -> & -> & Hd). exists (S k). split_and!; [done|lia|done].
    + simplify_eq. exists O. split_and!; [done|lia|]. by intros d q [= <- _].
Qed.

(** The digits after trimming, and the number they stand for. *)
Lemma trimmed_digits stripped fl rv sc :
  is_digits stripped -> (exists d r, stripped = d :: r /\ d <> 48) -> pop_zeros (rev stripped) (- fl) = (rv, sc) ->
  normal_digits (rev rv) /\ digits_value stripped = digits_value (rev rv) * 10 ^ (sc + fl) /\ - fl <= sc.
Proof.
  intros Hd (d & r & Es & Hne) H. apply pop_zeros_spec in H as (k & E & -> & Hh).
  assert (stripped = rev rv ++ replicate k 48) as Est.
  { rewrite <- (rev_involutive stripped), E, rev_app_distr. f_equal. symmetry.
    clear. induction k as [|k IH]; [done|]. cbn [replicate rev]. rewrite <- IH.
    change (48 :: replicate k 48) with (replicate (S k) 48). by rewrite replicate_S_end. }
  assert (rv <> []) as Hrv.
  { intros ->. cbn in Est. rewrite Est in Es. destruct k; [done|]. by injection Es as <- _. }
  destruct rv as [|c q]; [done|]. specialize (Hh c q eq_refl).
  assert (is_digits (rev (c :: q))) as Hdr by (rewrite Est in Hd; by apply Forall_app in Hd as [? _]).
  split_and!; [split_and!; [done| |exists (rev q), c; by split]| |lia].
  - destruct (rev (c :: q)) as [|e z] eqn:Er; [by apply (f_equal length) in Er; rewrite length_rev in Er|].
    rewrite Est in Es. cbn [app] in Es. simplify_eq. by do 2 eexists.
  - rewrite Est, digits_value_zeros_after. do 2 f_equal. lia.
Qed.

(** Reading the text as sign, integer and fraction digits. *)
Definition decimal_shape (s : str) (negative : bool) (integer : str) (fraction : option str) : Prop :=
  s = (if negative then lit "-" else []) ++ integer ++ (match fraction with Some f => lit "." ++ f | None => [] end) /\
  integer <> [] /\ is_digits integer /\ (forall f, fraction = Some f -> f <> [] /\ is_digits f).

Lemma decimal_shape_read s negative integer fraction :
  decimal_shape s negative integer fraction ->
  (match strip_prefix (lit "-") s with Some unsigned => (true, unsigned) | None => (false, s) end)
  = (negative, integer ++ (match fraction with Some f => lit "." ++ f | None => [] end)) /\
  (match split_once 46 (integer ++ (match fraction with Some f => lit "." ++ f | None => [] end)) with
   | Some (i, f) => (i, Some f)
   | None => (integer ++ (match fraction with Some f => lit "." ++ f | None => [] end), None)
   end) = (integer, fraction).
Proof.
  intros (-> & Hne & Hd & Hf). split.
  - destruct negative; [done|]. cbn [app]. destruct integer as [|d r]; [done|]. cbn [app].
    change (lit "-") with [45]. apply Forall_cons in Hd as [Hd%is_ascii_digit_spec _]. by rewrite strip_prefix_cons_ne by lia.
  - assert (46 ∉ integer) by (apply digits_not_elem; [done|lia]). change (lit ".") with [46].
    destruct fraction as [f|]; cbn [app]; [by rewrite split_once_app|]. rewrite app_nil_r. by rewrite split_once_none.
Qed.

Lemma digits_ascii ds : is_digits ds -> forallb (fun b => b <? 128) ds = true.
Proof.
  intros H. apply forallb_forall. intros b Hb. apply Z.ltb_lt. unfold is_digits in H. rewrite Forall_forall in H.
  apply list_elem_of_In, H, is_ascii_digit_spec in Hb. lia.
Qed.

Lemma decimal_shape_ascii s negative integer fraction :
  decimal_shape s negative integer fraction -> s <> [] /\ forallb (fun b => b <? 128) s = true.
Proof.
  intros (-> & Hne & Hd & Hf). split; [destruct negative, integer; done|].
  rewrite !forallb_app, (digits_ascii integer) by done. destruct negative, fraction as [f|]; try done;
    cbn [andb]; rewrite forallb_app, (digits_ascii f) by (by apply Hf); done.
Qed.

(** After the shape is known: trimming and the range checks. *)
Definition finish_decimal (negative : bool) (integer : str) (fraction : option str) (u : Unit) : sresult ScaledInteger :=
  let stripped := drop_leading 48 (integer ++ default [] fraction) in
  if bool_decide (stripped = []) then if negative then Err NegativeZero else try_from_parts (lit "0") 0 u
  else
    let '(reversed, scale) := pop_zeros (rev stripped) (- len (default [] fraction)) in
    try_from_parts (if negative then 45 :: rev reversed else rev reversed) scale u.

Lemma from_decimal_shape s u negative integer fraction :
  decimal_shape s negative integer fraction -> len s <= MAX_DECIMAL_INPUT_BYTES ->
  from_decimal_str s u = finish_decimal negative integer fraction u.
Proof.
  intros Hs Hl. destruct (decimal_shape_ascii _ _ _ _ Hs) as [Hne Ha].
  unfold from_decimal_str. rewrite bool_decide_eq_false_2, Z.gtb_ltb, (proj2 (Z.ltb_ge _ _)), Ha by done. cbn [orb negb].
  destruct (decimal_shape_read _ _ _ _ Hs) as [-> ->]. destruct Hs as (_ & Hi & Hd & Hf).
  rewrite bool_decide_eq_false_2, (proj2 (is_digits_forallb integer)) by done. cbn [orb negb].
  assert (match fraction with Some f => bool_decide (f = []) || negb (forallb is_ascii_digit f) | None => false end = false) as ->.
  { destruct fraction as [f|]; [|done]. destruct (Hf f eq_refl) as [? ?].
    by rewrite bool_decide_eq_false_2, (proj2 (is_digits_forallb f)). }
  unfold finish_decimal. by destruct fraction.
Qed.

Lemma from_decimal_or_shape s u :
  from_decimal_str s u = Err InvalidDecimal \/
  len s <= MAX_DECIMAL_INPUT_BYTES /\ exists negative integer fraction, decimal_shape s negative integer fraction.
Proof.
  unfold from_decimal_str. destruct (bool_decide (s = []) || (len s >? MAX_DECIMAL_INPUT_BYTES)) eqn:E1; [by left|].
  apply orb_false_iff in E1 as [_ E1]. rewrite Z.gtb_ltb in E1. apply Z.ltb_ge in E1.
  cbn [orb]. destruct (negb _); [by left|].
  destruct (match strip_prefix (lit "-") s with Some x => (true, x) | None => (false, s) end) as [neg uns] eqn:Es.
  destruct (match split_once 46 uns with Some (i, f) => (i, Some f) | None => (uns, None) end) as [i f] eqn:Ef.
  destruct (_ || _ || _) eqn:Ec; [by left|]. right. split; [done|]. exists neg, i, f.
  assert (s = (if neg then lit "-" else []) ++ uns) as ->.
  { destruct (strip_prefix (lit "-") s) eqn:E; simplify_eq; [by apply strip_prefix_Some in E|done]. }
  assert (uns = i ++ match f with Some g => lit "." ++ g | None => [] end) as ->.
  { destruct (split_once 46 uns) as [[? ?]|] eqn:E; simplify_eq; [by apply split_once_Some in E|by rewrite app_nil_r]. }
  apply orb_false_iff in Ec as [[Hi Hd]%orb_false_iff Hf]. bool_props. apply is_digits_forallb in Hd.
  split_and!; [done..|]. intros g ->. apply orb_false_iff in Hf as [? ?]. bool_props. by rewrite <- is_digits_forallb.
Qed.

Lemma denotes_shape s m k :
  denotes s m k <-> exists n i f, decimal_shape s n i f /\ m = (if n then -1 else 1) * digits_value (i ++ default [] f) /\ k = - len (default [] f).
Proof. unfold denotes, decimal_shape. naive_solver. Qed.

Lemma try_from_parts_Err m s u e :
  normal_digits m \/ (exists ds, m = 45 :: ds /\ normal_digits ds) -> try_from_parts m s u = Err e ->
  e = MantissaTooLong \/ e = ScaleOutOfRange.
Proof.
  intros Hm H. unfold try_from_parts in H. destruct (validate_parts m s) as [[]|e'] eqn:E; [done|]. cbn in H. simplify_eq.
  destruct (decide (len m <= MAX_MANTISSA_BYTES)) as [Hl|Hl].
  2: { left. unfold validate_parts in E. rewrite Z.gtb_ltb, (proj2 (Z.ltb_lt _ _)) in E by lia. by simplify_eq. }
  destruct (decide (MIN_SCALE <= s <= MAX_SCALE)) as [Hs|Hs].
  - assert (validate_parts m s = Ok tt) as Ho; [|congruence]. apply validate_parts_Ok. split_and!; [done|lia..|]. right.
    destruct Hm as [?|(ds & -> & ?)]; [by exists false, m|by exists true, ds].
  - right. unfold validate_parts in E. rewrite Z.gtb_ltb, (proj2 (Z.ltb_ge _ _)) in E by lia.
    destruct ((MIN_SCALE <=? s) && (s <=? MAX_SCALE)) eqn:Es; bool_props; [lia|]. by simplify_eq/=.
Qed.

(** The outcome for a text of the right shape. *)
Lemma finish_decimal_spec s n i f u :
  decimal_shape s n i f ->
  match finish_decimal n i f u with
  | Ok x => validate_parts (mantissa x) (scale x) = Ok tt /\ unit_of x = u /\
      exists m k, denotes s m k /\ value_compare (mantissa_value (mantissa x)) (scale x) m k = Eq
  | Err NegativeZero => starts_with (lit "-") s = true /\ exists k, denotes s 0 k
  | Err MantissaTooLong | Err ScaleOutOfRange => exists m k, denotes s m k
  | Err _ => False
  end.
Proof.
  intros Hs.
  assert (denotes s ((if n then -1 else 1) * digits_value (i ++ default [] f)) (- len (default [] f))) as Hden
    by (apply denotes_shape; by exists n, i, f).
  assert (is_digits (i ++ default [] f)) as Hd.
  { destruct Hs as (_ & _ & Hi & Hf). apply Forall_app. split; [done|]. destruct f as [g|]; [by apply Hf|constructor]. }
  unfold finish_decimal. destruct (drop_leading_spec 48 (i ++ default [] f)) as (k & Ek & Hh).
  set (stripped := drop_leading 48 (i ++ default [] f)) in *.
  assert (digits_value (i ++ default [] f) = digits_value stripped) as Hv by (rewrite Ek; apply digits_value_zeros).
  assert (is_digits stripped) as Hds by (rewrite Ek in Hd; by apply Forall_app in Hd as [_ ?]).
  case_bool_decide as Est.
  - rewrite Est in Hv. change (digits_value []) with 0 in Hv. rewrite Hv, Z.mul_0_r in Hden. destruct n.
    + split; [|by eexists]. destruct Hs as (-> & _). unfold starts_with. apply bool_decide_eq_true. by eexists.
    + cbn [try_from_parts]. change (validate_parts (lit "0") 0) with (@Ok ScaledIntegerErrorKind _ tt). cbn.
      split_and!; [done..|]. do 2 eexists. split; [exact Hden|]. unfold value_compare. by rewrite !Z.mul_0_l.
  - assert (exists d r, stripped = d :: r /\ d <> 48) as Hhd.
    { destruct stripped as [|d r]; [done|]. exists d, r. split; [done|by eapply Hh]. }
    destruct (pop_zeros _ _) as [rv sc] eqn:Ep. apply trimmed_digits in Ep as (Hn & Ev & Hsc); [|done..].
    destruct (try_from_parts _ sc u) as [x|e] eqn:Et.
    + unfold try_from_parts in Et. result_inv. cbn [mantissa scale unit_of].
      match goal with H : validate_parts _ _ = Ok ?t |- _ => destruct t; rename H into Hval end.
      split_and!; [done..|]. do 2 eexists. split; [exact Hden|]. unfold value_compare. apply Z.compare_eq_iff.
      assert (mantissa_value (if n then 45 :: rev rv else rev rv) = (if n then -1 else 1) * digits_value (rev rv)) as ->
        by (rewrite <- mantissa_value_signed by apply Hn; by destruct n).
      rewrite Hv, Ev. rewrite (Z.min_r sc) by lia. replace (- len (default [] f) - - len (default [] f)) with 0 by lia.
      replace (sc - - len (default [] f)) with (sc + len (default [] f)) by lia. rewrite Z.pow_0_r. lia.
    + apply try_from_parts_Err in Et as [->| ->]; [by do 2 eexists..|]. destruct n; [right; by eexists|by left].
Qed.

(** Decimal text is converted exactly, with no rounding: a success is in normal form, carries
    the given unit and denotes precisely the number written; the input is refused as
    [InvalidDecimal] only when it is not a plain decimal or longer than 1024 bytes, as
    [NegativeZero] only for a negative zero, and otherwise only for its size or scale. *)
Lemma from_decimal_exact s u :
  match from_decimal_str s u with
  | Ok x => validate_parts (mantissa x) (scale x) = Ok tt /\ unit_of x = u /\
      exists m k, denotes s m k /\ value_compare (mantissa_value (mantissa x)) (scale x) m k = Eq
  | Err InvalidDecimal => MAX_DECIMAL_INPUT_BYTES < len s \/ forall m k, ~ denotes s m k
  | Err NegativeZero => starts_with (lit "-") s = true /\ exists k, denotes s 0 k
  | Err MantissaTooLong | Err ScaleOutOfRange => exists m k, denotes s m k
  | Err _ => False
  end.
Proof.
  destruct (from_decimal_or_shape s u) as [E|(Hl & n & i & f & Hs)].
  - rewrite E. destruct (decide (len s <= MAX_DECIMAL_INPUT_BYTES)) as [Hl|Hl]; [right|left; lia].
    intros m k (n & i & f & Hs & _)%denotes_shape. pose proof (finish_decimal_spec s n i f u Hs) as Hf.
    by rewrite <- (from_decimal_shape s u n i f Hs Hl), E in Hf.
  - rewrite (from_decimal_shape s u n i f Hs Hl). pose proof (finish_decimal_spec s n i f u Hs) as Hf.
    by destruct (finish_decimal n i f u) as [x|[]].
Qed.
