(* ===== verification/SchemaSemantics.v ===== *)
(** * Local semantic rules of structured objects

    Models the schema dispatch and the local semantic checks of
    crates/synapse-schema/src/lib.rs ([select_schema], [validate_manifest],
    [validate_delegation_expiration], [validate_timestamp],
    [validate_valid_time], [validate_temporal_precision],
    [validate_scaled_integer], [validate_confidence], [escape_pointer]).  The
    JSON pointers that only appear in error messages are left out. *)

From stdpp Require Import base list numbers strings.
From Stdlib Require Import ZArith Lia.
From S2P Require Import Prelude Text TextFacts Timestamp TimestampFacts PortablePath Canonical CanonicalWrite CanonicalLaws.
From S2P Require Import CanonicalProps ScaledInteger.

#[local] Open Scope Z_scope.

Definition RECORD_SCHEMAS : list (str * str) :=
  [(lit "actor", lit "actor.schema.json");
   (lit "subject", lit "subject.schema.json");
   (lit "activity", lit "activity.schema.json");
   (lit "observation", lit "observation.schema.json");
   (lit "claim", lit "claim.schema.json");
   (lit "claim_reaction", lit "claim-reaction.schema.json");
   (lit "capture_profile", lit "capture-profile.schema.json");
   (lit "analysis_result", lit "analysis-result.schema.json");
   (lit "context_pack", lit "context-pack.schema.json");
   (lit "delegation_grant", lit "delegation-grant.schema.json");
   (lit "decision_feedback", lit "decision-feedback.schema.json");
   (lit "policy", lit "policy.schema.json");
   (lit "assurance", lit "assurance.schema.json");
   (lit "evidence_gap", lit "evidence-gap.schema.json");
   (lit "tombstone", lit "tombstone.schema.json")].

Definition select_schema (value : Value) : cresult str :=
  object_type ← ok_or (get_str value (lit "object_type")) (Core SchemaInvalid);
  if str_eqb object_type (lit "tree") then Ok (lit "manifest-tree.schema.json")
  else if str_eqb object_type (lit "commit") then Ok (lit "commit.schema.json")
  else if str_eqb object_type (lit "record") then
    record_type ← ok_or (get_str value (lit "record_type")) (Core SchemaInvalid);
    ok_or (snd <$> find (fun entry => str_eqb (fst entry) record_type) RECORD_SCHEMAS) (Core SchemaInvalid)
  else fail SchemaInvalid.

(** The loop over the entries of a manifest tree. *)
Fixpoint check_manifest_entries (entries : list (str * Value)) : cresult unit :=
  match entries with
  | [] => Ok tt
  | (segment, entry) :: entries =>
    if negb (is_portable_segment segment) then fail PathSegmentInvalid
    else
      match get_str entry (lit "entry_kind"), get_str entry (lit "oid") with
      | Some entry_kind, Some oid =>
        if negb (str_eqb (default [] (head (split_on 58 oid))) entry_kind) then fail ReferenceTypeMismatch
        else check_manifest_entries entries
      | _, _ => check_manifest_entries entries
      end
  end.

Definition validate_manifest (value : Value) : cresult unit :=
  match get value (lit "entries") ≫= as_object with
  | None => Ok tt
  | Some entries => check_manifest_entries entries
  end.

Definition validate_timestamp (value : str) : cresult unit :=
  match timestamp_parse value with Ok _ => Ok tt | Err _ => fail TimestampInvalid end.

(** [a < b] and [a > b] on [&str] *)
Definition str_lt (a b : str) : bool := bool_decide (lex_compare a b = Lt).
Definition str_gt (a b : str) : bool := bool_decide (lex_compare a b = Gt).

Definition validate_delegation_expiration (value : Value) : cresult unit :=
  match get_str value (lit "recorded_at") with
  | None => Ok tt
  | Some recorded_at =>
    match (get value (lit "payload") ≫= (fun payload => get payload (lit "expires_at"))) ≫= as_str with
    | None => Ok tt
    | Some expires_at =>
      validate_timestamp recorded_at;;
      validate_timestamp expires_at;;
      if str_lt expires_at recorded_at then fail IntervalInvalid else Ok tt
    end
  end.

Definition validate_valid_time (value : Value) : cresult unit :=
  if negb (bool_decide (get_str value (lit "kind") = Some (lit "interval"))) then Ok tt
  else
    match get_str value (lit "from"), get_str value (lit "to") with
    | Some from, Some to =>
      validate_timestamp from;;
      validate_timestamp to;;
      if str_gt from to then fail IntervalInvalid else Ok tt
    | _, _ => Ok tt
    end.

Definition scaled_integer (value : Value) : option ScaledNumber :=
  mantissa ← get_str value (lit "mantissa");
  scale ← get value (lit "scale") ≫= as_i64;
  unit ← get_str value (lit "unit");
  Some {| sn_negative := starts_with (lit "-") mantissa;
          sn_digits := default mantissa (strip_prefix (lit "-") mantissa);
          sn_scale := scale; sn_unit := unit |}.

Definition validate_temporal_precision (value : Value) : cresult unit :=
  let kind := get_str value (lit "kind") in
  if negb (bool_decide (kind = Some (lit "resolution")) || bool_decide (kind = Some (lit "uncertainty"))) then Ok tt
  else
    match get value (lit "value") ≫= scaled_integer with
    | None => Ok tt
    | Some number =>
      if sn_negative number || negb (str_eqb (sn_unit number) (lit "ms") || str_eqb (sn_unit number) (lit "s"))
      then fail FixedPointNotNormalized else Ok tt
    end.

Definition validate_scaled_integer (value : Value) : cresult unit :=
  match as_object value with
  | None => Ok tt
  | Some object =>
    match object_field object (lit "mantissa") ≫= as_str, object_field object (lit "scale") ≫= as_i64,
          object_field object (lit "unit") ≫= as_str with
    | Some mantissa, Some scale, Some unit =>
      match (u ← unit_from_str unit; try_from_parts mantissa scale u) with
      | Ok _ => Ok tt
      | Err _ => fail FixedPointNotNormalized
      end
    | _, _, _ => Ok tt
    end
  end.

Definition ratio_zero : ScaledNumber :=
  {| sn_negative := false; sn_digits := lit "0"; sn_scale := 0; sn_unit := lit "ratio" |}.
Definition ratio_one : ScaledNumber :=
  {| sn_negative := false; sn_digits := lit "1"; sn_scale := 0; sn_unit := lit "ratio" |}.

Definition validate_confidence (value : Value) : cresult unit :=
  let kind := get_str value (lit "kind") in
  if bool_decide (kind = Some (lit "probability")) then
    match get value (lit "value") ≫= scaled_integer with
    | None => Ok tt
    | Some number =>
      if negb (str_eqb (sn_unit number) (lit "ratio")) then fail FixedPointNotNormalized
      else
        with_zero ← compare_scaled number ratio_zero;
        if bool_decide (with_zero = Lt) then fail FixedPointNotNormalized
        else
          with_one ← compare_scaled number ratio_one;
          if bool_decide (with_one = Gt) then fail FixedPointNotNormalized else Ok tt
    end
  else if bool_decide (kind = Some (lit "interval")) then
    match get value (lit "lower") ≫= scaled_integer, get value (lit "upper") ≫= scaled_integer with
    | Some lower, Some upper =>
      if negb (str_eqb (sn_unit lower) (sn_unit upper)) then fail FixedPointNotNormalized
      else
        bounds ← compare_scaled lower upper;
        if bool_decide (bounds = Gt) then fail IntervalInvalid else Ok tt
    | _, _ => Ok tt
    end
  else Ok tt.

Definition validate_object_semantics (value : Value) (schema_name : str) : cresult unit :=
  (if str_eqb schema_name (lit "manifest-tree.schema.json") then validate_manifest value else Ok tt);;
  match get_str value (lit "record_type") with
  | Some record_type =>
    if str_eqb record_type (lit "observation") && bool_decide (is_Some (get value (lit "valid_time")))
    then fail SchemaInvalid
    else if str_eqb record_type (lit "delegation_grant") then validate_delegation_expiration value
    else Ok tt
  | None => Ok tt
  end.

(** [part.replace('~', "~0").replace('/', "~1")] *)
Definition replace_byte (b : byte) (by_ : str) (s : str) : str := flat_map (fun c => if c =? b then by_ else [c]) s.
Definition escape_pointer (part : str) : str := replace_byte 47 (lit "~1") (replace_byte 126 (lit "~0") part).

(** ** Facts *)

Lemma validate_timestamp_Ok s u : validate_timestamp s = Ok u <-> exists t, timestamp_parse s = Ok t.
Proof. destruct u. unfold validate_timestamp. destruct (timestamp_parse s); naive_solver. Qed.

Lemma timestamp_text_order a b t u :
  timestamp_parse a = Ok t -> timestamp_parse b = Ok u -> lex_compare a b = (unix_nanos t ?= unix_nanos u).
Proof.
  unfold timestamp_parse. intros Ha Hb. result_inv.
  repeat match goal with H : parse_canonical_timestamp_unix_nanos _ = _ |- _ =>
    apply parse_timestamp_inv in H as (? & ? & -> & ->) end.
  cbn [unix_nanos]. by apply fields_text_compare.
Qed.

(** Closes a closed [NoDup] goal by running its decision procedure. *)
Ltac nodup_decide :=
  match goal with |- NoDup ?l => apply (proj1 (bool_decide_eq_true (NoDup l))); vm_compute; reflexivity end.

(** ** Properties *)

(** A closed interval is accepted exactly when both ends are canonical timestamps and the
    first instant is not after the second, although the code compares the texts. *)
Lemma valid_time_interval value from to :
  get_str value (lit "kind") = Some (lit "interval") -> get_str value (lit "from") = Some from ->
  get_str value (lit "to") = Some to ->
  (validate_valid_time value = Ok tt <->
   exists t u, timestamp_parse from = Ok t /\ timestamp_parse to = Ok u /\ unix_nanos t <= unix_nanos u).
Proof.
  intros Hk Hf Ht. unfold validate_valid_time. rewrite bool_decide_eq_true_2, Hf, Ht by done. cbn [negb]. split.
  - intros H. result_inv. repeat match goal with H : validate_timestamp _ = _ |- _ => apply validate_timestamp_Ok in H as [? ?] end.
    do 2 eexists. split_and!; [done..|]. unfold str_gt in H. case_bool_decide as Hg; [done|].
    erewrite timestamp_text_order in Hg by done. by apply Z.compare_le_iff.
  - intros (t & u & Hft & Hut & Hle). unfold validate_timestamp, str_gt. rewrite Hft, Hut. cbn [mbind result_bind].
    rewrite bool_decide_eq_false_2; [done|]. erewrite timestamp_text_order by done. by apply Z.compare_le_iff.
Qed.

Lemma check_manifest_entries_Ok es u :
  check_manifest_entries es = Ok u <->
  Forall (fun e => is_portable_segment (fst e) = true /\
    forall kind oid, get_str (snd e) (lit "entry_kind") = Some kind -> get_str (snd e) (lit "oid") = Some oid ->
      head (split_on 58 oid) = Some kind) es.
Proof.
  destruct u. induction es as [|[seg e] es IH]; cbn [check_manifest_entries]; [by split|].
  rewrite Forall_cons, <- IH. cbn [fst snd]. destruct (is_portable_segment seg); cbn [negb]; [|naive_solver].
  destruct (get_str e (lit "entry_kind")) as [kind|]; [|naive_solver].
  destruct (get_str e (lit "oid")) as [oid|]; [|naive_solver].
  destruct (split_on_nonempty 58 oid) as (p & ps & Es). rewrite Es. cbn [head default from_option id].
  destruct (str_eqb p kind) eqn:E; cbn [negb].
  - apply str_eqb_eq in E as ->. split; [|naive_solver]. intros ?. split_and!; [done| |done].
    intros ? ? [= <-] [= <-]. by rewrite Es.
  - split; [done|]. intros [[_ H] _]. specialize (H kind oid eq_refl eq_refl). rewrite Es in H. injection H as ->.
    by rewrite (proj2 (str_eqb_eq _ _) eq_refl) in E.
Qed.

(** A manifest tree is accepted exactly when every entry name is a portable segment (so no
    name can climb out of its directory) and every entry's OID names an object of the kind
    the entry declares. *)
Lemma manifest_accepts value entries :
  get value (lit "entries") = Some (Obj entries) ->
  (validate_manifest value = Ok tt <->
   Forall (fun e => is_portable_segment (fst e) = true /\
     forall kind oid, get_str (snd e) (lit "entry_kind") = Some kind -> get_str (snd e) (lit "oid") = Some oid ->
       head (split_on 58 oid) = Some kind) entries).
Proof. intros H. unfold validate_manifest. rewrite H. apply check_manifest_entries_Ok. Qed.

(** ** Comparisons that cannot be served *)

(** A comparison that pads one of its numbers to more than a string can hold. *)
Definition oversized (left right : ScaledNumber) : Prop :=
  sn_digits left <> lit "0" /\ sn_digits right <> lit "0" /\ sn_negative left = sn_negative right /\
  let common_scale := Z.min (sn_scale left) (sn_scale right) in
  MAX_ALLOCATION < Z.max (len (sn_digits left) + (sn_scale left - common_scale))
                         (len (sn_digits right) + (sn_scale right - common_scale)).

Lemma aligned_cases n c : c <= sn_scale n ->
  (aligned n c = Err Aborted /\ MAX_ALLOCATION < len (sn_digits n) + (sn_scale n - c)) \/
  ((exists t, aligned n c = Ok t) /\ len (sn_digits n) + (sn_scale n - c) <= MAX_ALLOCATION).
Proof.
  intros Hc. unfold aligned, string_with_capacity. rewrite Z.max_r, Z.gtb_ltb by lia.
  destruct (Z.ltb_spec MAX_ALLOCATION (len (sn_digits n) + (sn_scale n - c))); [left|right]; split; try done. by eexists.
Qed.

(** [compare_scaled] answers unless it pads too far. *)
Lemma compare_scaled_Err left right e : compare_scaled left right = Err e <-> e = Aborted /\ oversized left right.
Proof.
  unfold compare_scaled, oversized.
  destruct (str_eqb (sn_digits left) (lit "0")) eqn:El; [apply str_eqb_eq in El; split; [done|by intros (_ & [] & _)]|].
  destruct (str_eqb (sn_digits right) (lit "0")) eqn:Er; [apply str_eqb_eq in Er; split; [done|by intros (_ & _ & [] & _)]|].
  apply str_eqb_neq in El, Er.
  destruct (Bool.eqb _ _) eqn:Es; cbn [negb]; [apply eqb_prop in Es|apply eqb_false_iff in Es; naive_solver]. cbv zeta.
  set (c := Z.min _ _). assert (c <= sn_scale left /\ c <= sn_scale right) as [Hl Hr] by lia.
  destruct (aligned_cases left c Hl) as [[-> ?]|[[t ->] ?]]; cbn [mbind result_bind];
    [|destruct (aligned_cases right c Hr) as [[-> ?]|[[t' ->] ?]]; cbn [mbind result_bind]].
  1-2: split; [intros [= <-]; split_and!; [done..|lia]|by intros [-> _]].
  split; [done|]. intros (_ & _ & _ & _ & ?). lia.
Qed.

(** A confidence whose comparison pads too far: a probability against one, or the bounds of
    an interval against each other. *)
Definition oversized_confidence (value : Value) : Prop :=
  (get_str value (lit "kind") = Some (lit "probability") /\
   exists number, get value (lit "value") ≫= scaled_integer = Some number /\ sn_unit number = lit "ratio" /\
     oversized number ratio_one) \/
  (get_str value (lit "kind") = Some (lit "interval") /\
   exists lower upper, get value (lit "lower") ≫= scaled_integer = Some lower /\
     get value (lit "upper") ≫= scaled_integer = Some upper /\ sn_unit lower = sn_unit upper /\ oversized lower upper).

Lemma compare_with_zero number : exists c, compare_scaled number ratio_zero = Ok c /\ (oversized number ratio_one -> c <> Lt).
Proof.
  unfold compare_scaled. change (str_eqb (sn_digits ratio_zero) (lit "0")) with true. cbv iota.
  destruct (str_eqb (sn_digits number) (lit "0")); (eexists; split; [reflexivity|]); [done|].
  intros (_ & _ & -> & _). done.
Qed.

(** A confidence is refused with a code, or the process ends, exactly on those. *)
Lemma validate_confidence_Err value e :
  validate_confidence value = Err e -> (exists code, e = Core code) \/ e = Aborted /\ oversized_confidence value.
Proof.
  unfold validate_confidence, oversized_confidence. case_bool_decide as Hp.
  - destruct (get value (lit "value") ≫= scaled_integer) as [number|] eqn:En; [|done].
    destruct (str_eqb (sn_unit number) (lit "ratio")) eqn:Eu; cbn [negb]; [apply str_eqb_eq in Eu|intros [= <-]; left; by eexists].
    destruct (compare_with_zero number) as (c & -> & _). cbn [mbind result_bind].
    case_bool_decide; [intros [= <-]; left; by eexists|]. intros [Hc|(c' & _ & Hc)]%bind_Err.
    + apply compare_scaled_Err in Hc as [-> ?]. right. split; [done|]. left. split; [done|]. by exists number.
    + case_bool_decide; [|done]. injection Hc as <-. left. by eexists.
  - case_bool_decide as Hi; [|done].
    destruct (get value (lit "lower") ≫= scaled_integer) as [lower|] eqn:El; [|done].
    destruct (get value (lit "upper") ≫= scaled_integer) as [upper|] eqn:Eu; [|done].
    destruct (str_eqb (sn_unit lower) (sn_unit upper)) eqn:E; cbn [negb]; [apply str_eqb_eq in E|intros [= <-]; left; by eexists].
    intros [H|(c & _ & H)]%bind_Err.
    + apply compare_scaled_Err in H as [-> ?]. right. split; [done|]. right. split; [done|]. by exists lower, upper.
    + case_bool_decide; [|done]. injection H as <-. left. by eexists.
Qed.

Lemma oversized_confidence_aborts value : oversized_confidence value -> validate_confidence value = Err Aborted.
Proof.
  unfold validate_confidence. intros [[-> (number & -> & Hu & Ho)]|[-> (lower & upper & -> & -> & Hu & Ho)]].
  - rewrite bool_decide_eq_true_2, (proj2 (str_eqb_eq _ _) Hu) by done. cbn [negb].
    destruct (compare_with_zero number) as (c & -> & Hc). cbn [mbind result_bind]. rewrite bool_decide_eq_false_2 by auto.
    by rewrite (proj2 (compare_scaled_Err _ _ Aborted)).
  - rewrite bool_decide_eq_false_2, bool_decide_eq_true_2, (proj2 (str_eqb_eq _ _) Hu) by done. cbn [negb].
    by rewrite (proj2 (compare_scaled_Err _ _ Aborted)).
Qed.

(** [v] is part of [w]. *)
Inductive within (v : Value) : Value -> Prop :=
| within_self : within v v
| within_item w vs : w ∈ vs -> within v w -> within v (Arr vs)
| within_field k w es : (k, w) ∈ es -> within v w -> within v (Obj es).

Definition oversized_within (value : Value) : Prop := exists v, within v value /\ oversized_confidence v.

(** An error has a code, or else the process ends, and only where [P] holds. *)
Definition codes_or (P : Prop) {A} (r : cresult A) : Prop :=
  forall e, r = Err e -> (exists code, e = Core code) \/ e = Aborted /\ P.

Lemma codes_or_coded P {A} (r : cresult A) : coded r -> codes_or P r.
Proof. intros Hr e He. left. by apply Hr. Qed.

Lemma codes_or_mono (P Q : Prop) {A} (r : cresult A) : (P -> Q) -> codes_or P r -> codes_or Q r.
Proof. intros HPQ Hr e He. destruct (Hr e He) as [?|[-> ?]]; [by left|right; auto]. Qed.

Lemma codes_or_bind P {A B} (m : cresult A) (f : A -> cresult B) :
  codes_or P m -> (forall a, m = Ok a -> codes_or P (f a)) -> codes_or P (m ≫= f).
Proof. intros Hm Hf e [He|(a & Ha & He)]%bind_Err; [by apply Hm|by eapply Hf]. Qed.

Lemma validate_confidence_codes value : codes_or (oversized_within value) (validate_confidence value).
Proof.
  intros e He. apply validate_confidence_Err in He as [?|[-> ?]]; [by left|right]. split; [done|]. exists value.
  split; [constructor|done].
Qed.
