(* ===== verification/Registry.v ===== *)
(** * The schema registry and structured-object ingestion

    Models [SchemaRegistry] of crates/synapse-schema/src/lib.rs: building the
    registry ([SchemaRegistry::new] with its two audits), the walk that applies
    schema annotations to a value ([expand_entries], [resolve_schema_ref],
    [property_entries], [item_entries], [validate_annotated]), and ingestion.

    A [serde_json::Value] is a [Json]; its object is a [BTreeMap], here the list
    of its entries in key order.  The code compares schema nodes by address: an
    entry carries the address of its node, which is the document's name and the
    child positions that lead to the node.  Parameters: the text parser and
    [pointer] of [serde_json] ([json_from_str], [json_pointer], the latter
    answering child positions), and the validators compiled by [jsonschema]
    ([compile]).  [visit] runs on fuel, one more than the number of schema nodes. *)

From stdpp Require Import base list numbers strings gmap sets.
From Stdlib Require Import ZArith Lia.
From S2P Require Import Prelude Text Canonical Oid ScaledInteger SchemaSemantics.

#[local] Open Scope Z_scope.

Definition SCHEMA_BASE : str := lit "https://schemas.synapsegit.dev/core/v0.1/".

(** ** JSON documents *)

Unset Elimination Schemes.
Inductive Json :=
| JNull
| JBool (b : bool)
| JNumber (n : Z)
| JString (s : str)
| JArray (values : list Json)
| JObject (entries : list (str * Json)).
Set Elimination Schemes.

(** [BTreeMap::insert] on the entries in key order. *)
Fixpoint btree_insert {A} (key : str) (value : A) (entries : list (str * A)) : list (str * A) :=
  match entries with
  | [] => [(key, value)]
  | (k, v) :: rest =>
    match lex_compare key k with
    | Lt => (key, value) :: entries
    | Eq => (key, value) :: rest
    | Gt => (k, v) :: btree_insert key value rest
    end
  end.

(** [iterator.collect::<BTreeMap<_, _>>()] *)
Definition collect_map {A} (entries : list (str * A)) : list (str * A) :=
  foldl (fun m e => btree_insert (fst e) (snd e) m) [] entries.

Fixpoint to_json_value (value : Value) : Json :=
  match value with
  | Null => JNull
  | Bool b => JBool b
  | Integer i => JNumber i
  | Str s => JString s
  | Arr values => JArray (map to_json_value values)
  | Obj entries => JObject (collect_map (map (fun e => (fst e, to_json_value (snd e))) entries))
  end.

(** The child of an object under a key, with its position. *)
Definition json_child (j : Json) (key : str) : option (nat * Json) :=
  match j with
  | JObject entries => '(i, e) ← list_find (fun e => fst e = key) entries; Some (i, snd e)
  | _ => None
  end.

Definition json_get (j : Json) (key : str) : option Json := snd <$> json_child j key.
Definition json_str (j : Json) : option str := match j with JString s => Some s | _ => None end.
Definition json_bool (j : Json) : option bool := match j with JBool b => Some b | _ => None end.
Definition json_array (j : Json) : option (list Json) := match j with JArray l => Some l | _ => None end.
Definition is_object (j : Json) : bool := match j with JObject _ => true | _ => false end.

(** The node at a sequence of child positions. *)
Fixpoint json_at (j : Json) (path : list nat) : option Json :=
  match path with
  | [] => Some j
  | i :: path =>
    match j with
    | JArray values => child ← values !! i; json_at child path
    | JObject entries => child ← entries !! i; json_at (snd child) path
    | _ => None
    end
  end.

(** Every sequence of child positions of a document. *)
Fixpoint json_paths (j : Json) : list (list nat) :=
  [] :: match j with
        | JArray values => concat (imap (fun i ps => map (cons i) ps) (map json_paths values))
        | JObject entries => concat (imap (fun i ps => map (cons i) ps) (map (fun e => json_paths (snd e)) entries))
        | _ => []
        end.

(** A loop that stops at the first error. *)
Section Each.
Context {A : Type} (f : A -> cresult unit).

Fixpoint each (l : list A) : cresult unit :=
  match l with
  | [] => Ok tt
  | x :: l => f x;; each l
  end.
End Each.

(** ** Building the registry *)

Fixpoint audit_schema_node (value : Json) : cresult unit :=
  match value with
  | JArray values => each audit_schema_node values
  | JObject object =>
    (if bool_decide (json_get value (lit "type") ≫= json_str = Some (lit "array")) then
       let order := json_get value (lit "x-synapse-order") ≫= json_str in
       if negb (bool_decide (order = Some (lit "set")) || bool_decide (order = Some (lit "sequence"))) then
         fail SchemaInvalid
       else if bool_decide (order = Some (lit "set")) &&
               negb (bool_decide (json_get value (lit "uniqueItems") ≫= json_bool = Some true)) then
         fail SchemaInvalid
       else Ok tt
     else Ok tt);;
    each (fun e => audit_schema_node (snd e)) object
  | _ => Ok tt
  end.

Definition concrete_schema_names : list str :=
  map snd RECORD_SCHEMAS ++ [lit "manifest-tree.schema.json"; lit "commit.schema.json"].

Section Registry.
Variable nfc : list char -> list char.
Variable sha256 : list byte -> list byte.
Variable json_from_str : str -> option Json.
Variable json_pointer : Json -> str -> option (list nat).

(** A compiled validator answers whether an instance is valid. *)
Record SchemaRegistry := {
  documents : gmap str Json;
  validators : gmap str (Json -> bool);
}.

Variable compile : gmap str Json -> Json -> option (Json -> bool).

Definition audit_record_dispatch (documents : gmap str Json) : cresult unit :=
  envelope ← ok_or (document ← documents !! lit "record-envelope.schema.json";
                    path ← json_pointer document (lit "/properties/record_type/enum");
                    json_at document path ≫= json_array) (Core SchemaInvalid);
  let declared : gset str := list_to_set (omap json_str envelope) in
  let expected : gset str := list_to_set (map fst RECORD_SCHEMAS) in
  if negb (bool_decide (declared = expected)) then fail SchemaInvalid
  else
    dispatcher ← ok_or (document ← documents !! lit "record.schema.json";
                        json_get document (lit "oneOf") ≫= json_array) (Core SchemaInvalid);
    let dispatched : gset str := list_to_set (omap (fun entry => json_get entry (lit "$ref") ≫= json_str) dispatcher) in
    let expected_files : gset str := list_to_set (map snd RECORD_SCHEMAS) in
    if negb (bool_decide (dispatched = expected_files)) then fail SchemaInvalid else Ok tt.

(** The loop over [EMBEDDED_SCHEMAS], which the build includes from the spec files. *)
Fixpoint load_documents (embedded : list (str * str)) (documents : gmap str Json) : cresult (gmap str Json) :=
  match embedded with
  | [] => Ok documents
  | (name, source) :: embedded =>
    document ← ok_or (json_from_str source) (Core SchemaInvalid);
    match document with
    | JObject object =>
      let document := JObject (btree_insert (lit "$id") (JString (SCHEMA_BASE ++ name)) object) in
      audit_schema_node document;;
      load_documents embedded (<[name := document]> documents)
    | _ => fail SchemaInvalid
    end
  end.

Fixpoint compile_validators (names : list str) (documents : gmap str Json) (validators : gmap str (Json -> bool))
  : cresult (gmap str (Json -> bool)) :=
  match names with
  | [] => Ok validators
  | schema_name :: names =>
    schema ← ok_or (documents !! schema_name) (Core SchemaInvalid);
    validator ← ok_or (compile documents schema) (Core SchemaInvalid);
    compile_validators names documents (<[schema_name := validator]> validators)
  end.

Definition registry_new (embedded : list (str * str)) : cresult SchemaRegistry :=
  documents ← load_documents embedded ∅;
  audit_record_dispatch documents;;
  validators ← compile_validators concrete_schema_names documents ∅;
  Ok {| documents := documents; validators := validators |}.

(** ** Schema entries *)

Record SchemaEntry := { se_schema : Json; se_file : str; se_path : list nat }.

(** What [*const JsonValue] identifies. *)
Definition address (entry : SchemaEntry) : str * list nat := (se_file entry, se_path entry).

Definition entry_get (entry : SchemaEntry) (key : str) : option SchemaEntry :=
  '(i, child) ← json_child (se_schema entry) key;
  Some {| se_schema := child; se_file := se_file entry; se_path := se_path entry ++ [i] |}.

(** [entry.schema.get(key).and_then(JsonValue::as_str)] *)
Definition entry_str (entry : SchemaEntry) (key : str) : option str :=
  json_get (se_schema entry) key ≫= json_str.

(** The children of the array under a key. *)
Definition entry_items (entry : SchemaEntry) (key : str) : list SchemaEntry :=
  match entry_get entry key with
  | Some array =>
    match se_schema array with
    | JArray values =>
      imap (fun i child => {| se_schema := child; se_file := se_file array; se_path := se_path array ++ [i] |}) values
    | _ => []
    end
  | None => []
  end.

Section Walk.
Variable registry : SchemaRegistry.

Definition root_entry (file : str) : option SchemaEntry :=
  document ← documents registry !! file;
  Some {| se_schema := document; se_file := file; se_path := [] |}.

Definition resolve_schema_ref (reference base_file : str) : cresult SchemaEntry :=
  let '(file_part, fragment) := default (reference, []) (split_once 35 reference) in
  let requested := if bool_decide (file_part = []) then base_file else file_part in
  document ← ok_or (root_entry requested) (Core SchemaInvalid);
  if bool_decide (fragment = []) then Ok document
  else if negb (starts_with (lit "/") fragment) then fail SchemaInvalid
  else
    path ← ok_or (json_pointer (se_schema document) fragment) (Core SchemaInvalid);
    schema ← ok_or (json_at (se_schema document) path) (Core SchemaInvalid);
    Ok {| se_schema := schema; se_file := requested; se_path := path |}.

(** [seen] and [output] of [expand_entries]. *)
Definition Visited : Type := gset (str * list nat) * list SchemaEntry.

Fixpoint visit (fuel : nat) (entry : SchemaEntry) (state : Visited) : option Visited :=
  match fuel with
  | O => None
  | S fuel =>
    if negb (is_object (se_schema entry)) || bool_decide (address entry ∈ fst state) then Some state
    else
      let state := ({[ address entry ]} ∪ fst state, snd state ++ [entry]) in
      state ← match entry_str entry (lit "$ref") with
              | Some reference =>
                match resolve_schema_ref reference (se_file entry) with
                | Ok resolved => visit fuel resolved state
                | Err _ => Some state
                end
              | None => Some state
              end;
      foldl (fun state child => state ← state; visit fuel child state) (Some state)
        (concat (map (entry_items entry) [lit "allOf"; lit "oneOf"; lit "anyOf"]))
  end.

Definition schema_nodes : list (str * list nat) :=
  concat (map (fun d => map (pair (fst d)) (json_paths (snd d))) (map_to_list (documents registry))).

Definition expand_entries (entries : list SchemaEntry) : option (list SchemaEntry) :=
  snd <$> foldl (fun state entry => state ← state; visit (S (length schema_nodes)) entry state)
                (Some (∅, [])) entries.

Definition expand (entries : list SchemaEntry) : cresult (list SchemaEntry) := ok_or (expand_entries entries) OutOfFuel.

Definition property_entry (property : str) (entry : SchemaEntry) : option SchemaEntry :=
  match entry_get entry (lit "properties") ≫= (fun properties => entry_get properties property) with
  | Some schema => Some schema
  | None =>
    schema ← entry_get entry (lit "additionalProperties");
    if is_object (se_schema schema) then Some schema else None
  end.

Definition property_entries (entries : list SchemaEntry) (property : str) : cresult (list SchemaEntry) :=
  expanded ← expand entries;
  Ok (omap (M:=list) (property_entry property) expanded).

Definition item_entry (entry : SchemaEntry) : option SchemaEntry :=
  schema ← entry_get entry (lit "items");
  if is_object (se_schema schema) then Some schema else None.

Definition item_entries (entries : list SchemaEntry) : cresult (list SchemaEntry) :=
  expanded ← expand entries;
  Ok (omap (M:=list) item_entry expanded).

Definition entries_include_common_def (expanded : list SchemaEntry) (definition : str) : bool :=
  match (common ← root_entry (lit "common.schema.json");
         definitions ← entry_get common (lit "$defs");
         entry_get definitions definition) with
  | None => false
  | Some target => existsb (fun entry => bool_decide (address entry = address target)) expanded
  end.

(** ** The annotation walk *)

Definition validate_string (value : str) (expanded : list SchemaEntry) : cresult unit :=
  let annotated name := existsb (fun entry => bool_decide (entry_str entry (lit "x-synapse-string") = Some name)) expanded in
  if annotated (lit "identifier-nfc") && negb (is_nfc nfc value) then fail IdentifierNotNfc
  else if annotated (lit "canonical-timestamp") then validate_timestamp value
  else Ok tt.

Fixpoint array_order (expanded : list SchemaEntry) (order : option str) : cresult (option str) :=
  match expanded with
  | [] => Ok order
  | entry :: expanded =>
    match entry_str entry (lit "x-synapse-order") with
    | Some candidate =>
      if match order with Some current => negb (str_eqb current candidate) | None => false end
      then fail SchemaInvalid
      else array_order expanded (Some candidate)
    | None => array_order expanded order
    end
  end.

Fixpoint check_set (limits : ResourceLimits) (values : list Value) (previous : option (list byte)) : cresult unit :=
  match values with
  | [] => Ok tt
  | item :: values =>
    encoded ← canonical_bytes_with_limits nfc item limits;
    match previous with
    | Some previous =>
      match lex_compare previous encoded with
      | Eq => fail SetDuplicate
      | Gt => fail SetNotSorted
      | Lt => check_set limits values (Some encoded)
      end
    | None => check_set limits values (Some encoded)
    end
  end.

(** The rules of the common definitions an object is annotated with. *)
Definition validate_common (value : Value) (expanded : list SchemaEntry) : cresult unit :=
  let rule definition check := if entries_include_common_def expanded definition then check value else Ok tt in
  rule (lit "ScaledInteger") validate_scaled_integer;;
  rule (lit "ValidTime") validate_valid_time;;
  rule (lit "TemporalPrecision") validate_temporal_precision;;
  rule (lit "Confidence") validate_confidence.

Fixpoint validate_annotated (limits : ResourceLimits) (value : Value) (entries : list SchemaEntry) : cresult unit :=
  expanded ← expand entries;
  match value with
  | Str s => validate_string s expanded
  | Arr values =>
    order ← array_order expanded None;
    (if bool_decide (order = Some (lit "set")) then check_set limits values None else Ok tt);;
    child_entries ← item_entries expanded;
    each (fun child => validate_annotated limits child child_entries) values
  | Obj object =>
    validate_common value expanded;;
    each (fun e => child_entries ← property_entries expanded (fst e);
                   validate_annotated limits (snd e) child_entries) object
  | Null | Bool _ | Integer _ => Ok tt
  end.

(** ** Validation and ingestion *)

Definition validate_selected (value : Value) (schema_name : str) (limits : ResourceLimits) : cresult unit :=
  root ← ok_or (root_entry schema_name) (Core SchemaInvalid);
  validate_annotated limits value [root];;
  validate_object_semantics value schema_name;;
  validator ← ok_or (validators registry !! schema_name) (Core SchemaInvalid);
  if negb (validator (to_json_value value)) then fail SchemaInvalid else Ok tt.

Definition validate_with_limits (value : Value) (limits : ResourceLimits) : cresult unit :=
  canonical_bytes_with_limits nfc value limits;;
  schema_name ← select_schema value;
  validate_selected value schema_name limits.

Definition validate (value : Value) : cresult unit := validate_with_limits value default_limits.

Record ValidatedObject := {
  vo_value : Value;
  vo_canonical_bytes : list byte;
  vo_oid : str;
  vo_schema_name : str;
}.

Definition finish_ingestion (value : Value) (limits : ResourceLimits) (claimed_oid : option str)
  : cresult ValidatedObject :=
  canonical_bytes ← canonical_bytes_with_limits nfc value limits;
  schema_name ← select_schema value;
  validate_selected value schema_name limits;;
  oid ← structured_oid_unchecked_with_limits sha256 nfc value limits;
  if match claimed_oid with Some claimed_oid => negb (str_eqb claimed_oid oid) | None => false end
  then fail OidMismatch
  else Ok {| vo_value := value; vo_canonical_bytes := canonical_bytes; vo_oid := oid; vo_schema_name := schema_name |}.

Definition ingest_with_limits (input : list byte) (limits : ResourceLimits) : cresult ValidatedObject :=
  value ← parse_strict_with_limits nfc input limits;
  finish_ingestion value limits None.

Definition ingest_claimed_with_limits (claimed_oid : str) (input : list byte) (limits : ResourceLimits)
  : cresult ValidatedObject :=
  value ← parse_strict_with_limits nfc input limits;
  finish_ingestion value limits (Some claimed_oid).

Definition ingest (input : list byte) : cresult ValidatedObject := ingest_with_limits input default_limits.
Definition ingest_claimed (claimed_oid : str) (input : list byte) : cresult ValidatedObject :=
  ingest_claimed_with_limits claimed_oid input default_limits.
End Walk.
End Registry.
