(* ===== verification/RegistryProps.v ===== *)
(** * Schema registry: lemmas and properties *)

From stdpp Require Import base list numbers strings gmap sorting sets.
From Stdlib Require Import ZArith Lia.
From S2P Require Import Sorting TextFacts PortablePath ScaledInteger Prelude Text Canonical CanonicalWrite CanonicalLaws CanonicalProps.
From S2P Require Import Oid SchemaSemantics Registry.

#[local] Open Scope Z_scope.

(** ** Validation does not depend on the order of object entries, and always ends

    The accessors, the semantic rules, the annotation walk and the JSON instance
    handed to the validator are the same for a value and its canonical form; the
    expansion of schema entries never runs out of fuel. *)

(** ** [BTreeMap] *)

Section BTree.
Context {A : Type}.
Implicit Types (m l : list (str * A)).

Definition key_cmp (e f : str * A) : comparison := lex_compare (fst e) (fst f).

Lemma btree_insert_perm k v m : k ∉ map fst m -> btree_insert k v m ≡ₚ (k, v) :: m.
Proof.
  induction m as [|[k' v'] m IH]; cbn [btree_insert map fst]; [done|].
  intros [Hne Hk]%not_elem_of_cons. destruct (lex_compare k k') eqn:E; [|done|].
  - by apply lex_compare_eq in E.
  - rewrite IH by done. apply Permutation_swap.
Qed.

Lemma btree_insert_head k v m e :
  HdRel (cmp_lt key_cmp) e m -> key_cmp e (k, v) = Lt -> HdRel (cmp_lt key_cmp) e (btree_insert k v m).
Proof.
  intros Hm He. destruct m as [|[k' v'] m]; cbn [btree_insert]; [by constructor|].
  inversion Hm; subst. destruct (lex_compare k k'); by constructor.
Qed.

Lemma btree_insert_sorted k v m : Sorted (cmp_lt key_cmp) m -> Sorted (cmp_lt key_cmp) (btree_insert k v m).
Proof.
  induction 1 as [|[k' v'] m Hm IH Hh]; cbn [btree_insert]; [repeat constructor|].
  destruct (lex_compare k k') eqn:E.
  - apply lex_compare_eq in E as ->. constructor; [done|]. by destruct Hh; constructor.
  - constructor; [by constructor|]. by constructor.
  - constructor; [done|]. apply btree_insert_head; [done|]. unfold key_cmp. cbn [fst]. by apply lex_compare_gt_lt.
Qed.

Lemma collect_map_from l : forall m,
  NoDup (map fst (m ++ l)) -> Sorted (cmp_lt key_cmp) m ->
  let r := foldl (fun m e => btree_insert (fst e) (snd e) m) m l in Sorted (cmp_lt key_cmp) r /\ r ≡ₚ m ++ l.
Proof.
  induction l as [|[k v] l IH]; intros m Hn Hs; cbn [foldl fst snd]; [by rewrite app_nil_r|].
  assert (m ++ (k, v) :: l ≡ₚ (k, v) :: m ++ l) as Hp by (by rewrite Permutation_middle).
  rewrite Hp in Hn |- *. cbn [map fst] in Hn. apply NoDup_cons in Hn as [Hk Hn].
  rewrite map_app in Hk. apply not_elem_of_app in Hk as [Hk Hkl].
  pose proof (btree_insert_perm k v m Hk) as Hi.
  destruct (IH (btree_insert k v m)) as [Hsort Hperm]; [|by apply btree_insert_sorted|].
  - rewrite Hi. cbn [app map fst]. apply NoDup_cons. split; [|done]. rewrite map_app. set_solver.
  - split; [done|]. by rewrite Hperm, Hi.
Qed.

Lemma collect_map_perm l (k : list (str * A)) : NoDup (map fst l) -> l ≡ₚ k -> collect_map l = collect_map k.
Proof.
  intros Hn Hp. unfold collect_map.
  destruct (collect_map_from l []) as [Hl Hlp]; [done|constructor|].
  destruct (collect_map_from k []) as [Hk Hkp]; [by rewrite <- Hp|constructor|].
  eapply (strict_sorted_unique key_cmp); [..|done|done|].
  - intros. apply lex_compare_antisym.
  - intros. by eapply lex_compare_lt_trans.
  - by rewrite Hlp, Hkp.
Qed.
End BTree.

(** ** Reading a value and its canonical form *)

Lemma domain_ok_obj nfc es :
  domain_ok nfc (Obj es) <->
  NoDup (map fst es) /\ Forall (fun k => is_nfc nfc k = true) (map fst es) /\ Forall (fun e => domain_ok nfc (snd e)) es.
Proof. cbn [domain_ok]. by rewrite foldr_Forall. Qed.

Lemma object_field_Some es k v : NoDup (map fst es) -> object_field es k = Some v <-> (k, v) ∈ es.
Proof.
  intros Hn. unfold object_field. induction es as [|[k' v'] es IH]; cbn [find fst].
  - split; [done|intros H; by apply not_elem_of_nil in H].
  - cbn [map fst] in Hn. apply NoDup_cons in Hn as [Hk Hn]. destruct (str_eqb k' k) eqn:E.
    + apply str_eqb_eq in E as ->. cbn [fmap option_fmap option_map snd]. split; [intros [= ->]; by left|].
      intros [[= ->]|H]%elem_of_cons; [done|]. destruct Hk. apply list_elem_of_fmap. by exists (k, v).
    + apply str_eqb_neq in E. rewrite IH by done. rewrite elem_of_cons. naive_solver.
Qed.

Lemma object_field_canonicalize es k :
  NoDup (map fst es) ->
  object_field (map (prod_map id canonicalize) (sort_by_key es)) k = canonicalize <$> object_field es k.
Proof.
  intros Hn. apply option_eq. intros v.
  rewrite object_field_Some by (rewrite map_fst_prod_map, sort_by_key_perm; done).
  rewrite list_elem_of_fmap, fmap_Some. split.
  - intros ([k' w] & [= -> ->] & Hin). rewrite sort_by_key_perm in Hin. exists w. by rewrite object_field_Some.
  - intros (w & Hw & ->). exists (k, w). split; [done|]. rewrite sort_by_key_perm. by apply object_field_Some.
Qed.

Section Accessors.
Variable nfc : list char -> list char.
Implicit Types (v : Value).

Lemma get_canonicalize v k : domain_ok nfc v -> get (canonicalize v) k = canonicalize <$> get v k.
Proof.
  destruct v; try done. intros [Hn _]%domain_ok_obj. rewrite canonicalize_obj. cbn [get].
  by apply object_field_canonicalize.
Qed.

Lemma as_str_canonicalize v : as_str (canonicalize v) = as_str v.
Proof. by destruct v. Qed.

Lemma as_i64_canonicalize v : as_i64 (canonicalize v) = as_i64 v.
Proof. by destruct v. Qed.

Lemma fmap_as_str (o : option Value) : (canonicalize <$> o) ≫= as_str = o ≫= as_str.
Proof. destruct o; [apply as_str_canonicalize|done]. Qed.

Lemma fmap_as_i64 (o : option Value) : (canonicalize <$> o) ≫= as_i64 = o ≫= as_i64.
Proof. destruct o; [apply as_i64_canonicalize|done]. Qed.

Lemma get_str_canonicalize v k : domain_ok nfc v -> get_str (canonicalize v) k = get_str v k.
Proof.
  intros Hd. unfold get_str. rewrite get_canonicalize by done. apply fmap_as_str.
Qed.

Lemma get_domain_ok v k w : domain_ok nfc v -> get v k = Some w -> domain_ok nfc w.
Proof.
  destruct v as [| | | | |es]; try done. intros (Hn & _ & Hd)%domain_ok_obj Hg.
  apply (object_field_Some es k w Hn) in Hg. rewrite Forall_forall in Hd. by apply (Hd (k, w)).
Qed.

Lemma scaled_integer_canonicalize v : domain_ok nfc v -> scaled_integer (canonicalize v) = scaled_integer v.
Proof.
  intros Hd. unfold scaled_integer. rewrite !get_str_canonicalize by done. rewrite get_canonicalize by done.
  by rewrite fmap_as_i64.
Qed.

Lemma get_scaled_canonicalize v k :
  domain_ok nfc v -> get (canonicalize v) k ≫= scaled_integer = get v k ≫= scaled_integer.
Proof.
  intros Hd. rewrite get_canonicalize by done. destruct (get v k) as [w|] eqn:E; [|done].
  apply scaled_integer_canonicalize. by eapply get_domain_ok.
Qed.

(** ** The semantic rules *)

Lemma validate_valid_time_canonicalize v :
  domain_ok nfc v -> validate_valid_time (canonicalize v) = validate_valid_time v.
Proof. intros. unfold validate_valid_time. by rewrite !get_str_canonicalize. Qed.

Lemma validate_temporal_precision_canonicalize v :
  domain_ok nfc v -> validate_temporal_precision (canonicalize v) = validate_temporal_precision v.
Proof. intros. unfold validate_temporal_precision. by rewrite !get_str_canonicalize, get_scaled_canonicalize. Qed.

Lemma validate_confidence_canonicalize v :
  domain_ok nfc v -> validate_confidence (canonicalize v) = validate_confidence v.
Proof. intros. unfold validate_confidence. rewrite !get_str_canonicalize, !get_scaled_canonicalize by done. done. Qed.

Lemma validate_scaled_integer_canonicalize v :
  domain_ok nfc v -> validate_scaled_integer (canonicalize v) = validate_scaled_integer v.
Proof.
  destruct v as [| | | | |es]; try done. intros [Hn _]%domain_ok_obj. rewrite canonicalize_obj.
  unfold validate_scaled_integer. cbn [as_object]. rewrite !object_field_canonicalize by done.
  by rewrite !fmap_as_str, fmap_as_i64.
Qed.

Lemma validate_delegation_expiration_canonicalize v :
  domain_ok nfc v -> validate_delegation_expiration (canonicalize v) = validate_delegation_expiration v.
Proof.
  intros Hd. unfold validate_delegation_expiration. rewrite get_str_canonicalize, get_canonicalize by done.
  destruct (get v (lit "payload")) as [p|] eqn:E; [|done]. cbn [fmap option_fmap option_map mbind option_bind].
  change (?x ≫= as_str) with (x ≫= as_str).
  pose proof (get_str_canonicalize p (lit "expires_at")) as Hp. unfold get_str in Hp.
  rewrite Hp by (by eapply get_domain_ok). done.
Qed.

Lemma validate_manifest_canonicalize v :
  domain_ok nfc v -> validate_manifest v = Ok tt -> validate_manifest (canonicalize v) = Ok tt.
Proof.
  intros Hd. unfold validate_manifest. rewrite get_canonicalize by done.
  destruct (get v (lit "entries")) as [w|] eqn:E; [|done]. cbn [fmap option_fmap option_map mbind option_bind].
  pose proof (get_domain_ok _ _ _ Hd E) as Hw. destruct w as [| | | | |es]; try done.
  rewrite canonicalize_obj. cbn [as_object]. rewrite !check_manifest_entries_Ok, !Forall_forall.
  apply domain_ok_obj in Hw as (_ & _ & Hw). rewrite Forall_forall in Hw.
  intros H e ([k w] & -> & Hin)%list_elem_of_fmap. rewrite sort_by_key_perm in Hin. specialize (H _ Hin). cbn [fst snd prod_map id] in *.
  rewrite !get_str_canonicalize by (by apply (Hw (k, w))). done.
Qed.

Lemma validate_object_semantics_canonicalize v s :
  domain_ok nfc v -> validate_object_semantics v s = Ok tt -> validate_object_semantics (canonicalize v) s = Ok tt.
Proof.
  intros Hd H. unfold validate_object_semantics in *. apply bind_Ok in H as ([] & Hm & H).
  apply bind_Ok. exists tt. split.
  - destruct (str_eqb _ _); [by apply validate_manifest_canonicalize|done].
  - rewrite get_str_canonicalize by done. destruct (get_str v (lit "record_type")) as [rt|]; [|done].
    rewrite get_canonicalize, validate_delegation_expiration_canonicalize by done.
    by destruct (get v (lit "valid_time")).
Qed.

Lemma select_schema_canonicalize v : domain_ok nfc v -> select_schema (canonicalize v) = select_schema v.
Proof. intros. unfold select_schema. by rewrite !get_str_canonicalize. Qed.

Lemma to_json_value_canonicalize v : domain_ok nfc v -> to_json_value (canonicalize v) = to_json_value v.
Proof.
  induction v as [| | | |vs IH|es IH] using Value_ind; try done.
  - cbn [canonicalize to_json_value domain_ok]. rewrite foldr_Forall. intros Hd. f_equal. rewrite map_map.
    apply map_ext_Forall. rewrite Forall_forall in *. auto.
  - rewrite canonicalize_obj, domain_ok_obj. intros (Hn & _ & Hd). cbn [to_json_value]. f_equal.
    symmetry. apply collect_map_perm.
    + by rewrite map_map.
    + rewrite map_map. rewrite (sort_by_key_perm es). apply reflexive_eq, map_ext_Forall.
      rewrite Forall_forall in *. intros [k v] Hin. cbn [fst snd prod_map id].
      specialize (IH (k, v) Hin (Hd (k, v) Hin)). cbn [snd] in IH. by rewrite IH.
Qed.
End Accessors.

(** The canonical form of a value has the same canonical bytes. *)
Lemma canonical_bytes_canonicalize nfc limits v out :
  limits_usize limits -> canonical_bytes_with_limits nfc v limits = Ok out ->
  canonical_bytes_with_limits nfc (canonicalize v) limits = Ok out.
Proof.
  unfold canonical_bytes_with_limits. intros Hu (? & ? & ? & ? & ? & ->)%canonical_json_Ok.
  rewrite <- (render_canonicalize v) in *. apply canonical_json_fits; try done.
  - by apply domain_ok_canonicalize.
  - by apply shape_ok_canonicalize.
  - by rewrite node_count_canonicalize.
Qed.

Lemma structured_oid_canonicalize sha256 nfc limits v oid :
  limits_usize limits -> structured_oid_unchecked_with_limits sha256 nfc v limits = Ok oid ->
  structured_oid_unchecked_with_limits sha256 nfc (canonicalize v) limits = Ok oid.
Proof.
  unfold structured_oid_unchecked_with_limits. intros Hu H.
  apply bind_Ok in H as (ty & Hty & H). apply bind_Ok in H as (p & Hp & H). apply bind_Ok in H as (body & Hb & H).
  assert (domain_ok nfc v) as Hd by (by apply canonical_json_Ok in Hb as (? & ? & _)).
  rewrite get_str_canonicalize with (nfc := nfc), Hty by done. cbn [mbind result_bind]. rewrite Hp. cbn [mbind result_bind].
  by rewrite (canonical_bytes_canonicalize _ _ _ _ Hu Hb).
Qed.

Lemma each_Ok {A} (f : A -> cresult unit) l u : each f l = Ok u <-> Forall (fun x => f x = Ok tt) l.
Proof.
  destruct u. induction l as [|x l IH]; cbn [each]; [by split|]. rewrite Forall_cons, <- IH, bind_Ok.
  split; [intros ([] & ? & ?); done|intros [? ?]; by exists tt].
Qed.

Section Walk.
Variable nfc : list char -> list char.
Variable json_pointer : Json -> str -> option (list nat).
Variable registry : SchemaRegistry.
Variable limits : ResourceLimits.
Hypothesis Hlimits : limits_usize limits.

Abbreviation annotated := (validate_annotated nfc json_pointer registry limits).

Lemma check_set_canonicalize vs : forall previous,
  check_set nfc limits vs previous = Ok tt -> check_set nfc limits (map canonicalize vs) previous = Ok tt.
Proof.
  induction vs as [|v vs IH]; intros previous H; [done|]. cbn [check_set map] in *.
  apply bind_Ok in H as (enc & Henc & H). rewrite (canonical_bytes_canonicalize _ _ _ _ Hlimits Henc).
  cbn [mbind result_bind]. destruct previous as [p|]; [|by apply IH]. destruct (lex_compare p enc); try done. by apply IH.
Qed.

Lemma validate_common_canonicalize v expanded :
  domain_ok nfc v ->
  validate_common registry (canonicalize v) expanded = validate_common registry v expanded.
Proof.
  intros Hd. unfold validate_common.
  by rewrite (validate_scaled_integer_canonicalize nfc), (validate_valid_time_canonicalize nfc),
    (validate_temporal_precision_canonicalize nfc), (validate_confidence_canonicalize nfc) by done.
Qed.

Lemma validate_annotated_canonicalize v : forall entries,
  domain_ok nfc v -> annotated v entries = Ok tt -> annotated (canonicalize v) entries = Ok tt.
Proof.
  induction v as [| | | |vs IH|es IH] using Value_ind; intros entries Hd H; try done.
  - cbn [canonicalize validate_annotated] in *. cbn [domain_ok] in Hd. rewrite foldr_Forall in Hd.
    apply bind_Ok in H as (expanded & -> & H). cbn [mbind result_bind] in *.
    apply bind_Ok in H as (order & -> & H). cbn [mbind result_bind] in *.
    apply bind_Ok in H as ([] & Hset & H). apply bind_Ok. exists tt. split.
    { case_bool_decide; [by apply check_set_canonicalize|done]. }
    apply bind_Ok in H as (children & -> & H). cbn [mbind result_bind] in *.
    rewrite each_Ok in *. apply Forall_map. rewrite Forall_forall in *. auto.
  - rewrite canonicalize_obj. cbn [validate_annotated] in *.
    apply bind_Ok in H as (expanded & -> & H). cbn [mbind result_bind] in *.
    apply bind_Ok in H as ([] & Hc & H). rewrite <- canonicalize_obj, validate_common_canonicalize by done.
    rewrite Hc. cbn [mbind result_bind].
    apply domain_ok_obj in Hd as (_ & _ & Hd). rewrite each_Ok in *. apply Forall_map. rewrite sort_by_key_perm.
    rewrite Forall_forall in *. intros [k v] Hin. specialize (H _ Hin). specialize (IH _ Hin). specialize (Hd _ Hin).
    cbn [fst snd prod_map id] in *. apply bind_Ok in H as (children & -> & H). cbn [mbind result_bind]. by apply IH.
Qed.

Lemma validate_selected_canonicalize v s :
  domain_ok nfc v -> validate_selected nfc json_pointer registry v s limits = Ok tt ->
  validate_selected nfc json_pointer registry (canonicalize v) s limits = Ok tt.
Proof.
  intros Hd H. unfold validate_selected in *.
  apply bind_Ok in H as (root & -> & H). apply bind_Ok in H as ([] & Ha & H). apply bind_Ok in H as ([] & Hs & H).
  cbn [mbind result_bind].
  rewrite validate_annotated_canonicalize, (validate_object_semantics_canonicalize nfc) by done. cbn [mbind result_bind].
  by rewrite (to_json_value_canonicalize nfc) by done.
Qed.
End Walk.

(** ** Validation always answers

    Expanding schema entries visits each schema node at most once, so the fuel
    is never exhausted, whatever cycles the [$ref]s form; and every error of
    validation and ingestion is a protocol error code, unless a comparison of a
    confidence asks for more memory than there can be. *)

(** ** Addresses *)

Lemma elem_of_concat_imap {A} (ls : list (list (list A))) (g : nat -> list A -> list A) i l x :
  ls !! i = Some l -> x ∈ l -> g i x ∈ concat (imap (fun i ps => map (g i) ps) ls).
Proof.
  intros Hi Hx. apply list_elem_of_In, in_concat. exists (map (g i) l). split.
  - apply list_elem_of_In, list_elem_of_lookup. exists i. by rewrite list_lookup_imap, Hi.
  - apply in_map, list_elem_of_In, Hx.
Qed.

Lemma json_at_paths p : forall j w, json_at j p = Some w -> p ∈ json_paths j.
Proof.
  induction p as [|i p IH]; intros j w H; [destruct j; left|].
  cbn [json_at] in H. destruct j as [| | | |vs|es]; try done.
  - apply bind_Some in H as (c & Hc & H). right.
    apply (elem_of_concat_imap _ (fun i => cons i) i (json_paths c)); [|by eapply IH].
    by rewrite list_lookup_fmap, Hc.
  - apply bind_Some in H as (c & Hc & H). right.
    apply (elem_of_concat_imap _ (fun i => cons i) i (json_paths (snd c))); [|by eapply IH].
    by rewrite list_lookup_fmap, Hc.
Qed.

Lemma json_at_snoc p : forall j w i c,
  json_at j p = Some w -> json_at w [i] = Some c -> json_at j (p ++ [i]) = Some c.
Proof.
  induction p as [|n p IH]; intros j w i c H Hc; [by injection H as ->|].
  cbn [json_at app] in *. destruct j; try done.
  all: apply bind_Some in H as (x & Hx & H); rewrite Hx; cbn; by eapply IH.
Qed.

Lemma json_child_at j k i c : json_child j k = Some (i, c) -> json_at j [i] = Some c.
Proof.
  unfold json_child. destruct j; try done. intros ([i' e] & Hf & [= <- <-])%bind_Some.
  apply list_find_Some in Hf as (Hl & _). cbn [json_at]. by rewrite Hl.
Qed.

Section Total.
Variable nfc : list char -> list char.
Variable sha256 : list byte -> list byte.
Variable json_pointer : Json -> str -> option (list nat).
Variable registry : SchemaRegistry.

Definition valid_entry (e : SchemaEntry) : Prop :=
  exists document, documents registry !! se_file e = Some document /\ json_at document (se_path e) = Some (se_schema e).

Lemma valid_entry_address e : valid_entry e -> address e ∈ schema_nodes registry.
Proof.
  intros (d & Hd & Hp). unfold schema_nodes, address. apply list_elem_of_In, in_concat.
  exists (map (pair (se_file e)) (json_paths d)). split.
  - apply in_map_iff. exists (se_file e, d). split; [done|]. apply list_elem_of_In. by apply elem_of_map_to_list.
  - apply in_map, list_elem_of_In. by eapply json_at_paths.
Qed.

Lemma root_entry_valid file e : root_entry registry file = Some e -> valid_entry e.
Proof. unfold root_entry. intros (d & Hd & [= <-])%bind_Some. by exists d. Qed.

Lemma entry_get_valid e k c : valid_entry e -> entry_get e k = Some c -> valid_entry c.
Proof.
  intros (d & Hd & Hp) ([i x] & Hc & [= <-])%bind_Some. exists d. split; [done|]. cbn.
  eapply json_at_snoc; [done|]. by eapply json_child_at.
Qed.

Lemma entry_items_valid e k : valid_entry e -> Forall valid_entry (entry_items e k).
Proof.
  intros He. unfold entry_items. destruct (entry_get e k) as [a|] eqn:Ha; [|constructor].
  apply (entry_get_valid _ _ _ He) in Ha as (d & Hd & Hp). destruct (se_schema a) as [| | | |vs|] eqn:E; try by constructor.
  apply Forall_lookup. intros i c Hi. rewrite list_lookup_imap in Hi. apply fmap_Some in Hi as (x & Hx & ->).
  exists d. split; [done|]. cbn. eapply json_at_snoc; [done|]. cbn. by rewrite Hx.
Qed.

Lemma resolve_schema_ref_valid r base e : resolve_schema_ref json_pointer registry r base = Ok e -> valid_entry e.
Proof.
  unfold resolve_schema_ref. destruct (default _ _) as [file fragment]. intros H.
  apply bind_Ok in H as (d & Hd%ok_or_Ok & H). unfold root_entry in Hd.
  apply bind_Some in Hd as (doc & Hdoc & [= <-]). cbn [se_schema] in H.
  case_bool_decide; [injection H as <-; by exists doc|]. destruct (negb _); [done|].
  apply bind_Ok in H as (p & _ & H). apply bind_Ok in H as (w & Hw%ok_or_Ok & [= <-]). by exists doc.
Qed.

(** ** Expansion *)

Definition unseen (seen : gset (str * list nat)) : nat :=
  length (filter (fun a => a ∉ seen) (schema_nodes registry)).

Lemma unseen_mono s t : s ⊆ t -> (unseen t <= unseen s)%nat.
Proof.
  intros Hst. unfold unseen. induction (schema_nodes registry) as [|a l IH]; [done|].
  rewrite !filter_cons. repeat case_decide; cbn [length]; [lia|set_solver|lia|lia].
Qed.

Lemma unseen_insert a s : a ∈ schema_nodes registry -> a ∉ s -> (unseen ({[a]} ∪ s) < unseen s)%nat.
Proof.
  intros Ha Hs. unfold unseen.
  assert (forall l, (length (filter (fun x => x ∉ {[a]} ∪ s) l) <= length (filter (fun x => x ∉ s) l))%nat) as Hle.
  { induction l as [|b l IH]; [done|]. rewrite !filter_cons. repeat case_decide; cbn [length]; [lia|set_solver|lia|lia]. }
  induction (schema_nodes registry) as [|b l IH]; [by apply not_elem_of_nil in Ha|].
  rewrite !filter_cons. specialize (Hle l). apply elem_of_cons in Ha as [<-|Ha].
  - rewrite decide_False by set_solver. rewrite decide_True by done. cbn [length]. lia.
  - specialize (IH Ha). repeat case_decide; cbn [length]; [lia|set_solver|lia|lia].
Qed.

Definition advances (f : SchemaEntry -> Visited -> option Visited) (n : nat) : Prop := forall e st,
  valid_entry e -> (unseen (fst st) < n)%nat -> Forall valid_entry (snd st) ->
  exists st', f e st = Some st' /\ fst st ⊆ fst st' /\ Forall valid_entry (snd st').

Lemma foldl_advances f n es : advances f n -> forall st,
  Forall valid_entry es -> (unseen (fst st) < n)%nat -> Forall valid_entry (snd st) ->
  exists st', foldl (fun st e => st ← st; f e st) (Some st) es = Some st' /\ fst st ⊆ fst st' /\
    Forall valid_entry (snd st').
Proof.
  intros Hf. induction es as [|e es IH]; intros st Hes Hn Hst; [by exists st|].
  apply Forall_cons in Hes as [He Hes]. cbn [foldl mbind option_bind].
  destruct (Hf e st) as (st1 & -> & Hs1 & Hv1); [done..|].
  destruct (IH st1) as (st2 & H2 & Hs2 & Hv2); [done|pose proof (unseen_mono _ _ Hs1); lia|done|].
  exists st2. split_and!; [done|set_solver|done].
Qed.

Lemma visit_total fuel : advances (visit json_pointer registry fuel) fuel.
Proof.
  induction fuel as [|fuel IH]; intros e st He Hn Hst; [lia|]. cbn [visit].
  destruct (negb (is_object (se_schema e))); [by exists st|].
  case_bool_decide as Hin; cbn [orb]; [by exists st|].
  set (st1 := ({[address e]} ∪ fst st, snd st ++ [e])).
  assert (unseen (fst st1) < fuel)%nat as Hn1.
  { pose proof (unseen_insert (address e) (fst st) (valid_entry_address e He) Hin). cbn [fst st1]. lia. }
  assert (Forall valid_entry (snd st1)) as Hv1 by (apply Forall_app; by repeat constructor).
  match goal with |- exists _, ?m ≫= _ = _ /\ _ =>
    assert (exists st2, m = Some st2 /\ fst st1 ⊆ fst st2 /\ Forall valid_entry (snd st2)) as (st2 & -> & Hs2 & Hv2) end.
  { destruct (entry_str _ _) as [r|]; [|by exists st1].
    destruct (resolve_schema_ref _ _ _ _) as [resolved|] eqn:Hr; [|by exists st1].
    apply IH; [by eapply resolve_schema_ref_valid|done..]. }
  cbn [mbind option_bind].
  destruct (foldl_advances _ _ (concat (map (entry_items e) [lit "allOf"; lit "oneOf"; lit "anyOf"])) IH st2)
    as (st3 & H3 & Hs3 & Hv3); [|pose proof (unseen_mono _ _ Hs2); lia|done|].
  { apply Forall_concat, Forall_map, Forall_forall. intros k _. by apply entry_items_valid. }
  exists st3. split_and!; [done|cbn [fst st1] in *; set_solver|done].
Qed.

Lemma expand_total es : Forall valid_entry es -> exists out, expand json_pointer registry es = Ok out /\ Forall valid_entry out.
Proof.
  intros Hes. unfold expand, expand_entries.
  destruct (foldl_advances _ _ es (visit_total (S (length (schema_nodes registry)))) (∅, [])) as (st & -> & _ & Hv);
    [done| |constructor|by exists (snd st)].
  unfold unseen. apply Nat.lt_succ_r, length_filter.
Qed.

(** ** Error codes *)

Lemma coded_ok_or {A} (o : option A) c : coded (ok_or o (Core c)).
Proof. destruct o; [apply coded_Ok|apply coded_fail]. Qed.

Lemma coded_each {A} (f : A -> cresult unit) l : Forall (fun x => coded (f x)) l -> coded (each f l).
Proof.
  induction 1 as [|x l Hx _ IH]; cbn [each]; [apply coded_Ok|]. apply coded_bind; [done|]. intros _ _. exact IH.
Qed.

Lemma coded_validate_timestamp s : coded (validate_timestamp s).
Proof. unfold validate_timestamp. case_match; [apply coded_Ok|apply coded_fail]. Qed.

(** Closes [coded] goals made of checks that return or fail with a code. *)
Ltac coded_step :=
  first [ apply coded_Ok | apply coded_fail | apply coded_ok_or | apply coded_validate_timestamp | done
        | apply coded_bind; [|intros ? ?] | case_match ].
Ltac coded_auto := repeat coded_step.

Lemma coded_check_manifest_entries es : coded (check_manifest_entries es).
Proof. induction es as [|[k v] es IH]; cbn [check_manifest_entries]; coded_auto. Qed.

Lemma coded_semantics v s : coded (validate_object_semantics v s).
Proof.
  unfold validate_object_semantics, validate_manifest, validate_delegation_expiration.
  repeat first [ apply coded_check_manifest_entries | coded_step ].
Qed.

Lemma coded_size_add t a l : coded (checked_size_add t a l).
Proof. unfold checked_size_add, ensure_size. coded_auto. Qed.

Lemma coded_string_size s l : coded (canonical_string_size s l).
Proof.
  unfold canonical_string_size. generalize (coded_Ok 2). generalize (Ok 2 : cresult Z).
  induction (chars s) as [|c cs IH]; intros r Hr; cbn [foldl]; [done|]. apply IH.
  apply coded_bind; [done|]. intros t _. apply coded_size_add.
Qed.

Lemma coded_add_separator l i t : coded (add_separator l i t).
Proof. destruct i; [apply coded_Ok|apply coded_size_add]. Qed.

Ltac size_step :=
  first [ apply coded_size_add | apply coded_string_size | apply coded_add_separator | apply coded_insert_seen
        | apply coded_require_nfc_key | apply coded_consume_node | coded_step ].

Lemma coded_size_array l f vs : Forall (fun v => forall n, coded (f v n)) vs -> forall i t n, coded (size_array_loop l f i vs t n).
Proof.
  induction 1 as [|v vs Hv _ IH]; intros i t n; cbn [size_array_loop]; [apply coded_Ok|].
  repeat first [ apply IH | apply Hv | size_step ].
Qed.

Lemma coded_size_object l f es : Forall (fun e => forall n, coded (f (snd e) n)) es ->
  forall i seen t n, coded (size_object_loop nfc l f i es seen t n).
Proof.
  induction 1 as [|[k v] es Hv _ IH]; intros i seen t n; cbn [size_object_loop]; [apply coded_Ok|].
  repeat first [ apply IH | apply Hv | size_step ].
Qed.

Lemma coded_canonical_size limits v : forall d n, coded (canonical_size nfc v d limits n).
Proof.
  induction v as [| | | |vs IH|es IH] using Value_ind; intros d n; cbn [canonical_size];
    unfold ensure_size, checked_child_depth, check_container_items.
  5: { repeat first [ apply coded_size_array; eapply Forall_impl; [exact IH|] ; cbn; intros; by auto | size_step ]. }
  5: { repeat first [ apply coded_size_object; eapply Forall_impl; [exact IH|] ; cbn; intros; by auto | size_step ]. }
  all: repeat size_step.
Qed.

Lemma coded_canonical_bytes v limits : coded (canonical_bytes_with_limits nfc v limits).
Proof.
  unfold canonical_bytes_with_limits, canonical_json_with_limits, validate_limits.
  apply coded_bind; [coded_auto|intros _ _]. apply coded_bind; [apply coded_canonical_size|intros [sz n] H].
  apply canonical_size_Ok in H as [(Hd & _) _]. rewrite write_canonical_spec by done. apply coded_Ok.
Qed.

Lemma coded_check_set limits vs : forall p, coded (check_set nfc limits vs p).
Proof.
  induction vs as [|v vs IH]; intros p; cbn [check_set]; [apply coded_Ok|].
  repeat first [ apply IH | apply coded_canonical_bytes | coded_step ].
Qed.

Lemma coded_array_order es : forall o, coded (array_order es o).
Proof. induction es as [|e es IH]; intros o; cbn [array_order]; repeat first [ apply IH | coded_step ]. Qed.

Lemma common_codes v es : codes_or (oversized_within v) (validate_common registry v es).
Proof.
  unfold validate_common. cbv zeta.
  do 3 (apply codes_or_bind;
    [apply codes_or_coded; unfold validate_scaled_integer, validate_valid_time, validate_temporal_precision; coded_auto|intros _ _]).
  destruct (entries_include_common_def _ _ _); [apply validate_confidence_codes|apply codes_or_coded, coded_Ok].
Qed.

Lemma each_codes (P : Prop) {A} (f : A -> cresult unit) l : (forall x, x ∈ l -> codes_or P (f x)) -> codes_or P (each f l).
Proof.
  induction l as [|x l IH]; intros Hf; cbn [each]; [apply codes_or_coded, coded_Ok|]. apply codes_or_bind; [apply Hf; by left|].
  intros _ _. apply IH. intros y Hy. apply Hf. by right.
Qed.

Lemma property_entry_valid e k c : valid_entry e -> property_entry k e = Some c -> valid_entry c.
Proof.
  intros He. unfold property_entry. destruct (_ ≫= _) as [x|] eqn:E.
  - intros [= ->]. apply bind_Some in E as (p & Hp & E). eapply entry_get_valid; [|done]. by eapply entry_get_valid.
  - intros (x & Hx & H)%bind_Some. case_match; simplify_eq. by eapply entry_get_valid.
Qed.

Lemma item_entry_valid e c : valid_entry e -> item_entry e = Some c -> valid_entry c.
Proof. intros He (x & Hx & H)%bind_Some. case_match; simplify_eq. by eapply entry_get_valid. Qed.

Lemma omap_valid (f : SchemaEntry -> option SchemaEntry) es :
  (forall e c, valid_entry e -> f e = Some c -> valid_entry c) -> Forall valid_entry es ->
  Forall valid_entry (omap (M:=list) f es).
Proof.
  intros Hf Hes. apply Forall_forall. intros c (e & He & Hc)%list_elem_of_omap. rewrite Forall_forall in Hes. eauto.
Qed.

Lemma annotated_codes limits v : forall es,
  Forall valid_entry es -> codes_or (oversized_within v) (validate_annotated nfc json_pointer registry limits v es).
Proof.
  induction v as [| | | |vs IH|fs IH] using Value_ind; intros es Hes; cbn [validate_annotated];
    destruct (expand_total es Hes) as (out & -> & Hout); cbn [mbind result_bind].
  4: unfold validate_string. 
  1-4: apply codes_or_coded; coded_auto.
  - apply codes_or_bind; [apply codes_or_coded, coded_array_order|intros o _].
    apply codes_or_bind; [apply codes_or_coded; case_match; [apply coded_check_set|apply coded_Ok]|intros _ _].
    unfold item_entries. destruct (expand_total out Hout) as (out' & -> & Hout'). cbn [mbind result_bind].
    apply each_codes. intros v Hv. rewrite Forall_forall in IH.
    apply (codes_or_mono (oversized_within v)); [intros (w & ? & ?); exists w; split; [by eapply within_item|done]|].
    apply IH; [done|]. apply omap_valid; [|done]. apply item_entry_valid.
  - apply codes_or_bind; [apply common_codes|intros _ _]. apply each_codes.
    intros [k v] Hv. cbn [fst snd] in *. unfold property_entries. rewrite Forall_forall in IH. specialize (IH _ Hv).
    destruct (expand_total out Hout) as (out' & -> & Hout'). cbn [mbind result_bind snd] in *.
    apply (codes_or_mono (oversized_within v)); [intros (w & ? & ?); exists w; split; [by eapply within_field|done]|].
    apply IH. apply omap_valid; [|done]. intros. by eapply property_entry_valid.
Qed.

Lemma selected_codes v s limits : codes_or (oversized_within v) (validate_selected nfc json_pointer registry v s limits).
Proof.
  unfold validate_selected. apply codes_or_bind; [apply codes_or_coded, coded_ok_or|intros root Hr%ok_or_Ok].
  apply codes_or_bind; [apply annotated_codes; constructor; [by eapply root_entry_valid|constructor]|intros _ _].
  apply codes_or_coded. apply coded_bind; [apply coded_semantics|intros _ _]. coded_auto.
Qed.

Lemma coded_select_schema v : coded (select_schema v).
Proof. unfold select_schema. coded_auto. Qed.

Lemma coded_structured_oid v limits : coded (structured_oid_unchecked_with_limits sha256 nfc v limits).
Proof.
  unfold structured_oid_unchecked_with_limits. repeat first [ apply coded_canonical_bytes | coded_step ].
Qed.

Lemma finish_ingestion_codes v limits claimed :
  codes_or (oversized_within v) (finish_ingestion nfc sha256 json_pointer registry v limits claimed).
Proof.
  unfold finish_ingestion. apply codes_or_bind; [apply codes_or_coded, coded_canonical_bytes|intros bytes _].
  apply codes_or_bind; [apply codes_or_coded, coded_select_schema|intros name _].
  apply codes_or_bind; [apply selected_codes|intros _ _]. apply codes_or_coded.
  repeat first [ apply coded_structured_oid | coded_step ].
Qed.

Lemma validate_codes v : codes_or (oversized_within v) (validate nfc json_pointer registry v).
Proof.
  unfold validate, validate_with_limits. apply codes_or_bind; [apply codes_or_coded, coded_canonical_bytes|intros bytes _].
  apply codes_or_bind; [apply codes_or_coded, coded_select_schema|intros name _]. apply selected_codes.
Qed.

Lemma coded_parse_oid oid : coded (parse_oid oid).
Proof. unfold parse_oid. repeat first [ apply coded_ok_or | coded_step ]. Qed.
End Total.

(** ** Ingestion: the properties *)

Section Ingest.
Variable nfc : list char -> list char.
Variable sha256 : list byte -> list byte.
Variable json_pointer : Json -> str -> option (list nat).
Variable registry : SchemaRegistry.

(** The object that the canonical bytes of an ingested object are ingested as. *)
Definition canonical_object (object : ValidatedObject) : ValidatedObject := {|
  vo_value := canonicalize (vo_value object);
  vo_canonical_bytes := vo_canonical_bytes object;
  vo_oid := vo_oid object;
  vo_schema_name := vo_schema_name object;
|}.

Lemma finish_ingestion_canonicalize value claimed object :
  finish_ingestion nfc sha256 json_pointer registry value default_limits None = Ok object ->
  (forall c, claimed = Some c -> c = vo_oid object) ->
  finish_ingestion nfc sha256 json_pointer registry (canonicalize value) default_limits claimed
  = Ok (canonical_object object).
Proof.
  pose proof default_limits_usize as Hu. unfold finish_ingestion. intros H Hc.
  apply bind_Ok in H as (bytes & Hb & H). apply bind_Ok in H as (name & Hn & H).
  apply bind_Ok in H as ([] & Hv & H). apply bind_Ok in H as (oid & Ho & [= <-]).
  assert (domain_ok nfc value) as Hd by (by apply canonical_json_Ok in Hb as (? & ? & _)).
  rewrite (canonical_bytes_canonicalize _ _ _ _ Hu Hb). cbn [mbind result_bind].
  rewrite (select_schema_canonicalize nfc), Hn by done. cbn [mbind result_bind].
  rewrite validate_selected_canonicalize by done. cbn [mbind result_bind].
  rewrite (structured_oid_canonicalize _ _ _ _ _ Hu Ho). cbn [mbind result_bind].
  destruct claimed as [c|]; [|done]. rewrite (Hc c eq_refl). cbn [vo_oid]. by rewrite str_eqb_refl.
Qed.
End Ingest.

(** Ingestion is idempotent: the canonical bytes of an ingested object are ingested again,
    with or without claiming its OID, under the same schema and with the same bytes and
    OID.  So what the store keeps always passes the validation it passed on its way in, in
    whatever order its fields were first written. *)
Lemma ingest_idempotent nfc sha256 json_pointer registry input object :
  ingest nfc sha256 json_pointer registry input = Ok object ->
  ingest nfc sha256 json_pointer registry (vo_canonical_bytes object) = Ok (canonical_object object) /\
  ingest_claimed nfc sha256 json_pointer registry (vo_oid object) (vo_canonical_bytes object)
  = Ok (canonical_object object).
Proof.
  unfold ingest, ingest_claimed, ingest_with_limits, ingest_claimed_with_limits.
  intros (value & Hp & Hf)%bind_Ok. apply accepted_text in Hp as (Hb & _ & Hr).
  assert (vo_canonical_bytes object = render value) as ->.
  { unfold finish_ingestion in Hf. apply bind_Ok in Hf as (bytes & Hb' & Hf).
    unfold canonical_bytes in Hb. rewrite Hb in Hb'. injection Hb' as <-. result_inv. done. }
  unfold parse_strict in Hr. rewrite Hr. cbn [mbind result_bind].
  split; (apply finish_ingestion_canonicalize; [done|]); [done|]. by intros ? [= <-].
Qed.

(** A registry whose only concrete schema describes manifest trees: the entries are an object
    and the optional tags a set. *)
Definition sample_documents : gmap str Json :=
  {[ lit "manifest-tree.schema.json" :=
       JObject [(lit "allOf", JArray [JObject [(lit "$ref", JString (lit "#"))]]);
                (lit "properties", JObject [(lit "tags", JObject [(lit "x-synapse-order", JString (lit "set"))])])] ]}.
Definition sample_registry : SchemaRegistry :=
  {| documents := sample_documents; validators := {[ lit "manifest-tree.schema.json" := is_object ]} |}.
Definition no_pointer : Json -> str -> option (list nat) := fun _ _ => None.

(** {"tags":["a","b"], "object_type":"tree"} *)
Definition sample_input : str := Eval vm_compute in
  lit "{" ++ quote (lit "tags") ++ lit ":[" ++ quote (lit "a") ++ lit "," ++ quote (lit "b") ++ lit "], " ++
  quote (lit "object_type") ++ lit ":" ++ quote (lit "tree") ++ lit "}".
Definition sample_ingested : ValidatedObject :=
  match ingest nfc_id toy_sha256 no_pointer sample_registry sample_input with
  | Ok object => object
  | Err _ => {| vo_value := Null; vo_canonical_bytes := []; vo_oid := []; vo_schema_name := [] |}
  end.

(** C3: ingestion answers on everything but oversized comparisons: for any input bytes, any
    schema documents (with whatever [$ref] cycles) and any compiled validators, an error is
    one of the protocol's error codes, never a panic and never an exhausted recursion bound
    of the parser or of the schema walk.  Only one thing can end the process instead: the
    parsed document has a confidence, a probability or an interval, whose comparison pads the
    digits of a number to more than 2^47 characters. *)
Theorem ingest_answers nfc sha256 json_pointer registry input e :
  ingest nfc sha256 json_pointer registry input = Err e ->
  (exists code, e = Core code) \/
  e = Aborted /\ exists value confidence, parse_strict nfc input = Ok value /\ within confidence value /\
    oversized_confidence confidence.
Proof.
  intros [H|(value & Hp & H)]%bind_Err; [left; by apply parse_strict_coded in H|].
  apply finish_ingestion_codes in H as [?|[-> (w & ? & ?)]]; [by left|right]. split; [done|]. by exists value, w.
Qed.

Lemma ingest_answers_witness :
  (exists code, Core SchemaInvalid = Core code) \/
  Core SchemaInvalid = Aborted /\ exists value confidence, parse_strict nfc_id (lit "[]") = Ok value /\
    within confidence value /\ oversized_confidence confidence.
Proof.
  apply (ingest_answers nfc_id toy_sha256 no_pointer sample_registry (lit "[]")). vm_compute. reflexivity.
Defined.

(** ** A comparison that ends the process *)

(** A claim whose confidence is one with a scale: a probability of [10^scale]. *)
Definition confidence (scale : Z) : Value :=
  Obj [(lit "kind", Str (lit "probability"));
       (lit "value", Obj [(lit "mantissa", Str (lit "1")); (lit "scale", Integer scale); (lit "unit", Str (lit "ratio"))])].
Definition claim (scale : Z) : Value :=
  Obj [(lit "object_type", Str (lit "record")); (lit "payload", Obj [(lit "confidence", confidence scale)]);
       (lit "record_type", Str (lit "claim"))].

(** The text around the scale. *)
Definition claim_head : str := Eval vm_compute in take 102 (render (claim 0)).
Definition claim_tail : str := Eval vm_compute in drop 103 (render (claim 0)).

Lemma render_claim scale : render (claim scale) = claim_head ++ show_int scale ++ claim_tail.
Proof.
  cbv -[show_int]. generalize (show_int scale) as digits. induction digits as [|d digits IH]; [reflexivity|]. congruence.
Qed.

Lemma len_show_int n : 0 <= n < 10 ^ 16 -> len (show_int n) <= 16.
Proof.
  intros Hn. unfold show_int. rewrite (proj2 (Z.ltb_ge n 0)) by lia. destruct (decide (n = 0)) as [->|Hz]; [done|].
  destruct (show_nonneg_head n) as (d & ds & E & Hd); [lia|].
  pose proof (digits_value_lower d ds) as Hl. rewrite <- E, show_nonneg_value in Hl by lia.
  specialize (Hl (show_nonneg_digits n ltac:(lia)) ltac:(lia)). rewrite E, len_cons.
  assert (len ds < 16); [|lia]. apply (Z.pow_lt_mono_r_iff 10); len_lia.
Qed.

Section Aborting.
Variable nfc : list char -> list char.
Variable sha256 : list byte -> list byte.
Variable json_pointer : Json -> str -> option (list nat).
Variable registry : SchemaRegistry.
Hypothesis Hnfc : forall cs, Forall (fun c => 0 <= c < 128) cs -> nfc cs = cs.

(** The walk of claim.schema.json annotates [payload.confidence] with the common definition. *)
Definition annotates_confidence : cresult bool :=
  root ← ok_or (root_entry registry (lit "claim.schema.json")) (Core SchemaInvalid);
  expanded ← expand json_pointer registry [root];
  payload ← property_entries json_pointer registry expanded (lit "payload");
  expanded ← expand json_pointer registry payload;
  confidence ← property_entries json_pointer registry expanded (lit "confidence");
  expanded ← expand json_pointer registry confidence;
  Ok (entries_include_common_def registry expanded (lit "Confidence")).

Lemma parse_claim scale : 0 <= scale <= MAX_SAFE_INTEGER -> parse_strict nfc (render (claim scale)) = Ok (claim scale).
Proof.
  intros Hs. assert (forall k, Forall (fun c => 0 <= c < 128) (chars k) -> is_nfc nfc k = true) as Hkey.
  { intros k Hk. apply bool_decide_eq_true_2. by apply Hnfc. }
  change (claim scale) with (canonicalize (claim scale)) at 2. apply parse_strict_render; try done.
  - repeat first [done | nodup_decide | split | apply Forall_cons; split
      | apply Hkey; vm_compute; repeat constructor; discriminate].
    cbn. unfold in_safe_range, MAX_SAFE_INTEGER in *. lia.
  - rewrite render_claim, !len_app. pose proof (len_show_int scale ltac:(unfold MAX_SAFE_INTEGER in *; lia)).
    change (len claim_head) with 102. change (len claim_tail) with 41. unfold default_limits, DEFAULT_MAX_STRUCTURED_BYTES. cbn. lia.
Qed.

Lemma oversized_claim scale : MAX_ALLOCATION <= scale -> oversized_confidence (confidence scale).
Proof.
  intros Hs. left. split; [done|]. eexists. split; [reflexivity|]. split; [done|]. unfold oversized. cbn -[MAX_ALLOCATION Z.min Z.max].
  split_and!; [done..|]. change (default _ _) with (lit "1"). change (len (lit "1")) with 1. lia.
Qed.

Lemma each_Err {A} (f : A -> cresult unit) pre x post e :
  Forall (fun y => f y = Ok tt) pre -> f x = Err e -> each f (pre ++ x :: post) = Err e.
Proof. induction 1 as [|y pre Hy _ IH]; intros Hx; cbn [app each]; [by rewrite Hx|]. rewrite Hy. by apply IH. Qed.

(** The walk of an object that was accepted, with another value in one field. *)
Lemma walk_field pre k v0 v post entries e :
  (forall expanded, validate_common registry (Obj (pre ++ (k, v) :: post)) expanded
                    = validate_common registry (Obj (pre ++ (k, v0) :: post)) expanded) ->
  validate_annotated nfc json_pointer registry default_limits (Obj (pre ++ (k, v0) :: post)) entries = Ok tt ->
  (forall expanded children, expand json_pointer registry entries = Ok expanded ->
     property_entries json_pointer registry expanded k = Ok children ->
     validate_annotated nfc json_pointer registry default_limits v0 children = Ok tt ->
     validate_annotated nfc json_pointer registry default_limits v children = Err e) ->
  validate_annotated nfc json_pointer registry default_limits (Obj (pre ++ (k, v) :: post)) entries = Err e.
Proof.
  intros Hcommon Hv Hfield. cbn [validate_annotated] in *. apply bind_Ok in Hv as (expanded & He & Hv). rewrite He. cbn [mbind result_bind].
  apply bind_Ok in Hv as ([] & Hc & Hv). rewrite Hcommon, Hc. cbn [mbind result_bind].
  apply each_Ok in Hv. apply Forall_app in Hv as [Hpre Hv]. apply Forall_cons in Hv as [Hk _]. cbn [fst snd] in Hk.
  apply each_Err; [done|]. cbn [fst snd]. apply bind_Ok in Hk as (children & Hp & Hk). rewrite Hp. by eapply Hfield.
Qed.

Lemma oversized_confidence_walk scale entries expanded : MAX_ALLOCATION <= scale ->
  expand json_pointer registry entries = Ok expanded -> entries_include_common_def registry expanded (lit "Confidence") = true ->
  validate_annotated nfc json_pointer registry default_limits (confidence 0) entries = Ok tt ->
  validate_annotated nfc json_pointer registry default_limits (confidence scale) entries = Err Aborted.
Proof.
  intros Hs He Hin Hv. unfold confidence in *. cbn [validate_annotated] in *. rewrite He in *. cbn [mbind result_bind] in *.
  apply bind_Ok in Hv as ([] & Hq & _). fold (confidence 0) in Hq. fold (confidence scale).
  unfold validate_common in *. cbv zeta in *. rewrite Hin in *.
  apply bind_Ok in Hq as ([] & Hq1 & Hq). apply bind_Ok in Hq as ([] & Hq2 & Hq). apply bind_Ok in Hq as ([] & Hq3 & _).
  change (validate_scaled_integer (confidence scale)) with (validate_scaled_integer (confidence 0)). rewrite Hq1. cbn [mbind result_bind].
  change (validate_valid_time (confidence scale)) with (validate_valid_time (confidence 0)). rewrite Hq2. cbn [mbind result_bind].
  change (validate_temporal_precision (confidence scale)) with (validate_temporal_precision (confidence 0)). rewrite Hq3. cbn [mbind result_bind].
  by rewrite oversized_confidence_aborts by (by apply oversized_claim).
Qed.

(** The walk of the claim gets as far as the one with scale 0 does, up to its confidence. *)
Lemma walk_claim scale root : MAX_ALLOCATION <= scale ->
  root_entry registry (lit "claim.schema.json") = Some root -> annotates_confidence = Ok true ->
  validate_annotated nfc json_pointer registry default_limits (claim 0) [root] = Ok tt ->
  validate_annotated nfc json_pointer registry default_limits (claim scale) [root] = Err Aborted.
Proof.
  intros Hs Hr Ha Hv. unfold annotates_confidence in Ha. rewrite Hr in Ha.
  apply bind_Ok in Ha as (root' & [= <-] & (x1 & E1 & (p & Ep & (x2 & E2 & (c & Ec & (x3 & E3 & [= Hin])%bind_Ok)%bind_Ok)%bind_Ok)%bind_Ok)%bind_Ok).
  eapply (walk_field [(lit "object_type", Str (lit "record"))] (lit "payload") (Obj [(lit "confidence", confidence 0)]));
    [done|exact Hv|]. intros x1' p' E1' Ep' Hp.
  assert (x1' = x1) as -> by congruence. assert (p' = p) as -> by congruence.
  eapply (walk_field [] (lit "confidence") (confidence 0)); [done|exact Hp|]. intros x2' c' E2' Ec' Hc.
  assert (x2' = x2) as -> by congruence. assert (c' = c) as -> by congruence.
  by apply (oversized_confidence_walk scale c x3).
Qed.

(** An ingestion whose walk fails. *)
Lemma ingest_stops input value name root e :
  parse_strict nfc input = Ok value -> select_schema value = Ok name -> root_entry registry name = Some root ->
  validate_annotated nfc json_pointer registry default_limits value [root] = Err e ->
  ingest nfc sha256 json_pointer registry input = Err e.
Proof.
  intros Hp Hn Hr Hv. pose proof (accepted_text _ _ _ Hp) as (Hb & _). unfold parse_strict in Hp. unfold canonical_bytes in Hb.
  unfold ingest, ingest_with_limits. rewrite Hp. cbn [mbind result_bind]. unfold finish_ingestion. rewrite Hb. cbn [mbind result_bind].
  rewrite Hn. cbn [mbind result_bind]. unfold validate_selected. rewrite Hr. cbn [ok_or mbind result_bind]. by rewrite Hv.
Qed.
End Aborting.

(** C40: the comparison of a confidence runs before anything has bounded its scale, so one short
    document ends the process.  A confidence aborts exactly when its comparison pads a number
    to more than 2^47 characters.  And in every registry whose walk gives
    [payload.confidence] of a claim the common definition, as the embedded schemas do, and
    lets the claim with scale 0 pass, the ingestion of that claim with any scale from 2^47 to
    the largest integer of a document, a text of fewer than 160 bytes, aborts. *)
Theorem confidence_aborts nfc sha256 json_pointer registry root scale :
  (forall cs, Forall (fun c => 0 <= c < 128) cs -> nfc cs = cs) ->
  root_entry registry (lit "claim.schema.json") = Some root ->
  annotates_confidence json_pointer registry = Ok true ->
  validate_annotated nfc json_pointer registry default_limits (claim 0) [root] = Ok tt ->
  MAX_ALLOCATION <= scale <= MAX_SAFE_INTEGER ->
  (forall value, validate_confidence value = Err Aborted <-> oversized_confidence value) /\
  len (render (claim scale)) < 160 /\
  ingest nfc sha256 json_pointer registry (render (claim scale)) = Err Aborted.
Proof.
  intros Hnfc Hr Ha Hv Hs.
  assert (0 <= scale <= MAX_SAFE_INTEGER) as Hs0 by (unfold MAX_ALLOCATION in Hs; lia).
  pose proof (parse_claim nfc Hnfc scale Hs0) as Hp. split_and!.
  - intros value. split; [|apply oversized_confidence_aborts]. by intros [[? ?]|[_ ?]]%validate_confidence_Err.
  - rewrite render_claim, !len_app. pose proof (len_show_int scale ltac:(unfold MAX_SAFE_INTEGER in *; lia)).
    change (len claim_head) with 102. change (len claim_tail) with 41. lia.
  - eapply (ingest_stops nfc sha256 json_pointer registry _ _ (lit "claim.schema.json") root); [exact Hp|reflexivity|exact Hr|].
    exact (walk_claim nfc json_pointer registry scale root (proj1 Hs) Hr Ha Hv).
Qed.

(** The part of the embedded schemas that reaches the confidence of a claim. *)
Definition claim_registry : SchemaRegistry :=
  {| documents :=
       {[ lit "common.schema.json" := JObject [(lit "$defs", JObject [(lit "Confidence", JObject [])])];
          lit "claim.schema.json" := JObject [(lit "properties", JObject [(lit "payload", JObject [(lit "properties",
            JObject [(lit "confidence", JObject [(lit "$ref", JString (lit "common.schema.json#/$defs/Confidence"))])])])])] ]};
     validators := {[ lit "claim.schema.json" := is_object ]} |}.
Definition claim_pointer : Json -> str -> option (list nat) :=
  fun _ pointer => if str_eqb pointer (lit "/$defs/Confidence") then Some [O; O] else None.
Definition claim_root : SchemaEntry :=
  default {| se_schema := JNull; se_file := []; se_path := [] |} (root_entry claim_registry (lit "claim.schema.json")).

Lemma confidence_aborts_witness :
  (forall value, validate_confidence value = Err Aborted <-> oversized_confidence value) /\
  len (render (claim MAX_ALLOCATION)) < 160 /\
  ingest nfc_id toy_sha256 claim_pointer claim_registry (render (claim MAX_ALLOCATION)) = Err Aborted.
Proof.
  apply (confidence_aborts nfc_id toy_sha256 claim_pointer claim_registry claim_root MAX_ALLOCATION).
  - reflexivity.
  - vm_compute. reflexivity.
  - vm_compute. reflexivity.
  - vm_compute. reflexivity.
  - split; vm_compute; discriminate.
Defined.
