(* ===== verification/ObjectStore.v ===== *)
(** * The object store interface

    [VerifiedObject], [StoreError] and the traits [ObjectStore] and
    [BoundedObjectStore] of crates/synapse-cas/src/store.rs.  Within one
    operation the objects of a store do not change (the cooperative no-removal
    boundary of the traits), so reading is a function of the store.  I/O errors
    keep no detail; a panic of the code is [StoreCore Panic]. *)

From stdpp Require Import base list numbers strings gmap.
From Stdlib Require Import ZArith Lia.
From S2P Require Import Prelude Text Canonical Oid.

#[local] Open Scope Z_scope.

Inductive StoreError :=
| StoreReadOnly
| StoreCore (e : CoreError)
| StoreIo
| CorruptObject (oid : str)
| InvalidStoreLayout.

#[export] Instance StoreError_eq_dec : EqDecision StoreError.
Proof. solve_decision. Defined.

Abbreviation sresult := (result StoreError).

(** [?] on a [Result<_, CoreError>] *)
Definition core {A} (r : cresult A) : sresult A := map_err StoreCore r.

Record VerifiedObject := {
  ob_oid : str;
  ob_kind : ObjectKind;
  ob_byte_len : Z;
  ob_structured : option Value;
}.

Class ObjectStore (S : Type) := {
  get_verified : S -> str -> sresult (option VerifiedObject);
  list_oids : S -> sresult (list str);
  still_stored : S -> VerifiedObject -> sresult bool;
}.

Class BoundedObjectStore (S : Type) `{ObjectStore S} := {
  list_oids_by_kind_limited : S -> ObjectKind -> Z -> sresult (list str);
}.

(** What clients rely on: a returned object is the one asked for. *)
Class ObjectStoreLaws (S : Type) `{ObjectStore S} := {
  get_verified_oid store oid o : get_verified store oid = Ok (Some o) -> ob_oid o = oid;
  get_verified_kind store oid o : get_verified store oid = Ok (Some o) -> parse_oid oid = Ok (ob_kind o);
}.

(** ** A store held in memory *)

Definition MemoryStore : Type := list VerifiedObject.

Definition memory_get (store : MemoryStore) (oid : str) : sresult (option VerifiedObject) :=
  core (parse_oid oid);;
  Ok (find (fun o => str_eqb (ob_oid o) oid && bool_decide (parse_oid oid = Ok (ob_kind o))) store).

#[export] Instance memory_store : ObjectStore MemoryStore := {
  get_verified := memory_get;
  list_oids store := Ok (map ob_oid store);
  still_stored _ _ := Ok true;
}.

#[export] Instance memory_bounded_store : BoundedObjectStore MemoryStore := {
  list_oids_by_kind_limited store kind max_objects :=
    let oids := map ob_oid (filter (fun o => ob_kind o = kind) store) in
    if len oids >? max_objects then Err (StoreCore (Core ResourceLimit)) else Ok oids;
}.

Lemma memory_get_Some store oid o :
  memory_get store oid = Ok (Some o) -> ob_oid o = oid /\ parse_oid oid = Ok (ob_kind o).
Proof.
  unfold memory_get. intros (? & _ & [= H])%bind_Ok. apply find_some in H as [_ H]. bool_props.
  by rewrite str_eqb_eq in *.
Qed.

#[export] Instance memory_store_laws : ObjectStoreLaws MemoryStore.
Proof. split; intros store oid o H; by apply memory_get_Some in H as [? ?]. Qed.
