(* ===== verification/FileStore.v ===== *)
(** * The file-system object store

    Models [FileObjectStore] of crates/synapse-cas/src/store.rs: staging and
    publishing objects, verified reads, repair and quarantine.  The objects
    directory is a map from object paths (family directory, digest prefix,
    digest suffix) to files; a staged file is its content.  A hard link creates
    a name at most once.  Directory scans are in Inventory.  Left out: the
    temporary directory, fsync, and I/O errors of the operating system. *)

From stdpp Require Import base list numbers strings gmap.
From Stdlib Require Import ZArith Lia.
From S2P Require Import Prelude Text TextFacts Canonical Oid ObjectStore.

#[local] Open Scope Z_scope.

Definition DEFAULT_MAX_BLOB_BYTES : Z := 512 * 1024 * 1024.
Definition DEFAULT_IO_BUFFER_BYTES : Z := 64 * 1024.

Record StoreLimits := {
  structured : ResourceLimits;
  max_blob_bytes : Z;
  io_buffer_bytes : Z;
}.

Definition default_store_limits : StoreLimits := {|
  structured := default_limits;
  max_blob_bytes := DEFAULT_MAX_BLOB_BYTES;
  io_buffer_bytes := DEFAULT_IO_BUFFER_BYTES;
|}.

Inductive PutDisposition := Created | AlreadyPresent.

Record PutResult := {
  put_oid : str;
  put_kind : ObjectKind;
  put_byte_len : Z;
  put_disposition : PutDisposition;
}.

(** A directory entry: a regular file, or a symbolic link, directory or device. *)
Inductive FileEntry := RegularFile (bytes : list byte) | OtherFile.

#[export] Instance FileEntry_eq_dec : EqDecision FileEntry.
Proof. solve_decision. Defined.

Definition ObjectPath : Type := str * str * str.

Record FileObjectStore := {
  objects : gmap ObjectPath FileEntry;
  quarantine : gmap str FileEntry;
  limits : StoreLimits;
  store_read_only : bool;
}.

Inductive ObjectState :=
| Present (info : VerifiedObject)
| Missing
| Corrupt (kind : ObjectKind).

Inductive Repair := AlreadyIntact | Restored (quarantined : option str).

Definition store_resource_limit : StoreError := StoreCore (Core ResourceLimit).

Definition set_objects (files : gmap ObjectPath FileEntry) (s : FileObjectStore) : FileObjectStore :=
  {| objects := files; quarantine := quarantine s; limits := limits s; store_read_only := store_read_only s |}.

Definition store_ensure_writable (s : FileObjectStore) : sresult unit := reject_if (store_read_only s) StoreReadOnly.

(** [oid.rsplit(':').next()] *)
Definition oid_digest (oid : str) : str := default [] (last (split_on 58 oid)).

Definition object_path_for_valid_oid (oid : str) (kind : ObjectKind) : ObjectPath :=
  (prefix kind, take 2 (oid_digest oid), drop 2 (oid_digest oid)).

Definition validated_object_path (oid : str) : sresult (ObjectKind * ObjectPath) :=
  kind ← core (parse_oid oid);
  Ok (kind, object_path_for_valid_oid oid kind).

(** The content of the regular file at a path, if there is an entry. *)
Definition regular_file_if_present (s : FileObjectStore) (path : ObjectPath) (oid : str) : sresult (option (list byte)) :=
  match objects s !! path with
  | None => Ok None
  | Some (RegularFile bytes) => Ok (Some bytes)
  | Some OtherFile => Err (CorruptObject oid)
  end.

Definition read_file_limited (content : list byte) (limit : Z) : sresult (list byte) :=
  reject_if (len content >? limit) store_resource_limit;;
  let bytes := take (Z.to_nat (limit + 1)) content in
  reject_if (len bytes >? limit) store_resource_limit;;
  Ok bytes.

Definition stored_object_error (oid : str) (e : CoreError) : StoreError :=
  match e with
  | Core code => if bool_decide (code = ResourceLimit) then StoreCore e else CorruptObject oid
  | e => StoreCore e
  end.

(** What successive [read]s of a buffer of [size] bytes return, until the end of file. *)
Fixpoint read_buffers (fuel : nat) (size : nat) (content : list byte) : list (list byte) :=
  match fuel with
  | O => []
  | S fuel =>
    match content with
    | [] => []
    | _ => take size content :: read_buffers fuel size (drop size content)
    end
  end.

(** The read loop of [stage_blob], [verify_blob_file] and [copy_verified_blob]:
    the bytes seen so far and their number. *)
Fixpoint read_loop (max_bytes : Z) (reads : list (list byte)) (bytes : list byte) (total : Z)
  : sresult (list byte * Z) :=
  match reads with
  | [] => Ok (bytes, total)
  | buffer :: reads =>
    if bool_decide (buffer = []) then Ok (bytes, total)
    else
      total ← ok_or (usize_checked_add total (len buffer)) store_resource_limit;
      reject_if (total >? max_bytes) store_resource_limit;;
      read_loop max_bytes reads (bytes ++ buffer) total
  end.

Section FileStore.
Variable sha256 : list byte -> list byte.
Variable nfc : list char -> list char.

Definition verify_raw_bytes (s : FileObjectStore) (oid : str) (kind : ObjectKind) (bytes : list byte)
  : cresult (option Value) :=
  if bool_decide (kind = Blob) then
    verify_blob_oid sha256 oid bytes;;
    Ok None
  else
    value ← parse_strict_with_limits nfc bytes (structured (limits s));
    canonical ← canonical_bytes_with_limits nfc value (structured (limits s));
    if negb (bool_decide (canonical = bytes)) then fail OidMismatch
    else
      verify_claimed_oid_unchecked_with_limits sha256 nfc oid value (structured (limits s));;
      Ok (Some value).

(** [verify_blob_file] and [copy_verified_blob], the latter returning what it wrote. *)
Definition copy_verified_blob (s : FileObjectStore) (oid : str) (content : list byte) : sresult (list byte) :=
  '(bytes, _) ← read_loop (max_blob_bytes (limits s))
                  (read_buffers (length content) (Z.to_nat (io_buffer_bytes (limits s))) content) [] 0;
  if negb (str_eqb (blob_oid sha256 bytes) oid) then Err (CorruptObject oid) else Ok bytes.

Definition file_get_verified (s : FileObjectStore) (oid : str) : sresult (option VerifiedObject) :=
  '(kind, path) ← validated_object_path oid;
  content ← regular_file_if_present s path oid;
  match content with
  | None => Ok None
  | Some content =>
    body ← (if bool_decide (kind = Blob) then copy_verified_blob s oid content;; Ok None
            else
              bytes ← read_file_limited content (max_input_bytes (structured (limits s)));
              map_err (stored_object_error oid) (verify_raw_bytes s oid kind bytes));
    Ok (Some {| ob_oid := oid; ob_kind := kind; ob_byte_len := len content; ob_structured := body |})
  end.

Definition read_raw (s : FileObjectStore) (oid : str) : sresult (option (list byte)) :=
  '(kind, path) ← validated_object_path oid;
  content ← regular_file_if_present s path oid;
  match content with
  | None => Ok None
  | Some content =>
    let limit := if bool_decide (kind = Blob) then max_blob_bytes (limits s)
                 else max_input_bytes (structured (limits s)) in
    bytes ← read_file_limited content limit;
    map_err (stored_object_error oid) (verify_raw_bytes s oid kind bytes);;
    Ok (Some bytes)
  end.

Definition read_verified_blob_limited (s : FileObjectStore) (oid : str) (max_bytes : Z) : sresult (option (list byte)) :=
  reject_if (max_bytes =? 0) store_resource_limit;;
  '(kind, path) ← validated_object_path oid;
  reject_if (negb (bool_decide (kind = Blob))) (StoreCore (Core ReferenceTypeMismatch));;
  content ← regular_file_if_present s path oid;
  match content with
  | None => Ok None
  | Some content =>
    reject_if (len content >? Z.min max_bytes (max_blob_bytes (limits s))) store_resource_limit;;
    map_err (stored_object_error oid) (verify_blob_oid sha256 oid content);;
    Ok (Some content)
  end.

Definition object_state (s : FileObjectStore) (oid : str) : sresult ObjectState :=
  kind ← core (parse_oid oid);
  match file_get_verified s oid with
  | Ok (Some object) => Ok (Present object)
  | Ok None => Ok Missing
  | Err (CorruptObject _) => Ok (Corrupt kind)
  | Err e => Err e
  end.

(** ** Writing *)

Definition stage_blob (s : FileObjectStore) (claimed_oid : option str) (reads : list (list byte))
  : sresult (list byte * str * Z) :=
  store_ensure_writable s;;
  '(bytes, byte_len) ← read_loop (max_blob_bytes (limits s)) reads [] 0;
  let oid := blob_oid sha256 bytes in
  if match claimed_oid with Some claimed_oid => negb (str_eqb claimed_oid oid) | None => false end
  then Err (StoreCore (Core OidMismatch))
  else Ok (bytes, oid, byte_len).

Definition stage_structured (s : FileObjectStore) (claimed_oid : option str) (input : list byte)
    (require_canonical_input : bool) : sresult (list byte * str * Z) :=
  store_ensure_writable s;;
  value ← core (parse_strict_with_limits nfc input (structured (limits s)));
  canonical ← core (canonical_bytes_with_limits nfc value (structured (limits s)));
  reject_if (require_canonical_input && negb (bool_decide (input = canonical))) (StoreCore (Core SchemaInvalid));;
  oid ← core (structured_oid_unchecked_with_limits sha256 nfc value (structured (limits s)));
  if match claimed_oid with Some claimed_oid => negb (str_eqb claimed_oid oid) | None => false end
  then Err (StoreCore (Core OidMismatch))
  else Ok (canonical, oid, len canonical).

(** [fs::hard_link] and, when the name exists, [compare_regular_files]. *)
Definition publish_staged (s : FileObjectStore) (staged : list byte) (oid : str) (kind : ObjectKind) (byte_len : Z)
  : sresult (FileObjectStore * PutResult) :=
  store_ensure_writable s;;
  let target := object_path_for_valid_oid oid kind in
  let result disposition := {| put_oid := oid; put_kind := kind; put_byte_len := byte_len; put_disposition := disposition |} in
  match objects s !! target with
  | None => Ok (set_objects (<[target := RegularFile staged]> (objects s)) s, result Created)
  | Some existing =>
    if negb (bool_decide (existing = RegularFile staged)) then Err (CorruptObject oid)
    else Ok (s, result AlreadyPresent)
  end.

Definition put_blob_inner (s : FileObjectStore) (claimed_oid : option str) (reads : list (list byte))
  : sresult (FileObjectStore * PutResult) :=
  '(staged, oid, byte_len) ← stage_blob s claimed_oid reads;
  publish_staged s staged oid Blob byte_len.

Definition put_blob (s : FileObjectStore) (reads : list (list byte)) : sresult (FileObjectStore * PutResult) :=
  store_ensure_writable s;;
  put_blob_inner s None reads.

Definition put_blob_claimed (s : FileObjectStore) (claimed_oid : str) (reads : list (list byte))
  : sresult (FileObjectStore * PutResult) :=
  store_ensure_writable s;;
  kind ← core (parse_oid claimed_oid);
  reject_if (negb (bool_decide (kind = Blob))) (StoreCore (Core OidMismatch));;
  put_blob_inner s (Some claimed_oid) reads.

Definition put_structured_inner (s : FileObjectStore) (claimed_oid : option str) (input : list byte)
    (require_canonical_input : bool) : sresult (FileObjectStore * PutResult) :=
  '(staged, oid, byte_len) ← stage_structured s claimed_oid input require_canonical_input;
  kind ← core (parse_oid oid);
  publish_staged s staged oid kind byte_len.

Definition put_structured_unchecked (s : FileObjectStore) (input : list byte) : sresult (FileObjectStore * PutResult) :=
  store_ensure_writable s;;
  put_structured_inner s None input false.

Definition put_structured_claimed_unchecked (s : FileObjectStore) (claimed_oid : str) (input : list byte)
  : sresult (FileObjectStore * PutResult) :=
  store_ensure_writable s;;
  core (parse_oid claimed_oid);;
  put_structured_inner s (Some claimed_oid) input false.

Definition put_verified_raw (s : FileObjectStore) (claimed_oid : str) (bytes : list byte)
  : sresult (FileObjectStore * PutResult) :=
  store_ensure_writable s;;
  kind ← core (parse_oid claimed_oid);
  if bool_decide (kind = Blob) then
    put_blob_claimed s claimed_oid (read_buffers (length bytes) (Z.to_nat (io_buffer_bytes (limits s))) bytes)
  else put_structured_inner s (Some claimed_oid) bytes true.

(** ** Repair *)

(** The first of 1024 quarantine names that is free. *)
Fixpoint quarantine_name (names : gmap str FileEntry) (base : str) (attempts : nat) (attempt : Z) : option str :=
  match attempts with
  | O => None
  | S attempts =>
    let target := base ++ show_int attempt in
    match names !! target with
    | Some _ => quarantine_name names base attempts (attempt + 1)
    | None => Some target
    end
  end.

Definition quarantine_object (s : FileObjectStore) (oid : str) (kind : ObjectKind) : sresult (FileObjectStore * str) :=
  let source := object_path_for_valid_oid oid kind in
  target ← ok_or (quarantine_name (quarantine s) (prefix kind ++ lit "-" ++ oid_digest oid ++ lit "-") 1024 0) StoreIo;
  file ← ok_or (objects s !! source) StoreIo;
  Ok ({| objects := delete source (objects s); quarantine := <[target := file]> (quarantine s);
         limits := limits s; store_read_only := store_read_only s |}, target).

(** [reader.take(limit + 1).read_to_end(..)] of a reader that yields [input]. *)
Definition read_repair_input (s : FileObjectStore) (input : list byte) : sresult (list byte) :=
  let limit := max_input_bytes (structured (limits s)) in
  let bytes := take (Z.to_nat (limit + 1)) input in
  reject_if (len bytes >? limit) store_resource_limit;;
  Ok bytes.

(** Once the damaged file is set aside its path is free, so the publication that follows does not
    fail ([publish_after_quarantine] in FileStoreProps). *)
Definition repair_object (s : FileObjectStore) (oid : str) (input : list byte) : sresult (FileObjectStore * Repair) :=
  store_ensure_writable s;;
  kind ← core (parse_oid oid);
  '(staged, oid, byte_len) ←
    (if bool_decide (kind = Blob) then
       stage_blob s (Some oid) (read_buffers (length input) (Z.to_nat (io_buffer_bytes (limits s))) input)
     else
       bytes ← read_repair_input s input;
       stage_structured s (Some oid) bytes true);
  state ← object_state s oid;
  match state with
  | Present _ => Ok (s, AlreadyIntact)
  | Missing =>
    '(s, _) ← publish_staged s staged oid kind byte_len;
    Ok (s, Restored None)
  | Corrupt _ =>
    '(s, quarantined) ← quarantine_object s oid kind;
    '(s, _) ← publish_staged s staged oid kind byte_len;
    Ok (s, Restored (Some quarantined))
  end.

Definition quarantine_if_corrupt (s : FileObjectStore) (oid : str) : sresult (FileObjectStore * option str) :=
  store_ensure_writable s;;
  kind ← core (parse_oid oid);
  state ← object_state s oid;
  match state with
  | Corrupt _ =>
    '(s, target) ← quarantine_object s oid kind;
    Ok (s, Some target)
  | Present _ | Missing => Ok (s, None)
  end.
End FileStore.
