(* ===== verification/FileStoreProps.v ===== *)
(** * The file-system object store: round trip and permanence *)

From stdpp Require Import base list numbers strings gmap relations.
From Stdlib Require Import ZArith Lia.
From S2P Require Import Prelude Text TextFacts Canonical CanonicalWrite CanonicalLaws CanonicalProps Oid RegistryProps ObjectStore.
From S2P Require Import FileStore.

#[local] Open Scope Z_scope.

(** ** Bounded reading *)

Lemma read_loop_spec max reads : Forall (fun r => r <> []) reads -> forall acc t,
  0 <= max <= usize_max ->
  read_loop max reads acc t =
    if bool_decide (reads = []) || (t + len (concat reads) <=? max)
    then Ok (acc ++ concat reads, t + len (concat reads)) else Err store_resource_limit.
Proof.
  induction 1 as [|r reads Hr Hreads IH]; intros acc t Hm; cbn [read_loop concat].
  - rewrite bool_decide_eq_true_2 by done. cbn [orb]. by rewrite app_nil_r, Z.add_0_r.
  - rewrite (bool_decide_eq_false_2 (r = [])) by done. rewrite (bool_decide_eq_false_2 (r :: reads = [])) by done.
    cbn [orb]. unfold usize_checked_add. rewrite len_app. pose proof (len_nonneg (concat reads)).
    destruct (Z.leb_spec (t + len r) usize_max); cbn [ok_or mbind result_bind].
    2: { rewrite (proj2 (Z.leb_gt _ _)) by lia. done. }
    destruct (t + len r >? max) eqn:E; cbn [reject_if mbind result_bind]; bool_props.
    + by rewrite (proj2 (Z.leb_gt _ _)) by lia.
    + rewrite IH by done. rewrite <- app_assoc, Z.add_assoc.
      destruct (bool_decide_reflect (reads = [])) as [->|]; cbn [orb]; [|done].
      change (concat []) with (@nil byte). rewrite len_nil, Z.add_0_r. rewrite (proj2 (Z.leb_le _ _)) by lia. done.
Qed.

Lemma read_buffers_spec size fuel : forall content,
  (0 < size)%nat -> (length content <= fuel)%nat ->
  concat (read_buffers fuel size content) = content /\ Forall (fun r => r <> []) (read_buffers fuel size content).
Proof.
  induction fuel as [|fuel IH]; intros content Hs Hf; [destruct content; [done|simpl in Hf; lia]|].
  destruct content as [|b content]; [done|]. cbn [read_buffers concat].
  destruct (IH (drop size (b :: content))) as [Hc Hn]; [done|rewrite length_drop; simpl in *; lia|].
  rewrite Hc, take_drop. split; [done|]. constructor; [|done]. destruct size; [lia|]. done.
Qed.

(** Limits that [validate_limits] admits, on a 64-bit target. *)
Definition store_limits_ok (l : StoreLimits) : Prop :=
  1 <= io_buffer_bytes l /\ 0 <= max_blob_bytes l <= usize_max /\ limits_usize (structured l) /\
  0 <= max_container_items (structured l) /\ 0 <= max_input_bytes (structured l).

Lemma default_store_limits_ok : store_limits_ok default_store_limits.
Proof. by repeat split. Qed.

Section Props.
Variable sha256 : list byte -> list byte.
Variable nfc : list char -> list char.
Hypothesis Hsha : sha256_digest sha256.

Abbreviation fetch := (file_get_verified sha256 nfc).

Lemma copy_verified_blob_Ok s oid content :
  store_limits_ok (limits s) -> len content <= max_blob_bytes (limits s) -> blob_oid sha256 content = oid ->
  copy_verified_blob sha256 s oid content = Ok content.
Proof.
  intros (Hio & Hmax & _) Hl Ho. unfold copy_verified_blob.
  destruct (read_buffers_spec (Z.to_nat (io_buffer_bytes (limits s))) (length content) content) as [Hc Hn]; [lia|done|].
  rewrite read_loop_spec by done. rewrite Hc, (proj2 (Z.leb_le (0 + _) _)), orb_true_r by lia.
  cbn [mbind result_bind app]. by rewrite (proj2 (str_eqb_eq _ _) Ho).
Qed.

Lemma blob_oid_parse bytes : parse_oid (blob_oid sha256 bytes) = Ok Blob.
Proof.
  destruct (Hsha bytes) as [Hl Hd]. apply lower_hex_shape in Hd as [Hn Hd].
  apply (parse_oid_text Blob); [|done]. unfold sha256_hex. rewrite Hn. unfold len. by rewrite Hl.
Qed.

Lemma structured_oid_parse limits v oid :
  structured_oid_unchecked_with_limits sha256 nfc v limits = Ok oid ->
  exists k, parse_oid oid = Ok k /\ k <> Blob.
Proof.
  intros (k & b & Hk & _ & _ & ->)%structured_oid_Ok. exists k.
  destruct (Hsha (oid_preimage (prefix k) b)) as [Hl Hd]. apply lower_hex_shape in Hd as [Hn Hd].
  split; [apply parse_oid_text; [|done]; rewrite Hn; unfold len; by rewrite Hl|]. by destruct k.
Qed.

Lemma read_file_limited_Ok content limit :
  0 <= limit -> len content <= limit -> read_file_limited content limit = Ok content.
Proof.
  intros H0 Hl. unfold read_file_limited. rewrite take_ge by (unfold len in Hl; lia).
  rewrite Z.gtb_ltb, (proj2 (Z.ltb_ge _ _)) by done. done.
Qed.

(** ** What a stored file reads back as *)

Definition holds (s : FileObjectStore) (oid : str) (kind : ObjectKind) (bytes : list byte) : Prop :=
  objects s !! object_path_for_valid_oid oid kind = Some (RegularFile bytes).

Lemma fetch_blob s bytes :
  store_limits_ok (limits s) -> len bytes <= max_blob_bytes (limits s) ->
  holds s (blob_oid sha256 bytes) Blob bytes ->
  fetch s (blob_oid sha256 bytes) =
    Ok (Some {| ob_oid := blob_oid sha256 bytes; ob_kind := Blob; ob_byte_len := len bytes; ob_structured := None |}) /\
  read_raw sha256 nfc s (blob_oid sha256 bytes) = Ok (Some bytes).
Proof.
  intros Hlim Hl Hh. unfold file_get_verified, read_raw, validated_object_path, core.
  rewrite blob_oid_parse. cbn [map_err mbind result_bind]. unfold regular_file_if_present. rewrite Hh.
  cbn [mbind result_bind]. rewrite bool_decide_eq_true_2 by done.
  rewrite copy_verified_blob_Ok, read_file_limited_Ok by (done || apply Hlim).
  cbn [mbind result_bind]. unfold verify_raw_bytes, verify_blob_oid. rewrite bool_decide_eq_true_2, blob_oid_parse by done.
  cbn [mbind result_bind]. rewrite bool_decide_eq_true_2, str_eqb_refl by done. done.
Qed.

Lemma fetch_structured s input v kind oid :
  store_limits_ok (limits s) ->
  parse_strict_with_limits nfc input (structured (limits s)) = Ok v ->
  structured_oid_unchecked_with_limits sha256 nfc v (structured (limits s)) = Ok oid ->
  parse_oid oid = Ok kind -> kind <> Blob -> holds s oid kind (render v) ->
  fetch s oid = Ok (Some {| ob_oid := oid; ob_kind := kind; ob_byte_len := len (render v);
                            ob_structured := Some (canonicalize v) |}) /\
  read_raw sha256 nfc s oid = Ok (Some (render v)).
Proof.
  intros (_ & _ & Hu & Hc & Hin) Hp Ho Hk Hne Hh.
  apply parse_strict_with_limits_inv in Hp as (? & Hinput & _ & Hp).
  apply parse_text_Ok in Hp as (Hd & Ht & Hs & Hn & Hr); [|done].
  assert (exists body, canonical_bytes_with_limits nfc v (structured (limits s)) = Ok body) as [body Hbody].
  { by apply structured_oid_Ok in Ho as (? & body & _ & _ & ? & _); exists body. }
  pose proof (canonical_json_Ok _ _ _ _ Hbody) as (_ & _ & _ & _ & _ & ->).
  assert (verify_raw_bytes sha256 nfc s oid kind (render v) = Ok (Some (canonicalize v))) as Hv.
  { unfold verify_raw_bytes. rewrite bool_decide_eq_false_2 by done.
    rewrite parse_strict_render by (done || lia). cbn [mbind result_bind].
    rewrite (canonical_bytes_canonicalize _ _ _ _ Hu Hbody). cbn [mbind result_bind].
    rewrite bool_decide_eq_true_2 by done. cbn [negb]. unfold verify_claimed_oid_unchecked_with_limits.
    rewrite (structured_oid_canonicalize _ _ _ _ _ Hu Ho). cbn [mbind result_bind]. by rewrite str_eqb_refl. }
  unfold file_get_verified, read_raw, validated_object_path, core. rewrite Hk. cbn [map_err mbind result_bind].
  unfold regular_file_if_present. rewrite Hh. cbn [mbind result_bind]. rewrite !bool_decide_eq_false_2 by done.
  rewrite read_file_limited_Ok by lia. cbn [mbind result_bind]. by rewrite Hv.
Qed.

Lemma publish_staged_Ok s staged oid kind n s' r :
  publish_staged s staged oid kind n = Ok (s', r) ->
  holds s' oid kind staged /\ put_oid r = oid /\ put_kind r = kind /\ put_byte_len r = n /\ limits s' = limits s /\
  (s' = s \/ objects s !! object_path_for_valid_oid oid kind = None /\
             s' = set_objects (<[object_path_for_valid_oid oid kind := RegularFile staged]> (objects s)) s).
Proof.
  unfold publish_staged, holds. intros H. result_inv.
  destruct (objects s !! object_path_for_valid_oid oid kind) as [f|] eqn:E.
  - case_bool_decide as Hf; cbn [negb] in H; [|done]. injection H as <- <-. subst f. split_and!; try done. by left.
  - injection H as <- <-. split_and!; try done; [cbn; apply lookup_insert_eq|by right].
Qed.

(** ** Permanence *)

Inductive store_step (s s' : FileObjectStore) : Prop :=
| step_put_blob reads r : put_blob sha256 s reads = Ok (s', r) -> store_step s s'
| step_put_blob_claimed c reads r : put_blob_claimed sha256 s c reads = Ok (s', r) -> store_step s s'
| step_put_structured i r : put_structured_unchecked sha256 nfc s i = Ok (s', r) -> store_step s s'
| step_put_structured_claimed c i r : put_structured_claimed_unchecked sha256 nfc s c i = Ok (s', r) -> store_step s s'
| step_put_verified_raw c i r : put_verified_raw sha256 nfc s c i = Ok (s', r) -> store_step s s'
| step_repair c i r : repair_object sha256 nfc s c i = Ok (s', r) -> store_step s s'
| step_quarantine c r : quarantine_if_corrupt sha256 nfc s c = Ok (s', r) -> store_step s s'.

Lemma object_path_inj oid1 k1 oid2 k2 :
  parse_oid oid1 = Ok k1 -> parse_oid oid2 = Ok k2 ->
  object_path_for_valid_oid oid1 k1 = object_path_for_valid_oid oid2 k2 -> oid1 = oid2.
Proof.
  intros (d1 & -> & _ & H1)%parse_oid_Ok (d2 & -> & _ & H2)%parse_oid_Ok.
  unfold object_path_for_valid_oid, oid_digest. rewrite !oid_text_split by (by apply lower_hex_no_colon).
  cbn [last default from_option id]. intros E. injection E as Ek Et Ed.
  assert (d1 = d2) as -> by (by rewrite <- (take_drop 2 d1), <- (take_drop 2 d2), Et, Ed).
  by destruct k1, k2.
Qed.

(** Reading an object depends on its own file and the limits only. *)
Lemma fetch_local s s' oid kind :
  parse_oid oid = Ok kind -> limits s' = limits s ->
  objects s' !! object_path_for_valid_oid oid kind = objects s !! object_path_for_valid_oid oid kind ->
  fetch s' oid = fetch s oid.
Proof.
  intros Hk Hl Ho. unfold file_get_verified, validated_object_path, core. rewrite Hk. cbn [map_err mbind result_bind].
  unfold regular_file_if_present. rewrite Ho. unfold copy_verified_blob, verify_raw_bytes. by rewrite Hl.
Qed.

Lemma fetch_parse s oid o :
  fetch s oid = Ok (Some o) ->
  exists kind bytes, parse_oid oid = Ok kind /\ objects s !! object_path_for_valid_oid oid kind = Some (RegularFile bytes).
Proof.
  unfold file_get_verified, validated_object_path, core. intros H. result_inv.
  match goal with H : regular_file_if_present _ _ _ = Ok ?c |- _ => destruct c as [bytes|]; [|done]; rename H into Hf end.
  unfold regular_file_if_present in Hf. eexists _, bytes. split; [done|].
  destruct (objects s !! _) as [[]|] eqn:E; simplify_eq. done.
Qed.

(** A change that only touches the file of an object that did not read back keeps every other object. *)
Lemma fetch_preserved s s' c k oid o :
  parse_oid c = Ok k -> limits s' = limits s -> (forall x, fetch s c <> Ok (Some x)) ->
  (forall p, p <> object_path_for_valid_oid c k -> objects s' !! p = objects s !! p) ->
  fetch s oid = Ok (Some o) -> fetch s' oid = Ok (Some o).
Proof.
  intros Hk Hl Hbad Hp H. pose proof (fetch_parse _ _ _ H) as (kind & bytes & Hkind & _).
  rewrite (fetch_local s s' oid kind) by (done || (apply Hp; intros E; apply (object_path_inj oid kind c k) in E; [|done..]; subst; by apply Hbad in H)).
  done.
Qed.

Lemma publish_preserves s staged oid kind n s' r x o :
  publish_staged s staged oid kind n = Ok (s', r) -> fetch s x = Ok (Some o) -> fetch s' x = Ok (Some o).
Proof.
  intros (_ & _ & _ & _ & Hl & [->|[Hn ->]])%publish_staged_Ok Hx; [done|].
  pose proof (fetch_parse _ _ _ Hx) as (k & bytes & Hk & Hb).
  rewrite (fetch_local s _ x k); [done..|]. cbn [objects set_objects]. apply lookup_insert_ne. by intros E; rewrite E, Hb in Hn.
Qed.

Lemma put_structured_inner_preserves s claimed i req s' r x o :
  put_structured_inner sha256 nfc s claimed i req = Ok (s', r) -> fetch s x = Ok (Some o) -> fetch s' x = Ok (Some o).
Proof.
  unfold put_structured_inner. intros ([[staged oid] n] & _ & (k & _ & H)%bind_Ok)%bind_Ok. by eapply publish_preserves.
Qed.

Lemma put_blob_inner_preserves s claimed reads s' r x o :
  put_blob_inner sha256 s claimed reads = Ok (s', r) -> fetch s x = Ok (Some o) -> fetch s' x = Ok (Some o).
Proof. unfold put_blob_inner. intros ([[staged oid] n] & _ & H)%bind_Ok. by eapply publish_preserves. Qed.

Lemma object_state_Ok s oid st :
  object_state sha256 nfc s oid = Ok st -> (forall o, st <> Present o) -> forall o, fetch s oid <> Ok (Some o).
Proof.
  unfold object_state. intros H Hst o E. result_inv. rewrite E in H. injection H as <-. by apply (Hst o).
Qed.

Lemma quarantine_preserves s oid k s' t x o :
  parse_oid oid = Ok k -> (forall y, fetch s oid <> Ok (Some y)) -> quarantine_object s oid k = Ok (s', t) ->
  fetch s x = Ok (Some o) -> fetch s' x = Ok (Some o).
Proof.
  intros Hk Hbad H. unfold quarantine_object in H. result_inv.
  apply (fetch_preserved _ _ oid k); try done. cbn [objects]. intros p Hp. by apply lookup_delete_ne.
Qed.

Lemma store_step_preserves s s' x o : store_step s s' -> fetch s x = Ok (Some o) -> fetch s' x = Ok (Some o).
Proof.
  intros [reads r H|c reads r H|i r H|c i r H|c i r H|c i r H|c r H] Hx.
  - unfold put_blob in H. result_inv. by eapply put_blob_inner_preserves.
  - unfold put_blob_claimed in H. result_inv. by eapply put_blob_inner_preserves.
  - unfold put_structured_unchecked in H. result_inv. by eapply put_structured_inner_preserves.
  - unfold put_structured_claimed_unchecked in H. result_inv. by eapply put_structured_inner_preserves.
  - unfold put_verified_raw, put_blob_claimed in H. apply bind_Ok in H as (? & _ & (k & _ & H)%bind_Ok).
    case_bool_decide; [result_inv; by eapply put_blob_inner_preserves|by eapply put_structured_inner_preserves].
  - unfold repair_object in H. apply bind_Ok in H as (_ & _ & (k & Hk & H)%bind_Ok). unfold core in Hk. result_inv.
    match goal with H : (if bool_decide (k = Blob) then _ else _) = Ok (_, ?oid, _) |- _ =>
      assert (oid = c) as -> by (unfold stage_blob, stage_structured in H; case_bool_decide; result_inv;
        repeat case_match; simplify_eq; bool_props; by rewrite str_eqb_eq in *) end.
    match goal with H : object_state _ _ _ _ = Ok ?st |- _ => destruct st; rename H into Hst end.
    + by injection H as <- <-.
    + result_inv. by eapply publish_preserves.
    + result_inv. eapply publish_preserves; [done|]. eapply quarantine_preserves; [done| |done..].
      by eapply object_state_Ok.
  - unfold quarantine_if_corrupt in H. apply bind_Ok in H as (_ & _ & (k & Hk & H)%bind_Ok). unfold core in Hk. result_inv.
    match goal with H : object_state _ _ _ _ = Ok ?st |- _ => destruct st; rename H into Hst end; result_inv; try done.
    eapply quarantine_preserves; [done| |done..]. by eapply object_state_Ok.
Qed.
End Props.

(** A repair publishes in place of what it set aside. *)
Lemma publish_after_quarantine s oid kind s1 target staged n : store_read_only s = false ->
  quarantine_object s oid kind = Ok (s1, target) ->
  exists s2 put, publish_staged s1 staged oid kind n = Ok (s2, put) /\
    objects s2 = <[object_path_for_valid_oid oid kind := RegularFile staged]> (objects s1).
Proof.
  unfold quarantine_object. intros Hw H. result_inv. unfold publish_staged, store_ensure_writable. cbn. rewrite Hw, lookup_delete_eq.
  cbn. by eexists _, _.
Qed.

(** ** Properties *)

(** C5: what is put can be read back.  A stored Blob is named by the digest of its bytes and
    reads back byte for byte through the bounded buffer; a stored structured object reads
    back as the canonical form of the parsed input, from its canonical bytes.  This also
    holds when the object was already present. *)
Theorem store_put_get sha256 nfc s s' r :
  sha256_digest sha256 -> store_limits_ok (limits s) ->
  (forall reads, Forall (fun b => b <> []) reads -> put_blob sha256 s reads = Ok (s', r) ->
     put_oid r = blob_oid sha256 (concat reads) /\ read_raw sha256 nfc s' (put_oid r) = Ok (Some (concat reads)) /\
     file_get_verified sha256 nfc s' (put_oid r) =
       Ok (Some {| ob_oid := put_oid r; ob_kind := Blob; ob_byte_len := put_byte_len r; ob_structured := None |})) /\
  (forall input, put_structured_unchecked sha256 nfc s input = Ok (s', r) ->
     exists value, parse_strict_with_limits nfc input (structured (limits s)) = Ok value /\
       read_raw sha256 nfc s' (put_oid r) = Ok (Some (render value)) /\
       file_get_verified sha256 nfc s' (put_oid r) =
         Ok (Some {| ob_oid := put_oid r; ob_kind := put_kind r; ob_byte_len := put_byte_len r;
                     ob_structured := Some (canonicalize value) |})).
Proof.
  intros Hsha Hlim. split.
  - intros reads Hne H. unfold put_blob, put_blob_inner, stage_blob in H. result_inv.
    match goal with H : read_loop _ _ _ _ = _ |- _ => rewrite read_loop_spec in H by (done || apply Hlim); rename H into Hr end.
    destruct (_ || _) eqn:Hsize; simplify_eq.
    apply publish_staged_Ok in H as (Hh & -> & _ & -> & Hl & _).
    assert (len (concat reads) <= max_blob_bytes (limits s)) as Hsz.
    { apply orb_true_iff in Hsize as [->%bool_decide_eq_true|?%Z.leb_le]; [cbn; apply Hlim|lia]. }
    cbn [app] in *. destruct (fetch_blob sha256 nfc Hsha s' (concat reads)) as [Hf Hr]; [by rewrite Hl..|done|].
    rewrite Hf, Hr. by rewrite Z.add_0_l.
  - intros input H. unfold put_structured_unchecked, put_structured_inner, stage_structured, core in H. result_inv.
    match goal with H : parse_strict_with_limits _ _ _ = Ok ?v |- _ => exists v; rename H into Hp end.
    match goal with H : canonical_bytes_with_limits _ _ _ = _ |- _ => apply canonical_json_Ok in H as (_ & _ & _ & _ & _ & ->) end.
    match goal with H : structured_oid_unchecked_with_limits _ _ _ _ = _ |- _ => rename H into Ho end.
    destruct (structured_oid_parse sha256 nfc Hsha _ _ _ Ho) as (k & Hk & Hne).
    match goal with H : parse_oid _ = Ok ?x |- _ => tryif constr_eq x k then fail else (rewrite Hk in H; injection H as <-) end.
    apply publish_staged_Ok in H as (Hh & -> & -> & -> & Hl & _). rewrite <- Hl in Hp, Ho, Hlim.
    destruct (fetch_structured sha256 nfc s' input _ k _ Hlim Hp Ho Hk Hne Hh) as [-> ->]. by rewrite <- Hl.
Qed.

(** A store that holds nothing yet. *)
Definition small_store_limits : StoreLimits := {|
  structured := {| max_input_bytes := 8192; max_nesting_depth := 32; max_nodes := 1000; max_container_items := 500;
                   max_canonical_bytes := 8192 |};
  max_blob_bytes := 8192;
  io_buffer_bytes := 64;
|}.

Lemma small_store_limits_ok : store_limits_ok small_store_limits.
Proof. by repeat split. Qed.

Definition empty_store : FileObjectStore :=
  {| objects := ∅; quarantine := ∅; limits := small_store_limits; store_read_only := false |}.

Definition sample_put (s : FileObjectStore) : FileObjectStore * PutResult :=
  match put_blob toy_sha256 s [[104; 105]; [33]] with
  | Ok p => p
  | Err _ => (s, {| put_oid := []; put_kind := Blob; put_byte_len := 0; put_disposition := Created |})
  end.

Lemma sample_put_ok :
  put_blob toy_sha256 empty_store [[104; 105]; [33]] = Ok ((sample_put empty_store).1, (sample_put empty_store).2).
Proof.
  unfold sample_put.
  assert (is_ok (put_blob toy_sha256 empty_store [[104; 105]; [33]]) = true) as H by (vm_compute; reflexivity).
  by destruct (put_blob toy_sha256 empty_store [[104; 105]; [33]]) as [[? ?]|].
Qed.

Lemma store_put_get_witness :
  read_raw toy_sha256 nfc_id (sample_put empty_store).1 (put_oid (sample_put empty_store).2) = Ok (Some [104; 105; 33]).
Proof.
  destruct (store_put_get toy_sha256 nfc_id empty_store (sample_put empty_store).1 (sample_put empty_store).2
    toy_sha256_digest small_store_limits_ok) as [Hb _].
  apply (Hb [[104; 105]; [33]]); [by repeat constructor|exact sample_put_ok].
Defined.

(** C6: stored objects are permanent: whatever sequence of puts, repairs and quarantines
    follows, with any claimed OIDs and any bytes, an object that reads back intact keeps
    reading back as the same object. *)
Theorem store_objects_permanent sha256 nfc s s' oid object :
  rtc (store_step sha256 nfc) s s' ->
  file_get_verified sha256 nfc s oid = Ok (Some object) ->
  file_get_verified sha256 nfc s' oid = Ok (Some object).
Proof. induction 1 as [|s s1 s' Hstep _ IH]; [done|]. intros H. by eapply IH, store_step_preserves. Qed.

(** The Blob "hi!" is stored, then another Blob. *)
Definition sample_store1 : FileObjectStore := (sample_put empty_store).1.
Definition sample_put2 : FileObjectStore * PutResult :=
  match put_blob toy_sha256 sample_store1 [[7]] with Ok p => p | Err _ => sample_put empty_store end.

Lemma sample_put2_step : store_step toy_sha256 nfc_id sample_store1 sample_put2.1.
Proof.
  apply (step_put_blob _ _ _ _ [[7]] sample_put2.2). unfold sample_put2.
  assert (is_ok (put_blob toy_sha256 sample_store1 [[7]]) = true) as H by (vm_compute; reflexivity).
  by destruct (put_blob toy_sha256 sample_store1 [[7]]) as [[? ?]|].
Qed.

Lemma store_objects_permanent_witness :
  file_get_verified toy_sha256 nfc_id sample_put2.1 (blob_oid toy_sha256 [104; 105; 33]) =
  Ok (Some {| ob_oid := blob_oid toy_sha256 [104; 105; 33]; ob_kind := Blob; ob_byte_len := 3; ob_structured := None |}).
Proof.
  apply (store_objects_permanent toy_sha256 nfc_id sample_store1).
  - eapply rtc_l; [apply sample_put2_step|apply rtc_refl].
  - vm_compute. reflexivity.
Defined.
