(* ===== verification/Inventory.v ===== *)
(** * The inventory of the file-system object store

    The rest of crates/synapse-cas/src/store.rs that reads the objects directory:
    directory scans with and without limits, the files a desktop system leaves
    behind, the [ObjectStore] implementation of [FileObjectStore], verified copies
    to a writer, and the memo of one integrity check.  A directory is a tree whose
    entries stand in the order in which [read_dir] yields them; a path of the
    inventory is the list of its components below the store root. *)

From stdpp Require Import base list numbers strings gmap.
From Stdlib Require Import ZArith Lia.
From S2P Require Import Prelude Sorting Text BTree Canonical Oid ObjectStore FileStore.

#[local] Open Scope Z_scope.

Inductive Node :=
| FileNode (bytes : list byte)
| DirNode (entries : list (str * Node))
| OtherNode.

Abbreviation DirEntry := (str * Node)%type.

Definition is_file (n : Node) : bool := match n with FileNode _ => true | _ => false end.
Definition is_dir (n : Node) : bool := match n with DirNode _ => true | _ => false end.

Definition read_dir (n : Node) : sresult (list DirEntry) :=
  match n with DirNode entries => Ok entries | _ => Err StoreIo end.

Definition OBJECTS_DIRECTORY : str := lit "objects".
Definition MAX_IGNORED_ENTRIES_BEYOND_LIMIT : Z := 16.

Definition to_ascii_lowercase (b : byte) : byte := if is_ascii_uppercase b then b + 32 else b.
Definition eq_ignore_ascii_case (a b : str) : bool := str_eqb (map to_ascii_lowercase a) (map to_ascii_lowercase b).

Definition is_os_metadata_file_name (name : str) : bool :=
  utf8_valid name &&
  (str_eqb name (lit ".DS_Store") || starts_with (lit "._") name ||
   eq_ignore_ascii_case name (lit "Thumbs.db") || eq_ignore_ascii_case name (lit "desktop.ini")).

Definition is_ignored_os_metadata (entry : DirEntry) : bool :=
  is_os_metadata_file_name (fst entry) && is_file (snd entry).

(** ** The complete scan *)

Abbreviation InvalidStorePath := (list str).

Record StoreInventory := { inv_oids : list str; inv_invalid_paths : list InvalidStorePath }.

Definition push_oid (oid : str) (found : StoreInventory) : StoreInventory :=
  {| inv_oids := inv_oids found ++ [oid]; inv_invalid_paths := inv_invalid_paths found |}.
Definition push_invalid (path : InvalidStorePath) (found : StoreInventory) : StoreInventory :=
  {| inv_oids := inv_oids found; inv_invalid_paths := inv_invalid_paths found ++ [path] |}.

Definition lower_hex_name (n : Z) (name : str) : bool := (len name =? n) && forallb is_lower_hex name.

(** [format!("{}:sg-oid-v1:sha256:{prefix}{suffix}", kind.prefix())] *)
Definition scanned_oid (kind : ObjectKind) (digest_prefix suffix : str) : str :=
  prefix kind ++ lit ":sg-oid-v1:sha256:" ++ digest_prefix ++ suffix.

Fixpoint scan_prefix (entries : list DirEntry) (family digest_prefix : str) (kind : ObjectKind) (found : StoreInventory)
  : StoreInventory :=
  match entries with
  | [] => found
  | entry :: entries =>
    let path := [OBJECTS_DIRECTORY; family; digest_prefix; fst entry] in
    scan_prefix entries family digest_prefix kind
      (if is_ignored_os_metadata entry then found
       else if negb (utf8_valid (fst entry)) then push_invalid path found
       else if negb (lower_hex_name 62 (fst entry)) || negb (is_file (snd entry)) then push_invalid path found
       else
         let oid := scanned_oid kind digest_prefix (fst entry) in
         if negb (is_ok (parse_oid oid)) then push_invalid path found else push_oid oid found)
  end.

Fixpoint scan_family (entries : list DirEntry) (family : str) (kind : ObjectKind) (found : StoreInventory)
  : StoreInventory :=
  match entries with
  | [] => found
  | entry :: entries =>
    let path := [OBJECTS_DIRECTORY; family; fst entry] in
    scan_family entries family kind
      (if is_ignored_os_metadata entry then found
       else if negb (utf8_valid (fst entry)) then push_invalid path found
       else if negb (lower_hex_name 2 (fst entry)) then push_invalid path found
       else
         match snd entry with
         | DirNode objects => scan_prefix objects family (fst entry) kind found
         | _ => push_invalid path found
         end)
  end.

Definition family_kind (family : str) : option ObjectKind :=
  if str_eqb family (lit "blob") then Some Blob
  else if str_eqb family (lit "record") then Some Record
  else if str_eqb family (lit "tree") then Some Tree
  else if str_eqb family (lit "commit") then Some Commit
  else None.

Fixpoint scan_families (entries : list DirEntry) (found : StoreInventory) : StoreInventory :=
  match entries with
  | [] => found
  | entry :: entries =>
    let path := [OBJECTS_DIRECTORY; fst entry] in
    scan_families entries
      (if is_ignored_os_metadata entry then found
       else if negb (utf8_valid (fst entry)) then push_invalid path found
       else
         match family_kind (fst entry) with
         | None => push_invalid path found
         | Some kind =>
           match snd entry with
           | DirNode prefixes => scan_family prefixes (fst entry) kind found
           | _ => push_invalid path found
           end
         end)
  end.

(** The order of paths: component by component. *)
Fixpoint path_compare (a b : InvalidStorePath) : comparison :=
  match a, b with
  | [], [] => Eq
  | [], _ => Lt
  | _, [] => Gt
  | x :: a, y :: b => match lex_compare x y with Eq => path_compare a b | c => c end
  end.

(** [objects] is the objects directory. *)
Definition scan_inventory (objects : Node) : sresult StoreInventory :=
  entries ← read_dir objects;
  let found := scan_families entries {| inv_oids := []; inv_invalid_paths := [] |} in
  Ok {| inv_oids := sort_dedup (inv_oids found); inv_invalid_paths := sort_by path_compare (inv_invalid_paths found) |}.

(** ** Limited scans *)

(** The loop of [read_directory_at_most]. *)
Fixpoint read_entries_at_most (entries : list DirEntry) (max_entries : Z) (exceeded : StoreError)
    (result : list DirEntry) (ignored : Z) : sresult (list DirEntry) :=
  match entries with
  | [] => Ok result
  | entry :: entries =>
    if is_ignored_os_metadata entry then
      let ignored := ignored + 1 in
      reject_if (ignored >? usize_saturating_add max_entries MAX_IGNORED_ENTRIES_BEYOND_LIMIT) exceeded;;
      read_entries_at_most entries max_entries exceeded result ignored
    else
      reject_if (len result =? max_entries) exceeded;;
      read_entries_at_most entries max_entries exceeded (result ++ [entry]) ignored
  end.

Definition read_directory_at_most (directory : Node) (max_entries : Z) (exceeded : StoreError) : sresult (list DirEntry) :=
  entries ← read_dir directory;
  read_entries_at_most entries max_entries exceeded [] 0.

(** [sort_by_key(fs::DirEntry::file_name)] *)
Definition by_file_name (entries : list DirEntry) : list DirEntry :=
  sort_by (fun a b => lex_compare (fst a) (fst b)) entries.

Definition digest_dir_ok (entry : DirEntry) : bool :=
  utf8_valid (fst entry) && lower_hex_name 2 (fst entry) && is_dir (snd entry).
Definition object_file_ok (entry : DirEntry) : bool :=
  utf8_valid (fst entry) && lower_hex_name 62 (fst entry) && is_file (snd entry).

Fixpoint list_digest_files (kind : ObjectKind) (digest_prefix : str) (files : list DirEntry) (oids : list str)
  : sresult (list str) :=
  match files with
  | [] => Ok oids
  | file :: files =>
    reject_if (negb (object_file_ok file)) InvalidStoreLayout;;
    let oid := scanned_oid kind digest_prefix (fst file) in
    core (parse_oid oid);;
    list_digest_files kind digest_prefix files (oids ++ [oid])
  end.

(** The loop over the digest prefixes of a family. *)
Fixpoint list_prefixes (kind : ObjectKind) (max_objects : Z) (prefixes : list DirEntry) (examined_objects : Z) (oids : list str)
  : sresult (list str) :=
  match prefixes with
  | [] => Ok oids
  | entry :: prefixes =>
    reject_if (negb (digest_dir_ok entry)) InvalidStoreLayout;;
    let remaining := max_objects - examined_objects in
    reject_if (remaining <? 0) (StoreCore Panic);;
    objects ← read_directory_at_most (snd entry) remaining store_resource_limit;
    examined_objects ← ok_or (usize_checked_add examined_objects (len objects)) store_resource_limit;
    oids ← list_digest_files kind (fst entry) (by_file_name objects) oids;
    list_prefixes kind max_objects prefixes examined_objects oids
  end.

Definition directory_entry (name : str) (entries : list DirEntry) : option Node :=
  snd <$> find (fun entry => str_eqb (fst entry) name) entries.

Definition scan_kind_inventory_at_most (objects : Node) (kind : ObjectKind) (max_objects : Z) : sresult (list str) :=
  entries ← read_dir objects;
  family ← ok_or (directory_entry (prefix kind) entries) StoreIo;
  reject_if (negb (is_dir family)) InvalidStoreLayout;;
  prefixes ← read_directory_at_most family 256 InvalidStoreLayout;
  oids ← list_prefixes kind max_objects (by_file_name prefixes) 0 [];
  Ok (sort_dedup oids).

Definition scan_kind_inventory_limited (objects : Node) (kind : ObjectKind) (max_objects : Z) : sresult (list str) :=
  reject_if (max_objects =? 0) store_resource_limit;;
  scan_kind_inventory_at_most objects kind max_objects.

Definition expected_families : list str := [lit "blob"; lit "commit"; lit "record"; lit "tree"].

Definition is_store_resource_limit (e : StoreError) : bool :=
  match e with StoreCore (Core code) => bool_decide (code = ResourceLimit) | _ => false end.

(** The loop over the four kinds. *)
Fixpoint list_kinds (objects : Node) (max_objects : Z) (kinds : list ObjectKind) (oids : list str) : sresult (list str) :=
  match kinds with
  | [] => Ok oids
  | kind :: kinds =>
    let remaining := max_objects - len oids in
    reject_if (remaining <? 0) (StoreCore Panic);;
    family_oids ← map_err (fun error => if is_store_resource_limit error then store_resource_limit else error)
                    (scan_kind_inventory_at_most objects kind remaining);
    list_kinds objects max_objects kinds (oids ++ family_oids)
  end.

Definition scan_inventory_limited (objects : Node) (max_objects : Z) : sresult (list str) :=
  reject_if (max_objects =? 0) store_resource_limit;;
  families ← read_directory_at_most objects 4 InvalidStoreLayout;
  reject_if (negb (forallb utf8_valid (map fst families))) InvalidStoreLayout;;
  reject_if (negb (bool_decide (sort_by lex_compare (map fst families) = expected_families))) InvalidStoreLayout;;
  oids ← list_kinds objects max_objects [Blob; Record; Tree; Commit] [];
  Ok (sort_by lex_compare oids).

(** ** The store's directory *)

Definition node_of_entry (e : FileEntry) : Node :=
  match e with RegularFile bytes => FileNode bytes | OtherFile => OtherNode end.

Definition STORE_FAMILIES : list str := [lit "blob"; lit "record"; lit "tree"; lit "commit"].

Abbreviation ObjectRow := (ObjectPath * FileEntry)%type.

Definition row_family (row : ObjectRow) : str := fst (fst (fst row)).
Definition row_prefix (row : ObjectRow) : str := snd (fst (fst row)).
Definition row_entry (row : ObjectRow) : DirEntry := (snd (fst row), node_of_entry (snd row)).

(** The identifier of the object at a path. *)
Definition row_oid (row : ObjectRow) : str :=
  row_family row ++ lit ":sg-oid-v1:sha256:" ++ row_prefix row ++ snd (fst row).

Definition prefix_directory (rows : list ObjectRow) (digest_prefix : str) : DirEntry :=
  (digest_prefix, DirNode (map row_entry (filter (fun row => row_prefix row = digest_prefix) rows))).
Definition family_directory (rows : list ObjectRow) (family : str) : DirEntry :=
  let rows := filter (fun row => row_family row = family) rows in
  (family, DirNode (map (prefix_directory rows) (remove_dups (map row_prefix rows)))).

(** The objects directory of a store: the four families that [open] creates, and its files. *)
Definition objects_directory (s : FileObjectStore) : Node :=
  let rows := map_to_list (objects s) in
  DirNode (map (family_directory rows) (remove_dups (STORE_FAMILIES ++ map row_family rows))).

Definition inventory (s : FileObjectStore) : sresult StoreInventory := scan_inventory (objects_directory s).

Definition file_list_oids (s : FileObjectStore) : sresult (list str) :=
  inventory ← inventory s;
  match inv_invalid_paths inventory with
  | _ :: _ => Err InvalidStoreLayout
  | [] => Ok (inv_oids inventory)
  end.

Definition list_oids_limited (s : FileObjectStore) (max_objects : Z) : sresult (list str) :=
  scan_inventory_limited (objects_directory s) max_objects.

Definition list_oids_at_valid_paths (s : FileObjectStore) : sresult (list str) :=
  inventory ← inventory s;
  Ok (inv_oids inventory).

Definition stored_object_byte_len (s : FileObjectStore) (oid : str) : sresult (option Z) :=
  '(_, path) ← validated_object_path oid;
  content ← regular_file_if_present s path oid;
  Ok (option_map len content).

Definition open_object_file (s : FileObjectStore) (oid : str) : sresult (option (list byte)) :=
  '(_, path) ← validated_object_path oid;
  regular_file_if_present s path oid.

Section Store.
Variable sha256 : list byte -> list byte.
Variable nfc : list char -> list char.

#[local] Instance file_object_store : ObjectStore FileObjectStore := {
  get_verified := file_get_verified sha256 nfc;
  list_oids := file_list_oids;
  still_stored s object :=
    byte_len ← stored_object_byte_len s (ob_oid object);
    Ok (bool_decide (byte_len = Some (ob_byte_len object)));
}.

#[local] Instance file_bounded_store : BoundedObjectStore FileObjectStore := {
  list_oids_by_kind_limited s kind max_objects := scan_kind_inventory_limited (objects_directory s) kind max_objects;
}.

(** [validate_limits]: the canonical validator is exercised on [null]. *)
Definition validate_store_limits (limits : StoreLimits) : sresult unit :=
  reject_if (max_blob_bytes limits =? 0) store_resource_limit;;
  reject_if (io_buffer_bytes limits =? 0) store_resource_limit;;
  core (parse_strict_with_limits nfc (lit "null") (structured limits));;
  Ok tt.

Definition verify_structured_copy (s : FileObjectStore) (oid : str) (bytes : list byte) : sresult VerifiedObject :=
  kind ← core (parse_oid oid);
  structured ← core (verify_raw_bytes sha256 nfc s oid kind bytes);
  structured ← ok_or structured (StoreCore (Core SchemaInvalid));
  Ok {| ob_oid := oid; ob_kind := kind; ob_byte_len := len bytes; ob_structured := Some structured |}.

(** ** Verified copies *)

Section Copy.
Context {W : Type}.
(** [Write::write_all]: the writer afterwards, and whether it accepted everything. *)
Variable write_all : W -> list byte -> W * bool.

(** The loop of [copy_verified_blob]: what was read so far, its number of bytes, and the writer. *)
Fixpoint copy_loop (max_blob_bytes : Z) (reads : list (list byte)) (bytes : list byte) (total : Z) (writer : W)
  : W * sresult (list byte) :=
  match reads with
  | [] => (writer, Ok bytes)
  | buffer :: reads =>
    if bool_decide (buffer = []) then (writer, Ok bytes)
    else
      match usize_checked_add total (len buffer) with
      | None => (writer, Err store_resource_limit)
      | Some total =>
        if total >? max_blob_bytes then (writer, Err store_resource_limit)
        else
          let '(writer, accepted) := write_all writer buffer in
          if accepted then copy_loop max_blob_bytes reads (bytes ++ buffer) total writer
          else (writer, Err StoreIo)
      end
  end.

(** [copy_verified_blob] with its writer. *)
Definition copy_blob_to (s : FileObjectStore) (oid : str) (content : list byte) (writer : W) : W * sresult unit :=
  let reads := read_buffers (length content) (Z.to_nat (io_buffer_bytes (limits s))) content in
  let '(writer, copied) := copy_loop (max_blob_bytes (limits s)) reads [] 0 writer in
  (writer, bytes ← copied; reject_if (negb (str_eqb (blob_oid sha256 bytes) oid)) (CorruptObject oid)).

Definition copy_structured_to (s : FileObjectStore) (oid : str) (kind : ObjectKind) (content : list byte) (writer : W)
  : W * sresult unit :=
  match (bytes ← read_file_limited content (max_input_bytes (structured (limits s)));
         map_err (stored_object_error oid) (verify_raw_bytes sha256 nfc s oid kind bytes);;
         Ok bytes) with
  | Err e => (writer, Err e)
  | Ok bytes =>
    let '(writer, accepted) := write_all writer bytes in
    (writer, reject_if (negb accepted) StoreIo)
  end.

(** The answer is the kind and length of the object, if it is there. *)
Definition copy_verified_to (s : FileObjectStore) (oid : str) (writer : W) : W * sresult (option (ObjectKind * Z)) :=
  match ('(kind, path) ← validated_object_path oid;
         content ← regular_file_if_present s path oid;
         Ok (kind, content)) with
  | Err e => (writer, Err e)
  | Ok (_, None) => (writer, Ok None)
  | Ok (kind, Some content) =>
    let '(writer, copied) :=
      if bool_decide (kind = Blob) then copy_blob_to s oid content writer
      else copy_structured_to s oid kind content writer in
    (writer, copied;; Ok (Some (kind, len content)))
  end.
End Copy.
End Store.

(** ** The memo of one integrity check *)

Definition MAX_MEMOIZED_STRUCTURED_BYTES : Z := 32 * 1024 * 1024.

Section Memo.
Context {S : Type} `{BoundedObjectStore S}.

Record VerifiedObjectMemo := {
  memo_store : S;
  verified : gmap str VerifiedObject;
  structured_bytes : Z;
}.

Definition memo_new (store : S) : VerifiedObjectMemo :=
  {| memo_store := store; verified := ∅; structured_bytes := 0 |}.

Definition insert_verified (object : VerifiedObject) (bytes : Z) (m : VerifiedObjectMemo) : VerifiedObjectMemo :=
  {| memo_store := memo_store m; verified := <[ob_oid object := object]> (verified m); structured_bytes := bytes |}.
Definition forget (oid : str) (m : VerifiedObjectMemo) : VerifiedObjectMemo :=
  {| memo_store := memo_store m; verified := delete oid (verified m); structured_bytes := structured_bytes m |}.

Definition remember (object : VerifiedObject) (m : VerifiedObjectMemo) : VerifiedObjectMemo :=
  if negb (bool_decide (ob_kind object = Blob)) then
    let total := usize_saturating_add (structured_bytes m) (ob_byte_len object) in
    if total >? MAX_MEMOIZED_STRUCTURED_BYTES then m else insert_verified object total m
  else insert_verified object (structured_bytes m) m.

(** A read that reached the store. *)
Definition memo_read (m : VerifiedObjectMemo) (oid : str) : VerifiedObjectMemo * sresult (option VerifiedObject) :=
  match get_verified (memo_store m) oid with
  | Ok (Some object) => (remember object m, Ok (Some object))
  | answer => (m, answer)
  end.

(** [get_verified] of the memo, and the memo afterwards. *)
Definition memo_get_verified (m : VerifiedObjectMemo) (oid : str)
  : VerifiedObjectMemo * sresult (option VerifiedObject) :=
  match verified m !! oid with
  | Some object =>
    if match still_stored (memo_store m) object with Ok true => true | _ => false end
    then (m, Ok (Some object))
    else memo_read (forget oid m) oid
  | None => memo_read m oid
  end.

(** The memo as a store: what it answers in its present state. *)
#[export] Instance memo_object_store : ObjectStore VerifiedObjectMemo := {
  get_verified m oid := snd (memo_get_verified m oid);
  list_oids m := list_oids (memo_store m);
  still_stored m object := still_stored (memo_store m) object;
}.

#[export] Instance memo_object_bounded_store : BoundedObjectStore VerifiedObjectMemo := {
  list_oids_by_kind_limited m kind max_objects := list_oids_by_kind_limited (memo_store m) kind max_objects;
}.
End Memo.

Arguments VerifiedObjectMemo S : clear implicits.
