(* ===== verification/InventoryProps.v ===== *)
(** * The inventory: lemmas and properties *)

From stdpp Require Import base list numbers strings gmap sorting relations.
From Stdlib Require Import ZArith Lia.
From S2P Require Import Prelude Sorting Text TextFacts BTree Canonical CanonicalProps Oid ObjectStore FileStore FileStoreProps Inventory.

#[local] Open Scope Z_scope.

(** ** The inventory: what the scans find

    The complete scan as a set of paths, and the limited scans on a directory
    without stray entries. *)

(** ** Names *)

Lemma is_lower_hex_spec b : is_lower_hex b = true <-> 48 <= b <= 57 \/ 97 <= b <= 102.
Proof. unfold is_lower_hex, is_ascii_digit. rewrite orb_true_iff, !andb_true_iff, !Z.leb_le. lia. Qed.

Lemma lower_hex_name_spec n s : lower_hex_name n s = true <-> len s = n /\ forallb is_lower_hex s = true.
Proof. unfold lower_hex_name. by rewrite andb_true_iff, Z.eqb_eq. Qed.

Lemma hex_elem s b : forallb is_lower_hex s = true -> b ∈ s -> 48 <= b <= 57 \/ 97 <= b <= 102.
Proof. intros H Hb. rewrite forallb_forall in H. apply is_lower_hex_spec, H. by apply list_elem_of_In. Qed.

Lemma hex_name_utf8 n s : lower_hex_name n s = true -> utf8_valid s = true.
Proof.
  intros [_ H]%lower_hex_name_spec. apply utf8_valid_ascii, Forall_forall. intros b Hb. pose proof (hex_elem _ _ H Hb). lia.
Qed.

Lemma ignore_case_elem s t b :
  eq_ignore_ascii_case s t = true -> b ∈ map to_ascii_lowercase t -> exists c, c ∈ s /\ to_ascii_lowercase c = b.
Proof.
  unfold eq_ignore_ascii_case. rewrite str_eqb_eq. intros <-. rewrite list_elem_of_fmap. intros (c & -> & Hc). by exists c.
Qed.

(** No name in the object layout is one that the scans ignore. *)
Lemma hex_name_not_metadata n s : 0 < n -> lower_hex_name n s = true -> is_os_metadata_file_name s = false.
Proof.
  intros Hn [Hl H]%lower_hex_name_spec. unfold is_os_metadata_file_name.
  assert (forall c, c ∈ s -> to_ascii_lowercase c = c) as Hlow.
  { intros c Hc. pose proof (hex_elem _ _ H Hc). unfold to_ascii_lowercase, is_ascii_uppercase.
    rewrite (proj2 (andb_false_iff _ _)); [done|]. rewrite !Z.leb_gt. lia. }
  assert (str_eqb s (lit ".DS_Store") = false) as ->.
  { apply str_eqb_neq. intros ->. done. }
  assert (starts_with (lit "._") s = false) as ->.
  { apply bool_decide_eq_false_2. intros [r Hr]. destruct s as [|c s]; [done|]. cbn [lit] in Hr.
    pose proof (hex_elem _ c H ltac:(set_solver)). change (strip_prefix [46; 95] (c :: s) = Some r) in Hr.
    cbn [strip_prefix] in Hr. destruct (Z.eqb_spec 46 c); [lia|done]. }
  assert (forall t b, b ∈ map to_ascii_lowercase t -> ~ (48 <= b <= 57 \/ 97 <= b <= 102) -> eq_ignore_ascii_case s t = false) as Hci.
  { intros t b Hb Hnb. destruct (eq_ignore_ascii_case s t) eqn:E; [|done]. exfalso.
    destruct (ignore_case_elem _ _ _ E Hb) as (c & Hc & <-). rewrite Hlow in Hnb by done. by apply Hnb, (hex_elem s). }
  rewrite (Hci (lit "Thumbs.db") 116), (Hci (lit "desktop.ini") 115); [by rewrite andb_false_r| | | |]; try lia.
  all: by apply (bool_decide_unpack _); vm_compute.
Qed.

Lemma file_ok_spec x n : object_file_ok (x, n) = true <-> lower_hex_name 62 x = true /\ is_file n = true.
Proof.
  unfold object_file_ok. cbn [fst snd]. rewrite !andb_true_iff. split; [tauto|]. intros [H ?].
  pose proof (hex_name_utf8 _ _ H). tauto.
Qed.
Lemma dir_ok_spec x n : digest_dir_ok (x, n) = true <-> lower_hex_name 2 x = true /\ is_dir n = true.
Proof.
  unfold digest_dir_ok. cbn [fst snd]. rewrite !andb_true_iff. split; [tauto|]. intros [H ?].
  pose proof (hex_name_utf8 _ _ H). tauto.
Qed.

Lemma file_ok_not_ignored e : object_file_ok e = true -> is_ignored_os_metadata e = false.
Proof.
  destruct e as [x n]. rewrite file_ok_spec. intros [H _]. unfold is_ignored_os_metadata. cbn [fst].
  by rewrite (hex_name_not_metadata 62 x).
Qed.
Lemma dir_not_ignored x n : is_dir n = true -> is_ignored_os_metadata (x, n) = false.
Proof. destruct n; [done|intros _|done]. unfold is_ignored_os_metadata. cbn. apply andb_false_r. Qed.

(** ** Paths and identifiers *)

Lemma scanned_oid_text k p x : scanned_oid k p x = oid_text k (p ++ x).
Proof. reflexivity. Qed.

Lemma scanned_oid_path k p x :
  lower_hex_name 2 p = true -> lower_hex_name 62 x = true ->
  parse_oid (scanned_oid k p x) = Ok k /\ object_path_for_valid_oid (scanned_oid k p x) k = (prefix k, p, x).
Proof.
  intros [Hp Hp']%lower_hex_name_spec [Hx Hx']%lower_hex_name_spec. rewrite scanned_oid_text.
  assert (forallb is_lower_hex (p ++ x) = true) as Hd by (by rewrite forallb_app, Hp', Hx').
  split; [apply parse_oid_text; [len_lia|done]|]. unfold object_path_for_valid_oid, oid_digest.
  rewrite oid_text_split by (by apply lower_hex_no_colon). cbn [last default from_option id].
  unfold len in Hp. rewrite take_app_length', drop_app_length' by lia. done.
Qed.

Lemma oid_path_scanned oid k :
  parse_oid oid = Ok k ->
  exists p x, lower_hex_name 2 p = true /\ lower_hex_name 62 x = true /\ oid = scanned_oid k p x /\
    object_path_for_valid_oid oid k = (prefix k, p, x).
Proof.
  intros (d & -> & Hl & Hd)%parse_oid_Ok. exists (take 2 d), (drop 2 d).
  assert (forallb is_lower_hex (take 2 d) = true /\ forallb is_lower_hex (drop 2 d) = true) as [H1 H2].
  { rewrite <- (take_drop 2 d), forallb_app in Hd. by apply andb_true_iff in Hd. }
  assert (len (take 2 d) = 2 /\ len (drop 2 d) = 62) as [L1 L2].
  { unfold len in *. rewrite length_take, length_drop. lia. }
  rewrite !lower_hex_name_spec, scanned_oid_text, take_drop. split_and!; try done.
  unfold object_path_for_valid_oid, oid_digest. rewrite oid_text_split by (by apply lower_hex_no_colon). done.
Qed.

Lemma family_kind_prefix f k : family_kind f = Some k <-> f = prefix k.
Proof.
  split; [|intros ->; by destruct k]. unfold family_kind.
  repeat case_match; intros; simplify_eq;
    match goal with E : str_eqb f _ = true |- _ => apply str_eqb_eq in E as -> end; done.
Qed.

Lemma prefix_inj k1 k2 : prefix k1 = prefix k2 -> k1 = k2.
Proof. by destruct k1, k2. Qed.

(** ** The complete scan, as a function of the tree *)

(** The objects and the stray entries of a digest prefix, a family and the whole directory. *)
Definition prefix_oids (k : ObjectKind) (p : str) (files : list DirEntry) : list str :=
  map (fun e => scanned_oid k p (fst e)) (List.filter object_file_ok files).
Definition family_oids (k : ObjectKind) (prefixes : list DirEntry) : list str :=
  flat_map (fun e => match snd e with
                     | DirNode files => if digest_dir_ok e then prefix_oids k (fst e) files else []
                     | _ => []
                     end) prefixes.
Definition tree_oids (families : list DirEntry) : list str :=
  flat_map (fun e => match family_kind (fst e), snd e with
                     | Some k, DirNode prefixes => family_oids k prefixes
                     | _, _ => []
                     end) families.

Definition prefix_strays (f p : str) (files : list DirEntry) : list InvalidStorePath :=
  map (fun e => [OBJECTS_DIRECTORY; f; p; fst e])
    (List.filter (fun e => negb (object_file_ok e || is_ignored_os_metadata e)) files).
Definition family_strays (f : str) (prefixes : list DirEntry) : list InvalidStorePath :=
  flat_map (fun e => if is_ignored_os_metadata e then []
                     else match snd e with
                          | DirNode files => if digest_dir_ok e then prefix_strays f (fst e) files
                                             else [[OBJECTS_DIRECTORY; f; fst e]]
                          | _ => [[OBJECTS_DIRECTORY; f; fst e]]
                          end) prefixes.
Definition tree_strays (families : list DirEntry) : list InvalidStorePath :=
  flat_map (fun e => if is_ignored_os_metadata e then []
                     else match family_kind (fst e), snd e with
                          | Some _, DirNode prefixes => family_strays (fst e) prefixes
                          | _, _ => [[OBJECTS_DIRECTORY; fst e]]
                          end) families.

(** [found] with more of both. *)
Definition extend (oids : list str) (strays : list InvalidStorePath) (found : StoreInventory) : StoreInventory :=
  {| inv_oids := inv_oids found ++ oids; inv_invalid_paths := inv_invalid_paths found ++ strays |}.

Lemma extend_nil found : extend [] [] found = found.
Proof. destruct found. unfold extend. cbn. by rewrite !app_nil_r. Qed.
Lemma extend_extend o1 s1 o2 s2 found : extend o2 s2 (extend o1 s1 found) = extend (o1 ++ o2) (s1 ++ s2) found.
Proof. unfold extend. cbn. by rewrite !app_assoc. Qed.
Lemma push_oid_extend oid found : push_oid oid found = extend [oid] [] found.
Proof. unfold push_oid, extend. by rewrite app_nil_r. Qed.
Lemma push_invalid_extend path found : push_invalid path found = extend [] [path] found.
Proof. unfold push_invalid, extend. by rewrite app_nil_r. Qed.

Lemma scan_prefix_spec files f p k : lower_hex_name 2 p = true -> forall found,
  scan_prefix files f p k found = extend (prefix_oids k p files) (prefix_strays f p files) found.
Proof.
  intros Hp. induction files as [|[x n] files IH]; intros found; [symmetry; apply extend_nil|].
  cbn [scan_prefix]. rewrite IH. unfold prefix_oids, prefix_strays. cbn [List.filter fst snd].
  destruct (object_file_ok (x, n)) eqn:Hok; cbn [orb negb].
  - rewrite (file_ok_not_ignored _ Hok). apply file_ok_spec in Hok as [Hx Hn].
    rewrite (hex_name_utf8 _ _ Hx), Hx, Hn, (proj1 (scanned_oid_path k p x Hp Hx)). cbn [negb orb is_ok].
    by rewrite push_oid_extend, extend_extend.
  - destruct (is_ignored_os_metadata (x, n)); cbn [negb]; [done|].
    assert (forall oid, (if negb (utf8_valid x) then push_invalid [OBJECTS_DIRECTORY; f; p; x] found
            else if negb (lower_hex_name 62 x) || negb (is_file n) then push_invalid [OBJECTS_DIRECTORY; f; p; x] found
            else oid) = push_invalid [OBJECTS_DIRECTORY; f; p; x] found) as Hpush.
    { intros oid. unfold object_file_ok in Hok. cbn [fst snd] in Hok.
      destruct (utf8_valid x), (lower_hex_name 62 x), (is_file n); done. }
    by rewrite Hpush, push_invalid_extend, extend_extend.
Qed.

Lemma scan_family_spec prefixes f k : forall found,
  scan_family prefixes f k found = extend (family_oids k prefixes) (family_strays f prefixes) found.
Proof.
  induction prefixes as [|[p n] prefixes IH]; intros found; [symmetry; apply extend_nil|].
  cbn [scan_family]. rewrite IH. unfold family_oids, family_strays. cbn [flat_map fst snd].
  destruct n as [b|files|]; cbn [is_dir].
  - destruct (is_ignored_os_metadata (p, FileNode b)); [done|].
    destruct (utf8_valid p), (lower_hex_name 2 p); cbn [negb]; by rewrite push_invalid_extend, extend_extend.
  - rewrite dir_not_ignored by done. destruct (digest_dir_ok (p, DirNode files)) eqn:Hok.
    + apply dir_ok_spec in Hok as [Hp _]. rewrite (hex_name_utf8 _ _ Hp), Hp. cbn [negb].
      by rewrite scan_prefix_spec, extend_extend by done.
    + assert (utf8_valid p = false \/ lower_hex_name 2 p = false) as [->| ->].
      { unfold digest_dir_ok in Hok. cbn [fst snd is_dir] in Hok. destruct (utf8_valid p), (lower_hex_name 2 p); auto. }
      * cbn [negb]. by rewrite push_invalid_extend, extend_extend.
      * destruct (utf8_valid p); cbn [negb]; by rewrite push_invalid_extend, extend_extend.
  - replace (is_ignored_os_metadata (p, OtherNode)) with false by (symmetry; apply andb_false_r).
    destruct (utf8_valid p), (lower_hex_name 2 p); cbn [negb]; by rewrite push_invalid_extend, extend_extend.
Qed.

Lemma scan_families_spec families : forall found,
  scan_families families found = extend (tree_oids families) (tree_strays families) found.
Proof.
  induction families as [|[f n] families IH]; intros found; [symmetry; apply extend_nil|].
  cbn [scan_families]. rewrite IH. unfold tree_oids, tree_strays. cbn [flat_map fst snd].
  destruct (is_ignored_os_metadata (f, n)) eqn:Hi.
  { destruct n as [b| |]; [by destruct (family_kind f)|by rewrite dir_not_ignored in Hi|]. by destruct (family_kind f). }
  destruct (family_kind f) as [k|] eqn:Hk.
  - apply family_kind_prefix in Hk as ->. replace (utf8_valid (prefix k)) with true by (by destruct k). cbn [negb].
    destruct n; [by rewrite push_invalid_extend, extend_extend| |by rewrite push_invalid_extend, extend_extend].
    by rewrite scan_family_spec, extend_extend.
  - destruct (utf8_valid f); cbn [negb]; by rewrite push_invalid_extend, extend_extend.
Qed.

Lemma scan_inventory_spec families :
  scan_inventory (DirNode families) =
    Ok {| inv_oids := sort_dedup (tree_oids families);
          inv_invalid_paths := sort_by path_compare (tree_strays families) |}.
Proof. unfold scan_inventory. cbn [read_dir mbind result_bind]. by rewrite scan_families_spec. Qed.

(** ** Which objects the scan lists *)

(** A regular file at an object path. *)
Definition file_at (objects : Node) (path : ObjectPath) : Prop :=
  exists families prefixes files bytes,
    objects = DirNode families /\ (fst (fst path), DirNode prefixes) ∈ families /\
    (snd (fst path), DirNode files) ∈ prefixes /\ (snd path, FileNode bytes) ∈ files.

Lemma elem_of_flat_map {A B} (f : A -> list B) l y : y ∈ flat_map f l <-> exists x, x ∈ l /\ y ∈ f x.
Proof.
  rewrite list_elem_of_In, in_flat_map. split; intros (x & H1 & H2); exists x; by rewrite ?list_elem_of_In in *.
Qed.

Lemma elem_of_filter_bool {A} (f : A -> bool) l x : x ∈ List.filter f l <-> f x = true /\ x ∈ l.
Proof. rewrite !list_elem_of_In, filter_In. tauto. Qed.

Lemma prefix_oids_elem k p files oid :
  oid ∈ prefix_oids k p files <->
  exists x bytes, oid = scanned_oid k p x /\ lower_hex_name 62 x = true /\ (x, FileNode bytes) ∈ files.
Proof.
  unfold prefix_oids. rewrite list_elem_of_fmap. setoid_rewrite elem_of_filter_bool. split.
  - intros ([x n] & -> & [Hx Hn]%file_ok_spec & He). destruct n as [bytes| |]; [|done..]. by exists x, bytes.
  - intros (x & bytes & -> & Hx & He). exists (x, FileNode bytes). by rewrite file_ok_spec.
Qed.

Lemma family_oids_elem k prefixes oid :
  oid ∈ family_oids k prefixes <->
  exists p files, lower_hex_name 2 p = true /\ (p, DirNode files) ∈ prefixes /\ oid ∈ prefix_oids k p files.
Proof.
  unfold family_oids. rewrite elem_of_flat_map. split.
  - intros ([p n] & He & Ho). cbn [fst snd] in Ho. destruct n as [|files|]; [set_solver| |set_solver].
    destruct (digest_dir_ok (p, DirNode files)) eqn:Hok; [|set_solver]. apply dir_ok_spec in Hok as [? _]. by exists p, files.
  - intros (p & files & Hp & He & Ho). exists (p, DirNode files). split; [done|]. cbn [fst snd].
    by rewrite (proj2 (dir_ok_spec p (DirNode files))).
Qed.

Lemma tree_oids_elem families oid :
  oid ∈ tree_oids families <->
  exists k, parse_oid oid = Ok k /\ file_at (DirNode families) (object_path_for_valid_oid oid k).
Proof.
  unfold tree_oids. rewrite elem_of_flat_map. split.
  - intros ([f n] & He & Ho). cbn [fst snd] in Ho. destruct (family_kind f) as [k|] eqn:Hk; [|set_solver].
    apply family_kind_prefix in Hk as ->. destruct n as [|prefixes|]; [set_solver| |set_solver].
    apply family_oids_elem in Ho as (p & files & Hp & Hpe & (x & bytes & -> & Hx & Hxe)%prefix_oids_elem).
    destruct (scanned_oid_path k p x Hp Hx) as [Hk Hpath]. exists k. split; [done|]. rewrite Hpath.
    by exists families, prefixes, files, bytes.
  - intros (k & Hk & families' & prefixes & files & bytes & [= <-] & Hf & Hp & Hx).
    destruct (oid_path_scanned _ _ Hk) as (p & x & Hhp & Hhx & -> & Hpath). rewrite Hpath in *. cbn [fst snd] in *.
    exists (prefix k, DirNode prefixes). split; [done|]. cbn [fst snd].
    rewrite (proj2 (family_kind_prefix _ k)) by done. apply family_oids_elem. exists p, files. split_and!; [done..|].
    apply prefix_oids_elem. by exists x, bytes.
Qed.

(** ** Limited scans of a tidy directory *)

Definition tidy_prefix (k : ObjectKind) (e : DirEntry) : Prop :=
  exists files, snd e = DirNode files /\ lower_hex_name 2 (fst e) = true /\ Forall (fun f => object_file_ok f = true) files.

Lemma filter_all {A} (f : A -> bool) l : Forall (fun x => f x = true) l -> List.filter f l = l.
Proof. induction 1 as [|x l Hx _ IH]; [done|]. cbn. by rewrite Hx, IH. Qed.

Lemma read_entries_spec entries max ex : forall result i,
  Forall (fun e => is_ignored_os_metadata e = false) entries -> len result <= max ->
  read_entries_at_most entries max ex result i =
    if len result + len entries <=? max then Ok (result ++ entries) else Err ex.
Proof.
  induction entries as [|e entries IH]; intros result i He Hl; cbn [read_entries_at_most].
  - rewrite len_nil, Z.add_0_r, (proj2 (Z.leb_le _ _)) by done. by rewrite app_nil_r.
  - apply Forall_cons in He as [-> He]. destruct (Z.eqb_spec (len result) max) as [->|Hne]; cbn [reject_if mbind result_bind].
    + rewrite (proj2 (Z.leb_gt _ _)) by len_lia. done.
    + rewrite IH by (done || len_lia). rewrite <- app_assoc, len_app, !len_cons, len_nil.
      by replace (len result + (1 + 0) + len entries) with (len result + (1 + len entries)) by lia.
Qed.

Lemma read_directory_spec entries max ex :
  Forall (fun e => is_ignored_os_metadata e = false) entries -> 0 <= max ->
  read_directory_at_most (DirNode entries) max ex = if len entries <=? max then Ok entries else Err ex.
Proof. intros He Hm. unfold read_directory_at_most. cbn [read_dir mbind result_bind]. by rewrite read_entries_spec. Qed.

Lemma by_file_name_perm entries : by_file_name entries ≡ₚ entries.
Proof. apply sort_by_perm. Qed.
Lemma by_file_name_Forall (P : DirEntry -> Prop) entries : Forall P entries -> Forall P (by_file_name entries).
Proof. by rewrite by_file_name_perm. Qed.

Lemma list_digest_files_spec k p files : lower_hex_name 2 p = true -> Forall (fun f => object_file_ok f = true) files ->
  forall oids, list_digest_files k p files oids = Ok (oids ++ map (fun e => scanned_oid k p (fst e)) files).
Proof.
  intros Hp. induction 1 as [|[x n] files Hx Hf IH]; intros oids; cbn [list_digest_files map]; [by rewrite app_nil_r|].
  rewrite Hx. cbn [negb reject_if mbind result_bind]. apply file_ok_spec in Hx as [Hx _]. unfold core. cbn [fst].
  rewrite (proj1 (scanned_oid_path k p x Hp Hx)). cbn [map_err mbind result_bind]. rewrite IH. by rewrite <- app_assoc.
Qed.

Lemma family_oids_cons k e prefixes files :
  snd e = DirNode files -> lower_hex_name 2 (fst e) = true -> Forall (fun f => object_file_ok f = true) files ->
  family_oids k (e :: prefixes) = map (fun f => scanned_oid k (fst e) (fst f)) files ++ family_oids k prefixes.
Proof.
  destruct e as [p n]. cbn [fst snd]. intros -> Hp Hf. unfold family_oids. cbn [flat_map fst snd].
  rewrite (proj2 (dir_ok_spec p _)) by done. unfold prefix_oids. by rewrite filter_all.
Qed.

Lemma map_len {A B} (f : A -> B) l : len (map f l) = len l.
Proof. unfold len. by rewrite length_map. Qed.
Lemma len_perm {A} (l k : list A) : l ≡ₚ k -> len l = len k.
Proof. unfold len. by intros ->. Qed.

Lemma list_prefixes_spec k max prefixes : 0 <= max <= usize_max -> Forall (tidy_prefix k) prefixes ->
  forall examined oids, 0 <= examined <= max ->
  if examined + len (family_oids k prefixes) <=? max
  then exists found, list_prefixes k max prefixes examined oids = Ok (oids ++ found) /\ found ≡ₚ family_oids k prefixes
  else list_prefixes k max prefixes examined oids = Err store_resource_limit.
Proof.
  intros Hm. induction 1 as [|e prefixes (files & He & Hp & Hf) _ IH]; intros examined oids Hex; cbn [list_prefixes].
  { change (len (family_oids k [])) with 0. rewrite (proj2 (Z.leb_le _ _)) by lia. exists []. by rewrite app_nil_r. }
  rewrite (family_oids_cons k e prefixes files) by done. rewrite len_app, map_len.
  assert (digest_dir_ok e = true) as -> by (destruct e as [p n]; cbn [fst snd] in *; subst n; by apply dir_ok_spec).
  cbn [negb reject_if mbind result_bind]. rewrite (proj2 (Z.ltb_ge _ _)) by lia. cbn [reject_if mbind result_bind].
  rewrite He, read_directory_spec; [|eapply Forall_impl; [done|]; intros; by apply file_ok_not_ignored|lia].
  pose proof (len_nonneg (family_oids k prefixes)). pose proof (len_nonneg files).
  destruct (Z.leb_spec (len files) (max - examined)); cbn [mbind result_bind].
  2: { by rewrite (proj2 (Z.leb_gt _ _)) by lia. }
  unfold usize_checked_add. rewrite (proj2 (Z.leb_le (examined + len files) usize_max)) by lia. cbn [ok_or mbind result_bind].
  rewrite list_digest_files_spec by (done || by apply by_file_name_Forall). cbn [mbind result_bind].
  specialize (IH (examined + len files) (oids ++ map (fun f => scanned_oid k (fst e) (fst f)) (by_file_name files)) ltac:(lia)).
  replace (examined + (len files + len (family_oids k prefixes))) with (examined + len files + len (family_oids k prefixes)) by lia.
  destruct (_ <=? max); [|done]. destruct IH as (found & -> & Hfound).
  eexists. split; [by rewrite <- app_assoc|]. rewrite Hfound. by rewrite (by_file_name_perm files).
Qed.

(** There are 256 digest prefixes. *)
Definition hex_digits : list byte := DIGITS.
Definition digest_prefixes : list str := flat_map (fun a => map (fun b => [a; b]) hex_digits) hex_digits.

Lemma digest_prefix_elem p : lower_hex_name 2 p = true -> p ∈ digest_prefixes.
Proof.
  intros [Hl H]%lower_hex_name_spec. destruct p as [|a [|b [|]]]; try (unfold len in Hl; cbn in Hl; lia).
  cbn [forallb] in H. rewrite andb_true_r in H. apply andb_true_iff in H as [Ha Hb].
  assert (forall c, is_lower_hex c = true -> c ∈ hex_digits) as Hd.
  { intros c Hc%is_lower_hex_spec. change hex_digits with [48; 49; 50; 51; 52; 53; 54; 55; 56; 57; 97; 98; 99; 100; 101; 102].
    rewrite !elem_of_cons. lia. }
  apply elem_of_flat_map. exists a. split; [by apply Hd|]. apply list_elem_of_fmap. exists b. split; [done|by apply Hd].
Qed.

Lemma digest_prefixes_bound names :
  NoDup names -> Forall (fun p => lower_hex_name 2 p = true) names -> len names <= 256.
Proof.
  intros Hn Hf. unfold len. replace 256 with (Z.of_nat (length digest_prefixes)) by reflexivity.
  apply inj_le. apply submseteq_length, NoDup_submseteq; [done|]. intros p Hp. apply digest_prefix_elem.
  by rewrite Forall_forall in Hf; apply Hf.
Qed.

Lemma scan_kind_spec families k prefixes max :
  directory_entry (prefix k) families = Some (DirNode prefixes) -> Forall (tidy_prefix k) prefixes ->
  NoDup (map fst prefixes) -> 0 <= max <= usize_max ->
  scan_kind_inventory_at_most (DirNode families) k max =
    if len (family_oids k prefixes) <=? max then Ok (sort_dedup (family_oids k prefixes)) else Err store_resource_limit.
Proof.
  intros Hd Ht Hn Hm. unfold scan_kind_inventory_at_most. cbn [read_dir mbind result_bind]. rewrite Hd.
  cbn [ok_or mbind result_bind is_dir negb reject_if]. rewrite read_directory_spec; [|
    eapply Forall_impl; [done|]; intros [p n] (files & Hf & _); cbn [snd] in Hf; by subst; apply dir_not_ignored|lia].
  rewrite (proj2 (Z.leb_le _ _)).
  2: { rewrite <- (map_len fst). apply digest_prefixes_bound; [done|]. apply Forall_map. eapply Forall_impl; [done|].
       by intros e (? & _ & ? & _). }
  cbn [mbind result_bind].
  pose proof (list_prefixes_spec k max (by_file_name prefixes) Hm (by_file_name_Forall _ _ Ht) 0 [] ltac:(lia)) as H.
  assert (family_oids k (by_file_name prefixes) ≡ₚ family_oids k prefixes) as Hperm.
  { unfold family_oids. by rewrite by_file_name_perm. }
  rewrite Z.add_0_l, (len_perm _ _ Hperm) in H. destruct (_ <=? max).
  - destruct H as (found & -> & Hfound). cbn [mbind result_bind app]. f_equal. apply sort_dedup_ext. intros s.
    by rewrite Hfound, Hperm.
  - by rewrite H.
Qed.

(** ** Properties of the inventory of the file-system object store *)

(** ** Grouping rows by a key *)

Lemma filter_key_cons {A K} `{EqDecision K} (key : A -> K) p ps rows :
  p ∉ ps -> filter (fun r => key r ∈ p :: ps) rows ≡ₚ filter (fun r => key r = p) rows ++ filter (fun r => key r ∈ ps) rows.
Proof.
  intros Hp. induction rows as [|r rows IH]; [done|]. rewrite !filter_cons.
  destruct (decide (key r = p)) as [E|E].
  - rewrite (decide_True (P := key r ∈ p :: ps)), (decide_False (P := key r ∈ ps)) by set_solver. by rewrite IH.
  - destruct (decide (key r ∈ ps)); [rewrite (decide_True (P := key r ∈ p :: ps)) by set_solver|
      rewrite (decide_False (P := key r ∈ p :: ps)) by set_solver; done].
    by rewrite IH, Permutation_middle.
Qed.

Lemma group_perm {A K} `{EqDecision K} (key : A -> K) ps rows :
  NoDup ps -> (forall r, r ∈ rows -> key r ∈ ps) -> flat_map (fun p => filter (fun r => key r = p) rows) ps ≡ₚ rows.
Proof.
  intros Hn Hin. transitivity (filter (fun r => key r ∈ ps) rows).
  - clear Hin. induction Hn as [|p ps Hp _ IH]; cbn [flat_map].
    + induction rows as [|r rows IH]; [done|]. rewrite filter_cons. case_decide; [set_solver|done].
    + rewrite filter_key_cons by done. by rewrite IH.
  - induction rows as [|r rows IH]; [done|]. rewrite filter_cons, decide_True by (apply Hin; set_solver).
    rewrite IH; [done|]. intros r' ?. apply Hin. set_solver.
Qed.

Lemma map_flat_map {A B C} (f : A -> list B) (g : B -> C) l : map g (flat_map f l) = flat_map (fun x => map g (f x)) l.
Proof. induction l as [|x l IH]; [done|]. cbn. by rewrite map_app, IH. Qed.

Lemma flat_map_perm {A B} (f g : A -> list B) l : (forall x, x ∈ l -> f x ≡ₚ g x) -> flat_map f l ≡ₚ flat_map g l.
Proof.
  induction l as [|x l IH]; intros H; [done|]. cbn. rewrite (H x), IH; [done|intros; apply H; set_solver|set_solver].
Qed.

Lemma flat_map_map' {A B C} (f : B -> list C) (g : A -> B) l : flat_map f (map g l) = flat_map (fun x => f (g x)) l.
Proof. induction l as [|x l IH]; [done|]. cbn. by rewrite IH. Qed.

(** ** Stores whose files stand at object paths *)

(** Every file is a regular file at the path of an identifier. *)
Definition store_layout (s : FileObjectStore) : Prop :=
  map_Forall (fun path e => (exists oid k, parse_oid oid = Ok k /\ path = object_path_for_valid_oid oid k) /\
                            exists bytes, e = RegularFile bytes) (objects s).

(** The identifiers of all files, in their order. *)
Definition stored_oids (s : FileObjectStore) : list str := sort_by lex_compare (map row_oid (map_to_list (objects s))).

Definition clean_row (row : ObjectRow) : Prop :=
  exists k bytes, row_family row = prefix k /\ lower_hex_name 2 (row_prefix row) = true /\
    lower_hex_name 62 (snd (fst row)) = true /\ snd row = RegularFile bytes.

Lemma store_layout_rows s : store_layout s -> Forall clean_row (map_to_list (objects s)).
Proof.
  intros H. apply Forall_forall. intros [path e] Hr. apply elem_of_map_to_list in Hr.
  destruct (H _ _ Hr) as [(oid & k & Hk & ->) [bytes ->]].
  destruct (oid_path_scanned _ _ Hk) as (p & x & Hp & Hx & -> & ->). by exists k, bytes.
Qed.

Lemma clean_row_oid row : clean_row row ->
  exists k bytes, parse_oid (row_oid row) = Ok k /\ row = (object_path_for_valid_oid (row_oid row) k, RegularFile bytes) /\
    row_family row = prefix k.
Proof.
  destruct row as [[[f p] x] e]. intros (k & bytes & Hf & Hp & Hx & He). unfold row_oid, row_family, row_prefix in *. cbn [fst snd] in *.
  subst. destruct (scanned_oid_path k p x Hp Hx) as [Hk Hpath]. exists k, bytes.
  change (prefix k ++ lit ":sg-oid-v1:sha256:" ++ p ++ x) with (scanned_oid k p x). by rewrite Hpath.
Qed.

Lemma row_oids_NoDup s : store_layout s -> NoDup (map row_oid (map_to_list (objects s))).
Proof.
  intros Hl%store_layout_rows. rewrite Forall_forall in Hl. apply NoDup_fmap_2_strong; [|apply NoDup_map_to_list].
  intros r1 r2 H1 H2 He. destruct (clean_row_oid _ (Hl _ H1)) as (k1 & b1 & Hk1 & Hr1 & _).
  destruct (clean_row_oid _ (Hl _ H2)) as (k2 & b2 & Hk2 & Hr2 & _). rewrite He in Hk1, Hr1. rewrite Hk1 in Hk2. injection Hk2 as <-.
  rewrite Hr1, Hr2 in *. apply elem_of_map_to_list in H1, H2. congruence.
Qed.

Lemma stored_oids_elem s oid : store_layout s ->
  oid ∈ stored_oids s <-> exists k, parse_oid oid = Ok k /\ is_Some (objects s !! object_path_for_valid_oid oid k).
Proof.
  intros Hl. unfold stored_oids. rewrite sort_by_perm, list_elem_of_fmap. split.
  - intros (row & -> & Hr). pose proof (store_layout_rows _ Hl) as Hc. rewrite Forall_forall in Hc.
    destruct (clean_row_oid _ (Hc _ Hr)) as (k & b & Hk & Hrow & _). exists k. split; [done|].
    rewrite Hrow in Hr. apply elem_of_map_to_list in Hr. by eexists.
  - intros (k & Hk & [e He]). exists (object_path_for_valid_oid oid k, e). split; [|by apply elem_of_map_to_list].
    destruct (oid_path_scanned _ _ Hk) as (p & x & _ & _ & -> & ->). done.
Qed.

Lemma stored_oids_sorted s : store_layout s -> Sorted lex_lt (stored_oids s).
Proof. intros H. by apply sort_strs_sorted, row_oids_NoDup. Qed.

(** ** The directory of such a store *)

Definition rows_of_kind (s : FileObjectStore) (k : ObjectKind) : list ObjectRow :=
  filter (fun row => row_family row = prefix k) (map_to_list (objects s)).
Definition prefixes_of_kind (s : FileObjectStore) (k : ObjectKind) : list DirEntry :=
  map (prefix_directory (rows_of_kind s k)) (remove_dups (map row_prefix (rows_of_kind s k))).

Lemma rows_of_kind_clean s k : store_layout s -> Forall clean_row (rows_of_kind s k).
Proof.
  intros Hl%store_layout_rows. rewrite Forall_forall in *. intros row [_ Hr]%list_elem_of_filter. by apply Hl.
Qed.

Lemma family_directory_kind s k :
  family_directory (map_to_list (objects s)) (prefix k) = (prefix k, DirNode (prefixes_of_kind s k)).
Proof. reflexivity. Qed.

Lemma prefix_rows_ok rows p : Forall clean_row rows ->
  Forall (fun e => object_file_ok e = true) (map row_entry (filter (fun row => row_prefix row = p) rows)).
Proof.
  intros Hc. rewrite Forall_forall in Hc. apply Forall_map, Forall_forall. intros row [_ Hr]%list_elem_of_filter.
  destruct (Hc _ Hr) as (k & b & _ & _ & Hx & He). unfold row_entry. rewrite He. by apply file_ok_spec.
Qed.

Lemma prefixes_tidy s k : store_layout s -> Forall (tidy_prefix k) (prefixes_of_kind s k).
Proof.
  intros Hl. pose proof (rows_of_kind_clean s k Hl) as Hc. unfold prefixes_of_kind. apply Forall_map, Forall_forall.
  intros p Hp. rewrite elem_of_remove_dups in Hp. apply list_elem_of_fmap in Hp as (row & -> & Hr).
  eexists. split; [reflexivity|]. cbn [fst prefix_directory]. split; [|by apply prefix_rows_ok].
  rewrite Forall_forall in Hc. by destruct (Hc _ Hr) as (? & ? & _ & ? & _).
Qed.

Lemma prefixes_names s k : NoDup (map fst (prefixes_of_kind s k)).
Proof.
  unfold prefixes_of_kind. rewrite map_map. unfold prefix_directory. cbn [fst]. rewrite map_id. apply NoDup_remove_dups.
Qed.

Lemma row_oids_of_kind s k : store_layout s -> family_oids k (prefixes_of_kind s k) ≡ₚ map row_oid (rows_of_kind s k).
Proof.
  intros Hl. pose proof (rows_of_kind_clean s k Hl) as Hc. unfold prefixes_of_kind, family_oids. rewrite flat_map_map'.
  transitivity (map row_oid (flat_map (fun p => filter (fun row => row_prefix row = p) (rows_of_kind s k))
                               (remove_dups (map row_prefix (rows_of_kind s k))))).
  2: { apply Permutation_map, group_perm; [apply NoDup_remove_dups|]. intros r Hr. apply elem_of_remove_dups, list_elem_of_fmap. by exists r. }
  rewrite map_flat_map. apply flat_map_perm. intros p Hp. rewrite elem_of_remove_dups in Hp.
  apply list_elem_of_fmap in Hp as (row & Hrow & Hr). unfold prefix_directory. cbn [fst snd].
  rewrite (proj2 (dir_ok_spec p _)); [|split; [|done]].
  2: { rewrite Forall_forall in Hc. destruct (Hc _ Hr) as (? & ? & _ & ? & _). by subst. }
  unfold prefix_oids. rewrite filter_all by (by apply prefix_rows_ok). rewrite map_map.
  assert (forall row, row ∈ filter (fun row => row_prefix row = p) (rows_of_kind s k) ->
            scanned_oid k p (fst (row_entry row)) = row_oid row) as Heq.
  { intros row' [Hp' Hr']%list_elem_of_filter. apply list_elem_of_filter in Hr' as [Hf _]. unfold row_oid, scanned_oid. by rewrite Hf, Hp'. }
  match goal with |- ?l ≡ₚ ?r => replace r with l; [done|] end. apply map_ext_in. intros a Ha%list_elem_of_In. by apply Heq.
Qed.

Definition all_kinds : list ObjectKind := [Blob; Record; Tree; Commit].

Lemma all_rows s : store_layout s -> flat_map (rows_of_kind s) all_kinds ≡ₚ map_to_list (objects s).
Proof.
  intros Hl%store_layout_rows. rewrite Forall_forall in Hl.
  change (flat_map (rows_of_kind s) all_kinds) with
    (flat_map (fun f => filter (fun row => row_family row = f) (map_to_list (objects s))) (map prefix all_kinds)).
  apply group_perm; [by apply (bool_decide_unpack _); vm_compute|]. intros row Hr.
  destruct (Hl _ Hr) as (k & b & -> & _). apply list_elem_of_fmap. exists k. split; [done|]. destruct k; set_solver.
Qed.

Lemma all_oids s : store_layout s ->
  flat_map (fun k => map row_oid (rows_of_kind s k)) all_kinds ≡ₚ map row_oid (map_to_list (objects s)).
Proof. intros Hl. rewrite <- map_flat_map. by apply Permutation_map, all_rows. Qed.

(** The families are exactly the four. *)
Lemma family_names s : store_layout s ->
  remove_dups (STORE_FAMILIES ++ map row_family (map_to_list (objects s))) ≡ₚ STORE_FAMILIES.
Proof.
  intros Hl%store_layout_rows. rewrite Forall_forall in Hl. apply NoDup_Permutation.
  - apply NoDup_remove_dups.
  - by apply (bool_decide_unpack _); vm_compute.
  - intros f. rewrite elem_of_remove_dups, elem_of_app. split; [|by left]. intros [?|Hf]; [done|].
    apply list_elem_of_fmap in Hf as (row & -> & Hr). destruct (Hl _ Hr) as (k & b & -> & _).
    by destruct k; apply (bool_decide_unpack _); vm_compute.
Qed.

Definition families_of (s : FileObjectStore) : list DirEntry :=
  map (family_directory (map_to_list (objects s)))
    (remove_dups (STORE_FAMILIES ++ map row_family (map_to_list (objects s)))).

Lemma families_perm s : store_layout s ->
  families_of s ≡ₚ map (fun k => (prefix k, DirNode (prefixes_of_kind s k))) all_kinds.
Proof. intros Hl. unfold families_of. by rewrite (family_names s Hl). Qed.

Lemma families_entry s k : store_layout s ->
  directory_entry (prefix k) (families_of s) = Some (DirNode (prefixes_of_kind s k)).
Proof.
  intros Hl. unfold directory_entry. destruct (find _ (families_of s)) as [e|] eqn:Hf.
  - apply find_some in Hf as [Hin He]. apply str_eqb_eq in He. apply list_elem_of_In in Hin.
    rewrite families_perm in Hin by done. apply list_elem_of_fmap in Hin as (k' & -> & _). cbn [fst] in He.
    by apply prefix_inj in He as ->.
  - exfalso. assert ((prefix k, DirNode (prefixes_of_kind s k)) ∈ families_of s) as Hin.
    { rewrite families_perm by done. apply list_elem_of_fmap. exists k. split; [done|]. destruct k; set_solver. }
    apply list_elem_of_In in Hin. pose proof (find_none _ _ Hf _ Hin) as Hn. cbn [fst] in Hn. by rewrite str_eqb_refl in Hn.
Qed.

Lemma tree_oids_stored s : store_layout s -> tree_oids (families_of s) ≡ₚ map row_oid (map_to_list (objects s)).
Proof.
  intros Hl. rewrite <- all_oids by done. unfold tree_oids. rewrite (families_perm s Hl), flat_map_map'. cbn [fst snd].
  apply flat_map_perm. intros k _. rewrite (proj2 (family_kind_prefix _ k)) by done. by apply row_oids_of_kind.
Qed.

Lemma prefix_strays_nil f p files : Forall (fun e => object_file_ok e = true) files -> prefix_strays f p files = [].
Proof.
  intros H. unfold prefix_strays. induction H as [|e files He _ IH]; [done|]. cbn [List.filter]. by rewrite He.
Qed.

Lemma tree_strays_none s : store_layout s -> tree_strays (families_of s) = [].
Proof.
  intros Hl. apply Permutation_nil_r. unfold tree_strays. rewrite (families_perm s Hl), flat_map_map'. cbn [fst snd].
  match goal with |- ?l ≡ₚ ?r => replace r with l; [done|] end. assert (forall k, family_strays (prefix k) (prefixes_of_kind s k) = []) as Hf.
  { intros k. pose proof (prefixes_tidy s k Hl) as Ht. unfold family_strays.
    induction Ht as [|[p n] prefixes (files & Hn & Hp & Hfiles) _ IH]; [done|]. cbn [flat_map fst snd] in *. subst n.
    rewrite dir_not_ignored by done. rewrite (proj2 (dir_ok_spec p _)) by done. by rewrite prefix_strays_nil, IH. }
  cbn [flat_map all_kinds]. rewrite !dir_not_ignored by done. rewrite !Hf. done.
Qed.

Lemma inventory_stored s : store_layout s -> inventory s = Ok {| inv_oids := stored_oids s; inv_invalid_paths := [] |}.
Proof.
  intros Hl. unfold inventory, objects_directory. rewrite scan_inventory_spec. fold (families_of s).
  rewrite tree_strays_none by done. do 2 f_equal. apply sorted_strs_ext; [apply sort_dedup_sorted|by apply stored_oids_sorted|].
  intros oid. unfold stored_oids. rewrite elem_of_sort_dedup, sort_by_perm. by rewrite tree_oids_stored.
Qed.

(** ** Limited scans of the store *)

Definition kind_oids (s : FileObjectStore) (k : ObjectKind) : list str := sort_dedup (map row_oid (rows_of_kind s k)).

Lemma kind_rows_NoDup s k : store_layout s -> NoDup (map row_oid (rows_of_kind s k)).
Proof.
  intros Hl. pose proof (row_oids_NoDup s Hl) as H. rewrite <- all_oids in H by done.
  destruct k; cbn [flat_map all_kinds] in H; rewrite !NoDup_app in H; tauto.
Qed.

Lemma kind_oids_len s k : store_layout s -> len (kind_oids s k) = len (map row_oid (rows_of_kind s k)).
Proof. intros Hl. by apply len_sort_dedup, kind_rows_NoDup. Qed.

Lemma scan_kind_stored s k max : store_layout s -> 0 <= max <= usize_max ->
  scan_kind_inventory_at_most (objects_directory s) k max =
    if len (kind_oids s k) <=? max then Ok (kind_oids s k) else Err store_resource_limit.
Proof.
  intros Hl Hm. unfold objects_directory. fold (families_of s).
  rewrite (scan_kind_spec _ _ (prefixes_of_kind s k)) by (auto using families_entry, prefixes_tidy, prefixes_names).
  rewrite kind_oids_len by done. rewrite (len_perm _ _ (row_oids_of_kind s k Hl)). destruct (_ <=? max); [|done].
  f_equal. apply sort_dedup_ext. intros oid. by rewrite row_oids_of_kind.
Qed.

Lemma list_kinds_stored s max : store_layout s -> 0 <= max <= usize_max -> forall kinds oids, len oids <= max ->
  list_kinds (objects_directory s) max kinds oids =
    if len oids + len (flat_map (kind_oids s) kinds) <=? max then Ok (oids ++ flat_map (kind_oids s) kinds)
    else Err store_resource_limit.
Proof.
  intros Hl Hm. induction kinds as [|k kinds IH]; intros oids Ho; cbn [list_kinds flat_map].
  { rewrite len_nil, (proj2 (Z.leb_le _ _)) by lia. by rewrite app_nil_r. }
  pose proof (len_nonneg (kind_oids s k)). pose proof (len_nonneg (flat_map (kind_oids s) kinds)). pose proof (len_nonneg oids).
  rewrite (proj2 (Z.ltb_ge _ _)) by lia. cbn [reject_if mbind result_bind]. rewrite scan_kind_stored by (done || lia).
  rewrite len_app. destruct (Z.leb_spec (len (kind_oids s k)) (max - len oids)); cbn [map_err mbind result_bind].
  - rewrite IH by (rewrite len_app; lia). rewrite len_app, <- app_assoc.
    by replace (len oids + len (kind_oids s k) + len (flat_map (kind_oids s) kinds)) with
       (len oids + (len (kind_oids s k) + len (flat_map (kind_oids s) kinds))) by lia.
  - rewrite (proj2 (Z.leb_gt _ _)) by lia. done.
Qed.

Lemma kind_oids_all s : store_layout s -> flat_map (kind_oids s) all_kinds ≡ₚ map row_oid (map_to_list (objects s)).
Proof.
  intros Hl. rewrite <- all_oids by done. apply flat_map_perm. intros k _. apply NoDup_Permutation.
  - apply sorted_strs_NoDup, sort_dedup_sorted.
  - by apply kind_rows_NoDup.
  - intros oid. apply elem_of_sort_dedup.
Qed.

Lemma sort_strs_perm l k : NoDup l -> l ≡ₚ k -> sort_by lex_compare l = sort_by lex_compare k.
Proof.
  intros Hn Hp. apply sorted_strs_ext; [by apply sort_strs_sorted|apply sort_strs_sorted; by rewrite <- Hp|].
  intros x. by rewrite !sort_by_perm, Hp.
Qed.

Lemma families_listed s : store_layout s ->
  read_directory_at_most (objects_directory s) 4 InvalidStoreLayout = Ok (families_of s).
Proof.
  intros Hl. unfold objects_directory. fold (families_of s). rewrite read_directory_spec by
    (try lia; rewrite families_perm by done; repeat constructor; by apply dir_not_ignored).
  rewrite (proj2 (Z.leb_le _ _)); [done|]. by rewrite (len_perm _ _ (families_perm s Hl)).
Qed.

Lemma list_oids_limited_stored s max : store_layout s -> 0 < max <= usize_max ->
  list_oids_limited s max = if len (stored_oids s) <=? max then Ok (stored_oids s) else Err store_resource_limit.
Proof.
  intros Hl Hm. unfold list_oids_limited, scan_inventory_limited. destruct (Z.eqb_spec max 0); [lia|].
  cbn [reject_if mbind result_bind]. rewrite families_listed by done. cbn [mbind result_bind].
  assert (map fst (families_of s) ≡ₚ map prefix all_kinds) as Hnames by (by rewrite families_perm).
  replace (forallb utf8_valid (map fst (families_of s))) with true.
  2: { symmetry. apply forallb_forall. intros f Hf%list_elem_of_In. rewrite Hnames in Hf.
       apply list_elem_of_fmap in Hf as (k & -> & _). by destruct k. }
  cbn [negb reject_if mbind result_bind]. rewrite bool_decide_eq_true_2.
  2: { rewrite (sort_strs_perm (map fst (families_of s)) (map prefix all_kinds)); [done| |done].
       rewrite Hnames. by apply (bool_decide_unpack _); vm_compute. }
  cbn [negb reject_if mbind result_bind]. fold all_kinds. rewrite list_kinds_stored by (done || lia || (change (len []) with 0; lia)). cbn [app].
  change (len []) with 0. rewrite Z.add_0_l.
  assert (len (flat_map (kind_oids s) all_kinds) = len (stored_oids s)) as ->.
  { unfold stored_oids. rewrite (len_perm _ _ (kind_oids_all s Hl)). by rewrite (len_perm _ _ (sort_by_perm lex_compare _)). }
  destruct (_ <=? max); cbn [mbind result_bind]; [|done]. f_equal. apply sort_strs_perm.
  - rewrite kind_oids_all by done. by apply row_oids_NoDup.
  - by apply kind_oids_all.
Qed.

Lemma sorted_strs_filter (P : str -> Prop) `{forall s, Decision (P s)} l : Sorted lex_lt l -> Sorted lex_lt (filter P l).
Proof.
  intros Hs. apply StronglySorted_Sorted. apply sorted_strong in Hs; [|intros; by eapply lex_compare_lt_trans].
  induction Hs as [|x l _ IH Hx]; [constructor|]. rewrite filter_cons. case_decide; [|done]. constructor; [done|].
  rewrite Forall_forall in *. intros y [_ Hy]%list_elem_of_filter. by apply Hx.
Qed.

Lemma kind_oids_filter s k : store_layout s -> kind_oids s k = filter (fun oid => parse_oid oid = Ok k) (stored_oids s).
Proof.
  intros Hl. apply sorted_strs_ext; [apply sort_dedup_sorted|by apply sorted_strs_filter, stored_oids_sorted|].
  intros oid. unfold kind_oids. rewrite elem_of_sort_dedup, list_elem_of_filter. unfold stored_oids. rewrite sort_by_perm, !list_elem_of_fmap.
  pose proof (store_layout_rows _ Hl) as Hc. rewrite Forall_forall in Hc. split.
  - intros (row & -> & [Hf Hr]%list_elem_of_filter). split; [|by exists row].
    destruct (clean_row_oid _ (Hc _ Hr)) as (k' & b & Hk' & _ & Hf'). rewrite Hf in Hf'. by apply prefix_inj in Hf' as <-.
  - intros [Hk (row & -> & Hr)]. exists row. split; [done|]. apply list_elem_of_filter. split; [|done].
    destruct (clean_row_oid _ (Hc _ Hr)) as (k' & b & Hk' & _ & Hf'). congruence.
Qed.

(** ** The layout is kept *)

Lemma store_layout_insert s oid k bytes :
  store_layout s -> parse_oid oid = Ok k ->
  store_layout (set_objects (<[object_path_for_valid_oid oid k := RegularFile bytes]> (objects s)) s).
Proof.
  intros Hl Hk. apply map_Forall_insert_2; [|done]. split; [by exists oid, k|by exists bytes].
Qed.

Lemma publish_staged_layout s staged oid k n s' r :
  store_layout s -> parse_oid oid = Ok k -> publish_staged s staged oid k n = Ok (s', r) -> store_layout s'.
Proof.
  intros Hl Hk (_ & _ & _ & _ & _ & [->|[_ ->]])%publish_staged_Ok; [done|]. by apply store_layout_insert.
Qed.

Lemma quarantine_layout s oid k s' t : store_layout s -> quarantine_object s oid k = Ok (s', t) -> store_layout s'.
Proof. intros Hl H. unfold quarantine_object in H. result_inv. unfold store_layout. cbn [objects]. by apply map_Forall_delete. Qed.

Section Kept.
Variable sha256 : list byte -> list byte.
Variable nfc : list char -> list char.
Hypothesis Hsha : sha256_digest sha256.

Lemma put_blob_inner_layout s c reads s' r : store_layout s -> put_blob_inner sha256 s c reads = Ok (s', r) -> store_layout s'.
Proof.
  intros Hl ([[staged oid] n] & Hst & H)%bind_Ok. eapply publish_staged_layout; [done| |done].
  unfold stage_blob in Hst. result_inv. repeat case_match; simplify_eq; by apply blob_oid_parse.
Qed.

Lemma put_structured_inner_layout s c i req s' r :
  store_layout s -> put_structured_inner sha256 nfc s c i req = Ok (s', r) -> store_layout s'.
Proof.
  unfold put_structured_inner. intros Hl ([[staged oid] n] & _ & (k & Hk & H)%bind_Ok)%bind_Ok. unfold core in Hk. result_inv.
  by eapply publish_staged_layout.
Qed.

Lemma store_step_layout s s' : store_step sha256 nfc s s' -> store_layout s -> store_layout s'.
Proof.
  intros [reads r H|c reads r H|i r H|c i r H|c i r H|c i r H|c r H] Hl.
  - unfold put_blob in H. result_inv. by eapply put_blob_inner_layout.
  - unfold put_blob_claimed in H. result_inv. by eapply put_blob_inner_layout.
  - unfold put_structured_unchecked in H. result_inv. by eapply put_structured_inner_layout.
  - unfold put_structured_claimed_unchecked in H. result_inv. by eapply put_structured_inner_layout.
  - unfold put_verified_raw, put_blob_claimed in H. apply bind_Ok in H as (? & _ & (k & _ & H)%bind_Ok).
    case_bool_decide; [result_inv; by eapply put_blob_inner_layout|by eapply put_structured_inner_layout].
  - unfold repair_object in H. apply bind_Ok in H as (_ & _ & (k & Hk & H)%bind_Ok). unfold core in Hk. result_inv.
    match goal with H : (if bool_decide (k = Blob) then _ else _) = Ok (_, ?oid, _) |- _ =>
      assert (oid = c) as -> by (unfold stage_blob, stage_structured in H; case_bool_decide; result_inv;
        repeat case_match; simplify_eq; bool_props; by rewrite str_eqb_eq in *) end.
    match goal with H : object_state _ _ _ _ = Ok ?st |- _ => destruct st end; result_inv; [done|by eapply publish_staged_layout|].
    eapply publish_staged_layout; [by eapply quarantine_layout|done..].
  - unfold quarantine_if_corrupt in H. apply bind_Ok in H as (_ & _ & (k & Hk & H)%bind_Ok). unfold core in Hk. result_inv.
    match goal with H : object_state _ _ _ _ = Ok ?st |- _ => destruct st end; result_inv; try done. by eapply quarantine_layout.
Qed.

Lemma store_steps_layout s0 s : rtc (store_step sha256 nfc) s0 s -> store_layout s0 -> store_layout s.
Proof. induction 1 as [|s0 s1 s Hstep _ IH]; [done|]. intros Hl. by eapply IH, store_step_layout. Qed.

Lemma new_store_layout s : objects s = ∅ -> store_layout s.
Proof. unfold store_layout. intros ->. apply map_Forall_empty. Qed.
End Kept.

(** ** Properties *)

(** An entry of the objects directory that is neither an object, nor a directory of objects,
    nor a file that a desktop system leaves behind. *)
Inductive stray (families : list DirEntry) : InvalidStorePath -> Prop :=
| stray_family f n :
    (f, n) ∈ families -> is_ignored_os_metadata (f, n) = false ->
    (forall k, f = prefix k -> is_dir n = false) -> stray families [OBJECTS_DIRECTORY; f]
| stray_prefix k prefixes p n :
    (prefix k, DirNode prefixes) ∈ families -> (p, n) ∈ prefixes -> is_ignored_os_metadata (p, n) = false ->
    ~ (lower_hex_name 2 p = true /\ is_dir n = true) -> stray families [OBJECTS_DIRECTORY; prefix k; p]
| stray_object k prefixes p files x n :
    (prefix k, DirNode prefixes) ∈ families -> (p, DirNode files) ∈ prefixes -> lower_hex_name 2 p = true ->
    (x, n) ∈ files -> is_ignored_os_metadata (x, n) = false ->
    ~ (lower_hex_name 62 x = true /\ is_file n = true) -> stray families [OBJECTS_DIRECTORY; prefix k; p; x].

Lemma prefix_strays_elem f p files path :
  path ∈ prefix_strays f p files <->
  exists x n, path = [OBJECTS_DIRECTORY; f; p; x] /\ (x, n) ∈ files /\ is_ignored_os_metadata (x, n) = false /\
    ~ (lower_hex_name 62 x = true /\ is_file n = true).
Proof.
  unfold prefix_strays. rewrite list_elem_of_fmap. setoid_rewrite elem_of_filter_bool. setoid_rewrite negb_true_iff.
  setoid_rewrite orb_false_iff. split.
  - intros ([x n] & -> & [Hok Hi] & He). exists x, n. rewrite <- file_ok_spec, Hok. done.
  - intros (x & n & -> & He & Hi & Hok). exists (x, n). rewrite <- file_ok_spec in Hok. by apply not_true_is_false in Hok.
Qed.

Lemma family_strays_elem f prefixes path :
  path ∈ family_strays f prefixes <->
  exists p n, (p, n) ∈ prefixes /\ is_ignored_os_metadata (p, n) = false /\
    ((~ (lower_hex_name 2 p = true /\ is_dir n = true) /\ path = [OBJECTS_DIRECTORY; f; p]) \/
     (lower_hex_name 2 p = true /\ exists files, n = DirNode files /\ path ∈ prefix_strays f p files)).
Proof.
  unfold family_strays. rewrite elem_of_flat_map. split.
  - intros ([p n] & He & Hp). exists p, n. destruct (is_ignored_os_metadata (p, n)); [set_solver|]. split_and!; [done..|].
    cbn [fst snd] in Hp. destruct n as [b|files|].
    + left. apply list_elem_of_singleton in Hp as ->. naive_solver.
    + destruct (digest_dir_ok (p, DirNode files)) eqn:Hok.
      * right. apply dir_ok_spec in Hok as [? _]. eauto.
      * left. apply list_elem_of_singleton in Hp as ->. rewrite <- dir_ok_spec, Hok. done.
    + left. apply list_elem_of_singleton in Hp as ->. naive_solver.
  - intros (p & n & He & Hi & Hcase). exists (p, n). split; [done|]. rewrite Hi. cbn [fst snd].
    destruct Hcase as [[Hok ->]|(Hp & files & -> & Hpath)].
    + rewrite <- dir_ok_spec in Hok. apply not_true_is_false in Hok. rewrite Hok. destruct n; set_solver.
    + by rewrite (proj2 (dir_ok_spec p (DirNode files))).
Qed.

Lemma tree_strays_elem families path : path ∈ tree_strays families <-> stray families path.
Proof.
  unfold tree_strays. rewrite elem_of_flat_map. split.
  - intros ([f n] & He & Hp). destruct (is_ignored_os_metadata (f, n)) eqn:Hi; [set_solver|]. cbn [fst snd] in Hp.
    destruct (family_kind f) as [k|] eqn:Hk.
    + apply family_kind_prefix in Hk as ->. destruct n as [b|prefixes|].
      * apply list_elem_of_singleton in Hp as ->. by eapply stray_family.
      * apply family_strays_elem in Hp as (p & n & Hpe & Hpi & [[Hok ->]|(Hp & files & -> & Hpath)]).
        { by eapply stray_prefix. }
        apply prefix_strays_elem in Hpath as (x & n & -> & Hx & Hxi & Hok). by eapply stray_object.
      * apply list_elem_of_singleton in Hp as ->. by eapply stray_family.
    + apply list_elem_of_singleton in Hp as ->. eapply stray_family; [done..|]. intros k ->.
      by rewrite (proj2 (family_kind_prefix _ k)) in Hk.
  - intros [f n He Hi Hn|k prefixes p n He Hp Hi Hok|k prefixes p files x n He Hp Hh Hx Hi Hok].
    + exists (f, n). split; [done|]. rewrite Hi. cbn [fst snd]. destruct (family_kind f) as [k|] eqn:Hk; [|set_solver].
      apply family_kind_prefix in Hk. specialize (Hn k Hk). destruct n; [set_solver|done|set_solver].
    + exists (prefix k, DirNode prefixes). split; [done|]. rewrite dir_not_ignored by done. cbn [fst snd].
      rewrite (proj2 (family_kind_prefix _ k)) by done. apply family_strays_elem. exists p, n. auto.
    + exists (prefix k, DirNode prefixes). split; [done|]. rewrite dir_not_ignored by done. cbn [fst snd].
      rewrite (proj2 (family_kind_prefix _ k)) by done. apply family_strays_elem. exists p, (DirNode files).
      split_and!; [done|by apply dir_not_ignored|]. right. split; [done|]. exists files. split; [done|].
      apply prefix_strays_elem. by exists x, n.
Qed.

(** The scan of the objects directory is exact, whatever the directory holds and in
    whatever order its entries come: it always answers, it lists in strict order exactly the
    identifiers whose path is a regular file, and it reports exactly the stray entries. *)
Lemma inventory_exact families :
  exists found, scan_inventory (DirNode families) = Ok found /\
    Sorted lex_lt (inv_oids found) /\
    (forall oid, oid ∈ inv_oids found <->
       exists kind, parse_oid oid = Ok kind /\ file_at (DirNode families) (object_path_for_valid_oid oid kind)) /\
    (forall path, path ∈ inv_invalid_paths found <-> stray families path).
Proof.
  eexists. split; [apply scan_inventory_spec|]. cbn [inv_oids inv_invalid_paths]. split; [apply sort_dedup_sorted|]. split.
  - intros oid. by rewrite elem_of_sort_dedup, tree_oids_elem.
  - intros path. by rewrite sort_by_perm, tree_strays_elem.
Qed.

(** The inventories of a store agree.  In every state that puts, repairs and
    quarantines reach from an empty store, the complete inventory lists exactly the stored
    identifiers, the limited inventory lists the same ones when there are at most
    [max_objects] and reports the resource limit otherwise, and the inventory of one kind
    does so for the identifiers of that kind. *)
Lemma inventories_agree sha256 nfc s0 s max_objects :
  sha256_digest sha256 -> objects s0 = ∅ -> rtc (store_step sha256 nfc) s0 s -> 0 < max_objects <= usize_max ->
  exists oids, file_list_oids s = Ok oids /\ Sorted lex_lt oids /\
    (forall oid, oid ∈ oids <->
       exists kind, parse_oid oid = Ok kind /\ is_Some (objects s !! object_path_for_valid_oid oid kind)) /\
    list_oids_limited s max_objects = (if len oids <=? max_objects then Ok oids else Err store_resource_limit) /\
    (forall kind, let of_kind := filter (fun oid => parse_oid oid = Ok kind) oids in
       scan_kind_inventory_limited (objects_directory s) kind max_objects =
         (if len of_kind <=? max_objects then Ok of_kind else Err store_resource_limit)).
Proof.
  intros Hsha Hnew Hs Hm. pose proof (store_steps_layout _ _ Hsha _ _ Hs (new_store_layout _ Hnew)) as Hl.
  exists (stored_oids s). unfold file_list_oids. rewrite inventory_stored by done. cbn [mbind result_bind inv_invalid_paths inv_oids].
  split; [done|]. split; [by apply stored_oids_sorted|]. split; [intros oid; by apply stored_oids_elem|].
  split; [by apply list_oids_limited_stored|]. intros kind.
  rewrite <- kind_oids_filter by done. unfold scan_kind_inventory_limited. destruct (Z.eqb_spec max_objects 0); [lia|].
  cbn [reject_if mbind result_bind]. apply scan_kind_stored; [done|lia].
Qed.

Lemma sample_steps : rtc (store_step toy_sha256 nfc_id) empty_store sample_put2.1.
Proof.
  eapply rtc_l; [|eapply rtc_l; [apply sample_put2_step|apply rtc_refl]].
  eapply step_put_blob. apply sample_put_ok.
Qed.

(** ** The memo *)

Section Memo.
Context {S : Type} `{ObjectStoreLaws S}.

(** What the memo remembers was read from its store. *)
Definition memo_ok (m : VerifiedObjectMemo S) : Prop :=
  map_Forall (fun oid object => ob_oid object = oid /\ get_verified (memo_store m) oid = Ok (Some object)) (verified m).

Lemma remember_ok m object oid :
  memo_ok m -> get_verified (memo_store m) oid = Ok (Some object) -> memo_ok (remember object m).
Proof.
  intros Hm Ho. pose proof (get_verified_oid _ _ _ Ho) as <-.
  assert (forall bytes, memo_ok (insert_verified object bytes m)) as Hi.
  { intros bytes. unfold memo_ok, insert_verified. cbn [verified memo_store]. by apply map_Forall_insert_2. }
  unfold remember. repeat case_match; auto.
Qed.

Lemma remember_store (m : VerifiedObjectMemo S) object : memo_store (remember object m) = memo_store m.
Proof. unfold remember. by repeat case_match. Qed.

Lemma memo_read_ok m oid : memo_ok m ->
  memo_ok (fst (memo_read m oid)) /\ memo_store (fst (memo_read m oid)) = memo_store m /\
  snd (memo_read m oid) = get_verified (memo_store m) oid.
Proof.
  intros Hm. unfold memo_read. destruct (get_verified (memo_store m) oid) as [[object|]|e] eqn:Ho; [|done..].
  split_and!; [by eapply remember_ok|apply remember_store|done].
Qed.

Lemma memo_get_ok m oid : memo_ok m ->
  memo_ok (fst (memo_get_verified m oid)) /\ memo_store (fst (memo_get_verified m oid)) = memo_store m /\
  snd (memo_get_verified m oid) = get_verified (memo_store m) oid.
Proof.
  intros Hm. unfold memo_get_verified. destruct (verified m !! oid) as [object|] eqn:Hv; [|by apply memo_read_ok].
  case_match; [|apply (memo_read_ok (forget oid m)); by apply map_Forall_delete].
  destruct (Hm _ _ Hv) as [_ ->]. done.
Qed.

(** The answers of a sequence of reads. *)
Fixpoint memo_reads (m : VerifiedObjectMemo S) (oids : list str)
  : VerifiedObjectMemo S * list (sresult (option VerifiedObject)) :=
  match oids with
  | [] => (m, [])
  | oid :: oids =>
    let '(m, answer) := memo_get_verified m oid in
    let '(m, answers) := memo_reads m oids in
    (m, answer :: answers)
  end.

Lemma memo_reads_ok oids : forall m, memo_ok m ->
  memo_ok (fst (memo_reads m oids)) /\ memo_store (fst (memo_reads m oids)) = memo_store m /\
  snd (memo_reads m oids) = map (get_verified (memo_store m)) oids.
Proof.
  induction oids as [|oid oids IH]; intros m Hm; [done|]. cbn [memo_reads map].
  destruct (memo_get_ok m oid Hm) as (Hm1 & Hs1 & Ha). destruct (memo_get_verified m oid) as [m1 answer]. cbn [fst snd] in *.
  destruct (IH m1 Hm1) as (Hm2 & Hs2 & Has). destruct (memo_reads m1 oids) as [m2 answers]. cbn [fst snd] in *.
  split_and!; [done|by rewrite Hs2|]. by rewrite Has, Ha, Hs1.
Qed.

Lemma memo_new_ok store : memo_ok (memo_new store).
Proof. apply map_Forall_empty. Qed.
End Memo.

#[local] Instance file_store_laws sha256 nfc : @ObjectStoreLaws FileObjectStore (file_object_store sha256 nfc).
Proof.
  split; intros store oid o H; cbn [get_verified file_object_store] in H; unfold file_get_verified in H;
    apply bind_Ok in H as ([kind path] & Hp & H); unfold validated_object_path, core in Hp; result_inv;
    (match goal with H : regular_file_if_present _ _ _ = Ok ?c |- _ => destruct c end; [|done]); result_inv;
    repeat case_match; result_inv; done.
Qed.

Definition with_store {S} `{ObjectStore S} (store : S) (m : VerifiedObjectMemo S) : VerifiedObjectMemo S :=
  {| memo_store := store; verified := verified m; structured_bytes := structured_bytes m |}.

(** The memo of an integrity check answers every read as the store does.  Moreover, when
    the file of a remembered object has since left the store or changed its length, the
    memo does not answer from memory: it answers as the store now does. *)
Lemma memo_transparent sha256 nfc (s : FileObjectStore) reads oid :
  let fs := file_object_store sha256 nfc in
  let memo := fst (memo_reads (memo_new s) reads) in
  snd (memo_reads (memo_new s) reads) = map (file_get_verified sha256 nfc s) reads /\
  snd (memo_get_verified memo oid) = file_get_verified sha256 nfc s oid /\
  (forall s', (forall object, verified memo !! oid = Some object ->
                 stored_object_byte_len s' oid <> Ok (Some (ob_byte_len object))) ->
     snd (memo_get_verified (with_store s' memo) oid) = file_get_verified sha256 nfc s' oid).
Proof.
  intros fs memo. destruct (memo_reads_ok reads (memo_new s) (memo_new_ok s)) as (Hok & Hst & Ha).
  fold memo in Hok, Hst. split; [exact Ha|]. split.
  - destruct (memo_get_ok memo oid Hok) as (_ & _ & ->). by rewrite Hst.
  - intros s' Hs'. clearbody memo. unfold memo_get_verified. cbn [verified with_store memo_store].
    change (still_stored s') with (@still_stored _ (file_object_store sha256 nfc) s'). cbn [still_stored file_object_store].
    assert (forall m : VerifiedObjectMemo FileObjectStore, memo_store m = s' -> snd (memo_read m oid) = file_get_verified sha256 nfc s' oid) as Hread.
    { intros m <-. unfold memo_read. change (file_get_verified sha256 nfc (memo_store m) oid) with (get_verified (memo_store m) oid).
      by destruct (get_verified (memo_store m) oid) as [[?|]|?]. }
    destruct (verified memo !! oid) as [object|] eqn:Hv; [|by apply Hread].
    destruct (Hok _ _ Hv) as [-> _]. specialize (Hs' _ eq_refl).
    destruct (stored_object_byte_len s' oid) as [n|e] eqn:Hn; cbn [mbind result_bind]; [|by apply Hread].
    rewrite bool_decide_eq_false_2 by congruence. by apply Hread.
Qed.

(** Whatever else is in the directory, every object file is in the inventory. *)
Lemma inventory_lists s found oid k bytes :
  inventory s = Ok found -> parse_oid oid = Ok k ->
  objects s !! object_path_for_valid_oid oid k = Some (RegularFile bytes) -> oid ∈ inv_oids found.
Proof.
  unfold inventory, objects_directory. rewrite scan_inventory_spec. intros [= <-] Hk Hb. cbn [inv_oids].
  apply elem_of_sort_dedup, tree_oids_elem. exists k. split; [done|]. destruct (object_path_for_valid_oid oid k) as [[f p] x] eqn:Ep.
  set (rows := map_to_list (objects s)). set (row := ((f, p, x), RegularFile bytes) : ObjectRow).
  assert (row ∈ rows) as Hrow by (by apply elem_of_map_to_list).
  set (family := filter (fun row => row_family row = f) rows).
  assert (row ∈ family) as Hfamily by (by apply list_elem_of_filter).
  exists (map (family_directory rows) (remove_dups (STORE_FAMILIES ++ map row_family rows))),
    (map (prefix_directory family) (remove_dups (map row_prefix family))),
    (map row_entry (filter (fun row => row_prefix row = p) family)), bytes.
  split_and!; [reflexivity|..]; cbn [fst snd].
  - apply list_elem_of_fmap. exists f. split; [reflexivity|]. rewrite elem_of_remove_dups, elem_of_app. right.
    apply list_elem_of_fmap. by exists row.
  - apply list_elem_of_fmap. exists p. split; [reflexivity|]. rewrite elem_of_remove_dups. apply list_elem_of_fmap. by exists row.
  - apply list_elem_of_fmap. exists row. split; [done|]. by apply list_elem_of_filter.
Qed.
