(* ===== verification/Closure.v ===== *)
(** * Object closures

    Models crates/synapse-cas/src/graph.rs: the references of an object and
    their extraction under budgets, the Tombstone catalog, and the iterative
    depth-first verification of the closure of a Commit
    ([verify_closure_with_tombstones]).  The details of diagnostics (texts that
    only serve messages) are left out.  The walk runs on fuel: the object and
    edge limits bound the number of stack items it can ever push. *)

From stdpp Require Import base list numbers strings gmap sets.
From Stdlib Require Import ZArith Lia.
From S2P Require Import Prelude Sorting Text BTree Canonical Oid PortablePath SchemaSemantics ObjectStore.

#[local] Open Scope Z_scope.

Definition MAX_GRAPH_REFERENCE_BYTES : Z := 64 * 1024 * 1024.
Definition DEFAULT_MAX_TOMBSTONE_RECORD_OBJECTS : Z := 100000.
Definition DEFAULT_MAX_TOMBSTONE_RECORD_BYTES : Z := 1024 * 1024 * 1024.

Record GraphLimits := { max_objects : Z; max_edges : Z; max_depth : Z }.
Definition default_graph_limits : GraphLimits := {| max_objects := 100000; max_edges := 1000000; max_depth := 512 |}.

Record TombstoneScanLimits := { max_record_objects : Z; max_record_bytes : Z }.
Definition default_tombstone_limits : TombstoneScanLimits :=
  {| max_record_objects := DEFAULT_MAX_TOMBSTONE_RECORD_OBJECTS; max_record_bytes := DEFAULT_MAX_TOMBSTONE_RECORD_BYTES |}.

Inductive ReferenceRole :=
| CommitParent (index : Z)
| CommitSnapshot
| CommitTransition (index : Z)
| CommitBoundDeclaration (index : Z)
| TreeEntry (segment : str)
| RecordReference (pointer : str)
| RecordSupersedes.

#[export] Instance ReferenceRole_eq_dec : EqDecision ReferenceRole.
Proof. solve_decision. Defined.

Record GraphEdge := { source : str; target : str; expected_kind : ObjectKind; role : ReferenceRole }.

Inductive ClosureNodeState :=
| NodePresent (kind : ObjectKind) (byte_len : Z)
| NodeTombstoned (kind : ObjectKind) (tombstone_oid : str)
| NodeMissing (kind : ObjectKind)
| NodeCorrupt (kind : ObjectKind)
| NodeReadFailure (kind : ObjectKind).

Record ClosureNode := { node_oid : str; node_depth : Z; node_state : ClosureNodeState }.

Inductive LimitedResource := LimitDepth | LimitObjects | LimitEdges | LimitReferenceBytes.

Inductive ClosureIssueKind :=
| IssueMissing
| IssueCorrupt
| IssueReadFailure
| IssueTypeMismatch (expected actual : ObjectKind)
| IssueSemanticMismatch
| IssueInvalidObject
| IssueInvalidReference (value : str)
| IssueCycle (path : list str)
| IssueResourceLimit (resource : LimitedResource).

Record ClosureIssue := {
  issue_oid : str;
  referenced_by : option str;
  issue_role : option ReferenceRole;
  issue_kind : ClosureIssueKind;
}.

Record ClosureReport := {
  root : str;
  nodes : gmap str ClosureNode;
  edges : list GraphEdge;
  issues : list ClosureIssue;
  truncated : bool;
}.

Definition is_complete (report : ClosureReport) : bool :=
  negb (truncated report) && bool_decide (length (issues report) = 0%nat).

(** ** References *)

Inductive RecordConstraint :=
| RecordType (record_type : str)
| AiActivity
| Supersedes (record_type entity_id : str).

Record PendingReference := {
  pr_target : str;
  pr_expected_kind : ObjectKind;
  pr_role : ReferenceRole;
  pr_constraint : option RecordConstraint;
}.

Inductive ReferenceExtractionLimit := ExceededEdges | ExceededReferenceBytes.

Record ReferenceCollector := {
  references : list PendingReference;
  c_max_edges : Z;
  max_reference_bytes : Z;
  max_pointer_bytes : Z;
  charged_bytes : Z;
  exceeded : option ReferenceExtractionLimit;
}.

Definition collector_new (edges reference_bytes pointer_bytes : Z) : ReferenceCollector :=
  {| references := []; c_max_edges := edges; max_reference_bytes := reference_bytes;
     max_pointer_bytes := pointer_bytes; charged_bytes := 0; exceeded := None |}.

Definition is_exceeded (c : ReferenceCollector) : bool := bool_decide (is_Some (exceeded c)).

Definition exceed (limit : ReferenceExtractionLimit) (c : ReferenceCollector) : ReferenceCollector :=
  {| references := references c; c_max_edges := c_max_edges c; max_reference_bytes := max_reference_bytes c;
     max_pointer_bytes := max_pointer_bytes c; charged_bytes := charged_bytes c; exceeded := Some limit |}.

Definition usize_checked_mul (a b : Z) : option Z := if a * b <=? usize_max then Some (a * b) else None.

(** What one reference is charged, and the total after it; [None] on overflow. *)
Definition charge (c : ReferenceCollector) (dynamic_target_bytes dynamic_role_bytes constraint_bytes : Z) : option Z :=
  bytes ← usize_checked_mul dynamic_target_bytes 8;
  role_bytes ← usize_checked_mul dynamic_role_bytes 3;
  bytes ← usize_checked_add bytes role_bytes;
  reference_bytes ← usize_checked_add bytes constraint_bytes;
  usize_checked_add (charged_bytes c) reference_bytes.

Definition try_push (dynamic_target_bytes dynamic_role_bytes constraint_bytes : Z) (reference : PendingReference)
    (c : ReferenceCollector) : ReferenceCollector :=
  if is_exceeded c then c
  else if len (references c) >=? c_max_edges c then exceed ExceededEdges c
  else
    match charge c dynamic_target_bytes dynamic_role_bytes constraint_bytes with
    | None => exceed ExceededReferenceBytes c
    | Some next =>
      if next >? max_reference_bytes c then exceed ExceededReferenceBytes c
      else {| references := references c ++ [reference]; c_max_edges := c_max_edges c;
              max_reference_bytes := max_reference_bytes c; max_pointer_bytes := max_pointer_bytes c;
              charged_bytes := next; exceeded := None |}
    end.

(** [str::split_once] with a text separator. *)
Fixpoint split_once_str (sep s : str) : option (str * str) :=
  match strip_prefix sep s with
  | Some rest => Some ([], rest)
  | None =>
    match s with
    | [] => None
    | b :: s => '(l, r) ← split_once_str sep s; Some (b :: l, r)
    end
  end.

Definition dynamic_target_bytes (target : str) : Z :=
  match split_once_str (lit ":sg-oid-v1:sha256:") target with
  | None => len target
  | Some (family, digest) =>
    let valid := bool_decide (is_Some (kind_of_prefix family)) && (len digest =? 64) && forallb is_lower_hex digest in
    if valid then 0 else len target
  end.

(** The collector and the issues, both passed by [&mut]. *)
Definition Extraction : Type := ReferenceCollector * list ClosureIssue.

Definition invalid_object (oid : str) : ClosureIssue :=
  {| issue_oid := oid; referenced_by := None; issue_role := None; issue_kind := IssueInvalidObject |}.

Definition add_invalid (oid : str) (e : Extraction) : Extraction := (fst e, snd e ++ [invalid_object oid]).

Definition append_pointer_index (pointer : str) (index : Z) (limit : Z) : option str :=
  let index := show_int index in
  next_length ← usize_checked_add (len pointer) 1 ≫= (fun length => usize_checked_add length (len index));
  if next_length >? limit then None else Some (pointer ++ lit "/" ++ index).

Fixpoint append_key_chars (cs : list char) (limit : Z) (pointer : str) : option str :=
  match cs with
  | [] => Some pointer
  | character :: cs =>
    let encoded := if character =? 126 then lit "~0" else if character =? 47 then lit "~1" else encode_utf8 character in
    length ← usize_checked_add (len pointer) (len encoded);
    if length >? limit then None else append_key_chars cs limit (pointer ++ encoded)
  end.

Definition append_pointer_key (pointer key : str) (limit : Z) : option str :=
  length ← usize_checked_add (len pointer) 1;
  if length >? limit then None else append_key_chars (chars key) limit (pointer ++ lit "/").

Definition record_constraint_for (record_type pointer : str) : option RecordConstraint :=
  let at_pointer rt p := str_eqb record_type (lit rt) && str_eqb pointer (lit p) in
  if at_pointer "observation" "/payload/capture_profile_ref" then Some (RecordType (lit "capture_profile"))
  else if at_pointer "activity" "/payload/ai_run/context_pack_ref" then Some (RecordType (lit "context_pack"))
  else if at_pointer "activity" "/payload/ai_run/delegation_grant_ref" then Some (RecordType (lit "delegation_grant"))
  else if at_pointer "context_pack" "/payload/policy_snapshot_ref" then Some (RecordType (lit "policy"))
  else if at_pointer "context_pack" "/payload/delegation_grant_ref" then Some (RecordType (lit "delegation_grant"))
  else if at_pointer "claim_reaction" "/payload/claim_ref" then Some (RecordType (lit "claim"))
  else if at_pointer "claim" "/payload/ai_run_ref" then Some AiActivity
  else None.

Section RecordStrings.
Variables source_oid source_record_type source_entity_id : str.

(** The [Value::String] branch of [collect_record_oid_strings]. *)
Definition collect_string (target pointer : str) (e : Extraction) : Extraction :=
  match parse_oid target with
  | Err _ => e
  | Ok actual_kind =>
    let e := if str_eqb source_record_type (lit "tombstone") && str_eqb pointer (lit "/payload/target_ref") &&
                str_eqb target source_oid
             then add_invalid source_oid e else e in
    let supersedes := str_eqb pointer (lit "/supersedes") in
    let record_constraint :=
      if supersedes then Some (Supersedes source_record_type source_entity_id)
      else record_constraint_for source_record_type pointer in
    let reference := {|
      pr_target := target;
      pr_expected_kind := match record_constraint with Some _ => Record | None => actual_kind end;
      pr_role := if supersedes then RecordSupersedes else RecordReference pointer;
      pr_constraint := record_constraint |} in
    let dynamic_role_bytes := if supersedes then 0 else len pointer in
    let constraint_bytes :=
      match record_constraint with
      | Some (Supersedes record_type entity_id) => usize_saturating_add (len record_type) (len entity_id)
      | _ => 0
      end in
    (try_push 0 dynamic_role_bytes constraint_bytes reference (fst e), snd e)
  end.

(** The two child loops, over the function that visits a child. *)
Section Loops.
Variable visit_child : Value -> str -> Extraction -> Extraction.

Fixpoint collect_array (index : Z) (values : list Value) (pointer : str) (e : Extraction) : Extraction :=
  match values with
  | [] => e
  | child :: values =>
    match append_pointer_index pointer index (max_pointer_bytes (fst e)) with
    | None => (exceed ExceededReferenceBytes (fst e), snd e)
    | Some child_pointer =>
      let e := visit_child child child_pointer e in
      if is_exceeded (fst e) then e else collect_array (index + 1) values pointer e
    end
  end.

Fixpoint collect_object (entries : list (str * Value)) (pointer : str) (e : Extraction) : Extraction :=
  match entries with
  | [] => e
  | (key, child) :: entries =>
    match append_pointer_key pointer key (max_pointer_bytes (fst e)) with
    | None => (exceed ExceededReferenceBytes (fst e), snd e)
    | Some child_pointer =>
      let e := visit_child child child_pointer e in
      if is_exceeded (fst e) then e else collect_object entries pointer e
    end
  end.
End Loops.

Fixpoint collect_record_oid_strings (value : Value) (pointer : str) (e : Extraction) : Extraction :=
  if is_exceeded (fst e) then e
  else
    match value with
    | Str target => collect_string target pointer e
    | Arr values => collect_array collect_record_oid_strings 0 values pointer e
    | Obj entries => collect_object collect_record_oid_strings entries pointer e
    | Null | Bool _ | Integer _ => e
    end.
End RecordStrings.

Definition extract_record_references (object : VerifiedObject) (e : Extraction) : Extraction :=
  match ob_structured object with
  | None => add_invalid (ob_oid object) e
  | Some value =>
    let record_type := default [] (get_str value (lit "record_type")) in
    let entity_id := default [] (get_str value (lit "entity_id")) in
    collect_record_oid_strings (ob_oid object) record_type entity_id value [] e
  end.

Fixpoint append_references (source_oid : str) (kind : ObjectKind) (role_at : Z -> ReferenceRole) (index : Z)
    (values : list Value) (e : Extraction) : Extraction :=
  match values with
  | [] => e
  | value :: values =>
    if is_exceeded (fst e) then e
    else
      match as_str value with
      | None => append_references source_oid kind role_at (index + 1) values (add_invalid source_oid e)
      | Some target =>
        let reference := {| pr_target := target; pr_expected_kind := kind; pr_role := role_at index; pr_constraint := None |} in
        append_references source_oid kind role_at (index + 1) values
          (try_push (dynamic_target_bytes target) 0 0 reference (fst e), snd e)
      end
  end.

Definition append_array_references (source_oid : str) (fields : list (str * Value)) (field_name : str)
    (kind : ObjectKind) (role_at : Z -> ReferenceRole) (e : Extraction) : Extraction :=
  match object_field fields field_name ≫= as_array with
  | None => add_invalid source_oid e
  | Some values => append_references source_oid kind role_at 0 values e
  end.

Definition append_snapshot (source_oid : str) (fields : list (str * Value)) (e : Extraction) : Extraction :=
  match object_field fields (lit "snapshot") ≫= as_str with
  | None => add_invalid source_oid e
  | Some snapshot =>
    (try_push (dynamic_target_bytes snapshot) 0 0
       {| pr_target := snapshot; pr_expected_kind := Tree; pr_role := CommitSnapshot; pr_constraint := None |} (fst e), snd e)
  end.

Definition extract_commit_references (object : VerifiedObject) (e : Extraction) : Extraction :=
  match ob_structured object with
  | None => add_invalid (ob_oid object) e
  | Some value =>
    match as_object value with
    | None => add_invalid (ob_oid object) e
    | Some fields =>
      let e := append_array_references (ob_oid object) fields (lit "parents") Commit CommitParent e in
      let e := append_snapshot (ob_oid object) fields e in
      let e := append_array_references (ob_oid object) fields (lit "transition_refs") Record CommitTransition e in
      append_array_references (ob_oid object) fields (lit "bound_declaration_refs") Record CommitBoundDeclaration e
    end
  end.

Fixpoint extract_tree_entries (oid : str) (entries : list (str * Value)) (e : Extraction) : Extraction :=
  match entries with
  | [] => e
  | (segment, entry) :: entries =>
    if is_exceeded (fst e) then e
    else
      let invalid := extract_tree_entries oid entries (add_invalid oid e) in
      if negb (is_portable_segment segment) then invalid
      else
        match as_object entry with
        | None => invalid
        | Some entry_fields =>
          match (object_field entry_fields (lit "entry_kind") ≫= as_str) ≫= kind_of_prefix with
          | None => invalid
          | Some kind =>
            match object_field entry_fields (lit "oid") ≫= as_str with
            | None => invalid
            | Some target =>
              extract_tree_entries oid entries
                (try_push (dynamic_target_bytes target) (len segment) 0
                   {| pr_target := target; pr_expected_kind := kind; pr_role := TreeEntry segment; pr_constraint := None |}
                   (fst e), snd e)
            end
          end
        end
  end.

Definition extract_tree_references (object : VerifiedObject) (e : Extraction) : Extraction :=
  match ob_structured object with
  | None => add_invalid (ob_oid object) e
  | Some value =>
    match get value (lit "entries") ≫= as_object with
    | None => add_invalid (ob_oid object) e
    | Some entries => extract_tree_entries (ob_oid object) entries e
    end
  end.

Definition extract_references (object : VerifiedObject) (issues : list ClosureIssue)
    (edges reference_bytes pointer_bytes : Z) : Extraction :=
  let e := (collector_new edges reference_bytes pointer_bytes, issues) in
  match ob_kind object with
  | Blob => e
  | Record => extract_record_references object e
  | Commit => extract_commit_references object e
  | Tree => extract_tree_references object e
  end.

(** ** Record semantics *)

Record RecordSemantics := {
  record_type : option str;
  entity_id : option str;
  activity_kind : option str;
}.

Definition record_semantics_for (object : VerifiedObject) : option RecordSemantics :=
  value ← ob_structured object;
  Some {| record_type := get_str value (lit "record_type");
          entity_id := get_str value (lit "entity_id");
          activity_kind := (get value (lit "payload") ≫= (fun payload => get payload (lit "activity_kind"))) ≫= as_str |}.

(** Whether [record_constraint_mismatch] returns a mismatch. *)
Definition record_constraint_mismatch (semantics : RecordSemantics) (constraint : RecordConstraint) : bool :=
  let missing := default (lit "<missing>") in
  match constraint with
  | RecordType expected => negb (str_eqb (missing (record_type semantics)) expected)
  | AiActivity =>
    negb (str_eqb (missing (record_type semantics)) (lit "activity")) ||
    negb (str_eqb (missing (activity_kind semantics)) (lit "ai_run"))
  | Supersedes expected_type expected_entity =>
    negb (str_eqb (missing (record_type semantics)) expected_type) ||
    negb (str_eqb (missing (entity_id semantics)) expected_entity)
  end.

(** ** The Tombstone catalog *)

Record TombstoneCatalog := {
  catalog_limits : option TombstoneScanLimits;
  catalog_records : Z;
  catalog_record_bytes : Z;
  targets : gmap str str;
}.

Definition empty_catalog : TombstoneCatalog :=
  {| catalog_limits := None; catalog_records := 0; catalog_record_bytes := 0; targets := ∅ |}.

Definition graph_resource_limit : StoreError := StoreCore (Core ResourceLimit).

Definition validate_tombstone_scan_limits (limits : TombstoneScanLimits) : sresult unit :=
  reject_if (max_record_objects limits =? 0) graph_resource_limit;;
  reject_if (max_record_bytes limits =? 0) graph_resource_limit.

Definition catalog_bounded (limits : TombstoneScanLimits) : sresult TombstoneCatalog :=
  validate_tombstone_scan_limits limits;;
  Ok {| catalog_limits := Some limits; catalog_records := 0; catalog_record_bytes := 0; targets := ∅ |}.

(** Charge one Record to the limits of a bounded catalog. *)
Definition charge_record (object : VerifiedObject) (c : TombstoneCatalog) : sresult TombstoneCatalog :=
  match catalog_limits c with
  | None => Ok c
  | Some limits =>
    let records := catalog_records c + 1 in
    reject_if (records >? max_record_objects limits) graph_resource_limit;;
    record_bytes ← ok_or (usize_checked_add (catalog_record_bytes c) (ob_byte_len object)) graph_resource_limit;
    reject_if (record_bytes >? max_record_bytes limits) graph_resource_limit;;
    Ok {| catalog_limits := Some limits; catalog_records := records; catalog_record_bytes := record_bytes;
          targets := targets c |}
  end.

(** The object a Tombstone record resolves. *)
Definition tombstone_target (object : VerifiedObject) : option str :=
  value ← ob_structured object;
  if negb (bool_decide (get_str value (lit "record_type") = Some (lit "tombstone"))) then None
  else
    target ← (get value (lit "payload") ≫= (fun payload => get payload (lit "target_ref"))) ≫= as_str;
    if str_eqb target (ob_oid object) || negb (is_ok (parse_oid target)) then None else Some target.

Definition catalog_observe (object : VerifiedObject) (c : TombstoneCatalog) : sresult TombstoneCatalog :=
  if negb (bool_decide (ob_kind object = Record)) then Ok c
  else
    c ← charge_record object c;
    match tombstone_target object with
    | None => Ok c
    | Some target =>
      let oid := match targets c !! target with
                 | Some existing => if str_lt (ob_oid object) existing then ob_oid object else existing
                 | None => ob_oid object
                 end in
      Ok {| catalog_limits := catalog_limits c; catalog_records := catalog_records c;
            catalog_record_bytes := catalog_record_bytes c; targets := <[target := oid]> (targets c) |}
    end.

Definition tombstone_for (c : TombstoneCatalog) (oid : str) : option str := targets c !! oid.

(** ** The walk *)

Record PendingVisit := {
  pv_oid : str;
  pv_kind : ObjectKind;
  pv_depth : Z;
  pv_referenced_by : option str;
  pv_role : option ReferenceRole;
  pv_constraint : option RecordConstraint;
}.

Inductive WalkItem := Enter (visit : PendingVisit) | Exit (oid : str).

Definition issue_for_visit (visit : PendingVisit) (kind : ClosureIssueKind) : ClosureIssue :=
  {| issue_oid := pv_oid visit; referenced_by := pv_referenced_by visit; issue_role := pv_role visit; issue_kind := kind |}.

Record Walk := {
  w_stack : list WalkItem;
  w_finished : gset str;
  w_active : gset str;
  w_active_path : list str;
  w_semantics : gmap str RecordSemantics;
  w_reference_bytes : Z;
  w_report : ClosureReport;
}.

(** What an iteration of the loop does next. *)
Inductive Control := Continue (w : Walk) | BreakWalk (report : ClosureReport).

Definition with_issue (issue : ClosureIssue) (r : ClosureReport) : ClosureReport :=
  {| root := root r; nodes := nodes r; edges := edges r; issues := issues r ++ [issue]; truncated := truncated r |}.
Definition with_truncated (r : ClosureReport) : ClosureReport :=
  {| root := root r; nodes := nodes r; edges := edges r; issues := issues r; truncated := true |}.
Definition with_node (visit : PendingVisit) (state : ClosureNodeState) (r : ClosureReport) : ClosureReport :=
  {| root := root r;
     nodes := <[pv_oid visit := {| node_oid := pv_oid visit; node_depth := pv_depth visit; node_state := state |}]> (nodes r);
     edges := edges r; issues := issues r; truncated := truncated r |}.
Definition set_report (f : ClosureReport -> ClosureReport) (w : Walk) : Walk :=
  {| w_stack := w_stack w; w_finished := w_finished w; w_active := w_active w; w_active_path := w_active_path w;
     w_semantics := w_semantics w; w_reference_bytes := w_reference_bytes w; w_report := f (w_report w) |}.

Definition record_constraint_issue (visit : PendingVisit) (semantics : gmap str RecordSemantics) (r : ClosureReport)
  : ClosureReport :=
  match pv_constraint visit, semantics !! pv_oid visit with
  | Some constraint, Some s =>
    if record_constraint_mismatch s constraint then with_issue (issue_for_visit visit IssueSemanticMismatch) r else r
  | _, _ => r
  end.

(** The popped item was the exit mark of [oid]. *)
Definition exit_step (oid : str) (w : Walk) : Walk :=
  {| w_stack := w_stack w; w_finished := {[oid]} ∪ w_finished w; w_active := w_active w ∖ {[oid]};
     w_active_path := if bool_decide (last (w_active_path w) = Some oid) then removelast (w_active_path w) else w_active_path w;
     w_semantics := w_semantics w; w_reference_bytes := w_reference_bytes w; w_report := w_report w |}.

(** [active_path[start..]] from the first occurrence of [oid], or the whole path. *)
Definition path_from (oid : str) (path : list str) : list str :=
  match list_find (fun candidate => candidate = oid) path with Some (i, _) => drop i path | None => path end.

(** Mark a visit as active and schedule its exit. *)
Definition activate (visit : PendingVisit) (w : Walk) : Walk :=
  {| w_stack := Exit (pv_oid visit) :: w_stack w; w_finished := w_finished w; w_active := {[pv_oid visit]} ∪ w_active w;
     w_active_path := w_active_path w ++ [pv_oid visit]; w_semantics := w_semantics w;
     w_reference_bytes := w_reference_bytes w; w_report := w_report w |}.

(** The loop over the extracted references: the edges and issues it adds, and the child visits. *)
Fixpoint scan_references (visit : PendingVisit) (refs : list PendingReference) (r : ClosureReport)
  : ClosureReport * list PendingVisit :=
  match refs with
  | [] => (r, [])
  | reference :: refs =>
    let edge := {| source := pv_oid visit; target := pr_target reference; expected_kind := pr_expected_kind reference;
                   role := pr_role reference |} in
    let r := {| root := root r; nodes := nodes r; edges := edges r ++ [edge]; issues := issues r; truncated := truncated r |} in
    match parse_oid (pr_target reference) with
    | Err _ =>
      scan_references visit refs
        (with_issue {| issue_oid := pv_oid visit; referenced_by := None; issue_role := Some (pr_role reference);
                       issue_kind := IssueInvalidReference (pr_target reference) |} r)
    | Ok actual_kind =>
      if negb (bool_decide (actual_kind = pr_expected_kind reference)) then
        scan_references visit refs
          (with_issue {| issue_oid := pr_target reference; referenced_by := Some (pv_oid visit);
                         issue_role := Some (pr_role reference);
                         issue_kind := IssueTypeMismatch (pr_expected_kind reference) actual_kind |} r)
      else
        let '(r, children) := scan_references visit refs r in
        (r, {| pv_oid := pr_target reference; pv_kind := actual_kind; pv_depth := pv_depth visit + 1;
               pv_referenced_by := Some (pv_oid visit); pv_role := Some (pr_role reference);
               pv_constraint := pr_constraint reference |} :: children)
    end
  end.

Section Verify.
Context {S : Type} `{ObjectStore S}.
Variable store : S.
Variable limits : GraphLimits.
Variable tombstones : TombstoneCatalog.

(** Remember what a Record is, and check it against the constraint of the visit. *)
Definition note_semantics (visit : PendingVisit) (object : VerifiedObject) (w : Walk) : Walk :=
  match (if bool_decide (ob_kind object = Record) then record_semantics_for object else None) with
  | Some semantics =>
    let all := <[pv_oid visit := semantics]> (w_semantics w) in
    {| w_stack := w_stack w; w_finished := w_finished w; w_active := w_active w; w_active_path := w_active_path w;
       w_semantics := all; w_reference_bytes := w_reference_bytes w;
       w_report := record_constraint_issue visit all (w_report w) |}
  | None => w
  end.

(** A present object of the expected kind: record its semantics and node, extract its references. *)
Definition expand_object (visit : PendingVisit) (object : VerifiedObject) (w : Walk) : sresult Control :=
  let w := note_semantics visit object w in
  let w := set_report (with_node visit (NodePresent (ob_kind object) (ob_byte_len object))) w in
  let remaining_edges := max_edges limits - len (edges (w_report w)) in
  let remaining_reference_bytes := MAX_GRAPH_REFERENCE_BYTES - w_reference_bytes w in
  reject_if ((remaining_edges <? 0) || (remaining_reference_bytes <? 0)) (StoreCore Panic);;
  let '(extraction, found) :=
    extract_references object (issues (w_report w)) remaining_edges remaining_reference_bytes MAX_GRAPH_REFERENCE_BYTES in
  reference_bytes ← ok_or (usize_checked_add (w_reference_bytes w) (charged_bytes extraction)) (StoreCore Panic);
  let r := w_report w in
  let r := {| root := root r; nodes := nodes r; edges := edges r; issues := found; truncated := truncated r |} in
  let '(r, child_visits) := scan_references visit (references extraction) r in
  match exceeded extraction with
  | Some limit =>
    let resource := match limit with ExceededEdges => LimitEdges | ExceededReferenceBytes => LimitReferenceBytes end in
    Ok (BreakWalk (with_issue {| issue_oid := pv_oid visit; referenced_by := None; issue_role := None;
                                 issue_kind := IssueResourceLimit resource |} (with_truncated r)))
  | None =>
    Ok (Continue {| w_stack := map Enter child_visits ++ w_stack w; w_finished := w_finished w; w_active := w_active w;
                    w_active_path := w_active_path w; w_semantics := w_semantics w;
                    w_reference_bytes := reference_bytes; w_report := r |})
  end.

(** A visit that is neither active nor finished, within the object limit. *)
Definition visit_object (visit : PendingVisit) (w : Walk) : sresult Control :=
  let w := activate visit w in
  match get_verified store (pv_oid visit) with
  | Ok None =>
    match tombstone_for tombstones (pv_oid visit) with
    | Some tombstone_oid =>
      let w := set_report (with_node visit (NodeTombstoned (pv_kind visit) tombstone_oid)) w in
      if (pv_depth visit =? 0) && bool_decide (pv_kind visit = Commit)
      then Ok (Continue (set_report (with_issue (issue_for_visit visit IssueMissing)) w))
      else Ok (Continue w)
    | None =>
      let w := set_report (with_node visit (NodeMissing (pv_kind visit))) w in
      Ok (Continue (set_report (with_issue (issue_for_visit visit IssueMissing)) w))
    end
  | Err (CorruptObject _) =>
    let w := set_report (with_node visit (NodeCorrupt (pv_kind visit))) w in
    Ok (Continue (set_report (with_issue (issue_for_visit visit IssueCorrupt)) w))
  | Err error => Err error
  | Ok (Some object) =>
    if negb (bool_decide (ob_kind object = pv_kind visit)) then
      let w := set_report (with_node visit (NodePresent (ob_kind object) (ob_byte_len object))) w in
      Ok (Continue (set_report (with_issue (issue_for_visit visit (IssueTypeMismatch (pv_kind visit) (ob_kind object)))) w))
    else expand_object visit object w
  end.

Definition is_record_reference (r : option ReferenceRole) : bool :=
  match r with Some (RecordReference _) => true | _ => false end.

Definition enter_step (visit : PendingVisit) (w : Walk) : sresult Control :=
  if pv_depth visit >? max_depth limits then
    Ok (Continue (set_report (fun r => with_issue (issue_for_visit visit (IssueResourceLimit LimitDepth)) (with_truncated r)) w))
  else if bool_decide (pv_oid visit ∈ w_active w) then
    if is_record_reference (pv_role visit) then
      Ok (Continue (set_report (record_constraint_issue visit (w_semantics w)) w))
    else
      let path := path_from (pv_oid visit) (w_active_path w) ++ [pv_oid visit] in
      Ok (Continue (set_report (with_issue (issue_for_visit visit (IssueCycle path))) w))
  else if bool_decide (pv_oid visit ∈ w_finished w) then
    Ok (Continue (set_report (record_constraint_issue visit (w_semantics w)) w))
  else if Z.of_nat (size (nodes (w_report w))) >=? max_objects limits then
    Ok (BreakWalk (with_issue (issue_for_visit visit (IssueResourceLimit LimitObjects)) (with_truncated (w_report w))))
  else visit_object visit w.

Fixpoint walk (fuel : nat) (w : Walk) : sresult ClosureReport :=
  match w_stack w with
  | [] => Ok (w_report w)
  | item :: stack =>
    match fuel with
    | O => Err (StoreCore OutOfFuel)
    | Datatypes.S fuel =>
      let w := {| w_stack := stack; w_finished := w_finished w; w_active := w_active w; w_active_path := w_active_path w;
                  w_semantics := w_semantics w; w_reference_bytes := w_reference_bytes w; w_report := w_report w |} in
      match item with
      | Exit oid => walk fuel (exit_step oid w)
      | Enter visit =>
        control ← enter_step visit w;
        match control with
        | Continue w => walk fuel w
        | BreakWalk report => Ok report
        end
      end
    end
  end.

Definition walk_fuel : nat := Z.to_nat (max_objects limits) + Z.to_nat (max_edges limits) + 1.

Definition root_visit (oid : str) : PendingVisit :=
  {| pv_oid := oid; pv_kind := Commit; pv_depth := 0; pv_referenced_by := None; pv_role := None; pv_constraint := None |}.

Definition empty_report (oid : str) : ClosureReport :=
  {| root := oid; nodes := ∅; edges := []; issues := []; truncated := false |}.

Definition start_walk (oid : str) : Walk :=
  {| w_stack := [Enter (root_visit oid)]; w_finished := ∅; w_active := ∅; w_active_path := []; w_semantics := ∅;
     w_reference_bytes := 0; w_report := empty_report oid |}.

Definition verify_closure_with_tombstones (oid : str) : sresult ClosureReport :=
  root_kind ← core (parse_oid oid);
  if negb (bool_decide (root_kind = Commit)) then
    Ok (with_issue {| issue_oid := oid; referenced_by := None; issue_role := None;
                      issue_kind := IssueTypeMismatch Commit root_kind |} (empty_report oid))
  else walk walk_fuel (start_walk oid).
End Verify.

(** ** Prepared verification *)

Section Prepared.
Context {S : Type} `{BoundedObjectStore S}.

Fixpoint observe_oids (store : S) (oids : list str) (catalog : TombstoneCatalog) : sresult TombstoneCatalog :=
  match oids with
  | [] => Ok catalog
  | oid :: oids =>
    if bool_decide (parse_oid oid = Ok Record) then
      object ← get_verified store oid;
      catalog ← match object with Some object => catalog_observe object catalog | None => Ok catalog end;
      observe_oids store oids catalog
    else observe_oids store oids catalog
  end.

Definition collect_tombstones_from_oids (store : S) (oids : list str) (catalog : TombstoneCatalog) : sresult TombstoneCatalog :=
  observe_oids store (sort_dedup oids) catalog.

Definition collect_tombstones_bounded (store : S) (limits : TombstoneScanLimits) : sresult TombstoneCatalog :=
  oids ← list_oids_by_kind_limited store Record (max_record_objects limits);
  reject_if (len oids >? max_record_objects limits) graph_resource_limit;;
  catalog ← catalog_bounded limits;
  collect_tombstones_from_oids store oids catalog.

Definition collect_tombstones (store : S) : sresult TombstoneCatalog :=
  oids ← list_oids store;
  collect_tombstones_from_oids store oids empty_catalog.

Definition verify_closure (store : S) (oid : str) (limits : GraphLimits) : sresult ClosureReport :=
  kind ← core (parse_oid oid);
  if negb (bool_decide (kind = Commit)) then verify_closure_with_tombstones store limits empty_catalog oid
  else
    tombstones ← collect_tombstones store;
    verify_closure_with_tombstones store limits tombstones oid.

Record PreparedClosureVerifier := {
  v_store : S;
  v_graph_limits : GraphLimits;
  v_tombstones : TombstoneCatalog;
  v_report_cache : gmap str ClosureReport;
}.

Definition from_catalog (store : S) (graph_limits : GraphLimits) (tombstones : TombstoneCatalog) : PreparedClosureVerifier :=
  {| v_store := store; v_graph_limits := graph_limits; v_tombstones := tombstones; v_report_cache := ∅ |}.

Definition verifier_new (store : S) (graph_limits : GraphLimits) (tombstone_limits : TombstoneScanLimits)
  : sresult PreparedClosureVerifier :=
  validate_tombstone_scan_limits tombstone_limits;;
  tombstones ← collect_tombstones_bounded store tombstone_limits;
  Ok (from_catalog store graph_limits tombstones).

Definition verify_uncached (v : PreparedClosureVerifier) (oid : str) : sresult ClosureReport :=
  verify_closure_with_tombstones (v_store v) (v_graph_limits v) (v_tombstones v) oid.

(** [PreparedClosureVerifier::verify]: the report and the verifier with its cache updated. *)
Definition verifier_verify (v : PreparedClosureVerifier) (oid : str) : sresult (ClosureReport * PreparedClosureVerifier) :=
  match v_report_cache v !! oid with
  | Some report => Ok (report, v)
  | None =>
    report ← verify_uncached v oid;
    Ok (report, {| v_store := v_store v; v_graph_limits := v_graph_limits v; v_tombstones := v_tombstones v;
                   v_report_cache := <[oid := report]> (v_report_cache v) |})
  end.

Definition verify_uncached_with_work_limits (v : PreparedClosureVerifier) (oid : str) (objects edges : Z)
  : sresult ClosureReport :=
  let limits := {| max_objects := Z.min (max_objects (v_graph_limits v)) objects;
                   max_edges := Z.min (max_edges (v_graph_limits v)) edges;
                   max_depth := max_depth (v_graph_limits v) |} in
  verify_closure_with_tombstones (v_store v) limits (v_tombstones v) oid.
End Prepared.
