(* ===== verification/ClosureFacts.v ===== *)
(** * Closures: references, the steps of the walk, and its invariant *)

From stdpp Require Import base list numbers strings gmap sets relations.
From Stdlib Require Import ZArith Lia.
From S2P Require Import TextFacts CanonicalWrite PortablePath Prelude Text Canonical Oid ObjectStore Closure.

#[local] Open Scope Z_scope.

(** ** The references of an object, and their extraction under budgets *)

(** ** What an object refers to, without budgets *)

(** Every string of a value that is an object identifier, in traversal order. *)
Fixpoint value_oids (v : Value) : list str :=
  match v with
  | Str s => if is_ok (parse_oid s) then [s] else []
  | Arr vs => flat_map value_oids vs
  | Obj es => flat_map (fun e => value_oids (snd e)) es
  | _ => []
  end.

Definition array_strings (fields : list (str * Value)) (name : str) : list str :=
  omap (M:=list) as_str (default [] (object_field fields name ≫= as_array)).

Definition commit_targets (fields : list (str * Value)) : list str :=
  array_strings fields (lit "parents") ++ option_list (object_field fields (lit "snapshot") ≫= as_str) ++
  array_strings fields (lit "transition_refs") ++ array_strings fields (lit "bound_declaration_refs").

Definition tree_targets (entries : list (str * Value)) : list str :=
  omap (M:=list) (fun e => get_str (snd e) (lit "oid")) entries.

(** The objects that an object refers to. *)
Definition object_targets (o : VerifiedObject) : list str :=
  match ob_structured o with
  | None => []
  | Some v =>
    match ob_kind o with
    | Blob => []
    | Record => value_oids v
    | Commit => commit_targets (default [] (as_object v))
    | Tree => tree_targets (default [] (get v (lit "entries") ≫= as_object))
    end
  end.

(** ** Extraction against it *)

(** The budgets hold, and are those of [c0]. *)
Definition within (c0 c : ReferenceCollector) : Prop :=
  c_max_edges c = c_max_edges c0 /\ max_reference_bytes c = max_reference_bytes c0 /\
  len (references c) <= Z.max 0 (c_max_edges c) /\ 0 <= charged_bytes c <= Z.max 0 (max_reference_bytes c).

(** [e'] extends [e] by references to some of [ts]; to exactly [ts] when no budget was exceeded and no issue found. *)
Definition extends (e e' : Extraction) (ts : list str) : Prop :=
  (exists more, snd e' = snd e ++ more) /\
  (forall c0, within c0 (fst e) -> within c0 (fst e')) /\
  exists rs, references (fst e') = references (fst e) ++ rs /\ (forall t, t ∈ map pr_target rs -> t ∈ ts) /\
    (exceeded (fst e') = None -> exceeded (fst e) = None /\ (snd e' = snd e -> map pr_target rs = ts)).

Lemma extends_nil e : extends e e [].
Proof.
  split_and!; [exists []; by rewrite app_nil_r|done|]. exists []. rewrite app_nil_r. split_and!; [done|set_solver|done].
Qed.

Lemma extends_exceeded e ts : is_exceeded (fst e) = true -> extends e e ts.
Proof.
  intros He%bool_decide_eq_true. split_and!; [exists []; by rewrite app_nil_r|done|].
  exists []. rewrite app_nil_r. split_and!; [done|set_solver|]. intros Hn. rewrite Hn in He. by destruct He.
Qed.

Lemma extends_trans e1 e2 e3 ts us : extends e1 e2 ts -> extends e2 e3 us -> extends e1 e3 (ts ++ us).
Proof.
  intros ([m1 Hm1] & Hw1 & rs1 & Hr1 & Hs1 & Hc1) ([m2 Hm2] & Hw2 & rs2 & Hr2 & Hs2 & Hc2). split_and!.
  - exists (m1 ++ m2). by rewrite Hm2, Hm1, app_assoc.
  - auto.
  - exists (rs1 ++ rs2). rewrite Hr2, Hr1, app_assoc, map_app. split_and!; [done|set_solver|].
    intros Hx. destruct (Hc2 Hx) as [Hx2 Hc2']. destruct (Hc1 Hx2) as [Hx1 Hc1']. split; [done|].
    intros Heq. assert (m1 = [] /\ m2 = []) as [-> ->].
    { rewrite Hm2, Hm1, <- app_assoc in Heq. rewrite <- (app_nil_r (snd e1)) in Heq at 2.
      apply app_inv_head in Heq. by apply app_eq_nil in Heq. }
    rewrite app_nil_r in *. by rewrite Hc1', Hc2'.
Qed.

Lemma extends_add_invalid oid e ts : extends e (add_invalid oid e) ts.
Proof.
  split_and!; [by eexists|done|]. exists []. rewrite app_nil_r. split_and!; [done|set_solver|].
  intros Hn. split; [done|]. cbn [snd add_invalid]. intros E. rewrite <- (app_nil_r (snd e)) in E at 2.
  by apply app_inv_head in E.
Qed.

Lemma within_exceed c0 l c : within c0 c -> within c0 (exceed l c).
Proof. done. Qed.

Lemma extends_exceed l e ts : extends e (exceed l (fst e), snd e) ts.
Proof.
  split_and!; [exists []; by rewrite app_nil_r|intros; by apply within_exceed|]. exists []. rewrite app_nil_r. set_solver.
Qed.

Lemma charge_nonneg c a b d n : 0 <= charged_bytes c -> 0 <= a -> 0 <= b -> 0 <= d -> charge c a b d = Some n -> 0 <= n.
Proof.
  unfold charge, usize_checked_mul, usize_checked_add. intros ? ? ? ? Hc.
  repeat (apply bind_Some in Hc as (? & ? & Hc)). repeat case_match; simplify_eq. lia.
Qed.

Lemma extends_try_push a b d r e :
  0 <= a -> 0 <= b -> 0 <= d -> extends e (try_push a b d r (fst e), snd e) [pr_target r].
Proof.
  intros Ha Hb Hd. unfold try_push. destruct (is_exceeded (fst e)) eqn:He.
  { pose proof (extends_exceeded e [pr_target r] He). by destruct e. }
  destruct (_ >=? _) eqn:Hl; [apply extends_exceed|].
  destruct (charge _ _ _ _) as [n|] eqn:Hc; [|apply extends_exceed].
  destruct (n >? _) eqn:Hn; [apply extends_exceed|]. bool_props.
  split_and!; [exists []; by rewrite app_nil_r| |].
  - intros c0 (H1 & H2 & H3 & H4). unfold within; cbn [fst references c_max_edges max_reference_bytes charged_bytes].
    rewrite len_app. change (len [r]) with 1. pose proof (charge_nonneg _ _ _ _ _ ltac:(apply H4) Ha Hb Hd Hc). lia.
  - exists [r]. cbn [fst references exceeded map]. split_and!; [done|done|]. intros _. split; [|done].
    unfold is_exceeded in He. apply bool_decide_eq_false in He. by apply eq_None_not_Some.
Qed.

Lemma dynamic_target_bytes_nonneg t : 0 <= dynamic_target_bytes t.
Proof. unfold dynamic_target_bytes. repeat case_match; auto with synapse; lia. Qed.

#[local] Hint Resolve dynamic_target_bytes_nonneg extends_nil extends_exceeded extends_add_invalid extends_exceed extends_try_push : core.

(** Extending by one of several targets first. *)
Lemma extends_cons e1 e2 e3 t us : extends e1 e2 [t] -> extends e2 e3 us -> extends e1 e3 (t :: us).
Proof. apply (extends_trans _ _ _ [t]). Qed.

Lemma extends_append_references oid kind role_at vs : forall i e,
  extends e (append_references oid kind role_at i vs e) (omap (M:=list) as_str vs).
Proof.
  induction vs as [|v vs IH]; intros i e; cbn [append_references]; [done|].
  destruct (is_exceeded (fst e)) eqn:He; [auto|]. cbn [omap list_omap]. destruct (as_str v) as [t|].
  - eapply extends_cons; [|apply IH]. apply extends_try_push; auto; lia.
  - apply (extends_trans _ (add_invalid oid e) _ []); auto.
Qed.

Lemma extends_array_references oid fields name kind role_at e :
  extends e (append_array_references oid fields name kind role_at e) (array_strings fields name).
Proof.
  unfold append_array_references, array_strings. destruct (_ ≫= as_array); [|auto]. apply extends_append_references.
Qed.

Lemma extends_snapshot oid fields e :
  extends e (append_snapshot oid fields e) (option_list (object_field fields (lit "snapshot") ≫= as_str)).
Proof. unfold append_snapshot. destruct (_ ≫= as_str) as [t|]; [|auto]. apply extends_try_push; auto; lia. Qed.

Lemma extends_tree_entries oid es : forall e, extends e (extract_tree_entries oid es e) (tree_targets es).
Proof.
  induction es as [|[seg v] es IH]; intros e; cbn [extract_tree_entries]; [done|].
  destruct (is_exceeded (fst e)) eqn:He; [auto|].
  assert (forall ts, extends e (extract_tree_entries oid es (add_invalid oid e)) (ts ++ tree_targets es)) as Hinv.
  { intros ts. eapply extends_trans; [apply extends_add_invalid|apply IH]. }
  assert (tree_targets ((seg, v) :: es) = option_list (get_str v (lit "oid")) ++ tree_targets es) as ->.
  { unfold tree_targets. cbn [omap list_omap snd]. by destruct (get_str v _). }
  destruct (negb _); [auto|]. destruct v as [| | | | |fs]; try (by auto). cbn [as_object].
  destruct (_ ≫= kind_of_prefix); [|auto]. unfold get_str. cbn [get]. destruct (_ ≫= as_str) as [t|]; [|apply (Hinv [])].
  eapply extends_cons; [|apply IH]. apply extends_try_push; auto with synapse; lia.
Qed.

Section RecordStrings.
Variables oid rt eid : str.

Lemma extends_collect_string t p e :
  extends e (collect_string oid rt eid t p e) (value_oids (Str t)).
Proof.
  unfold collect_string. cbn [value_oids]. destruct (parse_oid t) as [k|]; cbn [is_ok]; [|auto].
  match goal with |- context [if ?b then add_invalid oid e else e] => set (e1 := if b then add_invalid oid e else e) end.
  apply (extends_trans _ e1 _ []); [unfold e1; case_match; auto|].
  apply extends_try_push; [lia|case_match; auto with synapse; lia|].
  repeat case_match; simplify_eq; try lia; unfold usize_saturating_add, usize_max; len_lia.
Qed.

Lemma extends_collect_array f vs : Forall (fun v => forall p e, extends e (f v p e) (value_oids v)) vs ->
  forall i p e, extends e (collect_array f i vs p e) (flat_map value_oids vs).
Proof.
  induction 1 as [|v vs Hv _ IH]; intros i p e; cbn [collect_array flat_map]; [done|].
  destruct (append_pointer_index _ _ _) as [cp|]; [|auto].
  eapply extends_trans; [apply Hv|]. destruct (is_exceeded _) eqn:He; [auto|apply IH].
Qed.

Lemma extends_collect_object f es : Forall (fun x => forall p e, extends e (f (snd x) p e) (value_oids (snd x))) es ->
  forall p e, extends e (collect_object f es p e) (flat_map (fun x => value_oids (snd x)) es).
Proof.
  induction 1 as [|[k v] es Hv _ IH]; intros p e; cbn [collect_object flat_map snd]; [done|].
  destruct (append_pointer_key _ _ _) as [cp|]; [|auto].
  eapply extends_trans; [apply Hv|]. destruct (is_exceeded _) eqn:He; [auto|apply IH].
Qed.

Lemma extends_collect v : forall p e, extends e (collect_record_oid_strings oid rt eid v p e) (value_oids v).
Proof.
  induction v as [| | |s|vs IH|es IH] using Value_ind; intros p e; cbn [collect_record_oid_strings];
    (destruct (is_exceeded (fst e)) eqn:He; [auto|]); try done.
  - apply extends_collect_string.
  - by apply extends_collect_array.
  - by apply extends_collect_object.
Qed.
End RecordStrings.

(** The references extracted from an object are among its targets, and are all of them when no
    budget was exceeded and no issue was found; the budgets are respected. *)
Lemma extract_references_spec o found edges bytes pointer :
  0 <= edges -> 0 <= bytes ->
  let e := extract_references o found edges bytes pointer in
  (exists more, snd e = found ++ more) /\
  len (references (fst e)) <= edges /\ 0 <= charged_bytes (fst e) <= bytes /\
  (forall t, t ∈ map pr_target (references (fst e)) -> t ∈ object_targets o) /\
  (exceeded (fst e) = None -> snd e = found -> map pr_target (references (fst e)) = object_targets o).
Proof.
  intros He Hb e.
  assert (extends (collector_new edges bytes pointer, found) e (object_targets o)) as (Hm & Hw & rs & Hr & Hs & Hc).
  { subst e. unfold extract_references, object_targets. destruct (ob_kind o) eqn:Hk.
    - by case_match.
    - unfold extract_record_references. destruct (ob_structured o); [|auto]. apply extends_collect.
    - unfold extract_tree_references. destruct (ob_structured o) as [v|]; [|auto].
      destruct (_ ≫= as_object); [|auto]. apply extends_tree_entries.
    - unfold extract_commit_references. destruct (ob_structured o) as [v|]; [|auto].
      destruct (as_object v) as [fields|]; [|auto]. unfold commit_targets. cbn [default from_option id].
      eapply extends_trans; [apply extends_array_references|]. eapply extends_trans; [apply extends_snapshot|].
      eapply extends_trans; apply extends_array_references. }
  cbn [fst snd references collector_new app] in *.
  destruct (Hw (collector_new edges bytes pointer)) as (Hme & Hmb & Hl & Hch).
  { unfold within. cbn [references c_max_edges max_reference_bytes charged_bytes collector_new]. rewrite len_nil. lia. }
  cbn [c_max_edges max_reference_bytes collector_new] in *. rewrite Hr, Hme in Hl. rewrite Hmb in Hch. rewrite Hr.
  split_and!; [done|lia..|done|]. intros Hx Hi. by apply Hc.
Qed.

(** ** The closure walk: its steps, its invariants, and that it ends *)

Definition edge_of (visit : PendingVisit) (r : PendingReference) : GraphEdge :=
  {| source := pv_oid visit; target := pr_target r; expected_kind := pr_expected_kind r; role := pr_role r |}.
Definition child_of (visit : PendingVisit) (r : PendingReference) : PendingVisit :=
  {| pv_oid := pr_target r; pv_kind := pr_expected_kind r; pv_depth := pv_depth visit + 1;
     pv_referenced_by := Some (pv_oid visit); pv_role := Some (pr_role r); pv_constraint := pr_constraint r |}.

(** ** Reports only grow *)

Definition grows {A} (l l' more : list A) : Prop := l' = l ++ more.

Lemma record_constraint_issue_grows visit sem r :
  let r' := record_constraint_issue visit sem r in
  root r' = root r /\ nodes r' = nodes r /\ edges r' = edges r /\ truncated r' = truncated r /\
  exists more, issues r' = issues r ++ more.
Proof.
  unfold record_constraint_issue. repeat case_match; cbn; (split_and!; [done..|]); eauto;
    exists []; by rewrite app_nil_r.
Qed.

Lemma note_semantics_spec visit o w :
  let w' := note_semantics visit o w in
  w_stack w' = w_stack w /\ w_finished w' = w_finished w /\ w_active w' = w_active w /\
  w_reference_bytes w' = w_reference_bytes w /\ nodes (w_report w') = nodes (w_report w) /\
  edges (w_report w') = edges (w_report w) /\ truncated (w_report w') = truncated (w_report w) /\
  exists more, issues (w_report w') = issues (w_report w) ++ more.
Proof.
  unfold note_semantics. destruct (if bool_decide _ then _ else _) as [sem|]; cbn.
  - destruct (record_constraint_issue_grows visit (<[pv_oid visit := sem]> (w_semantics w)) (w_report w)) as (? & ? & ? & ? & ?).
    by split_and!.
  - split_and!; try done. exists []. by rewrite app_nil_r.
Qed.

Lemma scan_references_spec visit rs : forall r r' children,
  scan_references visit rs r = (r', children) ->
  root r' = root r /\ nodes r' = nodes r /\ truncated r' = truncated r /\ edges r' = edges r ++ map (edge_of visit) rs /\
  (length children <= length rs)%nat /\ Forall (fun c => exists x, x ∈ rs /\ c = child_of visit x) children /\
  exists more, issues r' = issues r ++ more /\ (more = [] -> children = map (child_of visit) rs).
Proof.
  induction rs as [|x rs IH]; intros r r' children H; cbn [scan_references] in H.
  - simplify_eq. cbn. rewrite app_nil_r. split_and!; try done. exists []. by rewrite app_nil_r.
  - assert (forall r1 issue, scan_references visit rs (with_issue issue r1) = (r', children) ->
      root r1 = root r -> nodes r1 = nodes r -> truncated r1 = truncated r -> edges r1 = edges r ++ [edge_of visit x] ->
      issues r1 = issues r ->
      root r' = root r /\ nodes r' = nodes r /\ truncated r' = truncated r /\ edges r' = edges r ++ map (edge_of visit) (x :: rs) /\
      (length children <= length (x :: rs))%nat /\ Forall (fun c => exists y, y ∈ x :: rs /\ c = child_of visit y) children /\
      exists more, issues r' = issues r ++ more /\ (more = [] -> children = map (child_of visit) (x :: rs))) as Hbad.
    { intros r1 issue (H1 & H2 & H3 & H4 & H5 & H6 & more & H7 & _)%IH E1 E2 E3 E4 E5. cbn in *.
      split_and!; [congruence..| |lia| |].
      - rewrite H4, E4, <- app_assoc. done.
      - eapply Forall_impl; [exact H6|]. intros c (y & ? & ?). exists y. split; [by right|done].
      - exists (issue :: more). rewrite H7, E5, <- app_assoc. done. }
    destruct (parse_oid (pr_target x)) as [k|].
    2: { eapply Hbad; [exact H|done..]. }
    case_bool_decide as Hk; cbn [negb] in H.
    2: { eapply Hbad; [exact H|done..]. }
    destruct (scan_references visit rs _) as [r1 cs] eqn:Hs. simplify_eq.
    apply IH in Hs as (H1 & H2 & H3 & H4 & H5 & H6 & more & H7 & H8). cbn in *.
    split_and!; [done..| |lia| |].
    + rewrite H4, <- app_assoc. done.
    + constructor; [by exists x; split; [left|]|]. eapply Forall_impl; [exact H6|]. intros c (y & ? & ?). exists y. by split; [right|].
    + exists more. split; [done|]. intros E. by rewrite H8.
Qed.

(** ** One step *)

Section Step.
Context {S : Type} `{ObjectStore S}.
Variable store : S.
Variable limits : GraphLimits.
Variable tombstones : TombstoneCatalog.

Definition budgets (w : Walk) : Prop :=
  len (edges (w_report w)) <= max_edges limits /\ 0 <= w_reference_bytes w <= MAX_GRAPH_REFERENCE_BYTES.

Definition fresh (visit : PendingVisit) (w : Walk) : Prop :=
  pv_oid visit ∉ w_active w /\ pv_oid visit ∉ w_finished w /\
  Z.of_nat (size (nodes (w_report w))) < max_objects limits.

Definition node_of (visit : PendingVisit) (state : ClosureNodeState) : ClosureNode :=
  {| node_oid := pv_oid visit; node_depth := pv_depth visit; node_state := state |}.

(** What an Enter item can lead to. *)
Inductive outcome (visit : PendingVisit) (w : Walk) : Control -> Prop :=
| out_skip w' more :
    w_stack w' = w_stack w -> w_finished w' = w_finished w -> w_active w' = w_active w ->
    w_reference_bytes w' = w_reference_bytes w -> nodes (w_report w') = nodes (w_report w) ->
    edges (w_report w') = edges (w_report w) -> issues (w_report w') = issues (w_report w) ++ more ->
    (truncated (w_report w) = true -> truncated (w_report w') = true) ->
    (more = [] -> (pv_oid visit ∈ w_active w /\ is_record_reference (pv_role visit) = true) \/
                  (pv_oid visit ∉ w_active w /\ pv_oid visit ∈ w_finished w)) ->
    outcome visit w (Continue w')
| out_break r more :
    truncated r = true -> issues r = issues (w_report w) ++ more -> outcome visit w (BreakWalk r)
| out_leaf w' state more :
    fresh visit w -> w_stack w' = Exit (pv_oid visit) :: w_stack w -> w_finished w' = w_finished w ->
    w_active w' = {[pv_oid visit]} ∪ w_active w -> w_reference_bytes w' = w_reference_bytes w ->
    nodes (w_report w') = <[pv_oid visit := node_of visit state]> (nodes (w_report w)) ->
    edges (w_report w') = edges (w_report w) -> issues (w_report w') = issues (w_report w) ++ more ->
    truncated (w_report w') = truncated (w_report w) ->
    (more = [] -> exists t, state = NodeTombstoned (pv_kind visit) t /\ get_verified store (pv_oid visit) = Ok None /\
       tombstone_for tombstones (pv_oid visit) = Some t /\ ~ (pv_depth visit = 0 /\ pv_kind visit = Commit)) ->
    outcome visit w (Continue w')
| out_object w' o rs children more :
    fresh visit w -> get_verified store (pv_oid visit) = Ok (Some o) -> ob_kind o = pv_kind visit ->
    w_stack w' = map Enter children ++ Exit (pv_oid visit) :: w_stack w -> w_finished w' = w_finished w ->
    w_active w' = {[pv_oid visit]} ∪ w_active w ->
    nodes (w_report w') = <[pv_oid visit := node_of visit (NodePresent (ob_kind o) (ob_byte_len o))]> (nodes (w_report w)) ->
    edges (w_report w') = edges (w_report w) ++ map (edge_of visit) rs ->
    issues (w_report w') = issues (w_report w) ++ more -> truncated (w_report w') = truncated (w_report w) ->
    (length children <= length rs)%nat -> Forall (fun c => exists x, x ∈ rs /\ c = child_of visit x) children ->
    (forall t, t ∈ map pr_target rs -> t ∈ object_targets o) ->
    (more = [] -> children = map (child_of visit) rs /\ map pr_target rs = object_targets o) ->
    budgets w' -> outcome visit w (Continue w').

Lemma expand_object_outcome visit o w0 w control :
  fresh visit w0 -> w = activate visit w0 -> budgets w0 ->
  get_verified store (pv_oid visit) = Ok (Some o) -> ob_kind o = pv_kind visit ->
  expand_object limits visit o w = Ok control -> outcome visit w0 control.
Proof.
  intros Hf -> [Hbe Hbr] Hg Hk He. unfold expand_object in He.
  destruct (note_semantics_spec visit o (activate visit w0)) as (E1 & E2 & E3 & E4 & E5 & E6 & E7 & more1 & E8).
  set (w1 := note_semantics visit o (activate visit w0)) in *.
  cbn [w_stack w_finished w_active w_reference_bytes w_report activate] in E1, E2, E3, E4, E5, E6, E7, E8.
  clearbody w1. cbn [w_report set_report w_reference_bytes w_stack with_node issues edges truncated nodes] in He.
  rewrite E4, E6 in He. apply bind_Ok in He as ([] & Hp & He). apply reject_if_Ok in Hp. bool_props.
  destruct (extract_references _ _ _ _ _) as [extraction found] eqn:Hx.
  pose proof (extract_references_spec o (issues (w_report w1)) (max_edges limits - len (edges (w_report w0)))
    (MAX_GRAPH_REFERENCE_BYTES - w_reference_bytes w0) MAX_GRAPH_REFERENCE_BYTES ltac:(lia) ltac:(lia)) as Hspec.
  rewrite Hx in Hspec. cbn [fst snd] in Hspec. destruct Hspec as ([more2 Hm2] & Hl & Hc & Hts & Hall).
  apply bind_Ok in He as (rb & Hrb%ok_or_Ok & He). unfold usize_checked_add in Hrb.
  destruct (_ <=? usize_max); [injection Hrb as <-|done].
  destruct (scan_references visit (references extraction) _) as [r' children] eqn:Hs.
  apply scan_references_spec in Hs as (_ & S2 & S3 & S4 & S5 & S6 & more3 & S7 & S8).
  cbn [nodes truncated edges issues] in *.
  assert (issues r' = issues (w_report w0) ++ (more1 ++ more2 ++ more3)) as Hiss.
  { by rewrite S7, Hm2, E8, <- !app_assoc. }
  destruct (exceeded extraction) as [l|] eqn:Hexc; injection He as <-.
  - eapply (out_break visit w0 _ (more1 ++ more2 ++ more3 ++ [_])); [done|]. cbn. by rewrite Hiss, <- !app_assoc.
  - eapply (out_object visit w0 _ o (references extraction) children (more1 ++ more2 ++ more3)); cbn; try done.
    + by rewrite E1.
    + by rewrite S2, E5.
    + by rewrite S3, E7.
    + intros Hn. apply app_eq_nil in Hn as [-> Hn]. apply app_eq_nil in Hn as [-> ->]. split; [by apply S8|].
      apply Hall; [done|]. by rewrite app_nil_r in Hm2.
    + split; cbn; [rewrite S4, len_app; unfold len at 2; rewrite length_map; fold (len (references extraction)); lia|lia].
Qed.

Lemma enter_step_outcome visit w control :
  budgets w -> enter_step store limits tombstones visit w = Ok control -> outcome visit w control.
Proof.
  intros Hb He. unfold enter_step in He. destruct (_ >? _) eqn:Hd.
  { simplify_eq. by eapply (out_skip visit w _ [_]). }
  case_bool_decide as Ha.
  { destruct (is_record_reference _) eqn:Hrr; simplify_eq; [|by eapply (out_skip visit w _ [_])].
    destruct (record_constraint_issue_grows visit (w_semantics w) (w_report w)) as (? & ? & ? & ? & more & ?).
    eapply (out_skip visit w _ more); cbn; try done; [congruence|by left]. }
  case_bool_decide as Hf.
  { simplify_eq. destruct (record_constraint_issue_grows visit (w_semantics w) (w_report w)) as (? & ? & ? & ? & more & ?).
    eapply (out_skip visit w _ more); cbn; try done; [congruence|by right]. }
  destruct (_ >=? _) eqn:Ho.
  { simplify_eq. by eapply (out_break visit w _ [_]). }
  bool_props. assert (fresh visit w) as Hfresh by done.
  unfold visit_object in He.
  destruct (get_verified store (pv_oid visit)) as [[o|]|err] eqn:Hg.
  - case_bool_decide as Hk; cbn [negb] in He; [by eapply expand_object_outcome|].
    simplify_eq. by eapply (out_leaf visit w _ _ [_]).
  - destruct (tombstone_for _ _) as [t|] eqn:Ht.
    + destruct (_ && _) eqn:Hroot; simplify_eq; [by eapply (out_leaf visit w _ _ [_])|].
      eapply (out_leaf visit w _ _ []); cbn; try done; [by rewrite app_nil_r|]. intros _. exists t. split_and!; try done.
      intros [E1 E2]. rewrite E1, E2, bool_decide_eq_true_2 in Hroot; done.
    + simplify_eq. by eapply (out_leaf visit w _ _ [_]).
  - destruct err; simplify_eq. by eapply (out_leaf visit w _ _ [_]).
Qed.

(** With the budgets kept, the only errors are those of the store. *)
Lemma enter_step_error visit w e :
  budgets w -> enter_step store limits tombstones visit w = Err e -> get_verified store (pv_oid visit) = Err e.
Proof.
  intros [Hbe Hbr] He. unfold enter_step in He. repeat (case_match; try done).
  unfold visit_object in He. destruct (get_verified store (pv_oid visit)) as [[o|]|err] eqn:Hg.
  - destruct (negb _); [done|]. exfalso. unfold expand_object in He.
    destruct (note_semantics_spec visit o (activate visit w)) as (_ & _ & _ & E1 & _ & E2 & _).
    set (w1 := note_semantics visit o (activate visit w)) in *.
    cbn [w_reference_bytes w_report activate] in E1, E2.
    clearbody w1. cbn [w_report set_report w_reference_bytes with_node edges] in He. rewrite E1, E2 in He.
    rewrite (proj2 (Z.ltb_ge _ _)), (proj2 (Z.ltb_ge _ _)) in He by lia. cbn [orb reject_if mbind result_bind] in He.
    destruct (extract_references _ _ _ _ _) as [extraction found] eqn:Hx.
    pose proof (extract_references_spec o (issues (with_node visit (NodePresent (ob_kind o) (ob_byte_len o)) (w_report w1)))
      (max_edges limits - len (edges (w_report w)))
      (MAX_GRAPH_REFERENCE_BYTES - w_reference_bytes w) MAX_GRAPH_REFERENCE_BYTES ltac:(lia) ltac:(lia)) as Hspec.
    rewrite Hx in Hspec. cbn [fst snd] in Hspec. destruct Hspec as (_ & _ & Hc & _).
    unfold usize_checked_add in He. rewrite (proj2 (Z.leb_le _ _)) in He by (unfold usize_max, MAX_GRAPH_REFERENCE_BYTES in *; lia).
    cbn [ok_or mbind result_bind] in He. destruct (scan_references _ _ _). by case_match.
  - repeat case_match; done.
  - by destruct err; simplify_eq.
Qed.
End Step.

(** ** The closure walk: invariants *)

Definition exits (stack : list WalkItem) : list str :=
  omap (M:=list) (fun i => match i with Exit oid => Some oid | Enter _ => None end) stack.
Definition enters (stack : list WalkItem) : list str :=
  omap (M:=list) (fun i => match i with Enter v => Some (pv_oid v) | Exit _ => None end) stack.

Lemma exits_enter_app cs stack : exits (map Enter cs ++ stack) = exits stack.
Proof. induction cs as [|c cs IH]; [done|]. exact IH. Qed.

Lemma enters_enter_app cs stack : enters (map Enter cs ++ stack) = map pv_oid cs ++ enters stack.
Proof. induction cs as [|c cs IH]; [done|]. cbn. by rewrite <- IH. Qed.

(** The walk with the popped stack. *)
Definition pop (stack : list WalkItem) (w : Walk) : Walk :=
  {| w_stack := stack; w_finished := w_finished w; w_active := w_active w; w_active_path := w_active_path w;
     w_semantics := w_semantics w; w_reference_bytes := w_reference_bytes w; w_report := w_report w |}.

(** An item of the stack above the exit mark of [u]. *)
Definition above (stack : list WalkItem) (u : str) (i : WalkItem) : Prop :=
  exists s1 s2, stack = s1 ++ Exit u :: s2 /\ i ∈ s1.

Lemma above_app l stack u i : above stack u i -> above (l ++ stack) u i.
Proof. intros (s1 & s2 & -> & Hi). exists (l ++ s1), s2. split; [by rewrite app_assoc|set_solver]. Qed.

Lemma above_enter v stack u i :
  above (Enter v :: stack) u i ->
  above stack u i \/ (i = Enter v /\ exists s1 s2, stack = s1 ++ Exit u :: s2).
Proof.
  intros ([|x s1] & s2 & E & Hi); [done|]. injection E as <- ->.
  apply elem_of_cons in Hi as [->|Hi]; [right; by eauto|left; by exists s1, s2].
Qed.

Lemma above_exit oid stack u i :
  NoDup (exits (Exit oid :: stack)) -> above (Exit oid :: stack) u i ->
  u <> oid /\ (i = Exit oid \/ above stack u i).
Proof.
  intros Hn ([|x s1] & s2 & E & Hi); [by apply not_elem_of_nil in Hi|]. injection E as <- ->.
  cbn in Hn. apply NoDup_cons in Hn as [Hn _]. split.
  - intros <-. apply Hn. apply list_elem_of_omap. exists (Exit u). set_solver.
  - apply elem_of_cons in Hi as [->|Hi]; [by left|right; by exists s1, s2].
Qed.

Definition before (l : list str) (x y : str) : Prop := exists i j, l !! i = Some x /\ l !! j = Some y /\ (i < j)%nat.

Lemma before_app l m x y : before l x y -> before (l ++ m) x y.
Proof. intros (i & j & Hi & Hj & Hij). exists i, j. by split_and!; [apply lookup_app_l_Some..|]. Qed.

Lemma before_snoc l x y : x ∈ l -> before (l ++ [y]) x y.
Proof.
  intros [i Hi]%list_elem_of_lookup. exists i, (length l). split_and!; [by apply lookup_app_l_Some|..].
  - rewrite lookup_app_r, Nat.sub_diag by lia. done.
  - by apply lookup_lt_Some in Hi.
Qed.

Lemma before_trans l x y z : NoDup l -> before l x y -> before l y z -> before l x z.
Proof.
  intros Hn (i & j & Hi & Hj & Hij) (j' & k & Hj' & Hk & Hjk). exists i, k. split_and!; [done..|].
  assert (j = j') as -> by (by eapply NoDup_lookup). lia.
Qed.

Lemma before_irrefl l x : NoDup l -> ~ before l x x.
Proof. intros Hn (i & j & Hi & Hj & Hij). assert (i = j) as -> by (by eapply NoDup_lookup). lia. Qed.

Definition structural (e : GraphEdge) : bool := negb (is_record_reference (Some (role e))).

Section Inv.
Context {S : Type} `{ObjectStore S}.
Variable store : S.
Variable limits : GraphLimits.
Variable tombstones : TombstoneCatalog.

Abbreviation outcome := (outcome store limits tombstones).
Abbreviation budgets := (budgets limits).

(** ** The invariant of every run *)

Record walk_inv (w : Walk) : Prop := {
  wi_budgets : budgets w;
  wi_size : (size (nodes (w_report w)) <= Z.to_nat (max_objects limits))%nat;
  wi_dom : dom (nodes (w_report w)) = w_active w ∪ w_finished w;
  wi_exits : forall oid, oid ∈ exits (w_stack w) <-> oid ∈ w_active w;
  wi_nodup : NoDup (exits (w_stack w));
  wi_disjoint : w_active w ## w_finished w;
}.

Lemma fresh_not_node visit w : walk_inv w -> fresh limits visit w -> nodes (w_report w) !! pv_oid visit = None.
Proof. intros Hw (Ha & Hf & _). apply not_elem_of_dom. rewrite (wi_dom w Hw). set_solver. Qed.

Lemma walk_inv_outcome visit w w' : walk_inv w -> outcome visit w (Continue w') -> walk_inv w'.
Proof.
  intros Hw Ho. pose proof (fresh_not_node visit w Hw) as Hfresh. destruct Hw as [Hb Hsz Hd Hx Hn Hdj].
  inversion Ho as [w1 more E1 E2 E3 E4 E5 E6 E7 E8 E9| |w1 st more F E1 E2 E3 E4 E5 E6 E7 E8 E9
                  |w1 o rs cs more F G K E1 E2 E3 E4 E5 E6 E7 E8 E9 E10 E11 E12]; subst w1.
  - split; rewrite ?E1, ?E2, ?E3, ?E5; try done. unfold budgets. by rewrite E4, E6.
  - specialize (Hfresh F). destruct F as (Fa & Ff & Fs). split; rewrite ?E1, ?E2, ?E3, ?E5.
    + unfold budgets. by rewrite E4, E6.
    + rewrite map_size_insert_None by done. lia.
    + rewrite dom_insert_L, Hd. set_solver.
    + intros oid. cbn. rewrite elem_of_cons, Hx. set_solver.
    + cbn. apply NoDup_cons. split; [|done]. by rewrite Hx.
    + set_solver.
  - specialize (Hfresh F). destruct F as (Fa & Ff & Fs). split; rewrite ?E1, ?E2, ?E3, ?E4; try done.
    + rewrite map_size_insert_None by done. lia.
    + rewrite dom_insert_L, Hd. set_solver.
    + intros oid. rewrite exits_enter_app. cbn. rewrite elem_of_cons, Hx. set_solver.
    + rewrite exits_enter_app. cbn. apply NoDup_cons. split; [|done]. by rewrite Hx.
    + set_solver.
Qed.

Lemma walk_inv_pop_enter v stack w : w_stack w = Enter v :: stack -> walk_inv w -> walk_inv (pop stack w).
Proof. intros E [Hb Hsz Hd Hx Hn Hdj]. rewrite E in *. split; try done. Qed.

Lemma walk_inv_exit oid stack w :
  w_stack w = Exit oid :: stack -> walk_inv w -> walk_inv (exit_step oid (pop stack w)) /\ oid ∈ w_active w.
Proof.
  intros E [Hb Hsz Hd Hx Hn Hdj]. rewrite E in *. cbn in Hn, Hx. apply NoDup_cons in Hn as [Hno Hn].
  assert (oid ∈ w_active w) as Ha by (apply Hx; by left). split; [|done]. split; cbn; try done.
  - rewrite Hd. apply set_eq. intros x. destruct (decide (x = oid)); set_solver.
  - intros x. specialize (Hx x). rewrite elem_of_cons in Hx. destruct (decide (x = oid)) as [->|]; set_solver.
  - intros x. destruct (decide (x = oid)); set_solver.
Qed.

(** ** The walk ends *)

Definition work (w : Walk) : nat :=
  length (w_stack w) + (Z.to_nat (max_objects limits) - size (nodes (w_report w))) +
  (Z.to_nat (max_edges limits) - length (edges (w_report w))).

Lemma work_outcome visit w w' : walk_inv w -> outcome visit w (Continue w') -> (work w' <= work w)%nat.
Proof.
  intros Hw Ho. pose proof (fresh_not_node visit w Hw) as Hfresh. unfold work.
  inversion Ho as [w1 more E1 E2 E3 E4 E5 E6 E7 E8 E9| |w1 st more F E1 E2 E3 E4 E5 E6 E7 E8 E9
                  |w1 o rs cs more F G K E1 E2 E3 E4 E5 E6 E7 E8 E9 E10 E11 E12]; subst w1.
  - by rewrite E1, E5, E6.
  - specialize (Hfresh F). destruct F as (Fa & Ff & Fs). rewrite E1, E5, E6, map_size_insert_None by done. cbn [length]. lia.
  - specialize (Hfresh F). destruct F as (Fa & Ff & Fs).
    destruct E12 as [Hbe _]. rewrite E5 in Hbe. unfold len in Hbe.
    rewrite E1, E4, E5, map_size_insert_None by done. rewrite !length_app, !length_map in *. cbn [length]. lia.
Qed.

Lemma walk_answers fuel : forall w e,
  walk_inv w -> (work w <= fuel)%nat -> walk store limits tombstones fuel w = Err e ->
  exists oid, get_verified store oid = Err e.
Proof.
  induction fuel as [|fuel IH]; intros w e Hw Hf Hwalk; unfold work in Hf; cbn [walk] in Hwalk;
    (destruct (w_stack w) as [|[visit|oid] stack] eqn:Es; [done|..]); cbn [length] in Hf; try lia.
  - apply bind_Err in Hwalk as [He|([w'|r] & He & Hwalk)]; [|..|done].
    + apply enter_step_error in He; [by eauto|]. by apply (wi_budgets _ (walk_inv_pop_enter _ _ _ Es Hw)).
    + assert (walk_inv (pop stack w)) as Hp by (by eapply walk_inv_pop_enter).
      apply enter_step_outcome in He; [|apply (wi_budgets _ Hp)].
      eapply IH; [by eapply walk_inv_outcome| |done].
      pose proof (work_outcome _ _ _ Hp He) as Hle. unfold work in *. cbn [w_stack w_report pop] in *. lia.
  - eapply IH; [by apply (walk_inv_exit oid stack w Es Hw)| |done]. unfold work. cbn [w_stack w_report exit_step pop] in *. lia.
Qed.

(** ** Issues are never withdrawn *)

Definition clean (r : ClosureReport) : Prop := issues r = [] /\ truncated r = false.

Lemma outcome_clean visit w w' : outcome visit w (Continue w') -> clean (w_report w') -> clean (w_report w).
Proof.
  intros Ho [Hi Ht].
  inversion Ho as [w1 more E1 E2 E3 E4 E5 E6 E7 E8 E9| |w1 st more F E1 E2 E3 E4 E5 E6 E7 E8 E9
                  |w1 o rs cs more F G K E1 E2 E3 E4 E5 E6 E7 E8 E9 E10 E11 E12]; subst w1.
  all: match goal with E : issues (w_report _) = _ ++ _ |- _ => rewrite E in Hi; apply app_eq_nil in Hi as [Hi _] end.
  - split; [done|]. destruct (truncated (w_report w)); [by rewrite E8 in Ht|done].
  - split; [done|]. congruence.
  - split; [done|]. congruence.
Qed.

Lemma walk_clean fuel : forall w r,
  walk_inv w -> walk store limits tombstones fuel w = Ok r -> clean r -> clean (w_report w).
Proof.
  induction fuel as [|fuel IH]; intros w r Hw Hwalk Hc; cbn [walk] in Hwalk;
    (destruct (w_stack w) as [|[visit|oid] stack] eqn:Es; [by simplify_eq|..]); try done.
  - apply bind_Ok in Hwalk as (control & He & Hwalk).
    assert (walk_inv (pop stack w)) as Hp by (by eapply walk_inv_pop_enter).
    apply enter_step_outcome in He; [|apply (wi_budgets _ Hp)]. destruct control as [w'|r'].
    + apply (outcome_clean visit (pop stack w) w' He). eapply IH; [by eapply walk_inv_outcome|done..].
    + simplify_eq. destruct Hc as [_ Hc]. inversion He; congruence.
  - apply (IH _ _ ltac:(by apply (walk_inv_exit oid stack w Es Hw)) Hwalk Hc).
Qed.

(** ** The invariant of a run without issues *)

(** One object refers to another. *)
Definition refers (a b : str) : Prop :=
  exists o, get_verified store a = Ok (Some o) /\ b ∈ object_targets o.

Definition described (oid : str) (n : ClosureNode) : Prop :=
  (exists o, get_verified store oid = Ok (Some o) /\ node_state n = NodePresent (ob_kind o) (ob_byte_len o)) \/
  (exists k t, get_verified store oid = Ok None /\ tombstone_for tombstones oid = Some t /\
     node_state n = NodeTombstoned k t).

(** [l] lists the finished objects so that structural references point backwards. *)
Definition ordered (l : list str) (w : Walk) : Prop :=
  NoDup l /\ (forall oid, oid ∈ l <-> oid ∈ w_finished w) /\
  (forall e, e ∈ edges (w_report w) -> source e ∈ dom (nodes (w_report w))) /\
  forall e, e ∈ edges (w_report w) -> structural e = true ->
    (source e ∈ l -> before l (target e) (source e)) /\
    (source e ∈ w_active w -> target e ∈ l \/
       (exists v, above (w_stack w) (source e) (Enter v) /\ pv_oid v = target e /\ is_record_reference (pv_role v) = false) \/
       above (w_stack w) (source e) (Exit (target e))).

Record clean_inv (root : str) (w : Walk) : Prop := {
  ci_described : forall oid n, nodes (w_report w) !! oid = Some n -> described oid n;
  ci_covered : forall oid t, oid ∈ dom (nodes (w_report w)) -> refers oid t ->
    t ∈ dom (nodes (w_report w)) \/ t ∈ enters (w_stack w);
  ci_reach : forall oid, oid ∈ dom (nodes (w_report w)) \/ oid ∈ enters (w_stack w) -> rtc refers root oid;
  ci_ordered : exists l, ordered l w;
  ci_edges : forall e, e ∈ edges (w_report w) -> refers (source e) (target e);
}.

Lemma clean_inv_skip root visit stack w w' :
  walk_inv w -> w_stack w = Enter visit :: stack -> clean_inv root w ->
  w_stack w' = stack -> w_finished w' = w_finished w -> w_active w' = w_active w ->
  nodes (w_report w') = nodes (w_report w) -> edges (w_report w') = edges (w_report w) ->
  (pv_oid visit ∈ w_active w /\ is_record_reference (pv_role visit) = true) \/ (pv_oid visit ∉ w_active w /\ pv_oid visit ∈ w_finished w) ->
  clean_inv root w'.
Proof.
  intros Hw Es [Hd Hc Hr (l & Hnl & Hl & Hsrc & Ho) Hed] E1 E2 E3 E4 E5 Hv.
  assert (pv_oid visit ∈ dom (nodes (w_report w))) as Hin by (rewrite (wi_dom w Hw); set_solver).
  split; rewrite ?E1, ?E2, ?E3, ?E4, ?E5; [done|..|exact Hed].
  - intros oid t Hoid Ht. destruct (Hc oid t Hoid Ht) as [|Ht']; [by left|]. rewrite Es in Ht'. cbn in Ht'.
    apply elem_of_cons in Ht' as [->|]; [by left|by right].
  - intros oid Hoid. apply Hr. rewrite Es. cbn. set_solver.
  - exists l. unfold ordered. rewrite E1, E2, E3, E4, E5. split_and!; [done..|].
    intros e He Hst. destruct (Ho e He Hst) as [H1 H2]. split; [done|]. intros Ha.
    destruct (H2 Ha) as [|[(v & Hab & Hvt & Hvr)|Hab]]; [by left|..]; rewrite Es in Hab; apply above_enter in Hab as [Hab|[E _]].
    + right. left. by exists v.
    + injection E as ->. left. apply Hl. destruct Hv as [[_ ?]|[_ ?]]; [congruence|by rewrite <- Hvt].
    + by right; right.
    + done.
Qed.

Lemma clean_inv_object root visit stack w w' n rs :
  walk_inv w -> w_stack w = Enter visit :: stack -> clean_inv root w ->
  pv_oid visit ∉ dom (nodes (w_report w)) ->
  w_stack w' = map Enter (map (child_of visit) rs) ++ Exit (pv_oid visit) :: stack -> w_finished w' = w_finished w ->
  w_active w' = {[pv_oid visit]} ∪ w_active w -> nodes (w_report w') = <[pv_oid visit := n]> (nodes (w_report w)) ->
  edges (w_report w') = edges (w_report w) ++ map (edge_of visit) rs -> described (pv_oid visit) n ->
  (forall t, refers (pv_oid visit) t <-> t ∈ map pr_target rs) -> clean_inv root w'.
Proof.
  intros Hw Es [Hd Hc Hr (l & Hnl & Hl & Hsrc & Ho) Hed] Hnew E1 E2 E3 E4 E5 Hn Hrs.
  assert (pv_oid visit ∉ w_active w /\ pv_oid visit ∉ w_finished w) as [Hna Hnf] by (rewrite (wi_dom w Hw) in Hnew; set_solver).
  assert (enters (w_stack w') = map pr_target rs ++ enters stack) as Hent.
  { rewrite E1, enters_enter_app, map_map. done. }
  assert (rtc refers root (pv_oid visit)) as Hroot by (apply Hr; right; rewrite Es; left).
  split; rewrite ?E4, ?Hent, ?dom_insert_L.
  - intros oid m [[<- <-]|[_ Hm]]%lookup_insert_Some; [done|by apply Hd].
  - intros oid t Hoid Ht. destruct (decide (oid = pv_oid visit)) as [->|Hne].
    + right. apply elem_of_app. left. by apply Hrs.
    + destruct (Hc oid t ltac:(set_solver) Ht) as [|Ht']; [left; set_solver|]. rewrite Es in Ht'. cbn in Ht'.
      apply elem_of_cons in Ht' as [->|]; [left; set_solver|right; apply elem_of_app; by right].
  - intros oid [Hoid|[Hoid|Hoid]%elem_of_app].
    + apply elem_of_union in Hoid as [Hs%elem_of_singleton|Hoid]; [by rewrite Hs|]. apply Hr. by left.
    + eapply rtc_r; [exact Hroot|]. by apply Hrs.
    + apply Hr. right. rewrite Es. by right.
  - exists l. unfold ordered. rewrite E1, E2, E3, E4, E5, dom_insert_L. split_and!; [done|done|..].
    + intros e [He|He]%elem_of_app; [apply Hsrc in He; set_solver|].
      apply list_elem_of_fmap in He as (x & -> & _). cbn. set_solver.
    + intros e [He|He]%elem_of_app Hst.
      * destruct (Ho e He Hst) as [H1 H2]. split; [done|]. intros Ha.
        assert (source e <> pv_oid visit) as Hne by (intros E; apply Hsrc in He; by rewrite E in He).
        destruct (H2 ltac:(set_solver)) as [|[(v & Hab & Hvt & Hvr)|Hab]]; [by left|..]; rewrite Es in Hab;
          apply above_enter in Hab as [Hab|[E (s1 & s2 & ->)]]; try done.
        -- right. left. exists v. split_and!; [|done..]. by apply above_app, (above_app [_]).
        -- injection E as ->. right. right. rewrite <- Hvt. apply above_app. by exists (Exit (pv_oid visit) :: s1), s2; split; [|left].
        -- right. right. by apply above_app, (above_app [_]).
      * apply list_elem_of_fmap in He as (x & -> & Hx). cbn [source target edge_of]. split.
        -- intros Hin%Hl. done.
        -- intros _. right. left. exists (child_of visit x). split_and!; [|done|].
           ++ exists (map Enter (map (child_of visit) rs)), stack. split; [done|]. rewrite map_map.
              apply list_elem_of_fmap. by exists x.
           ++ unfold structural in Hst. cbn in *. by apply negb_true_iff in Hst.
  - rewrite E5. intros e [He|He]%elem_of_app; [by apply Hed|]. apply list_elem_of_fmap in He as (x & -> & Hx).
    apply Hrs, list_elem_of_fmap. by exists x.
Qed.

Lemma clean_inv_exit root oid stack w :
  walk_inv w -> w_stack w = Exit oid :: stack -> clean_inv root w -> clean_inv root (exit_step oid (pop stack w)).
Proof.
  intros Hw Es [Hd Hc Hr (l & Hnl & Hl & Hsrc & Ho) Hed]. destruct (walk_inv_exit oid stack w Es Hw) as [_ Hact].
  pose proof (wi_nodup w Hw) as Hnd. pose proof (wi_disjoint w Hw) as Hdj. rewrite Es in *.
  split; cbn [exit_step pop w_report w_stack w_finished w_active]; [done|done|done| |done].
  exists (l ++ [oid]). split_and!; cbn [exit_step pop w_report w_stack w_finished w_active].
  - apply NoDup_app. split_and!; [done| |apply NoDup_singleton]. intros x Hx%Hl Hs%list_elem_of_singleton. subst. set_solver.
  - intros x. rewrite elem_of_app, Hl. set_solver.
  - done.
  - intros e He Hst. destruct (Ho e He Hst) as [H1 H2]. split.
    + intros [Hin|Hs%list_elem_of_singleton]%elem_of_app; [by apply before_app, H1|]. rewrite Hs in *.
      destruct (H2 Hact) as [Ht|[(v & Hab & _)|Hab]].
      * by apply before_snoc.
      * by apply above_exit in Hab as [? _].
      * by apply above_exit in Hab as [? _].
    + intros Ha. destruct (H2 ltac:(set_solver)) as [Ht|[(v & Hab & Hvt & Hvr)|Hab]].
      * left. set_solver.
      * apply above_exit in Hab as [_ [?|Hab]]; [done| |done]. right. left. by exists v.
      * apply above_exit in Hab as [_ [[= ->]|Hab]]; [left; set_solver|by right; right|done].
Qed.

Lemma clean_inv_outcome root visit stack w w' :
  walk_inv w -> w_stack w = Enter visit :: stack -> clean_inv root w ->
  outcome visit (pop stack w) (Continue w') -> clean (w_report w') -> clean_inv root w'.
Proof.
  intros Hw Es Hci Ho [Hi Ht].
  assert (fresh limits visit (pop stack w) -> pv_oid visit ∉ dom (nodes (w_report w))) as Hfr.
  { intros (Fa & Ff & _). cbn in *. rewrite (wi_dom w Hw). set_solver. }
  inversion Ho as [w1 more E1 E2 E3 E4 E5 E6 E7 E8 E9| |w1 st more F E1 E2 E3 E4 E5 E6 E7 E8 E9
                  |w1 o rs cs more F G K E1 E2 E3 E4 E5 E6 E7 E8 E9 E10 E11 E12]; subst w1; cbn [pop w_stack w_finished w_active w_report] in *.
  all: match goal with E : issues (w_report _) = _ ++ _ |- _ => rewrite E in Hi; apply app_eq_nil in Hi as [Hi ->] end.
  - eapply clean_inv_skip; eauto.
  - destruct E9 as (t & -> & Hg & Htomb & _); [done|]. eapply (clean_inv_object root visit stack w _ _ []); eauto.
    + by rewrite app_nil_r.
    + right. eauto.
    + intros t'. unfold refers. rewrite Hg. split; [by intros (? & ? & _)|intros Hx; by apply not_elem_of_nil in Hx].
  - destruct E11 as [-> Hts]; [done|]. eapply (clean_inv_object root visit stack w _ _ rs); eauto.
    + left. eauto.
    + intros t. unfold refers. rewrite G, Hts. split; [by intros (? & [= <-] & ?)|by eauto].
Qed.

Lemma walk_clean_inv fuel root : forall w r,
  walk_inv w -> clean_inv root w -> walk store limits tombstones fuel w = Ok r -> clean r ->
  exists w', w_stack w' = [] /\ w_report w' = r /\ walk_inv w' /\ clean_inv root w' /\
    forall oid n, nodes (w_report w) !! oid = Some n -> nodes r !! oid = Some n.
Proof.
  induction fuel as [|fuel IH]; intros w r Hw Hci Hwalk Hc; cbn [walk] in Hwalk;
    (destruct (w_stack w) as [|[visit|oid] stack] eqn:Es; [simplify_eq; by exists w|..]); try done.
  - apply bind_Ok in Hwalk as (control & He & Hwalk).
    assert (walk_inv (pop stack w)) as Hp by (by eapply walk_inv_pop_enter).
    apply enter_step_outcome in He; [|apply (wi_budgets _ Hp)]. destruct control as [w'|r'].
    + assert (walk_inv w') as Hw' by (by eapply walk_inv_outcome).
      pose proof (walk_clean _ _ _ Hw' Hwalk Hc) as Hclean.
      assert (clean_inv root w') as Hci' by exact (clean_inv_outcome root visit stack w w' Hw Es Hci He Hclean).
      destruct (IH w' r Hw' Hci' Hwalk Hc) as (wf & ? & ? & ? & ? & Hkeep).
      exists wf. split_and!; [done..|]. intros oid n Hn. apply Hkeep.
      pose proof (fresh_not_node visit _ Hp) as Hfr. cbn [pop w_report] in Hfr.
      inversion He as [w1 more E1 E2 E3 E4 E5| |w1 st more F E1 E2 E3 E4 E5|w1 o rs cs more F G K E1 E2 E3 E4]; subst w1.
      * by rewrite E5.
      * rewrite E5. apply lookup_insert_Some. right. split; [intros <-; by rewrite Hfr in Hn|done].
      * rewrite E4. apply lookup_insert_Some. right. split; [intros <-; by rewrite Hfr in Hn|done].
    + simplify_eq. destruct Hc as [_ Hc]. inversion He; congruence.
  - destruct (IH _ r ltac:(by apply (walk_inv_exit oid stack w Es Hw)) ltac:(by apply clean_inv_exit) Hwalk Hc) as (wf & Hwf).
    by exists wf.
Qed.
End Inv.
