(* ===== verification/ClosureProps.v ===== *)
(** * Object closures: the properties *)

From stdpp Require Import base list numbers strings gmap sets relations.
From Stdlib Require Import ZArith Lia.
From S2P Require Import Prelude Text Canonical Oid ObjectStore Closure ClosureFacts.

#[local] Open Scope Z_scope.

(** ** A small store for the witnesses: a Commit whose snapshot holds one Blob *)

Definition sample_oid_of (kind : ObjectKind) (digit : byte) : str := oid_text kind (replicate 64 digit).
Definition sample_commit_oid : str := sample_oid_of Commit 97.
Definition sample_tree_oid : str := sample_oid_of Tree 98.
Definition sample_blob_oid : str := sample_oid_of Blob 99.

Definition sample_objects : MemoryStore :=
  [{| ob_oid := sample_commit_oid; ob_kind := Commit; ob_byte_len := 300;
      ob_structured := Some (Obj [(lit "parents", Arr []); (lit "snapshot", Str sample_tree_oid);
                                  (lit "transition_refs", Arr []); (lit "bound_declaration_refs", Arr [])]) |};
   {| ob_oid := sample_tree_oid; ob_kind := Tree; ob_byte_len := 200;
      ob_structured := Some (Obj [(lit "entries", Obj [(lit "a.txt",
        Obj [(lit "entry_kind", Str (lit "blob")); (lit "oid", Str sample_blob_oid)])])]) |};
   {| ob_oid := sample_blob_oid; ob_kind := Blob; ob_byte_len := 7; ob_structured := None |}].

Definition sample_graph_limits : GraphLimits := {| max_objects := 10; max_edges := 10; max_depth := 5 |}.

Definition sample_report : ClosureReport :=
  match verify_closure_with_tombstones sample_objects sample_graph_limits empty_catalog sample_commit_oid with
  | Ok report => report
  | Err _ => empty_report []
  end.

Lemma sample_edges_nonnegative : 0 <= max_edges sample_graph_limits.
Proof. cbn. lia. Qed.

Lemma sample_verified :
  verify_closure_with_tombstones sample_objects sample_graph_limits empty_catalog sample_commit_oid = Ok sample_report.
Proof.
  assert (is_ok (verify_closure_with_tombstones sample_objects sample_graph_limits empty_catalog sample_commit_oid)
    = true) as Hok by (vm_cast_no_check (eq_refl true)).
  unfold sample_report. revert Hok.
  generalize (verify_closure_with_tombstones sample_objects sample_graph_limits empty_catalog sample_commit_oid).
  by intros [r|e].
Qed.

Lemma sample_complete : is_complete sample_report = true.
Proof. vm_cast_no_check (eq_refl true). Qed.

Section Props.
Context {S : Type} `{ObjectStore S}.
Variable store : S.
Variable limits : GraphLimits.
Variable tombstones : TombstoneCatalog.
Hypothesis Hedges : 0 <= max_edges limits.

Lemma start_walk_inv oid : walk_inv limits (start_walk oid).
Proof.
  split; cbn [start_walk w_stack w_active w_finished w_report empty_report nodes].
  - split; cbn [w_report edges empty_report w_reference_bytes start_walk]; [rewrite len_nil|unfold MAX_GRAPH_REFERENCE_BYTES]; lia.
  - rewrite map_size_empty. lia.
  - set_solver.
  - intros x. cbn. set_solver.
  - constructor.
  - set_solver.
Qed.

Lemma start_clean_inv oid : clean_inv store tombstones oid (start_walk oid).
Proof.
  split; cbn; [done|set_solver|intros x [?|?]; set_solver|..].
  - exists []. split_and!; cbn; [constructor|set_solver|set_solver|]. intros e He. by apply not_elem_of_nil in He.
  - intros e He. by apply not_elem_of_nil in He.
Qed.

Lemma is_complete_clean r : is_complete r = true <-> clean r.
Proof.
  unfold is_complete, clean. rewrite andb_true_iff, negb_true_iff, bool_decide_eq_true, length_zero_iff_nil. tauto.
Qed.

(** A complete verification is a run without issues whose first step found the root Commit. *)
Lemma verify_complete oid r :
  verify_closure_with_tombstones store limits tombstones oid = Ok r -> is_complete r = true ->
  exists w o, w_stack w = [] /\ w_report w = r /\ walk_inv limits w /\ clean_inv store tombstones oid w /\
    get_verified store oid = Ok (Some o) /\ ob_kind o = Commit /\
    nodes r !! oid = Some {| node_oid := oid; node_depth := 0; node_state := NodePresent Commit (ob_byte_len o) |}.
Proof.
  intros Hv Hc%is_complete_clean. unfold verify_closure_with_tombstones, core in Hv.
  apply bind_Ok in Hv as (k & _ & Hv). destruct (negb _); [simplify_eq; by destruct Hc|].
  unfold walk_fuel in Hv. rewrite Nat.add_1_r in Hv. cbn [walk start_walk w_stack] in Hv.
  apply bind_Ok in Hv as (control & He & Hv).
  assert (walk_inv limits (pop [] (start_walk oid))) as Hp by (eapply walk_inv_pop_enter; [done|apply start_walk_inv]).
  apply enter_step_outcome in He; [|apply (wi_budgets _ _ Hp)]. destruct control as [w'|r'].
  2: { simplify_eq. destruct Hc as [_ Hc]. inversion He; congruence. }
  assert (walk_inv limits w') as Hw' by (by eapply walk_inv_outcome).
  pose proof (walk_clean _ _ _ _ _ _ Hw' Hv Hc) as Hclean.
  assert (clean_inv store tombstones oid w') as Hci'.
  { exact (clean_inv_outcome store limits tombstones oid (root_visit oid) [] (start_walk oid) w'
      (start_walk_inv oid) eq_refl (start_clean_inv oid) He Hclean). }
  destruct (walk_clean_inv _ _ _ _ oid _ _ Hw' Hci' Hv Hc) as (wf & ? & ? & ? & ? & Hkeep).
  destruct Hclean as [Hi _].
  inversion He as [w1 more E1 E2 E3 E4 E5 E6 E7 E8 E9| |w1 st more F E1 E2 E3 E4 E5 E6 E7 E8 E9
                  |w1 o rs cs more F G K E1 E2 E3 E4 E5 E6 E7 E8 E9 E10 E11 E12]; subst w1.
  all: match goal with E : issues (w_report _) = _ ++ _ |- _ => rewrite E in Hi; apply app_eq_nil in Hi as [_ ->] end.
  - destruct E9 as [[Hx _]|[_ Hx]]; [done|..]; cbn in Hx; set_solver.
  - destruct E9 as (t & _ & _ & _ & Hno); [done|]. by destruct Hno.
  - exists wf, o. split_and!; try done. apply Hkeep. rewrite E4. cbn [pv_oid root_visit]. rewrite lookup_insert_eq. by rewrite K.
Qed.

(** A complete report is the reachable part of the store, and its edges are references. *)
Lemma complete_report oid r :
  verify_closure_with_tombstones store limits tombstones oid = Ok r -> is_complete r = true ->
  (forall x, x ∈ dom (nodes r) <-> rtc (refers store) oid x) /\
  (forall x n, nodes r !! x = Some n -> described store tombstones x n) /\
  (exists o, get_verified store oid = Ok (Some o) /\ ob_kind o = Commit) /\
  (forall e, e ∈ edges r -> refers store (source e) (target e)).
Proof.
  intros Hv Hc. destruct (verify_complete _ _ Hv Hc) as (w & o & Es & <- & Hw & Hci & Hg & Hk & Hr).
  split_and!; [|apply (ci_described _ _ _ _ Hci)|by exists o|apply (ci_edges _ _ _ _ Hci)].
  intros x. split; [intros Hx; apply (ci_reach _ _ _ _ Hci); by left|].
  assert (oid ∈ dom (nodes (w_report w))) as Hroot by (by apply elem_of_dom_2 in Hr).
  revert x. apply rtc_ind_r; [done|]. intros y z _ Hyz Hin.
  destruct (ci_covered _ _ _ _ Hci y z Hin Hyz) as [|Hz]; [done|]. rewrite Es in Hz. by apply not_elem_of_nil in Hz.
Qed.
End Props.

(** Closure verification always answers: for any store content, limits and catalog it
    returns a report, or an error that reading the root's identifier or one of the objects
    gave.  The internal [expect]s on its budgets never fail, and the limits bound the walk. *)
Lemma closure_answers {S : Type} `{ObjectStore S} (store : S) limits tombstones oid e :
  0 <= max_edges limits -> verify_closure_with_tombstones store limits tombstones oid = Err e ->
  (exists c, parse_oid oid = Err c /\ e = StoreCore c) \/ exists x, get_verified store x = Err e.
Proof.
  intros He Hv. unfold verify_closure_with_tombstones, core in Hv. apply bind_Err in Hv as [Hv|(k & _ & Hv)].
  { destruct (parse_oid oid) eqn:E; simplify_eq/=. left. by eexists. }
  destruct (negb _); [done|]. right. eapply walk_answers; [by apply start_walk_inv| |done].
  unfold work, walk_fuel. cbn. lia.
Qed.

(** C36: a complete report is the exact closure: its nodes are precisely the objects reachable
    from the root Commit by references, each one intact in the store with the recorded kind
    and length or accounted for by a Tombstone, and the root itself is a Commit in the store. *)
Theorem closure_exact {S : Type} `{ObjectStore S} (store : S) limits tombstones oid report :
  0 <= max_edges limits ->
  verify_closure_with_tombstones store limits tombstones oid = Ok report -> is_complete report = true ->
  (forall x, x ∈ dom (nodes report) <-> rtc (refers store) oid x) /\
  (forall x n, nodes report !! x = Some n -> described store tombstones x n) /\
  (exists o, get_verified store oid = Ok (Some o) /\ ob_kind o = Commit).
Proof.
  intros He Hv Hc. by destruct (complete_report _ _ _ He _ _ Hv Hc) as (? & ? & ? & _).
Qed.

Lemma closure_exact_witness :
  (forall x, x ∈ dom (nodes sample_report) <-> rtc (refers sample_objects) sample_commit_oid x) /\
  (forall x n, nodes sample_report !! x = Some n -> described sample_objects empty_catalog x n) /\
  (exists o, get_verified sample_objects sample_commit_oid = Ok (Some o) /\ ob_kind o = Commit).
Proof.
  apply (closure_exact sample_objects sample_graph_limits empty_catalog sample_commit_oid).
  - exact sample_edges_nonnegative.
  - exact sample_verified.
  - exact sample_complete.
Defined.

(** One step along a structural reference of a report. *)
Definition structural_step (report : ClosureReport) (a b : str) : Prop :=
  exists e, e ∈ edges report /\ structural e = true /\ source e = a /\ target e = b.

(** A complete report has no cycle of structural references (Commit parents, snapshots,
    transitions and declarations, Tree entries and supersedes links): only general references
    between Records may be cyclic. *)
Lemma closure_acyclic {S : Type} `{ObjectStore S} (store : S) limits tombstones oid report x :
  0 <= max_edges limits ->
  verify_closure_with_tombstones store limits tombstones oid = Ok report -> is_complete report = true ->
  ~ tc (structural_step report) x x.
Proof.
  intros He Hv Hc. destruct (verify_complete _ _ _ He _ _ Hv Hc) as (w & o & Es & <- & Hw & Hci & _).
  destruct (ci_ordered _ _ _ _ Hci) as (l & Hnl & Hl & Hsrc & Ho).
  assert (forall a, a ∈ w_active w -> False) as Hact.
  { intros a Ha. apply (wi_exits _ w Hw) in Ha. rewrite Es in Ha. by apply not_elem_of_nil in Ha. }
  assert (forall a b, structural_step (w_report w) a b -> before l b a) as Hstep.
  { intros a b (e & Hin & Hst & <- & <-). apply (Ho e Hin Hst). pose proof (Hsrc e Hin) as Hd.
    rewrite (wi_dom _ w Hw) in Hd. apply Hl. apply elem_of_union in Hd as [Hd|]; [by apply Hact in Hd|done]. }
  assert (forall a b, tc (structural_step (w_report w)) a b -> before l b a) as Htc.
  { induction 1 as [a b Hab|a b c Hab _ IH]; [by apply Hstep|]. by eapply before_trans, Hstep. }
  intros Hx%Htc. by apply before_irrefl in Hx.
Qed.

