(* ===== verification/Repository.v ===== *)
(** * The repository facade

    Models the part of crates/synapse-core/src/lib.rs that joins the object store
    and the Ref store: storing validated objects, validating a Commit as a Ref
    head, and moving a Ref.  A [Repository] holds any object store of the class
    [BoundedObjectStore]; the operations that write objects are those of the file
    store.  A [ValidationError] keeps its code.  Archives, integrity checks and
    repair are in Archive, Fsck and Repair. *)

From stdpp Require Import base list numbers strings gmap sets.
From Stdlib Require Import ZArith Lia.
From S2P Require Import Prelude Text RefStore Canonical Oid SchemaSemantics Registry ObjectStore FileStore.
From S2P Require Import Closure.

#[local] Open Scope Z_scope.

Inductive RepositoryError :=
| RepoReadOnly
| RepositoryNotFound
| RepoCore (e : CoreError)
| RepoStore (e : StoreError)
| RepoRefStore (e : RefStoreError)
| RepoIo
| RepoArchiveInvalid
| ArchiveDestinationExists
| RepositoryNotEmpty
| RepoJson
| RepoClock.

#[export] Instance RepositoryError_eq_dec : EqDecision RepositoryError.
Proof. solve_decision. Defined.

Abbreviation presult := (result RepositoryError).
Abbreviation repo_fail code := (Err (RepoCore (Core code))).

(** [?] on the errors of the components. *)
Definition of_core {A} (r : cresult A) : presult A := map_err RepoCore r.
Definition of_store {A} (r : sresult A) : presult A := map_err RepoStore r.
Definition of_refs {A} (r : rresult A) : presult A := map_err RepoRefStore r.

(** ** Error codes *)

(** [ErrorCode::as_str] *)
Definition code_as_str (code : ErrorCode) : str :=
  match code with
  | InvalidUtf8 => lit "invalid_utf8"
  | BomForbidden => lit "bom_forbidden"
  | DuplicateKey => lit "duplicate_key"
  | NumberTokenForbidden => lit "number_token_forbidden"
  | UnsafeInteger => lit "unsafe_integer"
  | LoneSurrogate => lit "lone_surrogate"
  | KeyNotNfc => lit "key_not_nfc"
  | IdentifierNotNfc => lit "identifier_not_nfc"
  | SetNotSorted => lit "set_not_sorted"
  | SetDuplicate => lit "set_duplicate"
  | TimestampInvalid => lit "timestamp_invalid"
  | IntervalInvalid => lit "interval_invalid"
  | FixedPointNotNormalized => lit "fixed_point_not_normalized"
  | PathSegmentInvalid => lit "path_segment_invalid"
  | ResourceLimit => lit "resource_limit"
  | SchemaInvalid => lit "schema_invalid"
  | ReferenceTypeMismatch => lit "reference_type_mismatch"
  | OidMismatch => lit "oid_mismatch"
  | ClosureMissing => lit "closure_missing"
  | AuthorizationDenied => lit "authorization_denied"
  | HumanGateRequired => lit "human_gate_required"
  | StaleBase => lit "stale_base"
  | Canonical.RefConflict => lit "ref_conflict"
  end.

(** [StoreError::code]; a panic has no code. *)
Definition store_code (error : StoreError) : option ErrorCode :=
  match error with
  | StoreReadOnly | StoreIo => None
  | StoreCore (Core code) => Some code
  | StoreCore _ => None
  | CorruptObject _ => Some OidMismatch
  | InvalidStoreLayout => Some SchemaInvalid
  end.

Definition store_error_code (error : StoreError) : str :=
  match store_code error with Some code => code_as_str code | None => lit "storage_error" end.

(** [RefStoreError::code] *)
Definition ref_store_code (error : RefStoreError) : str :=
  match error with
  | ReadOnly => lit "read_only"
  | InvalidRefName _ => lit "path_segment_invalid"
  | InvalidCommitOid _ => lit "oid_mismatch"
  | InvalidMetadata => lit "schema_invalid"
  | Validation code => code
  | RefStore.RefConflict _ _ _ | PreconditionFailed _ _ _ => lit "ref_conflict"
  | ArchiveNotEmpty | ArchiveInvalid => lit "archive_invalid"
  | Storage => lit "storage_error"
  end.

(** The end of the process, which is no value of the code. *)
Definition is_internal (error : RepositoryError) : bool :=
  match error with
  | RepoCore (Core _) | RepoStore (StoreCore (Core _)) => false
  | RepoCore _ | RepoStore (StoreCore _) => true
  | _ => false
  end.

(** [RepositoryError::code]; the end of the process has no code. *)
Definition repository_code (error : RepositoryError) : str :=
  match error with
  | RepoReadOnly => lit "read_only"
  | RepositoryNotFound => lit "repository_not_found"
  | RepoCore (Core code) => code_as_str code
  | RepoCore _ => []
  | RepoStore error => store_error_code error
  | RepoRefStore error => ref_store_code error
  | RepoIo | RepoClock => lit "storage_error"
  | RepoArchiveInvalid | ArchiveDestinationExists | RepoJson => lit "archive_invalid"
  | RepositoryNotEmpty => lit "archive_not_empty"
  end.

(** ** Heads *)

Definition is_resource_limit (issue : ClosureIssue) : bool :=
  match issue_kind issue with IssueResourceLimit _ => true | _ => false end.

Definition validate_closure_report (report : ClosureReport) : result str unit :=
  if is_complete report then Ok tt
  else if truncated report || existsb is_resource_limit (issues report) then Err (code_as_str ResourceLimit)
  else
    match issues report with
    | [] => Err (lit "resource_limit")
    | issue :: _ =>
      Err (match issue_kind issue with
           | IssueMissing => lit "closure_missing"
           | IssueCorrupt | IssueReadFailure => lit "oid_mismatch"
           | IssueTypeMismatch _ _ => lit "reference_type_mismatch"
           | IssueSemanticMismatch => lit "reference_type_mismatch"
           | IssueInvalidObject | IssueInvalidReference _ => lit "schema_invalid"
           | IssueCycle _ => lit "schema_invalid"
           | IssueResourceLimit _ => lit "resource_limit"
           end)
    end.

Record Repository (S : Type) := {
  objects : S;
  refs : SqliteRefStore;
  graph_limits : GraphLimits;
  tombstone_scan_limits : TombstoneScanLimits;
  repo_read_only : bool;
}.

Arguments objects {S}.
Arguments refs {S}.
Arguments graph_limits {S}.
Arguments tombstone_scan_limits {S}.
Arguments repo_read_only {S}.

Section Heads.
Context {S : Type} `{BoundedObjectStore S}.

Definition set_refs (r : Repository S) (store : SqliteRefStore) : Repository S :=
  {| objects := objects r; refs := store; graph_limits := graph_limits r;
     tombstone_scan_limits := tombstone_scan_limits r; repo_read_only := repo_read_only r |}.

Definition validate_prepared_head (verifier : PreparedClosureVerifier (S := S)) (head : str) : result str unit :=
  report ← map_err store_error_code (verify_uncached verifier head);
  validate_closure_report report.

Definition validate_prepared_head_with_work_limits (verifier : PreparedClosureVerifier (S := S)) (head : str)
    (objects edges : Z) : result str (Z * Z) :=
  report ← map_err store_error_code (verify_uncached_with_work_limits verifier head objects edges);
  validate_closure_report report;;
  Ok (Z.of_nat (size (nodes report)), len (Closure.edges report)).

Definition validate_head (store : S) (head : str) (limits : GraphLimits) (scan : TombstoneScanLimits) : result str unit :=
  map_err ref_store_code (validate_commit_oid head);;
  verifier ← map_err store_error_code (verifier_new store limits scan);
  validate_prepared_head verifier head.

Definition repo_ensure_writable (r : Repository S) : presult unit := reject_if (repo_read_only r) RepoReadOnly.

Definition head_validator (r : Repository S) (head : str) : result str unit :=
  validate_head (objects r) head (graph_limits r) (tombstone_scan_limits r).

(** The new repository and the answer of a compare-and-swap on its Refs. *)
Definition on_refs {A} (r : Repository S) (step : SqliteRefStore * rresult A) : Repository S * presult A :=
  (set_refs r (fst step), of_refs (snd step)).

Definition repo_update_ref (r : Repository S) (update : RefUpdate) : Repository S * presult ReflogEntry :=
  match repo_ensure_writable r with
  | Err e => (r, Err e)
  | Ok _ => on_refs r (compare_and_swap update (head_validator r) (refs r))
  end.

Definition update_ref_with_preconditions (r : Repository S) (update : RefUpdate) (preconditions : list RefPrecondition)
  : Repository S * presult ReflogEntry :=
  if bool_decide (preconditions = []) then repo_update_ref r update
  else
    match repo_ensure_writable r with
    | Err e => (r, Err e)
    | Ok _ =>
      on_refs r (compare_and_swap_with_preconditions_and_guard update preconditions (head_validator r)
                   (head_validator r (u_new_head update)) (refs r))
    end.
End Heads.

(** ** Storing objects *)

Section Put.
Variable sha256 : list byte -> list byte.
Variable nfc : list char -> list char.
Variable json_pointer : Json -> str -> option (list nat).
Variable registry : SchemaRegistry.

Abbreviation FileRepository := (Repository FileObjectStore).

Definition set_store (r : FileRepository) (store : FileObjectStore) : FileRepository :=
  {| objects := store; refs := refs r; graph_limits := graph_limits r;
     tombstone_scan_limits := tombstone_scan_limits r; repo_read_only := repo_read_only r |}.

Definition stored (r : FileRepository) (put : sresult (FileObjectStore * PutResult)) : presult (FileRepository * PutResult) :=
  '(store, result) ← of_store put;
  Ok (set_store r store, result).

Definition repo_put_blob (r : FileRepository) (reads : list (list byte)) : presult (FileRepository * PutResult) :=
  reject_if (repo_read_only r) RepoReadOnly;;
  stored r (put_blob sha256 (objects r) reads).

Definition repo_put_blob_claimed (r : FileRepository) (claimed_oid : str) (reads : list (list byte))
  : presult (FileRepository * PutResult) :=
  reject_if (repo_read_only r) RepoReadOnly;;
  stored r (put_blob_claimed sha256 (objects r) claimed_oid reads).

Definition put_object (r : FileRepository) (input : list byte) : presult (FileRepository * PutResult) :=
  reject_if (repo_read_only r) RepoReadOnly;;
  validated ← of_core (ingest nfc sha256 json_pointer registry input);
  stored r (put_verified_raw sha256 nfc (objects r) (vo_oid validated) (vo_canonical_bytes validated)).

Definition put_object_as (r : FileRepository) (expected : ObjectKind) (input : list byte)
  : presult (FileRepository * PutResult) :=
  reject_if (repo_read_only r) RepoReadOnly;;
  reject_if (negb (is_structured expected)) (RepoCore (Core SchemaInvalid));;
  validated ← of_core (ingest nfc sha256 json_pointer registry input);
  actual ← of_core (parse_oid (vo_oid validated));
  reject_if (negb (bool_decide (actual = expected))) (RepoCore (Core ReferenceTypeMismatch));;
  stored r (put_verified_raw sha256 nfc (objects r) (vo_oid validated) (vo_canonical_bytes validated)).

Definition put_object_claimed (r : FileRepository) (claimed_oid : str) (input : list byte)
  : presult (FileRepository * PutResult) :=
  reject_if (repo_read_only r) RepoReadOnly;;
  validated ← of_core (ingest_claimed nfc sha256 json_pointer registry claimed_oid input);
  stored r (put_verified_raw sha256 nfc (objects r) (vo_oid validated) (vo_canonical_bytes validated)).

Definition put_object_claimed_as (r : FileRepository) (expected : ObjectKind) (claimed_oid : str) (input : list byte)
  : presult (FileRepository * PutResult) :=
  reject_if (repo_read_only r) RepoReadOnly;;
  reject_if (negb (is_structured expected)) (RepoCore (Core SchemaInvalid));;
  kind ← of_core (parse_oid claimed_oid);
  reject_if (negb (bool_decide (kind = expected))) (RepoCore (Core ReferenceTypeMismatch));;
  validated ← of_core (ingest_claimed nfc sha256 json_pointer registry claimed_oid input);
  stored r (put_verified_raw sha256 nfc (objects r) (vo_oid validated) (vo_canonical_bytes validated)).
End Put.
