(* ===== verification/Archive.v ===== *)
(** * Repository archives

    The archive part of crates/synapse-core/src/lib.rs: limits, the manifest and its
    validation, bounded reading of archive files, the hashing writer, export and
    inspection, and restoring: the objects of an archive are put back one by one, then its
    Refs and reflog in one transaction; an error keeps the objects already stored.  An archive is a directory, a map from the names of its files to
    directory entries.  The JSON text of a manifest is what serde_json makes of it:
    the class [ManifestFormat].  Staging, renaming and fsync, and I/O errors of the
    operating system other than a missing file, are left out. *)

From stdpp Require Import base list numbers strings gmap sets.
From Stdlib Require Import ZArith Lia.
From S2P Require Import Prelude Sorting Text BTree RefStore Canonical Oid Registry ObjectStore FileStore Inventory Closure Repository.

#[local] Open Scope Z_scope.

Definition ARCHIVE_FORMAT : str := lit "synapsegit-core-archive-v0.1".
Definition MANIFEST_FILE : str := lit "manifest.json".
Definition MANIFEST_CHECKSUM_FILE : str := lit "manifest.sha256".
Definition MAX_MANIFEST_BYTES : Z := 64 * 1024 * 1024.
Definition DEFAULT_MAX_ARCHIVE_OBJECTS : Z := 100000.
Definition DEFAULT_MAX_ARCHIVE_OBJECT_BYTES : Z := 1024 * 1024 * 1024 * 1024.
Definition DEFAULT_MAX_ARCHIVE_HEAD_VALIDATION_NODES : Z := 1000000.
Definition DEFAULT_MAX_ARCHIVE_HEAD_VALIDATION_EDGES : Z := 10000000.

Record ArchiveExportLimits := {
  ex_max_objects : Z;
  ex_max_object_bytes : Z;
  ex_max_head_validation_nodes : Z;
  ex_max_head_validation_edges : Z;
  ex_tombstone_scan : TombstoneScanLimits;
  ex_ref_archive : RefArchiveExportLimits;
}.

Definition default_archive_export_limits : ArchiveExportLimits := {|
  ex_max_objects := DEFAULT_MAX_ARCHIVE_OBJECTS;
  ex_max_object_bytes := DEFAULT_MAX_ARCHIVE_OBJECT_BYTES;
  ex_max_head_validation_nodes := DEFAULT_MAX_ARCHIVE_HEAD_VALIDATION_NODES;
  ex_max_head_validation_edges := DEFAULT_MAX_ARCHIVE_HEAD_VALIDATION_EDGES;
  ex_tombstone_scan := default_tombstone_limits;
  ex_ref_archive := default_export_limits;
|}.

Record ArchiveRestoreLimits := {
  rs_max_objects : Z;
  rs_max_object_bytes : Z;
  rs_max_head_validation_nodes : Z;
  rs_max_head_validation_edges : Z;
  rs_tombstone_scan : TombstoneScanLimits;
  rs_ref_archive : RefArchiveExportLimits;
}.

Definition default_archive_restore_limits : ArchiveRestoreLimits := {|
  rs_max_objects := DEFAULT_MAX_ARCHIVE_OBJECTS;
  rs_max_object_bytes := DEFAULT_MAX_ARCHIVE_OBJECT_BYTES;
  rs_max_head_validation_nodes := DEFAULT_MAX_ARCHIVE_HEAD_VALIDATION_NODES;
  rs_max_head_validation_edges := DEFAULT_MAX_ARCHIVE_HEAD_VALIDATION_EDGES;
  rs_tombstone_scan := default_tombstone_limits;
  rs_ref_archive := default_export_limits;
|}.

(** [resource_limit] of the repository. *)
Definition repo_resource_limit : RepositoryError := RepoCore (Core ResourceLimit).

Definition validate_archive_restore_limits (limits : ArchiveRestoreLimits) : presult unit :=
  reject_if (rs_max_objects limits =? 0) repo_resource_limit;;
  reject_if (rs_max_head_validation_nodes limits =? 0) repo_resource_limit;;
  reject_if (rs_max_head_validation_edges limits =? 0) repo_resource_limit;;
  reject_if (max_record_objects (rs_tombstone_scan limits) =? 0) repo_resource_limit;;
  reject_if (max_refs (rs_ref_archive limits) =? 0) repo_resource_limit;;
  reject_if (max_reflog_entries (rs_ref_archive limits) =? 0) repo_resource_limit;;
  reject_if (rs_max_object_bytes limits =? 0) repo_resource_limit;;
  reject_if (max_record_bytes (rs_tombstone_scan limits) =? 0) repo_resource_limit;;
  reject_if (max_text_bytes (rs_ref_archive limits) =? 0) repo_resource_limit.

(** ** The manifest *)

Record ArchiveObject := { ao_oid : str; ao_path : str; ao_byte_length : Z; ao_sha256 : str }.
Record ArchiveRef := { ar_name : str; ar_head : str; ar_updated_event_id : Z }.
Record ArchiveReflog := {
  al_id : Z;
  al_ref_name : str;
  al_old_head : option str;
  al_new_head : str;
  al_occurred_at_unix_nanos : Z;
  al_actor : option str;
  al_message : option str;
}.
Record ArchiveManifest := {
  am_format : str;
  am_objects : list ArchiveObject;
  am_refs : list ArchiveRef;
  am_reflog : list ArchiveReflog;
}.

(** [serde_json::to_writer_pretty] and [serde_json::from_slice] on manifests. *)
Class ManifestFormat := {
  to_writer_pretty : ArchiveManifest -> list byte;
  from_slice : list byte -> option ArchiveManifest;
}.
(** What serde derives: the text of a manifest reads back. *)
Class ManifestFormatLaws `{ManifestFormat} := {
  from_slice_to_writer manifest : from_slice (to_writer_pretty manifest) = Some manifest;
}.

Definition archive_ref (record : RefRecord) : ArchiveRef :=
  {| ar_name := name record; ar_head := head record; ar_updated_event_id := updated_event_id record |}.
Definition archive_reflog (entry : ReflogEntry) : ArchiveReflog :=
  {| al_id := id entry; al_ref_name := ref_name entry; al_old_head := old_head entry; al_new_head := new_head entry;
     al_occurred_at_unix_nanos := occurred_at_unix_nanos entry; al_actor := actor entry; al_message := message entry |}.

Definition from_parts (object_rows : list ArchiveObject) (archive : RefArchive) : ArchiveManifest :=
  {| am_format := ARCHIVE_FORMAT; am_objects := object_rows;
     am_refs := map archive_ref (RefStore.refs (snapshot archive)); am_reflog := map archive_reflog (reflog archive) |}.

Definition into_ref_archive (manifest : ArchiveManifest) : RefArchive :=
  {| snapshot := {| RefStore.refs := map (fun r => {| name := ar_name r; head := ar_head r; updated_event_id := ar_updated_event_id r |})
                                       (am_refs manifest) |};
     reflog := map (fun e => {| id := al_id e; ref_name := al_ref_name e; old_head := al_old_head e; new_head := al_new_head e;
                                occurred_at_unix_nanos := al_occurred_at_unix_nanos e; actor := al_actor e;
                                message := al_message e |}) (am_reflog manifest) |}.

(** [format!("objects/{index:08}")] *)
Definition archive_object_path (index : Z) : str := lit "objects/" ++ show_padded 8 index.

(** [previous >= oid] on strings. *)
Definition str_ge (a b : str) : bool := match lex_compare a b with Lt => false | _ => true end.

(** The loop of [ArchiveManifest::validate]; the sets are the identifiers and paths seen. *)
Fixpoint validate_objects (objects : list ArchiveObject) (index : Z) (oids paths : gset str) (previous_oid : option str)
  : presult unit :=
  match objects with
  | [] => Ok tt
  | object :: objects =>
    kind ← map_err (fun _ => RepoArchiveInvalid) (parse_oid (ao_oid object));
    reject_if (negb (str_eqb (ao_path object) (archive_object_path index))) RepoArchiveInvalid;;
    reject_if (bool_decide (ao_oid object ∈ oids) || bool_decide (ao_path object ∈ paths)) RepoArchiveInvalid;;
    reject_if (match previous_oid with Some previous => str_ge previous (ao_oid object) | None => false end) RepoArchiveInvalid;;
    reject_if (negb (lower_hex_name 64 (ao_sha256 object))) RepoArchiveInvalid;;
    reject_if (bool_decide (kind = Blob) && negb (str_eqb (oid_digest (ao_oid object)) (ao_sha256 object))) RepoArchiveInvalid;;
    validate_objects objects (index + 1) ({[ao_oid object]} ∪ oids) ({[ao_path object]} ∪ paths) (Some (ao_oid object))
  end.

Definition validate_manifest (manifest : ArchiveManifest) : presult unit :=
  reject_if (negb (str_eqb (am_format manifest) ARCHIVE_FORMAT)) RepoArchiveInvalid;;
  validate_objects (am_objects manifest) 0 ∅ ∅ None.

Definition add_archive_restore_text_bytes (total additional limit : Z) : presult Z :=
  next ← ok_or (usize_checked_add total additional) repo_resource_limit;
  reject_if (next >? limit) repo_resource_limit;;
  Ok next.

Fixpoint add_object_bytes (objects : list ArchiveObject) (total limit : Z) : presult Z :=
  match objects with
  | [] => Ok total
  | object :: objects =>
    total ← ok_or (usize_checked_add total (ao_byte_length object)) repo_resource_limit;
    reject_if (total >? limit) repo_resource_limit;;
    add_object_bytes objects total limit
  end.

Fixpoint add_ref_text (archived : list ArchiveRef) (total limit : Z) : presult Z :=
  match archived with
  | [] => Ok total
  | reference :: archived =>
    total ← add_archive_restore_text_bytes total (len (ar_name reference)) limit;
    add_ref_text archived total limit
  end.

Fixpoint add_reflog_text (events : list ArchiveReflog) (total limit : Z) : presult Z :=
  match events with
  | [] => Ok total
  | event :: events =>
    with_actor ← ok_or (usize_checked_add (len (al_ref_name event)) (opt_len (al_actor event))) repo_resource_limit;
    text ← ok_or (usize_checked_add with_actor (opt_len (al_message event))) repo_resource_limit;
    total ← add_archive_restore_text_bytes total text limit;
    add_reflog_text events total limit
  end.

Definition validate_restore_limits (manifest : ArchiveManifest) (limits : ArchiveRestoreLimits) : presult unit :=
  reject_if (len (am_objects manifest) >? rs_max_objects limits) repo_resource_limit;;
  add_object_bytes (am_objects manifest) 0 (rs_max_object_bytes limits);;
  reject_if (len (am_refs manifest) >? max_refs (rs_ref_archive limits)) repo_resource_limit;;
  reject_if (len (am_reflog manifest) >? max_reflog_entries (rs_ref_archive limits)) repo_resource_limit;;
  text_bytes ← add_ref_text (am_refs manifest) 0 (max_text_bytes (rs_ref_archive limits));
  add_reflog_text (am_reflog manifest) text_bytes (max_text_bytes (rs_ref_archive limits));;
  Ok tt.

(** ** Archive files *)

Definition ArchiveDirectory : Type := gmap str FileEntry.

(** The content of the file that is opened. *)
Definition open_regular_limited (archive : ArchiveDirectory) (path : str) (limit : Z) : presult (list byte) :=
  entry ← ok_or (archive !! path) RepoIo;
  match entry with
  | OtherFile => Err RepoArchiveInvalid
  | RegularFile content => reject_if (len content >? limit) RepoArchiveInvalid;; Ok content
  end.

(** [Read::take(limit)], without counting to [limit]. *)
Definition read_take (limit : Z) (content : list byte) : list byte :=
  if len content <=? limit then content else take (Z.to_nat limit) content.

Definition read_limited (archive : ArchiveDirectory) (path : str) (limit : Z) : presult (list byte) :=
  content ← open_regular_limited archive path limit;
  let bytes := read_take (usize_saturating_add limit 1) content in
  reject_if (len bytes >? limit) RepoArchiveInvalid;;
  Ok bytes.

Section Archive.
Variable sha256 : list byte -> list byte.
Variable nfc : list char -> list char.
Context {format : ManifestFormat}.

#[local] Instance store_here : ObjectStore FileObjectStore := file_object_store sha256 nfc.
#[local] Instance bounded_store_here : BoundedObjectStore FileObjectStore := file_bounded_store sha256 nfc.

Definition checksum_ok (checksum_bytes : list byte) : bool :=
  (len checksum_bytes =? 65) && bool_decide (checksum_bytes !! 64%nat = Some 10) &&
  forallb is_lower_hex (take 64 checksum_bytes).

Definition read_verified_manifest (archive : ArchiveDirectory) : presult (ArchiveManifest * str) :=
  manifest_bytes ← read_limited archive MANIFEST_FILE MAX_MANIFEST_BYTES;
  checksum_bytes ← read_limited archive MANIFEST_CHECKSUM_FILE 256;
  reject_if (negb (checksum_ok checksum_bytes)) RepoArchiveInvalid;;
  let claimed_checksum := take 64 checksum_bytes in
  let expected_checksum := sha256_hex sha256 manifest_bytes in
  reject_if (negb (str_eqb claimed_checksum expected_checksum)) RepoArchiveInvalid;;
  manifest ← ok_or (from_slice manifest_bytes) RepoJson;
  validate_manifest manifest;;
  Ok (manifest, expected_checksum).

(** ** The hashing writer *)

Record HashingWriter := { hw_file : list byte; hw_max_byte_length : Z; hw_limit_exceeded : bool }.

Definition hashing_writer_new (max_byte_length : Z) : HashingWriter :=
  {| hw_file := []; hw_max_byte_length := max_byte_length; hw_limit_exceeded := false |}.

(** [Write::write]: the number of bytes taken, or an error.  The file takes what it is given. *)
Definition hashing_write (w : HashingWriter) (buffer : list byte) : HashingWriter * option Z :=
  let remaining := hw_max_byte_length w - len (hw_file w) in
  if (remaining =? 0) && negb (bool_decide (buffer = [])) then
    ({| hw_file := hw_file w; hw_max_byte_length := hw_max_byte_length w; hw_limit_exceeded := true |}, None)
  else
    let allowed := Z.min remaining (len buffer) in
    ({| hw_file := hw_file w ++ take (Z.to_nat allowed) buffer; hw_max_byte_length := hw_max_byte_length w;
        hw_limit_exceeded := hw_limit_exceeded w |}, Some allowed).

(** [Write::write_all]: [write] until nothing is left; a [write] of nothing is an error. *)
Fixpoint hashing_write_loop (fuel : nat) (w : HashingWriter) (buffer : list byte) : HashingWriter * bool :=
  match buffer with
  | [] => (w, true)
  | _ =>
    match fuel with
    | O => (w, false)
    | Datatypes.S fuel =>
      match hashing_write w buffer with
      | (w, None) => (w, false)
      | (w, Some count) => if count =? 0 then (w, false) else hashing_write_loop fuel w (drop (Z.to_nat count) buffer)
      end
    end
  end.
Definition hashing_write_all (w : HashingWriter) (buffer : list byte) : HashingWriter * bool :=
  hashing_write_loop (Datatypes.S (length buffer)) w buffer.

(** The length and digest that [finish] returns. *)
Definition hashing_finish (w : HashingWriter) : Z * str := (len (hw_file w), sha256_hex sha256 (hw_file w)).

(** ** Export *)

Definition archive_store_error (error : StoreError) : RepositoryError :=
  match store_code error with
  | None => RepoStore error
  | Some code => if bool_decide (code = ResourceLimit) then RepoStore error else RepoArchiveInvalid
  end.

Definition archive_head_error (code : str) : RepositoryError :=
  if str_eqb code (code_as_str ResourceLimit) then repo_resource_limit else RepoArchiveInvalid.

Definition validate_archive_head (verifier : PreparedClosureVerifier (S := FileObjectStore)) (head : str)
    (max_objects max_edges : Z) : presult (Z * Z) :=
  report ← map_err archive_store_error (verify_uncached_with_work_limits verifier head max_objects max_edges);
  map_err archive_head_error (validate_closure_report report);;
  Ok (Z.of_nat (size (nodes report)), len (Closure.edges report)).

(** The two loops over the heads of Refs and of the reflog, on one list. *)
Fixpoint validate_distinct_heads (verifier : PreparedClosureVerifier (S := FileObjectStore)) (limits : ArchiveExportLimits)
    (heads : list str) (validated_heads : gset str) (validated_nodes validated_edges : Z) : presult unit :=
  match heads with
  | [] => Ok tt
  | head :: heads =>
    if bool_decide (head ∈ validated_heads)
    then validate_distinct_heads verifier limits heads validated_heads validated_nodes validated_edges
    else
      let remaining_nodes := ex_max_head_validation_nodes limits - validated_nodes in
      let remaining_edges := ex_max_head_validation_edges limits - validated_edges in
      reject_if ((remaining_nodes <? 0) || (remaining_edges <? 0)) (RepoCore Panic);;
      '(nodes, edges) ← validate_archive_head verifier head remaining_nodes remaining_edges;
      validated_nodes ← ok_or (usize_checked_add validated_nodes nodes) repo_resource_limit;
      validated_edges ← ok_or (usize_checked_add validated_edges edges) repo_resource_limit;
      validate_distinct_heads verifier limits heads ({[head]} ∪ validated_heads) validated_nodes validated_edges
  end.

(** One object: the file written, and its row. *)
Definition export_object (s : FileObjectStore) (oid : str) (index remaining : Z) : presult (list byte * ArchiveObject) :=
  let '(writer, copy_result) := copy_verified_to sha256 nfc hashing_write_all s oid (hashing_writer_new remaining) in
  reject_if (hw_limit_exceeded writer) repo_resource_limit;;
  info ← of_store copy_result;
  info ← ok_or info RepoArchiveInvalid;
  let '(byte_length, digest) := hashing_finish writer in
  reject_if (negb (byte_length =? snd info)) RepoArchiveInvalid;;
  Ok (hw_file writer,
      {| ao_oid := oid; ao_path := archive_object_path index; ao_byte_length := byte_length; ao_sha256 := digest |}).

Fixpoint export_objects (s : FileObjectStore) (limits : ArchiveExportLimits) (oids : list str) (index : Z)
    (directory : ArchiveDirectory) (object_rows : list ArchiveObject) (total_object_bytes : Z)
  : presult (ArchiveDirectory * list ArchiveObject) :=
  match oids with
  | [] => Ok (directory, object_rows)
  | oid :: oids =>
    let remaining_object_bytes := ex_max_object_bytes limits - total_object_bytes in
    reject_if (remaining_object_bytes <? 0) (RepoCore Panic);;
    '(bytes, row) ← export_object s oid index remaining_object_bytes;
    total_object_bytes ← ok_or (usize_checked_add total_object_bytes (ao_byte_length row)) repo_resource_limit;
    export_objects s limits oids (index + 1) (<[ao_path row := RegularFile bytes]> directory) (object_rows ++ [row])
      total_object_bytes
  end.

(** The manifest and its checksum, written into the directory. *)
Definition write_manifest (directory : ArchiveDirectory) (manifest : ArchiveManifest) : presult ArchiveDirectory :=
  let '(writer, written) := hashing_write_all (hashing_writer_new MAX_MANIFEST_BYTES) (to_writer_pretty manifest) in
  reject_if (hw_limit_exceeded writer) repo_resource_limit;;
  reject_if (negb written) RepoIo;;
  let '(_, manifest_sha256) := hashing_finish writer in
  Ok (<[MANIFEST_CHECKSUM_FILE := RegularFile (manifest_sha256 ++ [10])]>
        (<[MANIFEST_FILE := RegularFile (hw_file writer)]> directory)).

(** [destination] is what is at the destination path; [now] is the clock's distance from the
    epoch, which names the staging directory. *)
Definition export_archive_with_limits (r : Repository FileObjectStore) (destination : option Node) (now : option Z)
    (limits : ArchiveExportLimits) : presult ArchiveDirectory :=
  reject_if (bool_decide (is_Some destination)) ArchiveDestinationExists;;
  reject_if (ex_max_objects limits =? 0) repo_resource_limit;;
  reject_if (ex_max_object_bytes limits =? 0) repo_resource_limit;;
  reject_if (ex_max_head_validation_nodes limits =? 0) repo_resource_limit;;
  reject_if (ex_max_head_validation_edges limits =? 0) repo_resource_limit;;
  archived ← of_refs (RefStore.export_archive_with_limits (ex_ref_archive limits) (tables (refs r)));
  verifier ← map_err archive_store_error (verifier_new (objects r) (graph_limits r) (ex_tombstone_scan limits));
  validate_distinct_heads verifier limits
    (map head (RefStore.refs (snapshot archived)) ++ map new_head (reflog archived)) ∅ 0 0;;
  ok_or now RepoClock;;
  oids ← of_store (list_oids_limited (objects r) (ex_max_objects limits));
  '(directory, object_rows) ← export_objects (objects r) limits oids 0 ∅ [] 0;
  write_manifest directory (from_parts object_rows archived).

Definition export_archive (r : Repository FileObjectStore) (destination : option Node) (now : option Z)
  : presult ArchiveDirectory :=
  export_archive_with_limits r destination now default_archive_export_limits.

(** ** Inspection *)

Record ArchiveInspectionLimits := { in_max_objects : Z; in_max_object_bytes : Z }.

Definition default_inspection_limits : ArchiveInspectionLimits :=
  {| in_max_objects := DEFAULT_MAX_ARCHIVE_OBJECTS; in_max_object_bytes := DEFAULT_MAX_ARCHIVE_OBJECT_BYTES |}.

Record ArchiveInspectionBudget := {
  b_max_objects : Z;
  b_max_object_bytes : Z;
  remaining_objects : Z;
  remaining_object_bytes : Z;
}.

Definition budget_new (limits : ArchiveInspectionLimits) : ArchiveInspectionBudget :=
  {| b_max_objects := in_max_objects limits; b_max_object_bytes := in_max_object_bytes limits;
     remaining_objects := in_max_objects limits; remaining_object_bytes := in_max_object_bytes limits |}.

Definition reserve (budget : ArchiveInspectionBudget) (object_count object_bytes : Z) : presult ArchiveInspectionBudget :=
  reject_if (object_count >? remaining_objects budget) repo_resource_limit;;
  reject_if (object_bytes >? remaining_object_bytes budget) repo_resource_limit;;
  Ok {| b_max_objects := b_max_objects budget; b_max_object_bytes := b_max_object_bytes budget;
        remaining_objects := remaining_objects budget - object_count;
        remaining_object_bytes := remaining_object_bytes budget - object_bytes |}.

(** [ArchiveInspectionState::Valid] *)
Record ArchiveInspection := { manifest_checksum : str }.

Definition inspection_object_error (error : RepositoryError) : RepositoryError :=
  match error with RepoArchiveInvalid | RepoIo => RepoArchiveInvalid | other => other end.

Fixpoint declared_bytes (objects : list ArchiveObject) (total : Z) : presult Z :=
  match objects with
  | [] => Ok total
  | object :: objects =>
    total ← ok_or (usize_checked_add total (ao_byte_length object)) repo_resource_limit;
    declared_bytes objects total
  end.

Fixpoint inspect_objects (archive : ArchiveDirectory) (objects : list ArchiveObject) : presult unit :=
  match objects with
  | [] => Ok tt
  | object :: objects =>
    content ← map_err inspection_object_error (open_regular_limited archive (ao_path object) (ao_byte_length object));
    reject_if (negb (len content =? ao_byte_length object)) RepoArchiveInvalid;;
    inspect_objects archive objects
  end.

(** What happens before the budget is charged: the manifest and the declared bytes. *)
Definition inspect_manifest (archive : ArchiveDirectory) (budget : ArchiveInspectionBudget)
  : presult (ArchiveManifest * str * Z) :=
  reject_if (b_max_objects budget =? 0) repo_resource_limit;;
  reject_if (b_max_object_bytes budget =? 0) repo_resource_limit;;
  '(manifest, checksum) ← read_verified_manifest archive;
  reject_if (len (am_objects manifest) >? remaining_objects budget) repo_resource_limit;;
  total_object_bytes ← declared_bytes (am_objects manifest) 0;
  Ok (manifest, checksum, total_object_bytes).

(** The budget afterwards, and the answer. *)
Definition inspect_archive_with_budget (archive : ArchiveDirectory) (budget : ArchiveInspectionBudget)
  : ArchiveInspectionBudget * presult ArchiveInspection :=
  match ('(manifest, checksum, total_object_bytes) ← inspect_manifest archive budget;
         budget ← reserve budget (len (am_objects manifest)) total_object_bytes;
         Ok (manifest, checksum, budget)) with
  | Err e => (budget, Err e)
  | Ok (manifest, checksum, budget) =>
    (budget, inspect_objects archive (am_objects manifest);; Ok {| manifest_checksum := checksum |})
  end.

Definition inspect_archive_with_limits (archive : ArchiveDirectory) (limits : ArchiveInspectionLimits)
  : presult ArchiveInspection :=
  snd (inspect_archive_with_budget archive (budget_new limits)).
End Archive.

(** ** New repository directories *)

Definition directory_is_empty_for_repository (entries : list DirEntry) : bool :=
  forallb (fun entry =>
    is_os_metadata_file_name (fst entry) &&
    (negb (starts_with (lit "._") (fst entry)) || str_eqb (fst entry) (lit "._.DS_Store")) &&
    is_file (snd entry)) entries.

(** ** Restoring *)

Section Restore.
Variable sha256 : list byte -> list byte.
Variable nfc : list char -> list char.
Variable json_pointer : Json -> str -> option (list nat).
Variable registry : SchemaRegistry.
Context {format : ManifestFormat}.

#[local] Instance restore_store : ObjectStore FileObjectStore := file_object_store sha256 nfc.
#[local] Instance restore_bounded_store : BoundedObjectStore FileObjectStore := file_bounded_store sha256 nfc.

Abbreviation FileRepository := (Repository FileObjectStore).

Definition object_limit (s : FileObjectStore) (oid : str) : presult Z :=
  kind ← of_core (parse_oid oid);
  Ok (if bool_decide (kind = Blob) then max_blob_bytes (limits s) else max_input_bytes (structured (limits s))).

(** A Blob is checked by its identifier while it is stored; its length is checked before and after. *)
Definition restore_blob (s : FileObjectStore) (archive : ArchiveDirectory) (object : ArchiveObject)
  : FileObjectStore * presult unit :=
  match (limit ← object_limit s (ao_oid object);
         content ← open_regular_limited archive (ao_path object) limit;
         reject_if (negb (len content =? ao_byte_length object)) RepoArchiveInvalid;;
         of_store (put_blob_claimed sha256 s (ao_oid object)
                     (read_buffers (length content) (Z.to_nat (io_buffer_bytes (limits s))) content))) with
  | Err e => (s, Err e)
  | Ok (s, result) => (s, reject_if (negb (put_byte_len result =? ao_byte_length object)) RepoArchiveInvalid)
  end.

Definition restore_structured (s : FileObjectStore) (archive : ArchiveDirectory) (object : ArchiveObject)
  : presult FileObjectStore :=
  limit ← object_limit s (ao_oid object);
  bytes ← read_limited archive (ao_path object) limit;
  reject_if (negb (len bytes =? ao_byte_length object)) RepoArchiveInvalid;;
  reject_if (negb (str_eqb (sha256_hex sha256 bytes) (ao_sha256 object))) RepoArchiveInvalid;;
  validated ← of_core (ingest_claimed nfc sha256 json_pointer registry (ao_oid object) bytes);
  reject_if (negb (str_eqb (vo_canonical_bytes validated) bytes)) RepoArchiveInvalid;;
  '(s, _) ← of_store (put_verified_raw sha256 nfc s (ao_oid object) bytes);
  Ok s.

Definition restore_object (s : FileObjectStore) (archive : ArchiveDirectory) (object : ArchiveObject)
  : FileObjectStore * presult unit :=
  match of_core (parse_oid (ao_oid object)) with
  | Err e => (s, Err e)
  | Ok kind =>
    if bool_decide (kind = Blob) then restore_blob s archive object
    else match restore_structured s archive object with Ok s => (s, Ok tt) | Err e => (s, Err e) end
  end.

Fixpoint restore_objects (s : FileObjectStore) (archive : ArchiveDirectory) (objects : list ArchiveObject)
  : FileObjectStore * presult unit :=
  match objects with
  | [] => (s, Ok tt)
  | object :: objects =>
    match restore_object s archive object with
    | (s, Ok _) => restore_objects s archive objects
    | (s, Err e) => (s, Err e)
    end
  end.

(** The validator's closure: work is charged to the limits across heads. *)
Fixpoint validate_restored_heads (verifier : PreparedClosureVerifier (S := FileObjectStore)) (limits : ArchiveRestoreLimits)
    (heads : list str) (validated_nodes validated_edges : Z) : rresult unit :=
  match heads with
  | [] => Ok tt
  | head :: heads =>
    let remaining_nodes := rs_max_head_validation_nodes limits - validated_nodes in
    let remaining_edges := rs_max_head_validation_edges limits - validated_edges in
    reject_if ((remaining_nodes <? 0) || (remaining_edges <? 0)) (Validation (lit "panic"));;
    '(nodes, edges) ←
      map_err Validation (validate_prepared_head_with_work_limits verifier head remaining_nodes remaining_edges);
    validated_nodes ← ok_or (usize_checked_add validated_nodes nodes) (Validation (lit "resource_limit"));
    validated_edges ← ok_or (usize_checked_add validated_edges edges) (Validation (lit "resource_limit"));
    validate_restored_heads verifier limits heads validated_nodes validated_edges
  end.

(** The verifier is made for the first head. *)
Definition validate_archived_heads (r : FileRepository) (limits : ArchiveRestoreLimits) (heads : list str) : rresult unit :=
  match heads with
  | [] => Ok tt
  | _ =>
    verifier ← map_err (fun e => Validation (store_error_code e))
                 (verifier_new (objects r) (graph_limits r) (rs_tombstone_scan limits));
    validate_restored_heads verifier limits heads 0 0
  end.

(** What is checked before the first object is stored: the destination and the manifest. *)
Definition restore_preflight (r : FileRepository) (archive : ArchiveDirectory) (limits : ArchiveRestoreLimits)
  : presult ArchiveManifest :=
  repo_ensure_writable r;;
  reject_if (negb (is_empty (tables (refs r)))) RepositoryNotEmpty;;
  existing_oids ← of_store (list_oids_limited (objects r) (rs_max_objects limits));
  '(manifest, _) ← read_verified_manifest sha256 archive;
  validate_restore_limits manifest limits;;
  let archived_oids := list_to_set (C := gset str) (map ao_oid (am_objects manifest)) in
  reject_if (existsb (fun oid => negb (bool_decide (oid ∈ archived_oids))) existing_oids) RepositoryNotEmpty;;
  Ok manifest.

(** The Refs, after the complete inventory has been compared with the manifest. *)
Definition restore_refs (r : FileRepository) (manifest : ArchiveManifest) (limits : ArchiveRestoreLimits)
  : FileRepository * presult unit :=
  match (stored ← of_store (list_oids_limited (objects r) (rs_max_objects limits));
         reject_if (negb (bool_decide (stored = map ao_oid (am_objects manifest)))) RepoArchiveInvalid) with
  | Err e => (r, Err e)
  | Ok _ => on_refs r (restore_archive_with (into_ref_archive manifest) (validate_archived_heads r limits) (refs r))
  end.

Definition restore_from_bounded (r : FileRepository) (archive : ArchiveDirectory) (limits : ArchiveRestoreLimits)
  : FileRepository * presult unit :=
  match restore_preflight r archive limits with
  | Err e => (r, Err e)
  | Ok manifest =>
    match restore_objects (objects r) archive (am_objects manifest) with
    | (store, Err e) => (set_store r store, Err e)
    | (store, Ok _) => restore_refs (set_store r store) manifest limits
    end
  end.

Definition restore_from (r : FileRepository) (archive : ArchiveDirectory) : FileRepository * presult unit :=
  restore_from_bounded r archive
    {| rs_max_objects := DEFAULT_MAX_ARCHIVE_OBJECTS; rs_max_object_bytes := DEFAULT_MAX_ARCHIVE_OBJECT_BYTES;
       rs_max_head_validation_nodes := DEFAULT_MAX_ARCHIVE_HEAD_VALIDATION_NODES;
       rs_max_head_validation_edges := DEFAULT_MAX_ARCHIVE_HEAD_VALIDATION_EDGES;
       rs_tombstone_scan := tombstone_scan_limits r; rs_ref_archive := default_export_limits |}.

Definition restore_from_with_limits (r : FileRepository) (archive : ArchiveDirectory) (limits : ArchiveRestoreLimits)
  : FileRepository * presult unit :=
  match validate_archive_restore_limits limits with
  | Err e => (r, Err e)
  | Ok _ => restore_from_bounded r archive limits
  end.
End Restore.
