(* ===== verification/Fsck.v ===== *)
(** * Integrity checks

    [fsck_with_tombstones] of crates/synapse-cas/src/graph.rs and the checks of
    crates/synapse-core/src/lib.rs: every stored object is verified, then the closure
    of every root.  The objects are read through a memo, which the scan threads
    along; the closures read through the memo that the scan leaves. *)

From stdpp Require Import base list numbers strings gmap sets.
From Stdlib Require Import ZArith Lia.
From S2P Require Import Prelude Sorting Text BTree RefStore Canonical Oid ObjectStore FileStore Inventory Closure Repository Archive.

#[local] Open Scope Z_scope.

Inductive FsckIssueKind :=
| FsckInvalidStorePath (path : InvalidStorePath)
| FsckMissingScannedObject (oid : str)
| FsckCorruptObject (oid : str)
| FsckReadFailure (oid : str)
| FsckClosure (issue : ClosureIssue).

Record FsckReport := {
  objects_seen : Z;
  objects_verified : Z;
  closures : list ClosureReport;
  fsck_issues : list FsckIssueKind;
}.

Definition is_clean (report : FsckReport) : bool :=
  bool_decide (fsck_issues report = []) && forallb is_complete (closures report).

Definition DEFAULT_MAX_FSCK_REF_ROOTS : Z := 100000.
Definition DEFAULT_MAX_FSCK_OBJECTS : Z := 100000.
Definition DEFAULT_MAX_FSCK_OBJECT_BYTES : Z := 1024 * 1024 * 1024 * 1024.
Definition DEFAULT_MAX_FSCK_CLOSURE_NODES : Z := 1000000.
Definition DEFAULT_MAX_FSCK_CLOSURE_EDGES : Z := 10000000.

Record FsckLimits := {
  fl_max_ref_roots : Z;
  fl_max_objects : Z;
  fl_max_object_bytes : Z;
  fl_max_closure_nodes : Z;
  fl_max_closure_edges : Z;
  fl_tombstone_scan : TombstoneScanLimits;
}.

Definition default_fsck_limits : FsckLimits := {|
  fl_max_ref_roots := DEFAULT_MAX_FSCK_REF_ROOTS;
  fl_max_objects := DEFAULT_MAX_FSCK_OBJECTS;
  fl_max_object_bytes := DEFAULT_MAX_FSCK_OBJECT_BYTES;
  fl_max_closure_nodes := DEFAULT_MAX_FSCK_CLOSURE_NODES;
  fl_max_closure_edges := DEFAULT_MAX_FSCK_CLOSURE_EDGES;
  fl_tombstone_scan := default_tombstone_limits;
|}.

Definition validate_fsck_limits (limits : FsckLimits) : presult unit :=
  reject_if (fl_max_ref_roots limits =? 0) repo_resource_limit;;
  reject_if (fl_max_objects limits =? 0) repo_resource_limit;;
  reject_if (fl_max_closure_nodes limits =? 0) repo_resource_limit;;
  reject_if (fl_max_closure_edges limits =? 0) repo_resource_limit;;
  reject_if (max_record_objects (fl_tombstone_scan limits) =? 0) repo_resource_limit;;
  reject_if (fl_max_object_bytes limits =? 0) repo_resource_limit;;
  reject_if (max_record_bytes (fl_tombstone_scan limits) =? 0) repo_resource_limit.

Definition checked_add_fsck_work (current additional limit : Z) : presult Z :=
  total ← ok_or (usize_checked_add current additional) repo_resource_limit;
  reject_if (total >? limit) repo_resource_limit;;
  Ok total.

Section Fsck.
Variable sha256 : list byte -> list byte.
Variable nfc : list char -> list char.

#[local] Instance store_here : ObjectStore FileObjectStore := file_object_store sha256 nfc.
#[local] Instance bounded_store_here : BoundedObjectStore FileObjectStore := file_bounded_store sha256 nfc.

Abbreviation FileMemo := (VerifiedObjectMemo FileObjectStore).

(** The state of the scan of the inventory. *)
Record Scan := {
  sc_memo : FileMemo;
  sc_verified : Z;
  sc_commits : list str;
  sc_issues : list FsckIssueKind;
  sc_tombstones : TombstoneCatalog;
}.

Definition scan_memo (m : FileMemo) (s : Scan) : Scan :=
  {| sc_memo := m; sc_verified := sc_verified s; sc_commits := sc_commits s; sc_issues := sc_issues s;
     sc_tombstones := sc_tombstones s |}.
Definition scan_issue (issue : FsckIssueKind) (s : Scan) : Scan :=
  {| sc_memo := sc_memo s; sc_verified := sc_verified s; sc_commits := sc_commits s; sc_issues := sc_issues s ++ [issue];
     sc_tombstones := sc_tombstones s |}.
Definition scan_commit (oid : str) (s : Scan) : Scan :=
  {| sc_memo := sc_memo s; sc_verified := sc_verified s; sc_commits := sc_commits s ++ [oid]; sc_issues := sc_issues s;
     sc_tombstones := sc_tombstones s |}.
Definition scan_object (tombstones : TombstoneCatalog) (s : Scan) : Scan :=
  {| sc_memo := sc_memo s; sc_verified := sc_verified s + 1; sc_commits := sc_commits s; sc_issues := sc_issues s;
     sc_tombstones := tombstones |}.

(** One object of the inventory. *)
Definition fsck_object (oid : str) (s : Scan) : sresult Scan :=
  let s := if bool_decide (parse_oid oid = Ok Commit) then scan_commit oid s else s in
  let '(memo, answer) := memo_get_verified (sc_memo s) oid in
  let s := scan_memo memo s in
  match answer with
  | Ok (Some object) =>
    tombstones ← catalog_observe object (sc_tombstones s);
    Ok (scan_object tombstones s)
  | Ok None => Ok (scan_issue (FsckMissingScannedObject oid) s)
  | Err (CorruptObject _) => Ok (scan_issue (FsckCorruptObject oid) s)
  | Err _ => Ok (scan_issue (FsckReadFailure oid) s)
  end.

Fixpoint fsck_objects (oids : list str) (s : Scan) : sresult Scan :=
  match oids with
  | [] => Ok s
  | oid :: oids => s ← fsck_object oid s; fsck_objects oids s
  end.

(** The loop over the roots: the closures, and the issues they add. *)
Fixpoint fsck_closures (verifier : PreparedClosureVerifier (S := FileMemo)) (roots : list str)
    (closures : list ClosureReport) (issues : list FsckIssueKind) : sresult (list ClosureReport * list FsckIssueKind) :=
  match roots with
  | [] => Ok (closures, issues)
  | root :: roots =>
    '(closure, verifier) ← verifier_verify verifier root;
    fsck_closures verifier roots (closures ++ [closure]) (issues ++ map FsckClosure (Closure.issues closure))
  end.

Definition fsck_with_tombstones (store : FileObjectStore) (roots : list str) (limits : GraphLimits)
  : sresult (FsckReport * TombstoneCatalog) :=
  inventory ← inventory store;
  scan ← fsck_objects (inv_oids inventory)
           {| sc_memo := memo_new store; sc_verified := 0; sc_commits := [];
              sc_issues := map FsckInvalidStorePath (inv_invalid_paths inventory); sc_tombstones := empty_catalog |};
  let graph_roots := if bool_decide (roots = []) then sc_commits scan else roots in
  '(closures, issues) ←
    fsck_closures (from_catalog (sc_memo scan) limits (sc_tombstones scan)) graph_roots [] (sc_issues scan);
  Ok ({| objects_seen := len (inv_oids inventory); objects_verified := sc_verified scan; closures := closures;
         fsck_issues := issues |}, sc_tombstones scan).

Definition fsck (store : FileObjectStore) (roots : list str) (limits : GraphLimits) : sresult FsckReport :=
  '(report, _) ← fsck_with_tombstones store roots limits;
  Ok report.

Definition fsck_all (store : FileObjectStore) (limits : GraphLimits) : sresult FsckReport := fsck store [] limits.

(** [Repository::fsck] *)
Definition repo_fsck (r : Repository FileObjectStore) : presult FsckReport :=
  of_store (fsck (objects r) (map head (RefStore.refs (load_snapshot (tables (refs r))))) (graph_limits r)).

(** ** The limited check *)

(** One object: as [fsck_object], with the bytes of the inventory charged. *)
Definition limited_object (store : FileObjectStore) (limits : FsckLimits) (oid : str) (s : Scan) (bytes : Z)
  : presult (Scan * Z) :=
  kind ← of_core (parse_oid oid);
  let s := if bool_decide (kind = Commit) then scan_commit oid s else s in
  byte_len ← of_store (stored_object_byte_len store oid);
  match byte_len with
  | None => Ok (scan_issue (FsckMissingScannedObject oid) s, bytes)
  | Some byte_len =>
    bytes ← ok_or (usize_checked_add bytes byte_len) repo_resource_limit;
    reject_if (bytes >? fl_max_object_bytes limits) repo_resource_limit;;
    let '(memo, answer) := memo_get_verified (sc_memo s) oid in
    let s := scan_memo memo s in
    match answer with
    | Ok (Some object) =>
      reject_if (negb (ob_byte_len object =? byte_len)) RepoIo;;
      ok_or (usize_checked_add (sc_verified s) 1) repo_resource_limit;;
      tombstones ← of_store (catalog_observe object (sc_tombstones s));
      Ok (scan_object tombstones s, bytes)
    | Ok None => Ok (scan_issue (FsckMissingScannedObject oid) s, bytes)
    | Err (CorruptObject _) => Ok (scan_issue (FsckCorruptObject oid) s, bytes)
    | Err error =>
      if bool_decide (store_code error = Some ResourceLimit) then Err (RepoStore error)
      else Ok (scan_issue (FsckReadFailure oid) s, bytes)
    end
  end.

Fixpoint limited_objects (store : FileObjectStore) (limits : FsckLimits) (oids : list str) (s : Scan) (bytes : Z)
  : presult Scan :=
  match oids with
  | [] => Ok s
  | oid :: oids => '(s, bytes) ← limited_object store limits oid s bytes; limited_objects store limits oids s bytes
  end.

Definition exceeds_work (closure : ClosureReport) : bool :=
  truncated closure || existsb is_resource_limit (Closure.issues closure).

(** The loop over the distinct roots: the work so far, the closures and the issues. *)
Fixpoint limited_closures (verifier : PreparedClosureVerifier (S := FileMemo)) (limits : FsckLimits) (roots : list str)
    (distinct_heads : gset str) (closure_nodes closure_edges : Z) (closures : list ClosureReport)
    (issues : list FsckIssueKind) : presult (list ClosureReport * list FsckIssueKind) :=
  match roots with
  | [] => Ok (closures, issues)
  | head :: roots =>
    if bool_decide (head ∈ distinct_heads)
    then limited_closures verifier limits roots distinct_heads closure_nodes closure_edges closures issues
    else
      let remaining_nodes := fl_max_closure_nodes limits - closure_nodes in
      let remaining_edges := fl_max_closure_edges limits - closure_edges in
      reject_if (remaining_nodes <? 0) repo_resource_limit;;
      reject_if (remaining_edges <? 0) repo_resource_limit;;
      closure ← of_store (verify_uncached_with_work_limits verifier head remaining_nodes remaining_edges);
      reject_if (exceeds_work closure) repo_resource_limit;;
      closure_nodes ← checked_add_fsck_work closure_nodes (Z.of_nat (size (nodes closure))) (fl_max_closure_nodes limits);
      closure_edges ← checked_add_fsck_work closure_edges (len (Closure.edges closure)) (fl_max_closure_edges limits);
      limited_closures verifier limits roots ({[head]} ∪ distinct_heads) closure_nodes closure_edges
        (closures ++ [closure]) (issues ++ map FsckClosure (Closure.issues closure))
  end.

Definition fsck_snapshot_through (r : Repository FileObjectStore) (memo : FileMemo) (snapshot : RefSnapshot)
    (limits : FsckLimits) : presult FsckReport :=
  validate_fsck_limits limits;;
  reject_if (len (RefStore.refs snapshot) >? fl_max_ref_roots limits) repo_resource_limit;;
  oids ← of_store (list_oids_limited (objects r) (fl_max_objects limits));
  catalog ← of_store (catalog_bounded (fl_tombstone_scan limits));
  scan ← limited_objects (objects r) limits oids
           {| sc_memo := memo; sc_verified := 0; sc_commits := []; sc_issues := []; sc_tombstones := catalog |} 0;
  let roots := if bool_decide (RefStore.refs snapshot = []) then sc_commits scan else map head (RefStore.refs snapshot) in
  '(closures, issues) ←
    limited_closures (from_catalog (sc_memo scan) (graph_limits r) (sc_tombstones scan)) limits roots ∅ 0 0 []
      (sc_issues scan);
  Ok {| objects_seen := len oids; objects_verified := sc_verified scan; closures := closures; fsck_issues := issues |}.

Definition fsck_snapshot_with_limits (r : Repository FileObjectStore) (snapshot : RefSnapshot) (limits : FsckLimits)
  : presult FsckReport :=
  fsck_snapshot_through r (memo_new (objects r)) snapshot limits.

Definition fsck_with_limits (r : Repository FileObjectStore) (limits : FsckLimits) : presult FsckReport :=
  validate_fsck_limits limits;;
  snapshot ← of_refs (snapshot_limited (fl_max_ref_roots limits) (tables (refs r)));
  fsck_snapshot_with_limits r snapshot limits.

(** ** What a repair could restore *)

(** The distinct heads of Refs and reflog, in order. *)
Definition damage_roots (t : Tables) : list str :=
  sort_dedup (map head (RefStore.refs (load_snapshot t)) ++ map new_head (load_reflog None t)).

Definition damaged_oid (issue : FsckIssueKind) : option str :=
  match issue with
  | FsckCorruptObject oid | FsckMissingScannedObject oid => Some oid
  | FsckClosure closure =>
    match Closure.issue_kind closure with
    | IssueMissing | IssueCorrupt => Some (issue_oid closure)
    | _ => None
    end
  | _ => None
  end.

(** The report, the damaged objects, and those a Tombstone accounts for. *)
Definition inspect_damage (r : Repository FileObjectStore) : presult (FsckReport * list str * list str) :=
  '(report, tombstones) ← of_store (fsck_with_tombstones (objects r) (damage_roots (tables (refs r))) (graph_limits r));
  let oids := omap damaged_oid (fsck_issues report) in
  let is_tombstoned oid := bool_decide (is_Some (tombstone_for tombstones oid)) in
  Ok (report, sort_dedup (List.filter (fun oid => negb (is_tombstoned oid)) oids),
      sort_dedup (List.filter is_tombstoned oids)).
End Fsck.
