(* ===== verification/Repair.v ===== *)
(** * Repairing a repository from copies

    [repair_objects] of crates/synapse-core/src/lib.rs: the sources, the Records they
    hold, and the rounds that put objects back until nothing more can be restored.
    A source is what stands at its path: a file, an export archive, a repository
    (of which only the object store is read), or something else. *)

From stdpp Require Import base list numbers strings gmap sets.
From Stdlib Require Import ZArith Lia.
From S2P Require Import Prelude Sorting Text BTree RefStore Canonical Oid ObjectStore FileStore Inventory Closure Repository Archive.
From S2P Require Import Fsck.

#[local] Open Scope Z_scope.

(** What a path given to [repair_objects] resolves to. *)
Inductive SourceNode :=
| SourceFile (content : list byte)
| SourceDirectory (files : ArchiveDirectory) (cas : option (sresult FileObjectStore))
| SourceAbsent.

Inductive RepairSource :=
| RepairArchive (path : str) (files : ArchiveDirectory) (archived : list (str * str))
| RepairRepository (path : str) (copies : FileObjectStore)
| RepairBlob (path : str) (content : list byte) (blob : str).

Record RepairedObject := { rp_oid : str; rp_source : str; rp_quarantined : option str }.
Record ErasedInSource := { er_oid : str; er_tombstone : str; er_source : str }.

Record RepairReport := {
  repaired : list RepairedObject;
  remaining : list str;
  undecided : list str;
  held_back : list str;
  set_aside : list (str * str);
  erased_in_source : list ErasedInSource;
  mismatched : list (str * str);
  unused_sources : list str;
  rp_fsck : FsckReport;
}.

(** What the sources of one repair can say about Records. *)
Record RecordCopies := { usable : gset str; source_tombstones : list (str * TombstoneCatalog) }.

Definition no_copies : RecordCopies := {| usable := ∅; source_tombstones := [] |}.

Inductive RepairAttempt := NoCopy | Mismatch | Done (repair : Repair).

Definition is_record_oid (oid : str) : bool := bool_decide (parse_oid oid = Ok Record).

Definition source_path (source : RepairSource) : str :=
  match source with RepairArchive path _ _ | RepairRepository path _ | RepairBlob path _ _ => path end.

(** [RecordCopies::tombstone_for]: the source and the Tombstone. *)
Fixpoint copies_tombstone_for (tombstones : list (str * TombstoneCatalog)) (target : str) : option (str * str) :=
  match tombstones with
  | [] => None
  | (source, catalog) :: tombstones =>
    match tombstone_for catalog target with
    | Some tombstone => Some (source, tombstone)
    | None => copies_tombstone_for tombstones target
    end
  end.

Section Repair.
Variable sha256 : list byte -> list byte.
Variable nfc : list char -> list char.
Context {format : ManifestFormat}.

#[local] Instance store_here : ObjectStore FileObjectStore := file_object_store sha256 nfc.
#[local] Instance bounded_store_here : BoundedObjectStore FileObjectStore := file_bounded_store sha256 nfc.

Definition regular_at (files : ArchiveDirectory) (name : str) : bool :=
  match files !! name with Some (RegularFile _) => true | _ => false end.

(** [RepairSource::open] *)
Definition open_source (path : str) (node : SourceNode) (limits : StoreLimits) : presult RepairSource :=
  match node with
  | SourceAbsent => Err RepoIo
  | SourceFile content =>
    reject_if (len content >? max_blob_bytes limits) RepoArchiveInvalid;;
    Ok (RepairBlob path content (blob_oid sha256 content))
  | SourceDirectory files cas =>
    if regular_at files MANIFEST_FILE then
      '(manifest, _) ← read_verified_manifest sha256 files;
      Ok (RepairArchive path files (map (fun object => (ao_oid object, ao_path object)) (am_objects manifest)))
    else
      match cas with
      | Some opened => copies ← of_store opened; Ok (RepairRepository path copies)
      | None => Err RepoArchiveInvalid
      end
  end.

Fixpoint open_sources (paths : list (str * SourceNode)) (limits : StoreLimits) : presult (list RepairSource) :=
  match paths with
  | [] => Ok []
  | (path, node) :: paths =>
    source ← open_source path node limits;
    sources ← open_sources paths limits;
    Ok (source :: sources)
  end.

(** [HashMap::get] *)
Definition archived_path (archived : list (str * str)) (oid : str) : option str :=
  snd <$> find (fun entry => str_eqb (fst entry) oid) archived.

(** The content of the copy of an object that a source opens. *)
Definition open_copy (source : RepairSource) (oid : str) (limit : Z) : presult (option (list byte)) :=
  match source with
  | RepairBlob _ content blob =>
    if str_eqb blob oid then reject_if (len content >? limit) RepoArchiveInvalid;; Ok (Some content) else Ok None
  | RepairArchive _ files archived =>
    match archived_path archived oid with
    | None => Ok None
    | Some path => content ← open_regular_limited files path limit; Ok (Some content)
    end
  | RepairRepository _ copies => of_store (open_object_file copies oid)
  end.

Definition structured_limit (target : FileObjectStore) : Z := max_input_bytes (structured (limits target)).

(** The loop over the Records of a source. *)
Fixpoint read_record_copies (source : RepairSource) (target : FileObjectStore) (oids : list str)
    (tombstones : TombstoneCatalog) (usable : gset str) : presult (TombstoneCatalog * gset str) :=
  match oids with
  | [] => Ok (tombstones, usable)
  | oid :: oids =>
    match open_copy source oid (structured_limit target) with
    | Ok (Some content) =>
      match verify_structured_copy sha256 nfc target oid (read_take (structured_limit target) content) with
      | Ok object =>
        tombstones ← of_store (catalog_observe object tombstones);
        read_record_copies source target oids tombstones ({[oid]} ∪ usable)
      | Err _ => read_record_copies source target oids tombstones usable
      end
    | _ => read_record_copies source target oids tombstones usable
    end
  end.

Definition record_oids (source : RepairSource) : presult (list str) :=
  match source with
  | RepairBlob _ _ _ => Ok []
  | RepairArchive _ _ archived => Ok (List.filter is_record_oid (map fst archived))
  | RepairRepository _ copies =>
    oids ← of_store (list_oids_at_valid_paths copies);
    Ok (List.filter is_record_oid oids)
  end.

Definition read_records (source : RepairSource) (target : FileObjectStore) (copies : RecordCopies) : presult RecordCopies :=
  oids ← record_oids source;
  '(tombstones, usable) ← read_record_copies source target oids empty_catalog (usable copies);
  Ok {| usable := usable; source_tombstones := source_tombstones copies ++ [(source_path source, tombstones)] |}.

Fixpoint read_all_records (sources : list RepairSource) (target : FileObjectStore) (copies : RecordCopies)
  : presult RecordCopies :=
  match sources with
  | [] => Ok copies
  | source :: sources => copies ← read_records source target copies; read_all_records sources target copies
  end.

(** [RepairSource::repair]: the store afterwards, and what was done. *)
Definition source_repair (source : RepairSource) (target : FileObjectStore) (oid : str)
  : presult (FileObjectStore * RepairAttempt) :=
  kind ← of_core (parse_oid oid);
  let limit := if bool_decide (kind = Blob) then max_blob_bytes (limits target) else structured_limit target in
  match open_copy source oid limit with
  | Err _ => Ok (target, Mismatch)
  | Ok None => Ok (target, NoCopy)
  | Ok (Some content) =>
    match repair_object sha256 nfc target oid content with
    | Ok (target, repair) => Ok (target, Done repair)
    | Err error => if bool_decide (is_Some (store_code error)) then Ok (target, Mismatch) else Err (RepoStore error)
    end
  end.

(** ** Rounds *)

(** The state of the rounds. *)
Record RepairState := {
  rs_store : FileObjectStore;
  rs_used : list bool;
  rs_repaired : list RepairedObject;
  rs_set_aside : list (str * str);
  rs_mismatched : list (str * str);
}.

Definition with_target (store : FileObjectStore) (s : RepairState) : RepairState :=
  {| rs_store := store; rs_used := rs_used s; rs_repaired := rs_repaired s; rs_set_aside := rs_set_aside s;
     rs_mismatched := rs_mismatched s |}.
Definition with_set_aside (store : FileObjectStore) (oid path : str) (s : RepairState) : RepairState :=
  {| rs_store := store; rs_used := rs_used s; rs_repaired := rs_repaired s; rs_set_aside := rs_set_aside s ++ [(oid, path)];
     rs_mismatched := rs_mismatched s |}.
Definition with_mismatch (source oid : str) (s : RepairState) : RepairState :=
  {| rs_store := rs_store s; rs_used := rs_used s; rs_repaired := rs_repaired s; rs_set_aside := rs_set_aside s;
     rs_mismatched := rs_mismatched s ++ [(source, oid)] |}.
Definition with_repaired (store : FileObjectStore) (index : nat) (source oid : str) (quarantined : option str)
    (s : RepairState) : RepairState :=
  {| rs_store := store; rs_used := <[index := true]> (rs_used s);
     rs_repaired := rs_repaired s ++ [{| rp_oid := oid; rp_source := source; rp_quarantined := quarantined |}];
     rs_set_aside := rs_set_aside s; rs_mismatched := rs_mismatched s |}.

(** The loop over the Tombstoned objects; the flag is [progress]. *)
Fixpoint set_aside_all (oids : list str) (s : RepairState) (progress : bool) : presult (RepairState * bool) :=
  match oids with
  | [] => Ok (s, progress)
  | oid :: oids =>
    '(store, moved) ← of_store (quarantine_if_corrupt sha256 nfc (rs_store s) oid);
    match moved with
    | Some path => set_aside_all oids (with_set_aside store oid path s) true
    | None => set_aside_all oids (with_target store s) progress
    end
  end.

(** The loop over the sources for one object, from the source at [index]. *)
Fixpoint try_sources (sources : list RepairSource) (index : nat) (oid : str) (s : RepairState) (progress : bool)
  : presult (RepairState * bool) :=
  match sources with
  | [] => Ok (s, progress)
  | source :: sources =>
    '(store, attempt) ← source_repair source (rs_store s) oid;
    match attempt with
    | NoCopy => try_sources sources (S index) oid (with_target store s) progress
    | Mismatch => try_sources sources (S index) oid (with_mismatch (source_path source) oid (with_target store s)) progress
    | Done AlreadyIntact => Ok (with_target store s, progress)
    | Done (Restored quarantined) => Ok (with_repaired store index (source_path source) oid quarantined s, true)
    end
  end.

Fixpoint repair_round (sources : list RepairSource) (oids : list str) (s : RepairState) (progress : bool)
  : presult (RepairState * bool) :=
  match oids with
  | [] => Ok (s, progress)
  | oid :: oids =>
    '(s, progress) ← try_sources sources 0 oid s progress;
    repair_round sources oids s progress
  end.

(** What a round works on: the damaged Records and other objects that no source says were
    erased, and the damaged Records that no source holds. *)
Record RoundPlan := { pl_records : list str; pl_others : list str; pl_undecided : list str }.

Definition plan_round (copies : RecordCopies) (damaged : list str) : RoundPlan :=
  let wanted := List.filter (fun oid => negb (bool_decide (is_Some (copies_tombstone_for (source_tombstones copies) oid)))) damaged in
  {| pl_records := List.filter is_record_oid wanted;
     pl_others := List.filter (fun oid => negb (is_record_oid oid)) wanted;
     pl_undecided := List.filter (fun oid => is_record_oid oid && negb (bool_decide (oid ∈ usable copies))) damaged |}.

Definition round_oids (plan : RoundPlan) : list str :=
  if negb (bool_decide (pl_undecided plan = [])) then []
  else if bool_decide (pl_records plan = []) then pl_others plan else pl_records plan.

Definition erased_rows (copies : RecordCopies) (damaged : list str) : list ErasedInSource :=
  omap (fun oid => match copies_tombstone_for (source_tombstones copies) oid with
                   | Some (source, tombstone) => Some {| er_oid := oid; er_tombstone := tombstone; er_source := source |}
                   | None => None
                   end) damaged.

Definition held_back_oids (plan : RoundPlan) : list str :=
  if bool_decide (pl_records plan = []) then []
  else List.filter (fun oid => negb (bool_decide (pl_undecided plan = [])) && negb (bool_decide (oid ∈ pl_undecided plan)))
         (pl_records plan) ++ pl_others plan.

(** A [BTreeSet<(PathBuf, String)>] in its order. *)
Definition pair_compare (a b : str * str) : comparison :=
  match lex_compare (fst a) (fst b) with Eq => lex_compare (snd a) (snd b) | c => c end.
Definition pair_set (pairs : list (str * str)) : list (str * str) := sort_by pair_compare (remove_dups pairs).

Definition unused_paths (sources : list RepairSource) (used : list bool) : list str :=
  map (fun p => source_path (fst p)) (List.filter (fun p => negb (snd p)) (combine sources used)).

Definition repair_report (sources : list RepairSource) (copies : RecordCopies) (report : FsckReport)
    (damaged tombstoned : list str) (s : RepairState) : RepairReport :=
  let plan := plan_round copies damaged in
  {| repaired := rs_repaired s;
     remaining := damaged ++ tombstoned;
     undecided := pl_undecided plan;
     held_back := held_back_oids plan;
     set_aside := rs_set_aside s;
     erased_in_source := erased_rows copies damaged;
     mismatched := pair_set (rs_mismatched s);
     unused_sources := unused_paths sources (rs_used s);
     rp_fsck := report |}.

Definition repository_with (r : Repository FileObjectStore) (s : RepairState) : Repository FileObjectStore :=
  set_store r (rs_store s).

Fixpoint repair_rounds (fuel : nat) (sources : list RepairSource) (copies : RecordCopies) (r : Repository FileObjectStore)
    (s : RepairState) : presult (RepairState * RepairReport) :=
  match fuel with
  | O => Err (RepoCore OutOfFuel)
  | S fuel =>
    '(report, damaged, tombstoned) ← inspect_damage sha256 nfc (repository_with r s);
    '(s, progress) ← set_aside_all tombstoned s false;
    '(s, progress) ← repair_round sources (round_oids (plan_round copies damaged)) s progress;
    if (progress : bool) then repair_rounds fuel sources copies r s
    else Ok (s, repair_report sources copies report damaged tombstoned s)
  end.

(** The identifiers of which a source may hold a copy. *)
Definition source_oids (source : RepairSource) : list str :=
  match source with
  | RepairBlob _ _ blob => [blob]
  | RepairArchive _ _ archived => map fst archived
  | RepairRepository _ copies => map row_oid (map_to_list (FileStore.objects copies))
  end.

(** Enough rounds: each but the last restores an object that a source holds, which may add a
    file, or moves a file aside. *)
Definition repair_fuel (sources : list RepairSource) (store : FileObjectStore) : nat :=
  S (2 * length (flat_map source_oids sources) + size (FileStore.objects store)).

(** The repository afterwards, and the report. *)
Definition repair_objects (r : Repository FileObjectStore) (paths : list (str * SourceNode))
  : presult (Repository FileObjectStore * RepairReport) :=
  repo_ensure_writable r;;
  sources ← open_sources paths (limits (objects r));
  copies ← read_all_records sources (objects r) no_copies;
  '(s, report) ← repair_rounds (repair_fuel sources (objects r)) sources copies r
    {| rs_store := objects r; rs_used := replicate (length sources) false; rs_repaired := []; rs_set_aside := [];
       rs_mismatched := [] |};
  Ok (repository_with r s, report).
End Repair.
