(* ===== verification/Policy.v ===== *)
(** * Capabilities, selectors and Policy rules

    The part of crates/synapse-core/src/authorization.rs that reads authority
    from values alone: the capability vocabulary, the [require_*] accessors,
    Ref and resource selectors, and the evaluation of Policy rules.  A
    [BTreeSet<AiCapability>] is the list of its elements in order. *)

From stdpp Require Import base list numbers strings gmap sets.
From Stdlib Require Import ZArith Lia.
From S2P Require Import Prelude Text TextFacts RefStore Canonical Oid Timestamp ObjectStore Closure Repository.

#[local] Open Scope Z_scope.

(** ** Capabilities *)

Inductive AiCapability :=
| ReadContext | Analyze | ProposeBranch | SubmitClaim | RequestReview | RenderPreview.

#[export] Instance AiCapability_eq_dec : EqDecision AiCapability.
Proof. solve_decision. Defined.

Definition capability_as_str (c : AiCapability) : str :=
  match c with
  | ReadContext => lit "read_context"
  | Analyze => lit "analyze"
  | ProposeBranch => lit "propose_branch"
  | SubmitClaim => lit "submit_claim"
  | RequestReview => lit "request_review"
  | RenderPreview => lit "render_preview"
  end.

Definition capability_parse (value : str) : option AiCapability :=
  if str_eqb value (lit "read_context") then Some ReadContext
  else if str_eqb value (lit "analyze") then Some Analyze
  else if str_eqb value (lit "propose_branch") then Some ProposeBranch
  else if str_eqb value (lit "submit_claim") then Some SubmitClaim
  else if str_eqb value (lit "request_review") then Some RequestReview
  else if str_eqb value (lit "render_preview") then Some RenderPreview
  else None.

Definition policy_action (c : AiCapability) : str :=
  match c with
  | ReadContext => lit "read"
  | Analyze => lit "analyze"
  | ProposeBranch | RequestReview => lit "propose"
  | SubmitClaim | RenderPreview => lit "derive"
  end.

(** The declaration order, which is the order of the sets. *)
Definition all_capabilities : list AiCapability :=
  [ReadContext; Analyze; ProposeBranch; SubmitClaim; RequestReview; RenderPreview].

(** Collecting into a [BTreeSet] and back. *)
Definition normalized_capabilities (capabilities : list AiCapability) : list AiCapability :=
  filter (fun c => c ∈ capabilities) all_capabilities.

Definition has_capability (capabilities : list AiCapability) (c : AiCapability) : bool := bool_decide (c ∈ capabilities).

Definition insert_capability (c : AiCapability) (capabilities : list AiCapability) : list AiCapability :=
  normalized_capabilities (c :: capabilities).

Inductive AiSideEffectClass := SideEffectNone | ProjectInternal.

#[export] Instance AiSideEffectClass_eq_dec : EqDecision AiSideEffectClass.
Proof. solve_decision. Defined.

Definition side_effect_as_str (c : AiSideEffectClass) : str :=
  match c with SideEffectNone => lit "none" | ProjectInternal => lit "project_internal" end.

Definition side_effect_parse (value : str) : option AiSideEffectClass :=
  if str_eqb value (lit "none") then Some SideEffectNone
  else if str_eqb value (lit "project_internal") then Some ProjectInternal
  else None.

(** ** Reading values *)

Abbreviation denied := (Err (RepoCore (Core AuthorizationDenied))).
Definition denied_if (bad : bool) : presult unit := reject_if bad (RepoCore (Core AuthorizationDenied)).
Definition or_denied {A} (o : option A) : presult A := ok_or o (RepoCore (Core AuthorizationDenied)).

Definition require_object (value : Value) (key : str) : presult Value :=
  child ← or_denied (get value key);
  or_denied (as_object child);;
  Ok child.

Definition require_string (value : Value) (key : str) : presult str := or_denied (get value key ≫= as_str).

Definition require_array (value : Value) (key : str) : presult (list Value) := or_denied (get value key ≫= as_array).

Definition require_equal (left right : str) : presult unit := if str_eqb left right then Ok tt else denied.

Definition require_array_contains (value : Value) (key expected : str) : presult unit :=
  values ← require_array value key;
  if existsb (fun v => bool_decide (as_str v = Some expected)) values then Ok tt else denied.

Definition with_role (role : str) (entries : list Value) : list Value :=
  List.filter (fun entry => bool_decide (get_str entry (lit "role") = Some role)) entries.

Definition bound_once (role field expected : str) (entries : list Value) : bool :=
  match with_role role entries with
  | [entry] => bool_decide (get_str entry field = Some expected)
  | _ => false
  end.

Definition require_role_actor (payload : Value) (role actor_id : str) : presult unit :=
  entries ← require_array payload (lit "actor_refs");
  if bound_once role (lit "actor_ref") actor_id entries then Ok tt else denied.

Definition require_role_oid (payload : Value) (key role oid : str) : presult unit :=
  entries ← require_array payload key;
  if bound_once role (lit "oid") oid entries then Ok tt else denied.

Fixpoint capability_values (values : list Value) : presult (list AiCapability) :=
  match values with
  | [] => Ok []
  | value :: values =>
    value ← or_denied (as_str value);
    c ← or_denied (capability_parse value);
    cs ← capability_values values;
    Ok (c :: cs)
  end.

Definition parse_capabilities (values : list Value) : presult (list AiCapability) :=
  normalized_capabilities <$> capability_values values.

Definition require_direct_base_parent (candidate : Value) (base_commit : str) : presult unit :=
  parents ← require_array candidate (lit "parents");
  match parents with
  | [parent] => if bool_decide (as_str parent = Some base_commit) then Ok tt else denied
  | _ => denied
  end.

Definition canonical_timestamp_unix_nanos (value : str) : presult Z :=
  map_err (fun _ => RepoCore (Core TimestampInvalid)) (parse_canonical_timestamp_unix_nanos value).

(** ** Refs, prefixes and selectors *)

Definition require_ai_namespace (ref_name : str) : presult unit :=
  match split_on 47 ref_name with
  | namespace :: _ =>
    if str_eqb namespace (lit "proposal") then Ok tt
    else if str_eqb namespace (lit "decision") || str_eqb namespace (lit "release") then repo_fail HumanGateRequired
    else denied
  | [] => denied
  end.

Definition require_human_gated_base (ref_name : str) : presult unit :=
  of_refs (validate_ref_name ref_name);;
  match split_on 47 ref_name with
  | namespace :: _ =>
    if str_eqb namespace (lit "decision") || str_eqb namespace (lit "release") then Ok tt else denied
  | [] => denied
  end.

Definition segment_prefix_matches (prefix value : str) : bool :=
  let prefix := trim_end_matches 47 prefix in
  str_eqb value prefix ||
  match strip_prefix prefix value with
  | Some suffix => starts_with (lit "/") suffix
  | None => false
  end.

Definition subtree_suffix : str := lit "/**".

Definition selector_supported (selector : str) : bool :=
  let base := default selector (strip_suffix subtree_suffix selector) in
  negb (bool_decide (base = [])) &&
  negb (contains_byte 42 base) &&
  negb (starts_with (lit "/") base) &&
  negb (ends_with (lit "/") base) &&
  forallb (fun segment => negb (bool_decide (segment = []) || str_eqb segment (lit ".") || str_eqb segment (lit "..")))
    (split_on 47 base).

Definition selector_matches (selector resource : str) : bool :=
  if negb (selector_supported selector) then false
  else
    match strip_suffix subtree_suffix selector with
    | Some prefix => segment_prefix_matches prefix resource
    | None => str_eqb selector resource
    end.

Definition strings (values : list Value) : list str := omap as_str values.

Definition require_writable_prefix (grant_payload : Value) (ref_name : str) : presult unit :=
  prefixes ← require_array grant_payload (lit "writable_ref_prefixes");
  if existsb (fun prefix => segment_prefix_matches prefix ref_name) (strings prefixes) then Ok tt else denied.

Definition project_resource (project_id : str) : str := lit "project/" ++ project_id.

Definition require_project_resource (grant_payload : Value) (project_id : str) : presult unit :=
  selectors ← require_array grant_payload (lit "resource_selectors");
  if existsb (fun selector => selector_matches selector (project_resource project_id)) (strings selectors)
  then Ok tt else denied.

(** ** Policy rules *)

Inductive PolicyEffect := Allow | RequireHumanGate | Deny.

#[export] Instance PolicyEffect_eq_dec : EqDecision PolicyEffect.
Proof. solve_decision. Defined.

(** The derived [Ord]: the declaration order. *)
Definition effect_rank (e : PolicyEffect) : Z := match e with Allow => 0 | RequireHumanGate => 1 | Deny => 2 end.
Definition effect_max (current candidate : PolicyEffect) : PolicyEffect :=
  if effect_rank current >? effect_rank candidate then current else candidate.

(** The body of the loop over the rules: [Ok None] is [continue]. *)
Definition rule_effect (action resource : str) (rule : Value) : presult (option PolicyEffect) :=
  if negb (bool_decide (get_str rule (lit "action") = Some action)) then Ok None
  else
    match get_str rule (lit "resource_selector") with
    | None => Ok None
    | Some selector =>
      if negb (selector_supported selector) then denied
      else if negb (selector_matches selector resource) then Ok None
      else
        match get_str rule (lit "effect") with
        | Some effect =>
          if str_eqb effect (lit "allow") then
            if bool_decide (is_Some (get rule (lit "condition_text"))) then denied else Ok (Some Allow)
          else if str_eqb effect (lit "require_human_gate") then Ok (Some RequireHumanGate)
          else if str_eqb effect (lit "deny") then Ok (Some Deny)
          else Ok None
        | None => Ok None
        end
    end.

Fixpoint policy_effect (action resource : str) (rules : list Value) (effect : option PolicyEffect)
  : presult (option PolicyEffect) :=
  match rules with
  | [] => Ok effect
  | rule :: rules =>
    candidate ← rule_effect action resource rule;
    match candidate with
    | None => policy_effect action resource rules effect
    | Some candidate =>
      policy_effect action resource rules
        (Some (match effect with Some current => effect_max current candidate | None => candidate end))
    end
  end.

Definition policy_target (capability : AiCapability) (project_id target_ref : str) : str :=
  match capability with
  | ProposeBranch | RequestReview => target_ref
  | _ => project_resource project_id
  end.

Definition default_effect (payload : Value) : PolicyEffect :=
  if bool_decide (get_str payload (lit "default_effect") = Some (lit "allow")) then Allow else Deny.

Definition authorize_policy_capability (policy : Value) (capability : AiCapability) (project_id target_ref : str)
  : presult unit :=
  payload ← require_object policy (lit "payload");
  let resource := policy_target capability project_id target_ref in
  rules ← require_array payload (lit "rules");
  effect ← policy_effect (policy_action capability) resource rules None;
  match default (default_effect payload) effect with
  | Allow => Ok tt
  | RequireHumanGate => repo_fail HumanGateRequired
  | Deny => denied
  end.


(** ** Segments *)

(** A text continues another after a separator exactly when its segments do. *)
Lemma split_prefix sep p v :
  split_on sep p `prefix_of` split_on sep v <-> v = p \/ exists s, v = p ++ sep :: s.
Proof.
  split.
  - intros [k Hk]. destruct k as [|q k].
    + left. rewrite app_nil_r in Hk. by rewrite <- (join_split_on sep v), Hk, join_split_on.
    + right. exists (join_with [sep] (q :: k)). rewrite <- (join_split_on sep v), Hk, join_with_app, join_split_on; [done| |done].
      by destruct (split_on_nonempty sep p) as (? & ? & ->).
  - intros [->|[s ->]]; [done|]. rewrite split_on_app_sep. by eexists.
Qed.

Lemma starts_with_slash s : starts_with (lit "/") s = true <-> exists r, s = 47 :: r.
Proof.
  unfold starts_with. rewrite bool_decide_eq_true. change (lit "/") with [47]. split.
  - intros [r Hr%strip_prefix_Some]. by exists r.
  - intros [r ->]. exists r. by apply strip_prefix_Some.
Qed.

Lemma strip_suffix_Some p s r : strip_suffix p s = Some r <-> s = r ++ p.
Proof.
  unfold strip_suffix. rewrite fmap_Some. split.
  - intros (q & Hq%strip_prefix_Some & ->). rewrite <- (rev_involutive s), Hq, rev_app_distr. by rewrite rev_involutive.
  - intros ->. exists (rev r). rewrite strip_prefix_Some, rev_app_distr. by rewrite rev_involutive.
Qed.

(** A prefix matches a name exactly when its segments, trailing slashes aside, begin the name's. *)
Lemma segment_prefix_spec prefix value :
  segment_prefix_matches prefix value = true <->
  split_on 47 (trim_end_matches 47 prefix) `prefix_of` split_on 47 value.
Proof.
  unfold segment_prefix_matches. rewrite split_prefix, orb_true_iff, str_eqb_eq.
  apply or_iff_compat_l. split.
  - destruct (strip_prefix _ value) as [s|] eqn:E; [|done]. intros [r ->]%starts_with_slash.
    apply strip_prefix_Some in E. by eauto.
  - intros [s Hs]. apply strip_prefix_Some in Hs. rewrite Hs. apply starts_with_slash. by eauto.
Qed.

Lemma drop_leading_id b s : (forall r, s <> b :: r) -> drop_leading b s = s.
Proof. destruct s as [|x s]; [done|]. intros H. cbn. destruct (Z.eqb_spec x b) as [->|]; [|done]. by destruct (H s). Qed.

Lemma trim_end_id b s : (forall r, s <> r ++ [b]) -> trim_end_matches b s = s.
Proof.
  intros H. unfold trim_end_matches. rewrite drop_leading_id; [by rewrite rev_involutive|].
  intros r E. apply (H (rev r)). by rewrite <- (rev_involutive s), E.
Qed.

Lemma supported_base selector :
  selector_supported selector = true ->
  let base := default selector (strip_suffix subtree_suffix selector) in
  42 ∉ base /\ trim_end_matches 47 base = base /\
  Forall (fun segment => segment <> [] /\ segment <> lit "." /\ segment <> lit "..") (split_on 47 base).
Proof.
  unfold selector_supported. intros Hs. bool_props.
  match goal with H : forallb _ _ = true |- _ => rename H into Hseg end.
  match goal with H : ends_with _ _ = false |- _ => rename H into Hend end.
  match goal with H : contains_byte _ _ = false |- _ => apply contains_byte_false in H; rename H into Hstar end.
  split_and!; [done| |].
  - apply trim_end_id. intros r E. unfold ends_with in Hend. apply bool_decide_eq_false in Hend.
    apply Hend. exists r. by apply strip_suffix_Some.
  - apply Forall_forall. intros x Hx%list_elem_of_In. rewrite forallb_forall in Hseg. specialize (Hseg x Hx).
    apply negb_true_iff in Hseg. apply orb_false_iff in Hseg as [[Hnil Hdot]%orb_false_iff Hdots].
    apply bool_decide_eq_false in Hnil. split_and!; [done|..].
    + intros ->. by rewrite (proj2 (str_eqb_eq _ _) eq_refl) in Hdot.
    + intros ->. by rewrite (proj2 (str_eqb_eq _ _) eq_refl) in Hdots.
Qed.

(** A supported selector means what its segments say: [base/**] covers exactly the
    resources whose path begins with the segments of [base] ([project/1/**] never covers
    [project/12]), any other selector covers only itself, and neither form has wildcards,
    empty or relative segments. *)
Lemma selector_segments selector resource :
  selector_supported selector = true ->
  (selector_matches selector resource = true <->
   match strip_suffix subtree_suffix selector with
   | Some base => split_on 47 base `prefix_of` split_on 47 resource
   | None => selector = resource
   end) /\
  42 ∉ default selector (strip_suffix subtree_suffix selector) /\
  Forall (fun segment => segment <> [] /\ segment <> lit "." /\ segment <> lit "..")
    (split_on 47 (default selector (strip_suffix subtree_suffix selector))).
Proof.
  intros Hs. pose proof (supported_base _ Hs) as (Hstar & Htrim & Hseg). split_and!; [|done..].
  unfold selector_matches. rewrite Hs. cbn [negb]. destruct (strip_suffix subtree_suffix selector) as [base|] eqn:E.
  - rewrite segment_prefix_spec. change (trim_end_matches 47 base = base) in Htrim. by rewrite Htrim.
  - apply str_eqb_eq.
Qed.

(** ** Policy decisions *)

(** The rules of a Policy, each evaluated alone. *)
Definition rule_effects (capability : AiCapability) (project_id target_ref : str) (rules : list Value)
  : list (presult (option PolicyEffect)) :=
  map (rule_effect (policy_action capability) (policy_target capability project_id target_ref)) rules.

Definition has_effect (effect : PolicyEffect) (effects : list (presult (option PolicyEffect))) : bool :=
  existsb (fun r => bool_decide (r = Ok (Some effect))) effects.

Definition has_error (effects : list (presult (option PolicyEffect))) : bool := existsb (fun r => negb (is_ok r)) effects.

(** The decision by precedence: an unreadable rule or a denial, then a human gate, then a
    permission, then the default. *)
Definition policy_verdict (default_effect : PolicyEffect) (effects : list (presult (option PolicyEffect))) : presult unit :=
  if has_error effects || has_effect Deny effects then denied
  else if has_effect RequireHumanGate effects then repo_fail HumanGateRequired
  else if has_effect Allow effects then Ok tt
  else if bool_decide (default_effect = Allow) then Ok tt else denied.

Lemma rule_effect_Err action resource rule e : rule_effect action resource rule = Err e -> e = RepoCore (Core AuthorizationDenied).
Proof. unfold rule_effect. intros H. repeat case_match; congruence. Qed.

Definition joined (current : option PolicyEffect) (candidate : option PolicyEffect) : option PolicyEffect :=
  match candidate, current with
  | None, _ => current
  | Some e, None => Some e
  | Some e, Some current => Some (effect_max current e)
  end.

Lemma policy_effect_fold action resource rules : forall current,
  policy_effect action resource rules current =
  if has_error (map (rule_effect action resource) rules) then denied
  else Ok (foldl (fun acc r => match r with Ok e => joined acc e | Err _ => acc end) current
             (map (rule_effect action resource) rules)).
Proof.
  induction rules as [|rule rules IH]; intros current; [done|]. cbn [policy_effect map].
  destruct (rule_effect action resource rule) as [[e|]|e] eqn:E; cbn [mbind result_bind].
  - rewrite IH. cbn. by destruct current.
  - rewrite IH. done.
  - apply rule_effect_Err in E as ->. done.
Qed.

(** The strongest of the present effects and the current one. *)
Lemma fold_joined effects : has_error effects = false -> forall current,
  foldl (fun acc r => match r with Ok e => joined acc e | Err _ => acc end) current effects =
  if has_effect Deny effects || bool_decide (current = Some Deny) then Some Deny
  else if has_effect RequireHumanGate effects || bool_decide (current = Some RequireHumanGate) then Some RequireHumanGate
  else if has_effect Allow effects || bool_decide (current = Some Allow) then Some Allow
  else None.
Proof.
  induction effects as [|[e|e] effects IH]; intros He current; [by destruct current as [[]|]|..|done].
  cbn [foldl]. rewrite IH by done.
  unfold has_effect. cbn [existsb]. fold (has_effect Deny effects) (has_effect RequireHumanGate effects) (has_effect Allow effects).
  destruct (has_effect Deny effects), (has_effect RequireHumanGate effects), (has_effect Allow effects);
    by destruct e as [[]|], current as [[]|].
Qed.

(** A Policy decides by precedence and not by the order of its rules: a matching rule
    that cannot be evaluated or that denies wins, then a required human gate, then an
    unconditional permission, and only when no rule matches the default, which permits only
    if it says so. *)
Lemma policy_precedence policy capability project_id target_ref payload rules :
  require_object policy (lit "payload") = Ok payload -> require_array payload (lit "rules") = Ok rules ->
  authorize_policy_capability policy capability project_id target_ref =
    policy_verdict (default_effect payload) (rule_effects capability project_id target_ref rules) /\
  (forall rules', rules ≡ₚ rules' ->
    policy_verdict (default_effect payload) (rule_effects capability project_id target_ref rules') =
    policy_verdict (default_effect payload) (rule_effects capability project_id target_ref rules)).
Proof.
  intros Hp Hr. split.
  - unfold authorize_policy_capability. rewrite Hp. cbn [mbind result_bind]. rewrite Hr. cbn [mbind result_bind].
    rewrite policy_effect_fold. fold (rule_effects capability project_id target_ref rules). unfold policy_verdict.
    destruct (has_error _) eqn:He; [done|]. cbn [mbind result_bind orb]. rewrite fold_joined by done.
    destruct (has_effect Deny _), (has_effect RequireHumanGate _), (has_effect Allow _); try done.
    cbn. unfold default_effect. by destruct (bool_decide _).
  - intros rules' Hperm. unfold policy_verdict.
    assert (forall f, existsb f (rule_effects capability project_id target_ref rules') =
                      existsb f (rule_effects capability project_id target_ref rules)) as Hex.
    { intros f. apply eq_true_iff_eq. rewrite !existsb_exists. unfold rule_effects.
      setoid_rewrite in_map_iff. setoid_rewrite <- list_elem_of_In. by setoid_rewrite Hperm. }
    unfold has_error, has_effect. by rewrite !Hex.
Qed.

(** Proposals are allowed in general, and denied for one agent. *)
Definition sample_rule (action selector effect : str) : Value :=
  Obj [(lit "action", Str action); (lit "resource_selector", Str selector); (lit "effect", Str effect)].
Definition sample_rules : list Value :=
  [sample_rule (lit "propose") (lit "proposal/**") (lit "allow");
   sample_rule (lit "propose") (lit "proposal/rogue/**") (lit "deny")].
Definition sample_policy_payload : Value := Obj [(lit "rules", Arr sample_rules)].
