(* ===== verification/Binding.v ===== *)
(** * What a candidate Commit may contain

    The part of crates/synapse-core/src/authorization.rs that reads the object
    store: loading validated objects, the objects of a snapshot
    ([snapshot_object_set]), and the comparison of a candidate with its base
    ([require_candidate_preserves_base_snapshot_objects],
    [require_candidate_output_binding]).  A [BTreeSet<String>] is a [gset],
    read in key order through [sorted_set].  A [Vec] used as a stack has its top
    first.  The loops run on fuel: a snapshot pushes at most one tree for each
    edge it counts, a closure at most the roots and one item for each edge. *)

From stdpp Require Import base list numbers strings gmap sets.
From Stdlib Require Import ZArith Lia.
From S2P Require Import Prelude Sorting Text RefStore Canonical Oid Registry ObjectStore Closure Repository.
From S2P Require Import Policy.

#[local] Open Scope Z_scope.

Definition sorted_set (s : gset str) : list str := sort_by lex_compare (elements s).

Definition set_count (s : gset str) : Z := Z.of_nat (size s).

(** A node that is present, with its kind and length. *)
Definition node_present (node : ClosureNode) : option (ObjectKind * Z) :=
  match node_state node with NodePresent kind byte_len => Some (kind, byte_len) | _ => None end.

Definition out_of_fuel : RepositoryError := RepoCore OutOfFuel.
Definition resource_limit_error : RepositoryError := RepoCore (Core ResourceLimit).
Definition closure_missing : RepositoryError := RepoCore (Core ClosureMissing).

(** ** Closures inside a report *)

Definition outgoing (edges : list GraphEdge) (oid : str) : list str :=
  map target (List.filter (fun e => str_eqb (source e) oid) edges).

(** [while let Some(oid) = pending.pop()] of the output and the input closure. *)
Fixpoint closure_loop (fuel : nat) (limit : Z) (edges : list GraphEdge) (pending : list str) (closure : gset str)
  : presult (gset str) :=
  match pending with
  | [] => Ok closure
  | oid :: pending =>
    match fuel with
    | O => Err out_of_fuel
    | S fuel =>
      if bool_decide (oid ∈ closure) then closure_loop fuel limit edges pending closure
      else
        let closure := {[oid]} ∪ closure in
        if set_count closure >? limit then Err resource_limit_error
        else closure_loop fuel limit edges (rev (outgoing edges oid) ++ pending) closure
    end
  end.

Definition closure_from (limit : Z) (edges : list GraphEdge) (roots : gset str) : presult (gset str) :=
  closure_loop (size roots + length edges + 1) limit edges (rev (sorted_set roots)) ∅.

(** [snapshot_parents]: for every bound Tree entry, the entry and its Tree. *)
Fixpoint snapshot_parents (snapshot : gset str) (edges : list GraphEdge) : presult (list (str * str)) :=
  match edges with
  | [] => Ok []
  | e :: edges =>
    if bool_decide (source e ∈ snapshot) && bool_decide (target e ∈ snapshot) then
      kind ← of_core (parse_oid (source e));
      parents ← snapshot_parents snapshot edges;
      Ok (if bool_decide (kind = Tree) then (target e, source e) :: parents else parents)
    else snapshot_parents snapshot edges
  end.

Definition parents_of (parents : list (str * str)) (oid : str) : list str :=
  map snd (List.filter (fun p => str_eqb (fst p) oid) parents).

(** [for parent in parents { if bound.insert(parent) { pending.push(parent) } }] *)
Fixpoint push_parents (parents : list str) (bound : gset str) (pending : list str) : gset str * list str :=
  match parents with
  | [] => (bound, pending)
  | parent :: parents =>
    if bool_decide (parent ∈ bound) then push_parents parents bound pending
    else push_parents parents ({[parent]} ∪ bound) (parent :: pending)
  end.

Fixpoint bind_parents (fuel : nat) (parents : list (str * str)) (pending : list str) (bound : gset str)
  : presult (gset str) :=
  match pending with
  | [] => Ok bound
  | oid :: pending =>
    match fuel with
    | O => Err out_of_fuel
    | S fuel =>
      let '(bound, pending) := push_parents (parents_of parents oid) bound pending in
      bind_parents fuel parents pending bound
    end
  end.

Fixpoint fold_each {A B} (body : B -> A -> presult B) (acc : B) (l : list A) : presult B :=
  match l with
  | [] => Ok acc
  | x :: l => acc ← body acc x; fold_each body acc l
  end.

Definition sorted_nodes (report : ClosureReport) : list (str * ClosureNode) :=
  sort_by (fun a b => lex_compare (fst a) (fst b)) (map_to_list (nodes report)).

Section Binding.
Context {S : Type} `{BoundedObjectStore S}.
Variable nfc : list char -> list char.
Variable json_pointer : Json -> str -> option (list nat).
Variable registry : SchemaRegistry.
Variable repository : Repository S.

Definition schema_validate (value : Value) : presult unit := of_core (validate nfc json_pointer registry value).

Definition require_oid_kind (oid : str) (expected : ObjectKind) : presult unit :=
  actual ← of_core (parse_oid oid);
  if bool_decide (actual = expected) then Ok tt else repo_fail ReferenceTypeMismatch.

(** ** Loading objects *)

Definition load_structured (oid : str) (expected_kind : ObjectKind) : presult Value :=
  kind ← of_core (parse_oid oid);
  reject_if (negb (bool_decide (kind = expected_kind))) (RepoCore (Core ReferenceTypeMismatch));;
  object ← of_store (get_verified (objects repository) oid);
  object ← ok_or object closure_missing;
  value ← ok_or (ob_structured object) (RepoCore (Core ReferenceTypeMismatch));
  schema_validate value;;
  Ok value.

Definition load_record (oid expected_record_type : str) : presult Value :=
  value ← load_structured oid Record;
  record_type ← require_string value (lit "record_type");
  require_equal record_type expected_record_type;;
  Ok value.

Definition require_present (oid : str) : presult unit :=
  object ← of_store (get_verified (objects repository) oid);
  reject_if (negb (bool_decide (is_Some object))) closure_missing.

Definition require_present_oid_array (value : Value) (field : str) : presult unit :=
  oids ← require_array value field;
  for_each (fun oid => oid ← or_denied (as_str oid); require_present oid) oids.

Definition require_present_activity_references (activity_payload : Value) : presult unit :=
  for_each (fun field =>
    references ← require_array activity_payload field;
    for_each (fun reference => oid ← or_denied (get_str reference (lit "oid")); require_present oid) references)
    [lit "input_refs"; lit "output_refs"];;
  for_each (fun field =>
    if bool_decide (is_Some (get activity_payload field)) then require_present_oid_array activity_payload field else Ok tt)
    [lit "before_observation_refs"; lit "after_observation_refs"];;
  ai_run ← require_object activity_payload (lit "ai_run");
  if bool_decide (is_Some (get ai_run (lit "prompt_refs"))) then require_present_oid_array ai_run (lit "prompt_refs") else Ok tt.

(** ** Snapshots *)

Record Snapshot := {
  sn_objects : gset str;
  sn_pending : list (str * Z);
  sn_edges : Z;
}.

(** The loop over the entries of one Tree. *)
Fixpoint snapshot_entries (depth : Z) (entries : list (str * Value)) (s : Snapshot) : presult Snapshot :=
  match entries with
  | [] => Ok s
  | (_, entry) :: entries =>
    oid ← require_string entry (lit "oid");
    let edges := sn_edges s + 1 in
    reject_if (edges >? max_edges (graph_limits repository)) resource_limit_error;;
    kind ← of_core (parse_oid oid);
    snapshot_entries depth entries
      {| sn_objects := {[oid]} ∪ sn_objects s;
         sn_pending := if bool_decide (kind = Tree) then (oid, depth + 1) :: sn_pending s else sn_pending s;
         sn_edges := edges |}
  end.

Fixpoint snapshot_loop (fuel : nat) (traversed : gset str) (s : Snapshot) : presult (gset str) :=
  match sn_pending s with
  | [] => Ok (sn_objects s)
  | (tree_oid, depth) :: pending =>
    match fuel with
    | O => Err out_of_fuel
    | Datatypes.S fuel =>
      if bool_decide (tree_oid ∈ traversed)
      then snapshot_loop fuel traversed {| sn_objects := sn_objects s; sn_pending := pending; sn_edges := sn_edges s |}
      else
        let found := {[tree_oid]} ∪ sn_objects s in
        reject_if ((set_count found >? max_objects (graph_limits repository)) || (depth >? max_depth (graph_limits repository)))
          resource_limit_error;;
        tree ← load_structured tree_oid Tree;
        entries ← require_object tree (lit "entries");
        entries ← or_denied (as_object entries);
        s ← snapshot_entries depth entries {| sn_objects := found; sn_pending := pending; sn_edges := sn_edges s |};
        snapshot_loop fuel ({[tree_oid]} ∪ traversed) s
    end
  end.

Definition snapshot_fuel : nat := Z.to_nat (max_edges (graph_limits repository)) + 1.

Definition snapshot_object_set (commit_oid : str) : presult (gset str) :=
  commit ← load_structured commit_oid Commit;
  snapshot_oid ← require_string commit (lit "snapshot");
  snapshot_loop snapshot_fuel ∅ {| sn_objects := ∅; sn_pending := [(snapshot_oid, 0)]; sn_edges := 0 |}.

Definition require_base_snapshot_bindings (base_commit : str) (required_oids : list str) : presult unit :=
  snapshot ← snapshot_object_set base_commit;
  for_each (fun oid => denied_if (negb (bool_decide (oid ∈ snapshot)))) required_oids.

Definition require_candidate_preserves_base_snapshot_objects (candidate_commit base_commit : str) : presult unit :=
  base ← snapshot_object_set base_commit;
  candidate ← snapshot_object_set candidate_commit;
  for_each (fun oid =>
    kind ← of_core (parse_oid oid);
    denied_if (negb (bool_decide (kind = Tree)) && negb (bool_decide (oid ∈ candidate)))) (sorted_set base).

(** ** The outputs of an AI run *)

Record CandidateBinding := {
  candidate_commit : str;
  base_commit : str;
  activity_oid : str;
  context_pack_oid : str;
  authenticated_actor_id : str;
  context_payload : Value;
  activity_payload : Value;
  grant_payload : Value;
}.

(** The [oid] of every entry, and every string, collected into a set. *)
Definition reference_oids (entries : list Value) : presult (gset str) :=
  fold_each (fun acc entry => oid ← or_denied (get_str entry (lit "oid")); Ok ({[oid]} ∪ acc)) ∅ entries.
Definition string_oids (values : list Value) : presult (gset str) :=
  fold_each (fun acc value => oid ← or_denied (as_str value); Ok ({[oid]} ∪ acc)) ∅ values.

(** Reading a Record of the candidate again. *)
Definition reload_record (oid : str) : presult Value :=
  object ← of_store (get_verified (objects repository) oid);
  object ← ok_or object closure_missing;
  value ← ok_or (ob_structured object) (RepoCore (Core ReferenceTypeMismatch));
  schema_validate value;;
  Ok value.

Definition require_input_present (candidate : ClosureReport) (oid : str) : presult unit :=
  node ← ok_or (nodes candidate !! oid) closure_missing;
  '(kind, _) ← ok_or (node_present node) closure_missing;
  if bool_decide (kind = Record) then reload_record oid;; Ok tt else Ok tt.

(** Every object of the candidate snapshot is accounted for. *)
Definition require_snapshot_object (b : CandidateBinding) (base_snapshot produced bound : gset str) (snapshot_root oid : str)
  : presult unit :=
  kind ← of_core (parse_oid oid);
  denied_if (negb (
    bool_decide (oid ∈ base_snapshot) ||
    (bool_decide (kind = Tree) && (str_eqb oid snapshot_root || bool_decide (oid ∈ bound))) ||
    str_eqb oid (activity_oid b) || str_eqb oid (context_pack_oid b) || bool_decide (oid ∈ produced))).

(** So is every node of its closure. *)
Definition require_candidate_node (b : CandidateBinding) (base : ClosureReport) (input_closure produced : gset str)
    (entry : str * ClosureNode) : presult unit :=
  let '(oid, node) := entry in
  if bool_decide (is_Some (nodes base !! oid)) || str_eqb oid (candidate_commit b) || str_eqb oid (activity_oid b) ||
     str_eqb oid (context_pack_oid b) || bool_decide (oid ∈ input_closure) ||
     bool_decide (fst <$> node_present node = Some Tree)
  then Ok tt
  else denied_if (negb (bool_decide (oid ∈ produced))).

(** The counted output: its bytes, the objects it holds and the capabilities it needs. *)
Record Output := { output_bytes : Z; counted : gset str; needs : list AiCapability }.

Definition count_bytes (oid : str) (byte_len : Z) (o : Output) : presult Output :=
  if bool_decide (oid ∈ counted o) then Ok o
  else
    total ← ok_or (usize_checked_add (output_bytes o) byte_len) resource_limit_error;
    Ok {| output_bytes := total; counted := {[oid]} ∪ counted o; needs := needs o |}.

Definition add_need (c : AiCapability) (o : Output) : Output :=
  {| output_bytes := output_bytes o; counted := counted o; needs := insert_capability c (needs o) |}.

(** The loop over the new Trees of the snapshot. *)
Definition count_tree (o : Output) (oid : str) : presult Output :=
  kind ← of_core (parse_oid oid);
  if negb (bool_decide (kind = Tree)) then Ok o
  else
    tree ← of_store (get_verified (objects repository) oid);
    tree ← ok_or tree closure_missing;
    count_bytes oid (ob_byte_len tree) o.

(** What an output Record is and which capability it needs. *)
Definition output_record_need (actor_id : str) (value : Value) : presult AiCapability :=
  asserted_by ← require_string value (lit "asserted_by");
  require_equal asserted_by actor_id;;
  match get_str value (lit "record_type") with
  | Some record_type =>
    if str_eqb record_type (lit "analysis_result") then Ok Analyze
    else if str_eqb record_type (lit "claim") then
      payload ← require_object value (lit "payload");
      denied_if (bool_decide (is_Some (get payload (lit "ai_run_ref"))));;
      Ok SubmitClaim
    else denied
  | None => denied
  end.

(** The loop over the produced objects. *)
Definition count_output (candidate : ClosureReport) (base_snapshot : gset str) (actor_id : str) (o : Output) (oid : str)
  : presult Output :=
  node ← ok_or (nodes candidate !! oid) closure_missing;
  '(kind, byte_len) ← ok_or (node_present node) closure_missing;
  o ← (if bool_decide (oid ∈ base_snapshot) then Ok o else count_bytes oid byte_len o);
  match kind with
  | Record =>
    value ← reload_record oid;
    need ← output_record_need actor_id value;
    Ok (add_need need o)
  | Commit => denied
  | _ => Ok o
  end.

Definition role_need (needs : list AiCapability) (output : Value) : list AiCapability :=
  match get_str output (lit "role") with
  | Some role =>
    if str_eqb role (lit "preview") then insert_capability RenderPreview needs
    else if str_eqb role (lit "review_request") then insert_capability RequestReview needs
    else needs
  | None => needs
  end.

Definition require_candidate_output_binding (b : CandidateBinding) : presult (list AiCapability) :=
  verifier ← of_store (verifier_new (objects repository) (graph_limits repository) (tombstone_scan_limits repository));
  candidate ← of_store (verify_uncached verifier (candidate_commit b));
  base ← of_store (verify_uncached verifier (base_commit b));
  reject_if (negb (is_complete candidate) || negb (is_complete base)) closure_missing;;
  candidate_commit_value ← load_structured (candidate_commit b) Commit;
  candidate_snapshot_root ← require_string candidate_commit_value (lit "snapshot");
  candidate_snapshot ← snapshot_object_set (candidate_commit b);
  base_snapshot ← snapshot_object_set (base_commit b);
  outputs ← require_array (activity_payload b) (lit "output_refs");
  output_roots ← reference_oids outputs;
  for_each (fun output => denied_if (negb (bool_decide (output ∈ candidate_snapshot)))) (sorted_set output_roots);;
  let limit := max_objects (graph_limits repository) in
  output_closure ← closure_from limit (edges candidate) output_roots;
  selected ← require_array (context_payload b) (lit "selected_context_refs");
  selected ← string_oids selected;
  input_closure ← closure_from limit (edges candidate) ({[context_pack_oid b]} ∪ selected);
  for_each (require_input_present candidate) (sorted_set input_closure);;
  let produced := filter (fun oid => oid ∈ output_roots \/ oid ∉ input_closure) output_closure in
  parents ← snapshot_parents candidate_snapshot (edges candidate);
  let bound := filter (fun oid => oid ∈ base_snapshot \/ oid = activity_oid b \/ oid = context_pack_oid b \/ oid ∈ produced)
                 candidate_snapshot in
  bound ← bind_parents (size bound + length parents) parents (rev (sorted_set bound)) bound;
  for_each (require_snapshot_object b base_snapshot produced bound candidate_snapshot_root) (sorted_set candidate_snapshot);;
  for_each (require_candidate_node b base input_closure produced) (sorted_nodes candidate);;
  o ← fold_each count_tree {| output_bytes := 0; counted := ∅; needs := [ReadContext; ProposeBranch] |}
        (sorted_set (candidate_snapshot ∖ base_snapshot));
  o ← fold_each (count_output candidate base_snapshot (authenticated_actor_id b)) o (sorted_set produced);
  let needs := foldl role_need (needs o) outputs in
  denied_if (match get (grant_payload b) (lit "max_output_bytes") ≫= as_i64 with
             | Some limit => output_bytes o >? limit mod 2 ^ 64
             | None => false
             end);;
  Ok needs.
End Binding.
