(* ===== verification/Authorization.v ===== *)
(** * Publication of AI proposals

    [CreativeAiRuntime] of crates/synapse-core/src/authorization.rs: the authority
    of one execution is resolved from immutable records ([resolve_ai_authority]),
    checked before the run ([preflight_proposal]) and again when the generated
    objects are published ([publish_proposal], [publish_preflighted]).

    The trusted clock is asked once by the resolver and once by the guard inside
    the Ref transaction; its two answers are the arguments [now] and
    [transaction_now], where [None] is a clock failure. *)

From stdpp Require Import base list numbers strings gmap sets.
From Stdlib Require Import ZArith Lia.
From S2P Require Import Prelude Text RefStore Canonical Oid Registry ObjectStore Closure Repository Policy.
From S2P Require Import Binding.

#[local] Open Scope Z_scope.

Record AiExecutionAuthority := {
  au_actor_id : str;
  au_project_id : str;
  au_principal_id : str;
  au_base_ref : str;
  au_actor_record_oid : str;
  au_principal_actor_record_oid : str;
  au_context_pack_oid : str;
  au_capabilities : list AiCapability;
  au_runtime_capabilities : list AiCapability;
}.

Record AiProposalUpdate := {
  up_ref_name : str;
  up_expected_head : option str;
  up_new_head : str;
  up_message : option str;
  up_activity_oid : str;
}.

Record AiPublicationTarget := {
  tg_ref_name : str;
  tg_expected_head : option str;
  tg_side_effect : AiSideEffectClass;
}.

Record AiGeneratedProposal := {
  ge_new_head : str;
  ge_activity_oid : str;
  ge_message : option str;
}.

Record AiPreflightDecision := {
  pd_actor_id : str;
  pd_project_id : str;
  pd_principal_id : str;
  pd_base_ref : str;
  pd_actor_record_oid : str;
  pd_principal_actor_record_oid : str;
  pd_context_pack_oid : str;
  pd_delegation_grant_oid : str;
  pd_policy_oid : str;
  pd_base_commit_oid : str;
  pd_target_ref_name : str;
  pd_expected_target_head : option str;
  pd_side_effect : AiSideEffectClass;
  pd_exact_capabilities : list AiCapability;
  pd_runtime_capabilities : list AiCapability;
  pd_evaluated_at : Z;
  pd_grant_expires_at : Z;
}.

Record AuthorizationDecision := {
  ad_reflog : ReflogEntry;
  ad_actor_record_oid : str;
  ad_activity_oid : str;
  ad_context_pack_oid : str;
  ad_delegation_grant_oid : str;
  ad_policy_oid : str;
  ad_effective_capabilities : list AiCapability;
}.

Record ResolvedAiAuthority := {
  rs_context_payload : Value;
  rs_grant_payload : Value;
  rs_delegation_grant_oid : str;
  rs_policy_oid : str;
  rs_base_ref_name : str;
  rs_base_commit_oid : str;
  rs_target_ref_name : str;
  rs_expected_target_head : option str;
  rs_side_effect : AiSideEffectClass;
  rs_exact_capabilities : list AiCapability;
  rs_grant_active_from : Z;
  rs_grant_expires_at : Z;
  rs_evaluated_at : Z;
}.

(** ** The binding of a preflight decision *)

Definition require_preflight_authority_binding (authority : AiExecutionAuthority) (decision : AiPreflightDecision)
  : presult unit :=
  let matches :=
    str_eqb (pd_actor_id decision) (au_actor_id authority) &&
    str_eqb (pd_project_id decision) (au_project_id authority) &&
    str_eqb (pd_principal_id decision) (au_principal_id authority) &&
    str_eqb (pd_base_ref decision) (au_base_ref authority) &&
    str_eqb (pd_actor_record_oid decision) (au_actor_record_oid authority) &&
    str_eqb (pd_principal_actor_record_oid decision) (au_principal_actor_record_oid authority) &&
    str_eqb (pd_context_pack_oid decision) (au_context_pack_oid authority) &&
    bool_decide (pd_exact_capabilities decision = normalized_capabilities (au_capabilities authority)) &&
    bool_decide (pd_runtime_capabilities decision = normalized_capabilities (au_runtime_capabilities authority)) in
  if matches then Ok tt else denied.

Definition require_resolved_preflight_binding (resolved : ResolvedAiAuthority) (decision : AiPreflightDecision)
  : presult unit :=
  reject_if (rs_evaluated_at resolved <? pd_evaluated_at decision) RepoClock;;
  let matches :=
    str_eqb (rs_delegation_grant_oid resolved) (pd_delegation_grant_oid decision) &&
    str_eqb (rs_policy_oid resolved) (pd_policy_oid decision) &&
    str_eqb (rs_base_ref_name resolved) (pd_base_ref decision) &&
    str_eqb (rs_base_commit_oid resolved) (pd_base_commit_oid decision) &&
    str_eqb (rs_target_ref_name resolved) (pd_target_ref_name decision) &&
    bool_decide (rs_expected_target_head resolved = pd_expected_target_head decision) &&
    bool_decide (rs_side_effect resolved = pd_side_effect decision) &&
    bool_decide (rs_exact_capabilities resolved = pd_exact_capabilities decision) &&
    (rs_grant_expires_at resolved =? pd_grant_expires_at decision) in
  if matches then Ok tt else denied.

(** The guard the Ref transaction runs first. *)
Definition transaction_guard (resolved : ResolvedAiAuthority) (transaction_now : option Z) : result str unit :=
  now ← ok_or transaction_now (lit "storage_error");
  if now <? rs_evaluated_at resolved then Err (lit "storage_error")
  else if now <? rs_grant_active_from resolved then Err (lit "authorization_denied")
  else if now >=? rs_grant_expires_at resolved then Err (lit "authorization_denied")
  else Ok tt.

Definition optional_commit_oid (oid : option str) : presult unit :=
  match oid with Some oid => of_refs (validate_commit_oid oid) | None => Ok tt end.

Section Runtime.
Context {S : Type} `{BoundedObjectStore S}.
Variable nfc : list char -> list char.
Variable json_pointer : Json -> str -> option (list nat).
Variable registry : SchemaRegistry.
Variable repository : Repository S.
Variable authority : AiExecutionAuthority.

#[local] Abbreviation load_record := (load_record nfc json_pointer registry repository).
#[local] Abbreviation load_structured := (load_structured nfc json_pointer registry repository).

(** ** Resolving authority *)

(** The Grant: who delegates what to whom. *)
Definition load_grant (grant_oid : str) : presult (Value * Value) :=
  grant ← load_record grant_oid (lit "delegation_grant");
  grant_payload ← require_object grant (lit "payload");
  delegate ← require_string grant_payload (lit "delegate_ref");
  require_equal delegate (au_actor_id authority);;
  principal ← require_string grant_payload (lit "principal_ref");
  require_equal principal (au_principal_id authority);;
  asserted_by ← require_string grant (lit "asserted_by");
  require_equal asserted_by (au_principal_id authority);;
  Ok (grant, grant_payload).

Definition load_policy (policy_oid : str) : presult Value :=
  policy ← load_record policy_oid (lit "policy");
  asserted_by ← require_string policy (lit "asserted_by");
  require_equal asserted_by (au_principal_id authority);;
  Ok policy.

(** The payload of the AI Actor snapshot. *)
Definition load_ai_actor : presult Value :=
  actor ← load_record (au_actor_record_oid authority) (lit "actor");
  entity_id ← require_string actor (lit "entity_id");
  require_equal entity_id (au_actor_id authority);;
  actor_payload ← require_object actor (lit "payload");
  actor_kind ← require_string actor_payload (lit "actor_kind");
  require_equal actor_kind (lit "ai_agent");;
  asserted_by ← require_string actor (lit "asserted_by");
  require_equal asserted_by (au_principal_id authority);;
  Ok actor_payload.

Definition require_principal_actor : presult unit :=
  principal_actor ← load_record (au_principal_actor_record_oid authority) (lit "actor");
  entity_id ← require_string principal_actor (lit "entity_id");
  require_equal entity_id (au_principal_id authority);;
  asserted_by ← require_string principal_actor (lit "asserted_by");
  require_equal asserted_by (au_principal_id authority);;
  payload ← require_object principal_actor (lit "payload");
  principal_kind ← require_string payload (lit "actor_kind");
  denied_if (negb (str_eqb principal_kind (lit "human") || str_eqb principal_kind (lit "organization"))).

(** The loop over the requested capabilities. *)
Definition require_effective_capability (policy : Value) (project_id target_ref : str)
    (actor_capabilities grant_capabilities : list AiCapability) (capability : AiCapability) : presult unit :=
  denied_if (negb (has_capability actor_capabilities capability) || negb (has_capability grant_capabilities capability) ||
             negb (has_capability (au_runtime_capabilities authority) capability));;
  authorize_policy_capability policy capability project_id target_ref.

Definition resolve_ai_authority (now : option Z) (target : AiPublicationTarget) : presult ResolvedAiAuthority :=
  of_refs (validate_ref_name (tg_ref_name target));;
  require_ai_namespace (tg_ref_name target);;
  optional_commit_oid (tg_expected_head target);;
  require_human_gated_base (au_base_ref authority);;
  context ← load_record (au_context_pack_oid authority) (lit "context_pack");
  asserted_by ← require_string context (lit "asserted_by");
  require_equal asserted_by (au_principal_id authority);;
  context_payload ← require_object context (lit "payload");
  grant_oid ← require_string context_payload (lit "delegation_grant_ref");
  policy_oid ← require_string context_payload (lit "policy_snapshot_ref");
  '(grant, grant_payload) ← load_grant grant_oid;
  policy ← load_policy policy_oid;
  actor_payload ← load_ai_actor;
  require_principal_actor;;
  base_commit ← require_string context_payload (lit "base_commit");
  expected_base ← require_string context_payload (lit "expected_ref_head");
  require_equal base_commit expected_base;;
  require_array_contains context_payload (lit "selected_context_refs") base_commit;;
  require_present_oid_array repository context_payload (lit "selected_context_refs");;
  require_base_snapshot_bindings nfc json_pointer registry repository base_commit
    [au_actor_record_oid authority; au_principal_actor_record_oid authority; grant_oid; policy_oid];;
  base_ref_name ← require_string context_payload (lit "base_ref_name");
  require_equal base_ref_name (au_base_ref authority);;
  project_id ← require_string grant_payload (lit "project_ref");
  require_equal project_id (au_project_id authority);;
  policy_payload ← require_object policy (lit "payload");
  require_array_contains policy_payload (lit "scope_refs") project_id;;
  data_classification ← require_string context_payload (lit "data_classification");
  require_array_contains grant_payload (lit "data_classes") data_classification;;
  require_project_resource grant_payload project_id;;
  require_writable_prefix grant_payload (tg_ref_name target);;
  let exact_capabilities := normalized_capabilities (au_capabilities authority) in
  denied_if (negb (has_capability exact_capabilities ProposeBranch));;
  ai_profile ← require_object actor_payload (lit "ai_profile");
  actor_values ← require_array ai_profile (lit "capabilities");
  actor_capabilities ← parse_capabilities actor_values;
  grant_values ← require_array grant_payload (lit "capabilities");
  grant_capabilities ← parse_capabilities grant_values;
  for_each (require_effective_capability policy project_id (tg_ref_name target) actor_capabilities grant_capabilities)
    exact_capabilities;;
  recorded_at ← require_string grant (lit "recorded_at");
  active_from ← canonical_timestamp_unix_nanos recorded_at;
  expires ← require_string grant_payload (lit "expires_at");
  expires_at ← canonical_timestamp_unix_nanos expires;
  evaluated_at ← ok_or now RepoClock;
  denied_if (evaluated_at <? active_from);;
  denied_if (evaluated_at >=? expires_at);;
  Ok {| rs_context_payload := context_payload; rs_grant_payload := grant_payload; rs_delegation_grant_oid := grant_oid;
        rs_policy_oid := policy_oid; rs_base_ref_name := base_ref_name; rs_base_commit_oid := base_commit;
        rs_target_ref_name := tg_ref_name target; rs_expected_target_head := tg_expected_head target;
        rs_side_effect := tg_side_effect target; rs_exact_capabilities := exact_capabilities;
        rs_grant_active_from := active_from; rs_grant_expires_at := expires_at; rs_evaluated_at := evaluated_at |}.

(** ** Preflight *)

Definition ref_head (ref_name : str) : presult (option str) :=
  record ← of_refs (RefStore.get ref_name (tables (refs repository)));
  Ok (option_map head record).

Definition preflight_proposal (now : option Z) (target : AiPublicationTarget) : presult AiPreflightDecision :=
  resolved ← resolve_ai_authority now target;
  actual_base ← ref_head (au_base_ref authority);
  reject_if (negb (bool_decide (actual_base = Some (rs_base_commit_oid resolved)))) (RepoCore (Core StaleBase));;
  actual_target ← ref_head (tg_ref_name target);
  reject_if (negb (bool_decide (actual_target = tg_expected_head target)))
    (RepoRefStore (RefStore.RefConflict (tg_ref_name target) (tg_expected_head target) actual_target));;
  Ok {| pd_actor_id := au_actor_id authority; pd_project_id := au_project_id authority;
        pd_principal_id := au_principal_id authority; pd_base_ref := au_base_ref authority;
        pd_actor_record_oid := au_actor_record_oid authority;
        pd_principal_actor_record_oid := au_principal_actor_record_oid authority;
        pd_context_pack_oid := au_context_pack_oid authority;
        pd_delegation_grant_oid := rs_delegation_grant_oid resolved; pd_policy_oid := rs_policy_oid resolved;
        pd_base_commit_oid := rs_base_commit_oid resolved; pd_target_ref_name := tg_ref_name target;
        pd_expected_target_head := tg_expected_head target; pd_side_effect := tg_side_effect target;
        pd_exact_capabilities := rs_exact_capabilities resolved;
        pd_runtime_capabilities := normalized_capabilities (au_runtime_capabilities authority);
        pd_evaluated_at := rs_evaluated_at resolved; pd_grant_expires_at := rs_grant_expires_at resolved |}.

(** ** Publication *)

(** The checks of the candidate Commit and the Activity against the authority: the Activity's
    payload, its side effect class and the Grant it names. *)
Definition require_activity (request : AiProposalUpdate) (commit activity : Value)
  : presult (Value * Value * AiSideEffectClass * str) :=
  commit_kind ← require_string commit (lit "commit_kind");
  require_equal commit_kind (lit "checkpoint");;
  author ← require_string commit (lit "author_ref");
  require_equal author (au_actor_id authority);;
  require_array_contains commit (lit "transition_refs") (up_activity_oid request);;
  activity_payload ← require_object activity (lit "payload");
  activity_kind ← require_string activity_payload (lit "activity_kind");
  require_equal activity_kind (lit "ai_run");;
  ai_run ← require_object activity_payload (lit "ai_run");
  status ← require_string ai_run (lit "status");
  require_equal status (lit "proposal_ready");;
  activity_side_effect ← or_denied (get_str activity_payload (lit "side_effect_class") ≫= side_effect_parse);
  agent_id ← require_string ai_run (lit "agent_ref");
  principal_id ← require_string ai_run (lit "responsible_principal_ref");
  require_equal agent_id (au_actor_id authority);;
  require_equal principal_id (au_principal_id authority);;
  require_role_actor activity_payload (lit "agent") agent_id;;
  require_role_actor activity_payload (lit "responsible_principal") principal_id;;
  asserted_by ← require_string activity (lit "asserted_by");
  require_equal asserted_by agent_id;;
  context_pack_oid ← require_string ai_run (lit "context_pack_ref");
  require_equal context_pack_oid (au_context_pack_oid authority);;
  grant_oid ← require_string ai_run (lit "delegation_grant_ref");
  require_role_oid activity_payload (lit "input_refs") (lit "context") context_pack_oid;;
  Ok (activity_payload, ai_run, activity_side_effect, grant_oid).

(** The checks of the candidate against the resolved authority: the capabilities of the run. *)
Definition require_candidate (request : AiProposalUpdate) (commit activity_payload ai_run : Value)
    (resolved : ResolvedAiAuthority) : presult (list AiCapability) :=
  let base_commit := rs_base_commit_oid resolved in
  require_direct_base_parent commit base_commit;;
  require_candidate_preserves_base_snapshot_objects nfc json_pointer registry repository (up_new_head request) base_commit;;
  require_present_activity_references repository activity_payload;;
  required_capabilities ← require_candidate_output_binding nfc json_pointer registry repository
    {| candidate_commit := up_new_head request; base_commit := base_commit; activity_oid := up_activity_oid request;
       context_pack_oid := au_context_pack_oid authority; authenticated_actor_id := au_actor_id authority;
       context_payload := rs_context_payload resolved; activity_payload := activity_payload;
       grant_payload := rs_grant_payload resolved |};
  requested_values ← require_array ai_run (lit "requested_capabilities");
  requested_capabilities ← parse_capabilities requested_values;
  denied_if (negb (bool_decide (requested_capabilities = normalized_capabilities (rs_exact_capabilities resolved))));;
  denied_if (negb (has_capability requested_capabilities ProposeBranch));;
  for_each (fun capability => denied_if (negb (has_capability requested_capabilities capability))) required_capabilities;;
  Ok requested_capabilities.

(** Everything [publish_proposal_internal] does before the Ref transaction. *)
Definition authorize_proposal (request : AiProposalUpdate) (required_side_effect : option AiSideEffectClass)
    (preflight : option AiPreflightDecision) (now : option Z)
  : presult (PreparedClosureVerifier (S := S) * ResolvedAiAuthority * RefUpdate * list AiCapability) :=
  of_refs (validate_ref_name (up_ref_name request));;
  require_ai_namespace (up_ref_name request);;
  of_refs (validate_commit_oid (up_new_head request));;
  optional_commit_oid (up_expected_head request);;
  require_oid_kind (up_activity_oid request) Record;;
  require_human_gated_base (au_base_ref authority);;
  closure_verifier ←
    of_store (verifier_new (objects repository) (graph_limits repository) (tombstone_scan_limits repository));
  of_refs (map_err Validation (validate_prepared_head closure_verifier (up_new_head request)));;
  commit ← load_structured (up_new_head request) Commit;
  activity ← load_record (up_activity_oid request) (lit "activity");
  '(activity_payload, ai_run, activity_side_effect, grant_oid) ← require_activity request commit activity;
  let authorized_side_effect := default activity_side_effect required_side_effect in
  resolved ← resolve_ai_authority now
    {| tg_ref_name := up_ref_name request; tg_expected_head := up_expected_head request;
       tg_side_effect := authorized_side_effect |};
  match preflight with Some decision => require_resolved_preflight_binding resolved decision | None => Ok tt end;;
  denied_if (negb (bool_decide (activity_side_effect = authorized_side_effect)));;
  require_equal grant_oid (rs_delegation_grant_oid resolved);;
  requested_capabilities ← require_candidate request commit activity_payload ai_run resolved;
  reject_if (negb (in_i64 (rs_evaluated_at resolved))) RepoClock;;
  Ok (closure_verifier, resolved,
      {| u_ref_name := up_ref_name request; u_expected_head := up_expected_head request; u_new_head := up_new_head request;
         u_metadata := {| md_occurred_at := rs_evaluated_at resolved; md_actor := Some (au_actor_id authority);
                          md_message := up_message request |} |},
      requested_capabilities).

(** A stale base is reported as such. *)
Definition publication_error (e : RefStoreError) : RepositoryError :=
  match e with
  | PreconditionFailed _ _ _ => RepoCore (Core StaleBase)
  | e => RepoRefStore e
  end.

Definition publish_proposal_internal (request : AiProposalUpdate) (required_side_effect : option AiSideEffectClass)
    (preflight : option AiPreflightDecision) (now transaction_now : option Z)
  : Repository S * presult AuthorizationDecision :=
  match authorize_proposal request required_side_effect preflight now with
  | Err e => (repository, Err e)
  | Ok (closure_verifier, resolved, update, requested_capabilities) =>
    let precondition :=
      {| pre_ref_name := rs_base_ref_name resolved; pre_expected_head := Some (rs_base_commit_oid resolved) |} in
    let '(store, entry) :=
      compare_and_swap_with_preconditions_and_guard update [precondition]
        (validate_prepared_head closure_verifier) (transaction_guard resolved transaction_now) (refs repository) in
    (set_refs repository store,
     reflog ← map_err publication_error entry;
     Ok {| ad_reflog := reflog; ad_actor_record_oid := au_actor_record_oid authority;
           ad_activity_oid := up_activity_oid request; ad_context_pack_oid := au_context_pack_oid authority;
           ad_delegation_grant_oid := rs_delegation_grant_oid resolved; ad_policy_oid := rs_policy_oid resolved;
           ad_effective_capabilities := requested_capabilities |})
  end.

Definition publish_proposal (request : AiProposalUpdate) (now transaction_now : option Z)
  : Repository S * presult AuthorizationDecision :=
  publish_proposal_internal request None None now transaction_now.

Definition publish_preflighted (decision : AiPreflightDecision) (generated : AiGeneratedProposal)
    (now transaction_now : option Z) : Repository S * presult AuthorizationDecision :=
  match require_preflight_authority_binding authority decision with
  | Err e => (repository, Err e)
  | Ok _ =>
    publish_proposal_internal
      {| up_ref_name := pd_target_ref_name decision; up_expected_head := pd_expected_target_head decision;
         up_new_head := ge_new_head generated; up_message := ge_message generated;
         up_activity_oid := ge_activity_oid generated |}
      (Some (pd_side_effect decision)) (Some decision) now transaction_now
  end.
End Runtime.
