(* ===== verification/BindingFacts.v ===== *)
(** * Snapshots and closures of a candidate: what the loops compute, and that they end *)

From stdpp Require Import base list numbers strings gmap sets relations.
From Stdlib Require Import ZArith Lia.
From S2P Require Import Prelude Sorting Text RefStore Canonical CanonicalLaws Oid SchemaSemantics Registry RegistryProps ObjectStore.
From S2P Require Import Closure Repository Policy Binding.

#[local] Open Scope Z_scope.

(** ** Loops *)

Lemma Forall2_elem_l {A B} (P : A -> B -> Prop) l k x : Forall2 P l k -> x ∈ l -> exists y, y ∈ k /\ P x y.
Proof.
  intros HF [i Hi]%list_elem_of_lookup. destruct (Forall2_lookup_l _ _ _ _ _ HF Hi) as (y & Hy & HP).
  exists y. split; [by eapply list_elem_of_lookup_2|done].
Qed.

Lemma Forall2_elem_r {A B} (P : A -> B -> Prop) l k y : Forall2 P l k -> y ∈ k -> exists x, x ∈ l /\ P x y.
Proof.
  intros HF [i Hi]%list_elem_of_lookup. destruct (Forall2_lookup_r _ _ _ _ _ HF Hi) as (x & Hx & HP).
  exists x. split; [by eapply list_elem_of_lookup_2|done].
Qed.

Lemma elem_of_rev {A} (x : A) l : x ∈ rev l <-> x ∈ l.
Proof. rewrite !list_elem_of_In. symmetry. apply in_rev. Qed.

Lemma sorted_set_elem x s : x ∈ sorted_set s <-> x ∈ s.
Proof. unfold sorted_set. by rewrite sort_by_perm, elem_of_elements. Qed.

Lemma sorted_set_length s : length (sorted_set s) = size s.
Proof. unfold sorted_set. by rewrite sort_by_perm. Qed.

Lemma sorted_nodes_elem x r : x ∈ sorted_nodes r <-> nodes r !! fst x = Some (snd x).
Proof. destruct x. unfold sorted_nodes. by rewrite sort_by_perm, elem_of_map_to_list. Qed.

Lemma denied_if_Ok b u : denied_if b = Ok u <-> b = false.
Proof. apply reject_if_Ok. Qed.

Lemma or_denied_Ok {A} (o : option A) a : or_denied o = Ok a <-> o = Some a.
Proof. apply ok_or_Ok. Qed.

Lemma require_equal_Ok a b u : require_equal a b = Ok u <-> a = b.
Proof. unfold require_equal. destruct u, (str_eqb a b) eqn:E; rewrite <- str_eqb_eq, E; split; congruence. Qed.

Lemma require_string_Ok v k s : require_string v k = Ok s <-> get_str v k = Some s.
Proof. unfold require_string. apply or_denied_Ok. Qed.

Lemma require_array_Ok v k l : require_array v k = Ok l <-> get v k = Some (Arr l).
Proof.
  unfold require_array. rewrite or_denied_Ok, bind_Some. split.
  - intros (x & -> & Hx). destruct x; simplify_eq/=. done.
  - intros ->. by eexists.
Qed.

Lemma require_array_contains_Ok v k s u :
  require_array_contains v k s = Ok u <-> exists l, get v k = Some (Arr l) /\ Str s ∈ l.
Proof.
  destruct u. unfold require_array_contains. rewrite bind_Ok. setoid_rewrite require_array_Ok. split.
  - intros (l & Hl & H). exists l. split; [done|]. destruct (existsb _ l) eqn:E; [|done].
    apply existsb_exists in E as (x & Hx & E%bool_decide_eq_true). destruct x; simplify_eq/=. by apply list_elem_of_In.
  - intros (l & Hl & Hin). exists l. split; [done|]. assert (existsb (fun v => bool_decide (as_str v = Some s)) l = true) as ->; [|done].
    apply existsb_exists. exists (Str s). split; [by apply list_elem_of_In|by apply bool_decide_eq_true].
Qed.

(** [auth_inv]: decompose every hypothesis [_ = Ok _] of an authorization step. *)
Ltac auth_inv :=
  repeat (progress result_inv || match goal with
  | H : denied_if _ = Ok _ |- _ => apply denied_if_Ok in H
  | H : or_denied _ = Ok _ |- _ => apply or_denied_Ok in H
  | H : require_equal _ _ = Ok _ |- _ => apply require_equal_Ok in H
  | H : require_string _ _ = Ok _ |- _ => apply require_string_Ok in H
  | H : require_array _ _ = Ok _ |- _ => apply require_array_Ok in H
  | H : require_array_contains _ _ _ = Ok _ |- _ => apply require_array_contains_Ok in H
  | H : for_each _ _ = Ok _ |- _ => apply for_each_Ok in H
  | H : of_core _ = Ok _ |- _ => apply map_err_Ok in H
  | H : of_store _ = Ok _ |- _ => apply map_err_Ok in H
  | H : of_refs _ = Ok _ |- _ => apply map_err_Ok in H
  end).

Lemma require_object_Ok v k o : require_object v k = Ok o -> get v k = Some o.
Proof. unfold require_object. intros H'. auth_inv. done. Qed.

Ltac object_inv := repeat match goal with H : require_object _ _ = Ok _ |- _ => apply require_object_Ok in H end.

Lemma existsb_strings f values : existsb f (strings values) = true -> exists s, Str s ∈ values /\ f s = true.
Proof.
  intros (s & Hs & Hf)%existsb_exists. apply list_elem_of_In, list_elem_of_omap in Hs as (v & Hv & Es).
  exists s. split; [|done]. by destruct v; simplify_eq/=.
Qed.

(** The first segment of a Ref name. *)
Definition namespace (ref_name : str) : option str := split_on 47 ref_name !! 0%nat.

(** ** Closures over the edges of a report *)

Definition edge_rel (edges : list GraphEdge) (a b : str) : Prop := exists e, e ∈ edges /\ source e = a /\ target e = b.

Lemma outgoing_spec edges a b : b ∈ outgoing edges a <-> edge_rel edges a b.
Proof.
  unfold outgoing, edge_rel. rewrite list_elem_of_fmap. setoid_rewrite list_elem_of_In. setoid_rewrite filter_In.
  setoid_rewrite str_eqb_eq. naive_solver.
Qed.

Lemma closure_loop_Ok limit edges fuel : forall pending closure c,
  closure_loop fuel limit edges pending closure = Ok c ->
  (forall x y, x ∈ closure -> edge_rel edges x y -> y ∈ closure \/ y ∈ pending) ->
  closure ⊆ c /\ (forall x, x ∈ pending -> x ∈ c) /\ (forall x y, x ∈ c -> edge_rel edges x y -> y ∈ c) /\
  (forall x, x ∈ c -> x ∈ closure \/ exists p, p ∈ pending /\ rtc (edge_rel edges) p x).
Proof.
  induction fuel as [|fuel IH]; intros [|oid pending] closure c Hl Hc; cbn [closure_loop] in Hl; try done.
  1,2: injection Hl as <-; split_and!; [done|set_solver| |by left]; intros x y Hx Hxy;
       destruct (Hc x y Hx Hxy) as [|Hn]; [done|by apply not_elem_of_nil in Hn].
  case_bool_decide as Hin.
  - apply IH in Hl as (H1 & H2 & H3 & H4); [|intros x y Hx Hxy; destruct (Hc x y Hx Hxy); set_solver].
    split_and!; [done|set_solver|done|]. intros x Hx. destruct (H4 x Hx) as [|(p & Hp & ?)]; [by left|]. right. exists p. set_solver.
  - destruct (set_count _ >? limit); [done|]. apply IH in Hl as (H1 & H2 & H3 & H4).
    + split_and!; [set_solver| |done|].
      * intros x [->|Hx]%elem_of_cons; [set_solver|]. apply H2, elem_of_app. by right.
      * intros x Hx. destruct (H4 x Hx) as [Hx'|(p & Hp & Hpx)].
        -- apply elem_of_union in Hx' as [->%elem_of_singleton|]; [|by left]. right. exists oid. split; [by left|done].
        -- right. apply elem_of_app in Hp as [Hp|Hp].
           ++ apply elem_of_rev, outgoing_spec in Hp. exists oid. split; [by left|]. by eapply rtc_l.
           ++ exists p. split; [by right|done].
    + intros x y [->%elem_of_singleton|Hx]%elem_of_union Hxy.
      * right. apply elem_of_app. left. by apply elem_of_rev, outgoing_spec.
      * destruct (Hc x y Hx Hxy) as [|[->|]%elem_of_cons]; [set_solver..|]. right. apply elem_of_app. by right.
Qed.

Lemma closure_from_Ok limit edges roots c x :
  closure_from limit edges roots = Ok c -> (x ∈ c <-> exists r, r ∈ roots /\ rtc (edge_rel edges) r x).
Proof.
  intros H. apply closure_loop_Ok in H as (_ & H2 & H3 & H4); [|set_solver]. split.
  - intros [Hx|(p & Hp & Hpx)]%H4; [set_solver|]. exists p. split; [|done].
    by apply elem_of_rev, sorted_set_elem in Hp.
  - intros (r & Hr & Hx). assert (r ∈ c) as Hrc by (by apply H2, elem_of_rev, sorted_set_elem).
    clear -Hx Hrc H3. induction Hx; eauto.
Qed.

(** ** Termination *)

(** An error is not an internal one: no failed [expect], no exhausted loop bound.  The process
    may end on an oversized confidence. *)
Definition coded_or_aborted (c : CoreError) : Prop := (exists code, c = Core code) \/ c = Aborted.
Definition answers {A} (r : presult A) : Prop := forall c, r = Err (RepoCore c) -> coded_or_aborted c.

Lemma answers_Ok {A} (a : A) : answers (Ok a).
Proof. by intros c. Qed.

Lemma answers_bind {A B} (m : presult A) (f : A -> presult B) :
  answers m -> (forall a, m = Ok a -> answers (f a)) -> answers (m ≫= f).
Proof. intros Hm Hf c. rewrite bind_Err. intros [?|(a & Ha & ?)]; [by apply Hm|by eapply Hf]. Qed.

Lemma answers_code {A} code : answers (A := A) (repo_fail code).
Proof. intros c [= <-]. left. by eexists. Qed.

Lemma answers_reject b e : (forall c, e = RepoCore c -> coded_or_aborted c) -> answers (reject_if b e).
Proof. intros He c. destruct b; [|done]. intros [= ->]. by apply He. Qed.

Lemma answers_ok_or {A} (o : option A) e : (forall c, e = RepoCore c -> coded_or_aborted c) -> answers (ok_or o e).
Proof. intros He c. destruct o; [done|]. intros [= ->]. by apply He. Qed.

Lemma answers_of_core {A} (r : cresult A) : coded r -> answers (of_core r).
Proof. intros Hr c. destruct r as [|e]; [done|]. intros [= <-]. left. by apply Hr. Qed.

Lemma answers_of_store {A} (r : sresult A) : answers (of_store r).
Proof. intros c. by destruct r. Qed.

Lemma answers_of_refs {A} (r : rresult A) : answers (of_refs r).
Proof. intros c. by destruct r. Qed.

Lemma answers_for_each {A} (f : A -> presult unit) l : (forall x, x ∈ l -> answers (f x)) -> answers (for_each f l).
Proof.
  induction l as [|x l IH]; intros Hf; [apply answers_Ok|]. apply answers_bind; [apply Hf; by left|].
  intros _ _. apply IH. intros y Hy. apply Hf. by right.
Qed.

Lemma answers_fold_each {A B} (f : B -> A -> presult B) l :
  (forall b x, x ∈ l -> answers (f b x)) -> forall b, answers (fold_each f b l).
Proof.
  induction l as [|x l IH]; intros Hf b; [apply answers_Ok|]. apply answers_bind; [apply Hf; by left|].
  intros b' _. apply IH. intros b'' y Hy. apply Hf. by right.
Qed.

Ltac answers_step :=
  match goal with
  | |- answers (Ok _) => apply answers_Ok
  | |- answers (_ ≫= _) => apply answers_bind; [|intros ? ?]
  | |- answers (repo_fail _) => apply answers_code
  | |- answers (reject_if _ _) => apply answers_reject; intros ? [= <-]; left; by eexists
  | |- answers (denied_if _) => apply answers_reject; intros ? [= <-]; left; by eexists
  | |- answers (ok_or _ _) => apply answers_ok_or; intros ? [= <-]; left; by eexists
  | |- answers (or_denied _) => apply answers_ok_or; intros ? [= <-]; left; by eexists
  | |- answers (of_core (parse_oid _)) => apply answers_of_core, coded_parse_oid
  | |- answers (of_store _) => apply answers_of_store
  | |- answers (of_refs _) => apply answers_of_refs
  | |- answers (for_each _ _) => apply answers_for_each; intros ? ?
  | |- answers (fold_each _ _ _) => apply answers_fold_each; intros ? ? ?
  | |- answers (require_string _ _) => unfold require_string
  | |- answers (require_array _ _) => unfold require_array
  | |- answers (require_object _ _) => unfold require_object
  | |- answers (require_equal _ _) => unfold require_equal
  | |- answers (require_array_contains _ _ _) => unfold require_array_contains
  | |- answers (match ?x with _ => _ end) => destruct x eqn:?
  | |- answers (let _ := _ in _) => cbv zeta
  end.
Ltac answers_auto := repeat (answers_step || assumption).

(** The edges a closure has not followed yet. *)
Definition unfollowed (edges : list GraphEdge) (closure : gset str) : nat :=
  length (List.filter (fun e => negb (bool_decide (source e ∈ closure))) edges).

Lemma unfollowed_visit edges closure oid :
  oid ∉ closure -> unfollowed edges closure = (length (outgoing edges oid) + unfollowed edges ({[oid]} ∪ closure))%nat.
Proof.
  intros Hn. unfold unfollowed, outgoing. rewrite length_map. induction edges as [|e edges IH]; [done|]. cbn [List.filter].
  destruct (str_eqb (source e) oid) eqn:E.
  - apply str_eqb_eq in E. rewrite (bool_decide_eq_false_2 (source e ∈ closure)), (bool_decide_eq_true_2 (source e ∈ _)) by set_solver.
    cbn [negb length]. lia.
  - assert (source e <> oid) as Hne by (intros <-; by rewrite (proj2 (str_eqb_eq _ _) eq_refl) in E).
    rewrite (bool_decide_ext (source e ∈ {[oid]} ∪ closure) (source e ∈ closure)) by set_solver.
    destruct (negb _); cbn [length]; lia.
Qed.

Lemma closure_loop_answers limit edges fuel : forall pending closure,
  (length pending + unfollowed edges closure <= fuel)%nat -> answers (closure_loop fuel limit edges pending closure).
Proof.
  induction fuel as [|fuel IH]; intros [|oid pending] closure Hf; cbn [closure_loop length] in *; try apply answers_Ok; [lia|].
  case_bool_decide as Hin; [apply IH; lia|]. destruct (_ >? _); [by intros ? [= <-]; left; eexists|].
  apply IH. rewrite (unfollowed_visit edges closure oid Hin) in Hf. rewrite length_app, length_rev. lia.
Qed.

Lemma closure_from_answers limit edges roots : answers (closure_from limit edges roots).
Proof.
  apply closure_loop_answers. rewrite length_rev, sorted_set_length.
  assert (unfollowed edges ∅ <= length edges)%nat; [|lia]. unfold unfollowed. apply filter_length_le.
Qed.

(** The parents loop pushes each Tree once. *)
Definition unbound (parents : list (str * str)) (bound : gset str) : nat :=
  length (List.filter (fun p => negb (bool_decide (snd p ∈ bound))) parents).

Lemma unbound_mono parents b c : b ⊆ c -> (unbound parents c <= unbound parents b)%nat.
Proof.
  intros Hbc. unfold unbound. induction parents as [|p parents IH]; [done|]. cbn [List.filter].
  destruct (decide (snd p ∈ b)), (decide (snd p ∈ c)); rewrite ?bool_decide_eq_true_2, ?bool_decide_eq_false_2 by done;
    cbn [negb length]; try lia. set_solver.
Qed.

Lemma unbound_insert parents b x : x ∈ map snd parents -> x ∉ b -> (unbound parents ({[x]} ∪ b) < unbound parents b)%nat.
Proof.
  intros Hx Hn. unfold unbound. induction parents as [|p parents IH]; [by apply not_elem_of_nil in Hx|]. cbn [List.filter map] in *.
  pose proof (unbound_mono parents b ({[x]} ∪ b) ltac:(set_solver)) as Hm. unfold unbound in Hm.
  apply elem_of_cons in Hx as [->|Hx].
  - rewrite (bool_decide_eq_true_2 (snd p ∈ {[snd p]} ∪ b)), (bool_decide_eq_false_2 (snd p ∈ b)) by set_solver. cbn [negb length]. lia.
  - specialize (IH Hx). destruct (decide (snd p ∈ b)).
    + rewrite !bool_decide_eq_true_2 by set_solver. cbn [negb length]. lia.
    + rewrite (bool_decide_eq_false_2 (snd p ∈ b)) by done. destruct (bool_decide _); cbn [negb length]; lia.
Qed.

Lemma push_parents_measure all parents : Forall (fun x => x ∈ map snd all) parents -> forall bound pending b p,
  push_parents parents bound pending = (b, p) -> (length p + unbound all b <= length pending + unbound all bound)%nat.
Proof.
  induction 1 as [|x parents Hx _ IH]; intros bound pending b p H; cbn [push_parents] in H; [by simplify_eq|].
  case_bool_decide as Hin; [by apply IH|]. apply IH in H. cbn [length] in H.
  pose proof (unbound_insert all bound x Hx Hin). lia.
Qed.

Lemma bind_parents_answers parents fuel : forall pending bound,
  (length pending + unbound parents bound <= fuel)%nat -> answers (bind_parents fuel parents pending bound).
Proof.
  induction fuel as [|fuel IH]; intros [|oid pending] bound Hf; cbn [bind_parents length] in *; try apply answers_Ok; [lia|].
  destruct (push_parents _ _ _) as [b p] eqn:E. apply IH. apply (push_parents_measure parents) in E; [lia|].
  unfold parents_of. apply Forall_forall. intros x (y & -> & Hy)%list_elem_of_fmap.
  apply list_elem_of_fmap. exists y. split; [done|]. apply list_elem_of_In in Hy. apply filter_In in Hy as [Hy _]. by apply list_elem_of_In.
Qed.

Lemma snapshot_parents_answers snapshot edges : answers (snapshot_parents snapshot edges).
Proof. induction edges as [|e edges IH]; cbn [snapshot_parents]; answers_auto. Qed.

Section Facts.
Context {S : Type} `{BoundedObjectStore S}.
Variable nfc : list char -> list char.
Variable json_pointer : Json -> str -> option (list nat).
Variable registry : SchemaRegistry.
Variable repository : Repository S.

#[local] Abbreviation load_structured := (load_structured nfc json_pointer registry repository).
#[local] Abbreviation snapshot_loop := (snapshot_loop nfc json_pointer registry repository).
#[local] Abbreviation snapshot_object_set := (snapshot_object_set nfc json_pointer registry repository).

Lemma answers_validate v : answers (schema_validate nfc json_pointer registry v).
Proof.
  intros c Hc. unfold schema_validate, of_core in Hc. destruct (validate _ _ _ _) as [|e] eqn:Hv; [done|].
  injection Hc as ->. apply validate_codes in Hv as [?|[-> _]]; [by left|by right].
Qed.

Lemma answers_load_structured oid kind : answers (load_structured oid kind).
Proof. unfold Binding.load_structured, closure_missing. repeat (apply answers_validate || answers_step). Qed.

Lemma answers_load_record oid t : answers (load_record nfc json_pointer registry repository oid t).
Proof. unfold load_record. repeat (apply answers_load_structured || answers_step). Qed.

(** ** The objects of a snapshot *)

(** [b] is an entry of the Tree [a]. *)
Definition tree_entry (a b : str) : Prop :=
  exists tree entries k e, load_structured a Tree = Ok tree /\ get tree (lit "entries") = Some (Obj entries) /\
    (k, e) ∈ entries /\ get_str e (lit "oid") = Some b.

Lemma tree_entry_kind a b : tree_entry a b -> parse_oid a = Ok Tree.
Proof.
  intros (tree & _ & _ & _ & Hl & _). unfold Binding.load_structured in Hl. auth_inv. bool_props. by subst.
Qed.

Lemma snapshot_entries_Ok depth entries : forall s s',
  snapshot_entries repository depth entries s = Ok s' ->
  exists oids, Forall2 (fun e oid => get_str (snd e) (lit "oid") = Some oid) entries oids /\
    (forall x, x ∈ sn_objects s' <-> x ∈ oids \/ x ∈ sn_objects s) /\
    (forall x, x ∈ map fst (sn_pending s') <-> (x ∈ oids /\ parse_oid x = Ok Tree) \/ x ∈ map fst (sn_pending s)).
Proof.
  induction entries as [|[k e] entries IH]; intros s s' Hs; cbn [snapshot_entries] in Hs.
  { simplify_eq. exists []. split_and!; [constructor|set_solver|]. intros x. split; [by right|]. by intros [[?%not_elem_of_nil _]|]. }
  auth_inv. apply IH in Hs as (oids & HF & Ho & Hp).
  match goal with H : get_str e _ = Some ?o |- _ => exists (o :: oids); rename o into oid end.
  split_and!; [by constructor|..]; cbn [sn_objects sn_pending] in *.
  - intros x. rewrite Ho. set_solver.
  - intros x. rewrite Hp, elem_of_cons. case_bool_decide as Hk; subst; cbn [map]; rewrite ?elem_of_cons.
    + split; [intros [[? ?]|[->|?]]|intros [[[->|?] ?]|?]]; auto.
    + split; [intros [[? ?]|?]|intros [[[->|?] ?]|?]]; auto. congruence.
Qed.

(** What [snapshot_loop] maintains: everything found is reachable, and the entries of every
    traversed Tree are found, its subtrees traversed or pending. *)
Record snapshot_inv (snapshot_root : str) (traversed : gset str) (s : Snapshot) : Prop := {
  si_reach : forall x, x ∈ sn_objects s \/ x ∈ map fst (sn_pending s) -> rtc tree_entry snapshot_root x;
  si_trees : forall x, x ∈ sn_objects s -> parse_oid x = Ok Tree -> x ∈ traversed \/ x ∈ map fst (sn_pending s);
  si_entries : forall x y, x ∈ traversed -> tree_entry x y -> y ∈ sn_objects s;
  si_root : snapshot_root ∈ sn_objects s \/ snapshot_root ∈ map fst (sn_pending s);
  si_traversed : traversed ⊆ sn_objects s;
}.

Lemma snapshot_inv_skip snapshot_root traversed s oid depth pending :
  sn_pending s = (oid, depth) :: pending -> oid ∈ traversed -> snapshot_inv snapshot_root traversed s ->
  snapshot_inv snapshot_root traversed {| sn_objects := sn_objects s; sn_pending := pending; sn_edges := sn_edges s |}.
Proof.
  intros Ep Hin [Hr Ht He Hroot Hsub]. rewrite Ep in *. cbn [map fst] in *. split; cbn [sn_objects sn_pending]; [| |done| |done].
  - intros x [?|?]; apply Hr; [by left|right; by right].
  - intros x Hx Hk. destruct (Ht x Hx Hk) as [|[->|]%elem_of_cons]; auto.
  - destruct Hroot as [|[->|]%elem_of_cons]; auto.
Qed.

Lemma snapshot_inv_tree snapshot_root traversed s oid depth pending tree entries s' :
  sn_pending s = (oid, depth) :: pending -> load_structured oid Tree = Ok tree ->
  get tree (lit "entries") = Some (Obj entries) ->
  snapshot_entries repository depth entries
    {| sn_objects := {[oid]} ∪ sn_objects s; sn_pending := pending; sn_edges := sn_edges s |} = Ok s' ->
  snapshot_inv snapshot_root traversed s -> snapshot_inv snapshot_root ({[oid]} ∪ traversed) s'.
Proof.
  intros Ep Hl Hent Hs [Hr Ht He Hroot Hsub]. rewrite Ep in *. cbn [map fst] in *.
  apply snapshot_entries_Ok in Hs as (oids & HF & Ho & Hp). cbn [sn_objects sn_pending] in *.
  assert (rtc tree_entry snapshot_root oid) as Hoid by (apply Hr; right; by left).
  assert (forall y, tree_entry oid y <-> y ∈ oids) as Hte.
  { intros y. split.
    - intros (t & es & k & e & Hl' & He' & Hin & Hy). rewrite Hl in Hl'. injection Hl' as <-. rewrite Hent in He'. injection He' as <-.
      destruct (Forall2_elem_l _ _ _ _ HF Hin) as (z & Hz & Hz'). cbn in Hz'. congruence.
    - intros Hy. destruct (Forall2_elem_r _ _ _ _ HF Hy) as ([k e] & Hin & Hy'). by exists tree, entries, k, e. }
  split.
  - intros x [Hx|Hx].
    + apply Ho in Hx as [Hx|Hx]; [eapply rtc_r; [exact Hoid|by apply Hte]|].
      apply elem_of_union in Hx as [Hx%elem_of_singleton|Hx]; [by rewrite Hx|apply Hr; by left].
    + apply Hp in Hx as [[Hx _]|Hx]; [eapply rtc_r; [exact Hoid|by apply Hte]|]. apply Hr. right. by right.
  - intros x Hx Hk. rewrite Hp. apply Ho in Hx as [Hx|Hx]; [auto|].
    apply elem_of_union in Hx as [Hx|Hx]; [left; apply elem_of_union; by left|].
    destruct (Ht x Hx Hk) as [|[->|]%elem_of_cons]; auto; left; apply elem_of_union; [by right|left; by apply elem_of_singleton].
  - intros x y Hx Hxy. apply Ho. apply elem_of_union in Hx as [Hx%elem_of_singleton|Hx].
    + subst x. left. by apply Hte.
    + right. apply elem_of_union. right. by eapply He.
  - rewrite Ho, Hp. destruct Hroot as [|[->|]%elem_of_cons]; auto; left; right; apply elem_of_union; [by right|left; by apply elem_of_singleton].
  - intros x Hx. apply Ho. right. apply elem_of_union. apply elem_of_union in Hx as [|]; [by left|right; by apply Hsub].
Qed.

Lemma snapshot_loop_Ok snapshot_root fuel : forall traversed s c,
  snapshot_loop fuel traversed s = Ok c -> snapshot_inv snapshot_root traversed s ->
  forall x, x ∈ c <-> rtc tree_entry snapshot_root x.
Proof.
  induction fuel as [|fuel IH]; intros traversed s c Hs Hi; cbn [Binding.snapshot_loop] in Hs;
    destruct (sn_pending s) as [|[oid depth] pending] eqn:Ep; try done.
  1,2: injection Hs as <-; destruct Hi as [Hr Ht He Hroot Hsub]; rewrite Ep in *; cbn [map] in *;
    intros x; split; [intros Hx; apply Hr; by left|];
    revert x; apply rtc_ind_r; [destruct Hroot as [|Hn]; [done|by apply not_elem_of_nil in Hn]|];
    intros y z _ Hyz Hy; apply (He y z); [|done];
    destruct (Ht y Hy (tree_entry_kind _ _ Hyz)) as [|Hn]; [done|by apply not_elem_of_nil in Hn].
  case_bool_decide as Hin.
  - eapply IH; [exact Hs|]. by eapply snapshot_inv_skip.
  - unfold require_object in Hs. auth_inv.
    match goal with H : get ?t (lit "entries") = Some ?v, H' : as_object ?v = Some ?es |- _ =>
      assert (v = Obj es) as Hv by (by destruct v; simplify_eq/=); rewrite Hv in H; rename H into Hget end.
    eapply IH; [exact Hs|]. eapply snapshot_inv_tree; eauto.
Qed.

(** The objects of a snapshot are exactly what is reachable from its root through Trees. *)
Lemma snapshot_object_set_Ok commit_oid c x :
  snapshot_object_set commit_oid = Ok c ->
  exists commit root, load_structured commit_oid Commit = Ok commit /\ get_str commit (lit "snapshot") = Some root /\
    (x ∈ c <-> rtc tree_entry root x).
Proof.
  unfold Binding.snapshot_object_set. intros Hs. auth_inv. do 2 eexists. split_and!; [done..|].
  eapply snapshot_loop_Ok; [exact Hs|]. split; cbn.
  - intros y [Hy|Hy]; [set_solver|]. apply list_elem_of_singleton in Hy as ->. done.
  - set_solver.
  - set_solver.
  - right. by left.
  - set_solver.
Qed.

(** ** Every loop of the binding ends *)

Definition snapshot_work (s : Snapshot) : nat :=
  length (sn_pending s) + Z.to_nat (max_edges (graph_limits repository) - sn_edges s).

Lemma snapshot_entries_work depth entries : forall s s',
  snapshot_entries repository depth entries s = Ok s' -> (snapshot_work s' <= snapshot_work s)%nat.
Proof.
  induction entries as [|[k e] entries IH]; intros s s' Hs; cbn [snapshot_entries] in Hs; [by simplify_eq|].
  auth_inv. apply IH in Hs. bool_props. unfold snapshot_work in *. cbn [sn_pending sn_edges] in Hs.
  destruct (bool_decide _); cbn [length] in Hs; lia.
Qed.

Lemma answers_snapshot_entries depth entries : forall s, answers (snapshot_entries repository depth entries s).
Proof.
  induction entries as [|[k e] entries IH]; intros s; cbn [snapshot_entries]; unfold resource_limit_error;
    repeat (apply IH || answers_step).
Qed.

Lemma answers_snapshot_loop fuel : forall traversed s,
  (snapshot_work s <= fuel)%nat -> answers (snapshot_loop fuel traversed s).
Proof.
  induction fuel as [|fuel IH]; intros traversed s Hf; cbn [Binding.snapshot_loop];
    destruct (sn_pending s) as [|[oid depth] pending] eqn:Ep; try apply answers_Ok;
    unfold snapshot_work in Hf; rewrite Ep in Hf; cbn [length] in Hf; [lia|].
  case_bool_decide; [apply IH; unfold snapshot_work; cbn [sn_pending sn_edges]; lia|].
  apply answers_bind; [apply answers_reject; intros ? [= <-]; left; by eexists|intros _ _].
  apply answers_bind; [apply answers_load_structured|intros tree _].
  apply answers_bind; [unfold require_object; answers_auto|intros es _].
  apply answers_bind; [answers_auto|intros entries _].
  apply answers_bind; [apply answers_snapshot_entries|intros s' Hs'].
  apply snapshot_entries_work in Hs'. apply IH. unfold snapshot_work in *. cbn [sn_pending sn_edges] in Hs'. lia.
Qed.

Lemma answers_snapshot_object_set oid : answers (snapshot_object_set oid).
Proof.
  unfold Binding.snapshot_object_set. apply answers_bind; [apply answers_load_structured|intros commit _].
  apply answers_bind; [answers_auto|intros root _]. apply answers_snapshot_loop.
  unfold snapshot_work, snapshot_fuel. cbn. lia.
Qed.

Lemma answers_reload_record oid : answers (reload_record nfc json_pointer registry repository oid).
Proof. unfold reload_record, closure_missing. repeat (apply answers_validate || answers_step). Qed.

Lemma answers_count_bytes oid n o : answers (count_bytes oid n o).
Proof. unfold count_bytes, resource_limit_error. answers_auto. Qed.

Lemma answers_output_record_need actor v : answers (output_record_need actor v).
Proof. unfold output_record_need. answers_auto. Qed.

Lemma answers_count_output candidate base actor o oid :
  answers (count_output nfc json_pointer registry repository candidate base actor o oid).
Proof.
  unfold count_output, closure_missing.
  repeat (apply answers_reload_record || apply answers_count_bytes || apply answers_output_record_need || answers_step).
Qed.

Lemma bind_parents_fuel parents bound :
  (length (rev (sorted_set bound)) + unbound parents bound <= size bound + length parents)%nat.
Proof.
  rewrite length_rev, sorted_set_length. assert (unbound parents bound <= length parents)%nat; [|lia].
  unfold unbound. apply filter_length_le.
Qed.

Lemma answers_output_binding b : answers (require_candidate_output_binding nfc json_pointer registry repository b).
Proof.
  unfold require_candidate_output_binding, require_input_present, require_snapshot_object, require_candidate_node, count_tree,
    reference_oids, string_oids, closure_missing.
  repeat (apply answers_load_structured || apply answers_snapshot_object_set || apply closure_from_answers ||
    apply answers_reload_record || apply snapshot_parents_answers || apply answers_count_bytes || apply answers_count_output ||
    (apply bind_parents_answers, bind_parents_fuel) || answers_step).
Qed.

Lemma answers_preserves c b : answers (require_candidate_preserves_base_snapshot_objects nfc json_pointer registry repository c b).
Proof.
  unfold require_candidate_preserves_base_snapshot_objects. repeat (apply answers_snapshot_object_set || answers_step).
Qed.

Lemma answers_base_bindings b oids : answers (require_base_snapshot_bindings nfc json_pointer registry repository b oids).
Proof. unfold require_base_snapshot_bindings. repeat (apply answers_snapshot_object_set || answers_step). Qed.

Lemma answers_present_oid_array v f : answers (require_present_oid_array repository v f).
Proof. unfold require_present_oid_array, require_present, closure_missing. answers_auto. Qed.

Lemma answers_activity_references v : answers (require_present_activity_references repository v).
Proof.
  unfold require_present_activity_references, require_present, closure_missing.
  repeat (apply answers_present_oid_array || answers_step).
Qed.
End Facts.
