(* ===== verification/AuthorizationFacts.v ===== *)
(** * Publication of AI proposals: what each check establishes *)

From stdpp Require Import base list numbers strings gmap sets relations.
From Stdlib Require Import ZArith Lia.
From S2P Require Import Prelude Text RefStore RefStoreProps Canonical Oid Registry ObjectStore Closure ClosureFacts ClosureProps.
From S2P Require Import Repository Policy Binding BindingFacts Authorization.

#[local] Open Scope Z_scope.

(** ** Capabilities *)

Lemma normalized_elem c cs : c ∈ normalized_capabilities cs <-> c ∈ cs.
Proof.
  unfold normalized_capabilities. rewrite list_elem_of_filter. split; [by intros [? _]|]. intros H. split; [done|].
  unfold all_capabilities. destruct c; set_solver.
Qed.

Lemma has_capability_true cs c : has_capability cs c = true <-> c ∈ cs.
Proof. unfold has_capability. apply bool_decide_eq_true. Qed.

Lemma normalized_ext cs ds : (forall c, c ∈ cs <-> c ∈ ds) -> normalized_capabilities cs = normalized_capabilities ds.
Proof. intros H. unfold normalized_capabilities. apply list_filter_iff. intros c. apply H. Qed.

Lemma normalized_idemp cs : normalized_capabilities (normalized_capabilities cs) = normalized_capabilities cs.
Proof. apply normalized_ext. intros c. apply normalized_elem. Qed.

(** A value lists a capability under a key. *)
Definition lists_capability (value : Value) (key : str) (c : AiCapability) : Prop :=
  exists values, get value key = Some (Arr values) /\ exists name, Str name ∈ values /\ capability_parse name = Some c.

Lemma capability_values_Ok values : forall cs c, capability_values values = Ok cs ->
  c ∈ cs -> exists name, Str name ∈ values /\ capability_parse name = Some c.
Proof.
  induction values as [|v values IH]; intros cs c H Hc; cbn [capability_values] in H; auth_inv; [by apply not_elem_of_nil in Hc|].
  destruct v; simplify_eq/=. apply elem_of_cons in Hc as [->|Hc].
  - eexists. split; [by left|done].
  - match goal with H : capability_values _ = _ |- _ => destruct (IH _ c H Hc) as (n & ? & ?) end. exists n. split; [by right|done].
Qed.

Lemma parse_capabilities_lists value key values cs c :
  get value key = Some (Arr values) -> parse_capabilities values = Ok cs -> c ∈ cs -> lists_capability value key c.
Proof.
  intros Hg Hp Hc. unfold parse_capabilities in Hp. auth_inv. subst cs. rewrite normalized_elem in Hc. exists values. split; [done|].
  exact (capability_values_Ok _ _ c Hp Hc).
Qed.

(** ** Resolution *)

Section Facts.
Context {S : Type} `{BoundedObjectStore S}.
Variable nfc : list char -> list char.
Variable json_pointer : Json -> str -> option (list nat).
Variable registry : SchemaRegistry.
Variable repository : Repository S.
Variable authority : AiExecutionAuthority.

#[local] Abbreviation load_record := (load_record nfc json_pointer registry repository).

(** The Grant delegates the writing of [ref_name] from the principal to the actor. *)
Record delegates (grant : Value) (ref_name : str) : Prop := {
  dg_asserted : get_str grant (lit "asserted_by") = Some (au_principal_id authority);
  dg_payload : exists payload, get grant (lit "payload") = Some payload /\
    get_str payload (lit "delegate_ref") = Some (au_actor_id authority) /\
    get_str payload (lit "principal_ref") = Some (au_principal_id authority) /\
    get_str payload (lit "project_ref") = Some (au_project_id authority) /\
    exists prefixes prefix, get payload (lit "writable_ref_prefixes") = Some (Arr prefixes) /\ Str prefix ∈ prefixes /\
      segment_prefix_matches prefix ref_name = true;
}.

(** It is active from its recording until its expiry. *)
Definition active_during (grant : Value) (first last : Z) : Prop :=
  exists payload recorded expires from until,
    get_str grant (lit "recorded_at") = Some recorded /\ canonical_timestamp_unix_nanos recorded = Ok from /\
    get grant (lit "payload") = Some payload /\ get_str payload (lit "expires_at") = Some expires /\
    canonical_timestamp_unix_nanos expires = Ok until /\ from <= first /\ last < until.

(** The capability is held by the actor, delegated by the Grant, enabled in the runtime and
    permitted by the Policy. *)
Record effective (grant policy actor : Value) (ref_name : str) (c : AiCapability) : Prop := {
  ef_actor : exists payload profile, get actor (lit "payload") = Some payload /\
    get payload (lit "ai_profile") = Some profile /\ lists_capability profile (lit "capabilities") c;
  ef_grant : exists payload, get grant (lit "payload") = Some payload /\ lists_capability payload (lit "capabilities") c;
  ef_runtime : c ∈ au_runtime_capabilities authority;
  ef_policy : authorize_policy_capability policy c (au_project_id authority) ref_name = Ok tt;
}.

Lemma load_grant_Ok grant_oid grant payload :
  load_grant nfc json_pointer registry repository authority grant_oid = Ok (grant, payload) ->
  load_record grant_oid (lit "delegation_grant") = Ok grant /\ get grant (lit "payload") = Some payload /\
  get_str payload (lit "delegate_ref") = Some (au_actor_id authority) /\
  get_str payload (lit "principal_ref") = Some (au_principal_id authority) /\
  get_str grant (lit "asserted_by") = Some (au_principal_id authority).
Proof. unfold load_grant. intros Hg. auth_inv. object_inv. by subst. Qed.

Lemma load_policy_Ok policy_oid policy :
  load_policy nfc json_pointer registry repository authority policy_oid = Ok policy ->
  load_record policy_oid (lit "policy") = Ok policy /\ get_str policy (lit "asserted_by") = Some (au_principal_id authority).
Proof. unfold load_policy. intros Hg. auth_inv. by subst. Qed.

Lemma load_ai_actor_Ok payload :
  load_ai_actor nfc json_pointer registry repository authority = Ok payload ->
  exists actor, load_record (au_actor_record_oid authority) (lit "actor") = Ok actor /\
    get actor (lit "payload") = Some payload /\ get_str actor (lit "entity_id") = Some (au_actor_id authority) /\
    get_str payload (lit "actor_kind") = Some (lit "ai_agent") /\
    get_str actor (lit "asserted_by") = Some (au_principal_id authority).
Proof. unfold load_ai_actor. intros Hg. auth_inv. object_inv. subst. by eexists. Qed.

(** What the resolver has checked when it answers. *)
Record resolved_chain (now : option Z) (target : AiPublicationTarget) (rs : ResolvedAiAuthority) : Prop := {
  rc_target : validate_ref_name (tg_ref_name target) = Ok tt /\ require_ai_namespace (tg_ref_name target) = Ok tt;
  rc_base : require_human_gated_base (au_base_ref authority) = Ok tt /\ rs_base_ref_name rs = au_base_ref authority;
  rc_now : now = Some (rs_evaluated_at rs);
  rc_window : rs_grant_active_from rs <= rs_evaluated_at rs < rs_grant_expires_at rs;
  rc_capabilities : rs_exact_capabilities rs = normalized_capabilities (au_capabilities authority) /\
    ProposeBranch ∈ au_capabilities authority;
  rc_fields : rs_target_ref_name rs = tg_ref_name target /\ rs_expected_target_head rs = tg_expected_head target /\
    rs_side_effect rs = tg_side_effect target;
  rc_records : exists grant policy actor,
    load_record (rs_delegation_grant_oid rs) (lit "delegation_grant") = Ok grant /\
    load_record (rs_policy_oid rs) (lit "policy") = Ok policy /\
    load_record (au_actor_record_oid authority) (lit "actor") = Ok actor /\
    get grant (lit "payload") = Some (rs_grant_payload rs) /\
    get_str policy (lit "asserted_by") = Some (au_principal_id authority) /\
    get_str actor (lit "asserted_by") = Some (au_principal_id authority) /\
    get_str actor (lit "entity_id") = Some (au_actor_id authority) /\
    delegates grant (tg_ref_name target) /\
    (forall first last, rs_evaluated_at rs <= first -> last < rs_grant_expires_at rs -> active_during grant first last) /\
    (forall c, c ∈ au_capabilities authority -> effective grant policy actor (tg_ref_name target) c);
  rc_context : exists context, load_record (au_context_pack_oid authority) (lit "context_pack") = Ok context /\
    get_str context (lit "asserted_by") = Some (au_principal_id authority) /\
    get context (lit "payload") = Some (rs_context_payload rs) /\
    get_str (rs_context_payload rs) (lit "base_commit") = Some (rs_base_commit_oid rs);
  rc_snapshot : exists snapshot,
    snapshot_object_set nfc json_pointer registry repository (rs_base_commit_oid rs) = Ok snapshot /\
    au_actor_record_oid authority ∈ snapshot /\ au_principal_actor_record_oid authority ∈ snapshot /\
    rs_delegation_grant_oid rs ∈ snapshot /\ rs_policy_oid rs ∈ snapshot;
}.

Lemma base_bindings_Ok base oids u :
  require_base_snapshot_bindings nfc json_pointer registry repository base oids = Ok u ->
  exists snapshot, snapshot_object_set nfc json_pointer registry repository base = Ok snapshot /\ Forall (.∈ snapshot) oids.
Proof.
  unfold require_base_snapshot_bindings. intros Hb. auth_inv. eexists. split; [done|].
  eapply Forall_impl; [exact Hb|]. cbn. intros oid Hoid. auth_inv. by bool_props.
Qed.

Lemma effective_Ok grant policy actor payload profile grant_payload ref_name actor_values actor_caps grant_values grant_caps c u :
  get actor (lit "payload") = Some payload -> get payload (lit "ai_profile") = Some profile ->
  get profile (lit "capabilities") = Some (Arr actor_values) -> parse_capabilities actor_values = Ok actor_caps ->
  get grant (lit "payload") = Some grant_payload ->
  get grant_payload (lit "capabilities") = Some (Arr grant_values) -> parse_capabilities grant_values = Ok grant_caps ->
  require_effective_capability authority policy (au_project_id authority) ref_name actor_caps grant_caps c = Ok u ->
  effective grant policy actor ref_name c.
Proof.
  intros Ha Hp Hav Hac Hg Hgv Hgc. unfold require_effective_capability. intros He. auth_inv. bool_props. destruct u.
  repeat match goal with H : has_capability _ _ = true |- _ => apply has_capability_true in H end.
  split; [exists payload, profile|exists grant_payload|done|done]; split_and!; eauto using parse_capabilities_lists.
Qed.

Lemma resolve_Ok now target rs :
  resolve_ai_authority nfc json_pointer registry repository authority now target = Ok rs -> resolved_chain now target rs.
Proof.
  unfold resolve_ai_authority. intros Hr. auth_inv. object_inv.
  repeat match goal with H : unit |- _ => destruct H end.
  match goal with H : load_grant _ _ _ _ _ _ = _ |- _ => apply load_grant_Ok in H as (HG & HGp & HGd & HGr & HGa) end.
  match goal with H : load_policy _ _ _ _ _ _ = _ |- _ => apply load_policy_Ok in H as (HP & HPa) end.
  match goal with H : load_ai_actor _ _ _ _ _ = _ |- _ => apply load_ai_actor_Ok in H as (actor & HA & HAp & HAi & HAk & HAa) end.
  subst. bool_props. unfold require_writable_prefix in *. auth_inv.
  match goal with H : (if existsb _ (strings _) then _ else _) = _ |- _ =>
    destruct (existsb _ (strings _)) eqn:Hprefix in H; [|done] end.
  apply existsb_strings in Hprefix as (prefix & Hin & Hprefix).
  match goal with H : Forall _ (normalized_capabilities _) |- _ => rename H into Hcaps end.
  match goal with H : require_base_snapshot_bindings _ _ _ _ _ _ = _ |- _ => apply base_bindings_Ok in H as (snapshot & Hs & Hall) end.
  match goal with H : has_capability _ ProposeBranch = true |- _ => rewrite has_capability_true, normalized_elem in H; rename H into Hpb end.
  split; cbn [rs_context_payload rs_grant_payload rs_delegation_grant_oid rs_policy_oid rs_base_ref_name rs_base_commit_oid
    rs_target_ref_name rs_expected_target_head rs_side_effect rs_exact_capabilities rs_grant_active_from rs_grant_expires_at
    rs_evaluated_at]; try done.
  - eexists _, _, actor. split_and!; try done.
    + split; [done|]. eexists. split_and!; [done..|]. by do 2 eexists.
    + intros first last Hfirst Hlast. do 5 eexists. split_and!; try done. lia.
    + intros c Hc. rewrite <- normalized_elem in Hc. rewrite Forall_forall in Hcaps. specialize (Hcaps c Hc). by eapply effective_Ok.
  - eexists. by split_and!.
  - exists snapshot. inversion_clear Hall as [|? ? Ha Hall1]. inversion_clear Hall1 as [|? ? Hp Hall2].
    inversion_clear Hall2 as [|? ? Hg Hall3]. inversion_clear Hall3. by split_and!.
Qed.

(** ** The candidate *)

#[local] Abbreviation refers := (refers (objects repository)).

(** [x] is one of the OIDs that the entries of [key] bind. *)
Definition binds (payload : Value) (key x : str) : Prop :=
  exists entries entry, get payload key = Some (Arr entries) /\ entry ∈ entries /\ get_str entry (lit "oid") = Some x.

(** [x] is listed under [key]. *)
Definition lists (payload : Value) (key x : str) : Prop := exists values, get payload key = Some (Arr values) /\ Str x ∈ values.

Lemma reference_oids_Ok entries set x :
  reference_oids entries = Ok set -> x ∈ set -> exists entry, entry ∈ entries /\ get_str entry (lit "oid") = Some x.
Proof.
  unfold reference_oids. assert (x ∉ (∅ : gset str)) as Hno by set_solver. revert Hno. generalize (∅ : gset str).
  induction entries as [|e entries IH]; intros acc Hno Hf Hx; cbn [fold_each] in Hf; auth_inv; [done|].
  match goal with H : get_str e _ = Some ?o |- _ => destruct (decide (x = o)) as [->|Hne]; [exists e; split; [by left|done]|] end.
  apply IH in Hf as (e' & ? & ?); [|set_solver|done]. exists e'. split; [by right|done].
Qed.

Lemma string_oids_Ok values set x : string_oids values = Ok set -> x ∈ set -> Str x ∈ values.
Proof.
  unfold string_oids. assert (x ∉ (∅ : gset str)) as Hno by set_solver. revert Hno. generalize (∅ : gset str).
  induction values as [|v values IH]; intros acc Hno Hf Hx; cbn [fold_each] in Hf; auth_inv; [done|].
  destruct v; simplify_eq/=. match goal with |- Str x ∈ Str ?o :: _ => destruct (decide (x = o)) as [->|Hne]; [by left|right] end.
  eapply IH; [|exact Hf|done]. set_solver.
Qed.

(** The inputs of the run: the ContextPack and what it selects. *)
Definition input (b : CandidateBinding) (x : str) : Prop :=
  x = context_pack_oid b \/ lists (context_payload b) (lit "selected_context_refs") x.

Definition stored_tree (x : str) : Prop := exists o, get_verified (objects repository) x = Ok (Some o) /\ ob_kind o = Tree.

(** An object that a candidate may contain. *)
Inductive accounted (b : CandidateBinding) (x : str) : Prop :=
| from_base : rtc refers (base_commit b) x -> accounted b x
| own_commit : x = candidate_commit b -> accounted b x
| own_activity : x = activity_oid b -> accounted b x
| from_input i : input b i -> rtc refers i x -> accounted b x
| a_tree : stored_tree x -> accounted b x
| from_output o : binds (activity_payload b) (lit "output_refs") o -> rtc refers o x -> accounted b x.

Lemma verifier_catalog v : verifier_new (objects repository) (graph_limits repository) (tombstone_scan_limits repository) = Ok v ->
  exists catalog, forall oid, verify_uncached v oid =
    verify_closure_with_tombstones (objects repository) (graph_limits repository) catalog oid.
Proof. unfold verifier_new. intros Hv. result_inv. by eexists. Qed.

Lemma closure_refers catalog oid report limit roots c x :
  0 <= max_edges (graph_limits repository) ->
  verify_closure_with_tombstones (objects repository) (graph_limits repository) catalog oid = Ok report -> is_complete report = true ->
  closure_from limit (edges report) roots = Ok c -> x ∈ c -> exists r, r ∈ roots /\ rtc refers r x.
Proof.
  intros He Hv Hc Hcl Hx. apply (closure_from_Ok _ _ _ _ x) in Hcl. apply Hcl in Hx as (r & Hr & Hx). exists r. split; [done|].
  destruct (complete_report _ _ _ He _ _ Hv Hc) as (_ & _ & _ & Hedge).
  clear -Hx Hedge. induction Hx as [|x y z (e & Hin & <- & <-) _ IH]; [done|]. eapply rtc_l; [by apply Hedge|done].
Qed.

Lemma output_binding_accounted b needs x :
  0 <= max_edges (graph_limits repository) ->
  require_candidate_output_binding nfc json_pointer registry repository b = Ok needs ->
  rtc refers (candidate_commit b) x -> accounted b x.
Proof.
  intros He. unfold require_candidate_output_binding. intros Hb Hx. auth_inv.
  match goal with H : verifier_new _ _ _ = Ok _ |- _ => apply verifier_catalog in H as (catalog & Hcat) end.
  rewrite !Hcat in *. bool_props.
  match goal with H : verify_closure_with_tombstones _ _ _ (candidate_commit b) = Ok ?r |- _ => rename H into Hcv, r into candidate end.
  match goal with H : verify_closure_with_tombstones _ _ _ (base_commit b) = Ok ?r |- _ => rename H into Hbv, r into base end.
  destruct (complete_report _ _ _ He _ _ Hcv ltac:(done)) as (Hdom & Hdesc & _).
  destruct (complete_report _ _ _ He _ _ Hbv ltac:(done)) as (Hbdom & _).
  apply Hdom, elem_of_dom in Hx as [node Hn].
  match goal with H : Forall (fun x => require_candidate_node _ _ _ _ x = _) _ |- _ => rewrite Forall_forall in H;
    specialize (H (x, node) (proj2 (sorted_nodes_elem (x, node) candidate) Hn)); rename H into Hnode end.
  unfold require_candidate_node in Hnode.
  repeat match type of Hnode with (if ?c1 || ?c2 then _ else _) = _ => destruct c2 eqn:?; [clear Hnode|rewrite orb_false_r in Hnode] end.
  - bool_props. apply a_tree. destruct (Hdesc x node Hn) as [(o & Ho & Hst)|(k & t & _ & _ & Hst)];
      unfold node_present in *; rewrite Hst in *; simplify_eq/=. by exists o.
  - bool_props. match goal with H : x ∈ ?c, Hc : closure_from _ _ ({[_]} ∪ _) = Ok ?c |- _ =>
      destruct (closure_refers _ _ _ _ _ _ _ He Hcv ltac:(done) Hc H) as (i & Hi & Hix) end.
    apply (from_input b x i); [|done]. apply elem_of_union in Hi as [->%elem_of_singleton|Hi]; [by left|right].
    eexists. split; [done|]. by eapply string_oids_Ok.
  - match goal with H : str_eqb _ _ = true |- _ => apply str_eqb_eq in H; subst end.
    apply (from_input b _ (context_pack_oid b)); [by left|done].
  - apply own_activity. by apply str_eqb_eq.
  - apply own_commit. by apply str_eqb_eq.
  - destruct (bool_decide (is_Some (nodes base !! x))) eqn:Hbase.
    + bool_props. apply from_base, Hbdom. by apply elem_of_dom.
    + auth_inv. bool_props.
      match goal with H : x ∈ filter _ ?c, Hc : closure_from _ _ ?r = Ok ?c |- _ =>
        apply elem_of_filter in H as [_ H];
        destruct (closure_refers _ _ _ _ _ _ _ He Hcv ltac:(done) Hc H) as (o & Ho & Hox) end.
      apply (from_output b x o); [|done].
      match goal with H : reference_oids _ = Ok _ |- _ => destruct (reference_oids_Ok _ _ _ H Ho) as (e & ? & ?) end. by do 2 eexists.
Qed.
End Facts.

(** Publishing is a step of the Ref store. *)
Lemma publish_reachable {S : Type} `{BoundedObjectStore S} nfc json_pointer registry (repository : Repository S) authority
    request side_effect preflight now tnow :
  reachable (refs repository) ->
  reachable (refs (publish_proposal_internal nfc json_pointer registry repository authority request side_effect preflight now tnow).1).
Proof.
  intros Hr. unfold publish_proposal_internal. destruct (authorize_proposal _ _ _ _ _ _ _ _ _) as [[[[verifier rs] update] caps]|e]; [|done].
  destruct (compare_and_swap_with_preconditions_and_guard _ _ _ _ _) as [store entry] eqn:Hcas.
  eapply rtc_r; [exact Hr|]. by eapply step_cas.
Qed.
