(* ===== verification/AuthorizationSample.v ===== *)
(** * A publication from beginning to end

    A repository in memory with a decided base (its actor, principal, Grant and Policy), a
    ContextPack, the Activity of one AI run with one output Blob, and the candidate Commit.
    It shows that the hypotheses of the properties of AuthorizationProps can hold. *)

From stdpp Require Import base list numbers strings gmap sets relations.
From Stdlib Require Import ZArith Lia.
From S2P Require Import Prelude Text RefStore RefStoreProps Canonical CanonicalProps Oid SchemaSemantics.
From S2P Require Import Registry RegistryProps ObjectStore Closure Repository Policy Binding Authorization.

#[local] Open Scope Z_scope.

Definition string_array (values : list str) : Value := Arr (map Str values).
Definition oid_of (kind : ObjectKind) (digit : byte) : str := oid_text kind (replicate 64 digit).

Definition ai_id : str := lit "urn:actor:ai".
Definition human_id : str := lit "urn:actor:human".
Definition project : str := lit "urn:project:1".

Definition ai_actor_oid : str := oid_of Record 48.
Definition human_actor_oid : str := oid_of Record 49.
Definition grant_oid : str := oid_of Record 50.
Definition policy_oid : str := oid_of Record 51.
Definition context_oid : str := oid_of Record 52.
Definition ai_activity_oid : str := oid_of Record 53.
Definition draft_oid : str := oid_of Blob 54.
Definition base_tree_oid : str := oid_of Tree 55.
Definition base_oid : str := oid_of Commit 56.
Definition candidate_tree_oid : str := oid_of Tree 57.
Definition candidate_oid : str := oid_of Commit 97.

Definition record_value (record_type asserted_by : str) (fields : list (str * Value)) (payload : list (str * Value)) : Value :=
  Obj ([(lit "object_type", Str (lit "record")); (lit "record_type", Str record_type); (lit "asserted_by", Str asserted_by)]
       ++ fields ++ [(lit "payload", Obj payload)]).

Definition actor_value (entity_id kind : str) (more : list (str * Value)) : Value :=
  record_value (lit "actor") human_id [(lit "entity_id", Str entity_id)] ((lit "actor_kind", Str kind) :: more).

Definition run_capabilities : Value := string_array [lit "read_context"; lit "propose_branch"].

Definition grant_value : Value :=
  record_value (lit "delegation_grant") human_id [(lit "recorded_at", Str (lit "2024-01-01T00:00:00.000000000Z"))]
    [(lit "delegate_ref", Str ai_id); (lit "principal_ref", Str human_id); (lit "project_ref", Str project);
     (lit "capabilities", run_capabilities); (lit "data_classes", string_array [lit "internal"]);
     (lit "resource_selectors", string_array [lit "project/**"]);
     (lit "writable_ref_prefixes", string_array [lit "proposal/ai/"]);
     (lit "expires_at", Str (lit "2024-02-01T00:00:00.000000000Z")); (lit "max_output_bytes", Integer 4096);
     (lit "required_human_gates", string_array [lit "before_decision_ref"])].

Definition policy_value : Value :=
  record_value (lit "policy") human_id []
    [(lit "scope_refs", string_array [project]); (lit "default_effect", Str (lit "deny"));
     (lit "rules", Arr [Obj [(lit "action", Str (lit "publish")); (lit "resource_selector", Str (lit "decision/**"));
                             (lit "effect", Str (lit "require_human_gate")); (lit "human_gate", Str (lit "before_decision_ref"))];
                        Obj [(lit "action", Str (lit "propose")); (lit "resource_selector", Str (lit "proposal/**"));
                             (lit "effect", Str (lit "allow"))];
                        Obj [(lit "action", Str (lit "read")); (lit "resource_selector", Str (lit "project/**"));
                             (lit "effect", Str (lit "allow"))]])].

Definition context_value : Value :=
  record_value (lit "context_pack") human_id []
    [(lit "delegation_grant_ref", Str grant_oid); (lit "policy_snapshot_ref", Str policy_oid); (lit "base_commit", Str base_oid);
     (lit "expected_ref_head", Str base_oid); (lit "base_ref_name", Str (lit "decision/main"));
     (lit "selected_context_refs", string_array [base_oid]); (lit "data_classification", Str (lit "internal"))].

Definition role_entry (role key value : str) : Value := Obj [(lit "role", Str role); (key, Str value)].

Definition activity_value : Value :=
  record_value (lit "activity") ai_id []
    [(lit "activity_kind", Str (lit "ai_run")); (lit "side_effect_class", Str (lit "none"));
     (lit "actor_refs", Arr [role_entry (lit "agent") (lit "actor_ref") ai_id;
                             role_entry (lit "responsible_principal") (lit "actor_ref") human_id]);
     (lit "input_refs", Arr [role_entry (lit "context") (lit "oid") context_oid]);
     (lit "output_refs", Arr [role_entry (lit "draft") (lit "oid") draft_oid]);
     (lit "ai_run", Obj [(lit "status", Str (lit "proposal_ready")); (lit "agent_ref", Str ai_id);
       (lit "responsible_principal_ref", Str human_id); (lit "context_pack_ref", Str context_oid);
       (lit "delegation_grant_ref", Str grant_oid); (lit "requested_capabilities", run_capabilities);
       (lit "required_human_gates", string_array [lit "before_decision_ref"])])].

Definition tree_value (entries : list (str * (ObjectKind * str))) : Value :=
  Obj [(lit "object_type", Str (lit "tree"));
       (lit "entries", Obj (map (fun e => (fst e, Obj [(lit "entry_kind", Str (prefix (fst (snd e))));
                                                      (lit "oid", Str (snd (snd e)))])) entries))].

Definition commit_value (kind author snapshot : str) (parents transitions : list str) : Value :=
  Obj [(lit "object_type", Str (lit "commit")); (lit "commit_kind", Str kind); (lit "author_ref", Str author);
       (lit "parents", string_array parents); (lit "snapshot", Str snapshot); (lit "transition_refs", string_array transitions);
       (lit "bound_declaration_refs", Arr [])].

Definition authority_entries : list (str * (ObjectKind * str)) :=
  [(lit "ai", (Record, ai_actor_oid)); (lit "grant", (Record, grant_oid)); (lit "human", (Record, human_actor_oid));
   (lit "policy", (Record, policy_oid))].

Definition stored_value (oid : str) (kind : ObjectKind) (byte_len : Z) (value : Value) : VerifiedObject :=
  {| ob_oid := oid; ob_kind := kind; ob_byte_len := byte_len; ob_structured := Some value |}.

Definition run_objects : MemoryStore :=
  [stored_value ai_actor_oid Record 100 (actor_value ai_id (lit "ai_agent") [(lit "ai_profile", Obj [(lit "capabilities", run_capabilities)])]);
   stored_value human_actor_oid Record 100 (actor_value human_id (lit "human") []);
   stored_value grant_oid Record 300 grant_value; stored_value policy_oid Record 300 policy_value;
   stored_value context_oid Record 300 context_value; stored_value ai_activity_oid Record 300 activity_value;
   {| ob_oid := draft_oid; ob_kind := Blob; ob_byte_len := 42; ob_structured := None |};
   stored_value base_tree_oid Tree 200 (tree_value authority_entries);
   stored_value base_oid Commit 200 (commit_value (lit "checkpoint") human_id base_tree_oid [] []);
   stored_value candidate_tree_oid Tree 250 (tree_value ((lit "draft", (Blob, draft_oid)) :: authority_entries));
   stored_value candidate_oid Commit 250 (commit_value (lit "checkpoint") ai_id candidate_tree_oid [base_oid] [ai_activity_oid])].

(** Every schema admits every object. *)
Definition open_registry : SchemaRegistry :=
  {| documents := list_to_map (map (fun name => (name, JObject [])) concrete_schema_names);
     validators := list_to_map (map (fun name => (name, is_object)) concrete_schema_names) |}.

Definition base_update : RefUpdate :=
  {| u_ref_name := lit "decision/main"; u_expected_head := None; u_new_head := base_oid; u_metadata := sample_md |}.
Definition base_refs : SqliteRefStore := (compare_and_swap base_update accept initial).1.

Definition run_repository : Repository MemoryStore :=
  {| objects := run_objects; refs := base_refs; graph_limits := {| max_objects := 20; max_edges := 100; max_depth := 9 |};
     tombstone_scan_limits := {| max_record_objects := 20; max_record_bytes := 10000 |}; repo_read_only := false |}.

Definition run_authority : AiExecutionAuthority :=
  {| au_actor_id := ai_id; au_project_id := project; au_principal_id := human_id; au_base_ref := lit "decision/main";
     au_actor_record_oid := ai_actor_oid; au_principal_actor_record_oid := human_actor_oid; au_context_pack_oid := context_oid;
     au_capabilities := [ProposeBranch; ReadContext]; au_runtime_capabilities := all_capabilities |}.

Definition run_request : AiProposalUpdate :=
  {| up_ref_name := lit "proposal/ai/run-1"; up_expected_head := None; up_new_head := candidate_oid; up_message := None;
     up_activity_oid := ai_activity_oid |}.

(** 2024-01-10 and one second later. *)
Definition run_now : option Z := Some 1704844800000000000.
Definition run_commit_now : option Z := Some 1704844801000000000.

Lemma base_refs_reachable : reachable (refs run_repository).
Proof.
  eapply rtc_once, (step_cas base_update [] accept (Ok tt)).
  unfold run_repository, base_refs, refs, compare_and_swap, compare_and_swap_with_preconditions. apply surjective_pairing.
Qed.

Definition run_outcome : Repository MemoryStore * presult AuthorizationDecision :=
  publish_proposal_internal nfc_id no_pointer open_registry run_repository run_authority run_request None None run_now run_commit_now.

Definition no_decision : AuthorizationDecision :=
  {| ad_reflog := event_row 0 [] None [] sample_md; ad_actor_record_oid := []; ad_activity_oid := []; ad_context_pack_oid := [];
     ad_delegation_grant_oid := []; ad_policy_oid := []; ad_effective_capabilities := [] |}.

Definition decision_of (outcome : Repository MemoryStore * presult AuthorizationDecision) : AuthorizationDecision :=
  match outcome.2 with Ok d => d | Err _ => no_decision end.

Definition run_decision : AuthorizationDecision := decision_of run_outcome.

Lemma decision_of_ok outcome : is_ok outcome.2 = true -> outcome = (outcome.1, Ok (decision_of outcome)).
Proof. by destruct outcome as [r [d|e]]. Qed.

Lemma run_ok : is_ok run_outcome.2 = true.
Proof. vm_cast_no_check (eq_refl true). Qed.

Lemma run_published :
  publish_proposal_internal nfc_id no_pointer open_registry run_repository run_authority run_request None None run_now run_commit_now
  = (run_outcome.1, Ok run_decision).
Proof. exact (decision_of_ok run_outcome run_ok). Qed.

(** The same run with a preflight one second earlier. *)
Definition run_target : AiPublicationTarget :=
  {| tg_ref_name := lit "proposal/ai/run-1"; tg_expected_head := None; tg_side_effect := SideEffectNone |}.
Definition run_preflight : presult AiPreflightDecision :=
  preflight_proposal nfc_id no_pointer open_registry run_repository run_authority (Some 1704844799000000000) run_target.
Definition no_preflight : AiPreflightDecision :=
  {| pd_actor_id := []; pd_project_id := []; pd_principal_id := []; pd_base_ref := []; pd_actor_record_oid := [];
     pd_principal_actor_record_oid := []; pd_context_pack_oid := []; pd_delegation_grant_oid := []; pd_policy_oid := [];
     pd_base_commit_oid := []; pd_target_ref_name := []; pd_expected_target_head := None; pd_side_effect := SideEffectNone;
     pd_exact_capabilities := []; pd_runtime_capabilities := []; pd_evaluated_at := 0; pd_grant_expires_at := 0 |}.
Definition preflight_of (r : presult AiPreflightDecision) : AiPreflightDecision :=
  match r with Ok p => p | Err _ => no_preflight end.
Definition run_preflight_decision : AiPreflightDecision := preflight_of run_preflight.
Definition run_generated : AiGeneratedProposal :=
  {| ge_new_head := candidate_oid; ge_activity_oid := ai_activity_oid; ge_message := None |}.
Definition preflighted_outcome : Repository MemoryStore * presult AuthorizationDecision :=
  publish_preflighted nfc_id no_pointer open_registry run_repository run_authority run_preflight_decision run_generated
    run_now run_commit_now.
Definition preflighted_decision : AuthorizationDecision :=
  decision_of preflighted_outcome.

Lemma preflighted_ok : is_ok preflighted_outcome.2 = true.
Proof. vm_cast_no_check (eq_refl true). Qed.

Lemma run_preflighted :
  publish_preflighted nfc_id no_pointer open_registry run_repository run_authority run_preflight_decision run_generated
    run_now run_commit_now = (preflighted_outcome.1, Ok preflighted_decision).
Proof. exact (decision_of_ok preflighted_outcome preflighted_ok). Qed.
