(* ===== verification/RepositorySample.v ===== *)
(** * A repository on the file store, for the witnesses

    A Blob, a Tree that holds it, a Commit of that Tree and a Ref to the Commit, stored
    through the operations of the repository; and a format of archive manifests. *)

From stdpp Require Import base list numbers strings gmap sets relations countable.
From Stdlib Require Import ZArith Lia.
From S2P Require Import Prelude Text RefStore RefStoreProps Canonical CanonicalProps Oid Registry RegistryProps ObjectStore FileStore FileStoreProps Inventory.
From S2P Require Import Closure Repository Archive AuthorizationSample.

#[local] Open Scope Z_scope.

Definition new_repository : Repository FileObjectStore :=
  {| objects := empty_store; refs := initial; graph_limits := {| max_objects := 20; max_edges := 100; max_depth := 9 |};
     tombstone_scan_limits := {| max_record_objects := 20; max_record_bytes := 10000 |}; repo_read_only := false |}.

Definition after_put (r : Repository FileObjectStore) (put : presult (Repository FileObjectStore * PutResult))
  : Repository FileObjectStore * str :=
  match put with Ok (r, result) => (r, put_oid result) | Err _ => (r, []) end.

Definition put_sample_value (r : Repository FileObjectStore) (value : Value) : Repository FileObjectStore * str :=
  after_put r (put_object toy_sha256 nfc_id no_pointer open_registry r (CanonicalWrite.render value)).

Definition with_blob : Repository FileObjectStore * str :=
  after_put new_repository (repo_put_blob toy_sha256 new_repository [[104; 105]; [33]]).
Definition with_tree : Repository FileObjectStore * str :=
  put_sample_value with_blob.1 (tree_value [(lit "note", (Blob, with_blob.2))]).
Definition with_commit : Repository FileObjectStore * str :=
  put_sample_value with_tree.1 (commit_value (lit "checkpoint") human_id with_tree.2 [] []).

Definition first_update : RefUpdate :=
  {| u_ref_name := lit "decision/main"; u_expected_head := None; u_new_head := with_commit.2; u_metadata := sample_md |}.

#[local] Instance sample_store : ObjectStore FileObjectStore := file_object_store toy_sha256 nfc_id.
#[local] Instance sample_bounded_store : BoundedObjectStore FileObjectStore := file_bounded_store toy_sha256 nfc_id.

Definition with_ref : Repository FileObjectStore * presult ReflogEntry := repo_update_ref with_commit.1 first_update.
Definition file_repository : Repository FileObjectStore := with_ref.1.

Example file_repository_holds :
  size (FileStore.objects (objects file_repository)) = 3%nat /\ is_ok with_ref.2 = true.
Proof. vm_compute. done. Qed.

(** ** A format of manifests: the digits of a number *)

#[local] Instance archive_object_eq : EqDecision ArchiveObject.
Proof. solve_decision. Defined.
#[local] Instance archive_ref_eq : EqDecision ArchiveRef.
Proof. solve_decision. Defined.
#[local] Instance archive_reflog_eq : EqDecision ArchiveReflog.
Proof. solve_decision. Defined.
#[local] Instance archive_manifest_eq : EqDecision ArchiveManifest.
Proof. solve_decision. Defined.

#[local] Instance archive_object_countable : Countable ArchiveObject.
Proof.
  apply (inj_countable' (fun o => (ao_oid o, ao_path o, ao_byte_length o, ao_sha256 o))
    (fun '(oid, path, n, digest) => {| ao_oid := oid; ao_path := path; ao_byte_length := n; ao_sha256 := digest |})).
  by intros [].
Defined.
#[local] Instance archive_ref_countable : Countable ArchiveRef.
Proof.
  apply (inj_countable' (fun r => (ar_name r, ar_head r, ar_updated_event_id r))
    (fun '(n, h, e) => {| ar_name := n; ar_head := h; ar_updated_event_id := e |})).
  by intros [].
Defined.
#[local] Instance archive_reflog_countable : Countable ArchiveReflog.
Proof.
  apply (inj_countable' (fun e => (al_id e, al_ref_name e, al_old_head e, al_new_head e, al_occurred_at_unix_nanos e, al_actor e, al_message e))
    (fun '(i, n, o, h, t, a, m) => {| al_id := i; al_ref_name := n; al_old_head := o; al_new_head := h;
       al_occurred_at_unix_nanos := t; al_actor := a; al_message := m |})).
  by intros [].
Defined.
#[local] Instance archive_manifest_countable : Countable ArchiveManifest.
Proof.
  apply (inj_countable' (fun m => (am_format m, am_objects m, am_refs m, am_reflog m))
    (fun '(f, o, r, l) => {| am_format := f; am_objects := o; am_refs := r; am_reflog := l |})).
  by intros [].
Defined.

Fixpoint digits (p : positive) : list byte :=
  match p with xH => [] | xO p => 0 :: digits p | xI p => 1 :: digits p end.
Fixpoint of_digits (l : list byte) : option positive :=
  match l with
  | [] => Some xH
  | d :: l => match of_digits l with
              | Some p => if d =? 0 then Some (xO p) else if d =? 1 then Some (xI p) else None
              | None => None
              end
  end.
Lemma of_digits_digits p : of_digits (digits p) = Some p.
Proof. induction p as [p IH|p IH|]; cbn [digits of_digits]; rewrite ?IH; done. Qed.

Instance toy_format : ManifestFormat := {
  to_writer_pretty := fun manifest => digits (encode manifest);
  from_slice := fun bytes => of_digits bytes ≫= decode;
}.
Instance toy_format_laws : ManifestFormatLaws.
Proof. split. intros manifest. cbn. rewrite of_digits_digits. cbn. apply decode_encode. Qed.

(** ** The repository without the file of its Blob *)

Definition without_blob (s : FileObjectStore) : FileObjectStore :=
  {| FileStore.objects := delete (object_path_for_valid_oid with_blob.2 Blob) (FileStore.objects s);
     FileStore.quarantine := FileStore.quarantine s; FileStore.limits := FileStore.limits s;
     FileStore.store_read_only := FileStore.store_read_only s |}.
Definition damaged_repository : Repository FileObjectStore := set_store file_repository (without_blob (objects file_repository)).

Example damaged_repository_reads :
  file_get_verified toy_sha256 nfc_id (objects damaged_repository) with_blob.2 = Ok None.
Proof. vm_compute. done. Qed.

Definition default_export : presult ArchiveDirectory :=
  export_archive toy_sha256 nfc_id file_repository None (Some 0).
Definition exported : ArchiveDirectory := match default_export with Ok d => d | Err _ => ∅ end.
Example default_export_ok : is_ok default_export = true.
Proof. vm_compute. done. Qed.
