(* ===== verification/FsckProps.v ===== *)
(** * Integrity checks: lemmas and properties *)

From stdpp Require Import base list numbers strings gmap sets relations.
From Stdlib Require Import ZArith Lia.
From S2P Require Import Prelude Sorting Text BTree RefStore RefStoreProps Canonical CanonicalProps Oid ObjectStore FileStore.
From S2P Require Import FileStoreProps Inventory InventoryProps Closure ClosureFacts ClosureProps Repository Archive Fsck.
From S2P Require Import RepositorySample.

#[local] Open Scope Z_scope.

(** ** Integrity checks: what they report

    The closure walk sees a store only through its answers; the scan of the inventory
    through the memo reports exactly the objects that the store does not return; the
    cached closures are those of the walk. *)

(** ** Stores with the same answers *)

Section Same.
Context {S1 S2 : Type} `{ObjectStore S1, ObjectStore S2}.
Variables (s1 : S1) (s2 : S2).
Hypothesis same : forall oid, get_verified s1 oid = get_verified s2 oid.

Lemma visit_object_same limits tombstones visit w :
  visit_object s1 limits tombstones visit w = visit_object s2 limits tombstones visit w.
Proof. unfold visit_object. by rewrite same. Qed.

Lemma walk_same limits tombstones fuel : forall w, walk s1 limits tombstones fuel w = walk s2 limits tombstones fuel w.
Proof.
  induction fuel as [|fuel IH]; intros w; cbn [walk]; [done|]. destruct (w_stack w) as [|[visit|oid] stack]; [done| |apply IH].
  unfold enter_step. rewrite visit_object_same. 
  match goal with |- ?m ≫= _ = _ => destruct m as [[w'|report]|e]; cbn [mbind result_bind]; auto end.
Qed.

Lemma verify_same limits tombstones oid :
  verify_closure_with_tombstones s1 limits tombstones oid = verify_closure_with_tombstones s2 limits tombstones oid.
Proof.
  unfold verify_closure_with_tombstones. destruct (core (parse_oid oid)) as [k|e]; cbn [mbind result_bind]; [|done].
  destruct (negb _); [done|]. apply walk_same.
Qed.
End Same.

(** ** The cache of a verifier *)

Section Cache.
Context {S : Type} `{BoundedObjectStore S}.

(** Every cached report is what the walk answers. *)
Definition cache_ok (v : PreparedClosureVerifier (S := S)) : Prop :=
  map_Forall (fun oid report => verify_uncached v oid = Ok report) (v_report_cache v).

(** The verifiers that differ from [v] in their cache at most. *)
Definition same_verifier (v v' : PreparedClosureVerifier (S := S)) : Prop :=
  v_store v' = v_store v /\ v_graph_limits v' = v_graph_limits v /\ v_tombstones v' = v_tombstones v.

Lemma same_verify v v' oid : same_verifier v v' -> verify_uncached v' oid = verify_uncached v oid.
Proof. intros (E1 & E2 & E3). unfold verify_uncached. by rewrite E1, E2, E3. Qed.

Lemma verifier_verify_ok v oid report v' : cache_ok v -> verifier_verify v oid = Ok (report, v') ->
  verify_uncached v oid = Ok report /\ cache_ok v' /\ same_verifier v v'.
Proof.
  intros Hc Hv. unfold verifier_verify in Hv. destruct (v_report_cache v !! oid) as [r|] eqn:E.
  - injection Hv as <- <-. split_and!; [by apply Hc|done|done].
  - result_inv. split_and!; [done| |done]. apply map_Forall_insert_2; [done|].
    eapply map_Forall_impl; [exact Hc|]. done.
Qed.
End Cache.

Section Fsck.
Variable sha256 : list byte -> list byte.
Variable nfc : list char -> list char.

#[local] Instance scan_store : ObjectStore FileObjectStore := file_object_store sha256 nfc.
#[local] Instance scan_bounded_store : BoundedObjectStore FileObjectStore := file_bounded_store sha256 nfc.
#[local] Instance store_laws_here : ObjectStoreLaws FileObjectStore := file_store_laws sha256 nfc.

Abbreviation fetch := (file_get_verified sha256 nfc).

(** What the scan reports of an object. *)
Definition object_issue (store : FileObjectStore) (oid : str) : option FsckIssueKind :=
  match fetch store oid with
  | Ok (Some _) => None
  | Ok None => Some (FsckMissingScannedObject oid)
  | Err (CorruptObject _) => Some (FsckCorruptObject oid)
  | Err _ => Some (FsckReadFailure oid)
  end.

Definition is_intact (store : FileObjectStore) (oid : str) : bool :=
  match fetch store oid with Ok (Some _) => true | _ => false end.

Lemma object_issue_None store oid : object_issue store oid = None <-> is_intact store oid = true.
Proof. unfold object_issue, is_intact. destruct (fetch store oid) as [[]|[]]; done. Qed.

(** The catalog of the Records among the intact objects of a list. *)
Fixpoint observed (store : FileObjectStore) (oids : list str) (c : TombstoneCatalog) : sresult TombstoneCatalog :=
  match oids with
  | [] => Ok c
  | oid :: oids =>
    c ← match fetch store oid with Ok (Some object) => catalog_observe object c | _ => Ok c end;
    observed store oids c
  end.

(** Observing keeps the targets and adds that of a Tombstone. *)
Lemma catalog_observe_targets object c c' x : catalog_observe object c = Ok c' ->
  (is_Some (targets c !! x) -> is_Some (targets c' !! x)) /\
  (ob_kind object = Record -> tombstone_target object = Some x -> is_Some (targets c' !! x)).
Proof.
  unfold catalog_observe. case_bool_decide as Hk; cbn [negb]; [|intros [= <-]; by split].
  intros (c1 & Hc & H)%bind_Ok.
  assert (targets c1 = targets c) as Et by (unfold charge_record in Hc; destruct (catalog_limits c); result_inv; done).
  destruct (tombstone_target object) as [target|]; injection H as <-; cbn [targets]; rewrite Et; [|done].
  split.
  - intros Hx. destruct (decide (x = target)) as [->|Hne]; [by rewrite lookup_insert_eq|by rewrite lookup_insert_ne].
  - intros _ [= ->]. by rewrite lookup_insert_eq.
Qed.

Lemma observed_target store oids c c' t object x : observed store oids c = Ok c' -> t ∈ oids ->
  fetch store t = Ok (Some object) -> ob_kind object = Record -> tombstone_target object = Some x -> is_Some (tombstone_for c' x).
Proof.
  intros H Hin Ht Hk Hx. unfold tombstone_for.
  assert (forall oids c, observed store oids c = Ok c' -> is_Some (targets c !! x) -> is_Some (targets c' !! x)) as Hkeep.
  { clear - nfc sha256. induction oids as [|oid oids IH]; intros c H Hs; cbn [observed] in H; [by simplify_eq|].
    apply bind_Ok in H as (c1 & Hc & H). eapply IH; [exact H|]. destruct (fetch store oid) as [[o|]|]; [|by simplify_eq..].
    destruct (catalog_observe_targets o c c1 x Hc) as [Hkeep _]. by apply Hkeep. }
  revert c H Hin. induction oids as [|oid oids IH]; intros c H Hin; [by apply elem_of_nil in Hin|].
  cbn [observed] in H; apply bind_Ok in H as (c1 & Hc & H). apply elem_of_cons in Hin as [->|Hin].
  - rewrite Ht in Hc. eapply Hkeep; [exact H|]. destruct (catalog_observe_targets object c c1 x Hc) as [_ Hx']. by apply Hx'.
  - by eapply IH.
Qed.

Definition scan_ok (store : FileObjectStore) (s : Scan) : Prop :=
  memo_ok (sc_memo s) /\ memo_store (sc_memo s) = store.

(** What scanning a list of objects adds. *)
Record scanned (store : FileObjectStore) (oids : list str) (s s' : Scan) : Prop := {
  sd_ok : scan_ok store s';
  sd_issues : sc_issues s' = sc_issues s ++ omap (object_issue store) oids;
  sd_commits : sc_commits s' = sc_commits s ++ List.filter (fun oid => bool_decide (parse_oid oid = Ok Commit)) oids;
  sd_verified : sc_verified s' = sc_verified s + len (List.filter (is_intact store) oids);
  sd_observed : observed store oids (sc_tombstones s) = Ok (sc_tombstones s');
}.

Lemma scanned_nil store s : scan_ok store s -> scanned store [] s s.
Proof. intros Hs. split; [done|by rewrite app_nil_r..|unfold len; cbn; lia|done]. Qed.

Lemma scanned_app store oids1 oids2 s s1 s2 :
  scanned store oids1 s s1 -> scanned store oids2 s1 s2 -> scanned store (oids1 ++ oids2) s s2.
Proof.
  intros [_ I1 C1 V1 O1] [Hs I2 C2 V2 O2]. split; [done|..].
  - by rewrite I2, I1, <- app_assoc, omap_app.
  - by rewrite C2, C1, <- app_assoc, List.filter_app.
  - rewrite V2, V1, List.filter_app, len_app. lia.
  - clear - O1 O2. revert O1. generalize (sc_tombstones s). induction oids1 as [|oid oids1 IH]; intros c O1; cbn [observed app] in *.
    + by simplify_eq.
    + apply bind_Ok in O1 as (c' & -> & O1). cbn [mbind result_bind]. by apply IH.
Qed.

(** A step that keeps the memo and reports what the memo answered. *)
Lemma scanned_one store oid s s0 s' memo answer :
  scan_ok store s -> memo_get_verified (sc_memo s) oid = (memo, answer) ->
  s0 = (if bool_decide (parse_oid oid = Ok Commit) then scan_commit oid s else s) ->
  match answer with
  | Ok (Some object) => exists t, catalog_observe object (sc_tombstones s) = Ok t /\ s' = scan_object t (scan_memo memo s0)
  | Ok None => s' = scan_issue (FsckMissingScannedObject oid) (scan_memo memo s0)
  | Err (CorruptObject _) => s' = scan_issue (FsckCorruptObject oid) (scan_memo memo s0)
  | Err _ => s' = scan_issue (FsckReadFailure oid) (scan_memo memo s0)
  end -> scanned store [oid] s s'.
Proof.
  intros [Hm Hst] Hget -> Hs'. destruct (memo_get_ok (sc_memo s) oid Hm) as (Hm' & Hst' & Ha). rewrite Hget in *. cbn [fst snd] in *.
  rewrite Hst in Ha, Hst'. change (get_verified store oid) with (fetch store oid) in Ha.
  set (s0 := if bool_decide (parse_oid oid = Ok Commit) then scan_commit oid s else s) in *.
  assert (sc_issues s0 = sc_issues s /\ sc_verified s0 = sc_verified s /\ sc_tombstones s0 = sc_tombstones s /\
    sc_commits s0 = sc_commits s ++ List.filter (fun oid => bool_decide (parse_oid oid = Ok Commit)) [oid]) as (E2 & E3 & E4 & E5).
  { unfold s0. cbn [List.filter]. destruct (bool_decide _); cbn; by rewrite ?app_nil_r. }
  clearbody s0. assert (omap (object_issue store) [oid] = option_list (object_issue store oid)) as Ho
    by (cbn [omap list_omap]; by destruct (object_issue store oid)).
  assert (len (List.filter (is_intact store) [oid]) = if is_intact store oid then 1 else 0) as Hl
    by (cbn [List.filter]; by destruct (is_intact store oid)).
  assert (observed store [oid] (sc_tombstones s) =
    match fetch store oid with Ok (Some object) => catalog_observe object (sc_tombstones s) | _ => Ok (sc_tombstones s) end) as Hobs.
  { cbn [observed]. destruct (match fetch store oid with Ok (Some object) => _ | _ => _ end); done. }
  split; rewrite ?Ho, ?Hl, ?Hobs; unfold object_issue, is_intact; rewrite <- ?Ha;
    destruct answer as [[object|]|[]]; try destruct Hs' as (t & Ht & Hs'); subst s'; unfold scan_ok; cbn;
    rewrite ?E2, ?E3, ?E4, ?E5, ?app_nil_r; try done; lia.
Qed.

Lemma fsck_object_spec store oid s s' : scan_ok store s -> fsck_object sha256 nfc oid s = Ok s' -> scanned store [oid] s s'.
Proof.
  intros Hs H. unfold fsck_object in H.
  assert (sc_memo (if bool_decide (parse_oid oid = Ok Commit) then scan_commit oid s else s) = sc_memo s /\
    sc_tombstones (if bool_decide (parse_oid oid = Ok Commit) then scan_commit oid s else s) = sc_tombstones s) as [Em Et]
    by (by destruct (bool_decide _)). rewrite Em in H.
  destruct (memo_get_verified (sc_memo s) oid) as [memo answer] eqn:Hg. eapply scanned_one; [done..|]. cbn [scan_memo sc_tombstones] in H.
  destruct answer as [[object|]|[]]; [apply bind_Ok in H as (t & Ht & H); exists t; rewrite Et in Ht|..]; by injection H as <-.
Qed.

Lemma fsck_objects_spec store oids : forall s s', scan_ok store s -> fsck_objects sha256 nfc oids s = Ok s' -> scanned store oids s s'.
Proof.
  induction oids as [|oid oids IH]; intros s s' Hs H; cbn [fsck_objects] in H; [simplify_eq; by apply scanned_nil|].
  apply bind_Ok in H as (s1 & H1 & H). apply (fsck_object_spec store) in H1; [|done].
  apply (scanned_app store [oid] oids _ s1); [done|]. apply IH; [apply H1|done].
Qed.

(** A missing length is a missing object. *)
Lemma missing_length store oid : stored_object_byte_len store oid = Ok None -> fetch store oid = Ok None.
Proof.
  unfold stored_object_byte_len, file_get_verified. intros H. apply bind_Ok in H as ([k path] & -> & (c & Hc & H)%bind_Ok).
  cbn [mbind result_bind]. rewrite Hc. by destruct c.
Qed.

Lemma limited_object_spec store limits oid s bytes s' bytes' :
  scan_ok store s -> limited_object sha256 nfc store limits oid s bytes = Ok (s', bytes') ->
  scanned store [oid] s s' /\ (bytes <= fl_max_object_bytes limits -> bytes' <= fl_max_object_bytes limits).
Proof.
  intros Hs H. unfold limited_object in H. apply bind_Ok in H as (kind & Hk & (n & Hn & H)%bind_Ok).
  unfold of_core in Hk. result_inv. unfold of_store in Hn. result_inv.
  assert ((if bool_decide (kind = Commit) then scan_commit oid s else s) =
          (if bool_decide (parse_oid oid = Ok Commit) then scan_commit oid s else s)) as Es.
  { match goal with H : parse_oid oid = Ok kind |- _ => rewrite H end. repeat case_bool_decide; congruence. }
  rewrite Es in H. clear Es.
  assert (sc_memo (if bool_decide (parse_oid oid = Ok Commit) then scan_commit oid s else s) = sc_memo s /\
    sc_tombstones (if bool_decide (parse_oid oid = Ok Commit) then scan_commit oid s else s) = sc_tombstones s) as [Em Et]
    by (by destruct (bool_decide _)).
  destruct n as [n|].
  - apply bind_Ok in H as (b & Hb & (u & Hu & H)%bind_Ok). apply reject_if_Ok in Hu. rewrite Em in H.
    destruct (memo_get_verified (sc_memo s) oid) as [memo answer] eqn:Hg. cbn [scan_memo sc_tombstones] in H.
    assert (bytes' = b /\ scanned store [oid] s s') as [-> ?].
    { destruct answer as [[object|]|error].
      - apply bind_Ok in H as (? & _ & (? & _ & (t & Ht & H)%bind_Ok)%bind_Ok). unfold of_store in Ht. result_inv.
        split; [done|]. eapply scanned_one; [done..|]. exists t. split; [by rewrite <- Et|done].
      - injection H as <- <-. split; [done|]. by eapply scanned_one.
      - destruct error; try (injection H as <- <-; split; [done|]; by eapply scanned_one);
          (destruct (bool_decide _); [done|]; injection H as <- <-; split; [done|]; by eapply scanned_one). }
    split; [done|]. intros _. rewrite Z.gtb_ltb in Hu. by apply Z.ltb_ge in Hu.
  - injection H as <- <-. split; [|done]. apply missing_length in Hn. destruct Hs as [Hm Hst].
    set (s0 := if bool_decide (parse_oid oid = Ok Commit) then scan_commit oid s else s) in *.
    split; [by split; [rewrite <- Em in Hm|rewrite <- Hst, <- Em]|..]; cbn [scan_issue sc_issues sc_commits sc_verified sc_tombstones].
    + unfold object_issue. cbn [omap list_omap]. rewrite Hn. unfold s0. by destruct (bool_decide _).
    + unfold s0. cbn [List.filter]. destruct (bool_decide _); cbn; by rewrite ?app_nil_r.
    + unfold is_intact. cbn [List.filter]. rewrite Hn. unfold s0. destruct (bool_decide _); cbn; unfold len; cbn; lia.
    + cbn [observed]. rewrite Hn. cbn [mbind result_bind]. by rewrite Et.
Qed.

Lemma limited_objects_spec store limits oids : forall s bytes s', scan_ok store s ->
  limited_objects sha256 nfc store limits oids s bytes = Ok s' -> scanned store oids s s'.
Proof.
  induction oids as [|oid oids IH]; intros s bytes s' Hs H; cbn [limited_objects] in H; [simplify_eq; by apply scanned_nil|].
  apply bind_Ok in H as ([s1 b1] & H1 & H). apply (limited_object_spec store) in H1 as [H1 _]; [|done].
  apply (scanned_app store [oid] oids _ s1); [done|]. eapply IH; [apply H1|done].
Qed.

(** ** The closures *)

Lemma memo_verify_same store (m : VerifiedObjectMemo FileObjectStore) limits tombstones oid :
  memo_ok m -> memo_store m = store ->
  verify_closure_with_tombstones m limits tombstones oid = verify_closure_with_tombstones store limits tombstones oid.
Proof.
  intros Hm <-. apply verify_same. intros x. cbn [get_verified memo_object_store]. by destruct (memo_get_ok m x Hm) as (_ & _ & ->).
Qed.

Lemma fsck_closures_spec v roots : cache_ok v -> forall cs iss cs' iss',
  fsck_closures sha256 nfc v roots cs iss = Ok (cs', iss') ->
  exists found, Forall2 (fun root report => verify_uncached v root = Ok report) roots found /\
    cs' = cs ++ found /\ iss' = iss ++ flat_map (fun report => map FsckClosure (Closure.issues report)) found.
Proof.
  intros Hc cs iss cs' iss'.
  assert (forall v1, cache_ok v1 -> same_verifier v v1 -> forall cs iss, fsck_closures sha256 nfc v1 roots cs iss = Ok (cs', iss') ->
    exists found, Forall2 (fun root report => verify_uncached v root = Ok report) roots found /\
      cs' = cs ++ found /\ iss' = iss ++ flat_map (fun report => map FsckClosure (Closure.issues report)) found) as Hgen.
  { clear Hc. induction roots as [|root roots IH]; intros v1 Hc Hsame cs1 is1 H; cbn [fsck_closures] in H.
    - injection H as <- <-. exists []. split_and!; [constructor|by rewrite app_nil_r..].
    - apply bind_Ok in H as ([report v2] & Hv & H). destruct (verifier_verify_ok _ _ _ _ Hc Hv) as (Hr & Hc2 & Hs2).
      rewrite (same_verify v) in Hr by done.
      destruct (IH v2 Hc2) with (2 := H) as (found & Hf & -> & ->).
      { destruct Hsame as (? & ? & ?), Hs2 as (? & ? & ?). split_and!; congruence. }
      exists (report :: found). split_and!; [by constructor|by rewrite <- app_assoc|]. cbn [flat_map]. by rewrite <- app_assoc. }
  intros H. by eapply Hgen.
Qed.

Lemma from_catalog_cache {S} `{BoundedObjectStore S} (store : S) limits tombstones : cache_ok (from_catalog store limits tombstones).
Proof. apply map_Forall_empty. Qed.

(** The report of a check, in full. *)
Lemma fsck_report store roots limits report catalog :
  fsck_with_tombstones sha256 nfc store roots limits = Ok (report, catalog) ->
  exists found, inventory store = Ok found /\
    let oids := inv_oids found in
    let graph_roots := if bool_decide (roots = []) then List.filter (fun oid => bool_decide (parse_oid oid = Ok Commit)) oids
                       else roots in
    objects_seen report = len oids /\ objects_verified report = len (List.filter (is_intact store) oids) /\
    observed store oids empty_catalog = Ok catalog /\
    Forall2 (fun root closure => verify_closure_with_tombstones store limits catalog root = Ok closure)
      graph_roots (closures report) /\
    fsck_issues report = map FsckInvalidStorePath (inv_invalid_paths found) ++ omap (object_issue store) oids ++
      flat_map (fun closure => map FsckClosure (Closure.issues closure)) (closures report).
Proof.
  intros H. unfold fsck_with_tombstones in H. apply bind_Ok in H as (found & Hi & (scan & Hs & ([cs iss] & Hc & H)%bind_Ok)%bind_Ok).
  injection H as <- <-. exists found. split; [done|]. cbn [objects_seen objects_verified closures fsck_issues].
  apply (fsck_objects_spec store) in Hs as [(Hm & Hst) Hiss Hcom Hver Hobs]; [|split; [apply memo_new_ok|done]].
  cbn [sc_issues sc_commits sc_verified sc_tombstones app] in *.
  apply fsck_closures_spec in Hc as (closed & Hall & -> & ->); [|apply from_catalog_cache].
  cbn [app]. rewrite Hcom in Hall. split_and!; [done|lia|done| |by rewrite Hiss, app_assoc].
  eapply Forall2_impl; [exact Hall|]. intros root closure Hv. unfold verify_uncached in Hv. cbn [v_store v_graph_limits v_tombstones from_catalog] in Hv.
  by rewrite (memo_verify_same store) in Hv.
Qed.
End Fsck.

(** ** Integrity checks: the properties *)

Section Props.
Variable sha256 : list byte -> list byte.
Variable nfc : list char -> list char.

#[local] Instance store_here : ObjectStore FileObjectStore := file_object_store sha256 nfc.
#[local] Instance bounded_store_here : BoundedObjectStore FileObjectStore := file_bounded_store sha256 nfc.

(** The roots that a check walks from: all stored Commits when none are given. *)
Definition check_roots (roots oids : list str) : list str :=
  if bool_decide (roots = []) then List.filter (fun oid => bool_decide (parse_oid oid = Ok Commit)) oids else roots.

Lemma closure_issues_nil closures :
  flat_map (fun closure => map FsckClosure (Closure.issues closure)) closures = [] ->
  Forall (fun closure => Closure.issues closure = []) closures.
Proof.
  induction closures as [|c closures IH]; intros H; [constructor|]. cbn [flat_map] in H.
  apply app_eq_nil in H as [H1 H2]. constructor; [by apply map_eq_nil in H1|by apply IH].
Qed.

Lemma omap_nil {A B} (f : A -> option B) l : omap f l = [] <-> Forall (fun x => f x = None) l.
Proof.
  induction l as [|x l IH]; cbn; [by split|]. rewrite Forall_cons, <- IH. destruct (f x); [|tauto]. split; [done|by intros [? _]].
Qed.

(** A report is clean when nothing is stray, everything reads back and every closure is complete. *)
Lemma clean_report store roots limits report catalog :
  fsck_with_tombstones sha256 nfc store roots limits = Ok (report, catalog) ->
  exists found, inventory store = Ok found /\
    Forall2 (fun root closure => verify_closure_with_tombstones store limits catalog root = Ok closure)
      (check_roots roots (inv_oids found)) (closures report) /\
    (is_clean report = true <->
       inv_invalid_paths found = [] /\ Forall (fun oid => is_intact sha256 nfc store oid = true) (inv_oids found) /\
       Forall (fun closure => is_complete closure = true) (closures report)).
Proof.
  intros (found & Hf & _ & _ & _ & Hcl & Hiss)%fsck_report. exists found. split; [done|]. split; [exact Hcl|].
  unfold is_clean. rewrite andb_true_iff, bool_decide_eq_true, forallb_forall, Hiss. rewrite Forall_forall. split.
  - intros [Hn Hc]. apply app_eq_nil in Hn as [Hp Hn]. apply app_eq_nil in Hn as [Ho _].
    apply map_eq_nil in Hp. apply omap_nil in Ho. split_and!; [done| |].
    + intros oid Hoid. rewrite Forall_forall in Ho. by apply object_issue_None, Ho.
    + apply Forall_forall. intros closure Hx. apply Hc. by apply list_elem_of_In.
  - intros (Hp & Ho & Hc). rewrite Forall_forall in Hc. split; [|intros c Hx; apply Hc; by apply list_elem_of_In].
    rewrite Hp. cbn [map app]. replace (omap (object_issue sha256 nfc store) (inv_oids found)) with (@nil FsckIssueKind).
    2: { symmetry. apply omap_nil, Forall_forall. intros oid Hoid. by apply object_issue_None, Ho. }
    cbn [app]. clear - Hc. induction (closures report) as [|c cs IH]; [done|]. cbn [flat_map].
    assert (Closure.issues c = []) as ->; [|cbn [map app]; apply IH; intros; apply Hc; by right].
    specialize (Hc c ltac:(by left)). apply is_complete_clean in Hc. by destruct Hc.
Qed.
End Props.

(** C7: an integrity check is clean exactly when the repository is sound.  A report is clean
    if and only if no entry of the objects directory is stray, every object of the inventory
    reads back, and the closure of every root (every stored Commit when no root is given)
    is complete; and then every object that a root reaches through references reads back
    or has a Tombstone in the store. *)
Theorem fsck_clean sha256 nfc store roots limits report catalog :
  let fs := file_object_store sha256 nfc in
  fsck_with_tombstones sha256 nfc store roots limits = Ok (report, catalog) -> 0 <= max_edges limits ->
  exists found, inventory store = Ok found /\
    Forall2 (fun root closure => verify_closure_with_tombstones store limits catalog root = Ok closure)
      (check_roots roots (inv_oids found)) (closures report) /\
    (is_clean report = true <->
       inv_invalid_paths found = [] /\
       Forall (fun oid => exists object, file_get_verified sha256 nfc store oid = Ok (Some object)) (inv_oids found) /\
       Forall (fun closure => is_complete closure = true) (closures report)) /\
    (is_clean report = true -> forall root oid, root ∈ check_roots roots (inv_oids found) -> rtc (refers store) root oid ->
       (exists object, file_get_verified sha256 nfc store oid = Ok (Some object)) \/
       is_Some (tombstone_for catalog oid)).
Proof.
  intros fs H He. destruct (clean_report _ _ _ _ _ _ _ H) as (found & Hf & Hcl & Hclean). exists found.
  split; [done|]. split; [exact Hcl|].
  assert (forall oid, is_intact sha256 nfc store oid = true <-> exists object, file_get_verified sha256 nfc store oid = Ok (Some object)) as Hint.
  { intros oid. unfold is_intact. destruct (file_get_verified _ _ _ _) as [[o|]|e]; split; try done; try (intros [? ?]; congruence). by eexists. }
  split.
  - rewrite Hclean. setoid_rewrite Forall_forall. setoid_rewrite Hint. done.
  - intros (_ & _ & Hc)%Hclean root oid Hroot Hr.
    apply list_elem_of_lookup in Hroot as [i Hi]. destruct (Forall2_lookup_l _ _ _ _ _ Hcl Hi) as (closure & Hci & Hv).
    rewrite Forall_forall in Hc. specialize (Hc closure (list_elem_of_lookup_2 _ _ _ Hci)).
    destruct (complete_report _ _ _ He _ _ Hv Hc) as (Hdom & Hdesc & _). apply Hdom, elem_of_dom in Hr as [n Hn].
    destruct (Hdesc _ _ Hn) as [(o & Ho & _)|(k & t & _ & Ht & _)]; [left; by exists o|right; by exists t].
Qed.

(** The check of the sample repository. *)
Definition no_report : FsckReport := {| objects_seen := 0; objects_verified := 0; closures := []; fsck_issues := [] |}.
Definition sample_check : sresult (FsckReport * TombstoneCatalog) :=
  fsck_with_tombstones toy_sha256 nfc_id (objects file_repository) [with_commit.2] (graph_limits file_repository).
Definition sample_checked : FsckReport * TombstoneCatalog :=
  match sample_check with Ok answer => answer | Err _ => (no_report, empty_catalog) end.

Lemma sample_check_ok : sample_check = Ok (sample_checked.1, sample_checked.2).
Proof.
  unfold sample_checked. assert (is_ok sample_check = true) as H by (vm_cast_no_check (eq_refl true)).
  revert H. generalize sample_check. by intros [[report catalog]|e].
Qed.

Lemma sample_check_clean : is_clean sample_checked.1 = true.
Proof. vm_cast_no_check (eq_refl true). Qed.

Lemma fsck_clean_witness :
  exists found, inventory (objects file_repository) = Ok found /\
    Forall (fun oid => exists object, file_get_verified toy_sha256 nfc_id (objects file_repository) oid = Ok (Some object))
      (inv_oids found).
Proof.
  destruct (fsck_clean toy_sha256 nfc_id (objects file_repository) [with_commit.2] (graph_limits file_repository)
    sample_checked.1 sample_checked.2 sample_check_ok) as (found & Hf & _ & Hc & _); [by vm_compute|].
  exists found. split; [exact Hf|]. apply (proj1 Hc sample_check_clean).
Defined.

(** ** The limited check *)

Section Limited.
Variable sha256 : list byte -> list byte.
Variable nfc : list char -> list char.

#[local] Instance store_here' : ObjectStore FileObjectStore := file_object_store sha256 nfc.
#[local] Instance bounded_store_here' : BoundedObjectStore FileObjectStore := file_bounded_store sha256 nfc.

(** [closure] is the closure of [root] in the store, found within some work limits. *)
Definition closure_of (store : FileObjectStore) (catalog : TombstoneCatalog) (root : str) (closure : ClosureReport) : Prop :=
  exists limits, 0 <= max_edges limits /\ verify_closure_with_tombstones store limits catalog root = Ok closure.

Definition total_nodes (closures : list ClosureReport) : Z := foldr (fun c n => Z.of_nat (size (nodes c)) + n) 0 closures.

Lemma limited_closures_spec v store limits roots :
  memo_ok (v_store v) -> memo_store (v_store v) = store -> 0 <= max_edges (v_graph_limits v) ->
  forall seen n e cs iss cs' iss', n <= fl_max_closure_nodes limits ->
  limited_closures sha256 nfc v limits roots seen n e cs iss = Ok (cs', iss') ->
  exists found, cs' = cs ++ found /\ iss' = iss ++ flat_map (fun report => map FsckClosure (Closure.issues report)) found /\
    n + total_nodes found <= fl_max_closure_nodes limits /\
    forall root, root ∈ roots -> root ∈ seen \/ exists closure, closure ∈ found /\ closure_of store (v_tombstones v) root closure.
Proof.
  intros Hm Hst He. induction roots as [|root roots IH]; intros seen n e cs iss cs' iss' Hn H; cbn [limited_closures] in H.
  { injection H as <- <-. exists []. rewrite !app_nil_r. split_and!; [done|done|cbn; lia|set_solver]. }
  destruct (bool_decide (root ∈ seen)) eqn:Hs.
  { apply bool_decide_eq_true in Hs. destruct (IH _ _ _ _ _ _ _ Hn H) as (found & -> & -> & Hw & Hr).
    exists found. split_and!; [done..|]. intros x [->|Hx]%elem_of_cons; [by left|by apply Hr]. }
  apply bind_Ok in H as (? & _ & (? & He' & (closure & Hc & (? & _ & (n' & Hn' & (e' & He2 & H)%bind_Ok)%bind_Ok)%bind_Ok)%bind_Ok)%bind_Ok).
  apply reject_if_Ok, Z.ltb_ge in He'. unfold checked_add_fsck_work in Hn'. apply bind_Ok in Hn' as (t & Ht & Hn').
  apply bind_Ok in Hn' as (? & Hle & [= <-]). apply ok_or_Ok in Ht. apply reject_if_Ok in Hle. rewrite Z.gtb_ltb in Hle. apply Z.ltb_ge in Hle.
  unfold usize_checked_add in Ht. destruct (_ <=? usize_max); [|done]. injection Ht as <-.
  destruct (IH _ _ _ _ _ _ _ Hle H) as (found & -> & -> & Hw & Hr).
  exists (closure :: found). rewrite <- !app_assoc. cbn [app flat_map total_nodes foldr]. rewrite <- ?app_assoc.
  split_and!; [done|done|unfold total_nodes in *; lia|]. unfold of_store in Hc. apply map_err_Ok in Hc.
  assert (closure_of store (v_tombstones v) root closure) as Hcl.
  { unfold verify_uncached_with_work_limits in Hc. rewrite (memo_verify_same sha256 nfc store) in Hc by done.
    eexists. split; [|exact Hc]. cbn [max_edges]. lia. }
  intros y [->|Hy]%elem_of_cons; [right; exists closure; split; [by left|done]|].
  destruct (Hr y Hy) as [Hin|(c & Hcin & Hcx)]; [|right; exists c; split; [by right|done]].
  apply elem_of_union in Hin as [->%elem_of_singleton|Hin]; [right; exists closure; split; [by left|done]|by left].
Qed.
End Limited.

(** A clean limited check means what a clean check means, within the limits.  The check
    reads the complete inventory through its limits; when its report is clean, every object
    of the inventory reads back, every object that a head of the snapshot (or, without
    Refs, a stored Commit) reaches reads back or has a Tombstone, and the closures
    together have no more nodes than the limit. *)
Lemma limited_fsck_clean sha256 nfc (r : Repository FileObjectStore) snapshot limits report :
  let fs := file_object_store sha256 nfc in
  fsck_snapshot_with_limits sha256 nfc r snapshot limits = Ok report -> is_clean report = true ->
  0 <= max_edges (graph_limits r) -> 0 <= fl_max_closure_nodes limits ->
  exists oids catalog, list_oids_limited (objects r) (fl_max_objects limits) = Ok oids /\
    objects_seen report = len oids /\ objects_verified report = len oids /\
    Forall (fun oid => exists object, file_get_verified sha256 nfc (objects r) oid = Ok (Some object)) oids /\
    (forall root oid, root ∈ check_roots (map head (RefStore.refs snapshot)) oids -> rtc (refers (objects r)) root oid ->
       (exists object, file_get_verified sha256 nfc (objects r) oid = Ok (Some object)) \/
       is_Some (tombstone_for catalog oid)) /\
    total_nodes (closures report) <= fl_max_closure_nodes limits.
Proof.
  intros fs H Hclean He Hnodes. unfold fsck_snapshot_with_limits, fsck_snapshot_through in H.
  apply bind_Ok in H as (? & _ & (? & _ & (oids & Ho & (catalog & Hcat & (scan & Hs & ([cs iss] & Hc & H)%bind_Ok)%bind_Ok)%bind_Ok)%bind_Ok)%bind_Ok).
  injection H as <-. unfold of_store in Ho, Hcat. result_inv.
  apply (limited_objects_spec sha256 nfc (objects r)) in Hs as [(Hm & Hst) Hiss Hcom Hver Hobs]; [|split; [apply memo_new_ok|done]].
  cbn [sc_issues sc_commits sc_verified sc_tombstones app] in *.
  apply (limited_closures_spec sha256 nfc _ (objects r)) in Hc as (found & -> & -> & Hw & Hr); [|done..]. cbn [app] in *.
  unfold is_clean in Hclean. cbn [fsck_issues closures] in Hclean. apply andb_true_iff in Hclean as [Hi Hcl].
  apply bool_decide_eq_true, app_eq_nil in Hi as [Hi _]. rewrite Hiss in Hi. apply omap_nil in Hi.
  assert (Forall (fun oid => is_intact sha256 nfc (objects r) oid = true) oids) as Hint.
  { eapply Forall_impl; [exact Hi|]. intros oid. apply object_issue_None. }
  exists oids, (sc_tombstones scan). split; [done|]. cbn [objects_seen objects_verified closures].
  split; [done|]. split; [rewrite Hver, filter_all by done; lia|]. split; [|split; [|lia]].
  - eapply Forall_impl; [exact Hint|]. intros oid. unfold is_intact. destruct (file_get_verified _ _ _ _) as [[o|]|]; [by eexists|done..].
  - intros root oid Hroot Hreach. assert (root ∈ (if bool_decide (RefStore.refs snapshot = []) then sc_commits scan
      else map head (RefStore.refs snapshot))) as Hin.
    { unfold check_roots in Hroot. rewrite Hcom. destruct (RefStore.refs snapshot) as [|rec recs]; [done|].
      rewrite bool_decide_eq_false_2 in * by done. done. }
    destruct (Hr root Hin) as [?|(closure & Hcin & (l & Hl & Hv))]; [set_solver|].
    rewrite forallb_forall in Hcl. specialize (Hcl closure (proj1 (list_elem_of_In _ _) Hcin)).
    destruct (complete_report _ _ _ Hl _ _ Hv Hcl) as (Hdom & Hdesc & _). apply Hdom, elem_of_dom in Hreach as [nd Hnd].
    destruct (Hdesc _ _ Hnd) as [(o & Hob & _)|(k & t & _ & Ht & _)]; [left; by exists o|right; by exists t].
Qed.

Definition sample_snapshot : RefSnapshot := load_snapshot (tables (refs file_repository)).
Definition sample_limited : presult FsckReport :=
  fsck_snapshot_with_limits toy_sha256 nfc_id file_repository sample_snapshot default_fsck_limits.
Definition sample_limited_report : FsckReport := match sample_limited with Ok report => report | Err _ => no_report end.

Lemma sample_limited_ok : sample_limited = Ok sample_limited_report.
Proof.
  unfold sample_limited_report. assert (is_ok sample_limited = true) as H by (vm_cast_no_check (eq_refl true)).
  revert H. generalize sample_limited. by intros [report|e].
Qed.

Lemma sample_limited_clean : is_clean sample_limited_report = true.
Proof. vm_cast_no_check (eq_refl true). Qed.
