(* ===== verification/RepairProps.v ===== *)
(** * Repair: lemmas and properties *)

From stdpp Require Import base list numbers strings gmap sets relations.
From Stdlib Require Import ZArith Lia.
From S2P Require Import CanonicalWrite CanonicalLaws Prelude Sorting Text TextFacts BTree RefStore RefStoreProps Canonical.
From S2P Require Import CanonicalProps Oid ObjectStore FileStore FileStoreProps Inventory InventoryProps Closure Repository Archive Fsck.
From S2P Require Import FsckProps RepositorySample Repair.

#[local] Open Scope Z_scope.

(** ** Repair: what its steps do to the store *)

Section Facts.
Variable sha256 : list byte -> list byte.
Variable nfc : list char -> list char.
Hypothesis Hsha : sha256_digest sha256.

Abbreviation fetch := (file_get_verified sha256 nfc).
Abbreviation intact := (is_intact sha256 nfc).
Abbreviation step := (store_step sha256 nfc).

Lemma intact_Ok s oid : intact s oid = true <-> exists object, fetch s oid = Ok (Some object).
Proof.
  unfold is_intact. destruct (fetch s oid) as [[o|]|]; split; try done; try (by intros [? ?]). by eexists.
Qed.

Lemma step_intact s s' oid : step s s' -> intact s oid = true -> intact s' oid = true.
Proof. rewrite !intact_Ok. intros Hs [o Ho]. exists o. by eapply store_step_preserves. Qed.

Lemma step_limits s s' : step s s' -> limits s' = limits s.
Proof.
  assert (forall s staged oid k n s' r, publish_staged s staged oid k n = Ok (s', r) -> limits s' = limits s) as Hp.
  { intros ? ? ? ? ? ? ? (_ & _ & _ & _ & ? & _)%publish_staged_Ok. done. }
  assert (forall s oid k s' t, quarantine_object s oid k = Ok (s', t) -> limits s' = limits s) as Hq.
  { intros ? ? ? ? ? H. unfold quarantine_object in H. by result_inv. }
  intros [reads r H|c reads r H|i r H|c i r H|c i r H|c i r H|c r H].
  - unfold put_blob, put_blob_inner in H. result_inv. repeat case_match; simplify_eq. eauto.
  - unfold put_blob_claimed, put_blob_inner in H. result_inv. repeat case_match; simplify_eq. eauto.
  - unfold put_structured_unchecked, put_structured_inner in H. result_inv. repeat case_match; simplify_eq. result_inv. eauto.
  - unfold put_structured_claimed_unchecked, put_structured_inner in H. result_inv. repeat case_match; simplify_eq. result_inv. eauto.
  - unfold put_verified_raw, put_blob_claimed, put_blob_inner, put_structured_inner in H. result_inv.
    case_bool_decide; result_inv; repeat case_match; simplify_eq; result_inv; eauto.
  - unfold repair_object in H. result_inv. repeat case_match; simplify_eq; result_inv; repeat case_match; simplify_eq; result_inv;
      repeat match goal with x : (_ * _)%type |- _ => destruct x end; result_inv;
      repeat match goal with
      | H : publish_staged _ _ _ _ _ = Ok _ |- _ => apply Hp in H
      | H : quarantine_object _ _ _ = Ok _ |- _ => apply Hq in H
      end; congruence.
  - unfold quarantine_if_corrupt in H. result_inv. repeat case_match; simplify_eq; result_inv;
      repeat match goal with x : (_ * _)%type |- _ => destruct x end; result_inv;
      repeat match goal with H : quarantine_object _ _ _ = Ok _ |- _ => apply Hq in H end; congruence.
Qed.

Abbreviation files := FileStore.objects.

Lemma size_delete {A} (m : gmap ObjectPath A) i x : m !! i = Some x -> size m = S (size (delete i m)).
Proof.
  intros H. rewrite <- (insert_delete_id m i x H) at 1. rewrite map_size_insert_None; [done|]. apply lookup_delete_eq.
Qed.

Lemma size_insert_le {A} (m : gmap ObjectPath A) i x : (size (<[i := x]> m) <= S (size m))%nat.
Proof. rewrite map_size_insert. destruct (m !! i); unfold Datatypes.id; lia. Qed.

Lemma quarantine_object_size s oid k s' t : quarantine_object s oid k = Ok (s', t) ->
  size (files s) = S (size (files s')) /\ files s' !! object_path_for_valid_oid oid k = None.
Proof.
  unfold quarantine_object. intros H. result_inv. cbn [FileStore.objects]. split; [by eapply size_delete|apply lookup_delete_eq].
Qed.

Lemma publish_size s staged oid k n s' r : publish_staged s staged oid k n = Ok (s', r) -> (size (files s') <= S (size (files s)))%nat.
Proof.
  intros (_ & _ & _ & _ & _ & [->|[_ ->]])%publish_staged_Ok; [lia|]. apply size_insert_le.
Qed.

(** An object is read from its own file. *)
Lemma fetch_other s s' oid k x : parse_oid oid = Ok k -> limits s' = limits s ->
  (forall p, p <> object_path_for_valid_oid oid k -> files s' !! p = files s !! p) -> x <> oid -> fetch s' x = fetch s x.
Proof.
  intros Hk Hl Hp Hx. destruct (parse_oid x) as [kx|e] eqn:Hkx.
  - apply (fetch_local sha256 nfc s s' x kx); [done..|]. apply Hp. intros E. by apply Hx, (object_path_inj x kx oid k).
  - unfold file_get_verified, validated_object_path, core. by rewrite Hkx.
Qed.

Lemma quarantine_object_other s oid k s' t p : quarantine_object s oid k = Ok (s', t) ->
  p <> object_path_for_valid_oid oid k -> files s' !! p = files s !! p.
Proof. unfold quarantine_object. intros H Hp. result_inv. by apply lookup_delete_ne. Qed.

Lemma publish_other s staged oid k n s' r p : publish_staged s staged oid k n = Ok (s', r) ->
  p <> object_path_for_valid_oid oid k -> files s' !! p = files s !! p.
Proof. intros (_ & _ & _ & _ & _ & [->|[_ ->]])%publish_staged_Ok Hp; [done|]. by apply lookup_insert_ne. Qed.

Lemma quarantine_object_limits s oid k s' t : quarantine_object s oid k = Ok (s', t) -> limits s' = limits s.
Proof. unfold quarantine_object. intros H. by result_inv. Qed.

Lemma object_state_intact s oid st : object_state sha256 nfc s oid = Ok st ->
  intact s oid = match st with Present _ => true | _ => false end.
Proof.
  unfold object_state, is_intact. intros (k & _ & H)%bind_Ok.
  destruct (fetch s oid) as [[o|]|[]]; by simplify_eq.
Qed.

(** Moving a file aside. *)
Lemma quarantine_Ok s oid s' moved : quarantine_if_corrupt sha256 nfc s oid = Ok (s', moved) ->
  match moved with
  | Some _ => step s s' /\ size (files s) = S (size (files s')) /\ forall x, intact s' x = intact s x
  | None => s' = s
  end.
Proof.
  intros H. assert (step s s') as Hs by (by eapply step_quarantine). unfold quarantine_if_corrupt in H.
  apply bind_Ok in H as (_ & _ & (k & Hk & (st & Hst & H)%bind_Ok)%bind_Ok). unfold core in Hk. apply map_err_Ok in Hk.
  destruct st; [by injection H as <- <-..|]. apply bind_Ok in H as ([s1 t] & Hq & [= <- <-]). split; [done|].
  split; [by apply quarantine_object_size in Hq as [? _]|]. intros x. destruct (decide (x = oid)) as [->|Hx].
  - rewrite (object_state_intact _ _ _ Hst). apply not_true_iff_false. rewrite intact_Ok. intros [o Ho].
    apply fetch_parse in Ho as (k' & b & Hk' & Ho). rewrite Hk in Hk'. injection Hk' as <-.
    apply quarantine_object_size in Hq as [_ Hq]. by rewrite Hq in Ho.
  - unfold is_intact. rewrite (fetch_other s s1 oid k x); [done|done|by eapply quarantine_object_limits| |done].
    intros p. by eapply quarantine_object_other.
Qed.

(** ** Putting an object back *)

(** Bytes staged for a claimed identifier read back under it once they are published. *)
Lemma staged_blob_intact s s' oid reads staged oid' n r :
  store_limits_ok (limits s) -> Forall (fun b => b <> []) reads ->
  stage_blob sha256 s (Some oid) reads = Ok (staged, oid', n) -> publish_staged s' staged oid' Blob n = Ok r ->
  limits s' = limits s -> oid' = oid /\ intact (fst r) oid = true.
Proof.
  intros Hlim Hne Hst Hp Hl. destruct r as [s2 r]. unfold stage_blob in Hst. result_inv.
  match goal with H : read_loop _ _ _ _ = _ |- _ => rewrite read_loop_spec in H by (done || apply Hlim) end.
  destruct (_ || _) eqn:Hsize; simplify_eq. destruct (negb _) eqn:Hc; [done|]. simplify_eq. bool_props.
  match goal with H : str_eqb _ _ = true |- _ => apply str_eqb_eq in H as -> end. split; [done|].
  apply publish_staged_Ok in Hp as (Hh & _ & _ & _ & Hl2 & _). cbn [app fst] in *.
  assert (len (concat reads) <= max_blob_bytes (limits s)) as Hsz.
  { apply orb_true_iff in Hsize as [->%bool_decide_eq_true|?%Z.leb_le]; [cbn; apply Hlim|lia]. }
  destruct (fetch_blob sha256 nfc Hsha s2 (concat reads)) as [Hf _]; [by rewrite Hl2, Hl..|done|]. apply intact_Ok. by eexists.
Qed.

Lemma staged_structured_intact s s' oid k input staged oid' n r :
  store_limits_ok (limits s) -> parse_oid oid = Ok k ->
  stage_structured sha256 nfc s (Some oid) input true = Ok (staged, oid', n) -> publish_staged s' staged oid' k n = Ok r ->
  limits s' = limits s -> oid' = oid /\ intact (fst r) oid = true.
Proof.
  intros Hlim Hk Hst Hp Hl. destruct r as [s2 r]. unfold stage_structured, core in Hst. result_inv.
  destruct (negb _) eqn:Hc in Hst; [done|]. simplify_eq. bool_props.
  match goal with H : str_eqb _ _ = true |- _ => apply str_eqb_eq in H as -> end. split; [done|].
  match goal with H : structured_oid_unchecked_with_limits _ _ _ _ = _ |- _ => rename H into Ho end.
  destruct (structured_oid_parse sha256 nfc Hsha _ _ _ Ho) as (k' & Hk' & Hne). rewrite Hk in Hk'. injection Hk' as <-.
  apply publish_staged_Ok in Hp as (Hh & _ & _ & _ & Hl2 & _). cbn [fst].
  match goal with H : canonical_bytes_with_limits _ _ _ = _ |- _ => apply canonical_json_Ok in H as (_ & _ & _ & _ & _ & ->) end.
  match goal with H : parse_strict_with_limits _ _ _ = _ |- _ => rename H into Hpv end.
  rewrite <- Hl, <- Hl2 in Hlim, Hpv, Ho. destruct (fetch_structured sha256 nfc s2 _ _ k _ Hlim Hpv Ho Hk Hne Hh) as [Hf _].
  apply intact_Ok. by eexists.
Qed.

Lemma repair_object_Ok s oid input s' done : store_limits_ok (limits s) ->
  repair_object sha256 nfc s oid input = Ok (s', done) ->
  match done with
  | AlreadyIntact => s' = s
  | Restored _ => step s s' /\ intact s oid = false /\ intact s' oid = true /\ (size (files s') <= S (size (files s)))%nat /\
      forall x, x <> oid -> intact s' x = intact s x
  end.
Proof.
  intros Hlim H. assert (step s s') as Hs by (by eapply step_repair). unfold repair_object in H.
  apply bind_Ok in H as (_ & _ & (k & Hk & ([[staged oid'] n] & Hst & (st & Hstate & H)%bind_Ok)%bind_Ok)%bind_Ok).
  unfold core in Hk. apply map_err_Ok in Hk.
  assert (forall s2 r, limits s2 = limits s -> publish_staged s2 staged oid' k n = Ok r -> oid' = oid /\ intact (fst r) oid = true) as Hput.
  { intros s2 r Hl Hp. case_bool_decide as Hb.
    - subst k. eapply staged_blob_intact; [done| |done..]. apply read_buffers_spec; [|done]. destruct Hlim as (? & _). lia.
    - apply bind_Ok in Hst as (bytes & _ & Hst). by eapply staged_structured_intact. }
  destruct st as [info| |k'].
  - by injection H as <- <-.
  - apply bind_Ok in H as ([s2 r] & Hp & [= <- <-]). destruct (Hput _ _ eq_refl Hp) as [-> Hi].
    split_and!; [done|by rewrite (object_state_intact _ _ _ Hstate)|done|by eapply publish_size|].
    intros x Hx. unfold is_intact. rewrite (fetch_other s s2 oid k x); [done|done|by eapply step_limits| |done].
    intros p. by eapply publish_other.
  - apply bind_Ok in H as ([s1 t] & Hq & ([s2 r] & Hp & [= <- <-])%bind_Ok).
    pose proof (quarantine_object_limits _ _ _ _ _ Hq) as Hl. destruct (Hput _ _ Hl Hp) as [-> Hi].
    split_and!; [done|by rewrite (object_state_intact _ _ _ Hstate)|done|..].
    + apply quarantine_object_size in Hq as [-> _]. apply publish_size in Hp. lia.
    + intros x Hx. unfold is_intact. rewrite (fetch_other s s2 oid k x); [done|done|by eapply step_limits| |done].
      intros p Hpath. rewrite (publish_other _ _ _ _ _ _ _ _ Hp Hpath). by eapply quarantine_object_other.
Qed.

(** ** The attempts of a source *)

Lemma find_map_fst (l : list (str * str)) oid p : archived_path l oid = Some p -> oid ∈ map fst l.
Proof.
  unfold archived_path. intros H. apply fmap_Some in H as ([a b] & Hf & ->). apply find_some in Hf as [Hin He].
  cbn [fst] in He. apply str_eqb_eq in He as <-. apply list_elem_of_fmap. exists (a, b). split; [done|]. by apply list_elem_of_In.
Qed.

Lemma open_copy_source source oid limit content :
  open_copy source oid limit = Ok (Some content) -> oid ∈ source_oids source.
Proof.
  destruct source as [path fs archived|path copies|path bytes blob]; cbn [open_copy source_oids]; intros H.
  - destruct (archived_path archived oid) as [p|] eqn:E; [by eapply find_map_fst|done].
  - unfold of_store in H. apply map_err_Ok in H. unfold open_object_file, validated_object_path, core in H. result_inv.
    unfold regular_file_if_present in H.
    match goal with H : parse_oid oid = Ok ?k |- _ => rename H into Hk; destruct (oid_path_scanned _ _ Hk) as (p & x & _ & _ & Ho & Hpath) end.
    rewrite Hpath in H. destruct (FileStore.objects copies !! _) as [e|] eqn:E; [|done].
    apply list_elem_of_fmap. eexists (_, e). split; [|by apply elem_of_map_to_list]. rewrite Ho. done.
  - destruct (str_eqb blob oid) eqn:E; [|done]. apply str_eqb_eq in E as ->. set_solver.
Qed.

Lemma source_repair_Ok source s oid s' attempt : store_limits_ok (limits s) ->
  source_repair sha256 nfc source s oid = Ok (s', attempt) ->
  match attempt with
  | NoCopy | Mismatch | Done AlreadyIntact => s' = s
  | Done (Restored _) =>
    step s s' /\ intact s oid = false /\ intact s' oid = true /\ (size (files s') <= S (size (files s)))%nat /\
    (forall x, x <> oid -> intact s' x = intact s x) /\ oid ∈ source_oids source
  end.
Proof.
  intros Hlim H. unfold source_repair in H. apply bind_Ok in H as (k & _ & H). cbv zeta in H.
  destruct (open_copy source oid _) as [[content|]|e] eqn:Hc; [|by simplify_eq..].
  destruct (repair_object sha256 nfc s oid content) as [[s1 rep]|e] eqn:Hr; [|destruct (bool_decide (is_Some (store_code e))); by simplify_eq].
  injection H as <- <-. apply repair_object_Ok in Hr; [|done]. destruct rep; [done|]. destruct Hr as (? & ? & ? & ? & ?).
  split_and!; try done. by eapply open_copy_source.
Qed.
End Facts.

(** ** Repair: the properties *)

Section Rounds.
Variable sha256 : list byte -> list byte.
Variable nfc : list char -> list char.
Hypothesis Hsha : sha256_digest sha256.
Variable sources : list RepairSource.
Variable copies : RecordCopies.

Abbreviation intact := (is_intact sha256 nfc).
Abbreviation step := (store_step sha256 nfc).
Abbreviation files := FileStore.objects.

(** ** What the rounds use up *)

Definition held : list str := flat_map source_oids sources.
Definition broken (s : FileObjectStore) : nat := length (List.filter (fun oid => negb (intact s oid)) held).
(** Twice the copies whose object does not read back, and the files. *)
Definition measure (s : FileObjectStore) : nat := 2 * broken s + size (files s).

Lemma filter_le {A} (f g : A -> bool) l : (forall x, f x = true -> g x = true) ->
  (length (List.filter f l) <= length (List.filter g l))%nat.
Proof.
  intros H. induction l as [|x l IH]; [done|]. cbn. destruct (f x) eqn:E; [rewrite (H x E); cbn; lia|destruct (g x); cbn; lia].
Qed.

Lemma filter_lt {A} (f g : A -> bool) l y : (forall x, f x = true -> g x = true) -> y ∈ l -> f y = false -> g y = true ->
  (length (List.filter f l) < length (List.filter g l))%nat.
Proof.
  intros H Hy Hf Hg. induction l as [|x l IH]; [by apply not_elem_of_nil in Hy|]. cbn. apply elem_of_cons in Hy as [<-|Hy].
  - rewrite Hf, Hg. pose proof (filter_le f g l H). cbn. lia.
  - specialize (IH Hy). destruct (f x) eqn:E; [rewrite (H x E); cbn; lia|destruct (g x); cbn; lia].
Qed.

Lemma broken_le s s' : (forall x, intact s x = true -> intact s' x = true) -> (broken s' <= broken s)%nat.
Proof. intros H. apply filter_le. intros x. rewrite !negb_true_iff, <- !not_true_iff_false. auto. Qed.

Lemma broken_lt s s' oid : (forall x, intact s x = true -> intact s' x = true) -> oid ∈ held ->
  intact s oid = false -> intact s' oid = true -> (broken s' < broken s)%nat.
Proof.
  intros H Hin H1 H2. apply (filter_lt _ _ _ oid); [|done|by rewrite H2|by rewrite H1].
  intros x. rewrite !negb_true_iff, <- !not_true_iff_false. auto.
Qed.

(** ** A part of a round *)

(** From [s] to [s'] on the flag [p] to [p']; [P] holds of what was restored. *)
Record advanced (P : str -> Prop) (s s' : RepairState) (p p' : bool) : Prop := {
  ad_steps : rtc step (rs_store s) (rs_store s');
  ad_measure : (measure (rs_store s') <= measure (rs_store s))%nat;
  ad_progress : p' = true -> p = true \/ (measure (rs_store s') < measure (rs_store s))%nat;
  ad_still : p' = false -> rs_store s' = rs_store s /\ p = false;
  ad_repaired : exists new, rs_repaired s' = rs_repaired s ++ new /\
    Forall (fun rp => P (rp_oid rp) /\ rp_oid rp ∈ held /\ intact (rs_store s) (rp_oid rp) = false /\
      intact (rs_store s') (rp_oid rp) = true) new /\
    forall x, intact (rs_store s') x = true -> intact (rs_store s) x = true \/ exists rp, rp ∈ new /\ rp_oid rp = x;
}.

Lemma advanced_same P s s' p : rs_store s' = rs_store s -> rs_repaired s' = rs_repaired s -> advanced P s s' p p.
Proof.
  intros E1 E2. split; rewrite ?E1; try done; [by left|]. exists []. rewrite app_nil_r, E2. split_and!; [done..|]. auto.
Qed.

Lemma steps_limits s s' : rtc step s s' -> limits s' = limits s.
Proof. induction 1 as [|s s1 s' H _ IH]; [done|]. rewrite IH. by eapply step_limits. Qed.

Lemma steps_intact s s' oid : rtc step s s' -> intact s oid = true -> intact s' oid = true.
Proof. induction 1 as [|s s1 s' H _ IH]; [done|]. intros Hi. by eapply IH, step_intact. Qed.

Lemma advanced_trans P s s1 s2 p p1 p2 : advanced P s s1 p p1 -> advanced P s1 s2 p1 p2 -> advanced P s s2 p p2.
Proof.
  intros [S1 M1 P1 N1 (n1 & R1 & F1 & I1)] [S2 M2 P2 N2 (n2 & R2 & F2 & I2)]. split.
  - by etrans.
  - lia.
  - intros H. destruct (P2 H) as [H1|?]; [|right; lia]. destruct (P1 H1); [by left|right; lia].
  - intros H. destruct (N2 H) as [E2 H1]. destruct (N1 H1) as [E1 ?]. split; [congruence|done].
  - exists (n1 ++ n2). split; [by rewrite R2, R1, app_assoc|]. split.
    + apply Forall_app. split.
      * eapply Forall_impl; [exact F1|]. intros rp (? & ? & ? & ?). split_and!; [done..|]. by apply (steps_intact _ _ _ S2).
      * eapply Forall_impl; [exact F2|]. intros rp (? & ? & Hi & ?). split_and!; [done..| |done].
        apply not_true_iff_false. intros Hi'. apply (steps_intact _ _ _ S1) in Hi'. congruence.
    + intros x Hx. destruct (I2 x Hx) as [Hx1|(rp & ? & ?)]; [destruct (I1 x Hx1) as [|(rp & ? & ?)]|];
        [by left|right; exists rp; set_solver..].
Qed.

Lemma set_aside_all_Ok P oids : forall s p s' p', set_aside_all sha256 nfc oids s p = Ok (s', p') -> advanced P s s' p p'.
Proof.
  induction oids as [|oid oids IH]; intros s p s' p' H; cbn [set_aside_all] in H; [injection H as <- <-; by apply advanced_same|].
  apply bind_Ok in H as ([store moved] & Hq & H). unfold of_store in Hq. apply map_err_Ok in Hq.
  apply (quarantine_Ok sha256 nfc) in Hq. destruct moved as [path|].
  - destruct Hq as (Hs & Hsize & Hi). eapply advanced_trans; [|by apply IH].
    assert (broken store <= broken (rs_store s))%nat by (apply broken_le; intros x; by rewrite Hi).
    split; cbn [with_set_aside rs_store rs_repaired]; unfold measure; rewrite ?Hsize; try done; try lia.
    + by apply rtc_once.
    + exists []. rewrite app_nil_r. split_and!; [done..|]. intros x. rewrite Hi. auto.
  - subst store. eapply advanced_trans; [|by apply IH]. by apply advanced_same.
Qed.

Lemma try_sources_Ok (P : str -> Prop) oid : P oid -> forall rest index s p s' p',
  (forall source, source ∈ rest -> source ∈ sources) -> store_limits_ok (limits (rs_store s)) ->
  try_sources sha256 nfc rest index oid s p = Ok (s', p') -> advanced P s s' p p'.
Proof.
  intros HP. induction rest as [|source rest IH]; intros index s p s' p' Hin Hl H; cbn [try_sources] in H.
  { injection H as <- <-. by apply advanced_same. }
  apply bind_Ok in H as ([store attempt] & Hr & H). apply (source_repair_Ok sha256 nfc Hsha) in Hr; [|done].
  assert (forall x, x ∈ rest -> x ∈ sources) as Hrest by (intros; apply Hin; by right).
  destruct attempt as [| |[|quarantined]].
  - subst store. eapply advanced_trans; [|eapply IH; [done| |exact H]]; [by apply advanced_same|done].
  - subst store. eapply advanced_trans; [|eapply IH; [done| |exact H]]; [by apply advanced_same|done].
  - injection H as <- <-. subst store. by apply advanced_same.
  - injection H as <- <-. destruct Hr as (Hs & Hb & Ha & Hsize & Hother & Hsrc).
    assert (oid ∈ held) as Hh by (apply elem_of_flat_map; exists source; split; [apply Hin; by left|done]).
    assert (broken store < broken (rs_store s))%nat as Hlt.
    { apply (broken_lt _ _ oid); [|done..]. intros x. by apply step_intact. }
    split; cbn [with_repaired rs_store rs_repaired]; unfold measure; try done; try lia; [by apply rtc_once|].
    eexists. split; [done|]. split; [by repeat constructor|]. intros x Hx.
    destruct (decide (x = oid)) as [->|Hne]; [right; eexists; split; [by left|done]|left]. by rewrite <- Hother.
Qed.

Lemma repair_round_Ok (P : str -> Prop) oids : Forall P oids -> forall s p s' p', store_limits_ok (limits (rs_store s)) ->
  repair_round sha256 nfc sources oids s p = Ok (s', p') -> advanced P s s' p p'.
Proof.
  induction 1 as [|oid oids HP _ IH]; intros s p s' p' Hl H; cbn [repair_round] in H.
  { injection H as <- <-. by apply advanced_same. }
  apply bind_Ok in H as ([s1 p1] & H1 & H). apply (try_sources_Ok P oid HP) in H1; [|auto|done].
  eapply advanced_trans; [exact H1|]. eapply IH; [|exact H]. by rewrite (steps_limits _ _ (ad_steps _ _ _ _ _ H1)).
Qed.

(** What a round may restore: an object for which no source holds a Tombstone. *)
Definition restorable (oid : str) : Prop := copies_tombstone_for (source_tombstones copies) oid = None.

Lemma round_oids_restorable damaged : Forall restorable (round_oids (plan_round copies damaged)).
Proof.
  apply Forall_forall. intros oid Hoid. unfold round_oids, plan_round in Hoid. cbn [pl_undecided pl_records pl_others] in Hoid.
  unfold restorable.
  assert (oid ∈ List.filter (fun oid => negb (bool_decide (is_Some (copies_tombstone_for (source_tombstones copies) oid)))) damaged) as Hin.
  { repeat case_match; [by apply not_elem_of_nil in Hoid|apply elem_of_filter_bool in Hoid as [_ ?]; done..]. }
  apply elem_of_filter_bool in Hin as [Hn _]. apply negb_true_iff, bool_decide_eq_false in Hn. by apply eq_None_not_Some.
Qed.

(** No Tombstone that reads back in the store resolves the object. *)
Definition unforbidden (s : FileObjectStore) (oid : str) : Prop :=
  forall t object, file_get_verified sha256 nfc s t = Ok (Some object) -> ob_kind object = Record ->
    tombstone_target object <> Some oid.

Lemma round_oids_damaged damaged oid : oid ∈ round_oids (plan_round copies damaged) -> oid ∈ damaged.
Proof.
  unfold round_oids, plan_round. cbn [pl_undecided pl_records pl_others].
  repeat case_match; [by intros ?%not_elem_of_nil|intros [_ Ho]%elem_of_filter_bool; by apply elem_of_filter_bool in Ho as [_ ?]..].
Qed.

(** An inspection lists as damaged only what the readable Tombstones leave alone. *)
Lemma inspect_unforbidden r report damaged tombstoned oid :
  inspect_damage sha256 nfc r = Ok (report, damaged, tombstoned) -> oid ∈ damaged -> unforbidden (objects r) oid.
Proof.
  unfold inspect_damage. intros ([report' catalog] & Hf%map_err_Ok & [= -> <- _])%bind_Ok.
  rewrite elem_of_sort_dedup, elem_of_filter_bool. intros [Hn _] t object Ht Hk Htarget.
  apply negb_true_iff, bool_decide_eq_false in Hn. apply Hn.
  apply fsck_report in Hf as (found & Hi & _ & _ & Ho & _). destruct (fetch_parse sha256 nfc _ _ _ Ht) as (k & bytes & Hpk & Hb).
  eapply observed_target; [exact Ho|by eapply inventory_lists|done..].
Qed.

Lemma steps_unforbidden s s' oid : rtc step s s' -> unforbidden s' oid -> unforbidden s oid.
Proof.
  intros Hs Hu t object Ht. apply (Hu t). clear Hu. induction Hs as [|s s1 s' H _ IH]; [done|]. apply IH. by eapply store_step_preserves.
Qed.

(** ** All rounds *)

Lemma repair_rounds_Ok r start fuel : forall s s' report, store_limits_ok (limits (rs_store s)) -> rtc step start (rs_store s) ->
  repair_rounds sha256 nfc fuel sources copies r s = Ok (s', report) ->
  exists p, advanced (fun oid => restorable oid /\ unforbidden start oid) s s' false p /\ repaired report = rs_repaired s' /\
    exists damaged tombstoned, inspect_damage sha256 nfc (repository_with r s') = Ok (rp_fsck report, damaged, tombstoned) /\
      remaining report = damaged ++ tombstoned.
Proof.
  induction fuel as [|fuel IH]; intros s s' report Hl Hstart H; cbn [repair_rounds] in H; [done|].
  apply bind_Ok in H as ([[fsck_report damaged] tombstoned] & Hd & ([s1 p1] & H1 & ([s2 p2] & H2 & H)%bind_Ok)%bind_Ok).
  set (P := fun oid => restorable oid /\ unforbidden start oid) in *.
  apply (set_aside_all_Ok P) in H1. pose proof (steps_limits _ _ (ad_steps _ _ _ _ _ H1)) as Hl1.
  apply (repair_round_Ok P) in H2; [|apply Forall_forall; intros oid Hoid; split|by rewrite Hl1].
  2: { pose proof (round_oids_restorable damaged) as Hr. rewrite Forall_forall in Hr. by apply Hr. }
  2: { apply (steps_unforbidden _ _ _ Hstart). apply (inspect_unforbidden (repository_with r s) fsck_report damaged tombstoned); [exact Hd|by apply round_oids_damaged]. }
  pose proof (advanced_trans _ _ _ _ _ _ _ H1 H2) as Ha. destruct p2.
  - apply IH in H as (p & Ha' & Hrep & Hin); [|by rewrite (steps_limits _ _ (ad_steps _ _ _ _ _ Ha))|etrans; [exact Hstart|apply Ha]].
    exists true. split; [|done]. destruct Ha' as [S2 M2 P2 N2 R2]. eapply advanced_trans; [exact Ha|].
    split; [done|done|by left| |done]. done.
  - injection H as <- <-. exists false. split; [done|]. split; [done|]. exists damaged, tombstoned.
    cbn [rp_fsck repair_report remaining]. split; [|done]. unfold repository_with in *.
    destruct (ad_still _ _ _ _ _ Ha eq_refl) as [-> _]. exact Hd.
Qed.

(** ** Errors *)

(** Not the end of the recursion bound. *)
Definition fueled {A} (m : presult A) : Prop := m <> Err (RepoCore OutOfFuel).

Lemma fueled_bind {A B} (m : presult A) (f : A -> presult B) :
  fueled m -> (forall a, m = Ok a -> fueled (f a)) -> fueled (m ≫= f).
Proof. intros Hm Hf [He|(a & Ha & He)]%bind_Err; [by apply Hm|by eapply Hf]. Qed.
Lemma fueled_Ok {A} (a : A) : fueled (Ok a).
Proof. done. Qed.
Lemma fueled_store {A} (m : sresult A) : fueled (of_store m).
Proof. by destruct m. Qed.
Lemma fueled_parse oid : fueled (of_core (parse_oid oid)).
Proof.
  unfold parse_oid. cbv zeta. destruct (list.head (split_on 58 oid) ≫= kind_of_prefix) as [k|]; [|done]. cbn [ok_or mbind result_bind].
  destruct (_ || _); [done|]. destruct (split_on 58 oid !! 3%nat) as [d|]; [|done]. cbn [ok_or mbind result_bind].
  by destruct (_ || _ || _).
Qed.
Lemma fueled_inspect r : fueled (inspect_damage sha256 nfc r).
Proof. apply fueled_bind; [apply fueled_store|]. by intros [??] _. Qed.

#[local] Hint Resolve fueled_Ok fueled_store fueled_parse fueled_inspect : synapse.

Lemma fueled_set_aside oids : forall s p, fueled (set_aside_all sha256 nfc oids s p).
Proof.
  induction oids as [|oid oids IH]; intros s p; [done|]. cbn [set_aside_all]. apply fueled_bind; [auto with synapse|].
  intros [store [path|]] _; apply IH.
Qed.

Lemma fueled_source source s oid : fueled (source_repair sha256 nfc source s oid).
Proof.
  apply fueled_bind; [auto with synapse|]. intros k _. cbv zeta.
  destruct (open_copy source oid _) as [[content|]|]; [|done..].
  destruct (repair_object sha256 nfc s oid content) as [[??]|e]; [done|]. by destruct (bool_decide (is_Some (store_code e))).
Qed.

Lemma fueled_try rest : forall index oid s p, fueled (try_sources sha256 nfc rest index oid s p).
Proof.
  induction rest as [|source rest IH]; intros index oid s p; [done|]. cbn [try_sources]. apply fueled_bind; [apply fueled_source|].
  intros [store [| |[|q]]] _; done || apply IH.
Qed.

Lemma fueled_round oids : forall s p, fueled (repair_round sha256 nfc sources oids s p).
Proof.
  induction oids as [|oid oids IH]; intros s p; [done|]. cbn [repair_round]. apply fueled_bind; [apply fueled_try|]. intros [??] _. apply IH.
Qed.

Lemma fueled_rounds r fuel : forall s, store_limits_ok (limits (rs_store s)) -> (measure (rs_store s) < fuel)%nat ->
  fueled (repair_rounds sha256 nfc fuel sources copies r s).
Proof.
  induction fuel as [|fuel IH]; intros s Hl Hf; [lia|]. cbn [repair_rounds].
  apply fueled_bind; [auto with synapse|]. intros [[report damaged] tombstoned] _.
  apply fueled_bind; [apply fueled_set_aside|]. intros [s1 p1] H1. apply (set_aside_all_Ok restorable) in H1.
  apply fueled_bind; [apply fueled_round|]. intros [s2 p2] H2.
  apply (repair_round_Ok restorable) in H2; [|apply round_oids_restorable|by rewrite (steps_limits _ _ (ad_steps _ _ _ _ _ H1))].
  pose proof (advanced_trans _ _ _ _ _ _ _ H1 H2) as Ha. destruct p2; [|done].
  destruct (ad_progress _ _ _ _ _ Ha eq_refl) as [|Hm]; [done|]. apply IH; [|lia].
  by rewrite (steps_limits _ _ (ad_steps _ _ _ _ _ Ha)).
Qed.

Lemma measure_fuel s : (measure s < repair_fuel sources s)%nat.
Proof.
  unfold measure, repair_fuel, broken, held. pose proof (filter_le (fun oid => negb (intact s oid)) (fun _ => true) (flat_map source_oids sources)).
  rewrite (filter_all (fun _ => true)) in H by (by apply Forall_true). specialize (H ltac:(done)). lia.
Qed.
End Rounds.

(** ** What comes before the rounds *)

Section Opening.
Variable sha256 : list byte -> list byte.
Variable nfc : list char -> list char.
Context {format : ManifestFormat}.

Lemma fueled_reject b e : e <> RepoCore OutOfFuel -> fueled (reject_if b e).
Proof. destruct b; [|done]. cbn. intros H [= E]. by apply H. Qed.
Lemma fueled_ok_or {A} (o : option A) e : e <> RepoCore OutOfFuel -> fueled (ok_or o e).
Proof. destruct o; [done|]. cbn. intros H [= E]. by apply H. Qed.

Ltac fueled_step :=
  repeat match goal with
  | |- fueled (_ ≫= _) => apply fueled_bind; [|intros ? _]
  | |- fueled (reject_if _ _) => by apply fueled_reject
  | |- fueled (ok_or _ _) => by apply fueled_ok_or
  | |- fueled (of_store _) => apply fueled_store
  | |- fueled (Ok _) => done
  end.

Lemma fueled_open_regular archive path limit : fueled (open_regular_limited archive path limit).
Proof. unfold open_regular_limited. fueled_step. case_match; fueled_step; done. Qed.

Lemma fueled_read_limited archive path limit : fueled (read_limited archive path limit).
Proof. unfold read_limited. fueled_step. apply fueled_open_regular. Qed.

Lemma fueled_validate_objects objects : forall index oids paths previous, fueled (validate_objects objects index oids paths previous).
Proof.
  induction objects as [|object objects IH]; intros; cbn [validate_objects]; [done|]. fueled_step; [by destruct (parse_oid _)|].
  apply IH.
Qed.

Lemma fueled_manifest archive : fueled (read_verified_manifest sha256 archive).
Proof.
  unfold read_verified_manifest. fueled_step; try apply fueled_read_limited. unfold validate_manifest. fueled_step. apply fueled_validate_objects.
Qed.

Lemma fueled_open paths limits : fueled (open_sources sha256 paths limits).
Proof.
  induction paths as [|[path node] paths IH]; [done|]. cbn [open_sources]. fueled_step; [|done].
  unfold open_source. destruct node as [content|files cas|]; [fueled_step| |done].
  destruct (regular_at _ _); [fueled_step; [apply fueled_manifest|by case_match]|]. destruct cas; fueled_step. done.
Qed.

Lemma fueled_copies source target oids : forall tombstones usable, fueled (read_record_copies sha256 nfc source target oids tombstones usable).
Proof.
  induction oids as [|oid oids IH]; intros; [done|]. cbn [read_record_copies].
  destruct (open_copy _ _ _) as [[content|]|]; try apply IH. destruct (verify_structured_copy _ _ _ _ _); [|apply IH].
  fueled_step. apply IH.
Qed.

Lemma fueled_records sources target : forall copies, fueled (read_all_records sha256 nfc sources target copies).
Proof.
  induction sources as [|source sources IH]; intros; [done|]. cbn [read_all_records]. fueled_step; [|apply IH].
  unfold read_records. fueled_step; [destruct source; cbn [record_oids]; fueled_step|apply fueled_copies|by case_match].
Qed.
End Opening.

(** Repairing ends.  On any repository whose limits are those of the code and with any
    sources, [repair_objects] returns: the rounds stop before the bound of the model, since
    each round that goes on restores an object that some source holds or moves a file aside. *)
Lemma repair_terminates {format : ManifestFormat} sha256 nfc (r : Repository FileObjectStore) paths :
  sha256_digest sha256 -> store_limits_ok (limits (objects r)) ->
  repair_objects sha256 nfc r paths <> Err (RepoCore OutOfFuel).
Proof.
  intros Hsha Hl. change (fueled (repair_objects sha256 nfc r paths)). unfold repair_objects.
  apply fueled_bind; [by apply fueled_reject|intros _ _]. apply fueled_bind; [apply fueled_open|intros sources _].
  apply fueled_bind; [apply fueled_records|intros copies _]. apply fueled_bind; [|by intros [??] _].
  apply fueled_rounds; [done..|apply measure_fuel].
Qed.

(** C8: a repair only adds verified copies.  When it returns, the Refs and the limits are as
    before; every object that read back still does; each object that it reports restored did
    not read back, is held by one of the sources, and is resolved neither by a Tombstone of a
    source nor by any Tombstone that read back in the repository itself before the repair; and
    every object that reads back and did not before is reported.  What the report says of the
    repository is what an inspection of the result finds. *)
Theorem repair_sound {format : ManifestFormat} sha256 nfc (r r' : Repository FileObjectStore) paths report :
  sha256_digest sha256 -> store_limits_ok (limits (objects r)) ->
  repair_objects sha256 nfc r paths = Ok (r', report) ->
  exists sources copies, open_sources sha256 paths (limits (objects r)) = Ok sources /\
    read_all_records sha256 nfc sources (objects r) no_copies = Ok copies /\
    r' = set_store r (objects r') /\ rtc (store_step sha256 nfc) (objects r) (objects r') /\
    (forall oid, is_intact sha256 nfc (objects r) oid = true -> is_intact sha256 nfc (objects r') oid = true) /\
    (forall rp, rp ∈ repaired report ->
       is_intact sha256 nfc (objects r) (rp_oid rp) = false /\ is_intact sha256 nfc (objects r') (rp_oid rp) = true /\
       (exists source, source ∈ sources /\ rp_oid rp ∈ source_oids source) /\
       copies_tombstone_for (source_tombstones copies) (rp_oid rp) = None /\
       (forall t tombstone, file_get_verified sha256 nfc (objects r) t = Ok (Some tombstone) -> ob_kind tombstone = Record ->
          tombstone_target tombstone <> Some (rp_oid rp))) /\
    (forall oid, is_intact sha256 nfc (objects r') oid = true ->
       is_intact sha256 nfc (objects r) oid = true \/ exists rp, rp ∈ repaired report /\ rp_oid rp = oid) /\
    exists damaged tombstoned, inspect_damage sha256 nfc r' = Ok (rp_fsck report, damaged, tombstoned) /\
      remaining report = damaged ++ tombstoned.
Proof.
  intros Hsha Hl H. unfold repair_objects in H.
  apply bind_Ok in H as (_ & _ & (sources & Hs & (copies & Hc & ([s rep] & Hr & [= <- <-])%bind_Ok)%bind_Ok)%bind_Ok).
  apply (repair_rounds_Ok sha256 nfc Hsha _ _ _ (objects r)) in Hr as (p & [Ssteps _ _ _ (new & Hnew & Hfa & Hin)] & Hrep & damaged & tombs & Hd & Hrem); [|done|done].
  cbn [rs_store rs_repaired app] in *. exists sources, copies. split; [done|]. split; [done|]. unfold repository_with.
  split; [by destruct r|]. split; [done|]. split; [intros oid; by eapply steps_intact|]. rewrite Hrep, Hnew.
  split; [|split; [exact Hin|by exists damaged, tombs]]. rewrite Forall_forall in Hfa. intros rp Hrp.
  destruct (Hfa rp Hrp) as ([HP Hu] & Hh & ? & ?). split_and!; [done..| |exact HP|exact Hu].
  apply elem_of_flat_map in Hh as (source & ? & ?). by exists source.
Qed.

(** ** The sample: the Blob is missing, and a file holds its bytes *)

Definition blob_source : list (str * SourceNode) := [(lit "/copies/note.txt", SourceFile [104; 105; 33])].
Definition sample_repair : presult (Repository FileObjectStore * RepairReport) :=
  repair_objects toy_sha256 nfc_id damaged_repository blob_source.
Definition sample_repaired : Repository FileObjectStore * RepairReport :=
  match sample_repair with
  | Ok fueled_step => fueled_step
  | Err _ => (damaged_repository,
      {| repaired := []; remaining := []; undecided := []; held_back := []; set_aside := []; erased_in_source := [];
         mismatched := []; unused_sources := [];
         rp_fsck := {| objects_seen := 0; objects_verified := 0; closures := []; fsck_issues := [] |} |})
  end.

Lemma sample_repair_ok : repair_objects toy_sha256 nfc_id damaged_repository blob_source = Ok (sample_repaired.1, sample_repaired.2).
Proof.
  change (sample_repair = Ok (sample_repaired.1, sample_repaired.2)).
  unfold sample_repaired. assert (is_ok sample_repair = true) as H by (vm_cast_no_check (eq_refl true)).
  revert H. generalize sample_repair. by intros [[? ?]|e].
Qed.

Example sample_repaired_blob : map rp_oid (repaired sample_repaired.2) = [with_blob.2] /\ remaining sample_repaired.2 = [].
Proof. vm_compute. done. Qed.

Lemma damaged_limits_ok : store_limits_ok (limits (objects damaged_repository)).
Proof.
  assert (limits (objects damaged_repository) = small_store_limits) as -> by (vm_compute; reflexivity).
  apply small_store_limits_ok.
Qed.

Lemma repair_sound_witness :
  exists sources copies, open_sources toy_sha256 blob_source (limits (objects damaged_repository)) = Ok sources /\
    read_all_records toy_sha256 nfc_id sources (objects damaged_repository) no_copies = Ok copies.
Proof.
  destruct (repair_sound toy_sha256 nfc_id damaged_repository sample_repaired.1 blob_source sample_repaired.2 toy_sha256_digest
    damaged_limits_ok sample_repair_ok) as (sources & copies & Hs & Hc & _).
  exists sources, copies. split; [exact Hs|exact Hc].
Defined.
