(* ===== verification/RestoreFacts.v ===== *)
(** * Archives: what export and restore do *)

From stdpp Require Import base list numbers strings gmap sets relations.
From Stdlib Require Import ZArith Lia Sorted.
From S2P Require Import Prelude Sorting Text TextFacts BTree RefStore RefStoreProps Canonical CanonicalWrite CanonicalLaws.
From S2P Require Import CanonicalProps Oid SchemaSemantics Registry ObjectStore FileStore FileStoreProps Inventory InventoryProps.
From S2P Require Import Closure Repository Archive Fsck FsckProps Repair RepairProps.

#[local] Open Scope Z_scope.

(** ** Archives: what an export writes

    The hashing writer, the files and rows of an export, and the manifest read back. *)

(** ** Bounded reads *)

Lemma written_file (d : ArchiveDirectory) path e : <[path := e]> d !! path = Some e.
Proof. apply lookup_insert_eq. Qed.
Lemma other_file (d : ArchiveDirectory) path path' e : path <> path' -> <[path := e]> d !! path' = d !! path'.
Proof. apply lookup_insert_ne. Qed.

Lemma open_regular_Ok archive path content limit : archive !! path = Some (RegularFile content) -> len content <= limit ->
  open_regular_limited archive path limit = Ok content.
Proof.
  intros H Hl. unfold open_regular_limited. rewrite H. cbn [ok_or mbind result_bind]. by rewrite Z.gtb_ltb, (proj2 (Z.ltb_ge _ _)).
Qed.

Lemma read_limited_Ok archive path content limit : archive !! path = Some (RegularFile content) -> len content <= limit <= usize_max ->
  read_limited archive path limit = Ok content.
Proof.
  intros H [Hl Hm]. unfold read_limited. rewrite (open_regular_Ok _ _ _ _ H) by done. cbn [mbind result_bind].
  assert (read_take (usize_saturating_add limit 1) content = content) as ->.
  { unfold read_take. rewrite (proj2 (Z.leb_le _ _)); [done|]. unfold usize_saturating_add. lia. }
  by rewrite Z.gtb_ltb, (proj2 (Z.ltb_ge _ _)).
Qed.

(** ** The hashing writer *)

(** A [write] that takes everything appends everything, within the limit. *)
Lemma hashing_write_loop_Ok fuel : forall w buffer w', len (hw_file w) <= hw_max_byte_length w ->
  hashing_write_loop fuel w buffer = (w', true) ->
  hw_file w' = hw_file w ++ buffer /\ hw_max_byte_length w' = hw_max_byte_length w /\
  hw_limit_exceeded w' = hw_limit_exceeded w /\ len (hw_file w') <= hw_max_byte_length w.
Proof.
  induction fuel as [|fuel IH]; intros w [|b buffer] w' Hw H; cbn [hashing_write_loop] in H;
    [injection H as <-; by rewrite app_nil_r|done|injection H as <-; by rewrite app_nil_r|].
  unfold hashing_write in H. destruct (_ && _) eqn:E; [done|].
  destruct (Z.eqb_spec (Z.min (hw_max_byte_length w - len (hw_file w)) (len (b :: buffer))) 0) as [|Hc]; [done|].
  assert (len (take (Z.to_nat (Z.min (hw_max_byte_length w - len (hw_file w)) (len (b :: buffer)))) (b :: buffer))
          <= hw_max_byte_length w - len (hw_file w)) as Ht.
  { unfold len at 1. rewrite length_take. lia. }
  apply IH in H; cbn [hw_file hw_max_byte_length hw_limit_exceeded] in *; [|len_lia].
  destruct H as (-> & -> & -> & Hl). rewrite <- app_assoc, take_drop. split_and!; [done..|].
  rewrite <- app_assoc, take_drop in Hl. done.
Qed.

Lemma hashing_write_all_Ok w buffer w' : len (hw_file w) <= hw_max_byte_length w ->
  hashing_write_all w buffer = (w', true) ->
  hw_file w' = hw_file w ++ buffer /\ hw_max_byte_length w' = hw_max_byte_length w /\
  hw_limit_exceeded w' = hw_limit_exceeded w /\ len (hw_file w') <= hw_max_byte_length w.
Proof. apply hashing_write_loop_Ok. Qed.

Lemma copy_loop_Ok max reads : forall bytes total w w' copied, len (hw_file w) <= hw_max_byte_length w ->
  copy_loop hashing_write_all max reads bytes total w = (w', Ok copied) ->
  exists more, copied = bytes ++ more /\ hw_file w' = hw_file w ++ more /\ len (hw_file w') <= hw_max_byte_length w /\
    exists n, read_loop max reads bytes total = Ok (copied, n).
Proof.
  induction reads as [|buffer reads IH]; intros bytes total w w' copied Hw H; cbn [copy_loop read_loop] in *.
  { injection H as <- <-. exists []. rewrite !app_nil_r. by split_and!; [..|eexists]. }
  case_bool_decide; [injection H as <- <-; exists []; rewrite !app_nil_r; by split_and!; [..|eexists]|].
  destruct (usize_checked_add total (len buffer)) as [t|]; [|done]. cbn [ok_or mbind result_bind].
  destruct (t >? max); [done|]. cbn [reject_if mbind result_bind].
  destruct (hashing_write_all w buffer) as [w1 [|]] eqn:Hwr; [|done]. apply hashing_write_all_Ok in Hwr as (Hf & Hm & _ & Hl); [|done].
  apply IH in H as (more & -> & Hf' & Hl' & n & Hr); [|by rewrite Hm]. exists (buffer ++ more).
  rewrite Hf', Hf, !app_assoc. split_and!; [done..|congruence|by exists n].
Qed.

Section Facts.
Variable sha256 : list byte -> list byte.
Variable nfc : list char -> list char.
Hypothesis Hsha : sha256_digest sha256.

(** ** Stored objects *)

(** The file of an identifier holds bytes that its store verifies. *)
Definition stores (s : FileObjectStore) (oid : str) (k : ObjectKind) (content : list byte) : Prop :=
  parse_oid oid = Ok k /\ holds s oid k content /\
  if bool_decide (k = Blob) then len content <= max_blob_bytes (limits s) /\ blob_oid sha256 content = oid
  else len content <= max_input_bytes (structured (limits s)) /\
       exists value, verify_raw_bytes sha256 nfc s oid k content = Ok value.

Lemma read_file_limited_inv content limit bytes :
  read_file_limited content limit = Ok bytes -> bytes = content /\ len content <= limit.
Proof.
  unfold read_file_limited. intros H. result_inv. repeat match goal with H : (_ >? _) = false |- _ => rewrite Z.gtb_ltb in H; apply Z.ltb_ge in H end.
  split; [|done]. apply take_ge. pose proof (len_nonneg content). unfold len in *. lia.
Qed.

(** The bound of a verified Blob is the bound of its file. *)
Lemma read_loop_len max reads : forall bytes total copied n, total = len bytes -> len bytes <= max ->
  read_loop max reads bytes total = Ok (copied, n) -> n = len copied /\ len copied <= max.
Proof.
  induction reads as [|r reads IH]; intros bytes total copied n Ht Hb H; cbn [read_loop] in H; [injection H as <- <-; done|].
  case_bool_decide; [injection H as <- <-; done|]. result_inv.
  repeat match goal with H : (_ >? _) = false |- _ => rewrite Z.gtb_ltb in H; apply Z.ltb_ge in H end.
  unfold usize_checked_add in *. repeat case_match; simplify_eq. eapply IH; [|..|exact H]; len_lia.
Qed.

Lemma copy_to_stores s oid w w' k n : store_limits_ok (limits s) -> len (hw_file w) <= hw_max_byte_length w ->
  copy_verified_to sha256 nfc hashing_write_all s oid w = (w', Ok (Some (k, n))) ->
  exists content, stores s oid k content /\ hw_file w' = hw_file w ++ content /\ n = len content /\
    len (hw_file w') <= hw_max_byte_length w.
Proof.
  intros Hlim Hw H. unfold copy_verified_to, validated_object_path, core in H.
  destruct (parse_oid oid) as [k0|e] eqn:Hk; [|done]. cbn [map_err mbind result_bind] in H.
  unfold regular_file_if_present in H. destruct (FileStore.objects s !! _) as [[content|]|] eqn:Hf; cbn [mbind result_bind] in H; [|done..].
  destruct (if bool_decide (k0 = Blob) then _ else _) as [w1 copied] eqn:Hc. injection H as <- H. result_inv.
  exists content. assert (holds s oid k content) as Hh by done. unfold stores. case_bool_decide as Hb.
  - unfold copy_blob_to in Hc. destruct (copy_loop _ _ _ _ _ _) as [w2 r] eqn:Hl. injection Hc as <- Hc.
    apply bind_Ok in Hc as (bytes & -> & Hc). result_inv. apply negb_false_iff, str_eqb_eq in Hc.
    pose proof Hlim as (Hio & Hmax & _).
    apply copy_loop_Ok in Hl as (more & E & Hfile & Hle & m & Hr); [|done]. cbn [app] in E. subst bytes.
    destruct (read_buffers_spec (Z.to_nat (io_buffer_bytes (limits s))) (length content) content) as [Hcat Hne]; [lia|done|].
    apply read_loop_len in Hr as Hlen; [|done|change (len []) with 0; lia]. rewrite read_loop_spec in Hr by (done || lia).
    destruct (_ || _); [|done]. injection Hr as E _. cbn [app] in E. rewrite Hcat in E. subst more. destruct Hlen as [_ ?]. by split_and!.
  - unfold copy_structured_to in Hc. destruct (bytes ← _; _) as [bytes|e] eqn:Hb' in Hc; [|done].
    apply bind_Ok in Hb' as (b' & Hrd & (v & Hv & [= ->])%bind_Ok). apply read_file_limited_inv in Hrd as [-> Hle].
    apply map_err_Ok in Hv. destruct (hashing_write_all w content) as [w2 acc] eqn:Hwr. injection Hc as <- Hc.
    apply reject_if_Ok, negb_false_iff in Hc as ->. apply hashing_write_all_Ok in Hwr as (? & ? & ? & ?); [|done].
    split_and!; [done..|by eexists|done|done|done].
Qed.

(** ** The files and rows of an export *)

Definition object_row (oid : str) (index : Z) (content : list byte) : ArchiveObject :=
  {| ao_oid := oid; ao_path := archive_object_path index; ao_byte_length := len content; ao_sha256 := sha256_hex sha256 content |}.

Lemma export_object_Ok s oid index remaining bytes row : store_limits_ok (limits s) -> 0 <= remaining ->
  export_object sha256 nfc s oid index remaining = Ok (bytes, row) ->
  (exists k, stores s oid k bytes) /\ row = object_row oid index bytes /\ len bytes <= remaining.
Proof.
  intros Hlim Hr H. unfold export_object in H. destruct (copy_verified_to _ _ _ _ _ _) as [w copied] eqn:Hc.
  apply bind_Ok in H as (_ & _ & (info & Hi & (i & Ho & H)%bind_Ok)%bind_Ok). unfold of_store in Hi. apply map_err_Ok in Hi.
  apply ok_or_Ok in Ho. subst. destruct i as [k n]. cbn [hashing_finish] in H. unfold hashing_finish in H. result_inv.
  apply copy_to_stores in Hc as (content & Hst & Hf & -> & Hl); [|done|done].
  cbn [hashing_writer_new hw_file hw_max_byte_length app] in *. rewrite Hf in *. split_and!; [by exists k|done|done].
Qed.

(** What the rows of an export, numbered from [index], say of a store. *)
Inductive rows_of (s : FileObjectStore) (directory : ArchiveDirectory) : Z -> list ArchiveObject -> Prop :=
| rows_nil index : rows_of s directory index []
| rows_cons index oid k content rows :
    stores s oid k content -> directory !! archive_object_path index = Some (RegularFile content) ->
    rows_of s directory (index + 1) rows -> rows_of s directory index (object_row oid index content :: rows).

Lemma rows_of_snoc s directory rows : forall index oid k content,
  rows_of s directory index rows -> stores s oid k content ->
  directory !! archive_object_path (index + len rows) = Some (RegularFile content) ->
  rows_of s directory index (rows ++ [object_row oid (index + len rows) content]).
Proof.
  induction rows as [|row rows IH]; intros index oid k content Hr Hst Hd.
  - rewrite len_nil, Z.add_0_r in *. by eapply rows_cons; [..|constructor].
  - inversion Hr; subst. rewrite len_cons in Hd |- *. cbn [app]. eapply rows_cons; [done..|].
    replace (index + (len rows + 1)) with (index + 1 + len rows) in * by lia. replace (index + (1 + len rows)) with (index + 1 + len rows) in * by lia.
    by eapply IH.
Qed.

Lemma rows_of_weaken s d d' : forall rows index, rows_of s d index rows ->
  (forall i, index <= i < index + len rows -> d' !! archive_object_path i = d !! archive_object_path i) -> rows_of s d' index rows.
Proof.
  induction rows as [|row rows IH]; intros index Hr Hd; [constructor|]. inversion Hr; subst. rewrite len_cons in Hd.
  eapply rows_cons; [done| |apply IH; [done|intros; apply Hd; lia]]. rewrite Hd; [done|]. pose proof (len_nonneg rows). lia.
Qed.

Lemma show_padded_inj w n m : 0 <= n -> 0 <= m -> show_padded w n = show_padded w m -> n = m.
Proof.
  intros Hn Hm E. apply (f_equal digits_value) in E. unfold show_padded in E.
  by rewrite !digits_value_zeros, !show_nonneg_value in E by done.
Qed.

Lemma archive_path_inj i j : 0 <= i -> 0 <= j -> archive_object_path i = archive_object_path j -> i = j.
Proof. intros Hi Hj E%(app_inv_head (lit "objects/")). by eapply show_padded_inj. Qed.

Definition declared (rows : list ArchiveObject) : Z := foldr (fun row n => ao_byte_length row + n) 0 rows.

Lemma export_objects_Ok s limits0 oids : store_limits_ok (limits s) -> forall index d rows total d' rows',
  0 <= total -> index = len rows -> rows_of s d 0 rows -> total = declared rows ->
  export_objects sha256 nfc s limits0 oids index d rows total = Ok (d', rows') ->
  rows_of s d' 0 rows' /\ map ao_oid rows' = map ao_oid rows ++ oids /\
  (total <= ex_max_object_bytes limits0 -> declared rows' <= ex_max_object_bytes limits0) /\ declared rows' <= Z.max total usize_max.
Proof.
  intros Hlim. induction oids as [|oid oids IH]; intros index d rows total d' rows' H0 Hi Hr Ht H; cbn [export_objects] in H.
  { injection H as <- <-. rewrite app_nil_r. split_and!; [done..|lia|lia]. }
  apply bind_Ok in H as (_ & Hrem%reject_if_Ok%Z.ltb_ge & ([bytes row] & He & (t & Ha & H)%bind_Ok)%bind_Ok).
  apply export_object_Ok in He as ((k & Hst) & -> & Hl); [|done|done]. apply ok_or_Ok in Ha. unfold usize_checked_add in Ha.
  cbn [object_row ao_byte_length ao_path] in *. case_match; simplify_eq. pose proof (len_nonneg bytes).
  match goal with H : (_ <=? usize_max) = true |- _ => apply Z.leb_le in H end.
  assert (forall rows bytes, declared (rows ++ [object_row oid (len rows) bytes]) = declared rows + len bytes) as Hdec.
  { intros l b. generalize (len l). intros n. induction l as [|r l IHl]; cbn [declared foldr app object_row ao_byte_length] in *; [lia|].
    unfold declared in *. lia. }
  apply IH in H; [|lia|len_lia| |by rewrite Hdec].
  - destruct H as (? & Hm & Hx & Hy). rewrite map_app in Hm. cbn [map object_row ao_oid] in Hm. rewrite <- app_assoc in Hm.
    split_and!; [done|done|lia|]. lia.
  - eapply (rows_of_snoc s _ rows 0); [|exact Hst|rewrite Z.add_0_l; apply written_file].
    eapply rows_of_weaken; [done|]. intros i Hb. apply other_file. intros E%archive_path_inj; [lia..].
Qed.

(** ** The manifest *)

Lemma sha256_hex_shape content : len (sha256_hex sha256 content) = 64 /\ forallb is_lower_hex (sha256_hex sha256 content) = true.
Proof. destruct (Hsha content) as [Hl Hd]. apply lower_hex_shape in Hd as [Hn Hd]. split; [|done]. unfold sha256_hex. rewrite Hn. unfold len. by rewrite Hl. Qed.

Lemma blob_oid_digest content : oid_digest (blob_oid sha256 content) = sha256_hex sha256 content.
Proof.
  change (blob_oid sha256 content) with (oid_text Blob (sha256_hex sha256 content)). unfold oid_digest.
  rewrite oid_text_split by (apply lower_hex_no_colon, sha256_hex_shape). done.
Qed.

Lemma validate_rows s d rows : forall index oids paths previous, rows_of s d index rows -> 0 <= index ->
  Sorted lex_lt (option_list previous ++ map ao_oid rows) ->
  (forall row, row ∈ rows -> ao_oid row ∉ oids) -> (forall i, index <= i -> archive_object_path i ∉ paths) ->
  validate_objects rows index oids paths previous = Ok tt.
Proof.
  induction rows as [|row rows IH]; intros index oids paths previous Hr Hi Hs Ho Hp; [done|]. inversion Hr as [|? oid k content ? Hst Hd Hrest]; subst.
  cbn [validate_objects object_row ao_oid ao_path ao_sha256]. destruct Hst as (Hk & _ & Hst). rewrite Hk. cbn [map_err mbind result_bind].
  rewrite str_eqb_refl. cbn [negb reject_if mbind result_bind].
  rewrite (bool_decide_eq_false_2 (oid ∈ oids)) by (apply (Ho (object_row oid index content)); by left).
  rewrite (bool_decide_eq_false_2 (archive_object_path index ∈ paths)) by (apply Hp; lia). cbn [orb reject_if mbind result_bind].
  assert (Sorted lex_lt (oid :: map ao_oid rows)) as Hs' by (destruct previous; [by apply Sorted_inv in Hs as [? _]|done]).
  assert (match previous with Some p => str_ge p oid | None => false end = false) as ->.
  { destruct previous as [p|]; [|done]. apply Sorted_inv in Hs as [_ Hh]. apply HdRel_inv in Hh. unfold str_ge. cbn [object_row ao_oid] in Hh. unfold cmp_lt in Hh. by rewrite Hh. }
  cbn [reject_if mbind result_bind]. destruct (sha256_hex_shape content) as [Hl Hx]. unfold lower_hex_name. rewrite Hl, Hx. cbn [Z.eqb andb negb reject_if mbind result_bind].
  replace (bool_decide (k = Blob) && _) with false.
  2: { case_bool_decide; [|done]. destruct Hst as [_ <-]. by rewrite blob_oid_digest, str_eqb_refl. }
  cbn [reject_if mbind result_bind]. apply IH; [done|lia|done|..].
  - intros row Hrow [E%elem_of_singleton|Hin]%elem_of_union; [|by apply (Ho row); [right|]].
    apply sorted_strs_NoDup, NoDup_cons in Hs' as [Hn _]. apply Hn, list_elem_of_fmap. by exists row.
  - intros i Hle [E%elem_of_singleton|Hin]%elem_of_union; [apply archive_path_inj in E; lia|]. apply (Hp i); [lia|done].
Qed.

Lemma into_from_parts rows archive : into_ref_archive (from_parts rows archive) = archive.
Proof.
  destruct archive as [[rs] log]. unfold into_ref_archive, from_parts. cbn [am_refs am_reflog snapshot reflog RefStore.refs]. f_equal; [f_equal|].
  - rewrite map_map. rewrite <- (map_id rs) at 2. apply map_ext. by intros [].
  - rewrite map_map. rewrite <- (map_id log) at 2. apply map_ext. by intros [].
Qed.

Context {format : ManifestFormat} {laws : ManifestFormatLaws}.

Lemma object_path_not_manifest i : archive_object_path i <> MANIFEST_FILE /\ archive_object_path i <> MANIFEST_CHECKSUM_FILE.
Proof. unfold archive_object_path. cbn. split; intros [=]. Qed.

Lemma manifest_names : MANIFEST_CHECKSUM_FILE <> MANIFEST_FILE.
Proof. intros E. by apply (f_equal length) in E. Qed.

(** What [read_verified_manifest] and the readers of objects find in a written archive. *)
Lemma write_manifest_read s d rows manifest d' : rows_of s d 0 rows -> am_objects manifest = rows -> am_format manifest = ARCHIVE_FORMAT ->
  Sorted lex_lt (map ao_oid rows) -> write_manifest sha256 d manifest = Ok d' ->
  rows_of s d' 0 rows /\ exists checksum, read_verified_manifest sha256 d' = Ok (manifest, checksum).
Proof.
  intros Hr Hm Hf Hs H. unfold write_manifest in H. destruct (hashing_write_all _ _) as [w written] eqn:Hw.
  apply bind_Ok in H as (_ & _ & (_ & Hwr%reject_if_Ok%negb_false_iff & H)%bind_Ok). subst written.
  apply hashing_write_all_Ok in Hw as (Hfile & _ & _ & Hl); [|by vm_compute]. cbn [hashing_writer_new hw_file app hw_max_byte_length] in *.
  cbn [hashing_finish] in H. unfold hashing_finish in H. injection H as <-. split.
  { eapply rows_of_weaken; [done|]. intros i _. destruct (object_path_not_manifest i). rewrite !other_file by done. done. }
  eexists. unfold read_verified_manifest.
  rewrite (read_limited_Ok _ MANIFEST_FILE (hw_file w)); [|rewrite other_file by apply manifest_names; apply written_file|unfold MAX_MANIFEST_BYTES, usize_max in *; lia].
  cbn [mbind result_bind]. destruct (sha256_hex_shape (hw_file w)) as [Hhl Hhx].
  rewrite (read_limited_Ok _ MANIFEST_CHECKSUM_FILE (sha256_hex sha256 (hw_file w) ++ [10])); [|apply written_file|rewrite len_app, Hhl; by vm_compute].
  cbn [mbind result_bind]. assert (length (sha256_hex sha256 (hw_file w)) = 64%nat) as Hn by (unfold len in Hhl; lia).
  assert (checksum_ok (sha256_hex sha256 (hw_file w) ++ [10]) = true) as ->.
  { unfold checksum_ok. rewrite len_app, Hhl. rewrite take_app_length' by done. rewrite Hhx, list_lookup_middle by done. done. }
  cbn [negb reject_if mbind result_bind]. rewrite take_app_length' by done. rewrite str_eqb_refl. cbn [negb reject_if mbind result_bind].
  rewrite Hfile, from_slice_to_writer. cbn [ok_or mbind result_bind]. unfold validate_manifest.
  rewrite Hf, str_eqb_refl, Hm. cbn [negb reject_if mbind result_bind].
  rewrite (validate_rows s d rows 0 ∅ ∅ None); [done|done|lia|done|set_solver..].
Qed.
End Facts.

(** ** Restoring an archive: what its steps do *)

Section Facts.
Variable sha256 : list byte -> list byte.
Variable nfc : list char -> list char.
Variable json_pointer : Json -> str -> option (list nat).
Variable registry : SchemaRegistry.
Hypothesis Hsha : sha256_digest sha256.

Abbreviation files := FileStore.objects.

(** ** Putting back what another store holds *)

(** A structured object of the store is accepted by ingestion, in the bytes it is stored in. *)
Definition ingestible (oid : str) (content : list byte) : Prop :=
  exists validated, ingest_claimed nfc sha256 json_pointer registry oid content = Ok validated /\
    vo_canonical_bytes validated = content.

Definition put_file (oid : str) (k : ObjectKind) (content : list byte) (t : FileObjectStore) : FileObjectStore :=
  set_objects (<[object_path_for_valid_oid oid k := RegularFile content]> (files t)) t.

Lemma set_objects_same t : set_objects (files t) t = t.
Proof. by destruct t. Qed.

Lemma publish_subset s t oid k content : store_read_only t = false -> holds s oid k content -> files t ⊆ files s ->
  exists d, publish_staged t content oid k (len content) =
    Ok (put_file oid k content t, {| put_oid := oid; put_kind := k; put_byte_len := len content; put_disposition := d |}).
Proof.
  intros Hro Hh Hsub. unfold publish_staged, store_ensure_writable, put_file. rewrite Hro. cbn [reject_if mbind result_bind].
  destruct (files t !! _) as [e|] eqn:E.
  - pose proof (lookup_weaken _ _ _ _ E Hsub) as E'. rewrite Hh in E'. injection E' as <-.
    rewrite bool_decide_eq_true_2 by done. rewrite insert_id, set_objects_same by done. by eexists.
  - by eexists.
Qed.

Lemma put_stored_blob s t oid content : store_limits_ok (limits s) -> limits t = limits s -> store_read_only t = false ->
  stores sha256 nfc s oid Blob content -> files t ⊆ files s ->
  exists d, put_blob_claimed sha256 t oid (read_buffers (length content) (Z.to_nat (io_buffer_bytes (limits t))) content) =
    Ok (put_file oid Blob content t, {| put_oid := oid; put_kind := Blob; put_byte_len := len content; put_disposition := d |}).
Proof.
  intros Hlim Hl Hro (Hk & Hh & Hb) Hsub. rewrite bool_decide_eq_true_2 in Hb by done. destruct Hb as [Hsize Ho].
  pose proof Hlim as (Hio & Hmax & _).
  destruct (read_buffers_spec (Z.to_nat (io_buffer_bytes (limits t))) (length content) content) as [Hc Hne]; [rewrite Hl; lia|done|].
  destruct (publish_subset s t oid Blob content) as [d Hd]; [done..|]. exists d.
  unfold put_blob_claimed, put_blob_inner, stage_blob, store_ensure_writable, core. rewrite Hro, Hk. cbn [reject_if map_err mbind result_bind].
  rewrite (bool_decide_eq_true_2 (Blob = Blob)) by done. cbn [negb reject_if mbind result_bind].
  rewrite read_loop_spec by (done || (rewrite Hl; lia)). rewrite Hc, Hl. cbn [app].
  rewrite (proj2 (Z.leb_le (0 + len content) _)) by lia. rewrite orb_true_r. cbn [mbind result_bind]. rewrite Z.add_0_l, Ho, str_eqb_refl.
  exact Hd.
Qed.

Lemma put_stored_structured s t oid k content : limits t = limits s -> store_read_only t = false -> k <> Blob ->
  stores sha256 nfc s oid k content -> files t ⊆ files s ->
  exists r, put_verified_raw sha256 nfc t oid content = Ok (put_file oid k content t, r).
Proof.
  intros Hl Hro Hkb (Hk & Hh & Hb) Hsub. rewrite bool_decide_eq_false_2 in Hb by done. destruct Hb as [_ [value Hv]].
  unfold verify_raw_bytes in Hv. rewrite bool_decide_eq_false_2 in Hv by done. rewrite <- Hl in Hv.
  apply bind_Ok in Hv as (v & Hp & (b & Hc & Hv)%bind_Ok). case_bool_decide as Hbc; [|done]. subst b. cbn [negb] in Hv.
  apply bind_Ok in Hv as (u & Ho & _). unfold verify_claimed_oid_unchecked_with_limits in Ho. apply bind_Ok in Ho as (o & Hoid & He).
  destruct (str_eqb oid o) eqn:E; [|done]. apply str_eqb_eq in E as <-.
  destruct (publish_subset s t oid k content) as [d Hd]; [done..|]. eexists.
  unfold put_verified_raw, put_structured_inner, stage_structured, store_ensure_writable, core. rewrite Hro, Hk.
  cbn [reject_if map_err mbind result_bind]. rewrite bool_decide_eq_false_2 by done. rewrite Hp. cbn [map_err mbind result_bind].
  rewrite Hc. cbn [map_err mbind result_bind]. rewrite (bool_decide_eq_true_2 (content = content)) by done. cbn [andb negb reject_if mbind result_bind].
  rewrite Hoid. cbn [map_err mbind result_bind]. rewrite str_eqb_refl. cbn [negb mbind result_bind]. rewrite Hk. cbn [map_err mbind result_bind].
  exact Hd.
Qed.

Lemma restore_row s t d oid k content index :
  store_limits_ok (limits s) -> max_input_bytes (structured (limits s)) <= usize_max -> limits t = limits s ->
  store_read_only t = false -> files t ⊆ files s ->
  stores sha256 nfc s oid k content -> d !! archive_object_path index = Some (RegularFile content) ->
  (k <> Blob -> ingestible oid content) ->
  restore_object sha256 nfc json_pointer registry t d (object_row sha256 oid index content) = (put_file oid k content t, Ok tt).
Proof.
  intros Hlim Hmax Hl Hro Hsub Hst Hd Hing. pose proof Hst as (Hk & Hh & Hb). unfold restore_object, of_core.
  cbn [object_row ao_oid]. rewrite Hk. cbn [map_err]. case_bool_decide as Hkb.
  - subst k. destruct Hb as [Hsize _]. unfold restore_blob, object_limit, of_core. cbn [object_row ao_oid ao_path ao_byte_length]. rewrite Hk.
    cbn [map_err mbind result_bind]. rewrite bool_decide_eq_true_2 by done. rewrite (open_regular_Ok _ _ _ _ Hd) by (by rewrite Hl).
    cbn [mbind result_bind]. rewrite Z.eqb_refl. cbn [negb reject_if mbind result_bind].
    destruct (put_stored_blob s t oid content) as [disp ->]; [done..|]. cbn [of_store map_err put_byte_len]. by rewrite Z.eqb_refl.
  - destruct Hb as [Hsize _]. unfold restore_structured, object_limit, of_core. cbn [object_row ao_oid ao_path ao_byte_length ao_sha256].
    rewrite Hk. cbn [map_err mbind result_bind]. rewrite bool_decide_eq_false_2 by done.
    rewrite (read_limited_Ok _ _ _ _ Hd) by (by rewrite Hl).
    cbn [mbind result_bind]. rewrite Z.eqb_refl, str_eqb_refl. cbn [negb reject_if mbind result_bind].
    destruct (Hing Hkb) as (v & Hv & Hc). rewrite Hv. cbn [map_err mbind result_bind]. rewrite Hc, str_eqb_refl. cbn [negb reject_if mbind result_bind].
    by destruct (put_stored_structured s t oid k content) as [r ->].
Qed.

(** All rows of an export of [s], into a store that holds some of the files of [s]. *)
Lemma restore_rows s d rows : store_limits_ok (limits s) -> max_input_bytes (structured (limits s)) <= usize_max ->
  (forall oid k content, stores sha256 nfc s oid k content -> k <> Blob -> ingestible oid content) ->
  forall index t, rows_of sha256 nfc s d index rows -> limits t = limits s -> store_read_only t = false -> files t ⊆ files s ->
  exists found, restore_objects sha256 nfc json_pointer registry t d rows = (set_objects found t, Ok tt) /\
    files t ⊆ found /\ found ⊆ files s /\
    Forall (fun row => forall k, parse_oid (ao_oid row) = Ok k ->
              found !! object_path_for_valid_oid (ao_oid row) k = files s !! object_path_for_valid_oid (ao_oid row) k) rows.
Proof.
  intros Hlim Hmax Hing. induction rows as [|row rows IH]; intros index t Hr Hl Hro Hsub.
  { exists (files t). rewrite set_objects_same. by split_and!. }
  inversion Hr as [|? oid k content ? Hst Hd Hrest]; subst. cbn [restore_objects].
  rewrite (restore_row s t d oid k content index) by (done || by eauto). pose proof Hst as (Hk & Hh & _).
  destruct (IH (index + 1) (put_file oid k content t)) as (found & Hres & Hsub1 & Hsub2 & Hall);
    [done|done|done|by apply insert_subseteq_l|]. exists found. rewrite Hres. split; [done|].
  assert (found !! object_path_for_valid_oid oid k = Some (RegularFile content)) as Hf.
  { eapply lookup_weaken; [|exact Hsub1]. cbn [put_file files set_objects FileStore.objects]. apply lookup_insert_eq. }
  split; [|split; [done|]].
  - apply map_subseteq_spec. intros p e Hp. destruct (decide (p = object_path_for_valid_oid oid k)) as [->|Hne].
    + pose proof (lookup_weaken _ _ _ _ Hp Hsub) as Hp'. rewrite Hh in Hp'. congruence.
    + eapply lookup_weaken; [|exact Hsub1]. cbn [put_file files set_objects FileStore.objects]. by rewrite lookup_insert_ne.
  - constructor; [|done]. cbn [object_row ao_oid]. intros k' Hk'. rewrite Hk in Hk'. injection Hk' as <-. by rewrite Hf, Hh.
Qed.

(** The rows are all the files. *)
Lemma restore_all s d rows t : store_limits_ok (limits s) -> max_input_bytes (structured (limits s)) <= usize_max ->
  (forall oid k content, stores sha256 nfc s oid k content -> k <> Blob -> ingestible oid content) ->
  rows_of sha256 nfc s d 0 rows -> store_layout s -> map ao_oid rows = stored_oids s ->
  limits t = limits s -> store_read_only t = false -> files t ⊆ files s ->
  restore_objects sha256 nfc json_pointer registry t d rows = (set_objects (files s) t, Ok tt).
Proof.
  intros Hlim Hmax Hing Hr Hlay Hoids Hl Hro Hsub.
  destruct (restore_rows s d rows Hlim Hmax Hing 0 t Hr Hl Hro Hsub) as (found & -> & _ & Hf & Hall).
  replace found with (files s); [done|]. apply (anti_symm (⊆)); [|done]. apply map_subseteq_spec. intros p e Hp.
  destruct (Hlay _ _ Hp) as [(oid & k & Hk & ->) [bytes ->]].
  assert (oid ∈ map ao_oid rows) as Hin.
  { rewrite Hoids. unfold stored_oids. rewrite sort_by_perm. destruct (oid_path_scanned _ _ Hk) as (a & b & _ & _ & Ho & Hpath).
    rewrite Hpath in Hp. apply list_elem_of_fmap. eexists (_, RegularFile bytes). split; [|by apply elem_of_map_to_list]. rewrite Ho. done. }
  apply list_elem_of_fmap in Hin as (row & -> & Hin). rewrite Forall_forall in Hall. by rewrite (Hall row Hin k Hk).
Qed.

(** ** Any archive *)

Abbreviation step := (store_step sha256 nfc).
Abbreviation intact := (is_intact sha256 nfc).

Lemma put_blob_claimed_intact t oid reads t' r : store_limits_ok (limits t) -> Forall (fun b => b <> []) reads ->
  put_blob_claimed sha256 t oid reads = Ok (t', r) -> intact t' oid = true.
Proof.
  intros Hlim Hne H. unfold put_blob_claimed, put_blob_inner in H. apply bind_Ok in H as (_ & _ & (k & _ & (_ & _ & ([[staged o] n] & Hs & Hp)%bind_Ok)%bind_Ok)%bind_Ok).
  by destruct (staged_blob_intact sha256 nfc Hsha t t oid reads staged o n _ Hlim Hne Hs Hp eq_refl) as [_ ?].
Qed.

Lemma put_verified_raw_intact t oid bytes t' r : store_limits_ok (limits t) ->
  put_verified_raw sha256 nfc t oid bytes = Ok (t', r) -> intact t' oid = true.
Proof.
  intros Hlim H. unfold put_verified_raw, core in H. apply bind_Ok in H as (_ & _ & (k & Hk%map_err_Ok & H)%bind_Ok). case_bool_decide.
  - eapply put_blob_claimed_intact; [done| |exact H]. apply read_buffers_spec; [|done]. destruct Hlim as (? & _). lia.
  - unfold put_structured_inner, core in H. apply bind_Ok in H as ([[staged o] n] & Hs & (k' & Hk'%map_err_Ok & Hp)%bind_Ok).
    assert (o = oid) as ->.
    { unfold stage_structured in Hs. result_inv. destruct (negb (str_eqb oid _)) eqn:E; [done|]. injection Hs as _ <- _. bool_props.
      by match goal with H : str_eqb _ _ = true |- _ => apply str_eqb_eq in H end. }
    rewrite Hk in Hk'. injection Hk' as <-.
    by destruct (staged_structured_intact sha256 nfc Hsha t t oid k bytes staged oid n _ Hlim Hk Hs Hp eq_refl) as [_ ?].
Qed.

Lemma restore_object_effect t d object t' answer : store_limits_ok (limits t) ->
  restore_object sha256 nfc json_pointer registry t d object = (t', answer) ->
  (t' = t \/ step t t') /\ (answer = Ok tt -> intact t' (ao_oid object) = true).
Proof.
  intros Hlim H. unfold restore_object in H. destruct (of_core _) as [k|e]; [|injection H as <- <-; split; [by left|done]].
  case_bool_decide.
  - unfold restore_blob in H. destruct (limit ← _; _) as [[t1 r]|e] eqn:E; [|injection H as <- <-; split; [by left|done]].
    injection H as <- <-. apply bind_Ok in E as (limit & _ & (content & _ & (_ & _ & Hp)%bind_Ok)%bind_Ok).
    unfold of_store in Hp. apply map_err_Ok in Hp. split; [right; by eapply step_put_blob_claimed|]. intros _.
    eapply put_blob_claimed_intact; [done| |exact Hp]. apply read_buffers_spec; [|done]. destruct Hlim as (? & _). lia.
  - destruct (restore_structured _ _ _ _ _ _ _) as [t1|e] eqn:E; injection H as <- <-; [|split; [by left|done]].
    unfold restore_structured in E. apply bind_Ok in E as (limit & _ & (bytes & _ & (_ & _ & (_ & _ & (v & _ & (_ & _ & ([t2 r] & Hp & [= <-])%bind_Ok)%bind_Ok)%bind_Ok)%bind_Ok)%bind_Ok)%bind_Ok).
    unfold of_store in Hp. apply map_err_Ok in Hp. split; [right; by eapply step_put_verified_raw|]. intros _. by eapply put_verified_raw_intact.
Qed.

Lemma restore_objects_effect d rows : forall t t' answer, store_limits_ok (limits t) ->
  restore_objects sha256 nfc json_pointer registry t d rows = (t', answer) ->
  rtc step t t' /\ (answer = Ok tt -> Forall (fun row => intact t' (ao_oid row) = true) rows).
Proof.
  induction rows as [|row rows IH]; intros t t' answer Hlim H; cbn [restore_objects] in H; [injection H as <- <-; by split|].
  destruct (restore_object _ _ _ _ _ _ _) as [t1 r1] eqn:E. apply restore_object_effect in E as [Hs Hi]; [|done].
  assert (rtc step t t1) as Hst by (destruct Hs as [->|Hs]; [done|by apply rtc_once]).
  assert (limits t1 = limits t) as Hl by (destruct Hs as [->|Hs]; [done|by eapply step_limits]).
  destruct r1 as [[]|e]; [|injection H as <- <-; by split].
  apply IH in H as [Hst' Hall]; [|by rewrite Hl]. split; [by etrans|]. intros ->. constructor; [|by apply Hall].
  specialize (Hi eq_refl). clear - Hi Hst'. induction Hst' as [|a b c Hab _ IH]; [done|]. by apply IH, (step_intact sha256 nfc _ _ _ Hab).
Qed.
End Facts.
