(* ===== verification/RestoreProps.v ===== *)
(** * Archives: the properties *)

From stdpp Require Import base list numbers strings gmap sets relations.
From Stdlib Require Import ZArith Lia Sorted.
From S2P Require Import Prelude Sorting Text TextFacts BTree RefStore RefStoreProps Canonical CanonicalWrite CanonicalLaws.
From S2P Require Import CanonicalProps Oid SchemaSemantics Registry RegistryProps ObjectStore FileStore FileStoreProps Inventory.
From S2P Require Import InventoryProps Closure Repository Archive RestoreFacts Fsck FsckProps Repair RepairProps.
From S2P Require Import AuthorizationSample RepositorySample.

#[local] Open Scope Z_scope.

(** ** The limits of an export are enough for its restore *)

Lemma add_text_Ok total additional limit t : add_ref_archive_text_bytes total additional limit = Ok t ->
  add_archive_restore_text_bytes total additional limit = Ok t.
Proof.
  unfold add_ref_archive_text_bytes, add_archive_restore_text_bytes, usize_checked_add. change (2 ^ 64 - 1) with usize_max.
  rewrite Z.gtb_ltb. destruct (Z.ltb_spec usize_max (total + additional)); [done|]. rewrite (proj2 (Z.leb_le _ _)) by done.
  cbn [ok_or mbind result_bind]. destruct (total + additional >? limit); [done|]. by intros [= ->].
Qed.

Lemma snapshot_text rows limits : forall acc t rs t', len acc <= max_refs limits ->
  load_snapshot_limited rows limits acc t = Ok (rs, t') ->
  add_ref_text (map archive_ref rows) t (max_text_bytes limits) = Ok t' /\ len acc + len rows <= max_refs limits.
Proof.
  induction rows as [|row rows IH]; intros acc t rs t' Hm H; cbn [load_snapshot_limited] in H.
  - injection H as <- <-. split; [done|]. rewrite len_nil. lia.
  - apply bind_Ok in H as (u & Hr%reject_if_Ok%Z.eqb_neq & (t1 & Ht & H)%bind_Ok). apply IH in H as [H Hl]; [|len_lia].
    cbn [map add_ref_text archive_ref ar_name]. rewrite (add_text_Ok _ _ _ _ Ht). split; [exact H|len_lia].
Qed.

Lemma reflog_text rows limits : forall acc t rs t', len acc <= max_reflog_entries limits ->
  load_reflog_limited rows limits acc t = Ok (rs, t') ->
  add_reflog_text (map archive_reflog rows) t (max_text_bytes limits) = Ok t' /\ len acc + len rows <= max_reflog_entries limits.
Proof.
  induction rows as [|row rows IH]; intros acc t rs t' Hm H; cbn [load_reflog_limited] in H.
  - injection H as <- <-. split; [done|]. rewrite len_nil. lia.
  - apply bind_Ok in H as (u & Hr%reject_if_Ok%Z.eqb_neq & (n & Hn%ok_or_Ok & (t1 & Ht & H)%bind_Ok)%bind_Ok). apply IH in H as [H Hl]; [|len_lia].
    cbn [map add_reflog_text archive_reflog al_ref_name al_actor al_message]. unfold entry_text_bytes in Hn.
    destruct (usize_checked_add (len (ref_name row)) _) as [a|]; [|done]. cbn [mbind option_bind] in Hn.
    cbn [ok_or mbind result_bind]. rewrite Hn. cbn [ok_or mbind result_bind]. rewrite (add_text_Ok _ _ _ _ Ht). split; [exact H|len_lia].
Qed.

Lemma declared_nonneg rows : Forall (fun row => 0 <= ao_byte_length row) rows -> 0 <= declared rows.
Proof. induction 1; cbn [declared foldr]; unfold declared in *; lia. Qed.

Lemma add_declared rows limit : forall total, 0 <= total -> Forall (fun row => 0 <= ao_byte_length row) rows ->
  total + declared rows <= Z.min limit usize_max -> add_object_bytes rows total limit = Ok (total + declared rows).
Proof.
  unfold declared. induction rows as [|row rows IH]; intros total H0 Hf Hd; cbn [add_object_bytes foldr] in *; [by rewrite Z.add_0_r|].
  apply Forall_cons in Hf as [Hr Hf]. pose proof (declared_nonneg rows Hf) as Hn. unfold declared in Hn.
  unfold usize_checked_add. rewrite (proj2 (Z.leb_le _ _)) by lia. cbn [ok_or mbind result_bind].
  rewrite Z.gtb_ltb, (proj2 (Z.ltb_ge _ _)) by lia. cbn [reject_if mbind result_bind]. rewrite IH by (done || lia). f_equal. lia.
Qed.

(** Limits of a restore that leave room for what an export under [ex] may write. *)
Definition covers (ex : ArchiveExportLimits) (limits : ArchiveRestoreLimits) : Prop :=
  ex_max_objects ex <= rs_max_objects limits <= usize_max /\ ex_max_object_bytes ex <= rs_max_object_bytes limits /\
  rs_ref_archive limits = ex_ref_archive ex.

Section Props.
Variable sha256 : list byte -> list byte.
Variable nfc : list char -> list char.
Variable json_pointer : Json -> str -> option (list nat).
Variable registry : SchemaRegistry.
Context {format : ManifestFormat} {laws : ManifestFormatLaws}.

Lemma rows_nonneg s d rows : forall index, rows_of sha256 nfc s d index rows -> Forall (fun row => 0 <= ao_byte_length row) rows.
Proof. induction rows as [|row rows IH]; intros index Hr; [constructor|]. inversion Hr; subst. constructor; [apply len_nonneg|by eapply IH]. Qed.

Lemma export_fits s d rows ex limits t archived : covers ex limits -> rows_of sha256 nfc s d 0 rows ->
  declared rows <= Z.min (ex_max_object_bytes ex) usize_max -> len rows <= ex_max_objects ex ->
  0 <= max_refs (ex_ref_archive ex) -> 0 <= max_reflog_entries (ex_ref_archive ex) ->
  RefStore.export_archive_with_limits (ex_ref_archive ex) t = Ok archived ->
  validate_restore_limits (from_parts rows archived) limits = Ok tt.
Proof.
  intros (Ho & Hb & Hr) Hrows Hd Hl Hmr Hml H. unfold RefStore.export_archive_with_limits in H.
  apply bind_Ok in H as (_ & _ & (_ & _ & (_ & _ & ([rs t1] & Hs & ([log t2] & Hlog & (_ & _ & [= <-])%bind_Ok)%bind_Ok)%bind_Ok)%bind_Ok)%bind_Ok).
  pose proof (load_snapshot_limited_Ok _ _ _ _ _ _ Hs) as E1. pose proof (load_reflog_limited_Ok _ _ _ _ _ _ Hlog) as E2.
  cbn [app] in E1, E2. subst rs log.
  apply snapshot_text in Hs as [Hs Hsn]; [|done]. apply reflog_text in Hlog as [Hlog Hln]; [|done]. rewrite len_nil in Hsn. rewrite len_nil in Hln.
  unfold validate_restore_limits, from_parts. cbn [am_objects am_refs am_reflog snapshot reflog RefStore.refs].
  rewrite (Z.gtb_ltb (len rows)), (proj2 (Z.ltb_ge _ (len rows))) by lia. cbn [reject_if mbind result_bind].
  rewrite (add_declared rows _ 0) by (done || (by eapply rows_nonneg) || lia). cbn [mbind result_bind]. rewrite !map_len, Hr.
  rewrite !Z.gtb_ltb, (proj2 (Z.ltb_ge _ (len (select_refs t)))) by lia. cbn [reject_if mbind result_bind].
  rewrite (proj2 (Z.ltb_ge _ _)) by lia. cbn [reject_if mbind result_bind]. rewrite Hs. cbn [mbind result_bind]. by rewrite Hlog.
Qed.

(** ** What an export holds *)

Hypothesis Hsha : sha256_digest sha256.

Lemma export_Ok (r : Repository FileObjectStore) destination now ex d : store_limits_ok (limits (objects r)) -> store_layout (objects r) ->
  0 < ex_max_objects ex <= usize_max -> 0 <= max_refs (ex_ref_archive ex) -> 0 <= max_reflog_entries (ex_ref_archive ex) -> 0 <= ex_max_object_bytes ex ->
  export_archive_with_limits sha256 nfc r destination now ex = Ok d ->
  exists rows checksum, rows_of sha256 nfc (objects r) d 0 rows /\ map ao_oid rows = stored_oids (objects r) /\
    len rows <= ex_max_objects ex /\ declared rows <= Z.min (ex_max_object_bytes ex) usize_max /\
    read_verified_manifest sha256 d = Ok (from_parts rows (RefStore.export_archive (tables (refs r))), checksum) /\
    forall limits, covers ex limits -> validate_restore_limits (from_parts rows (RefStore.export_archive (tables (refs r)))) limits = Ok tt.
Proof.
  intros Hlim Hlay Hm Hmr Hml Hb H. unfold export_archive_with_limits in H.
  apply bind_Ok in H as (_ & _ & (_ & _ & (_ & _ & (_ & _ & (_ & _ & (archived & Ha & (verifier & _ & (_ & _ & (now' & _ & (oids & Ho &
    ([d0 rows] & He & H)%bind_Ok)%bind_Ok)%bind_Ok)%bind_Ok)%bind_Ok)%bind_Ok)%bind_Ok)%bind_Ok)%bind_Ok)%bind_Ok).
  unfold of_refs, of_store in *. apply map_err_Ok in Ha, Ho. rewrite list_oids_limited_stored in Ho by done.
  destruct (Z.leb_spec (len (stored_oids (objects r))) (ex_max_objects ex)); [|done]. injection Ho as <-.
  apply export_objects_Ok in He as (Hrows & Hoids & Hd & Hd'); [|done..|by constructor|done]. cbn [map app declared foldr] in *.
  pose proof (limited_export_Ok _ _ _ Ha) as ->.
  apply (write_manifest_read sha256 nfc Hsha (objects r) d0 rows) in H as (Hrows' & checksum & Hread); [|done..|].
  2: { rewrite Hoids. apply stored_oids_sorted, Hlay. }
  assert (len rows <= ex_max_objects ex) by (rewrite <- (map_len ao_oid), Hoids; done).
  assert (declared rows <= Z.min (ex_max_object_bytes ex) usize_max) by (specialize (Hd Hb); unfold usize_max in *; lia).
  exists rows, checksum. split_and!; [done..|]. intros limits Hc. by eapply export_fits.
Qed.
End Props.

(** Limits of an export as the code can be given them. *)
Definition export_limits_ok (ex : ArchiveExportLimits) : Prop :=
  0 < ex_max_objects ex <= usize_max /\ 0 <= ex_max_object_bytes ex /\ 0 <= max_refs (ex_ref_archive ex) /\
  0 <= max_reflog_entries (ex_ref_archive ex).

(** C9: export then restore gives the repository back.  Let an export of a repository succeed, and
    let the target have the same object limits, no Refs, and no objects but some of the
    source's (none, or those that an interrupted restore left).  Then a restore whose limits cover
    those of the export stores every object file byte for byte and, if the heads validate in
    the objects now present, installs exactly the exported Ref tables; if they do not, the
    Refs stay as they were and the error is the validator's.  No other outcome is possible. *)
Theorem archive_restores {format : ManifestFormat} {laws : ManifestFormatLaws} sha256 nfc json_pointer registry
    (source target : Repository FileObjectStore) destination now ex d limits :
  sha256_digest sha256 -> store_limits_ok (FileStore.limits (objects source)) ->
  max_input_bytes (structured (FileStore.limits (objects source))) <= usize_max -> store_layout (objects source) ->
  (forall oid k content, stores sha256 nfc (objects source) oid k content -> k <> Blob ->
     ingestible sha256 nfc json_pointer registry oid content) ->
  reachable (refs source) -> export_limits_ok ex -> covers ex limits ->
  export_archive_with_limits sha256 nfc source destination now ex = Ok d ->
  FileStore.limits (objects target) = FileStore.limits (objects source) -> store_read_only (objects target) = false ->
  FileStore.objects (objects target) ⊆ FileStore.objects (objects source) ->
  repo_read_only target = false -> reachable (refs target) -> is_empty (tables (refs target)) = true ->
  read_only (refs target) = false ->
  let heads := head_set (new_head <$> t_events (tables (refs source))) in
  let filled := set_store target (set_objects (FileStore.objects (objects source)) (objects target)) in
  restore_from_bounded sha256 nfc json_pointer registry target d limits =
    match validate_archived_heads sha256 nfc filled limits heads with
    | Ok _ => (set_refs filled (commit_tables (tables (refs source)) (refs target)), Ok tt)
    | Err e => (filled, Err (RepoRefStore e))
    end.
Proof.
  intros Hsha Hlim Hmax Hlay Hing Hsr (Hm & Hb & Hmr & Hml) Hcov Hex Hl Hro Hsub Hrr Htr Hempty Hrro heads filled.
  destruct (export_Ok sha256 nfc Hsha source destination now ex d) as (rows & checksum & Hrows & Hoids & Hlen & _ & Hread & Hfits); [done..|].
  specialize (Hfits limits Hcov). destruct Hcov as (Ho & _ & _).
  assert (store_layout (objects target)) as Htl.
  { intros p e Hp. apply (Hlay p e). eapply lookup_weaken; [exact Hp|exact Hsub]. }
  assert (forall oid, oid ∈ stored_oids (objects target) -> oid ∈ stored_oids (objects source)) as Hin.
  { intros oid. rewrite !stored_oids_elem by done. intros (k & Hk & [e He]). exists k. split; [done|]. exists e. by eapply lookup_weaken. }
  assert (len (stored_oids (objects target)) <= rs_max_objects limits) as Htlen.
  { trans (len (stored_oids (objects source))); [|rewrite <- Hoids, map_len; lia]. apply inj_le, submseteq_length, NoDup_submseteq; [|done].
    by apply sorted_strs_NoDup, stored_oids_sorted. }
  assert (restore_preflight sha256 target d limits = Ok (from_parts rows (RefStore.export_archive (tables (refs source))))) as Hpre.
  { unfold restore_preflight, repo_ensure_writable, of_store. rewrite Hrr, Hempty. cbn [negb reject_if mbind result_bind].
    rewrite list_oids_limited_stored by (done || lia). rewrite (proj2 (Z.leb_le _ _)) by done. cbn [map_err mbind result_bind].
    rewrite Hread. cbn [mbind result_bind]. rewrite Hfits. cbn [mbind result_bind from_parts am_objects]. rewrite Hoids.
    replace (existsb _ _) with false; [done|]. symmetry. apply not_true_iff_false. rewrite existsb_exists.
    intros (oid & Hoid%list_elem_of_In & Hn). apply negb_true_iff, bool_decide_eq_false in Hn. apply Hn, elem_of_list_to_set, Hin, Hoid. }
  unfold restore_from_bounded. rewrite Hpre. cbn [from_parts am_objects].
  rewrite (restore_all sha256 nfc json_pointer registry (objects source) d rows (objects target)) by done. fold filled.
  unfold restore_refs, of_store. change (objects filled) with (set_objects (FileStore.objects (objects source)) (objects target)).
  rewrite list_oids_limited_stored by (done || lia).
  change (stored_oids (set_objects (FileStore.objects (objects source)) (objects target))) with (stored_oids (objects source)).
  rewrite <- Hoids, map_len, (proj2 (Z.leb_le _ _)) by lia. cbn [map_err mbind result_bind from_parts am_objects].
  rewrite bool_decide_eq_true_2 by done. cbn [negb reject_if].
  change {| am_format := _; am_objects := rows; am_refs := _; am_reflog := _ |} with (from_parts rows (RefStore.export_archive (tables (refs source)))).
  rewrite into_from_parts. rewrite restore_export_with; [|by apply reachable_wf|by apply reachable_wf|done..].
  fold heads. change (refs filled) with (refs target).
  destruct (validate_archived_heads sha256 nfc filled limits heads) as [[]|e]; cbn [mbind result_bind finish].
  - done.
  - unfold on_refs, of_refs. cbn [fst snd map_err]. by destruct target.
Qed.

(** C10: a restore never harms what is there.  Whatever the archive, the restored repository keeps
    every object that read back before; its Refs change only when the restore answers [Ok], and
    then they were empty, every object that the verified manifest names reads back, the
    inventory is exactly the manifest's, and the archived heads have been validated. *)
Theorem restore_safe {format : ManifestFormat} sha256 nfc json_pointer registry (r r' : Repository FileObjectStore) d limits answer :
  sha256_digest sha256 -> store_limits_ok (FileStore.limits (objects r)) ->
  restore_from_bounded sha256 nfc json_pointer registry r d limits = (r', answer) ->
  (forall oid object, file_get_verified sha256 nfc (objects r) oid = Ok (Some object) ->
     file_get_verified sha256 nfc (objects r') oid = Ok (Some object)) /\
  r' = set_refs (set_store r (objects r')) (refs r') /\
  (answer <> Ok tt -> refs r' = refs r) /\
  (answer = Ok tt -> is_empty (tables (refs r)) = true /\
     exists manifest checksum p, read_verified_manifest sha256 d = Ok (manifest, checksum) /\
       Forall (fun row => is_intact sha256 nfc (objects r') (ao_oid row) = true) (am_objects manifest) /\
       list_oids_limited (objects r') (rs_max_objects limits) = Ok (map ao_oid (am_objects manifest)) /\
       prepare_archive (into_ref_archive manifest) = Ok p /\
       validate_archived_heads sha256 nfc (set_store r (objects r')) limits (p_heads p) = Ok tt /\
       restore_archive (into_ref_archive manifest) (fun _ => Ok tt) (refs r) = (refs r', Ok tt)).
Proof.
  intros Hsha Hlim H. unfold restore_from_bounded in H.
  assert (r = set_refs (set_store r (objects r)) (refs r)) as Hsame by (by destruct r).
  destruct (restore_preflight sha256 r d limits) as [manifest|e] eqn:Hpre; [|injection H as <- <-; by split_and!].
  destruct (restore_objects _ _ _ _ _ _ _) as [store res] eqn:Hobj.
  apply (restore_objects_effect sha256 nfc json_pointer registry Hsha) in Hobj as [Hst Hall]; [|done].
  assert (forall oid object, file_get_verified sha256 nfc (objects r) oid = Ok (Some object) ->
    file_get_verified sha256 nfc store oid = Ok (Some object)) as Hkeep.
  { clear - Hst. intros oid object. induction Hst as [|a b c Hab _ IH]; [done|]. intros Hf. by eapply IH, store_step_preserves. }
  destruct res as [[]|e]; [|injection H as <- <-; by split_and!].
  unfold restore_refs in H. change (objects (set_store r store)) with store in H. change (refs (set_store r store)) with (refs r) in H.
  destruct (stored ← _; _) as [[]|e] eqn:Hlist; [|injection H as <- <-; by split_and!].
  apply bind_Ok in Hlist as (oids & Ho%map_err_Ok & Heq%reject_if_Ok%negb_false_iff%bool_decide_eq_true). subst oids.
  destruct (restore_archive_with _ _ _) as [refs' res] eqn:Hr. unfold on_refs in H. cbn [fst snd] in H. injection H as <- <-.
  cbn [set_refs set_store objects refs]. split; [done|]. split; [done|]. destruct res as [[]|e].
  - split; [done|]. intros _. unfold restore_preflight in Hpre.
    apply bind_Ok in Hpre as (_ & _ & (_ & He%reject_if_Ok%negb_false_iff & (existing & _ & ([m checksum] & Hm & (_ & _ & (_ & _ & [= ->])%bind_Ok)%bind_Ok)%bind_Ok)%bind_Ok)%bind_Ok).
    split; [done|]. apply restore_with_Ok in Hr as (Hr & p & Hp & Hv). exists manifest, checksum, p. split_and!; [done|by apply Hall|done..].
  - split; [|done]. intros _. by eapply restore_with_Err.
Qed.

(** ** Inspection *)

Section Inspect.
Variable sha256 : list byte -> list byte.
Variable nfc : list char -> list char.

Lemma inspect_rows s d rows : forall index, rows_of sha256 nfc s d index rows -> inspect_objects d rows = Ok tt.
Proof.
  induction rows as [|row rows IH]; intros index Hr; [done|]. inversion Hr as [|? oid k content ? Hst Hd Hrest]; subst.
  cbn [inspect_objects object_row ao_path ao_byte_length]. rewrite (open_regular_Ok _ _ _ _ Hd) by done. cbn [map_err mbind result_bind].
  rewrite Z.eqb_refl. cbn [negb reject_if mbind result_bind]. by eapply IH.
Qed.

Lemma declared_bytes_Ok rows : forall total, 0 <= total -> Forall (fun row => 0 <= ao_byte_length row) rows ->
  total + declared rows <= usize_max -> declared_bytes rows total = Ok (total + declared rows).
Proof.
  unfold declared. induction rows as [|row rows IH]; intros total H0 Hf Hd; cbn [declared_bytes foldr] in *; [by rewrite Z.add_0_r|].
  apply Forall_cons in Hf as [Hr Hf]. pose proof (declared_nonneg rows Hf) as Hn. unfold declared in Hn.
  unfold usize_checked_add. rewrite (proj2 (Z.leb_le _ _)) by lia. cbn [ok_or mbind result_bind]. rewrite IH by (done || lia). f_equal. lia.
Qed.
End Inspect.

(** An export that succeeds is a valid archive: an inspection whose limits cover those of the
    export finds it so, and reports the checksum of its manifest. *)
Lemma exported_archive_valid {format : ManifestFormat} {laws : ManifestFormatLaws} sha256 nfc
    (source : Repository FileObjectStore) destination now ex d limits :
  sha256_digest sha256 -> store_limits_ok (FileStore.limits (objects source)) -> store_layout (objects source) ->
  export_limits_ok ex -> export_archive_with_limits sha256 nfc source destination now ex = Ok d ->
  ex_max_objects ex <= in_max_objects limits -> ex_max_object_bytes ex <= in_max_object_bytes limits -> 0 < in_max_object_bytes limits ->
  exists manifest checksum, read_verified_manifest sha256 d = Ok (manifest, checksum) /\
    map ao_oid (am_objects manifest) = stored_oids (objects source) /\
    inspect_archive_with_limits sha256 d limits = Ok {| manifest_checksum := checksum |}.
Proof.
  intros Hsha Hlim Hlay (Hm & Hb & Hmr & Hml) Hex Ho Hby H0.
  destruct (export_Ok sha256 nfc Hsha source destination now ex d) as (rows & checksum & Hrows & Hoids & Hlen & Hd & Hread & _); [done..|].
  eexists _, checksum. split; [exact Hread|]. split; [exact Hoids|].
  unfold inspect_archive_with_limits, inspect_archive_with_budget, inspect_manifest, budget_new.
  cbn [b_max_objects b_max_object_bytes remaining_objects remaining_object_bytes].
  rewrite (proj2 (Z.eqb_neq (in_max_objects limits) 0)), (proj2 (Z.eqb_neq (in_max_object_bytes limits) 0)) by lia.
  cbn [reject_if mbind result_bind]. rewrite Hread. cbn [mbind result_bind from_parts am_objects].
  rewrite (Z.gtb_ltb (len rows)), (proj2 (Z.ltb_ge _ (len rows))) by lia. cbn [reject_if mbind result_bind].
  rewrite (declared_bytes_Ok rows 0) by (done || (by eapply rows_nonneg) || lia). cbn [mbind result_bind]. unfold reserve.
  cbn [remaining_objects remaining_object_bytes am_objects from_parts]. rewrite (Z.gtb_ltb (len rows)), (proj2 (Z.ltb_ge _ (len rows))) by lia.
  rewrite (Z.gtb_ltb (0 + declared rows)), (proj2 (Z.ltb_ge _ (0 + declared rows))) by lia. cbn [reject_if mbind result_bind snd].
  cbn [from_parts am_objects]. by rewrite (inspect_rows sha256 nfc (objects source) d rows 0 Hrows).
Qed.

(** ** The sample repository, exported and restored *)

Section Checks.
Variable sha256 : list byte -> list byte.
Variable nfc : list char -> list char.
Variable json_pointer : Json -> str -> option (list nat).
Variable registry : SchemaRegistry.

(** A file at the path of its identifier, and accepted by ingestion when it is structured. *)
Definition row_check (row : ObjectRow) : bool :=
  match parse_oid (row_oid row), snd row with
  | Ok k, RegularFile content =>
    bool_decide (fst row = object_path_for_valid_oid (row_oid row) k) &&
    (bool_decide (k = Blob) ||
     match ingest_claimed nfc sha256 json_pointer registry (row_oid row) content with
     | Ok validated => bool_decide (vo_canonical_bytes validated = content)
     | Err _ => false
     end)
  | _, _ => false
  end.

Lemma rows_checked s : forallb row_check (map_to_list (FileStore.objects s)) = true ->
  store_layout s /\
  forall oid k content, stores sha256 nfc s oid k content -> k <> Blob -> ingestible sha256 nfc json_pointer registry oid content.
Proof.
  rewrite forallb_forall. intros H. split.
  - intros p e Hp. apply elem_of_map_to_list, list_elem_of_In, H in Hp. unfold row_check in Hp. cbn [fst snd] in Hp.
    destruct (parse_oid _) as [k|] eqn:Hk; [|done]. destruct e as [content|]; [|done]. apply andb_true_iff in Hp as [Hp _].
    apply bool_decide_eq_true in Hp. split; [by exists (row_oid (p, RegularFile content)), k|by eexists].
  - intros oid k content (Hk & Hh & _) Hb. apply elem_of_map_to_list, list_elem_of_In, H in Hh. unfold row_check in Hh. cbn [fst snd] in Hh.
    remember (row_oid _) as o eqn:Eo in Hh. clear Eo. destruct (parse_oid o) as [k'|] eqn:Hk'; [|done]. apply andb_true_iff in Hh as [Hp Hi]. apply bool_decide_eq_true in Hp.
    pose proof (object_path_inj _ _ _ _ Hk Hk' Hp) as E. rewrite <- E in Hi, Hk'. clear E. rewrite Hk in Hk'. injection Hk' as <-.
    rewrite bool_decide_eq_false_2 in Hi by done. cbn [orb] in Hi.
    destruct (ingest_claimed _ _ _ _ _ _) as [v|] eqn:Hv; [|done]. exists v. apply bool_decide_eq_true in Hi. by split.
Qed.
End Checks.

Lemma sample_rows_checked :
  forallb (row_check toy_sha256 nfc_id no_pointer open_registry) (map_to_list (FileStore.objects (objects file_repository))) = true.
Proof. vm_cast_no_check (eq_refl true). Qed.

Lemma sample_limits : FileStore.limits (objects file_repository) = small_store_limits.
Proof. vm_compute. reflexivity. Qed.

Lemma sample_limits_ok : store_limits_ok (FileStore.limits (objects file_repository)).
Proof. rewrite sample_limits. apply small_store_limits_ok. Qed.

Lemma sample_export_limits_ok : export_limits_ok default_archive_export_limits.
Proof. by vm_compute. Qed.

Lemma sample_exported : export_archive_with_limits toy_sha256 nfc_id file_repository None (Some 0) default_archive_export_limits = Ok exported.
Proof.
  change (default_export = Ok exported). unfold exported. pose proof default_export_ok as H. revert H.
  generalize default_export. by intros [d|e].
Qed.

Lemma sample_refs_reachable : reachable (refs file_repository).
Proof.
  assert (refs with_commit.1 = initial) as E by (vm_compute; reflexivity).
  apply rtc_once. rewrite <- E at 1. unfold file_repository, with_ref, repo_update_ref, repo_ensure_writable, on_refs.
  assert (repo_read_only with_commit.1 = false) as -> by (vm_compute; reflexivity). cbn [reject_if fst set_refs refs].
  eapply (step_cas _ [] _ (Ok tt)). unfold compare_and_swap, compare_and_swap_with_preconditions. apply surjective_pairing.
Qed.

Definition default_restore_limits : ArchiveRestoreLimits := default_archive_restore_limits.
Definition sample_heads : list str := head_set (new_head <$> t_events (tables (refs file_repository))).
Definition sample_filled : Repository FileObjectStore :=
  set_store new_repository (set_objects (FileStore.objects (objects file_repository)) (objects new_repository)).

Lemma sample_covers : covers default_archive_export_limits default_restore_limits.
Proof. by vm_compute. Qed.
Lemma sample_input_bytes : max_input_bytes (structured (FileStore.limits (objects file_repository))) <= usize_max.
Proof. rewrite sample_limits. by vm_compute. Qed.
Lemma new_repository_limits : FileStore.limits (objects new_repository) = FileStore.limits (objects file_repository).
Proof. rewrite sample_limits. reflexivity. Qed.

(** The heads of the sample do validate. *)
Example sample_heads_validate :
  match validate_archived_heads toy_sha256 nfc_id sample_filled default_restore_limits sample_heads with Ok _ => true | Err _ => false end = true.
Proof. vm_compute. done. Qed.

Lemma archive_restores_witness :
  restore_from_bounded toy_sha256 nfc_id no_pointer open_registry new_repository exported default_restore_limits =
    match validate_archived_heads toy_sha256 nfc_id sample_filled default_restore_limits sample_heads with
    | Ok _ => (set_refs sample_filled (commit_tables (tables (refs file_repository)) (refs new_repository)), Ok tt)
    | Err e => (sample_filled, Err (RepoRefStore e))
    end.
Proof.
  apply (archive_restores toy_sha256 nfc_id no_pointer open_registry file_repository new_repository None (Some 0)
    default_archive_export_limits exported default_restore_limits toy_sha256_digest sample_limits_ok sample_input_bytes
    (proj1 (rows_checked _ _ _ _ _ sample_rows_checked)) (proj2 (rows_checked _ _ _ _ _ sample_rows_checked))
    sample_refs_reachable sample_export_limits_ok sample_covers sample_exported new_repository_limits).
  - reflexivity.
  - apply map_empty_subseteq.
  - reflexivity.
  - apply rtc_refl.
  - reflexivity.
  - reflexivity.
Defined.

Definition sample_restore : Repository FileObjectStore * presult unit :=
  restore_from_bounded toy_sha256 nfc_id no_pointer open_registry new_repository exported default_restore_limits.

Lemma sample_restore_pair :
  restore_from_bounded toy_sha256 nfc_id no_pointer open_registry new_repository exported default_restore_limits
  = (sample_restore.1, sample_restore.2).
Proof. apply surjective_pairing. Qed.

Lemma sample_restore_ok : sample_restore.2 = Ok tt.
Proof.
  assert (is_ok sample_restore.2 = true) as H by vm_cast_no_check (eq_refl true). by destruct sample_restore.2 as [[]|].
Qed.

Lemma restore_safe_witness :
  is_empty (tables (refs new_repository)) = true /\
  exists manifest checksum p, read_verified_manifest toy_sha256 exported = Ok (manifest, checksum) /\
    Forall (fun row => is_intact toy_sha256 nfc_id (objects sample_restore.1) (ao_oid row) = true) (am_objects manifest) /\
    list_oids_limited (objects sample_restore.1) (rs_max_objects default_restore_limits) = Ok (map ao_oid (am_objects manifest)) /\
    prepare_archive (into_ref_archive manifest) = Ok p /\
    validate_archived_heads toy_sha256 nfc_id (set_store new_repository (objects sample_restore.1)) default_restore_limits (p_heads p)
      = Ok tt /\
    restore_archive (into_ref_archive manifest) (fun _ => Ok tt) (refs new_repository) = (refs sample_restore.1, Ok tt).
Proof.
  destruct (restore_safe toy_sha256 nfc_id no_pointer open_registry new_repository sample_restore.1 exported default_restore_limits
    sample_restore.2 toy_sha256_digest small_store_limits_ok sample_restore_pair) as (_ & _ & _ & H).
  exact (H sample_restore_ok).
Defined.
