(* ===== verification/Artifact.v ===== *)
(** * Regular-file artifacts

    crates/synapse-artifact/src/lib.rs: manifests of regular files, their portable paths and
    limits, and their mapping to Blobs and nested Trees of a repository.  The map of
    Unicode lower case and NFC are parameters, and so is the text that [serde_json::to_vec]
    makes of a Tree.  Redacted formatting of errors is left out. *)

From Stdlib Require Import ZArith Lia.
From stdpp Require Import base list numbers strings gmap sets.
From S2P Require Import Prelude Bytes Sorting Text TextFacts BTree PortablePath Canonical Oid SchemaSemantics Registry RefStore.
From S2P Require Import ObjectStore FileStore Closure Repository.

#[local] Open Scope Z_scope.

Definition CONTRACT_NAME : str := lit "synapsegit.generic-artifact".
Definition CONTRACT_VERSION : Z := 1.
Definition PATH_PROFILE : str := lit "relative-nfc-portable-v1".

Inductive ArtifactSourceAttribution : Set := CallerSuppliedAiAttributed.

Definition execution_verified (attribution : ArtifactSourceAttribution) : bool := false.

Inductive ArtifactDisposition := AdoptedUnchanged | ArtifactRejected | ArtifactDeferred.

Inductive ArtifactEntryKind :=
| RegularFileEntry | DirectoryEntry | SymlinkEntry | SocketEntry | FifoEntry | DeviceEntry | OtherEntry.

#[export] Instance ArtifactEntryKind_eq_dec : EqDecision ArtifactEntryKind.
Proof. solve_decision. Defined.
#[export] Instance ArtifactDisposition_eq_dec : EqDecision ArtifactDisposition.
Proof. solve_decision. Defined.

Record ArtifactManifestEntry := { ae_path : str; ae_kind : ArtifactEntryKind; ae_bytes : list byte }.

Definition regular_file (path : str) (bytes : list byte) : ArtifactManifestEntry :=
  {| ae_path := path; ae_kind := RegularFileEntry; ae_bytes := bytes |}.
Definition unsupported (path : str) (kind : ArtifactEntryKind) : ArtifactManifestEntry :=
  {| ae_path := path; ae_kind := kind; ae_bytes := [] |}.

Record ArtifactLimits := {
  al_max_files : Z;
  al_max_file_bytes : Z;
  al_max_total_bytes : Z;
  al_max_path_bytes : Z;
  al_max_depth : Z;
}.

Definition default_artifact_limits : ArtifactLimits :=
  {| al_max_files := 10000; al_max_file_bytes := 64 * 1024 * 1024; al_max_total_bytes := 512 * 1024 * 1024;
     al_max_path_bytes := 1024; al_max_depth := 32 |}.

(** [RegularFileManifest]; [files] in the order of the paths. *)
Record RegularFileManifest := { mf_files : list (str * list byte); mf_total_bytes : Z }.

Inductive ArtifactError :=
| InvalidLimits
| InvalidPath (path : str)
| PathNotNfc (path : str)
| UnsupportedEntryKind (path : str) (kind : ArtifactEntryKind)
| DuplicatePath (path : str)
| PathCollision (first second : str)
| FileDirectoryConflict (file descendant : str)
| ArtifactResourceLimit
| ArtifactRepository (error : RepositoryError)
| ArtifactJson.

Abbreviation aresult := (result ArtifactError).

(** [ArtifactError::code] *)
Definition artifact_code (error : ArtifactError) : str :=
  match error with
  | InvalidLimits => lit "artifact_limits_invalid"
  | InvalidPath _ | PathNotNfc _ => lit "artifact_path_invalid"
  | UnsupportedEntryKind _ _ => lit "artifact_entry_unsupported"
  | DuplicatePath _ | PathCollision _ _ | FileDirectoryConflict _ _ => lit "artifact_path_collision"
  | ArtifactResourceLimit => lit "resource_limit"
  | ArtifactRepository error => repository_code error
  | ArtifactJson => lit "schema_invalid"
  end.

Definition validate_artifact_limits (limits : ArtifactLimits) : aresult unit :=
  reject_if (al_max_files limits =? 0) InvalidLimits;;
  reject_if ((al_max_file_bytes limits =? 0) || (al_max_total_bytes limits =? 0)) InvalidLimits;;
  reject_if ((al_max_path_bytes limits =? 0) || (al_max_depth limits =? 0)) InvalidLimits.

(** ** Portable components *)

Definition is_ascii_control (b : byte) : bool := (b <? 32) || (b =? 127).

Definition is_bidi_control (c : char) : bool :=
  (c =? 1564) || (c =? 8206) || (c =? 8207) || ((8234 <=? c) && (c <=? 8238)) || ((8294 <=? c) && (c <=? 8297)).

Definition to_ascii_uppercase (b : byte) : byte := if is_ascii_lowercase b then b - 32 else b.

(** The characters that no Windows file name may have. *)
Definition is_reserved_character (b : byte) : bool := existsb (Z.eqb b) [60; 62; 58; 34; 124; 63; 42].

Definition is_device_digit (b : byte) : bool := (49 <=? b) && (b <=? 57).

(** [COM1] to [COM9] and [LPT1] to [LPT9]. *)
Definition is_numbered_device (uppercase : str) : bool :=
  match uppercase with
  | [b0; b1; b2; digit] => (str_eqb [b0; b1; b2] (lit "COM") || str_eqb [b0; b1; b2] (lit "LPT")) && is_device_digit digit
  | _ => false
  end.

(** The superscripts of one, two and three, in UTF-8. *)
Definition superscripts : list str := [[194; 185]; [194; 178]; [194; 179]].

Definition is_superscript_device (uppercase : str) : bool :=
  existsb (fun digit => str_eqb uppercase (lit "COM" ++ digit) || str_eqb uppercase (lit "LPT" ++ digit)) superscripts.

Definition portable_component (component : str) : bool :=
  if ends_with (lit ".") component || ends_with (lit " ") component ||
     existsb is_reserved_character component || existsb is_bidi_control (chars component)
  then false
  else
    let stem := default component (list.head (split_on 46 component)) in
    let uppercase := map to_ascii_uppercase stem in
    negb (existsb (str_eqb uppercase) [lit "CON"; lit "PRN"; lit "AUX"; lit "NUL"]) &&
    negb (is_numbered_device uppercase) &&
    negb (is_superscript_device uppercase).

(** ** Manifests *)

(** The spelling that stands for each folded name, by directory. *)
Abbreviation Spellings := (gmap str (gmap (list char) str)).

Section Manifest.
Variable nfc : list char -> list char.
(** [char::to_lowercase] *)
Variable to_lowercase : char -> list char.

Definition is_nfc_text (component : str) : bool := bool_decide (nfc (chars component) = chars component).

Definition validate_path (path : str) (limits : ArtifactLimits) : aresult (list str) :=
  reject_if (match is_portable_relative_path path with Ok _ => false | Err _ => true end || existsb is_ascii_control path)
    (InvalidPath path);;
  reject_if (len path >? al_max_path_bytes limits) ArtifactResourceLimit;;
  let components := split_on 47 path in
  reject_if (len components >? al_max_depth limits) ArtifactResourceLimit;;
  reject_if (existsb (fun component => negb (is_nfc_text component)) components) (PathNotNfc path);;
  reject_if (existsb (fun component => negb (portable_component component)) components) (InvalidPath path);;
  Ok components.

(** The characters of the key; texts are compared by their characters. *)
Definition lowercase_key (value : str) : list char := flat_map to_lowercase (chars value).

(** The loop over the components of a path; [before] are those already passed. *)
Fixpoint check_spellings (before components : list str) (child_spellings : Spellings) : aresult Spellings :=
  match components with
  | [] => Ok child_spellings
  | spelling :: components =>
    let parent := join_with [47] before in
    let collision_key := lowercase_key spelling in
    let children := default ∅ (child_spellings !! parent) in
    match children !! collision_key with
    | Some existing =>
      if str_eqb existing spelling
      then check_spellings (before ++ [spelling]) components (<[parent := <[collision_key := spelling]> children]> child_spellings)
      else Err (PathCollision existing spelling)
    | None =>
      check_spellings (before ++ [spelling]) components (<[parent := <[collision_key := spelling]> children]> child_spellings)
    end
  end.

(** The loop over the entries. *)
Fixpoint collect_entries (entries : list ArtifactManifestEntry) (limits : ArtifactLimits) (files : list (str * list byte))
    (total_bytes : Z) (child_spellings : Spellings) : aresult (list (str * list byte) * Z) :=
  match entries with
  | [] => Ok (files, total_bytes)
  | entry :: entries =>
    reject_if (negb (bool_decide (ae_kind entry = RegularFileEntry))) (UnsupportedEntryKind (ae_path entry) (ae_kind entry));;
    components ← validate_path (ae_path entry) limits;
    let normalized_path := join_with [47] components in
    reject_if (bool_decide (is_Some (bt_get normalized_path files))) (DuplicatePath normalized_path);;
    let byte_len := len (ae_bytes entry) in
    reject_if (byte_len >? al_max_file_bytes limits) ArtifactResourceLimit;;
    total_bytes ← ok_or (usize_checked_add total_bytes byte_len) ArtifactResourceLimit;
    reject_if (total_bytes >? al_max_total_bytes limits) ArtifactResourceLimit;;
    child_spellings ← check_spellings [] components child_spellings;
    let files := bt_insert normalized_path (ae_bytes entry) files in
    reject_if (len files >? al_max_files limits) ArtifactResourceLimit;;
    collect_entries entries limits files total_bytes child_spellings
  end.

(** The first of the proper prefixes of a path that is itself a path of a file. *)
Fixpoint conflicting_prefix (files : list (str * list byte)) (before components : list str) : option str :=
  match components with
  | [] | [_] => None
  | component :: components =>
    let prefix := join_with [47] (before ++ [component]) in
    if bool_decide (is_Some (bt_get prefix files)) then Some prefix
    else conflicting_prefix files (before ++ [component]) components
  end.

(** The loop over all paths, in their order. *)
Fixpoint check_conflicts (files : list (str * list byte)) (paths : list str) : aresult unit :=
  match paths with
  | [] => Ok tt
  | path :: paths =>
    match conflicting_prefix files [] (split_on 47 path) with
    | Some prefix => Err (FileDirectoryConflict prefix path)
    | None => check_conflicts files paths
    end
  end.

(** [RegularFileManifest::from_entries] *)
Definition from_entries (entries : list ArtifactManifestEntry) (limits : ArtifactLimits) : aresult RegularFileManifest :=
  validate_artifact_limits limits;;
  '(files, total_bytes) ← collect_entries entries limits [] 0 ∅;
  check_conflicts files (map fst files);;
  Ok {| mf_files := files; mf_total_bytes := total_bytes |}.
End Manifest.

(** ** Mapping to the repository *)

Record MappedArtifactFile := { mapped_path : str; mapped_blob_oid : str; mapped_byte_len : Z }.
Record MappedArtifactTree := {
  mt_contract : str;
  mt_contract_version : Z;
  mt_path_profile : str;
  mt_site_tree_oid : str;
  mt_files : list MappedArtifactFile;
  mt_total_bytes : Z;
}.

(** [DirectoryNode]: two maps in the order of their keys. *)
Inductive DirectoryNode := Directory (blobs : list (str * str)) (directories : list (str * DirectoryNode)).

Definition empty_directory : DirectoryNode := Directory [] [].

(** [DirectoryNode::insert] of the components of a path. *)
Fixpoint directory_insert (components : list str) (blob_oid : str) (node : DirectoryNode) : DirectoryNode :=
  match node, components with
  | _, [] => node
  | Directory blobs directories, [first] => Directory (bt_insert first blob_oid blobs) directories
  | Directory blobs directories, first :: rest =>
    Directory blobs
      (bt_insert first (directory_insert rest blob_oid (default empty_directory (bt_get first directories))) directories)
  end.

(** [{"entry_kind": kind, "oid": oid}] *)
Definition tree_entry (kind oid : str) : Value := Obj [(lit "entry_kind", Str kind); (lit "oid", Str oid)].

(** The Tree of the entries, as [json!] builds it: an object in the order of its keys. *)
Definition tree_json (entries : list (str * Value)) : Value :=
  Obj [(lit "entries", Obj entries); (lit "extensions", Obj []); (lit "object_type", Str (lit "tree"));
       (lit "schema_version", Str (lit "0.1.0"))].

Section Mapping.
Variable sha256 : list byte -> list byte.
Variable nfc : list char -> list char.
Variable json_pointer : Json -> str -> option (list nat).
Variable registry : SchemaRegistry.
(** [serde_json::to_vec] *)
Variable to_vec : Value -> list byte.

Abbreviation FileRepository := (Repository FileObjectStore).

Definition repo_step {A} (r : FileRepository) (put : presult (FileRepository * A)) : FileRepository * aresult A :=
  match put with Ok (r, a) => (r, Ok a) | Err e => (r, Err (ArtifactRepository e)) end.

(** The entries of the Blobs. *)
Fixpoint blob_entries (blobs : list (str * str)) (entries : list (str * Value)) : list (str * Value) :=
  match blobs with
  | [] => entries
  | (name, oid) :: blobs => blob_entries blobs (bt_insert name (tree_entry (lit "blob") oid) entries)
  end.

(** [DirectoryNode::store]; an error keeps what is stored already. *)
Fixpoint store_directory (node : DirectoryNode) (r : FileRepository) : FileRepository * aresult str :=
  match node with
  | Directory blobs directories =>
    let '(r, entries) :=
      (fix store_children (directories : list (str * DirectoryNode)) (r : FileRepository) (entries : list (str * Value))
         : FileRepository * aresult (list (str * Value)) :=
         match directories with
         | [] => (r, Ok entries)
         | (name, directory) :: directories =>
           match store_directory directory r with
           | (r, Ok oid) => store_children directories r (bt_insert name (tree_entry (lit "tree") oid) entries)
           | (r, Err e) => (r, Err e)
           end
         end) directories r (blob_entries blobs []) in
    match entries with
    | Ok entries =>
      match repo_step r (put_object sha256 nfc json_pointer registry r (to_vec (tree_json entries))) with
      | (r, Ok put) => (r, Ok (put_oid put))
      | (r, Err e) => (r, Err e)
      end
    | Err e => (r, Err e)
    end
  end.

Definition whole_reads (s : FileObjectStore) (bytes : list byte) : list (list byte) :=
  read_buffers (length bytes) (Z.to_nat (io_buffer_bytes (limits s))) bytes.

(** The loop over the files of the manifest. *)
Fixpoint store_files (files : list (str * list byte)) (r : FileRepository) (root : DirectoryNode)
    (mapped : list MappedArtifactFile) : FileRepository * aresult (DirectoryNode * list MappedArtifactFile) :=
  match files with
  | [] => (r, Ok (root, mapped))
  | (path, bytes) :: files =>
    match repo_step r (repo_put_blob sha256 r (whole_reads (objects r) bytes)) with
    | (r, Ok stored) =>
      store_files files r (directory_insert (split_on 47 path) (put_oid stored) root)
        (mapped ++ [{| mapped_path := path; mapped_blob_oid := put_oid stored; mapped_byte_len := len bytes |}])
    | (r, Err e) => (r, Err e)
    end
  end.

Definition map_regular_files (r : FileRepository) (manifest : RegularFileManifest)
  : FileRepository * aresult MappedArtifactTree :=
  match store_files (mf_files manifest) r empty_directory [] with
  | (r, Ok (root, mapped)) =>
    match store_directory root r with
    | (r, Ok site_tree_oid) =>
      (r, Ok {| mt_contract := CONTRACT_NAME; mt_contract_version := CONTRACT_VERSION; mt_path_profile := PATH_PROFILE;
                mt_site_tree_oid := site_tree_oid; mt_files := mapped; mt_total_bytes := mf_total_bytes manifest |})
    | (r, Err e) => (r, Err e)
    end
  | (r, Err e) => (r, Err e)
  end.
End Mapping.

(** ** The digest of a manifest *)

Definition manifest_preimage (files : list (str * list byte)) : list byte :=
  lit "synapsegit-generic-artifact-manifest-v1" ++ [0] ++ framed (flat_map (fun file => [fst file; snd file]) files).

(** [artifact_manifest_sha256] of workflow.rs *)
Definition artifact_manifest_sha256 (sha256 : list byte -> list byte) (manifest : RegularFileManifest) : str :=
  sha256_hex sha256 (manifest_preimage (mf_files manifest)).
