(* ===== verification/ArtifactProps.v ===== *)
(** * Artifacts: lemmas and properties *)

From Stdlib Require Import ZArith Lia Sorted.
From stdpp Require Import base list numbers strings gmap sets.
From S2P Require Import Prelude Bytes Sorting Text TextFacts BTree PortablePath Oid CanonicalProps Artifact AuthorizationSample.

#[local] Open Scope Z_scope.

(** ** Artifacts: which entries make a manifest *)

Section Facts.
Variable nfc : list char -> list char.
Variable to_lowercase : char -> list char.

Abbreviation fold_name := (lowercase_key to_lowercase).

(** ** Names and their directories *)

(** The components of a path, each with the directory it stands in. *)
Fixpoint names (before components : list str) : list (str * str) :=
  match components with
  | [] => []
  | name :: components => (join_with [47] before, name) :: names (before ++ [name]) components
  end.

(** Names that fold to the same key in one directory are spelled alike. *)
Definition consistent (l : list (str * str)) : Prop :=
  forall parent a b, (parent, a) ∈ l -> (parent, b) ∈ l -> fold_name a = fold_name b -> a = b.

Definition spelling (s : Spellings) (parent : str) (key : list char) : option str := s !! parent ≫= (.!! key).

Definition represents (s : Spellings) (l : list (str * str)) : Prop :=
  forall parent key a, spelling s parent key = Some a <-> (parent, a) ∈ l /\ fold_name a = key.

Lemma spelling_insert (s : Spellings) parent key a p k :
  spelling (<[parent := <[key := a]> (default ∅ (s !! parent))]> s) p k =
    if decide (p = parent /\ k = key) then Some a else spelling s p k.
Proof.
  unfold spelling. destruct (decide (p = parent)) as [->|Hp].
  - rewrite lookup_insert_eq. cbn [mbind option_bind]. destruct (decide (k = key)) as [->|Hk].
    + by rewrite lookup_insert_eq, decide_True.
    + rewrite lookup_insert_ne, decide_False by naive_solver. destruct (s !! parent); cbn; [done|apply lookup_empty].
  - rewrite lookup_insert_ne, decide_False by naive_solver. done.
Qed.

Lemma represents_snoc s l parent a : represents s l ->
  (forall b, (parent, b) ∈ l -> fold_name b = fold_name a -> b = a) ->
  represents (<[parent := <[fold_name a := a]> (default ∅ (s !! parent))]> s) (l ++ [(parent, a)]).
Proof.
  intros Hr Hc p k b. rewrite spelling_insert, elem_of_app, list_elem_of_singleton. case_decide as E.
  - destruct E as [-> ->]. split; [intros [= ->]; auto|]. intros [[Hin|[= ->]] Hk]; [|done]. f_equal. symmetry. by apply Hc.
  - rewrite (Hr p k b). split; [intros [? ?]; auto|]. intros [[Hin|[= -> ->]] Hk]; [done|]. by destruct E.
Qed.

Lemma represents_empty : represents ∅ [].
Proof. intros p k a. unfold spelling. rewrite lookup_empty, elem_of_nil. cbn. naive_solver. Qed.

Lemma consistent_app l k : consistent (l ++ k) -> consistent l.
Proof. intros H p a b Ha Hb. apply (H p); apply elem_of_app; by left. Qed.

Lemma check_spellings_spec components : forall before s l, represents s l -> consistent l ->
  match check_spellings to_lowercase before components s with
  | Ok s' => consistent (l ++ names before components) /\ represents s' (l ++ names before components)
  | Err _ => ~ consistent (l ++ names before components)
  end.
Proof.
  induction components as [|a components IH]; intros before s l Hr Hc; cbn [check_spellings names]; [by rewrite app_nil_r|].
  set (parent := join_with [47] before).
  assert (default ∅ (s !! parent) !! fold_name a = spelling s parent (fold_name a)) as ->.
  { unfold spelling. destruct (s !! parent); cbn; [done|apply lookup_empty]. }
  assert (l ++ (parent, a) :: names (before ++ [a]) components = (l ++ [(parent, a)]) ++ names (before ++ [a]) components) as -> by (by rewrite <- app_assoc).
  assert ((forall b, (parent, b) ∈ l -> fold_name b = fold_name a -> b = a) ->
    consistent (l ++ [(parent, a)]) /\ represents (<[parent := <[fold_name a := a]> (default ∅ (s !! parent))]> s) (l ++ [(parent, a)])) as Hsnoc.
  { intros Ha. split; [|by apply represents_snoc]. intros p x y. rewrite !elem_of_app, !list_elem_of_singleton.
    intros [Hx|Ex] [Hy|Ey] E; simplify_eq; [by eapply Hc|by apply Ha|symmetry; by apply Ha|done]. }
  destruct (spelling s parent (fold_name a)) as [existing|] eqn:E.
  - destruct (proj1 (Hr _ _ _) E) as [Hin Hk]. destruct (str_eqb existing a) eqn:Heq.
    + apply str_eqb_eq in Heq as ->. destruct Hsnoc as [Hc' Hr']; [|by apply IH]. intros b Hb Hkb. by apply (Hc parent).
    + apply str_eqb_neq in Heq. intros Hn. apply Heq. apply (Hn parent); [..|done]; rewrite !elem_of_app; [by left; left|left; right].
      by apply list_elem_of_singleton.
  - destruct Hsnoc as [Hc' Hr']; [|by apply IH]. intros b Hb Hkb. pose proof (proj2 (Hr parent (fold_name a) b) (conj Hb Hkb)). congruence.
Qed.

(** ** The loop over the entries *)

Definition path_names (path : str) : list (str * str) := names [] (split_on 47 path).

(** What one entry must be. *)
Definition entry_ok (limits : ArtifactLimits) (entry : ArtifactManifestEntry) : Prop :=
  ae_kind entry = RegularFileEntry /\ is_ok (validate_path nfc (ae_path entry) limits) = true /\
  len (ae_bytes entry) <= al_max_file_bytes limits.

Definition total_len (entries : list ArtifactManifestEntry) : Z := foldr (fun e n => len (ae_bytes e) + n) 0 entries.

Lemma total_len_nonneg entries : 0 <= total_len entries.
Proof. unfold total_len. induction entries as [|e entries IH]; cbn [foldr]; [lia|]. pose proof (len_nonneg (ae_bytes e)). lia. Qed.

Lemma validate_path_components path limits components :
  validate_path nfc path limits = Ok components -> components = split_on 47 path.
Proof. unfold validate_path. intros H. result_inv. done. Qed.

Definition file_of (entry : ArtifactManifestEntry) : str * list byte := (ae_path entry, ae_bytes entry).

Definition all_names (entries : list ArtifactManifestEntry) : list (str * str) := flat_map (fun e => path_names (ae_path e)) entries.

Lemma total_len_cons e entries : total_len (e :: entries) = len (ae_bytes e) + total_len entries.
Proof. reflexivity. Qed.

Lemma all_names_cons e entries : all_names (e :: entries) = path_names (ae_path e) ++ all_names entries.
Proof. reflexivity. Qed.

(** The entries that the loop accepts after [files] with [total] bytes. *)
Definition collectable (limits : ArtifactLimits) (files : list (str * list byte)) (total : Z) (l : list (str * str))
    (entries : list ArtifactManifestEntry) : Prop :=
  Forall (entry_ok limits) entries /\ NoDup (map ae_path entries) /\
  (forall entry, entry ∈ entries -> bt_get (ae_path entry) files = None) /\
  total + total_len entries <= Z.min (al_max_total_bytes limits) usize_max /\
  len files + len entries <= al_max_files limits /\ consistent (l ++ all_names entries).

Lemma collectable_cons limits files total l e entries : bt_ok files ->
  collectable limits files total l (e :: entries) <->
  entry_ok limits e /\ bt_get (ae_path e) files = None /\ total + len (ae_bytes e) <= Z.min (al_max_total_bytes limits) usize_max /\
  len files + 1 <= al_max_files limits /\ consistent (l ++ path_names (ae_path e)) /\
  collectable limits (bt_insert (ae_path e) (ae_bytes e) files) (total + len (ae_bytes e)) (l ++ path_names (ae_path e)) entries.
Proof.
  intros Hf. unfold collectable. rewrite total_len_cons, all_names_cons, len_cons, app_assoc. cbn [map]. rewrite Forall_cons, NoDup_cons.
  pose proof (total_len_nonneg entries). pose proof (len_nonneg entries). split.
  - intros ([He Hes] & [Hn Hnd] & Hg & Ht & Hl & Hc). pose proof (Hg e ltac:(by left)) as Hge.
    rewrite bt_insert_len by done. split_and!; [done|done|lia|lia|by eapply consistent_app|done|done| |lia|lia|done].
    intros e' He'. rewrite bt_get_insert by done. case_decide as E; [|apply Hg; by right].
    destruct Hn. rewrite <- E. apply list_elem_of_fmap. by exists e'.
  - intros (He & Hge & Ht1 & Hl1 & Hc1 & Hes & Hnd & Hg & Ht & Hl & Hc). rewrite bt_insert_len in Hl by done.
    assert (forall e', e' ∈ entries -> ae_path e' <> ae_path e /\ bt_get (ae_path e') files = None) as Hg'.
    { intros e' He'. specialize (Hg e' He'). rewrite bt_get_insert in Hg by done. by case_decide. }
    split_and!; [done|done| |done| |lia|lia|done].
    + intros (e' & E & He')%list_elem_of_fmap. by destruct (Hg' e' He').
    + intros e' [->|He']%elem_of_cons; [done|by apply Hg'].
Qed.

Lemma collect_entries_spec limits entries : forall files total s l, bt_ok files -> represents s l -> consistent l ->
  0 <= total -> total <= Z.min (al_max_total_bytes limits) usize_max -> len files <= al_max_files limits ->
  match collect_entries nfc to_lowercase entries limits files total s with
  | Ok (files', total') => collectable limits files total l entries /\ total' = total + total_len entries /\ bt_ok files' /\
      forall k v, (k, v) ∈ files' <-> (k, v) ∈ files \/ (k, v) ∈ map file_of entries
  | Err _ => ~ collectable limits files total l entries
  end.
Proof.
  induction entries as [|e entries IH]; intros files total s l Hf Hr Hc H0 Ht Hl; cbn [collect_entries].
  { change (total_len []) with 0. split; [|split; [lia|split; [done|]]].
    - unfold collectable. change (total_len []) with 0. change (all_names []) with (@nil (str * str)).
      rewrite app_nil_r. change (len (@nil ArtifactManifestEntry)) with 0. split_and!; [constructor|constructor|by intros ? ?%not_elem_of_nil|lia|lia|done].
    - intros k v. rewrite elem_of_nil. tauto. }
  pose proof (collectable_cons limits files total l e entries Hf) as Hcc. unfold entry_ok in Hcc.
  case_bool_decide as Hk; cbn [negb reject_if mbind result_bind]; [|tauto].
  destruct (validate_path nfc (ae_path e) limits) as [components|err] eqn:Hv; cbn [mbind result_bind]; [|intros ((_ & ? & _) & _)%Hcc; done].
  apply validate_path_components in Hv as Hcomp. rewrite Hcomp, join_split_on.
  case_bool_decide as Hg; cbn [reject_if mbind result_bind]; [intros (_ & E & _)%Hcc; rewrite E in Hg; by destruct Hg|].
  apply eq_None_not_Some in Hg. rewrite (Z.gtb_ltb (len (ae_bytes e))). destruct (Z.ltb_spec (al_max_file_bytes limits) (len (ae_bytes e)));
    cbn [reject_if mbind result_bind]; [intros ((_ & _ & ?) & _)%Hcc; lia|].
  unfold usize_checked_add. destruct (Z.leb_spec (total + len (ae_bytes e)) usize_max); cbn [ok_or mbind result_bind];
    [|intros (_ & _ & ? & _)%Hcc; lia].
  rewrite (Z.gtb_ltb (total + _)). destruct (Z.ltb_spec (al_max_total_bytes limits) (total + len (ae_bytes e)));
    cbn [reject_if mbind result_bind]; [intros (_ & _ & ? & _)%Hcc; lia|].
  pose proof (check_spellings_spec (split_on 47 (ae_path e)) [] s l Hr Hc) as Hs. fold (path_names (ae_path e)) in Hs.
  destruct (check_spellings _ _ _ _) as [s'|err]; cbn [mbind result_bind]; [|tauto]. destruct Hs as [Hc' Hr'].
  rewrite (Z.gtb_ltb (len (bt_insert _ _ _))), bt_insert_len by done. destruct (Z.ltb_spec (al_max_files limits) (len files + 1));
    cbn [reject_if mbind result_bind]; [intros (_ & _ & _ & ? & _)%Hcc; lia|].
  pose proof (len_nonneg (ae_bytes e)).
  specialize (IH (bt_insert (ae_path e) (ae_bytes e) files) (total + len (ae_bytes e)) s' (l ++ path_names (ae_path e))).
  rewrite bt_insert_len in IH by done. specialize (IH (bt_insert_ok _ _ _ Hf) Hr' Hc' ltac:(lia) ltac:(lia) ltac:(lia)).
  destruct (collect_entries _ _ _ _ _ _ _) as [[files' total']|err]; [|tauto].
  destruct IH as (Hcol & -> & Hok & Hfiles). split; [apply Hcc; refine (conj (conj Hk (conj eq_refl _)) (conj Hg (conj _ (conj _ (conj Hc' Hcol))))); lia|]. split; [rewrite total_len_cons; lia|]. split; [done|].
  intros k v. rewrite Hfiles, bt_insert_elem by done. cbn [map]. rewrite elem_of_cons. unfold file_of at 2. split.
  - intros [[[-> ->]|[_ ?]]|?]; [right; by left|by left|right; by right].
  - intros [Hin|[[= -> ->]|?]]; [left; right; split; [|done]|left; by left|by right].
    intros ->. apply bt_get_elem in Hin; [congruence|done].
Qed.

(** ** Files and directories *)

(** [prefix] names a directory of [path]. *)
Definition directory_of (prefix path : str) : Prop := exists rest, path = prefix ++ 47 :: rest.

(** No path of the list is a directory of another one. *)
Definition prefix_free (paths : list str) : Prop := forall p q, p ∈ paths -> q ∈ paths -> ~ directory_of p q.

Lemma conflicting_prefix_cons files before c c' components :
  conflicting_prefix files before (c :: c' :: components) =
    let prefix := join_with [47] (before ++ [c]) in
    if bool_decide (is_Some (bt_get prefix files)) then Some prefix else conflicting_prefix files (before ++ [c]) (c' :: components).
Proof. reflexivity. Qed.

Lemma conflicting_prefix_None files components : forall before, components <> [] ->
  conflicting_prefix files before components = None <->
  forall i, (0 < i < length components)%nat -> bt_get (join_with [47] (before ++ take i components)) files = None.
Proof.
  induction components as [|c components IH]; intros before Hne; [done|].
  destruct components as [|c' components].
  { split; [|done]. intros _ i Hi. cbn in Hi. lia. }
  rewrite conflicting_prefix_cons. cbn zeta.
  case_bool_decide as Hd.
  - split; [done|]. intros H. specialize (H 1%nat ltac:(cbn; lia)). cbn [take] in H. rewrite H in Hd. by destruct Hd.
  - rewrite IH by done. apply eq_None_not_Some in Hd. split; intros H i Hi.
    + destruct i as [|[|i]]; [lia|exact Hd|]. specialize (H (S i) ltac:(cbn in *; lia)). rewrite <- app_assoc in H. exact H.
    + specialize (H (S i) ltac:(cbn in *; lia)). rewrite <- app_assoc. exact H.
Qed.

Lemma directory_of_take prefix path :
  directory_of prefix path <->
  exists i, (0 < i < length (split_on 47 path))%nat /\ join_with [47] (take i (split_on 47 path)) = prefix.
Proof.
  unfold directory_of. split.
  - intros [rest ->]. rewrite split_on_app_sep. exists (length (split_on 47 prefix)).
    destruct (split_on_nonempty 47 prefix) as (p & ps & Ep). destruct (split_on_nonempty 47 rest) as (r & rs & Er).
    rewrite take_app_length, join_split_on, length_app. split; [|done]. rewrite Ep, Er. cbn. lia.
  - intros (i & Hi & <-). exists (join_with [47] (drop i (split_on 47 path))). rewrite <- join_with_app.
    + by rewrite take_drop, join_split_on.
    + intros E%(f_equal length). rewrite length_take in E. cbn in E. lia.
    + intros E%(f_equal length). rewrite length_drop in E. cbn in E. lia.
Qed.

Lemma check_conflicts_spec files paths :
  is_ok (check_conflicts files paths) = true <->
  forall path prefix, path ∈ paths -> directory_of prefix path -> bt_get prefix files = None.
Proof.
  induction paths as [|path paths IH]; cbn [check_conflicts]; [split; [intros _ ? ? ?%not_elem_of_nil; done|done]|].
  destruct (split_on_nonempty 47 path) as (p & ps & E).
  pose proof (conflicting_prefix_None files (split_on 47 path) [] ltac:(by rewrite E)) as Hc. cbn [app] in Hc.
  assert (conflicting_prefix files [] (split_on 47 path) = None <-> forall prefix, directory_of prefix path -> bt_get prefix files = None) as Hp.
  { rewrite Hc. split.
    - intros H prefix (i & Hi & <-)%directory_of_take. by apply H.
    - intros H i Hi. apply H, directory_of_take. eauto. }
  clear Hc. destruct (conflicting_prefix _ _ _) as [prefix|].
  - split; [done|]. intros H. assert (Some prefix = None) as Ec by (apply Hp; intros; by eapply (H path); [left|]). done.
  - rewrite IH. pose proof (proj1 Hp eq_refl) as Hpath. split; intros H path' prefix Hin Hd.
    + apply elem_of_cons in Hin as [->|Hin]; [by apply Hpath|by eapply H].
    + eapply H; [by right|done].
Qed.

(** ** The manifest of the entries *)

Definition limits_positive (limits : ArtifactLimits) : Prop :=
  al_max_files limits <> 0 /\ al_max_file_bytes limits <> 0 /\ al_max_total_bytes limits <> 0 /\
  al_max_path_bytes limits <> 0 /\ al_max_depth limits <> 0.

(** The entries that have a manifest: each one portable and within its limits, no path twice, all within
    the totals, each name of a directory spelled in one way, and no file that is a directory too. *)
Definition representable (limits : ArtifactLimits) (entries : list ArtifactManifestEntry) : Prop :=
  limits_positive limits /\ Forall (entry_ok limits) entries /\ NoDup (map ae_path entries) /\
  total_len entries <= Z.min (al_max_total_bytes limits) usize_max /\ len entries <= al_max_files limits /\
  consistent (all_names entries) /\ prefix_free (map ae_path entries).

(** The manifest lists each entry, in the order of the paths, and the sum of the lengths. *)
Definition manifest_of (entries : list ArtifactManifestEntry) (m : RegularFileManifest) : Prop :=
  bt_ok (mf_files m) /\ (forall path bytes, (path, bytes) ∈ mf_files m <-> (path, bytes) ∈ map file_of entries) /\
  mf_total_bytes m = total_len entries.

Lemma validate_artifact_limits_spec limits : is_ok (validate_artifact_limits limits) = true <-> limits_positive limits.
Proof.
  unfold validate_artifact_limits, limits_positive, reject_if. rewrite <- !Z.eqb_neq.
  repeat destruct (_ =? 0); cbn; intuition congruence.
Qed.

Definition limits_nonneg (limits : ArtifactLimits) : Prop := 0 <= al_max_files limits /\ 0 <= al_max_total_bytes limits.

Lemma from_entries_spec limits entries : limits_nonneg limits ->
  match from_entries nfc to_lowercase entries limits with
  | Ok m => representable limits entries /\ manifest_of entries m
  | Err _ => ~ representable limits entries
  end.
Proof.
  intros [Hn1 Hn2]. unfold from_entries, representable. pose proof (validate_artifact_limits_spec limits) as Hl.
  destruct (validate_artifact_limits limits) as [[]|]; cbn [mbind result_bind]; [|intros [Hp _]; by apply Hl in Hp].
  pose proof (proj1 Hl eq_refl) as Hpos. clear Hl.
  pose proof (collect_entries_spec limits entries [] 0 ∅ [] bt_nil_ok represents_empty
    ltac:(intros ? ? ? []%not_elem_of_nil) ltac:(lia) ltac:(unfold usize_max; lia) Hn1) as H. unfold collectable in H.
  change (len (@nil (str * list byte))) with 0 in H. cbn [app] in H. rewrite !Z.add_0_l in H.
  destruct (collect_entries _ _ _ _ _ _ _) as [[files total]|]; cbn [mbind result_bind]; [|intros (_ & He & Hd & Ht & Hf & Hc & _); apply H; by split_and!].
  destruct H as ((He & Hd & _ & Ht & Hf & Hc) & -> & Hok & Hfiles).
  assert (forall path bytes, (path, bytes) ∈ files <-> (path, bytes) ∈ map file_of entries) as Hfiles'.
  { intros path bytes. rewrite Hfiles. split; [intros [?%not_elem_of_nil|?]; done|by right]. }
  assert (forall path, path ∈ map fst files <-> path ∈ map ae_path entries) as Hpaths.
  { intros path. rewrite !list_elem_of_fmap. split.
    - intros ([p b] & -> & Hin). apply Hfiles', list_elem_of_fmap in Hin as (e & [= -> ->] & Hin). by exists e.
    - intros (e & -> & Hin). exists (file_of e). split; [done|]. apply Hfiles', list_elem_of_fmap. by exists e. }
  assert (is_ok (check_conflicts files (map fst files)) = true <-> prefix_free (map ae_path entries)) as Hpf.
  { rewrite check_conflicts_spec. unfold prefix_free. setoid_rewrite <- Hpaths. split.
    - intros H p q Hp Hq Hdir. specialize (H q p Hq Hdir). apply list_elem_of_fmap in Hp as ([p' b] & -> & Hin).
      apply (bt_get_elem _ Hok) in Hin. cbn in *. congruence.
    - intros H path prefix Hin Hdir. apply eq_None_not_Some. intros [b Hb]. apply (bt_get_elem _ Hok) in Hb.
      apply (H prefix path); [|done..]. apply list_elem_of_fmap. by exists (prefix, b). }
  destruct (check_conflicts _ _) as [[]|]; cbn [mbind result_bind]; [|intros (_ & _ & _ & _ & _ & _ & Hp); by apply Hpf in Hp].
  split; [|done]. split_and!; [done..|]. by apply Hpf.
Qed.
End Facts.

(** ** Artifacts: the properties of manifests *)

Lemma manifest_of_unique entries m m' : manifest_of entries m -> manifest_of entries m' -> m = m'.
Proof.
  intros (Hok & He & Ht) (Hok' & He' & Ht'). destruct m as [files total], m' as [files' total']. cbn in *. f_equal; [|congruence].
  apply bt_ext; [done..|]. intros k v. by rewrite He, He'.
Qed.

(** The loader of manifests accepts exactly the entries that make one: positive limits; every
    entry a regular file under a portable NFC path within its bounds; no path twice; no two spellings of
    a name of one directory that differ only in case; no path that is a directory of another one; and all
    within the totals.  Then the manifest lists exactly the entries, in the order of their
    paths whatever the order they came in, and their total length, with no overflow. *)
Lemma manifest_exact nfc to_lowercase limits entries m (Hl : limits_nonneg limits) :
  from_entries nfc to_lowercase entries limits = Ok m <->
  representable nfc to_lowercase limits entries /\ manifest_of entries m.
Proof.
  pose proof (from_entries_spec nfc to_lowercase limits entries Hl) as H. split.
  - intros E. by rewrite E in H.
  - intros [Hr Hm]. destruct (from_entries _ _ _ _) as [m'|]; [|done]. f_equal. destruct H as [_ H]. by eapply manifest_of_unique.
Qed.

(** [char::to_lowercase] of ASCII. *)
Definition ascii_lowercase (c : char) : list char := [if (65 <=? c) && (c <=? 90) then c + 32 else c].

Definition sample_entries : list ArtifactManifestEntry :=
  [regular_file (lit "site/index.html") (lit "<p>"); regular_file (lit "Note.txt") (lit "hi"); regular_file (lit "site/a/b") []].

Definition sample_manifest : RegularFileManifest :=
  {| mf_files := [(lit "Note.txt", lit "hi"); (lit "site/a/b", []); (lit "site/index.html", lit "<p>")]; mf_total_bytes := 5 |}.

Example colliding_entries :
  from_entries nfc_id ascii_lowercase [regular_file (lit "a/X") []; regular_file (lit "A/Y") []] default_artifact_limits
    = Err (PathCollision (lit "a") (lit "A")) /\
  from_entries nfc_id ascii_lowercase [regular_file (lit "a/b") []; regular_file (lit "a") []] default_artifact_limits
    = Err (FileDirectoryConflict (lit "a") (lit "a/b")) /\
  from_entries nfc_id ascii_lowercase [regular_file (lit "com1.txt") []] default_artifact_limits
    = Err (InvalidPath (lit "com1.txt")).
Proof. vm_compute. done. Qed.

Lemma default_limits_nonneg : limits_nonneg default_artifact_limits.
Proof. by split; vm_compute. Qed.

(** ** The digest *)

Definition manifest_sized (m : RegularFileManifest) : Prop := Forall (fun file => sized (fst file) /\ sized (snd file)) (mf_files m).

Lemma file_parts_inj (files : list (str * list byte)) : forall files',
  flat_map (fun file => [fst file; snd file]) files = flat_map (fun file => [fst file; snd file]) files' -> files = files'.
Proof.
  induction files as [|[p b] files IH]; intros [|[p' b'] files'] E; cbn in E; [done|done|done|]. injection E as -> -> E. f_equal. by apply IH.
Qed.

Lemma file_parts_sized m : manifest_sized m -> Forall sized (flat_map (fun file => [fst file; snd file]) (mf_files m)).
Proof. unfold manifest_sized. induction 1 as [|f files [? ?]]; cbn; repeat constructor; done. Qed.

Lemma manifest_digest_inj sha256 m m' : sha256_digest sha256 -> manifest_sized m -> manifest_sized m' ->
  artifact_manifest_sha256 sha256 m = artifact_manifest_sha256 sha256 m' -> mf_files m = mf_files m' \/ collides sha256 (manifest_preimage (mf_files m)) (manifest_preimage (mf_files m')).
Proof.
  intros Hsha Hm Hm' E. apply lower_hex_inj in E; [|apply Hsha..].
  destruct (decide (manifest_preimage (mf_files m) = manifest_preimage (mf_files m'))) as [Ep|Hne].
  - left. unfold manifest_preimage in Ep. apply app_inv_head in Ep. apply app_inv_head in Ep.
    apply framed_inj in Ep; [|by apply file_parts_sized..]. by apply file_parts_inj.
  - right. by split.
Qed.

Lemma representable_sized nfc to_lowercase limits entries m : al_max_path_bytes limits < 2 ^ 64 ->
  representable nfc to_lowercase limits entries -> manifest_of entries m -> manifest_sized m.
Proof.
  intros Hp (_ & He & _ & Ht & _) (_ & Hf & _). apply Forall_forall. intros [path bytes] Hin.
  apply Hf, list_elem_of_fmap in Hin as (e & [= -> ->] & Hin). cbn [fst snd]. rewrite Forall_forall in He. destruct (He e Hin) as (_ & Hv & _). split.
  - destruct (validate_path _ _ _) as [c|] eqn:E; [|done]. unfold validate_path in E. result_inv.
    match goal with H : (len _ >? _) = false |- _ => rewrite Z.gtb_ltb in H; apply Z.ltb_ge in H end. unfold sized. lia.
  - assert (len (ae_bytes e) <= total_len entries) as Hle; [|unfold sized, usize_max in *; lia]. clear -Hin.
    induction entries as [|e' entries IH]; [by apply not_elem_of_nil in Hin|]. rewrite total_len_cons.
    apply elem_of_cons in Hin as [->|Hin]; [pose proof (total_len_nonneg entries); lia|]. specialize (IH Hin). pose proof (len_nonneg (ae_bytes e')). lia.
Qed.

Lemma total_len_files entries : total_len entries = foldr (fun file n => len (snd file) + n) 0 (map file_of entries).
Proof. unfold total_len. induction entries as [|e entries IH]; [done|]. cbn [foldr map]. by rewrite IH. Qed.

Lemma total_len_same entries entries' : NoDup (map ae_path entries) -> NoDup (map ae_path entries') ->
  (forall file, file ∈ map file_of entries <-> file ∈ map file_of entries') -> total_len entries = total_len entries'.
Proof.
  intros Hnd Hnd' Hsame. rewrite !total_len_files.
  assert (map file_of entries ≡ₚ map file_of entries') as Hp.
  2:{ revert Hp. generalize (map file_of entries) (map file_of entries'). clear. intros l k Hp. induction Hp; cbn [foldr]; lia. }
  apply NoDup_Permutation; [..|done]; by apply (NoDup_fmap_1 fst); rewrite <- list_fmap_compose.
Qed.

(** The digest that a review shows names the files: two loads whose manifests have the same
    digest have the same entries, in any order, or the texts that were hashed collide. *)
Lemma manifest_digest_names_files sha256 nfc to_lowercase limits entries entries' m m'
    (Hsha : sha256_digest sha256) (Hl : limits_nonneg limits) (Hp : al_max_path_bytes limits < 2 ^ 64)
    (Hm : from_entries nfc to_lowercase entries limits = Ok m) (Hm' : from_entries nfc to_lowercase entries' limits = Ok m')
    (E : artifact_manifest_sha256 sha256 m = artifact_manifest_sha256 sha256 m') :
  (forall file, file ∈ map file_of entries <-> file ∈ map file_of entries') /\ m = m' \/
  collides sha256 (manifest_preimage (mf_files m)) (manifest_preimage (mf_files m')).
Proof.
  pose proof (from_entries_spec nfc to_lowercase limits entries Hl) as H. rewrite Hm in H. destruct H as [Hr Hf].
  pose proof (from_entries_spec nfc to_lowercase limits entries' Hl) as H. rewrite Hm' in H. destruct H as [Hr' Hf'].
  apply manifest_digest_inj in E as [E|E]; [|by right|done|exact (representable_sized _ _ _ _ _ Hp Hr Hf)|exact (representable_sized _ _ _ _ _ Hp Hr' Hf')]. left.
  assert (forall file, file ∈ map file_of entries <-> file ∈ map file_of entries') as Hsame.
  { intros [p b]. destruct Hf as (_ & Hf & _), Hf' as (_ & Hf' & _). by rewrite <- Hf, <- Hf', E. }
  split; [done|]. eapply manifest_of_unique; [exact Hf|].
  destruct Hr as (_ & _ & Hnd & _), Hr' as (_ & _ & Hnd' & _), Hf' as (Hok' & He' & Ht'). split; [done|]. split; [intros p b; by rewrite He', Hsame|].
  rewrite Ht'. symmetry. by apply total_len_same.
Qed.

(** ** The directories of a manifest *)

(** The Blob at a path, given by its components. *)
Fixpoint node_at (node : DirectoryNode) (components : list str) : option str :=
  match node, components with
  | _, [] => None
  | Directory blobs _, [first] => bt_get first blobs
  | Directory _ directories, first :: rest => bt_get first directories ≫= fun directory => node_at directory rest
  end.

(** The maps are ordered, and no directory below is empty. *)
Inductive directory_ok : DirectoryNode -> Prop :=
| directory_ok_intro blobs directories :
    bt_ok blobs -> bt_ok directories ->
    (forall name directory, bt_get name directories = Some directory -> directory_ok directory) ->
    (forall name directory, bt_get name directories = Some directory -> exists components blob, node_at directory components = Some blob) ->
    directory_ok (Directory blobs directories).

Lemma empty_directory_ok : directory_ok empty_directory.
Proof. constructor; [apply bt_nil_ok|apply bt_nil_ok|done..]. Qed.

Lemma node_at_empty components : node_at empty_directory components = None.
Proof. by destruct components as [|? [|? ?]]. Qed.

Lemma directory_insert_at components blob : forall node, components <> [] -> directory_ok node ->
  directory_ok (directory_insert components blob node) /\
  forall path, node_at (directory_insert components blob node) path = if decide (path = components) then Some blob else node_at node path.
Proof.
  induction components as [|first rest IH]; intros [blobs directories] Hne Hok; [done|]. inversion Hok as [? ? Hb Hd Hc Hf]; subst.
  destruct rest as [|second rest]; cbn [directory_insert].
  { split; [constructor; [by apply bt_insert_ok|done..]|]. intros [|x [|y path]]; cbn [node_at]; rewrite ?bt_get_insert by done;
      repeat case_decide; by simplify_eq. }
  set (child := default empty_directory (bt_get first directories)).
  assert (directory_ok child) as Hchild.
  { subst child. destruct (bt_get first directories) as [d|] eqn:E; [by eapply Hc|apply empty_directory_ok]. }
  destruct (IH child ltac:(done) Hchild) as [Hok' Hat]. split.
  - constructor; [done|by apply bt_insert_ok|..]; intros name directory; rewrite bt_get_insert by done; case_decide as En; [|apply Hc| |apply Hf];
      intros [= <-]; [exact Hok'|]. exists (second :: rest), blob. rewrite Hat. by case_decide.
  - intros [|x [|y path]]; [by case_decide|by case_decide|]. cbn [node_at]. rewrite bt_get_insert by done. case_decide as En.
    + subst x. change (node_at (directory_insert (second :: rest) blob child) (y :: path) =
        if decide (first :: y :: path = first :: second :: rest) then Some blob else bt_get first directories ≫= (fun d => node_at d (y :: path))).
      rewrite Hat. repeat case_decide; simplify_eq; [done|]. subst child. destruct (bt_get first directories); [done|]. apply node_at_empty.
    + case_decide; [by simplify_eq|done].
Qed.

(** The Blobs of the files by the components of their paths. *)
Definition site_files (sha256 : list byte -> list byte) (files : list (str * list byte)) : gmap (list str) str :=
  foldl (fun site file => <[split_on 47 (fst file) := blob_oid sha256 (snd file)]> site) ∅ files.
