(* ===== verification/AuthorizationProps.v ===== *)
(** * Publication of AI proposals: the properties *)

From stdpp Require Import base list numbers strings gmap sets relations.
From Stdlib Require Import ZArith Lia.
From S2P Require Import Prelude Text RefStore RefStoreProps Canonical Oid Registry ObjectStore Closure ClosureFacts CanonicalProps.
From S2P Require Import RegistryProps Repository Policy Binding BindingFacts Authorization AuthorizationFacts AuthorizationSample.

#[local] Open Scope Z_scope.

Section Publish.
Context {S : Type} `{BoundedObjectStore S}.
Variable nfc : list char -> list char.
Variable json_pointer : Json -> str -> option (list nat).
Variable registry : SchemaRegistry.
Variable repository : Repository S.
Variable authority : AiExecutionAuthority.

#[local] Abbreviation load_record := (load_record nfc json_pointer registry repository).
#[local] Abbreviation publish := (publish_proposal_internal nfc json_pointer registry repository authority).
#[local] Abbreviation authorize := (authorize_proposal nfc json_pointer registry repository authority).

(** What has been checked when the Ref transaction starts. *)
Record prepared (request : AiProposalUpdate) (side_effect : option AiSideEffectClass) (preflight : option AiPreflightDecision)
    (now : option Z) (rs : ResolvedAiAuthority) (update : RefUpdate) (capabilities : list AiCapability) : Prop := {
  pr_chain : exists target, resolved_chain nfc json_pointer registry repository authority now target rs /\
    tg_ref_name target = up_ref_name request /\ tg_expected_head target = up_expected_head request /\
    (forall class, side_effect = Some class -> tg_side_effect target = class);
  pr_update : update = {| u_ref_name := up_ref_name request; u_expected_head := up_expected_head request;
    u_new_head := up_new_head request; u_metadata := {| md_occurred_at := rs_evaluated_at rs;
      md_actor := Some (au_actor_id authority); md_message := up_message request |} |};
  pr_capabilities : capabilities = normalized_capabilities (au_capabilities authority);
  pr_preflight : forall decision, preflight = Some decision -> require_resolved_preflight_binding rs decision = Ok tt;
  pr_binding : exists activity activity_payload needs,
    load_record (up_activity_oid request) (lit "activity") = Ok activity /\ get activity (lit "payload") = Some activity_payload /\
    require_candidate_output_binding nfc json_pointer registry repository
      {| candidate_commit := up_new_head request; base_commit := rs_base_commit_oid rs; activity_oid := up_activity_oid request;
         context_pack_oid := au_context_pack_oid authority; authenticated_actor_id := au_actor_id authority;
         context_payload := rs_context_payload rs; activity_payload := activity_payload;
         grant_payload := rs_grant_payload rs |} = Ok needs /\
    (forall c, c ∈ needs -> c ∈ capabilities);
  pr_parent : exists commit, load_structured nfc json_pointer registry repository (up_new_head request) Commit = Ok commit /\
    get commit (lit "parents") = Some (Arr [Str (rs_base_commit_oid rs)]);
}.

Lemma require_activity_payload request commit activity payload ai_run class grant_oid :
  require_activity authority request commit activity = Ok (payload, ai_run, class, grant_oid) ->
  get activity (lit "payload") = Some payload.
Proof. unfold require_activity, require_object. intros Ha. auth_inv. done. Qed.

Lemma direct_parent_Ok commit base u :
  require_direct_base_parent commit base = Ok u -> get commit (lit "parents") = Some (Arr [Str base]).
Proof.
  unfold require_direct_base_parent. intros Hp. auth_inv. repeat case_match; try done. bool_props.
  by match goal with H : as_str ?v = Some _ |- _ => destruct v; simplify_eq/= end.
Qed.

Lemma require_candidate_Ok request commit payload ai_run rs caps :
  require_candidate nfc json_pointer registry repository authority request commit payload ai_run rs = Ok caps ->
  get commit (lit "parents") = Some (Arr [Str (rs_base_commit_oid rs)]) /\
  caps = normalized_capabilities (rs_exact_capabilities rs) /\
  exists needs, require_candidate_output_binding nfc json_pointer registry repository
      {| candidate_commit := up_new_head request; base_commit := rs_base_commit_oid rs; activity_oid := up_activity_oid request;
         context_pack_oid := au_context_pack_oid authority; authenticated_actor_id := au_actor_id authority;
         context_payload := rs_context_payload rs; activity_payload := payload;
         grant_payload := rs_grant_payload rs |} = Ok needs /\ forall c, c ∈ needs -> c ∈ caps.
Proof.
  unfold require_candidate. intros Hc. auth_inv. bool_props.
  match goal with H : require_direct_base_parent _ _ = _ |- _ => apply direct_parent_Ok in H end.
  split_and!; [done..|]. eexists. split; [done|]. intros c Hin.
  match goal with H : Forall _ _ |- _ => rewrite Forall_forall in H; specialize (H c Hin); cbn in H end.
  auth_inv. bool_props. by apply has_capability_true.
Qed.

Lemma authorize_Ok request side_effect preflight now verifier rs update caps :
  authorize request side_effect preflight now = Ok (verifier, rs, update, caps) ->
  prepared request side_effect preflight now rs update caps.
Proof.
  unfold authorize_proposal. intros Ha. auth_inv. repeat match goal with H : unit |- _ => destruct H end.
  match goal with H : require_activity _ _ _ _ = _ |- _ => apply require_activity_payload in H end.
  match goal with H : resolve_ai_authority _ _ _ _ _ _ _ = _ |- _ => apply resolve_Ok in H; rename H into Hrc end.
  match goal with H : require_candidate _ _ _ _ _ _ _ _ _ _ = _ |- _ =>
    apply require_candidate_Ok in H as (Hparent & Hcaps & needs & Hneeds & Hin) end.
  destruct (rc_capabilities _ _ _ _ _ _ _ _ Hrc) as [Hexact _].
  split; [eexists; split_and!; [exact Hrc|done|done|by intros ? ->]|done| | | |].
  - by rewrite Hcaps, Hexact, normalized_idemp.
  - intros decision ->. done.
  - do 3 eexists. by split_and!.
  - by eexists.
Qed.

Lemma guard_Ok rs tnow : transaction_guard rs tnow = Ok tt ->
  exists now, tnow = Some now /\ rs_evaluated_at rs <= now < rs_grant_expires_at rs.
Proof.
  unfold transaction_guard. intros Hg. result_inv. repeat case_match; try done. bool_props. by eexists.
Qed.

(** A successful publication: what was checked, and the transaction that followed. *)
Lemma publish_Ok request side_effect preflight now tnow repository' d :
  publish request side_effect preflight now tnow = (repository', Ok d) ->
  exists verifier rs update,
    authorize request side_effect preflight now = Ok (verifier, rs, update, ad_effective_capabilities d) /\
    prepared request side_effect preflight now rs update (ad_effective_capabilities d) /\
    ad_delegation_grant_oid d = rs_delegation_grant_oid rs /\ ad_policy_oid d = rs_policy_oid rs /\
    compare_and_swap_with_preconditions_and_guard update
      [{| pre_ref_name := rs_base_ref_name rs; pre_expected_head := Some (rs_base_commit_oid rs) |}]
      (validate_prepared_head verifier) (transaction_guard rs tnow) (refs repository) = (refs repository', Ok (ad_reflog d)) /\
    repository' = set_refs repository (refs repository') /\ transaction_guard rs tnow = Ok tt.
Proof.
  unfold publish_proposal_internal. intros Hp. destruct (authorize _ _ _ _) as [[[[verifier rs] update] caps]|e] eqn:Ha; [|done].
  destruct (compare_and_swap_with_preconditions_and_guard _ _ _ _ _) as [store entry] eqn:Hcas.
  injection Hp as <- Hd. result_inv. exists verifier, rs, update. cbn. split_and!; try done; [by eapply authorize_Ok|].
  apply cas_Ok_inv in Hcas as (_ & _ & _ & _ & t & Ht & _). unfold cas_transaction in Ht. result_inv.
  by match goal with H : transaction_guard _ _ = Ok ?u |- _ => destruct u end.
Qed.

Lemma publish_Err request side_effect preflight now tnow repository' e :
  publish request side_effect preflight now tnow = (repository', Err e) -> repository' = repository.
Proof.
  unfold publish_proposal_internal. intros Hp. destruct (authorize _ _ _ _) as [[[[verifier rs] update] caps]|e'] eqn:Ha; [|by simplify_eq].
  destruct (compare_and_swap_with_preconditions_and_guard _ _ _ _ _) as [store entry] eqn:Hcas.
  injection Hp as <- Hd. destruct entry; [done|]. apply finish_Err in Hcas as [_ ->]. by destruct repository.
Qed.
End Publish.

(** ** Preflighted publications *)

Section Preflighted.
Context {S : Type} `{BoundedObjectStore S}.
Variable nfc : list char -> list char.
Variable json_pointer : Json -> str -> option (list nat).
Variable registry : SchemaRegistry.
Variable repository : Repository S.
Variable authority : AiExecutionAuthority.

#[local] Abbreviation publish := (publish_preflighted nfc json_pointer registry repository authority).

Lemma preflighted_Err decision generated now tnow repository' e :
  publish decision generated now tnow = (repository', Err e) -> repository' = repository.
Proof. unfold publish_preflighted. destruct (require_preflight_authority_binding _ _); [apply publish_Err|by intros [= <- _]]. Qed.

Lemma preflighted_reachable decision generated now tnow :
  reachable (refs repository) -> reachable (refs (publish decision generated now tnow).1).
Proof. unfold publish_preflighted. destruct (require_preflight_authority_binding _ _); [apply publish_reachable|done]. Qed.

(** The readings of the clock that a publication accepted. *)
Lemma preflighted_window decision generated now tnow repository' d :
  publish decision generated now tnow = (repository', Ok d) ->
  exists first last, now = Some first /\ tnow = Some last /\ pd_evaluated_at decision <= first <= last /\ last < pd_grant_expires_at decision.
Proof.
  unfold publish_preflighted. destruct (require_preflight_authority_binding authority decision) as [u|]; [|done].
  intros (verifier & rs & update & _ & Hpr & _ & _ & _ & _ & Hguard)%publish_Ok.
  destruct Hpr as [(target & Hrc & _) _ _ Hpre _ _]. apply guard_Ok in Hguard as (last & Hlast & Hwin).
  specialize (Hpre _ eq_refl). unfold require_resolved_preflight_binding in Hpre. result_inv.
  destruct (_ && _) eqn:Hm in Hpre; [|done]. bool_props.
  exists (rs_evaluated_at rs), last. split_and!; [apply (rc_now _ _ _ _ _ _ _ _ Hrc)|done|lia..].
Qed.
End Preflighted.

Lemma ai_namespace_Ok ref_name u : require_ai_namespace ref_name = Ok u -> namespace ref_name = Some (lit "proposal").
Proof.
  unfold require_ai_namespace, namespace. destruct (split_on 47 ref_name) as [|n ns]; [done|].
  destruct (str_eqb n (lit "proposal")) eqn:E; [apply str_eqb_eq in E as ->; done|]. by destruct (_ || _).
Qed.

Lemma human_gated_Ok ref_name u : require_human_gated_base ref_name = Ok u ->
  namespace ref_name = Some (lit "decision") \/ namespace ref_name = Some (lit "release").
Proof.
  unfold require_human_gated_base, namespace. intros Hb. auth_inv. destruct (split_on 47 ref_name) as [|n ns]; [done|].
  destruct (_ || _) eqn:E; [|done]. apply orb_true_iff in E as [E|E]; apply str_eqb_eq in E as ->; auto.
Qed.

(** A publication moves exactly one Ref, or nothing.  On success the proposal Ref, under
    [proposal/], goes from the expected head to the new Commit, whose only parent is the
    current head of the human-gated base Ref; one reflog entry is appended; objects and all
    other Refs stay.  On any error the whole repository is as before. *)
Lemma publish_effect {S : Type} `{BoundedObjectStore S} nfc json_pointer registry (repository : Repository S) authority
    request side_effect preflight now tnow repository' r :
  reachable (refs repository) ->
  publish_proposal_internal nfc json_pointer registry repository authority request side_effect preflight now tnow
    = (repository', r) ->
  match r with
  | Ok d =>
    exists base commit,
    heads (tables (refs repository)) !! au_base_ref authority = Some base /\
    load_structured nfc json_pointer registry repository (up_new_head request) Commit = Ok commit /\
    get commit (lit "parents") = Some (Arr [Str base]) /\
    heads (tables (refs repository)) !! up_ref_name request = up_expected_head request /\
    heads (tables (refs repository')) = <[up_ref_name request := up_new_head request]> (heads (tables (refs repository))) /\
    t_events (tables (refs repository')) = t_events (tables (refs repository)) ++ [ad_reflog d] /\
    actor (ad_reflog d) = Some (au_actor_id authority) /\
    namespace (up_ref_name request) = Some (lit "proposal") /\
    (namespace (au_base_ref authority) = Some (lit "decision") \/ namespace (au_base_ref authority) = Some (lit "release")) /\
    repository' = set_refs repository (refs repository')
  | Err _ => repository' = repository
  end.
Proof.
  intros Hw%reachable_wf Hp. destruct r as [d|e]; [|by eapply publish_Err].
  apply publish_Ok in Hp as (verifier & rs & update & _ & Hpr & _ & _ & Hcas & Hr & _).
  destruct Hpr as [(target & Hrc & Hname & _) -> _ _ _ (commit & Hl & Hparent)].
  apply cas_Ok_inv in Hcas as (_ & _ & _ & _ & t & Ht & Hs).
  apply cas_transaction_Ok in Ht as (_ & Hps & Hh & _ & [= -> Hentry]); [|done].
  destruct (rc_target _ _ _ _ _ _ _ _ Hrc) as [_ Hns]. destruct (rc_base _ _ _ _ _ _ _ _ Hrc) as [Hgate Hbase].
  exists (rs_base_commit_oid rs), commit. rewrite Hs. rewrite Forall_singleton in Hps. rewrite !heads_lookup.
  rewrite Hname in Hns. unfold precondition_holds in Hps. cbn [pre_ref_name pre_expected_head] in Hps. rewrite Hbase in Hps.
  split_and!; [done|done|done|done| | | |by eapply ai_namespace_Ok|by eapply human_gated_Ok|by rewrite Hr at 1; rewrite Hs].
  - exact (heads_cas _ (tables (refs repository))).
  - cbn. by rewrite Hentry.
  - by rewrite Hentry.
Qed.

(** C11: every published proposal is authorized, in the snapshot of the base it builds on.
    That base is the head of the base Ref at the Ref transaction, a decision or a release, and
    the only parent of the published Commit.  The Grant and the Policy that the decision names,
    and the actor's record, are bound in the snapshot of this base (not in that of the
    candidate) and asserted by the principal; the Grant delegates this Ref to this actor and is
    active from the authorization to the Ref transaction; and each effective capability is held
    by the actor, delegated by the Grant, enabled in the runtime and permitted by the Policy. *)
Theorem publish_authorized {S : Type} `{BoundedObjectStore S} nfc json_pointer registry (repository : Repository S) authority
    request side_effect preflight now tnow repository' d :
  reachable (refs repository) ->
  publish_proposal_internal nfc json_pointer registry repository authority request side_effect preflight now tnow
    = (repository', Ok d) ->
  exists base commit snapshot grant policy actor first last,
    heads (tables (refs repository)) !! au_base_ref authority = Some base /\
    (namespace (au_base_ref authority) = Some (lit "decision") \/ namespace (au_base_ref authority) = Some (lit "release")) /\
    load_structured nfc json_pointer registry repository (up_new_head request) Commit = Ok commit /\
    get commit (lit "parents") = Some (Arr [Str base]) /\
    snapshot_object_set nfc json_pointer registry repository base = Ok snapshot /\
    {[ad_delegation_grant_oid d; ad_policy_oid d; au_actor_record_oid authority]} ⊆ snapshot /\
    load_record nfc json_pointer registry repository (ad_delegation_grant_oid d) (lit "delegation_grant") = Ok grant /\
    load_record nfc json_pointer registry repository (ad_policy_oid d) (lit "policy") = Ok policy /\
    load_record nfc json_pointer registry repository (au_actor_record_oid authority) (lit "actor") = Ok actor /\
    get_str policy (lit "asserted_by") = Some (au_principal_id authority) /\
    get_str actor (lit "asserted_by") = Some (au_principal_id authority) /\
    delegates authority grant (up_ref_name request) /\
    now = Some first /\ tnow = Some last /\ first <= last /\ active_during grant first last /\
    ad_effective_capabilities d = normalized_capabilities (au_capabilities authority) /\
    ProposeBranch ∈ ad_effective_capabilities d /\
    (forall c, c ∈ ad_effective_capabilities d -> effective authority grant policy actor (up_ref_name request) c).
Proof.
  intros Hw Hp. pose proof (publish_effect _ _ _ _ _ _ _ _ _ _ _ _ Hw Hp) as (base & commit & Hb & Hl & Hpar & _).
  apply reachable_wf in Hw.
  apply publish_Ok in Hp as (verifier & rs & update & _ & Hpr & Hg & Hpol & Hcas & _ & Hguard).
  destruct Hpr as [(target & Hrc & Hname & _) -> Hcaps _ _ _]. apply guard_Ok in Hguard as (last & Hlast & Hwin).
  destruct (rc_records _ _ _ _ _ _ _ _ Hrc) as (grant & policy & actor & HG & HP & HA & _ & HPa & HAa & _ & Hd & Hact & Heff).
  destruct (rc_snapshot _ _ _ _ _ _ _ _ Hrc) as (snapshot & Hs & Hsa & _ & Hsg & Hsp).
  destruct (rc_capabilities _ _ _ _ _ _ _ _ Hrc) as [_ Hpb]. destruct (rc_base _ _ _ _ _ _ _ _ Hrc) as [Hgate Hbase].
  assert (base = rs_base_commit_oid rs) as ->.
  { apply cas_Ok_inv in Hcas as (_ & _ & _ & _ & t & Ht & _). apply cas_transaction_Ok in Ht as (_ & Hps & _); [|done].
    rewrite Forall_singleton in Hps. unfold precondition_holds in Hps. cbn [pre_ref_name pre_expected_head] in Hps.
    rewrite Hbase in Hps. rewrite heads_lookup in Hb. congruence. }
  exists (rs_base_commit_oid rs), commit, snapshot, grant, policy, actor, (rs_evaluated_at rs), last.
  rewrite Hg, Hpol, <- Hname.
  split_and!; try done; [by eapply human_gated_Ok| |apply (rc_now _ _ _ _ _ _ _ _ Hrc)|lia|apply Hact; lia|..].
  - set_solver.
  - by rewrite Hcaps, normalized_elem.
  - intros c Hc. rewrite Hcaps, normalized_elem in Hc. by apply Heff.
Qed.

Lemma publish_authorized_witness :
  exists head commit snapshot grant policy actor first last,
    heads (tables (refs run_repository)) !! au_base_ref run_authority = Some head /\
    (namespace (au_base_ref run_authority) = Some (lit "decision") \/
       namespace (au_base_ref run_authority) = Some (lit "release")) /\
    load_structured nfc_id no_pointer open_registry run_repository (up_new_head run_request) Commit = Ok commit /\
    get commit (lit "parents") = Some (Arr [Str head]) /\
    snapshot_object_set nfc_id no_pointer open_registry run_repository head = Ok snapshot /\
    {[ad_delegation_grant_oid run_decision; ad_policy_oid run_decision; ai_actor_oid]} ⊆ snapshot /\
    load_record nfc_id no_pointer open_registry run_repository (ad_delegation_grant_oid run_decision) (lit "delegation_grant") = Ok grant /\
    load_record nfc_id no_pointer open_registry run_repository (ad_policy_oid run_decision) (lit "policy") = Ok policy /\
    load_record nfc_id no_pointer open_registry run_repository ai_actor_oid (lit "actor") = Ok actor /\
    get_str policy (lit "asserted_by") = Some human_id /\
    get_str actor (lit "asserted_by") = Some human_id /\
    delegates run_authority grant (lit "proposal/ai/run-1") /\
    run_now = Some first /\ run_commit_now = Some last /\ first <= last /\ active_during grant first last /\
    ad_effective_capabilities run_decision = normalized_capabilities (au_capabilities run_authority) /\
    ProposeBranch ∈ ad_effective_capabilities run_decision /\
    (forall c, c ∈ ad_effective_capabilities run_decision ->
       effective run_authority grant policy actor (lit "proposal/ai/run-1") c).
Proof.
  apply (publish_authorized nfc_id no_pointer open_registry run_repository run_authority run_request None None run_now
    run_commit_now run_outcome.1 run_decision); [exact base_refs_reachable|exact run_published].
Defined.

(** C12: a published candidate contains nothing undeclared: every object reachable from the
    new Commit is in the closure of the base, or is the Commit or the Activity, or is reachable
    from the ContextPack and the inputs it selects, or is a Tree, or is reachable from an
    output that the Activity declares. *)
Theorem publish_confined {S : Type} `{BoundedObjectStore S} nfc json_pointer registry (repository : Repository S) authority
    request side_effect preflight now tnow repository' d :
  0 <= max_edges (graph_limits repository) ->
  publish_proposal_internal nfc json_pointer registry repository authority request side_effect preflight now tnow
    = (repository', Ok d) ->
  exists b activity context,
    candidate_commit b = up_new_head request /\ activity_oid b = up_activity_oid request /\
    context_pack_oid b = au_context_pack_oid authority /\
    load_record nfc json_pointer registry repository (activity_oid b) (lit "activity") = Ok activity /\
    get activity (lit "payload") = Some (activity_payload b) /\
    load_record nfc json_pointer registry repository (context_pack_oid b) (lit "context_pack") = Ok context /\
    get context (lit "payload") = Some (context_payload b) /\
    get_str (context_payload b) (lit "base_commit") = Some (base_commit b) /\
    forall x, rtc (refers (objects repository)) (candidate_commit b) x -> accounted repository b x.
Proof.
  intros He (verifier & rs & update & _ & Hpr & _)%publish_Ok.
  destruct Hpr as [(target & Hrc & _) _ _ _ (activity & payload & needs & Hl & Hp & Hb & _) _].
  destruct (rc_context _ _ _ _ _ _ _ _ Hrc) as (context & Hc & _ & Hcp & Hbase).
  do 3 eexists. split_and!; [..|intros x Hx; eapply output_binding_accounted; [done|exact Hb|exact Hx]]; done.
Qed.

Lemma publish_confined_witness :
  exists b activity context,
    candidate_commit b = candidate_oid /\ activity_oid b = ai_activity_oid /\ context_pack_oid b = context_oid /\
    load_record nfc_id no_pointer open_registry run_repository (activity_oid b) (lit "activity") = Ok activity /\
    get activity (lit "payload") = Some (activity_payload b) /\
    load_record nfc_id no_pointer open_registry run_repository (context_pack_oid b) (lit "context_pack") = Ok context /\
    get context (lit "payload") = Some (context_payload b) /\
    get_str (context_payload b) (lit "base_commit") = Some (base_commit b) /\
    forall x, rtc (refers run_objects) (candidate_commit b) x -> accounted run_repository b x.
Proof.
  apply (publish_confined nfc_id no_pointer open_registry run_repository run_authority run_request None None run_now
    run_commit_now run_outcome.1 run_decision).
  - vm_compute. discriminate.
  - exact run_published.
Defined.

Lemma answers_policy policy c p t : answers (authorize_policy_capability policy c p t).
Proof.
  unfold authorize_policy_capability. apply answers_bind; [answers_auto|intros payload _].
  apply answers_bind; [answers_auto|intros rules _]. apply answers_bind; [|intros e _; answers_auto].
  generalize (@None PolicyEffect). induction rules as [|r rules IH]; intros e; cbn [policy_effect]; [apply answers_Ok|].
  apply answers_bind; [unfold rule_effect; answers_auto|intros [x|] _; apply IH].
Qed.

Lemma answers_capability_values values : answers (capability_values values).
Proof. induction values as [|v values IH]; cbn [capability_values]; answers_auto. Qed.

Lemma answers_fmap {A B} (f : A -> B) (r : presult A) : answers r -> answers (f <$> r).
Proof. intros Hr c. destruct r as [|e]; [done|]. intros [= ->]. by apply Hr. Qed.

Section Answers.
Context {S : Type} `{BoundedObjectStore S}.
Variable nfc : list char -> list char.
Variable json_pointer : Json -> str -> option (list nat).
Variable registry : SchemaRegistry.
Variable repository : Repository S.
Variable authority : AiExecutionAuthority.

Lemma answers_parse_capabilities values : answers (parse_capabilities values).
Proof. apply answers_fmap, answers_capability_values. Qed.

Ltac answers_authorization := repeat (
  apply answers_load_record || apply answers_load_structured || apply answers_parse_capabilities || apply answers_policy ||
  apply answers_base_bindings || apply answers_present_oid_array || apply answers_output_binding || apply answers_preserves ||
  apply answers_activity_references || answers_step).

Lemma answers_timestamp s : answers (canonical_timestamp_unix_nanos s).
Proof. unfold canonical_timestamp_unix_nanos. intros c. destruct (Timestamp.parse_canonical_timestamp_unix_nanos s); [done|]. intros [= <-]. left; by eexists. Qed.

Lemma answers_resolve now target : answers (resolve_ai_authority nfc json_pointer registry repository authority now target).
Proof.
  unfold resolve_ai_authority, load_grant, load_policy, load_ai_actor, require_principal_actor, optional_commit_oid,
    require_human_gated_base, require_ai_namespace, require_project_resource, require_writable_prefix, require_effective_capability.
  repeat (apply answers_timestamp || (apply answers_ok_or; by intros ? ?) || (progress answers_authorization)).
Qed.

Lemma answers_authorize request side_effect preflight now :
  answers (authorize_proposal nfc json_pointer registry repository authority request side_effect preflight now).
Proof.
  unfold authorize_proposal, require_activity, require_candidate, require_direct_base_parent, optional_commit_oid,
    require_human_gated_base, require_ai_namespace, require_oid_kind, require_resolved_preflight_binding, require_role_actor, require_role_oid.
  repeat (apply answers_resolve || (apply answers_reject; by intros ? ?) || (progress answers_authorization)).
Qed.
End Answers.

(** Publication always answers: whatever the store holds, whatever the graph limits are
    and however the objects refer to each other, an error of the core is a protocol error
    code, or an oversized confidence ends the process.  The loops over snapshots, closures and parents end within their bounds. *)
Lemma publish_answers {S : Type} `{BoundedObjectStore S} nfc json_pointer registry (repository : Repository S) authority
    request side_effect preflight now tnow repository' e :
  publish_proposal_internal nfc json_pointer registry repository authority request side_effect preflight now tnow
    = (repository', Err (RepoCore e)) -> coded_or_aborted e.
Proof.
  unfold publish_proposal_internal. destruct (authorize_proposal _ _ _ _ _ _ _ _ _) as [[[[verifier rs] update] caps]|e'] eqn:Ha.
  - destruct (compare_and_swap_with_preconditions_and_guard _ _ _ _ _) as [store [entry|e']]; intros [= <- He].
    destruct e'; cbn in He; simplify_eq. left. by eexists.
  - intros [= _ ->]. exact (answers_authorize _ _ _ _ _ _ _ _ _ _ Ha).
Qed.

(** An Activity identifier of the wrong kind. *)
Definition wrong_request : AiProposalUpdate :=
  {| up_ref_name := lit "proposal/ai/run-1"; up_expected_head := None; up_new_head := candidate_oid; up_message := None;
     up_activity_oid := draft_oid |}.

(** A preflighted publication does exactly what was decided before the run: the Grant,
    the Policy, the capabilities, the target Ref and its expected head are those of the
    decision, the base has not moved, and the clock has neither gone back nor reached the
    expiry that the decision recorded. *)
Lemma preflight_binds {S : Type} `{BoundedObjectStore S} nfc json_pointer registry (repository : Repository S) authority
    decision generated now tnow repository' d :
  reachable (refs repository) ->
  publish_preflighted nfc json_pointer registry repository authority decision generated now tnow = (repository', Ok d) ->
  ad_delegation_grant_oid d = pd_delegation_grant_oid decision /\ ad_policy_oid d = pd_policy_oid decision /\
  ad_effective_capabilities d = pd_exact_capabilities decision /\
  heads (tables (refs repository)) !! pd_base_ref decision = Some (pd_base_commit_oid decision) /\
  heads (tables (refs repository)) !! pd_target_ref_name decision = pd_expected_target_head decision /\
  heads (tables (refs repository')) = <[pd_target_ref_name decision := ge_new_head generated]> (heads (tables (refs repository))) /\
  exists first last, now = Some first /\ tnow = Some last /\
    pd_evaluated_at decision <= first <= last /\ last < pd_grant_expires_at decision.
Proof.
  intros Hw%reachable_wf Hp. pose proof (preflighted_window _ _ _ _ _ _ _ _ _ _ _ Hp) as Hwin. revert Hp.
  unfold publish_preflighted. destruct (require_preflight_authority_binding authority decision) as [u|] eqn:Hb; [|done].
  intros (verifier & rs & update & _ & Hpr & Hg & Hpol & Hcas & _ & _)%publish_Ok.
  destruct Hpr as [(target & Hrc & Hname & Hexp & _) -> Hcaps Hpre _ _].
  specialize (Hpre _ eq_refl). unfold require_resolved_preflight_binding in Hpre. result_inv. destruct (_ && _) eqn:Hm in Hpre; [|done].
  bool_props. repeat match goal with H : str_eqb _ _ = true |- _ => apply str_eqb_eq in H end.
  destruct (rc_base _ _ _ _ _ _ _ _ Hrc) as [_ Hbase]. destruct (rc_capabilities _ _ _ _ _ _ _ _ Hrc) as [Hexact _].
  apply cas_Ok_inv in Hcas as (_ & _ & _ & _ & t & Ht & ->).
  apply cas_transaction_Ok in Ht as (_ & Hps & Hh & _ & [= -> _]); [|done]. rewrite Forall_singleton in Hps.
  unfold precondition_holds in Hps. cbn [pre_ref_name pre_expected_head u_ref_name u_expected_head up_ref_name up_expected_head] in *.
  rewrite !heads_lookup. split_and!; [..|exact Hwin]; try congruence. exact (heads_cas _ (tables (refs repository))).
Qed.

