(* ===== verification/HumanDecision.v ===== *)
(** * Human decisions

    Models crates/synapse-core/src/human_decision.rs: an authenticated human decides a
    reviewed proposal, and the [decision/] Ref advances to a Commit that binds the feedback.
    A [BTreeSet] of effects is the list of the effects inserted, which is only asked for
    members.  The trusted clock's two readings are arguments.  The walk over the ancestry of
    the decision head runs on fuel: it pops the base and one Commit for each counted edge. *)

From stdpp Require Import base list numbers strings gmap sets.
From Stdlib Require Import ZArith Lia.
From S2P Require Import Prelude Text RefStore Canonical Oid Registry ObjectStore Closure Repository Policy Binding.

#[local] Open Scope Z_scope.

(** ** Data *)

Inductive DecisionDisposition :=
| AdoptedUnchanged | AdoptedModified | PartiallyAdopted | Rejected | Deferred | ExperimentOnly.

#[export] Instance DecisionDisposition_eq_dec : EqDecision DecisionDisposition.
Proof. solve_decision. Defined.

Definition disposition_as_str (d : DecisionDisposition) : str :=
  match d with
  | AdoptedUnchanged => lit "adopted_unchanged"
  | AdoptedModified => lit "adopted_modified"
  | PartiallyAdopted => lit "partially_adopted"
  | Rejected => lit "rejected"
  | Deferred => lit "deferred"
  | ExperimentOnly => lit "experiment_only"
  end.

Definition disposition_parse (value : str) : presult DecisionDisposition :=
  if str_eqb value (lit "adopted_unchanged") then Ok AdoptedUnchanged
  else if str_eqb value (lit "adopted_modified") then Ok AdoptedModified
  else if str_eqb value (lit "partially_adopted") then Ok PartiallyAdopted
  else if str_eqb value (lit "rejected") then Ok Rejected
  else if str_eqb value (lit "deferred") then Ok Deferred
  else if str_eqb value (lit "experiment_only") then Ok ExperimentOnly
  else denied.

Record HumanDecisionAuthority := {
  authenticated_human_id : str;
  authorized_project_id : str;
  decision_ref_name : str;
  decision_head : str;
  proposal_ref_name : str;
  proposal_head : str;
  human_actor_record_oid : str;
  policy_record_oid : str;
}.

Record HumanDecisionUpdate := {
  hd_new_head : str;
  hd_decision_feedback_oid : str;
  hd_message : option str;
}.

Record HumanDecisionReceipt := {
  rc_reflog : ReflogEntry;
  rc_human_actor_record_oid : str;
  rc_policy_record_oid : str;
  rc_proposal_commit_oid : str;
  rc_decision_feedback_oid : str;
  rc_disposition : DecisionDisposition;
}.

(** ** Checks on names and values *)

Definition require_ref_namespace (ref_name expected : str) : presult unit :=
  of_refs (validate_ref_name ref_name);;
  if bool_decide (List.hd_error (split_on 47 ref_name) = Some expected) then Ok tt else denied.

Definition require_commit_oid (oid : str) : presult unit :=
  kind ← of_core (parse_oid oid);
  if bool_decide (kind = Commit) then Ok tt else repo_fail ReferenceTypeMismatch.

Definition require_human_actor (actor : Value) (authenticated_human : str) : presult unit :=
  entity_id ← require_string actor (lit "entity_id");
  require_equal entity_id authenticated_human;;
  asserted_by ← require_string actor (lit "asserted_by");
  require_equal asserted_by authenticated_human;;
  payload ← require_object actor (lit "payload");
  actor_kind ← require_string payload (lit "actor_kind");
  require_equal actor_kind (lit "human").

(** [values.len() == 1 && values[0].as_str() == Some(expected)] *)
Definition sole_string (values : list Value) (expected : str) : bool :=
  match values with [value] => bool_decide (as_str value = Some expected) | _ => false end.

Definition require_single_parent (commit : Value) (expected_parent : str) : presult unit :=
  parents ← require_array commit (lit "parents");
  if sole_string parents expected_parent then Ok tt else denied.

Definition require_exact_transition (commit : Value) (expected : str) : presult unit :=
  transitions ← require_array commit (lit "transition_refs");
  if sole_string transitions expected then Ok tt else denied.

Definition require_disposition_snapshot (base_commit proposal_commit decision_commit : Value)
    (disposition : DecisionDisposition) : presult unit :=
  base_snapshot ← require_string base_commit (lit "snapshot");
  proposal_snapshot ← require_string proposal_commit (lit "snapshot");
  decision_snapshot ← require_string decision_commit (lit "snapshot");
  match disposition with
  | AdoptedUnchanged => require_equal decision_snapshot proposal_snapshot
  | Rejected | Deferred | ExperimentOnly => require_equal decision_snapshot base_snapshot
  | AdoptedModified | PartiallyAdopted => denied
  end.

(** [for (field, expected) in [...] { require_equal(require_string(value, field)?, expected)? }] *)
Definition require_fields (value : Value) (fields : list (str * str)) : presult unit :=
  for_each (fun '(field, expected) => actual ← require_string value field; require_equal actual expected) fields.

(** ** Policy *)

Inductive EvaluatedPolicyEffect := EffectAllow | SatisfiedDecisionGate | UnsatisfiedHumanGate | EffectDeny.

#[export] Instance EvaluatedPolicyEffect_eq_dec : EqDecision EvaluatedPolicyEffect.
Proof. solve_decision. Defined.

(** The body of the loop over the rules: [Ok None] is [continue]. *)
Definition publish_rule_effect (decision_ref : str) (rule : Value) : presult (option EvaluatedPolicyEffect) :=
  if negb (bool_decide (get_str rule (lit "action") = Some (lit "publish"))) then Ok None
  else
    selector ← require_string rule (lit "resource_selector");
    if negb (selector_supported selector) then denied
    else if negb (selector_matches selector decision_ref) then Ok None
    else if bool_decide (is_Some (get rule (lit "condition_text"))) then denied
    else
      effect ← require_string rule (lit "effect");
      if str_eqb effect (lit "allow") then Ok (Some EffectAllow)
      else if str_eqb effect (lit "deny") then Ok (Some EffectDeny)
      else if str_eqb effect (lit "require_human_gate") then
        if bool_decide (get_str rule (lit "human_gate") = Some (lit "before_decision_ref"))
        then Ok (Some SatisfiedDecisionGate) else Ok (Some UnsatisfiedHumanGate)
      else denied.

Definition publish_effects (decision_ref : str) (rules : list Value) : presult (list EvaluatedPolicyEffect) :=
  fold_each (fun effects rule =>
    effect ← publish_rule_effect decision_ref rule;
    Ok (match effect with Some e => e :: effects | None => effects end)) [] rules.

Definition authorize_human_publish (policy_payload : Value) (decision_ref : str) : presult unit :=
  rules ← require_array policy_payload (lit "rules");
  effects ← publish_effects decision_ref rules;
  if bool_decide (EffectDeny ∈ effects) then denied
  else if bool_decide (UnsatisfiedHumanGate ∈ effects) then repo_fail HumanGateRequired
  else if bool_decide (SatisfiedDecisionGate ∈ effects) || bool_decide (EffectAllow ∈ effects) then Ok tt
  else
    effect ← require_string policy_payload (lit "default_effect");
    if str_eqb effect (lit "allow") then Ok tt else denied.

Section Decision.
Context {S : Type} `{BoundedObjectStore S}.
Variable nfc : list char -> list char.
Variable json_pointer : Json -> str -> option (list nat).
Variable registry : SchemaRegistry.
Variable repository : Repository S.

#[local] Abbreviation load_record := (load_record nfc json_pointer registry repository).
#[local] Abbreviation load_structured := (load_structured nfc json_pointer registry repository).
#[local] Abbreviation snapshot_object_set := (snapshot_object_set nfc json_pointer registry repository).

(** ** Snapshots *)

Definition require_base_authority_bindings (base_commit human_actor_oid policy_oid : str) : presult unit :=
  snapshot ← snapshot_object_set base_commit;
  for_each (fun oid => denied_if (negb (bool_decide (oid ∈ snapshot)))) [human_actor_oid; policy_oid].

Definition require_snapshot_retains_base_non_tree (candidate_commit base_commit : str) : presult unit :=
  base ← snapshot_object_set base_commit;
  candidate ← snapshot_object_set candidate_commit;
  for_each (fun oid =>
    kind ← of_core (parse_oid oid);
    denied_if (negb (bool_decide (kind = Tree)) && negb (bool_decide (oid ∈ candidate)))) (sorted_set base).

Definition is_protected_control (record_type : str) : bool :=
  str_eqb record_type (lit "actor") || str_eqb record_type (lit "policy") ||
  str_eqb record_type (lit "delegation_grant") || str_eqb record_type (lit "tombstone").

Definition protected_control_set (commit_oid : str) : presult (gset str) :=
  snapshot ← snapshot_object_set commit_oid;
  fold_each (fun controls oid =>
    kind ← of_core (parse_oid oid);
    if negb (bool_decide (kind = Record)) then Ok controls
    else
      record ← load_structured oid Record;
      record_type ← require_string record (lit "record_type");
      Ok (if is_protected_control record_type then {[oid]} ∪ controls else controls)) ∅ (sorted_set snapshot).

Definition require_exact_protected_controls (base_commit candidate_commit : str) : presult unit :=
  base ← protected_control_set base_commit;
  candidate ← protected_control_set candidate_commit;
  if bool_decide (base = candidate) then Ok tt else denied.

(** ** Ancestry *)

(** A Record is the feedback on a proposal. *)
Definition decides (record : Value) (proposal_commit : str) : bool :=
  bool_decide (get_str record (lit "record_type") = Some (lit "decision_feedback")) &&
  bool_decide ((get record (lit "payload") ≫= fun payload => get_str payload (lit "proposal_ref")) = Some proposal_commit).

Definition count_edge (edges : Z) : presult Z :=
  let edges := edges + 1 in
  reject_if (edges >? max_edges (graph_limits repository)) resource_limit_error;;
  Ok edges.

(** The loop over the transitions of one Commit: the edges counted. *)
Definition undecided_transitions (proposal_commit : str) (edges : Z) (transitions : list Value) : presult Z :=
  fold_each (fun edges transition =>
    edges ← count_edge edges;
    match as_str transition with
    | None => Ok edges
    | Some oid =>
      record ← load_structured oid Record;
      denied_if (decides record proposal_commit);;
      Ok edges
    end) edges transitions.

(** The loop over its parents. *)
Definition push_ancestors (depth : Z) (pending : list (str * Z)) (edges : Z) (parents : list Value)
  : presult (list (str * Z) * Z) :=
  fold_each (fun '(pending, edges) parent =>
    edges ← count_edge edges;
    parent ← or_denied (as_str parent);
    Ok ((parent, depth + 1) :: pending, edges)) (pending, edges) parents.

Fixpoint ancestry_loop (fuel : nat) (proposal_commit : str) (visited : gset str) (pending : list (str * Z)) (edges : Z)
  : presult unit :=
  match pending with
  | [] => Ok tt
  | (commit_oid, depth) :: pending =>
    match fuel with
    | O => Err out_of_fuel
    | Datatypes.S fuel =>
      if bool_decide (commit_oid ∈ visited) then ancestry_loop fuel proposal_commit visited pending edges
      else
        let visited := {[commit_oid]} ∪ visited in
        reject_if ((set_count visited >? max_objects (graph_limits repository)) ||
                   (depth >? max_depth (graph_limits repository))) resource_limit_error;;
        commit ← load_structured commit_oid Commit;
        transitions ← require_array commit (lit "transition_refs");
        edges ← undecided_transitions proposal_commit edges transitions;
        parents ← require_array commit (lit "parents");
        '(pending, edges) ← push_ancestors depth pending edges parents;
        ancestry_loop fuel proposal_commit visited pending edges
    end
  end.

Definition require_proposal_not_previously_decided (base_commit proposal_commit : str) : presult unit :=
  ancestry_loop (Z.to_nat (max_edges (graph_limits repository)) + 1) proposal_commit ∅ [(base_commit, 0)] 0.

(** ** The proposal under review *)

(** The Activity of the proposal: its payload, its [ai_run] and its agent. *)
Definition require_ai_activity (activity_oid authenticated_human : str) (proposal : Value) : presult (Value * Value * str) :=
  activity ← load_record activity_oid (lit "activity");
  activity_payload ← require_object activity (lit "payload");
  activity_kind ← require_string activity_payload (lit "activity_kind");
  require_equal activity_kind (lit "ai_run");;
  ai_run ← require_object activity_payload (lit "ai_run");
  status ← require_string ai_run (lit "status");
  require_equal status (lit "proposal_ready");;
  agent_id ← require_string ai_run (lit "agent_ref");
  author ← require_string proposal (lit "author_ref");
  require_equal author agent_id;;
  asserted_by ← require_string activity (lit "asserted_by");
  require_equal asserted_by agent_id;;
  principal ← require_string ai_run (lit "responsible_principal_ref");
  require_equal principal authenticated_human;;
  require_role_actor activity_payload (lit "agent") agent_id;;
  require_role_actor activity_payload (lit "responsible_principal") authenticated_human;;
  denied_if (negb (bool_decide (get_str activity_payload (lit "side_effect_class") = Some (lit "none")) ||
                   bool_decide (get_str activity_payload (lit "side_effect_class") = Some (lit "project_internal"))));;
  require_array_contains ai_run (lit "required_human_gates") (lit "before_decision_ref");;
  Ok (activity_payload, ai_run, agent_id).

(** The payload of its ContextPack. *)
Definition require_proposal_context (context_oid grant_oid authenticated_human decision_ref decision_head policy_oid : str)
  : presult Value :=
  context ← load_record context_oid (lit "context_pack");
  asserted_by ← require_string context (lit "asserted_by");
  require_equal asserted_by authenticated_human;;
  context_payload ← require_object context (lit "payload");
  require_fields context_payload
    [(lit "base_commit", decision_head); (lit "expected_ref_head", decision_head); (lit "base_ref_name", decision_ref);
     (lit "policy_snapshot_ref", policy_oid); (lit "delegation_grant_ref", grant_oid)];;
  require_array_contains context_payload (lit "selected_context_refs") decision_head;;
  require_present_oid_array repository context_payload (lit "selected_context_refs");;
  Ok context_payload.

(** The payload of its Grant. *)
Definition require_proposal_grant (grant_oid authenticated_human agent_id project_id decision_head proposal_ref : str)
    (context_payload : Value) : presult Value :=
  grant ← load_record grant_oid (lit "delegation_grant");
  snapshot ← snapshot_object_set decision_head;
  denied_if (negb (bool_decide (grant_oid ∈ snapshot)));;
  asserted_by ← require_string grant (lit "asserted_by");
  require_equal asserted_by authenticated_human;;
  grant_payload ← require_object grant (lit "payload");
  require_fields grant_payload
    [(lit "principal_ref", authenticated_human); (lit "delegate_ref", agent_id); (lit "project_ref", project_id)];;
  data_classification ← require_string context_payload (lit "data_classification");
  require_array_contains grant_payload (lit "data_classes") data_classification;;
  require_project_resource grant_payload project_id;;
  require_writable_prefix grant_payload proposal_ref;;
  require_array_contains grant_payload (lit "required_human_gates") (lit "before_decision_ref");;
  Ok grant_payload.

Definition require_ai_proposal_chain (proposal_oid proposal_ref : str) (proposal : Value)
    (authenticated_human project_id decision_ref decision_head policy_oid : str) : presult unit :=
  transitions ← require_array proposal (lit "transition_refs");
  activity_oid ← or_denied (match transitions with [transition] => as_str transition | _ => None end);
  '(activity_payload, ai_run, agent_id) ← require_ai_activity activity_oid authenticated_human proposal;
  context_oid ← require_string ai_run (lit "context_pack_ref");
  grant_oid ← require_string ai_run (lit "delegation_grant_ref");
  require_role_oid activity_payload (lit "input_refs") (lit "context") context_oid;;
  context_payload ←
    require_proposal_context context_oid grant_oid authenticated_human decision_ref decision_head policy_oid;
  grant_payload ←
    require_proposal_grant grant_oid authenticated_human agent_id project_id decision_head proposal_ref context_payload;
  require_present_activity_references repository activity_payload;;
  require_candidate_output_binding nfc json_pointer registry repository
    {| candidate_commit := proposal_oid; base_commit := decision_head; activity_oid := activity_oid;
       context_pack_oid := context_oid; authenticated_actor_id := agent_id; context_payload := context_payload;
       activity_payload := activity_payload; grant_payload := grant_payload |};;
  Ok tt.

(** ** Publication *)

Variable authority : HumanDecisionAuthority.

(** The objects the decision is about, each head with a complete closure. *)
Definition prepare_decision (update : HumanDecisionUpdate) : presult (PreparedClosureVerifier (S := S)) :=
  require_ref_namespace (decision_ref_name authority) (lit "decision");;
  require_ref_namespace (proposal_ref_name authority) (lit "proposal");;
  require_commit_oid (decision_head authority);;
  require_commit_oid (proposal_head authority);;
  require_commit_oid (hd_new_head update);;
  require_oid_kind (hd_decision_feedback_oid update) Record;;
  closure_verifier ←
    of_store (verifier_new (objects repository) (graph_limits repository) (tombstone_scan_limits repository));
  of_refs (map_err Validation (validate_prepared_head closure_verifier (decision_head authority)));;
  of_refs (map_err Validation (validate_prepared_head closure_verifier (proposal_head authority)));;
  of_refs (map_err Validation (validate_prepared_head closure_verifier (hd_new_head update)));;
  Ok closure_verifier.

(** The reviewer's authority: Actor and Policy, bound in the canonical snapshot. *)
Definition require_reviewer (human_actor policy : Value) : presult unit :=
  require_human_actor human_actor (authenticated_human_id authority);;
  require_base_authority_bindings (decision_head authority) (human_actor_record_oid authority)
    (policy_record_oid authority);;
  policy_payload ← require_object policy (lit "payload");
  asserted_by ← require_string policy (lit "asserted_by");
  require_equal asserted_by (authenticated_human_id authority);;
  require_array_contains policy_payload (lit "scope_refs") (authorized_project_id authority);;
  authorize_human_publish policy_payload (decision_ref_name authority).

(** The reviewed proposal. *)
Definition require_proposal (proposal_commit : Value) : presult unit :=
  require_proposal_not_previously_decided (decision_head authority) (proposal_head authority);;
  commit_kind ← require_string proposal_commit (lit "commit_kind");
  require_equal commit_kind (lit "checkpoint");;
  require_single_parent proposal_commit (decision_head authority);;
  require_exact_protected_controls (decision_head authority) (proposal_head authority);;
  require_ai_proposal_chain (proposal_head authority) (proposal_ref_name authority) proposal_commit
    (authenticated_human_id authority) (authorized_project_id authority) (decision_ref_name authority)
    (decision_head authority) (policy_record_oid authority);;
  require_snapshot_retains_base_non_tree (proposal_head authority) (decision_head authority).

(** The candidate decision Commit and its feedback: the disposition. *)
Definition require_decision (update : HumanDecisionUpdate) (base_commit proposal_commit decision_commit feedback : Value)
  : presult DecisionDisposition :=
  commit_kind ← require_string decision_commit (lit "commit_kind");
  require_equal commit_kind (lit "decision");;
  require_single_parent decision_commit (decision_head authority);;
  author ← require_string decision_commit (lit "author_ref");
  require_equal author (authenticated_human_id authority);;
  require_exact_transition decision_commit (hd_decision_feedback_oid update);;
  bound_declarations ← require_array decision_commit (lit "bound_declaration_refs");
  denied_if (negb (bool_decide (bound_declarations = [])));;
  asserted_by ← require_string feedback (lit "asserted_by");
  require_equal asserted_by (authenticated_human_id authority);;
  origin ← require_string feedback (lit "origin");
  require_equal origin (lit "self_declared");;
  feedback_payload ← require_object feedback (lit "payload");
  proposal_ref ← require_string feedback_payload (lit "proposal_ref");
  require_equal proposal_ref (proposal_head authority);;
  disposition_text ← require_string feedback_payload (lit "disposition");
  disposition ← disposition_parse disposition_text;
  require_disposition_snapshot base_commit proposal_commit decision_commit disposition;;
  require_snapshot_retains_base_non_tree (hd_new_head update) (decision_head authority);;
  require_exact_protected_controls (decision_head authority) (hd_new_head update);;
  Ok disposition.

(** Everything [publish_decision] does before the Ref transaction: the verifier, the time
    and the disposition. *)
Definition authorize_decision (update : HumanDecisionUpdate) (now : option Z)
  : presult (PreparedClosureVerifier (S := S) * Z * DecisionDisposition) :=
  closure_verifier ← prepare_decision update;
  base_commit ← load_structured (decision_head authority) Commit;
  proposal_commit ← load_structured (proposal_head authority) Commit;
  decision_commit ← load_structured (hd_new_head update) Commit;
  feedback ← load_record (hd_decision_feedback_oid update) (lit "decision_feedback");
  human_actor ← load_record (human_actor_record_oid authority) (lit "actor");
  policy ← load_record (policy_record_oid authority) (lit "policy");
  require_reviewer human_actor policy;;
  require_proposal proposal_commit;;
  disposition ← require_decision update base_commit proposal_commit decision_commit feedback;
  evaluated_at ← ok_or now RepoClock;
  reject_if (negb (in_i64 evaluated_at)) RepoClock;;
  Ok (closure_verifier, evaluated_at, disposition).

(** The guard the Ref transaction runs first. *)
Definition decision_guard (evaluated_at : Z) (transaction_now : option Z) : result str unit :=
  now ← ok_or transaction_now (lit "storage_error");
  if now <? evaluated_at then Err (lit "storage_error") else Ok tt.

Definition publish_decision (update : HumanDecisionUpdate) (now transaction_now : option Z)
  : Repository S * presult HumanDecisionReceipt :=
  match authorize_decision update now with
  | Err e => (repository, Err e)
  | Ok (closure_verifier, evaluated_at, disposition) =>
    let ref_update :=
      {| u_ref_name := decision_ref_name authority; u_expected_head := Some (decision_head authority);
         u_new_head := hd_new_head update;
         u_metadata := {| md_occurred_at := evaluated_at; md_actor := Some (authenticated_human_id authority);
                          md_message := hd_message update |} |} in
    let proposal_precondition :=
      {| pre_ref_name := proposal_ref_name authority; pre_expected_head := Some (proposal_head authority) |} in
    let '(store, entry) :=
      compare_and_swap_with_preconditions_and_guard ref_update [proposal_precondition]
        (validate_prepared_head closure_verifier) (decision_guard evaluated_at transaction_now) (refs repository) in
    (set_refs repository store,
     reflog ← of_refs entry;
     Ok {| rc_reflog := reflog; rc_human_actor_record_oid := human_actor_record_oid authority;
           rc_policy_record_oid := policy_record_oid authority; rc_proposal_commit_oid := proposal_head authority;
           rc_decision_feedback_oid := hd_decision_feedback_oid update; rc_disposition := disposition |})
  end.
End Decision.
