(* ===== verification/HumanDecisionFacts.v ===== *)
(** * Human decisions: what the checks establish, and that their loops end *)

From stdpp Require Import base list numbers strings gmap sets relations.
From Stdlib Require Import ZArith Lia.
From S2P Require Import Prelude Text RefStore Canonical CanonicalLaws Oid Registry ObjectStore Closure Repository Policy Binding.
From S2P Require Import BindingFacts HumanDecision.

#[local] Open Scope Z_scope.

(** Two equations for the same computation. *)
Ltac same_result :=
  repeat match goal with
  | H : ?t = Ok ?a, H' : ?t = Ok ?b |- _ => assert (a = b) by congruence; subst; clear H'
  end; simplify_eq.

(** ** Values *)

Lemma sole_string_true values s : sole_string values s = true <-> values = [Str s].
Proof.
  unfold sole_string. destruct values as [|v [|w values]]; [done| |done]. rewrite bool_decide_eq_true.
  split; [|by intros [= ->]]. destruct v; intros [=]; by subst.
Qed.

Lemma single_parent_Ok commit parent u :
  require_single_parent commit parent = Ok u -> get commit (lit "parents") = Some (Arr [Str parent]).
Proof.
  unfold require_single_parent. intros Hp. auth_inv. destruct (sole_string _ _) eqn:E; [|done].
  by apply sole_string_true in E as ->.
Qed.

Lemma exact_transition_Ok commit oid u :
  require_exact_transition commit oid = Ok u -> get commit (lit "transition_refs") = Some (Arr [Str oid]).
Proof.
  unfold require_exact_transition. intros Hp. auth_inv. destruct (sole_string _ _) eqn:E; [|done].
  by apply sole_string_true in E as ->.
Qed.

Lemma ref_namespace_Ok ref_name expected u : require_ref_namespace ref_name expected = Ok u -> namespace ref_name = Some expected.
Proof.
  unfold require_ref_namespace, namespace. intros Hn. auth_inv. case_bool_decide as E; [|done].
  by destruct (split_on 47 ref_name).
Qed.

Lemma require_fields_Ok value fields u :
  require_fields value fields = Ok u -> Forall (fun '(field, expected) => get_str value field = Some expected) fields.
Proof.
  unfold require_fields. rewrite for_each_Ok. intros HF. eapply Forall_impl; [exact HF|]. cbn. intros [field expected] Hf. auth_inv. by subst.
Qed.

Lemma disposition_roundtrip text d : disposition_parse text = Ok d <-> text = disposition_as_str d.
Proof.
  split.
  - unfold disposition_parse. intros Hp. repeat case_match; simplify_eq;
      match goal with H : str_eqb _ _ = true |- _ => by apply str_eqb_eq in H end.
  - intros ->. by destruct d.
Qed.

(** ** The Policy of a human publication *)

(** The rule is about publishing, with this selector. *)
Definition publish_rule (rule : Value) : Prop := get_str rule (lit "action") = Some (lit "publish").

Definition applies (rule : Value) (decision_ref : str) : Prop :=
  exists selector, get_str rule (lit "resource_selector") = Some selector /\ selector_matches selector decision_ref = true.

(** A matching rule that lets the human through. *)
Definition lets_through (rule : Value) : Prop :=
  get rule (lit "condition_text") = None /\
  (get_str rule (lit "effect") = Some (lit "allow") \/
   get_str rule (lit "effect") = Some (lit "require_human_gate") /\
   get_str rule (lit "human_gate") = Some (lit "before_decision_ref")).

Definition permits_publish (payload : Value) (decision_ref : str) : Prop :=
  exists rules, get payload (lit "rules") = Some (Arr rules) /\
  (forall rule, rule ∈ rules -> publish_rule rule ->
     (exists selector, get_str rule (lit "resource_selector") = Some selector /\ selector_supported selector = true) /\
     (applies rule decision_ref -> lets_through rule)) /\
  ((exists rule, rule ∈ rules /\ publish_rule rule /\ applies rule decision_ref) \/
   get_str payload (lit "default_effect") = Some (lit "allow")).

(** What one rule contributes, when it can be evaluated at all. *)
Lemma publish_rule_effect_Ok decision_ref rule e :
  publish_rule_effect decision_ref rule = Ok e ->
  (publish_rule rule -> exists selector, get_str rule (lit "resource_selector") = Some selector /\ selector_supported selector = true) /\
  (is_Some e <-> publish_rule rule /\ applies rule decision_ref) /\
  (forall x, e = Some x -> (x = EffectAllow \/ x = SatisfiedDecisionGate <-> lets_through rule)).
Proof.
  unfold publish_rule_effect, publish_rule, applies, lets_through. destruct (bool_decide _) eqn:Ha; cbn [negb].
  2: { intros [= <-]. bool_props. split_and!; [done| |done]. split; [by intros [? ?]|by intros [? _]]. }
  bool_props. intros Hr. auth_inv.
  match goal with H : get_str rule (lit "resource_selector") = Some ?s |- _ => rename s into selector; rename H into Hs end.
  destruct (selector_supported selector) eqn:Hsup; cbn [negb] in Hr; [|done]. split; [by eauto|].
  destruct (selector_matches selector decision_ref) eqn:Hm; cbn [negb] in Hr.
  2: { simplify_eq. split; [|done]. split; [by intros [? ?]|]. intros (_ & s & Hs' & Hm'). congruence. }
  case_bool_decide as Hc; [done|]. apply eq_None_not_Some in Hc. auth_inv.
  match goal with H : get_str rule (lit "effect") = Some ?x |- _ => rename x into effect; rename H into He end.
  rewrite He, Hc. repeat case_match; simplify_eq; bool_props;
    repeat match goal with H : str_eqb _ _ = true |- _ => apply str_eqb_eq in H; subst end;
    (split; [split; [by eauto|done]|]); intros x [= <-]; split; try naive_solver;
    intros (_ & [[=]|[[=] Hg]]); by rewrite Hg in *.
Qed.

Lemma publish_effects_from decision_ref rules : forall effects acc,
  fold_each (fun effects rule => effect ← publish_rule_effect decision_ref rule;
    Ok (match effect with Some e => e :: effects | None => effects end)) acc rules = Ok effects <->
  exists es, Forall2 (fun rule e => publish_rule_effect decision_ref rule = Ok e) rules es /\
    effects = rev (omap (fun e => e) es) ++ acc.
Proof.
  induction rules as [|rule rules IH]; intros effects acc; cbn [fold_each].
  - split; [intros [= <-]; by exists []|]. by intros (es & HF%Forall2_nil_inv_l & ->); subst.
  - split.
    + intros Hr. auth_inv. rename x0 into e. apply IH in Hr as (es & HF & ->). exists (e :: es). split; [by constructor|].
      destruct e; cbn; [by rewrite <- app_assoc|done].
    + intros (es & HF & ->). apply Forall2_cons_inv_l in HF as (e & es' & He & HF & ->). rewrite He. cbn.
      apply IH. exists es'. split; [done|]. destruct e; cbn; [by rewrite <- app_assoc|done].
Qed.

Lemma publish_rule_evaluates decision_ref rule :
  (publish_rule rule ->
     (exists selector, get_str rule (lit "resource_selector") = Some selector /\ selector_supported selector = true) /\
     (applies rule decision_ref -> lets_through rule)) ->
  exists e, publish_rule_effect decision_ref rule = Ok e.
Proof.
  intros Hr. unfold publish_rule_effect. destruct (bool_decide _) eqn:Ha; cbn [negb]; [|by eexists]. bool_props.
  destruct (Hr Ha) as [(selector & Hs & Hsup) Happ]. rewrite (proj2 (require_string_Ok _ _ _) Hs). cbn. rewrite Hsup. cbn.
  destruct (selector_matches selector decision_ref) eqn:Hm; cbn; [|by eexists].
  destruct Happ as [-> He]; [by exists selector|]. cbn.
  destruct He as [He|[He Hg]]; rewrite (proj2 (require_string_Ok _ _ _) He); cbn; rewrite ?Hg; by eexists.
Qed.

Lemma effects_elem es x : x ∈ rev (omap (fun e => e) es) ++ [] <-> (Some x : option EvaluatedPolicyEffect) ∈ es.
Proof.
  rewrite app_nil_r, elem_of_rev, list_elem_of_omap. split; [by intros (? & ? & ->)|]. intros ?. by exists (Some x).
Qed.

(** The human Policy in terms of its rules. *)
Lemma authorize_permits payload decision_ref :
  authorize_human_publish payload decision_ref = Ok tt -> permits_publish payload decision_ref.
Proof.
  intros Ha. unfold authorize_human_publish in Ha. auth_inv.
  match goal with H : publish_effects _ _ = _ |- _ => apply publish_effects_from in H as (es & HF & ->) end.
  eexists. split_and!; [done|..].
  + intros rule Hin Hp. destruct (Forall2_elem_l _ _ _ _ HF Hin) as (e & He & Hre).
    apply publish_rule_effect_Ok in Hre as (Hs & Hsome & Hl). split; [by apply Hs|]. intros Happ.
    destruct (proj2 Hsome (conj Hp Happ)) as [effect ->]. apply (Hl effect); [done|].
    rewrite <- effects_elem in He. destruct effect; [by left|by right|..];
      repeat (case_bool_decide; try done).
  + case_bool_decide; [done|]. case_bool_decide; [done|].
    destruct (bool_decide _ || bool_decide _) eqn:Hb.
    * left. assert (exists x, x ∈ rev (omap (fun e => e) es) ++ []) as [effect Hx].
      { apply orb_true_iff in Hb as [Hb|Hb]; apply bool_decide_eq_true in Hb; by eexists. }
      apply effects_elem in Hx. destruct (Forall2_elem_r _ _ _ _ HF Hx) as (rule & Hin & Hre).
      exists rule. split; [done|]. apply publish_rule_effect_Ok in Hre as (_ & Hsome & _). by apply Hsome.
    * right. auth_inv. destruct (str_eqb _ _) eqn:E; [|done]. by apply str_eqb_eq in E as ->.
Qed.

Lemma permits_authorize payload decision_ref :
  permits_publish payload decision_ref -> authorize_human_publish payload decision_ref = Ok tt.
Proof.
  intros (rules & Hr & Hall & Hsome). unfold authorize_human_publish. rewrite (proj2 (require_array_Ok _ _ _) Hr). cbn.
  assert (exists es, Forall2 (fun rule e => publish_rule_effect decision_ref rule = Ok e) rules es) as [es HF].
  { clear Hr Hsome. induction rules as [|rule rules IH]; [by exists []|].
    destruct (publish_rule_evaluates decision_ref rule) as [e He]; [apply Hall; by left|].
    destruct IH as [es HF]; [intros r Hin; apply Hall; by right|]. exists (e :: es). by constructor. }
  assert (publish_effects decision_ref rules = Ok (rev (omap (fun e => e) es) ++ [])) as -> by (apply publish_effects_from; by exists es).
  cbn [mbind result_bind].
  assert (forall x, x ∈ rev (omap (fun e => e) es) ++ [] -> x = EffectAllow \/ x = SatisfiedDecisionGate) as Hx.
  { intros x Hx%effects_elem. destruct (Forall2_elem_r _ _ _ _ HF Hx) as (rule & Hin & Hre).
    apply publish_rule_effect_Ok in Hre as (_ & Hs & Hl). destruct (proj1 Hs) as [Hp Happ]; [by eexists|].
    apply (Hl x eq_refl). by apply Hall. }
  rewrite (bool_decide_eq_false_2 (EffectDeny ∈ _)) by (intros [|]%Hx; done).
  rewrite (bool_decide_eq_false_2 (UnsatisfiedHumanGate ∈ _)) by (intros [|]%Hx; done).
  destruct Hsome as [(rule & Hin & Hp & Happ)|Hd].
  + destruct (Forall2_elem_l _ _ _ _ HF Hin) as (e & He & Hre). apply publish_rule_effect_Ok in Hre as (_ & Hs & _).
    destruct (proj2 Hs (conj Hp Happ)) as [x ->]. rewrite <- effects_elem in He.
    destruct (Hx x He) as [->| ->]; rewrite (bool_decide_eq_true_2 _ He), ?orb_true_r; done.
  + destruct (_ || _); [done|]. rewrite (proj2 (require_string_Ok _ _ _) Hd). done.
Qed.

Section Facts.
Context {S : Type} `{BoundedObjectStore S}.
Variable nfc : list char -> list char.
Variable json_pointer : Json -> str -> option (list nat).
Variable registry : SchemaRegistry.
Variable repository : Repository S.

#[local] Abbreviation load_record := (load_record nfc json_pointer registry repository).
#[local] Abbreviation load_structured := (load_structured nfc json_pointer registry repository).
#[local] Abbreviation snapshot_object_set := (snapshot_object_set nfc json_pointer registry repository).

(** ** Snapshots *)

(** A Record that steers authority: an Actor, a Policy, a Grant or a Tombstone. *)
Definition control_record (x : str) : Prop :=
  exists record record_type, load_structured x Record = Ok record /\
    get_str record (lit "record_type") = Some record_type /\ is_protected_control record_type = true.

Lemma load_structured_kind oid kind v : load_structured oid kind = Ok v -> parse_oid oid = Ok kind.
Proof. unfold Binding.load_structured. intros Hl. auth_inv. bool_props. by subst. Qed.

Lemma controls_from oids : forall acc controls : gset str,
  fold_each (fun controls oid =>
    kind ← of_core (parse_oid oid);
    if negb (bool_decide (kind = Record)) then Ok controls
    else
      record ← load_structured oid Record;
      record_type ← require_string record (lit "record_type");
      Ok (if is_protected_control record_type then {[oid]} ∪ controls else controls)) acc oids = Ok controls ->
  forall x, x ∈ controls <-> x ∈ acc \/ x ∈ oids /\ control_record x.
Proof.
  induction oids as [|oid oids IH]; intros acc controls Hf x; cbn [fold_each] in Hf.
  - simplify_eq. rewrite elem_of_nil. tauto.
  - apply bind_Ok in Hf as (acc' & Ha & Hf). rewrite (IH _ _ Hf x), elem_of_cons. auth_inv.
    assert (x ∈ acc' <-> x ∈ acc \/ x = oid /\ control_record oid) as ->; [|naive_solver].
    unfold control_record. destruct (bool_decide _) eqn:Hk; cbn [negb] in Ha.
    + auth_inv. destruct (is_protected_control _) eqn:Hc; [set_solver|].
      split; [by left|]. intros [|(_ & r & t & Hl & Ht & Hp)]; [done|]. congruence.
    + simplify_eq. bool_props. split; [by left|]. intros [|(_ & r & t & Hl%load_structured_kind & _)]; [done|]. congruence.
Qed.

Lemma protected_control_set_Ok commit controls :
  protected_control_set nfc json_pointer registry repository commit = Ok controls ->
  exists snapshot, snapshot_object_set commit = Ok snapshot /\ forall x, x ∈ controls <-> x ∈ snapshot /\ control_record x.
Proof.
  unfold protected_control_set. intros Hp. apply bind_Ok in Hp as (snapshot & Hs & Hf). exists snapshot. split; [done|].
  intros x. rewrite (controls_from _ _ _ Hf x), sorted_set_elem. set_solver.
Qed.

(** Two snapshots bind the same controls, and the second keeps what the first holds. *)
Definition same_controls (a b : gset str) : Prop := forall x, control_record x -> x ∈ a <-> x ∈ b.
Definition keeps (a b : gset str) : Prop := forall x, x ∈ a -> parse_oid x <> Ok Tree -> x ∈ b.

Lemma exact_controls_Ok base candidate u :
  require_exact_protected_controls nfc json_pointer registry repository base candidate = Ok u ->
  exists a b, snapshot_object_set base = Ok a /\ snapshot_object_set candidate = Ok b /\ same_controls a b.
Proof.
  unfold require_exact_protected_controls. intros Hp. auth_inv. case_bool_decide as E; [|done]. subst.
  repeat match goal with H : protected_control_set _ _ _ _ _ = _ |- _ => apply protected_control_set_Ok in H as (? & ? & ?) end.
  do 2 eexists. split_and!; [done..|]. intros oid Hoid. naive_solver.
Qed.

Lemma retains_Ok candidate base u :
  require_snapshot_retains_base_non_tree nfc json_pointer registry repository candidate base = Ok u ->
  exists a b, snapshot_object_set base = Ok a /\ snapshot_object_set candidate = Ok b /\ keeps a b.
Proof.
  unfold require_snapshot_retains_base_non_tree. intros Hr. auth_inv. do 2 eexists. split_and!; [done..|].
  intros oid Hx%sorted_set_elem Hk. rewrite Forall_forall in Hr. specialize (Hr oid Hx). cbn in Hr. auth_inv.
  case_bool_decide; [congruence|]. by case_bool_decide.
Qed.

(** ** Ancestry *)

Definition parent_of (c p : str) : Prop :=
  exists commit parents, load_structured c Commit = Ok commit /\ get commit (lit "parents") = Some (Arr parents) /\ Str p ∈ parents.

(** A Commit binds feedback on the proposal. *)
Definition decided_in (proposal c : str) : Prop :=
  exists commit transitions oid record, load_structured c Commit = Ok commit /\
    get commit (lit "transition_refs") = Some (Arr transitions) /\ Str oid ∈ transitions /\
    load_structured oid Record = Ok record /\ decides record proposal = true.

Lemma undecided_Ok proposal transitions : forall edges edges',
  undecided_transitions nfc json_pointer registry repository proposal edges transitions = Ok edges' ->
  (forall oid record, Str oid ∈ transitions -> load_structured oid Record = Ok record -> decides record proposal = false) /\
  edges <= edges'.
Proof.
  induction transitions as [|t transitions IH]; intros edges edges' Hu; cbn [undecided_transitions fold_each] in Hu.
  - simplify_eq. split; [by intros ? ? ?%elem_of_nil|done].
  - apply bind_Ok in Hu as (e & Ha & Hf). apply IH in Hf as [Hf He]. unfold count_edge in Ha. auth_inv. split.
    + intros oid record [<-|Hin]%elem_of_cons Hl; [|by eapply Hf]. cbn in Ha. auth_inv. congruence.
    + destruct (as_str t); auth_inv; subst; lia.
Qed.

Lemma push_ancestors_Ok depth parents : forall pending edges pending' edges',
  push_ancestors repository depth pending edges parents = Ok (pending', edges') ->
  (forall p, p ∈ map fst pending' <-> Str p ∈ parents \/ p ∈ map fst pending) /\
  edges' = edges + len parents /\ (length pending' = length pending + length parents)%nat /\
  (parents <> [] -> edges' <= max_edges (graph_limits repository)).
Proof.
  induction parents as [|parent parents IH]; intros pending edges pending' edges' Hu; cbn [push_ancestors fold_each] in Hu.
  - simplify_eq. split_and!; [|rewrite len_nil; lia|cbn; lia|done]. intros p. rewrite elem_of_nil. tauto.
  - apply bind_Ok in Hu as ([q e] & Ha & Hf). apply IH in Hf as (Hp & -> & Hl & Hle). unfold count_edge in Ha. auth_inv. subst.
    bool_props. rewrite len_cons. cbn [length] in *. split_and!; [|lia|lia|].
    + intros p. rewrite Hp. cbn [map]. rewrite !elem_of_cons.
      match goal with H : as_str _ = Some _ |- _ => rename H into Hs end.
      destruct parent; simplify_eq/=. naive_solver.
    + intros _. destruct parents; [rewrite len_nil; lia|]. by apply Hle.
Qed.

(** Every Commit in the ancestry of the base is undecided when the check passes. *)
Lemma ancestry_loop_Ok proposal fuel : forall visited pending edges u,
  ancestry_loop nfc json_pointer registry repository fuel proposal visited pending edges = Ok u ->
  (forall c p, c ∈ visited -> parent_of c p -> p ∈ visited \/ p ∈ map fst pending) ->
  (forall c, c ∈ visited -> ~ decided_in proposal c) ->
  forall b c, b ∈ visited \/ b ∈ map fst pending -> rtc parent_of b c -> ~ decided_in proposal c.
Proof.
  induction fuel as [|fuel IH]; intros visited [|[oid depth] pending] edges u Hl Hp Hd b c Hb Hbc; cbn [ancestry_loop] in Hl; try done.
  1,2: assert (b ∈ visited) as Hbv by (destruct Hb as [|?%elem_of_nil]; done); clear Hb;
    induction Hbc as [b|b b' c Hbb' _ IHc]; [by apply Hd|]; apply IHc;
    destruct (Hp _ _ Hbv Hbb') as [|?%elem_of_nil]; done.
  case_bool_decide as Hin.
  - eapply IH; [exact Hl| |exact Hd| |exact Hbc]; cbn [map fst] in *.
    + intros x y Hx Hxy. destruct (Hp x y Hx Hxy) as [|[->|]%elem_of_cons]; auto.
    + destruct Hb as [|[->|]%elem_of_cons]; auto.
  - auth_inv. match goal with H : undecided_transitions _ _ _ _ _ _ _ = _ |- _ => apply undecided_Ok in H as [Hund _] end.
    match goal with H : push_ancestors _ _ _ _ _ = _ |- _ => apply push_ancestors_Ok in H as (Hpush & _) end.
    eapply IH; [exact Hl| | |destruct Hb as [|[->|]%elem_of_cons]|exact Hbc]; cbn [map fst] in *.
    + intros a y Hx Hxy. rewrite Hpush. apply elem_of_union in Hx as [->%elem_of_singleton|Hx].
      * destruct Hxy as (commit & parents & Hc & Hps & Hy). same_result. right. by left.
      * destruct (Hp a y Hx Hxy) as [|[->|]%elem_of_cons]; [set_solver..|]. right. by right.
    + intros a Hx. apply elem_of_union in Hx as [->%elem_of_singleton|Hx]; [|by apply Hd].
      intros (commit & transitions & t & record & Hc & Ht & Htin & Hr & Hdec). same_result.
      rewrite (Hund _ _ Htin Hr) in Hdec. done.
    + set_solver.
    + set_solver.
    + right. apply Hpush. by right.
Qed.

Lemma not_previously_decided_Ok base proposal u c :
  require_proposal_not_previously_decided nfc json_pointer registry repository base proposal = Ok u ->
  rtc parent_of base c -> ~ decided_in proposal c.
Proof.
  intros Hr Hc. eapply ancestry_loop_Ok; [exact Hr| | | |exact Hc]; [set_solver..|]. right. by left.
Qed.

(** ** Every loop ends *)

Lemma answers_undecided proposal edges transitions :
  answers (undecided_transitions nfc json_pointer registry repository proposal edges transitions).
Proof.
  unfold undecided_transitions, count_edge, resource_limit_error. repeat (apply answers_load_structured || answers_step).
Qed.

Lemma answers_push_ancestors depth pending edges parents : answers (push_ancestors repository depth pending edges parents).
Proof.
  unfold push_ancestors, count_edge, resource_limit_error. apply answers_fold_each. intros [pending' edges'] parent _. answers_auto.
Qed.

Lemma answers_ancestry proposal fuel : forall visited pending edges,
  (length pending + Z.to_nat (max_edges (graph_limits repository) - edges) <= fuel)%nat ->
  answers (ancestry_loop nfc json_pointer registry repository fuel proposal visited pending edges).
Proof.
  induction fuel as [|fuel IH]; intros visited [|[oid depth] pending] edges Hf; cbn [ancestry_loop length] in *;
    try apply answers_Ok; [lia|].
  case_bool_decide; [apply IH; lia|]. unfold resource_limit_error. cbv zeta.
  apply answers_bind; [answers_step|intros _ _]. apply answers_bind; [apply answers_load_structured|intros commit _].
  apply answers_bind; [answers_auto|intros transitions _].
  apply answers_bind; [apply answers_undecided|intros edges' [_ He]%undecided_Ok].
  apply answers_bind; [answers_auto|intros parents _].
  apply answers_bind; [apply answers_push_ancestors|intros [pending' edges''] (_ & -> & Hl & Hle)%push_ancestors_Ok].
  apply IH. unfold len in *. destruct parents; cbn [length] in *; [lia|]. specialize (Hle ltac:(done)). lia.
Qed.

Lemma answers_controls base candidate :
  answers (require_exact_protected_controls nfc json_pointer registry repository base candidate).
Proof.
  unfold require_exact_protected_controls, protected_control_set.
  repeat (apply answers_snapshot_object_set || apply answers_load_structured || answers_step).
Qed.

Lemma answers_retains candidate base :
  answers (require_snapshot_retains_base_non_tree nfc json_pointer registry repository candidate base).
Proof. unfold require_snapshot_retains_base_non_tree. repeat (apply answers_snapshot_object_set || answers_step). Qed.

Lemma answers_human_publish payload decision_ref : answers (authorize_human_publish payload decision_ref).
Proof. unfold authorize_human_publish, publish_effects, publish_rule_effect. answers_auto. Qed.

Lemma answers_chain proposal_oid proposal_ref proposal human project decision_ref head policy :
  answers (require_ai_proposal_chain nfc json_pointer registry repository proposal_oid proposal_ref proposal human project
             decision_ref head policy).
Proof.
  unfold require_ai_proposal_chain, require_ai_activity, require_proposal_context, require_proposal_grant, require_fields,
    require_role_actor, require_role_oid, require_project_resource, require_writable_prefix.
  repeat (apply answers_load_record || apply answers_present_oid_array || apply answers_snapshot_object_set ||
    apply answers_activity_references || apply answers_output_binding || answers_step).
Qed.

Lemma answers_authorize_decision authority update now :
  answers (authorize_decision nfc json_pointer registry repository authority update now).
Proof.
  unfold authorize_decision, prepare_decision, require_reviewer, require_proposal, require_decision, require_ref_namespace,
    require_commit_oid, require_oid_kind, require_human_actor, require_base_authority_bindings, require_single_parent,
    require_exact_transition, disposition_parse, require_disposition_snapshot.
  repeat (apply answers_load_record || apply answers_load_structured || apply answers_snapshot_object_set ||
    apply answers_controls || apply answers_retains || apply answers_human_publish || apply answers_chain ||
    (apply answers_ancestry; cbn [length]; lia) || (apply answers_ok_or; by intros ? ?) ||
    (apply answers_reject; by intros ? ?) || answers_step).
Qed.
End Facts.
