(* ===== verification/HumanDecisionProps.v ===== *)
(** * Human decisions: a concrete decision and the properties *)

From stdpp Require Import base list numbers strings gmap sets relations.
From Stdlib Require Import ZArith Lia.
From S2P Require Import AuthorizationFacts Prelude Text RefStore RefStoreProps Canonical CanonicalProps Oid Registry RegistryProps.
From S2P Require Import ObjectStore Closure Repository Policy Binding BindingFacts Authorization AuthorizationSample HumanDecision.
From S2P Require Import HumanDecisionFacts.

#[local] Open Scope Z_scope.

(** ** A decision on the published proposal

    Continues AuthorizationSample: the human of that run adopts the proposal it published. *)

Definition feedback_oid : str := oid_of Record 98.
Definition adopted_oid : str := oid_of Commit 99.

Definition feedback_value : Value :=
  record_value (lit "decision_feedback") human_id [(lit "origin", Str (lit "self_declared"))]
    [(lit "proposal_ref", Str candidate_oid); (lit "disposition", Str (lit "adopted_unchanged"))].

Definition review_objects : MemoryStore :=
  run_objects ++
  [stored_value feedback_oid Record 200 feedback_value;
   stored_value adopted_oid Commit 250 (commit_value (lit "decision") human_id candidate_tree_oid [base_oid] [feedback_oid])].

(** The Refs as the publication of the proposal left them. *)
Definition review_refs : SqliteRefStore := refs run_outcome.1.

Lemma review_refs_reachable : reachable review_refs.
Proof. apply publish_reachable, base_refs_reachable. Qed.

Definition review_repository : Repository MemoryStore :=
  {| objects := review_objects; refs := review_refs; graph_limits := graph_limits run_repository;
     tombstone_scan_limits := tombstone_scan_limits run_repository; repo_read_only := false |}.

Definition review_authority : HumanDecisionAuthority :=
  {| authenticated_human_id := human_id; authorized_project_id := project; decision_ref_name := lit "decision/main";
     decision_head := base_oid; proposal_ref_name := lit "proposal/ai/run-1"; proposal_head := candidate_oid;
     human_actor_record_oid := human_actor_oid; policy_record_oid := policy_oid |}.

Definition review_update : HumanDecisionUpdate :=
  {| hd_new_head := adopted_oid; hd_decision_feedback_oid := feedback_oid; hd_message := None |}.

Definition review_now : option Z := Some 1704844802000000000.
Definition review_commit_now : option Z := Some 1704844803000000000.

Definition review_outcome : Repository MemoryStore * presult HumanDecisionReceipt :=
  publish_decision nfc_id no_pointer open_registry review_repository review_authority review_update review_now review_commit_now.

Definition no_receipt : HumanDecisionReceipt :=
  {| rc_reflog := event_row 0 [] None [] sample_md; rc_human_actor_record_oid := []; rc_policy_record_oid := [];
     rc_proposal_commit_oid := []; rc_decision_feedback_oid := []; rc_disposition := Rejected |}.

Definition receipt_of (outcome : Repository MemoryStore * presult HumanDecisionReceipt) : HumanDecisionReceipt :=
  match outcome.2 with Ok d => d | Err _ => no_receipt end.

Definition review_receipt : HumanDecisionReceipt := receipt_of review_outcome.

Lemma receipt_of_ok outcome : is_ok outcome.2 = true -> outcome = (outcome.1, Ok (receipt_of outcome)).
Proof. by destruct outcome as [r [d|e]]. Qed.

Lemma review_ok : is_ok review_outcome.2 = true.
Proof. vm_cast_no_check (eq_refl true). Qed.

Lemma review_published :
  publish_decision nfc_id no_pointer open_registry review_repository review_authority review_update review_now review_commit_now
  = (review_outcome.1, Ok review_receipt).
Proof. exact (receipt_of_ok review_outcome review_ok). Qed.

(** ** Human decisions: the properties *)

Section Publish.
Context {S : Type} `{BoundedObjectStore S}.
Variable nfc : list char -> list char.
Variable json_pointer : Json -> str -> option (list nat).
Variable registry : SchemaRegistry.
Variable repository : Repository S.
Variable authority : HumanDecisionAuthority.

#[local] Abbreviation load_record := (load_record nfc json_pointer registry repository).
#[local] Abbreviation load_structured := (load_structured nfc json_pointer registry repository).
#[local] Abbreviation snapshot_object_set := (snapshot_object_set nfc json_pointer registry repository).
#[local] Abbreviation same_controls := (same_controls nfc json_pointer registry repository).

(** The human who decides: a self-asserted human Actor and a Policy of theirs that covers the
    project and permits publishing, both bound in the canonical snapshot. *)
Record reviewer : Prop := {
  rv_actor : exists actor payload, load_record (human_actor_record_oid authority) (lit "actor") = Ok actor /\
    get_str actor (lit "entity_id") = Some (authenticated_human_id authority) /\
    get_str actor (lit "asserted_by") = Some (authenticated_human_id authority) /\
    get actor (lit "payload") = Some payload /\ get_str payload (lit "actor_kind") = Some (lit "human");
  rv_policy : exists policy payload, load_record (policy_record_oid authority) (lit "policy") = Ok policy /\
    get_str policy (lit "asserted_by") = Some (authenticated_human_id authority) /\
    get policy (lit "payload") = Some payload /\
    (exists scopes, get payload (lit "scope_refs") = Some (Arr scopes) /\ Str (authorized_project_id authority) ∈ scopes) /\
    permits_publish payload (decision_ref_name authority);
  rv_bound : exists snapshot, snapshot_object_set (decision_head authority) = Ok snapshot /\
    human_actor_record_oid authority ∈ snapshot /\ policy_record_oid authority ∈ snapshot;
}.

(** The feedback: the human's own, on this proposal, with a disposition. *)
Definition feedback_on (feedback_oid : str) (disposition : DecisionDisposition) : Prop :=
  exists feedback payload, load_record feedback_oid (lit "decision_feedback") = Ok feedback /\
    get_str feedback (lit "asserted_by") = Some (authenticated_human_id authority) /\
    get_str feedback (lit "origin") = Some (lit "self_declared") /\
    get feedback (lit "payload") = Some payload /\
    get_str payload (lit "proposal_ref") = Some (proposal_head authority) /\
    get_str payload (lit "disposition") = Some (disposition_as_str disposition).

(** The Commit continues the canonical head by exactly that feedback. *)
Definition decision_commit_of (new_head feedback_oid : str) (commit : Value) : Prop :=
  load_structured new_head Commit = Ok commit /\
  get_str commit (lit "commit_kind") = Some (lit "decision") /\
  get_str commit (lit "author_ref") = Some (authenticated_human_id authority) /\
  get commit (lit "parents") = Some (Arr [Str (decision_head authority)]) /\
  get commit (lit "transition_refs") = Some (Arr [Str feedback_oid]) /\
  get commit (lit "bound_declaration_refs") = Some (Arr []).

(** What a disposition does to the snapshot: adoption takes the proposal's, every other
    admitted disposition keeps the base's. *)
Definition disposes (d : DecisionDisposition) (base proposal decision : Value) : Prop :=
  match d with
  | AdoptedUnchanged => get_str decision (lit "snapshot") = get_str proposal (lit "snapshot")
  | Rejected | Deferred | ExperimentOnly => get_str decision (lit "snapshot") = get_str base (lit "snapshot")
  | AdoptedModified | PartiallyAdopted => False
  end.

(** Everything checked before the Ref transaction. *)
Record admitted (update : HumanDecisionUpdate) (disposition : DecisionDisposition) : Prop := {
  ad_reviewer : reviewer;
  ad_feedback : feedback_on (hd_decision_feedback_oid update) disposition;
  ad_snapshots : exists base proposal decision a b c,
    load_structured (decision_head authority) Commit = Ok base /\ load_structured (proposal_head authority) Commit = Ok proposal /\
    get proposal (lit "parents") = Some (Arr [Str (decision_head authority)]) /\
    decision_commit_of (hd_new_head update) (hd_decision_feedback_oid update) decision /\
    disposes disposition base proposal decision /\
    snapshot_object_set (decision_head authority) = Ok a /\ snapshot_object_set (proposal_head authority) = Ok b /\
    snapshot_object_set (hd_new_head update) = Ok c /\
    same_controls a b /\ same_controls a c /\ keeps a b /\ keeps a c;
  ad_undecided : forall c, rtc (parent_of nfc json_pointer registry repository) (decision_head authority) c ->
    ~ decided_in nfc json_pointer registry repository (proposal_head authority) c;
  ad_names : namespace (decision_ref_name authority) = Some (lit "decision") /\
    namespace (proposal_ref_name authority) = Some (lit "proposal");
}.

Lemma reviewer_Ok actor policy u :
  load_record (human_actor_record_oid authority) (lit "actor") = Ok actor ->
  load_record (policy_record_oid authority) (lit "policy") = Ok policy ->
  require_reviewer nfc json_pointer registry repository authority actor policy = Ok u -> reviewer.
Proof.
  intros Ha Hp. unfold require_reviewer, require_human_actor, require_base_authority_bindings. intros Hr. auth_inv. object_inv.
  subst. destruct u. apply authorize_permits in Hr.
  match goal with H : Forall _ [_; _] |- _ => rewrite Forall_cons, Forall_singleton in H; destruct H as [H1 H2] end. auth_inv. bool_props.
  split; [do 2 eexists; split_and!; done| |eexists; split_and!; done].
  do 2 eexists. split_and!; done.
Qed.

Lemma disposition_snapshot_Ok base proposal decision d u :
  require_disposition_snapshot base proposal decision d = Ok u -> disposes d base proposal decision.
Proof. unfold require_disposition_snapshot. intros Hd. auth_inv. destruct d; auth_inv; subst; cbn; congruence || done. Qed.

Lemma decision_Ok update base proposal decision feedback d :
  load_structured (hd_new_head update) Commit = Ok decision ->
  load_record (hd_decision_feedback_oid update) (lit "decision_feedback") = Ok feedback ->
  require_decision nfc json_pointer registry repository authority update base proposal decision feedback = Ok d ->
  feedback_on (hd_decision_feedback_oid update) d /\
  decision_commit_of (hd_new_head update) (hd_decision_feedback_oid update) decision /\
  disposes d base proposal decision /\
  exists a c, snapshot_object_set (decision_head authority) = Ok a /\ snapshot_object_set (hd_new_head update) = Ok c /\
    same_controls a c /\ keeps a c.
Proof.
  intros Hl Hf. unfold require_decision. intros Hd. auth_inv. object_inv. subst. bool_props. subst.
  match goal with H : require_single_parent _ _ = _ |- _ => apply single_parent_Ok in H end.
  match goal with H : require_exact_transition _ _ = _ |- _ => apply exact_transition_Ok in H end.
  match goal with H : disposition_parse _ = _ |- _ => apply disposition_roundtrip in H as -> end.
  match goal with H : require_disposition_snapshot _ _ _ _ = _ |- _ => apply disposition_snapshot_Ok in H end.
  match goal with H : require_snapshot_retains_base_non_tree _ _ _ _ _ _ = _ |- _ => apply retains_Ok in H as (? & ? & ? & ? & ?) end.
  match goal with H : require_exact_protected_controls _ _ _ _ _ _ = _ |- _ => apply exact_controls_Ok in H as (? & ? & ? & ? & ?) end.
  same_result. split_and!; [|done..|].
  - do 2 eexists. by split_and!.
  - do 2 eexists. by split_and!.
Qed.

Lemma authorize_decision_Ok update now verifier evaluated_at d :
  authorize_decision nfc json_pointer registry repository authority update now = Ok (verifier, evaluated_at, d) ->
  admitted update d /\ now = Some evaluated_at.
Proof.
  unfold authorize_decision, prepare_decision, require_proposal. intros Ha. auth_inv. split; [|done].
  match goal with H : require_reviewer _ _ _ _ _ _ _ = _ |- _ => eapply reviewer_Ok in H; [|done..] end.
  match goal with H : require_decision _ _ _ _ _ _ _ _ _ _ = _ |- _ =>
    eapply decision_Ok in H as (Hf & Hc & Hdis & a & c & Hsa & Hsc & Hcc & Hkc); [|done..] end.
  match goal with H : require_single_parent _ _ = _ |- _ => apply single_parent_Ok in H end.
  match goal with H : require_snapshot_retains_base_non_tree _ _ _ _ _ _ = _ |- _ => apply retains_Ok in H as (? & ? & ? & ? & ?) end.
  match goal with H : require_exact_protected_controls _ _ _ _ _ _ = _ |- _ => apply exact_controls_Ok in H as (? & ? & ? & ? & ?) end.
  same_result. split; [done|done| | |].
  - do 6 eexists. by split_and!.
  - intros x Hx. by eapply not_previously_decided_Ok.
  - split; by eapply ref_namespace_Ok.
Qed.

#[local] Abbreviation publish := (publish_decision nfc json_pointer registry repository authority).

(** A successful decision: what was checked, and the transaction that followed. *)
Lemma publish_decision_Ok update now tnow repository' r :
  publish update now tnow = (repository', Ok r) ->
  admitted update (rc_disposition r) /\ rc_decision_feedback_oid r = hd_decision_feedback_oid update /\
  exists verifier evaluated_at,
    compare_and_swap_with_preconditions_and_guard
      {| u_ref_name := decision_ref_name authority; u_expected_head := Some (decision_head authority);
         u_new_head := hd_new_head update;
         u_metadata := {| md_occurred_at := evaluated_at; md_actor := Some (authenticated_human_id authority);
                          md_message := hd_message update |} |}
      [{| pre_ref_name := proposal_ref_name authority; pre_expected_head := Some (proposal_head authority) |}]
      (validate_prepared_head verifier) (decision_guard evaluated_at tnow) (refs repository) = (refs repository', Ok (rc_reflog r)) /\
    repository' = set_refs repository (refs repository').
Proof.
  unfold publish_decision. intros Hp. destruct (authorize_decision _ _ _ _ _ _ _) as [[[verifier at_] d]|e] eqn:Ha; [|done].
  apply authorize_decision_Ok in Ha as [Ha _]. destruct (compare_and_swap_with_preconditions_and_guard _ _ _ _ _) as [store entry] eqn:Hcas.
  injection Hp as <- Hd. auth_inv. subst. cbn. split_and!; [done..|]. exists verifier, at_. by rewrite Hcas.
Qed.

Lemma publish_decision_Err update now tnow repository' e : publish update now tnow = (repository', Err e) -> repository' = repository.
Proof.
  unfold publish_decision. intros Hp. destruct (authorize_decision _ _ _ _ _ _ _) as [[[verifier at_] d]|e'] eqn:Ha; [|by simplify_eq].
  destruct (compare_and_swap_with_preconditions_and_guard _ _ _ _ _) as [store entry] eqn:Hcas.
  injection Hp as <- Hd. destruct entry; [done|]. apply finish_Err in Hcas as [_ ->]. by destruct repository.
Qed.

Lemma publish_decision_reachable update now tnow :
  reachable (refs repository) -> reachable (refs (publish update now tnow).1).
Proof.
  intros Hr. unfold publish_decision. destruct (authorize_decision _ _ _ _ _ _ _) as [[[verifier at_] d]|e]; [|done].
  destruct (compare_and_swap_with_preconditions_and_guard _ _ _ _ _) as [store entry] eqn:Hcas.
  eapply rtc_r; [exact Hr|]. by eapply step_cas.
Qed.

(** The transaction read the clock. *)
Lemma publish_decision_clock update now tnow repository' r : publish update now tnow = (repository', Ok r) -> is_Some tnow.
Proof.
  intros (_ & _ & verifier & at_ & Hcas & _)%publish_decision_Ok. apply cas_Ok_inv in Hcas as (_ & _ & _ & _ & t & Ht & _).
  unfold cas_transaction in Ht. result_inv. unfold decision_guard in *. result_inv. by eexists.
Qed.
End Publish.

(** C13: a decision advances exactly one Ref, or nothing.  On success the [decision/] Ref goes
    from the head the human saw to the new Commit while the [proposal/] Ref still is at the
    reviewed head; one reflog entry, in the human's name, is appended; objects and all other
    Refs stay.  On any error the whole repository is as before. *)
Theorem decision_effect {S : Type} `{BoundedObjectStore S} nfc json_pointer registry (repository : Repository S) authority
    update now tnow repository' r :
  reachable (refs repository) ->
  publish_decision nfc json_pointer registry repository authority update now tnow = (repository', r) ->
  match r with
  | Ok receipt =>
    heads (tables (refs repository)) !! decision_ref_name authority = Some (decision_head authority) /\
    heads (tables (refs repository)) !! proposal_ref_name authority = Some (proposal_head authority) /\
    heads (tables (refs repository'))
      = <[decision_ref_name authority := hd_new_head update]> (heads (tables (refs repository))) /\
    t_events (tables (refs repository')) = t_events (tables (refs repository)) ++ [rc_reflog receipt] /\
    actor (rc_reflog receipt) = Some (authenticated_human_id authority) /\
    namespace (decision_ref_name authority) = Some (lit "decision") /\
    namespace (proposal_ref_name authority) = Some (lit "proposal") /\
    repository' = set_refs repository (refs repository')
  | Err _ => repository' = repository
  end.
Proof.
  intros Hw%reachable_wf Hp. destruct r as [r|e]; [|by eapply publish_decision_Err].
  apply publish_decision_Ok in Hp as (Had & _ & verifier & at_ & Hcas & Hr). destruct Had as [_ _ _ _ [Hn1 Hn2]].
  apply cas_Ok_inv in Hcas as (_ & _ & _ & _ & t & Ht & Hs).
  apply cas_transaction_Ok in Ht as (_ & Hps & Hh & _ & [= -> Hentry]); [|done].
  rewrite Forall_singleton in Hps. unfold precondition_holds in Hps. rewrite Hs. rewrite !heads_lookup.
  split_and!; [done|done| | | |done|done|by rewrite Hr at 1; rewrite Hs].
  - exact (heads_cas _ (tables (refs repository))).
  - cbn. by rewrite Hentry.
  - by rewrite Hentry.
Qed.

Lemma decision_effect_witness :
  heads (tables (refs review_repository)) !! lit "decision/main" = Some base_oid /\
  heads (tables (refs review_repository)) !! lit "proposal/ai/run-1" = Some candidate_oid /\
  heads (tables (refs review_outcome.1)) = <[lit "decision/main" := adopted_oid]> (heads (tables (refs review_repository))) /\
  t_events (tables (refs review_outcome.1)) = t_events (tables (refs review_repository)) ++ [rc_reflog review_receipt] /\
  actor (rc_reflog review_receipt) = Some human_id /\
  namespace (lit "decision/main") = Some (lit "decision") /\
  namespace (lit "proposal/ai/run-1") = Some (lit "proposal") /\
  review_outcome.1 = set_refs review_repository (refs review_outcome.1).
Proof.
  apply (decision_effect nfc_id no_pointer open_registry review_repository review_authority review_update review_now
    review_commit_now review_outcome.1 (Ok review_receipt)).
  - exact review_refs_reachable.
  - exact review_published.
Defined.

(** C14: a published decision is what the human decided.  The reviewer is a human Actor whose
    own Policy permits publishing, both bound in the canonical snapshot; the new Commit
    continues the canonical head by exactly the human's own feedback on this proposal; its
    snapshot is the proposal's when the feedback adopts and the base's otherwise; the
    proposal continues the same head; and proposal and decision keep every object of the base
    and bind exactly its Actors, Policies, Grants and Tombstones. *)
Theorem decision_faithful {S : Type} `{BoundedObjectStore S} nfc json_pointer registry (repository : Repository S) authority
    update now tnow repository' r :
  publish_decision nfc json_pointer registry repository authority update now tnow = (repository', Ok r) ->
  reviewer nfc json_pointer registry repository authority /\
  feedback_on nfc json_pointer registry repository authority (rc_decision_feedback_oid r) (rc_disposition r) /\
  exists base proposal decision a b c,
    load_structured nfc json_pointer registry repository (decision_head authority) Commit = Ok base /\
    load_structured nfc json_pointer registry repository (proposal_head authority) Commit = Ok proposal /\
    get proposal (lit "parents") = Some (Arr [Str (decision_head authority)]) /\
    decision_commit_of nfc json_pointer registry repository authority (hd_new_head update) (rc_decision_feedback_oid r) decision /\
    disposes (rc_disposition r) base proposal decision /\
    snapshot_object_set nfc json_pointer registry repository (decision_head authority) = Ok a /\
    snapshot_object_set nfc json_pointer registry repository (proposal_head authority) = Ok b /\
    snapshot_object_set nfc json_pointer registry repository (hd_new_head update) = Ok c /\
    same_controls nfc json_pointer registry repository a b /\ same_controls nfc json_pointer registry repository a c /\
    keeps a b /\ keeps a c.
Proof. intros ([Hrev Hf Hs _ _] & -> & _)%publish_decision_Ok. done. Qed.

Lemma decision_faithful_witness :
  reviewer nfc_id no_pointer open_registry review_repository review_authority /\
  feedback_on nfc_id no_pointer open_registry review_repository review_authority (rc_decision_feedback_oid review_receipt)
    (rc_disposition review_receipt) /\
  exists base proposal decision a b c,
    load_structured nfc_id no_pointer open_registry review_repository base_oid Commit = Ok base /\
    load_structured nfc_id no_pointer open_registry review_repository candidate_oid Commit = Ok proposal /\
    get proposal (lit "parents") = Some (Arr [Str base_oid]) /\
    decision_commit_of nfc_id no_pointer open_registry review_repository review_authority adopted_oid
      (rc_decision_feedback_oid review_receipt) decision /\
    disposes (rc_disposition review_receipt) base proposal decision /\
    snapshot_object_set nfc_id no_pointer open_registry review_repository base_oid = Ok a /\
    snapshot_object_set nfc_id no_pointer open_registry review_repository candidate_oid = Ok b /\
    snapshot_object_set nfc_id no_pointer open_registry review_repository adopted_oid = Ok c /\
    same_controls nfc_id no_pointer open_registry review_repository a b /\
    same_controls nfc_id no_pointer open_registry review_repository a c /\ keeps a b /\ keeps a c.
Proof.
  apply (decision_faithful nfc_id no_pointer open_registry review_repository review_authority review_update review_now
    review_commit_now review_outcome.1). exact review_published.
Defined.

(** C15: a proposal is decided at most once.  After a published decision, and however the
    repository has grown since, no decision on the same proposal is published on a head whose
    ancestry contains that decision: the attempt fails and changes nothing. *)
Theorem proposal_decided_once {S : Type} `{BoundedObjectStore S} nfc json_pointer registry (repository later : Repository S)
    authority update now tnow repository' r authority2 update2 now2 tnow2 :
  publish_decision nfc json_pointer registry repository authority update now tnow = (repository', Ok r) ->
  (forall oid kind v, load_structured nfc json_pointer registry repository' oid kind = Ok v ->
                      load_structured nfc json_pointer registry later oid kind = Ok v) ->
  proposal_head authority2 = proposal_head authority ->
  rtc (parent_of nfc json_pointer registry later) (decision_head authority2) (hd_new_head update) ->
  exists e, publish_decision nfc json_pointer registry later authority2 update2 now2 tnow2 = (later, Err e).
Proof.
  intros (Had & Hfb & _ & _ & _ & Hrep)%publish_decision_Ok Hgrow Hsame Hanc.
  destruct (publish_decision nfc json_pointer registry later authority2 update2 now2 tnow2) as [later' [r2|e]] eqn:H2.
  2: { apply publish_decision_Err in H2 as ->. by exists e. }
  exfalso. apply publish_decision_Ok in H2 as ([_ _ _ Hund _] & _). apply (Hund _ Hanc). rewrite Hsame.
  destruct Had as [_ (feedback & payload & Hf & _ & _ & Hp & Hpr & _)
    (base & proposal & decision & a & b & c & _ & _ & _ & (Hl & _ & _ & _ & Ht & _) & _) _ _].
  unfold load_record in Hf. auth_inv. subst. rewrite Hrep in Hgrow.
  eexists decision, _, _, feedback. split_and!; [by apply Hgrow|done|by left|by apply Hgrow|].
  unfold decides. rewrite Hp. cbn. rewrite !bool_decide_eq_true_2 by done. done.
Qed.

(** The human tries to decide again on the new head. *)
Definition again_authority : HumanDecisionAuthority :=
  {| authenticated_human_id := human_id; authorized_project_id := project; decision_ref_name := lit "decision/main";
     decision_head := adopted_oid; proposal_ref_name := lit "proposal/ai/run-1"; proposal_head := candidate_oid;
     human_actor_record_oid := human_actor_oid; policy_record_oid := policy_oid |}.

Lemma proposal_decided_once_witness :
  exists e, publish_decision nfc_id no_pointer open_registry review_outcome.1 again_authority review_update review_now
    review_commit_now = (review_outcome.1, Err e).
Proof.
  apply (proposal_decided_once nfc_id no_pointer open_registry review_repository review_outcome.1 review_authority review_update
    review_now review_commit_now review_outcome.1 review_receipt).
  - exact review_published.
  - done.
  - reflexivity.
  - apply rtc_refl.
Defined.

(** The Policy of a human publication is read rule by rule: publishing is authorized
    exactly when every publish rule has a selector that can be evaluated, every rule that
    applies to the Ref lets the human through (unconditional permission, or the gate that the
    decision itself satisfies), and some rule applies or the default allows. *)
Lemma human_policy_exact payload decision_ref :
  authorize_human_publish payload decision_ref = Ok tt <-> permits_publish payload decision_ref.
Proof. split; [apply authorize_permits|apply permits_authorize]. Qed.

(** Deciding always answers: an error of the core is a protocol error code, or an oversized
    confidence ends the process, whatever the store holds; the walks over snapshots and over the ancestry end within their bounds. *)
Lemma decision_answers {S : Type} `{BoundedObjectStore S} nfc json_pointer registry (repository : Repository S) authority
    update now tnow repository' e :
  publish_decision nfc json_pointer registry repository authority update now tnow = (repository', Err (RepoCore e)) ->
  coded_or_aborted e.
Proof.
  unfold publish_decision. destruct (authorize_decision _ _ _ _ _ _ _) as [[[verifier at_] d]|e'] eqn:Ha.
  - destruct (compare_and_swap_with_preconditions_and_guard _ _ _ _ _) as [store [entry|e']]; intros [= <- He].
  - intros [= _ ->]. exact (answers_authorize_decision _ _ _ _ _ _ _ _ Ha).
Qed.

Definition wrong_update : HumanDecisionUpdate :=
  {| hd_new_head := adopted_oid; hd_decision_feedback_oid := draft_oid; hd_message := None |}.
