(* ===== verification/Journal.v ===== *)
(** * The review journal: data, validation and rows

    Models types.rs, error.rs, validate.rs and decode.rs of crates/synapse-artifact-journal/src,
    with the tables of schema.rs.  A table is the list of its rows in insertion order; a query
    by a unique key finds the first match.  The five binding columns of a row are one
    [ReviewBinding]; columns with an enumeration hold its text.  Identifier newtypes are the
    text they wrap.  SHA-256 is a parameter. *)

From stdpp Require Import base list numbers strings gmap sets.
From Stdlib Require Import ZArith Lia.
From S2P Require Import Prelude Text Bytes Oid.

#[local] Open Scope Z_scope.

(** ** States, dispositions, errors *)

Inductive ReviewState := PendingReview | DecisionCommitted | TerminalDenial | RetryableFailure | OutcomeUnknown.

#[export] Instance ReviewState_eq_dec : EqDecision ReviewState.
Proof. solve_decision. Defined.

Inductive JournalError :=
| InvalidArgument
| ReviewNotFound
| ReviewBindingExists
| ReviewBindingConflict
| ProposalIntentNotFound
| ProposalIntentExists
| ProposalIntentConflict
| DecisionIntentExists
| LegacyDecisionIntent
| DecisionIntentMismatch
| DecisionOutcomeConflict
| IdempotencyConflict
| StateConflict (expected actual : ReviewState)
| InvalidStateTransition (from to : ReviewState)
| Random
| CorruptData
| JournalStorage.

Abbreviation jresult := (result JournalError).

Definition journal_code (e : JournalError) : str :=
  match e with
  | InvalidArgument => lit "invalid_argument"
  | ReviewNotFound => lit "review_not_found"
  | ReviewBindingExists => lit "review_binding_exists"
  | ReviewBindingConflict => lit "review_binding_conflict"
  | ProposalIntentNotFound => lit "proposal_intent_not_found"
  | ProposalIntentExists => lit "proposal_intent_exists"
  | ProposalIntentConflict => lit "proposal_intent_conflict"
  | DecisionIntentExists => lit "decision_intent_exists"
  | LegacyDecisionIntent => lit "decision_intent_upgrade_required"
  | DecisionIntentMismatch => lit "decision_intent_mismatch"
  | DecisionOutcomeConflict => lit "decision_outcome_conflict"
  | IdempotencyConflict => lit "idempotency_conflict"
  | StateConflict _ _ => lit "review_state_conflict"
  | InvalidStateTransition _ _ => lit "review_state_transition_invalid"
  | Random | JournalStorage => lit "storage_error"
  | CorruptData => lit "journal_corrupt"
  end.

Definition state_as_str (s : ReviewState) : str :=
  match s with
  | PendingReview => lit "pending_review"
  | DecisionCommitted => lit "decision_committed"
  | TerminalDenial => lit "terminal_denial"
  | RetryableFailure => lit "retryable_failure"
  | OutcomeUnknown => lit "outcome_unknown"
  end.

Definition state_parse (value : str) : jresult ReviewState :=
  if str_eqb value (lit "pending_review") then Ok PendingReview
  else if str_eqb value (lit "decision_committed") then Ok DecisionCommitted
  else if str_eqb value (lit "terminal_denial") then Ok TerminalDenial
  else if str_eqb value (lit "retryable_failure") then Ok RetryableFailure
  else if str_eqb value (lit "outcome_unknown") then Ok OutcomeUnknown
  else Err CorruptData.

Inductive DecisionDisposition := AdoptedUnchanged | Rejected | Deferred.

#[export] Instance DecisionDisposition_eq_dec : EqDecision DecisionDisposition.
Proof. solve_decision. Defined.

Definition disposition_as_str (d : DecisionDisposition) : str :=
  match d with
  | AdoptedUnchanged => lit "adopted_unchanged"
  | Rejected => lit "rejected"
  | Deferred => lit "deferred"
  end.

Definition disposition_parse (value : str) : jresult DecisionDisposition :=
  if str_eqb value (lit "adopted_unchanged") then Ok AdoptedUnchanged
  else if str_eqb value (lit "rejected") then Ok Rejected
  else if str_eqb value (lit "deferred") then Ok Deferred
  else Err CorruptData.

Inductive SelectedSnapshot := SnapshotBase | SnapshotProposal.

#[export] Instance SelectedSnapshot_eq_dec : EqDecision SelectedSnapshot.
Proof. solve_decision. Defined.

Definition snapshot_as_str (s : SelectedSnapshot) : str :=
  match s with SnapshotBase => lit "base" | SnapshotProposal => lit "proposal" end.

Definition snapshot_parse (value : str) : jresult SelectedSnapshot :=
  if str_eqb value (lit "base") then Ok SnapshotBase
  else if str_eqb value (lit "proposal") then Ok SnapshotProposal
  else Err CorruptData.

(** ** Values *)

Definition MAX_CONTROL_VALUE_BYTES : Z := 2000.
Definition MAX_IDEMPOTENCY_KEY_BYTES : Z := 4096.
Definition MAX_CANONICAL_REQUEST_BYTES : Z := 1048576.
Definition REVIEW_ID_BYTES : Z := 32.
Definition REVIEW_ID_HEX_LEN : Z := REVIEW_ID_BYTES * 2.
Definition RANDOM_ID_ATTEMPTS : nat := 8.

Definition validate_control_value (value : str) : jresult unit :=
  reject_if (bool_decide (value = []) || (len value >? MAX_CONTROL_VALUE_BYTES) || existsb is_control (chars value))
    InvalidArgument.

Fixpoint validate_control_values (values : list str) : jresult unit :=
  match values with
  | [] => Ok tt
  | value :: values => validate_control_value value;; validate_control_values values
  end.

(** [ReviewId::parse] and [ProposalIntentId::parse]. *)
Definition ReviewId_parse (value : str) : jresult str :=
  reject_if (negb (len value =? REVIEW_ID_HEX_LEN) || negb (forallb is_lower_hex value)) InvalidArgument;;
  Ok value.

Definition ProposalIntentId_parse (value : str) : jresult str :=
  reject_if (negb (len value =? REVIEW_ID_HEX_LEN) || negb (forallb is_lower_hex value)) InvalidArgument;;
  Ok value.

Definition valid_sha256 (value : str) : bool :=
  (len value =? 71) && starts_with (lit "sha256:") value && forallb is_lower_hex (drop 7 value).

Definition valid_artifact_manifest_sha256 (value : str) : bool := (len value =? 64) && forallb is_lower_hex value.

Record ReviewBinding := {
  project_scope : str;
  proposal_ref_name : str;
  proposal_head : str;
  decision_ref_name : str;
  expected_decision_head : str;
}.

#[export] Instance ReviewBinding_eq_dec : EqDecision ReviewBinding.
Proof. solve_decision. Defined.

(** [strip_prefix(p).is_none_or(str::is_empty)] *)
Definition outside (prefix name : str) : bool :=
  match strip_prefix prefix name with Some rest => bool_decide (rest = []) | None => true end.

Definition binding_validate (b : ReviewBinding) : jresult unit :=
  validate_control_values
    [project_scope b; proposal_ref_name b; proposal_head b; decision_ref_name b; expected_decision_head b];;
  reject_if (outside (lit "proposal/") (proposal_ref_name b)) InvalidArgument;;
  reject_if (outside (lit "decision/") (decision_ref_name b)) InvalidArgument.

Definition ReviewBinding_new (b : ReviewBinding) : jresult ReviewBinding := binding_validate b;; Ok b.

Record ReviewRecord := { rv_review_id : str; rv_binding : ReviewBinding; rv_state : ReviewState }.

Record ProposalIntent := {
  pi_id : str;
  pi_idempotency_digest : str;
  pi_request_fingerprint : str;
  pi_artifact_manifest_sha256 : str;
  pi_binding : ReviewBinding;
  pi_review_id : option str;
}.

Record DecisionIntent := {
  di_review_id : str;
  di_idempotency_digest : str;
  di_request_fingerprint : str;
  di_candidate_head : str;
  di_feedback_oid : str;
  di_expected_decision_head : str;
}.

Record DecisionCommitIntent := {
  ci_review_id : str;
  ci_idempotency_digest : str;
  ci_request_fingerprint : str;
  ci_binding : ReviewBinding;
  ci_disposition : DecisionDisposition;
  ci_selected_snapshot : SelectedSnapshot;
  ci_reviewed_artifact_manifest_sha256 : str;
  ci_new_decision_head : str;
  ci_feedback_oid : str;
}.

Record DecisionOutcome := {
  oc_review_id : str;
  oc_disposition : DecisionDisposition;
  oc_selected_snapshot : SelectedSnapshot;
  oc_reviewed_artifact_manifest_sha256 : str;
  oc_proposal_head : str;
  oc_expected_decision_head : str;
  oc_new_decision_head : str;
  oc_feedback_oid : str;
}.

#[export] Instance ReviewRecord_eq_dec : EqDecision ReviewRecord.
Proof. solve_decision. Defined.
#[export] Instance ProposalIntent_eq_dec : EqDecision ProposalIntent.
Proof. solve_decision. Defined.
#[export] Instance DecisionIntent_eq_dec : EqDecision DecisionIntent.
Proof. solve_decision. Defined.
#[export] Instance DecisionCommitIntent_eq_dec : EqDecision DecisionCommitIntent.
Proof. solve_decision. Defined.
#[export] Instance DecisionOutcome_eq_dec : EqDecision DecisionOutcome.
Proof. solve_decision. Defined.

(** ** Requests *)

Record ProposalIntentRequest := {
  pq_idempotency_key : list byte;
  pq_canonical_request : list byte;
  pq_artifact_manifest_sha256 : str;
  pq_binding : ReviewBinding;
}.

Record DecisionIntentRequest := {
  dq_idempotency_key : list byte;
  dq_canonical_request : list byte;
  dq_candidate_head : str;
  dq_feedback_oid : str;
  dq_expected_decision_head : str;
}.

Record DecisionCommitIntentRequest := {
  cq_idempotency_key : list byte;
  cq_canonical_request : list byte;
  cq_disposition : DecisionDisposition;
  cq_selected_snapshot : SelectedSnapshot;
  cq_reviewed_artifact_manifest_sha256 : str;
  cq_new_decision_head : str;
  cq_feedback_oid : str;
}.

Record DecisionOutcomeRequest := {
  oq_disposition : DecisionDisposition;
  oq_selected_snapshot : SelectedSnapshot;
  oq_reviewed_artifact_manifest_sha256 : str;
  oq_proposal_head : str;
  oq_expected_decision_head : str;
  oq_new_decision_head : str;
  oq_feedback_oid : str;
}.

Definition validate_idempotency_key (key : list byte) : jresult unit :=
  reject_if (bool_decide (key = []) || (len key >? MAX_IDEMPOTENCY_KEY_BYTES)) InvalidArgument.

Definition validate_request_bytes (key request : list byte) : jresult unit :=
  validate_idempotency_key key;;
  reject_if (bool_decide (request = []) || (len request >? MAX_CANONICAL_REQUEST_BYTES)) InvalidArgument.

Definition validate_intent_request (request : DecisionIntentRequest) : jresult unit :=
  validate_request_bytes (dq_idempotency_key request) (dq_canonical_request request);;
  validate_control_values [dq_candidate_head request; dq_feedback_oid request; dq_expected_decision_head request].

Definition validate_proposal_intent_request (request : ProposalIntentRequest) : jresult unit :=
  validate_request_bytes (pq_idempotency_key request) (pq_canonical_request request);;
  reject_if (negb (valid_artifact_manifest_sha256 (pq_artifact_manifest_sha256 request))) InvalidArgument;;
  binding_validate (pq_binding request).

(** The admitted pairs of a disposition and a snapshot. *)
Definition decision_semantics (disposition : DecisionDisposition) (selected : SelectedSnapshot) : bool :=
  match disposition, selected with
  | AdoptedUnchanged, SnapshotProposal | Rejected, SnapshotBase | Deferred, SnapshotBase => true
  | _, _ => false
  end.

Definition validate_decision_semantics (disposition : DecisionDisposition) (selected : SelectedSnapshot) : jresult unit :=
  if decision_semantics disposition selected then Ok tt else Err InvalidArgument.

Definition validate_decision_commit_intent_request (request : DecisionCommitIntentRequest) : jresult unit :=
  validate_request_bytes (cq_idempotency_key request) (cq_canonical_request request);;
  validate_decision_semantics (cq_disposition request) (cq_selected_snapshot request);;
  reject_if (negb (valid_artifact_manifest_sha256 (cq_reviewed_artifact_manifest_sha256 request))) InvalidArgument;;
  validate_control_values [cq_new_decision_head request; cq_feedback_oid request].

Definition validate_decision_outcome_request (request : DecisionOutcomeRequest) : jresult unit :=
  validate_decision_semantics (oq_disposition request) (oq_selected_snapshot request);;
  reject_if (negb (valid_artifact_manifest_sha256 (oq_reviewed_artifact_manifest_sha256 request))) InvalidArgument;;
  validate_control_values
    [oq_proposal_head request; oq_expected_decision_head request; oq_new_decision_head request; oq_feedback_oid request];;
  reject_if (str_eqb (oq_expected_decision_head request) (oq_new_decision_head request)) InvalidArgument.

(** [map_err(|error| JournalError::CorruptData(...))] *)
Definition stored {A} (r : jresult A) : jresult A := map_err (fun _ => CorruptData) r.

Definition validate_stored_decision_commit_intent (intent : DecisionCommitIntent) : jresult unit :=
  stored (validate_decision_semantics (ci_disposition intent) (ci_selected_snapshot intent));;
  reject_if (negb (valid_artifact_manifest_sha256 (ci_reviewed_artifact_manifest_sha256 intent))) CorruptData;;
  stored (validate_control_values [ci_new_decision_head intent; ci_feedback_oid intent]);;
  reject_if (str_eqb (ci_new_decision_head intent) (expected_decision_head (ci_binding intent))) CorruptData.

Definition validate_stored_decision_outcome (outcome : DecisionOutcome) : jresult unit :=
  stored (validate_decision_semantics (oc_disposition outcome) (oc_selected_snapshot outcome));;
  reject_if (negb (valid_artifact_manifest_sha256 (oc_reviewed_artifact_manifest_sha256 outcome))) CorruptData;;
  stored (validate_control_values
    [oc_proposal_head outcome; oc_expected_decision_head outcome; oc_new_decision_head outcome; oc_feedback_oid outcome]);;
  reject_if (str_eqb (oc_expected_decision_head outcome) (oc_new_decision_head outcome)) CorruptData.

Definition decision_outcome_matches_intent (intent : DecisionCommitIntent) (review : ReviewRecord) (outcome : DecisionOutcome)
  : bool :=
  bool_decide (ci_binding intent = rv_binding review) &&
  bool_decide (ci_disposition intent = oc_disposition outcome) &&
  bool_decide (ci_selected_snapshot intent = oc_selected_snapshot outcome) &&
  str_eqb (ci_reviewed_artifact_manifest_sha256 intent) (oc_reviewed_artifact_manifest_sha256 outcome) &&
  str_eqb (proposal_head (ci_binding intent)) (oc_proposal_head outcome) &&
  str_eqb (expected_decision_head (ci_binding intent)) (oc_expected_decision_head outcome) &&
  str_eqb (ci_new_decision_head intent) (oc_new_decision_head outcome) &&
  str_eqb (ci_feedback_oid intent) (oc_feedback_oid outcome).

(** ** Digests *)

(** The bytes a digest hashes: the domain, then each part after its length. *)
Definition digest_input (domain : list byte) (parts : list (list byte)) : list byte :=
  domain ++ framed parts.

Definition digest (sha256 : list byte -> list byte) (domain : list byte) (parts : list (list byte)) : str :=
  lit "sha256:" ++ lower_hex (sha256 (digest_input domain parts)).

(** ** Tables *)

(** A row of [reviews]. *)
Record StoredReview := { sr_review_id : str; sr_binding : ReviewBinding; sr_state : str }.

(** A row of [decision_commit_intents]; the expected head of its binding is a column of
    [decision_intents]. *)
Record StoredCommitIntent := {
  sc_review_id : str;
  sc_project_scope : str;
  sc_proposal_ref_name : str;
  sc_proposal_head : str;
  sc_decision_ref_name : str;
  sc_disposition : str;
  sc_selected_snapshot : str;
  sc_reviewed_artifact_manifest_sha256 : str;
}.

(** A row of [decision_outcomes]. *)
Record StoredOutcome := {
  so_review_id : str;
  so_disposition : str;
  so_selected_snapshot : str;
  so_reviewed_artifact_manifest_sha256 : str;
  so_proposal_head : str;
  so_expected_decision_head : str;
  so_new_decision_head : str;
  so_feedback_oid : str;
}.

Record Journal := {
  reviews : list StoredReview;
  decision_intents : list DecisionIntent;
  proposal_intents : list ProposalIntent;
  decision_commit_intents : list StoredCommitIntent;
  decision_outcomes : list StoredOutcome;
}.

Definition empty_journal : Journal :=
  {| reviews := []; decision_intents := []; proposal_intents := []; decision_commit_intents := []; decision_outcomes := [] |}.

(** [query_row(...).optional()?.map(decode).transpose()] *)
Definition optional {A B} (row : option A) (decode : A -> jresult B) : jresult (option B) :=
  match row with
  | None => Ok None
  | Some row => b ← decode row; Ok (Some b)
  end.

Definition decode_review (row : StoredReview) : jresult ReviewRecord :=
  review_id ← stored (ReviewId_parse (sr_review_id row));
  binding ← stored (ReviewBinding_new (sr_binding row));
  state ← state_parse (sr_state row);
  Ok {| rv_review_id := review_id; rv_binding := binding; rv_state := state |}.

Definition load_review (j : Journal) (review_id : str) : jresult (option ReviewRecord) :=
  optional (find (fun row => str_eqb (sr_review_id row) review_id) (reviews j)) decode_review.

(** The columns (project_scope, proposal_ref_name, proposal_head). *)
Definition same_proposal (a b : ReviewBinding) : bool :=
  str_eqb (project_scope a) (project_scope b) && str_eqb (proposal_ref_name a) (proposal_ref_name b) &&
  str_eqb (proposal_head a) (proposal_head b).

Definition load_review_by_proposal (j : Journal) (binding : ReviewBinding) : jresult (option ReviewRecord) :=
  optional (find (fun row => same_proposal (sr_binding row) binding) (reviews j)) decode_review.

Definition decode_proposal_intent (row : ProposalIntent) : jresult ProposalIntent :=
  reject_if (negb (valid_sha256 (pi_idempotency_digest row))) CorruptData;;
  reject_if (negb (valid_sha256 (pi_request_fingerprint row))) CorruptData;;
  reject_if (negb (valid_artifact_manifest_sha256 (pi_artifact_manifest_sha256 row))) CorruptData;;
  id ← stored (ProposalIntentId_parse (pi_id row));
  binding ← stored (ReviewBinding_new (pi_binding row));
  review_id ← match pi_review_id row with
              | None => Ok None
              | Some review_id => Some <$> stored (ReviewId_parse review_id)
              end;
  Ok {| pi_id := id; pi_idempotency_digest := pi_idempotency_digest row; pi_request_fingerprint := pi_request_fingerprint row;
        pi_artifact_manifest_sha256 := pi_artifact_manifest_sha256 row; pi_binding := binding; pi_review_id := review_id |}.

Definition load_proposal_intent (j : Journal) (id : str) : jresult (option ProposalIntent) :=
  optional (find (fun row => str_eqb (pi_id row) id) (proposal_intents j)) decode_proposal_intent.

Definition load_proposal_intent_by_idempotency (j : Journal) (scope idempotency_digest : str) : jresult (option ProposalIntent) :=
  optional (find (fun row => str_eqb (project_scope (pi_binding row)) scope &&
                             str_eqb (pi_idempotency_digest row) idempotency_digest) (proposal_intents j))
    decode_proposal_intent.

Definition load_proposal_intent_by_proposal (j : Journal) (binding : ReviewBinding) : jresult (option ProposalIntent) :=
  optional (find (fun row => same_proposal (pi_binding row) binding) (proposal_intents j)) decode_proposal_intent.

Definition load_proposal_intent_by_review (j : Journal) (review_id : str) : jresult (option ProposalIntent) :=
  optional (find (fun row => bool_decide (pi_review_id row = Some review_id)) (proposal_intents j)) decode_proposal_intent.

Definition validate_proposal_intent_review_link (j : Journal) (intent : ProposalIntent) : jresult unit :=
  match pi_review_id intent with
  | None => Ok tt
  | Some review_id =>
    review ← load_review j review_id;
    review ← ok_or review CorruptData;
    reject_if (negb (bool_decide (rv_binding review = pi_binding intent))) CorruptData
  end.

Definition review_exists (j : Journal) (review_id : str) : bool :=
  existsb (fun row => str_eqb (sr_review_id row) review_id) (reviews j).

Definition state_transition_allowed (from to : ReviewState) : bool :=
  match from with
  | PendingReview => true
  | RetryableFailure =>
    match to with DecisionCommitted | TerminalDenial | OutcomeUnknown => true | _ => false end
  | OutcomeUnknown => match to with DecisionCommitted | TerminalDenial => true | _ => false end
  | DecisionCommitted | TerminalDenial => false
  end.

Definition intent_row (j : Journal) (review_id : str) : option DecisionIntent :=
  find (fun row => str_eqb (di_review_id row) review_id) (decision_intents j).

Definition load_intent (j : Journal) (review_id : str) : jresult (option DecisionIntent) :=
  optional (intent_row j review_id) (fun row =>
    reject_if (negb (valid_sha256 (di_idempotency_digest row))) CorruptData;;
    reject_if (negb (valid_sha256 (di_request_fingerprint row))) CorruptData;;
    stored (validate_control_values [di_candidate_head row; di_feedback_oid row; di_expected_decision_head row]);;
    Ok row).

(** The row of the join of [decision_intents] and [decision_commit_intents]. *)
Definition commit_intent_row (j : Journal) (review_id : str) : option (DecisionIntent * StoredCommitIntent) :=
  legacy ← intent_row j review_id;
  exact ← find (fun row => str_eqb (sc_review_id row) review_id) (decision_commit_intents j);
  Some (legacy, exact).

Definition decode_commit_intent (review_id : str) (row : DecisionIntent * StoredCommitIntent) : jresult DecisionCommitIntent :=
  let '(legacy, exact) := row in
  reject_if (negb (valid_sha256 (di_idempotency_digest legacy))) CorruptData;;
  reject_if (negb (valid_sha256 (di_request_fingerprint legacy))) CorruptData;;
  binding ← stored (ReviewBinding_new
    {| project_scope := sc_project_scope exact; proposal_ref_name := sc_proposal_ref_name exact;
       proposal_head := sc_proposal_head exact; decision_ref_name := sc_decision_ref_name exact;
       expected_decision_head := di_expected_decision_head legacy |});
  disposition ← disposition_parse (sc_disposition exact);
  selected ← snapshot_parse (sc_selected_snapshot exact);
  let intent :=
    {| ci_review_id := review_id; ci_idempotency_digest := di_idempotency_digest legacy;
       ci_request_fingerprint := di_request_fingerprint legacy; ci_binding := binding; ci_disposition := disposition;
       ci_selected_snapshot := selected;
       ci_reviewed_artifact_manifest_sha256 := sc_reviewed_artifact_manifest_sha256 exact;
       ci_new_decision_head := di_candidate_head legacy; ci_feedback_oid := di_feedback_oid legacy |} in
  validate_stored_decision_commit_intent intent;;
  Ok intent.

Definition load_decision_commit_intent (j : Journal) (review_id : str) : jresult (option DecisionCommitIntent) :=
  optional (commit_intent_row j review_id) (decode_commit_intent review_id).

Definition decode_outcome (review_id : str) (row : StoredOutcome) : jresult DecisionOutcome :=
  disposition ← disposition_parse (so_disposition row);
  selected ← snapshot_parse (so_selected_snapshot row);
  let outcome :=
    {| oc_review_id := review_id; oc_disposition := disposition; oc_selected_snapshot := selected;
       oc_reviewed_artifact_manifest_sha256 := so_reviewed_artifact_manifest_sha256 row;
       oc_proposal_head := so_proposal_head row; oc_expected_decision_head := so_expected_decision_head row;
       oc_new_decision_head := so_new_decision_head row; oc_feedback_oid := so_feedback_oid row |} in
  validate_stored_decision_outcome outcome;;
  Ok outcome.

Definition load_decision_outcome (j : Journal) (review_id : str) : jresult (option DecisionOutcome) :=
  optional (find (fun row => str_eqb (so_review_id row) review_id) (decision_outcomes j)) (decode_outcome review_id).
