(* ===== verification/JournalOps.v ===== *)
(** * The review journal: operations

    Models crates/synapse-artifact-journal/src/journal/.  Every method opens one transaction
    and writes only before its commit, so an operation is a function from the tables to new
    tables and an answer, or to an error that leaves the tables as they were ([transact]).
    [INSERT OR IGNORE] writes nothing when a unique key is taken or a CHECK fails; a plain
    [INSERT] then fails, as does a reference to a missing row.  Randomness is an argument: the
    bytes that each attempt draws, or its failure. *)

From stdpp Require Import base list numbers strings gmap sets.
From Stdlib Require Import ZArith Lia.
From S2P Require Import Prelude Sorting Text Oid Journal.

#[local] Open Scope Z_scope.

Definition transact {A} (j : Journal) (r : jresult (Journal * A)) : Journal * jresult A :=
  match r with
  | Ok (j, a) => (j, Ok a)
  | Err e => (j, Err e)
  end.

(** ** Statements *)

Definition set_reviews (rows : list StoredReview) (j : Journal) : Journal :=
  {| reviews := rows; decision_intents := decision_intents j; proposal_intents := proposal_intents j;
     decision_commit_intents := decision_commit_intents j; decision_outcomes := decision_outcomes j |}.
Definition set_decision_intents (rows : list DecisionIntent) (j : Journal) : Journal :=
  {| reviews := reviews j; decision_intents := rows; proposal_intents := proposal_intents j;
     decision_commit_intents := decision_commit_intents j; decision_outcomes := decision_outcomes j |}.
Definition set_proposal_intents (rows : list ProposalIntent) (j : Journal) : Journal :=
  {| reviews := reviews j; decision_intents := decision_intents j; proposal_intents := rows;
     decision_commit_intents := decision_commit_intents j; decision_outcomes := decision_outcomes j |}.
Definition set_commit_intents (rows : list StoredCommitIntent) (j : Journal) : Journal :=
  {| reviews := reviews j; decision_intents := decision_intents j; proposal_intents := proposal_intents j;
     decision_commit_intents := rows; decision_outcomes := decision_outcomes j |}.
Definition set_outcomes (rows : list StoredOutcome) (j : Journal) : Journal :=
  {| reviews := reviews j; decision_intents := decision_intents j; proposal_intents := proposal_intents j;
     decision_commit_intents := decision_commit_intents j; decision_outcomes := rows |}.

(** [INSERT OR IGNORE INTO reviews(...) VALUES (..., 'pending_review')]: the tables when a row
    was inserted. *)
Definition insert_review (review_id : str) (binding : ReviewBinding) (j : Journal) : option Journal :=
  if review_exists j review_id || existsb (fun row => same_proposal (sr_binding row) binding) (reviews j) then None
  else
    Some (set_reviews (reviews j ++
      [{| sr_review_id := review_id; sr_binding := binding; sr_state := state_as_str PendingReview |}]) j).

(** [INSERT OR IGNORE INTO proposal_intents(...)], with the CHECKs and unique keys of the table. *)
Definition insert_proposal_intent (row : ProposalIntent) (j : Journal) : option Journal :=
  if negb (valid_artifact_manifest_sha256 (pi_id row)) ||
     negb (valid_artifact_manifest_sha256 (pi_artifact_manifest_sha256 row)) ||
     existsb (fun r => str_eqb (pi_id r) (pi_id row)) (proposal_intents j) ||
     existsb (fun r => str_eqb (project_scope (pi_binding r)) (project_scope (pi_binding row)) &&
                       str_eqb (pi_idempotency_digest r) (pi_idempotency_digest row)) (proposal_intents j) ||
     existsb (fun r => same_proposal (pi_binding r) (pi_binding row)) (proposal_intents j)
  then None
  else Some (set_proposal_intents (proposal_intents j ++ [row]) j).

(** [INSERT INTO decision_intents(...)]: a reference to [reviews] and a primary key. *)
Definition insert_decision_intent (row : DecisionIntent) (j : Journal) : jresult Journal :=
  reject_if (negb (review_exists j (di_review_id row)) || bool_decide (is_Some (intent_row j (di_review_id row)))) JournalStorage;;
  Ok (set_decision_intents (decision_intents j ++ [row]) j).

(** [INSERT INTO decision_commit_intents(...)], a reference to [decision_intents]. *)
Definition insert_commit_intent (intent : DecisionCommitIntent) (j : Journal) : jresult Journal :=
  let b := ci_binding intent in
  reject_if (negb (bool_decide (is_Some (intent_row j (ci_review_id intent)))) ||
             existsb (fun row => str_eqb (sc_review_id row) (ci_review_id intent)) (decision_commit_intents j) ||
             negb (valid_artifact_manifest_sha256 (ci_reviewed_artifact_manifest_sha256 intent)) ||
             negb (decision_semantics (ci_disposition intent) (ci_selected_snapshot intent))) JournalStorage;;
  Ok (set_commit_intents (decision_commit_intents j ++
    [{| sc_review_id := ci_review_id intent; sc_project_scope := project_scope b; sc_proposal_ref_name := proposal_ref_name b;
        sc_proposal_head := proposal_head b; sc_decision_ref_name := decision_ref_name b;
        sc_disposition := disposition_as_str (ci_disposition intent);
        sc_selected_snapshot := snapshot_as_str (ci_selected_snapshot intent);
        sc_reviewed_artifact_manifest_sha256 := ci_reviewed_artifact_manifest_sha256 intent |}]) j).

(** [INSERT INTO decision_outcomes(...)], a reference to [decision_commit_intents]. *)
Definition insert_outcome (o : DecisionOutcome) (j : Journal) : jresult Journal :=
  reject_if (negb (existsb (fun row => str_eqb (sc_review_id row) (oc_review_id o)) (decision_commit_intents j)) ||
             existsb (fun row => str_eqb (so_review_id row) (oc_review_id o)) (decision_outcomes j) ||
             negb (valid_artifact_manifest_sha256 (oc_reviewed_artifact_manifest_sha256 o)) ||
             str_eqb (oc_expected_decision_head o) (oc_new_decision_head o) ||
             negb (decision_semantics (oc_disposition o) (oc_selected_snapshot o))) JournalStorage;;
  Ok (set_outcomes (decision_outcomes j ++
    [{| so_review_id := oc_review_id o; so_disposition := disposition_as_str (oc_disposition o);
        so_selected_snapshot := snapshot_as_str (oc_selected_snapshot o);
        so_reviewed_artifact_manifest_sha256 := oc_reviewed_artifact_manifest_sha256 o;
        so_proposal_head := oc_proposal_head o; so_expected_decision_head := oc_expected_decision_head o;
        so_new_decision_head := oc_new_decision_head o; so_feedback_oid := oc_feedback_oid o |}]) j).

(** [UPDATE reviews SET state = next WHERE review_id = ... AND state = expected]: the rows changed. *)
Definition at_state (review_id : str) (expected : ReviewState) (row : StoredReview) : bool :=
  str_eqb (sr_review_id row) review_id && str_eqb (sr_state row) (state_as_str expected).

Definition update_state (review_id : str) (expected next : ReviewState) (j : Journal) : Journal * Z :=
  (set_reviews (map (fun row => if at_state review_id expected row
     then {| sr_review_id := sr_review_id row; sr_binding := sr_binding row; sr_state := state_as_str next |} else row)
     (reviews j)) j,
   len (List.filter (at_state review_id expected) (reviews j))).

(** [UPDATE proposal_intents SET review_id = ... WHERE proposal_intent_id = ... AND review_id IS NULL] *)
Definition unlinked (proposal_intent_id : str) (row : ProposalIntent) : bool :=
  str_eqb (pi_id row) proposal_intent_id && bool_decide (pi_review_id row = None).

Definition link_review (review_id : str) (row : ProposalIntent) : ProposalIntent :=
  {| pi_id := pi_id row; pi_idempotency_digest := pi_idempotency_digest row;
     pi_request_fingerprint := pi_request_fingerprint row;
     pi_artifact_manifest_sha256 := pi_artifact_manifest_sha256 row; pi_binding := pi_binding row;
     pi_review_id := Some review_id |}.

Definition update_review_link (proposal_intent_id review_id : str) (j : Journal) : jresult (Journal * Z) :=
  let changed := len (List.filter (unlinked proposal_intent_id) (proposal_intents j)) in
  reject_if ((0 <? changed) &&
             (negb (review_exists j review_id) ||
              existsb (fun row => bool_decide (pi_review_id row = Some review_id)) (proposal_intents j))) JournalStorage;;
  Ok (set_proposal_intents
        (map (fun row => if unlinked proposal_intent_id row then link_review review_id row else row) (proposal_intents j)) j,
      changed).

Definition attach_review_to_proposal_intent (proposal_intent_id review_id : str) (j : Journal) : jresult Journal :=
  '(updated, changed) ← update_review_link proposal_intent_id review_id j;
  if changed =? 1 then Ok updated
  else
    existing ← load_proposal_intent updated proposal_intent_id;
    existing ← ok_or existing ProposalIntentNotFound;
    if bool_decide (pi_review_id existing = Some review_id) then Ok updated else Err ProposalIntentConflict.

(** ** Random identifiers *)

(** [ReviewId::generate] and [ProposalIntentId::generate]: [None] when the source fails. *)
Definition generate (drawn : option (list byte)) : jresult str :=
  bytes ← ok_or drawn Random;
  Ok (lower_hex bytes).

(** ** Reviews *)

Inductive Registration := Created | Replayed.

#[export] Instance Registration_eq_dec : EqDecision Registration.
Proof. solve_decision. Defined.

(** An existing review for the same Proposal is replayed when every binding agrees. *)
Definition replay_review (binding : ReviewBinding) (existing : ReviewRecord) : jresult (ReviewRecord * Registration) :=
  if bool_decide (rv_binding existing = binding) then Ok (existing, Replayed) else Err ReviewBindingConflict.

(** [for _ in 0..RANDOM_ID_ATTEMPTS] of [create_or_get_review]. *)
Fixpoint create_attempts (attempts : nat) (random : nat -> option (list byte)) (binding : ReviewBinding) (j : Journal)
  : jresult (Journal * (ReviewRecord * Registration)) :=
  match attempts with
  | O => Err Random
  | S attempts =>
    review_id ← generate (random 0%nat);
    match insert_review review_id binding j with
    | Some j => Ok (j, ({| rv_review_id := review_id; rv_binding := binding; rv_state := PendingReview |}, Created))
    | None =>
      existing ← load_review_by_proposal j binding;
      match existing with
      | Some existing => registered ← replay_review binding existing; Ok (j, registered)
      | None => create_attempts attempts (fun i => random (S i)) binding j
      end
    end
  end.

Definition create_or_get_review (random : nat -> option (list byte)) (binding : ReviewBinding) (j : Journal)
  : jresult (Journal * (ReviewRecord * Registration)) :=
  binding_validate binding;;
  existing ← load_review_by_proposal j binding;
  match existing with
  | Some existing => registered ← replay_review binding existing; Ok (j, registered)
  | None => create_attempts RANDOM_ID_ATTEMPTS random binding j
  end.

Definition create_review (random : nat -> option (list byte)) (binding : ReviewBinding) (j : Journal)
  : jresult (Journal * ReviewRecord) :=
  '(j, (review, outcome)) ← create_or_get_review random binding j;
  match outcome with
  | Created => Ok (j, review)
  | Replayed => Err ReviewBindingExists
  end.

Definition get_review (j : Journal) (review_id : str) : jresult ReviewRecord :=
  review ← load_review j review_id;
  ok_or review ReviewNotFound.

Definition get_review_by_binding (j : Journal) (binding : ReviewBinding) : jresult (option ReviewRecord) :=
  binding_validate binding;;
  record ← load_review_by_proposal j binding;
  Ok (match record with
      | Some record => if bool_decide (rv_binding record = binding) then Some record else None
      | None => None
      end).

(** The rules for reviews with strict (v2) state. *)
Definition strict_transition (actual next : ReviewState) (strict_intent strict_outcome : bool) : jresult unit :=
  match next with
  | OutcomeUnknown =>
    if strict_intent then Ok tt
    else if bool_decide (actual = OutcomeUnknown) then Err CorruptData else Err (InvalidStateTransition actual next)
  | DecisionCommitted =>
    if negb (bool_decide (actual = DecisionCommitted)) then Err (InvalidStateTransition actual next)
    else reject_if (negb strict_intent || negb strict_outcome) CorruptData
  | _ => Ok tt
  end.

Definition is_some {A} (o : option A) : bool := match o with Some _ => true | None => false end.

Definition transition_review_state (review_id : str) (expected next : ReviewState) (j : Journal)
  : jresult (Journal * ReviewRecord) :=
  current ← load_review j review_id;
  current ← ok_or current ReviewNotFound;
  let actual := rv_state current in
  reject_if (negb (bool_decide (actual = expected))) (StateConflict expected actual);;
  proposal ← load_proposal_intent_by_review j review_id;
  strict_intent ← load_decision_commit_intent j review_id;
  strict_outcome ← load_decision_outcome j review_id;
  (if is_some proposal || is_some strict_intent || is_some strict_outcome
   then strict_transition actual next (is_some strict_intent) (is_some strict_outcome) else Ok tt);;
  if bool_decide (actual = next) then Ok (j, current)
  else
    reject_if (negb (state_transition_allowed actual next)) (InvalidStateTransition actual next);;
    let '(j, changed) := update_state review_id expected next j in
    reject_if (negb (changed =? 1)) (StateConflict expected actual);;
    row ← ok_or (find (fun row => str_eqb (sr_review_id row) review_id) (reviews j)) JournalStorage;
    record ← decode_review row;
    Ok (j, record).

(** ** Proposal intents *)

Section Digests.
Variable sha256 : list byte -> list byte.

Definition PROPOSAL_IDEMPOTENCY_DOMAIN : list byte := lit "synapsegit-artifact-journal-proposal-idempotency-v2" ++ [0].
Definition PROPOSAL_REQUEST_DOMAIN : list byte := lit "synapsegit-artifact-journal-proposal-request-v2" ++ [0].
Definition LEGACY_IDEMPOTENCY_DOMAIN : list byte := lit "synapsegit-artifact-journal-idempotency-v1" ++ [0].
Definition REQUEST_DOMAIN : list byte := lit "synapsegit-artifact-journal-request-v1" ++ [0].
Definition DECISION_COMMIT_IDEMPOTENCY_DOMAIN : list byte :=
  lit "synapsegit-artifact-journal-decision-commit-idempotency-v2" ++ [0].
Definition DECISION_COMMIT_REQUEST_DOMAIN : list byte := lit "synapsegit-artifact-journal-decision-commit-request-v2" ++ [0].

Definition proposal_key (scope : str) (key : list byte) : str := digest sha256 PROPOSAL_IDEMPOTENCY_DOMAIN [scope; key].

Definition proposal_fingerprint (request : ProposalIntentRequest) : str :=
  let b := pq_binding request in
  digest sha256 PROPOSAL_REQUEST_DOMAIN
    [pq_canonical_request request; pq_artifact_manifest_sha256 request; project_scope b; proposal_ref_name b; proposal_head b;
     decision_ref_name b; expected_decision_head b].

(** An existing intent under the same key is replayed when request and binding agree. *)
Definition replay_intent (request : ProposalIntentRequest) (j : Journal) (existing : ProposalIntent)
  : jresult (Journal * (ProposalIntent * Registration)) :=
  if bool_decide (pi_binding existing = pq_binding request) &&
     str_eqb (pi_request_fingerprint existing) (proposal_fingerprint request)
  then validate_proposal_intent_review_link j existing;; Ok (j, (existing, Replayed))
  else Err IdempotencyConflict.

Definition planned_intent (id : str) (request : ProposalIntentRequest) : ProposalIntent :=
  {| pi_id := id; pi_idempotency_digest := proposal_key (project_scope (pq_binding request)) (pq_idempotency_key request);
     pi_request_fingerprint := proposal_fingerprint request;
     pi_artifact_manifest_sha256 := pq_artifact_manifest_sha256 request; pi_binding := pq_binding request;
     pi_review_id := None |}.

Definition conflict_by_proposal (binding : ReviewBinding) (existing : ProposalIntent) : JournalError :=
  if bool_decide (pi_binding existing = binding) then ProposalIntentExists else ReviewBindingConflict.

Fixpoint register_attempts (attempts : nat) (random : nat -> option (list byte)) (request : ProposalIntentRequest) (j : Journal)
  : jresult (Journal * (ProposalIntent * Registration)) :=
  match attempts with
  | O => Err Random
  | S attempts =>
    id ← generate (random 0%nat);
    let intent := planned_intent id request in
    match insert_proposal_intent intent j with
    | Some j => Ok (j, (intent, Created))
    | None =>
      existing ← load_proposal_intent_by_idempotency j (project_scope (pq_binding request)) (pi_idempotency_digest intent);
      match existing with
      | Some existing => replay_intent request j existing
      | None =>
        existing ← load_proposal_intent_by_proposal j (pq_binding request);
        match existing with
        | Some existing => Err (conflict_by_proposal (pq_binding request) existing)
        | None => register_attempts attempts (fun i => random (S i)) request j
        end
      end
    end
  end.

Definition register_proposal_intent (random : nat -> option (list byte)) (request : ProposalIntentRequest) (j : Journal)
  : jresult (Journal * (ProposalIntent * Registration)) :=
  validate_proposal_intent_request request;;
  let binding := pq_binding request in
  existing ← load_proposal_intent_by_idempotency j (project_scope binding)
               (proposal_key (project_scope binding) (pq_idempotency_key request));
  match existing with
  | Some existing => replay_intent request j existing
  | None =>
    existing ← load_proposal_intent_by_proposal j binding;
    match existing with
    | Some existing => Err (conflict_by_proposal binding existing)
    | None =>
      review ← load_review_by_proposal j binding;
      match review with
      | Some review => if bool_decide (rv_binding review = binding) then Err ReviewBindingExists else Err ReviewBindingConflict
      | None => register_attempts RANDOM_ID_ATTEMPTS random request j
      end
    end
  end.

(** Attach the review that already exists for the Proposal. *)
Definition adopt_review (proposal_intent_id : str) (binding : ReviewBinding) (existing : ReviewRecord) (j : Journal)
  : jresult (Journal * (ReviewRecord * Registration)) :=
  reject_if (negb (bool_decide (rv_binding existing = binding))) ReviewBindingConflict;;
  j ← attach_review_to_proposal_intent proposal_intent_id (rv_review_id existing) j;
  Ok (j, (existing, Replayed)).

Fixpoint publication_attempts (attempts : nat) (random : nat -> option (list byte)) (proposal_intent_id : str)
    (binding : ReviewBinding) (j : Journal) : jresult (Journal * (ReviewRecord * Registration)) :=
  match attempts with
  | O => Err Random
  | S attempts =>
    review_id ← generate (random 0%nat);
    match insert_review review_id binding j with
    | Some j =>
      j ← attach_review_to_proposal_intent proposal_intent_id review_id j;
      Ok (j, ({| rv_review_id := review_id; rv_binding := binding; rv_state := PendingReview |}, Created))
    | None =>
      existing ← load_review_by_proposal j binding;
      match existing with
      | Some existing => adopt_review proposal_intent_id binding existing j
      | None => publication_attempts attempts (fun i => random (S i)) proposal_intent_id binding j
      end
    end
  end.

Definition commit_proposal_publication (random : nat -> option (list byte)) (proposal_intent_id : str)
    (published_binding : ReviewBinding) (j : Journal) : jresult (Journal * (ReviewRecord * Registration)) :=
  binding_validate published_binding;;
  intent ← load_proposal_intent j proposal_intent_id;
  intent ← ok_or intent ProposalIntentNotFound;
  reject_if (negb (bool_decide (pi_binding intent = published_binding))) ProposalIntentConflict;;
  match pi_review_id intent with
  | Some review_id =>
    review ← load_review j review_id;
    review ← ok_or review CorruptData;
    reject_if (negb (bool_decide (rv_binding review = published_binding))) CorruptData;;
    Ok (j, (review, Replayed))
  | None =>
    existing ← load_review_by_proposal j published_binding;
    match existing with
    | Some existing => adopt_review proposal_intent_id published_binding existing j
    | None => publication_attempts RANDOM_ID_ATTEMPTS random proposal_intent_id published_binding j
    end
  end.

Definition get_proposal_intent (j : Journal) (proposal_intent_id : str) : jresult ProposalIntent :=
  intent ← load_proposal_intent j proposal_intent_id;
  intent ← ok_or intent ProposalIntentNotFound;
  validate_proposal_intent_review_link j intent;;
  Ok intent.

(** Check the link of an intent that was found. *)
Definition check_link (j : Journal) (intent : option ProposalIntent) : jresult unit :=
  match intent with Some intent => validate_proposal_intent_review_link j intent | None => Ok tt end.

Definition get_proposal_intent_by_idempotency (j : Journal) (scope : str) (key : list byte) : jresult (option ProposalIntent) :=
  validate_control_value scope;;
  validate_idempotency_key key;;
  intent ← load_proposal_intent_by_idempotency j scope (proposal_key scope key);
  check_link j intent;;
  Ok intent.

Definition get_proposal_intent_by_binding (j : Journal) (binding : ReviewBinding) : jresult (option ProposalIntent) :=
  binding_validate binding;;
  intent ← load_proposal_intent_by_proposal j binding;
  check_link j intent;;
  Ok (match intent with
      | Some intent => if bool_decide (pi_binding intent = binding) then Some intent else None
      | None => None
      end).

Definition get_review_artifact_manifest_sha256 (j : Journal) (review_id : str) : jresult (option str) :=
  reject_if (negb (review_exists j review_id)) ReviewNotFound;;
  intent ← load_proposal_intent_by_review j review_id;
  check_link j intent;;
  Ok (pi_artifact_manifest_sha256 <$> intent).

Fixpoint decode_rows {A B} (decode : A -> jresult B) (rows : list A) : jresult (list B) :=
  match rows with
  | [] => Ok []
  | row :: rows => b ← decode row; bs ← decode_rows decode rows; Ok (b :: bs)
  end.

Definition list_unfinalized_proposal_intents (j : Journal) (scope : str) : jresult (list ProposalIntent) :=
  validate_control_value scope;;
  decode_rows decode_proposal_intent
    (sort_by (fun a b => lex_compare (pi_id a) (pi_id b))
       (List.filter (fun row => str_eqb (project_scope (pi_binding row)) scope && bool_decide (pi_review_id row = None))
          (proposal_intents j))).

(** ** Decision intents *)

Definition open_for_decision (state : ReviewState) : bool :=
  match state with PendingReview | RetryableFailure => true | _ => false end.

Definition planned_decision (review_id : str) (request : DecisionIntentRequest) : DecisionIntent :=
  {| di_review_id := review_id; di_idempotency_digest := digest sha256 LEGACY_IDEMPOTENCY_DOMAIN [dq_idempotency_key request];
     di_request_fingerprint := digest sha256 REQUEST_DOMAIN
       [dq_canonical_request request; dq_candidate_head request; dq_feedback_oid request; dq_expected_decision_head request];
     di_candidate_head := dq_candidate_head request; di_feedback_oid := dq_feedback_oid request;
     di_expected_decision_head := dq_expected_decision_head request |}.

Definition register_decision_intent (review_id : str) (request : DecisionIntentRequest) (j : Journal)
  : jresult (Journal * (DecisionIntent * Registration)) :=
  validate_intent_request request;;
  let candidate := planned_decision review_id request in
  review ← load_review j review_id;
  review ← ok_or review ReviewNotFound;
  existing ← load_intent j review_id;
  match existing with
  | Some existing =>
    if str_eqb (di_idempotency_digest existing) (di_idempotency_digest candidate)
    then if bool_decide (existing = candidate) then Ok (j, (existing, Replayed)) else Err IdempotencyConflict
    else Err DecisionIntentExists
  | None =>
    reject_if (negb (str_eqb (dq_expected_decision_head request) (expected_decision_head (rv_binding review)))) ReviewBindingConflict;;
    reject_if (negb (open_for_decision (rv_state review))) (StateConflict PendingReview (rv_state review));;
    j ← insert_decision_intent candidate j;
    Ok (j, (candidate, Created))
  end.

(** The intent that a request describes for a review: the binding is the journal's. *)
Definition planned_commit (review_id : str) (binding : ReviewBinding) (request : DecisionCommitIntentRequest)
  : DecisionCommitIntent :=
  {| ci_review_id := review_id;
     ci_idempotency_digest := digest sha256 DECISION_COMMIT_IDEMPOTENCY_DOMAIN
       [project_scope binding; review_id; cq_idempotency_key request];
     ci_request_fingerprint := digest sha256 DECISION_COMMIT_REQUEST_DOMAIN
       [cq_canonical_request request; project_scope binding; proposal_ref_name binding; proposal_head binding;
        decision_ref_name binding; expected_decision_head binding; disposition_as_str (cq_disposition request);
        snapshot_as_str (cq_selected_snapshot request); cq_reviewed_artifact_manifest_sha256 request;
        cq_new_decision_head request; cq_feedback_oid request];
     ci_binding := binding; ci_disposition := cq_disposition request; ci_selected_snapshot := cq_selected_snapshot request;
     ci_reviewed_artifact_manifest_sha256 := cq_reviewed_artifact_manifest_sha256 request;
     ci_new_decision_head := cq_new_decision_head request; ci_feedback_oid := cq_feedback_oid request |}.

(** An adopted Proposal must be reviewed at the digest its intent recorded. *)
Definition reviewed_other (proposal : option ProposalIntent) (request : DecisionCommitIntentRequest) : bool :=
  match proposal with
  | Some proposal => negb (str_eqb (pi_artifact_manifest_sha256 proposal) (cq_reviewed_artifact_manifest_sha256 request))
  | None => false
  end.

Definition register_decision_commit_intent (review_id : str) (request : DecisionCommitIntentRequest) (j : Journal)
  : jresult (Journal * (DecisionCommitIntent * Registration)) :=
  validate_decision_commit_intent_request request;;
  review ← load_review j review_id;
  review ← ok_or review ReviewNotFound;
  (if bool_decide (cq_disposition request = AdoptedUnchanged) then
     proposal ← load_proposal_intent_by_review j review_id;
     reject_if (reviewed_other proposal request) DecisionIntentMismatch
   else Ok tt);;
  reject_if (str_eqb (cq_new_decision_head request) (expected_decision_head (rv_binding review))) InvalidArgument;;
  let candidate := planned_commit review_id (rv_binding review) request in
  legacy ← load_intent j review_id;
  match legacy with
  | Some _ =>
    existing ← load_decision_commit_intent j review_id;
    existing ← ok_or existing LegacyDecisionIntent;
    if str_eqb (ci_idempotency_digest existing) (ci_idempotency_digest candidate)
    then if bool_decide (existing = candidate) then Ok (j, (existing, Replayed)) else Err IdempotencyConflict
    else Err DecisionIntentExists
  | None =>
    reject_if (negb (open_for_decision (rv_state review))) (StateConflict PendingReview (rv_state review));;
    j ← insert_decision_intent
      {| di_review_id := review_id; di_idempotency_digest := ci_idempotency_digest candidate;
         di_request_fingerprint := ci_request_fingerprint candidate; di_candidate_head := ci_new_decision_head candidate;
         di_feedback_oid := ci_feedback_oid candidate;
         di_expected_decision_head := expected_decision_head (ci_binding candidate) |} j;
    j ← insert_commit_intent candidate j;
    Ok (j, (candidate, Created))
  end.
End Digests.

Definition get_decision_commit_intent (j : Journal) (review_id : str) : jresult (option DecisionCommitIntent) :=
  review ← load_review j review_id;
  review ← ok_or review ReviewNotFound;
  intent ← load_decision_commit_intent j review_id;
  reject_if (match intent with Some intent => negb (bool_decide (ci_binding intent = rv_binding review)) | None => false end)
    CorruptData;;
  Ok intent.

Definition get_decision_intent (j : Journal) (review_id : str) : jresult (option DecisionIntent) :=
  reject_if (negb (review_exists j review_id)) ReviewNotFound;;
  load_intent j review_id.

(** ** Outcomes *)

Definition reconcile_decision_not_committed (intent : DecisionCommitIntent) (j : Journal) : jresult (Journal * ReviewRecord) :=
  let review_id := ci_review_id intent in
  review ← load_review j review_id;
  review ← ok_or review ReviewNotFound;
  found ← load_decision_commit_intent j review_id;
  found ← ok_or found DecisionIntentMismatch;
  reject_if (negb (bool_decide (found = intent)) || negb (bool_decide (ci_binding found = rv_binding review)))
    DecisionIntentMismatch;;
  outcome ← load_decision_outcome j review_id;
  reject_if (is_some outcome) (StateConflict OutcomeUnknown (rv_state review));;
  match rv_state review with
  | PendingReview | RetryableFailure => Ok (j, review)
  | OutcomeUnknown =>
    let '(updated, changed) := update_state review_id OutcomeUnknown RetryableFailure j in
    (if changed =? 1 then Ok tt
     else
       again ← load_review updated review_id;
       again ← ok_or again ReviewNotFound;
       Err (StateConflict OutcomeUnknown (rv_state again)));;
    Ok (updated, {| rv_review_id := rv_review_id review; rv_binding := rv_binding review; rv_state := RetryableFailure |})
  | DecisionCommitted | TerminalDenial => Err (StateConflict OutcomeUnknown (rv_state review))
  end.

Definition candidate_outcome (review_id : str) (request : DecisionOutcomeRequest) : DecisionOutcome :=
  {| oc_review_id := review_id; oc_disposition := oq_disposition request; oc_selected_snapshot := oq_selected_snapshot request;
     oc_reviewed_artifact_manifest_sha256 := oq_reviewed_artifact_manifest_sha256 request;
     oc_proposal_head := oq_proposal_head request; oc_expected_decision_head := oq_expected_decision_head request;
     oc_new_decision_head := oq_new_decision_head request; oc_feedback_oid := oq_feedback_oid request |}.

Definition open_for_outcome (state : ReviewState) : bool :=
  match state with PendingReview | RetryableFailure | OutcomeUnknown => true | _ => false end.

(** The outcome is new: check it against the intent, insert it and commit the review. *)
Definition record_outcome (review : ReviewRecord) (intent : DecisionCommitIntent) (candidate : DecisionOutcome) (j : Journal)
  : jresult Journal :=
  let review_id := oc_review_id candidate in
  reject_if (negb (decision_outcome_matches_intent intent review candidate)) DecisionIntentMismatch;;
  reject_if (negb (open_for_outcome (rv_state review))) (StateConflict PendingReview (rv_state review));;
  j ← insert_outcome candidate j;
  let '(updated, changed) := update_state review_id (rv_state review) DecisionCommitted j in
  if changed =? 1 then Ok updated
  else
    again ← load_review updated review_id;
    again ← ok_or again ReviewNotFound;
    Err (StateConflict (rv_state review) (rv_state again)).

Definition commit_decision_outcome (review_id : str) (request : DecisionOutcomeRequest) (j : Journal)
  : jresult (Journal * (DecisionOutcome * Registration)) :=
  validate_decision_outcome_request request;;
  review ← load_review j review_id;
  review ← ok_or review ReviewNotFound;
  let candidate := candidate_outcome review_id request in
  strict_intent ← load_decision_commit_intent j review_id;
  existing ← load_decision_outcome j review_id;
  match existing with
  | Some existing =>
    reject_if (negb (bool_decide (rv_state review = DecisionCommitted))) CorruptData;;
    if bool_decide (existing = candidate) then
      intent ← ok_or strict_intent CorruptData;
      reject_if (negb (decision_outcome_matches_intent intent review existing)) CorruptData;;
      Ok (j, (existing, Replayed))
    else Err DecisionOutcomeConflict
  | None =>
    match strict_intent with
    | None =>
      legacy ← load_intent j review_id;
      if is_some legacy then Err LegacyDecisionIntent else Err DecisionIntentMismatch
    | Some intent =>
      j ← record_outcome review intent candidate j;
      Ok (j, (candidate, Created))
    end
  end.

Definition get_decision_outcome (j : Journal) (review_id : str) : jresult (option DecisionOutcome) :=
  review ← load_review j review_id;
  review ← ok_or review ReviewNotFound;
  outcome ← load_decision_outcome j review_id;
  match outcome with
  | None => Ok None
  | Some outcome =>
    intent ← load_decision_commit_intent j review_id;
    intent ← ok_or intent CorruptData;
    reject_if (negb (bool_decide (rv_state review = DecisionCommitted)) ||
               negb (decision_outcome_matches_intent intent review outcome)) CorruptData;;
    Ok (Some outcome)
  end.

Record ReviewReconciliation := {
  rr_review : ReviewRecord;
  rr_proposal_artifact_manifest_sha256 : option str;
  rr_decision_intent : option DecisionCommitIntent;
  rr_decision_outcome : option DecisionOutcome;
}.

(** The consistency rules of the restart view. *)
Definition check_reconciliation (review : ReviewRecord) (proposal_linked : bool) (intent : option DecisionCommitIntent)
    (outcome : option DecisionOutcome) : jresult unit :=
  let state := rv_state review in
  reject_if (match intent with Some intent => negb (bool_decide (ci_binding intent = rv_binding review)) | None => false end)
    CorruptData;;
  reject_if (is_some outcome && negb (bool_decide (state = DecisionCommitted))) CorruptData;;
  reject_if (is_some outcome && negb (is_some intent)) CorruptData;;
  reject_if ((proposal_linked || is_some intent || is_some outcome) && bool_decide (state = DecisionCommitted) &&
             (negb (is_some intent) || negb (is_some outcome))) CorruptData;;
  reject_if (proposal_linked && bool_decide (state = OutcomeUnknown) && negb (is_some intent)) CorruptData;;
  reject_if (match intent, outcome with
             | Some intent, Some outcome => negb (decision_outcome_matches_intent intent review outcome)
             | _, _ => false
             end) CorruptData.

Definition get_review_reconciliation (j : Journal) (review_id : str) : jresult ReviewReconciliation :=
  review ← load_review j review_id;
  review ← ok_or review ReviewNotFound;
  proposal_intent ← load_proposal_intent_by_review j review_id;
  check_link j proposal_intent;;
  decision_intent ← load_decision_commit_intent j review_id;
  decision_outcome ← load_decision_outcome j review_id;
  check_reconciliation review (is_some proposal_intent) decision_intent decision_outcome;;
  Ok {| rr_review := review; rr_proposal_artifact_manifest_sha256 := pi_artifact_manifest_sha256 <$> proposal_intent;
        rr_decision_intent := decision_intent; rr_decision_outcome := decision_outcome |}.

(** ** Opening *)

Definition SCHEMA_VERSION : Z := 2.

(** [initialize]: version 0 creates the tables, version 1 adds the later three to the two it has. *)
Definition initialize (version : Z) (j : Journal) : jresult Journal :=
  if version =? 0 then Ok empty_journal
  else if version =? 1 then
    Ok {| reviews := reviews j; decision_intents := decision_intents j; proposal_intents := []; decision_commit_intents := [];
          decision_outcomes := [] |}
  else if version =? SCHEMA_VERSION then Ok j
  else Err CorruptData.
