(* ===== verification/JournalEffects.v ===== *)
(** * Journal: well-formed journals, and the journal as a transition system *)

From stdpp Require Import base list numbers strings gmap sets relations.
From Stdlib Require Import ZArith Lia.
From S2P Require Import Prelude Text TextFacts Oid Journal JournalOps.

#[local] Open Scope Z_scope.

(** ** The review journal: well-formed tables *)

(** ** Texts of enumerations *)

Lemma state_roundtrip text s : state_parse text = Ok s <-> text = state_as_str s.
Proof.
  split.
  - unfold state_parse. intros H. repeat case_match; simplify_eq;
      match goal with H : str_eqb _ _ = true |- _ => by apply str_eqb_eq in H end.
  - intros ->. by destruct s.
Qed.

Lemma state_as_str_inj s t : state_as_str s = state_as_str t -> s = t.
Proof. intros E. assert (state_parse (state_as_str s) = Ok t) as Hs by (by apply state_roundtrip). destruct s, t; done. Qed.

Lemma disposition_as_parse d : disposition_parse (disposition_as_str d) = Ok d.
Proof. by destruct d. Qed.

Lemma snapshot_as_parse s : snapshot_parse (snapshot_as_str s) = Ok s.
Proof. by destruct s. Qed.

(** ** Queries by a key *)

Lemma find_Some_elem {A} (p : A -> bool) l x : find p l = Some x -> x ∈ l /\ p x = true.
Proof. intros [Hin Hp]%find_some. split; [by apply list_elem_of_In|done]. Qed.

Lemma find_None_elem {A} (p : A -> bool) l : find p l = None <-> forall x, x ∈ l -> p x = false.
Proof.
  split.
  - intros Hn x Hx. by eapply find_none; [|apply list_elem_of_In].
  - intros Hn. destruct (find p l) as [x|] eqn:E; [|done]. apply find_Some_elem in E as [Hx Hp]. by rewrite (Hn x Hx) in Hp.
Qed.

Lemma existsb_false {A} (p : A -> bool) l : existsb p l = false <-> forall x, x ∈ l -> p x = false.
Proof.
  split.
  - intros He x Hx. destruct (p x) eqn:E; [|done]. assert (existsb p l = true); [|congruence].
    apply existsb_exists. exists x. split; [by apply list_elem_of_In|done].
  - intros Hn. destruct (existsb p l) eqn:E; [|done]. apply existsb_exists in E as (x & Hx%list_elem_of_In & Hp).
    by rewrite (Hn x Hx) in Hp.
Qed.

Lemma existsb_true {A} (p : A -> bool) l : existsb p l = true <-> exists x, x ∈ l /\ p x = true.
Proof. rewrite existsb_exists. setoid_rewrite list_elem_of_In. done. Qed.

Lemma find_app_one {A} (p : A -> bool) l x :
  find p (l ++ [x]) = match find p l with Some y => Some y | None => if p x then Some x else None end.
Proof. induction l as [|y l IH]; cbn; [done|]. by destruct (p y). Qed.

(** Rows with different keys. *)
Definition unique {A K} (key : A -> K) (l : list A) : Prop := NoDup (map key l).

Lemma unique_inj {A K} (key : A -> K) l x y : unique key l -> x ∈ l -> y ∈ l -> key x = key y -> x = y.
Proof.
  unfold unique. induction l as [|z l IH]; intros Hu Hx Hy E; [by apply elem_of_nil in Hx|]. cbn in Hu.
  apply NoDup_cons in Hu as [Hz Hu]. apply elem_of_cons in Hx as [->|Hx]; apply elem_of_cons in Hy as [->|Hy]; try done.
  - exfalso. apply Hz. rewrite E. by apply list_elem_of_fmap_2.
  - exfalso. apply Hz. rewrite <- E. by apply list_elem_of_fmap_2.
  - by apply IH.
Qed.

Lemma unique_app_one {A K} (key : A -> K) l x :
  unique key l -> (forall y, y ∈ l -> key y <> key x) -> unique key (l ++ [x]).
Proof.
  intros Hu Hx. unfold unique. rewrite map_app. apply NoDup_app. split_and!; [done| |apply NoDup_singleton].
  intros k (y & -> & Hy)%list_elem_of_fmap Hk%list_elem_of_singleton. by eapply Hx.
Qed.

Lemma unique_map {A K} (key : A -> K) (f : A -> A) l : (forall x, key (f x) = key x) -> unique key l -> unique key (map f l).
Proof. intros Hf Hu. unfold unique. rewrite map_map. erewrite map_ext; [exact Hu|]. done. Qed.

Lemma find_unique {A} (key : A -> str) l k x :
  unique key l -> find (fun r => str_eqb (key r) k) l = Some x <-> x ∈ l /\ key x = k.
Proof.
  intros Hu. split.
  - intros [? E%str_eqb_eq]%find_Some_elem. done.
  - intros [Hx E]. destruct (find _ l) as [y|] eqn:F.
    + apply find_Some_elem in F as [Hy E'%str_eqb_eq]. f_equal. eapply unique_inj; eauto. congruence.
    + rewrite find_None_elem in F. specialize (F x Hx). by apply str_eqb_neq in F.
Qed.

(** A conditional update of one row finds exactly that row. *)
Lemma filter_unique {A} (key : A -> str) (p : A -> bool) l x :
  unique key l -> x ∈ l -> p x = true -> (forall y, p y = true -> key y = key x) -> List.filter p l = [x].
Proof.
  intros Hu Hx Hp Hk. induction l as [|y l IH]; [by apply elem_of_nil in Hx|]. cbn.
  assert (unique key l) as Hu' by (by apply NoDup_cons in Hu as [_ ?]).
  destruct (p y) eqn:Ey.
  - assert (y = x) as -> by (apply (unique_inj key (y :: l)); [done|by left|done|by apply Hk]). f_equal.
    destruct (List.filter p l) as [|z zs] eqn:E; [done|]. assert (z ∈ List.filter p l) as Hz by (rewrite E; by left).
    apply list_elem_of_In, filter_In in Hz as [Hz%list_elem_of_In Hpz].
    apply NoDup_cons in Hu as [Hn _]. exfalso. apply Hn. rewrite <- (Hk z Hpz). by apply list_elem_of_fmap_2.
  - apply elem_of_cons in Hx as [->|Hx]; [congruence|]. by apply IH.
Qed.

(** ** Well-formed rows *)

Definition id_ok (id : str) : Prop := ReviewId_parse id = Ok id.
Definition binding_ok (b : ReviewBinding) : Prop := binding_validate b = Ok tt.

Lemma id_ok_spec id : id_ok id <-> len id = 64 /\ forallb is_lower_hex id = true.
Proof.
  unfold id_ok, ReviewId_parse. destruct (len id =? REVIEW_ID_HEX_LEN) eqn:E, (forallb is_lower_hex id); cbn;
    apply Z.eqb_eq in E || apply Z.eqb_neq in E; change (REVIEW_ID_HEX_LEN) with 64 in E; naive_solver.
Qed.

Lemma hex_id bytes : length bytes = 32%nat -> Forall is_u8 bytes -> id_ok (lower_hex bytes).
Proof. intros Hl Hb. apply lower_hex_shape in Hb as [Hlen Hhex]. apply id_ok_spec. split; [|done]. rewrite Hlen. unfold len. by rewrite Hl. Qed.

Lemma binding_ok_new b : binding_ok b -> ReviewBinding_new b = Ok b.
Proof. unfold binding_ok, ReviewBinding_new. by intros ->. Qed.

Lemma control_values_Ok values u : validate_control_values values = Ok u <-> Forall (fun v => validate_control_value v = Ok tt) values.
Proof.
  destruct u. induction values as [|v values IH]; cbn [validate_control_values]; [done|]. rewrite Forall_cons, <- IH, bind_Ok.
  split; [intros ([] & ? & ?); done|intros [? ?]; by exists tt].
Qed.

Lemma digest_valid sha256 domain parts : sha256_digest sha256 -> valid_sha256 (digest sha256 domain parts) = true.
Proof.
  intros Hs. destruct (Hs (digest_input domain parts)) as [Hl Hd]. apply lower_hex_shape in Hd as [Hlen Hhex].
  unfold valid_sha256, digest. rewrite len_app, Hlen. unfold len. rewrite Hl. cbn. done.
Qed.

(** The row of a review in a given state. *)
Definition review_row (id : str) (b : ReviewBinding) (s : ReviewState) : StoredReview :=
  {| sr_review_id := id; sr_binding := b; sr_state := state_as_str s |}.
Definition review_at (j : Journal) (id : str) (b : ReviewBinding) (s : ReviewState) : Prop := review_row id b s ∈ reviews j.

Definition review_row_ok (row : StoredReview) : Prop :=
  id_ok (sr_review_id row) /\ binding_ok (sr_binding row) /\ exists s, sr_state row = state_as_str s.

Lemma decode_review_ok id b s :
  id_ok id -> binding_ok b -> decode_review (review_row id b s) = Ok {| rv_review_id := id; rv_binding := b; rv_state := s |}.
Proof.
  intros Hi Hb. unfold decode_review. cbn [review_row sr_review_id sr_binding sr_state]. unfold id_ok in Hi.
  rewrite Hi, (binding_ok_new b Hb), (proj2 (state_roundtrip _ s) eq_refl). done.
Qed.

Lemma review_row_eta row : review_row_ok row -> exists s, row = review_row (sr_review_id row) (sr_binding row) s.
Proof. intros (_ & _ & s & E). exists s. destruct row; cbn in *. by rewrite E. Qed.

(** The columns of a Proposal. *)
Definition proposal_of (b : ReviewBinding) : str * str * str := (project_scope b, proposal_ref_name b, proposal_head b).

Lemma same_proposal_true a b : same_proposal a b = true <-> proposal_of a = proposal_of b.
Proof. unfold same_proposal, proposal_of. rewrite !andb_true_iff, !str_eqb_eq. split; [by intros [[-> ->] ->]|]. by intros [= -> -> ->]. Qed.

Lemma same_proposal_false a b : same_proposal a b = false <-> proposal_of a <> proposal_of b.
Proof. rewrite <- same_proposal_true. by destruct (same_proposal a b). Qed.

Definition intent_row_ok (row : ProposalIntent) : Prop := decode_proposal_intent row = Ok row.

Lemma intent_row_ok_iff row : intent_row_ok row <->
  valid_sha256 (pi_idempotency_digest row) = true /\ valid_sha256 (pi_request_fingerprint row) = true /\
  valid_artifact_manifest_sha256 (pi_artifact_manifest_sha256 row) = true /\ id_ok (pi_id row) /\ binding_ok (pi_binding row) /\
  forall id, pi_review_id row = Some id -> id_ok id.
Proof.
  unfold intent_row_ok, decode_proposal_intent, ReviewBinding_new. change ProposalIntentId_parse with ReviewId_parse. split.
  - unfold stored. intros Hd. result_inv. bool_props. destruct row as [i k f m b r]. simplify_eq/=. split_and!; try done.
    + unfold binding_ok. by repeat match goal with H : unit |- _ => destruct H end.
    + intros id ->. unfold id_ok. repeat match goal with H : _ = Ok _ |- _ => progress result_inv end. congruence.
  - unfold id_ok, binding_ok. intros (-> & -> & -> & -> & -> & Hr). cbn. destruct row as [i k f m b [r|]]; cbn in *; [|done].
    by rewrite (Hr r eq_refl).
Qed.

Definition decision_row_ok (row : DecisionIntent) : Prop :=
  valid_sha256 (di_idempotency_digest row) = true /\ valid_sha256 (di_request_fingerprint row) = true /\
  validate_control_values [di_candidate_head row; di_feedback_oid row; di_expected_decision_head row] = Ok tt.

(** ** Well-formed journals *)

Record journal_ok (j : Journal) : Prop := {
  jo_reviews : Forall review_row_ok (reviews j);
  jo_review_ids : unique sr_review_id (reviews j);
  jo_review_proposals : unique (fun r => proposal_of (sr_binding r)) (reviews j);
  jo_intents : Forall intent_row_ok (proposal_intents j);
  jo_intent_ids : unique pi_id (proposal_intents j);
  jo_intent_keys : unique (fun r => (project_scope (pi_binding r), pi_idempotency_digest r)) (proposal_intents j);
  jo_intent_proposals : unique (fun r => proposal_of (pi_binding r)) (proposal_intents j);
  jo_links : forall row id, row ∈ proposal_intents j -> pi_review_id row = Some id -> exists s, review_at j id (pi_binding row) s;
  jo_decisions : forall row, row ∈ decision_intents j -> decision_row_ok row /\
    exists b s, review_at j (di_review_id row) b s /\ di_expected_decision_head row = expected_decision_head b;
  jo_decision_ids : unique di_review_id (decision_intents j);
  jo_commits : forall row, row ∈ decision_commit_intents j -> exists intent s,
    load_decision_commit_intent j (sc_review_id row) = Ok (Some intent) /\ review_at j (sc_review_id row) (ci_binding intent) s;
  jo_commit_ids : unique sc_review_id (decision_commit_intents j);
  jo_outcomes : forall row, row ∈ decision_outcomes j -> exists intent outcome b,
    load_decision_commit_intent j (so_review_id row) = Ok (Some intent) /\ decode_outcome (so_review_id row) row = Ok outcome /\
    review_at j (so_review_id row) b DecisionCommitted /\
    decision_outcome_matches_intent intent {| rv_review_id := so_review_id row; rv_binding := b; rv_state := DecisionCommitted |}
      outcome = true;
  jo_outcome_ids : unique so_review_id (decision_outcomes j);
}.

Lemma empty_journal_ok : journal_ok empty_journal.
Proof. split; try (intros; by match goal with H : _ ∈ _ |- _ => apply elem_of_nil in H end); try apply NoDup_nil_2; constructor. Qed.

(** ** Loading from a well-formed journal *)

Lemma optional_Some {A B} (row : option A) (decode : A -> jresult B) b :
  optional row decode = Ok (Some b) <-> exists a, row = Some a /\ decode a = Ok b.
Proof. destruct row as [a|]; cbn; [|naive_solver]. rewrite bind_Ok. naive_solver. Qed.

Lemma optional_None {A B} (row : option A) (decode : A -> jresult B) : optional row decode = Ok None <-> row = None.
Proof. destruct row as [a|]; cbn; [|done]. rewrite bind_Ok. naive_solver. Qed.

Lemma optional_total {A B} (row : option A) (decode : A -> jresult B) :
  (forall a, row = Some a -> exists b, decode a = Ok b) -> exists o, optional row decode = Ok o.
Proof. destruct row as [a|]; cbn; [|by eauto]. intros Ha. destruct (Ha a eq_refl) as [b ->]. by eexists. Qed.

Section Loads.
Variable j : Journal.
Hypothesis Hj : journal_ok j.

Lemma review_at_ok id b s : review_at j id b s -> id_ok id /\ binding_ok b.
Proof. intros Hr. pose proof (jo_reviews j Hj) as Hf. rewrite Forall_forall in Hf. by destruct (Hf _ Hr) as (? & ? & _). Qed.

Lemma review_at_inj id b s b' s' : review_at j id b s -> review_at j id b' s' -> b = b' /\ s = s'.
Proof.
  intros H1 H2. pose proof (unique_inj _ _ _ _ (jo_review_ids j Hj) H1 H2 eq_refl) as E. injection E as -> E.
  by apply state_as_str_inj in E as ->.
Qed.

Lemma review_at_proposal id b s id' b' s' :
  review_at j id b s -> review_at j id' b' s' -> proposal_of b = proposal_of b' -> id = id' /\ b = b' /\ s = s'.
Proof.
  intros H1 H2 Hp. pose proof (unique_inj _ _ _ _ (jo_review_proposals j Hj) H1 H2 Hp) as E. injection E as -> -> E.
  by apply state_as_str_inj in E as ->.
Qed.

Lemma load_review_Some id r :
  load_review j id = Ok (Some r) <-> rv_review_id r = id /\ review_at j id (rv_binding r) (rv_state r).
Proof.
  unfold load_review. rewrite optional_Some. setoid_rewrite (find_unique sr_review_id); [|apply (jo_review_ids j Hj)]. split.
  - intros (row & [Hin Hid] & Hd). pose proof (jo_reviews j Hj) as Hf. rewrite Forall_forall in Hf. specialize (Hf row Hin).
    destruct (review_row_eta row Hf) as [s E]. destruct Hf as (Hi & Hb & _). rewrite E in Hd.
    rewrite decode_review_ok in Hd by done. injection Hd as <-. cbn. split; [done|]. unfold review_at. by rewrite <- Hid, <- E.
  - intros [<- Hr]. destruct (review_at_ok _ _ _ Hr) as [Hi Hb]. eexists. split; [split; [exact Hr|done]|].
    rewrite decode_review_ok by done. by destruct r.
Qed.

Lemma load_review_None id : load_review j id = Ok None <-> forall row, row ∈ reviews j -> sr_review_id row <> id.
Proof. unfold load_review. rewrite optional_None, find_None_elem. by setoid_rewrite str_eqb_neq. Qed.

Lemma decode_review_total row : row ∈ reviews j -> exists r, decode_review row = Ok r.
Proof.
  intros Hin. pose proof (jo_reviews j Hj) as Hf. rewrite Forall_forall in Hf. specialize (Hf row Hin).
  destruct (review_row_eta row Hf) as [s ->]. destruct Hf as (Hi & Hb & _). eexists. by apply decode_review_ok.
Qed.

Lemma load_review_total id : exists o, load_review j id = Ok o.
Proof. apply optional_total. intros row [Hin _]%find_Some_elem. by apply decode_review_total. Qed.

Lemma load_review_by_proposal_Some b r :
  load_review_by_proposal j b = Ok (Some r) <->
  proposal_of (rv_binding r) = proposal_of b /\ review_at j (rv_review_id r) (rv_binding r) (rv_state r).
Proof.
  unfold load_review_by_proposal. rewrite optional_Some. split.
  - intros (row & [Hin Hp%same_proposal_true]%find_Some_elem & Hd). pose proof (jo_reviews j Hj) as Hf. rewrite Forall_forall in Hf.
    specialize (Hf row Hin). destruct (review_row_eta row Hf) as [s E]. destruct Hf as (Hi & Hb & _). rewrite E in Hd.
    rewrite decode_review_ok in Hd by done. injection Hd as <-. cbn. split; [done|]. unfold review_at. by rewrite <- E.
  - intros [Hp Hr]. destruct (find _ _) as [row|] eqn:F.
    + apply find_Some_elem in F as [Hin Hp'%same_proposal_true].
      assert (row = review_row (rv_review_id r) (rv_binding r) (rv_state r)) as ->.
      { eapply (unique_inj _ _ _ _ (jo_review_proposals j Hj)); [done|exact Hr|]. cbn. congruence. }
      destruct (review_at_ok _ _ _ Hr) as [Hi Hb]. eexists. split; [done|]. rewrite decode_review_ok by done. by destruct r.
    + rewrite find_None_elem in F. specialize (F _ Hr). by rewrite same_proposal_false in F.
Qed.

Lemma load_review_by_proposal_None b :
  load_review_by_proposal j b = Ok None <-> forall row, row ∈ reviews j -> proposal_of (sr_binding row) <> proposal_of b.
Proof. unfold load_review_by_proposal. rewrite optional_None, find_None_elem. by setoid_rewrite same_proposal_false. Qed.

Lemma load_review_by_proposal_total b : exists o, load_review_by_proposal j b = Ok o.
Proof. apply optional_total. intros row [Hin _]%find_Some_elem. by apply decode_review_total. Qed.

(** Queries of [proposal_intents]. *)
Lemma intents_Some p row :
  optional (find p (proposal_intents j)) decode_proposal_intent = Ok (Some row) -> row ∈ proposal_intents j /\ p row = true.
Proof.
  rewrite optional_Some. intros (r & [Hin Hp]%find_Some_elem & Hd). pose proof (jo_intents j Hj) as Hf. rewrite Forall_forall in Hf.
  specialize (Hf r Hin). unfold intent_row_ok in Hf. rewrite Hf in Hd. by injection Hd as <-.
Qed.

Lemma intents_find p row :
  row ∈ proposal_intents j -> p row = true -> (forall r, r ∈ proposal_intents j -> p r = true -> r = row) ->
  optional (find p (proposal_intents j)) decode_proposal_intent = Ok (Some row).
Proof.
  intros Hin Hp Hu. apply optional_Some. destruct (find p (proposal_intents j)) as [r|] eqn:F.
  - apply find_Some_elem in F as [Hr Hpr]. rewrite (Hu r Hr Hpr). exists row. split; [done|].
    pose proof (jo_intents j Hj) as Hf. rewrite Forall_forall in Hf. by apply Hf.
  - rewrite find_None_elem in F. by rewrite (F row Hin) in Hp.
Qed.

Lemma intents_total p : exists o, optional (find p (proposal_intents j)) decode_proposal_intent = Ok o.
Proof.
  apply optional_total. intros row [Hin _]%find_Some_elem. exists row.
  pose proof (jo_intents j Hj) as Hf. rewrite Forall_forall in Hf. by apply Hf.
Qed.

Lemma intents_None p :
  optional (find p (proposal_intents j)) decode_proposal_intent = Ok None <-> forall row, row ∈ proposal_intents j -> p row = false.
Proof. by rewrite optional_None, find_None_elem. Qed.

Lemma load_proposal_intent_Some id row :
  load_proposal_intent j id = Ok (Some row) <-> row ∈ proposal_intents j /\ pi_id row = id.
Proof.
  split; [intros [? E%str_eqb_eq]%intents_Some; done|]. intros [Hin <-]. apply intents_find; [done|apply str_eqb_refl|].
  intros r Hr E%str_eqb_eq. by apply (unique_inj _ _ _ _ (jo_intent_ids j Hj)).
Qed.

Lemma load_by_idempotency_Some scope key row :
  load_proposal_intent_by_idempotency j scope key = Ok (Some row) <->
  row ∈ proposal_intents j /\ project_scope (pi_binding row) = scope /\ pi_idempotency_digest row = key.
Proof.
  split.
  - intros [? [E1 E2]%andb_true_iff]%intents_Some. apply str_eqb_eq in E1, E2. done.
  - intros (Hin & <- & <-). apply intents_find; [done|by rewrite !str_eqb_refl|].
    intros r Hr [E1 E2]%andb_true_iff. apply str_eqb_eq in E1, E2. apply (unique_inj _ _ _ _ (jo_intent_keys j Hj)); [done..|congruence].
Qed.

(** Linked rows of the same review are the same row. *)
Lemma linked_unique row row' id :
  row ∈ proposal_intents j -> row' ∈ proposal_intents j -> pi_review_id row = Some id -> pi_review_id row' = Some id -> row = row'.
Proof.
  intros H1 H2 E1 E2. destruct (jo_links j Hj _ _ H1 E1) as [s Hs], (jo_links j Hj _ _ H2 E2) as [s' Hs'].
  destruct (review_at_inj _ _ _ _ _ Hs Hs') as [E _]. apply (unique_inj _ _ _ _ (jo_intent_proposals j Hj)); [done..|]. cbn. congruence.
Qed.

Lemma load_by_review_Some id row :
  load_proposal_intent_by_review j id = Ok (Some row) <-> row ∈ proposal_intents j /\ pi_review_id row = Some id.
Proof.
  split; [intros [? E%bool_decide_eq_true]%intents_Some; done|]. intros [Hin E]. apply intents_find; [done|by apply bool_decide_eq_true|].
  intros r Hr E'%bool_decide_eq_true. by eapply linked_unique.
Qed.

Lemma check_link_ok row : row ∈ proposal_intents j -> validate_proposal_intent_review_link j row = Ok tt.
Proof.
  intros Hin. unfold validate_proposal_intent_review_link. destruct (pi_review_id row) as [id|] eqn:E; [|done].
  destruct (jo_links j Hj _ _ Hin E) as [s Hs].
  assert (load_review j id = Ok (Some {| rv_review_id := id; rv_binding := pi_binding row; rv_state := s |})) as ->.
  { by apply load_review_Some. }
  cbn. by rewrite bool_decide_eq_true_2.
Qed.

(** Decision intents. *)
Lemma intent_row_Some id row : intent_row j id = Some row <-> row ∈ decision_intents j /\ di_review_id row = id.
Proof. apply find_unique, jo_decision_ids, Hj. Qed.

Lemma load_intent_Some id row : load_intent j id = Ok (Some row) <-> intent_row j id = Some row.
Proof.
  unfold load_intent. rewrite optional_Some. split.
  - intros (r & Hr & Hd). result_inv. done.
  - intros Hr. exists row. split; [done|]. apply intent_row_Some in Hr as [Hin _]. destruct (jo_decisions j Hj _ Hin) as [(H1 & H2 & H3) _].
    by rewrite H1, H2, H3.
Qed.

Lemma load_intent_None id : load_intent j id = Ok None <-> intent_row j id = None.
Proof. apply optional_None. Qed.

Lemma load_intent_total id : exists o, load_intent j id = Ok o.
Proof. destruct (intent_row j id) as [row|] eqn:E; [apply load_intent_Some in E|apply load_intent_None in E]; by eexists. Qed.

(** Strict intents and outcomes. *)
Definition commit_found (id : str) : bool := existsb (fun row => str_eqb (sc_review_id row) id) (decision_commit_intents j).

Lemma commit_found_true id : commit_found id = true <-> exists row, row ∈ decision_commit_intents j /\ sc_review_id row = id.
Proof. unfold commit_found. rewrite existsb_true. by setoid_rewrite str_eqb_eq. Qed.

Lemma load_commit_found id i : load_decision_commit_intent j id = Ok (Some i) ->
  ci_review_id i = id /\ commit_found id = true /\ (exists s, review_at j id (ci_binding i) s) /\ is_Some (intent_row j id).
Proof.
  intros Hl. pose proof Hl as (r & Hr & Hd)%optional_Some. unfold commit_intent_row in Hr.
  destruct (intent_row j id) as [legacy|] eqn:El; cbn in Hr; [|done].
  destruct (find _ _) as [exact|] eqn:Ee; cbn in Hr; [|done]. injection Hr as <-.
  apply find_Some_elem in Ee as [Hin Eid%str_eqb_eq]. split_and!; [| | |by eexists].
  - unfold decode_commit_intent in Hd. result_inv. done.
  - apply commit_found_true. by exists exact.
  - destruct (jo_commits j Hj _ Hin) as (i' & s & Hi' & Hs). rewrite Eid in Hi', Hs. rewrite Hl in Hi'. injection Hi' as <-. by exists s.
Qed.

Lemma load_commit_cases id :
  (commit_found id = false /\ load_decision_commit_intent j id = Ok None) \/
  (commit_found id = true /\ exists i, load_decision_commit_intent j id = Ok (Some i)).
Proof.
  destruct (commit_found id) eqn:E.
  - right. split; [done|]. apply commit_found_true in E as (row & Hin & <-). destruct (jo_commits j Hj _ Hin) as (i & s & Hi & _). by exists i.
  - left. split; [done|]. unfold load_decision_commit_intent. apply optional_None. unfold commit_intent_row.
    destruct (intent_row j id); cbn; [|done]. assert (find (fun row => str_eqb (sc_review_id row) id) (decision_commit_intents j) = None) as ->; [|done].
    apply find_None_elem. by apply existsb_false.
Qed.

Lemma load_outcome_Some id o : load_decision_outcome j id = Ok (Some o) ->
  oc_review_id o = id /\ exists i b, load_decision_commit_intent j id = Ok (Some i) /\ review_at j id b DecisionCommitted /\
    decision_outcome_matches_intent i {| rv_review_id := id; rv_binding := b; rv_state := DecisionCommitted |} o = true.
Proof.
  intros (row & [Hin Eid%str_eqb_eq]%find_Some_elem & Hd)%optional_Some.
  destruct (jo_outcomes j Hj _ Hin) as (i & o' & b & Hi & Ho & Hr & Hm). rewrite Eid in *. rewrite Hd in Ho. injection Ho as <-.
  split; [unfold decode_outcome in Hd; result_inv; done|]. by exists i, b.
Qed.

Lemma load_outcome_total id : exists o, load_decision_outcome j id = Ok o.
Proof.
  apply optional_total. intros row [Hin Eid%str_eqb_eq]%find_Some_elem.
  destruct (jo_outcomes j Hj _ Hin) as (i & o & b & _ & Ho & _). rewrite Eid in Ho. by exists o.
Qed.

Lemma load_commit_total id : exists o, load_decision_commit_intent j id = Ok o.
Proof. destruct (load_commit_cases id) as [[_ ->]|[_ [i ->]]]; by eexists. Qed.
End Loads.

(** ** The review journal: what operations can do to the tables

    [effect] is the journal's transition system: eight ways in which the tables change, each
    with what the code has established by then.  Well-formedness and the strict (v2) rules are
    shown to survive every effect, so that an operation is verified by naming its effects. *)

Definition linked (j : Journal) (id : str) : Prop := exists row, row ∈ proposal_intents j /\ pi_review_id row = Some id.

(** A move of the state: an allowed transition, or the reconciliation of an unknown outcome. *)
Definition moves (from to : ReviewState) : Prop :=
  from <> to /\ (state_transition_allowed from to = true \/ from = OutcomeUnknown /\ to = RetryableFailure).

Definition legacy_row (i : DecisionCommitIntent) : DecisionIntent :=
  {| di_review_id := ci_review_id i; di_idempotency_digest := ci_idempotency_digest i;
     di_request_fingerprint := ci_request_fingerprint i; di_candidate_head := ci_new_decision_head i;
     di_feedback_oid := ci_feedback_oid i; di_expected_decision_head := expected_decision_head (ci_binding i) |}.

Definition exact_row (i : DecisionCommitIntent) : StoredCommitIntent :=
  {| sc_review_id := ci_review_id i; sc_project_scope := project_scope (ci_binding i);
     sc_proposal_ref_name := proposal_ref_name (ci_binding i); sc_proposal_head := proposal_head (ci_binding i);
     sc_decision_ref_name := decision_ref_name (ci_binding i); sc_disposition := disposition_as_str (ci_disposition i);
     sc_selected_snapshot := snapshot_as_str (ci_selected_snapshot i);
     sc_reviewed_artifact_manifest_sha256 := ci_reviewed_artifact_manifest_sha256 i |}.

Definition outcome_row (o : DecisionOutcome) : StoredOutcome :=
  {| so_review_id := oc_review_id o; so_disposition := disposition_as_str (oc_disposition o);
     so_selected_snapshot := snapshot_as_str (oc_selected_snapshot o);
     so_reviewed_artifact_manifest_sha256 := oc_reviewed_artifact_manifest_sha256 o;
     so_proposal_head := oc_proposal_head o; so_expected_decision_head := oc_expected_decision_head o;
     so_new_decision_head := oc_new_decision_head o; so_feedback_oid := oc_feedback_oid o |}.

Definition with_state (id : str) (from to : ReviewState) (j : Journal) : Journal := (update_state id from to j).1.

(** The effects of the strict (v2) operations. *)
Inductive strict_effect (j : Journal) : Journal -> Prop :=
| eff_intent row :
    intent_row_ok row -> pi_review_id row = None -> (forall r, r ∈ proposal_intents j -> pi_id r <> pi_id row) ->
    (forall r, r ∈ proposal_intents j ->
       (project_scope (pi_binding r), pi_idempotency_digest r) <> (project_scope (pi_binding row), pi_idempotency_digest row)) ->
    (forall r, r ∈ proposal_intents j -> proposal_of (pi_binding r) <> proposal_of (pi_binding row)) ->
    (forall r, r ∈ reviews j -> proposal_of (sr_binding r) <> proposal_of (pi_binding row)) ->
    strict_effect j (set_proposal_intents (proposal_intents j ++ [row]) j)
| eff_link row id s :
    row ∈ proposal_intents j -> pi_review_id row = None -> review_at j id (pi_binding row) s ->
    strict_effect j (set_proposal_intents (map (fun r => if unlinked (pi_id row) r then link_review id r else r) (proposal_intents j)) j)
| eff_publish row id :
    id_ok id -> (forall r, r ∈ reviews j -> sr_review_id r <> id) ->
    (forall r, r ∈ reviews j -> proposal_of (sr_binding r) <> proposal_of (pi_binding row)) ->
    row ∈ proposal_intents j -> pi_review_id row = None ->
    strict_effect j (set_proposal_intents (map (fun r => if unlinked (pi_id row) r then link_review id r else r) (proposal_intents j))
                (set_reviews (reviews j ++ [review_row id (pi_binding row) PendingReview]) j))
| eff_state id b from to :
    review_at j id b from -> moves from to ->
    (to = DecisionCommitted -> ~ linked j id /\ commit_found j id = false) ->
    (to = OutcomeUnknown -> linked j id -> commit_found j id = true) ->
    (from = OutcomeUnknown -> to = RetryableFailure -> commit_found j id = true) ->
    strict_effect j (with_state id from to j)
| eff_decision row b s :
    decision_row_ok row -> review_at j (di_review_id row) b s -> di_expected_decision_head row = expected_decision_head b ->
    intent_row j (di_review_id row) = None ->
    strict_effect j (set_decision_intents (decision_intents j ++ [row]) j)
| eff_commit i s :
    valid_sha256 (ci_idempotency_digest i) = true -> valid_sha256 (ci_request_fingerprint i) = true ->
    validate_stored_decision_commit_intent i = Ok tt -> review_at j (ci_review_id i) (ci_binding i) s ->
    open_for_decision s = true -> intent_row j (ci_review_id i) = None ->
    strict_effect j (set_commit_intents (decision_commit_intents j ++ [exact_row i])
                (set_decision_intents (decision_intents j ++ [legacy_row i]) j))
| eff_outcome i o b s :
    load_decision_commit_intent j (oc_review_id o) = Ok (Some i) -> load_decision_outcome j (oc_review_id o) = Ok None ->
    review_at j (oc_review_id o) b s -> open_for_outcome s = true ->
    decision_outcome_matches_intent i {| rv_review_id := oc_review_id o; rv_binding := b; rv_state := s |} o = true ->
    validate_stored_decision_outcome o = Ok tt ->
    strict_effect j (with_state (oc_review_id o) s DecisionCommitted (set_outcomes (decision_outcomes j ++ [outcome_row o]) j)).

(** A review may also be created alone, by the compatibility operation. *)
Inductive effect (j : Journal) : Journal -> Prop :=
| eff_review id b :
    id_ok id -> binding_ok b -> (forall r, r ∈ reviews j -> sr_review_id r <> id) ->
    (forall r, r ∈ reviews j -> proposal_of (sr_binding r) <> proposal_of b) ->
    effect j (set_reviews (reviews j ++ [review_row id b PendingReview]) j)
| eff_strict j' : strict_effect j j' -> effect j j'.

(** ** Reviews under effects *)

Definition reviews_kept (j j' : Journal) : Prop :=
  forall id b s, review_at j id b s -> exists s', review_at j' id b s' /\ (s = DecisionCommitted -> s' = DecisionCommitted).

Definition restate (id : str) (from to : ReviewState) (row : StoredReview) : StoredReview :=
  if at_state id from row then {| sr_review_id := sr_review_id row; sr_binding := sr_binding row; sr_state := state_as_str to |} else row.

Lemma with_state_reviews id from to j : reviews (with_state id from to j) = map (restate id from to) (reviews j).
Proof. done. Qed.

Lemma restate_id id from to row : sr_review_id (restate id from to row) = sr_review_id row.
Proof. unfold restate. by destruct (at_state _ _ _). Qed.

Lemma restate_binding id from to row : sr_binding (restate id from to row) = sr_binding row.
Proof. unfold restate. by destruct (at_state _ _ _). Qed.

Lemma restate_row id from to id' b s :
  restate id from to (review_row id' b s) = review_row id' b (if bool_decide (id' = id) && bool_decide (s = from) then to else s).
Proof.
  unfold restate, at_state. cbn.
  assert (str_eqb id' id = bool_decide (id' = id)) as -> by done.
  assert (str_eqb (state_as_str s) (state_as_str from) = bool_decide (s = from)) as ->.
  { unfold str_eqb. apply bool_decide_ext. split; [apply state_as_str_inj|by intros ->]. }
  by destruct (_ && _).
Qed.

Lemma with_state_at j id from to id' b s :
  review_at j id' b s ->
  review_at (with_state id from to j) id' b (if bool_decide (id' = id) && bool_decide (s = from) then to else s).
Proof. intros Hr. unfold review_at. rewrite with_state_reviews, <- restate_row. by apply list_elem_of_fmap_2. Qed.

Lemma with_state_kept j id from to : from <> DecisionCommitted -> reviews_kept j (with_state id from to j).
Proof.
  intros Hf id' b s Hr. eexists. split; [by apply with_state_at|]. intros ->.
  rewrite (bool_decide_eq_false_2 (DecisionCommitted = from)) by done. by rewrite andb_false_r.
Qed.

Lemma moves_from from to : moves from to -> from <> DecisionCommitted /\ from <> TerminalDenial.
Proof. intros [Hne [Ha|[-> ->]]]; [|done]. by destruct from. Qed.

Lemma open_from s : open_for_outcome s = true -> s <> DecisionCommitted.
Proof. by destruct s. Qed.

Lemma reviews_ok_app j row : Forall review_row_ok (reviews j) -> review_row_ok row -> Forall review_row_ok (reviews j ++ [row]).
Proof. intros. apply Forall_app. split; [done|]. by apply Forall_singleton. Qed.

Lemma reviews_ok_restate id from to rows : Forall review_row_ok rows -> Forall review_row_ok (map (restate id from to) rows).
Proof.
  intros Hf. apply Forall_forall. intros r (row & -> & Hin)%list_elem_of_fmap. rewrite Forall_forall in Hf.
  destruct (review_row_eta row (Hf row Hin)) as [s E]. destruct (Hf row Hin) as (Hi & Hb & _). unfold review_row_ok.
  rewrite restate_id, restate_binding. split_and!; [done..|]. rewrite E, restate_row. by eexists.
Qed.

(** ** Decisions under effects *)

Lemma find_app_found {A} (p : A -> bool) l k x : find p l = Some x -> find p (l ++ k) = Some x.
Proof. induction l as [|y l IH]; cbn; [done|]. by destruct (p y). Qed.

(** The rows of decisions only grow. *)
Record decisions_grow (j j' : Journal) : Prop := {
  dg_legacy : exists k, decision_intents j' = decision_intents j ++ k;
  dg_exact : exists k, decision_commit_intents j' = decision_commit_intents j ++ k;
}.

Lemma load_commit_grows j j' id i :
  decisions_grow j j' -> load_decision_commit_intent j id = Ok (Some i) -> load_decision_commit_intent j' id = Ok (Some i).
Proof.
  intros [[k Hk] [k' Hk']] (row & Hr & Hd)%optional_Some. apply optional_Some. exists row. split; [|done].
  unfold commit_intent_row, intent_row in *. destruct (find _ (decision_intents j)) as [legacy|] eqn:E; cbn in Hr; [|done].
  rewrite Hk, (find_app_found _ _ _ _ E). cbn. destruct (find _ (decision_commit_intents j)) as [exact|] eqn:E'; cbn in Hr; [|done].
  by rewrite Hk', (find_app_found _ _ _ _ E').
Qed.

Lemma grows_refl j j' : decision_intents j' = decision_intents j -> decision_commit_intents j' = decision_commit_intents j -> decisions_grow j j'.
Proof. intros E1 E2. split; exists []; by rewrite app_nil_r. Qed.

(** What the rows of decisions need of the rest of the journal. *)
Lemma decisions_kept j j' : journal_ok j -> reviews_kept j j' -> decision_intents j' = decision_intents j ->
  forall row, row ∈ decision_intents j' -> decision_row_ok row /\
    exists b s, review_at j' (di_review_id row) b s /\ di_expected_decision_head row = expected_decision_head b.
Proof.
  intros Hj Hk E row Hin. rewrite E in Hin. destruct (jo_decisions j Hj _ Hin) as [Hok (b & s & Hr & Hx)]. split; [done|].
  destruct (Hk _ _ _ Hr) as (s' & Hr' & _). by exists b, s'.
Qed.

Lemma commits_kept j j' : journal_ok j -> reviews_kept j j' -> decisions_grow j j' -> forall row, row ∈ decision_commit_intents j ->
  exists intent s, load_decision_commit_intent j' (sc_review_id row) = Ok (Some intent) /\
    review_at j' (sc_review_id row) (ci_binding intent) s.
Proof.
  intros Hj Hk Hg row Hin. destruct (jo_commits j Hj _ Hin) as (i & s & Hl & Hr). destruct (Hk _ _ _ Hr) as (s' & Hr' & _).
  exists i, s'. split; [by eapply load_commit_grows|done].
Qed.

Lemma outcomes_kept j j' : journal_ok j -> reviews_kept j j' -> decisions_grow j j' -> forall row, row ∈ decision_outcomes j ->
  exists intent outcome b,
    load_decision_commit_intent j' (so_review_id row) = Ok (Some intent) /\ decode_outcome (so_review_id row) row = Ok outcome /\
    review_at j' (so_review_id row) b DecisionCommitted /\
    decision_outcome_matches_intent intent {| rv_review_id := so_review_id row; rv_binding := b; rv_state := DecisionCommitted |}
      outcome = true.
Proof.
  intros Hj Hk Hg row Hin. destruct (jo_outcomes j Hj _ Hin) as (i & o & b & Hl & Hd & Hr & Hm).
  destruct (Hk _ _ _ Hr) as (s' & Hr' & E). rewrite (E eq_refl) in Hr'. exists i, o, b. split_and!; [by eapply load_commit_grows|done..].
Qed.

Lemma links_kept j j' : journal_ok j -> reviews_kept j j' -> proposal_intents j' = proposal_intents j ->
  forall row id, row ∈ proposal_intents j' -> pi_review_id row = Some id -> exists s, review_at j' id (pi_binding row) s.
Proof.
  intros Hj Hk E row id Hin Hid. rewrite E in Hin. destruct (jo_links j Hj _ _ Hin Hid) as [s Hr].
  destruct (Hk _ _ _ Hr) as (s' & Hr' & _). by exists s'.
Qed.

Lemma kept_refl j j' : reviews j' = reviews j -> reviews_kept j j'.
Proof. intros E id b s Hr. exists s. split; [|done]. unfold review_at. by rewrite E. Qed.

Lemma kept_app j j' k : reviews j' = reviews j ++ k -> reviews_kept j j'.
Proof. intros E id b s Hr. exists s. split; [|done]. unfold review_at. rewrite E. apply elem_of_app. by left. Qed.

(** ** Effects keep the journal well-formed *)

(** Only the reviews change. *)
Lemma ok_reviews j rows : journal_ok j -> reviews_kept j (set_reviews rows j) -> Forall review_row_ok rows ->
  unique sr_review_id rows -> unique (fun r => proposal_of (sr_binding r)) rows -> journal_ok (set_reviews rows j).
Proof.
  intros Hj Hk Hf Hi Hp. pose proof (grows_refl j (set_reviews rows j) eq_refl eq_refl) as Hg. split; try done.
  all: try apply Hj. all: [> by apply (links_kept j)|by apply (decisions_kept j)|by apply (commits_kept j)|by apply (outcomes_kept j)].
Qed.

Lemma ok_review_added j id b :
  journal_ok j -> id_ok id -> binding_ok b -> (forall r, r ∈ reviews j -> sr_review_id r <> id) ->
  (forall r, r ∈ reviews j -> proposal_of (sr_binding r) <> proposal_of b) ->
  journal_ok (set_reviews (reviews j ++ [review_row id b PendingReview]) j).
Proof.
  intros Hj Hi Hb Hfi Hfp. apply ok_reviews; [done|by eapply kept_app|..].
  - apply reviews_ok_app; [apply Hj|]. split_and!; [done..|by eexists].
  - apply unique_app_one; [apply Hj|done].
  - apply unique_app_one; [apply Hj|done].
Qed.

Lemma ok_with_state j id from to : journal_ok j -> from <> DecisionCommitted -> journal_ok (with_state id from to j).
Proof.
  intros Hj Hf. apply ok_reviews; [done|by apply with_state_kept|..].
  - apply reviews_ok_restate, Hj.
  - apply (unique_map _ (restate id from to)); [apply restate_id|apply Hj].
  - apply (unique_map _ (restate id from to)); [intros x; by rewrite restate_binding|apply Hj].
Qed.

(** Only the Proposal intents change. *)
Lemma ok_intents j rows : journal_ok j -> Forall intent_row_ok rows -> unique pi_id rows ->
  unique (fun r => (project_scope (pi_binding r), pi_idempotency_digest r)) rows ->
  unique (fun r => proposal_of (pi_binding r)) rows ->
  (forall row id, row ∈ rows -> pi_review_id row = Some id -> exists s, review_at j id (pi_binding row) s) ->
  journal_ok (set_proposal_intents rows j).
Proof. intros Hj Hf Hi Hk Hp Hl. split; try done; apply Hj. Qed.

Lemma ok_intent_added j row :
  journal_ok j -> intent_row_ok row -> pi_review_id row = None -> (forall r, r ∈ proposal_intents j -> pi_id r <> pi_id row) ->
  (forall r, r ∈ proposal_intents j ->
     (project_scope (pi_binding r), pi_idempotency_digest r) <> (project_scope (pi_binding row), pi_idempotency_digest row)) ->
  (forall r, r ∈ proposal_intents j -> proposal_of (pi_binding r) <> proposal_of (pi_binding row)) ->
  journal_ok (set_proposal_intents (proposal_intents j ++ [row]) j).
Proof.
  intros Hj Hok Hn Hi Hk Hp. apply ok_intents; [done|..]; try (apply unique_app_one; [apply Hj|done]).
  - apply Forall_app. split; [apply Hj|by apply Forall_singleton].
  - intros r id [Hin| ->%list_elem_of_singleton]%elem_of_app Hid; [by apply (jo_links j Hj)|congruence].
Qed.

Definition relink (pid id : str) (r : ProposalIntent) : ProposalIntent := if unlinked pid r then link_review id r else r.

Lemma relink_fields pid id r : pi_id (relink pid id r) = pi_id r /\ pi_binding (relink pid id r) = pi_binding r /\
  pi_idempotency_digest (relink pid id r) = pi_idempotency_digest r /\
  (pi_review_id (relink pid id r) = pi_review_id r \/ pi_review_id r = None /\ pi_id r = pid /\ pi_review_id (relink pid id r) = Some id).
Proof.
  unfold relink, unlinked. destruct (_ && _) eqn:E; [|auto]. bool_props. rewrite str_eqb_eq in *. split_and!; auto.
Qed.

Lemma link_row_ok r id : intent_row_ok r -> id_ok id -> intent_row_ok (link_review id r).
Proof. rewrite !intent_row_ok_iff. intros (? & ? & ? & ? & ? & _) Hi. split_and!; try done. by intros ? [= <-]. Qed.

Lemma ok_linked j row id s :
  journal_ok j -> row ∈ proposal_intents j -> review_at j id (pi_binding row) s ->
  journal_ok (set_proposal_intents (map (relink (pi_id row) id) (proposal_intents j)) j).
Proof.
  intros Hj Hin Hr. destruct (review_at_ok j Hj _ _ _ Hr) as [Hid _].
  apply ok_intents; [done| | | | |].
  - apply Forall_forall. intros r (r0 & -> & H0)%list_elem_of_fmap. pose proof (jo_intents j Hj) as Hf. rewrite Forall_forall in Hf.
    specialize (Hf _ H0). unfold relink. destruct (unlinked _ _); [by apply link_row_ok|done].
  - apply (unique_map _ (relink (pi_id row) id)); [|apply Hj]. intros x. apply (relink_fields (pi_id row) id x).
  - apply (unique_map _ (relink (pi_id row) id)); [|apply Hj]. intros x. destruct (relink_fields (pi_id row) id x) as (_ & -> & -> & _). done.
  - apply (unique_map _ (relink (pi_id row) id)); [|apply Hj]. intros x. destruct (relink_fields (pi_id row) id x) as (_ & -> & _). done.
  - intros r id' (r0 & -> & H0)%list_elem_of_fmap Hid'. destruct (relink_fields (pi_id row) id r0) as (_ & -> & _ & [E|(_ & Ep & E)]).
    + apply (jo_links j Hj); [done|congruence].
    + rewrite E in Hid'. injection Hid' as <-. rewrite (unique_inj _ _ r0 row (jo_intent_ids j Hj) H0 Hin Ep). by exists s.
Qed.

(** Decisions are added. *)
Lemma ok_decision_added j row b s :
  journal_ok j -> decision_row_ok row -> review_at j (di_review_id row) b s ->
  di_expected_decision_head row = expected_decision_head b -> intent_row j (di_review_id row) = None ->
  journal_ok (set_decision_intents (decision_intents j ++ [row]) j).
Proof.
  intros Hj Hok Hr Hx Hn. set (j' := set_decision_intents _ j).
  assert (decisions_grow j j') as Hg by (split; [by eexists|exists []; by rewrite app_nil_r]).
  pose proof (kept_refl j j' eq_refl) as Hk. split; try done.
  all: try apply Hj. all: [> |..|by apply (commits_kept j)|by apply (outcomes_kept j)].
  - intros r [Hin| ->%list_elem_of_singleton]%elem_of_app; [by apply (jo_decisions j Hj)|]. split; [done|]. by exists b, s.
  - apply unique_app_one; [apply Hj|]. intros r Hin E. unfold intent_row in Hn. rewrite find_None_elem in Hn.
    specialize (Hn r Hin). by apply str_eqb_neq in Hn.
Qed.

Lemma validate_stored_commit_spec i : validate_stored_decision_commit_intent i = Ok tt ->
  decision_semantics (ci_disposition i) (ci_selected_snapshot i) = true /\
  valid_artifact_manifest_sha256 (ci_reviewed_artifact_manifest_sha256 i) = true /\
  validate_control_value (ci_new_decision_head i) = Ok tt /\ validate_control_value (ci_feedback_oid i) = Ok tt /\
  ci_new_decision_head i <> expected_decision_head (ci_binding i).
Proof.
  unfold validate_stored_decision_commit_intent, validate_decision_semantics, stored. intros Hv. result_inv. bool_props.
  match goal with H : validate_control_values _ = _ |- _ =>
    apply control_values_Ok in H; rewrite Forall_cons, Forall_singleton in H; destruct H end.
  match goal with H : (if decision_semantics ?d ?s then _ else _) = _ |- _ => destruct (decision_semantics d s) eqn:?; [|done] end.
  split_and!; try done. by apply str_eqb_neq.
Qed.

Lemma decode_rows_of i :
  valid_sha256 (ci_idempotency_digest i) = true -> valid_sha256 (ci_request_fingerprint i) = true -> binding_ok (ci_binding i) ->
  validate_stored_decision_commit_intent i = Ok tt ->
  decode_commit_intent (ci_review_id i) (legacy_row i, exact_row i) = Ok i.
Proof.
  intros H1 H2 Hb Hv. unfold decode_commit_intent, legacy_row, exact_row.
  cbn [di_idempotency_digest di_request_fingerprint di_candidate_head di_feedback_oid di_expected_decision_head
       sc_project_scope sc_proposal_ref_name sc_proposal_head sc_decision_ref_name sc_disposition sc_selected_snapshot
       sc_reviewed_artifact_manifest_sha256].
  assert (ci_binding i = {| project_scope := project_scope (ci_binding i); proposal_ref_name := proposal_ref_name (ci_binding i);
    proposal_head := proposal_head (ci_binding i); decision_ref_name := decision_ref_name (ci_binding i);
    expected_decision_head := expected_decision_head (ci_binding i) |}) as <- by (by destruct (ci_binding i)).
  rewrite H1, H2, (binding_ok_new _ Hb), disposition_as_parse, snapshot_as_parse. cbn [negb reject_if mbind result_bind stored map_err].
  destruct i; cbn in *. by rewrite Hv.
Qed.

Lemma binding_expected b : binding_ok b -> validate_control_value (expected_decision_head b) = Ok tt.
Proof.
  unfold binding_ok, binding_validate. intros Hb. result_inv. apply control_values_Ok in H.
  by repeat (rewrite Forall_cons in H; destruct H as [? H]).
Qed.

Lemma legacy_row_ok i :
  valid_sha256 (ci_idempotency_digest i) = true -> valid_sha256 (ci_request_fingerprint i) = true -> binding_ok (ci_binding i) ->
  validate_stored_decision_commit_intent i = Ok tt -> decision_row_ok (legacy_row i).
Proof.
  intros H1 H2 Hb%binding_expected (_ & _ & H3 & H4 & _)%validate_stored_commit_spec. split_and!; [done..|].
  apply control_values_Ok. by repeat constructor.
Qed.

(** A strict intent is loaded as it was stored. *)
Lemma load_commit_added j i s (j' := set_commit_intents (decision_commit_intents j ++ [exact_row i])
                                      (set_decision_intents (decision_intents j ++ [legacy_row i]) j)) :
  journal_ok j -> valid_sha256 (ci_idempotency_digest i) = true -> valid_sha256 (ci_request_fingerprint i) = true ->
  validate_stored_decision_commit_intent i = Ok tt -> review_at j (ci_review_id i) (ci_binding i) s ->
  intent_row j (ci_review_id i) = None -> load_decision_commit_intent j' (ci_review_id i) = Ok (Some i).
Proof.
  intros Hj H1 H2 Hv Hr Hn. apply optional_Some. exists (legacy_row i, exact_row i). split.
  2: { apply decode_rows_of; [done|done| |done]. by destruct (review_at_ok j Hj _ _ _ Hr). }
  unfold commit_intent_row, intent_row in *. cbn [j' set_commit_intents set_decision_intents decision_intents decision_commit_intents].
  rewrite (find_app_one _ (decision_intents j)), Hn. cbn [legacy_row di_review_id]. rewrite str_eqb_refl. cbn. rewrite find_app_one.
  assert (find (fun row => str_eqb (sc_review_id row) (ci_review_id i)) (decision_commit_intents j) = None) as ->.
  { apply find_None_elem. intros row Hin. apply str_eqb_neq. intros E. destruct (jo_commits j Hj _ Hin) as (i' & _ & Hl & _).
    rewrite E in Hl. apply load_commit_found in Hl as (_ & _ & _ & [x Hx]); [|done]. unfold intent_row in Hx. congruence. }
  cbn. by rewrite str_eqb_refl.
Qed.

Lemma ok_commit_added j i s :
  journal_ok j -> valid_sha256 (ci_idempotency_digest i) = true -> valid_sha256 (ci_request_fingerprint i) = true ->
  validate_stored_decision_commit_intent i = Ok tt -> review_at j (ci_review_id i) (ci_binding i) s ->
  intent_row j (ci_review_id i) = None ->
  journal_ok (set_commit_intents (decision_commit_intents j ++ [exact_row i]) (set_decision_intents (decision_intents j ++ [legacy_row i]) j)).
Proof.
  intros Hj H1 H2 Hv Hr Hn. pose proof (load_commit_added j i s Hj H1 H2 Hv Hr Hn) as Hl. cbv zeta in Hl.
  destruct (review_at_ok j Hj _ _ _ Hr) as [_ Hb].
  pose proof (ok_decision_added j (legacy_row i) (ci_binding i) s Hj (legacy_row_ok i H1 H2 Hb Hv) Hr eq_refl Hn) as Hd.
  set (j' := set_commit_intents _ _) in *. assert (decisions_grow j j') as Hg by (split; by eexists).
  pose proof (kept_refl j j' eq_refl) as Hk. split; try done.
  all: try apply Hd.
  - intros row [Hin| ->%list_elem_of_singleton]%elem_of_app; [by apply (commits_kept j)|]. by exists i, s.
  - apply unique_app_one; [apply Hj|]. intros row Hin E. destruct (jo_commits j Hj _ Hin) as (i' & _ & Hl' & _).
    rewrite E in Hl'. apply load_commit_found in Hl' as (_ & _ & _ & [x Hx]); [|done]. cbn in Hx. congruence.
  - by apply (outcomes_kept j).
Qed.

Lemma validate_stored_decode o : validate_stored_decision_outcome o = Ok tt -> decode_outcome (oc_review_id o) (outcome_row o) = Ok o.
Proof.
  intros Hv. unfold decode_outcome, outcome_row. cbn [so_disposition so_selected_snapshot]. rewrite disposition_as_parse, snapshot_as_parse.
  cbn [mbind result_bind]. destruct o; cbn in *. by rewrite Hv.
Qed.

Lemma matches_state i r o s :
  decision_outcome_matches_intent i {| rv_review_id := rv_review_id r; rv_binding := rv_binding r; rv_state := s |} o =
  decision_outcome_matches_intent i r o.
Proof. done. Qed.

Lemma ok_outcome_added j i o b s :
  journal_ok j -> load_decision_commit_intent j (oc_review_id o) = Ok (Some i) -> load_decision_outcome j (oc_review_id o) = Ok None ->
  review_at j (oc_review_id o) b s -> open_for_outcome s = true ->
  decision_outcome_matches_intent i {| rv_review_id := oc_review_id o; rv_binding := b; rv_state := s |} o = true ->
  validate_stored_decision_outcome o = Ok tt ->
  journal_ok (with_state (oc_review_id o) s DecisionCommitted (set_outcomes (decision_outcomes j ++ [outcome_row o]) j)).
Proof.
  intros Hj Hi Ho Hr Hs%open_from Hm Hv. pose proof (ok_with_state j (oc_review_id o) s DecisionCommitted Hj Hs) as Hj'.
  set (j' := with_state _ _ _ (set_outcomes _ _)). pose proof (with_state_kept j (oc_review_id o) s DecisionCommitted Hs : reviews_kept j j') as Hk.
  pose proof (grows_refl j j' eq_refl eq_refl) as Hg. split; try done. all: try apply Hj'.
  - intros row [Hin| ->%list_elem_of_singleton]%elem_of_app; [by apply (outcomes_kept j)|]. exists i, o, b.
    split_and!; [by eapply load_commit_grows|by apply validate_stored_decode| |done].
    apply (with_state_at j (oc_review_id o) s DecisionCommitted) in Hr. cbn [outcome_row so_review_id]. rewrite !bool_decide_eq_true_2 in Hr by done. exact Hr.
  - apply unique_app_one; [apply Hj|]. intros row Hin E. apply optional_None in Ho. rewrite find_None_elem in Ho.
    specialize (Ho row Hin). by apply str_eqb_neq in Ho.
Qed.

Lemma strict_effect_ok j j' : journal_ok j -> strict_effect j j' -> journal_ok j'.
Proof.
  intros Hj [row|row id s|row id Hi Hf1 Hf2 Hin Hn|id b from to Hr Hm _ _ _|row b s|i s|i o b s].
  - by apply ok_intent_added.
  - by eapply ok_linked.
  - pose proof (jo_intents j Hj) as Hf. rewrite Forall_forall in Hf. pose proof (Hf _ Hin) as (_ & _ & _ & _ & Hb & _)%intent_row_ok_iff.
    eapply (ok_linked (set_reviews _ j)); [by apply ok_review_added|done|]. apply elem_of_app. right. by left.
  - apply ok_with_state; [done|]. by apply moves_from in Hm as [? _].
  - by eapply ok_decision_added.
  - by eapply ok_commit_added.
  - by eapply ok_outcome_added.
Qed.

Lemma effect_ok j j' : journal_ok j -> effect j j' -> journal_ok j'.
Proof. intros Hj [id b|? He]; [by apply ok_review_added|by eapply strict_effect_ok]. Qed.
