(* ===== verification/JournalSound.v ===== *)
(** * The review journal: every operation is an effect *)

From stdpp Require Import base list numbers strings gmap sets relations.
From Stdlib Require Import ZArith Lia.
From S2P Require Import Prelude Text TextFacts Oid Journal JournalOps JournalEffects.

#[local] Open Scope Z_scope.

(** [getrandom] fills the 32-byte buffer, or fails. *)
Definition fills (random : nat -> option (list byte)) : Prop :=
  forall i bytes, random i = Some bytes -> length bytes = 32%nat /\ Forall is_u8 bytes.

Lemma generate_Ok random id : fills random -> generate (random 0%nat) = Ok id -> id_ok id.
Proof. intros Hf Hg. unfold generate in Hg. result_inv. apply Hf in H as [Hl Hb]. by apply hex_id. Qed.

Lemma fills_next random : fills random -> fills (fun i => random (S i)).
Proof. intros Hf i. apply Hf. Qed.

Lemma review_exists_false j id : review_exists j id = false <-> forall r, r ∈ reviews j -> sr_review_id r <> id.
Proof. unfold review_exists. rewrite existsb_false. by setoid_rewrite str_eqb_neq. Qed.

Lemma insert_review_Some id b j j' : insert_review id b j = Some j' ->
  j' = set_reviews (reviews j ++ [review_row id b PendingReview]) j /\
  (forall r, r ∈ reviews j -> sr_review_id r <> id) /\ (forall r, r ∈ reviews j -> proposal_of (sr_binding r) <> proposal_of b).
Proof.
  unfold insert_review. intros Hi. destruct (_ || _) eqn:E; [done|]. injection Hi as <-. bool_props.
  split_and!; [done|by apply review_exists_false|]. rewrite existsb_false in *. by setoid_rewrite <- same_proposal_false.
Qed.

Lemma insert_intent_Some row j j' : insert_proposal_intent row j = Some j' ->
  j' = set_proposal_intents (proposal_intents j ++ [row]) j /\
  (forall r, r ∈ proposal_intents j -> pi_id r <> pi_id row) /\
  (forall r, r ∈ proposal_intents j ->
     (project_scope (pi_binding r), pi_idempotency_digest r) <> (project_scope (pi_binding row), pi_idempotency_digest row)) /\
  (forall r, r ∈ proposal_intents j -> proposal_of (pi_binding r) <> proposal_of (pi_binding row)).
Proof.
  unfold insert_proposal_intent. intros Hi. destruct (_ || _) eqn:E; [done|]. injection Hi as <-. bool_props.
  repeat match goal with H : existsb _ _ = false |- _ => rewrite existsb_false in H end. split_and!; [done| | |].
  - intros r Hr. by apply str_eqb_neq, H0.
  - intros r Hr [= E1 E2]. specialize (H r Hr). rewrite E1, E2, !str_eqb_refl in H. done.
  - intros r Hr. by apply same_proposal_false, E.
Qed.

(** The result of a read-modify-write operation: the same tables or one effect. *)
Definition changes (j j' : Journal) : Prop := j' = j \/ effect j j'.
Definition strict_changes (j j' : Journal) : Prop := j' = j \/ strict_effect j j'.

Section Sound.
Variable j : Journal.
Hypothesis Hj : journal_ok j.

Lemma create_attempts_changes n b : binding_ok b -> forall random j' r,
  fills random -> create_attempts n random b j = Ok (j', r) -> changes j j'.
Proof.
  intros Hb. induction n as [|n IH]; intros random j' r Hf Hc; cbn [create_attempts] in Hc; [done|].
  apply bind_Ok in Hc as (id & Hid & Hc). destruct (insert_review id b j) as [j1|] eqn:Hi.
  - injection Hc as <- <-. apply insert_review_Some in Hi as (-> & H1 & H2). right. apply eff_review; [by eapply generate_Ok|done..].
  - apply bind_Ok in Hc as (o & _ & Hc). destruct o as [existing|]; [result_inv; by left|].
    eapply IH; [by apply fills_next|exact Hc].
Qed.

Lemma create_or_get_changes random b j' r : fills random -> create_or_get_review random b j = Ok (j', r) -> changes j j'.
Proof.
  intros Hf Hc. unfold create_or_get_review in Hc. apply bind_Ok in Hc as ([] & Hb & Hc). apply bind_Ok in Hc as (o & _ & Hc).
  destruct o as [existing|]; [result_inv; by left|]. by eapply create_attempts_changes.
Qed.

Lemma replay_intent_same sha256 request existing j' r : replay_intent sha256 request j existing = Ok (j', r) -> j' = j.
Proof. unfold replay_intent. intros Hr. destruct (_ && _); [|done]. by result_inv. Qed.

Lemma planned_intent_ok sha256 id request : sha256_digest sha256 -> id_ok id ->
  validate_proposal_intent_request request = Ok tt -> intent_row_ok (planned_intent sha256 id request).
Proof.
  intros Hs Hid Hv. unfold validate_proposal_intent_request in Hv. result_inv. bool_props. apply intent_row_ok_iff.
  split_and!; try done; by apply digest_valid.
Qed.

Lemma register_attempts_changes sha256 request n : sha256_digest sha256 -> validate_proposal_intent_request request = Ok tt ->
  (forall r, r ∈ reviews j -> proposal_of (sr_binding r) <> proposal_of (pq_binding request)) ->
  forall random j' r, fills random -> register_attempts sha256 n random request j = Ok (j', r) -> strict_changes j j'.
Proof.
  intros Hs Hv Hfresh. induction n as [|n IH]; intros random j' r Hf Hc; cbn [register_attempts] in Hc; [done|].
  apply bind_Ok in Hc as (id & Hid & Hc). apply generate_Ok in Hid; [|done].
  destruct (insert_proposal_intent _ j) as [j1|] eqn:Hi.
  - injection Hc as <- <-. apply insert_intent_Some in Hi as (-> & H1 & H2 & H3). right.
    apply eff_intent; [by apply planned_intent_ok|done..].
  - apply bind_Ok in Hc as (o & _ & Hc). destruct o as [existing|]; [left; by eapply replay_intent_same|].
    apply bind_Ok in Hc as (o & _ & Hc). destruct o; [done|]. eapply IH; [by apply fills_next|exact Hc].
Qed.

Lemma register_proposal_changes sha256 random request j' r : sha256_digest sha256 -> fills random ->
  register_proposal_intent sha256 random request j = Ok (j', r) -> strict_changes j j'.
Proof.
  intros Hs Hf Hc. unfold register_proposal_intent in Hc. apply bind_Ok in Hc as ([] & Hv & Hc). cbv zeta in Hc.
  apply bind_Ok in Hc as (o & _ & Hc). destruct o as [existing|]; [left; by eapply replay_intent_same|].
  apply bind_Ok in Hc as (o & _ & Hc). destruct o; [done|]. apply bind_Ok in Hc as (o & Ho & Hc).
  destruct o as [review|]; [by destruct (bool_decide _)|]. eapply register_attempts_changes; [done|done| |done|exact Hc].
  by apply load_review_by_proposal_None.
Qed.

(** Linking an unlinked intent to a review. *)
Lemma update_link_one row : row ∈ proposal_intents j -> pi_review_id row = None ->
  len (List.filter (unlinked (pi_id row)) (proposal_intents j)) = 1.
Proof.
  intros Hin Hn. rewrite (filter_unique pi_id _ _ row (jo_intent_ids j Hj) Hin); [done| |].
  - unfold unlinked. by rewrite str_eqb_refl, bool_decide_eq_true_2.
  - intros y Hy. unfold unlinked in Hy. bool_props. by apply str_eqb_eq.
Qed.
End Sound.

Lemma attach_Ok j row id j' : journal_ok j -> row ∈ proposal_intents j -> pi_review_id row = None ->
  attach_review_to_proposal_intent (pi_id row) id j = Ok j' ->
  j' = set_proposal_intents (map (fun r => if unlinked (pi_id row) r then link_review id r else r) (proposal_intents j)) j.
Proof.
  intros Hj Hin Hn. unfold attach_review_to_proposal_intent, update_review_link. rewrite (update_link_one j Hj row Hin Hn).
  intros Ha. result_inv. by cbn in *; simplify_eq.
Qed.

Section Publication.
Variable j : Journal.
Hypothesis Hj : journal_ok j.

Lemma adopt_changes row existing j' r : row ∈ proposal_intents j -> pi_review_id row = None ->
  load_review_by_proposal j (pi_binding row) = Ok (Some existing) ->
  adopt_review (pi_id row) (pi_binding row) existing j = Ok (j', r) -> strict_changes j j'.
Proof.
  intros Hin Hn [_ Hat]%load_review_by_proposal_Some Ha; [|done]. unfold adopt_review in Ha. result_inv. bool_props.
  match goal with H : attach_review_to_proposal_intent _ _ _ = _ |- _ => apply (attach_Ok j row) in H as ->; [|done..] end.
  right. eapply eff_link; [done|done|]. match goal with H : rv_binding _ = _ |- _ => rewrite <- H end. exact Hat.
Qed.

Lemma publication_attempts_changes n row : row ∈ proposal_intents j -> pi_review_id row = None -> forall random j' r,
  fills random -> publication_attempts n random (pi_id row) (pi_binding row) j = Ok (j', r) -> strict_changes j j'.
Proof.
  intros Hin Hn. induction n as [|n IH]; intros random j' r Hf Hc; cbn [publication_attempts] in Hc; [done|].
  apply bind_Ok in Hc as (id & Hid & Hc). destruct (insert_review id (pi_binding row) j) as [j1|] eqn:Hi.
  - apply generate_Ok in Hid; [|done]. apply insert_review_Some in Hi as (-> & H1 & H2).
    apply bind_Ok in Hc as (j2 & Ha & Hc). result_inv.
    pose proof (jo_intents j Hj) as Hall. rewrite Forall_forall in Hall. pose proof (Hall _ Hin) as (_ & _ & _ & _ & Hb & _)%intent_row_ok_iff.
    apply (attach_Ok _ row) in Ha as ->; [right; exact (eff_publish j row id Hid H1 H2 Hin Hn)|by apply ok_review_added|done|done].
  - apply bind_Ok in Hc as (o & Ho & Hc). destruct o as [existing|]; [by eapply adopt_changes|].
    eapply IH; [by apply fills_next|exact Hc].
Qed.

Lemma commit_publication_changes random pid b j' r :
  fills random -> commit_proposal_publication random pid b j = Ok (j', r) -> strict_changes j j'.
Proof.
  intros Hf Hc. unfold commit_proposal_publication in Hc. apply bind_Ok in Hc as (_ & _ & Hc).
  apply bind_Ok in Hc as (o & Ho & Hc). apply bind_Ok in Hc as (row & ->%ok_or_Ok & Hc).
  apply load_proposal_intent_Some in Ho as [Hin <-]; [|done]. apply bind_Ok in Hc as (u & Hb & Hc).
  apply reject_if_Ok, negb_false_iff, bool_decide_eq_true in Hb as <-. destruct (pi_review_id row) as [id|] eqn:Hn.
  - result_inv. by left.
  - apply bind_Ok in Hc as (o & Ho & Hc). destruct o as [existing|]; [by eapply adopt_changes|].
    by eapply publication_attempts_changes.
Qed.

(** Moving the state of a review. *)
Lemma update_state_one id b s to : review_at j id b s -> (update_state id s to j).2 = 1.
Proof.
  intros Hr. unfold update_state. cbn [snd]. rewrite (filter_unique sr_review_id _ _ (review_row id b s) (jo_review_ids j Hj) Hr); [done| |].
  - unfold at_state. cbn. by rewrite !str_eqb_refl.
  - intros y Hy. unfold at_state in Hy. bool_props. by apply str_eqb_eq.
Qed.

Lemma loaded_linked id p : load_proposal_intent_by_review j id = Ok p -> is_some p = true <-> linked j id.
Proof.
  intros Hp. split.
  - destruct p as [row|]; [|done]. intros _. apply load_by_review_Some in Hp as [? ?]; [|done]. by exists row.
  - intros (row & Hin & Hr). assert (load_proposal_intent_by_review j id = Ok (Some row)) as E by (by apply load_by_review_Some).
    rewrite E in Hp. by injection Hp as <-.
Qed.

Lemma loaded_commit id i : load_decision_commit_intent j id = Ok i -> is_some i = commit_found j id.
Proof. intros Hi. destruct (load_commit_cases j Hj id) as [[-> E]|[-> [x E]]]; rewrite E in Hi; by injection Hi as <-. Qed.

Lemma transition_changes id expected next j' r :
  transition_review_state id expected next j = Ok (j', r) -> strict_changes j j'.
Proof.
  unfold transition_review_state. intros Ht. apply bind_Ok in Ht as (o & Ho & Ht). apply bind_Ok in Ht as (cur & ->%ok_or_Ok & Ht).
  apply load_review_Some in Ho as [_ Hat]; [|done]. cbv zeta in Ht. apply bind_Ok in Ht as (u & Hs & Ht).
  apply reject_if_Ok, negb_false_iff, bool_decide_eq_true in Hs. subst expected.
  apply bind_Ok in Ht as (p & Hp & Ht). apply bind_Ok in Ht as (i & Hi & Ht). apply bind_Ok in Ht as (oc & Hoc & Ht).
  apply bind_Ok in Ht as (u' & Hstrict & Ht). case_bool_decide as Hne; [result_inv; by left|].
  apply bind_Ok in Ht as (u'' & Ha%reject_if_Ok%negb_false_iff & Ht). right.
  change (update_state id (rv_state cur) next j) with (with_state id (rv_state cur) next j, (update_state id (rv_state cur) next j).2) in Ht.
  cbv beta iota in Ht. result_inv. pose proof (loaded_linked id p Hp) as Hlk. rewrite (loaded_commit id i Hi) in Hstrict.
  assert (moves (rv_state cur) next) as Hm by (split; [done|by left]).
  apply (eff_state j id (rv_binding cur)); [done|done|..].
  - intros ->. destruct (is_some p || commit_found j id || is_some oc) eqn:E.
    + cbn in Hstrict. rewrite bool_decide_eq_false_2 in Hstrict by done. done.
    + bool_props. split; [rewrite <- Hlk; congruence|done].
  - intros -> Hl%Hlk. rewrite Hl in Hstrict. cbn in Hstrict. destruct (commit_found j id); [done|]. by destruct (bool_decide _).
  - intros E ->. by rewrite E in Ha.
Qed.
End Publication.

Section Decisions.
Variable j : Journal.
Hypothesis Hj : journal_ok j.
Variable sha256 : list byte -> list byte.
Hypothesis Hsha : sha256_digest sha256.

Lemma planned_decision_ok id request : validate_intent_request request = Ok tt -> decision_row_ok (planned_decision sha256 id request).
Proof.
  unfold validate_intent_request. intros Hv. result_inv. split_and!; [by apply digest_valid..|].
  cbn. by repeat match goal with H : unit |- _ => destruct H end.
Qed.

Lemma register_decision_changes id request j' r :
  register_decision_intent sha256 id request j = Ok (j', r) -> strict_changes j j'.
Proof.
  unfold register_decision_intent. intros Hc. apply bind_Ok in Hc as ([] & Hv & Hc). cbv zeta in Hc.
  apply bind_Ok in Hc as (o & Ho & Hc). apply bind_Ok in Hc as (review & ->%ok_or_Ok & Hc).
  apply load_review_Some in Ho as [_ Hat]; [|done]. apply bind_Ok in Hc as (o & Ho & Hc). destruct o as [existing|].
  - destruct (str_eqb _ _); [|done]. case_bool_decide; [|done]. result_inv. by left.
  - apply optional_None in Ho. unfold insert_decision_intent in Hc. result_inv. bool_props. right.
    eapply eff_decision; [by apply planned_decision_ok|exact Hat| |done]. cbn. by apply str_eqb_eq.
Qed.

Lemma planned_commit_ok id b request : binding_ok b -> validate_decision_commit_intent_request request = Ok tt ->
  str_eqb (cq_new_decision_head request) (expected_decision_head b) = false ->
  validate_stored_decision_commit_intent (planned_commit sha256 id b request) = Ok tt.
Proof.
  intros Hb Hv Hne. unfold validate_decision_commit_intent_request in Hv. result_inv. bool_props.
  repeat match goal with H : unit |- _ => destruct H end.
  unfold validate_stored_decision_commit_intent. cbn [planned_commit ci_disposition ci_selected_snapshot
    ci_reviewed_artifact_manifest_sha256 ci_new_decision_head ci_feedback_oid ci_binding].
  unfold stored. by repeat match goal with H : _ = _ |- _ => rewrite H; clear H end.
Qed.

Lemma register_commit_changes id request j' r :
  register_decision_commit_intent sha256 id request j = Ok (j', r) -> strict_changes j j'.
Proof.
  unfold register_decision_commit_intent. intros Hc. apply bind_Ok in Hc as ([] & Hv & Hc).
  apply bind_Ok in Hc as (o & Ho & Hc). apply bind_Ok in Hc as (review & ->%ok_or_Ok & Hc).
  apply load_review_Some in Ho as [_ Hat]; [|done]. apply bind_Ok in Hc as (u & _ & Hc).
  apply bind_Ok in Hc as (u' & Hne%reject_if_Ok & Hc). cbv zeta in Hc.
  apply bind_Ok in Hc as (o & Ho & Hc). destruct o as [legacy|].
  - apply bind_Ok in Hc as (e & _ & Hc). apply bind_Ok in Hc as (e' & _ & Hc).
    case_match; [|done]. case_match; [|done]. result_inv. by left.
  - apply optional_None in Ho. destruct (review_at_ok j Hj _ _ _ Hat) as [_ Hb].
    apply bind_Ok in Hc as (u2 & Hopen%reject_if_Ok%negb_false_iff & Hc). unfold insert_decision_intent, insert_commit_intent in Hc.
    result_inv. right. apply (eff_commit j (planned_commit sha256 id (rv_binding review) request) (rv_state review));
      [by apply digest_valid|by apply digest_valid|by apply planned_commit_ok|exact Hat|done|exact Ho].
Qed.

Lemma reconcile_changes intent j' r : reconcile_decision_not_committed intent j = Ok (j', r) -> strict_changes j j'.
Proof.
  unfold reconcile_decision_not_committed. cbv zeta. intros Hc. apply bind_Ok in Hc as (o & Ho & Hc).
  apply bind_Ok in Hc as (review & ->%ok_or_Ok & Hc). apply load_review_Some in Ho as [_ Hat]; [|done].
  apply bind_Ok in Hc as (o & Hi & Hc). apply bind_Ok in Hc as (found & ->%ok_or_Ok & Hc).
  apply load_commit_found in Hi as (_ & Hcf & _); [|done]. apply bind_Ok in Hc as (u & _ & Hc).
  apply bind_Ok in Hc as (oc & _ & Hc). apply bind_Ok in Hc as (u' & _ & Hc).
  destruct (rv_state review) eqn:Es; try done; try (result_inv; by left).
  change (update_state (ci_review_id intent) OutcomeUnknown RetryableFailure j) with
    (with_state (ci_review_id intent) OutcomeUnknown RetryableFailure j,
     (update_state (ci_review_id intent) OutcomeUnknown RetryableFailure j).2) in Hc.
  cbv beta iota in Hc. apply bind_Ok in Hc as (u2 & _ & Hc). result_inv. right.
  apply (eff_state j _ (rv_binding review)); [done|split; [done|by right]|done|done|done].
Qed.

Lemma candidate_outcome_ok id request : validate_decision_outcome_request request = Ok tt ->
  validate_stored_decision_outcome (candidate_outcome id request) = Ok tt.
Proof.
  intros Hv. unfold validate_decision_outcome_request in Hv. result_inv. bool_props.
  repeat match goal with H : unit |- _ => destruct H end.
  unfold validate_stored_decision_outcome. cbn [candidate_outcome oc_disposition oc_selected_snapshot
    oc_reviewed_artifact_manifest_sha256 oc_proposal_head oc_expected_decision_head oc_new_decision_head oc_feedback_oid].
  unfold stored. by repeat match goal with H : _ = _ |- _ => rewrite H; clear H end.
Qed.

Lemma commit_outcome_changes id request j' r : commit_decision_outcome id request j = Ok (j', r) -> strict_changes j j'.
Proof.
  unfold commit_decision_outcome. intros Hc. apply bind_Ok in Hc as ([] & Hv & Hc). apply bind_Ok in Hc as (o & Ho & Hc).
  apply bind_Ok in Hc as (review & ->%ok_or_Ok & Hc). apply load_review_Some in Ho as [Hid Hat]; [|done]. cbv zeta in Hc.
  apply bind_Ok in Hc as (strict & Hi & Hc). apply bind_Ok in Hc as (existing & Hoc & Hc). destruct existing as [existing|].
  { apply bind_Ok in Hc as (u & _ & Hc). case_bool_decide; [|done]. result_inv. by left. }
  destruct strict as [intent|]; [|apply bind_Ok in Hc as (l & _ & Hc); by destruct (is_some l)].
  apply bind_Ok in Hc as (j1 & Hr & Hc). result_inv. unfold record_outcome in Hr. cbv zeta in Hr.
  apply bind_Ok in Hr as (u & Hm%reject_if_Ok%negb_false_iff & Hr). apply bind_Ok in Hr as (u' & Hopen%reject_if_Ok%negb_false_iff & Hr).
  apply bind_Ok in Hr as (j2 & Hins & Hr). unfold insert_outcome in Hins. result_inv.
  change (update_state ?a ?b ?c ?k) with (with_state a b c k, (update_state a b c k).2) in Hr. cbv beta iota in Hr.
  destruct (_ =? 1); [|by result_inv]. result_inv. right.
  eapply (eff_outcome j intent (candidate_outcome (rv_review_id review) request)); [done|done|exact Hat|done| |by apply candidate_outcome_ok].
  by destruct review.
Qed.
End Decisions.
