(* ===== verification/JournalClean.v ===== *)
(** * The review journal: strict journals never read as corrupt *)

From stdpp Require Import base list numbers strings gmap sets relations.
From Stdlib Require Import ZArith Lia.
From S2P Require Import Prelude Text TextFacts Oid Journal JournalOps JournalEffects JournalSound.

#[local] Open Scope Z_scope.

(** ** The strict rules *)

Definition outcome_found (j : Journal) (id : str) : Prop := exists row, row ∈ decision_outcomes j /\ so_review_id row = id.

(** Every review has its Proposal intent, a committed review its outcome, and a review whose
    outcome is unknown its strict intent. *)
Record strict_ok (j : Journal) : Prop := {
  so_linked : forall id b s, review_at j id b s -> linked j id;
  so_committed : forall id b, review_at j id b DecisionCommitted -> outcome_found j id;
  so_unknown : forall id b, review_at j id b OutcomeUnknown -> commit_found j id = true;
}.

Lemma empty_strict_ok : strict_ok empty_journal.
Proof. split; intros; by match goal with H : review_at _ _ _ _ |- _ => apply elem_of_nil in H end. Qed.

Lemma commit_found_app j j' k id : decision_commit_intents j' = decision_commit_intents j ++ k ->
  commit_found j id = true -> commit_found j' id = true.
Proof. unfold commit_found. intros -> Hc. rewrite existsb_app, Hc. done. Qed.

(** A row of the state update: another review, or the moved one. *)
Lemma with_state_inv j id from to id' b' s' : Forall review_row_ok (reviews j) -> review_at (with_state id from to j) id' b' s' ->
  exists s, review_at j id' b' s /\ (s' = s \/ id' = id /\ s = from /\ s' = to).
Proof.
  intros Hf (row & E & Hin)%list_elem_of_fmap. rewrite Forall_forall in Hf. destruct (review_row_eta row (Hf _ Hin)) as [s Er].
  change (review_row id' b' s' = restate id from to row) in E. rewrite Er, restate_row in E.
  injection E as -> -> E. apply state_as_str_inj in E. exists s. split; [unfold review_at; by rewrite <- Er|].
  destruct (bool_decide _) eqn:E1, (bool_decide (s = from)) eqn:E2; cbn in E; bool_props; auto.
Qed.

Lemma linked_relink j row id id' : row ∈ proposal_intents j -> pi_review_id row = None -> id' = id \/ linked j id' ->
  linked (set_proposal_intents (map (relink (pi_id row) id) (proposal_intents j)) j) id'.
Proof.
  intros Hin Hn [->|(r & Hr & E)].
  - exists (relink (pi_id row) id row). split; [by apply list_elem_of_fmap_2|]. unfold relink, unlinked.
    by rewrite str_eqb_refl, bool_decide_eq_true_2.
  - exists (relink (pi_id row) id r). split; [by apply list_elem_of_fmap_2|].
    destruct (relink_fields (pi_id row) id r) as (_ & _ & _ & [->|(E' & _)]); [done|congruence].
Qed.

(** In a strict journal there is no review left to adopt. *)
Lemma strict_no_adoption j row id s : journal_ok j -> strict_ok j ->
  row ∈ proposal_intents j -> pi_review_id row = None -> ~ review_at j id (pi_binding row) s.
Proof.
  intros Hj Hs Hin Hn Hr. destruct (so_linked j Hs _ _ _ Hr) as (r & Hr' & E). destruct (jo_links j Hj _ _ Hr' E) as [s' Hs'].
  destruct (review_at_inj j Hj _ _ _ _ _ Hr Hs') as [Eb _].
  assert (r = row) as -> by (apply (unique_inj _ _ _ _ (jo_intent_proposals j Hj)); [done..|cbn; congruence]). congruence.
Qed.

(** The strict effects keep the strict rules. *)
Lemma effect_strict j j' : journal_ok j -> strict_ok j -> strict_effect j j' -> strict_ok j'.
Proof.
  intros Hj Hs He. destruct He as [row Hok Hn|row id s Hin Hn Hr|row id Hi Hf1 Hf2 Hin Hn|id b from to Hr Hm Hc Hu _|row b s|i s|i o b s Hi Ho Hr Hopen Hm Hv].
  - split; [|apply Hs|apply Hs]. intros id b s (r & Hr & E)%(so_linked j Hs). exists r. split; [apply elem_of_app; by left|done].
  - exfalso. by eapply strict_no_adoption.
  - assert (forall id' b' s', review_at (set_reviews (reviews j ++ [review_row id (pi_binding row) PendingReview]) j) id' b' s' ->
      review_at j id' b' s' \/ id' = id /\ s' = PendingReview) as Hat.
    { intros id' b' s' [?|E%list_elem_of_singleton]%elem_of_app; [by left|]. injection E as -> -> E. by apply (state_as_str_inj s' PendingReview) in E; right. }
    split.
    + intros id' b' s' [Hr|[-> _]]%Hat; apply (linked_relink (set_reviews _ j)); auto. right. by eapply (so_linked j Hs).
    + intros id' b' [Hr|[_ ?]]%Hat; [|done]. by eapply (so_committed j Hs).
    + intros id' b' [Hr|[_ ?]]%Hat; [|done]. by eapply (so_unknown j Hs).
  - pose proof (with_state_inv j id from to) as Hinv. split.
    + intros id' b' s' (s & Hs' & _)%Hinv; [|apply Hj]. by eapply (so_linked j Hs).
    + intros id' b' (s & Hs' & [<-|(-> & -> & <-)])%Hinv; [by eapply (so_committed j Hs)| |apply Hj].
      destruct (Hc eq_refl) as [Hl _]. by destruct Hl; eapply (so_linked j Hs).
    + intros id' b' (s & Hs' & [<-|(-> & -> & <-)])%Hinv; [by eapply (so_unknown j Hs)| |apply Hj].
      apply Hu; [done|]. by eapply (so_linked j Hs).
  - split; apply Hs.
  - split; [apply Hs|apply Hs|]. intros id b Hr. eapply commit_found_app; [done|]. by eapply (so_unknown j Hs).
  - pose proof (with_state_inv (set_outcomes (decision_outcomes j ++ [outcome_row o]) j) (oc_review_id o) s DecisionCommitted) as Hinv. split.
    + intros id' b' s' (s0 & Hs' & _)%Hinv; [|apply Hj]. by eapply (so_linked j Hs).
    + intros id' b' (s0 & Hs' & [<-|(-> & _ & _)])%Hinv; [| |apply Hj].
      * destruct (so_committed j Hs _ _ Hs') as (r & Hin & E). exists r. split; [apply elem_of_app; by left|done].
      * exists (outcome_row o). split; [apply elem_of_app; right; by left|done].
    + intros id' b' (s0 & Hs' & [<-|(-> & _ & [=])])%Hinv; [|apply Hj]. by eapply (so_unknown j Hs).
Qed.

(** ** Answers that are not internal errors *)

Definition internal (e : JournalError) : bool := match e with CorruptData | JournalStorage => true | _ => false end.
Definition clean {A} (r : jresult A) : Prop := forall e, r = Err e -> internal e = false.

Lemma clean_Ok {A} (a : A) : clean (Ok a).
Proof. by intros e. Qed.

Lemma clean_Err {A} e : internal e = false -> clean (A := A) (Err e).
Proof. by intros He e' [= <-]. Qed.

Lemma clean_bind {A B} (m : jresult A) (f : A -> jresult B) : clean m -> (forall a, m = Ok a -> clean (f a)) -> clean (m ≫= f).
Proof. intros Hm Hf e. rewrite bind_Err. intros [?|(a & Ha & ?)]; [by apply Hm|by eapply Hf]. Qed.

Lemma clean_reject b e : (b = true -> internal e = false) -> clean (reject_if b e).
Proof. destruct b; [|by intros _ ?]. intros He e' [= <-]. by apply He. Qed.

Lemma clean_ok_or {A} (o : option A) e : (o = None -> internal e = false) -> clean (ok_or o e).
Proof. destruct o; [by intros _ ?|]. intros He e' [= <-]. by apply He. Qed.

Lemma clean_total {A} (r : jresult A) : (exists a, r = Ok a) -> clean r.
Proof. intros [a ->]. apply clean_Ok. Qed.

Ltac clean_step :=
  match goal with
  | |- clean (Ok _) => apply clean_Ok
  | |- clean (Err _) => apply clean_Err; reflexivity
  | |- clean (_ ≫= _) => apply clean_bind; [|intros ? ?]
  | |- clean (reject_if _ _) => apply clean_reject; intros _; reflexivity
  | |- clean (ok_or _ _) => apply clean_ok_or; intros _; reflexivity
  | |- clean (if ?b then _ else _) => destruct b eqn:?
  | |- clean (match ?o with Some _ => _ | None => _ end) => destruct o eqn:?
  end.

Lemma clean_control_values values : clean (validate_control_values values).
Proof. induction values as [|v values IH]; cbn [validate_control_values]; unfold validate_control_value; repeat (clean_step || apply IH). Qed.

Lemma clean_binding b : clean (binding_validate b).
Proof. unfold binding_validate. repeat (apply clean_control_values || clean_step). Qed.

Lemma clean_requests key request : clean (validate_request_bytes key request).
Proof. unfold validate_request_bytes, validate_idempotency_key. repeat clean_step. Qed.

Section Clean.
Variable j : Journal.
Hypothesis Hj : journal_ok j.

Ltac clean_loads := repeat (
  (apply clean_total; (apply (load_review_total j Hj) || apply (load_review_by_proposal_total j Hj) || apply (intents_total j Hj) ||
     apply (load_commit_total j Hj) || apply (load_outcome_total j Hj) || apply (load_intent_total j Hj)))
  || apply clean_binding || apply clean_control_values || apply clean_requests || clean_step).

Lemma clean_create n b : forall random, clean (create_attempts n random b j).
Proof.
  induction n as [|n IH]; intros random; cbn [create_attempts]; [by apply clean_Err|]. unfold generate, replay_review.
  repeat (apply IH || (progress clean_loads)).
Qed.

Lemma clean_create_or_get random b : clean (create_or_get_review random b j).
Proof. unfold create_or_get_review, replay_review. repeat (apply clean_create || (progress clean_loads)). Qed.

Lemma clean_replay sha256 request row : row ∈ proposal_intents j -> clean (replay_intent sha256 request j row).
Proof. intros Hin. unfold replay_intent. rewrite (check_link_ok j Hj row Hin). repeat clean_step. Qed.

Lemma clean_register_attempts sha256 n request : forall random, clean (register_attempts sha256 n random request j).
Proof.
  induction n as [|n IH]; intros random; cbn [register_attempts]; [by apply clean_Err|]. cbv zeta. unfold generate.
  apply clean_bind; [clean_loads|intros id _]. destruct (insert_proposal_intent _ j); [apply clean_Ok|].
  apply clean_bind; [clean_loads|intros [row|] Hrow].
  - apply clean_replay. by apply load_by_idempotency_Some in Hrow as (? & _).
  - apply clean_bind; [clean_loads|intros [row|] _; [|apply IH]]. unfold conflict_by_proposal. apply clean_Err. by destruct (bool_decide _).
Qed.

Lemma clean_register sha256 random request : clean (register_proposal_intent sha256 random request j).
Proof.
  unfold register_proposal_intent, validate_proposal_intent_request. apply clean_bind; [clean_loads|intros _ _]. cbv zeta.
  apply clean_bind; [clean_loads|intros [row|] Hrow].
  - apply clean_replay. by apply load_by_idempotency_Some in Hrow as (? & _).
  - apply clean_bind; [clean_loads|intros [row|] _].
    + unfold conflict_by_proposal. apply clean_Err. by destruct (bool_decide _).
    + repeat (apply clean_register_attempts || (progress clean_loads)).
Qed.
End Clean.

(** An unlinked intent can be attached to a review of its binding that has no intent. *)
Lemma attach_succeeds j row id : journal_ok j -> row ∈ proposal_intents j -> pi_review_id row = None ->
  review_exists j id = true -> ~ linked j id -> exists j', attach_review_to_proposal_intent (pi_id row) id j = Ok j'.
Proof.
  intros Hj Hin Hn He Hl. unfold attach_review_to_proposal_intent, update_review_link. rewrite (update_link_one j Hj row Hin Hn), He.
  assert (existsb (fun r => bool_decide (pi_review_id r = Some id)) (proposal_intents j) = false) as ->.
  { apply existsb_false. intros r Hr. apply bool_decide_eq_false. intros E. apply Hl. by exists r. }
  cbn. by eexists.
Qed.

Lemma not_linked_fresh j id : journal_ok j -> (forall r, r ∈ reviews j -> sr_review_id r <> id) -> ~ linked j id.
Proof. intros Hj Hf (row & Hin & E). destruct (jo_links j Hj _ _ Hin E) as [s Hs]. by apply (Hf _ Hs). Qed.

Lemma review_at_exists j id b s : review_at j id b s -> review_exists j id = true.
Proof. intros Hr. unfold review_exists. apply existsb_true. eexists. split; [exact Hr|]. apply str_eqb_refl. Qed.

Section CleanPublish.
Variable j : Journal.
Hypothesis Hj : journal_ok j.

Lemma clean_adopt row existing : row ∈ proposal_intents j -> pi_review_id row = None ->
  load_review_by_proposal j (pi_binding row) = Ok (Some existing) -> clean (adopt_review (pi_id row) (pi_binding row) existing j).
Proof.
  intros Hin Hn [_ Hr]%load_review_by_proposal_Some; [|done]. unfold adopt_review.
  apply clean_bind; [clean_step|intros u Hb%reject_if_Ok]. bool_props.
  destruct (attach_succeeds j row (rv_review_id existing) Hj Hin Hn) as [j' ->]; [by eapply review_at_exists| |apply clean_Ok].
  intros (r & Hr' & E). destruct (jo_links j Hj _ _ Hr' E) as [s' Hs']. destruct (review_at_inj j Hj _ _ _ _ _ Hr Hs') as [Eb _].
  assert (r = row) as -> by (apply (unique_inj _ _ _ _ (jo_intent_proposals j Hj)); [done..|cbn; congruence]). congruence.
Qed.

Lemma clean_publication_attempts n row : row ∈ proposal_intents j -> pi_review_id row = None ->
  forall random, fills random -> clean (publication_attempts n random (pi_id row) (pi_binding row) j).
Proof.
  intros Hin Hn. induction n as [|n IH]; intros random Hf; cbn [publication_attempts]; [by apply clean_Err|].
  apply clean_bind; [unfold generate; repeat clean_step|intros id Hid%generate_Ok; [|done]].
  destruct (insert_review id (pi_binding row) j) as [j1|] eqn:Hi.
  - apply insert_review_Some in Hi as (-> & H1 & H2).
    pose proof (jo_intents j Hj) as Hall. rewrite Forall_forall in Hall. pose proof (Hall _ Hin) as (_ & _ & _ & _ & Hb & _)%intent_row_ok_iff.
    pose proof (ok_review_added j id (pi_binding row) Hj Hid Hb H1 H2) as Hj1.
    destruct (attach_succeeds _ row id Hj1 Hin Hn) as [j' ->]; [| |apply clean_Ok].
    + apply (review_at_exists _ _ (pi_binding row) PendingReview), elem_of_app. right. by left.
    + by apply (not_linked_fresh j).
  - apply clean_bind; [apply clean_total, (load_review_by_proposal_total j Hj)|intros [existing|] He; [by apply clean_adopt|]].
    apply IH. by apply fills_next.
Qed.

Lemma clean_publication random pid b : fills random -> clean (commit_proposal_publication random pid b j).
Proof.
  intros Hf. unfold commit_proposal_publication. apply clean_bind; [apply clean_binding|intros _ _].
  apply clean_bind; [apply clean_total, (intents_total j Hj)|intros o Ho]. apply clean_bind; [clean_step|intros row ->%ok_or_Ok].
  apply load_proposal_intent_Some in Ho as [Hin <-]; [|done]. apply clean_bind; [clean_step|intros u Hb%reject_if_Ok]. bool_props. subst b.
  destruct (pi_review_id row) as [id|] eqn:Hn.
  - destruct (jo_links j Hj _ _ Hin Hn) as [s Hs].
    rewrite (proj2 (load_review_Some j Hj id {| rv_review_id := id; rv_binding := pi_binding row; rv_state := s |})) by done. cbn.
    rewrite bool_decide_eq_true_2 by done. apply clean_Ok.
  - apply clean_bind; [apply clean_total, (load_review_by_proposal_total j Hj)|intros [existing|] He; [by apply clean_adopt|]].
    by apply clean_publication_attempts.
Qed.
End CleanPublish.

(** What the restart view rejects in a well-formed journal: a committed review without an outcome
    although its Proposal or its Decision is on record, and a linked review with an unknown outcome
    of no Decision. *)
Definition unsettled (s : ReviewState) (linked : bool) (intent : option DecisionCommitIntent) (outcome : option DecisionOutcome) : bool :=
  match s with
  | DecisionCommitted => (linked || is_some intent) && negb (is_some outcome)
  | OutcomeUnknown => linked && negb (is_some intent)
  | _ => false
  end.

Lemma reconciliation_answers j id b s : journal_ok j -> review_at j id b s -> exists p i o,
  load_proposal_intent_by_review j id = Ok p /\ load_decision_commit_intent j id = Ok i /\ load_decision_outcome j id = Ok o /\
  get_review_reconciliation j id =
    (if unsettled s (is_some p) i o then Err CorruptData
     else Ok {| rr_review := {| rv_review_id := id; rv_binding := b; rv_state := s |};
                rr_proposal_artifact_manifest_sha256 := pi_artifact_manifest_sha256 <$> p; rr_decision_intent := i;
                rr_decision_outcome := o |}).
Proof.
  intros Hj Hr. unfold get_review_reconciliation.
  rewrite (proj2 (load_review_Some j Hj id {| rv_review_id := id; rv_binding := b; rv_state := s |})) by done. cbn [mbind result_bind ok_or].
  destruct (intents_total j Hj (fun row => bool_decide (pi_review_id row = Some id))) as [p Hp].
  change (load_proposal_intent_by_review j id = Ok p) in Hp. rewrite Hp. cbn [mbind result_bind].
  assert (check_link j p = Ok tt) as ->.
  { destruct p as [row|]; [|done]. apply load_by_review_Some in Hp as [Hin _]; [|done]. by apply check_link_ok. }
  cbn [mbind result_bind]. destruct (load_commit_total j Hj id) as [i Hi]. rewrite Hi. cbn [mbind result_bind].
  destruct (load_outcome_total j Hj id) as [o Ho]. rewrite Ho. cbn [mbind result_bind].
  exists p, i, o. split_and!; [done..|]. unfold check_reconciliation. cbv zeta. cbn [rv_state rv_binding].
  assert (forall x, i = Some x -> ci_binding x = b) as Hib.
  { intros x ->. apply load_commit_found in Hi as (_ & _ & [s' Hs'] & _); [|done]. by destruct (review_at_inj j Hj _ _ _ _ _ Hr Hs'). }
  destruct o as [o|].
  - apply load_outcome_Some in Ho as (_ & i' & b' & Hi' & Hr' & Hm); [|done]. rewrite Hi' in Hi. injection Hi as <-.
    destruct (review_at_inj j Hj _ _ _ _ _ Hr Hr') as [<- ->]. rewrite (Hib _ eq_refl), (bool_decide_eq_true_2 (b = b)) by done.
    rewrite (bool_decide_eq_true_2 (DecisionCommitted = DecisionCommitted)) by done. rewrite Hm. cbn. by rewrite !andb_false_r.
  - destruct i as [i|]; [rewrite (Hib i eq_refl), (bool_decide_eq_true_2 (b = b)) by done|]; by destruct s, p.
Qed.

Section CleanDecide.
Variable j : Journal.
Hypothesis Hj : journal_ok j.
Variable sha256 : list byte -> list byte.

Lemma clean_load_review id : clean (load_review j id).
Proof. apply clean_total, (load_review_total j Hj). Qed.

Lemma clean_register_decision id request : clean (register_decision_intent sha256 id request j).
Proof.
  unfold register_decision_intent, validate_intent_request.
  apply clean_bind; [repeat (apply clean_requests || apply clean_control_values || clean_step)|intros _ _]. cbv zeta.
  apply clean_bind; [apply clean_load_review|intros o Ho]. apply clean_bind; [clean_step|intros review ->%ok_or_Ok].
  apply load_review_Some in Ho as [_ Hr]; [|done]. apply clean_bind; [apply clean_total, (load_intent_total j Hj)|intros [existing|] He].
  - repeat clean_step.
  - apply optional_None in He. apply clean_bind; [clean_step|intros _ _]. apply clean_bind; [clean_step|intros _ _].
    unfold insert_decision_intent. cbn [planned_decision di_review_id]. rewrite (review_at_exists _ _ _ _ Hr), He. cbn. apply clean_Ok.
Qed.

Lemma clean_register_commit id request : clean (register_decision_commit_intent sha256 id request j).
Proof.
  unfold register_decision_commit_intent. apply clean_bind.
  { unfold validate_decision_commit_intent_request, validate_decision_semantics.
    repeat (apply clean_requests || apply clean_control_values || clean_step). }
  intros [] Hv. apply clean_bind; [apply clean_load_review|intros o Ho]. apply clean_bind; [clean_step|intros review ->%ok_or_Ok].
  apply load_review_Some in Ho as [_ Hr]; [|done].
  apply clean_bind; [repeat (apply clean_total, (intents_total j Hj) || clean_step)|intros _ _].
  apply clean_bind; [clean_step|intros _ Hne%reject_if_Ok]. cbv zeta.
  apply clean_bind; [apply clean_total, (load_intent_total j Hj)|intros [legacy|] He].
  - repeat (apply clean_total, (load_commit_total j Hj) || clean_step).
  - apply optional_None in He. apply clean_bind; [clean_step|intros _ _]. destruct (review_at_ok j Hj _ _ _ Hr) as [_ Hb].
    pose proof (planned_commit_ok sha256 id _ request Hb Hv Hne) as (Hsem & Hman & _)%validate_stored_commit_spec.
    unfold insert_decision_intent. cbn [di_review_id]. rewrite (review_at_exists _ _ _ _ Hr), He. cbn [is_Some_dec bool_decide negb orb reject_if mbind result_bind].
    unfold insert_commit_intent. cbv zeta. rewrite Hsem, Hman. cbn [negb].
    match goal with |- context [intent_row ?k ?i] => assert (bool_decide (is_Some (intent_row k i)) = true) as -> end.
    { apply bool_decide_eq_true. unfold intent_row in *. cbn. rewrite find_app_one, He. cbn. rewrite str_eqb_refl. by eexists. }
    match goal with |- context [existsb ?p ?l] => assert (existsb p l = false) as -> end; [|apply clean_Ok].
    apply existsb_false. intros row Hin. apply str_eqb_neq. cbn. intros <-. cbn in Hin.
    destruct (jo_commits j Hj _ Hin) as (i & _ & Hl & _). apply load_commit_found in Hl as (_ & _ & _ & [x Hx]); [|done]. congruence.
Qed.

Lemma clean_reconcile intent : clean (reconcile_decision_not_committed intent j).
Proof.
  unfold reconcile_decision_not_committed. cbv zeta. apply clean_bind; [apply clean_load_review|intros o Ho].
  apply clean_bind; [clean_step|intros review ->%ok_or_Ok]. apply load_review_Some in Ho as [_ Hr]; [|done].
  apply clean_bind; [apply clean_total, (load_commit_total j Hj)|intros i _]. apply clean_bind; [clean_step|intros found _].
  apply clean_bind; [clean_step|intros _ _]. apply clean_bind; [apply clean_total, (load_outcome_total j Hj)|intros oc _].
  apply clean_bind; [clean_step|intros _ _]. destruct (rv_state review) eqn:Es; try (by apply clean_Ok); try (by apply clean_Err).
  pose proof (update_state_one j Hj _ _ _ RetryableFailure Hr) as Hone.
  destruct (update_state (ci_review_id intent) OutcomeUnknown RetryableFailure j) as [updated changed]. cbn in Hone. rewrite Hone. apply clean_Ok.
Qed.

Lemma clean_record review intent candidate :
  load_review j (oc_review_id candidate) = Ok (Some review) ->
  load_decision_commit_intent j (oc_review_id candidate) = Ok (Some intent) -> load_decision_outcome j (oc_review_id candidate) = Ok None ->
  validate_stored_decision_outcome candidate = Ok tt -> clean (record_outcome review intent candidate j).
Proof.
  intros [_ Hr]%load_review_Some Hi Ho Hv; [|done]. unfold record_outcome. cbv zeta.
  apply clean_bind; [clean_step|intros _ _]. apply clean_bind; [clean_step|intros _ _].
  unfold validate_stored_decision_outcome, validate_decision_semantics, stored in Hv. result_inv. bool_props.
  unfold insert_outcome. apply load_commit_found in Hi as (_ & Hcf & _); [|done]. unfold commit_found in Hcf. rewrite Hcf.
  apply optional_None in Ho. assert (existsb (fun row => str_eqb (so_review_id row) (oc_review_id candidate)) (decision_outcomes j) = false) as ->.
  { apply existsb_false. by apply find_None_elem. }
  repeat match goal with H : valid_artifact_manifest_sha256 _ = true |- _ => rewrite H; clear H | H : str_eqb _ _ = false |- _ => rewrite H; clear H end.
  match goal with H : (if ?b then _ else _) = _ |- _ => destruct b; [|done] end. cbn [negb orb reject_if mbind result_bind].
  pose proof (update_state_one j Hj _ _ _ DecisionCommitted Hr) as Hone.
  destruct (update_state _ _ _ (set_outcomes _ j)) as [updated changed] eqn:E.
  assert (changed = 1) as ->; [|apply clean_Ok]. by injection E as <- <-.
Qed.

Lemma clean_commit_outcome id request : clean (commit_decision_outcome id request j).
Proof.
  unfold commit_decision_outcome. apply clean_bind.
  { unfold validate_decision_outcome_request, validate_decision_semantics. repeat (apply clean_control_values || clean_step). }
  intros [] Hv. apply clean_bind; [apply clean_load_review|intros o Ho]. apply clean_bind; [clean_step|intros review ->%ok_or_Ok]. cbv zeta.
  apply clean_bind; [apply clean_total, (load_commit_total j Hj)|intros strict Hi].
  apply clean_bind; [apply clean_total, (load_outcome_total j Hj)|intros [existing|] Hoc].
  - pose proof (proj1 (load_review_Some j Hj _ _) Ho) as [Hid Hr].
    destruct (load_outcome_Some j Hj _ _ Hoc) as (_ & i & b & Hi' & Hr' & Hm). destruct (review_at_inj j Hj _ _ _ _ _ Hr Hr') as [Eb Es].
    rewrite Es. rewrite (bool_decide_eq_true_2 (DecisionCommitted = DecisionCommitted)) by done. cbn [negb reject_if mbind result_bind]. case_bool_decide; [|by apply clean_Err].
    rewrite Hi' in Hi. injection Hi as <-. cbn. assert (decision_outcome_matches_intent i review existing = true) as ->; [|apply clean_Ok].
    destruct review; simplify_eq/=. done.
  - destruct strict as [intent|].
    + apply clean_bind; [|intros; apply clean_Ok]. apply clean_record; [done..|]. by apply candidate_outcome_ok.
    + repeat (apply clean_total, (load_intent_total j Hj) || clean_step).
Qed.

(** The strict rules are what the remaining two operations rely on. *)
Hypothesis Hs : strict_ok j.

Lemma strict_outcome id b : review_at j id b DecisionCommitted ->
  exists o i, load_decision_outcome j id = Ok (Some o) /\ load_decision_commit_intent j id = Ok (Some i).
Proof.
  intros (row & Hin & <-)%(so_committed j Hs). destruct (jo_outcomes j Hj _ Hin) as (i & o & b' & Hi & Ho & _).
  exists o, i. split; [|done]. apply optional_Some. exists row. split; [|done]. apply find_unique; [apply Hj|done].
Qed.

Lemma clean_transition id expected next : clean (transition_review_state id expected next j).
Proof.
  unfold transition_review_state. apply clean_bind; [apply clean_load_review|intros o Ho].
  apply clean_bind; [clean_step|intros cur ->%ok_or_Ok]. apply load_review_Some in Ho as [_ Hr]; [|done]. cbv zeta.
  apply clean_bind; [clean_step|intros _ Hx%reject_if_Ok%negb_false_iff%bool_decide_eq_true]. subst expected.
  apply clean_bind; [apply clean_total, (intents_total j Hj)|intros p _].
  apply clean_bind; [apply clean_total, (load_commit_total j Hj)|intros i Hi].
  apply clean_bind; [apply clean_total, (load_outcome_total j Hj)|intros oc Hoc].
  apply clean_bind.
  - destruct (_ || _); [|apply clean_Ok]. unfold strict_transition. destruct next; try apply clean_Ok.
    + case_bool_decide as Es; [|by apply clean_Err]. rewrite Es in Hr. destruct (strict_outcome _ _ Hr) as (o & i' & Ho & Hi').
      rewrite Ho in Hoc. rewrite Hi' in Hi. injection Hoc as <-. injection Hi as <-. apply clean_Ok.
    + destruct (is_some i) eqn:Ei; [apply clean_Ok|]. case_bool_decide as Es; [|by apply clean_Err]. rewrite Es in Hr.
      rewrite (loaded_commit j Hj id i Hi), (so_unknown j Hs _ _ Hr) in Ei. done.
  - intros _ _. case_bool_decide; [apply clean_Ok|]. apply clean_bind; [clean_step|intros _ Ha%reject_if_Ok%negb_false_iff].
    pose proof (update_state_one j Hj _ _ _ next Hr) as Hone.
    change (update_state id (rv_state cur) next j) with (with_state id (rv_state cur) next j, (update_state id (rv_state cur) next j).2).
    rewrite Hone. cbn [negb Z.eqb reject_if mbind result_bind].
    assert (journal_ok (with_state id (rv_state cur) next j)) as Hj'. { apply ok_with_state; [done|]. by destruct (rv_state cur). }
    pose proof (with_state_at j id (rv_state cur) next _ _ _ Hr) as Hr'. rewrite !bool_decide_eq_true_2 in Hr' by done.
    rewrite (proj2 (find_unique sr_review_id _ id _ (jo_review_ids _ Hj')) (conj Hr' eq_refl)). cbn [ok_or mbind result_bind].
    destruct (decode_review_total _ Hj' _ Hr') as [r ->]. apply clean_Ok.
Qed.

Lemma reconciliation_succeeds id b s : review_at j id b s -> exists v, get_review_reconciliation j id = Ok v.
Proof.
  intros Hr. destruct (reconciliation_answers j id b s Hj Hr) as (p & i & o & _ & Hi & Ho & ->).
  assert (unsettled s (is_some p) i o = false) as ->; [|by eexists]. destruct s; try done; cbn [unsettled].
  - destruct (strict_outcome _ _ Hr) as (o' & i' & Ho' & _). rewrite Ho' in Ho. injection Ho as <-. apply andb_false_r.
  - rewrite (loaded_commit j Hj id i Hi), (so_unknown j Hs _ _ Hr). apply andb_false_r.
Qed.
End CleanDecide.
