(* ===== verification/JournalRuns.v ===== *)
(** * Journal: what later operations preserve, and sequences of operations *)

From stdpp Require Import base list numbers strings gmap sets relations.
From Stdlib Require Import ZArith Lia.
From S2P Require Import Prelude Text Bytes TextFacts Oid Journal JournalOps JournalEffects JournalSound JournalClean.

#[local] Open Scope Z_scope.

(** ** The review journal: what later operations preserve

    [later] relates a journal to one that further operations produced: reviews keep their
    identifier and binding and move along the state machine, rows of decisions and outcomes are
    never changed, and a Proposal intent changes only when a review is linked to it. *)

Definition terminal (s : ReviewState) : bool := match s with DecisionCommitted | TerminalDenial => true | _ => false end.

(** A row of [proposal_intents] later: the same, or with a review linked. *)
Definition link_later (row row' : ProposalIntent) : Prop :=
  row' = row \/ pi_review_id row = None /\ exists id, row' = link_review id row.

Record later (j j' : Journal) : Prop := {
  lt_reviews : forall id b s, review_at j id b s -> exists s', review_at j' id b s' /\ rtc moves s s';
  lt_decisions : decisions_grow j j';
  lt_outcomes : exists k, decision_outcomes j' = decision_outcomes j ++ k;
  lt_intents : forall row, row ∈ proposal_intents j -> exists row', row' ∈ proposal_intents j' /\ link_later row row';
}.

Lemma link_later_trans a b c : link_later a b -> link_later b c -> link_later a c.
Proof.
  intros [->|(Ha & id & ->)]; [done|]. intros [->|(Hb & _)]; [right; split; [done|by exists id]|]. done.
Qed.

#[export] Instance later_preorder : PreOrder later.
Proof.
  split.
  - intros j. split; [intros id b s Hr; by exists s|by apply grows_refl|exists []; by rewrite app_nil_r|].
    intros row Hin. exists row. split; [done|]. by left.
  - intros j1 j2 j3 [Hr1 [[k1 Hk1] [l1 Hl1]] [m1 Hm1] Hi1] [Hr2 [[k2 Hk2] [l2 Hl2]] [m2 Hm2] Hi2]. split.
    + intros id b s Hr. destruct (Hr1 _ _ _ Hr) as (s' & Hr' & Hs'). destruct (Hr2 _ _ _ Hr') as (s'' & Hr'' & Hs'').
      exists s''. split; [done|]. by etrans.
    + split; eexists; [rewrite Hk2, Hk1|rewrite Hl2, Hl1]; by rewrite <- app_assoc.
    + eexists. rewrite Hm2, Hm1. by rewrite <- app_assoc.
    + intros row Hin. destruct (Hi1 _ Hin) as (r' & Hin' & Hl'). destruct (Hi2 _ Hin') as (r'' & Hin'' & Hl'').
      exists r''. split; [done|]. by eapply link_later_trans.
Qed.

(** A move ends in a terminal state only once. *)
Lemma moves_terminal s s' : rtc moves s s' -> terminal s = true -> s' = s.
Proof. intros [|s1 s2 s3 Hm%moves_from _]; [done|]. destruct Hm as [H1 H2]. by destruct s1. Qed.

Lemma open_moves s : open_for_outcome s = true -> moves s DecisionCommitted.
Proof. destruct s; try done; intros _; (split; [done|by left]). Qed.

(** ** Effects *)

(** Only reviews change, and every one is kept. *)
Lemma later_rows j j' :
  (forall id b s, review_at j id b s -> exists s', review_at j' id b s' /\ rtc moves s s') ->
  decision_intents j' = decision_intents j -> decision_commit_intents j' = decision_commit_intents j ->
  (exists k, decision_outcomes j' = decision_outcomes j ++ k) -> proposal_intents j' = proposal_intents j -> later j j'.
Proof.
  intros Hr E1 E2 E3 E4. split; [done|by apply grows_refl|done|]. intros row Hin. exists row. rewrite E4. split; [done|by left].
Qed.

Lemma same_reviews_later j j' : reviews j' = reviews j ->
  forall id b s, review_at j id b s -> exists s', review_at j' id b s' /\ rtc moves s s'.
Proof. intros E id b s Hr. exists s. split; [unfold review_at; by rewrite E|done]. Qed.

Lemma added_reviews_later j j' k : reviews j' = reviews j ++ k ->
  forall id b s, review_at j id b s -> exists s', review_at j' id b s' /\ rtc moves s s'.
Proof. intros E id b s Hr. exists s. split; [unfold review_at; rewrite E; apply elem_of_app; by left|done]. Qed.

Lemma moved_reviews_later j j' id0 from to : moves from to -> reviews j' = map (restate id0 from to) (reviews j) ->
  forall id b s, review_at j id b s -> exists s', review_at j' id b s' /\ rtc moves s s'.
Proof.
  intros Hm E id b s Hr. pose proof (with_state_at j id0 from to id b s Hr) as Hr'. unfold review_at in Hr'.
  rewrite with_state_reviews, <- E in Hr'. eexists. split; [exact Hr'|].
  destruct (bool_decide (id = id0)); cbn; [|done]. case_bool_decide; [subst; by apply rtc_once|done].
Qed.

(** Linking one intent. *)
Lemma relinked_later j pid id rows : map (fun r => if unlinked pid r then link_review id r else r) (proposal_intents j) = rows ->
  forall row, row ∈ proposal_intents j -> exists row', row' ∈ rows /\ link_later row row'.
Proof.
  intros <- row Hin. eexists. split; [by apply list_elem_of_fmap_2|]. cbv beta. destruct (unlinked pid row) eqn:E; [|by left].
  unfold unlinked in E. bool_props. right. split; [done|by eexists].
Qed.

Lemma strict_effect_later j j' : strict_effect j j' -> later j j'.
Proof.
  intros [row Hok Hn|row id s Hin Hn Hr|row id Hi Hf1 Hf2 Hin Hn|id b from to Hr Hm Hc Hu _|row b s|i s|i o b s Hi Ho Hr Hopen Hm Hv].
  - split; [by apply same_reviews_later|by apply grows_refl|exists []; by rewrite app_nil_r|].
    intros r Hin. exists r. split; [apply elem_of_app; by left|by left].
  - split; [by apply same_reviews_later|by apply grows_refl|exists []; by rewrite app_nil_r|]. by eapply relinked_later.
  - split; [by eapply added_reviews_later|by apply grows_refl|exists []; by rewrite app_nil_r|]. by eapply relinked_later.
  - apply later_rows; try done; [by eapply moved_reviews_later|exists []; by rewrite app_nil_r].
  - split; [by apply same_reviews_later| |exists []; by rewrite app_nil_r|intros r Hin; exists r; split; [done|by left]].
    split; [by eexists|exists []; by rewrite app_nil_r].
  - split; [by apply same_reviews_later|split; by eexists|exists []; by rewrite app_nil_r|intros r Hin; exists r; split; [done|by left]].
  - apply later_rows; try done; [|by eexists].
    eapply (moved_reviews_later _ _ (oc_review_id o) s DecisionCommitted); [by apply open_moves|done].
Qed.

Lemma effect_later j j' : effect j j' -> later j j'.
Proof.
  intros [id b|? He]; [|by apply strict_effect_later].
  apply later_rows; try done; [by eapply added_reviews_later|exists []; by rewrite app_nil_r].
Qed.

Lemma changes_later j j' : changes j j' -> later j j'.
Proof. intros [->|He]; [done|by apply effect_later]. Qed.

(** ** Loads in a later journal *)

Section Later.
Variables (j j' : Journal).
Hypotheses (Hj : journal_ok j) (Hj' : journal_ok j') (Hl : later j j').

Lemma load_review_later id r : load_review j id = Ok (Some r) ->
  exists s, load_review j' id = Ok (Some {| rv_review_id := rv_review_id r; rv_binding := rv_binding r; rv_state := s |}) /\
            rtc moves (rv_state r) s.
Proof.
  intros [<- Hr]%(load_review_Some j Hj). destruct (lt_reviews _ _ Hl _ _ _ Hr) as (s & Hr' & Hs). exists s. split; [|done].
  by apply (load_review_Some j' Hj').
Qed.

Lemma load_commit_later id i : load_decision_commit_intent j id = Ok (Some i) -> load_decision_commit_intent j' id = Ok (Some i).
Proof. apply load_commit_grows, Hl. Qed.

Lemma load_outcome_later id o : load_decision_outcome j id = Ok (Some o) -> load_decision_outcome j' id = Ok (Some o).
Proof.
  intros (row & Hf & Hd)%optional_Some. apply optional_Some. exists row. split; [|done].
  destruct (lt_outcomes _ _ Hl) as [k ->]. by apply find_app_found.
Qed.

Lemma load_intent_later id row : load_proposal_intent j id = Ok (Some row) ->
  exists row', load_proposal_intent j' id = Ok (Some row') /\ link_later row row'.
Proof.
  intros [Hin <-]%(load_proposal_intent_Some j Hj). destruct (lt_intents _ _ Hl _ Hin) as (row' & Hin' & Hlk). exists row'.
  split; [|done]. apply (load_proposal_intent_Some j' Hj'). split; [done|]. by destruct Hlk as [->|(_ & id & ->)].
Qed.
End Later.

(** ** Digests name their parts *)

Lemma digest_binds sha256 domain parts parts' : sha256_digest sha256 -> Forall sized parts -> Forall sized parts' ->
  digest sha256 domain parts = digest sha256 domain parts' -> parts = parts' \/ collides sha256 (digest_input domain parts) (digest_input domain parts').
Proof.
  intros Hsha Hs Hs' E. unfold digest in E. apply app_inj_1 in E as [_ E]; [|done].
  apply lower_hex_inj in E; [|apply Hsha..]. destruct (decide (digest_input domain parts = digest_input domain parts')) as [E'|Hne].
  - left. unfold digest_input in E'. apply app_inj_1 in E' as [_ E']; [|done]. by apply framed_inj.
  - right. by split.
Qed.

(** ** The review journal: runs

    The operations that write, as one type; the journals they reach; and what a stored row
    answers in every later journal. *)

(** ** The public operations that write *)

Inductive operation :=
| CreateReview (random : nat -> option (list byte)) (binding : ReviewBinding)
| RegisterProposal (random : nat -> option (list byte)) (request : ProposalIntentRequest)
| CommitPublication (random : nat -> option (list byte)) (proposal_intent_id : str) (binding : ReviewBinding)
| Transition (review_id : str) (expected next : ReviewState)
| RegisterDecision (review_id : str) (request : DecisionIntentRequest)
| RegisterDecisionCommit (review_id : str) (request : DecisionCommitIntentRequest)
| ReconcileNotCommitted (intent : DecisionCommitIntent)
| CommitOutcome (review_id : str) (request : DecisionOutcomeRequest).

Definition run (sha256 : list byte -> list byte) (op : operation) (j : Journal) : jresult Journal :=
  match op with
  | CreateReview random binding => fst <$> create_or_get_review random binding j
  | RegisterProposal random request => fst <$> register_proposal_intent sha256 random request j
  | CommitPublication random id binding => fst <$> commit_proposal_publication random id binding j
  | Transition id expected next => fst <$> transition_review_state id expected next j
  | RegisterDecision id request => fst <$> register_decision_intent sha256 id request j
  | RegisterDecisionCommit id request => fst <$> register_decision_commit_intent sha256 id request j
  | ReconcileNotCommitted intent => fst <$> reconcile_decision_not_committed intent j
  | CommitOutcome id request => fst <$> commit_decision_outcome id request j
  end.

(** The random source of an operation fills its buffers. *)
Definition fair (op : operation) : Prop :=
  match op with
  | CreateReview random _ | RegisterProposal random _ | CommitPublication random _ _ => fills random
  | _ => True
  end.

(** Operations of the strict (v2) protocol: all but the compatibility creation of a review. *)
Definition strict_op (op : operation) : bool := match op with CreateReview _ _ => false | _ => true end.

(** An error rolls the transaction back. *)
Definition after (j : Journal) (r : jresult Journal) : Journal := match r with Ok j' => j' | Err _ => j end.

Inductive step (sha256 : list byte -> list byte) (j : Journal) : Journal -> Prop :=
| step_run op : fair op -> step sha256 j (after j (run sha256 op j)).

Inductive strict_step (sha256 : list byte -> list byte) (j : Journal) : Journal -> Prop :=
| strict_run op : fair op -> strict_op op = true -> strict_step sha256 j (after j (run sha256 op j)).

Definition journal_reachable (sha256 : list byte -> list byte) (j : Journal) : Prop := rtc (step sha256) empty_journal j.
Definition strict_reachable (sha256 : list byte -> list byte) (j : Journal) : Prop := rtc (strict_step sha256) empty_journal j.

Section Steps.
Variable sha256 : list byte -> list byte.
Hypothesis Hsha : sha256_digest sha256.

Lemma run_strict_changes op j j' : journal_ok j -> fair op -> strict_op op = true -> run sha256 op j = Ok j' -> strict_changes j j'.
Proof.
  intros Hj Hf Hop Hr. destruct op; cbn [run fair] in *; [discriminate Hop|..]; apply fmap_Ok in Hr as ([j1 a] & Hr & <-); cbn.
  - by eapply register_proposal_changes.
  - by eapply commit_publication_changes.
  - by eapply transition_changes.
  - by eapply register_decision_changes.
  - by eapply register_commit_changes.
  - by eapply reconcile_changes.
  - by eapply commit_outcome_changes.
Qed.

Lemma run_changes op j j' : journal_ok j -> fair op -> run sha256 op j = Ok j' -> changes j j'.
Proof.
  intros Hj Hf Hr. destruct (strict_op op) eqn:Hop.
  - destruct (run_strict_changes op j j' Hj Hf Hop Hr) as [->|He]; [by left|right; by apply eff_strict].
  - destruct op; try discriminate Hop. cbn [run] in Hr. apply fmap_Ok in Hr as ([j1 a] & Hr & <-). by eapply create_or_get_changes.
Qed.

Lemma step_changes j j' : journal_ok j -> step sha256 j j' -> changes j j'.
Proof. intros Hj [op Hf]. destruct (run sha256 op j) as [j1|e] eqn:E; cbn; [by eapply run_changes|by left]. Qed.

Lemma step_ok j j' : journal_ok j -> step sha256 j j' -> journal_ok j'.
Proof. intros Hj [->|He]%step_changes; [done|by eapply effect_ok|done]. Qed.

Lemma steps_ok j j' : journal_ok j -> rtc (step sha256) j j' -> journal_ok j'.
Proof. intros Hj Hs. induction Hs; [done|]. eauto using step_ok. Qed.

Lemma strict_is_step j j' : strict_step sha256 j j' -> step sha256 j j'.
Proof. intros [op Hf _]. by constructor. Qed.

Lemma strict_reachable_ok j : strict_reachable sha256 j -> journal_ok j /\ strict_ok j.
Proof.
  unfold strict_reachable. revert j. apply rtc_ind_r; [split; [apply empty_journal_ok|apply empty_strict_ok]|].
  intros j j' _ Hstep [Hj Hs]. split; [by eapply step_ok, strict_is_step|]. destruct Hstep as [op Hf Hop].
  destruct (run sha256 op j) as [j1|e] eqn:E; cbn; [|done].
  destruct (run_strict_changes op j j1 Hj Hf Hop E) as [->|He]; [done|]. by eapply effect_strict.
Qed.

Lemma run_clean op j : journal_ok j -> strict_ok j -> fair op -> clean (run sha256 op j).
Proof.
  intros Hj Hs Hf. assert (forall A (f : A -> Journal) r, clean r -> clean (f <$> r)) as Hfmap.
  { intros A f [a|e] Hc; [apply clean_Ok|]. intros e' [= <-]. by apply Hc. }
  destruct op; cbn [run fair] in *; apply Hfmap.
  - by apply clean_create_or_get.
  - by apply clean_register.
  - by apply clean_publication.
  - by apply clean_transition.
  - by apply clean_register_decision.
  - by apply clean_register_commit.
  - by apply clean_reconcile.
  - by apply clean_commit_outcome.
Qed.
End Steps.

(** ** Opening *)

Lemma initialize_ok version j j' : journal_ok j -> initialize version j = Ok j' -> journal_ok j'.
Proof.
  intros Hj. unfold initialize. destruct (version =? 0); [intros [= <-]; apply empty_journal_ok|].
  destruct (version =? 1).
  - intros [= <-]. split; try apply Hj; cbn; try apply NoDup_nil_2; try constructor; by intros ? ?%elem_of_nil || (intros ? ? ?%elem_of_nil).
  - destruct (version =? SCHEMA_VERSION); [|done]. by intros [= <-].
Qed.

(** ** Histories *)

Section History.
Variable sha256 : list byte -> list byte.
Hypothesis Hsha : sha256_digest sha256.

Lemma steps_later j j' : journal_ok j -> rtc (step sha256) j j' -> later j j'.
Proof.
  intros Hj Hs. induction Hs as [|j1 j2 j3 Hstep _ IH]; [done|]. pose proof (step_changes sha256 Hsha _ _ Hj Hstep) as Hc.
  etrans; [by apply changes_later|]. apply IH. by eapply step_ok.
Qed.

Lemma reachable_ok j : journal_reachable sha256 j -> journal_ok j.
Proof. apply (steps_ok sha256 Hsha), empty_journal_ok. Qed.

(** A recorded outcome is found under its review. *)
Lemma commit_outcome_recorded id request j j' o reg : journal_ok j -> commit_decision_outcome id request j = Ok (j', (o, reg)) ->
  validate_decision_outcome_request request = Ok tt /\ o = candidate_outcome id request /\ load_decision_outcome j' id = Ok (Some o).
Proof.
  intros Hj. unfold commit_decision_outcome. intros Hc. apply bind_Ok in Hc as ([] & Hv & Hc). apply bind_Ok in Hc as (lo & Ho & Hc).
  apply bind_Ok in Hc as (review & ->%ok_or_Ok & Hc). cbv zeta in Hc. split; [done|].
  apply bind_Ok in Hc as (strict & Hi & Hc). apply bind_Ok in Hc as (existing & Hoc & Hc). destruct existing as [existing|].
  { apply bind_Ok in Hc as (u & _ & Hc). case_bool_decide as E; [|done]. apply bind_Ok in Hc as (i & _ & Hc).
    apply bind_Ok in Hc as (u' & _ & Hc). injection Hc as <- <- <-. done. }
  destruct strict as [intent|]; [|apply bind_Ok in Hc as (l & _ & Hc); by destruct (is_some l)].
  apply bind_Ok in Hc as (j1 & Hr & Hc). injection Hc as <- <- <-. split; [done|]. unfold record_outcome in Hr. cbv zeta in Hr.
  apply bind_Ok in Hr as (u & _ & Hr). apply bind_Ok in Hr as (u' & _ & Hr).
  apply bind_Ok in Hr as (j2 & Hins & Hr). unfold insert_outcome in Hins. apply bind_Ok in Hins as (u2 & _ & [= <-]).
  change (update_state ?a ?b ?c ?k) with (with_state a b c k, (update_state a b c k).2) in Hr. cbv beta iota in Hr.
  destruct (_ =? 1); [|by result_inv]. injection Hr as <-.
  assert (find (fun row => str_eqb (so_review_id row) id) (decision_outcomes j) = None) as Hn by by apply optional_None in Hoc.
  apply optional_Some. exists (outcome_row (candidate_outcome id request)).
  split; [|apply (validate_stored_decode (candidate_outcome id request)); by apply candidate_outcome_ok].
  change (decision_outcomes (with_state _ _ _ _)) with (decision_outcomes j ++ [outcome_row (candidate_outcome id request)]).
  rewrite find_app_one, Hn. cbn. by rewrite str_eqb_refl.
Qed.

(** Where an outcome is stored, requests are answered from it. *)
Lemma outcome_answers id o j : journal_ok j -> load_decision_outcome j id = Ok (Some o) ->
  get_decision_outcome j id = Ok (Some o) /\
  (exists b, get_review j id = Ok {| rv_review_id := id; rv_binding := b; rv_state := DecisionCommitted |}) /\
  forall request, validate_decision_outcome_request request = Ok tt ->
    commit_decision_outcome id request j =
      if bool_decide (o = candidate_outcome id request) then Ok (j, (o, Replayed)) else Err DecisionOutcomeConflict.
Proof.
  intros Hj Ho. destruct (load_outcome_Some j Hj _ _ Ho) as (_ & i & b & Hi & Hr & Hm).
  pose proof (proj2 (load_review_Some j Hj id {| rv_review_id := id; rv_binding := b; rv_state := DecisionCommitted |}) (conj eq_refl Hr)) as Hl.
  split_and!.
  - unfold get_decision_outcome. rewrite Hl, Ho, Hi. cbn [mbind result_bind ok_or]. by rewrite Hm.
  - exists b. unfold get_review. by rewrite Hl.
  - intros request Hv. unfold commit_decision_outcome. rewrite Hv, Hl, Hi, Ho. cbn [mbind result_bind ok_or]. cbv zeta. cbn.
    case_bool_decide; [|done]. by rewrite Hm.
Qed.

(** The stored intent that answers a request. *)
Record recorded (j : Journal) (request : ProposalIntentRequest) (p : ProposalIntent) : Prop := {
  rc_stored : p ∈ proposal_intents j;
  rc_binding : pi_binding p = pq_binding request;
  rc_fingerprint : pi_request_fingerprint p = proposal_fingerprint sha256 request;
  rc_key : pi_idempotency_digest p = proposal_key sha256 (project_scope (pq_binding request)) (pq_idempotency_key request);
}.

Lemma replay_recorded request j existing j' p reg : journal_ok j ->
  load_proposal_intent_by_idempotency j (project_scope (pq_binding request))
    (proposal_key sha256 (project_scope (pq_binding request)) (pq_idempotency_key request)) = Ok (Some existing) ->
  replay_intent sha256 request j existing = Ok (j', (p, reg)) -> recorded j' request p.
Proof.
  intros Hj (Hin & _ & Hk)%(load_by_idempotency_Some j Hj) Hr. unfold replay_intent in Hr.
  destruct (_ && _) eqn:E; [|done]. apply bind_Ok in Hr as (u & _ & [= <- <- _]). apply andb_true_iff in E as [E1%bool_decide_eq_true E2%str_eqb_eq].
  by split.
Qed.

Lemma register_attempts_recorded request n : forall random j j' p reg, journal_ok j ->
  register_attempts sha256 n random request j = Ok (j', (p, reg)) -> recorded j' request p.
Proof.
  induction n as [|n IH]; intros random j j' p reg Hj Hr; cbn [register_attempts] in Hr; [done|].
  apply bind_Ok in Hr as (id & _ & Hr). cbv zeta in Hr. destruct (insert_proposal_intent _ _) as [j1|] eqn:Hins.
  - injection Hr as <- <- <-. apply insert_intent_Some in Hins as (-> & _). split; [|done..]. apply elem_of_app. right. by left.
  - apply bind_Ok in Hr as (o & Ho & Hr). destruct o as [existing|]; [by eapply replay_recorded|].
    apply bind_Ok in Hr as (o & _ & Hr). destruct o; [done|]. by eapply IH.
Qed.

Lemma register_recorded random request j j' p reg : journal_ok j ->
  register_proposal_intent sha256 random request j = Ok (j', (p, reg)) ->
  validate_proposal_intent_request request = Ok tt /\ recorded j' request p.
Proof.
  intros Hj Hr. unfold register_proposal_intent in Hr. apply bind_Ok in Hr as ([] & Hv & Hr). split; [done|]. cbv zeta in Hr.
  apply bind_Ok in Hr as (o & Ho & Hr). destruct o as [existing|]; [by eapply replay_recorded|].
  apply bind_Ok in Hr as (o & _ & Hr). destruct o; [done|]. apply bind_Ok in Hr as (o & _ & Hr). destruct o as [r|]; [by case_bool_decide|].
  by eapply register_attempts_recorded.
Qed.

(** A stored intent answers every request under its key. *)
Lemma recorded_answers j request p : journal_ok j -> recorded j request p -> forall random request',
  validate_proposal_intent_request request' = Ok tt ->
  project_scope (pq_binding request') = project_scope (pq_binding request) -> pq_idempotency_key request' = pq_idempotency_key request ->
  register_proposal_intent sha256 random request' j =
    if bool_decide (pq_binding request = pq_binding request') &&
       str_eqb (proposal_fingerprint sha256 request) (proposal_fingerprint sha256 request')
    then Ok (j, (p, Replayed)) else Err IdempotencyConflict.
Proof.
  intros Hj [Hin Hb Hf Hk] random request' Hv Es Ek. unfold register_proposal_intent. rewrite Hv. cbv zeta. cbn [mbind result_bind].
  rewrite (proj2 (load_by_idempotency_Some j Hj _ _ p)); [|by rewrite Es, Ek, <- Hk, <- Hb]. cbn [mbind result_bind].
  unfold replay_intent. rewrite Hb, Hf. destruct (_ && _); [|done]. by rewrite (check_link_ok j Hj p Hin).
Qed.

Lemma recorded_later j j' request p : later j j' -> recorded j request p -> exists p', recorded j' request p' /\ link_later p p'.
Proof.
  intros Hl [Hin Hb Hf Hk]. destruct (lt_intents _ _ Hl _ Hin) as (p' & Hin' & Hlk). exists p'. split; [|done].
  destruct Hlk as [->|(_ & id & ->)]; by split.
Qed.

(** Validated requests have parts of bounded size. *)
Lemma control_sized v : validate_control_value v = Ok tt -> sized v.
Proof. unfold validate_control_value, MAX_CONTROL_VALUE_BYTES, sized. intros Hv%reject_if_Ok. bool_props. lia. Qed.

Lemma proposal_parts_sized request : validate_proposal_intent_request request = Ok tt ->
  let b := pq_binding request in
  Forall sized [pq_canonical_request request; pq_artifact_manifest_sha256 request; project_scope b; proposal_ref_name b; proposal_head b;
     decision_ref_name b; expected_decision_head b].
Proof.
  intros Hv. cbv zeta. unfold validate_proposal_intent_request in Hv. apply bind_Ok in Hv as (u & Hk & Hv).
  apply bind_Ok in Hv as (u' & Hm%reject_if_Ok%negb_false_iff & Hv). unfold binding_validate in Hv. apply bind_Ok in Hv as (u2 & Hb & _).
  apply control_values_Ok in Hb. apply bind_Ok in Hk as (u3 & _ & Hk%reject_if_Ok).
  constructor; [unfold sized, MAX_CANONICAL_REQUEST_BYTES in *; bool_props; lia|].
  constructor; [unfold sized, valid_artifact_manifest_sha256 in *; bool_props; lia|]. eapply Forall_impl; [exact Hb|apply control_sized].
Qed.

(** The bytes that [proposal_fingerprint] hashes. *)
Definition fingerprint_input (request : ProposalIntentRequest) : list byte :=
  let b := pq_binding request in
  digest_input PROPOSAL_REQUEST_DOMAIN
    [pq_canonical_request request; pq_artifact_manifest_sha256 request; project_scope b; proposal_ref_name b; proposal_head b;
     decision_ref_name b; expected_decision_head b].

Lemma fingerprint_binds request request' :
  validate_proposal_intent_request request = Ok tt -> validate_proposal_intent_request request' = Ok tt ->
  proposal_fingerprint sha256 request = proposal_fingerprint sha256 request' ->
  (pq_canonical_request request, pq_artifact_manifest_sha256 request, pq_binding request) =
  (pq_canonical_request request', pq_artifact_manifest_sha256 request', pq_binding request') \/
  collides sha256 (fingerprint_input request) (fingerprint_input request').
Proof.
  intros Hv Hv' E. unfold proposal_fingerprint in E. cbv zeta in E.
  apply digest_binds in E as [E|E]; [|by right|done..|by apply proposal_parts_sized|by apply proposal_parts_sized].
  left. injection E as E1 E2 E3 E4 E5 E6 E7. f_equal; [by f_equal|]. destruct (pq_binding request), (pq_binding request'). cbn in *. by subst.
Qed.
End History.
