(* ===== verification/JournalProps.v ===== *)
(** * The review journal: the properties

    Every reachable journal is well-formed; the strict protocol never reads as corrupt; a
    review only moves along its state machine; retries give the recorded answer for ever; and
    publishing a Proposal adopts the review that the compatibility operation made, which the
    restart view rejects when the journal lacks what its state needs. *)

From stdpp Require Import base list numbers strings gmap sets relations.
From Stdlib Require Import ZArith Lia.
From S2P Require Import Prelude Text TextFacts Oid Journal JournalOps JournalEffects JournalSound JournalClean JournalRuns.

#[local] Open Scope Z_scope.

(** ** A sample run *)

Definition sample_binding : ReviewBinding :=
  {| project_scope := lit "demo"; proposal_ref_name := lit "proposal/a"; proposal_head := lit "p1";
     decision_ref_name := lit "decision/a"; expected_decision_head := lit "d0" |}.

Definition sample_random (i : nat) : option (list byte) := Some (replicate 32 (Z.of_nat i mod 256)).

Definition sample_manifest : str := replicate 64 97.

Definition sample_proposal : ProposalIntentRequest :=
  {| pq_idempotency_key := [1]; pq_canonical_request := [2]; pq_artifact_manifest_sha256 := sample_manifest; pq_binding := sample_binding |}.

Definition sample_decision : DecisionCommitIntentRequest :=
  {| cq_idempotency_key := [3]; cq_canonical_request := [4]; cq_disposition := AdoptedUnchanged; cq_selected_snapshot := SnapshotProposal;
     cq_reviewed_artifact_manifest_sha256 := sample_manifest; cq_new_decision_head := lit "d1"; cq_feedback_oid := lit "f1" |}.

Definition sample_outcome : DecisionOutcomeRequest :=
  {| oq_disposition := AdoptedUnchanged; oq_selected_snapshot := SnapshotProposal; oq_reviewed_artifact_manifest_sha256 := sample_manifest;
     oq_proposal_head := lit "p1"; oq_expected_decision_head := lit "d0"; oq_new_decision_head := lit "d1"; oq_feedback_oid := lit "f1" |}.

Definition sample_id : str := lower_hex (replicate 32 0).

Definition registering : operation := RegisterProposal sample_random sample_proposal.
Definition publishing : operation := CommitPublication sample_random sample_id sample_binding.
Definition deciding : operation := RegisterDecisionCommit sample_id sample_decision.
Definition committing : operation := CommitOutcome sample_id sample_outcome.

(** The journal after a sequence of operations. *)
Definition runs (ops : list operation) (j : Journal) : Journal :=
  foldl (fun j op => after j (run toy_sha256 op j)) j ops.

Lemma sample_fills : fills sample_random.
Proof.
  intros i bytes E. assert (bytes = replicate 32 (Z.of_nat i mod 256)) as -> by (unfold sample_random in E; congruence).
  split; [by rewrite length_replicate|]. apply Forall_replicate. unfold is_u8.
  pose proof (Z.mod_pos_bound (Z.of_nat i) 256). lia.
Qed.

Lemma runs_steps ops : Forall fair ops -> forall j, rtc (step toy_sha256) j (runs ops j).
Proof. induction 1 as [|op ops Hf _ IH]; intros j; [done|]. eapply rtc_l; [by apply (step_run toy_sha256 j op)|apply IH]. Qed.

Lemma runs_strict ops : Forall fair ops -> forallb strict_op ops = true -> forall j, rtc (strict_step toy_sha256) j (runs ops j).
Proof.
  induction 1 as [|op ops Hf _ IH]; intros Hs j; [done|]. apply andb_true_iff in Hs as [Ho Hs].
  eapply rtc_l; [by apply (strict_run toy_sha256 j op)|by apply IH].
Qed.

Ltac fair_ops := repeat (apply Forall_cons_2; [try exact I; try exact sample_fills|]); apply Forall_nil_2.

Definition strict_ops : list operation := [registering; publishing; deciding; committing].

Lemma sample_fair : Forall fair strict_ops.
Proof. fair_ops. Qed.

(** ** Properties *)

(** C32: every journal that the operations reach from an opened journal is well-formed: rows
    decode, keys are unique, references resolve, an intent's review has the intent's binding, and
    a recorded outcome matches its intent and a committed review. *)
Theorem journal_invariant sha256 version j0 j j' :
  sha256_digest sha256 -> journal_ok j0 -> initialize version j0 = Ok j -> rtc (step sha256) j j' -> journal_ok j'.
Proof. intros Hsha H0 Hi Hs. eapply (steps_ok sha256 Hsha); [|done]. by eapply initialize_ok. Qed.

Lemma journal_invariant_witness : journal_ok (runs strict_ops empty_journal).
Proof.
  apply (journal_invariant toy_sha256 0 empty_journal empty_journal);
    [apply toy_sha256_digest|apply empty_journal_ok|reflexivity|apply runs_steps, sample_fair].
Defined.

(** C33: under the strict protocol no operation reports corruption or a storage failure, and the
    restart view of every stored review succeeds and shows that review. *)
Theorem strict_never_corrupt sha256 j :
  sha256_digest sha256 -> strict_reachable sha256 j ->
  (forall op, fair op -> clean (run sha256 op j)) /\
  (forall id r, get_review j id = Ok r -> exists v, get_review_reconciliation j id = Ok v /\ rr_review v = r).
Proof.
  intros Hsha Hr. destruct (strict_reachable_ok sha256 Hsha j Hr) as [Hj Hs]. split; [intros op Hf; by apply run_clean|].
  intros id r Hg. unfold get_review in Hg. apply bind_Ok in Hg as (o & Ho & ->%ok_or_Ok).
  pose proof (proj1 (load_review_Some j Hj _ _) Ho) as [_ Hat]. destruct (reconciliation_succeeds j Hj Hs _ _ _ Hat) as [v Hv].
  exists v. split; [done|]. unfold get_review_reconciliation in Hv. rewrite Ho in Hv. cbn [mbind result_bind ok_or] in Hv.
  result_inv. done.
Qed.

Lemma strict_never_corrupt_witness :
  exists v, get_review_reconciliation (runs strict_ops empty_journal) sample_id = Ok v /\
    rr_review v = {| rv_review_id := sample_id; rv_binding := sample_binding; rv_state := DecisionCommitted |}.
Proof.
  apply (strict_never_corrupt toy_sha256); [apply toy_sha256_digest|apply runs_strict; [apply sample_fair|reflexivity]|].
  vm_compute. reflexivity.
Defined.

(** C34: along any run a review keeps its identifier and binding, its state moves only as the
    state machine allows, and a terminal state is final. *)
Theorem review_lifecycle sha256 j j' id r :
  sha256_digest sha256 -> journal_reachable sha256 j -> rtc (step sha256) j j' -> get_review j id = Ok r ->
  exists s, get_review j' id = Ok {| rv_review_id := id; rv_binding := rv_binding r; rv_state := s |} /\
            rtc moves (rv_state r) s /\ (terminal (rv_state r) = true -> s = rv_state r).
Proof.
  intros Hsha Hj%reachable_ok Hs Hg; [|done]. apply bind_Ok in Hg as (o & Ho & ->%ok_or_Ok).
  pose proof (steps_later sha256 Hsha j j' Hj Hs) as Hl. pose proof (steps_ok sha256 Hsha j j' Hj Hs) as Hj'.
  destruct (load_review_later j j' Hj Hj' Hl id r Ho) as (s & Hr & Hm). exists s. apply load_review_Some in Ho as [<- _]; [|done].
  split_and!; [unfold get_review; by rewrite Hr|done|by apply moves_terminal].
Qed.

Lemma review_lifecycle_witness :
  exists s, get_review (runs [deciding; committing] (runs [registering; publishing] empty_journal)) sample_id =
      Ok {| rv_review_id := sample_id; rv_binding := sample_binding; rv_state := s |} /\
    rtc moves PendingReview s /\ (terminal PendingReview = true -> s = PendingReview).
Proof.
  apply (review_lifecycle toy_sha256 (runs [registering; publishing] empty_journal) _ sample_id
    {| rv_review_id := sample_id; rv_binding := sample_binding; rv_state := PendingReview |}).
  - apply toy_sha256_digest.
  - apply runs_steps. fair_ops.
  - apply runs_steps. fair_ops.
  - vm_compute. reflexivity.
Defined.

(** A recorded outcome is final: in every later journal the same request is answered with it
    and changes nothing, it is what the review shows, and any other outcome is refused. *)
Lemma outcome_final sha256 j id request j1 o reg j2 :
  sha256_digest sha256 -> journal_reachable sha256 j -> commit_decision_outcome id request j = Ok (j1, (o, reg)) ->
  rtc (step sha256) j1 j2 ->
  commit_decision_outcome id request j2 = Ok (j2, (o, Replayed)) /\ get_decision_outcome j2 id = Ok (Some o) /\
  (exists b, get_review j2 id = Ok {| rv_review_id := id; rv_binding := b; rv_state := DecisionCommitted |}) /\
  (forall request', validate_decision_outcome_request request' = Ok tt -> candidate_outcome id request' <> o ->
     commit_decision_outcome id request' j2 = Err DecisionOutcomeConflict).
Proof.
  intros Hsha Hj%reachable_ok Hc Hs; [|done]. destruct (commit_outcome_recorded id request j j1 o reg Hj Hc) as (Hv & -> & Ho).
  assert (journal_ok j1) as Hj1.
  { destruct (commit_outcome_changes j Hj id request j1 _ Hc) as [->|He]; [done|by eapply strict_effect_ok]. }
  pose proof (steps_later sha256 Hsha j1 j2 Hj1 Hs) as Hl. pose proof (steps_ok sha256 Hsha j1 j2 Hj1 Hs) as Hj2.
  destruct (outcome_answers id _ j2 Hj2 (load_outcome_later j1 j2 Hl id _ Ho)) as (Hg & Hr & Ha). split_and!; [|done|done|].
  - rewrite (Ha request Hv). by rewrite bool_decide_eq_true_2.
  - intros request' Hv' Hne. rewrite (Ha request' Hv'), bool_decide_eq_false_2; [done|]. by intros E.
Qed.

(** Registering a Proposal is idempotent for ever: in every later journal the same request is
    answered with the recorded intent, to which at most a review was linked, and changes nothing;
    another request under the same key is a conflict, or the texts hashed for the two requests collide. *)
Lemma proposal_retry sha256 j random request j1 p reg j2 :
  sha256_digest sha256 -> journal_reachable sha256 j -> fills random ->
  register_proposal_intent sha256 random request j = Ok (j1, (p, reg)) -> rtc (step sha256) j1 j2 ->
  (exists p', link_later p p' /\ forall random', register_proposal_intent sha256 random' request j2 = Ok (j2, (p', Replayed))) /\
  (forall random' request', validate_proposal_intent_request request' = Ok tt ->
     project_scope (pq_binding request') = project_scope (pq_binding request) -> pq_idempotency_key request' = pq_idempotency_key request ->
     request' <> request ->
     register_proposal_intent sha256 random' request' j2 = Err IdempotencyConflict \/
     collides sha256 (fingerprint_input request) (fingerprint_input request')).
Proof.
  intros Hsha Hj%reachable_ok Hf Hr Hs; [|done]. destruct (register_recorded sha256 random request j j1 p reg Hj Hr) as [Hv Hrec].
  assert (journal_ok j1) as Hj1.
  { destruct (register_proposal_changes j Hj sha256 random request j1 _ Hsha Hf Hr) as [->|He]; [done|by eapply strict_effect_ok]. }
  pose proof (steps_later sha256 Hsha j1 j2 Hj1 Hs) as Hl. pose proof (steps_ok sha256 Hsha j1 j2 Hj1 Hs) as Hj2.
  destruct (recorded_later sha256 _ _ _ _ Hl Hrec) as (p' & Hrec' & Hlk).
  pose proof (recorded_answers sha256 j2 request p' Hj2 Hrec') as Ha. split.
  - exists p'. split; [done|]. intros random'. by rewrite Ha, bool_decide_eq_true_2, str_eqb_refl.
  - intros random' request' Hv' Es Ek Hne. rewrite Ha by done. destruct (_ && _) eqn:E; [|by left]. right.
    apply andb_true_iff in E as [_ E%str_eqb_eq]. apply fingerprint_binds in E as [E|E]; [|done..]. exfalso. apply Hne.
    destruct request, request'. cbn in *. congruence.
Qed.

(** ** Adopting a review *)

(** The publication of an intent that has no review yet links the review of its binding. *)
Lemma publication_adopts j random p r : journal_ok j -> p ∈ proposal_intents j -> pi_review_id p = None ->
  rv_binding r = pi_binding p -> review_at j (rv_review_id r) (rv_binding r) (rv_state r) ->
  let j' := set_proposal_intents
    (map (fun row => if unlinked (pi_id p) row then link_review (rv_review_id r) row else row) (proposal_intents j)) j in
  commit_proposal_publication random (pi_id p) (pi_binding p) j = Ok (j', (r, Replayed)) /\ journal_ok j' /\
  link_review (rv_review_id r) p ∈ proposal_intents j'.
Proof.
  intros Hj Hin Hn Eb Hr. cbv zeta. assert (load_review_by_proposal j (pi_binding p) = Ok (Some r)) as Hl.
  { apply load_review_by_proposal_Some; [done|]. split; [by rewrite Eb|done]. }
  assert (adopt_review (pi_id p) (pi_binding p) r j =
    Ok (set_proposal_intents (map (fun row => if unlinked (pi_id p) row then link_review (rv_review_id r) row else row)
          (proposal_intents j)) j, (r, Replayed))) as Ha.
  { unfold adopt_review. rewrite bool_decide_eq_true_2 by done. cbn [negb reject_if mbind result_bind].
    destruct (attach_succeeds j p (rv_review_id r) Hj Hin Hn) as [j' Hj']; [by eapply review_at_exists| |].
    - intros (q & Hq & E). destruct (jo_links j Hj _ _ Hq E) as [s' Hs']. destruct (review_at_inj j Hj _ _ _ _ _ Hr Hs') as [E' _].
      assert (q = p) as -> by (apply (unique_inj _ _ _ _ (jo_intent_proposals j Hj)); [done..|cbn; congruence]). congruence.
    - rewrite Hj'. apply attach_Ok in Hj' as ->; done. }
  split_and!.
  - pose proof (jo_intents j Hj) as Hall. rewrite Forall_forall in Hall. pose proof (Hall _ Hin) as (_ & _ & _ & _ & Hb & _)%intent_row_ok_iff.
    unfold commit_proposal_publication. unfold binding_ok in Hb. rewrite Hb. cbn [mbind result_bind].
    rewrite (proj2 (load_proposal_intent_Some j Hj (pi_id p) p)) by done. cbn [ok_or mbind result_bind].
    rewrite bool_decide_eq_true_2, Hn by done. cbn [negb reject_if mbind result_bind]. by rewrite Hl.
  - destruct (adopt_changes j Hj _ _ _ _ Hin Hn Hl Ha) as [E|He]; [|by eapply strict_effect_ok]. by rewrite E.
  - cbn. apply list_elem_of_fmap. exists p. split; [|done]. unfold unlinked. by rewrite str_eqb_refl, bool_decide_eq_true_2.
Qed.

(** C35: publishing a registered Proposal adopts the review that the compatibility operation
    created for it, in any reachable journal and whatever the state of that review; the restart
    view shows it, with the Proposal's digest, exactly as long as the journal has what its state
    needs.  A review that was committed without an outcome, or moved to an unknown outcome
    without a Decision, was readable as long as it was not linked: the publication, which
    reports success, makes its restart view CorruptData. *)
Theorem adoption_restart_view sha256 j random p r :
  sha256_digest sha256 -> journal_reachable sha256 j ->
  get_proposal_intent j (pi_id p) = Ok p -> pi_review_id p = None -> get_review_by_binding j (pi_binding p) = Ok (Some r) ->
  let id := rv_review_id r in
  exists j', commit_proposal_publication random (pi_id p) (pi_binding p) j = Ok (j', (r, Replayed)) /\
    get_review j' id = Ok r /\ get_proposal_intent j' (pi_id p) = Ok (link_review id p) /\
    match get_review_reconciliation j' id with
    | Ok v =>
      rr_review v = r /\ rr_proposal_artifact_manifest_sha256 v = Some (pi_artifact_manifest_sha256 p) /\
      load_decision_commit_intent j id = Ok (rr_decision_intent v) /\ load_decision_outcome j id = Ok (rr_decision_outcome v) /\
      (rv_state r = DecisionCommitted -> is_Some (rr_decision_outcome v)) /\
      (rv_state r = OutcomeUnknown -> is_Some (rr_decision_intent v))
    | Err e =>
      e = CorruptData /\
      (rv_state r = DecisionCommitted /\ load_decision_outcome j id = Ok None \/
       rv_state r = OutcomeUnknown /\ load_decision_commit_intent j id = Ok None) /\
      (load_decision_commit_intent j id = Ok None -> exists v, get_review_reconciliation j id = Ok v)
    end.
Proof.
  intros Hsha Hj%reachable_ok Hp Hn Hb; [|done]. unfold get_proposal_intent in Hp.
  apply bind_Ok in Hp as (o & Ho & (q & ->%ok_or_Ok & (u & _ & [= ->])%bind_Ok)%bind_Ok).
  apply load_proposal_intent_Some in Ho as [Hin _]; [|done].
  unfold get_review_by_binding in Hb. apply bind_Ok in Hb as (u1 & _ & (o & Ho & [= Hb])%bind_Ok). destruct o as [r'|]; [|done].
  case_bool_decide as Eb; [|done]. injection Hb as ->. apply load_review_by_proposal_Some in Ho as [_ Hr]; [|done].
  cbv zeta. destruct (publication_adopts j random p r Hj Hin Hn Eb Hr) as (Hc & Hj' & Hlink). eexists. split; [exact Hc|].
  set (j' := set_proposal_intents _ j) in *.
  assert (review_at j' (rv_review_id r) (rv_binding r) (rv_state r)) as Hr' by exact Hr.
  split. { unfold get_review. rewrite (proj2 (load_review_Some j' Hj' _ r)) by done. done. }
  split. { unfold get_proposal_intent. rewrite (proj2 (load_proposal_intent_Some j' Hj' (pi_id p) (link_review (rv_review_id r) p))) by done.
    cbn [ok_or mbind result_bind]. by rewrite (check_link_ok j' Hj' _ Hlink). }
  destruct (reconciliation_answers j' _ _ _ Hj' Hr') as (p' & i & o & Hp' & Hi & Hout & ->).
  rewrite (proj2 (load_by_review_Some j' Hj' _ (link_review (rv_review_id r) p))) in Hp' by done. injection Hp' as <-.
  change (load_decision_commit_intent j (rv_review_id r) = Ok i) in Hi. change (load_decision_outcome j (rv_review_id r) = Ok o) in Hout.
  destruct (unsettled _ _ i o) eqn:Eu.
  - split; [done|]. split.
    + destruct (rv_state r); try done; cbn in Eu; [left|right]; (split; [done|]); [by destruct o|by destruct i].
    + intros Hni. destruct (reconciliation_answers j _ _ _ Hj Hr) as (p0 & i0 & o0 & Hp0 & Hi0 & _ & ->).
      rewrite Hni in Hi0. injection Hi0 as <-. destruct p0 as [q|].
      * exfalso. apply load_by_review_Some in Hp0 as [Hq Eq]; [|done]. destruct (jo_links j Hj _ _ Hq Eq) as [s' Hs'].
        destruct (review_at_inj j Hj _ _ _ _ _ Hr Hs') as [E' _].
        assert (q = p) as -> by (apply (unique_inj _ _ _ _ (jo_intent_proposals j Hj)); [done..|cbn; congruence]). congruence.
      * by destruct (rv_state r); eexists.
  - cbn [rr_review rr_proposal_artifact_manifest_sha256 rr_decision_intent rr_decision_outcome]. split_and!; [by destruct r|done..| |];
      intros Es; rewrite Es in Eu; cbn in Eu; [by destruct o|by destruct i].
Qed.

(** The strict and the compatibility protocol on the same Proposal. *)
Definition mixed_ops : list operation :=
  [registering; CreateReview sample_random sample_binding; Transition sample_id PendingReview DecisionCommitted].

Lemma adoption_restart_view_witness :
  journal_reachable toy_sha256 (runs mixed_ops empty_journal) /\
  exists j', commit_proposal_publication sample_random sample_id sample_binding (runs mixed_ops empty_journal) =
      Ok (j', ({| rv_review_id := sample_id; rv_binding := sample_binding; rv_state := DecisionCommitted |}, Replayed)) /\
    get_review_reconciliation j' sample_id = Err CorruptData.
Proof.
  assert (journal_reachable toy_sha256 (runs mixed_ops empty_journal)) as Hr by (apply runs_steps; fair_ops). split; [exact Hr|].
  destruct (adoption_restart_view toy_sha256 (runs mixed_ops empty_journal) sample_random (planned_intent toy_sha256 sample_id sample_proposal)
    {| rv_review_id := sample_id; rv_binding := sample_binding; rv_state := DecisionCommitted |} toy_sha256_digest Hr)
    as (j' & Hc & _ & _ & Hv); [vm_compute; reflexivity|reflexivity|vm_compute; reflexivity|].
  exists j'. split; [exact Hc|]. cbn [rv_review_id] in Hv. destruct (get_review_reconciliation j' sample_id) as [v|e].
  - destruct Hv as (_ & _ & _ & Ho & Hd & _). exfalso.
    assert (load_decision_outcome (runs mixed_ops empty_journal) sample_id = Ok None) as E by (vm_compute; reflexivity).
    rewrite E in Ho. injection Ho as Ho. destruct (Hd eq_refl) as [x Hx]. congruence.
  - destruct Hv as [-> _]. reflexivity.
Defined.
