(* ===== verification/AppState.v ===== *)
(** * The application boundary: data and critical sections

    Models crates/synapse-application/src/lib.rs and human.rs: the values that cross the
    boundary, the process-local security state, and each block of code that runs under the
    lock of that state, as a function on it.  A block that writes does so after its last
    failing check, so an error leaves the state as it was.  Opaque handles are the records
    they hold; what the embedding supplies (the answers of the authenticator and the executor,
    the readings of the clock) are arguments. *)

From stdpp Require Import base list numbers strings gmap sets.
From Stdlib Require Import ZArith Lia.
From S2P Require Import Prelude Sorting Text RefStore Canonical ObjectStore Repository Policy Authorization HumanDecision.

#[local] Open Scope Z_scope.

(** ** Errors and sessions *)

Inductive ApplicationError :=
| AuthenticationRequired
| ProjectAccessDenied
| ExecutionPermitInvalid
| ExecutionFailed
| AppStaleBase
| AppRefConflict
| ConfigInvalid
| ServiceUnavailable
| AppCore (e : RepositoryError).

Abbreviation ares := (result ApplicationError).

Record AuthenticatedSession := { ss_actor_id : str; ss_session_id : str }.

#[export] Instance AuthenticatedSession_eq_dec : EqDecision AuthenticatedSession.
Proof. solve_decision. Defined.

Definition valid_control_value (value : str) : bool :=
  negb (bool_decide (value = [])) && (len value <=? 4096) && negb (existsb is_control (chars value)).

(** [AuthenticatedSession::new] *)
Definition session_new (actor_id session_id : str) : option AuthenticatedSession :=
  if negb (valid_control_value actor_id) || negb (valid_control_value session_id) then None
  else Some {| ss_actor_id := actor_id; ss_session_id := session_id |}.

(** What a call of the authenticator gave: it panicked, refused, or answered a session. *)
Inductive Authentication := AuthPanicked | AuthRefused | AuthSession (session : AuthenticatedSession).

Definition authenticate (answer : Authentication) : ares AuthenticatedSession :=
  match answer with
  | AuthPanicked => Err ServiceUnavailable
  | AuthRefused => Err AuthenticationRequired
  | AuthSession session => Ok session
  end.

Record ExecutedAiProposal := { ex_new_head : str; ex_activity_oid : str; ex_message : option str }.

(** ** Counters *)

(** [checked_add(1)] on [u64]. *)
Definition next_epoch (epoch : Z) : ares Z := ok_or (usize_checked_add epoch 1) ServiceUnavailable.

(** ** Profiles *)

Record AiAuthorityProfileConfig := {
  ac_project : str;
  ac_actor_id : str;
  ac_principal_id : str;
  ac_base_ref_name : str;
  ac_actor_record_oid : str;
  ac_principal_actor_record_oid : str;
  ac_context_pack_oid : str;
  ac_target_ref_name : str;
  ac_exact_capabilities : list AiCapability;
  ac_runtime_capabilities : list AiCapability;
  ac_side_effect_class : AiSideEffectClass;
}.

Definition unique_capabilities (capabilities : list AiCapability) : bool :=
  len (normalized_capabilities capabilities) =? len capabilities.

(** [split('/').next()] *)
Definition first_segment (ref_name : str) : str := default [] (split_on 47 ref_name !! 0%nat).

Definition ai_config_validate (c : AiAuthorityProfileConfig) : ares unit :=
  reject_if
    (existsb (fun value => negb (valid_control_value value))
       [ac_project c; ac_actor_id c; ac_principal_id c; ac_base_ref_name c; ac_actor_record_oid c;
        ac_principal_actor_record_oid c; ac_context_pack_oid c; ac_target_ref_name c] ||
     negb (str_eqb (first_segment (ac_base_ref_name c)) (lit "decision") ||
           str_eqb (first_segment (ac_base_ref_name c)) (lit "release")) ||
     negb (str_eqb (first_segment (ac_target_ref_name c)) (lit "proposal")) ||
     bool_decide (ac_exact_capabilities c = []) ||
     negb (has_capability (ac_exact_capabilities c) ProposeBranch) ||
     negb (unique_capabilities (ac_exact_capabilities c)) ||
     negb (unique_capabilities (ac_runtime_capabilities c)) ||
     negb (forallb (has_capability (ac_runtime_capabilities c)) (ac_exact_capabilities c)))
    ConfigInvalid.

(** The derived order of [AiCapability]. *)
Definition capability_index (c : AiCapability) : Z :=
  match c with
  | ReadContext => 0 | Analyze => 1 | ProposeBranch => 2 | SubmitClaim => 3 | RequestReview => 4 | RenderPreview => 5
  end.

Definition sort_capabilities (capabilities : list AiCapability) : list AiCapability :=
  sort_by (fun a b => capability_index a ?= capability_index b) capabilities.

Definition sorted_config (c : AiAuthorityProfileConfig) : AiAuthorityProfileConfig :=
  {| ac_project := ac_project c; ac_actor_id := ac_actor_id c; ac_principal_id := ac_principal_id c;
     ac_base_ref_name := ac_base_ref_name c; ac_actor_record_oid := ac_actor_record_oid c;
     ac_principal_actor_record_oid := ac_principal_actor_record_oid c; ac_context_pack_oid := ac_context_pack_oid c;
     ac_target_ref_name := ac_target_ref_name c; ac_exact_capabilities := sort_capabilities (ac_exact_capabilities c);
     ac_runtime_capabilities := sort_capabilities (ac_runtime_capabilities c);
     ac_side_effect_class := ac_side_effect_class c |}.

Definition ai_authority (c : AiAuthorityProfileConfig) : AiExecutionAuthority :=
  {| au_actor_id := ac_actor_id c; au_project_id := ac_project c; au_principal_id := ac_principal_id c;
     au_base_ref := ac_base_ref_name c; au_actor_record_oid := ac_actor_record_oid c;
     au_principal_actor_record_oid := ac_principal_actor_record_oid c; au_context_pack_oid := ac_context_pack_oid c;
     au_capabilities := ac_exact_capabilities c; au_runtime_capabilities := ac_runtime_capabilities c |}.

Record HumanAuthorityProfileConfig := {
  hc_project : str;
  hc_human_id : str;
  hc_decision_ref_name : str;
  hc_human_actor_record_oid : str;
  hc_policy_record_oid : str;
}.

Definition human_config_validate (c : HumanAuthorityProfileConfig) : ares unit :=
  reject_if
    (existsb (fun value => negb (valid_control_value value))
       [hc_project c; hc_human_id c; hc_decision_ref_name c; hc_human_actor_record_oid c; hc_policy_record_oid c] ||
     negb (str_eqb (first_segment (hc_decision_ref_name c)) (lit "decision")))
    ConfigInvalid.

Definition human_authority (c : HumanAuthorityProfileConfig) (decision_head proposal_ref_name proposal_head : str)
  : HumanDecisionAuthority :=
  {| authenticated_human_id := hc_human_id c; authorized_project_id := hc_project c;
     decision_ref_name := hc_decision_ref_name c; decision_head := decision_head; proposal_ref_name := proposal_ref_name;
     proposal_head := proposal_head; human_actor_record_oid := hc_human_actor_record_oid c;
     policy_record_oid := hc_policy_record_oid c |}.

(** ** Handles and requests *)

(** [AuthorityProfileHandle], [RegisteredExecutionHandle] and their human counterparts: the
    application that made it, the project, and a serial. *)
Record Handle := { h_instance : Z; h_project : str; h_serial : Z }.

(** [AiExecutionPermit] and [HumanDecisionPermit]. *)
Record Permit := { pm_instance : Z; pm_serial : Z }.

Record AdmittedProposalHandle := { ap_instance : Z; ap_project : str; ap_proposal_ref_name : str; ap_proposal_head : str }.

Record DurableProposalBinding := {
  db_project : str;
  db_proposal_ref_name : str;
  db_proposal_head : str;
  db_decision_ref_name : str;
  db_decision_head : str;
}.

#[export] Instance DurableProposalBinding_eq_dec : EqDecision DurableProposalBinding.
Proof. solve_decision. Defined.

(** [strip_prefix(p).is_none_or(str::is_empty)] *)
Definition not_below (prefix name : str) : bool :=
  match strip_prefix prefix name with Some rest => bool_decide (rest = []) | None => true end.

Definition durable_binding_validate (b : DurableProposalBinding) : ares unit :=
  reject_if
    (existsb (fun value => negb (valid_control_value value))
       [db_project b; db_proposal_ref_name b; db_proposal_head b; db_decision_ref_name b; db_decision_head b] ||
     not_below (lit "proposal/") (db_proposal_ref_name b) || not_below (lit "decision/") (db_decision_ref_name b))
    ConfigInvalid.

Record HumanDecisionCandidate := { cd_new_head : str; cd_decision_feedback_oid : str; cd_message : option str }.

#[export] Instance HumanDecisionCandidate_eq_dec : EqDecision HumanDecisionCandidate.
Proof. solve_decision. Defined.

Definition candidate_validate (c : HumanDecisionCandidate) : ares unit :=
  reject_if
    (negb (valid_control_value (cd_new_head c)) || negb (valid_control_value (cd_decision_feedback_oid c)) ||
     match cd_message c with Some message => (len message >? 2000) || negb (valid_control_value message) | None => false end)
    ConfigInvalid.

(** ** The security state *)

Record ProjectSecurity := { sec_epoch : Z; allowed_actors : gset str }.

Record AuthorityProfileRecord := { pr_generation : Z; pr_suspended : bool; pr_config : AiAuthorityProfileConfig }.

Record ExecutionRegistrationRecord := {
  er_project : str;
  er_profile_serial : Z;
  er_profile_generation : Z;
  er_expected_target_head : option str;
}.

#[export] Instance ExecutionRegistrationRecord_eq_dec : EqDecision ExecutionRegistrationRecord.
Proof. solve_decision. Defined.

Record PermitRecord := {
  pt_actor_id : str;
  pt_session_id : str;
  pt_project : str;
  pt_security_epoch : Z;
  pt_profile_serial : Z;
  pt_profile_generation : Z;
  pt_execution_serial : Z;
  pt_not_after : Z;
  pt_last_observed : Z;
  pt_preflight : AiPreflightDecision;
}.

Record HumanAuthorityProfileRecord := { hr_generation : Z; hr_suspended : bool; hr_config : HumanAuthorityProfileConfig }.

Record HumanDecisionRegistrationRecord := {
  rg_project : str;
  rg_profile_serial : Z;
  rg_profile_generation : Z;
  rg_decision_head : str;
  rg_proposal_ref_name : str;
  rg_proposal_head : str;
  rg_candidate : HumanDecisionCandidate;
}.

#[export] Instance HumanDecisionRegistrationRecord_eq_dec : EqDecision HumanDecisionRegistrationRecord.
Proof. solve_decision. Defined.

Record HumanDecisionPermitRecord := {
  hp_actor_id : str;
  hp_session_id : str;
  hp_project : str;
  hp_security_epoch : Z;
  hp_profile_serial : Z;
  hp_profile_generation : Z;
  hp_decision_head : str;
  hp_proposal_ref_name : str;
  hp_proposal_head : str;
  hp_candidate : HumanDecisionCandidate;
  hp_not_after : Z;
  hp_last_observed : Z;
}.

Record SecurityState := {
  next_serial : Z;
  projects : gmap str ProjectSecurity;
  profiles : gmap Z AuthorityProfileRecord;
  registrations : gmap Z ExecutionRegistrationRecord;
  permits : gmap Z PermitRecord;
  human_profiles : gmap Z HumanAuthorityProfileRecord;
  human_registrations : gmap Z HumanDecisionRegistrationRecord;
  human_permits : gmap Z HumanDecisionPermitRecord;
}.

(** Record updates. *)
Definition set_next_serial (v : Z) (s : SecurityState) : SecurityState :=
  {| next_serial := v; projects := projects s; profiles := profiles s; registrations := registrations s;
     permits := permits s; human_profiles := human_profiles s; human_registrations := human_registrations s;
     human_permits := human_permits s |}.
Definition set_projects (v : gmap str ProjectSecurity) (s : SecurityState) : SecurityState :=
  {| next_serial := next_serial s; projects := v; profiles := profiles s; registrations := registrations s;
     permits := permits s; human_profiles := human_profiles s; human_registrations := human_registrations s;
     human_permits := human_permits s |}.
Definition set_profiles (v : gmap Z AuthorityProfileRecord) (s : SecurityState) : SecurityState :=
  {| next_serial := next_serial s; projects := projects s; profiles := v; registrations := registrations s;
     permits := permits s; human_profiles := human_profiles s; human_registrations := human_registrations s;
     human_permits := human_permits s |}.
Definition set_registrations (v : gmap Z ExecutionRegistrationRecord) (s : SecurityState) : SecurityState :=
  {| next_serial := next_serial s; projects := projects s; profiles := profiles s; registrations := v;
     permits := permits s; human_profiles := human_profiles s; human_registrations := human_registrations s;
     human_permits := human_permits s |}.
Definition set_permits (v : gmap Z PermitRecord) (s : SecurityState) : SecurityState :=
  {| next_serial := next_serial s; projects := projects s; profiles := profiles s; registrations := registrations s;
     permits := v; human_profiles := human_profiles s; human_registrations := human_registrations s;
     human_permits := human_permits s |}.
Definition set_human_profiles (v : gmap Z HumanAuthorityProfileRecord) (s : SecurityState) : SecurityState :=
  {| next_serial := next_serial s; projects := projects s; profiles := profiles s; registrations := registrations s;
     permits := permits s; human_profiles := v; human_registrations := human_registrations s;
     human_permits := human_permits s |}.
Definition set_human_registrations (v : gmap Z HumanDecisionRegistrationRecord) (s : SecurityState) : SecurityState :=
  {| next_serial := next_serial s; projects := projects s; profiles := profiles s; registrations := registrations s;
     permits := permits s; human_profiles := human_profiles s; human_registrations := v;
     human_permits := human_permits s |}.
Definition set_human_permits (v : gmap Z HumanDecisionPermitRecord) (s : SecurityState) : SecurityState :=
  {| next_serial := next_serial s; projects := projects s; profiles := profiles s; registrations := registrations s;
     permits := permits s; human_profiles := human_profiles s; human_registrations := human_registrations s;
     human_permits := v |}.

Definition allocate_serial (s : SecurityState) : ares (SecurityState * Z) :=
  next ← ok_or (usize_checked_add (next_serial s) 1) ServiceUnavailable;
  Ok (set_next_serial next s, next_serial s).

(** ** Critical sections of the AI operations *)

Definition member (actor_id : str) (security : ProjectSecurity) : bool := bool_decide (actor_id ∈ allowed_actors security).

(** [get(...).filter(...).ok_or(e)] *)
Definition found {A} (o : option A) (keep : A -> bool) (e : ApplicationError) : ares A :=
  a ← ok_or o e;
  if keep a then Ok a else Err e.

Definition grant_access (project actor_id : str) (s : SecurityState) : ares (SecurityState * unit) :=
  security ← ok_or (projects s !! project) ConfigInvalid;
  if member actor_id security then Ok (s, tt)
  else
    epoch ← next_epoch (sec_epoch security);
    Ok (set_projects (<[project := {| sec_epoch := epoch; allowed_actors := {[actor_id]} ∪ allowed_actors security |}]> (projects s)) s, tt).

Definition revoke_access (project actor_id : str) (s : SecurityState) : ares (SecurityState * unit) :=
  security ← ok_or (projects s !! project) ConfigInvalid;
  if member actor_id security then
    epoch ← next_epoch (sec_epoch security);
    Ok (set_projects (<[project := {| sec_epoch := epoch; allowed_actors := allowed_actors security ∖ {[actor_id]} |}]> (projects s)) s, tt)
  else Ok (s, tt).

(** The epoch of a project moves on, and its members stay. *)
Definition with_epoch (epoch : Z) (security : ProjectSecurity) : ProjectSecurity :=
  {| sec_epoch := epoch; allowed_actors := allowed_actors security |}.

Definition add_profile (config : AiAuthorityProfileConfig) (s : SecurityState) : ares (SecurityState * Z) :=
  '(s, serial) ← allocate_serial s;
  Ok (set_profiles (<[serial := {| pr_generation := 1; pr_suspended := false; pr_config := config |}]> (profiles s)) s, serial).

Definition replace_profile (handle : Handle) (replacement : AiAuthorityProfileConfig) (s : SecurityState)
  : ares (SecurityState * unit) :=
  profile ← ok_or (profiles s !! h_serial handle) ConfigInvalid;
  generation ← next_epoch (pr_generation profile);
  security ← ok_or (projects s !! ac_project replacement) ConfigInvalid;
  epoch ← next_epoch (sec_epoch security);
  Ok (set_profiles
        (<[h_serial handle := {| pr_generation := generation; pr_suspended := false; pr_config := replacement |}]> (profiles s))
        (set_projects (<[ac_project replacement := with_epoch epoch security]> (projects s)) s), tt).

Definition suspend_profile (handle : Handle) (suspended : bool) (s : SecurityState) : ares (SecurityState * unit) :=
  profile ← ok_or (profiles s !! h_serial handle) ConfigInvalid;
  if eqb (pr_suspended profile) suspended then Ok (s, tt)
  else
    generation ← next_epoch (pr_generation profile);
    security ← ok_or (projects s !! h_project handle) ConfigInvalid;
    epoch ← next_epoch (sec_epoch security);
    Ok (set_projects (<[h_project handle := with_epoch epoch security]> (projects s))
          (set_profiles
             (<[h_serial handle := {| pr_generation := generation; pr_suspended := suspended; pr_config := pr_config profile |}]>
                (profiles s)) s), tt).

(** The first lock of [register_execution]. *)
Definition profile_for_execution (handle : Handle) (s : SecurityState) : ares AuthorityProfileRecord :=
  profile ← found (profiles s !! h_serial handle) (fun profile => negb (pr_suspended profile)) ConfigInvalid;
  reject_if (negb (str_eqb (ac_project (pr_config profile)) (h_project handle))) ConfigInvalid;;
  Ok profile.

(** Its second lock. *)
Definition add_registration (handle : Handle) (profile : AuthorityProfileRecord) (expected_target_head : option str)
    (s : SecurityState) : ares (SecurityState * Z) :=
  live ← found (profiles s !! h_serial handle)
    (fun live => negb (pr_suspended live) && (pr_generation live =? pr_generation profile) &&
                 str_eqb (ac_project (pr_config live)) (h_project handle)) ConfigInvalid;
  '(s, serial) ← allocate_serial s;
  Ok (set_registrations
        (<[serial := {| er_project := h_project handle; er_profile_serial := h_serial handle;
                        er_profile_generation := pr_generation live; er_expected_target_head := expected_target_head |}]>
           (registrations s)) s, serial).

(** The first lock of [prepare_ai]. *)
Definition read_execution (instance : Z) (session : AuthenticatedSession) (project : str) (execution : Handle) (s : SecurityState)
  : ares (Z * ExecutionRegistrationRecord * AuthorityProfileRecord) :=
  security ← found (projects s !! project) (member (ss_actor_id session)) ProjectAccessDenied;
  reject_if (negb (h_instance execution =? instance) || negb (str_eqb (h_project execution) project)) ProjectAccessDenied;;
  registration ← found (registrations s !! h_serial execution) (fun r => str_eqb (er_project r) project) ProjectAccessDenied;
  profile ← found (profiles s !! er_profile_serial registration)
    (fun profile => negb (pr_suspended profile) && (pr_generation profile =? er_profile_generation registration) &&
                    str_eqb (ac_actor_id (pr_config profile)) (ss_actor_id session) &&
                    str_eqb (ac_project (pr_config profile)) project) ProjectAccessDenied;
  Ok (sec_epoch security, registration, profile).

Definition map_preflight_error (error : RepositoryError) : ApplicationError :=
  let code := repository_code error in
  if is_internal error then AppCore error
  else if str_eqb code (lit "stale_base") then AppStaleBase
  else if str_eqb code (lit "ref_conflict") then AppRefConflict
  else if str_eqb code (lit "storage_error") || str_eqb code (lit "resource_limit") then ServiceUnavailable
  else ConfigInvalid.

Definition preflight_matches_profile (preflight : AiPreflightDecision) (profile : AiAuthorityProfileConfig) : bool :=
  str_eqb (pd_actor_id preflight) (ac_actor_id profile) && str_eqb (pd_project_id preflight) (ac_project profile) &&
  str_eqb (pd_principal_id preflight) (ac_principal_id profile) && str_eqb (pd_base_ref preflight) (ac_base_ref_name profile) &&
  str_eqb (pd_target_ref_name preflight) (ac_target_ref_name profile) &&
  str_eqb (pd_context_pack_oid preflight) (ac_context_pack_oid profile) &&
  bool_decide (pd_side_effect preflight = ac_side_effect_class profile) &&
  bool_decide (pd_exact_capabilities preflight = ac_exact_capabilities profile).

(** The validity of a permit: the time to live, cut at the expiry of the Grant. *)
Definition permit_window (ttl : Z) (preflight : AiPreflightDecision) : ares Z :=
  ttl_deadline ← ok_or (i128_checked_add (pd_evaluated_at preflight) ttl) ServiceUnavailable;
  let not_after := Z.min ttl_deadline (pd_grant_expires_at preflight) in
  reject_if (pd_evaluated_at preflight >=? not_after) ConfigInvalid;;
  Ok not_after.

(** The record of a permit. *)
Definition permit_record (session : AuthenticatedSession) (project : str) (execution : Handle) (security_epoch : Z)
    (registration : ExecutionRegistrationRecord) (not_after : Z) (preflight : AiPreflightDecision) : PermitRecord :=
  {| pt_actor_id := ss_actor_id session; pt_session_id := ss_session_id session; pt_project := project;
     pt_security_epoch := security_epoch; pt_profile_serial := er_profile_serial registration;
     pt_profile_generation := er_profile_generation registration; pt_execution_serial := h_serial execution;
     pt_not_after := not_after; pt_last_observed := pd_evaluated_at preflight; pt_preflight := preflight |}.

(** The last lock of [prepare_ai]. *)
Definition issue_permit (session : AuthenticatedSession) (project : str) (execution : Handle) (security_epoch : Z)
    (registration : ExecutionRegistrationRecord) (not_after : Z) (preflight : AiPreflightDecision) (s : SecurityState)
  : ares (SecurityState * Z) :=
  found (projects s !! project) (fun security => (sec_epoch security =? security_epoch) && member (ss_actor_id session) security)
    ProjectAccessDenied;;
  found (registrations s !! h_serial execution) (fun live => bool_decide (live = registration)) ProjectAccessDenied;;
  found (profiles s !! er_profile_serial registration)
    (fun live => negb (pr_suspended live) && (pr_generation live =? er_profile_generation registration) &&
                 str_eqb (ac_actor_id (pr_config live)) (ss_actor_id session)) ProjectAccessDenied;;
  '(s, serial) ← allocate_serial s;
  let record := permit_record session project execution security_epoch registration not_after preflight in
  Ok (set_permits (<[serial := record]> (permits s)) (set_registrations (delete (h_serial execution) (registrations s)) s), serial).

(** [permits.remove(...)] *)
Definition take_permit (serial : Z) (s : SecurityState) : ares (SecurityState * PermitRecord) :=
  record ← ok_or (permits s !! serial) ExecutionPermitInvalid;
  Ok (set_permits (delete serial (permits s)) s, record).

Definition validate_live_permit (permit : PermitRecord) (session : AuthenticatedSession) (s : SecurityState) : ares unit :=
  found (projects s !! pt_project permit)
    (fun security => (sec_epoch security =? pt_security_epoch permit) && member (ss_actor_id session) security) ExecutionPermitInvalid;;
  found (profiles s !! pt_profile_serial permit)
    (fun profile => negb (pr_suspended profile) && (pr_generation profile =? pt_profile_generation permit) &&
                    str_eqb (ac_project (pr_config profile)) (pt_project permit) &&
                    str_eqb (ac_actor_id (pr_config profile)) (ss_actor_id session)) ExecutionPermitInvalid;;
  Ok tt.

(** The lock before publication: check the permit again and read its profile. *)
Definition live_profile (permit : PermitRecord) (session : AuthenticatedSession) (s : SecurityState) : ares AuthorityProfileRecord :=
  validate_live_permit permit session s;;
  ok_or (profiles s !! pt_profile_serial permit) ExecutionPermitInvalid.

(** A reading of the clock between the floor and the end of a permit. *)
Definition permit_time (not_after floor : Z) (reading : option Z) : ares Z :=
  now ← ok_or reading ExecutionPermitInvalid;
  reject_if ((now <? floor) || (now >=? not_after)) ExecutionPermitInvalid;;
  Ok now.

(** [PermitDeadlineClock]: a reading past the permit is moved to the expiry of the Grant. *)
Definition deadline_reading (floor not_after grant_expires_at : Z) (reading : option Z) : option Z :=
  now ← reading;
  if now <? floor then None else if now >=? not_after then Some (Z.max now grant_expires_at) else Some now.

(** ** Critical sections of the human operations *)

Definition add_human_profile (config : HumanAuthorityProfileConfig) (s : SecurityState) : ares (SecurityState * Z) :=
  '(s, serial) ← allocate_serial s;
  Ok (set_human_profiles (<[serial := {| hr_generation := 1; hr_suspended := false; hr_config := config |}]> (human_profiles s)) s,
      serial).

(** The profile that a handle names, of the handle's project. *)
Definition own_human_profile (handle : Handle) (s : SecurityState) : ares HumanAuthorityProfileRecord :=
  found (human_profiles s !! h_serial handle) (fun profile => str_eqb (hc_project (hr_config profile)) (h_project handle)) ConfigInvalid.

Definition replace_human (handle : Handle) (replacement : HumanAuthorityProfileConfig) (s : SecurityState)
  : ares (SecurityState * unit) :=
  profile ← own_human_profile handle s;
  generation ← next_epoch (hr_generation profile);
  security ← ok_or (projects s !! hc_project replacement) ConfigInvalid;
  epoch ← next_epoch (sec_epoch security);
  let s := set_human_profiles
    (<[h_serial handle := {| hr_generation := generation; hr_suspended := false; hr_config := replacement |}]> (human_profiles s)) s in
  security ← ok_or (projects s !! h_project handle) ConfigInvalid;
  Ok (set_projects (<[h_project handle := with_epoch epoch security]> (projects s)) s, tt).

Definition suspend_human (handle : Handle) (suspended : bool) (s : SecurityState) : ares (SecurityState * unit) :=
  profile ← own_human_profile handle s;
  if eqb (hr_suspended profile) suspended then Ok (s, tt)
  else
    generation ← next_epoch (hr_generation profile);
    security ← ok_or (projects s !! h_project handle) ConfigInvalid;
    epoch ← next_epoch (sec_epoch security);
    Ok (set_projects (<[h_project handle := with_epoch epoch security]> (projects s))
          (set_human_profiles
             (<[h_serial handle := {| hr_generation := generation; hr_suspended := suspended; hr_config := hr_config profile |}]>
                (human_profiles s)) s), tt).

(** The first lock of the registrations: an active profile of the project, for a recovered
    binding also of its Decision Ref. *)
Definition active_human_profile (handle : Handle) (project : str) (decision_ref : option str) (s : SecurityState)
  : ares HumanAuthorityProfileRecord :=
  found (human_profiles s !! h_serial handle)
    (fun profile => negb (hr_suspended profile) && str_eqb (hc_project (hr_config profile)) project &&
                    match decision_ref with Some name => str_eqb (hc_decision_ref_name (hr_config profile)) name | None => true end)
    ConfigInvalid.

(** The last lock: the profile is the one that was read. *)
Definition same_human_profile (handle : Handle) (project : str) (decision_ref : option str) (generation : Z) (s : SecurityState)
  : ares HumanAuthorityProfileRecord :=
  found (human_profiles s !! h_serial handle)
    (fun live => negb (hr_suspended live) && (hr_generation live =? generation) && str_eqb (hc_project (hr_config live)) project &&
                 match decision_ref with Some name => str_eqb (hc_decision_ref_name (hr_config live)) name | None => true end)
    ConfigInvalid.

Definition add_human_registration (handle : Handle) (project : str) (decision_ref : option str)
    (record : HumanDecisionRegistrationRecord) (s : SecurityState) : ares (SecurityState * Z) :=
  same_human_profile handle project decision_ref (rg_profile_generation record) s;;
  '(s, serial) ← allocate_serial s;
  Ok (set_human_registrations (<[serial := record]> (human_registrations s)) s, serial).

(** The profile check of [prepare_human_decision]. *)
Definition human_profile_for (session : AuthenticatedSession) (project : str) (registration : HumanDecisionRegistrationRecord)
    (s : SecurityState) : ares HumanAuthorityProfileRecord :=
  found (human_profiles s !! rg_profile_serial registration)
    (fun profile => negb (hr_suspended profile) && (hr_generation profile =? rg_profile_generation registration) &&
                    str_eqb (hc_project (hr_config profile)) project &&
                    str_eqb (hc_human_id (hr_config profile)) (ss_actor_id session)) ProjectAccessDenied.

(** Its first lock. *)
Definition read_human_registration (instance : Z) (session : AuthenticatedSession) (project : str) (handle : Handle) (s : SecurityState)
  : ares (Z * HumanDecisionRegistrationRecord) :=
  security ← found (projects s !! project) (member (ss_actor_id session)) ProjectAccessDenied;
  reject_if (negb (h_instance handle =? instance) || negb (str_eqb (h_project handle) project)) ProjectAccessDenied;;
  registration ← found (human_registrations s !! h_serial handle) (fun r => str_eqb (rg_project r) project) ProjectAccessDenied;
  human_profile_for session project registration s;;
  Ok (sec_epoch security, registration).

Definition human_window (ttl : Z) (reading : option Z) : ares (Z * Z) :=
  issued_at ← ok_or reading ServiceUnavailable;
  not_after ← ok_or (i128_checked_add issued_at ttl) ServiceUnavailable;
  reject_if (issued_at >=? not_after) ServiceUnavailable;;
  Ok (issued_at, not_after).

(** The record of a human permit. *)
Definition human_permit_record (session : AuthenticatedSession) (project : str) (security_epoch : Z)
    (registration : HumanDecisionRegistrationRecord) (issued_at not_after : Z) : HumanDecisionPermitRecord :=
  {| hp_actor_id := ss_actor_id session; hp_session_id := ss_session_id session; hp_project := project;
     hp_security_epoch := security_epoch; hp_profile_serial := rg_profile_serial registration;
     hp_profile_generation := rg_profile_generation registration; hp_decision_head := rg_decision_head registration;
     hp_proposal_ref_name := rg_proposal_ref_name registration; hp_proposal_head := rg_proposal_head registration;
     hp_candidate := rg_candidate registration; hp_not_after := not_after; hp_last_observed := issued_at |}.

(** Its last lock. *)
Definition issue_human_permit (session : AuthenticatedSession) (project : str) (handle : Handle) (security_epoch : Z)
    (registration : HumanDecisionRegistrationRecord) (issued_at not_after : Z) (s : SecurityState) : ares (SecurityState * Z) :=
  found (projects s !! project) (fun security => (sec_epoch security =? security_epoch) && member (ss_actor_id session) security)
    ProjectAccessDenied;;
  found (human_registrations s !! h_serial handle) (fun live => bool_decide (live = registration)) ProjectAccessDenied;;
  human_profile_for session project registration s;;
  '(s, serial) ← allocate_serial s;
  let record := human_permit_record session project security_epoch registration issued_at not_after in
  Ok (set_human_permits (<[serial := record]> (human_permits s))
        (set_human_registrations (delete (h_serial handle) (human_registrations s)) s), serial).

Definition take_human_permit (serial : Z) (s : SecurityState) : ares (SecurityState * HumanDecisionPermitRecord) :=
  record ← ok_or (human_permits s !! serial) ExecutionPermitInvalid;
  Ok (set_human_permits (delete serial (human_permits s)) s, record).

Definition validate_live_human_permit (permit : HumanDecisionPermitRecord) (session : AuthenticatedSession) (s : SecurityState)
  : ares unit :=
  found (projects s !! hp_project permit)
    (fun security => (sec_epoch security =? hp_security_epoch permit) && member (ss_actor_id session) security) ExecutionPermitInvalid;;
  found (human_profiles s !! hp_profile_serial permit)
    (fun profile => negb (hr_suspended profile) && (hr_generation profile =? hp_profile_generation permit) &&
                    str_eqb (hc_project (hr_config profile)) (hp_project permit) &&
                    str_eqb (hc_human_id (hr_config profile)) (ss_actor_id session)) ExecutionPermitInvalid;;
  Ok tt.

Definition live_human_profile (permit : HumanDecisionPermitRecord) (session : AuthenticatedSession) (s : SecurityState)
  : ares HumanAuthorityProfileRecord :=
  validate_live_human_permit permit session s;;
  ok_or (human_profiles s !! hp_profile_serial permit) ExecutionPermitInvalid.

(** [HumanPermitDeadlineClock] *)
Definition human_deadline_reading (floor not_after : Z) (reading : option Z) : option Z :=
  now ← reading;
  if (now <? floor) || (now >=? not_after) then None else Some now.
