(* ===== verification/AppPrograms.v ===== *)
(** * The application boundary: operations as programs

    The rest of crates/synapse-application/src/lib.rs and human.rs.  Operations run
    concurrently: a program is a sequence of atomic actions on the shared state, one per block
    of code that runs under a lock, and an action may be disabled (a thread that waits).
    [enter_gate] is [FairGate::enter] with the release that its guard performs when the
    operation returns, on every path.  Actions emit events, which the trace of a run records.
    A poisoned lock is not modelled. *)

From stdpp Require Import base list numbers strings gmap sets relations.
From Stdlib Require Import ZArith Lia.
From S2P Require Import Prelude Text RefStore Canonical Registry ObjectStore Repository Policy Authorization HumanDecision AppState.

#[local] Open Scope Z_scope.

(** ** Shared state *)

Record FairGateState := { next_ticket : Z; serving : Z; occupied : bool }.

Definition gate_new : FairGateState := {| next_ticket := 0; serving := 0; occupied := false |}.

Record ProjectSlot (S : Type) := { repository : Repository S; publication_gate : FairGateState }.

Arguments repository {S}.
Arguments publication_gate {S}.

(** The mutable parts of an [Application]. *)
Record App (S : Type) := { slots : gmap str (ProjectSlot S); security : SecurityState }.

Arguments slots {S}.
Arguments security {S}.

(** [Application::new], after the instance number was drawn. *)
Fixpoint register_projects {S} (registered : list (str * Repository S)) (app : App S) : ares (App S) :=
  match registered with
  | [] => Ok app
  | (name, repository) :: registered =>
    reject_if (negb (valid_control_value name) || bool_decide (is_Some (slots app !! name))) ConfigInvalid;;
    register_projects registered
      {| slots := <[name := {| repository := repository; publication_gate := gate_new |}]> (slots app);
         security := set_projects (<[name := {| sec_epoch := 0; allowed_actors := ∅ |}]> (projects (security app))) (security app) |}
  end.

Definition empty_security : SecurityState :=
  {| next_serial := 1; projects := ∅; profiles := ∅; registrations := ∅; permits := ∅; human_profiles := ∅;
     human_registrations := ∅; human_permits := ∅ |}.

Definition app_new {S} (permit_ttl_nanos : Z) (registered : list (str * Repository S)) : ares (App S) :=
  reject_if (permit_ttl_nanos <=? 0) ConfigInvalid;;
  app ← register_projects registered {| slots := ∅; security := empty_security |};
  reject_if (bool_decide (slots app = ∅)) ConfigInvalid;;
  Ok app.

(** ** Programs *)

(** What the trace of a run records. *)
Inductive event :=
| TookTicket (project : str) (ticket : Z)
| EnteredGate (project : str)
| LeftGate (project : str)
| AiIssued (serial : Z) (permit : PermitRecord)
| HumanIssued (serial : Z) (permit : HumanDecisionPermitRecord)
| AiBurned (serial : Z) (permit : PermitRecord)
| HumanBurned (serial : Z) (permit : HumanDecisionPermitRecord)
| AiPublished (serial : Z) (permit : PermitRecord) (session : AuthenticatedSession) (decision : AuthorizationDecision)
| HumanPublished (serial : Z) (permit : HumanDecisionPermitRecord) (session : AuthenticatedSession) (receipt : HumanDecisionReceipt).

#[warnings="-register-all"]
Inductive prog (S A : Type) :=
| Done (r : ares A)
| Act (f : App S -> option (App S * list event * prog S A)).

Arguments Done {S A}.
Arguments Act {S A}.

(** Run a program, then continue with its answer. *)
Fixpoint and_then {S A B} (c : prog S A) (k : ares A -> prog S B) : prog S B :=
  match c with
  | Done r => k r
  | Act f =>
    Act (fun app => match f app with
                    | Some (app, events, c) => Some (app, events, and_then c k)
                    | None => None
                    end)
  end.

Section Combinators.
Context {S : Type}.

(** [?] on a local computation. *)
Definition try {X A} (r : ares X) (k : X -> prog S A) : prog S A :=
  match r with Ok x => k x | Err e => Done (Err e) end.

Definition set_security (s : SecurityState) (app : App S) : App S := {| slots := slots app; security := s |}.

Definition set_slot (project : str) (slot : ProjectSlot S) (app : App S) : App S :=
  {| slots := <[project := slot]> (slots app); security := security app |}.

(** A block under the lock of the security state. *)
Definition locked {X A} (f : SecurityState -> ares (SecurityState * X)) (events : X -> list event) (k : X -> prog S A) : prog S A :=
  Act (fun app =>
    match f (security app) with
    | Ok (s, x) => Some (set_security s app, events x, k x)
    | Err e => Some (app, [], Done (Err e))
    end).

(** A block that only reads it. *)
Definition reading {X A} (f : SecurityState -> ares X) (k : X -> prog S A) : prog S A :=
  Act (fun app => Some (app, [], try (f (security app)) k)).

(** A block under the lock of the repository of a project. *)
Definition in_repository {X A} (project : str) (f : Repository S -> Repository S * ares X) (events : X -> list event)
    (k : X -> prog S A) : prog S A :=
  Act (fun app =>
    slot ← slots app !! project;
    let '(repository, answer) := f (repository slot) in
    let app := set_slot project {| repository := repository; publication_gate := publication_gate slot |} app in
    Some (match answer with
          | Ok x => (app, events x, k x)
          | Err e => (app, [], Done (Err e))
          end)).

(** [self.projects.get(...)] *)
Definition find_slot {A} (project : str) (missing : ApplicationError) (k : prog S A) : prog S A :=
  Act (fun app => Some (app, [], if bool_decide (is_Some (slots app !! project)) then k else Done (Err missing))).

Definition set_gate (project : str) (slot : ProjectSlot S) (gate : FairGateState) (app : App S) : App S :=
  set_slot project {| repository := repository slot; publication_gate := gate |} app.

(** [Drop for FairGateGuard]; [None] is the failure of its [expect]. *)
Definition leave_gate {A} (project : str) (r : ares A) : prog S A :=
  Act (fun app =>
    slot ← slots app !! project;
    let gate := publication_gate slot in
    next ← usize_checked_add (serving gate) 1;
    Some (set_gate project slot {| next_ticket := next_ticket gate; serving := next; occupied := false |} app,
          [LeftGate project], Done r)).

(** The loop on the condition variable: disabled until the gate is free and serves the ticket. *)
Definition wait_turn {A} (project : str) (ticket : Z) (body : prog S A) : prog S A :=
  Act (fun app =>
    slot ← slots app !! project;
    let gate := publication_gate slot in
    if occupied gate || negb (serving gate =? ticket) then None
    else Some (set_gate project slot {| next_ticket := next_ticket gate; serving := serving gate; occupied := true |} app,
               [EnteredGate project], and_then body (leave_gate project))).

(** Look the project up and run the body inside its gate. *)
Definition enter_gate {A} (project : str) (missing : ApplicationError) (body : prog S A) : prog S A :=
  Act (fun app =>
    Some (match slots app !! project with
          | None => (app, [], Done (Err missing))
          | Some slot =>
            let gate := publication_gate slot in
            match usize_checked_add (next_ticket gate) 1 with
            | None => (app, [], Done (Err ServiceUnavailable))
            | Some next =>
              (set_gate project slot {| next_ticket := next; serving := serving gate; occupied := occupied gate |} app,
               [TookTicket project (next_ticket gate)], wait_turn project (next_ticket gate) body)
            end
          end)).
End Combinators.

Notation "x ⇐ r ; k" := (try r (fun x => k)) (at level 20, r at level 100, k at level 200, right associativity).
Notation "'ensure' b 'else' e ; k" := (if b then k else Done (Err e)) (at level 20, b at level 100, e at level 100, k at level 200).
Notation silent := (fun _ => []).
Notation finish := (fun x => Done (Ok x)).

(** ** Operations *)

Section Operations.
Context {S : Type} `{BoundedObjectStore S}.
Variable nfc : list char -> list char.
Variable json_pointer : Json -> str -> option (list nat).
Variable registry : SchemaRegistry.

(** The constant fields of the application. *)
Variable instance : Z.
Variable permit_ttl_nanos : Z.

Definition grant_project_access (project actor_id : str) : prog S unit :=
  ensure valid_control_value actor_id else ConfigInvalid;
  enter_gate project ConfigInvalid (locked (grant_access project actor_id) silent finish).

Definition revoke_project_access (project actor_id : str) : prog S unit :=
  enter_gate project ConfigInvalid (locked (revoke_access project actor_id) silent finish).

(** The handle of a serial of this application. *)
Definition handle_of (project : str) (serial : Z) : Handle :=
  {| h_instance := instance; h_project := project; h_serial := serial |}.

Definition register_authority_profile (config : AiAuthorityProfileConfig) : prog S Handle :=
  let config := sorted_config config in
  _ ⇐ ai_config_validate config;
  enter_gate (ac_project config) ConfigInvalid
    (locked (add_profile config) silent (fun serial => Done (Ok (handle_of (ac_project config) serial)))).

Definition replace_authority_profile (handle : Handle) (replacement : AiAuthorityProfileConfig) : prog S unit :=
  let replacement := sorted_config replacement in
  _ ⇐ ai_config_validate replacement;
  ensure (h_instance handle =? instance) && str_eqb (h_project handle) (ac_project replacement) else ConfigInvalid;
  enter_gate (ac_project replacement) ConfigInvalid (locked (replace_profile handle replacement) silent finish).

Definition set_authority_profile_suspended (handle : Handle) (suspended : bool) : prog S unit :=
  ensure h_instance handle =? instance else ConfigInvalid;
  enter_gate (h_project handle) ConfigInvalid (locked (suspend_profile handle suspended) silent finish).

(** The head of a Ref, read under the repository lock. *)
Definition current_head (repository : Repository S) (ref_name : str) : ares (option str) :=
  map_err (fun _ => ServiceUnavailable) (ref_head repository ref_name).

(** A block that only reads the repository. *)
Definition reading_repository {X A} (project : str) (f : Repository S -> ares X) (k : X -> prog S A) : prog S A :=
  in_repository project (fun repository => (repository, f repository)) silent k.

Definition register_execution (handle : Handle) : prog S Handle :=
  ensure h_instance handle =? instance else ConfigInvalid;
  enter_gate (h_project handle) ConfigInvalid
    (reading (profile_for_execution handle) (fun profile =>
     reading_repository (h_project handle) (fun repository => current_head repository (ac_target_ref_name (pr_config profile)))
       (fun expected_target_head =>
     locked (add_registration handle profile expected_target_head) silent (fun serial =>
     Done (Ok (handle_of (h_project handle) serial)))))).

Definition preflight_in (config : AiAuthorityProfileConfig) (expected_target_head : option str) (now : option Z)
    (repository : Repository S) : ares AiPreflightDecision :=
  map_err map_preflight_error
    (preflight_proposal nfc json_pointer registry repository (ai_authority config) now
       {| tg_ref_name := ac_target_ref_name config; tg_expected_head := expected_target_head;
          tg_side_effect := ac_side_effect_class config |}).

Definition prepare_ai (answer : Authentication) (project : str) (execution : Handle) (now : option Z) : prog S Permit :=
  session ⇐ authenticate answer;
  enter_gate project ProjectAccessDenied
    (reading (read_execution instance session project execution) (fun '(security_epoch, registration, profile) =>
     reading_repository project (preflight_in (pr_config profile) (er_expected_target_head registration) now) (fun preflight =>
     ensure preflight_matches_profile preflight (pr_config profile) else ConfigInvalid;
     not_after ⇐ permit_window permit_ttl_nanos preflight;
     locked (issue_permit session project execution security_epoch registration not_after preflight)
       (fun serial => [AiIssued serial (permit_record session project execution security_epoch registration not_after preflight)])
       (fun serial =>
     Done (Ok {| pm_instance := instance; pm_serial := serial |}))))).

Record AiExecutionContext := {
  cx_execution_id : Z;
  cx_actor_id : str;
  cx_project_id : str;
  cx_principal_id : str;
  cx_base_ref_name : str;
  cx_base_head : str;
  cx_target_ref_name : str;
  cx_expected_target_head : option str;
  cx_context_pack_oid : str;
  cx_capabilities : list AiCapability;
  cx_side_effect_class : AiSideEffectClass;
  cx_not_after : Z;
}.

Definition execution_context (permit : PermitRecord) : AiExecutionContext :=
  let preflight := pt_preflight permit in
  {| cx_execution_id := pt_execution_serial permit; cx_actor_id := pd_actor_id preflight; cx_project_id := pd_project_id preflight;
     cx_principal_id := pd_principal_id preflight; cx_base_ref_name := pd_base_ref preflight;
     cx_base_head := pd_base_commit_oid preflight; cx_target_ref_name := pd_target_ref_name preflight;
     cx_expected_target_head := pd_expected_target_head preflight; cx_context_pack_oid := pd_context_pack_oid preflight;
     cx_capabilities := pd_exact_capabilities preflight; cx_side_effect_class := pd_side_effect preflight;
     cx_not_after := pt_not_after permit |}.

Record AiPublicationReceipt := { ar_decision : AuthorizationDecision; ar_admitted_proposal : AdmittedProposalHandle }.

(** The publication under the repository lock, with the deadline clock of the permit. *)
Definition publish_ai (permit : PermitRecord) (profile : AuthorityProfileRecord) (generated : ExecutedAiProposal) (checked_at : Z)
    (now transaction_now : option Z) (repository : Repository S) : Repository S * ares AuthorizationDecision :=
  let deadline := deadline_reading checked_at (pt_not_after permit) (pd_grant_expires_at (pt_preflight permit)) in
  let '(repository, decision) :=
    publish_preflighted nfc json_pointer registry repository (ai_authority (pr_config profile)) (pt_preflight permit)
      {| ge_new_head := ex_new_head generated; ge_activity_oid := ex_activity_oid generated; ge_message := ex_message generated |}
      (deadline now) (deadline transaction_now) in
  (repository, map_err AppCore decision).

Definition ai_receipt (permit : PermitRecord) (decision : AuthorizationDecision) : AiPublicationReceipt :=
  {| ar_decision := decision;
     ar_admitted_proposal :=
       {| ap_instance := instance; ap_project := pt_project permit; ap_proposal_ref_name := ref_name (ad_reflog decision);
          ap_proposal_head := new_head (ad_reflog decision) |} |}.

(** From the second authentication on: enter the gate, check everything again, publish. *)
Definition publish_generated (permit : Permit) (record : PermitRecord) (session : AuthenticatedSession)
    (generated : ExecutedAiProposal) (started_at : Z) (second now transaction_now : option Z) : prog S AiPublicationReceipt :=
  enter_gate (pt_project record) ExecutionPermitInvalid
    (checked_at ⇐ permit_time (pt_not_after record) started_at second;
     reading (live_profile record session) (fun profile =>
     in_repository (pt_project record) (publish_ai record profile generated checked_at now transaction_now)
       (fun decision => [AiPublished (pm_serial permit) record session decision])
       (fun decision => Done (Ok (ai_receipt record decision))))).

Definition execute_and_publish_ai (answer final_answer : Authentication) (first second now transaction_now : option Z)
    (execute : AiExecutionContext -> option ExecutedAiProposal) (permit : Permit) : prog S AiPublicationReceipt :=
  session ⇐ authenticate answer;
  ensure pm_instance permit =? instance else ExecutionPermitInvalid;
  locked (take_permit (pm_serial permit)) (fun record => [AiBurned (pm_serial permit) record]) (fun record =>
  ensure str_eqb (pt_actor_id record) (ss_actor_id session) && str_eqb (pt_session_id record) (ss_session_id session)
    else ExecutionPermitInvalid;
  find_slot (pt_project record) ExecutionPermitInvalid (
  started_at ⇐ permit_time (pt_not_after record) (pt_last_observed record) first;
  reading (validate_live_permit record session) (fun _ =>
  generated ⇐ ok_or (execute (execution_context record)) ExecutionFailed;
  final_session ⇐ authenticate final_answer;
  ensure bool_decide (final_session = session) else ExecutionPermitInvalid;
  publish_generated permit record final_session generated started_at second now transaction_now))).

(** ** Human decisions *)

Definition register_human_profile (config : HumanAuthorityProfileConfig) : prog S Handle :=
  _ ⇐ human_config_validate config;
  enter_gate (hc_project config) ConfigInvalid
    (locked (add_human_profile config) silent (fun serial => Done (Ok (handle_of (hc_project config) serial)))).

Definition replace_human_profile (handle : Handle) (replacement : HumanAuthorityProfileConfig) : prog S unit :=
  _ ⇐ human_config_validate replacement;
  ensure (h_instance handle =? instance) && str_eqb (h_project handle) (hc_project replacement) else ConfigInvalid;
  enter_gate (hc_project replacement) ConfigInvalid (locked (replace_human handle replacement) silent finish).

Definition set_human_profile_suspended (handle : Handle) (suspended : bool) : prog S unit :=
  ensure h_instance handle =? instance else ConfigInvalid;
  enter_gate (h_project handle) ConfigInvalid (locked (suspend_human handle suspended) silent finish).

(** The Refs that a decision on an admitted proposal starts from: the decision head. *)
Definition decision_start (decision_ref : str) (admitted : AdmittedProposalHandle) (repository : Repository S) : ares str :=
  decision_head ← current_head repository decision_ref;
  decision_head ← ok_or decision_head ConfigInvalid;
  current_proposal ← current_head repository (ap_proposal_ref_name admitted);
  reject_if (negb (bool_decide (current_proposal = Some (ap_proposal_head admitted)))) ConfigInvalid;;
  Ok decision_head.

Definition register_human_decision (handle : Handle) (admitted : AdmittedProposalHandle) (candidate : HumanDecisionCandidate)
  : prog S Handle :=
  _ ⇐ candidate_validate candidate;
  ensure (h_instance handle =? instance) && (ap_instance admitted =? instance) && str_eqb (h_project handle) (ap_project admitted)
    else ConfigInvalid;
  enter_gate (h_project handle) ConfigInvalid
    (reading (active_human_profile handle (h_project handle) None) (fun profile =>
     reading_repository (h_project handle) (decision_start (hc_decision_ref_name (hr_config profile)) admitted) (fun decision_head =>
     let record :=
       {| rg_project := h_project handle; rg_profile_serial := h_serial handle; rg_profile_generation := hr_generation profile;
          rg_decision_head := decision_head; rg_proposal_ref_name := ap_proposal_ref_name admitted;
          rg_proposal_head := ap_proposal_head admitted; rg_candidate := candidate |} in
     locked (add_human_registration handle (h_project handle) None record) silent (fun serial =>
     Done (Ok (handle_of (h_project handle) serial)))))).

(** The Refs are at the recorded heads. *)
Definition binding_current (binding : DurableProposalBinding) (repository : Repository S) : ares unit :=
  current_proposal ← current_head repository (db_proposal_ref_name binding);
  current_decision ← current_head repository (db_decision_ref_name binding);
  reject_if (negb (bool_decide (current_proposal = Some (db_proposal_head binding)))) AppRefConflict;;
  reject_if (negb (bool_decide (current_decision = Some (db_decision_head binding)))) AppStaleBase.

(** The common part of the two operations on a recovered binding. *)
Definition recovered {A} (handle : Handle) (binding : DurableProposalBinding) (k : HumanAuthorityProfileRecord -> prog S A) : prog S A :=
  _ ⇐ durable_binding_validate binding;
  ensure (h_instance handle =? instance) && str_eqb (h_project handle) (db_project binding) else ConfigInvalid;
  enter_gate (db_project binding) ConfigInvalid
    (reading (active_human_profile handle (db_project binding) (Some (db_decision_ref_name binding))) (fun profile =>
     reading_repository (db_project binding) (binding_current binding) (fun _ => k profile))).

Definition verify_recovered_human_decision_binding (handle : Handle) (binding : DurableProposalBinding) : prog S unit :=
  recovered handle binding (fun profile =>
    reading (same_human_profile handle (db_project binding) (Some (db_decision_ref_name binding)) (hr_generation profile))
      (fun _ => Done (Ok tt))).

Definition register_recovered_human_decision (handle : Handle) (binding : DurableProposalBinding) (candidate : HumanDecisionCandidate)
  : prog S Handle :=
  _ ⇐ candidate_validate candidate;
  recovered handle binding (fun profile =>
    let record :=
      {| rg_project := db_project binding; rg_profile_serial := h_serial handle; rg_profile_generation := hr_generation profile;
         rg_decision_head := db_decision_head binding; rg_proposal_ref_name := db_proposal_ref_name binding;
         rg_proposal_head := db_proposal_head binding; rg_candidate := candidate |} in
    locked (add_human_registration handle (db_project binding) (Some (db_decision_ref_name binding)) record) silent (fun serial =>
    Done (Ok (handle_of (db_project binding) serial)))).

Definition prepare_human_decision (answer : Authentication) (project : str) (handle : Handle) (now : option Z) : prog S Permit :=
  session ⇐ authenticate answer;
  enter_gate project ProjectAccessDenied
    (reading (read_human_registration instance session project handle) (fun '(security_epoch, registration) =>
     window ⇐ human_window permit_ttl_nanos now;
     locked (issue_human_permit session project handle security_epoch registration window.1 window.2)
       (fun serial => [HumanIssued serial (human_permit_record session project security_epoch registration window.1 window.2)])
       (fun serial =>
     Done (Ok {| pm_instance := instance; pm_serial := serial |})))).

Definition publish_human (permit : HumanDecisionPermitRecord) (profile : HumanAuthorityProfileRecord) (checked_at : Z)
    (now transaction_now : option Z) (repository : Repository S) : Repository S * ares HumanDecisionReceipt :=
  let deadline := human_deadline_reading checked_at (hp_not_after permit) in
  let candidate := hp_candidate permit in
  let '(repository, receipt) :=
    publish_decision nfc json_pointer registry repository
      (human_authority (hr_config profile) (hp_decision_head permit) (hp_proposal_ref_name permit) (hp_proposal_head permit))
      {| hd_new_head := cd_new_head candidate; hd_decision_feedback_oid := cd_decision_feedback_oid candidate;
         hd_message := cd_message candidate |}
      (deadline now) (deadline transaction_now) in
  (repository, map_err AppCore receipt).

Definition publish_human_decision (answer : Authentication) (first second now transaction_now : option Z) (permit : Permit)
  : prog S HumanDecisionReceipt :=
  session ⇐ authenticate answer;
  ensure pm_instance permit =? instance else ExecutionPermitInvalid;
  locked (take_human_permit (pm_serial permit)) (fun record => [HumanBurned (pm_serial permit) record]) (fun record =>
  ensure str_eqb (hp_actor_id record) (ss_actor_id session) && str_eqb (hp_session_id record) (ss_session_id session)
    else ExecutionPermitInvalid;
  find_slot (hp_project record) ExecutionPermitInvalid (
  started_at ⇐ permit_time (hp_not_after record) (hp_last_observed record) first;
  enter_gate (hp_project record) ExecutionPermitInvalid (
  checked_at ⇐ permit_time (hp_not_after record) started_at second;
  reading (live_human_profile record session) (fun profile =>
  in_repository (hp_project record) (publish_human record profile checked_at now transaction_now)
    (fun receipt => [HumanPublished (pm_serial permit) record session receipt])
    (fun receipt => Done (Ok receipt)))))).

(** ** Runs *)

(** The public operations with their arguments and what their callbacks answer. *)
Inductive call :=
| GrantAccess (project actor_id : str)
| RevokeAccess (project actor_id : str)
| RegisterProfile (config : AiAuthorityProfileConfig)
| ReplaceProfile (handle : Handle) (replacement : AiAuthorityProfileConfig)
| SuspendProfile (handle : Handle) (suspended : bool)
| RegisterExecution (handle : Handle)
| PrepareAi (answer : Authentication) (project : str) (execution : Handle) (now : option Z)
| ExecuteAi (answer final_answer : Authentication) (first second now transaction_now : option Z)
    (execute : AiExecutionContext -> option ExecutedAiProposal) (permit : Permit)
| RegisterHuman (config : HumanAuthorityProfileConfig)
| ReplaceHuman (handle : Handle) (replacement : HumanAuthorityProfileConfig)
| SuspendHuman (handle : Handle) (suspended : bool)
| RegisterDecision (handle : Handle) (admitted : AdmittedProposalHandle) (candidate : HumanDecisionCandidate)
| VerifyRecovered (handle : Handle) (binding : DurableProposalBinding)
| RegisterRecovered (handle : Handle) (binding : DurableProposalBinding) (candidate : HumanDecisionCandidate)
| PrepareHuman (answer : Authentication) (project : str) (handle : Handle) (now : option Z)
| PublishHuman (answer : Authentication) (first second now transaction_now : option Z) (permit : Permit).

(** A thread: a program with some type of answer. *)
Inductive thread :=
| Thread (A : Type) (c : prog S A).

Arguments Thread {A}.

Definition start (c : call) : thread :=
  match c with
  | GrantAccess project actor_id => Thread (grant_project_access project actor_id)
  | RevokeAccess project actor_id => Thread (revoke_project_access project actor_id)
  | RegisterProfile config => Thread (register_authority_profile config)
  | ReplaceProfile handle replacement => Thread (replace_authority_profile handle replacement)
  | SuspendProfile handle suspended => Thread (set_authority_profile_suspended handle suspended)
  | RegisterExecution handle => Thread (register_execution handle)
  | PrepareAi answer project execution now => Thread (prepare_ai answer project execution now)
  | ExecuteAi answer final first second now tnow execute permit =>
    Thread (execute_and_publish_ai answer final first second now tnow execute permit)
  | RegisterHuman config => Thread (register_human_profile config)
  | ReplaceHuman handle replacement => Thread (replace_human_profile handle replacement)
  | SuspendHuman handle suspended => Thread (set_human_profile_suspended handle suspended)
  | RegisterDecision handle admitted candidate => Thread (register_human_decision handle admitted candidate)
  | VerifyRecovered handle binding => Thread (verify_recovered_human_decision_binding handle binding)
  | RegisterRecovered handle binding candidate => Thread (register_recovered_human_decision handle binding candidate)
  | PrepareHuman answer project handle now => Thread (prepare_human_decision answer project handle now)
  | PublishHuman answer first second now tnow permit => Thread (publish_human_decision answer first second now tnow permit)
  end.

Definition thread_step (t : thread) (app : App S) : option (App S * list event * thread) :=
  match t with
  | Thread (Done _) => None
  | Thread (Act f) =>
    match f app with
    | Some (app, events, c) => Some (app, events, Thread c)
    | None => None
    end
  end.

Definition finished (t : thread) : bool := match t with Thread (Done _) => true | Thread (Act _) => false end.

(** Shared state, the events so far with the thread of each, and the threads. *)
Record machine := { m_app : App S; m_trace : list (nat * event); m_threads : list thread }.

(** Handles are opaque: a profile handle of this application was answered by a registration,
    so its profile exists and is of the handle's project. *)
Definition genuine (app : App S) (c : call) : Prop :=
  match c with
  | ReplaceProfile handle _ | SuspendProfile handle _ =>
    h_instance handle = instance ->
    exists profile, profiles (security app) !! h_serial handle = Some profile /\ ac_project (pr_config profile) = h_project handle
  | _ => True
  end.

Inductive machine_step (m : machine) : machine -> Prop :=
| step_call c :
    genuine (m_app m) c ->
    machine_step m {| m_app := m_app m; m_trace := m_trace m; m_threads := m_threads m ++ [start c] |}
| step_thread i t app events t' :
    m_threads m !! i = Some t -> thread_step t (m_app m) = Some (app, events, t') ->
    machine_step m {| m_app := app; m_trace := m_trace m ++ map (pair i) events; m_threads := <[i := t']> (m_threads m) |}.

Definition started (registered : list (str * Repository S)) (m : machine) : Prop :=
  exists app, app_new permit_ttl_nanos registered = Ok app /\ m = {| m_app := app; m_trace := []; m_threads := [] |}.

Definition machine_reachable (registered : list (str * Repository S)) (m : machine) : Prop :=
  exists m0, started registered m0 /\ rtc machine_step m0 m.
End Operations.

Arguments Thread {S A}.
