(* ===== verification/AppLogic.v ===== *)
(** * Application: a rely-guarantee logic for the threads, and its soundness *)

From stdpp Require Import base list numbers strings gmap sets relations.
From Stdlib Require Import ZArith Lia.
From S2P Require Import RefStoreProps Prelude Text RefStore Canonical Registry ObjectStore Repository Policy Authorization HumanDecision.
From S2P Require Import AppState AppPrograms.

#[local] Open Scope Z_scope.

(** ** The application boundary: a rely-guarantee logic for its threads

    [ok] is the proof rule for one thread: each of its actions is a [step_ok] (what a thread may
    do, given the gate it is in) and re-establishes an assertion that the [step_ok]s of all
    other threads preserve.  [pool_ok] lifts it to a machine.  The gate of a project protects the
    project's security entry, profiles and repository; permits are owned by the thread that
    burned them. *)

(** ** Permits in a trace *)

(** Permits are named by their kind ([true] for AI) and serial. *)
Definition burned_key (e : event) : option (bool * Z) :=
  match e with
  | AiBurned serial _ => Some (true, serial)
  | HumanBurned serial _ => Some (false, serial)
  | _ => None
  end.

Definition published_key (e : event) : option (bool * Z) :=
  match e with
  | AiPublished serial _ _ _ => Some (true, serial)
  | HumanPublished serial _ _ _ => Some (false, serial)
  | _ => None
  end.

(** The event that must come before: a permit is burned as it was issued, and published as it
    was burned, by the thread that burned it. *)
Definition issue_of (e : event) : option event :=
  match e with
  | AiBurned serial permit => Some (AiIssued serial permit)
  | HumanBurned serial permit => Some (HumanIssued serial permit)
  | _ => None
  end.

Definition burn_of (e : event) : option event :=
  match e with
  | AiPublished serial permit _ _ => Some (AiBurned serial permit)
  | HumanPublished serial permit _ _ => Some (HumanBurned serial permit)
  | _ => None
  end.

Definition burned (tr : list (nat * event)) : list (bool * Z) := omap (fun x => burned_key x.2) tr.
Definition published (tr : list (nat * event)) : list (bool * Z) := omap (fun x => published_key x.2) tr.

Lemma omap_snoc {A B} (f : A -> option B) l x : omap f (l ++ [x]) = omap f l ++ match f x with Some y => [y] | None => [] end.
Proof. rewrite omap_app. cbn. by destruct (f x). Qed.

Lemma omap_key_unique {A B} (f : A -> option B) l x y k :
  NoDup (omap f l) -> x ∈ l -> y ∈ l -> f x = Some k -> f y = Some k -> x = y.
Proof.
  induction l as [|z l IH]; intros Hn Hx Hy Ex Ey; [by apply elem_of_nil in Hx|]. cbn in Hn. apply elem_of_cons in Hx, Hy.
  destruct Hx as [->|Hx], Hy as [->|Hy]; [done|..].
  - rewrite Ex in Hn. apply NoDup_cons in Hn as [Hn _]. destruct Hn. apply list_elem_of_omap. by exists y.
  - rewrite Ey in Hn. apply NoDup_cons in Hn as [Hn _]. destruct Hn. apply list_elem_of_omap. by exists x.
  - apply IH; try done. destruct (f z); [by apply NoDup_cons in Hn as [_ Hn]|done].
Qed.

Definition owner (tr : list (nat * event)) (i : nat) (k : bool * Z) : Prop := exists e, (i, e) ∈ tr /\ burned_key e = Some k.

Lemma owner_unique tr i j k : NoDup (burned tr) -> owner tr i k -> owner tr j k -> i = j.
Proof.
  intros Hn (e & He & Ek) (e' & He' & Ek').
  pose proof (omap_key_unique (fun x => burned_key x.2) tr (i, e) (j, e') k Hn He He' Ek Ek') as E. by injection E.
Qed.

Lemma owner_app tr tr' i k : owner tr i k -> owner (tr ++ tr') i k.
Proof. intros (e & He & Ek). exists e. split; [apply elem_of_app; by left|done]. Qed.

Lemma owner_burn tr i e b k : burn_of e = Some b -> published_key e = Some k -> (i, b) ∈ tr -> owner tr i k.
Proof. intros Eb Ek Hb. exists b. split; [done|]. destruct e; try done; cbn in *; by simplify_eq. Qed.

(** A thread holds a permit: it burned it, event [b], and has not used it. *)
Definition holds (i : nat) (b : event) (tr : list (nat * event)) : Prop :=
  (i, b) ∈ tr /\ exists k, burned_key b = Some k /\ k ∉ published tr.

(** ** Gates *)

Inductive status :=
| Out
| Waiting (project : str) (ticket : Z)
| Inside (project : str).

#[export] Instance status_eq_dec : EqDecision status.
Proof. solve_decision. Defined.

(** The threads that took a ticket of a gate, that entered it, and that left it, in order. *)
Definition gate_events (pick : event -> option str) (p : str) (tr : list (nat * event)) : list nat :=
  omap (fun x => q ← pick x.2; if decide (q = p) then Some x.1 else None) tr.

Definition took : str -> list (nat * event) -> list nat :=
  gate_events (fun e => match e with TookTicket q _ => Some q | _ => None end).
Definition entered : str -> list (nat * event) -> list nat :=
  gate_events (fun e => match e with EnteredGate q => Some q | _ => None end).
Definition departed : str -> list (nat * event) -> list nat :=
  gate_events (fun e => match e with LeftGate q => Some q | _ => None end).

Definition gate_event (e : event) : bool :=
  match e with TookTicket _ _ | EnteredGate _ | LeftGate _ => true | _ => false end.

(** Tickets are served in the order they were taken, one at a time. *)
Definition queue_ok (p : str) (g : FairGateState) (tr : list (nat * event)) : Prop :=
  Z.of_nat (length (took p tr)) = next_ticket g /\ Z.of_nat (length (departed p tr)) = serving g /\
  entered p tr = take (Z.to_nat (serving g + if occupied g then 1 else 0)) (took p tr).

Definition compatible (a b : status) : Prop := forall p, ~ (a = Inside p /\ b = Inside p).

(** ** Permits in the security state *)

(** A stored permit can be burned; its serial was allocated, and it is not burned. *)
Definition ready (s : SecurityState) (k : bool * Z) : Prop :=
  if k.1 then is_Some (permits s !! k.2) else is_Some (human_permits s !! k.2).

Record permit_inv (s : SecurityState) (tr : list (nat * event)) : Prop := {
  pi_ready : forall k, ready s k -> k.2 < next_serial s /\ k ∉ burned tr;
  pi_burned : forall k, k ∈ burned tr -> k.2 < next_serial s;
  pi_burned_once : NoDup (burned tr);
  pi_issued : forall n r, permits s !! n = Some r -> exists j, (j, AiIssued n r) ∈ tr;
  pi_human_issued : forall n r, human_permits s !! n = Some r -> exists j, (j, HumanIssued n r) ∈ tr;
  pi_burned_issued : forall i e b, (i, e) ∈ tr -> issue_of e = Some b -> exists j, (j, b) ∈ tr;
}.

Section Logic.
Context {S : Type} `{BoundedObjectStore S}.
Variable nfc : list char -> list char.
Variable json_pointer : Json -> str -> option (list nat).
Variable registry : SchemaRegistry.
Variable permit_ttl_nanos : Z.
Implicit Types app : App S.

Definition gate_of app (p : str) : option FairGateState := publication_gate <$> slots app !! p.
Definition repository_of app (p : str) : option (Repository S) := repository <$> slots app !! p.

Definition gate_ok (g : FairGateState) : Prop :=
  0 <= serving g <= next_ticket g /\ next_ticket g <= usize_max /\ (occupied g = true -> serving g < next_ticket g).

(** What a thread knows of the gates. *)
Definition at_gate app (st : status) : Prop :=
  match st with
  | Out => True
  | Waiting p t => exists g, gate_of app p = Some g /\ serving g <= t < next_ticket g /\ (occupied g = true -> serving g <> t)
  | Inside p => exists g, gate_of app p = Some g /\ occupied g = true
  end.

(** ** The invariant of the shared state *)

Record app_inv app (tr : list (nat * event)) : Prop := {
  iv_profiles : forall n, is_Some (profiles (security app) !! n) -> n < next_serial (security app);
  iv_humans : forall n, is_Some (human_profiles (security app) !! n) -> n < next_serial (security app);
  iv_permits : permit_inv (security app) tr;
  iv_published_once : NoDup (published tr);
  iv_published : forall i e b, (i, e) ∈ tr -> burn_of e = Some b -> (i, b) ∈ tr;
  iv_gates : forall p g, gate_of app p = Some g -> gate_ok g /\ queue_ok p g tr;
  iv_refs : forall p r, repository_of app p = Some r -> reachable (refs r);
}.

(** ** What a thread may do *)

(** Publications: the permit is live at that moment, and the repository moves as the core
    operation moves it, before the permit ends. *)
Definition ai_published app app' (permit : PermitRecord) (session : AuthenticatedSession) (decision : AuthorizationDecision) : Prop :=
  exists r r' profile generated now tnow last,
    session = {| ss_actor_id := pt_actor_id permit; ss_session_id := pt_session_id permit |} /\
    validate_live_permit permit session (security app) = Ok tt /\
    profiles (security app) !! pt_profile_serial permit = Some profile /\
    repository_of app (pt_project permit) = Some r /\ repository_of app' (pt_project permit) = Some r' /\ reachable (refs r) /\
    publish_preflighted nfc json_pointer registry r (ai_authority (pr_config profile)) (pt_preflight permit) generated now tnow
      = (r', Ok decision) /\
    tnow = Some last /\ pt_last_observed permit <= last < pt_not_after permit.

Definition human_published app app' (permit : HumanDecisionPermitRecord) (session : AuthenticatedSession)
    (receipt : HumanDecisionReceipt) : Prop :=
  exists r r' profile now tnow last,
    session = {| ss_actor_id := hp_actor_id permit; ss_session_id := hp_session_id permit |} /\
    validate_live_human_permit permit session (security app) = Ok tt /\
    human_profiles (security app) !! hp_profile_serial permit = Some profile /\
    repository_of app (hp_project permit) = Some r /\ repository_of app' (hp_project permit) = Some r' /\ reachable (refs r) /\
    publish_decision nfc json_pointer registry r
      (human_authority (hr_config profile) (hp_decision_head permit) (hp_proposal_ref_name permit) (hp_proposal_head permit))
      {| hd_new_head := cd_new_head (hp_candidate permit); hd_decision_feedback_oid := cd_decision_feedback_oid (hp_candidate permit);
         hd_message := cd_message (hp_candidate permit) |} now tnow = (r', Ok receipt) /\
    tnow = Some last /\ hp_last_observed permit <= last < hp_not_after permit.

(** Permits: what held when one was issued. *)
Definition ai_issued app (permit : PermitRecord) : Prop :=
  exists r profile expected_head now,
    validate_live_permit permit {| ss_actor_id := pt_actor_id permit; ss_session_id := pt_session_id permit |} (security app) = Ok tt /\
    profiles (security app) !! pt_profile_serial permit = Some profile /\
    repository_of app (pt_project permit) = Some r /\
    preflight_proposal nfc json_pointer registry r (ai_authority (pr_config profile)) now
      {| tg_ref_name := ac_target_ref_name (pr_config profile); tg_expected_head := expected_head;
         tg_side_effect := ac_side_effect_class (pr_config profile) |} = Ok (pt_preflight permit) /\
    pt_last_observed permit = pd_evaluated_at (pt_preflight permit) /\
    pt_not_after permit = Z.min (pt_last_observed permit + permit_ttl_nanos) (pd_grant_expires_at (pt_preflight permit)) /\
    pt_last_observed permit < pt_not_after permit.

Definition human_issued app (permit : HumanDecisionPermitRecord) : Prop :=
  validate_live_human_permit permit {| ss_actor_id := hp_actor_id permit; ss_session_id := hp_session_id permit |} (security app) = Ok tt /\
  hp_not_after permit = hp_last_observed permit + permit_ttl_nanos /\ hp_last_observed permit < hp_not_after permit.

Definition event_ok app app' (e : event) : Prop :=
  match e with
  | AiIssued _ permit => ai_issued app permit
  | HumanIssued _ permit => human_issued app permit
  | AiPublished _ permit session decision => ai_published app app' permit session decision
  | HumanPublished _ permit session receipt => human_published app app' permit session receipt
  | _ => True
  end.

(** The project whose repository an event moves. *)
Definition moves (e : event) : option str :=
  match e with
  | AiPublished _ permit _ _ => Some (pt_project permit)
  | HumanPublished _ permit _ _ => Some (hp_project permit)
  | _ => None
  end.

(** The parts of the state that the gate of [p] protects are the same. *)
Record same_project app app' (p : str) : Prop := {
  sp_security : projects (security app') !! p = projects (security app) !! p;
  sp_profiles : forall s r, profiles (security app) !! s = Some r -> ac_project (pr_config r) = p ->
    profiles (security app') !! s = Some r;
  sp_human : forall s r, human_profiles (security app) !! s = Some r -> hc_project (hr_config r) = p ->
    human_profiles (security app') !! s = Some r;
  sp_repository : repository_of app' p = repository_of app p;
}.

(** What decides whether a permit of [p] is live. *)
Record same_authority (s s' : SecurityState) (p : str) : Prop := {
  sa_project : projects s' !! p = projects s !! p;
  sa_profiles : forall n r, profiles s !! n = Some r -> ac_project (pr_config r) = p -> profiles s' !! n = Some r;
  sa_human : forall n r, human_profiles s !! n = Some r -> hc_project (hr_config r) = p -> human_profiles s' !! n = Some r;
}.

(** It changes only with the epoch of the project. *)
Definition fenced (s s' : SecurityState) : Prop := forall p a a',
  projects s !! p = Some a -> projects s' !! p = Some a' -> sec_epoch a' = sec_epoch a -> same_authority s s' p.

(** Gates move only as their events say. *)
Definition gate_step app app' (st : status) (events : list event) (st' : status) : Prop :=
  (forall p, is_Some (gate_of app p) -> is_Some (gate_of app' p)) /\
  ((st' = st /\ (forall p, gate_of app' p = gate_of app p) /\
    forall e, e ∈ events -> gate_event e = false) \/
   exists p g g', gate_of app p = Some g /\ gate_of app' p = Some g' /\ (forall q, q <> p -> gate_of app' q = gate_of app q) /\
     ((st = Out /\ st' = Waiting p (next_ticket g) /\ events = [TookTicket p (next_ticket g)] /\
       g' = {| next_ticket := next_ticket g + 1; serving := serving g; occupied := occupied g |}) \/
      (st = Waiting p (serving g) /\ st' = Inside p /\ events = [EnteredGate p] /\ occupied g = false /\
       g' = {| next_ticket := next_ticket g; serving := serving g; occupied := true |}) \/
      (st = Inside p /\ st' = Out /\ events = [LeftGate p] /\
       g' = {| next_ticket := next_ticket g; serving := serving g + 1; occupied := false |}))).

Record step_ok (i : nat) (st : status) app (tr : list (nat * event)) app' (events : list event) (st' : status) : Prop := {
  so_others : forall p, st <> Inside p -> same_project app app' p;
  so_profiles : forall s r, profiles (security app) !! s = Some r ->
    exists r', profiles (security app') !! s = Some r' /\ ac_project (pr_config r') = ac_project (pr_config r);
  so_epochs : forall p s, projects (security app) !! p = Some s ->
    exists s', projects (security app') !! p = Some s' /\ sec_epoch s <= sec_epoch s' /\ (sec_epoch s' = sec_epoch s -> s' = s);
  so_fence : fenced (security app) (security app');
  so_gates : gate_step app app' st events st';
  so_repositories : forall p, repository_of app' p <> repository_of app p -> exists e, e ∈ events /\ moves e = Some p;
  so_events : forall e, e ∈ events -> event_ok app app' e;
  so_owner : forall e b, e ∈ events -> burn_of e = Some b -> (i, b) ∈ tr;
  so_inv : app_inv app' (tr ++ map (pair i) events);
}.

(** ** Assertions and threads *)

Definition assertion := App S -> list (nat * event) -> Prop.

Definition stable (i : nat) (st : status) (P : assertion) : Prop :=
  forall j stj stj' app tr app' events, j <> i -> compatible st stj -> app_inv app tr -> step_ok j stj app tr app' events stj' ->
    P app tr -> P app' (tr ++ map (pair j) events).

(** A disabled action waits for a gate. *)
Definition waits app (st : status) : Prop :=
  exists p t g, st = Waiting p t /\ gate_of app p = Some g /\ (occupied g = true \/ serving g <> t).

Fixpoint ok (i : nat) {A} (c : prog S A) (Q : ares A -> status -> Prop) (st : status) (P : assertion) : Prop :=
  match c with
  | Done r => Q r st
  | Act f =>
    forall app tr, app_inv app tr -> at_gate app st -> P app tr ->
      match f app with
      | None => waits app st
      | Some (app', events, c') =>
        exists st' P', step_ok i st app tr app' events st' /\ stable i st' P' /\ P' app' (tr ++ map (pair i) events) /\ ok i c' Q st' P'
      end
  end.

Definition returns {A} (st : status) : ares A -> status -> Prop := fun _ st' => st' = st.

Definition thread_ok (i : nat) (t : thread (S := S)) (st : status) (P : assertion) : Prop :=
  match t with Thread c => ok i c (returns Out) st P end.
End Logic.

(** ** The application boundary: soundness of the thread logic

    When every thread satisfies [ok], the machine keeps its invariant whatever the
    interleaving, at most one thread is inside the gate of a project, and some thread can
    always take a step until all have finished. *)

(** The ticket that a thread holds at the gate of [p]. *)
Definition ticket (p : str) (g : FairGateState) (st : status) : option Z :=
  match st with
  | Out => None
  | Waiting q t => if decide (q = p) then Some t else None
  | Inside q => if decide (q = p) then Some (serving g) else None
  end.

Section Pool.
Context {S : Type} `{BoundedObjectStore S}.
Variable nfc : list char -> list char.
Variable json_pointer : Json -> str -> option (list nat).
Variable registry : SchemaRegistry.
Variable instance : Z.
Variable permit_ttl_nanos : Z.
Implicit Types app : App S.
Abbreviation sok := (step_ok nfc json_pointer registry permit_ttl_nanos).
Abbreviation tok := (thread_ok nfc json_pointer registry permit_ttl_nanos).
Abbreviation steady := (stable nfc json_pointer registry permit_ttl_nanos).

Record gates_ok app (sts : list status) : Prop := {
  go_gate : forall i st p, sts !! i = Some st -> (exists t, st = Waiting p t) \/ st = Inside p -> is_Some (gate_of app p);
  go_range : forall p g i st t, gate_of app p = Some g -> sts !! i = Some st -> ticket p g st = Some t -> serving g <= t < next_ticket g;
  go_unique : forall p g i j st st' t, gate_of app p = Some g -> sts !! i = Some st -> sts !! j = Some st' ->
    ticket p g st = Some t -> ticket p g st' = Some t -> i = j;
  go_all : forall p g t, gate_of app p = Some g -> serving g <= t < next_ticket g ->
    exists i st, sts !! i = Some st /\ ticket p g st = Some t;
  go_occupied : forall p g, gate_of app p = Some g -> occupied g = true <-> exists i, sts !! i = Some (Inside p);
}.

Lemma ticket_inside p g : ticket p g (Inside p) = Some (serving g).
Proof. cbn. by rewrite decide_True. Qed.

Lemma ticket_waiting p g t : ticket p g (Waiting p t) = Some t.
Proof. cbn. by rewrite decide_True. Qed.

Lemma ticket_cases p g st t : ticket p g st = Some t -> st = Waiting p t \/ st = Inside p /\ t = serving g.
Proof. destruct st as [|q u|q]; cbn; [done|..]; case_decide; try done; intros [= <-]; subst; auto. Qed.

(** The ticket does not depend on the gate, except for the thread inside. *)
Lemma ticket_other p g g' st : st <> Inside p -> ticket p g' st = ticket p g st.
Proof. intros Hst. destruct st as [|q u|q]; cbn; try done. case_decide; [by subst|done]. Qed.

Section Gates.
Variables (app app' : App S) (sts : list status) (i : nat).
Hypothesis Hg : gates_ok app sts.

Lemma inside_unique j k p : sts !! j = Some (Inside p) -> sts !! k = Some (Inside p) -> j = k.
Proof.
  intros Hj Hk. destruct (go_gate _ _ Hg _ _ p Hj) as [g E]; [by right|]. eapply (go_unique _ _ Hg); [done..|apply ticket_inside|apply ticket_inside].
Qed.

Lemma compatible_threads j st st' : sts !! i = Some st -> sts !! j = Some st' -> i <> j -> compatible st st'.
Proof. intros Hi Hj Hne p [-> ->]. by apply Hne, (inside_unique i j p). Qed.

Lemma at_gate_thread st : sts !! i = Some st -> at_gate app st.
Proof.
  intros Hi. destruct st as [|p t|p]; cbn; [done|..].
  - destruct (go_gate _ _ Hg _ _ p Hi) as [g E]; [left; by exists t|]. exists g. split_and!; [done|..].
    + by eapply (go_range _ _ Hg p g i); [..|apply ticket_waiting].
    + by eapply (go_range _ _ Hg p g i); [..|apply ticket_waiting].
    + intros Ho Et. apply (go_occupied _ _ Hg p g E) in Ho as [j Hj].
      assert (i = j) as <-; [|by rewrite Hi in Hj].
      eapply (go_unique _ _ Hg p g i j); [done..|apply ticket_waiting|rewrite <- Et; apply ticket_inside].
  - destruct (go_gate _ _ Hg _ _ p Hi) as [g E]; [by right|]. exists g. split; [done|]. apply (go_occupied _ _ Hg p g E). by exists i.
Qed.

Lemma insert_cases (st' : status) j x : <[i := st']> sts !! j = Some x -> (j = i /\ x = st') \/ (j <> i /\ sts !! j = Some x).
Proof. intros Hj. apply list_lookup_insert_Some in Hj as [(-> & -> & _)|[? ?]]; auto. Qed.
End Gates.

(** A statement about the gates of all projects, from one about the gate that moved. *)
Lemma gates_moved app app' sts i st st' p g g' :
  gates_ok app sts -> sts !! i = Some st -> gate_of app p = Some g -> gate_of app' p = Some g' ->
  (forall q, q <> p -> gate_of app' q = gate_of app q) ->
  (forall q h, q <> p -> ticket q h st' = ticket q h st) -> (forall q, q <> p -> st' <> Inside q /\ st <> Inside q) ->
  (forall q, (exists t, st' = Waiting q t) \/ st' = Inside q -> q = p) ->
  (forall j x t, <[i := st']> sts !! j = Some x -> ticket p g' x = Some t -> serving g' <= t < next_ticket g') ->
  (forall j k x y t, <[i := st']> sts !! j = Some x -> <[i := st']> sts !! k = Some y -> ticket p g' x = Some t ->
     ticket p g' y = Some t -> j = k) ->
  (forall t, serving g' <= t < next_ticket g' -> exists j x, <[i := st']> sts !! j = Some x /\ ticket p g' x = Some t) ->
  (occupied g' = true <-> exists j, <[i := st']> sts !! j = Some (Inside p)) ->
  gates_ok app' (<[i := st']> sts).
Proof.
  intros Hg Hi Hp Hp' Hq Ht Hin Hgate Hrange Huniq Hall Hocc.
  assert (forall q h j x, q <> p -> <[i := st']> sts !! j = Some x -> exists y, sts !! j = Some y /\ ticket q h y = ticket q h x) as Hback.
  { intros q h j x Hne [(-> & ->)|[_ Hj]]%insert_cases; [exists st; split; [done|symmetry; by apply Ht]|by exists x]. }
  split.
  - intros j x q [(-> & ->)|[Hji Hj]]%insert_cases Hx.
    + apply Hgate in Hx as ->. by rewrite Hp'.
    + destruct (decide (q = p)) as [->|Hne]; [by rewrite Hp'|]. rewrite Hq by done. by eapply (go_gate _ _ Hg).
  - intros q h j x t Hh Hj Hx. destruct (decide (q = p)) as [->|Hne].
    + rewrite Hp' in Hh. injection Hh as <-. by eapply Hrange.
    + rewrite Hq in Hh by done. destruct (Hback q h j x Hne Hj) as (y & Hy & E). rewrite <- E in Hx. by eapply (go_range _ _ Hg).
  - intros q h j k x y t Hh Hj Hk Hx Hy. destruct (decide (q = p)) as [->|Hne].
    + rewrite Hp' in Hh. injection Hh as <-. by eapply Huniq.
    + rewrite Hq in Hh by done. destruct (Hback q h j x Hne Hj) as (x' & Hx' & Ex), (Hback q h k y Hne Hk) as (y' & Hy' & Ey).
      rewrite <- Ex in Hx. rewrite <- Ey in Hy. by eapply (go_unique _ _ Hg).
  - intros q h t Hh Hr. destruct (decide (q = p)) as [->|Hne].
    + rewrite Hp' in Hh. injection Hh as <-. by apply Hall.
    + rewrite Hq in Hh by done. destruct (go_all _ _ Hg q h t Hh Hr) as (j & x & Hj & Hx). destruct (decide (j = i)) as [->|Hji].
      * exists i, st'. rewrite list_lookup_insert_eq by (by eapply lookup_lt_Some). split; [done|]. rewrite Ht by done. by simplify_eq.
      * exists j, x. by rewrite list_lookup_insert_ne.
  - intros q h Hh. destruct (decide (q = p)) as [->|Hne].
    + rewrite Hp' in Hh. by injection Hh as <-.
    + rewrite Hq in Hh by done. rewrite (go_occupied _ _ Hg q h Hh). destruct (Hin q Hne) as [H1 H2]. split; intros [j Hj].
      * exists j. destruct (decide (j = i)) as [->|]; [by simplify_eq|]. by rewrite list_lookup_insert_ne.
      * apply insert_cases in Hj as [(-> & <-)|[_ Hj]]; [done|by exists j].
Qed.

Lemma gates_ticket app app' sts i p g g' :
  gates_ok app sts -> gate_ok g -> sts !! i = Some Out -> gate_of app p = Some g -> gate_of app' p = Some g' ->
  (forall q, q <> p -> gate_of app' q = gate_of app q) ->
  g' = {| next_ticket := next_ticket g + 1; serving := serving g; occupied := occupied g |} ->
  gates_ok app' (<[i := Waiting p (next_ticket g)]> sts).
Proof.
  intros Hg Hok Hi Hp Hp' Hq ->. pose proof (lookup_lt_Some _ _ _ Hi) as Hlt.
  assert (forall x, ticket p {| next_ticket := next_ticket g + 1; serving := serving g; occupied := occupied g |} x = ticket p g x) as Et by done.
  eapply (gates_moved app app' sts i Out _ p g); try done.
  - intros q h Hne. cbn. by rewrite decide_False.
  - intros q [[t [= -> _]]|?]; done.
  - intros j x t Hj. rewrite Et. cbn. apply insert_cases in Hj as [(-> & ->)|[_ Hj]].
    + rewrite ticket_waiting. intros [= <-]. destruct Hok as (? & ? & ?). lia.
    + intros Hx. pose proof (go_range _ _ Hg p g j x t Hp Hj Hx). lia.
  - intros j k x y t Hj Hk. rewrite !Et. apply insert_cases in Hj as [(-> & ->)|[_ Hj]], Hk as [(-> & ->)|[_ Hk]]; [done|..].
    + rewrite ticket_waiting. intros [= <-] Hy. pose proof (go_range _ _ Hg p g k y _ Hp Hk Hy). lia.
    + rewrite ticket_waiting. intros Hx [= <-]. pose proof (go_range _ _ Hg p g j x _ Hp Hj Hx). lia.
    + by eapply (go_unique _ _ Hg).
  - intros t. cbn. intros Hr. destruct (decide (t = next_ticket g)) as [->|Hne].
    + exists i, (Waiting p (next_ticket g)). rewrite list_lookup_insert_eq by done. rewrite Et. by rewrite ticket_waiting.
    + destruct (go_all _ _ Hg p g t Hp) as (j & x & Hj & Hx); [lia|]. exists j, x. rewrite list_lookup_insert_ne; [by rewrite Et|].
      intros ->. by rewrite Hi in Hj; simplify_eq.
  - cbn. rewrite (go_occupied _ _ Hg p g Hp). split; intros [j Hj].
    + exists j. rewrite list_lookup_insert_ne; [done|]. intros ->. by rewrite Hi in Hj.
    + apply insert_cases in Hj as [(_ & ?)|[_ Hj]]; [done|by exists j].
Qed.

Lemma gates_enter app app' sts i p g g' :
  gates_ok app sts -> sts !! i = Some (Waiting p (serving g)) -> gate_of app p = Some g -> gate_of app' p = Some g' ->
  (forall q, q <> p -> gate_of app' q = gate_of app q) ->
  g' = {| next_ticket := next_ticket g; serving := serving g; occupied := true |} -> gates_ok app' (<[i := Inside p]> sts).
Proof.
  intros Hg Hi Hp Hp' Hq ->. pose proof (lookup_lt_Some _ _ _ Hi) as Hlt.
  assert (forall x, ticket p {| next_ticket := next_ticket g; serving := serving g; occupied := true |} x = ticket p g x) as Et by done.
  assert (forall j x, <[i := Inside p]> sts !! j = Some x -> exists y, sts !! j = Some y /\ ticket p g y = ticket p g x) as Hback.
  { intros j x [(-> & ->)|[_ Hj]]%insert_cases; [|by exists x]. exists (Waiting p (serving g)). by rewrite ticket_waiting, ticket_inside. }
  eapply (gates_moved app app' sts i _ _ p g); try done.
  - intros q h Hne. cbn. by rewrite !decide_False.
  - intros q Hne. by split; [intros [= ->]|].
  - intros q [[t [=]]|[= ->]]; done.
  - intros j x t Hj. rewrite Et. cbn. destruct (Hback j x Hj) as (y & Hy & <-). by apply (go_range _ _ Hg p g j y).
  - intros j k x y t Hj Hk. rewrite !Et. destruct (Hback j x Hj) as (x' & Hx' & <-), (Hback k y Hk) as (y' & Hy' & <-).
    by apply (go_unique _ _ Hg p g j k x' y').
  - intros t. cbn. intros Hr. destruct (go_all _ _ Hg p g t Hp Hr) as (j & x & Hj & Hx). destruct (decide (j = i)) as [->|Hne].
    + exists i, (Inside p). rewrite list_lookup_insert_eq by done. rewrite Et, ticket_inside. rewrite Hi in Hj. injection Hj as <-.
      by rewrite ticket_waiting in Hx.
    + exists j, x. by rewrite list_lookup_insert_ne, Et.
  - cbn. split; [intros _|done]. exists i. by rewrite list_lookup_insert_eq.
Qed.

Lemma gates_leave app app' sts i p g g' :
  gates_ok app sts -> sts !! i = Some (Inside p) -> gate_of app p = Some g -> gate_of app' p = Some g' ->
  (forall q, q <> p -> gate_of app' q = gate_of app q) ->
  g' = {| next_ticket := next_ticket g; serving := serving g + 1; occupied := false |} -> gates_ok app' (<[i := Out]> sts).
Proof.
  intros Hg Hi Hp Hp' Hq ->. pose proof (lookup_lt_Some _ _ _ Hi) as Hlt.
  assert (forall j x t, j <> i -> sts !! j = Some x -> ticket p g x = Some t -> x = Waiting p t /\ t <> serving g) as Hother.
  { intros j x t Hne Hj Hx. assert (t <> serving g) as Ht.
    { intros ->. apply Hne. eapply (go_unique _ _ Hg p g); [done..|apply ticket_inside]. }
    apply ticket_cases in Hx as [?|[_ ?]]; done. }
  set (g' := {| next_ticket := next_ticket g; serving := serving g + 1; occupied := false |}).
  assert (forall j x t, <[i := Out]> sts !! j = Some x -> ticket p g' x = Some t ->
            j <> i /\ sts !! j = Some x /\ ticket p g x = Some t /\ t <> serving g) as Hback.
  { intros j x t [(-> & ->)|[Hne Hj]]%insert_cases Hx; [done|]. destruct (decide (x = Inside p)) as [->|Hx'].
    - destruct Hne. by eapply inside_unique.
    - rewrite (ticket_other p g g') in Hx by done. destruct (Hother j x t Hne Hj Hx). done. }
  eapply (gates_moved app app' sts i _ _ p g g'); try done.
  - intros q h Hne. cbn. by rewrite !decide_False.
  - intros q Hne. by split; [|intros [= ->]].
  - intros q [[t [=]]|[=]].
  - intros j x t Hj Hx. destruct (Hback j x t Hj Hx) as (_ & Hj' & Hx' & Ht). pose proof (go_range _ _ Hg p g j x t Hp Hj' Hx'). cbn. lia.
  - intros j k x y t Hj Hk Hx Hy. destruct (Hback _ _ _ Hj Hx) as (_ & Hj' & Hx' & _), (Hback _ _ _ Hk Hy) as (_ & Hk' & Hy' & _).
    by apply (go_unique _ _ Hg p g j k x y t).
  - intros t. cbn. intros Hr. destruct (go_all _ _ Hg p g t Hp) as (j & x & Hj & Hx); [lia|].
    assert (j <> i) as Hne. { intros ->. rewrite Hi in Hj. injection Hj as <-. rewrite ticket_inside in Hx. injection Hx as <-. lia. }
    destruct (Hother j x t Hne Hj Hx) as [-> _]. exists j, (Waiting p t). rewrite list_lookup_insert_ne by done. by rewrite ticket_waiting.
  - cbn. split; [done|]. intros [j Hj]. apply insert_cases in Hj as [(_ & ?)|[Hne Hj]]; [done|]. destruct Hne. by eapply inside_unique.
Qed.

Lemma gates_step app app' sts i st events st' :
  gates_ok app sts -> (forall p g, gate_of app p = Some g -> gate_ok g) -> sts !! i = Some st -> gate_step app app' st events st' ->
  gates_ok app' (<[i := st']> sts).
Proof.
  intros Hg Hok Hi [_ [(-> & Hsame & _)|(p & g & g' & Hp & Hp' & Hq & Hcase)]].
  - rewrite list_insert_id by done. split; intros *; rewrite ?Hsame; apply Hg.
  - destruct Hcase as [(-> & -> & _ & E)|[(-> & -> & _ & _ & E)|(-> & -> & _ & E)]].
    + eapply gates_ticket; eauto.
    + by eapply gates_enter.
    + by eapply gates_leave.
Qed.

(** ** Machines *)

Definition pool_ok (m : machine (S := S)) : Prop :=
  exists sts, length sts = length (m_threads m) /\ app_inv (m_app m) (m_trace m) /\ gates_ok (m_app m) sts /\
    forall i t st, m_threads m !! i = Some t -> sts !! i = Some st ->
      exists P, steady i st P /\ P (m_app m) (m_trace m) /\ tok i t st P.

(** One action of a thread whose program is [ok]. *)
Lemma thread_step_ok i t st P app tr app' events t' :
  tok i t st P -> app_inv app tr -> at_gate app st -> P app tr -> thread_step t app = Some (app', events, t') ->
  exists st' P', sok i st app tr app' events st' /\ steady i st' P' /\ P' app' (tr ++ map (pair i) events) /\ tok i t' st' P'.
Proof.
  intros Ht Hinv Hat HP Hs. destruct t as [A [r|f]]; [done|]. cbn in Hs. specialize (Ht app tr Hinv Hat HP).
  destruct (f app) as [[[a ev] c]|]; [|done]. injection Hs as <- <- <-. done.
Qed.

Lemma pool_thread m i t st app' events t' sts :
  length sts = length (m_threads m) -> app_inv (m_app m) (m_trace m) -> gates_ok (m_app m) sts ->
  (forall j u stj, m_threads m !! j = Some u -> sts !! j = Some stj ->
     exists P, steady j stj P /\ P (m_app m) (m_trace m) /\ tok j u stj P) ->
  m_threads m !! i = Some t -> sts !! i = Some st -> thread_step t (m_app m) = Some (app', events, t') ->
  exists st', sok i st (m_app m) (m_trace m) app' events st' /\
    pool_ok {| m_app := app'; m_trace := m_trace m ++ map (pair i) events; m_threads := <[i := t']> (m_threads m) |}.
Proof.
  intros Hlen Hinv Hg Hall Ht Hst Hs. destruct (Hall i t st Ht Hst) as (P & HsP & HP & Hok).
  destruct (thread_step_ok i t st P _ _ _ _ _ Hok Hinv (at_gate_thread _ _ _ Hg _ Hst) HP Hs) as (st' & P' & Hso & HsP' & HP' & Hok').
  exists st'. split; [done|]. exists (<[i := st']> sts). cbn [m_app m_trace m_threads]. split_and!.
  - by rewrite !length_insert.
  - apply (so_inv _ _ _ _ _ _ _ _ _ _ _ Hso).
  - eapply gates_step; [done| |done|apply (so_gates _ _ _ _ _ _ _ _ _ _ _ Hso)]. apply (iv_gates _ _ Hinv).
  - intros j u stj Hu Hstj. destruct (decide (j = i)) as [->|Hne].
    + rewrite list_lookup_insert_eq in Hu by (by eapply lookup_lt_Some). rewrite list_lookup_insert_eq in Hstj by (by eapply lookup_lt_Some).
      injection Hu as <-. injection Hstj as <-. by exists P'.
    + rewrite list_lookup_insert_ne in Hu by done. rewrite list_lookup_insert_ne in Hstj by done. destruct (Hall j u stj Hu Hstj) as (R & HsR & HR & HokR). exists R.
      split_and!; [done| |done]. apply (HsR i st st' (m_app m) (m_trace m)); try done. by apply (compatible_threads (m_app m) sts j Hg i).
Qed.

(** Every public operation starts as an [ok] thread. *)
Hypothesis start_ok : forall i c, exists P, steady i Out P /\
  (forall app tr, genuine instance app c -> P app tr) /\ tok i (start nfc json_pointer registry instance permit_ttl_nanos c) Out P.

Lemma pool_call m c : pool_ok m -> genuine instance (m_app m) c ->
  pool_ok {| m_app := m_app m; m_trace := m_trace m;
             m_threads := m_threads m ++ [start nfc json_pointer registry instance permit_ttl_nanos c] |}.
Proof.
  intros (sts & Hlen & Hinv & Hg & Hall) Hc. exists (sts ++ [Out]). cbn [m_app m_trace m_threads]. split_and!; [|done|..].
  - rewrite !length_app. cbn. lia.
  - assert (forall j st, (sts ++ [Out]) !! j = Some st -> sts !! j = Some st \/ st = Out) as Hback.
    { intros j st [Hj|[_ Hj]]%lookup_app_Some; [by left|]. right. by apply list_lookup_singleton_Some in Hj as [_ <-]. }
    assert (forall j st, sts !! j = Some st -> (sts ++ [Out]) !! j = Some st) as Hfwd by (intros; by apply lookup_app_l_Some).
    split.
    + intros j st p [Hj| ->]%Hback Hx; [by eapply (go_gate _ _ Hg)|]. by destruct Hx as [[]|].
    + intros p g j st t Hp [Hj| ->]%Hback Hx; [by eapply (go_range _ _ Hg)|done].
    + intros p g j k x y t Hp [Hj| ->]%Hback [Hk| ->]%Hback Hx Hy; [by eapply (go_unique _ _ Hg)|done..].
    + intros p g t Hp Hr. destruct (go_all _ _ Hg p g t Hp Hr) as (j & x & Hj & Hx). exists j, x. auto.
    + intros p g Hp. rewrite (go_occupied _ _ Hg p g Hp). split; intros [j Hj]; exists j; [by apply Hfwd|]. by apply Hback in Hj as [|].
  - intros j t st [Ht|[Hge Ht]]%lookup_app_Some Hst.
    + apply Hall; [done|]. rewrite lookup_app_l in Hst; [done|]. apply lookup_lt_Some in Ht. lia.
    + apply list_lookup_singleton_Some in Ht as [Hz <-]. assert (j = length (m_threads m)) as -> by lia.
      rewrite lookup_app_r, Hlen, Nat.sub_diag in Hst by lia. injection Hst as <-.
      destruct (start_ok (length (m_threads m)) c) as (P & HsP & HP & Hok). exists P. auto.
Qed.

Lemma pool_step m m' : pool_ok m -> machine_step nfc json_pointer registry instance permit_ttl_nanos m m' -> pool_ok m'.
Proof.
  intros Hm [c Hc|i t app' events t' Ht Hs]; [by apply pool_call|]. destruct Hm as (sts & Hlen & Hinv & Hg & Hall).
  destruct (lookup_lt_is_Some_2 sts i) as [st Hst]; [rewrite Hlen; by eapply lookup_lt_Some|].
  by destruct (pool_thread m i t st app' events t' sts) as (st' & _ & Hp).
Qed.

Lemma pool_steps m m' : pool_ok m -> rtc (machine_step nfc json_pointer registry instance permit_ttl_nanos) m m' -> pool_ok m'.
Proof. intros Hm Hs. induction Hs; [done|]. eauto using pool_step. Qed.

(** What any action of a machine is. *)
Lemma pool_action m i t app' events t' :
  pool_ok m -> m_threads m !! i = Some t -> thread_step t (m_app m) = Some (app', events, t') ->
  exists st st', sok i st (m_app m) (m_trace m) app' events st'.
Proof.
  intros (sts & Hlen & Hinv & Hg & Hall) Ht Hs.
  destruct (lookup_lt_is_Some_2 sts i) as [st Hst]; [rewrite Hlen; by eapply lookup_lt_Some|].
  destruct (pool_thread m i t st app' events t' sts) as (st' & Hso & _); try done. by exists st, st'.
Qed.

(** A thread that cannot move waits for a gate. *)
Lemma blocked_waits i t st P app tr : tok i t st P -> app_inv app tr -> at_gate app st -> P app tr -> st <> Out \/ finished t = false ->
  (exists r, thread_step t app = Some r) \/ waits app st.
Proof.
  intros Ht Hinv Hat HP Hf. destruct t as [A [r|f]].
  - cbn in Ht. unfold returns in Ht. destruct Hf; done.
  - cbn in *. specialize (Ht app tr Hinv Hat HP). destruct (f app) as [[[a ev] c]|]; [left; by eexists|by right].
Qed.

Lemma pool_progress m : pool_ok m -> (exists i t, m_threads m !! i = Some t /\ finished t = false) ->
  exists i t r, m_threads m !! i = Some t /\ thread_step t (m_app m) = Some r.
Proof.
  intros (sts & Hlen & Hinv & Hg & Hall) (i & t & Ht & Hf).
  assert (forall j st, sts !! j = Some st -> st <> Out \/ (exists u, m_threads m !! j = Some u /\ finished u = false) ->
    (exists u r, m_threads m !! j = Some u /\ thread_step u (m_app m) = Some r) \/ waits (m_app m) st) as Hmove.
  { intros j st Hst Hor. destruct (lookup_lt_is_Some_2 (m_threads m) j) as [u Hu]; [rewrite <- Hlen; by eapply lookup_lt_Some|].
    destruct (Hall j u st Hu Hst) as (P & _ & HP & Hok).
    destruct (blocked_waits j u st P _ _ Hok Hinv (at_gate_thread _ _ _ Hg _ Hst) HP) as [[r Hr]|Hw]; [|left; by exists u, r|by right].
    destruct Hor as [?|(u' & Hu' & ?)]; [by left|right]. by simplify_eq. }
  destruct (lookup_lt_is_Some_2 sts i) as [st Hst]; [rewrite Hlen; by eapply lookup_lt_Some|].
  destruct (Hmove i st Hst) as [(u & r & Hu & Hr)|(p & w & g & -> & Hp & Hbusy)]; [right; by exists t|by exists i, u, r|].
  destruct (occupied g) eqn:Eo.
  - apply (go_occupied _ _ Hg p g Hp) in Eo as [j Hj].
    destruct (Hmove j _ Hj) as [(u & r & Hu & Hr)|(p' & w' & g' & [=] & _)]; [by left|by exists j, u, r].
  - destruct Hbusy as [?|Hne]; [done|].
    pose proof (go_range _ _ Hg p g i _ w Hp Hst (ticket_waiting p g w)) as Hr.
    destruct (go_all _ _ Hg p g (serving g) Hp) as (j & x & Hj & Hx); [lia|]. apply ticket_cases in Hx as [->|[-> _]].
    + destruct (Hmove j _ Hj) as [(u & r & Hu & Hstep)|(p' & w' & g' & [= <- <-] & Hp' & Hb)]; [by left|by exists j, u, r|].
      rewrite Hp in Hp'. injection Hp' as <-. by destruct Hb as [?|?]; [congruence|].
    + assert (occupied g = true) by (apply (go_occupied _ _ Hg p g Hp); by exists j). congruence.
Qed.
End Pool.
