(* ===== verification/AppRules.v ===== *)
(** * Application: the rules of the logic, and the operations on permits *)

From stdpp Require Import base list numbers strings gmap sets relations.
From Stdlib Require Import ZArith Lia.
From S2P Require Import Prelude Text RefStore RefStoreProps Canonical Registry ObjectStore Repository Policy Authorization HumanDecision.
From S2P Require Import AuthorizationProps HumanDecisionProps AppState AppPrograms AppLogic.

#[local] Open Scope Z_scope.

(** ** The application boundary: proof rules for programs *)

(** ** What a critical section may do to the security state *)

Record sec_ok (st : status) (s s' : SecurityState) : Prop := {
  sc_projects : forall p, st <> Inside p -> projects s' !! p = projects s !! p;
  sc_profiles : forall p n r, st <> Inside p -> profiles s !! n = Some r -> ac_project (pr_config r) = p -> profiles s' !! n = Some r;
  sc_human : forall p n r, st <> Inside p -> human_profiles s !! n = Some r -> hc_project (hr_config r) = p ->
    human_profiles s' !! n = Some r;
  sc_kept : forall n r, profiles s !! n = Some r ->
    exists r', profiles s' !! n = Some r' /\ ac_project (pr_config r') = ac_project (pr_config r);
  sc_epochs : forall p a, projects s !! p = Some a ->
    exists a', projects s' !! p = Some a' /\ sec_epoch a <= sec_epoch a' /\ (sec_epoch a' = sec_epoch a -> a' = a);
  sc_serial : next_serial s <= next_serial s';
  sc_new : forall n, is_Some (profiles s' !! n) -> is_Some (profiles s !! n) \/ next_serial s <= n < next_serial s';
  sc_new_human : forall n, is_Some (human_profiles s' !! n) -> is_Some (human_profiles s !! n) \/ next_serial s <= n < next_serial s';
}.

Lemma fenced_refl s : fenced s s.
Proof. by intros p a a' _ _ _. Qed.

(** Nothing that is fenced changes. *)
Lemma fenced_same s s' : projects s' = projects s -> profiles s' = profiles s -> human_profiles s' = human_profiles s -> fenced s s'.
Proof. intros E1 E2 E3 p a a' _ _ _. split; by rewrite ?E1, ?E2, ?E3. Qed.

Lemma sec_ok_refl st s : sec_ok st s s.
Proof. split; try done; [by eauto|intros p a Ha; exists a; by split_and!|by left..]. Qed.

(** ** Traces *)

Lemma elem_of_snoc {A} (l : list A) x y : y ∈ l ++ [x] <-> y ∈ l \/ y = x.
Proof. rewrite elem_of_app, list_elem_of_singleton. done. Qed.

Lemma gate_events_app pick p tr tr' : gate_events pick p (tr ++ tr') = gate_events pick p tr ++ gate_events pick p tr'.
Proof. apply omap_app. Qed.

Lemma gate_events_quiet pick p i events : (forall e, gate_event e = false -> pick e = None) ->
  (forall e, e ∈ events -> gate_event e = false) -> gate_events pick p (map (pair i) events) = [].
Proof.
  intros Hpick He. induction events as [|e events IH]; [done|]. cbn. rewrite Hpick by (apply He; by left). cbn. apply IH. intros; apply He; by right.
Qed.

(** Events that are not of a gate leave the queues as they are. *)
Lemma queue_quiet p g i tr events : (forall e, e ∈ events -> gate_event e = false) -> queue_ok p g tr -> queue_ok p g (tr ++ map (pair i) events).
Proof.
  intros He. unfold queue_ok, took, entered, departed. rewrite !gate_events_app.
  rewrite !gate_events_quiet; try done; try (by intros []). by rewrite !app_nil_r.
Qed.

Lemma burned_app tr i events : burned (tr ++ map (pair i) events) = burned tr ++ omap burned_key events.
Proof. unfold burned. rewrite omap_app. f_equal. induction events as [|e events IH]; [done|]. cbn. by destruct (burned_key e); rewrite IH. Qed.

Lemma published_app tr i events : published (tr ++ map (pair i) events) = published tr ++ omap published_key events.
Proof. unfold published. rewrite omap_app. f_equal. induction events as [|e events IH]; [done|]. cbn. by destruct (published_key e); rewrite IH. Qed.

Lemma omap_none {A B} (f : A -> option B) l : (forall x, x ∈ l -> f x = None) -> omap f l = [].
Proof. intros Hf. induction l as [|x l IH]; [done|]. cbn. rewrite Hf by (by left). apply IH. intros; apply Hf; by right. Qed.

(** The gate of an event. *)
Definition gate_project (e : event) : option str :=
  match e with TookTicket q _ | EnteredGate q | LeftGate q => Some q | _ => None end.

Lemma gate_events_other pick p q i e : (forall p, pick e = Some p -> gate_project e = Some p) -> gate_project e = Some p -> q <> p ->
  gate_events pick q [(i, e)] = [].
Proof.
  intros Hpick Hp Hne. cbn. destruct (pick e) as [p'|]; [|done]. cbn. rewrite decide_False; [done|]. specialize (Hpick p' eq_refl). congruence.
Qed.

Lemma queue_other p q g i tr e : gate_project e = Some p -> q <> p -> queue_ok q g tr -> queue_ok q g (tr ++ [(i, e)]).
Proof.
  intros Hp Hne. unfold queue_ok, took, entered, departed. rewrite !gate_events_app.
  rewrite !(gate_events_other _ p q); try done; try (by destruct e). by rewrite !app_nil_r.
Qed.

Lemma took_app p tr tr' : took p (tr ++ tr') = took p tr ++ took p tr'.
Proof. apply gate_events_app. Qed.

Lemma took_one p i t : took p [(i, TookTicket p t)] = [i].
Proof. unfold took, gate_events. cbn. by rewrite decide_True. Qed.

Lemma entered_one p i : entered p [(i, EnteredGate p)] = [i].
Proof. unfold entered, gate_events. cbn. by rewrite decide_True. Qed.

Lemma departed_one p i : departed p [(i, LeftGate p)] = [i].
Proof. unfold departed, gate_events. cbn. by rewrite decide_True. Qed.

Lemma queue_took p g i t tr : gate_ok g -> queue_ok p g tr ->
  queue_ok p {| next_ticket := next_ticket g + 1; serving := serving g; occupied := occupied g |} (tr ++ [(i, TookTicket p t)]).
Proof.
  intros (Hr & _ & Hlt) (H1 & H2 & H3). unfold queue_ok. cbn [next_ticket serving occupied].
  rewrite took_app, took_one, length_app. unfold entered, departed. rewrite !gate_events_app. cbn [gate_events omap list_omap mbind option_bind snd length].
  rewrite !app_nil_r. split_and!; [cbn; lia|exact H2|]. fold (entered p tr). rewrite H3, take_app_le; [done|].
  destruct (occupied g); [specialize (Hlt eq_refl)|]; lia.
Qed.

Lemma queue_entered p g i tr : gate_ok g -> queue_ok p g tr -> occupied g = false -> took p tr !! Z.to_nat (serving g) = Some i ->
  queue_ok p {| next_ticket := next_ticket g; serving := serving g; occupied := true |} (tr ++ [(i, EnteredGate p)]).
Proof.
  intros (Hr & _ & _) (H1 & H2 & H3) Ho Hi. rewrite Ho, Z.add_0_r in H3. unfold queue_ok. cbn [next_ticket serving occupied].
  rewrite took_app. unfold departed. unfold entered at 1. rewrite !gate_events_app. fold (entered p tr). fold (entered p [(i, EnteredGate p)]).
  rewrite entered_one, H3. unfold took at 2 4. cbn [gate_events omap list_omap mbind option_bind snd length]. rewrite !app_nil_r.
  split_and!; [done|exact H2|]. rewrite Z2Nat.inj_add, Nat.add_1_r by lia. by rewrite (take_S_r _ _ i).
Qed.

Lemma queue_left p g i tr : gate_ok g -> queue_ok p g tr -> occupied g = true ->
  queue_ok p {| next_ticket := next_ticket g; serving := serving g + 1; occupied := false |} (tr ++ [(i, LeftGate p)]).
Proof.
  intros (Hr & _ & _) (H1 & H2 & H3) Ho. rewrite Ho in H3. unfold queue_ok. cbn [next_ticket serving occupied].
  rewrite took_app. unfold departed at 1. unfold entered. rewrite !gate_events_app. fold (departed p tr). fold (departed p [(i, LeftGate p)]).
  rewrite departed_one. unfold took at 2 4. cbn [gate_events omap list_omap mbind option_bind snd length]. rewrite !app_nil_r, length_app.
  split_and!; [done|cbn; lia|]. rewrite Z.add_0_r. exact H3.
Qed.

(** ** Permits *)

(** Storing no new permit, and burning none. *)
Lemma permit_inv_shrink s s' tr i events : permit_inv s tr -> permits s' ⊆ permits s -> human_permits s' ⊆ human_permits s ->
  next_serial s <= next_serial s' -> (forall e, e ∈ events -> burned_key e = None) -> permit_inv s' (tr ++ map (pair i) events).
Proof.
  intros [I1 I2 I3 I4 I5 I6] Hp Hh Hn He.
  assert (burned (tr ++ map (pair i) events) = burned tr) as Eb by (rewrite burned_app, (omap_none burned_key events) by done; by rewrite app_nil_r).
  split; rewrite ?Eb; try done.
  - intros [[] n] [r Hr]; cbn in *; [destruct (I1 (true, n)) as [? ?]|destruct (I1 (false, n)) as [? ?]]; cbn in *;
      try (eexists; by eapply lookup_weaken); split; try done; lia.
  - intros k Hk%I2. lia.
  - intros n r Hr. destruct (I4 n r) as [j Hj]; [by eapply lookup_weaken|]. exists j. apply elem_of_app. by left.
  - intros n r Hr. destruct (I5 n r) as [j Hj]; [by eapply lookup_weaken|]. exists j. apply elem_of_app. by left.
  - intros j e b [Hin|Hin]%elem_of_app Hb.
    + destruct (I6 j e b Hin Hb) as [j' Hj']. exists j'. apply elem_of_app. by left.
    + apply list_elem_of_fmap in Hin as (e' & [= -> ->] & He'%He). by destruct e'.
Qed.

(** The event of storing a new permit. *)
Definition stores (s s' : SecurityState) (n : Z) (e : event) : Prop :=
  match e with
  | AiIssued m r => m = n /\ permits s' = <[n := r]> (permits s) /\ human_permits s' = human_permits s
  | HumanIssued m r => m = n /\ permits s' = permits s /\ human_permits s' = <[n := r]> (human_permits s)
  | _ => False
  end.

Lemma permit_inv_issue s s' tr i e : permit_inv s tr -> stores s s' (next_serial s) e -> next_serial s' = next_serial s + 1 ->
  permit_inv s' (tr ++ map (pair i) [e]).
Proof.
  intros [I1 I2 I3 I4 I5 I6] Hst Hn.
  assert (burned (tr ++ map (pair i) [e]) = burned tr) as Eb by (rewrite burned_app; destruct e; try done; by rewrite app_nil_r).
  assert (forall k, ready s k -> k.2 < next_serial s' /\ k ∉ burned tr) as Hold by (intros k [? ?]%I1; split; [lia|done]).
  assert (forall b, next_serial s < next_serial s' /\ (b, next_serial s) ∉ burned tr) as Hnew by (intros b; split; [lia|intros Hb%I2; cbn in Hb; lia]).
  split; rewrite ?Eb; try done; cbn [map].
  - intros [[] n] [r Hr]; cbn in Hr.
    + destruct (decide (n = next_serial s)) as [->|Hne]; [apply Hnew|]. apply Hold. exists r.
      destruct e; try done; destruct Hst as (-> & Ep & _); rewrite Ep in Hr; [by rewrite lookup_insert_ne in Hr by done|done].
    + destruct (decide (n = next_serial s)) as [->|Hne]; [apply Hnew|]. apply Hold. exists r.
      destruct e; try done; destruct Hst as (-> & _ & Ep); rewrite Ep in Hr; [done|by rewrite lookup_insert_ne in Hr by done].
  - intros k Hk%I2. lia.
  - intros n r Hr. destruct e as [| | |m x|m x| | | |]; try done; destruct Hst as (-> & Ep & _); rewrite Ep in Hr.
    + apply lookup_insert_Some in Hr as [[<- <-]|[_ Hr]]; [exists i; apply elem_of_snoc; by right|].
      destruct (I4 n r Hr) as [j Hj]. exists j. apply elem_of_snoc. by left.
    + destruct (I4 n r Hr) as [j Hj]. exists j. apply elem_of_snoc. by left.
  - intros n r Hr. destruct e as [| | |m x|m x| | | |]; try done; destruct Hst as (-> & _ & Ep); rewrite Ep in Hr.
    + destruct (I5 n r Hr) as [j Hj]. exists j. apply elem_of_snoc. by left.
    + apply lookup_insert_Some in Hr as [[<- <-]|[_ Hr]]; [exists i; apply elem_of_snoc; by right|].
      destruct (I5 n r Hr) as [j Hj]. exists j. apply elem_of_snoc. by left.
  - intros j e' b [Hin|[= -> ->]]%elem_of_snoc Hb; [|by destruct e].
    destruct (I6 j e' b Hin Hb) as [j' Hj']. exists j'. apply elem_of_snoc. by left.
Qed.

(** The event of removing a permit. *)
Definition takes (s s' : SecurityState) (e : event) : Prop :=
  match e with
  | AiBurned n r => permits s !! n = Some r /\ permits s' = delete n (permits s) /\ human_permits s' = human_permits s
  | HumanBurned n r => human_permits s !! n = Some r /\ permits s' = permits s /\ human_permits s' = delete n (human_permits s)
  | _ => False
  end.

Lemma takes_key s s' e : takes s s' e -> exists k, burned_key e = Some k /\ ready s k /\ ~ ready s' k.
Proof.
  destruct e as [| | | | |n r|n r| |]; try done.
  - intros (Hr & Ep & _). exists (true, n). unfold ready. cbn. rewrite Hr, Ep, lookup_delete_eq. split_and!; [done|by eexists|by intros []].
  - intros (Hr & _ & Ep). exists (false, n). unfold ready. cbn. rewrite Hr, Ep, lookup_delete_eq. split_and!; [done|by eexists|by intros []].
Qed.

Lemma takes_within s s' e : takes s s' e -> permits s' ⊆ permits s /\ human_permits s' ⊆ human_permits s.
Proof. destruct e; try done; intros (_ & -> & ->); split; try done; apply delete_subseteq. Qed.

Lemma permit_inv_burn s s' tr i e : permit_inv s tr -> takes s s' e -> next_serial s' = next_serial s -> permit_inv s' (tr ++ map (pair i) [e]).
Proof.
  intros Hinv Hst Hn. destruct (takes_key _ _ _ Hst) as (k & Ek & Hk & Hgone). destruct (takes_within _ _ _ Hst) as [Hsub Hhsub].
  destruct Hinv as [I1 I2 I3 I4 I5 I6]. destruct (I1 k Hk) as [Hlt Hnb].
  assert (burned (tr ++ map (pair i) [e]) = burned tr ++ [k]) as Eb by (rewrite burned_app; cbn; by rewrite Ek).
  split; rewrite ?Eb; cbn [map].
  - intros k' Hk'. rewrite Hn. assert (ready s k') as [? Hnb']%I1 by (destruct k' as [[] m], Hk' as [r Hr]; eexists; by eapply lookup_weaken).
    split; [done|]. intros [?| ->]%elem_of_snoc; done.
  - intros k' [?%I2| ->]%elem_of_snoc; lia.
  - apply NoDup_app. split_and!; [done| |apply NoDup_singleton]. by intros x Hx ->%list_elem_of_singleton.
  - intros n r Hr. destruct (I4 n r) as [j Hj]; [by eapply lookup_weaken|]. exists j. apply elem_of_snoc. by left.
  - intros n r Hr. destruct (I5 n r) as [j Hj]; [by eapply lookup_weaken|]. exists j. apply elem_of_snoc. by left.
  - intros j e' b [Hin|[= -> ->]]%elem_of_snoc Hb.
    + destruct (I6 j e' b Hin Hb) as [j' Hj']. exists j'. apply elem_of_snoc. by left.
    + destruct e as [| | | | |n r|n r| |]; try done; cbn in Hb; injection Hb as <-; destruct Hst as (Hr & _).
      * destruct (I4 n r Hr) as [j' Hj']. exists j'. apply elem_of_snoc. by left.
      * destruct (I5 n r Hr) as [j' Hj']. exists j'. apply elem_of_snoc. by left.
Qed.

Section Rules.
Context {S : Type} `{BoundedObjectStore S}.
Variable nfc : list char -> list char.
Variable json_pointer : Json -> str -> option (list nat).
Variable registry : SchemaRegistry.
Variable permit_ttl_nanos : Z.
Implicit Types app : App S.
Abbreviation sok := (step_ok nfc json_pointer registry permit_ttl_nanos).
Abbreviation steady := (stable nfc json_pointer registry permit_ttl_nanos).
Abbreviation okay := (ok nfc json_pointer registry permit_ttl_nanos).

(** ** Stable assertions *)

Lemma stable_any i st P : steady i Out P -> steady i st P.
Proof. intros HP j stj stj' app tr app' events Hj _. apply HP; [done|]. intros p [? _]. done. Qed.

Lemma stable_true i st : steady i st (fun _ _ => True).
Proof. done. Qed.

Lemma stable_and i st P R : steady i st P -> steady i st R -> steady i st (fun app tr => P app tr /\ R app tr).
Proof. intros HP HR j stj stj' app tr app' events Hj Hc Hinv Hs [H1 H2]. split; [by eapply HP|by eapply HR]. Qed.

Lemma holds_app i j b tr events : holds i b tr -> (forall e k, e ∈ events -> published_key e = Some k -> burned_key b <> Some k) ->
  holds i b (tr ++ map (pair j) events).
Proof.
  intros (Hb & k & Ek & Hn) Hk. split; [apply elem_of_app; by left|]. exists k. split; [done|]. rewrite published_app.
  intros [?|(e & He & E)%list_elem_of_omap]%elem_of_app; [done|]. by destruct (Hk e k He E).
Qed.

Lemma published_burn e k : published_key e = Some k -> exists b, burn_of e = Some b.
Proof. destruct e; try done; by eexists. Qed.

Lemma stable_holds i st b : steady i st (fun _ tr => holds i b tr).
Proof.
  intros j stj stj' app tr app' events Hj _ Hinv Hs Hh. apply holds_app; [done|]. intros e k He Ek Eb.
  destruct (published_burn e k Ek) as [b' Eb']. pose proof (so_owner _ _ _ _ _ _ _ _ _ _ _ Hs e b' He Eb') as Hown.
  apply Hj. eapply owner_unique; [apply (pi_burned_once _ _ (iv_permits _ _ Hinv))|by eapply owner_burn|]. exists b. split; [apply Hh|done].
Qed.

Lemma stable_profile i st n project :
  steady i st (fun app _ => exists r, profiles (security app) !! n = Some r /\ ac_project (pr_config r) = project).
Proof.
  intros j stj stj' app tr app' events _ _ _ Hs (r & Hr & <-). destruct (so_profiles _ _ _ _ _ _ _ _ _ _ _ Hs n r Hr) as (r' & Hr' & E).
  by exists r'.
Qed.

Lemma found_Ok {A} (o : option A) keep e a : found o keep e = Ok a <-> o = Some a /\ keep a = true.
Proof.
  unfold found. rewrite bind_Ok. setoid_rewrite ok_or_Ok. split.
  - intros (x & -> & Hk). destruct (keep x) eqn:E; [|done]. by injection Hk as <-.
  - intros [-> Hk]. exists a. by rewrite Hk.
Qed.

(** What the gate of its project preserves for a live permit. *)
Lemma live_permit_same app app' permit session : same_project app app' (pt_project permit) ->
  validate_live_permit permit session (security app) = Ok tt -> validate_live_permit permit session (security app') = Ok tt.
Proof.
  intros [Hs Hp _ _]. unfold validate_live_permit. rewrite Hs. intros Hv. apply bind_Ok in Hv as (a & Ha & Hv).
  apply bind_Ok in Hv as (r & Hr & _). rewrite Ha. cbn [mbind result_bind]. apply found_Ok in Hr as [Hr Hk].
  rewrite (proj2 (found_Ok _ _ _ r)); [done|]. split; [|done]. apply Hp; [done|]. bool_props. by apply str_eqb_eq.
Qed.

Lemma live_human_same app app' permit session : same_project app app' (hp_project permit) ->
  validate_live_human_permit permit session (security app) = Ok tt -> validate_live_human_permit permit session (security app') = Ok tt.
Proof.
  intros [Hs _ Hp _]. unfold validate_live_human_permit. rewrite Hs. intros Hv. apply bind_Ok in Hv as (a & Ha & Hv).
  apply bind_Ok in Hv as (r & Hr & _). rewrite Ha. cbn [mbind result_bind]. apply found_Ok in Hr as [Hr Hk].
  rewrite (proj2 (found_Ok _ _ _ r)); [done|]. split; [|done]. apply Hp; [done|]. bool_props. by apply str_eqb_eq.
Qed.

Lemma stable_inside i p (P : assertion (S := S)) : (forall app app' tr tr', same_project app app' p -> P app tr -> P app' tr') -> steady i (Inside p) P.
Proof.
  intros HP j stj stj' app tr app' events _ Hc _ Hs. apply HP, (so_others _ _ _ _ _ _ _ _ _ _ _ Hs). intros ->. by apply (Hc p).
Qed.

(** ** Quiet actions *)

Lemma gate_step_same app app' st events : (forall p, gate_of app' p = gate_of app p) ->
  (forall e, e ∈ events -> gate_event e = false) -> gate_step app app' st events st.
Proof. intros Hg He. split; [intros p; by rewrite Hg|]. left. by split_and!. Qed.

Lemma sok_same i st app tr : app_inv app tr -> sok i st app tr app [] st.
Proof.
  intros Hinv. split; try done; try (by intros ? ?%elem_of_nil); try (by intros ? ? ?%elem_of_nil).
  - by eauto.
  - intros p s Hs. exists s. by split_and!.
  - by apply gate_step_same; [|intros ? ?%elem_of_nil].
  - by rewrite app_nil_r.
Qed.

(** A block on the security state: [events] are of permits. *)
Lemma sok_security i st app tr s' events : app_inv app tr -> sec_ok st (security app) s' -> fenced (security app) s' ->
  (forall e, e ∈ events -> gate_event e = false /\ published_key e = None /\
     event_ok nfc json_pointer registry permit_ttl_nanos app (set_security s' app) e) ->
  permit_inv s' (tr ++ map (pair i) events) -> sok i st app tr (set_security s' app) events st.
Proof.
  intros Hinv [H1 H2 H3 H4 H5 H6 Hn Hh] Hfence He Hpi.
  assert (forall e, e ∈ events -> burn_of e = None) as Hnb.
  { intros e (_ & Hp & _)%He. by destruct e. }
  split; try done.
  - intros p Hp. split; [by apply H1|by eauto|by eauto|done].
  - apply gate_step_same; [done|]. by intros e []%He.
  - by intros e (_ & _ & ?)%He.
  - intros e b Hin%Hnb. congruence.
  - destruct Hinv as [Ip Ih I1 I2 I3 I4 I5]. split; try done.
    + intros n [Hk%Ip|Hk]%Hn; cbn; lia.
    + intros n [Hk%Ih|Hk]%Hh; cbn; lia.
    + rewrite published_app, (omap_none published_key), app_nil_r; [done|]. by intros e (_ & ? & _)%He.
    + intros j e b [Hin|(e' & [= -> ->] & Hin)%list_elem_of_fmap]%elem_of_app Hb; [apply elem_of_app; left; by eapply I3|].
      rewrite Hnb in Hb by done. done.
    + intros p g Hg. destruct (I4 p g Hg). split; [done|]. apply queue_quiet; [|done]. by intros e []%He.
Qed.

Lemma sok_silent i st app tr s' : app_inv app tr -> sec_ok st (security app) s' -> fenced (security app) s' ->
  permits s' = permits (security app) -> human_permits s' = human_permits (security app) ->
  sok i st app tr (set_security s' app) [] st.
Proof.
  intros Hinv Hsec Hf Ep Eh. apply sok_security; [done|done|done|by intros ? ?%elem_of_nil|].
  apply (permit_inv_shrink (security app)); [apply Hinv|by rewrite Ep|by rewrite Eh|apply Hsec|by intros ? ?%elem_of_nil].
Qed.

(** ** Rules *)

Section OneThread.
Variable i : nat.

Lemma ok_and_then {A B} (c : prog S A) : forall (k : ares A -> prog S B) Q R st P,
  okay i c Q st P -> (forall r st' P', Q r st' -> okay i (k r) R st' P') -> okay i (and_then c k) R st P.
Proof.
  revert c. fix IH 1. intros c. destruct c as [r|f]; intros k Q R st P Hc Hk; cbn in *; [by apply Hk|].
  intros app tr Hinv Hat HP. specialize (Hc app tr Hinv Hat HP). revert Hc. destruct (f app) as [[[app' events] c']|]; [|done].
  intros (st' & P' & Hs & HsP & HP' & Hc). exists st', P'. split_and!; [done..|]. by eapply IH.
Qed.

Lemma ok_try {X A} (r : ares X) (k : X -> prog S A) Q st P :
  (forall e, Q (Err e) st) -> (forall x, r = Ok x -> okay i (k x) Q st P) -> okay i (try r k) Q st P.
Proof. intros He Hk. destruct r as [x|e]; [by apply Hk|apply He]. Qed.

Lemma ok_reading {X A} (f : SecurityState -> ares X) (k : X -> prog S A) Q st P :
  steady i st P -> (forall e, Q (Err e) st) ->
  (forall app tr x, P app tr -> f (security app) = Ok x ->
     exists P', steady i st P' /\ P' app tr /\ okay i (k x) Q st P') ->
  okay i (reading f k) Q st P.
Proof.
  intros HsP He Hk app tr Hinv Hat HP. destruct (f (security app)) as [x|e] eqn:Ef.
  - destruct (Hk app tr x HP Ef) as (P' & HsP' & HP' & Hok). exists st, P'. split_and!; [by apply sok_same|done|by rewrite app_nil_r|done].
  - exists st, P. split_and!; [by apply sok_same|done|by rewrite app_nil_r|apply He].
Qed.

Lemma ok_locked {X A} (f : SecurityState -> ares (SecurityState * X)) (k : X -> prog S A) Q st P :
  steady i st P -> (forall e, Q (Err e) st) ->
  (forall app tr s' x, app_inv app tr -> P app tr -> f (security app) = Ok (s', x) ->
     sec_ok st (security app) s' /\ fenced (security app) s' /\ permits s' = permits (security app) /\ human_permits s' = human_permits (security app) /\
     okay i (k x) Q st (fun _ _ => True)) ->
  okay i (locked f silent k) Q st P.
Proof.
  intros HsP He Hk app tr Hinv Hat HP. destruct (f (security app)) as [[s' x]|e] eqn:Ef.
  - destruct (Hk app tr s' x Hinv HP Ef) as (Hsec & Hf & Hp & Hh & Hok). exists st, (fun _ _ => True).
    split_and!; [by apply sok_silent|apply stable_true|done|done].
  - exists st, P. split_and!; [by apply sok_same|done|by rewrite app_nil_r|apply He].
Qed.

Lemma ok_find_slot {A} p e (k : prog S A) Q st P :
  steady i st P -> Q (Err e) st -> okay i k Q st P -> okay i (find_slot p e k) Q st P.
Proof.
  intros HsP He Hk app tr Hinv Hat HP. exists st, P. split_and!; [by apply sok_same|done|by rewrite app_nil_r|by case_bool_decide].
Qed.

(** Reading a repository from inside the gate of its project. *)
Lemma set_slot_same app p slot : slots app !! p = Some slot -> set_slot p slot app = app.
Proof. intros Hp. destruct app as [sl se]. unfold set_slot. cbn in *. by rewrite insert_id. Qed.

Lemma ok_reading_repository {X A} p (f : Repository S -> ares X) (k : X -> prog S A) Q P :
  steady i (Inside p) P -> (forall e, Q (Err e) (Inside p)) ->
  (forall app tr r x, P app tr -> repository_of app p = Some r -> f r = Ok x ->
     exists P', steady i (Inside p) P' /\ P' app tr /\ okay i (k x) Q (Inside p) P') ->
  okay i (reading_repository p f k) Q (Inside p) P.
Proof.
  intros HsP He Hk app tr Hinv (g & Hg & _) HP. unfold gate_of in Hg. destruct (slots app !! p) as [slot|] eqn:Hp; [|done].
  cbn. assert (set_slot p {| repository := repository slot; publication_gate := publication_gate slot |} app = app) as ->.
  { destruct slot. by apply set_slot_same. }
  destruct (f (repository slot)) as [x|e] eqn:Ef.
  - destruct (Hk app tr (repository slot) x HP) as (P' & HsP' & HP' & Hok); [unfold repository_of; by rewrite Hp|done|].
    exists (Inside p), P'. split_and!; [by apply sok_same|done|by rewrite app_nil_r|done].
  - exists (Inside p), P. split_and!; [by apply sok_same|done|by rewrite app_nil_r|apply He].
Qed.
End OneThread.

(** ** Gates *)

Lemma gate_set app p slot g q : gate_of (set_gate p slot g app) q = if decide (q = p) then Some g else gate_of app q.
Proof.
  unfold gate_of, set_gate, set_slot. cbn. case_decide as E; [subst; by rewrite lookup_insert_eq|]. by rewrite lookup_insert_ne by done.
Qed.

Lemma repository_set app p slot g q : slots app !! p = Some slot -> repository_of (set_gate p slot g app) q = repository_of app q.
Proof.
  intros Hp. unfold repository_of, set_gate, set_slot. cbn. destruct (decide (q = p)) as [->|Hne].
  - by rewrite lookup_insert_eq, Hp.
  - by rewrite lookup_insert_ne by done.
Qed.

(** An action on a gate. *)
Lemma app_inv_gate app app' tr i e : app_inv app tr -> security app' = security app -> gate_event e = true ->
  (forall p g, gate_of app' p = Some g -> gate_ok g /\ queue_ok p g (tr ++ [(i, e)])) ->
  (forall p r, repository_of app' p = Some r -> reachable (refs r)) -> app_inv app' (tr ++ map (pair i) [e]).
Proof.
  intros [Ip Ih I1 I2 I3 I4 I5] Es Eg Hg Hr. split; rewrite ?Es; try done.
  - apply (permit_inv_shrink (security app)); try done. intros e' ->%list_elem_of_singleton. by destruct e.
  - rewrite published_app. destruct e; try done; by rewrite app_nil_r.
  - intros j e' b [Hin|[= -> ->]]%elem_of_snoc Hk; [|by destruct e]. apply elem_of_snoc. left. by eapply I3.
Qed.

Lemma sok_gate i st st' app tr p slot g' e : app_inv app tr -> slots app !! p = Some slot -> gate_ok g' -> queue_ok p g' (tr ++ [(i, e)]) ->
  gate_project e = Some p -> gate_step app (set_gate p slot g' app) st [e] st' -> sok i st app tr (set_gate p slot g' app) [e] st'.
Proof.
  intros Hinv Hp Hg' Hq' Ep Hgs. split; try done.
  - intros q _. split; [done|done|done|by apply repository_set].
  - by eauto.
  - intros q s Hs. exists s. by split_and!.
  - intros q Hq. destruct Hq. by apply repository_set.
  - intros ? ->%list_elem_of_singleton. by destruct e.
  - intros e' b ->%list_elem_of_singleton. by destruct e.
  - apply (app_inv_gate app); try done; [by destruct e|..].
    + intros q g. rewrite gate_set. case_decide as E; [subst; by intros [= <-]|]. intros Hg. destruct (iv_gates _ _ Hinv q g Hg).
      split; [done|]. by apply (queue_other p).
    + intros q r. rewrite repository_set by done. apply (iv_refs _ _ Hinv).
Qed.

Lemma gate_step_set app p slot st st' e g' : slots app !! p = Some slot ->
  (let g := publication_gate slot in
   (st = Out /\ st' = Waiting p (next_ticket g) /\ [e] = [TookTicket p (next_ticket g)] /\
    g' = {| next_ticket := next_ticket g + 1; serving := serving g; occupied := occupied g |}) \/
   (st = Waiting p (serving g) /\ st' = Inside p /\ [e] = [EnteredGate p] /\ occupied g = false /\
    g' = {| next_ticket := next_ticket g; serving := serving g; occupied := true |}) \/
   (st = Inside p /\ st' = Out /\ [e] = [LeftGate p] /\
    g' = {| next_ticket := next_ticket g; serving := serving g + 1; occupied := false |})) ->
  gate_step app (set_gate p slot g' app) st [e] st'.
Proof.
  intros Hp Hcase. split.
  - intros q [g Hq]. rewrite gate_set. by case_decide.
  - right. exists p, (publication_gate slot), g'. unfold gate_of at 1. rewrite Hp, gate_set, decide_True by done. split_and!; [done|done| |done].
    intros q Hq. by rewrite gate_set, decide_False.
Qed.

Lemma gate_of_slot app p g : gate_of app p = Some g -> exists slot, slots app !! p = Some slot /\ publication_gate slot = g.
Proof. unfold gate_of. destruct (slots app !! p) as [slot|]; [|done]. intros [= <-]. by exists slot. Qed.

Lemma next_Some n m : usize_checked_add n 1 = Some m -> m = n + 1 /\ m <= usize_max.
Proof. unfold usize_checked_add. destruct (_ <=? _) eqn:E; [|done]. intros [= <-]. apply Z.leb_le in E. lia. Qed.

Lemma ok_leave_gate i {A} p (r : ares A) P : okay i (leave_gate p r) (returns Out) (Inside p) P.
Proof.
  intros app tr Hinv (g & Hg & Hocc) _. destruct (gate_of_slot _ _ _ Hg) as (slot & Hp & Eg). rewrite Hp. cbn [mbind option_bind].
  destruct (iv_gates _ _ Hinv p g Hg) as [Hok Hqueue]. pose proof Hok as (Hr & Hmax & Hlt). specialize (Hlt Hocc). rewrite Eg.
  destruct (usize_checked_add (serving g) 1) as [next|] eqn:En; cbn [mbind option_bind].
  - apply next_Some in En as [-> _]. exists Out, (fun _ _ => True). split_and!; [|apply stable_true|done|done].
    apply sok_gate; try done; [by split_and!; cbn; try lia|by apply queue_left|].
    apply gate_step_set; [done|]. cbv zeta. rewrite Eg. right. right. by split_and!.
  - unfold usize_checked_add in En. destruct (_ <=? _) eqn:E; [done|]. apply Z.leb_gt in E. lia.
Qed.

(** An assertion that the thread's own steps at a gate keep. *)
Definition quiet (i : nat) (P : assertion (S := S)) : Prop := forall app app' tr e,
  security app' = security app -> published_key e = None -> P app tr -> P app' (tr ++ map (pair i) [e]).

Lemma quiet_true i : quiet i (fun _ _ => True).
Proof. done. Qed.

Lemma quiet_holds i b : quiet i (fun _ tr => holds i b tr).
Proof. intros app app' tr e _ Ep Hh. apply holds_app; [done|]. intros e' k ->%list_elem_of_singleton. congruence. Qed.

Lemma quiet_profile i n project :
  quiet i (fun app _ => exists r, profiles (security app) !! n = Some r /\ ac_project (pr_config r) = project).
Proof. intros app app' tr e -> _. done. Qed.

(** The thread took the ticket. *)
Definition ticket_of (i : nat) (p : str) (t : Z) (tr : list (nat * event)) : Prop := took p tr !! Z.to_nat t = Some i.

Lemma stable_ticket i st p t : steady i st (fun _ tr => ticket_of i p t tr).
Proof. intros j stj stj' app tr app' events _ _ _ _ Ht. unfold ticket_of. rewrite took_app. by apply lookup_app_l_Some. Qed.

Lemma ok_wait_turn i {A} p t (body : prog S A) P : steady i Out P -> quiet i P -> okay i body (returns (Inside p)) (Inside p) P ->
  okay i (wait_turn p t body) (returns Out) (Waiting p t) (fun app tr => P app tr /\ ticket_of i p t tr).
Proof.
  intros HsP Hq Hbody app tr Hinv (g & Hg & Hrange & _) [HP Hticket]. destruct (gate_of_slot _ _ _ Hg) as (slot & Hp & Eg).
  rewrite Hp. cbn [mbind option_bind]. rewrite Eg. destruct (occupied g || negb (serving g =? t)) eqn:Ewait.
  - exists p, t, g. split_and!; [done|done|]. apply orb_true_iff in Ewait as [?|Hne]; [by left|right]. by apply negb_true_iff, Z.eqb_neq in Hne.
  - apply orb_false_iff in Ewait as [Ho Hne]. apply negb_false_iff, Z.eqb_eq in Hne. subst t.
    destruct (iv_gates _ _ Hinv p g Hg) as [Hok Hqueue]. pose proof Hok as (Hr & Hmax & Hlt).
    exists (Inside p), P. split_and!; [|by apply stable_any|by apply (Hq app)|].
    + apply sok_gate; try done; [by split_and!; cbn; try lia|by apply queue_entered|].
      apply gate_step_set; [done|]. cbv zeta. rewrite Eg. right. left. by split_and!.
    + eapply ok_and_then; [exact Hbody|]. intros r st' P' ->. apply ok_leave_gate.
Qed.

Lemma ok_enter_gate i {A} p missing (body : prog S A) P : steady i Out P -> quiet i P ->
  okay i body (returns (Inside p)) (Inside p) P -> okay i (enter_gate p missing body) (returns Out) Out P.
Proof.
  intros HsP Hq Hbody app tr Hinv _ HP. destruct (slots app !! p) as [slot|] eqn:Hp.
  - cbv beta iota zeta. destruct (usize_checked_add (next_ticket (publication_gate slot)) 1) as [next|] eqn:En.
    + set (g := publication_gate slot) in *. apply next_Some in En as [-> Hle].
      destruct (iv_gates _ _ Hinv p g) as [Hok Hqueue]; [unfold gate_of; by rewrite Hp|]. pose proof Hok as (Hr & Hmax & Hlt).
      exists (Waiting p (next_ticket g)), (fun app tr => P app tr /\ ticket_of i p (next_ticket g) tr).
      split_and!; [|by apply stable_and; [apply stable_any|apply stable_ticket]|by apply (Hq app)| |by apply ok_wait_turn].
      * apply sok_gate; try done; [by split_and!; cbn; try lia; intros ?%Hlt; lia|by apply queue_took|].
        apply gate_step_set; [done|]. left. by split_and!.
      * destruct Hqueue as [Hl _]. unfold ticket_of. cbn [map]. rewrite took_app, took_one. rewrite lookup_app_r by lia.
        replace (Z.to_nat (next_ticket g) - length (took p tr))%nat with 0%nat by lia. done.
    + exists Out, P. split_and!; [by apply sok_same|done|by rewrite app_nil_r|done].
  - exists Out, P. split_and!; [by apply sok_same|done|by rewrite app_nil_r|done].
Qed.
(** ** Permits and publications *)

Lemma ok_permits i {X A} (f : SecurityState -> ares (SecurityState * X)) (events : X -> list event) (k : X -> prog S A) Q st P :
  steady i st P -> (forall e, Q (Err e) st) ->
  (forall app tr s' x, app_inv app tr -> P app tr -> f (security app) = Ok (s', x) ->
     sec_ok st (security app) s' /\ fenced (security app) s' /\ exists e P', events x = [e] /\
       event_ok nfc json_pointer registry permit_ttl_nanos app (set_security s' app) e /\
       (stores (security app) s' (next_serial (security app)) e /\ next_serial s' = next_serial (security app) + 1 \/
        takes (security app) s' e /\ next_serial s' = next_serial (security app)) /\
       steady i st P' /\ P' (set_security s' app) (tr ++ map (pair i) [e]) /\ okay i (k x) Q st P') ->
  okay i (locked f events k) Q st P.
Proof.
  intros HsP He Hk app tr Hinv Hat HP. destruct (f (security app)) as [[s' x]|e] eqn:Ef.
  - destruct (Hk app tr s' x Hinv HP Ef) as (Hsec & Hf & e & P' & -> & Hev & Hcase & HsP' & HP' & Hok). exists st, P'.
    split_and!; [|done|done|done]. apply sok_security; [done|done|done|..].
    + intros ? ->%list_elem_of_singleton. split_and!; [..|done]; destruct Hcase as [[Hc _]|[Hc _]]; by destruct e.
    + destruct Hcase as [[Hc Hn]|[Hc Hn]]; [by apply (permit_inv_issue (security app)), Hn; [apply Hinv|]|].
      by apply (permit_inv_burn (security app)); [apply Hinv|..].
  - exists st, P. split_and!; [by apply sok_same|done|by rewrite app_nil_r|apply He].
Qed.

(** The thread that takes a permit holds it. *)
Lemma holds_taken i app tr s' e : app_inv app tr -> takes (security app) s' e -> holds i e (tr ++ map (pair i) [e]).
Proof.
  intros Hinv Ht. destruct (takes_key _ _ _ Ht) as (k & Ek & Hk & _). split; [apply elem_of_snoc; by right|]. exists k. split; [done|].
  destruct (pi_ready _ _ (iv_permits _ _ Hinv) k Hk) as [_ Hnb]. rewrite published_app.
  assert (omap published_key [e] = []) as -> by (cbn; by destruct e). rewrite app_nil_r.
  intros Hp. apply list_elem_of_omap in Hp as ([j e'] & Hin & Ek'). destruct (published_burn e' k Ek') as [b Eb]. apply Hnb.
  pose proof (iv_published _ _ Hinv j e' b Hin Eb) as Hb. destruct (owner_burn tr j e' b k Eb Ek' Hb) as (b' & Hb' & Ekb).
  apply list_elem_of_omap. by exists (j, b').
Qed.

Lemma gate_set_repository app p (slot : ProjectSlot S) r q : slots app !! p = Some slot ->
  gate_of (set_slot p {| repository := r; publication_gate := publication_gate slot |} app) q = gate_of app q.
Proof.
  intros Hp. unfold gate_of, set_slot. cbn. destruct (decide (q = p)) as [->|Hne]; [by rewrite lookup_insert_eq, Hp|by rewrite lookup_insert_ne].
Qed.

Lemma repository_set_repository app p (slot : ProjectSlot S) r q :
  repository_of (set_slot p {| repository := r; publication_gate := publication_gate slot |} app) q
    = if decide (q = p) then Some r else repository_of app q.
Proof.
  unfold repository_of, set_slot. cbn. case_decide as E; [subst; by rewrite lookup_insert_eq|by rewrite lookup_insert_ne].
Qed.

Lemma NoDup_snoc {A} (l : list A) x : NoDup l -> x ∉ l -> NoDup (l ++ [x]).
Proof. intros Hl Hx. apply NoDup_app. split_and!; [done| |apply NoDup_singleton]. by intros y Hy ->%list_elem_of_singleton. Qed.

Lemma sok_publish i app tr p slot r e b : app_inv app tr -> slots app !! p = Some slot -> reachable (refs r) ->
  burn_of e = Some b -> holds i b tr -> moves e = Some p ->
  let app' := set_slot p {| repository := r; publication_gate := publication_gate slot |} app in
  event_ok nfc json_pointer registry permit_ttl_nanos app app' e -> sok i (Inside p) app tr app' [e] (Inside p).
Proof.
  intros Hinv Hp Hr Eb (Hb & k & Ek & Hnp) Em app' Hev.
  assert (published_key e = Some k) as Epk by (destruct e; try done; cbn in *; by simplify_eq).
  assert (forall q, q <> p -> repository_of app' q = repository_of app q) as Hother.
  { intros q Hq. subst app'. by rewrite repository_set_repository, decide_False. }
  split.
  - intros q Hq. split; try done. apply Hother. congruence.
  - by eauto.
  - intros q s Hs. exists s. by split_and!.
  - apply fenced_refl.
  - apply gate_step_same; [intros q; by apply gate_set_repository|]. intros ? ->%list_elem_of_singleton. by destruct e.
  - intros q Hq. destruct (decide (q = p)) as [->|Hne]; [|by destruct Hq; apply Hother]. exists e. split; [by left|done].
  - by intros ? ->%list_elem_of_singleton.
  - intros e' b' ->%list_elem_of_singleton. rewrite Eb. by intros [= <-].
  - destruct Hinv as [Ip Ih I1 I2 I3 I4 I5]. split; try done.
    + apply (permit_inv_shrink (security app)); try done. intros ? ->%list_elem_of_singleton. by destruct e.
    + rewrite published_app. cbn. rewrite Epk. by apply NoDup_snoc.
    + intros j e' b' [Hin|[= -> ->]]%elem_of_snoc Hk; apply elem_of_snoc; left; [by eapply I3|]. by rewrite Eb in Hk; injection Hk as <-.
    + intros q g. subst app'. rewrite gate_set_repository by done. intros [? ?]%I4. split; [done|]. apply queue_quiet; [|done].
      intros ? ->%list_elem_of_singleton. by destruct e.
    + intros q x. subst app'. rewrite repository_set_repository. case_decide; [by intros [= <-]|apply I5].
Qed.

Lemma ok_publish i {X A} p (f : Repository S -> Repository S * ares X) (event : X -> event) (k : X -> prog S A) Q P :
  steady i (Inside p) P -> (forall e, Q (Err e) (Inside p)) -> (forall x, okay i (k x) Q (Inside p) (fun _ _ => True)) ->
  (forall app tr slot r' answer, P app tr -> slots app !! p = Some slot -> reachable (refs (repository slot)) -> f (repository slot) = (r', answer) ->
     match answer with
     | Err _ => r' = repository slot
     | Ok x => exists b, burn_of (event x) = Some b /\ holds i b tr /\ moves (event x) = Some p /\ reachable (refs r') /\
         event_ok nfc json_pointer registry permit_ttl_nanos app
           (set_slot p {| repository := r'; publication_gate := publication_gate slot |} app) (event x)
     end) ->
  okay i (in_repository p f (fun x => [event x]) k) Q (Inside p) P.
Proof.
  intros HsP He Hk Hf app tr Hinv (g & Hg & _) HP. destruct (gate_of_slot _ _ _ Hg) as (slot & Hp & Eg). rewrite Hp. cbn [mbind option_bind].
  assert (reachable (refs (repository slot))) as Hr by (apply (iv_refs _ _ Hinv p); unfold repository_of; by rewrite Hp).
  destruct (f (repository slot)) as [r' answer] eqn:Ef. specialize (Hf app tr slot r' answer HP Hp Hr Ef). destruct answer as [x|e].
  - destruct Hf as (b & Eb & Hh & Em & Hr' & Hev). exists (Inside p), (fun _ _ => True).
    split_and!; [by eapply sok_publish|apply stable_true|done|apply Hk].
  - subst r'. exists (Inside p), P. rewrite set_slot_same by (by destruct slot).
    split_and!; [by apply sok_same|done|by rewrite app_nil_r|apply He].
Qed.
End Rules.

(** ** The application boundary: every operation satisfies the thread logic *)

(** ** Critical sections *)

Lemma next_epoch_Ok n m : next_epoch n = Ok m -> m = n + 1.
Proof. unfold next_epoch. intros Hn%ok_or_Ok. by apply next_Some in Hn as [? _]. Qed.

Lemma allocate_Ok s s' serial : allocate_serial s = Ok (s', serial) -> s' = set_next_serial (next_serial s + 1) s /\ serial = next_serial s.
Proof. unfold allocate_serial. intros Hs. apply bind_Ok in Hs as (n & Hn%ok_or_Ok & [= <- <-]). by apply next_Some in Hn as [-> _]. Qed.

(** [sec_ok] of one field's update: the clauses on the other fields. *)
Ltac sec_rest := intros;
  match goal with
  | |- exists r', _ !! _ = Some r' /\ ac_project _ = ac_project _ => by eauto
  | Ha : projects _ !! _ = Some ?a |- exists _, _ => exists a; by split_and!
  | |- _ \/ _ => by left
  end.

(** Only the entry of one project changes, and its epoch grows. *)
Lemma sec_ok_project p s a a' : projects s !! p = Some a -> sec_epoch a < sec_epoch a' ->
  sec_ok (Inside p) s (set_projects (<[p := a']> (projects s)) s).
Proof.
  intros Ha Hlt. split; try done; try (sec_rest; fail).
  - intros q Hq. cbn. rewrite lookup_insert_ne; [done|]. congruence.
  - intros q b Hb. cbn. destruct (decide (q = p)) as [->|Hne].
    + rewrite lookup_insert_eq. rewrite Ha in Hb. injection Hb as <-. exists a'. split_and!; [done|lia|lia].
    + rewrite lookup_insert_ne by done. exists b. by split_and!.
Qed.

(** A profile of the project inside whose gate the thread is changes. *)
Lemma sec_ok_profile p s n r r' : profiles s !! n = Some r -> ac_project (pr_config r) = p -> ac_project (pr_config r') = p ->
  sec_ok (Inside p) s (set_profiles (<[n := r']> (profiles s)) s).
Proof.
  intros Hr Hp Hp'. split; try done; try (sec_rest; fail).
  - intros q m x Hq Hx Hxp. cbn. rewrite lookup_insert_ne; [done|]. intros ->. rewrite Hr in Hx. injection Hx as <-. congruence.
  - intros m x Hx. cbn. destruct (decide (m = n)) as [->|Hne].
    + rewrite lookup_insert_eq. exists r'. split; [done|]. rewrite Hr in Hx. injection Hx as <-. congruence.
    + rewrite lookup_insert_ne by done. by exists x.
  - intros m. cbn. destruct (decide (m = n)) as [->|Hne]; [left; by rewrite Hr|]. rewrite lookup_insert_ne by done. by left.
Qed.

Lemma sec_ok_human p s n r r' : human_profiles s !! n = Some r -> hc_project (hr_config r) = p ->
  sec_ok (Inside p) s (set_human_profiles (<[n := r']> (human_profiles s)) s).
Proof.
  intros Hr Hp. split; try done; try (sec_rest; fail).
  - intros q m x Hq Hx Hxp. cbn. rewrite lookup_insert_ne; [done|]. intros ->. rewrite Hr in Hx. injection Hx as <-. congruence.
  - intros m. cbn. destruct (decide (m = n)) as [->|Hne]; [left; by rewrite Hr|]. rewrite lookup_insert_ne by done. by left.
Qed.

#[export] Instance sec_ok_preorder st : PreOrder (sec_ok st).
Proof.
  split; [intros s; apply sec_ok_refl|]. intros s1 s2 s3 [A1 A2 A3 A4 A5 A6 A8 A9] [B1 B2 B3 B4 B5 B6 B8 B9]. split.
  - intros p Hp. by rewrite B1, A1.
  - intros p n r Hp Hr E. by eapply B2; [| |exact E]; [|eapply A2].
  - intros p n r Hp Hr E. by eapply B3; [| |exact E]; [|eapply A3].
  - intros n r Hr. destruct (A4 n r Hr) as (r' & Hr' & E). destruct (B4 n r' Hr') as (r'' & Hr'' & E'). exists r''. split; [done|congruence].
  - intros p a Ha. destruct (A5 p a Ha) as (a' & Ha' & Hle & Heq). destruct (B5 p a' Ha') as (a'' & Ha'' & Hle' & Heq').
    exists a''. split_and!; [done|lia|]. intros E. rewrite Heq' by lia. apply Heq. lia.
  - lia.
  - intros n [Hk|Hk]%B8; [apply A8 in Hk as [?|?]; [by left|right; lia]|right; lia].
  - intros n [Hk|Hk]%B9; [apply A9 in Hk as [?|?]; [by left|right; lia]|right; lia].
Qed.

(** Registrations are not protected. *)
Lemma sec_ok_registrations st s v : sec_ok st s (set_registrations v s).
Proof. split; try done; sec_rest. Qed.

Lemma sec_ok_human_registrations st s v : sec_ok st s (set_human_registrations v s).
Proof. split; try done; sec_rest. Qed.

(** A fresh serial, and what may be stored under it. *)
Lemma sec_ok_serial st s : sec_ok st s (set_next_serial (next_serial s + 1) s).
Proof. split; try done; try (sec_rest; fail). cbn. lia. Qed.

Lemma sec_ok_add_profile st s r : (forall n, is_Some (profiles s !! n) -> n < next_serial s) ->
  sec_ok st s (set_profiles (<[next_serial s := r]> (profiles s)) (set_next_serial (next_serial s + 1) s)).
Proof.
  intros Hn. assert (forall m x, profiles s !! m = Some x -> m <> next_serial s) as Hne.
  { intros m x Hx ->. specialize (Hn (next_serial s) ltac:(by eexists)). lia. }
  split; try done; try (sec_rest; fail).
  - intros p m x _ Hx _. cbn. rewrite lookup_insert_ne; [done|]. intros E. by destruct (Hne m x Hx).
  - intros m x Hx. cbn. exists x. rewrite lookup_insert_ne; [done|]. intros E. by destruct (Hne m x Hx).
  - cbn. lia.
  - intros m. cbn. destruct (decide (m = next_serial s)) as [->|Hm]; [right; lia|]. rewrite lookup_insert_ne by done. by left.
Qed.

Lemma sec_ok_add_human st s r : (forall n, is_Some (human_profiles s !! n) -> n < next_serial s) ->
  sec_ok st s (set_human_profiles (<[next_serial s := r]> (human_profiles s)) (set_next_serial (next_serial s + 1) s)).
Proof.
  intros Hn. assert (forall m x, human_profiles s !! m = Some x -> m <> next_serial s) as Hne.
  { intros m x Hx ->. specialize (Hn (next_serial s) ltac:(by eexists)). lia. }
  split; try done; try (sec_rest; fail).
  - intros p m x _ Hx _. cbn. rewrite lookup_insert_ne; [done|]. intros E. by destruct (Hne m x Hx).
  - cbn. lia.
  - intros m. cbn. destruct (decide (m = next_serial s)) as [->|Hm]; [right; lia|]. rewrite lookup_insert_ne by done. by left.
Qed.

(** Permits are not protected either: the thread that burns one owns it. *)
Lemma sec_ok_permits st s v : sec_ok st s (set_permits v s).
Proof. split; try done; sec_rest. Qed.

Lemma sec_ok_human_permits st s v : sec_ok st s (set_human_permits v s).
Proof. split; try done; sec_rest. Qed.

Ltac sec_inv :=
  repeat (result_inv;
    match goal with
    | H : found _ _ _ = Ok _ |- _ => apply found_Ok in H as [? ?]
    | H : next_epoch _ = Ok _ |- _ => apply next_epoch_Ok in H
    | H : allocate_serial _ = Ok (_, _) |- _ => apply allocate_Ok in H as [-> ->]
    | H : allocate_serial _ = Ok ?x |- _ => is_var x; destruct x
    | H : (if ?b then _ else _) = Ok _ |- _ => destruct b eqn:?
    end); result_inv.

(** The last update of a sequence. *)
Ltac sec_last L := match goal with |- sec_ok _ _ (_ _ ?t) => etrans; [|eapply (L _ t)] end.

(** A block that stores and removes no permit. *)
Definition sec_quiet (st : status) (s s' : SecurityState) : Prop :=
  sec_ok st s s' /\ fenced s s' /\ permits s' = permits s /\ human_permits s' = human_permits s.

Lemma sec_quiet_refl st s : sec_quiet st s s.
Proof. by split_and!; [apply sec_ok_refl|apply fenced_refl|..]. Qed.

Lemma same_authority_of st s s' p : sec_ok st s s' -> st <> Inside p -> same_authority s s' p.
Proof. intros [H1 H2 H3 _ _ _ _ _] Hp. split; eauto. Qed.

(** A block that any thread may run changes no authority. *)
Lemma sec_quiet_out st s s' : (forall st, sec_ok st s s') -> permits s' = permits s -> human_permits s' = human_permits s -> sec_quiet st s s'.
Proof. intros Hs Hp Hh. split_and!; [done| |done|done]. intros p a a' _ _ _. by apply (same_authority_of Out). Qed.

Lemma fenced_out s s' : (forall st, sec_ok st s s') -> fenced s s'.
Proof. intros Hs p a a' _ _ _. by apply (same_authority_of Out). Qed.

(** One that runs inside the gate moves the epoch of the project. *)
Lemma sec_quiet_inside p s s' a a' : sec_ok (Inside p) s s' -> projects s !! p = Some a -> projects s' !! p = Some a' ->
  sec_epoch a < sec_epoch a' -> permits s' = permits s -> human_permits s' = human_permits s -> sec_quiet (Inside p) s s'.
Proof.
  intros Hs Ha Ha' Hlt Hp Hh. split_and!; [done| |done|done]. intros q b b' Hb Hb' E. apply (same_authority_of (Inside p)); [done|].
  intros [= ->]. simplify_eq. lia.
Qed.

Lemma grant_access_ok project actor s s' x : grant_access project actor s = Ok (s', x) -> sec_quiet (Inside project) s s'.
Proof.
  unfold grant_access. intros Hg. sec_inv; [apply sec_quiet_refl|]. eapply sec_quiet_inside; [|done|apply lookup_insert_eq|cbn; lia|done|done].
  eapply sec_ok_project; [done|]. cbn. lia.
Qed.

Lemma revoke_access_ok project actor s s' x : revoke_access project actor s = Ok (s', x) -> sec_quiet (Inside project) s s'.
Proof.
  unfold revoke_access. intros Hg. sec_inv; [|apply sec_quiet_refl]. eapply sec_quiet_inside; [|done|apply lookup_insert_eq|cbn; lia|done|done].
  eapply sec_ok_project; [done|]. cbn. lia.
Qed.

Lemma add_profile_ok st config s s' x : (forall n, is_Some (profiles s !! n) -> n < next_serial s) ->
  add_profile config s = Ok (s', x) -> sec_quiet st s s'.
Proof. unfold add_profile. intros Hn Hg. sec_inv. apply sec_quiet_out; [|done|done]. intros st'. by apply (sec_ok_add_profile st' s). Qed.

Lemma replace_profile_ok handle replacement s s' x r : profiles s !! h_serial handle = Some r ->
  ac_project (pr_config r) = ac_project replacement -> replace_profile handle replacement s = Ok (s', x) ->
  sec_quiet (Inside (ac_project replacement)) s s'.
Proof.
  unfold replace_profile. intros Hr Hp Hg. sec_inv. eapply sec_quiet_inside; [|done|apply lookup_insert_eq|cbn; lia|done|done].
  sec_last sec_ok_profile; [|done..]. eapply sec_ok_project; [done|cbn; lia].
Qed.

Lemma suspend_profile_ok handle suspended s s' x r : profiles s !! h_serial handle = Some r ->
  ac_project (pr_config r) = h_project handle -> suspend_profile handle suspended s = Ok (s', x) ->
  sec_quiet (Inside (h_project handle)) s s'.
Proof.
  unfold suspend_profile. intros Hr Hp Hg. sec_inv; [apply sec_quiet_refl|]. eapply sec_quiet_inside; [|done|apply lookup_insert_eq|cbn in *; simplify_eq; lia|done|done].
  sec_last sec_ok_project; [|done|cbn; lia]. eapply sec_ok_profile; [done|done|]. cbn. by simplify_eq.
Qed.

Lemma add_registration_ok st handle profile head s s' x : add_registration handle profile head s = Ok (s', x) -> sec_quiet st s s'.
Proof. unfold add_registration. intros Hg. sec_inv. apply sec_quiet_out; [|done|done]. intros st'. etrans; [apply sec_ok_serial|apply sec_ok_registrations]. Qed.

Lemma add_human_profile_ok st config s s' x : (forall n, is_Some (human_profiles s !! n) -> n < next_serial s) ->
  add_human_profile config s = Ok (s', x) -> sec_quiet st s s'.
Proof. unfold add_human_profile. intros Hn Hg. sec_inv. apply sec_quiet_out; [|done|done]. intros st'. by apply (sec_ok_add_human st' s). Qed.

Lemma replace_human_ok handle replacement s s' x : hc_project replacement = h_project handle ->
  replace_human handle replacement s = Ok (s', x) -> sec_quiet (Inside (h_project handle)) s s'.
Proof.
  unfold replace_human, own_human_profile. intros Hp Hg. rewrite Hp in Hg. sec_inv. eapply sec_quiet_inside; [|done|apply lookup_insert_eq|cbn in *; simplify_eq; lia|done|done].
  sec_last sec_ok_project; [|done|cbn in *; simplify_eq; lia]. eapply sec_ok_human; [done|by apply str_eqb_eq].
Qed.

Lemma suspend_human_ok handle suspended s s' x : suspend_human handle suspended s = Ok (s', x) -> sec_quiet (Inside (h_project handle)) s s'.
Proof.
  unfold suspend_human, own_human_profile. intros Hg. sec_inv; [apply sec_quiet_refl|]. eapply sec_quiet_inside; [|done|apply lookup_insert_eq|cbn in *; simplify_eq; lia|done|done].
  sec_last sec_ok_project; [|done|cbn; lia]. eapply sec_ok_human; [done|by apply str_eqb_eq].
Qed.

Lemma add_human_registration_ok st handle project ref record s s' x : add_human_registration handle project ref record s = Ok (s', x) ->
  sec_quiet st s s'.
Proof.
  unfold add_human_registration, same_human_profile. intros Hg. sec_inv. apply sec_quiet_out; [|done|done].
  intros st'. etrans; [apply sec_ok_serial|apply sec_ok_human_registrations].
Qed.

(** ** Sections that issue and burn *)

Lemma issue_permit_ok st session project execution epoch registration not_after preflight s s' n :
  issue_permit session project execution epoch registration not_after preflight s = Ok (s', n) ->
  sec_ok st s s' /\ stores s s' (next_serial s) (AiIssued n (permit_record session project execution epoch registration not_after preflight)) /\
  next_serial s' = next_serial s + 1.
Proof.
  unfold issue_permit. intros Hg. sec_inv. split; [|done].
  etrans; [apply sec_ok_serial|]. etrans; [apply sec_ok_registrations|apply sec_ok_permits].
Qed.

Lemma issue_human_permit_ok st session project handle epoch registration issued_at not_after s s' n :
  issue_human_permit session project handle epoch registration issued_at not_after s = Ok (s', n) ->
  sec_ok st s s' /\ stores s s' (next_serial s) (HumanIssued n (human_permit_record session project epoch registration issued_at not_after)) /\
  next_serial s' = next_serial s + 1.
Proof.
  unfold issue_human_permit, human_profile_for. intros Hg. sec_inv. split; [|done].
  etrans; [apply sec_ok_serial|]. etrans; [apply sec_ok_human_registrations|apply sec_ok_human_permits].
Qed.

Lemma take_permit_ok st n s s' r : take_permit n s = Ok (s', r) -> sec_ok st s s' /\ takes s s' (AiBurned n r) /\ next_serial s' = next_serial s.
Proof. unfold take_permit. intros Hg. sec_inv. split; [apply sec_ok_permits|]. by split. Qed.

Lemma take_human_permit_ok st n s s' r : take_human_permit n s = Ok (s', r) ->
  sec_ok st s s' /\ takes s s' (HumanBurned n r) /\ next_serial s' = next_serial s.
Proof. unfold take_human_permit. intros Hg. sec_inv. split; [apply sec_ok_human_permits|]. by split. Qed.
