(* ===== verification/AppOperations.v ===== *)
(** * The application boundary: every operation satisfies the thread logic

    Each operation of [AppPrograms] is [ok] from the start: [start_ok] is what AppLogic needs
    to carry its results to every run. *)

From stdpp Require Import base list numbers strings gmap sets relations.
From Stdlib Require Import ZArith Lia.
From S2P Require Import Prelude Text RefStore RefStoreProps Canonical Registry ObjectStore Repository Policy Authorization HumanDecision.
From S2P Require Import AuthorizationProps HumanDecisionProps AppState AppPrograms AppLogic AppRules.

#[local] Open Scope Z_scope.

Section Operations.
Context {S : Type} `{BoundedObjectStore S}.
Variable nfc : list char -> list char.
Variable json_pointer : Json -> str -> option (list nat).
Variable registry : SchemaRegistry.
Variable instance : Z.
Variable permit_ttl_nanos : Z.
Implicit Types app : App S.
Abbreviation steady := (stable nfc json_pointer registry permit_ttl_nanos).
Abbreviation okay := (ok nfc json_pointer registry permit_ttl_nanos).
Abbreviation idle := (fun (_ : App S) (_ : list (nat * event)) => True).

(** A block on the security state, from inside the gate. *)
Lemma ok_section i {X A} p (f : SecurityState -> ares (SecurityState * X)) (g : X -> ares A) P : steady i (Inside p) P ->
  (forall app tr s' x, app_inv app tr -> P app tr -> f (security app) = Ok (s', x) -> sec_quiet (Inside p) (security app) s') ->
  okay i (locked f silent (fun x => Done (g x))) (returns (Inside p)) (Inside p) P.
Proof.
  intros HsP Hf. apply ok_locked; [done|done|]. intros app tr s' x Hinv HP Ef. destruct (Hf _ _ _ _ Hinv HP Ef) as (? & ? & ? & ?). by split_and!.
Qed.

(** An operation that is one such block. *)
Lemma ok_gated i {X A} p e (f : SecurityState -> ares (SecurityState * X)) (g : X -> ares A) P : steady i Out P -> quiet i P ->
  (forall app tr s' x, app_inv app tr -> P app tr -> f (security app) = Ok (s', x) -> sec_quiet (Inside p) (security app) s') ->
  okay i (enter_gate p e (locked f silent (fun x => Done (g x)))) (returns Out) Out P.
Proof. intros HsP Hq Hf. apply ok_enter_gate; [done|done|]. apply ok_section; [by apply stable_any|done]. Qed.

Lemma ok_ensure i {A} (b : bool) e (c : prog S A) st P : okay i c (returns st) st P -> okay i (ensure b else e; c) (returns st) st P.
Proof. by destruct b. Qed.

Lemma ok_try_out i {X A} (r : ares X) (k : X -> prog S A) st P :
  (forall x, r = Ok x -> okay i (k x) (returns st) st P) -> okay i (try r k) (returns st) st P.
Proof. by apply ok_try. Qed.

(** ** Access and profiles *)

Lemma grant_project_access_ok i project actor : okay i (grant_project_access project actor) (returns Out) Out idle.
Proof. apply ok_ensure, ok_gated; [done|done|]. intros *; eauto using grant_access_ok. Qed.

Lemma revoke_project_access_ok i project actor : okay i (revoke_project_access project actor) (returns Out) Out idle.
Proof. apply ok_gated; [done|done|]. intros *; eauto using revoke_access_ok. Qed.

Lemma register_authority_profile_ok i config : okay i (register_authority_profile instance config) (returns Out) Out idle.
Proof.
  apply ok_try_out. intros _ _. apply ok_gated; [done|done|]. intros app tr s' x Hinv _ Hf. eapply add_profile_ok, Hf. apply (iv_profiles _ _ Hinv).
Qed.

(** The profile of a genuine handle, which only ever changes within its project. *)
Definition own (handle : Handle) app (_ : list (nat * event)) : Prop :=
  h_instance handle = instance ->
  exists r, profiles (security app) !! h_serial handle = Some r /\ ac_project (pr_config r) = h_project handle.

Lemma stable_own i handle : steady i Out (own handle).
Proof.
  intros j stj stj' app tr app' events Hj Hc Hinv Hs HP Hi.
  by apply (stable_profile nfc json_pointer registry permit_ttl_nanos i Out _ _ j stj stj' app tr app' events), HP.
Qed.

Lemma quiet_own i handle : quiet i (own handle).
Proof. intros app app' tr e Es Ep HP Hi. rewrite Es. by apply HP. Qed.

Lemma replace_authority_profile_ok i handle replacement :
  okay i (replace_authority_profile instance handle replacement) (returns Out) Out (own handle).
Proof.
  apply ok_try_out. intros _ _. destruct (_ && _) eqn:E; [|done]. bool_props. apply str_eqb_eq in E.
  apply ok_gated; [apply stable_own|apply quiet_own|]. intros app tr s' x _ HP Hf. destruct (HP ltac:(done)) as (r & Hr & Hp).
  eapply replace_profile_ok; [done| |done]. congruence.
Qed.

Lemma set_authority_profile_suspended_ok i handle suspended :
  okay i (set_authority_profile_suspended instance handle suspended) (returns Out) Out (own handle).
Proof.
  unfold set_authority_profile_suspended. destruct (_ =? _) eqn:E; [|done]. bool_props.
  apply ok_gated; [apply stable_own|apply quiet_own|]. intros app tr s' x _ HP Hf. destruct (HP ltac:(done)) as (r & Hr & Hp).
  by eapply suspend_profile_ok.
Qed.

Lemma register_human_profile_ok i config : okay i (register_human_profile instance config) (returns Out) Out idle.
Proof.
  apply ok_try_out. intros _ _. apply ok_gated; [done|done|]. intros app tr s' x Hinv _ Hf. eapply add_human_profile_ok, Hf. apply (iv_humans _ _ Hinv).
Qed.

Lemma replace_human_profile_ok i handle replacement : okay i (replace_human_profile instance handle replacement) (returns Out) Out idle.
Proof.
  apply ok_try_out. intros _ _. destruct (_ && _) eqn:E; [|done]. bool_props. apply str_eqb_eq in E. rewrite <- E.
  apply ok_gated; [done|done|]. intros app tr s' x _ _ Hf. eapply replace_human_ok; [by rewrite <- E|done].
Qed.

Lemma set_human_profile_suspended_ok i handle suspended :
  okay i (set_human_profile_suspended instance handle suspended) (returns Out) Out idle.
Proof. apply ok_ensure, ok_gated; [done|done|]. intros *; eauto using suspend_human_ok. Qed.

(** ** Registrations *)

(** A read whose result the rest of the operation does not rely on. *)
Lemma ok_read i {X A} p (f : SecurityState -> ares X) (k : X -> prog S A) :
  (forall x, okay i (k x) (returns (Inside p)) (Inside p) idle) -> okay i (reading f k) (returns (Inside p)) (Inside p) idle.
Proof. intros Hk. apply ok_reading; [done|done|]. intros app tr x _ _. exists idle. split_and!; [done|done|apply Hk]. Qed.

Lemma ok_read_repository i {X A} p (f : Repository S -> ares X) (k : X -> prog S A) :
  (forall x, okay i (k x) (returns (Inside p)) (Inside p) idle) ->
  okay i (reading_repository p f k) (returns (Inside p)) (Inside p) idle.
Proof. intros Hk. apply ok_reading_repository; [done|done|]. intros app tr r x _ _ _. exists idle. split_and!; [done|done|apply Hk]. Qed.

Lemma register_execution_ok i handle : okay i (register_execution instance handle) (returns Out) Out idle.
Proof.
  apply ok_ensure, ok_enter_gate; [done|done|]. apply ok_read. intros profile. apply ok_read_repository. intros head.
  apply ok_section; [done|]. intros *; eauto using add_registration_ok.
Qed.

Lemma register_human_decision_ok i handle admitted candidate :
  okay i (register_human_decision instance handle admitted candidate) (returns Out) Out idle.
Proof.
  apply ok_try_out. intros _ _. apply ok_ensure, ok_enter_gate; [done|done|]. apply ok_read. intros profile. apply ok_read_repository. intros head.
  apply ok_section; [done|]. intros *; eauto using add_human_registration_ok.
Qed.

Lemma recovered_ok i {A} handle binding (k : HumanAuthorityProfileRecord -> prog S A) :
  (forall profile, okay i (k profile) (returns (Inside (db_project binding))) (Inside (db_project binding)) idle) ->
  okay i (recovered instance handle binding k) (returns Out) Out idle.
Proof.
  intros Hk. apply ok_try_out. intros _ _. apply ok_ensure, ok_enter_gate; [done|done|]. apply ok_read. intros profile. apply ok_read_repository. auto.
Qed.

Lemma verify_recovered_ok i handle binding :
  okay i (verify_recovered_human_decision_binding instance handle binding) (returns Out) Out idle.
Proof. apply recovered_ok. intros profile. by apply ok_read. Qed.

Lemma register_recovered_ok i handle binding candidate :
  okay i (register_recovered_human_decision instance handle binding candidate) (returns Out) Out idle.
Proof.
  apply ok_try_out. intros _ _. apply recovered_ok. intros profile. apply ok_section; [done|]. intros *; eauto using add_human_registration_ok.
Qed.
(** ** Permits *)

Lemma permit_window_Ok preflight not_after : permit_window permit_ttl_nanos preflight = Ok not_after ->
  not_after = Z.min (pd_evaluated_at preflight + permit_ttl_nanos) (pd_grant_expires_at preflight) /\ pd_evaluated_at preflight < not_after.
Proof. unfold permit_window, i128_checked_add. intros Hw. sec_inv. destruct (in_i128 _); [|done]. simplify_eq. bool_props. split; [done|lia]. Qed.

(** What [prepare_ai] knows when it issues the permit. *)
Definition prepared project profile_serial (profile : AuthorityProfileRecord) expected_head now preflight app (_ : list (nat * event)) : Prop :=
  ac_project (pr_config profile) = project /\ profiles (security app) !! profile_serial = Some profile /\
  exists r, repository_of app project = Some r /\ preflight_in nfc json_pointer registry (pr_config profile) expected_head now r = Ok preflight.

Lemma stable_prepared i project n profile head now preflight : steady i (Inside project) (prepared project n profile head now preflight).
Proof.
  apply stable_inside. intros app app' tr tr' [_ Hp _ Hr] (Ep & Hprof & r & Er & Hpre). split_and!; [done|by apply Hp|]. exists r. by rewrite Hr.
Qed.

Lemma issue_permit_issued session project execution epoch registration not_after preflight app s' n profile head now :
  issue_permit session project execution epoch registration not_after preflight (security app) = Ok (s', n) ->
  prepared project (er_profile_serial registration) profile head now preflight app [] ->
  permit_window permit_ttl_nanos preflight = Ok not_after ->
  ai_issued nfc json_pointer registry permit_ttl_nanos app (permit_record session project execution epoch registration not_after preflight).
Proof.
  intros Hi (Ep & Hprof & r & Hr & Hpre) [Ena Hlt]%permit_window_Ok. apply map_err_Ok in Hpre. unfold issue_permit in Hi.
  apply bind_Ok in Hi as (sec & Hsec & Hi). apply bind_Ok in Hi as (reg & _ & Hi). apply bind_Ok in Hi as (live & Hlive & _).
  exists r, profile, head, now. split_and!; try done. apply found_Ok in Hlive as [Hl Hk]. rewrite Hprof in Hl. injection Hl as <-.
  unfold validate_live_permit. cbn [pt_project pt_security_epoch pt_profile_serial pt_profile_generation permit_record ss_actor_id].
  apply found_Ok in Hsec. rewrite (proj2 (found_Ok _ _ _ sec)) by exact Hsec. cbn [mbind result_bind].
  rewrite (proj2 (found_Ok _ _ _ profile)); [done|]. split; [done|]. bool_props. rewrite Ep, str_eqb_refl. cbn.
  rewrite H1, H2, Hk. cbn. by rewrite Z.eqb_refl.
Qed.

Lemma prepare_ai_ok i answer project execution now :
  okay i (prepare_ai nfc json_pointer registry instance permit_ttl_nanos answer project execution now) (returns Out) Out idle.
Proof.
  apply ok_try_out. intros session _. apply ok_enter_gate; [done|done|].
  apply ok_reading; [done|done|]. intros app tr [[epoch registration] profile] _ Hread.
  exists (fun app tr => ac_project (pr_config profile) = project /\ profiles (security app) !! er_profile_serial registration = Some profile).
  assert (steady i (Inside project) (fun app _ =>
    ac_project (pr_config profile) = project /\ profiles (security app) !! er_profile_serial registration = Some profile)) as Hst.
  { apply stable_inside. intros a a' t t' [_ Hp _ _] [Ep Hprof]. split; [done|by apply Hp]. }
  split_and!; [done|..].
  1-2: unfold read_execution in Hread; sec_inv; bool_props; first [done|by apply str_eqb_eq].
  apply ok_reading_repository; [done|done|]. clear app tr Hread. intros app tr r preflight [Ep Hprof] Hr Hpre.
  exists (prepared project (er_profile_serial registration) profile (er_expected_target_head registration) now preflight).
  split_and!; [apply stable_prepared|split_and!; [done..|by exists r]|]. apply ok_ensure, ok_try_out. intros not_after Hwin.
  apply ok_permits; [apply stable_prepared|done|]. clear app tr Ep Hprof r Hr Hpre. intros app tr s' n Hinv Hprep Hi.
  destruct (issue_permit_ok (Inside project) _ _ _ _ _ _ _ _ _ _ Hi) as (Hsec & Hstores & Hn). split; [done|]. split; [apply fenced_out; intros st; apply (issue_permit_ok st _ _ _ _ _ _ _ _ _ _ Hi)|].
  eexists _, idle. split_and!; [done| |by left|done|done|done]. by eapply issue_permit_issued.
Qed.
Lemma human_window_Ok reading window : human_window permit_ttl_nanos reading = Ok window ->
  window.2 = window.1 + permit_ttl_nanos /\ window.1 < window.2.
Proof. unfold human_window, i128_checked_add. intros Hw. sec_inv. destruct (in_i128 _); [|done]. simplify_eq. bool_props. split; [done|cbn; lia]. Qed.

Lemma issue_human_permit_issued session project handle epoch registration window app s' n :
  issue_human_permit session project handle epoch registration window.1 window.2 (security app) = Ok (s', n) ->
  window.2 = window.1 + permit_ttl_nanos -> window.1 < window.2 ->
  human_issued permit_ttl_nanos app (human_permit_record session project epoch registration window.1 window.2).
Proof.
  intros Hi Ew Hlt. unfold issue_human_permit in Hi. apply bind_Ok in Hi as (sec & Hsec & Hi). apply bind_Ok in Hi as (reg & _ & Hi).
  apply bind_Ok in Hi as (live & Hlive & _). split_and!; [|done|done]. unfold validate_live_human_permit.
  cbn [hp_project hp_security_epoch hp_profile_serial hp_profile_generation human_permit_record ss_actor_id].
  apply found_Ok in Hsec. rewrite (proj2 (found_Ok _ _ _ sec)) by exact Hsec. cbn [mbind result_bind].
  apply found_Ok in Hlive. by rewrite (proj2 (found_Ok _ _ _ live)).
Qed.

Lemma prepare_human_decision_ok i answer project handle now :
  okay i (prepare_human_decision instance permit_ttl_nanos answer project handle now) (returns Out) Out idle.
Proof.
  apply ok_try_out. intros session _. apply ok_enter_gate; [done|done|].
  apply ok_reading; [done|done|]. intros app tr [epoch registration] _ _. exists idle. split_and!; [done|done|].
  apply ok_try_out. intros window [Ew Hlt]%human_window_Ok. apply ok_permits; [done|done|]. clear app tr. intros app tr s' n Hinv _ Hi.
  destruct (issue_human_permit_ok (Inside project) _ _ _ _ _ _ _ _ _ _ Hi) as (Hsec & Hstores & Hn). split; [done|]. split; [apply fenced_out; intros st; apply (issue_human_permit_ok st _ _ _ _ _ _ _ _ _ _ Hi)|].
  eexists _, idle. split_and!; [done| |by left|done|done|done]. by eapply issue_human_permit_issued.
Qed.

(** ** Publications *)

Lemma permit_time_Ok not_after floor reading now : permit_time not_after floor reading = Ok now -> floor <= now < not_after.
Proof. unfold permit_time. intros Ht. sec_inv. bool_props. lia. Qed.

(** An accepted reading of the deadline clock is one of the permit's window. *)
Lemma deadline_window floor not_after expires reading last : deadline_reading floor not_after expires reading = Some last ->
  last < expires -> floor <= last < not_after.
Proof.
  unfold deadline_reading. destruct reading as [now|]; [|done]. cbn. destruct (now <? floor) eqn:E1; [done|].
  destruct (now >=? not_after) eqn:E2; intros [= <-] Hlt; bool_props; lia.
Qed.

Lemma human_deadline_window floor not_after reading last : human_deadline_reading floor not_after reading = Some last -> floor <= last < not_after.
Proof.
  unfold human_deadline_reading. destruct reading as [now|]; [|done]. cbn. destruct (_ || _) eqn:E; [done|]. intros [= <-]. bool_props. lia.
Qed.

(** What a thread knows when it publishes: it holds the permit, which is live, and the profile
    is the one it read. *)
Definition live_ai i (serial : Z) (permit : PermitRecord) session profile app (tr : list (nat * event)) : Prop :=
  holds i (AiBurned serial permit) tr /\
  (validate_live_permit permit session (security app) = Ok tt /\ ac_project (pr_config profile) = pt_project permit /\
   profiles (security app) !! pt_profile_serial permit = Some profile).

Lemma stable_live_ai i serial permit session profile : steady i (Inside (pt_project permit)) (live_ai i serial permit session profile).
Proof.
  apply (stable_and nfc json_pointer registry permit_ttl_nanos i); [apply stable_holds|]. apply stable_inside.
  intros app app' tr tr' Hsame (Hv & Ep & Hp). split_and!; [by eapply live_permit_same|done|]. by apply (sp_profiles _ _ _ Hsame).
Qed.

Lemma live_profile_Ok permit session s profile : live_profile permit session s = Ok profile ->
  validate_live_permit permit session s = Ok tt /\ ac_project (pr_config profile) = pt_project permit /\
  profiles s !! pt_profile_serial permit = Some profile.
Proof.
  unfold live_profile. intros Hl. apply bind_Ok in Hl as ([] & Hv & Hp%ok_or_Ok). split_and!; [done| |done].
  unfold validate_live_permit in Hv. sec_inv. simplify_eq. bool_props. by apply str_eqb_eq.
Qed.

Lemma publish_ai_ok i serial permit session profile generated checked_at now tnow app tr slot r' answer :
  session = {| ss_actor_id := pt_actor_id permit; ss_session_id := pt_session_id permit |} -> pt_last_observed permit <= checked_at ->
  live_ai i serial permit session profile app tr -> slots app !! pt_project permit = Some slot -> reachable (refs (repository slot)) ->
  publish_ai nfc json_pointer registry permit profile generated checked_at now tnow (repository slot) = (r', answer) ->
  match answer with
  | Err _ => r' = repository slot
  | Ok d => reachable (refs r') /\ ai_published nfc json_pointer registry app
      (set_slot (pt_project permit) {| repository := r'; publication_gate := publication_gate slot |} app) permit session d
  end.
Proof.
  intros Hs Hle (_ & Hv & Ep & Hp) Hslot Hr. unfold publish_ai.
  destruct (publish_preflighted _ _ _ _ _ _ _ _ _) as [r2 d] eqn:Hpub. intros [= -> <-]. destruct d as [d|e]; [|by eapply preflighted_Err].
  split; [pose proof (f_equal fst Hpub) as E; cbn in E; rewrite <- E; by apply preflighted_reachable|]. destruct (preflighted_window _ _ _ _ _ _ _ _ _ _ _ Hpub) as (first & last & _ & Elast & _ & Hexp).
  eexists (repository slot), r', profile, _, _, _, last. rewrite repository_set_repository, decide_True by done.
  split_and!; try done; [by unfold repository_of; rewrite Hslot|..]; pose proof (deadline_window _ _ _ _ _ Elast Hexp); lia.
Qed.

Lemma publish_generated_ok i permit record session generated started_at second now tnow :
  session = {| ss_actor_id := pt_actor_id record; ss_session_id := pt_session_id record |} -> pt_last_observed record <= started_at ->
  okay i (publish_generated nfc json_pointer registry instance permit record session generated started_at second now tnow) (returns Out) Out
    (fun _ tr => holds i (AiBurned (pm_serial permit) record) tr).
Proof.
  intros Hs Hle. apply ok_enter_gate; [apply stable_holds|apply quiet_holds|]. apply ok_try_out. intros checked_at Hc%permit_time_Ok.
  apply ok_reading; [apply stable_holds|done|]. intros app tr profile Hh Hl%live_profile_Ok.
  exists (live_ai i (pm_serial permit) record session profile). split_and!; [apply stable_live_ai|by split|].
  apply ok_publish; [apply stable_live_ai|done|done|]. clear app tr Hh Hl. intros app tr slot r' answer Hlive Hslot Hr Hpub.
  pose proof (publish_ai_ok i (pm_serial permit) record session profile generated checked_at now tnow app tr slot r' answer Hs ltac:(lia) Hlive Hslot Hr Hpub) as Hres.
  destruct answer as [d|e]; [|done]. destruct Hres as [Hr' Hev]. eexists. split_and!; [done|apply Hlive|done|done|done].
Qed.

Lemma session_eta session actor id : ss_actor_id session = actor -> ss_session_id session = id ->
  session = {| ss_actor_id := actor; ss_session_id := id |}.
Proof. destruct session. cbn. by intros -> ->. Qed.

Lemma execute_and_publish_ai_ok i answer final first second now tnow execute permit :
  okay i (execute_and_publish_ai nfc json_pointer registry instance answer final first second now tnow execute permit) (returns Out) Out idle.
Proof.
  apply ok_try_out. intros session _. apply ok_ensure, ok_permits; [done|done|]. intros app tr s' record Hinv _ Ht.
  destruct (take_permit_ok Out _ _ _ _ Ht) as (Hsec & Htakes & Hn). split; [done|]. split; [apply fenced_out; intros st; apply (take_permit_ok st _ _ _ _ Ht)|].
  eexists _, (fun _ tr => holds i (AiBurned (pm_serial permit) record) tr).
  split_and!; [done|done|by right|apply stable_holds|by eapply holds_taken|]. clear app tr s' Hinv Ht Hsec Htakes Hn.
  destruct (_ && _) eqn:E; [|done]. bool_props. apply str_eqb_eq in H1, E. apply ok_find_slot; [apply stable_holds|done|].
  apply ok_try_out. intros started_at Hstart%permit_time_Ok. apply ok_reading; [apply stable_holds|done|].
  intros app tr [] Hh _. exists (fun _ tr => holds i (AiBurned (pm_serial permit) record) tr). split_and!; [apply stable_holds|done|].
  apply ok_try_out. intros generated _. apply ok_try_out. intros final_session _. destruct (bool_decide _) eqn:Es; [|done]. bool_props. subst.
  apply publish_generated_ok; [by apply session_eta|lia].
Qed.

Definition live_human i (serial : Z) (permit : HumanDecisionPermitRecord) session profile app (tr : list (nat * event)) : Prop :=
  holds i (HumanBurned serial permit) tr /\
  (validate_live_human_permit permit session (security app) = Ok tt /\ hc_project (hr_config profile) = hp_project permit /\
   human_profiles (security app) !! hp_profile_serial permit = Some profile).

Lemma stable_live_human i serial permit session profile : steady i (Inside (hp_project permit)) (live_human i serial permit session profile).
Proof.
  apply (stable_and nfc json_pointer registry permit_ttl_nanos i); [apply stable_holds|]. apply stable_inside.
  intros app app' tr tr' Hsame (Hv & Ep & Hp). split_and!; [by eapply live_human_same|done|]. by apply (sp_human _ _ _ Hsame).
Qed.

Lemma live_human_profile_Ok permit session s profile : live_human_profile permit session s = Ok profile ->
  validate_live_human_permit permit session s = Ok tt /\ hc_project (hr_config profile) = hp_project permit /\
  human_profiles s !! hp_profile_serial permit = Some profile.
Proof.
  unfold live_human_profile. intros Hl. apply bind_Ok in Hl as ([] & Hv & Hp%ok_or_Ok). split_and!; [done| |done].
  unfold validate_live_human_permit in Hv. sec_inv. simplify_eq. bool_props. by apply str_eqb_eq.
Qed.

Lemma publish_human_ok i serial permit session profile checked_at now tnow app tr slot r' answer :
  session = {| ss_actor_id := hp_actor_id permit; ss_session_id := hp_session_id permit |} -> hp_last_observed permit <= checked_at ->
  live_human i serial permit session profile app tr -> slots app !! hp_project permit = Some slot -> reachable (refs (repository slot)) ->
  publish_human nfc json_pointer registry permit profile checked_at now tnow (repository slot) = (r', answer) ->
  match answer with
  | Err _ => r' = repository slot
  | Ok d => reachable (refs r') /\ human_published nfc json_pointer registry app
      (set_slot (hp_project permit) {| repository := r'; publication_gate := publication_gate slot |} app) permit session d
  end.
Proof.
  intros Hs Hle (_ & Hv & Ep & Hp) Hslot Hr. unfold publish_human.
  destruct (publish_decision _ _ _ _ _ _ _ _) as [r2 d] eqn:Hpub. intros [= -> <-]. destruct d as [d|e]; [|by eapply publish_decision_Err].
  split; [pose proof (f_equal fst Hpub) as E; cbn in E; rewrite <- E; by apply publish_decision_reachable|].
  destruct (publish_decision_clock _ _ _ _ _ _ _ _ _ _ Hpub) as [last Elast].
  eexists (repository slot), r', profile, _, _, last. rewrite repository_set_repository, decide_True by done.
  split_and!; try done; [by unfold repository_of; rewrite Hslot|..]; pose proof (human_deadline_window _ _ _ _ Elast); lia.
Qed.
Lemma publish_human_decision_ok i answer first second now tnow permit :
  okay i (publish_human_decision nfc json_pointer registry instance answer first second now tnow permit) (returns Out) Out idle.
Proof.
  apply ok_try_out. intros session _. apply ok_ensure, ok_permits; [done|done|]. intros app tr s' record Hinv _ Ht.
  destruct (take_human_permit_ok Out _ _ _ _ Ht) as (Hsec & Htakes & Hn). split; [done|]. split; [apply fenced_out; intros st; apply (take_human_permit_ok st _ _ _ _ Ht)|].
  eexists _, (fun _ tr => holds i (HumanBurned (pm_serial permit) record) tr).
  split_and!; [done|done|by right|apply stable_holds|by eapply holds_taken|]. clear app tr s' Hinv Ht Hsec Htakes Hn.
  destruct (_ && _) eqn:E; [|done]. bool_props. apply str_eqb_eq in H1, E. apply ok_find_slot; [apply stable_holds|done|].
  apply ok_try_out. intros started_at Hstart%permit_time_Ok. apply ok_enter_gate; [apply stable_holds|apply quiet_holds|].
  apply ok_try_out. intros checked_at Hc%permit_time_Ok. apply ok_reading; [apply stable_holds|done|].
  intros app tr profile Hh Hl%live_human_profile_Ok. exists (live_human i (pm_serial permit) record session profile).
  split_and!; [apply stable_live_human|by split|].
  apply ok_publish; [apply stable_live_human|done|done|]. clear app tr Hh Hl. intros app tr slot r' x Hlive Hslot Hr Hpub.
  pose proof (publish_human_ok i (pm_serial permit) record session profile checked_at now tnow app tr slot r' x
    ltac:(by apply session_eta) ltac:(lia) Hlive Hslot Hr Hpub) as Hres.
  destruct x as [d|e]; [|done]. destruct Hres as [Hr' Hev]. eexists. split_and!; [done|apply Hlive|done|done|done].
Qed.

(** ** Every call *)

Lemma start_ok i c : exists P, steady i Out P /\ (forall app tr, genuine instance app c -> P app tr) /\
  thread_ok nfc json_pointer registry permit_ttl_nanos i (start nfc json_pointer registry instance permit_ttl_nanos c) Out P.
Proof.
  destruct c as [| | |handle ?|handle ?| | | | | | | | | | |];
    try (exists (own handle); split_and!; [apply stable_own|done|]; first [apply replace_authority_profile_ok|apply set_authority_profile_suspended_ok]);
    (exists idle; split_and!; [done|done|]).
  - apply grant_project_access_ok.
  - apply revoke_project_access_ok.
  - apply register_authority_profile_ok.
  - apply register_execution_ok.
  - apply prepare_ai_ok.
  - apply execute_and_publish_ai_ok.
  - apply register_human_profile_ok.
  - apply replace_human_profile_ok.
  - apply set_human_profile_suspended_ok.
  - apply register_human_decision_ok.
  - apply verify_recovered_ok.
  - apply register_recovered_ok.
  - apply prepare_human_decision_ok.
  - apply publish_human_decision_ok.
Qed.
End Operations.
