(* ===== verification/AppRuns.v ===== *)
(** * Application: runs, termination, an executable scheduler and a concrete run *)

From stdpp Require Import base list numbers strings gmap sets relations.
From Stdlib Require Import ZArith Lia.
From S2P Require Import RefStoreProps AppRules AppOperations Prelude Text RefStore Canonical Registry ObjectStore Repository Policy.
From S2P Require Import Authorization HumanDecision RegistryProps CanonicalProps AuthorizationSample AppState AppPrograms AppLogic.

#[local] Open Scope Z_scope.

(** ** The application boundary: facts about runs

    The machine of a new application satisfies the invariant, so every reachable machine does;
    what an action and a sequence of steps may change; threads terminate; and an executable
    scheduler for concrete runs. *)

Section Runs.
Context {S : Type} `{BoundedObjectStore S}.
Variable nfc : list char -> list char.
Variable json_pointer : Json -> str -> option (list nat).
Variable registry : SchemaRegistry.
Variable instance : Z.
Variable permit_ttl_nanos : Z.
Implicit Types app : App S.
Implicit Types m : machine (S := S).
Abbreviation good := (pool_ok nfc json_pointer registry permit_ttl_nanos).
Abbreviation sok := (step_ok nfc json_pointer registry permit_ttl_nanos).
Abbreviation step := (machine_step nfc json_pointer registry instance permit_ttl_nanos).

(** ** The new application *)

Definition fresh app : Prop :=
  (forall p slot, slots app !! p = Some slot -> publication_gate slot = gate_new /\ reachable (refs (repository slot))) /\
  exists v, security app = set_projects v empty_security.

Lemma register_projects_fresh registered : forall app app',
  Forall (fun x => reachable (refs x.2)) registered -> fresh app -> register_projects registered app = Ok app' -> fresh app'.
Proof.
  induction registered as [|[name r] registered IH]; intros app app' Hr Hf; cbn; [by intros [= <-]|]. intros Hreg. result_inv.
  apply Forall_cons in Hr as [Hr Hrs]. eapply IH, Hreg; [done|]. destruct Hf as [Hs [v Hv]]. split.
  - intros p slot. cbn. rewrite lookup_insert_Some. intros [[_ <-]|[_ Hp]]; [done|by apply (Hs p)].
  - rewrite Hv. by eexists.
Qed.

Lemma app_new_inv registered app : Forall (fun x => reachable (refs x.2)) registered -> app_new permit_ttl_nanos registered = Ok app ->
  app_inv app [] /\ forall p g, gate_of app p = Some g -> g = gate_new.
Proof.
  intros Hr Hn. unfold app_new in Hn. result_inv.
  destruct (register_projects_fresh registered {| slots := ∅; security := empty_security |} app Hr) as [Hs [v Hv]];
    [split; [done|by eexists]|done|].
  assert (forall p g, gate_of app p = Some g -> g = gate_new) as Hg.
  { intros p g. unfold gate_of. destruct (slots app !! p) as [slot|] eqn:Hp; [|done]. intros [= <-]. by apply (Hs p). }
  split; [|done]. assert (forall i e, (i, e) ∈ @nil (nat * event) -> False) as Hnil by (by intros i e ?%elem_of_nil). split.
  - intros n [r Hl]. by rewrite Hv in Hl.
  - intros n [r Hl]. by rewrite Hv in Hl.
  - split; try (by intros ? ?%elem_of_nil); try (by intros ? ? ? ?%Hnil); try apply NoDup_nil_2.
    + intros [[] n] [r Hl]; by rewrite Hv in Hl.
    + intros n r Hl. by rewrite Hv in Hl.
    + intros n r Hl. by rewrite Hv in Hl.
  - apply NoDup_nil_2.
  - by intros ? ? ? ?%Hnil.
  - intros p g ->%Hg. done.
  - intros p r. unfold repository_of. destruct (slots app !! p) as [slot|] eqn:Hp; [|done]. intros [= <-]. by apply (Hs p).
Qed.

Lemma pool_new registered m : Forall (fun x => reachable (refs x.2)) registered -> started permit_ttl_nanos registered m -> good m.
Proof.
  intros Hr (app & Hn & ->). destruct (app_new_inv registered app Hr Hn) as [Hinv Hg]. exists []. split_and!; [done|done| |done]. split; try done.
  - intros p g t ->%Hg. cbn. lia.
  - intros p g ->%Hg. split; [done|]. by intros [].
Qed.

Lemma reachable_good registered m : Forall (fun x => reachable (refs x.2)) registered ->
  machine_reachable nfc json_pointer registry instance permit_ttl_nanos registered m -> good m.
Proof.
  intros Hr (m0 & Hm0 & Hs). eapply pool_steps; [apply start_ok|by eapply pool_new|done].
Qed.

Lemma good_inv m : good m -> app_inv (m_app m) (m_trace m).
Proof. by intros (sts & _ & Hinv & _). Qed.

(** ** Steps *)

(** A step is a call, which changes nothing that is shared, or an action of a thread. *)
Lemma step_cases m m' : good m -> step m m' ->
  m_app m' = m_app m /\ m_trace m' = m_trace m \/
  exists i st st' events, sok i st (m_app m) (m_trace m) (m_app m') events st' /\ m_trace m' = m_trace m ++ map (pair i) events.
Proof.
  intros Hm [c Hc|i t app events t' Ht Hs]; [by left|]. right.
  destruct (pool_action nfc json_pointer registry permit_ttl_nanos m i t app events t' Hm Ht Hs) as (st & st' & Hsok). by exists i, st, st', events.
Qed.

(** Epochs grow, and authority changes only with them. *)
Definition advances (s s' : SecurityState) : Prop := forall p a, projects s !! p = Some a ->
  exists a', projects s' !! p = Some a' /\ sec_epoch a <= sec_epoch a' /\ (sec_epoch a' = sec_epoch a -> same_authority s s' p).

#[export] Instance advances_preorder : PreOrder advances.
Proof.
  split; [intros s p a Ha; exists a; by split_and!|]. intros s1 s2 s3 H12 H23 p a Ha.
  destruct (H12 p a Ha) as (a2 & Ha2 & Hle & Hs). destruct (H23 p a2 Ha2) as (a3 & Ha3 & Hle' & Hs').
  exists a3. split_and!; [done|lia|]. intros E. destruct Hs as [A1 A2 A3]; [lia|]. destruct Hs' as [B1 B2 B3]; [lia|]. split; [congruence|by eauto..].
Qed.

Lemma step_advances m m' : good m -> step m m' -> advances (security (m_app m)) (security (m_app m')).
Proof.
  intros Hm [[-> _]|(i & st & st' & events & Hsok & _)]%step_cases; [done| |done]. intros p a Ha.
  destruct (so_epochs _ _ _ _ _ _ _ _ _ _ _ Hsok p a Ha) as (a' & Ha' & Hle & _). exists a'. split_and!; [done|done|].
  intros E. by eapply (so_fence _ _ _ _ _ _ _ _ _ _ _ Hsok).
Qed.

Lemma steps_advance m m' : good m -> rtc step m m' -> advances (security (m_app m)) (security (m_app m')).
Proof.
  intros Hm Hs. induction Hs as [m|m m1 m2 H1 _ IH]; [done|]. etrans; [by apply step_advances|]. apply IH. eapply pool_step; [apply start_ok|done|done].
Qed.

Lemma steps_trace m m' : rtc step m m' -> exists tr, m_trace m' = m_trace m ++ tr.
Proof.
  induction 1 as [m|m m1 m2 H1 _ [tr IH]]; [exists []; by rewrite app_nil_r|]. rewrite IH. destruct H1; cbn; [by eexists|].
  rewrite <- app_assoc. by eexists.
Qed.

(** What holds of the machines where an event of a run happened. *)
Lemma steps_events m m' j e tr : good m -> rtc step m m' -> m_trace m' = m_trace m ++ tr -> (j, e) ∈ tr ->
  exists m1 m2, rtc step m m1 /\ step m1 m2 /\ rtc step m2 m' /\ good m1 /\
    event_ok nfc json_pointer registry permit_ttl_nanos (m_app m1) (m_app m2) e.
Proof.
  intros Hm Hs. revert tr. induction Hs as [m|m m1 m2 H1 H2 IH]; intros tr Htr Hin.
  { rewrite <- (app_nil_r (m_trace m)) in Htr at 1. apply app_inv_head in Htr as <-. by apply elem_of_nil in Hin. }
  assert (good m1) as Hm1 by (eapply pool_step; [apply start_ok|done|done]). destruct (steps_trace m1 m2 H2) as [tr2 E2].
  destruct (step_cases m m1 Hm H1) as [[_ Et]|(i & st & st' & events & Hsok & Et)].
  - destruct (IH Hm1 tr) as (a & b & Ha & Hb & Hc & Hd & He); [congruence|done|]. exists a, b. split_and!; try done. by eapply rtc_l.
  - rewrite E2, Et, <- app_assoc in Htr. apply app_inv_head in Htr as <-. apply elem_of_app in Hin as [Hin|Hin].
    + apply list_elem_of_fmap in Hin as (e' & [= -> ->] & He'). exists m, m1. split_and!; try done. by apply (so_events _ _ _ _ _ _ _ _ _ _ _ Hsok).
    + destruct (IH Hm1 tr2 E2 Hin) as (a & b & Ha & Hb & Hc & Hd & He). exists a, b. split_and!; try done. by eapply rtc_l.
Qed.
(** The permit of an issue event was live, so its epoch is not in the future. *)
Lemma live_epoch permit session s : validate_live_permit permit session s = Ok tt ->
  exists a, projects s !! pt_project permit = Some a /\ sec_epoch a = pt_security_epoch permit.
Proof. unfold validate_live_permit. intros Hv. sec_inv. bool_props. by eexists. Qed.

Lemma live_human_epoch permit session s : validate_live_human_permit permit session s = Ok tt ->
  exists a, projects s !! hp_project permit = Some a /\ sec_epoch a = hp_security_epoch permit.
Proof. unfold validate_live_human_permit. intros Hv. sec_inv. bool_props. by eexists. Qed.

(** ** Termination *)

(** An action of a thread; what remains is a part of what was left to do. *)
Definition thread_next (t' t : thread (S := S)) : Prop := exists app app' events, thread_step t app = Some (app', events, t').

Lemma thread_wf t : Acc thread_next t.
Proof.
  destruct t as [A c]. revert c. fix IH 1. intros c. constructor. intros t' (app & app' & events & Hs). destruct c as [r|f]; [done|].
  cbn in Hs. revert Hs. destruct (f app) as [[[a ev] c']|]; [|done]. intros [= _ _ <-]. apply IH.
Qed.

(** One thread of a list takes an action. *)
Definition pool_next (ts' ts : list (thread (S := S))) : Prop :=
  exists i t t', ts !! i = Some t /\ thread_next t' t /\ ts' = <[i := t']> ts.

Lemma pool_wf ts : Acc pool_next ts.
Proof.
  induction ts as [|t ts IH]; [constructor; by intros ts' (i & t & t' & Hi & _)|].
  pose proof (thread_wf t) as Ht. revert ts IH. induction Ht as [t _ IHt]. intros ts Hts. induction Hts as [ts Hacc IHts].
  constructor. intros ts' (i & u & u' & Hi & Hu & ->). destruct i as [|i]; cbn in *.
  - injection Hi as ->. apply IHt; [done|]. by constructor.
  - apply IHts. by exists i, u, u'.
Qed.

(** An action of some thread, without a new call. *)
Definition thread_action m m' : Prop := exists i t app events t', m_threads m !! i = Some t /\ thread_step t (m_app m) = Some (app, events, t') /\
  m' = {| m_app := app; m_trace := m_trace m ++ map (pair i) events; m_threads := <[i := t']> (m_threads m) |}.

Lemma actions_wf m : Acc (fun m' m => thread_action m m') m.
Proof.
  remember (m_threads m) as ts eqn:E. revert m E. induction (pool_wf ts) as [ts _ IH]. intros m ->. constructor.
  intros m' (i & t & app & events & t' & Ht & Hs & ->). eapply IH; [|done]. exists i, t, t'. split_and!; [done|by exists (m_app m), app, events|done].
Qed.

Lemma actions_steps m m' : rtc thread_action m m' -> rtc step m m'.
Proof.
  induction 1 as [m|m m1 m2 (i & t & app & events & t' & Ht & Hs & ->) _ IH]; [done|]. eapply rtc_l; [by eapply step_thread|done].
Qed.
End Runs.

(** ** An executable scheduler *)

(** The machine of a new application. *)
Definition new_machine {S} (r : ares (App S)) : machine (S := S) :=
  {| m_app := match r with Ok app => app | Err _ => {| slots := ∅; security := empty_security |} end; m_trace := []; m_threads := [] |}.

Lemma new_started {S} ttl (l : list (str * Repository S)) r : app_new ttl l = r -> is_ok r = true -> started ttl l (new_machine r).
Proof. intros Hn Hr. destruct r as [app|]; [|done]. exists app. by split. Qed.

Section Scheduler.
Context {S : Type} `{BoundedObjectStore S}.
Variable nfc : list char -> list char.
Variable json_pointer : Json -> str -> option (list nat).
Variable registry : SchemaRegistry.
Variable instance : Z.
Variable permit_ttl_nanos : Z.

Inductive order :=
| Begin (c : call)
| Turn (i : nat).

Definition obey (m : machine (S := S)) (o : order) : option machine :=
  match o with
  | Begin c => Some {| m_app := m_app m; m_trace := m_trace m;
                       m_threads := m_threads m ++ [start nfc json_pointer registry instance permit_ttl_nanos c] |}
  | Turn i =>
    t ← m_threads m !! i;
    '(app, events, t') ← thread_step t (m_app m);
    Some {| m_app := app; m_trace := m_trace m ++ map (pair i) events; m_threads := <[i := t']> (m_threads m) |}
  end.

Fixpoint schedule (orders : list order) (m : machine (S := S)) : option machine :=
  match orders with
  | [] => Some m
  | o :: orders => m ← obey m o; schedule orders m
  end.

(** Calls that need no handle of a profile. *)
Definition unbound (o : order) : bool :=
  match o with Begin (ReplaceProfile _ _) | Begin (SuspendProfile _ _) => false | _ => true end.

Lemma obey_step m o m' : unbound o = true -> obey m o = Some m' -> machine_step nfc json_pointer registry instance permit_ttl_nanos m m'.
Proof.
  destruct o as [c|i]; cbn.
  - intros Hu [= <-]. apply step_call. by destruct c.
  - intros _. destruct (m_threads m !! i) as [t|] eqn:Ht; [|done]. cbn. destruct (thread_step t (m_app m)) as [[[app events] t']|] eqn:Hs; [|done].
    intros [= <-]. by eapply step_thread.
Qed.

Lemma schedule_steps orders : forall m m', forallb unbound orders = true -> schedule orders m = Some m' ->
  rtc (machine_step nfc json_pointer registry instance permit_ttl_nanos) m m'.
Proof.
  induction orders as [|o orders IH]; intros m m' Hu; cbn; [by intros [= <-]|]. cbn in Hu. apply andb_true_iff in Hu as [Ho Hu].
  destruct (obey m o) as [m1|] eqn:E; [|done]. intros Hs. eapply rtc_l; [by eapply obey_step|by apply IH].
Qed.
End Scheduler.

(** ** The application boundary: a concrete run

    The project of [AuthorizationSample] in an application: an actor is granted access, a
    profile and an execution are registered, a permit is prepared and used, and access is
    revoked while a second permit is outstanding. *)

Definition sample_ttl : Z := 3600000000000.

Definition sample_registered : list (str * Repository MemoryStore) := [(project, run_repository)].

Definition sample_config : AiAuthorityProfileConfig :=
  {| ac_project := project; ac_actor_id := ai_id; ac_principal_id := human_id; ac_base_ref_name := lit "decision/main";
     ac_actor_record_oid := ai_actor_oid; ac_principal_actor_record_oid := human_actor_oid; ac_context_pack_oid := context_oid;
     ac_target_ref_name := lit "proposal/ai/run-1"; ac_exact_capabilities := [ProposeBranch; ReadContext];
     ac_runtime_capabilities := all_capabilities; ac_side_effect_class := tg_side_effect run_target |}.

Definition sample_session : AuthenticatedSession := {| ss_actor_id := ai_id; ss_session_id := lit "session-1" |}.

Definition sample_handle (serial : Z) : Handle := {| h_instance := 1; h_project := project; h_serial := serial |}.

Definition sample_execute (context : AiExecutionContext) : option ExecutedAiProposal :=
  Some {| ex_new_head := ge_new_head run_generated; ex_activity_oid := ge_activity_oid run_generated; ex_message := ge_message run_generated |}.

Definition sample_call (serial : Z) : call :=
  ExecuteAi (AuthSession sample_session) (AuthSession sample_session) run_now run_now run_now run_commit_now sample_execute
    {| pm_instance := 1; pm_serial := serial |}.

(** A call whose thread then runs for some turns. *)
Definition and_run (c : call) (i n : nat) : list order := Begin c :: replicate n (Turn i).

(** Two permits, of serials 4 and 5. *)
Definition sample_prepared : list order :=
  and_run (GrantAccess project ai_id) 0 4 ++ and_run (RegisterProfile sample_config) 1 4 ++
  and_run (RegisterExecution (sample_handle 1)) 2 6 ++ and_run (RegisterExecution (sample_handle 1)) 3 6 ++
  and_run (PrepareAi (AuthSession sample_session) project (sample_handle 2) run_now) 4 6 ++
  and_run (PrepareAi (AuthSession sample_session) project (sample_handle 3) run_now) 5 6.

(** Thread 6 uses the first permit up to its publication; thread 7, which revokes the access,
    waits for the gate. *)
Definition sample_before : list order := sample_prepared ++ and_run (sample_call 4) 6 6 ++ and_run (RevokeAccess project ai_id) 7 1.

Definition sample_initial : machine (S := MemoryStore) := new_machine (app_new sample_ttl sample_registered).

Definition sample_schedule (orders : list order) : option (machine (S := MemoryStore)) :=
  schedule nfc_id no_pointer open_registry 1 sample_ttl orders sample_initial.

Definition sample_machine (orders : list order) : machine (S := MemoryStore) := default sample_initial (sample_schedule orders).
