(* ===== verification/AppProps.v ===== *)
(** * The application boundary: what every run of concurrent calls guarantees *)

From stdpp Require Import base list numbers strings gmap sets relations.
From Stdlib Require Import ZArith Lia.
From S2P Require Import Prelude Text RefStore RefStoreProps Canonical Registry ObjectStore Repository Policy Authorization HumanDecision.
From S2P Require Import CanonicalProps RegistryProps AuthorizationSample AppState AppPrograms AppLogic AppRules AppOperations AppRuns.

#[local] Open Scope Z_scope.

(** ** The sample run *)

Definition is_some {A} (o : option A) : bool := match o with Some _ => true | None => false end.

Lemma is_some_default {A} (o : option A) d : is_some o = true -> o = Some (default d o).
Proof. by destruct o. Qed.

Lemma sample_refs : Forall (fun x => reachable (refs x.2)) sample_registered.
Proof. apply Forall_singleton. exact base_refs_reachable. Qed.

Lemma sample_started : started sample_ttl sample_registered sample_initial.
Proof. apply (new_started sample_ttl sample_registered _ eq_refl). vm_compute. reflexivity. Qed.

Abbreviation sample_step := (machine_step nfc_id no_pointer open_registry 1 sample_ttl).
Abbreviation sample_reachable := (machine_reachable nfc_id no_pointer open_registry 1 sample_ttl sample_registered).

Lemma schedule_app orders orders' m :
  schedule nfc_id no_pointer open_registry 1 sample_ttl (orders ++ orders') m
    = (schedule nfc_id no_pointer open_registry 1 sample_ttl orders m ≫= schedule nfc_id no_pointer open_registry 1 sample_ttl orders').
Proof.
  revert m. induction orders as [|o orders IH]; intros m; [done|]. cbn.
  destruct (obey nfc_id no_pointer open_registry 1 sample_ttl m o); [cbn; apply IH|done].
Qed.

(** A longer schedule continues a shorter one. *)
Lemma sample_continues orders orders' : forallb unbound orders' = true -> is_some (sample_schedule (orders ++ orders')) = true ->
  rtc sample_step (sample_machine orders) (sample_machine (orders ++ orders')).
Proof.
  intros Hu. unfold sample_machine, sample_schedule. rewrite schedule_app.
  destruct (schedule _ _ _ _ _ orders sample_initial) as [m|]; [|done]. cbn. intros Hs. eapply schedule_steps; [done|by apply is_some_default].
Qed.

Lemma sample_run orders : forallb unbound orders = true -> is_some (sample_schedule orders) = true -> sample_reachable (sample_machine orders).
Proof. intros Hu Hs. exists sample_initial. split; [exact sample_started|]. by apply (sample_continues []). Qed.

Lemma sample_before_run : sample_reachable (sample_machine sample_before).
Proof. apply sample_run; vm_compute; reflexivity. Qed.

(** The revocation, and then an attempt with the outstanding permit. *)
Definition sample_revoke : list order := and_run (RevokeAccess project ai_id) 6 4.
Definition sample_attempt : list order := and_run (sample_call 5) 7 3.

Lemma sample_prepared_run : sample_reachable (sample_machine sample_prepared).
Proof. apply sample_run; vm_compute; reflexivity. Qed.

(** The events of a kind of the sample run. *)
Definition permit_in (tr : list (nat * event)) (serial : Z) : option PermitRecord :=
  omap (fun x => match x.2 with AiIssued n r => if n =? serial then Some r else None | _ => None end) tr !! 0%nat.

Lemma permit_in_issued tr serial r : permit_in tr serial = Some r -> exists j, (j, AiIssued serial r) ∈ tr.
Proof.
  unfold permit_in. intros Hr. apply list_elem_of_lookup_2, list_elem_of_omap in Hr as ([j e] & Hin & E). destruct e; try done. cbn in E.
  destruct (_ =? _) eqn:En; [|done]. apply Z.eqb_eq in En as ->. injection E as ->. by exists j.
Qed.

(** The outstanding permit. *)
Definition sample_permit : PermitRecord :=
  match permit_in (m_trace (sample_machine sample_prepared)) 5 with
  | Some r => r
  | None => permit_record sample_session project (sample_handle 3) 0
              {| er_project := project; er_profile_serial := 1; er_profile_generation := 1; er_expected_target_head := None |} 0 run_preflight_decision
  end.

Lemma sample_issued : exists j, (j, AiIssued 5 sample_permit) ∈ m_trace (sample_machine sample_prepared).
Proof.
  apply permit_in_issued. unfold sample_permit. destruct (permit_in _ _) as [r|] eqn:E; [reflexivity|exfalso].
  assert (is_some (permit_in (m_trace (sample_machine sample_prepared)) 5) = true) as Hs by (vm_compute; reflexivity).
  rewrite E in Hs. discriminate.
Qed.

Definition sample_revoked : list order := sample_prepared ++ sample_revoke.
Definition sample_attempted : list order := sample_revoked ++ sample_attempt.

Lemma sample_revoke_run : rtc sample_step (sample_machine sample_prepared) (sample_machine sample_revoked).
Proof. apply sample_continues; vm_compute; reflexivity. Qed.

Lemma sample_attempt_run : rtc sample_step (sample_machine sample_revoked) (sample_machine sample_attempted).
Proof. apply sample_continues; vm_compute; reflexivity. Qed.

Lemma sample_changed :
  ~ same_authority (security (m_app (sample_machine sample_prepared))) (security (m_app (sample_machine sample_revoked))) project.
Proof.
  intros [Hp _ _]. apply (f_equal (fmap sec_epoch)) in Hp. revert Hp. vm_compute. discriminate.
Qed.

(** The publication of the first permit. *)
Definition head_in (r : option (Repository MemoryStore)) : option str :=
  r ← r; heads (tables (refs r)) !! lit "proposal/ai/run-1".

Lemma sample_published :
  is_some (m ← sample_schedule (sample_before ++ [Turn 6]); head_in (repository_of (m_app m) project)) = true.
Proof. vm_compute. reflexivity. Qed.

Lemma sample_publishes : sample_step (sample_machine sample_before) (sample_machine (sample_before ++ [Turn 6])).
Proof.
  pose proof sample_published as Hs. revert Hs. unfold sample_machine, sample_schedule. rewrite schedule_app.
  destruct (schedule _ _ _ _ _ sample_before sample_initial) as [m|]; [|discriminate]. cbn [mbind option_bind schedule default].
  destruct (obey _ _ _ _ _ m (Turn 6)) as [m'|] eqn:E; [|discriminate]. intros _. by apply (obey_step _ _ _ _ _ m (Turn 6)).
Qed.

Lemma sample_unpublished : is_some (head_in (repository_of (m_app (sample_machine sample_before)) project)) = false.
Proof. vm_compute. reflexivity. Qed.

Lemma some_differs {A B C} (o : option A) d (f : A -> B) (g : B -> option C) b :
  is_some (m ← o; g (f m)) = true -> is_some (g b) = false -> f (default d o) <> b.
Proof. intros Hs Hn E. subst b. destruct o as [m|]; [|done]. cbn in *. congruence. Qed.

Lemma sample_moves :
  repository_of (m_app (sample_machine (sample_before ++ [Turn 6]))) project <> repository_of (m_app (sample_machine sample_before)) project.
Proof.
  exact (some_differs (sample_schedule (sample_before ++ [Turn 6])) sample_initial (fun m => repository_of (m_app m) project) head_in _
    sample_published sample_unpublished).
Qed.

Definition sample_gate : FairGateState := {| next_ticket := 8; serving := 6; occupied := true |}.

Section Claims.
Context {S : Type} `{BoundedObjectStore S}.
Variable nfc : list char -> list char.
Variable json_pointer : Json -> str -> option (list nat).
Variable registry : SchemaRegistry.
Variable instance : Z.
Variable permit_ttl_nanos : Z.
Variable registered : list (str * Repository S).
Abbreviation step := (machine_step nfc json_pointer registry instance permit_ttl_nanos).
Abbreviation reached := (machine_reachable nfc json_pointer registry instance permit_ttl_nanos registered).

(** C25: however calls interleave, the repository of a project changes only when a permit is
    used.  The step that changes it publishes: the permit was issued before and burned by the
    same thread, it is live at that moment (epoch, membership, profile), the repository moves
    as the core operation moves it, and the clock of the transaction is in the permit's
    window. *)
Theorem publication_authorized m m' p : Forall (fun x => reachable (refs x.2)) registered -> reached m -> step m m' ->
  repository_of (m_app m') p <> repository_of (m_app m) p ->
  exists i events e, m_trace m' = m_trace m ++ map (pair i) events /\ e ∈ events /\
    match e with
    | AiPublished n permit session d => pt_project permit = p /\
        ai_published nfc json_pointer registry (m_app m) (m_app m') permit session d /\
        (i, AiBurned n permit) ∈ m_trace m /\ exists j, (j, AiIssued n permit) ∈ m_trace m
    | HumanPublished n permit session receipt => hp_project permit = p /\
        human_published nfc json_pointer registry (m_app m) (m_app m') permit session receipt /\
        (i, HumanBurned n permit) ∈ m_trace m /\ exists j, (j, HumanIssued n permit) ∈ m_trace m
    | _ => False
    end.
Proof.
  intros Hr Hm%reachable_good Hs Hp; [|done]. pose proof (good_inv _ _ _ _ _ Hm) as Hinv.
  destruct (step_cases _ _ _ _ _ m m' Hm Hs) as [[E _]|(i & st & st' & events & Hsok & Et)]; [by rewrite E in Hp|].
  destruct (so_repositories _ _ _ _ _ _ _ _ _ _ _ Hsok p Hp) as (e & He & Em). exists i, events, e. split_and!; [done|done|].
  pose proof (so_events _ _ _ _ _ _ _ _ _ _ _ Hsok e He) as Hev. pose proof (so_owner _ _ _ _ _ _ _ _ _ _ _ Hsok e) as Hown.
  destruct e; try done; injection Em as Em; specialize (Hown _ He eq_refl);
    (split_and!; [done|done|done|by eapply (pi_burned_issued _ _ (iv_permits _ _ Hinv) i)]).
Qed.

(** A permit is only issued on a fresh preflight.  When one was issued, the actor was a
    member of the project at the permit's epoch, the profile was active, and the preflight of
    the repository of that very moment answered the recorded decision; the permit ends with
    the Grant or the time to live, whichever is first. *)
Lemma permit_admission m j n permit : Forall (fun x => reachable (refs x.2)) registered -> reached m -> (j, AiIssued n permit) ∈ m_trace m ->
  exists m1, reached m1 /\ rtc step m1 m /\ ai_issued nfc json_pointer registry permit_ttl_nanos (m_app m1) permit.
Proof.
  intros Hr (m0 & Hm0 & Hs) Hin. destruct (steps_events nfc json_pointer registry instance permit_ttl_nanos m0 m j (AiIssued n permit) (m_trace m))
    as (m1 & m2 & H1 & H2 & H3 & _ & Hev); [by eapply pool_new|done|by destruct Hm0 as (app & _ & ->)|done|].
  exists m1. split_and!; [by exists m0|by eapply rtc_l|done].
Qed.

(** Permits are used at most once: over a whole run, no permit is burned twice or
    published twice, a stored permit is not burned, and a published one is. *)
Lemma permits_single_use m : Forall (fun x => reachable (refs x.2)) registered -> reached m ->
  NoDup (burned (m_trace m)) /\ NoDup (published (m_trace m)) /\
  (forall k, ready (security (m_app m)) k -> k ∉ burned (m_trace m)) /\
  (forall k, k ∈ published (m_trace m) -> k ∈ burned (m_trace m)).
Proof.
  intros Hr Hm%reachable_good; [|done]. pose proof (good_inv _ _ _ _ _ Hm) as [_ _ Hpi Hpub Hown _ _].
  split_and!; [apply Hpi|done|by intros k []%Hpi|]. intros k ([i e] & Hin & Ek)%list_elem_of_omap.
  destruct (published_burn e k Ek) as [b Eb]. destruct (owner_burn _ i e b k Eb Ek (Hown i e b Hin Eb)) as (b' & Hb' & Ek').
  apply list_elem_of_omap. by exists (i, b').
Qed.

(** C26: a change of authority fences every permit that was issued before it.  If between two
    moments of a run the members, the epoch or a profile of a project changed, no permit of
    the project that had been issued at the first moment is published after the second. *)
Theorem authority_fence m m' m'' tr p : Forall (fun x => reachable (refs x.2)) registered -> reached m -> rtc step m m' -> rtc step m' m'' ->
  m_trace m'' = m_trace m' ++ tr -> ~ same_authority (security (m_app m)) (security (m_app m')) p ->
  (forall j n permit i session d, (j, AiIssued n permit) ∈ m_trace m -> pt_project permit = p ->
     (i, AiPublished n permit session d) ∉ tr) /\
  (forall j n permit i session receipt, (j, HumanIssued n permit) ∈ m_trace m -> hp_project permit = p ->
     (i, HumanPublished n permit session receipt) ∉ tr).
Proof.
  intros Hr (m0 & Hm0 & Hs) H1 H2 Htr Hchange. assert (pool_ok nfc json_pointer registry permit_ttl_nanos m0) as G0 by (by eapply pool_new).
  assert (pool_ok nfc json_pointer registry permit_ttl_nanos m) as Gm by (by eapply pool_steps; [apply start_ok|..]).
  assert (pool_ok nfc json_pointer registry permit_ttl_nanos m') as Gm' by (by eapply pool_steps; [apply start_ok|..]).
  assert (m_trace m = m_trace m0 ++ m_trace m) as E0 by (by destruct Hm0 as (app & _ & ->)).
  assert (forall m1 m3 a b, rtc step m1 m -> pool_ok nfc json_pointer registry permit_ttl_nanos m1 -> rtc step m' m3 ->
    projects (security (m_app m1)) !! p = Some a -> projects (security (m_app m3)) !! p = Some b -> sec_epoch a = sec_epoch b -> False) as Hclash.
  { intros m1 m3 a b S1 G1 S3 Ha Hb E. destruct (steps_advance _ _ _ _ _ _ _ G1 S1 p a Ha) as (a1 & Ha1 & Hle1 & _).
    destruct (steps_advance _ _ _ _ _ _ _ Gm H1 p a1 Ha1) as (a2 & Ha2 & Hle2 & Hsame).
    destruct (steps_advance _ _ _ _ _ _ _ Gm' S3 p a2 Ha2) as (a3 & Ha3 & Hle3 & _). simplify_eq. apply Hchange, Hsame. lia. }
  split; intros j n permit i session x Hissued Hp Hpub.
  - destruct (steps_events _ _ _ _ _ m0 m j _ (m_trace m) G0 Hs E0 Hissued) as (m1 & m2 & A1 & A2 & A3 & A4 & (? & ? & ? & ? & Hv & _)).
    destruct (steps_events _ _ _ _ _ m' m'' i _ tr Gm' H2 Htr Hpub) as (m3 & m4 & B1 & _ & _ & _ & (? & ? & ? & ? & ? & ? & ? & _ & Hv' & _)).
    apply live_epoch in Hv as (a & Ha & Ea), Hv' as (b & Hb & Eb). rewrite Hp in Ha, Hb.
    eapply (Hclash m1 m3 a b); [by eapply rtc_l|done..|congruence].
  - destruct (steps_events _ _ _ _ _ m0 m j _ (m_trace m) G0 Hs E0 Hissued) as (m1 & m2 & A1 & A2 & A3 & A4 & (Hv & _)).
    destruct (steps_events _ _ _ _ _ m' m'' i _ tr Gm' H2 Htr Hpub) as (m3 & m4 & B1 & _ & _ & _ & (? & ? & ? & ? & ? & ? & _ & Hv' & _)).
    apply live_human_epoch in Hv as (a & Ha & Ea), Hv' as (b & Hb & Eb). rewrite Hp in Ha, Hb.
    eapply (Hclash m1 m3 a b); [by eapply rtc_l|done..|congruence].
Qed.

(** The gate of a project is fair and exclusive: threads enter in the order in which they
    took their tickets, and each entry but the last was left. *)
Lemma gate_fifo m p g : Forall (fun x => reachable (refs x.2)) registered -> reached m -> gate_of (m_app m) p = Some g ->
  entered p (m_trace m) `prefix_of` took p (m_trace m) /\
  (length (departed p (m_trace m)) <= length (entered p (m_trace m)) <= length (departed p (m_trace m)) + 1)%nat.
Proof.
  intros Hr Hm%reachable_good Hg; [|done]. destruct (iv_gates _ _ (good_inv _ _ _ _ _ Hm) p g Hg) as [(Hrange & _ & Hlt) (H1 & H2 & ->)].
  split; [apply prefix_take|]. rewrite length_take. destruct (occupied g); [specialize (Hlt eq_refl)|]; lia.
Qed.

(** C27: every call returns.  Without new calls a machine takes only finitely many actions, and
    a machine that can take none has only finished threads: no schedule deadlocks or runs on. *)
Theorem calls_return m : Forall (fun x => reachable (refs x.2)) registered -> reached m ->
  Acc (fun m2 m1 => thread_action m1 m2) m /\
  forall m', rtc thread_action m m' -> (forall m'', ~ thread_action m' m'') -> Forall (fun t => finished t = true) (m_threads m').
Proof.
  intros Hr Hm%reachable_good; [|done]. split; [apply actions_wf|]. intros m' Hs Hstuck.
  assert (pool_ok nfc json_pointer registry permit_ttl_nanos m') as Gm'.
  { eapply (pool_steps nfc json_pointer registry instance); [apply start_ok|done|by apply actions_steps]. }
  apply Forall_lookup_2. intros i t Ht. destruct (finished t) eqn:Ef; [done|exfalso].
  destruct (pool_progress nfc json_pointer registry permit_ttl_nanos m' Gm') as (k & u & [[app events] u'] & Hu & Hstep); [by exists i, t|].
  eapply Hstuck. by exists k, u, app, events, u'.
Qed.
End Claims.

(** ** Witnesses *)

Lemma publication_authorized_witness :
  exists i events e, m_trace (sample_machine (sample_before ++ [Turn 6])) = m_trace (sample_machine sample_before) ++ map (pair i) events /\
    e ∈ events /\
    match e with
    | AiPublished n permit session d => pt_project permit = project /\
        ai_published nfc_id no_pointer open_registry (m_app (sample_machine sample_before))
          (m_app (sample_machine (sample_before ++ [Turn 6]))) permit session d /\
        (i, AiBurned n permit) ∈ m_trace (sample_machine sample_before) /\
        exists j, (j, AiIssued n permit) ∈ m_trace (sample_machine sample_before)
    | HumanPublished n permit session receipt => hp_project permit = project /\
        human_published nfc_id no_pointer open_registry (m_app (sample_machine sample_before))
          (m_app (sample_machine (sample_before ++ [Turn 6]))) permit session receipt /\
        (i, HumanBurned n permit) ∈ m_trace (sample_machine sample_before) /\
        exists j, (j, HumanIssued n permit) ∈ m_trace (sample_machine sample_before)
    | _ => False
    end.
Proof.
  apply (publication_authorized nfc_id no_pointer open_registry 1 sample_ttl sample_registered).
  - exact sample_refs.
  - exact sample_before_run.
  - exact sample_publishes.
  - exact sample_moves.
Defined.

Lemma authority_fence_witness :
  exists tr, m_trace (sample_machine sample_attempted) = m_trace (sample_machine sample_revoked) ++ tr /\
  ((forall j n permit i session d, (j, AiIssued n permit) ∈ m_trace (sample_machine sample_prepared) -> pt_project permit = project ->
     (i, AiPublished n permit session d) ∉ tr) /\
   (forall j n permit i session receipt, (j, HumanIssued n permit) ∈ m_trace (sample_machine sample_prepared) -> hp_project permit = project ->
     (i, HumanPublished n permit session receipt) ∉ tr)).
Proof.
  destruct (steps_trace _ _ _ _ _ _ _ sample_attempt_run) as [tr Htr]. exists tr. split; [exact Htr|].
  apply (authority_fence nfc_id no_pointer open_registry 1 sample_ttl sample_registered (sample_machine sample_prepared)
    (sample_machine sample_revoked) (sample_machine sample_attempted)).
  - exact sample_refs.
  - exact sample_prepared_run.
  - exact sample_revoke_run.
  - exact sample_attempt_run.
  - exact Htr.
  - exact sample_changed.
Defined.

Lemma calls_return_witness :
  Acc (fun m2 m1 => thread_action m1 m2) (sample_machine sample_before) /\
  forall m', rtc thread_action (sample_machine sample_before) m' -> (forall m'', ~ thread_action m' m'') ->
    Forall (fun t => finished t = true) (m_threads m').
Proof.
  apply (calls_return nfc_id no_pointer open_registry 1 sample_ttl sample_registered).
  - exact sample_refs.
  - exact sample_before_run.
Defined.
