(* ===== verification/Checkout.v ===== *)
(** * Checkout of a decided artifact

    crates/synapse-artifact/src/checkout.rs: the bounded checkout of the regular files that a
    completed Decision selects, and the proof of the authority that led to it.  An error keeps its
    code.  Opening the repository and the redacted formatting are left out. *)

From Stdlib Require Import ZArith Lia.
From stdpp Require Import base list numbers strings gmap sets.
From S2P Require Import Prelude Bytes Sorting Text TextFacts BTree PortablePath RefStore Canonical Oid SchemaSemantics Registry.
From S2P Require Import ObjectStore FileStore Closure Repository AppState Artifact.

#[local] Open Scope Z_scope.

(** ** Bindings, limits, results *)

Record TrustedArtifactDecisionBinding := {
  tb_repository : str;
  tb_project_key : str;
  tb_proposal : DurableProposalBinding;
  tb_decision_head : str;
  tb_disposition : ArtifactDisposition;
  tb_reviewed_manifest_sha256 : str;
}.

Record ArtifactCheckoutLimits := {
  cl_artifact : ArtifactLimits;
  max_ref_snapshot_entries : Z;
  max_tree_nodes : Z;
  max_tree_edges : Z;
  max_authority_nodes : Z;
  max_authority_edges : Z;
}.

Definition default_checkout_limits : ArtifactCheckoutLimits :=
  {| cl_artifact := default_artifact_limits; max_ref_snapshot_entries := 100000; max_tree_nodes := 100000;
     max_tree_edges := 200000; max_authority_nodes := 100000; max_authority_edges := 200000 |}.

Record CheckedOutArtifact := {
  co_disposition : ArtifactDisposition;
  co_manifest_sha256 : str;
  co_files : list ArtifactManifestEntry;
  co_total_bytes : Z;
}.

Definition selected_snapshot (artifact : CheckedOutArtifact) : str :=
  match co_disposition artifact with
  | AdoptedUnchanged => lit "proposal"
  | ArtifactRejected | ArtifactDeferred => lit "base"
  end.

(** [CheckedOutArtifact::bytes] *)
Definition checked_out_bytes (artifact : CheckedOutArtifact) (normalized_path : str) : option (list byte) :=
  index ← binary_search_by (fun entry => lex_compare (ae_path entry) normalized_path) (co_files artifact);
  ae_bytes <$> co_files artifact !! index.

Inductive ArtifactCheckoutError :=
| Checkout (code : str)
| CheckoutPanic
| CheckoutAborted
| CheckoutOutOfFuel.

#[export] Instance ArtifactCheckoutError_eq_dec : EqDecision ArtifactCheckoutError.
Proof. solve_decision. Defined.

Abbreviation checkout_result := (result ArtifactCheckoutError).

Definition binding_invalid : ArtifactCheckoutError := Checkout (lit "artifact_binding_invalid").
Definition integrity : ArtifactCheckoutError := Checkout (lit "artifact_lineage_invalid").
Definition closure_missing : ArtifactCheckoutError := Checkout (lit "closure_missing").
Definition resource_limit : ArtifactCheckoutError := Checkout (lit "resource_limit").
Definition reference_type_mismatch : ArtifactCheckoutError := Checkout (lit "reference_type_mismatch").

Definition artifact_error (error : ArtifactError) : ArtifactCheckoutError :=
  let code := artifact_code error in
  if existsb (str_eqb code) [lit "artifact_limits_invalid"; lit "artifact_path_invalid"; lit "artifact_entry_unsupported";
                             lit "artifact_path_collision"; lit "resource_limit"]
  then Checkout code else integrity.

Definition external_error (code : option str) : ArtifactCheckoutError :=
  match code with
  | None => Checkout (lit "storage_error")
  | Some code =>
    if existsb (str_eqb code) [lit "resource_limit"; lit "oid_mismatch"; lit "reference_type_mismatch"; lit "closure_missing"]
    then Checkout code
    else if existsb (str_eqb code) [lit "key_not_nfc"; lit "path_segment_invalid"] then Checkout (lit "artifact_path_invalid")
    else if str_eqb code (lit "schema_invalid") then integrity
    else if existsb (str_eqb code) [lit "stale_base"; lit "ref_conflict"] then Checkout (lit "stale_base")
    else Checkout (lit "storage_error")
  end.

(** [?] on the errors of the core and of the store: what is no value of the code stays that. *)
Definition external_core (error : CoreError) : ArtifactCheckoutError :=
  match error with
  | Core code => external_error (Some (code_as_str code))
  | Panic => CheckoutPanic
  | Aborted => CheckoutAborted
  | OutOfFuel => CheckoutOutOfFuel
  end.

Definition external_store (error : StoreError) : ArtifactCheckoutError :=
  match error with
  | StoreCore error => external_core error
  | error => external_error (code_as_str <$> store_code error)
  end.

Definition of_external {A} (r : sresult A) : checkout_result A := map_err external_store r.

(** ** Validation of the request *)

Definition validate_limits (limits : ArtifactCheckoutLimits) : checkout_result unit :=
  reject_if
    (existsb (Z.eqb 0)
       [max_ref_snapshot_entries limits; max_tree_nodes limits; max_tree_edges limits; max_authority_nodes limits;
        max_authority_edges limits; al_max_files (cl_artifact limits); al_max_file_bytes (cl_artifact limits);
        al_max_total_bytes (cl_artifact limits); al_max_path_bytes (cl_artifact limits); al_max_depth (cl_artifact limits)])
    (Checkout (lit "artifact_limits_invalid")).

Definition is_key_start (b : byte) : bool := is_ascii_lowercase b || is_ascii_digit b.

Definition valid_project_key (value : str) : bool :=
  (len value <=? 128) &&
  match value with
  | [] => false
  | b :: bytes => is_key_start b && forallb (fun b => is_key_start b || (b =? 45) || (b =? 95) || (b =? 46)) bytes
  end.

Definition valid_sha256 (value : str) : bool := (len value =? 64) && forallb is_lower_hex value.

Definition is_kind (oid : str) (kind : ObjectKind) : bool := bool_decide (parse_oid oid = Ok kind).

Definition validate_binding (binding : TrustedArtifactDecisionBinding) : checkout_result unit :=
  let proposal := tb_proposal binding in
  let values := [db_project proposal; tb_project_key binding; db_proposal_ref_name proposal; db_proposal_head proposal;
                 db_decision_ref_name proposal; db_decision_head proposal; tb_decision_head binding;
                 tb_reviewed_manifest_sha256 binding] in
  reject_if
    (bool_decide (tb_repository binding = []) ||
     existsb (fun value => bool_decide (value = []) || (len value >? 1024) || existsb is_control (chars value)) values ||
     negb (valid_sha256 (tb_reviewed_manifest_sha256 binding))) binding_invalid;;
  for_each (fun oid => reject_if (negb (is_kind oid Commit)) binding_invalid)
    [db_proposal_head proposal; db_decision_head proposal; tb_decision_head binding];;
  reject_if (negb (valid_project_key (tb_project_key binding))) binding_invalid;;
  let expected_decision_ref := lit "decision/artifact/" ++ tb_project_key binding in
  reject_if (negb (str_eqb (db_decision_ref_name proposal) expected_decision_ref)) binding_invalid;;
  proposal_suffix ← ok_or (strip_prefix (lit "proposal/artifact/") (db_proposal_ref_name proposal)) binding_invalid;
  reject_if
    (negb (str_eqb proposal_suffix (tb_project_key binding)) &&
     negb match strip_prefix (tb_project_key binding) proposal_suffix with
          | Some suffix => starts_with (lit "/") suffix
          | None => false
          end) binding_invalid.

(** On the Refs of a snapshot, which are in the order of their names. *)
Definition require_ref_head (snapshot : RefSnapshot) (name expected : str) : checkout_result unit :=
  let records := RefStore.refs snapshot in
  match binary_search_by (fun record => lex_compare (RefStore.name record) name) records with
  | Some index =>
    reject_if (negb (bool_decide (RefStore.head <$> records !! index = Some expected))) (Checkout (lit "stale_base"))
  | None => Err (Checkout (lit "stale_base"))
  end.

(** ** Fields of structured objects *)

Definition require_equal (actual expected : str) : checkout_result unit := reject_if (negb (str_eqb actual expected)) integrity.

Definition require_object_field (value : Value) (field : str) : checkout_result Value :=
  ok_or (Canonical.get value field) integrity.
Definition require_string (value : Value) (field : str) : checkout_result str :=
  field ← require_object_field value field; ok_or (as_str field) integrity.
Definition require_array (value : Value) (field : str) : checkout_result (list Value) :=
  field ← require_object_field value field; ok_or (as_array field) integrity.
Definition object_string (fields : list (str * Value)) (field : str) : checkout_result str :=
  ok_or (object_field fields field ≫= as_str) integrity.

(** [require_equal(require_string(value, field)?, expected)] *)
Definition require_field (value : Value) (field expected : str) : checkout_result unit :=
  actual ← require_string value field; require_equal actual expected.

Definition of_kind (oid : str) (expected : ObjectKind) : checkout_result str :=
  if is_kind oid expected then Ok oid else Err reference_type_mismatch.

Definition require_oid (value : Value) (field : str) (expected : ObjectKind) : checkout_result str :=
  oid ← require_string value field; of_kind oid expected.

Definition require_single_oid (value : Value) (field : str) (expected : ObjectKind) : checkout_result str :=
  values ← require_array value field;
  match values with
  | [value] => oid ← ok_or (as_str value) integrity; of_kind oid expected
  | _ => Err integrity
  end.

Definition require_exact_string_array (value : Value) (field : str) (expected : list str) : checkout_result unit :=
  actual ← require_array value field;
  reject_if (negb ((len actual =? len expected) &&
                   forallb (fun '(actual, expected) => bool_decide (as_str actual = Some expected)) (zip actual expected))) integrity.

(** [require_array(value, field)?.len() != n] *)
Definition require_count (value : Value) (field : str) (n : Z) : checkout_result unit :=
  values ← require_array value field; reject_if (negb (len values =? n)) integrity.

Definition require_empty_array (value : Value) (field : str) : checkout_result unit := require_count value field 0.

Definition require_array_contains_string (value : Value) (field expected : str) : checkout_result unit :=
  values ← require_array value field;
  reject_if (negb (existsb (fun value => bool_decide (as_str value = Some expected)) values)) integrity.

Definition require_object_type (value : Value) (expected : str) : checkout_result unit :=
  require_field value (lit "object_type") expected.
Definition require_record_type (value : Value) (expected : str) : checkout_result unit :=
  require_object_type value (lit "record");;
  require_field value (lit "record_type") expected.

Definition tree_entries (tree : Value) : checkout_result (list (str * Value)) :=
  entries ← require_object_field tree (lit "entries"); ok_or (as_object entries) integrity.

Definition require_tree (value : Value) : checkout_result unit :=
  require_object_type value (lit "tree");;
  require_field value (lit "schema_version") (lit "0.1.0");;
  tree_entries value;;
  Ok tt.

Definition direct_entry_oid (tree : Value) (name : str) (expected : ObjectKind) : checkout_result str :=
  entries ← tree_entries tree;
  entry ← ok_or (object_field entries name) integrity;
  fields ← ok_or (as_object entry) integrity;
  reject_if (negb (len fields =? 2)) integrity;;
  kind ← object_string fields (lit "entry_kind");
  require_equal kind (prefix expected);;
  oid ← object_string fields (lit "oid");
  of_kind oid expected.

Definition require_exact_tree_entries (tree : Value) (expected : list str) : checkout_result unit :=
  entries ← tree_entries tree;
  reject_if (negb ((len entries =? len expected) &&
                   forallb (fun '(entry, expected) => str_eqb (fst entry) expected) (zip entries expected))) integrity.

(** An element of an array field whose named fields have the values. *)
Definition entry_matches (fields : list (str * str)) (entry : Value) : bool :=
  forallb (fun '(field, expected) => bool_decide (get_str entry field = Some expected)) fields.

Definition require_entry (value : Value) (field : str) (fields : list (str * str)) : checkout_result unit :=
  entries ← require_array value field;
  reject_if (negb (existsb (entry_matches fields) entries)) integrity.

Definition require_role_oid (value : Value) (field expected_role expected_oid : str) : checkout_result unit :=
  require_entry value field [(lit "role", expected_role); (lit "oid", expected_oid)].

Definition require_role_actor (value : Value) (expected_role expected_actor : str) : checkout_result unit :=
  require_entry value (lit "actor_refs") [(lit "role", expected_role); (lit "actor_ref", expected_actor)].

Definition require_publish_gate (policy_payload : Value) (decision_ref : str) : checkout_result unit :=
  require_entry policy_payload (lit "rules")
    [(lit "effect", lit "require_human_gate"); (lit "action", lit "publish"); (lit "resource_selector", decision_ref);
     (lit "human_gate", lit "before_decision_ref")].

Definition require_proposal_rule (policy_payload : Value) (proposal_selector : str) : checkout_result unit :=
  rules ← require_array policy_payload (lit "rules");
  reject_if (negb ((len rules =? 3) &&
                   existsb (entry_matches [(lit "effect", lit "allow"); (lit "action", lit "propose");
                                           (lit "resource_selector", proposal_selector)]) rules)) integrity.

Definition require_writable_ref (payload : Value) (proposal_ref : str) : checkout_result unit :=
  prefixes ← require_array payload (lit "writable_ref_prefixes");
  reject_if
    (negb (existsb (fun prefix => str_eqb proposal_ref prefix ||
                                  match strip_prefix prefix proposal_ref with
                                  | Some suffix => starts_with (lit "/") suffix
                                  | None => false
                                  end) (omap as_str prefixes))) integrity.

Definition disposition_name (disposition : ArtifactDisposition) : str :=
  match disposition with
  | AdoptedUnchanged => lit "adopted_unchanged"
  | ArtifactRejected => lit "rejected"
  | ArtifactDeferred => lit "deferred"
  end.

(** ** The work of the authority proof *)

Record AuthorityWork := { aw_nodes : Z; aw_edges : Z }.

Definition no_work : AuthorityWork := {| aw_nodes := 0; aw_edges := 0 |}.

(** [AuthorityWork::node] *)
Definition work_node (limits : ArtifactCheckoutLimits) (work : AuthorityWork) : checkout_result AuthorityWork :=
  nodes ← ok_or (usize_checked_add (aw_nodes work) 1) resource_limit;
  reject_if (nodes >? max_authority_nodes limits) resource_limit;;
  Ok {| aw_nodes := nodes; aw_edges := aw_edges work |}.

(** [AuthorityWork::edges] *)
Definition work_edges (count : Z) (limits : ArtifactCheckoutLimits) (work : AuthorityWork) : checkout_result AuthorityWork :=
  edges ← ok_or (usize_checked_add (aw_edges work) count) resource_limit;
  reject_if (edges >? max_authority_edges limits) resource_limit;;
  Ok {| aw_nodes := aw_nodes work; aw_edges := edges |}.

Fixpoint work_node_times (n : nat) (limits : ArtifactCheckoutLimits) (work : AuthorityWork) : checkout_result AuthorityWork :=
  match n with
  | O => Ok work
  | S n => work ← work_node limits work; work_node_times n limits work
  end.

Section Checkout.
Variable sha256 : list byte -> list byte.
Variable nfc : list char -> list char.
Variable to_lowercase : char -> list char.
Variable json_pointer : Json -> str -> option (list nat).
Variable registry : SchemaRegistry.
Variable repository : Repository FileObjectStore.

Definition load_structured (oid : str) (expected : ObjectKind) : checkout_result Value :=
  reject_if (negb (is_kind oid expected)) reference_type_mismatch;;
  object ← of_external (file_get_verified sha256 nfc (Repository.objects repository) oid);
  object ← ok_or object closure_missing;
  reject_if (negb (bool_decide (ob_kind object = expected))) integrity;;
  value ← ok_or (ob_structured object) integrity;
  map_err external_core (validate nfc json_pointer registry value);;
  Ok value.

(** A Record of the type, with its payload. *)
Definition load_record (oid record_type : str) : checkout_result Value :=
  record ← load_structured oid Record;
  require_record_type record record_type;;
  Ok record.

Definition load_tree (oid : str) (names : list str) : checkout_result Value :=
  tree ← load_structured oid Tree;
  require_tree tree;;
  require_exact_tree_entries tree names;;
  Ok tree.

(** The names of a proposal's snapshot, and of the first snapshot. *)
Definition proposal_names : list str := [lit "activity.json"; lit "base"; lit "context.json"; lit "site"].
Definition genesis_names : list str := [lit "control"; lit "site"].
Definition control_names : list str :=
  [lit "agent.actor.json"; lit "creator.actor.json"; lit "grant.json"; lit "policy.json"; lit "review-context.json";
   lit "subject.json"].

(** ** Earlier Decisions *)

(** One iteration over a Decision: its parent, where the chain goes on. *)
Definition verify_prior_decision (commit : Value) (snapshot_oid decision_ref human_actor ai_actor policy_oid grant_oid : str)
    (limits : ArtifactCheckoutLimits) (work : AuthorityWork) : checkout_result (str * AuthorityWork) :=
  parents ← require_array commit (lit "parents");
  parent ← match parents with [parent] => ok_or (as_str parent) integrity | _ => Err integrity end;
  reject_if (negb (is_kind parent Commit)) integrity;;
  feedback_oid ← require_single_oid commit (lit "transition_refs") Record;
  work ← work_edges 2 limits work;
  work ← work_node limits work;
  feedback ← load_record feedback_oid (lit "decision_feedback");
  require_field feedback (lit "origin") (lit "self_declared");;
  require_field feedback (lit "asserted_by") human_actor;;
  feedback_payload ← require_object_field feedback (lit "payload");
  proposal_head ← require_string feedback_payload (lit "proposal_ref");
  reject_if (negb (is_kind proposal_head Commit)) integrity;;
  disposition ← require_string feedback_payload (lit "disposition");
  work ← work_node limits work;
  proposal ← load_structured proposal_head Commit;
  require_object_type proposal (lit "commit");;
  require_field proposal (lit "commit_kind") (lit "checkpoint");;
  require_exact_string_array proposal (lit "parents") [parent];;
  require_empty_array proposal (lit "bound_declaration_refs");;
  require_field proposal (lit "author_ref") ai_actor;;
  activity_oid ← require_single_oid proposal (lit "transition_refs") Record;
  proposal_snapshot ← require_oid proposal (lit "snapshot") Tree;
  work ← work_node limits work;
  proposal_tree ← load_tree proposal_snapshot proposal_names;
  work ← work_edges 4 limits work;
  bound_activity ← direct_entry_oid proposal_tree (lit "activity.json") Record;
  require_equal bound_activity activity_oid;;
  context_oid ← direct_entry_oid proposal_tree (lit "context.json") Record;
  proposal_site ← direct_entry_oid proposal_tree (lit "site") Tree;
  work ← work_node limits work;
  parent_commit ← load_structured parent Commit;
  parent_snapshot ← require_oid parent_commit (lit "snapshot") Tree;
  bound_base ← direct_entry_oid proposal_tree (lit "base") Tree;
  require_equal bound_base parent_snapshot;;
  expected_selected ← (if str_eqb disposition (lit "adopted_unchanged") then Ok proposal_snapshot
                       else if str_eqb disposition (lit "rejected") || str_eqb disposition (lit "deferred") then Ok parent_snapshot
                       else Err integrity);
  require_equal snapshot_oid expected_selected;;
  work ← work_node limits work;
  context ← load_record context_oid (lit "context_pack");
  require_field context (lit "asserted_by") human_actor;;
  context_payload ← require_object_field context (lit "payload");
  for_each (fun '(field, expected) => require_field context_payload field expected)
    [(lit "base_commit", parent); (lit "expected_ref_head", parent); (lit "base_ref_name", decision_ref);
     (lit "policy_snapshot_ref", policy_oid); (lit "delegation_grant_ref", grant_oid)];;
  work ← work_node limits work;
  activity ← load_record activity_oid (lit "activity");
  require_field activity (lit "asserted_by") ai_actor;;
  activity_payload ← require_object_field activity (lit "payload");
  require_role_oid activity_payload (lit "input_refs") (lit "context") context_oid;;
  require_role_oid activity_payload (lit "output_refs") (lit "proposal") proposal_site;;
  ai_run ← require_object_field activity_payload (lit "ai_run");
  bound_grant ← require_oid ai_run (lit "delegation_grant_ref") Record;
  require_equal bound_grant grant_oid;;
  Ok (parent, work).

(** The last iteration: the checkpoint where the project began. *)
Definition verify_genesis (commit : Value) (snapshot_oid : str) (limits : ArtifactCheckoutLimits) (work : AuthorityWork)
  : checkout_result AuthorityWork :=
  require_empty_array commit (lit "parents");;
  require_empty_array commit (lit "transition_refs");;
  work ← work_node limits work;
  root ← load_tree snapshot_oid genesis_names;
  work ← work_edges 2 limits work;
  direct_entry_oid root (lit "control") Tree;;
  direct_entry_oid root (lit "site") Tree;;
  Ok work.

Fixpoint verify_prior_decision_chain (fuel : nat) (cursor : str) (visited : gset str)
    (decision_ref human_actor ai_actor policy_oid grant_oid : str) (limits : ArtifactCheckoutLimits) (work : AuthorityWork)
  : checkout_result AuthorityWork :=
  match fuel with
  | O => Err CheckoutOutOfFuel
  | S fuel =>
    reject_if (bool_decide (cursor ∈ visited)) integrity;;
    work ← work_node limits work;
    commit ← load_structured cursor Commit;
    require_object_type commit (lit "commit");;
    require_empty_array commit (lit "bound_declaration_refs");;
    require_field commit (lit "author_ref") human_actor;;
    snapshot_oid ← require_oid commit (lit "snapshot") Tree;
    kind ← require_string commit (lit "commit_kind");
    if str_eqb kind (lit "checkpoint") then verify_genesis commit snapshot_oid limits work
    else if str_eqb kind (lit "decision") then
      '(parent, work) ← verify_prior_decision commit snapshot_oid decision_ref human_actor ai_actor policy_oid grant_oid limits work;
      verify_prior_decision_chain fuel parent ({[cursor]} ∪ visited) decision_ref human_actor ai_actor policy_oid grant_oid limits work
    else Err integrity
  end.

(** ** The authority of the base *)

(** The Records of the control Tree, after its entries are counted. *)
Definition verify_control_records (stored_human stored_ai stored_subject stored_policy stored_grant human_actor ai_actor subject : str)
    (binding : TrustedArtifactDecisionBinding) : checkout_result unit :=
  human ← load_record stored_human (lit "actor");
  require_field human (lit "entity_id") human_actor;;
  require_field human (lit "asserted_by") human_actor;;
  require_field human (lit "origin") (lit "self_declared");;
  human_payload ← require_object_field human (lit "payload");
  require_field human_payload (lit "actor_kind") (lit "human");;
  ai ← load_record stored_ai (lit "actor");
  require_field ai (lit "entity_id") ai_actor;;
  require_field ai (lit "asserted_by") human_actor;;
  require_field ai (lit "origin") (lit "tool_recorded");;
  ai_payload ← require_object_field ai (lit "payload");
  require_field ai_payload (lit "actor_kind") (lit "ai_agent");;
  subject_record ← load_record stored_subject (lit "subject");
  require_field subject_record (lit "entity_id") subject;;
  require_field subject_record (lit "asserted_by") human_actor;;
  require_field subject_record (lit "origin") (lit "self_declared");;
  subject_payload ← require_object_field subject_record (lit "payload");
  require_field subject_payload (lit "subject_kind") (lit "digital");;
  require_field subject_payload (lit "label") (tb_project_key binding);;
  policy ← load_record stored_policy (lit "policy");
  require_field policy (lit "asserted_by") human_actor;;
  policy_payload ← require_object_field policy (lit "payload");
  require_exact_string_array policy_payload (lit "scope_refs") [db_project (tb_proposal binding)];;
  require_field policy_payload (lit "default_effect") (lit "deny");;
  require_publish_gate policy_payload (db_decision_ref_name (tb_proposal binding));;
  require_proposal_rule policy_payload (lit "proposal/artifact/" ++ tb_project_key binding ++ lit "/**");;
  grant ← load_record stored_grant (lit "delegation_grant");
  require_field grant (lit "asserted_by") human_actor;;
  grant_payload ← require_object_field grant (lit "payload");
  require_field grant_payload (lit "principal_ref") human_actor;;
  require_field grant_payload (lit "delegate_ref") ai_actor;;
  require_field grant_payload (lit "project_ref") (db_project (tb_proposal binding));;
  require_exact_string_array grant_payload (lit "writable_ref_prefixes") [lit "proposal/artifact/" ++ tb_project_key binding].

Definition verify_control (snapshot : Value) (policy_oid grant_oid human_actor ai_actor subject : str)
    (binding : TrustedArtifactDecisionBinding) (limits : ArtifactCheckoutLimits) (work : AuthorityWork)
  : checkout_result AuthorityWork :=
  require_exact_tree_entries snapshot genesis_names;;
  work ← work_edges 2 limits work;
  direct_entry_oid snapshot (lit "site") Tree;;
  control_oid ← direct_entry_oid snapshot (lit "control") Tree;
  work ← work_node limits work;
  control ← load_tree control_oid control_names;
  work ← work_edges 6 limits work;
  stored_ai ← direct_entry_oid control (lit "agent.actor.json") Record;
  stored_human ← direct_entry_oid control (lit "creator.actor.json") Record;
  stored_grant ← direct_entry_oid control (lit "grant.json") Record;
  stored_policy ← direct_entry_oid control (lit "policy.json") Record;
  direct_entry_oid control (lit "review-context.json") Blob;;
  stored_subject ← direct_entry_oid control (lit "subject.json") Record;
  work ← work_node_times 5 limits work;
  reject_if (negb (str_eqb stored_grant grant_oid) || negb (str_eqb stored_policy policy_oid)) integrity;;
  verify_control_records stored_human stored_ai stored_subject stored_policy stored_grant human_actor ai_actor subject binding;;
  Ok work.

Fixpoint verify_base_authority (fuel : nat) (cursor : str) (visited : gset str)
    (policy_oid grant_oid human_actor ai_actor subject : str) (binding : TrustedArtifactDecisionBinding)
    (limits : ArtifactCheckoutLimits) (work : AuthorityWork) : checkout_result AuthorityWork :=
  match fuel with
  | O => Err CheckoutOutOfFuel
  | S fuel =>
    reject_if (bool_decide (cursor ∈ visited)) integrity;;
    work ← work_node limits work;
    snapshot ← load_structured cursor Tree;
    require_tree snapshot;;
    entries ← tree_entries snapshot;
    if len entries =? 4 then
      require_exact_tree_entries snapshot proposal_names;;
      work ← work_edges 4 limits work;
      direct_entry_oid snapshot (lit "activity.json") Record;;
      direct_entry_oid snapshot (lit "context.json") Record;;
      direct_entry_oid snapshot (lit "site") Tree;;
      base ← direct_entry_oid snapshot (lit "base") Tree;
      verify_base_authority fuel base ({[cursor]} ∪ visited) policy_oid grant_oid human_actor ai_actor subject binding limits work
    else verify_control snapshot policy_oid grant_oid human_actor ai_actor subject binding limits work
  end.

(** Each iteration of the two loops counts a node. *)
Definition authority_fuel (limits : ArtifactCheckoutLimits) : nat := S (Z.to_nat (max_authority_nodes limits)).

(** ** Context, policy, grant and activity of the proposal *)

(** The policy and the grant, as the context names them. *)
Definition verify_policy_and_grant (binding : TrustedArtifactDecisionBinding) (context_payload : Value)
    (policy_oid grant_oid human_actor : str) : checkout_result Value :=
  policy ← load_record policy_oid (lit "policy");
  require_field policy (lit "origin") (lit "self_declared");;
  require_field policy (lit "asserted_by") human_actor;;
  policy_payload ← require_object_field policy (lit "payload");
  require_array_contains_string policy_payload (lit "scope_refs") (db_project (tb_proposal binding));;
  require_publish_gate policy_payload (db_decision_ref_name (tb_proposal binding));;
  require_field policy_payload (lit "default_effect") (lit "deny");;
  grant ← load_record grant_oid (lit "delegation_grant");
  require_field grant (lit "origin") (lit "self_declared");;
  require_field grant (lit "asserted_by") human_actor;;
  grant_payload ← require_object_field grant (lit "payload");
  require_field grant_payload (lit "project_ref") (db_project (tb_proposal binding));;
  require_field grant_payload (lit "principal_ref") human_actor;;
  classification ← require_string context_payload (lit "data_classification");
  require_array_contains_string grant_payload (lit "data_classes") classification;;
  require_array_contains_string grant_payload (lit "resource_selectors") (lit "project/**");;
  require_array_contains_string grant_payload (lit "required_human_gates") (lit "before_decision_ref");;
  require_writable_ref grant_payload (db_proposal_ref_name (tb_proposal binding));;
  Ok grant_payload.

(** The Record of the AI run; its actor. *)
Definition verify_activity (context_oid activity_oid grant_oid proposal_site : str) (proposal grant_payload : Value)
    (human_actor : str) : checkout_result str :=
  activity ← load_record activity_oid (lit "activity");
  require_field activity (lit "origin") (lit "tool_recorded");;
  author ← require_string proposal (lit "author_ref");
  ai_actor ← require_string activity (lit "asserted_by");
  require_equal author ai_actor;;
  activity_payload ← require_object_field activity (lit "payload");
  require_field activity_payload (lit "activity_kind") (lit "ai_run");;
  require_field activity_payload (lit "side_effect_class") (lit "none");;
  require_count activity_payload (lit "input_refs") 2;;
  require_count activity_payload (lit "output_refs") 1;;
  require_count activity_payload (lit "actor_refs") 2;;
  require_count activity_payload (lit "subject_refs") 1;;
  require_role_oid activity_payload (lit "input_refs") (lit "context") context_oid;;
  outputs ← require_array activity_payload (lit "output_refs");
  output ← match outputs with [output] => ok_or (as_object output) integrity | _ => Err integrity end;
  role ← object_string output (lit "role");
  require_equal role (lit "proposal");;
  oid ← object_string output (lit "oid");
  require_equal oid proposal_site;;
  ai_run ← require_object_field activity_payload (lit "ai_run");
  bound_context ← require_oid ai_run (lit "context_pack_ref") Record;
  require_equal bound_context context_oid;;
  bound_grant ← require_oid ai_run (lit "delegation_grant_ref") Record;
  require_equal bound_grant grant_oid;;
  require_field ai_run (lit "status") (lit "proposal_ready");;
  require_array_contains_string ai_run (lit "required_human_gates") (lit "before_decision_ref");;
  agent ← require_string ai_run (lit "agent_ref");
  require_equal agent ai_actor;;
  require_field ai_run (lit "responsible_principal_ref") human_actor;;
  require_role_actor activity_payload (lit "agent") agent;;
  require_role_actor activity_payload (lit "responsible_principal") human_actor;;
  require_field grant_payload (lit "delegate_ref") ai_actor;;
  Ok ai_actor.

Definition verify_context_and_activity (binding : TrustedArtifactDecisionBinding)
    (base_head base_snapshot context_oid activity_oid proposal_site : str) (proposal : Value) (human_actor : str)
    (limits : ArtifactCheckoutLimits) (work : AuthorityWork) : checkout_result AuthorityWork :=
  let decision_ref := db_decision_ref_name (tb_proposal binding) in
  context ← load_record context_oid (lit "context_pack");
  require_field context (lit "origin") (lit "tool_recorded");;
  require_field context (lit "asserted_by") human_actor;;
  context_payload ← require_object_field context (lit "payload");
  for_each (fun '(field, expected) => require_field context_payload field expected)
    [(lit "base_commit", base_head); (lit "expected_ref_head", base_head); (lit "base_ref_name", decision_ref)];;
  require_array_contains_string context_payload (lit "selected_context_refs") base_head;;
  require_count context_payload (lit "selected_context_refs") 2;;
  require_count context_payload (lit "subject_refs") 1;;
  policy_oid ← require_oid context_payload (lit "policy_snapshot_ref") Record;
  grant_oid ← require_oid context_payload (lit "delegation_grant_ref") Record;
  grant_payload ← verify_policy_and_grant binding context_payload policy_oid grant_oid human_actor;
  ai_actor ← verify_activity context_oid activity_oid grant_oid proposal_site proposal grant_payload human_actor;
  subject_refs ← require_array context_payload (lit "subject_refs");
  subject ← match subject_refs with [subject] => ok_or (as_str subject) integrity | _ => Err integrity end;
  work ← verify_prior_decision_chain (authority_fuel limits) base_head ∅ decision_ref human_actor ai_actor policy_oid grant_oid
           limits work;
  verify_base_authority (authority_fuel limits) base_snapshot ∅ policy_oid grant_oid human_actor ai_actor subject binding limits work.

(** ** The Decision *)

(** The Decision Commit and the feedback it carries: the selected snapshot and the human actor. *)
Definition verify_decision (binding : TrustedArtifactDecisionBinding) : checkout_result (str * str) :=
  decision ← load_structured (tb_decision_head binding) Commit;
  require_object_type decision (lit "commit");;
  require_field decision (lit "commit_kind") (lit "decision");;
  require_exact_string_array decision (lit "parents") [db_decision_head (tb_proposal binding)];;
  require_empty_array decision (lit "bound_declaration_refs");;
  feedback_oid ← require_single_oid decision (lit "transition_refs") Record;
  selected_snapshot ← require_oid decision (lit "snapshot") Tree;
  feedback ← load_record feedback_oid (lit "decision_feedback");
  require_field feedback (lit "origin") (lit "self_declared");;
  feedback_payload ← require_object_field feedback (lit "payload");
  require_field feedback_payload (lit "proposal_ref") (db_proposal_head (tb_proposal binding));;
  require_field feedback_payload (lit "disposition") (disposition_name (tb_disposition binding));;
  human_actor ← require_string feedback (lit "asserted_by");
  require_field decision (lit "author_ref") human_actor;;
  Ok (selected_snapshot, human_actor).

(** The base Commit: its snapshot, and the site of that. *)
Definition verify_base (base_head human_actor : str) : checkout_result (str * str) :=
  base ← load_structured base_head Commit;
  require_object_type base (lit "commit");;
  require_field base (lit "author_ref") human_actor;;
  require_empty_array base (lit "bound_declaration_refs");;
  kind ← require_string base (lit "commit_kind");
  (if str_eqb kind (lit "checkpoint") then
     require_empty_array base (lit "parents");;
     require_empty_array base (lit "transition_refs")
   else if str_eqb kind (lit "decision") then
     require_count base (lit "parents") 1;;
     require_single_oid base (lit "transition_refs") Record;;
     Ok tt
   else Err integrity);;
  base_snapshot ← require_oid base (lit "snapshot") Tree;
  base_snapshot_value ← load_structured base_snapshot Tree;
  require_tree base_snapshot_value;;
  base_site ← direct_entry_oid base_snapshot_value (lit "site") Tree;
  Ok (base_snapshot, base_site).

(** The Decision, its base and its proposal; the site that it selects. *)
Definition verify_generic_decision (binding : TrustedArtifactDecisionBinding) (limits : ArtifactCheckoutLimits)
  : checkout_result str :=
  let base_head := db_decision_head (tb_proposal binding) in
  '(selected_snapshot, human_actor) ← verify_decision binding;
  '(base_snapshot, base_site) ← verify_base base_head human_actor;
  proposal ← load_structured (db_proposal_head (tb_proposal binding)) Commit;
  require_object_type proposal (lit "commit");;
  require_field proposal (lit "commit_kind") (lit "checkpoint");;
  require_exact_string_array proposal (lit "parents") [base_head];;
  require_empty_array proposal (lit "bound_declaration_refs");;
  activity_oid ← require_single_oid proposal (lit "transition_refs") Record;
  proposal_snapshot ← require_oid proposal (lit "snapshot") Tree;
  proposal_snapshot_value ← load_tree proposal_snapshot proposal_names;
  proposal_site ← direct_entry_oid proposal_snapshot_value (lit "site") Tree;
  bound_base ← direct_entry_oid proposal_snapshot_value (lit "base") Tree;
  require_equal bound_base base_snapshot;;
  context_oid ← direct_entry_oid proposal_snapshot_value (lit "context.json") Record;
  bound_activity ← direct_entry_oid proposal_snapshot_value (lit "activity.json") Record;
  require_equal bound_activity activity_oid;;
  verify_context_and_activity binding base_head base_snapshot context_oid activity_oid proposal_site proposal human_actor
    limits no_work;;
  let expected_snapshot := match tb_disposition binding with
                           | AdoptedUnchanged => proposal_snapshot
                           | ArtifactRejected | ArtifactDeferred => base_snapshot
                           end in
  require_equal selected_snapshot expected_snapshot;;
  Ok match tb_disposition binding with
     | AdoptedUnchanged => proposal_site
     | ArtifactRejected | ArtifactDeferred => base_site
     end.

(** ** The files of the site *)

Record TraversalWork := { tw_tree_nodes : Z; tw_tree_edges : Z; tw_files : Z; tw_total_bytes : Z }.
Record PendingTree := { pt_oid : str; pt_prefix : str; pt_depth : Z }.

(** What the walk carries: its work, the stack of Trees with the next one first, and the files. *)
Record Traversal := { tr_work : TraversalWork; tr_pending : list PendingTree; tr_files : list ArtifactManifestEntry }.

Definition validate_segment (segment : str) : checkout_result unit :=
  reject_if
    (negb (is_portable_segment segment) || contains_byte 92 segment || existsb is_ascii_control segment ||
     negb (is_nfc_text nfc segment) || negb (portable_component segment)) (Checkout (lit "artifact_path_invalid")).

Definition join_path (prefix segment : str) (max_path_bytes : Z) : checkout_result str :=
  let separator := if bool_decide (prefix = []) then 0 else 1 in
  byte_len ← ok_or (byte_len ← usize_checked_add (len prefix) separator; usize_checked_add byte_len (len segment)) resource_limit;
  reject_if (byte_len >? max_path_bytes) resource_limit;;
  Ok (if bool_decide (prefix = []) then segment else prefix ++ lit "/" ++ segment).

(** The loop over the ordered segments of a Tree. *)
Fixpoint check_child_spellings (segments : list str) (child_spellings : gmap (list char) str) : checkout_result unit :=
  match segments with
  | [] => Ok tt
  | segment :: segments =>
    validate_segment segment;;
    let folded := lowercase_key to_lowercase segment in
    reject_if (match child_spellings !! folded with Some existing => negb (str_eqb existing segment) | None => false end)
      (Checkout (lit "artifact_path_collision"));;
    check_child_spellings segments (<[folded := segment]> child_spellings)
  end.

(** The bytes of a Blob, within what the limits leave. *)
Definition read_file (oid path : str) (limits : ArtifactLimits) (work : TraversalWork) (files : list ArtifactManifestEntry)
  : checkout_result (TraversalWork * list ArtifactManifestEntry) :=
  count ← ok_or (usize_checked_add (tw_files work) 1) resource_limit;
  reject_if (count >? al_max_files limits) resource_limit;;
  let remaining := Z.max 0 (al_max_total_bytes limits - tw_total_bytes work) in
  let read_limit := Z.max (Z.min (al_max_file_bytes limits) remaining) 1 in
  bytes ← of_external (read_verified_blob_limited sha256 (Repository.objects repository) oid read_limit);
  bytes ← ok_or bytes closure_missing;
  reject_if (len bytes >? al_max_file_bytes limits) resource_limit;;
  total_bytes ← ok_or (usize_checked_add (tw_total_bytes work) (len bytes)) resource_limit;
  reject_if (total_bytes >? al_max_total_bytes limits) resource_limit;;
  Ok ({| tw_tree_nodes := tw_tree_nodes work; tw_tree_edges := tw_tree_edges work; tw_files := count; tw_total_bytes := total_bytes |},
      files ++ [regular_file path bytes]).

(** One entry of a Tree. *)
Definition read_entry (limits : ArtifactCheckoutLimits) (tree : PendingTree) (name : str) (entry : Value) (t : Traversal)
  : checkout_result Traversal :=
  let artifact := cl_artifact limits in
  let work := tr_work t in
  tree_edges ← ok_or (usize_checked_add (tw_tree_edges work) 1) resource_limit;
  reject_if (tree_edges >? max_tree_edges limits) resource_limit;;
  depth ← ok_or (usize_checked_add (pt_depth tree) 1) resource_limit;
  reject_if (depth >? al_max_depth artifact) resource_limit;;
  path ← join_path (pt_prefix tree) name (al_max_path_bytes artifact);
  fields ← ok_or (as_object entry) integrity;
  reject_if (negb (len fields =? 2)) integrity;;
  entry_kind ← object_string fields (lit "entry_kind");
  oid ← object_string fields (lit "oid");
  expected_kind ← (if str_eqb entry_kind (lit "blob") then Ok Blob
                   else if str_eqb entry_kind (lit "tree") then Ok Tree
                   else Err (Checkout (lit "artifact_entry_unsupported")));
  reject_if (negb (is_kind oid expected_kind)) reference_type_mismatch;;
  let work := {| tw_tree_nodes := tw_tree_nodes work; tw_tree_edges := tree_edges; tw_files := tw_files work;
                 tw_total_bytes := tw_total_bytes work |} in
  match expected_kind with
  | Tree =>
    Ok {| tr_work := work; tr_pending := {| pt_oid := oid; pt_prefix := path; pt_depth := depth |} :: tr_pending t;
          tr_files := tr_files t |}
  | Blob =>
    '(work, files) ← read_file oid path artifact work (tr_files t);
    Ok {| tr_work := work; tr_pending := tr_pending t; tr_files := files |}
  | Record | Commit => Err CheckoutPanic
  end.

(** The loop over the entries, from the last one. *)
Fixpoint read_entries (limits : ArtifactCheckoutLimits) (tree : PendingTree) (entries : list (str * Value)) (t : Traversal)
  : checkout_result Traversal :=
  match entries with
  | [] => Ok t
  | (name, entry) :: entries => t ← read_entry limits tree name entry t; read_entries limits tree entries t
  end.

Definition by_key (left right : str * Value) : comparison := lex_compare (fst left) (fst right).

(** One Tree of the stack. *)
Definition read_tree (limits : ArtifactCheckoutLimits) (tree : PendingTree) (t : Traversal) : checkout_result Traversal :=
  let work := tr_work t in
  tree_nodes ← ok_or (usize_checked_add (tw_tree_nodes work) 1) resource_limit;
  reject_if ((tree_nodes >? max_tree_nodes limits) || (pt_depth tree >? al_max_depth (cl_artifact limits))) resource_limit;;
  value ← load_structured (pt_oid tree) Tree;
  require_tree value;;
  entries ← tree_entries value;
  let ordered := sort_by by_key entries in
  check_child_spellings (map fst ordered) ∅;;
  read_entries limits tree (rev ordered)
    {| tr_work := {| tw_tree_nodes := tree_nodes; tw_tree_edges := tw_tree_edges work; tw_files := tw_files work;
                     tw_total_bytes := tw_total_bytes work |};
       tr_pending := tr_pending t; tr_files := tr_files t |}.

Fixpoint read_trees (fuel : nat) (limits : ArtifactCheckoutLimits) (t : Traversal) : checkout_result (list ArtifactManifestEntry) :=
  match tr_pending t with
  | [] => Ok (tr_files t)
  | tree :: pending =>
    match fuel with
    | O => Err CheckoutOutOfFuel
    | S fuel =>
      t ← read_tree limits tree {| tr_work := tr_work t; tr_pending := pending; tr_files := tr_files t |};
      read_trees fuel limits t
    end
  end.

(** Each iteration counts a Tree. *)
Definition site_fuel (limits : ArtifactCheckoutLimits) : nat := S (Z.to_nat (max_tree_nodes limits)).

Definition read_site (site_oid : str) (limits : ArtifactCheckoutLimits) : checkout_result (list ArtifactManifestEntry) :=
  read_trees (site_fuel limits) limits
    {| tr_work := {| tw_tree_nodes := 0; tw_tree_edges := 0; tw_files := 0; tw_total_bytes := 0 |};
       tr_pending := [{| pt_oid := site_oid; pt_prefix := []; pt_depth := 0 |}]; tr_files := [] |}.

(** ** Checkout *)

Definition by_path (left right : ArtifactManifestEntry) : comparison := lex_compare (ae_path left) (ae_path right).

Definition verify_selected_artifact (binding : TrustedArtifactDecisionBinding) (limits : ArtifactCheckoutLimits)
  : checkout_result (RegularFileManifest * str) :=
  selected_site ← verify_generic_decision binding limits;
  files ← read_site selected_site limits;
  manifest ← map_err artifact_error (from_entries nfc to_lowercase (sort_by by_path files) (cl_artifact limits));
  let digest := artifact_manifest_sha256 sha256 manifest in
  reject_if (negb (str_eqb digest (tb_reviewed_manifest_sha256 binding))) (Checkout (lit "artifact_digest_mismatch"));;
  Ok (manifest, digest).

Definition checkout_artifact_decision_in_repository (binding : TrustedArtifactDecisionBinding) (limits : ArtifactCheckoutLimits)
  : checkout_result CheckedOutArtifact :=
  validate_limits limits;;
  validate_binding binding;;
  refs ← map_err (fun error => external_error (Some (ref_store_code error)))
           (snapshot_limited (max_ref_snapshot_entries limits) (tables (Repository.refs repository)));
  require_ref_head refs (db_proposal_ref_name (tb_proposal binding)) (db_proposal_head (tb_proposal binding));;
  require_ref_head refs (db_decision_ref_name (tb_proposal binding)) (tb_decision_head binding);;
  '(manifest, digest) ← verify_selected_artifact binding limits;
  Ok {| co_disposition := tb_disposition binding; co_manifest_sha256 := digest;
        co_files := map (fun file => regular_file (fst file) (snd file)) (mf_files manifest);
        co_total_bytes := mf_total_bytes manifest |}.

Definition verify_historical_artifact_decision_in_repository (refs : RefSnapshot) (binding : TrustedArtifactDecisionBinding)
    (limits : ArtifactCheckoutLimits) : checkout_result unit :=
  validate_limits limits;;
  validate_binding binding;;
  reject_if (len (RefStore.refs refs) >? max_ref_snapshot_entries limits) resource_limit;;
  require_ref_head refs (db_proposal_ref_name (tb_proposal binding)) (db_proposal_head (tb_proposal binding));;
  verify_selected_artifact binding limits;;
  Ok tt.
End Checkout.
