(* ===== verification/CheckoutFacts.v ===== *)
(** * Checkout: it always answers, the walk over the site, and what the verification establishes *)

From Stdlib Require Import ZArith Lia.
From stdpp Require Import base list numbers strings gmap sets.
From S2P Require Import Prelude Bytes Sorting Text TextFacts BTree PortablePath RefStore RefStoreProps Canonical Oid SchemaSemantics.
From S2P Require Import Registry CanonicalLaws CanonicalProps RegistryProps ObjectStore FileStore Closure Repository AppState Artifact ArtifactProps Checkout.

#[local] Open Scope Z_scope.

(** ** Checkout: it always answers, and what its checks establish *)

(** ** Errors have a code *)

Definition has_code (e : ArtifactCheckoutError) : Prop := exists code, e = Checkout code.

(** Neither a panic nor an exhausted loop; the process may end only where [P] holds. *)
Definition settles_or (P : Prop) {A} (r : checkout_result A) : Prop :=
  forall e, r = Err e -> has_code e \/ e = CheckoutAborted /\ P.

Section Settles.
Variable P : Prop.
#[local] Abbreviation settles := (settles_or P).

Lemma settles_Ok {A} (a : A) : settles (Ok a).
Proof. by intros e. Qed.

Lemma settles_bind {A B} (m : checkout_result A) (f : A -> checkout_result B) :
  settles m -> (forall a, m = Ok a -> settles (f a)) -> settles (m ≫= f).
Proof. intros Hm Hf. destruct m as [a|e]; [by apply Hf|]. intros e' [= <-]. by apply Hm. Qed.

Lemma settles_Err {A} e : has_code e -> settles_or P (A := A) (Err e).
Proof. intros He e' [= <-]. by left. Qed.

Lemma settles_reject b e : has_code e -> settles (reject_if b e).
Proof. intros He e'. destruct b; [|done]. intros [= <-]. by left. Qed.

Lemma settles_ok_or {A} (o : option A) e : has_code e -> settles (ok_or o e).
Proof. intros He e'. destruct o; [done|]. intros [= <-]. by left. Qed.

Lemma settles_map_err {E A} (f : E -> ArtifactCheckoutError) (r : result E A) : (forall e, has_code (f e)) -> settles (map_err f r).
Proof. intros Hf e'. destruct r as [|e]; [done|]. intros [= <-]. left. apply Hf. Qed.

Lemma settles_for_each {A} (f : A -> checkout_result unit) l : (forall x, x ∈ l -> settles (f x)) -> settles (for_each f l).
Proof.
  induction l as [|x l IH]; intros Hf; [apply settles_Ok|]. apply settles_bind; [apply Hf; by left|].
  intros _ _. apply IH. intros y Hy. apply Hf. by right.
Qed.

End Settles.

Lemma external_code code : has_code (external_error code).
Proof. unfold external_error, integrity. destruct code as [code|]; [|by eexists]. repeat case_match; by eexists. Qed.

Lemma artifact_error_code e : has_code (artifact_error e).
Proof. unfold artifact_error, integrity. case_match; by eexists. Qed.

Ltac has_code_auto := solve [by eexists | apply external_code | apply artifact_error_code].

Ltac settles_step :=
  match goal with
  | |- settles_or _ (Ok _) => apply settles_Ok
  | |- settles_or _ (_ ≫= _) => apply settles_bind; [|intros ? ?]
  | |- settles_or _ (Err _) => apply settles_Err; has_code_auto
  | |- settles_or _ (reject_if _ _) => apply settles_reject; has_code_auto
  | |- settles_or _ (ok_or _ _) => apply settles_ok_or; has_code_auto
  | |- settles_or _ (map_err _ _) => apply settles_map_err; intros ?; has_code_auto
  | |- settles_or _ (for_each _ _) => apply settles_for_each; intros ? ?
  | |- settles_or _ (match ?x with _ => _ end) => destruct x eqn:?
  | |- settles_or _ (let _ := _ in _) => cbv zeta
  end.
Ltac settles_auto := repeat (settles_step || assumption).

Section Required.
Variable P : Prop.
#[local] Abbreviation settles := (settles_or P).

Lemma settles_require_field v k x : settles (require_field v k x).
Proof. unfold require_field, require_string, require_object_field, require_equal. settles_auto. Qed.
Lemma settles_require_string v k : settles (require_string v k).
Proof. unfold require_string, require_object_field. settles_auto. Qed.
Lemma settles_require_array v k : settles (require_array v k).
Proof. unfold require_array, require_object_field. settles_auto. Qed.
Lemma settles_require_oid v k kind : settles (require_oid v k kind).
Proof. unfold require_oid, of_kind, require_string, require_object_field. settles_auto. Qed.
Lemma settles_require_single_oid v k kind : settles (require_single_oid v k kind).
Proof. unfold require_single_oid, of_kind, require_array, require_object_field. settles_auto. Qed.
Lemma settles_tree_entries v : settles (tree_entries v).
Proof. unfold tree_entries, require_object_field. settles_auto. Qed.

End Required.

#[export] Hint Resolve settles_require_field settles_require_string settles_require_array settles_require_oid
  settles_require_single_oid settles_tree_entries : synapse.

(** The checks that only read a value. *)
Ltac settles_checks :=
  repeat (settles_step || (solve [auto with synapse nocore]) ||
    match goal with
    | |- settles_or _ (require_record_type _ _) => unfold require_record_type
    | |- settles_or _ (require_object_type _ _) => unfold require_object_type
    | |- settles_or _ (require_exact_string_array _ _ _) => unfold require_exact_string_array
    | |- settles_or _ (require_empty_array _ _) => unfold require_empty_array
    | |- settles_or _ (require_count _ _ _) => unfold require_count
    | |- settles_or _ (require_array_contains_string _ _ _) => unfold require_array_contains_string
    | |- settles_or _ (require_role_oid _ _ _ _) => unfold require_role_oid, require_entry
    | |- settles_or _ (require_role_actor _ _ _) => unfold require_role_actor, require_entry
    | |- settles_or _ (require_publish_gate _ _) => unfold require_publish_gate, require_entry
    | |- settles_or _ (require_proposal_rule _ _) => unfold require_proposal_rule
    | |- settles_or _ (require_writable_ref _ _) => unfold require_writable_ref
    | |- settles_or _ (require_object_field _ _) => unfold require_object_field
    | |- settles_or _ (require_exact_tree_entries _ _) => unfold require_exact_tree_entries
    | |- settles_or _ (require_tree _) => unfold require_tree
    | |- settles_or _ (direct_entry_oid _ _ _) => unfold direct_entry_oid
    | |- settles_or _ (object_string _ _) => unfold object_string
    | |- settles_or _ (of_kind _ _) => unfold of_kind
    | |- settles_or _ (require_equal _ _) => unfold require_equal
    | |- settles_or _ (work_node _ _) => unfold work_node
    | |- settles_or _ (work_edges _ _ _) => unfold work_edges
    end).

Section Facts.
Variable sha256 : list byte -> list byte.
Variable nfc : list char -> list char.
Variable to_lowercase : char -> list char.
Variable json_pointer : Json -> str -> option (list nat).
Variable registry : SchemaRegistry.
Variable repository : Repository FileObjectStore.

(** An object that a checkout may read has an oversized confidence. *)
Definition oversized_read : Prop :=
  exists oid object value, file_get_verified sha256 nfc (Repository.objects repository) oid = Ok (Some object) /\
    ob_structured object = Some value /\ oversized_within value.

#[local] Abbreviation settles := (settles_or oversized_read).

#[local] Abbreviation load_structured := (load_structured sha256 nfc json_pointer registry repository).
#[local] Abbreviation load_record := (load_record sha256 nfc json_pointer registry repository).
#[local] Abbreviation load_tree := (load_tree sha256 nfc json_pointer registry repository).

(** Reading an object ends in a value, a code of the protocol, or an error of the store. *)
Definition store_coded {A} (r : sresult A) : Prop := forall e, r = Err (StoreCore e) -> exists code, e = Core code.

Lemma store_coded_bind {A B} (m : sresult A) (f : A -> sresult B) :
  store_coded m -> (forall a, store_coded (f a)) -> store_coded (m ≫= f).
Proof. intros Hm Hf e [He|(a & _ & He)]%bind_Err; [by apply Hm|by eapply Hf]. Qed.

Lemma store_coded_Ok {A} (a : A) : store_coded (Ok a).
Proof. done. Qed.

Lemma store_coded_core {A} (r : cresult A) : coded r -> store_coded (core r).
Proof. intros Hr e. unfold core. destruct r as [|e']; [done|]. intros [= <-]. by apply Hr. Qed.

Lemma store_coded_reject b e : (forall c, e = StoreCore c -> exists code, c = Core code) -> store_coded (reject_if b e).
Proof. intros He c. destruct b; [|done]. intros [= ->]. by apply He. Qed.

Lemma store_coded_stored {A} oid (r : cresult A) : coded r -> store_coded (map_err (stored_object_error oid) r).
Proof.
  intros Hr e. destruct r as [|e']; [done|]. intros [= He]. destruct (Hr e' eq_refl) as [code ->]. cbn in He.
  case_bool_decide; [|done]. injection He as <-. by eexists.
Qed.

Lemma store_coded_path oid : store_coded (validated_object_path oid).
Proof. apply store_coded_bind; [apply store_coded_core, coded_parse_oid|done]. Qed.

Lemma store_coded_regular s path oid : store_coded (regular_file_if_present s path oid).
Proof. intros e. unfold regular_file_if_present. by repeat case_match. Qed.

Lemma store_coded_read_loop limit reads : forall bytes total, store_coded (read_loop limit reads bytes total).
Proof.
  induction reads as [|buffer reads IH]; intros bytes total; cbn [read_loop]; [done|]. case_bool_decide; [done|].
  apply store_coded_bind; [|intros t; apply store_coded_bind; [|intros _; apply IH]].
  - intros e. destruct (usize_checked_add _ _); [done|]. intros [= <-]. by eexists.
  - apply store_coded_reject. intros c [= <-]. by eexists.
Qed.

Lemma coded_raw_bytes s oid kind bytes : coded (verify_raw_bytes sha256 nfc s oid kind bytes).
Proof.
  unfold verify_raw_bytes, verify_blob_oid, verify_claimed_oid_unchecked_with_limits.
  repeat first [ apply parse_strict_coded | apply coded_canonical_bytes | apply coded_structured_oid | apply coded_parse_oid
               | apply coded_Ok | apply coded_fail | apply coded_bind; [|intros ? ?] | case_match ].
Qed.

Lemma coded_get s oid : store_coded (file_get_verified sha256 nfc s oid).
Proof.
  unfold file_get_verified. apply store_coded_bind; [apply store_coded_path|intros [kind path]].
  apply store_coded_bind; [apply store_coded_regular|intros [content|]; [|done]].
  apply store_coded_bind; [|done]. case_bool_decide.
  - apply store_coded_bind; [|done]. apply store_coded_bind; [apply store_coded_read_loop|intros [bytes n]]. by case_match.
  - apply store_coded_bind; [|intros bytes; apply store_coded_stored, coded_raw_bytes]. unfold read_file_limited.
    repeat (apply store_coded_bind; [apply store_coded_reject; intros c [= <-]; by eexists|intros _]). done.
Qed.

Lemma coded_blob_limited s oid limit : store_coded (read_verified_blob_limited sha256 s oid limit).
Proof.
  assert (forall b e code, e = StoreCore (Core code) -> store_coded (reject_if b e)) as Hr
    by (intros; apply store_coded_reject; naive_solver).
  unfold read_verified_blob_limited. apply store_coded_bind; [by eapply Hr|intros _].
  apply store_coded_bind; [apply store_coded_path|intros [kind path]]. apply store_coded_bind; [by eapply Hr|intros _].
  apply store_coded_bind; [apply store_coded_regular|intros [content|]; [|done]]. apply store_coded_bind; [by eapply Hr|intros _].
  apply store_coded_bind; [|done]. apply store_coded_stored. unfold verify_blob_oid.
  repeat first [ apply coded_parse_oid | apply coded_Ok | apply coded_fail | apply coded_bind; [|intros ? ?] | case_match ].
Qed.

Lemma external_store_code {A} (r : sresult A) e : store_coded r -> of_external r = Err e -> has_code e.
Proof.
  intros Hr. unfold of_external. destruct r as [|e']; [done|]. intros [= <-]. destruct e' as [|c| | |]; try apply external_code.
  destruct (Hr c eq_refl) as [code ->]. apply external_code.
Qed.

Lemma settles_blob oid limit : settles (of_external (read_verified_blob_limited sha256 (Repository.objects repository) oid limit)).
Proof. intros e He. left. eapply external_store_code; [apply coded_blob_limited|exact He]. Qed.

Lemma settles_get oid : settles (of_external (file_get_verified sha256 nfc (Repository.objects repository) oid)).
Proof. intros e He. left. eapply external_store_code; [apply coded_get|exact He]. Qed.

Lemma settles_load_structured oid kind : settles (load_structured oid kind).
Proof.
  unfold Checkout.load_structured. settles_step; [settles_auto|]. apply settles_bind; [apply settles_get|].
  intros object Hobject%map_err_Ok. apply settles_bind; [settles_auto|]. intros o ->%ok_or_Ok. settles_step; [settles_auto|].
  apply settles_bind; [settles_auto|]. intros value Hvalue%ok_or_Ok. apply settles_bind; [|intros ? _; settles_auto].
  intros e He. destruct (validate _ _ _ _) as [|c] eqn:Hv; [done|]. injection He as <-.
  apply validate_codes in Hv as [[code ->]|[-> Hv]]; [left; apply external_code|right]. split; [done|]. by exists oid, o, value.
Qed.
Lemma settles_load_record oid record_type : settles (load_record oid record_type).
Proof. unfold Checkout.load_record. settles_checks. apply settles_load_structured. Qed.
Lemma settles_load_tree oid names : settles (load_tree oid names).
Proof. unfold Checkout.load_tree. settles_checks. apply settles_load_structured. Qed.

Hint Resolve settles_load_structured settles_load_record settles_load_tree : synapse.

(** ** The loops of the authority proof *)

Definition work_le (work work' : AuthorityWork) : Prop := aw_nodes work <= aw_nodes work'.

Lemma work_node_Ok limits work work' : work_node limits work = Ok work' ->
  aw_nodes work' = aw_nodes work + 1 /\ aw_nodes work' <= max_authority_nodes limits.
Proof.
  unfold work_node, usize_checked_add. intros H. result_inv. case_match; [|done]. simplify_eq. cbn. rewrite Z.gtb_ltb in *.
  split; [done|]. by apply Z.ltb_ge.
Qed.

Lemma work_edges_Ok count limits work work' : work_edges count limits work = Ok work' -> aw_nodes work' = aw_nodes work.
Proof. unfold work_edges. intros H. result_inv. done. Qed.

Ltac work_inv := repeat match goal with
  | H : work_node _ _ = Ok _ |- _ => apply work_node_Ok in H as [? ?]
  | H : work_edges _ _ _ = Ok _ |- _ => apply work_edges_Ok in H
  end.

Lemma prior_decision_work commit snapshot decision_ref human ai policy grant limits work parent work' :
  verify_prior_decision sha256 nfc json_pointer registry repository commit snapshot decision_ref human ai policy grant limits work
    = Ok (parent, work') ->
  aw_nodes work <= aw_nodes work' <= max_authority_nodes limits.
Proof. unfold verify_prior_decision. intros H. result_inv. work_inv. lia. Qed.

Lemma settles_prior_decision commit snapshot decision_ref human ai policy grant limits work :
  settles (verify_prior_decision sha256 nfc json_pointer registry repository commit snapshot decision_ref human ai policy grant limits work).
Proof. unfold verify_prior_decision. settles_checks. Qed.

Lemma settles_genesis commit snapshot limits work :
  settles (verify_genesis sha256 nfc json_pointer registry repository commit snapshot limits work).
Proof. unfold verify_genesis. settles_checks. Qed.

Lemma settles_prior_chain decision_ref human ai policy grant limits fuel : forall cursor visited work,
  aw_nodes work <= Z.max 0 (max_authority_nodes limits) < aw_nodes work + Z.of_nat fuel ->
  settles (verify_prior_decision_chain sha256 nfc json_pointer registry repository fuel cursor visited decision_ref human ai policy grant
    limits work).
Proof.
  induction fuel as [|fuel IH]; intros cursor visited work Hw; [lia|]. cbn [verify_prior_decision_chain]. settles_checks.
  - apply settles_genesis.
  - apply settles_prior_decision.
  - work_inv. match goal with H : verify_prior_decision _ _ _ _ _ _ _ _ _ _ _ _ _ _ = Ok _ |- _ => apply prior_decision_work in H end.
    apply IH. lia.
Qed.

Lemma genesis_work commit snapshot limits work work' :
  verify_genesis sha256 nfc json_pointer registry repository commit snapshot limits work = Ok work' ->
  aw_nodes work <= aw_nodes work' <= max_authority_nodes limits.
Proof. unfold verify_genesis. intros H. result_inv. work_inv. lia. Qed.

Lemma prior_chain_work decision_ref human ai policy grant limits fuel : forall cursor visited work work',
  verify_prior_decision_chain sha256 nfc json_pointer registry repository fuel cursor visited decision_ref human ai policy grant
    limits work = Ok work' ->
  aw_nodes work <= aw_nodes work' <= max_authority_nodes limits.
Proof.
  induction fuel as [|fuel IH]; intros cursor visited work work' H; [done|]. cbn [verify_prior_decision_chain] in H. result_inv. work_inv.
  case_match; [apply genesis_work in H; lia|]. case_match; [|done]. apply bind_Ok in H as ([parent next] & Hp & H).
  apply prior_decision_work in Hp. apply IH in H. lia.
Qed.

Lemma work_node_times_settles n limits : forall work, settles (work_node_times n limits work).
Proof. induction n as [|n IH]; intros work; cbn [work_node_times]; settles_checks. Qed.
Lemma settles_control_records human_oid ai_oid subject_oid policy_oid grant_oid human ai subject binding :
  settles (verify_control_records sha256 nfc json_pointer registry repository human_oid ai_oid subject_oid policy_oid grant_oid
    human ai subject binding).
Proof. unfold verify_control_records. settles_checks. Qed.

Lemma settles_control snapshot policy grant human ai subject binding limits work :
  settles (verify_control sha256 nfc json_pointer registry repository snapshot policy grant human ai subject binding limits work).
Proof. unfold verify_control. settles_checks; [apply work_node_times_settles|apply settles_control_records]. Qed.

Lemma settles_base_authority policy grant human ai subject binding limits fuel : forall cursor visited work,
  aw_nodes work <= Z.max 0 (max_authority_nodes limits) < aw_nodes work + Z.of_nat fuel ->
  settles (verify_base_authority sha256 nfc json_pointer registry repository fuel cursor visited policy grant human ai subject binding
    limits work).
Proof.
  induction fuel as [|fuel IH]; intros cursor visited work Hw; [lia|]. cbn [verify_base_authority]. settles_checks.
  - work_inv. apply IH. lia.
  - apply settles_control.
Qed.

Lemma settles_decision binding limits :
  settles (verify_generic_decision sha256 nfc json_pointer registry repository binding limits).
Proof.
  unfold verify_generic_decision, verify_decision, verify_base, verify_context_and_activity, verify_policy_and_grant, verify_activity.
  assert (0 <= Z.max 0 (max_authority_nodes limits) < 0 + Z.of_nat (authority_fuel limits)) as Hf by (unfold authority_fuel; lia).
  settles_checks; [by apply settles_prior_chain|]. apply settles_base_authority.
  match goal with H : verify_prior_decision_chain _ _ _ _ _ _ _ _ _ _ _ _ _ _ _ = Ok _ |- _ => apply prior_chain_work in H end.
  cbn [aw_nodes no_work] in *. lia.
Qed.

(** ** The walk over the site *)

Lemma settles_read_entry limits tree name entry t :
  settles (read_entry sha256 repository limits tree name entry t).
Proof.
  unfold read_entry, join_path, object_string, read_file. settles_checks;
    first [apply settles_blob|match goal with H : _ = Ok _ |- _ => repeat case_match; congruence end].
Qed.

Lemma read_entry_nodes limits tree name entry t t' : read_entry sha256 repository limits tree name entry t = Ok t' ->
  tw_tree_nodes (tr_work t') = tw_tree_nodes (tr_work t).
Proof. unfold read_entry, read_file. intros H. result_inv. case_match; result_inv; done. Qed.

Lemma settles_read_entries limits tree entries : forall t, settles (read_entries sha256 repository limits tree entries t).
Proof.
  induction entries as [|[name entry] entries IH]; intros t; cbn [read_entries]; settles_auto; [apply settles_read_entry|apply IH]. Qed.

Lemma read_entries_nodes limits tree entries : forall t t', read_entries sha256 repository limits tree entries t = Ok t' ->
  tw_tree_nodes (tr_work t') = tw_tree_nodes (tr_work t).
Proof.
  induction entries as [|[name entry] entries IH]; intros t t' H; cbn [read_entries] in H; result_inv; [done|].
  apply IH in H as ->. by eapply read_entry_nodes.
Qed.

Lemma settles_spellings segments : forall spellings, settles (check_child_spellings nfc to_lowercase segments spellings).
Proof. induction segments as [|s segments IH]; intros spellings; cbn [check_child_spellings]; unfold validate_segment; settles_auto. apply IH. Qed.

Lemma settles_read_tree limits tree t : settles (read_tree sha256 nfc to_lowercase json_pointer registry repository limits tree t).
Proof. unfold read_tree. settles_checks; [apply settles_spellings|apply settles_read_entries]. Qed.

Lemma read_tree_nodes limits tree t t' : read_tree sha256 nfc to_lowercase json_pointer registry repository limits tree t = Ok t' ->
  tw_tree_nodes (tr_work t') = tw_tree_nodes (tr_work t) + 1 /\ tw_tree_nodes (tr_work t') <= max_tree_nodes limits.
Proof.
  unfold read_tree, usize_checked_add. intros H. result_inv. apply read_entries_nodes in H. cbn [tr_work tw_tree_nodes] in H.
  case_match; [|done]. simplify_eq. bool_props.
  repeat match goal with H : (_ >? _) = false |- _ => rewrite Z.gtb_ltb in H; apply Z.ltb_ge in H end. lia.
Qed.

Lemma settles_read_trees limits fuel : forall t,
  tw_tree_nodes (tr_work t) <= Z.max 0 (max_tree_nodes limits) < tw_tree_nodes (tr_work t) + Z.of_nat fuel ->
  settles (read_trees sha256 nfc to_lowercase json_pointer registry repository fuel limits t).
Proof.
  induction fuel as [|fuel IH]; intros t Ht; cbn [read_trees]; destruct (tr_pending t) as [|tree pending]; [apply settles_Ok|lia|apply settles_Ok|].
  apply settles_bind; [apply settles_read_tree|]. intros t' [Hn Hm]%read_tree_nodes. cbn [tr_work] in Hn. apply IH. lia.
Qed.

Lemma settles_read_site site limits : settles (read_site sha256 nfc to_lowercase json_pointer registry repository site limits).
Proof. apply settles_read_trees. unfold site_fuel. cbn. lia. Qed.
End Facts.

(** ** Checkout: the walk over the site reads exactly the files below it *)

(** What an entry of a Tree says. *)
Definition entry_is (entry : Value) (kind oid : str) : Prop :=
  exists fields, entry = Obj fields /\ object_field fields (lit "entry_kind") = Some (Str kind) /\
    object_field fields (lit "oid") = Some (Str oid).

Lemma entry_is_det entry kind oid kind' oid' : entry_is entry kind oid -> entry_is entry kind' oid' -> kind' = kind /\ oid' = oid.
Proof. intros (fields & -> & Hk & Ho) (fields' & [= <-] & Hk' & Ho'). split; congruence. Qed.

Lemma object_string_Ok fields k s : object_string fields k = Ok s <-> object_field fields k = Some (Str s).
Proof.
  unfold object_string. rewrite ok_or_Ok, bind_Some. split; [|intros ->; by eexists].
  intros (v & -> & Hv). destruct v; by simplify_eq/=.
Qed.

(** The path of names under a directory. *)
Definition below (prefix : str) (names : list str) : str :=
  if bool_decide (prefix = []) then join_with [47] names else prefix ++ 47 :: join_with [47] names.

Lemma below_cons prefix name names : name <> [] -> names <> [] -> below (below prefix [name]) names = below prefix (name :: names).
Proof.
  intros Hn Hns. destruct names as [|n ns]; [done|]. unfold below. change (join_with [47] [name]) with name.
  change (join_with [47] (name :: n :: ns)) with (name ++ 47 :: join_with [47] (n :: ns)). destruct prefix as [|b prefix].
  - rewrite (bool_decide_eq_true_2 (@nil byte = [])) by done. by rewrite bool_decide_eq_false_2.
  - rewrite (bool_decide_eq_false_2 (b :: prefix = [])) by done. rewrite bool_decide_eq_false_2 by done.
    by rewrite <- app_assoc.
Qed.

Lemma join_path_Ok prefix segment limit path : join_path prefix segment limit = Ok path -> path = below prefix [segment].
Proof. unfold join_path, below. intros H. result_inv. case_bool_decide; done. Qed.

Section Site.
Variable sha256 : list byte -> list byte.
Variable nfc : list char -> list char.
Variable to_lowercase : char -> list char.
Variable json_pointer : Json -> str -> option (list nat).
Variable registry : SchemaRegistry.
Variable repository : Repository FileObjectStore.

#[local] Abbreviation load_structured := (load_structured sha256 nfc json_pointer registry repository).

(** The entries of a Tree of the repository. *)
Definition children (tree : str) (entries : list (str * Value)) : Prop :=
  exists value, load_structured tree Tree = Ok value /\ require_tree value = Ok tt /\ tree_entries value = Ok entries.

(** The names lead from a Tree to a Blob. *)
Inductive reaches : str -> list str -> str -> Prop :=
| reaches_blob tree entries name entry blob :
    children tree entries -> (name, entry) ∈ entries -> entry_is entry (lit "blob") blob -> reaches tree [name] blob
| reaches_tree tree entries name entry child names blob :
    children tree entries -> (name, entry) ∈ entries -> entry_is entry (lit "tree") child -> reaches child names blob ->
    reaches tree (name :: names) blob.

Lemma reaches_ne tree names blob : reaches tree names blob -> names <> [].
Proof. by destruct 1. Qed.

(** The stored content of a Blob, which has the OID. *)
Definition blob_bytes (blob : str) (bytes : list byte) : Prop :=
  FileStore.objects (Repository.objects repository) !! object_path_for_valid_oid blob Blob = Some (RegularFile bytes) /\
  blob_oid sha256 bytes = blob.

Lemma read_blob_bytes blob limit bytes :
  read_verified_blob_limited sha256 (Repository.objects repository) blob limit = Ok (Some bytes) -> blob_bytes blob bytes.
Proof.
  unfold read_verified_blob_limited, validated_object_path, core, regular_file_if_present. intros H. result_inv.
  repeat match goal with H : (let '(_, _) := ?x in _) = Ok _ |- _ => destruct x end. simplify_eq. result_inv. bool_props.
  match goal with H : ?k = Blob |- _ => subst k end.
  repeat (case_match; simplify_eq; try done). result_inv.
  match goal with H : verify_blob_oid _ _ _ = Ok _ |- _ => unfold verify_blob_oid in H end. result_inv. repeat case_match; try done.
  simplify_eq. bool_props. split; [done|]. symmetry. by apply str_eqb_eq.
Qed.

Lemma blob_bytes_det blob bytes bytes' : blob_bytes blob bytes -> blob_bytes blob bytes' -> bytes' = bytes.
Proof. intros [H _] [H' _]. congruence. Qed.

(** The file at the end of the names, below a directory. *)
Definition file_at (prefix tree : str) (e : ArtifactManifestEntry) : Prop :=
  exists names blob bytes, reaches tree names blob /\ blob_bytes blob bytes /\ e = regular_file (below prefix names) bytes.

(** What the walk has found or will find. *)
Definition found (t : Traversal) (e : ArtifactManifestEntry) : Prop :=
  e ∈ tr_files t \/ exists tree, tree ∈ tr_pending t /\ file_at (pt_prefix tree) (pt_oid tree) e.

(** What one entry of a Tree leads to. *)
Definition entry_file (prefix name : str) (entry : Value) (e : ArtifactManifestEntry) : Prop :=
  (exists blob bytes, entry_is entry (lit "blob") blob /\ blob_bytes blob bytes /\ e = regular_file (below prefix [name]) bytes) \/
  (exists child, entry_is entry (lit "tree") child /\ file_at (below prefix [name]) child e).

Lemma read_entry_found limits tree name entry t t' : read_entry sha256 repository limits tree name entry t = Ok t' ->
  forall e, found t' e <-> found t e \/ entry_file (pt_prefix tree) name entry e.
Proof.
  unfold read_entry. intros H e. result_inv.
  repeat match goal with
  | H : object_string _ _ = Ok _ |- _ => apply object_string_Ok in H
  | H : join_path _ _ _ = Ok _ |- _ => apply join_path_Ok in H
  end. subst.
  match goal with H : as_object entry = Some ?f |- _ => rename f into fields; destruct entry; simplify_eq/= end.
  assert (forall kind oid, object_field fields (lit "entry_kind") = Some (Str kind) -> object_field fields (lit "oid") = Some (Str oid) ->
    entry_is (Obj fields) kind oid) as Hentry by (intros; by exists fields).
  match goal with H : object_field fields (lit "entry_kind") = Some (Str ?k), H' : object_field fields (lit "oid") = Some (Str ?o) |- _ =>
    pose proof (Hentry _ _ H H') as He; rename k into kind; rename o into oid end.
  unfold entry_file. destruct (str_eqb kind (lit "blob")) eqn:Eb; [|destruct (str_eqb kind (lit "tree")) eqn:Et; [|done]]; simplify_eq.
  - apply str_eqb_eq in Eb as ->. apply bind_Ok in H as ([work files] & Hread & [= <-]). unfold read_file in Hread. result_inv.
    match goal with H : of_external _ = Ok _ |- _ => apply map_err_Ok, read_blob_bytes in H as Hb end. unfold found. cbn [tr_files tr_pending].
    rewrite elem_of_app, list_elem_of_singleton. split.
    + intros [[?| ->]|?]; [by left; left|right; left; by eexists _, _|by left; right].
    + intros [[?|?]|[(blob & bytes & He' & Hb' & ->)|(child & He' & _)]]; [by left; left|by right|left; right|].
      * destruct (entry_is_det _ _ _ _ _ He He') as [_ ->]. by rewrite (blob_bytes_det _ _ _ Hb Hb').
      * by destruct (entry_is_det _ _ _ _ _ He He') as [? _].
  - apply str_eqb_eq in Et as ->. unfold found. cbn [tr_files tr_pending]. setoid_rewrite elem_of_cons. split.
    + intros [?|(tree' & [->|?] & Hf)]; [by left; left|right; right; by eexists|left; right; by eexists].
    + intros [[?|(tree' & ? & ?)]|[(blob & bytes & He' & _)|(child & He' & Hf)]]; [by left|right; eauto| |right; eexists; split; [by left|]].
      * by destruct (entry_is_det _ _ _ _ _ He He') as [? _].
      * by destruct (entry_is_det _ _ _ _ _ He He') as [_ ->].
Qed.

Lemma read_entries_found limits tree entries : forall t t', read_entries sha256 repository limits tree entries t = Ok t' ->
  forall e, found t' e <-> found t e \/ exists name entry, (name, entry) ∈ entries /\ entry_file (pt_prefix tree) name entry e.
Proof.
  induction entries as [|[name entry] entries IH]; intros t t' H e; cbn [read_entries] in H.
  { injection H as <-. split; [by left|]. intros [?|(? & ? & []%not_elem_of_nil & _)]; done. }
  apply bind_Ok in H as (t1 & Ht & H). rewrite (IH _ _ H), (read_entry_found _ _ _ _ _ _ Ht). split.
  - intros [[?|?]|(n & v & ? & ?)]; [by left|right; exists name, entry; split; [by left|done]|right; exists n, v; split; [by right|done]].
  - intros [?|(n & v & [[= -> ->]|?]%elem_of_cons & ?)]; [by left; left|by left; right|right; eauto].
Qed.

Lemma spellings_nonempty segments : forall spellings u, check_child_spellings nfc to_lowercase segments spellings = Ok u ->
  Forall (fun segment => segment <> []) segments.
Proof.
  induction segments as [|s segments IH]; intros spellings u H; cbn [check_child_spellings] in H; [constructor|]. unfold validate_segment in H.
  result_inv. bool_props. constructor; [|by eapply IH]. unfold is_portable_segment in *. bool_props.
  repeat match goal with H : bool_decide _ = false |- _ => apply bool_decide_eq_false in H end. done.
Qed.

Lemma read_tree_found limits tree t t' :
  read_tree sha256 nfc to_lowercase json_pointer registry repository limits tree t = Ok t' ->
  forall e, found t' e <-> found t e \/ file_at (pt_prefix tree) (pt_oid tree) e.
Proof.
  unfold read_tree. intros H e. result_inv.
  match goal with H : tree_entries _ = Ok ?l |- _ => rename l into entries end.
  match goal with H : require_tree _ = Ok ?u |- _ => destruct u end.
  assert (children (pt_oid tree) entries) as Hchildren by (by eexists).
  match goal with H : check_child_spellings _ _ _ _ = Ok _ |- _ => apply spellings_nonempty in H as Hne end.
  match goal with H : read_entries _ _ _ _ _ _ = Ok _ |- _ => rewrite (read_entries_found _ _ _ _ _ H) end.
  assert (forall name entry, (name, entry) ∈ rev (sort_by by_key entries) <-> (name, entry) ∈ entries) as Hperm.
  { intros name entry. by rewrite <- (Permutation_rev (sort_by by_key entries)), (sort_by_perm by_key entries). }
  assert (forall name entry, (name, entry) ∈ entries -> name <> []) as Hname.
  { intros name entry Hin. rewrite Forall_forall in Hne. apply Hne, list_elem_of_fmap. exists (name, entry). split; [done|].
    by rewrite (sort_by_perm by_key entries). }
  assert (found t e \/ (exists name entry, (name, entry) ∈ rev (sort_by by_key entries) /\ entry_file (pt_prefix tree) name entry e) <->
    found t e \/ file_at (pt_prefix tree) (pt_oid tree) e) as ->; [|done]. f_equiv. unfold entry_file, file_at. split.
  - intros (name & entry & Hin%Hperm & [(blob & bytes & He & Hb & ->)|(child & He & names & blob & bytes & Hr & Hb & ->)]).
    + exists [name], blob, bytes. split; [|done]. by eapply reaches_blob.
    + exists (name :: names), blob, bytes. split; [by eapply reaches_tree|]. split; [done|].
      by rewrite below_cons by (by eauto using reaches_ne).
  - intros (names & blob & bytes & Hr & Hb & ->). inversion Hr as [? entries' name entry ? Hc Hin He|? entries' name entry child names' ? Hc Hin He Hr'];
      subst; destruct Hchildren as (v & Hv & _ & Hve), Hc as (v' & Hv' & _ & Hve'); rewrite Hv in Hv'; injection Hv' as <-;
      rewrite Hve in Hve'; injection Hve' as <-; exists name, entry; (split; [by apply Hperm|]).
    + left. by eexists _, _.
    + right. exists child. split; [done|]. exists names', blob, bytes. split; [done|]. split; [done|].
      by rewrite below_cons by (by eauto using reaches_ne).
Qed.

Lemma read_trees_found limits fuel : forall t files,
  read_trees sha256 nfc to_lowercase json_pointer registry repository fuel limits t = Ok files -> forall e, e ∈ files <-> found t e.
Proof.
  assert (forall t, tr_pending t = [] -> forall e, e ∈ tr_files t <-> found t e) as Hnil.
  { intros t Ht e. unfold found. rewrite Ht. split; [by left|]. intros [?|(? & []%not_elem_of_nil & _)]. done. }
  induction fuel as [|fuel IH]; intros t files H e; cbn [read_trees] in H; destruct (tr_pending t) as [|tree pending] eqn:Ht.
  - injection H as <-. by apply Hnil.
  - done.
  - injection H as <-. by apply Hnil.
  - apply bind_Ok in H as (t1 & Ht1 & H). rewrite (IH _ _ H), (read_tree_found _ _ _ _ Ht1). unfold found. cbn [tr_files tr_pending]. rewrite Ht.
    setoid_rewrite elem_of_cons. split.
    + intros [[?|(tree' & ? & ?)]|?]; [by left|right; eauto|right; eauto].
    + intros [?|(tree' & [->|?] & ?)]; [by left; left|by right|left; right; eauto].
Qed.

Lemma read_site_found site limits files : read_site sha256 nfc to_lowercase json_pointer registry repository site limits = Ok files ->
  forall e, e ∈ files <-> file_at [] site e.
Proof.
  intros H e. rewrite (read_trees_found _ _ _ _ H). unfold found. cbn [tr_files tr_pending]. split.
  - intros [[]%not_elem_of_nil|(tree & ->%list_elem_of_singleton & Hf)]. done.
  - intros Hf. right. eexists. split; [by apply list_elem_of_singleton|done].
Qed.
End Site.

(** ** Checkout: what the Decision, its base and its proposal are *)

(** ** The checks on a value *)

Lemma require_string_Some v k s : require_string v k = Ok s <-> get_str v k = Some s.
Proof.
  unfold require_string, require_object_field, get_str. destruct (Canonical.get v k) as [x|]; cbn; [|done].
  rewrite ok_or_Ok. done.
Qed.

Lemma require_equal_eq a b u : require_equal a b = Ok u <-> a = b.
Proof. unfold require_equal. rewrite reject_if_Ok, negb_false_iff, str_eqb_eq. done. Qed.

Lemma require_field_Ok v k s u : require_field v k s = Ok u <-> get_str v k = Some s.
Proof.
  unfold require_field. rewrite bind_Ok. setoid_rewrite require_equal_eq. setoid_rewrite require_string_Some. split.
  - by intros (a & H & ->).
  - intros H. by exists s.
Qed.

Lemma require_array_Some v k l : require_array v k = Ok l <-> Canonical.get v k = Some (Arr l).
Proof.
  unfold require_array, require_object_field. destruct (Canonical.get v k) as [x|]; cbn; [|done]. rewrite ok_or_Ok.
  destruct x; cbn; split; by intros [= <-].
Qed.

Lemma require_object_field_Ok v k x : require_object_field v k = Ok x <-> Canonical.get v k = Some x.
Proof. apply ok_or_Ok. Qed.

Lemma require_count_0 v k u : require_empty_array v k = Ok u -> Canonical.get v k = Some (Arr []).
Proof.
  unfold require_empty_array, require_count. intros H. result_inv. bool_props.
  match goal with H : require_array _ _ = Ok _ |- _ => apply require_array_Some in H as -> end. do 2 f_equal.
  match goal with H : len ?l = 0 |- _ => destruct l; [done|]; rewrite len_cons in H; pose proof (len_nonneg l); lia end.
Qed.

Lemma exact_strings actual : forall expected, length actual = length expected ->
  forallb (fun '(a, e) => bool_decide (as_str a = Some e)) (zip actual expected) = true -> actual = map Str expected.
Proof.
  induction actual as [|a actual IH]; intros [|e expected] Hl H; try done. cbn [zip zip_with forallb] in H. bool_props.
  destruct a; simplify_eq/=. f_equal. by apply IH.
Qed.

Lemma require_exact_string_array_Ok v k expected u : require_exact_string_array v k expected = Ok u ->
  Canonical.get v k = Some (Arr (map Str expected)).
Proof.
  unfold require_exact_string_array. intros H. result_inv. bool_props.
  match goal with H : require_array _ _ = Ok _ |- _ => apply require_array_Some in H as -> end. do 2 f_equal.
  apply exact_strings; [|done]. unfold len in *. lia.
Qed.

Lemma of_kind_Ok oid kind x : of_kind oid kind = Ok x <-> x = oid /\ is_kind oid kind = true.
Proof. unfold of_kind. destruct (is_kind oid kind); split; [intros [= <-]; done|intros [-> _]; done|done|intros [_ ?]; done]. Qed.

Lemma require_oid_Ok v k kind oid : require_oid v k kind = Ok oid -> get_str v k = Some oid /\ is_kind oid kind = true.
Proof. unfold require_oid. intros H. result_inv. apply of_kind_Ok in H as [-> ?]. by split; [apply require_string_Some|]. Qed.

Lemma require_single_oid_Ok v k kind oid : require_single_oid v k kind = Ok oid ->
  Canonical.get v k = Some (Arr [Str oid]) /\ is_kind oid kind = true.
Proof.
  unfold require_single_oid. intros H. result_inv. repeat (case_match; try done). subst. result_inv. apply of_kind_Ok in H as [-> ?].
  match goal with H : as_str ?x = Some _ |- _ => destruct x; simplify_eq/= end. by split; [apply require_array_Some|].
Qed.

(** [checks_inv]: decompose every hypothesis that a check passed. *)
Ltac checks_inv :=
  repeat (progress result_inv || match goal with
  | H : require_field _ _ _ = Ok _ |- _ => apply require_field_Ok in H
  | H : require_string _ _ = Ok _ |- _ => apply require_string_Some in H
  | H : require_equal _ _ = Ok _ |- _ => apply require_equal_eq in H; subst
  | H : require_object_field _ _ = Ok _ |- _ => apply require_object_field_Ok in H
  | H : require_array _ _ = Ok _ |- _ => apply require_array_Some in H
  | H : require_empty_array _ _ = Ok _ |- _ => apply require_count_0 in H
  | H : require_exact_string_array _ _ _ = Ok _ |- _ => apply require_exact_string_array_Ok in H
  | H : require_oid _ _ _ = Ok _ |- _ => apply require_oid_Ok in H as [H ?]
  | H : require_single_oid _ _ _ = Ok _ |- _ => apply require_single_oid_Ok in H as [H ?]
  | H : for_each _ _ = Ok _ |- _ => apply for_each_Ok in H
  end).

Section Sound.
Variable sha256 : list byte -> list byte.
Variable nfc : list char -> list char.
Variable to_lowercase : char -> list char.
Variable json_pointer : Json -> str -> option (list nat).
Variable registry : SchemaRegistry.
Variable repository : Repository FileObjectStore.

#[local] Abbreviation load_structured := (load_structured sha256 nfc json_pointer registry repository).
#[local] Abbreviation load_record := (load_record sha256 nfc json_pointer registry repository).
#[local] Abbreviation load_tree := (load_tree sha256 nfc json_pointer registry repository).

(** A Commit of a kind, by an author, on its parents, with its snapshot. *)
Definition commit_at (oid kind author : str) (parents : list str) (snapshot : str) (commit : Value) : Prop :=
  load_structured oid Commit = Ok commit /\ get_str commit (lit "commit_kind") = Some kind /\
  get_str commit (lit "author_ref") = Some author /\ Canonical.get commit (lit "parents") = Some (Arr (map Str parents)) /\
  get_str commit (lit "snapshot") = Some snapshot.

(** The Commit carries the feedback of the human on a proposal, with the disposition. *)
Definition feedback_on (commit : Value) (human proposal disposition : str) : Prop :=
  exists oid feedback payload, Canonical.get commit (lit "transition_refs") = Some (Arr [Str oid]) /\
    load_record oid (lit "decision_feedback") = Ok feedback /\ get_str feedback (lit "origin") = Some (lit "self_declared") /\
    get_str feedback (lit "asserted_by") = Some human /\ Canonical.get feedback (lit "payload") = Some payload /\
    get_str payload (lit "proposal_ref") = Some proposal /\ get_str payload (lit "disposition") = Some disposition.

(** A Tree of the repository has the entry. *)
Definition tree_child (tree name : str) (kind : ObjectKind) (oid : str) : Prop :=
  exists value, load_structured tree Tree = Ok value /\ direct_entry_oid value name kind = Ok oid.

(** The context of a proposal, by the human: the base, the Decision Ref, the policy and the grant. *)
Definition context_names (snapshot human base decision_ref policy grant : str) : Prop :=
  exists context record payload,
    tree_child snapshot (lit "context.json") Record context /\ load_record context (lit "context_pack") = Ok record /\
    get_str record (lit "asserted_by") = Some human /\ Canonical.get record (lit "payload") = Some payload /\
    get_str payload (lit "base_commit") = Some base /\ get_str payload (lit "base_ref_name") = Some decision_ref /\
    get_str payload (lit "policy_snapshot_ref") = Some policy /\ get_str payload (lit "delegation_grant_ref") = Some grant.

(** The snapshot that a disposition selects. *)
Definition selected_of (disposition proposal_snapshot base_snapshot snapshot : str) : Prop :=
  (disposition = lit "adopted_unchanged" /\ snapshot = proposal_snapshot) \/
  ((disposition = lit "rejected" \/ disposition = lit "deferred") /\ snapshot = base_snapshot).

(** A Decision by the human at [head], on [parent], about a proposal of the AI actor on the same parent. *)
Definition decision_at (human ai head parent proposal disposition base_snapshot proposal_snapshot snapshot : str) : Prop :=
  exists decision proposal_value base_value,
    commit_at head (lit "decision") human [parent] snapshot decision /\
    feedback_on decision human proposal disposition /\
    commit_at proposal (lit "checkpoint") ai [parent] proposal_snapshot proposal_value /\
    load_structured parent Commit = Ok base_value /\ get_str base_value (lit "snapshot") = Some base_snapshot /\
    tree_child proposal_snapshot (lit "base") Tree base_snapshot /\
    selected_of disposition proposal_snapshot base_snapshot snapshot.

(** The Decisions behind [head], back to the checkpoint where the project began. *)
Inductive decided_by (human ai decision_ref policy grant : str) : str -> Prop :=
| decided_genesis head snapshot commit :
    commit_at head (lit "checkpoint") human [] snapshot commit ->
    (exists root, load_tree snapshot genesis_names = Ok root) -> decided_by human ai decision_ref policy grant head
| decided_next head parent proposal disposition base_snapshot proposal_snapshot snapshot :
    decision_at human ai head parent proposal disposition base_snapshot proposal_snapshot snapshot ->
    context_names proposal_snapshot human parent decision_ref policy grant ->
    decided_by human ai decision_ref policy grant parent -> decided_by human ai decision_ref policy grant head.

(** An actor Record of the control Tree. *)
Definition actor_record (oid actor human kind : str) : Prop :=
  exists record payload, load_record oid (lit "actor") = Ok record /\ get_str record (lit "entity_id") = Some actor /\
    get_str record (lit "asserted_by") = Some human /\ Canonical.get record (lit "payload") = Some payload /\
    get_str payload (lit "actor_kind") = Some kind.

(** The first snapshot of the project, which holds the policy, the grant and the two actors. *)
Definition project_control (binding : TrustedArtifactDecisionBinding) (human ai policy grant snapshot : str) : Prop :=
  exists control human_oid ai_oid grant_value payload,
    tree_child snapshot (lit "control") Tree control /\
    tree_child control (lit "policy.json") Record policy /\ tree_child control (lit "grant.json") Record grant /\
    tree_child control (lit "creator.actor.json") Record human_oid /\ actor_record human_oid human human (lit "human") /\
    tree_child control (lit "agent.actor.json") Record ai_oid /\ actor_record ai_oid ai human (lit "ai_agent") /\
    load_record grant (lit "delegation_grant") = Ok grant_value /\ Canonical.get grant_value (lit "payload") = Some payload /\
    get_str payload (lit "principal_ref") = Some human /\ get_str payload (lit "delegate_ref") = Some ai /\
    Canonical.get payload (lit "writable_ref_prefixes") = Some (Arr [Str (lit "proposal/artifact/" ++ tb_project_key binding)]).

(** The first snapshot, found through the [base] entries. *)
Inductive rooted (binding : TrustedArtifactDecisionBinding) (human ai policy grant : str) : str -> Prop :=
| rooted_here snapshot : project_control binding human ai policy grant snapshot -> rooted binding human ai policy grant snapshot
| rooted_base snapshot base :
    tree_child snapshot (lit "base") Tree base -> rooted binding human ai policy grant base -> rooted binding human ai policy grant snapshot.

Lemma load_tree_Ok oid names tree : load_tree oid names = Ok tree -> load_structured oid Tree = Ok tree.
Proof. unfold Checkout.load_tree. intros H. by result_inv. Qed.

Lemma tree_child_Ok tree value name kind oid : load_structured tree Tree = Ok value -> direct_entry_oid value name kind = Ok oid ->
  tree_child tree name kind oid.
Proof. intros H1 H2. by exists value. Qed.

Lemma selected_of_Ok disposition proposal_snapshot base_snapshot snapshot :
  (if str_eqb disposition (lit "adopted_unchanged") then Ok proposal_snapshot
   else if str_eqb disposition (lit "rejected") || str_eqb disposition (lit "deferred") then Ok base_snapshot
   else Err integrity) = Ok snapshot -> selected_of disposition proposal_snapshot base_snapshot snapshot.
Proof.
  intros H. destruct (str_eqb disposition (lit "adopted_unchanged")) eqn:E1; [apply str_eqb_eq in E1; injection H as <-; by left|].
  destruct (_ || _) eqn:E2; [|done]. injection H as <-. right. split; [|done].
  apply orb_true_iff in E2 as [E2|E2]; apply str_eqb_eq in E2; auto.
Qed.

Lemma prior_decision_sound head commit snapshot decision_ref human ai policy grant limits work parent work' :
  load_structured head Commit = Ok commit -> get_str commit (lit "commit_kind") = Some (lit "decision") ->
  get_str commit (lit "author_ref") = Some human -> get_str commit (lit "snapshot") = Some snapshot ->
  verify_prior_decision sha256 nfc json_pointer registry repository commit snapshot decision_ref human ai policy grant limits work
    = Ok (parent, work') ->
  exists proposal disposition base_snapshot proposal_snapshot,
    decision_at human ai head parent proposal disposition base_snapshot proposal_snapshot snapshot /\
    context_names proposal_snapshot human parent decision_ref policy grant.
Proof.
  intros Hload Hkind Hauthor Hsnapshot H. unfold verify_prior_decision in H. checks_inv.
  match goal with H : match ?l with [] => _ | _ => _ end = Ok parent |- _ =>
    destruct l as [|v [|]]; simplify_eq; apply ok_or_Ok in H; destruct v; simplify_eq/= end.
  match goal with H : load_tree _ proposal_names = Ok _ |- _ => apply load_tree_Ok in H end.
  repeat match goal with H : Forall _ (_ :: _) |- _ => apply Forall_cons in H as [?%require_field_Ok H] end.
  do 4 eexists. split.
  - do 3 eexists. split; [by split_and!|]. split; [by do 3 eexists; split_and!|]. split; [by split_and!|].
    split; [done|]. split; [done|]. split; [by eapply tree_child_Ok|by apply selected_of_Ok].
  - do 3 eexists. split; [by eapply tree_child_Ok|]. by split_and!.
Qed.

Lemma genesis_sound commit snapshot limits work work' :
  verify_genesis sha256 nfc json_pointer registry repository commit snapshot limits work = Ok work' ->
  Canonical.get commit (lit "parents") = Some (Arr []) /\ exists root, load_tree snapshot genesis_names = Ok root.
Proof. unfold verify_genesis. intros H. checks_inv. split; [done|by eexists]. Qed.

Lemma prior_chain_sound decision_ref human ai policy grant limits fuel : forall cursor visited work work',
  verify_prior_decision_chain sha256 nfc json_pointer registry repository fuel cursor visited decision_ref human ai policy grant
    limits work = Ok work' -> decided_by human ai decision_ref policy grant cursor.
Proof.
  induction fuel as [|fuel IH]; intros cursor visited work work' H; [done|]. cbn [verify_prior_decision_chain] in H. checks_inv.
  case_match eqn:Eg; [|case_match eqn:Ed; [|done]].
  - apply str_eqb_eq in Eg as ->. apply genesis_sound in H as [Hp Hr]. eapply decided_genesis; [by split_and!|done].
  - apply str_eqb_eq in Ed as ->. apply bind_Ok in H as ([parent next] & Hp & H).
    eapply prior_decision_sound in Hp as (? & ? & ? & ? & Hd & Hc); [|done..]. eapply decided_next; [done|done|by eapply IH].
Qed.

Lemma control_records_sound human_oid ai_oid subject_oid policy grant human ai subject binding u :
  verify_control_records sha256 nfc json_pointer registry repository human_oid ai_oid subject_oid policy grant human ai subject binding = Ok u ->
  actor_record human_oid human human (lit "human") /\ actor_record ai_oid ai human (lit "ai_agent") /\
  exists value payload, load_record grant (lit "delegation_grant") = Ok value /\ Canonical.get value (lit "payload") = Some payload /\
    get_str payload (lit "principal_ref") = Some human /\ get_str payload (lit "delegate_ref") = Some ai /\
    Canonical.get payload (lit "writable_ref_prefixes") = Some (Arr [Str (lit "proposal/artifact/" ++ tb_project_key binding)]).
Proof.
  unfold verify_control_records. intros H. checks_inv. split; [|split]; do 2 eexists; by split_and!.
Qed.

Lemma control_sound cursor snapshot policy grant human ai subject binding limits work work' :
  load_structured cursor Tree = Ok snapshot ->
  verify_control sha256 nfc json_pointer registry repository snapshot policy grant human ai subject binding limits work = Ok work' ->
  project_control binding human ai policy grant cursor.
Proof.
  intros Hload H. unfold verify_control in H. checks_inv. bool_props.
  repeat match goal with H : str_eqb _ _ = true |- _ => apply str_eqb_eq in H; subst end.
  match goal with H : verify_control_records _ _ _ _ _ _ _ _ _ _ _ _ _ _ = Ok _ |- _ =>
    apply control_records_sound in H as (Hh & Ha & value & payload & ? & ? & ? & ? & ?) end.
  match goal with H : load_tree _ control_names = Ok _ |- _ => apply load_tree_Ok in H end.
  do 5 eexists. split_and!; (done || by eapply tree_child_Ok).
Qed.

Lemma base_authority_sound policy grant human ai subject binding limits fuel : forall cursor visited work work',
  verify_base_authority sha256 nfc json_pointer registry repository fuel cursor visited policy grant human ai subject binding
    limits work = Ok work' -> rooted binding human ai policy grant cursor.
Proof.
  induction fuel as [|fuel IH]; intros cursor visited work work' H; [done|]. cbn [verify_base_authority] in H. checks_inv.
  case_match.
  - checks_inv. eapply rooted_base; [by eapply tree_child_Ok|by eapply IH].
  - eapply rooted_here, control_sound; done.
Qed.

(** ** The Decision of the binding *)

(** The policy denies by default and gates the publication of Decisions on a human. *)
Definition human_gated (policy decision_ref : str) : Prop :=
  exists record payload rules rule, load_record policy (lit "policy") = Ok record /\ Canonical.get record (lit "payload") = Some payload /\
    get_str payload (lit "default_effect") = Some (lit "deny") /\ Canonical.get payload (lit "rules") = Some (Arr rules) /\ rule ∈ rules /\
    get_str rule (lit "effect") = Some (lit "require_human_gate") /\ get_str rule (lit "action") = Some (lit "publish") /\
    get_str rule (lit "resource_selector") = Some decision_ref /\ get_str rule (lit "human_gate") = Some (lit "before_decision_ref").

(** Everything a checkout rests on. *)
Definition artifact_decided (binding : TrustedArtifactDecisionBinding) (site human ai policy grant : str) : Prop :=
  let proposal := tb_proposal binding in
  let decision_ref := db_decision_ref_name proposal in
  exists base_snapshot proposal_snapshot snapshot,
    decision_at human ai (tb_decision_head binding) (db_decision_head proposal) (db_proposal_head proposal)
      (disposition_name (tb_disposition binding)) base_snapshot proposal_snapshot snapshot /\
    tree_child snapshot (lit "site") Tree site /\
    context_names proposal_snapshot human (db_decision_head proposal) decision_ref policy grant /\
    human_gated policy decision_ref /\
    decided_by human ai decision_ref policy grant (db_decision_head proposal) /\
    rooted binding human ai policy grant base_snapshot.

Lemma publish_gate_Ok payload decision_ref u : require_publish_gate payload decision_ref = Ok u ->
  exists rules rule, Canonical.get payload (lit "rules") = Some (Arr rules) /\ rule ∈ rules /\
    get_str rule (lit "effect") = Some (lit "require_human_gate") /\ get_str rule (lit "action") = Some (lit "publish") /\
    get_str rule (lit "resource_selector") = Some decision_ref /\ get_str rule (lit "human_gate") = Some (lit "before_decision_ref").
Proof.
  unfold require_publish_gate, require_entry. intros H. apply bind_Ok in H as (rules & Hr%require_array_Some & H%reject_if_Ok%negb_false_iff).
  apply existsb_exists in H as (rule & Hin%list_elem_of_In & Hm). exists rules, rule. unfold entry_matches in Hm. cbn [forallb] in Hm.
  rewrite !andb_true_iff, !bool_decide_eq_true in Hm. destruct Hm as (? & ? & ? & ? & _). by split_and!.
Qed.

Lemma policy_and_grant_sound binding context policy grant human payload :
  verify_policy_and_grant sha256 nfc json_pointer registry repository binding context policy grant human = Ok payload ->
  human_gated policy (db_decision_ref_name (tb_proposal binding)).
Proof.
  unfold verify_policy_and_grant. intros H. checks_inv.
  match goal with H : require_publish_gate _ _ = Ok _ |- _ => apply publish_gate_Ok in H as (rules & rule & ? & ? & ? & ? & ? & ?) end.
  do 4 eexists. by split_and!.
Qed.

Lemma activity_sound context activity grant site proposal grant_payload human ai :
  verify_activity sha256 nfc json_pointer registry repository context activity grant site proposal grant_payload human = Ok ai ->
  get_str proposal (lit "author_ref") = Some ai.
Proof. unfold verify_activity. intros H. checks_inv. done. Qed.

Lemma context_sound binding base_head base_snapshot context activity site proposal human limits work work' :
  verify_context_and_activity sha256 nfc json_pointer registry repository binding base_head base_snapshot context activity site proposal
    human limits work = Ok work' ->
  exists ai policy grant record payload, get_str proposal (lit "author_ref") = Some ai /\
    load_record context (lit "context_pack") = Ok record /\
    get_str record (lit "asserted_by") = Some human /\ Canonical.get record (lit "payload") = Some payload /\
    get_str payload (lit "base_commit") = Some base_head /\
    get_str payload (lit "base_ref_name") = Some (db_decision_ref_name (tb_proposal binding)) /\
    get_str payload (lit "policy_snapshot_ref") = Some policy /\ get_str payload (lit "delegation_grant_ref") = Some grant /\
    human_gated policy (db_decision_ref_name (tb_proposal binding)) /\
    decided_by human ai (db_decision_ref_name (tb_proposal binding)) policy grant base_head /\
    rooted binding human ai policy grant base_snapshot.
Proof.
  unfold verify_context_and_activity. intros H. checks_inv.
  repeat match goal with H : Forall _ (_ :: _) |- _ => apply Forall_cons in H as [?%require_field_Ok H] end.
  match goal with H : verify_policy_and_grant _ _ _ _ _ _ _ _ _ _ = Ok _ |- _ => apply policy_and_grant_sound in H end.
  match goal with H : verify_activity _ _ _ _ _ _ _ _ _ _ _ _ = Ok _ |- _ => apply activity_sound in H end.
  match goal with H : verify_prior_decision_chain _ _ _ _ _ _ _ _ _ _ _ _ _ _ _ = Ok _ |- _ => apply prior_chain_sound in H end.
  match goal with H : verify_base_authority _ _ _ _ _ _ _ _ _ _ _ _ _ _ _ _ = Ok _ |- _ => apply base_authority_sound in H end.
  do 5 eexists. by split_and!.
Qed.

Lemma decision_sound binding snapshot human : verify_decision sha256 nfc json_pointer registry repository binding = Ok (snapshot, human) ->
  exists decision, commit_at (tb_decision_head binding) (lit "decision") human [db_decision_head (tb_proposal binding)] snapshot decision /\
    feedback_on decision human (db_proposal_head (tb_proposal binding)) (disposition_name (tb_disposition binding)).
Proof.
  unfold verify_decision. intros H. checks_inv. eexists. split; [by split_and!|]. do 3 eexists. by split_and!.
Qed.

Lemma base_sound base_head human snapshot site : verify_base sha256 nfc json_pointer registry repository base_head human = Ok (snapshot, site) ->
  tree_child snapshot (lit "site") Tree site /\
  exists base, load_structured base_head Commit = Ok base /\ get_str base (lit "snapshot") = Some snapshot.
Proof.
  unfold verify_base. intros H. checks_inv. split; [by eapply tree_child_Ok|]. by eexists.
Qed.

Lemma disposition_selects disposition proposal_snapshot base_snapshot :
  selected_of (disposition_name disposition) proposal_snapshot base_snapshot
    match disposition with AdoptedUnchanged => proposal_snapshot | ArtifactRejected | ArtifactDeferred => base_snapshot end.
Proof. unfold selected_of. destruct disposition; [by left|right; split; [by left|done]|right; split; [by right|done]]. Qed.

Lemma generic_decision_sound binding limits site :
  verify_generic_decision sha256 nfc json_pointer registry repository binding limits = Ok site ->
  exists human ai policy grant, artifact_decided binding site human ai policy grant.
Proof.
  unfold verify_generic_decision. intros H. apply bind_Ok in H as ([snapshot human] & Hd & H). apply decision_sound in Hd as (decision & Hd & Hf).
  apply bind_Ok in H as ([base_snapshot base_site] & Hb & H). apply base_sound in Hb as (Hbs & base & Hb & Hsnap). checks_inv.
  match goal with H : verify_context_and_activity _ _ _ _ _ _ _ _ _ _ _ _ _ _ _ = Ok _ |- _ =>
    apply context_sound in H as (ai & policy & grant & record & payload & ? & ? & ? & ? & ? & ? & ? & ? & ? & ? & ?) end.
  match goal with H : load_tree _ proposal_names = Ok _ |- _ => apply load_tree_Ok in H end.
  exists human, ai, policy, grant. do 3 eexists. split; [|split; [|split; [|by split_and!]]].
  - do 3 eexists. split; [done|]. split; [done|]. split; [by split_and!|]. split; [done|]. split; [done|].
    split; [by eapply tree_child_Ok|]. apply disposition_selects.
  - destruct (tb_disposition binding); [by eapply tree_child_Ok|done|done].
  - do 3 eexists. split; [by eapply tree_child_Ok|]. by split_and!.
Qed.
End Sound.
