(* ===== verification/CheckoutProps.v ===== *)
(** * Checkout: a decided artifact and the properties *)

From Stdlib Require Import ZArith Lia Sorted.
From stdpp Require Import base list numbers strings gmap sets.
From S2P Require Import CanonicalWrite Prelude Bytes Sorting Text TextFacts BTree PortablePath RefStore RefStoreProps Canonical Oid.
From S2P Require Import SchemaSemantics Registry ObjectStore FileStore Closure Repository AppState Artifact ArtifactProps Checkout.
From S2P Require Import CheckoutFacts CanonicalProps RegistryProps AuthorizationSample RepositorySample.

#[local] Open Scope Z_scope.

(** ** A decided artifact, for the witnesses

    Two sites stored by the mapper, the control Tree of a project, its first checkpoint, a proposal
    of the AI actor and the Decision of the human that adopts it. *)

(** A digest of 32 bytes that tells short texts apart. *)
Definition mixing_sha256 (m : list byte) : list byte :=
  let h := fold_left (fun h b => Z.land (h * 65599 + b + 1) 281474976710655) m 0 in
  map (fun i => Z.land (Z.shiftr h (8 * (Z.of_nat i mod 6))) 255) (seq 0 32).

Lemma mixing_sha256_digest : sha256_digest mixing_sha256.
Proof.
  intros m. unfold mixing_sha256. split; [by rewrite length_map, length_seq|]. apply Forall_map, Forall_forall. intros i _. unfold is_u8.
  change 255 with (Z.ones 8). rewrite Z.land_ones by lia. apply Z.mod_pos_bound. lia.
Qed.

Abbreviation FileRepository := (Repository FileObjectStore).

(** Steps that store objects, and the answer. *)
Definition Steps (A : Type) : Type := FileRepository -> FileRepository * A.
Definition done_with {A} (a : A) : Steps A := fun r => (r, a).
Definition and_then {A B} (first : Steps A) (next : A -> Steps B) : Steps B := fun r => match first r with (r, a) => next a r end.
#[local] Notation "x <<- a ; b" := (and_then a (fun x => b)) (at level 100, a at level 100, b at level 200, right associativity).

Definition store_value (value : Value) : Steps str :=
  fun r => after_put r (put_object mixing_sha256 nfc_id no_pointer open_registry r (render value)).
Definition store_blob (reads : list (list byte)) : Steps str := fun r => after_put r (repo_put_blob mixing_sha256 r reads).

Definition store_site (manifest : RegularFileManifest) : Steps str := fun r =>
  match map_regular_files mixing_sha256 nfc_id no_pointer open_registry render r manifest with
  | (r, Ok mapped) => (r, mt_site_tree_oid mapped)
  | (r, Err _) => (r, [])
  end.

Definition artifact_tree (entries : list (str * (ObjectKind * str))) : Value :=
  Obj [(lit "object_type", Str (lit "tree")); (lit "schema_version", Str (lit "0.1.0"));
       (lit "entries", Obj (map (fun e => (fst e, Obj [(lit "entry_kind", Str (prefix (fst (snd e))));
                                                      (lit "oid", Str (snd (snd e)))])) entries))].

Definition origin (s : String.string) : str * Value := (lit "origin", Str (lit s)).

Definition artifact_actor (entity_id kind how : str) : Value :=
  record_value (lit "actor") human_id [(lit "entity_id", Str entity_id); (lit "origin", Str how)] [(lit "actor_kind", Str kind)].

Definition artifact_subject : Value :=
  record_value (lit "subject") human_id [(lit "entity_id", Str (lit "urn:subject:demo")); origin "self_declared"]
    [(lit "subject_kind", Str (lit "digital")); (lit "label", Str (lit "demo"))].

Definition rule (action selector effect : String.string) (more : list (str * Value)) : Value :=
  Obj ([(lit "action", Str (lit action)); (lit "resource_selector", Str (lit selector)); (lit "effect", Str (lit effect))] ++ more).

Definition artifact_policy : Value :=
  record_value (lit "policy") human_id [origin "self_declared"]
    [(lit "scope_refs", string_array [project]); (lit "default_effect", Str (lit "deny"));
     (lit "rules", Arr [rule "publish" "decision/artifact/demo" "require_human_gate" [(lit "human_gate", Str (lit "before_decision_ref"))];
                        rule "propose" "proposal/artifact/demo/**" "allow" []; rule "read" "project/**" "allow" []])].

Definition artifact_grant : Value :=
  record_value (lit "delegation_grant") human_id [origin "self_declared"]
    [(lit "delegate_ref", Str ai_id); (lit "principal_ref", Str human_id); (lit "project_ref", Str project);
     (lit "data_classes", string_array [lit "internal"]); (lit "resource_selectors", string_array [lit "project/**"]);
     (lit "required_human_gates", string_array [lit "before_decision_ref"]);
     (lit "writable_ref_prefixes", string_array [lit "proposal/artifact/demo"])].

Definition artifact_context (base policy grant : str) : Value :=
  record_value (lit "context_pack") human_id [origin "tool_recorded"]
    [(lit "base_commit", Str base); (lit "expected_ref_head", Str base); (lit "base_ref_name", Str (lit "decision/artifact/demo"));
     (lit "selected_context_refs", string_array [base; grant]); (lit "subject_refs", string_array [lit "urn:subject:demo"]);
     (lit "policy_snapshot_ref", Str policy); (lit "delegation_grant_ref", Str grant); (lit "data_classification", Str (lit "internal"))].

Definition artifact_activity (context grant base site : str) : Value :=
  record_value (lit "activity") ai_id [origin "tool_recorded"]
    [(lit "activity_kind", Str (lit "ai_run")); (lit "side_effect_class", Str (lit "none"));
     (lit "input_refs", Arr [role_entry (lit "context") (lit "oid") context; role_entry (lit "base") (lit "oid") base]);
     (lit "output_refs", Arr [role_entry (lit "proposal") (lit "oid") site]);
     (lit "actor_refs", Arr [role_entry (lit "agent") (lit "actor_ref") ai_id;
                             role_entry (lit "responsible_principal") (lit "actor_ref") human_id]);
     (lit "subject_refs", string_array [lit "urn:subject:demo"]);
     (lit "ai_run", Obj [(lit "context_pack_ref", Str context); (lit "delegation_grant_ref", Str grant); (lit "status", Str (lit "proposal_ready"));
       (lit "required_human_gates", string_array [lit "before_decision_ref"]); (lit "agent_ref", Str ai_id);
       (lit "responsible_principal_ref", Str human_id)])].

Definition base_manifest : RegularFileManifest := {| mf_files := [(lit "Note.txt", lit "old")]; mf_total_bytes := 3 |}.

(** The repository, the base, the proposal and the Decision. *)
Definition decided_steps : Steps (str * str * str) :=
  base_site <<- store_site base_manifest;
  site <<- store_site sample_manifest;
  review <<- store_blob [[123; 125]];
  agent <<- store_value (artifact_actor ai_id (lit "ai_agent") (lit "tool_recorded"));
  creator <<- store_value (artifact_actor human_id (lit "human") (lit "self_declared"));
  grant <<- store_value artifact_grant;
  policy <<- store_value artifact_policy;
  subject <<- store_value artifact_subject;
  control <<- store_value (artifact_tree
    [(lit "agent.actor.json", (Record, agent)); (lit "creator.actor.json", (Record, creator)); (lit "grant.json", (Record, grant));
     (lit "policy.json", (Record, policy)); (lit "review-context.json", (Blob, review)); (lit "subject.json", (Record, subject))]);
  base_tree <<- store_value (artifact_tree [(lit "control", (Tree, control)); (lit "site", (Tree, base_site))]);
  base <<- store_value (commit_value (lit "checkpoint") human_id base_tree [] []);
  context <<- store_value (artifact_context base policy grant);
  activity <<- store_value (artifact_activity context grant base site);
  proposal_tree <<- store_value (artifact_tree
    [(lit "activity.json", (Record, activity)); (lit "base", (Tree, base_tree)); (lit "context.json", (Record, context));
     (lit "site", (Tree, site))]);
  proposal <<- store_value (commit_value (lit "checkpoint") ai_id proposal_tree [base] [activity]);
  feedback <<- store_value (record_value (lit "decision_feedback") human_id [origin "self_declared"]
    [(lit "proposal_ref", Str proposal); (lit "disposition", Str (lit "adopted_unchanged"))]);
  decision <<- store_value (commit_value (lit "decision") human_id proposal_tree [base] [feedback]);
  done_with (base, proposal, decision).

Definition decided : FileRepository * (str * str * str) := decided_steps new_repository.

Definition decided_base : str := decided.2.1.1.
Definition decided_proposal : str := decided.2.1.2.
Definition decided_decision : str := decided.2.2.

Definition set_ref (name head : str) (s : SqliteRefStore) : SqliteRefStore :=
  (compare_and_swap {| u_ref_name := name; u_expected_head := None; u_new_head := head; u_metadata := sample_md |} accept s).1.

Definition decided_repository : FileRepository :=
  set_refs decided.1
    (set_ref (lit "decision/artifact/demo") decided_decision
      (set_ref (lit "proposal/artifact/demo/run-1") decided_proposal (refs decided.1))).

Definition decided_binding : TrustedArtifactDecisionBinding :=
  {| tb_repository := lit "/srv/demo"; tb_project_key := lit "demo";
     tb_proposal := {| db_project := project; db_proposal_ref_name := lit "proposal/artifact/demo/run-1";
       db_proposal_head := decided_proposal; db_decision_ref_name := lit "decision/artifact/demo"; db_decision_head := decided_base |};
     tb_decision_head := decided_decision; tb_disposition := AdoptedUnchanged;
     tb_reviewed_manifest_sha256 := artifact_manifest_sha256 mixing_sha256 sample_manifest |}.

Definition decided_checkout : checkout_result CheckedOutArtifact :=
  checkout_artifact_decision_in_repository mixing_sha256 nfc_id ascii_lowercase no_pointer open_registry decided_repository
    decided_binding default_checkout_limits.

Definition artifact_of (r : checkout_result CheckedOutArtifact) : CheckedOutArtifact :=
  match r with
  | Ok artifact => artifact
  | Err _ => {| co_disposition := ArtifactDeferred; co_manifest_sha256 := []; co_files := []; co_total_bytes := 0 |}
  end.

Lemma artifact_of_ok r : is_ok r = true -> r = Ok (artifact_of r).
Proof. by destruct r. Qed.

Definition checked_out : CheckedOutArtifact := artifact_of decided_checkout.

Example decided_checkout_ok : is_ok decided_checkout = true.
Proof. vm_cast_no_check (eq_refl true). Qed.

Lemma decided_checkout_answer :
  checkout_artifact_decision_in_repository mixing_sha256 nfc_id ascii_lowercase no_pointer open_registry decided_repository
    decided_binding default_checkout_limits = Ok checked_out.
Proof.
  exact (artifact_of_ok decided_checkout decided_checkout_ok).
Qed.

(** The Decision rejects the proposal in this binding. *)
Definition rejected_binding : TrustedArtifactDecisionBinding :=
  {| tb_repository := tb_repository decided_binding; tb_project_key := tb_project_key decided_binding;
     tb_proposal := tb_proposal decided_binding; tb_decision_head := decided_decision; tb_disposition := ArtifactRejected;
     tb_reviewed_manifest_sha256 := tb_reviewed_manifest_sha256 decided_binding |}.

(** It is not the Decision of the repository, and nothing is checked out. *)
Example other_disposition :
  checkout_artifact_decision_in_repository mixing_sha256 nfc_id ascii_lowercase no_pointer open_registry decided_repository
    rejected_binding default_checkout_limits = Err integrity.
Proof. vm_compute. reflexivity. Qed.

(** ** Checkout: the properties *)

Lemma require_ref_head_Ok t limit snapshot name expected u :
  snapshot_limited limit t = Ok snapshot -> require_ref_head snapshot name expected = Ok u -> query_head t name = Some expected.
Proof.
  unfold snapshot_limited, load_snapshot_count_limited, require_ref_head. intros Hs H. repeat (case_match; try done). result_inv. bool_props.
  match goal with H : push_limited _ _ _ = Ok _ |- _ => apply push_limited_rows in H as -> end. cbn [app RefStore.refs] in *.
  set (l := take _ (select_refs t)) in *. match goal with H : binary_search_by _ l = Some ?i |- _ => rename i into index, H into Hi end.
  destruct (l !! index) as [r|] eqn:El; simplify_eq/=. unfold binary_search_by in Hi. destruct (_ <$> _) as [[]|] eqn:E; simplify_eq.
  rewrite El in E. cbn in E. injection E as E%lex_compare_eq. unfold l in El.
  apply lookup_take_Some in El as [El _]. apply list_elem_of_lookup_2 in El as Hin.
  destruct r as [n h ev]. apply select_refs_elem in Hin. cbn in *. subst. unfold query_head. by rewrite Hin.
Qed.

Section Props.
Variable sha256 : list byte -> list byte.
Variable nfc : list char -> list char.
Variable to_lowercase : char -> list char.
Variable json_pointer : Json -> str -> option (list nat).
Variable registry : SchemaRegistry.
Variable repository : Repository FileObjectStore.

#[local] Abbreviation checkout := (checkout_artifact_decision_in_repository sha256 nfc to_lowercase json_pointer registry repository).
#[local] Abbreviation reaches := (reaches sha256 nfc json_pointer registry repository).
#[local] Abbreviation blob_bytes := (blob_bytes sha256 repository).

(** C29: A checkout always answers, for every repository, binding and limits: its walks over Decisions,
    snapshots and Trees end within their limits, whatever cycles or sharing the objects have, no [expect]
    of it fails, and every error is an error code.  The one way to end the process instead is an object
    of the repository that reads back and has a confidence whose comparison pads a number to more than
    2^47 characters. *)
Theorem checkout_answers binding limits e :
  checkout_artifact_decision_in_repository sha256 nfc to_lowercase json_pointer registry repository binding limits = Err e ->
  (exists code, e = Checkout code) \/
  e = CheckoutAborted /\ exists oid object value,
    file_get_verified sha256 nfc (Repository.objects repository) oid = Ok (Some object) /\ ob_structured object = Some value /\
    oversized_within value.
Proof.
  revert e. change (settles_or (oversized_read sha256 nfc repository) (checkout binding limits)). unfold checkout_artifact_decision_in_repository, verify_selected_artifact,
    validate_limits, validate_binding, require_ref_head.
  settles_auto; [apply settles_decision|apply settles_read_site].
Qed.

Lemma checked_out_files files total artifact path bytes : bt_ok files ->
  co_files artifact = map (fun file => regular_file (fst file) (snd file)) files -> total = co_total_bytes artifact ->
  checked_out_bytes artifact path = Some bytes <-> (path, bytes) ∈ files.
Proof.
  intros Hok Hf _. unfold checked_out_bytes. rewrite Hf.
  set (l := map (fun file : str * list byte => regular_file (fst file) (snd file)) files).
  assert (StronglySorted lex_lt (map ae_path l)) as Hs by (unfold l; rewrite map_map; exact Hok).
  assert ((path, bytes) ∈ files <-> regular_file path bytes ∈ l) as ->.
  { unfold l. rewrite list_elem_of_fmap. split.
    - intros Hin. by exists (path, bytes).
    - intros ([p b] & [= -> ->] & Hin). done. }
  rewrite bind_Some. split.
  - intros (i & Hi & He). destruct (l !! i) as [entry|] eqn:El; [|done]. injection He as <-.
    destruct (proj1 (binary_search_keys ae_path l path entry Hs)) as [Hin <-]; [by exists i|].
    unfold l in *. apply list_elem_of_fmap in Hin as ([p b] & -> & Hin). apply list_elem_of_fmap. by exists (p, b).
  - intros Hin. destruct (proj2 (binary_search_keys ae_path l path (regular_file path bytes) Hs)) as (i & Hi & El); [done|].
    exists i. split; [done|]. by rewrite El.
Qed.

Lemma selected_artifact_Ok binding limits manifest digest : limits_nonneg (cl_artifact limits) ->
  verify_selected_artifact sha256 nfc to_lowercase json_pointer registry repository binding limits = Ok (manifest, digest) ->
  (exists site human ai policy grant,
     artifact_decided sha256 nfc json_pointer registry repository binding site human ai policy grant /\
     forall path bytes, (path, bytes) ∈ mf_files manifest <->
       exists names blob, reaches site names blob /\ blob_bytes blob bytes /\ path = join_with [47] names) /\
  bt_ok (mf_files manifest) /\ digest = artifact_manifest_sha256 sha256 manifest /\ digest = tb_reviewed_manifest_sha256 binding.
Proof.
  intros Hl H. unfold verify_selected_artifact in H. result_inv. bool_props.
  repeat match goal with H : str_eqb _ _ = true |- _ => apply str_eqb_eq in H end.
  match goal with H : from_entries _ _ (sort_by _ ?l) _ = Ok _ |- _ => rename l into files, H into Hm end.
  match goal with H : verify_generic_decision _ _ _ _ _ _ _ = Ok ?s |- _ => rename s into site, H into Hd end.
  match goal with H : read_site _ _ _ _ _ _ _ _ = Ok _ |- _ => rename H into Hr end.
  apply generic_decision_sound in Hd as (human & ai & policy & grant & Hd).
  pose proof (from_entries_spec nfc to_lowercase _ (sort_by by_path files) Hl) as Hspec. rewrite Hm in Hspec. destruct Hspec as (_ & Hok & Hf & _).
  split; [|by split_and!]. exists site, human, ai, policy, grant. split; [done|]. intros path bytes. rewrite Hf, list_elem_of_fmap. split.
  - intros (e & [= -> ->] & Hin). rewrite (sort_by_perm by_path files) in Hin. apply (read_site_found _ _ _ _ _ _ _ _ _ Hr) in Hin.
    destruct Hin as (names & blob & b & Hreach & Hb & ->). exists names, blob. by split_and!.
  - intros (names & blob & Hreach & Hb & ->). exists (regular_file (join_with [47] names) bytes). split; [done|].
    rewrite (sort_by_perm by_path files). apply (read_site_found _ _ _ _ _ _ _ _ _ Hr). by exists names, blob, bytes.
Qed.

Lemma checkout_Ok binding limits artifact : checkout binding limits = Ok artifact ->
  query_head (tables (Repository.refs repository)) (db_proposal_ref_name (tb_proposal binding)) = Some (db_proposal_head (tb_proposal binding)) /\
  query_head (tables (Repository.refs repository)) (db_decision_ref_name (tb_proposal binding)) = Some (tb_decision_head binding) /\
  validate_binding binding = Ok tt /\
  exists manifest, verify_selected_artifact sha256 nfc to_lowercase json_pointer registry repository binding limits
      = Ok (manifest, co_manifest_sha256 artifact) /\
    co_disposition artifact = tb_disposition binding /\
    co_files artifact = map (fun file => regular_file (fst file) (snd file)) (mf_files manifest) /\
    co_total_bytes artifact = mf_total_bytes manifest.
Proof.
  unfold checkout_artifact_decision_in_repository. intros H. result_inv.
  match goal with H : validate_binding _ = Ok ?u |- _ => destruct u end.
  repeat match goal with H : require_ref_head _ _ _ = Ok _ |- _ => eapply require_ref_head_Ok in H; [|done] end.
  split_and!; [done..|]. eexists. by split_and!.
Qed.

(** The manifest of the files of a result. *)
Definition checked_out_manifest (artifact : CheckedOutArtifact) : RegularFileManifest :=
  {| mf_files := map file_of (co_files artifact); mf_total_bytes := co_total_bytes artifact |}.

Lemma checked_out_manifest_files artifact manifest :
  co_files artifact = map (fun file => regular_file (fst file) (snd file)) (mf_files manifest) ->
  co_total_bytes artifact = mf_total_bytes manifest -> checked_out_manifest artifact = manifest.
Proof.
  intros Hf Ht. unfold checked_out_manifest. rewrite Hf, Ht, map_map. destruct manifest as [files total]. cbn. f_equal.
  clear Hf Ht. induction files as [|[p b] files IH]; [done|]. cbn. f_equal. exact IH.
Qed.

(** C28: A checkout returns exactly the decided files.  The Proposal and the Decision Ref stand at the
    bound heads; there is a site, that of the proposal's snapshot when the Decision adopted it and that
    of the base otherwise; a path has bytes in the result exactly when its names lead through the Trees
    of the site to a Blob with these bytes; and the digest of the files is the reviewed one. *)
Theorem checkout_exact binding limits artifact (Hl : limits_nonneg (cl_artifact limits)) (H : checkout binding limits = Ok artifact) :
  query_head (tables (Repository.refs repository)) (db_proposal_ref_name (tb_proposal binding)) = Some (db_proposal_head (tb_proposal binding)) /\
  query_head (tables (Repository.refs repository)) (db_decision_ref_name (tb_proposal binding)) = Some (tb_decision_head binding) /\
  (exists site human ai policy grant,
     artifact_decided sha256 nfc json_pointer registry repository binding site human ai policy grant /\
     forall path bytes, checked_out_bytes artifact path = Some bytes <->
       exists names blob, reaches site names blob /\ blob_bytes blob bytes /\ path = join_with [47] names) /\
  artifact_manifest_sha256 sha256 (checked_out_manifest artifact) = tb_reviewed_manifest_sha256 binding.
Proof.
  apply checkout_Ok in H as (Hp & Hd & _ & manifest & Hv & _ & Hf & Ht).
  apply selected_artifact_Ok in Hv as ((site & human & ai & policy & grant & Hdec & Hfiles) & Hok & Hdig & Hdigest); [|done].
  split_and!; [done|done| |by rewrite (checked_out_manifest_files artifact manifest), <- Hdig]. exists site, human, ai, policy, grant. split; [done|]. intros path bytes.
  by rewrite (checked_out_files (mf_files manifest) (mf_total_bytes manifest)).
Qed.
End Props.

Lemma checkout_answers_witness :
  checkout_artifact_decision_in_repository mixing_sha256 nfc_id ascii_lowercase no_pointer open_registry decided_repository
    rejected_binding default_checkout_limits = Err integrity /\
  ((exists code, integrity = Checkout code) \/
   integrity = CheckoutAborted /\ exists oid object value,
     file_get_verified mixing_sha256 nfc_id (Repository.objects decided_repository) oid = Ok (Some object) /\
     ob_structured object = Some value /\ oversized_within value).
Proof.
  split; [exact other_disposition|].
  exact (checkout_answers mixing_sha256 nfc_id ascii_lowercase no_pointer open_registry decided_repository rejected_binding
    default_checkout_limits integrity other_disposition).
Defined.

Lemma checkout_exact_witness :
  query_head (tables (Repository.refs decided_repository)) (lit "proposal/artifact/demo/run-1") = Some decided_proposal /\
  query_head (tables (Repository.refs decided_repository)) (lit "decision/artifact/demo") = Some decided_decision /\
  (exists site human ai policy grant,
     artifact_decided mixing_sha256 nfc_id no_pointer open_registry decided_repository decided_binding site human ai policy grant /\
     forall path bytes, checked_out_bytes checked_out path = Some bytes <->
       exists names blob, reaches mixing_sha256 nfc_id no_pointer open_registry decided_repository site names blob /\
         blob_bytes mixing_sha256 decided_repository blob bytes /\ path = join_with [47] names) /\
  artifact_manifest_sha256 mixing_sha256 (checked_out_manifest checked_out) = tb_reviewed_manifest_sha256 decided_binding.
Proof.
  exact (checkout_exact mixing_sha256 nfc_id ascii_lowercase no_pointer open_registry decided_repository decided_binding
    default_checkout_limits checked_out default_limits_nonneg decided_checkout_answer).
Defined.
