(* ===== verification/Approval.v ===== *)
(** * Approvals of artifact decisions

    crates/synapse-artifact/src/approval.rs: the registry that issues expiring one-shot
    approvals.  A block under the lock of the registry is a function on its state; [issue] and
    [claim] have two such blocks, and other calls may run between them.  What the host supplies
    (the answers of the authenticator, the readings of the clock) and the state of the pending
    proposal are arguments.  The counter of registry instances is the argument [instance]; a
    poisoned lock is not modelled. *)

From Stdlib Require Import ZArith Lia.
From stdpp Require Import base list numbers strings gmap sets relations.
From S2P Require Import Prelude Bytes Text Oid AppState Artifact.

#[local] Open Scope Z_scope.

(** ** What an approval is for (workflow.rs) *)

Inductive PendingArtifactState := Ready | Deciding | Consumed | DecisionOutcomeUnknown.

#[export] Instance PendingArtifactState_eq_dec : EqDecision PendingArtifactState.
Proof. solve_decision. Defined.

Record ArtifactDecisionOptions := { disposition : ArtifactDisposition; private_rationale : option str }.

#[export] Instance ArtifactDecisionOptions_eq_dec : EqDecision ArtifactDecisionOptions.
Proof. solve_decision. Defined.

(** ** The registry *)

Inductive ArtifactApprovalError :=
| ApprovalConfigInvalid
| ApprovalAuthenticationFailed
| ApprovalProjectAccessDenied
| ApprovalInvalid
| ApprovalServiceUnavailable.

#[export] Instance ArtifactApprovalError_eq_dec : EqDecision ArtifactApprovalError.
Proof. solve_decision. Defined.

Abbreviation approval_result := (result ArtifactApprovalError).

Definition approval_code (error : ArtifactApprovalError) : str :=
  match error with
  | ApprovalConfigInvalid => lit "artifact_approval_config_invalid"
  | ApprovalAuthenticationFailed => lit "authentication_failed"
  | ApprovalProjectAccessDenied => lit "project_access_denied"
  | ApprovalInvalid => lit "artifact_approval_invalid"
  | ApprovalServiceUnavailable => lit "service_unavailable"
  end.

Record ArtifactDecisionApproval := { aa_registry_instance : Z; aa_serial : Z }.

Record ProjectApprovalSecurity := { pa_epoch : Z; pa_allowed_actors : gset str }.

Record ApprovalRecord := {
  av_actor_id : str;
  av_session_id : str;
  av_binding : DurableProposalBinding;
  av_intent_sha256 : list byte;
  av_security_epoch : Z;
  av_issued_at : Z;
  av_not_after : Z;
}.

Record ApprovalState := {
  rs_next_serial : Z;
  rs_projects : gmap str ProjectApprovalSecurity;
  rs_approvals : gmap Z ApprovalRecord;
}.

Definition set_project (project : str) (security : ProjectApprovalSecurity) (s : ApprovalState) : ApprovalState :=
  {| rs_next_serial := rs_next_serial s; rs_projects := <[project := security]> (rs_projects s); rs_approvals := rs_approvals s |}.
Definition set_approvals (approvals : gmap Z ApprovalRecord) (s : ApprovalState) : ApprovalState :=
  {| rs_next_serial := rs_next_serial s; rs_projects := rs_projects s; rs_approvals := approvals |}.

(** [ArtifactApprovalRegistry::new], after the instance was drawn. *)
Definition approval_registry_new (ttl_nanos : Z) : approval_result ApprovalState :=
  reject_if (ttl_nanos <=? 0) ApprovalConfigInvalid;;
  Ok {| rs_next_serial := 1; rs_projects := ∅; rs_approvals := ∅ |}.

(** [valid_control_value] of this file: 2,000 bytes at most. *)
Definition approval_value_ok (value : str) : bool :=
  negb (bool_decide (value = [])) && (len value <=? 2000) && negb (existsb is_control (chars value)).

(** [next_epoch]: the sum fits [u64]. *)
Definition approval_next_epoch (value : Z) : approval_result Z := ok_or (usize_checked_add value 1) ApprovalServiceUnavailable.

Definition allowed (actor_id : str) (security : ProjectApprovalSecurity) : bool := bool_decide (actor_id ∈ pa_allowed_actors security).

(** An actor is added before the epoch is counted: an overflow leaves it added. *)
Definition approval_grant (project actor_id : str) (s : ApprovalState) : ApprovalState * approval_result bool :=
  if negb (approval_value_ok project) || negb (approval_value_ok actor_id) then (s, Err ApprovalConfigInvalid)
  else
    let security := default {| pa_epoch := 1; pa_allowed_actors := ∅ |} (rs_projects s !! project) in
    if allowed actor_id security then (set_project project security s, Ok false)
    else
      let actors := {[actor_id]} ∪ pa_allowed_actors security in
      match approval_next_epoch (pa_epoch security) with
      | Ok epoch => (set_project project {| pa_epoch := epoch; pa_allowed_actors := actors |} s, Ok true)
      | Err e => (set_project project {| pa_epoch := pa_epoch security; pa_allowed_actors := actors |} s, Err e)
      end.

(** In the same way an actor is removed before the epoch is counted. *)
Definition approval_revoke (project actor_id : str) (s : ApprovalState) : ApprovalState * approval_result bool :=
  if negb (approval_value_ok project) || negb (approval_value_ok actor_id) then (s, Err ApprovalConfigInvalid)
  else
    match rs_projects s !! project with
    | None => (s, Ok false)
    | Some security =>
      if allowed actor_id security then
        let actors := pa_allowed_actors security ∖ {[actor_id]} in
        match approval_next_epoch (pa_epoch security) with
        | Ok epoch => (set_project project {| pa_epoch := epoch; pa_allowed_actors := actors |} s, Ok true)
        | Err e => (set_project project {| pa_epoch := pa_epoch security; pa_allowed_actors := actors |} s, Err e)
        end
      else (s, Ok false)
    end.

(** [ArtifactApprovalRegistry::authenticate] *)
Definition approval_authenticate (answer : Authentication) : approval_result AuthenticatedSession :=
  match answer with
  | AuthSession session => Ok session
  | AuthPanicked | AuthRefused => Err ApprovalAuthenticationFailed
  end.

(** The security of a project whose members include the actor. *)
Definition access (project actor_id : str) (s : ApprovalState) : approval_result ProjectApprovalSecurity :=
  ok_or (security ← rs_projects s !! project; if allowed actor_id security then Some security else None) ApprovalProjectAccessDenied.

Definition authorize_project (answer : Authentication) (project : str) (s : ApprovalState) : approval_result unit :=
  session ← approval_authenticate answer;
  reject_if (negb (approval_value_ok project)) ApprovalConfigInvalid;;
  access project (ss_actor_id session) s;;
  Ok tt.

Definition rationale_ok (options : ArtifactDecisionOptions) : bool :=
  match private_rationale options with Some rationale => approval_value_ok rationale | None => true end.

Definition disposition_bytes (disposition : ArtifactDisposition) : str :=
  match disposition with
  | AdoptedUnchanged => lit "adopted_unchanged"
  | ArtifactRejected => lit "rejected"
  | ArtifactDeferred => lit "deferred"
  end.

Definition rationale_bytes (rationale : option str) : list byte :=
  match rationale with
  | None => [0] ++ lit "rationale:none"
  | Some rationale => [0] ++ lit "rationale:some" ++ [0] ++ u64_be (len rationale) ++ rationale
  end.

Definition decision_intent_preimage (options : ArtifactDecisionOptions) : list byte :=
  lit "synapsegit.generic-artifact-decision-intent.v1" ++ [0] ++ disposition_bytes (disposition options) ++
  rationale_bytes (private_rationale options).

Section Registry.
Variable sha256 : list byte -> list byte.
(** The constant fields of the registry. *)
Variable instance : Z.
Variable ttl_nanos : Z.

Definition decision_intent_sha256 (options : ArtifactDecisionOptions) : list byte := sha256 (decision_intent_preimage options).

(** The first part of [issue_artifact_decision]: one block under the lock, then the checks
    and the reading of the clock.  The answer is what the second block works with. *)
Record Issuance := {
  is_session : AuthenticatedSession;
  is_binding : DurableProposalBinding;
  is_epoch : Z;
  is_intent : list byte;
  is_issued_at : Z;
  is_not_after : Z;
}.

Definition issue_begin (answer : Authentication) (binding : DurableProposalBinding) (state : PendingArtifactState)
    (options : ArtifactDecisionOptions) (now : option Z) (s : ApprovalState) : approval_result Issuance :=
  session ← approval_authenticate answer;
  security ← access (db_project binding) (ss_actor_id session) s;
  reject_if (negb (bool_decide (state = Ready))) ApprovalInvalid;;
  reject_if (negb (rationale_ok options)) ApprovalInvalid;;
  issued_at ← ok_or now ApprovalServiceUnavailable;
  not_after ← ok_or (i128_checked_add issued_at ttl_nanos) ApprovalServiceUnavailable;
  reject_if (issued_at >=? not_after) ApprovalServiceUnavailable;;
  Ok {| is_session := session; is_binding := binding; is_epoch := pa_epoch security; is_intent := decision_intent_sha256 options;
        is_issued_at := issued_at; is_not_after := not_after |}.

Definition issued_record (i : Issuance) : ApprovalRecord :=
  {| av_actor_id := ss_actor_id (is_session i); av_session_id := ss_session_id (is_session i); av_binding := is_binding i;
     av_intent_sha256 := is_intent i; av_security_epoch := is_epoch i; av_issued_at := is_issued_at i;
     av_not_after := is_not_after i |}.

(** The second block: expired approvals go, also when the serial overflows. *)
Definition issue_finish (i : Issuance) (s : ApprovalState) : ApprovalState * approval_result Z :=
  match (security ← access (db_project (is_binding i)) (ss_actor_id (is_session i)) s;
         reject_if (negb (pa_epoch security =? is_epoch i)) ApprovalProjectAccessDenied) with
  | Err e => (s, Err e)
  | Ok _ =>
    let approvals := filter (fun '(_, approval) => is_issued_at i < av_not_after approval) (rs_approvals s) in
    let serial := rs_next_serial s in
    match approval_next_epoch serial with
    | Err e => (set_approvals approvals s, Err e)
    | Ok next =>
      ({| rs_next_serial := next; rs_projects := rs_projects s; rs_approvals := <[serial := issued_record i]> approvals |}, Ok serial)
    end
  end.

(** A call of [issue_artifact_decision] that no other call interrupts. *)
Definition issue_artifact_decision (answer : Authentication) (binding : DurableProposalBinding) (state : PendingArtifactState)
    (options : ArtifactDecisionOptions) (now : option Z) (s : ApprovalState) : ApprovalState * approval_result ArtifactDecisionApproval :=
  match issue_begin answer binding state options now s with
  | Err e => (s, Err e)
  | Ok i =>
    let '(s, serial) := issue_finish i s in
    (s, serial ← serial; Ok {| aa_registry_instance := instance; aa_serial := serial |})
  end.

(** The first block of [claim_artifact_decision]: the record is taken out. *)
Definition claim_take (answer : Authentication) (approval : ArtifactDecisionApproval) (s : ApprovalState)
  : approval_result (ApprovalState * (AuthenticatedSession * ApprovalRecord)) :=
  session ← approval_authenticate answer;
  reject_if (negb (aa_registry_instance approval =? instance)) ApprovalInvalid;;
  record ← ok_or (rs_approvals s !! aa_serial approval) ApprovalInvalid;
  access (db_project (av_binding record)) (ss_actor_id session) s;;
  Ok (set_approvals (delete (aa_serial approval) (rs_approvals s)) s, (session, record)).

(** The comparison of the record with the request, under the lock. *)
Definition claim_valid (session : AuthenticatedSession) (record : ApprovalRecord) (binding : DurableProposalBinding)
    (state : PendingArtifactState) (options : ArtifactDecisionOptions) (now : Z) (s : ApprovalState) : bool :=
  bool_decide (state = Ready) &&
  str_eqb (av_actor_id record) (ss_actor_id session) &&
  str_eqb (av_session_id record) (ss_session_id session) &&
  bool_decide (av_binding record = binding) &&
  bool_decide (av_intent_sha256 record = decision_intent_sha256 options) &&
  (now >=? av_issued_at record) &&
  (now <? av_not_after record) &&
  match rs_projects s !! db_project (av_binding record) with
  | Some security => (pa_epoch security =? av_security_epoch record) && allowed (ss_actor_id session) security
  | None => false
  end.

(** The rest of [claim_artifact_decision]. *)
Definition claim_check (session : AuthenticatedSession) (record : ApprovalRecord) (binding : DurableProposalBinding)
    (state : PendingArtifactState) (options : ArtifactDecisionOptions) (now : option Z) (s : ApprovalState) : approval_result Z :=
  now ← ok_or now ApprovalServiceUnavailable;
  reject_if (negb (rationale_ok options)) ApprovalInvalid;;
  reject_if (negb (claim_valid session record binding state options now s)) ApprovalInvalid;;
  Ok now.

(** A call of [claim_artifact_decision] that no other call interrupts. *)
Definition claim_artifact_decision (answer : Authentication) (approval : ArtifactDecisionApproval) (binding : DurableProposalBinding)
    (state : PendingArtifactState) (options : ArtifactDecisionOptions) (now : option Z) (s : ApprovalState)
  : ApprovalState * approval_result unit :=
  match claim_take answer approval s with
  | Err e => (s, Err e)
  | Ok (s, (session, record)) => (s, claim_check session record binding state options now s;; Ok tt)
  end.

(** ** Calls that run at the same time *)

Inductive ApprovalCall :=
| GrantCall (project actor_id : str)
| RevokeCall (project actor_id : str)
| AuthorizeCall (answer : Authentication) (project : str)
| IssueCall (answer : Authentication) (binding : DurableProposalBinding) (state : PendingArtifactState)
    (options : ArtifactDecisionOptions) (now : option Z)
| ClaimCall (answer : Authentication) (approval : ArtifactDecisionApproval) (binding : DurableProposalBinding)
    (state : PendingArtifactState) (options : ArtifactDecisionOptions) (now : option Z).

(** What a thread has left to do. *)
Inductive ApprovalThread :=
| Calling (c : ApprovalCall)
| Issuing (i : Issuance)
| Claiming (serial : Z) (session : AuthenticatedSession) (record : ApprovalRecord) (binding : DurableProposalBinding)
    (state : PendingArtifactState) (options : ArtifactDecisionOptions) (now : option Z)
| Returned (answer : approval_result unit).

(** What happens, for the record of a run. *)
Inductive ApprovalEvent :=
(** A change of the members that returns success: one that overflows the [u64] epoch is an error. *)
| MembersChanged (project : str)
| ApprovalIssued (serial : Z) (record : ApprovalRecord)
| ApprovalTaken (serial : Z) (record : ApprovalRecord)
| ApprovalClaimed (serial : Z) (record : ApprovalRecord) (session : AuthenticatedSession) (binding : DurableProposalBinding)
    (options : ArtifactDecisionOptions) (now : Z).

Definition changed_event (project : str) (changed : approval_result bool) : list ApprovalEvent :=
  match changed with Ok true => [MembersChanged project] | _ => [] end.

(** One block of a thread. *)
Definition approval_thread_step (t : ApprovalThread) (s : ApprovalState) : option (ApprovalState * list ApprovalEvent * ApprovalThread) :=
  match t with
  | Returned _ => None
  | Calling (GrantCall project actor_id) =>
    let '(s, changed) := approval_grant project actor_id s in Some (s, changed_event project changed, Returned (changed;; Ok tt))
  | Calling (RevokeCall project actor_id) =>
    let '(s, changed) := approval_revoke project actor_id s in Some (s, changed_event project changed, Returned (changed;; Ok tt))
  | Calling (AuthorizeCall answer project) => Some (s, [], Returned (authorize_project answer project s))
  | Calling (IssueCall answer binding state options now) =>
    Some (s, [], match issue_begin answer binding state options now s with Ok i => Issuing i | Err e => Returned (Err e) end)
  | Issuing i =>
    let '(s, serial) := issue_finish i s in
    Some (s, match serial with Ok serial => [ApprovalIssued serial (issued_record i)] | Err _ => [] end, Returned (serial;; Ok tt))
  | Calling (ClaimCall answer approval binding state options now) =>
    Some (match claim_take answer approval s with
          | Ok (s, (session, record)) =>
            (s, [ApprovalTaken (aa_serial approval) record], Claiming (aa_serial approval) session record binding state options now)
          | Err e => (s, [], Returned (Err e))
          end)
  | Claiming serial session record binding state options now =>
    Some (match claim_check session record binding state options now s with
          | Ok now => (s, [ApprovalClaimed serial record session binding options now], Returned (Ok tt))
          | Err e => (s, [], Returned (Err e))
          end)
  end.

Record ApprovalMachine := {
  am_state : ApprovalState;
  am_trace : list (nat * ApprovalEvent);
  am_threads : list ApprovalThread;
}.

Inductive approval_step (m : ApprovalMachine) : ApprovalMachine -> Prop :=
| approval_call c :
    approval_step m {| am_state := am_state m; am_trace := am_trace m; am_threads := am_threads m ++ [Calling c] |}
| approval_thread i t s events t' :
    am_threads m !! i = Some t -> approval_thread_step t (am_state m) = Some (s, events, t') ->
    approval_step m {| am_state := s; am_trace := am_trace m ++ map (pair i) events; am_threads := <[i := t']> (am_threads m) |}.

Definition approval_reachable (m : ApprovalMachine) : Prop :=
  exists s, approval_registry_new ttl_nanos = Ok s /\ rtc approval_step {| am_state := s; am_trace := []; am_threads := [] |} m.
End Registry.
