(* ===== verification/ApprovalProps.v ===== *)
(** * Approvals: what a claimed approval was issued for *)

From Stdlib Require Import ZArith Lia.
From stdpp Require Import base list numbers strings gmap sets relations.
From S2P Require Import Prelude Bytes Text TextFacts Oid AppState Artifact Approval CanonicalProps AuthorizationSample.

#[local] Open Scope Z_scope.

(** ** The intent digest *)

Lemma disposition_bytes_inj d d' rest rest' :
  disposition_bytes d ++ 0 :: rest = disposition_bytes d' ++ 0 :: rest' -> d = d' /\ rest = rest'.
Proof. destruct d, d'; cbn; intros E; try (by simplify_eq); split; congruence. Qed.

Lemma rationale_bytes_cons r : exists rest, rationale_bytes r = 0 :: rest.
Proof. destruct r; cbn; by eexists. Qed.

Lemma rationale_bytes_inj r r' : (forall s, r = Some s -> len s < 2 ^ 64) -> (forall s, r' = Some s -> len s < 2 ^ 64) ->
  rationale_bytes r = rationale_bytes r' -> r = r'.
Proof.
  destruct r as [r|], r' as [r'|]; unfold rationale_bytes; intros H H' E; [|discriminate E..|done].
  do 3 apply app_inv_head in E. apply app_inj_1 in E as [_ ->]; [done|]. by rewrite !u64_be_length.
Qed.

Lemma rationale_ok_sized options s : rationale_ok options = true -> private_rationale options = Some s -> len s < 2 ^ 64.
Proof. unfold rationale_ok, approval_value_ok. intros H E. rewrite E in H. bool_props. lia. Qed.

Lemma intent_preimage_inj o o' : rationale_ok o = true -> rationale_ok o' = true ->
  decision_intent_preimage o = decision_intent_preimage o' -> o = o'.
Proof.
  intros Ho Ho' E. unfold decision_intent_preimage in E. apply app_inv_head, app_inv_head in E.
  destruct (rationale_bytes_cons (private_rationale o)) as [rest Er], (rationale_bytes_cons (private_rationale o')) as [rest' Er'].
  rewrite Er, Er' in E. apply disposition_bytes_inj in E as [Ed ->]. rewrite <- Er' in Er.
  apply rationale_bytes_inj in Er; [|eauto using rationale_ok_sized..]. destruct o, o'; cbn in *. by subst.
Qed.

(** ** What a block of a thread does *)

Section Effects.
Variable sha256 : list byte -> list byte.
Variable instance ttl_nanos : Z.

#[local] Abbreviation thread_step := (approval_thread_step sha256 instance ttl_nanos).

(** Epochs only grow. *)
Definition projects_le (p p' : gmap str ProjectApprovalSecurity) : Prop :=
  forall project security, p !! project = Some security ->
    exists security', p' !! project = Some security' /\ pa_epoch security <= pa_epoch security'.

#[export] Instance projects_le_refl : Reflexive projects_le.
Proof. intros p project security H. by exists security. Qed.

Lemma projects_le_insert p project security :
  (forall old, p !! project = Some old -> pa_epoch old <= pa_epoch security) -> projects_le p (<[project := security]> p).
Proof.
  intros H other old Ho. destruct (decide (project = other)) as [<-|Hne].
  - rewrite lookup_insert_eq. eauto.
  - rewrite lookup_insert_ne by done. by exists old.
Qed.

(** The session and the request of a claim fit the record, at the epoch of the project. *)
Definition claim_fits (s : ApprovalState) (record : ApprovalRecord) (session : AuthenticatedSession) (binding : DurableProposalBinding)
    (options : ArtifactDecisionOptions) (now : Z) : Prop :=
  av_actor_id record = ss_actor_id session /\ av_session_id record = ss_session_id session /\ av_binding record = binding /\
  av_intent_sha256 record = decision_intent_sha256 sha256 options /\ rationale_ok options = true /\
  av_issued_at record <= now < av_not_after record /\
  exists security, rs_projects s !! db_project binding = Some security /\ pa_epoch security = av_security_epoch record /\
    ss_actor_id session ∈ pa_allowed_actors security.

Inductive approval_effect (s : ApprovalState) (t : ApprovalThread) : ApprovalState -> list ApprovalEvent -> ApprovalThread -> Prop :=
| effect_quiet s' t' : (forall a b c d e f g, t' <> Claiming a b c d e f g) ->
    rs_next_serial s' = rs_next_serial s -> rs_approvals s' ⊆ rs_approvals s -> projects_le (rs_projects s) (rs_projects s') ->
    approval_effect s t s' [] t'
| effect_changed project security answer :
    (forall old, rs_projects s !! project = Some old -> pa_epoch old < pa_epoch security) ->
    approval_effect s t (set_project project security s) [MembersChanged project] (Returned answer)
| effect_issued s' record security answer :
    rs_next_serial s' = rs_next_serial s + 1 -> rs_projects s' = rs_projects s ->
    (exists approvals, approvals ⊆ rs_approvals s /\ rs_approvals s' = <[rs_next_serial s := record]> approvals) ->
    rs_projects s !! db_project (av_binding record) = Some security -> pa_epoch security = av_security_epoch record ->
    approval_effect s t s' [ApprovalIssued (rs_next_serial s) record] (Returned answer)
| effect_taken serial record session binding state options now :
    rs_approvals s !! serial = Some record ->
    approval_effect s t (set_approvals (delete serial (rs_approvals s)) s) [ApprovalTaken serial record]
      (Claiming serial session record binding state options now)
| effect_claimed serial record session binding state options reading now :
    t = Claiming serial session record binding state options reading ->
    claim_fits s record session binding options now ->
    approval_effect s t s [ApprovalClaimed serial record session binding options now] (Returned (Ok tt)).

Lemma grant_effect t project actor_id s : let '(s', changed) := approval_grant project actor_id s in
  approval_effect s t s' (changed_event project changed) (Returned (changed;; Ok tt)).
Proof.
  unfold approval_grant. destruct (negb _ || negb _)%bool; [by apply effect_quiet|]. set (security := default _ _).
  assert (forall old, rs_projects s !! project = Some old -> security = old) as Hs by (intros old Ho; unfold security; by rewrite Ho).
  destruct (allowed _ _); [apply effect_quiet; try done; apply projects_le_insert; by intros old ->%Hs|].
  unfold approval_next_epoch, usize_checked_add. destruct (_ <=? usize_max); cbn.
  - apply effect_changed. intros old ->%Hs. cbn. lia.
  - apply effect_quiet; try done. apply projects_le_insert. intros old ->%Hs. cbn. lia.
Qed.

Lemma revoke_effect t project actor_id s : let '(s', changed) := approval_revoke project actor_id s in
  approval_effect s t s' (changed_event project changed) (Returned (changed;; Ok tt)).
Proof.
  unfold approval_revoke. destruct (negb _ || negb _)%bool; [by apply effect_quiet|]. destruct (rs_projects s !! project) as [security|] eqn:Hs; [|by apply effect_quiet].
  destruct (allowed _ _); [|by apply effect_quiet]. unfold approval_next_epoch, usize_checked_add. destruct (_ <=? usize_max); cbn.
  - apply effect_changed. rewrite Hs. intros old [= <-]. cbn. lia.
  - apply effect_quiet; try done. apply projects_le_insert. rewrite Hs. intros old [= <-]. cbn. lia.
Qed.

Lemma access_Ok project actor s security :
  access project actor s = Ok security -> rs_projects s !! project = Some security /\ actor ∈ pa_allowed_actors security.
Proof.
  unfold access. intros H. result_inv. apply bind_Some in H as (old & Ho & H). unfold allowed in H. case_match; simplify_eq.
  bool_props. done.
Qed.

Lemma issue_effect i s : let '(s', serial) := issue_finish i s in
  approval_effect s (Issuing i) s' match serial with Ok serial => [ApprovalIssued serial (issued_record i)] | Err _ => [] end
    (Returned (serial;; Ok tt)).
Proof.
  unfold issue_finish. destruct (access _ _ _ ≫= _) as [u|] eqn:Ha; [|by apply effect_quiet].
  result_inv. bool_props. match goal with H : access _ _ _ = Ok _ |- _ => apply access_Ok in H as [Hs _] end. unfold approval_next_epoch, usize_checked_add. destruct (_ <=? usize_max); cbn.
  - eapply (effect_issued _ _ _ (issued_record i)); [done..| |exact Hs|done].
    eexists. split; [|reflexivity]. apply map_filter_subseteq.
  - apply effect_quiet; [done..| |done]. apply map_filter_subseteq.
Qed.

Lemma claim_valid_fits session record binding state options now s : rationale_ok options = true ->
  claim_valid sha256 session record binding state options now s = true -> claim_fits s record session binding options now.
Proof.
  unfold claim_valid, claim_fits. intros Hr H. bool_props. destruct (rs_projects s !! _) as [security|] eqn:Hs; [|done]. bool_props.
  repeat match goal with H : str_eqb _ _ = true |- _ => apply str_eqb_eq in H end.
  match goal with H : allowed _ _ = true |- _ => unfold allowed in H; bool_props end.
  subst. split_and!; try done. by exists security.
Qed.

Lemma thread_effects t s s' events t' : thread_step t s = Some (s', events, t') -> approval_effect s t s' events t'.
Proof.
  destruct t as [[]|i|serial session record binding state options now|]; cbn [approval_thread_step]; intros H; [..|done].
  - pose proof (grant_effect (Calling (GrantCall project actor_id)) project actor_id s) as He.
    destruct (approval_grant _ _ _). by simplify_eq.
  - pose proof (revoke_effect (Calling (RevokeCall project actor_id)) project actor_id s) as He.
    destruct (approval_revoke _ _ _). by simplify_eq.
  - simplify_eq. by apply effect_quiet.
  - simplify_eq. apply effect_quiet; [|done..]. by case_match.
  - unfold claim_take in H. destruct (_ ≫= _) as [[s1 [session record]]|e] eqn:E; simplify_eq; [|by apply effect_quiet].
    result_inv. by apply effect_taken.
  - pose proof (issue_effect i s) as He. destruct (issue_finish i s). by simplify_eq.
  - unfold claim_check in H. destruct (_ ≫= _) as [z|e] eqn:E; simplify_eq; [|by apply effect_quiet].
    result_inv. bool_props. eapply effect_claimed; [done|]. eapply claim_valid_fits; done.
Qed.
End Effects.

(** ** Runs *)

Section Runs.
Variable sha256 : list byte -> list byte.
Variable instance ttl_nanos : Z.

Abbreviation trace := (list (nat * ApprovalEvent)).

Definition is_change (project : str) (e : nat * ApprovalEvent) : Prop := e.2 = MembersChanged project.
Definition is_taken (serial : Z) (e : nat * ApprovalEvent) : Prop := exists record, e.2 = ApprovalTaken serial record.
Definition is_claimed (serial : Z) (e : nat * ApprovalEvent) : Prop :=
  exists record session binding options now, e.2 = ApprovalClaimed serial record session binding options now.

(** What a successful claim goes back to. *)
Definition claim_backed (tr : trace) (k i : nat) (serial : Z) (record : ApprovalRecord) (session : AuthenticatedSession)
    (binding : DurableProposalBinding) (options : ArtifactDecisionOptions) (now : Z) : Prop :=
  (exists j l i', (j < l < k)%nat /\ tr !! j = Some (i', ApprovalIssued serial record) /\
     tr !! l = Some (i, ApprovalTaken serial record) /\
     forall n e, (j < n < k)%nat -> tr !! n = Some e -> ~ is_change (db_project binding) e) /\
  av_actor_id record = ss_actor_id session /\ av_session_id record = ss_session_id session /\ av_binding record = binding /\
  av_intent_sha256 record = decision_intent_sha256 sha256 options /\ rationale_ok options = true /\
  av_issued_at record <= now < av_not_after record.

Record approval_inv (m : ApprovalMachine) : Prop := {
  inv_serials : forall j i serial record, am_trace m !! j = Some (i, ApprovalIssued serial record) ->
    serial < rs_next_serial (am_state m);
  inv_epochs : forall j i serial record, am_trace m !! j = Some (i, ApprovalIssued serial record) ->
    exists security, rs_projects (am_state m) !! db_project (av_binding record) = Some security /\
      av_security_epoch record <= pa_epoch security /\
      (forall n e, (j < n)%nat -> am_trace m !! n = Some e -> is_change (db_project (av_binding record)) e ->
         av_security_epoch record < pa_epoch security);
  inv_stored : forall serial record, rs_approvals (am_state m) !! serial = Some record ->
    (exists j i, am_trace m !! j = Some (i, ApprovalIssued serial record)) /\
    (forall n e, am_trace m !! n = Some e -> ~ is_taken serial e);
  inv_taken : forall l i serial record, am_trace m !! l = Some (i, ApprovalTaken serial record) ->
    (exists j i', (j < l)%nat /\ am_trace m !! j = Some (i', ApprovalIssued serial record)) /\
    (forall l' e, am_trace m !! l' = Some e -> is_taken serial e -> l' = l);
  inv_claiming : forall i serial session record binding state options now,
    am_threads m !! i = Some (Claiming serial session record binding state options now) ->
    (exists l, am_trace m !! l = Some (i, ApprovalTaken serial record)) /\
    (forall n e, am_trace m !! n = Some e -> ~ is_claimed serial e);
  inv_claimed : forall k i serial record session binding options now,
    am_trace m !! k = Some (i, ApprovalClaimed serial record session binding options now) ->
    claim_backed (am_trace m) k i serial record session binding options now /\
    (forall k' e, am_trace m !! k' = Some e -> is_claimed serial e -> k' = k);
}.

Lemma lookup_snoc_inv {A} (l : list A) x k y : (l ++ [x]) !! k = Some y -> l !! k = Some y \/ (k = length l /\ y = x).
Proof.
  rewrite lookup_app_Some. intros [|[Hk H]]; [by left|right]. destruct (k - length l)%nat eqn:E; [|done]. injection H as ->. split; [lia|done].
Qed.

Lemma claim_backed_app tr tr' k i serial record session binding options now : (k <= length tr)%nat ->
  claim_backed tr k i serial record session binding options now -> claim_backed (tr ++ tr') k i serial record session binding options now.
Proof.
  intros Hk ((j & l & i' & Hjl & Hj & Hl & Hn) & Hrest). split; [|done]. exists j, l, i'. split_and!; [lia|lia|by apply lookup_app_l_Some..|].
  intros n e Hlt He. apply (Hn n e); [done|]. by rewrite lookup_app_l in He by lia.
Qed.

Ltac snoc_cases :=
  repeat match goal with
  | H : (_ ++ [_]) !! _ = Some _ |- _ => apply lookup_snoc_inv in H as [H|[? H]]
  | H : ?e = (_, _) |- _ => is_var e; subst e
  | H : is_change _ _ |- _ => unfold is_change in H; cbn in H
  | H : is_taken _ (_, _) |- _ => destruct H as [? H]; cbn in H
  | H : is_claimed _ (_, _) |- _ => destruct H as (? & ? & ? & ? & ? & H); cbn in H
  end; simplify_eq/=.

(** A step without events, and what threads do after it. *)
Lemma inv_quiet m s threads :
  approval_inv m -> rs_next_serial s = rs_next_serial (am_state m) -> rs_approvals s ⊆ rs_approvals (am_state m) ->
  projects_le (rs_projects (am_state m)) (rs_projects s) ->
  (forall i a b c d e f g, threads !! i = Some (Claiming a b c d e f g) -> am_threads m !! i = Some (Claiming a b c d e f g)) ->
  approval_inv {| am_state := s; am_trace := am_trace m; am_threads := threads |}.
Proof.
  intros [H1 H2 H3 H4 H5 H6] En Ea Hp Ht. split; cbn; try done.
  - intros. rewrite En. eauto.
  - intros j i serial record Hj. destruct (H2 j i serial record Hj) as (security & Hs & Hle & Hlt).
    destruct (Hp _ _ Hs) as (security' & Hs' & Hle'). exists security'. split_and!; [done|lia|]. intros n e Hn He Hc.
    specialize (Hlt n e Hn He Hc). lia.
  - intros serial record H. apply H3. by eapply lookup_weaken.
  - intros i a b c d e f g H. eapply H5. by apply Ht.
Qed.

Lemma inv_changed m project security threads :
  approval_inv m -> (forall old, rs_projects (am_state m) !! project = Some old -> pa_epoch old < pa_epoch security) ->
  (forall i a b c d e f g, threads !! i = Some (Claiming a b c d e f g) -> am_threads m !! i = Some (Claiming a b c d e f g)) ->
  forall i, approval_inv {| am_state := set_project project security (am_state m);
                            am_trace := am_trace m ++ [(i, MembersChanged project)]; am_threads := threads |}.
Proof.
  intros [H1 H2 H3 H4 H5 H6] Hlt Ht i. split; cbn.
  - intros j i' serial record Hj. snoc_cases. eauto.
  - intros j i' serial record Hj. snoc_cases. destruct (H2 j i' serial record Hj) as (old & Hs & Hle & Hch).
    destruct (decide (db_project (av_binding record) = project)) as [<-|Hne].
    + specialize (Hlt old Hs). exists security. rewrite lookup_insert_eq. split_and!; [done|lia|]. intros. lia.
    + exists old. rewrite lookup_insert_ne by done. split_and!; [done..|]. intros n e Hn He Hc. snoc_cases. by eapply Hch.
  - intros serial record H. destruct (H3 serial record H) as [(j & i' & Hj) Hn]. split.
    + exists j, i'. by apply lookup_app_l_Some.
    + intros n e He Htk. snoc_cases. by eapply Hn.
  - intros l i' serial record Hl. snoc_cases. destruct (H4 l i' serial record Hl) as [(j & i1 & Hjl & Hj) Hn]. split.
    + exists j, i1. split; [done|]. by apply lookup_app_l_Some.
    + intros l' e He Htk. snoc_cases. by eapply Hn.
  - intros i' a b c d e f g H. destruct (H5 i' a b c d e f g (Ht _ _ _ _ _ _ _ _ H)) as [(l & Hl) Hn]. split.
    + exists l. by apply lookup_app_l_Some.
    + intros n e0 He Hc. snoc_cases. by eapply Hn.
  - intros k i' serial record session binding options now Hk. snoc_cases. destruct (H6 _ _ _ _ _ _ _ _ Hk) as [Hb Hu]. split.
    + apply claim_backed_app; [|done]. apply lookup_lt_Some in Hk. lia.
    + intros k' e He Hc. snoc_cases. by eapply Hu.
Qed.

Lemma inv_issued_step m s record security threads i :
  approval_inv m -> rs_next_serial s = rs_next_serial (am_state m) + 1 -> rs_projects s = rs_projects (am_state m) ->
  (exists approvals, approvals ⊆ rs_approvals (am_state m) /\ rs_approvals s = <[rs_next_serial (am_state m) := record]> approvals) ->
  rs_projects (am_state m) !! db_project (av_binding record) = Some security -> pa_epoch security = av_security_epoch record ->
  (forall i a b c d e f g, threads !! i = Some (Claiming a b c d e f g) -> am_threads m !! i = Some (Claiming a b c d e f g)) ->
  approval_inv {| am_state := s; am_trace := am_trace m ++ [(i, ApprovalIssued (rs_next_serial (am_state m)) record)];
                  am_threads := threads |}.
Proof.
  intros [H1 H2 H3 H4 H5 H6] En Ep (approvals & Hsub & Ea) Hs He Ht. split; cbn.
  - intros j i' serial r Hj. rewrite En. snoc_cases; [|lia]. specialize (H1 _ _ _ _ Hj). lia.
  - intros j i' serial r Hj. rewrite Ep. snoc_cases.
    + destruct (H2 j i' serial r Hj) as (old & Ho & Hle & Hch). exists old. split_and!; [done..|]. intros n e Hn Hen Hc. snoc_cases. by eapply Hch.
    + exists security. split_and!; [done|lia|]. intros n e Hn Hen Hc. snoc_cases. apply lookup_lt_Some in Hen. lia.
  - intros serial r H. rewrite Ea in H. apply lookup_insert_Some in H as [[<- <-]|[Hne H]].
    + split; [exists (length (am_trace m)), i; by rewrite lookup_app_r, Nat.sub_diag by done|].
      intros n e Hn Htk. snoc_cases. destruct Htk as [r Htk]. destruct e as [i' e]. cbn in Htk. subst e.
      destruct (H4 _ _ _ _ Hn) as [(j & i1 & _ & Hj) _]. specialize (H1 _ _ _ _ Hj). lia.
    + destruct (H3 serial r) as [(j & i' & Hj) Hn]; [by eapply lookup_weaken|]. split.
      * exists j, i'. by apply lookup_app_l_Some.
      * intros n e Hen Htk. snoc_cases. by eapply Hn.
  - intros l i' serial r Hl. snoc_cases. destruct (H4 l i' serial r Hl) as [(j & i1 & Hjl & Hj) Hn]. split.
    + exists j, i1. split; [done|]. by apply lookup_app_l_Some.
    + intros l' e Hen Htk. snoc_cases. by eapply Hn.
  - intros i' a b c d e f g H. destruct (H5 i' a b c d e f g (Ht _ _ _ _ _ _ _ _ H)) as [(l & Hl) Hn]. split.
    + exists l. by apply lookup_app_l_Some.
    + intros n e0 Hen Hc. snoc_cases. by eapply Hn.
  - intros k i' serial r session binding options now Hk. snoc_cases. destruct (H6 _ _ _ _ _ _ _ _ Hk) as [Hb Hu]. split.
    + apply claim_backed_app; [|done]. apply lookup_lt_Some in Hk. lia.
    + intros k' e Hen Hc. snoc_cases. by eapply Hu.
Qed.

Lemma inv_taken_step m serial record session binding state options now threads i :
  approval_inv m -> rs_approvals (am_state m) !! serial = Some record ->
  (forall i' a b c d e f g, threads !! i' = Some (Claiming a b c d e f g) ->
     am_threads m !! i' = Some (Claiming a b c d e f g) \/
     i' = i /\ Claiming a b c d e f g = Claiming serial session record binding state options now) ->
  approval_inv {| am_state := set_approvals (delete serial (rs_approvals (am_state m))) (am_state m);
                  am_trace := am_trace m ++ [(i, ApprovalTaken serial record)]; am_threads := threads |}.
Proof.
  intros [H1 H2 H3 H4 H5 H6] Hst Ht. destruct (H3 serial record Hst) as [(j0 & i0 & Hj0) Hnt]. split; cbn.
  - intros j i' serial' r Hj. snoc_cases. eauto.
  - intros j i' serial' r Hj. snoc_cases. destruct (H2 j i' serial' r Hj) as (old & Ho & Hle & Hch). exists old. split_and!; [done..|].
    intros n e Hn Hen Hc. snoc_cases. by eapply Hch.
  - intros serial' r H. apply lookup_delete_Some in H as [Hne H]. destruct (H3 serial' r H) as [(j & i' & Hj) Hn]. split.
    + exists j, i'. by apply lookup_app_l_Some.
    + intros n e Hen Htk. snoc_cases. by eapply Hn.
  - intros l i' serial' r Hl. snoc_cases.
    + destruct (H4 l i' serial' r Hl) as [(j & i1 & Hjl & Hj) Hn]. split; [exists j, i1; split; [done|]; by apply lookup_app_l_Some|].
      intros l' e Hen Htk. snoc_cases; [by eapply Hn|]. destruct (Hnt _ _ Hl). by eexists.
    + split; [exists j0, i0; split; [by apply lookup_lt_Some in Hj0|by apply lookup_app_l_Some]|].
      intros l' e Hen Htk. snoc_cases; [|done]. by destruct (Hnt _ _ Hen).
  - intros i' a b c d e f g H. destruct (Ht _ _ _ _ _ _ _ _ H) as [Hold|[-> E]].
    + destruct (H5 i' a b c d e f g Hold) as [(l & Hl) Hn]. split; [exists l; by apply lookup_app_l_Some|].
      intros n e0 Hen Hc. snoc_cases. by eapply Hn.
    + injection E as -> -> -> -> -> -> ->. split; [exists (length (am_trace m)); by rewrite lookup_app_r, Nat.sub_diag by done|].
      intros n e0 Hen Hc. snoc_cases. destruct e0 as [i' e0], Hc as (r & se & bi & op & no & Hc). cbn in Hc. subst e0.
      destruct (H6 _ _ _ _ _ _ _ _ Hen) as [((j & l & i1 & _ & _ & Hl & _) & _) _]. destruct (Hnt _ _ Hl). by eexists.
  - intros k i' serial' r se bi op no Hk. snoc_cases. destruct (H6 _ _ _ _ _ _ _ _ Hk) as [Hb Hu]. split.
    + apply claim_backed_app; [|done]. apply lookup_lt_Some in Hk. lia.
    + intros k' e Hen Hc. snoc_cases. by eapply Hu.
Qed.

Lemma inv_claimed_step m serial record session binding state options reading now threads i :
  approval_inv m -> am_threads m !! i = Some (Claiming serial session record binding state options reading) ->
  claim_fits sha256 (am_state m) record session binding options now ->
  (forall i' a b c d e f g, threads !! i' = Some (Claiming a b c d e f g) ->
     i' <> i /\ am_threads m !! i' = Some (Claiming a b c d e f g)) ->
  approval_inv {| am_state := am_state m; am_trace := am_trace m ++ [(i, ApprovalClaimed serial record session binding options now)];
                  am_threads := threads |}.
Proof.
  intros [H1 H2 H3 H4 H5 H6] Hi (Ha & Hs & Hb & Hint & Hr & Hnow & security & Hp & Hep & _) Ht.
  destruct (H5 _ _ _ _ _ _ _ _ Hi) as [(l & Hl) Hnc]. destruct (H4 _ _ _ _ Hl) as [(j & i' & Hjl & Hj) Hu].
  assert (forall k' e, am_trace m !! k' = Some e -> ~ is_claimed serial e) as Hnone by eauto. split; cbn.
  - intros j' i1 serial' r Hj'. snoc_cases. eauto.
  - intros j' i1 serial' r Hj'. snoc_cases. destruct (H2 j' i1 serial' r Hj') as (old & Ho & Hle & Hch). exists old. split_and!; [done..|].
    intros n e Hn Hen Hc. snoc_cases. by eapply Hch.
  - intros serial' r H. destruct (H3 serial' r H) as [(j' & i1 & Hj') Hn]. split; [exists j', i1; by apply lookup_app_l_Some|].
    intros n e Hen Htk. snoc_cases. by eapply Hn.
  - intros l' i1 serial' r Hl'. snoc_cases. destruct (H4 l' i1 serial' r Hl') as [(j' & i2 & Hj1 & Hj') Hn].
    split; [exists j', i2; split; [done|]; by apply lookup_app_l_Some|]. intros l1 e Hen Htk. snoc_cases. by eapply Hn.
  - intros i1 a b c d e f g H. destruct (Ht _ _ _ _ _ _ _ _ H) as [Hne Hold]. destruct (H5 i1 a b c d e f g Hold) as [(l1 & Hl1) Hn].
    split; [exists l1; by apply lookup_app_l_Some|]. intros n e0 Hen Hc. snoc_cases; [by eapply Hn|].
    assert (l1 = l) as -> by (eapply Hu; [exact Hl1|by eexists]). rewrite Hl in Hl1. by simplify_eq.
  - intros k i1 serial' r se bi op no Hk. snoc_cases.
    + destruct (H6 _ _ _ _ _ _ _ _ Hk) as [Hbk Huk]. split; [apply claim_backed_app; [|done]; apply lookup_lt_Some in Hk; lia|].
      intros k' e Hen Hc. snoc_cases; [by eapply Huk|]. destruct (Hnone _ _ Hk). by repeat eexists.
    + apply lookup_lt_Some in Hl as Hlt. split; [|intros k' e Hen Hc; snoc_cases; [by destruct (Hnone _ _ Hen)|done]].
      split_and!; try done; [|lia..]. exists j, l, i'. split_and!; [done|lia|by apply lookup_app_l_Some..|].
      intros n e Hn Hen Hc. snoc_cases. destruct (H2 _ _ _ _ Hj) as (old & Ho & _ & Hch).
      rewrite Hp in Ho. injection Ho as ->. specialize (Hch n e ltac:(lia) Hen Hc). lia.
Qed.

Lemma insert_claiming {T} (threads : list T) i t' i' (x : T) : <[i := t']> threads !! i' = Some x -> t' <> x -> i' <> i /\ threads !! i' = Some x.
Proof.
  intros H Hne. destruct (decide (i' = i)) as [->|Hi].
  - apply list_lookup_insert_Some in H as [(_ & E & _)|[? _]]; done.
  - by rewrite list_lookup_insert_ne in H by done.
Qed.

Lemma approval_step_inv m m' : approval_step sha256 instance ttl_nanos m m' -> approval_inv m -> approval_inv m'.
Proof.
  intros Hstep Hinv. destruct Hstep as [c|i t s events t' Hi Hstep].
  - apply inv_quiet; try done. intros i a b c' d e f g H. apply lookup_snoc_inv in H as [H|[_ H]]; done.
  - apply thread_effects in Hstep. destruct Hstep as [s' t' Hq En Ea Hp|project security answer Hlt|s' record security answer En Ep Ea Hs He|
      serial record session binding state options now Hst|serial record session binding state options reading now -> Hfit]; cbn [map].
    + rewrite app_nil_r. apply inv_quiet; try done. intros i' a b c d e f g H. by apply insert_claiming in H as [_ H].
    + apply inv_changed; try done. intros i' a b c d e f g H. by apply insert_claiming in H as [Hne H].
    + eapply inv_issued_step; try done. intros i' a b c d e f g H. by apply insert_claiming in H as [Hne H].
    + eapply inv_taken_step; try done. intros i' a b c d e f g H.
      destruct (decide (i' = i)) as [->|Hi']; [|left; by rewrite list_lookup_insert_ne in H by done].
      apply list_lookup_insert_Some in H as [(_ & E & _)|[? _]]; [right; by split|done].
    + eapply inv_claimed_step; try done. intros i' a b c d e f g H. by apply insert_claiming in H as [Hne H].
Qed.

Lemma approval_reachable_inv m : approval_reachable sha256 instance ttl_nanos m -> approval_inv m.
Proof.
  intros (s & Hs & Hrtc). unfold approval_registry_new in Hs. result_inv.
  assert (approval_inv {| am_state := {| rs_next_serial := 1; rs_projects := ∅; rs_approvals := ∅ |}; am_trace := []; am_threads := [] |})
    as H0 by (split; cbn; intros; try done; by rewrite lookup_empty in *).
  revert H0. induction Hrtc as [|m1 m2 m3 Hstep _ IH]; [done|]. intros Hinv. apply IH. by eapply approval_step_inv.
Qed.

(** C31: However calls interleave, a decision goes through on an approval at most once, and only as it was
    issued.  Every claim that succeeds was preceded by the issuing of its record and by the same
    thread taking it; between the issuing and the claim no member of the project was added or
    removed; actor, session and binding are those of the record, the clock is in its window; and the
    options are the ones whose intent was recorded, or the texts hashed for the two intents collide. *)
Theorem approval_claimed_once m k i serial record session binding options now :
  approval_reachable sha256 instance ttl_nanos m ->
  am_trace m !! k = Some (i, ApprovalClaimed serial record session binding options now) ->
  claim_backed (am_trace m) k i serial record session binding options now /\
  (forall k' e, am_trace m !! k' = Some e -> is_claimed serial e -> k' = k) /\
  (forall issued, rationale_ok issued = true -> av_intent_sha256 record = decision_intent_sha256 sha256 issued ->
     issued = options \/ collides sha256 (decision_intent_preimage issued) (decision_intent_preimage options)).
Proof.
  intros Hm Hk. apply approval_reachable_inv in Hm as []. destruct (inv_claimed0 _ _ _ _ _ _ _ _ Hk) as [Hb Hu].
  split_and!; [done|done|]. intros issued Hr Hi. destruct Hb as (_ & _ & _ & _ & Ho & Hro & _). rewrite Hi in Ho.
  destruct (decide (decision_intent_preimage issued = decision_intent_preimage options)) as [E|Hne].
  - left. by apply intent_preimage_inj.
  - right. by split.
Qed.
End Runs.

(** ** A concrete run *)

Definition sample_session : AuthenticatedSession := {| ss_actor_id := lit "host:alice"; ss_session_id := lit "session-1" |}.
Definition sample_binding : DurableProposalBinding :=
  {| db_project := lit "project"; db_proposal_ref_name := lit "proposal/artifact/demo/a"; db_proposal_head := lit "p";
     db_decision_ref_name := lit "decision/artifact/demo"; db_decision_head := lit "d" |}.
Definition sample_options : ArtifactDecisionOptions := {| disposition := AdoptedUnchanged; private_rationale := Some (lit "fine") |}.
Definition sample_approval : ArtifactDecisionApproval := {| aa_registry_instance := 7; aa_serial := 1 |}.

(** Calls and blocks of threads, in order. *)
Inductive approval_action := StartCall (c : ApprovalCall) | RunThread (i : nat).

Definition act_approval sha256 (a : approval_action) (m : ApprovalMachine) : option ApprovalMachine :=
  match a with
  | StartCall c => Some {| am_state := am_state m; am_trace := am_trace m; am_threads := am_threads m ++ [Calling c] |}
  | RunThread i =>
    t ← am_threads m !! i;
    '(s, events, t') ← approval_thread_step sha256 7 100 t (am_state m);
    Some {| am_state := s; am_trace := am_trace m ++ map (pair i) events; am_threads := <[i := t']> (am_threads m) |}
  end.

Fixpoint act_approvals sha256 (actions : list approval_action) (m : ApprovalMachine) : option ApprovalMachine :=
  match actions with
  | [] => Some m
  | a :: actions => m ← act_approval sha256 a m; act_approvals sha256 actions m
  end.

Lemma act_approvals_steps sha256 actions : forall m m', act_approvals sha256 actions m = Some m' -> rtc (approval_step sha256 7 100) m m'.
Proof.
  induction actions as [|[c|i] actions IH]; intros m m' H; cbn [act_approvals act_approval] in H; [by simplify_eq|..].
  - eapply rtc_l; [apply approval_call|by apply IH].
  - apply bind_Some in H as (m1 & H1 & H). apply bind_Some in H1 as (t & Ht & H1). apply bind_Some in H1 as ([[s ev] t'] & Hs & H1).
    injection H1 as <-. eapply rtc_l; [by eapply approval_thread|by apply IH].
Qed.

Definition approval_start : ApprovalMachine :=
  {| am_state := {| rs_next_serial := 1; rs_projects := ∅; rs_approvals := ∅ |}; am_trace := []; am_threads := [] |}.

(** Access is granted; two threads try to claim the one approval that a third one was issued. *)
Definition sample_actions : list approval_action :=
  [StartCall (GrantCall (lit "project") (lit "host:alice")); RunThread 0;
   StartCall (IssueCall (AuthSession sample_session) sample_binding Ready sample_options (Some 1000)); RunThread 1; RunThread 1;
   StartCall (ClaimCall (AuthSession sample_session) sample_approval sample_binding Ready sample_options (Some 1050));
   StartCall (ClaimCall (AuthSession sample_session) sample_approval sample_binding Ready sample_options (Some 1051));
   RunThread 3; RunThread 2; RunThread 3].

Definition sample_approvals : ApprovalMachine := default approval_start (act_approvals toy_sha256 sample_actions approval_start).

Example sample_answers :
  map (fun t => match t with Returned answer => Some answer | _ => None end) (am_threads sample_approvals) =
  [Some (Ok tt); Some (Ok tt); Some (Err ApprovalInvalid); Some (Ok tt)].
Proof. vm_compute. reflexivity. Qed.

Lemma sample_approvals_reachable : approval_reachable toy_sha256 7 100 sample_approvals.
Proof.
  exists (am_state approval_start). split; [reflexivity|]. apply (act_approvals_steps toy_sha256 sample_actions).
  vm_compute. reflexivity.
Qed.

Definition sample_record : ApprovalRecord :=
  {| av_actor_id := lit "host:alice"; av_session_id := lit "session-1"; av_binding := sample_binding;
     av_intent_sha256 := decision_intent_sha256 toy_sha256 sample_options; av_security_epoch := 2; av_issued_at := 1000;
     av_not_after := 1100 |}.

Lemma sample_claimed :
  am_trace sample_approvals !! 3%nat = Some (3%nat, ApprovalClaimed 1 sample_record sample_session sample_binding sample_options 1051).
Proof. vm_compute. reflexivity. Qed.

Lemma approval_claimed_once_witness :
  claim_backed toy_sha256 (am_trace sample_approvals) 3 3 1 sample_record sample_session sample_binding sample_options 1051 /\
  (forall k' e, am_trace sample_approvals !! k' = Some e -> is_claimed 1 e -> k' = 3%nat) /\
  (forall issued, rationale_ok issued = true -> av_intent_sha256 sample_record = decision_intent_sha256 toy_sha256 issued ->
     issued = sample_options \/ collides toy_sha256 (decision_intent_preimage issued) (decision_intent_preimage sample_options)).
Proof.
  exact (approval_claimed_once toy_sha256 7 100 sample_approvals 3 3 1 sample_record sample_session sample_binding sample_options 1051
    sample_approvals_reachable sample_claimed).
Defined.
