(* ===== verification/WorkflowRecords.v ===== *)
(** * The objects of the artifact workflow

    The part of crates/synapse-artifact/src/workflow.rs that builds objects: project
    configurations, the identifiers derived from the project key, and the Records, Trees and
    Commits.  A [serde_json::Value] is a [Value] whose objects stand in the order of their keys;
    [None] is the failure of an [expect] in [canonical_set]. *)

From Stdlib Require Import ZArith Lia.
From stdpp Require Import base list numbers strings gmap sets.
From S2P Require Import Prelude Bytes Sorting Text BTree Timestamp Canonical Oid Artifact Approval.

#[local] Open Scope Z_scope.

Definition SCHEMA_VERSION : str := lit "0.1.0".
Definition AGENT_CREDENTIAL : str := lit "generic-artifact-agent".
Definition HUMAN_CREDENTIAL : str := lit "generic-artifact-human".
Definition PERMIT_TTL_NANOS : Z := 60000000000.
Definition MAX_OUTPUT_BYTES : Z := 1073741824.

(** ** Identifiers *)

(** The version and variant bits of a UUID. *)
Definition uuid_bytes (digest : list byte) : list byte :=
  take 6 digest ++ [Z.lor (Z.land (nth 6 digest 0) 15) 64] ++ take 1 (drop 7 digest) ++
  [Z.lor (Z.land (nth 8 digest 0) 63) 128] ++ take 7 (drop 9 digest).

Definition format_uuid (bytes : list byte) : str :=
  lit "urn:uuid:" ++ lower_hex (take 4 bytes) ++ lit "-" ++ lower_hex (take 2 (drop 4 bytes)) ++ lit "-" ++
  lower_hex (take 2 (drop 6 bytes)) ++ lit "-" ++ lower_hex (take 2 (drop 8 bytes)) ++ lit "-" ++ lower_hex (take 6 (drop 10 bytes)).

Record WorkflowIds := {
  id_human : str;
  id_agent : str;
  id_project : str;
  id_subject : str;
  id_policy : str;
  id_grant : str;
  id_context : str;
  id_activity : str;
  id_feedback : str;
}.

Section Ids.
Variable sha256 : list byte -> list byte.

Definition entity_id (project_key role : str) : str :=
  format_uuid (uuid_bytes (sha256 (lit "synapsegit-generic-artifact-entity-v1" ++ [0] ++ project_key ++ [0] ++ role))).

Definition attempt_entity_id (project_key attempt role : str) : str := entity_id project_key (role ++ [0] ++ attempt).

(** [WorkflowIds::from_key_and_attempt] *)
Definition from_key_and_attempt (project_key attempt : str) : WorkflowIds :=
  {| id_human := entity_id project_key (lit "human"); id_agent := entity_id project_key (lit "agent");
     id_project := entity_id project_key (lit "project"); id_subject := entity_id project_key (lit "subject");
     id_policy := entity_id project_key (lit "policy"); id_grant := entity_id project_key (lit "grant");
     id_context := attempt_entity_id project_key attempt (lit "context");
     id_activity := attempt_entity_id project_key attempt (lit "activity");
     id_feedback := attempt_entity_id project_key attempt (lit "feedback") |}.

Definition artifact_attempt_id (project_key decision_head : str) : str :=
  lower_hex (take 16 (sha256 (lit "synapsegit.generic-artifact-attempt.v1" ++ [0] ++ project_key ++ [0] ++ decision_head))).
End Ids.

(** ** Configuration *)

Record TrustedArtifactProjectConfig := {
  cf_repository : str;
  cf_project_key : str;
  cf_creator_display_name : str;
  cf_agent_display_name : str;
  cf_recorded_at : str;
  cf_grant_expires_at : str;
}.

Definition is_project_key_start (b : byte) : bool := is_ascii_lowercase b || is_ascii_digit b.

Definition project_key_ok (project_key : str) : bool :=
  match project_key with
  | first :: others =>
    (len project_key <=? 128) && is_project_key_start first &&
    forallb (fun b => is_project_key_start b || existsb (Z.eqb b) [45; 95; 46]) others
  | [] => false
  end.

Definition display_ok (max : Z) (value : str) : bool :=
  negb (bool_decide (value = []) || (len value >? max) || existsb is_control (chars value)).

(** The derived order of [CanonicalTimestamp]: the text, then the instant. *)
Definition timestamp_lt (left right : CanonicalTimestamp) : bool :=
  match lex_compare (encoded left) (encoded right) with
  | Lt => true
  | Eq => unix_nanos left <? unix_nanos right
  | Gt => false
  end.

(** [TrustedArtifactProjectConfig::validate]; an error is [InvalidArgument]. *)
Definition config_valid (config : TrustedArtifactProjectConfig) : bool :=
  project_key_ok (cf_project_key config) &&
  display_ok 200 (cf_creator_display_name config) && display_ok 200 (cf_agent_display_name config) &&
  display_ok 64 (cf_recorded_at config) && display_ok 64 (cf_grant_expires_at config) &&
  match timestamp_parse (cf_recorded_at config), timestamp_parse (cf_grant_expires_at config) with
  | Ok recorded_at, Ok grant_expires_at => negb (timestamp_lt grant_expires_at recorded_at)
  | _, _ => false
  end.

Definition decision_ref_of (project_key : str) : str := lit "decision/artifact/" ++ project_key.
Definition proposal_namespace_of (project_key : str) : str := lit "proposal/artifact/" ++ project_key.

(** [TrustedArtifactProjectConfig::project_selector] *)
Definition project_selector (sha256 : list byte -> list byte) (config : TrustedArtifactProjectConfig) : str :=
  entity_id sha256 (cf_project_key config) (lit "project").

(** ** JSON *)

(** [json!({...})] *)
Definition json_object (fields : list (str * Value)) : Value :=
  Obj (fold_left (fun entries field => bt_insert (fst field) (snd field) entries) fields []).

(** [insert_entry] *)
Definition insert_entry (name kind oid : str) (entries : list (str * Value)) : list (str * Value) :=
  bt_insert name (tree_entry kind oid) entries.

Definition manifest_tree (entries : list (str * Value)) : Value :=
  json_object [(lit "object_type", Str (lit "tree")); (lit "schema_version", Str SCHEMA_VERSION); (lit "entries", Obj entries);
               (lit "extensions", Obj [])].

Definition envelope (record_type entity_id recorded_at asserted_by origin : str) (payload : Value) : list (str * Value) :=
  [(lit "object_type", Str (lit "record")); (lit "schema_version", Str SCHEMA_VERSION); (lit "record_type", Str record_type);
   (lit "entity_id", Str entity_id); (lit "recorded_at", Str recorded_at); (lit "asserted_by", Str asserted_by);
   (lit "origin", Str origin); (lit "source_refs", Arr []); (lit "payload", payload); (lit "extensions", Obj [])].

Definition subject_record (entity_id human recorded_at label : str) : Value :=
  json_object (envelope (lit "subject") entity_id recorded_at human (lit "self_declared")
    (json_object [(lit "subject_kind", Str (lit "digital")); (lit "label", Str label); (lit "relation_refs", Arr []);
                  (lit "spatial_frame_refs", Arr [])])).

Definition actor_record (entity_id asserted_by recorded_at actor_kind display_name : str) (ai_profile : option Value) : Value :=
  json_object (envelope (lit "actor") entity_id recorded_at asserted_by
    (if str_eqb actor_kind (lit "human") then lit "self_declared" else lit "tool_recorded")
    (json_object ([(lit "actor_kind", Str actor_kind); (lit "display_name", Str display_name)] ++
                  match ai_profile with Some profile => [(lit "ai_profile", profile)] | None => [] end))).

Definition disposition_protocol (disposition : ArtifactDisposition) : str :=
  match disposition with
  | AdoptedUnchanged => lit "adopted_unchanged"
  | ArtifactRejected => lit "rejected"
  | ArtifactDeferred => lit "deferred"
  end.

Definition default_rationale (disposition : ArtifactDisposition) : str :=
  match disposition with
  | AdoptedUnchanged => lit "The creator adopted the artifact unchanged."
  | ArtifactRejected => lit "The creator rejected the artifact."
  | ArtifactDeferred => lit "The creator deferred the artifact."
  end.

Definition attribution_summary (attribution : ArtifactSourceAttribution) : str * str :=
  match attribution with
  | CallerSuppliedAiAttributed =>
    (lit "Recorded caller-supplied bytes as an AI-attributed generic artifact Proposal.", lit "not_reproducible")
  end.

Section Builders.
Variable nfc : list char -> list char.
(** [serde_json::to_vec] *)
Variable to_vec : Value -> list byte.

(** The key of a member of a set; [None] where an [expect] fails. *)
Definition set_key (value : Value) : option (list byte) :=
  match (parsed ← parse_strict nfc (to_vec value); canonical_bytes nfc parsed) with Ok key => Some key | Err _ => None end.

(** [sort_by_cached_key] computes no key where there is nothing to sort. *)
Definition canonical_set (values : list Value) : option (list Value) :=
  match values with
  | [] | [_] => Some values
  | _ =>
    keyed ← mapM (fun value => key ← set_key value; Some (key, value)) values;
    Some (map snd (sort_by (fun left right => lex_compare (fst left) (fst right)) keyed))
  end.

(** [canonical_set] of strings, as an array. *)
Definition string_set (values : list str) : option Value := set ← canonical_set (map Str values); Some (Arr set).

Definition capabilities_set : option Value := string_set [lit "propose_branch"; lit "read_context"].
Definition gates_set : option Value := string_set [lit "before_decision_ref"; lit "before_release_ref"].

Definition ai_profile : option Value :=
  capabilities ← capabilities_set;
  Some (json_object [(lit "provider", Str (lit "application-owned")); (lit "model_id", Str (lit "caller-supplied-output"));
                     (lit "model_version", Str (lit "generic-artifact-v1")); (lit "capabilities", capabilities)]).

Definition policy_rule (rule_id effect action resource_selector : str) (human_gate : option str) : Value :=
  json_object ([(lit "rule_id", Str rule_id); (lit "effect", Str effect); (lit "action", Str action);
                (lit "resource_selector", Str resource_selector)] ++
               match human_gate with Some gate => [(lit "human_gate", Str gate)] | None => [] end).

Definition policy_record (entity_id human project decision_ref proposal_ref recorded_at : str) : option Value :=
  scope ← string_set [project];
  Some (json_object (envelope (lit "policy") entity_id recorded_at human (lit "self_declared")
    (json_object
       [(lit "scope_refs", scope);
        (lit "rules", Arr [policy_rule (lit "allow-context-read") (lit "allow") (lit "read") (lit "project/**") None;
                           policy_rule (lit "allow-artifact-proposal") (lit "allow") (lit "propose") proposal_ref None;
                           policy_rule (lit "gate-artifact-decision") (lit "require_human_gate") (lit "publish") decision_ref
                             (Some (lit "before_decision_ref"))]);
        (lit "default_effect", Str (lit "deny"))]))).

Definition grant_record (entity_id human agent project proposal_ref recorded_at expires_at : str) : option Value :=
  capabilities ← capabilities_set;
  selectors ← string_set [lit "project/**"];
  prefixes ← string_set [proposal_ref];
  classes ← string_set [lit "internal"];
  gates ← gates_set;
  Some (json_object (envelope (lit "delegation_grant") entity_id recorded_at human (lit "self_declared")
    (json_object
       [(lit "principal_ref", Str human); (lit "delegate_ref", Str agent); (lit "project_ref", Str project);
        (lit "purpose", Str (lit "Record bounded sequential generic artifact Proposals.")); (lit "capabilities", capabilities);
        (lit "resource_selectors", selectors); (lit "writable_ref_prefixes", prefixes); (lit "data_classes", classes);
        (lit "allowed_egress", Arr []); (lit "may_delegate", Bool false); (lit "max_child_depth", Integer 0);
        (lit "max_output_bytes", Integer MAX_OUTPUT_BYTES); (lit "required_human_gates", gates);
        (lit "expires_at", Str expires_at)]))).

Definition context_record (entity_id human subject base_head decision_ref policy_oid grant_oid application_context_blob recorded_at : str)
  : option Value :=
  subjects ← string_set [subject];
  selected ← string_set [base_head; application_context_blob];
  transformations ← string_set [lit "file_tree_proposal"];
  Some (json_object (envelope (lit "context_pack") entity_id recorded_at human (lit "tool_recorded")
    (json_object
       [(lit "base_commit", Str base_head); (lit "base_ref_name", Str decision_ref); (lit "expected_ref_head", Str base_head);
        (lit "subject_refs", subjects); (lit "selected_context_refs", selected);
        (lit "must_preserve_constraints", Arr [Str (lit "Preserve the accepted artifact base and protected controls.")]);
        (lit "allowed_transformations", transformations); (lit "unresolved_questions", Arr []);
        (lit "policy_snapshot_ref", Str policy_oid); (lit "delegation_grant_ref", Str grant_oid);
        (lit "data_classification", Str (lit "internal"));
        (lit "retrieval_method", Str (lit "application-owned redacted context"))]))).

(** [canonical_set] of objects with a role and another field. *)
Definition role_set (field : str) (members : list (str * str)) : option Value :=
  set ← canonical_set (map (fun member => json_object [(lit "role", Str (fst member)); (field, Str (snd member))]) members);
  Some (Arr set).

Definition ai_run (agent human context_oid grant_oid reproducibility : str) : option Value :=
  capabilities ← capabilities_set;
  gates ← gates_set;
  Some (json_object
    [(lit "agent_ref", Str agent); (lit "responsible_principal_ref", Str human); (lit "context_pack_ref", Str context_oid);
     (lit "delegation_grant_ref", Str grant_oid); (lit "requested_capabilities", capabilities);
     (lit "required_human_gates", gates); (lit "status", Str (lit "proposal_ready"));
     (lit "reproducibility_class", Str reproducibility)]).

Definition activity_record (entity_id agent human subject context_oid grant_oid context_blob output_tree : str)
    (attribution : ArtifactSourceAttribution) (recorded_at : str) : option Value :=
  let '(summary, reproducibility) := attribution_summary attribution in
  actors ← role_set (lit "actor_ref") [(lit "agent", agent); (lit "responsible_principal", human)];
  subjects ← string_set [subject];
  inputs ← role_set (lit "oid") [(lit "context", context_oid); (lit "application_context", context_blob)];
  outputs ← role_set (lit "oid") [(lit "proposal", output_tree)];
  run ← ai_run agent human context_oid grant_oid reproducibility;
  Some (json_object (envelope (lit "activity") entity_id recorded_at agent (lit "tool_recorded")
    (json_object
       [(lit "activity_kind", Str (lit "ai_run")); (lit "actor_refs", actors); (lit "subject_refs", subjects);
        (lit "input_refs", inputs); (lit "output_refs", outputs); (lit "before_observation_refs", Arr []);
        (lit "after_observation_refs", Arr []); (lit "reversibility", Str (lit "reversible")); (lit "summary", Str summary);
        (lit "side_effect_class", Str (lit "none")); (lit "ai_run", run)]) ++
    [(lit "valid_time", json_object [(lit "kind", Str (lit "instant")); (lit "at", Str recorded_at)])])).

Definition feedback_record (entity_id human subject proposal_head : str) (disposition : ArtifactDisposition) (rationale recorded_at : str)
  : option Value :=
  subjects ← string_set [subject];
  Some (json_object (envelope (lit "decision_feedback") entity_id recorded_at human (lit "self_declared")
    (json_object
       [(lit "proposal_ref", Str proposal_head); (lit "disposition", Str (disposition_protocol disposition));
        (lit "reason_codes", Arr [Str (lit "unspecified")]); (lit "human_rationale", Str rationale);
        (lit "applies_to_subjects", subjects); (lit "visibility", Str (lit "private"));
        (lit "training_use_policy", Str (lit "prohibited"))]))).

Definition commit (kind : str) (parents : list str) (snapshot : str) (transitions : list str) (author authored_at message : str)
  : option Value :=
  transition_refs ← string_set transitions;
  Some (json_object
    [(lit "object_type", Str (lit "commit")); (lit "schema_version", Str SCHEMA_VERSION); (lit "commit_kind", Str kind);
     (lit "parents", Arr (map Str parents)); (lit "snapshot", Str snapshot); (lit "transition_refs", transition_refs);
     (lit "bound_declaration_refs", Arr []); (lit "author_ref", Str author); (lit "authored_at", Str authored_at);
     (lit "message", Str message); (lit "extensions", Obj [])]).

(** [review_context_sha256] and the canonical text it hashes. *)
Definition canonical_review_context (application_context_json : list byte) : cresult (list byte) :=
  parsed ← parse_strict nfc application_context_json;
  canonical_bytes nfc parsed.
End Builders.
