(* ===== verification/WorkflowChecks.v ===== *)
(** * The checks of the artifact workflow

    The part of crates/synapse-artifact/src/workflow.rs that only reads a repository: the errors,
    the readers of structured objects, the protected authority, the lineage of Decisions and the
    files of a recovered site.  An error keeps its code.  A condition of several parts joined by
    [||] is the sequence of its parts, which fail in the same way. *)

From Stdlib Require Import ZArith Lia.
From stdpp Require Import base list numbers strings gmap sets.
From S2P Require Import Prelude Bytes Sorting Text BTree RefStore Canonical Timestamp Oid SchemaSemantics Registry.
From S2P Require Import ObjectStore FileStore Closure Repository AppState Artifact Checkout Approval WorkflowRecords.

#[local] Open Scope Z_scope.

(** ** Errors *)

(** The [code] of an [ApplicationError] (crates/synapse-application/src/lib.rs). *)
Definition application_code (error : ApplicationError) : str :=
  match error with
  | AuthenticationRequired => lit "authentication_required"
  | ProjectAccessDenied => lit "project_access_denied"
  | ExecutionPermitInvalid => lit "execution_permit_invalid"
  | ExecutionFailed => lit "execution_failed"
  | AppStaleBase => lit "stale_base"
  | AppRefConflict => lit "ref_conflict"
  | ConfigInvalid => lit "configuration_invalid"
  | ServiceUnavailable => lit "service_unavailable"
  | AppCore error => repository_code error
  end.

(** [WorkflowPanic] is a failing [expect], [WorkflowBlocked] a call that waits for ever. *)
Inductive WorkflowError :=
| WfInvalidArgument
| WfProjectExists
| WfProjectMissing
| WfStaleBase
| WfReviewActive
| WfAcceptedMismatch
| WfUnsupportedProfile
| WfAuthorityExpired
| WfRecoveryMismatch
| WfDecisionUnavailable
| WfIntegrity
| WfClock
| WfArtifact (error : ArtifactError)
| WfCheckout (error : ArtifactCheckoutError)
| WfApproval (error : ArtifactApprovalError)
| WfApplication (error : ApplicationError)
| WfRepository (error : RepositoryError)
| WfRefStore (error : RefStoreError)
| WfCanonical (error : CoreError)
| WfJson
| WorkflowPanic
| WorkflowBlocked
| WorkflowOutOfFuel.

Definition workflow_code (error : WorkflowError) : option str :=
  match error with
  | WfInvalidArgument => Some (lit "invalid_argument")
  | WfProjectExists => Some (lit "artifact_project_exists")
  | WfProjectMissing => Some (lit "artifact_project_missing")
  | WfStaleBase => Some (lit "stale_base")
  | WfReviewActive => Some (lit "artifact_review_active")
  | WfAcceptedMismatch => Some (lit "artifact_accepted_mismatch")
  | WfUnsupportedProfile => Some (lit "artifact_profile_unsupported")
  | WfAuthorityExpired => Some (lit "authorization_denied")
  | WfRecoveryMismatch => Some (lit "artifact_recovery_mismatch")
  | WfDecisionUnavailable => Some (lit "artifact_decision_unavailable")
  | WfIntegrity => Some (lit "artifact_integrity_error")
  | WfClock => Some (lit "storage_error")
  | WfArtifact error => Some (artifact_code error)
  | WfCheckout (Checkout code) => Some code
  | WfApproval error => Some (approval_code error)
  | WfApplication (AppCore error) | WfRepository error => if is_internal error then None else Some (repository_code error)
  | WfApplication error => Some (application_code error)
  | WfRefStore error => Some (ref_store_code error)
  | WfCanonical (Core code) => Some (code_as_str code)
  | WfJson => Some (lit "schema_invalid")
  | _ => None
  end.

Abbreviation wresult := (result WorkflowError).

(** ** Fields *)

(** An [expect], and a parse error. *)
Definition expect {A} (o : option A) : wresult A := ok_or o WorkflowPanic.
Definition of_canonical {A} (r : cresult A) : wresult A := map_err WfCanonical r.

(** [map_err(|_| integrity)] on a validation; the end of the process stays that. *)
Definition or_integrity {A} (r : cresult A) : wresult A :=
  map_err (fun error => match error with Core _ => WfIntegrity | error => WfCanonical error end) r.

Definition value_field (value : Value) (field : str) : wresult Value := ok_or (Canonical.get value field) WfIntegrity.
Definition value_string (value : Value) (field : str) : wresult str :=
  field ← value_field value field; ok_or (as_str field) WfIntegrity.
Definition value_array (value : Value) (field : str) : wresult (list Value) :=
  field ← value_field value field; ok_or (as_array field) WfIntegrity.

(** A part [value_string(value, field)? != expected] of a condition. *)
Definition expect_string (value : Value) (error : WorkflowError) (expectation : str * str) : wresult unit :=
  actual ← value_string value (fst expectation);
  reject_if (negb (str_eqb actual (snd expectation))) error.

Definition expect_strings (value : Value) (error : WorkflowError) (expectations : list (str * str)) : wresult unit :=
  for_each (expect_string value error) expectations.

(** A part [value_array(value, field)?.len() != n]. *)
Definition expect_count (value : Value) (error : WorkflowError) (expectation : str * Z) : wresult unit :=
  values ← value_array value (fst expectation);
  reject_if (negb (len values =? snd expectation)) error.

Definition expect_counts (value : Value) (error : WorkflowError) (expectations : list (str * Z)) : wresult unit :=
  for_each (expect_count value error) expectations.

(** [values[0].as_str() == Some(expected)] where there is one element. *)
Definition is_single (values : list Value) (expected : str) : bool :=
  match values with [value] => bool_decide (as_str value = Some expected) | _ => false end.

(** [find_map] over the fields with a name, to the first whose value is a string. *)
Definition find_string (fields : list (str * Value)) (name : str) : option str :=
  list.head (omap (fun field => if str_eqb (fst field) name then as_str (snd field) else None) fields).

Definition entries_of (value : Value) : wresult (list (str * Value)) :=
  entries ← value_field value (lit "entries"); ok_or (as_object entries) WfIntegrity.

Definition tree_entry_names (value : Value) : wresult (list str) := entries ← entries_of value; Ok (map fst entries).

(** A part [tree_entry_names(value)? != names]. *)
Definition expect_names (value : Value) (error : WorkflowError) (names : list str) : wresult unit :=
  actual ← tree_entry_names value; reject_if (negb (bool_decide (actual = names))) error.

Definition object_kind_name (kind : ObjectKind) : str :=
  match kind with Blob => lit "blob" | Tree => lit "tree" | Commit => lit "commit" | Record => lit "record" end.

(** The [entry_kind] and the [oid] of an entry. *)
Definition entry_fields (entry : Value) : wresult (str * str * Z) :=
  fields ← ok_or (as_object entry) WfIntegrity;
  kind ← ok_or (find_string fields (lit "entry_kind")) WfIntegrity;
  oid ← ok_or (find_string fields (lit "oid")) WfIntegrity;
  Ok (kind, oid, len fields).

Definition direct_entry (value : Value) (name : str) (expected : ObjectKind) : wresult str :=
  entries ← entries_of value;
  entry ← ok_or (object_field entries name) WfIntegrity;
  '(kind, oid, count) ← entry_fields entry;
  reject_if (negb (count =? 2)) WfIntegrity;;
  found ← of_canonical (parse_oid oid);
  reject_if (negb (bool_decide (found = expected)) || negb (str_eqb kind (object_kind_name expected))) WfIntegrity;;
  Ok oid.

(** A part [direct_entry(value, name, kind)? != expected]. *)
Definition expect_entry (value : Value) (error : WorkflowError) (expectation : str * ObjectKind * str) : wresult unit :=
  let '(name, kind, expected) := expectation in
  oid ← direct_entry value name kind;
  reject_if (negb (str_eqb oid expected)) error.

Definition role_oid_matches (value : Value) (field role oid : str) : wresult bool :=
  values ← value_array value field; Ok (existsb (entry_matches [(lit "role", role); (lit "oid", oid)]) values).

Definition role_actor_matches (value : Value) (role actor : str) : wresult bool :=
  values ← value_array value (lit "actor_refs");
  Ok (existsb (entry_matches [(lit "role", role); (lit "actor_ref", actor)]) values).

(** A part [!matches?] of a condition. *)
Definition expect_true (matches : wresult bool) (error : WorkflowError) : wresult unit :=
  matches ← matches; reject_if (negb matches) error.

Definition parse_disposition (disposition : str) : wresult ArtifactDisposition :=
  if str_eqb disposition (lit "adopted_unchanged") then Ok AdoptedUnchanged
  else if str_eqb disposition (lit "rejected") then Ok ArtifactRejected
  else if str_eqb disposition (lit "deferred") then Ok ArtifactDeferred
  else Err WfIntegrity.

(** A Ref of the namespace itself or below it. *)
Definition in_namespace (namespace name : str) : bool :=
  str_eqb name namespace || match strip_prefix namespace name with Some suffix => starts_with (lit "/") suffix | None => false end.

Definition snapshot_ref_head (snapshot : RefSnapshot) (name : str) : option str :=
  index ← binary_search_by (fun record => lex_compare (RefStore.name record) name) (RefStore.refs snapshot);
  RefStore.head <$> RefStore.refs snapshot !! index.

Definition validate_digest_text (value : str) : wresult unit :=
  reject_if (negb (len value =? 64) || negb (forallb is_lower_hex value)) WfRecoveryMismatch.

(** [PartialEq] of [Value]: entries in order. *)
Fixpoint value_eqb (v w : Value) : bool :=
  match v, w with
  | Null, Null => true
  | Bool a, Bool b => Bool.eqb a b
  | Integer a, Integer b => a =? b
  | Str a, Str b => str_eqb a b
  | Arr vs, Arr ws =>
    (fix go (vs ws : list Value) : bool :=
       match vs, ws with
       | [], [] => true
       | v :: vs, w :: ws => value_eqb v w && go vs ws
       | _, _ => false
       end) vs ws
  | Obj vs, Obj ws =>
    (fix go (vs ws : list (str * Value)) : bool :=
       match vs, ws with
       | [], [] => true
       | (k, v) :: vs, (l, w) :: ws => str_eqb k l && value_eqb v w && go vs ws
       | _, _ => false
       end) vs ws
  | _, _ => false
  end.

(** ** What the workflow carries *)

Record ArtifactAuthorityOids := { ao_human_actor : str; ao_ai_actor : str; ao_policy : str; ao_grant : str }.

#[export] Instance ArtifactAuthorityOids_eq_dec : EqDecision ArtifactAuthorityOids.
Proof. solve_decision. Defined.

Record ExistingArtifactBase := { eb_snapshot : str; eb_site_tree : str; eb_authority : ArtifactAuthorityOids }.

Record DecisionLineage := {
  dl_parent : str;
  dl_snapshot : str;
  dl_proposal_head : str;
  dl_disposition : ArtifactDisposition;
  dl_human_id : str;
}.

(** The authority with the subject Record. *)
Record ExpectedArtifactAuthorityOids := { xo_authority : ArtifactAuthorityOids; xo_subject : str }.

Inductive ProposalBaseKind := Initial | Sequential.
Inductive RecoveryState := Fresh | Prepared (binding : DurableProposalBinding) | Published (binding : DurableProposalBinding).

(** The bound of the loops over Decisions and snapshots. *)
Definition history_bound : nat := Z.to_nat 10000.

Section Checks.
Variable sha256 : list byte -> list byte.
Variable nfc : list char -> list char.
Variable to_lowercase : char -> list char.
Variable json_pointer : Json -> str -> option (list nat).
Variable registry : SchemaRegistry.
(** [serde_json::to_vec] *)
Variable to_vec : Value -> list byte.

Abbreviation FileRepository := (Repository FileObjectStore).
Implicit Types repository : FileRepository.

Definition load_structured_value repository (oid : str) (expected : ObjectKind) : wresult Value :=
  kind ← of_canonical (parse_oid oid);
  reject_if (negb (bool_decide (kind = expected))) WfIntegrity;;
  object ← map_err (fun _ => WfIntegrity) (file_get_verified sha256 nfc (Repository.objects repository) oid);
  object ← ok_or object WfIntegrity;
  reject_if (negb (bool_decide (ob_kind object = expected))) WfIntegrity;;
  value ← ok_or (ob_structured object) WfIntegrity;
  or_integrity (validate nfc json_pointer registry value);;
  Ok value.

(** [repository.refs().get(name)?.map(|record| record.head)] *)
Definition ref_head_of repository (name : str) : wresult (option str) :=
  record ← map_err WfRefStore (RefStore.get name (RefStore.tables (Repository.refs repository)));
  Ok (option_map RefStore.head record).

(** [repository.refs().list()?] *)
Definition list_refs repository : list RefRecord := select_refs (RefStore.tables (Repository.refs repository)).

(** ** Profiles of the protected Records *)

Definition verify_subject_profile repository (oid : str) (ids : WorkflowIds) (config : TrustedArtifactProjectConfig) : wresult unit :=
  subject ← load_structured_value repository oid Record;
  payload ← value_field subject (lit "payload");
  expect_strings subject WfUnsupportedProfile
    [(lit "record_type", lit "subject"); (lit "entity_id", id_subject ids); (lit "asserted_by", id_human ids)];;
  expect_strings payload WfUnsupportedProfile [(lit "subject_kind", lit "digital"); (lit "label", cf_project_key config)].

Definition verify_actor_profile repository (oid entity_id actor_kind display_name : str) : wresult unit :=
  actor ← load_structured_value repository oid Record;
  payload ← value_field actor (lit "payload");
  expect_strings actor WfUnsupportedProfile [(lit "record_type", lit "actor"); (lit "entity_id", entity_id)];;
  expect_strings payload WfUnsupportedProfile [(lit "actor_kind", actor_kind); (lit "display_name", display_name)].

Definition verify_policy_profile repository (oid : str) (ids : WorkflowIds) (decision_ref proposal_namespace : str) : wresult unit :=
  policy ← load_structured_value repository oid Record;
  payload ← value_field policy (lit "payload");
  expect_strings policy WfUnsupportedProfile
    [(lit "record_type", lit "policy"); (lit "entity_id", id_policy ids); (lit "asserted_by", id_human ids)];;
  expect_strings payload WfUnsupportedProfile [(lit "default_effect", lit "deny")];;
  scope ← value_array payload (lit "scope_refs");
  reject_if (negb (existsb (fun value => bool_decide (as_str value = Some (id_project ids))) scope)) WfUnsupportedProfile;;
  rules ← value_array payload (lit "rules");
  let has_proposal :=
    existsb (entry_matches [(lit "effect", lit "allow"); (lit "action", lit "propose");
                            (lit "resource_selector", proposal_namespace ++ lit "/**")]) rules in
  let has_decision :=
    existsb (entry_matches [(lit "effect", lit "require_human_gate"); (lit "action", lit "publish");
                            (lit "resource_selector", decision_ref); (lit "human_gate", lit "before_decision_ref")]) rules in
  reject_if (negb has_proposal || negb has_decision) WfUnsupportedProfile.

Definition verify_grant_profile repository (oid : str) (ids : WorkflowIds) (proposal_namespace : str)
    (config : TrustedArtifactProjectConfig) : wresult unit :=
  grant ← load_structured_value repository oid Record;
  payload ← value_field grant (lit "payload");
  prefixes ← value_array payload (lit "writable_ref_prefixes");
  expect_strings grant WfUnsupportedProfile
    [(lit "record_type", lit "delegation_grant"); (lit "entity_id", id_grant ids); (lit "asserted_by", id_human ids)];;
  expect_strings payload WfUnsupportedProfile
    [(lit "principal_ref", id_human ids); (lit "delegate_ref", id_agent ids); (lit "project_ref", id_project ids);
     (lit "expires_at", cf_grant_expires_at config)];;
  reject_if (negb (is_single prefixes proposal_namespace)) WfUnsupportedProfile.

(** ** The protected authority *)

(** The control Tree of the first snapshot. *)
Definition verify_protected_control repository (config : TrustedArtifactProjectConfig) (snapshot : Value) (ids : WorkflowIds)
    (expected_policy expected_grant decision_ref proposal_namespace : str) : wresult ArtifactAuthorityOids :=
  control_oid ← direct_entry snapshot (lit "control") Tree;
  control ← load_structured_value repository control_oid Tree;
  expect_names control WfUnsupportedProfile control_names;;
  human_actor ← direct_entry control (lit "creator.actor.json") Record;
  ai_actor ← direct_entry control (lit "agent.actor.json") Record;
  policy ← direct_entry control (lit "policy.json") Record;
  grant ← direct_entry control (lit "grant.json") Record;
  subject ← direct_entry control (lit "subject.json") Record;
  direct_entry control (lit "review-context.json") Blob;;
  reject_if (negb (str_eqb policy expected_policy) || negb (str_eqb grant expected_grant)) WfUnsupportedProfile;;
  verify_actor_profile repository human_actor (id_human ids) (lit "human") (cf_creator_display_name config);;
  verify_subject_profile repository subject ids config;;
  verify_actor_profile repository ai_actor (id_agent ids) (lit "ai_agent") (cf_agent_display_name config);;
  verify_policy_profile repository policy ids decision_ref proposal_namespace;;
  verify_grant_profile repository grant ids proposal_namespace config;;
  Ok {| ao_human_actor := human_actor; ao_ai_actor := ai_actor; ao_policy := policy; ao_grant := grant |}.

(** The loop from a snapshot to the first one; its bound is an error of the code. *)
Fixpoint protected_authority_loop (bound : nat) (cursor : str) (visited : gset str) repository
    (config : TrustedArtifactProjectConfig) (ids : WorkflowIds)
    (expected_policy expected_grant decision_ref proposal_namespace : str) : wresult ArtifactAuthorityOids :=
  match bound with
  | O => Err WfIntegrity
  | S bound =>
    reject_if (bool_decide (cursor ∈ visited)) WfIntegrity;;
    snapshot ← load_structured_value repository cursor Tree;
    names ← tree_entry_names snapshot;
    if bool_decide (names = genesis_names) then
      verify_protected_control repository config snapshot ids expected_policy expected_grant decision_ref proposal_namespace
    else
      reject_if (negb (bool_decide (names = proposal_names))) WfUnsupportedProfile;;
      base ← direct_entry snapshot (lit "base") Tree;
      protected_authority_loop bound base ({[cursor]} ∪ visited) repository config ids expected_policy expected_grant
        decision_ref proposal_namespace
  end.

Definition verify_protected_authority (config : TrustedArtifactProjectConfig) repository (selected_snapshot : str)
    (ids : WorkflowIds) (expected_policy expected_grant decision_ref proposal_namespace : str) : wresult ArtifactAuthorityOids :=
  protected_authority_loop history_bound selected_snapshot ∅ repository config ids expected_policy expected_grant decision_ref
    proposal_namespace.

(** ** Decided proposals *)

(** The proposal that the Decision [commit] settles, and its parent. *)
Definition decided_step repository (commit : Value) : wresult (str * str) :=
  parents ← value_array commit (lit "parents");
  transitions ← value_array commit (lit "transition_refs");
  match parents, transitions with
  | [parent], [transition] =>
    feedback_oid ← ok_or (as_str transition) WfIntegrity;
    feedback ← load_structured_value repository feedback_oid Record;
    expect_strings feedback WfIntegrity [(lit "record_type", lit "decision_feedback")];;
    payload ← value_field feedback (lit "payload");
    proposal ← value_string payload (lit "proposal_ref");
    parent ← ok_or (as_str parent) WfIntegrity;
    Ok (proposal, parent)
  | _, _ => Err WfIntegrity
  end.

(** Its bound is an error of the code. *)
Fixpoint decided_loop (bound : nat) (cursor : str) (visited decided : gset str) repository : wresult (gset str) :=
  match bound with
  | O => Err WfIntegrity
  | S bound =>
    reject_if (bool_decide (cursor ∈ visited)) WfIntegrity;;
    commit ← load_structured_value repository cursor Commit;
    kind ← value_string commit (lit "commit_kind");
    if str_eqb kind (lit "checkpoint") then
      expect_counts commit WfUnsupportedProfile [(lit "parents", 0); (lit "transition_refs", 0)];;
      Ok decided
    else if str_eqb kind (lit "decision") then
      '(proposal, parent) ← decided_step repository commit;
      decided_loop bound parent ({[cursor]} ∪ visited) ({[proposal]} ∪ decided) repository
    else Err WfUnsupportedProfile
  end.

Definition decided_proposal_heads repository (head : str) : wresult (gset str) := decided_loop history_bound head ∅ ∅ repository.

(** The Refs of the namespace whose proposals no Decision of the history settles, by name. *)
Definition active_proposals repository (proposal_namespace : str) (decided : gset str) : list RefRecord :=
  sort_by name_cmp
    (List.filter (fun record => in_namespace proposal_namespace (RefStore.name record) && negb (bool_decide (RefStore.head record ∈ decided)))
       (list_refs repository)).

Definition validate_review_availability repository (proposal_namespace decision_ref current_decision_head : str)
    (recovery : RecoveryState) : wresult unit :=
  match recovery with
  | Prepared binding | Published binding =>
    reject_if (negb (str_eqb (db_decision_ref_name binding) decision_ref) ||
               negb (str_eqb (db_decision_head binding) current_decision_head)) WfRecoveryMismatch
  | Fresh => Ok tt
  end;;
  decided ← decided_proposal_heads repository current_decision_head;
  match recovery, active_proposals repository proposal_namespace decided with
  | Fresh, [] | Prepared _, [] => Ok tt
  | Published binding, [record] =>
    reject_if (negb (str_eqb (RefStore.name record) (db_proposal_ref_name binding)) ||
               negb (str_eqb (RefStore.head record) (db_proposal_head binding))) WfRecoveryMismatch
  | Prepared _, _ | Published _, _ => Err WfRecoveryMismatch
  | Fresh, _ => Err WfReviewActive
  end.

Definition inspect_decision repository (decision_head : str) : wresult DecisionLineage :=
  decision ← load_structured_value repository decision_head Commit;
  expect_strings decision WfUnsupportedProfile [(lit "commit_kind", lit "decision")];;
  parents ← value_array decision (lit "parents");
  transitions ← value_array decision (lit "transition_refs");
  match parents, transitions with
  | [parent], [transition] =>
    feedback_oid ← ok_or (as_str transition) WfIntegrity;
    feedback ← load_structured_value repository feedback_oid Record;
    expect_strings feedback WfIntegrity [(lit "record_type", lit "decision_feedback")];;
    payload ← value_field feedback (lit "payload");
    disposition ← value_string payload (lit "disposition");
    disposition ← parse_disposition disposition;
    parent ← ok_or (as_str parent) WfIntegrity;
    snapshot ← value_string decision (lit "snapshot");
    proposal_head ← value_string payload (lit "proposal_ref");
    human_id ← value_string decision (lit "author_ref");
    Ok {| dl_parent := parent; dl_snapshot := snapshot; dl_proposal_head := proposal_head; dl_disposition := disposition;
          dl_human_id := human_id |}
  | _, _ => Err WfIntegrity
  end.

(** ** Generated objects *)

Definition entries_tree (entries : list (str * str * str)) : Value :=
  manifest_tree (fold_left (fun tree '(name, kind, oid) => insert_entry name kind oid tree) entries []).

Definition generated_structured_oid (value : option Value) : wresult str :=
  value ← expect value;
  parsed ← of_canonical (parse_strict nfc (to_vec value));
  or_integrity (validate nfc json_pointer registry parsed);;
  of_canonical (structured_oid_unchecked sha256 nfc parsed).

Definition require_generated_value (actual : Value) (expected : option Value) : wresult unit :=
  expected ← expect expected;
  expected ← of_canonical (parse_strict nfc (to_vec expected));
  reject_if (negb (value_eqb actual expected)) WfIntegrity.

(** The Records of a project, as [prepare_artifact_proposal_internal] writes them. *)
Definition human_actor_record (config : TrustedArtifactProjectConfig) (ids : WorkflowIds) : Value :=
  actor_record (id_human ids) (id_human ids) (cf_recorded_at config) (lit "human") (cf_creator_display_name config) None.
Definition ai_actor_record (config : TrustedArtifactProjectConfig) (ids : WorkflowIds) : option Value :=
  profile ← ai_profile nfc to_vec;
  Some (actor_record (id_agent ids) (id_human ids) (cf_recorded_at config) (lit "ai_agent") (cf_agent_display_name config) (Some profile)).
Definition project_policy (config : TrustedArtifactProjectConfig) (ids : WorkflowIds) (decision_ref proposal_namespace : str) : option Value :=
  policy_record nfc to_vec (id_policy ids) (id_human ids) (id_project ids) decision_ref (proposal_namespace ++ lit "/**")
    (cf_recorded_at config).
Definition project_grant (config : TrustedArtifactProjectConfig) (ids : WorkflowIds) (proposal_namespace : str) : option Value :=
  grant_record nfc to_vec (id_grant ids) (id_human ids) (id_agent ids) (id_project ids) proposal_namespace (cf_recorded_at config)
    (cf_grant_expires_at config).
Definition project_subject (config : TrustedArtifactProjectConfig) (ids : WorkflowIds) : Value :=
  subject_record (id_subject ids) (id_human ids) (cf_recorded_at config) (cf_project_key config).

Definition expected_artifact_authority_oids (config : TrustedArtifactProjectConfig) (ids : WorkflowIds)
    (decision_ref proposal_namespace : str) : wresult ExpectedArtifactAuthorityOids :=
  human_actor ← generated_structured_oid (Some (human_actor_record config ids));
  ai_actor ← generated_structured_oid (ai_actor_record config ids);
  policy ← generated_structured_oid (project_policy config ids decision_ref proposal_namespace);
  grant ← generated_structured_oid (project_grant config ids proposal_namespace);
  subject ← generated_structured_oid (Some (project_subject config ids));
  Ok {| xo_authority := {| ao_human_actor := human_actor; ao_ai_actor := ai_actor; ao_policy := policy; ao_grant := grant |};
        xo_subject := subject |}.

(** ** The history of Decisions *)

(** What the checks of one history share. *)
Record History := {
  hy_config : TrustedArtifactProjectConfig;
  hy_repository : FileRepository;
  hy_refs : RefSnapshot;
  hy_decision_ref : str;
  hy_proposal_namespace : str;
  hy_stable_ids : WorkflowIds;
  hy_expected : ExpectedArtifactAuthorityOids;
}.

Definition control_tree (authority : ArtifactAuthorityOids) (subject review_context : str) : Value :=
  entries_tree
    [(lit "agent.actor.json", lit "record", ao_ai_actor authority); (lit "creator.actor.json", lit "record", ao_human_actor authority);
     (lit "grant.json", lit "record", ao_grant authority); (lit "policy.json", lit "record", ao_policy authority);
     (lit "review-context.json", lit "blob", review_context); (lit "subject.json", lit "record", subject)].

(** The checkpoint where the project began. *)
Definition validate_history_checkpoint (h : History) (decision : Value) : wresult unit :=
  let authority := xo_authority (hy_expected h) in
  let repository := hy_repository h in
  expect_counts decision WfIntegrity [(lit "parents", 0); (lit "transition_refs", 0)];;
  expect_strings decision WfIntegrity [(lit "author_ref", id_human (hy_stable_ids h))];;
  snapshot_oid ← value_string decision (lit "snapshot");
  snapshot ← load_structured_value repository snapshot_oid Tree;
  expect_names snapshot WfIntegrity genesis_names;;
  control_oid ← direct_entry snapshot (lit "control") Tree;
  site_oid ← direct_entry snapshot (lit "site") Tree;
  control ← load_structured_value repository control_oid Tree;
  expect_names control WfIntegrity control_names;;
  for_each (expect_entry control WfIntegrity)
    [(lit "agent.actor.json", Record, ao_ai_actor authority); (lit "creator.actor.json", Record, ao_human_actor authority);
     (lit "grant.json", Record, ao_grant authority); (lit "policy.json", Record, ao_policy authority);
     (lit "subject.json", Record, xo_subject (hy_expected h))];;
  review_context ← direct_entry control (lit "review-context.json") Blob;
  require_generated_value control (Some (control_tree authority (xo_subject (hy_expected h)) review_context));;
  require_generated_value snapshot (Some (entries_tree [(lit "control", lit "tree", control_oid); (lit "site", lit "tree", site_oid)]));;
  authored_at ← value_string decision (lit "authored_at");
  reject_if (negb (str_eqb authored_at (cf_recorded_at (hy_config h)))) WfIntegrity;;
  require_generated_value decision
    (commit nfc to_vec (lit "checkpoint") [] snapshot_oid [] (id_human (hy_stable_ids h)) authored_at
       (lit "Generic artifact project initialized"));;
  verified ← verify_protected_authority (hy_config h) repository snapshot_oid (hy_stable_ids h) (ao_policy authority)
               (ao_grant authority) (hy_decision_ref h) (hy_proposal_namespace h);
  reject_if (negb (bool_decide (verified = authority))) WfIntegrity.

(** The feedback of a Decision: the proposal, the disposition and the rationale. *)
Definition history_feedback (h : History) (feedback : Value) (human : str) : wresult (str * ArtifactDisposition * str) :=
  expect_strings feedback WfIntegrity
    [(lit "record_type", lit "decision_feedback"); (lit "origin", lit "self_declared"); (lit "asserted_by", human)];;
  feedback_payload ← value_field feedback (lit "payload");
  proposal_head ← value_string feedback_payload (lit "proposal_ref");
  disposition ← value_string feedback_payload (lit "disposition");
  disposition ← parse_disposition disposition;
  rationale ← value_string feedback_payload (lit "human_rationale");
  reject_if (negb (approval_value_ok rationale)) WfIntegrity;;
  Ok (proposal_head, disposition, rationale).

(** The Blob that the context of a proposal names. *)
Definition history_context (h : History) (context : Value) (parent human : str) : wresult str :=
  let authority := xo_authority (hy_expected h) in
  context_payload ← value_field context (lit "payload");
  expect_strings context WfIntegrity
    [(lit "record_type", lit "context_pack"); (lit "origin", lit "tool_recorded"); (lit "asserted_by", human)];;
  expect_strings context_payload WfIntegrity
    [(lit "base_commit", parent); (lit "expected_ref_head", parent); (lit "base_ref_name", hy_decision_ref h);
     (lit "policy_snapshot_ref", ao_policy authority); (lit "delegation_grant_ref", ao_grant authority)];;
  selected_context_refs ← value_array context_payload (lit "selected_context_refs");
  reject_if (negb (len selected_context_refs =? 2)) WfIntegrity;;
  context_blob ← ok_or (List.find (fun value => negb (str_eqb value parent)) (omap as_str selected_context_refs)) WfIntegrity;
  reject_if (negb (is_kind context_blob Blob)) WfIntegrity;;
  Ok context_blob.

(** The proposal that a Decision on [parent] settles: its Activity, its snapshot, and the Commit. *)
Definition history_proposal (h : History) (ids : WorkflowIds) (parent proposal_head authored_at attempt : str) : wresult (str * str * Value) :=
  proposal ← load_structured_value (hy_repository h) proposal_head Commit;
  proposal_parents ← value_array proposal (lit "parents");
  proposal_transitions ← value_array proposal (lit "transition_refs");
  expect_strings proposal WfIntegrity [(lit "commit_kind", lit "checkpoint")];;
  reject_if (negb (is_single proposal_parents parent)) WfIntegrity;;
  reject_if (negb (len proposal_transitions =? 1)) WfIntegrity;;
  expect_counts proposal WfIntegrity [(lit "bound_declaration_refs", 0)];;
  reject_if (negb (bool_decide (snapshot_ref_head (hy_refs h) (hy_proposal_namespace h ++ lit "/" ++ attempt) = Some proposal_head)))
    WfIntegrity;;
  ai ← value_string proposal (lit "author_ref");
  proposal_authored_at ← value_string proposal (lit "authored_at");
  reject_if (negb (str_eqb ai (id_agent ids)) || negb (str_eqb authored_at proposal_authored_at) ||
             negb (str_eqb proposal_authored_at (cf_recorded_at (hy_config h)))) WfIntegrity;;
  activity_oid ← ok_or (proposal_transitions !! 0%nat ≫= as_str) WfIntegrity;
  proposal_snapshot_oid ← value_string proposal (lit "snapshot");
  Ok (activity_oid, proposal_snapshot_oid, proposal).

Definition proposal_tree (base_snapshot site context_oid activity_oid : str) : Value :=
  entries_tree
    [(lit "activity.json", lit "record", activity_oid); (lit "base", lit "tree", base_snapshot);
     (lit "context.json", lit "record", context_oid); (lit "site", lit "tree", site)].

(** A Decision: its parent. *)
Definition validate_history_decision (h : History) (decision : Value) : wresult str :=
  let repository := hy_repository h in
  let authority := xo_authority (hy_expected h) in
  parents ← value_array decision (lit "parents");
  transitions ← value_array decision (lit "transition_refs");
  reject_if (negb (len parents =? 1) || negb (len transitions =? 1)) WfIntegrity;;
  parent ← ok_or (parents !! 0%nat ≫= as_str) WfIntegrity;
  reject_if (negb (is_kind parent Commit)) WfIntegrity;;
  human ← value_string decision (lit "author_ref");
  reject_if (negb (str_eqb human (id_human (hy_stable_ids h)))) WfIntegrity;;
  authored_at ← value_string decision (lit "authored_at");
  feedback_oid ← ok_or (transitions !! 0%nat ≫= as_str) WfIntegrity;
  feedback ← load_structured_value repository feedback_oid Record;
  '(proposal_head, disposition, rationale) ← history_feedback h feedback human;
  let attempt := artifact_attempt_id sha256 (cf_project_key (hy_config h)) parent in
  let ids := from_key_and_attempt sha256 (cf_project_key (hy_config h)) attempt in
  '(activity_oid, proposal_snapshot_oid, proposal) ← history_proposal h ids parent proposal_head authored_at attempt;
  proposal_snapshot ← load_structured_value repository proposal_snapshot_oid Tree;
  expect_names proposal_snapshot WfIntegrity proposal_names;;
  expect_entry proposal_snapshot WfIntegrity (lit "activity.json", Record, activity_oid);;
  context_oid ← direct_entry proposal_snapshot (lit "context.json") Record;
  proposal_site ← direct_entry proposal_snapshot (lit "site") Tree;
  parent_commit ← load_structured_value repository parent Commit;
  parent_snapshot ← value_string parent_commit (lit "snapshot");
  expect_entry proposal_snapshot WfIntegrity (lit "base", Tree, parent_snapshot);;
  let expected_selected := match disposition with
                           | AdoptedUnchanged => proposal_snapshot_oid
                           | ArtifactRejected | ArtifactDeferred => parent_snapshot
                           end in
  expect_strings decision WfIntegrity [(lit "snapshot", expected_selected)];;
  context ← load_structured_value repository context_oid Record;
  context_blob ← history_context h context parent human;
  require_generated_value context
    (context_record nfc to_vec (id_context ids) (id_human ids) (id_subject ids) parent (hy_decision_ref h) (ao_policy authority)
       (ao_grant authority) context_blob authored_at);;
  activity ← load_structured_value repository activity_oid Record;
  require_generated_value activity
    (activity_record nfc to_vec (id_activity ids) (id_agent ids) (id_human ids) (id_subject ids) context_oid (ao_grant authority)
       context_blob proposal_site CallerSuppliedAiAttributed authored_at);;
  require_generated_value proposal_snapshot (Some (proposal_tree parent_snapshot proposal_site context_oid activity_oid));;
  require_generated_value proposal
    (commit nfc to_vec (lit "checkpoint") [parent] proposal_snapshot_oid [activity_oid] (id_agent ids) authored_at
       (lit "Generic artifact Proposal; canonical Decision unchanged"));;
  require_generated_value feedback
    (feedback_record nfc to_vec (id_feedback ids) (id_human ids) (id_subject ids) proposal_head disposition rationale authored_at);;
  require_generated_value decision
    (commit nfc to_vec (lit "decision") [parent] expected_selected [feedback_oid] (id_human ids) authored_at
       (lit "Human reviewed generic artifact Proposal"));;
  Ok parent.

Definition validate_artifact_history_commit (h : History) (head : str) : wresult (option str) :=
  decision ← load_structured_value (hy_repository h) head Commit;
  expect_counts decision WfIntegrity [(lit "bound_declaration_refs", 0)];;
  kind ← value_string decision (lit "commit_kind");
  if str_eqb kind (lit "checkpoint") then validate_history_checkpoint h decision;; Ok None
  else
    reject_if (negb (str_eqb kind (lit "decision"))) WfIntegrity;;
    parent ← validate_history_decision h decision;
    Ok (Some parent).

(** Its bound is an error of the code. *)
Fixpoint descendant_loop (bound : nat) (h : History) (ancestor cursor : str) (visited : gset str) (seen_ancestor : bool) : wresult bool :=
  match bound with
  | O => Err WfIntegrity
  | S bound =>
    reject_if (bool_decide (cursor ∈ visited)) WfIntegrity;;
    let seen_ancestor := seen_ancestor || str_eqb cursor ancestor in
    parent ← validate_artifact_history_commit h cursor;
    match parent with
    | Some parent => descendant_loop bound h ancestor parent ({[cursor]} ∪ visited) seen_ancestor
    | None => Ok seen_ancestor
    end
  end.

Definition verify_artifact_decision_descendant (config : TrustedArtifactProjectConfig) repository (refs : RefSnapshot)
    (decision_ref ancestor descendant : str) : wresult bool :=
  reject_if (negb (config_valid config)) WfInvalidArgument;;
  reject_if (negb (str_eqb decision_ref (decision_ref_of (cf_project_key config))) ||
             negb (is_kind ancestor Commit) || negb (is_kind descendant Commit)) WfInvalidArgument;;
  reject_if (negb (bool_decide (snapshot_ref_head refs decision_ref = Some descendant))) WfIntegrity;;
  let proposal_namespace := proposal_namespace_of (cf_project_key config) in
  let stable_ids := from_key_and_attempt sha256 (cf_project_key config) (lit "history-check") in
  expected ← expected_artifact_authority_oids config stable_ids decision_ref proposal_namespace;
  descendant_loop history_bound
    {| hy_config := config; hy_repository := repository; hy_refs := refs; hy_decision_ref := decision_ref;
       hy_proposal_namespace := proposal_namespace; hy_stable_ids := stable_ids; hy_expected := expected |}
    ancestor descendant ∅ false.

(** ** The files of a recovered site *)

Record SiteRead := {
  sr_tree_nodes : Z;
  sr_tree_edges : Z;
  sr_total_bytes : Z;
  sr_pending : list PendingTree;
  sr_entries : list ArtifactManifestEntry;
}.

(** A Blob of the site. *)
Definition read_site_file repository (limits : ArtifactLimits) (path oid : str) (s : SiteRead) : wresult SiteRead :=
  reject_if (len (sr_entries s) >=? al_max_files limits) (WfArtifact ArtifactResourceLimit);;
  let remaining := Z.max 0 (al_max_total_bytes limits - sr_total_bytes s) in
  let read_limit := Z.max (Z.min (al_max_file_bytes limits) remaining) 1 in
  bytes ← map_err (fun _ => WfIntegrity) (read_verified_blob_limited sha256 (Repository.objects repository) oid read_limit);
  bytes ← ok_or bytes WfIntegrity;
  reject_if (len bytes >? al_max_file_bytes limits) (WfArtifact ArtifactResourceLimit);;
  total_bytes ← ok_or (usize_checked_add (sr_total_bytes s) (len bytes)) WfIntegrity;
  reject_if (total_bytes >? al_max_total_bytes limits) (WfArtifact ArtifactResourceLimit);;
  Ok {| sr_tree_nodes := sr_tree_nodes s; sr_tree_edges := sr_tree_edges s; sr_total_bytes := total_bytes;
        sr_pending := sr_pending s; sr_entries := sr_entries s ++ [regular_file path bytes] |}.

Definition read_site_entry repository (limits : ArtifactLimits) (tree : PendingTree) (segment : str) (entry : Value) (s : SiteRead)
  : wresult SiteRead :=
  tree_edges ← ok_or (usize_checked_add (sr_tree_edges s) 1) WfIntegrity;
  reject_if (tree_edges >? 200000) WfIntegrity;;
  depth ← ok_or (usize_checked_add (pt_depth tree) 1) WfIntegrity;
  reject_if (depth >? al_max_depth limits) (WfArtifact ArtifactResourceLimit);;
  let path := if bool_decide (pt_prefix tree = []) then segment else pt_prefix tree ++ lit "/" ++ segment in
  reject_if (len path >? al_max_path_bytes limits) (WfArtifact ArtifactResourceLimit);;
  '(kind, oid, count) ← entry_fields entry;
  reject_if (negb (count =? 2)) WfIntegrity;;
  let counted pending :=
    {| sr_tree_nodes := sr_tree_nodes s; sr_tree_edges := tree_edges; sr_total_bytes := sr_total_bytes s;
       sr_pending := pending; sr_entries := sr_entries s |} in
  if str_eqb kind (lit "tree") then
    found ← of_canonical (parse_oid oid);
    reject_if (negb (bool_decide (found = Tree))) WfIntegrity;;
    Ok (counted ({| pt_oid := oid; pt_prefix := path; pt_depth := depth |} :: sr_pending s))
  else if str_eqb kind (lit "blob") then
    found ← of_canonical (parse_oid oid);
    reject_if (negb (bool_decide (found = Blob))) WfIntegrity;;
    read_site_file repository limits path oid (counted (sr_pending s))
  else Err WfIntegrity.

(** The loop over the entries, from the last one. *)
Fixpoint read_site_entries repository (limits : ArtifactLimits) (tree : PendingTree) (children : list (str * Value)) (s : SiteRead)
  : wresult SiteRead :=
  match children with
  | [] => Ok s
  | (segment, entry) :: children =>
    s ← read_site_entry repository limits tree segment entry s; read_site_entries repository limits tree children s
  end.

(** One Tree of the stack. *)
Definition read_site_tree repository (limits : ArtifactLimits) (tree : PendingTree) (s : SiteRead) : wresult SiteRead :=
  tree_nodes ← ok_or (usize_checked_add (sr_tree_nodes s) 1) WfIntegrity;
  reject_if (tree_nodes >? 100000) WfIntegrity;;
  value ← load_structured_value repository (pt_oid tree) Tree;
  children ← entries_of value;
  read_site_entries repository limits tree (rev children)
    {| sr_tree_nodes := tree_nodes; sr_tree_edges := sr_tree_edges s; sr_total_bytes := sr_total_bytes s;
       sr_pending := sr_pending s; sr_entries := sr_entries s |}.

Fixpoint read_site_trees (fuel : nat) repository (limits : ArtifactLimits) (s : SiteRead) : wresult (list ArtifactManifestEntry) :=
  match sr_pending s with
  | [] => Ok (sr_entries s)
  | tree :: pending =>
    match fuel with
    | O => Err WorkflowOutOfFuel
    | S fuel =>
      s ← read_site_tree repository limits tree
            {| sr_tree_nodes := sr_tree_nodes s; sr_tree_edges := sr_tree_edges s; sr_total_bytes := sr_total_bytes s;
               sr_pending := pending; sr_entries := sr_entries s |};
      read_site_trees fuel repository limits s
    end
  end.

(** Each iteration counts a Tree. *)
Definition site_read_fuel : nat := S (Z.to_nat 100000).

Definition read_site_manifest repository (site_oid : str) (limits : ArtifactLimits) : wresult RegularFileManifest :=
  entries ← read_site_trees site_read_fuel repository limits
              {| sr_tree_nodes := 0; sr_tree_edges := 0; sr_total_bytes := 0;
                 sr_pending := [{| pt_oid := site_oid; pt_prefix := []; pt_depth := 0 |}]; sr_entries := [] |};
  map_err WfArtifact (from_entries nfc to_lowercase entries limits).

(** ** The base of a further proposal *)

Definition checkout_error (error : ArtifactCheckoutError) : WorkflowError :=
  if bool_decide (error = Checkout.Checkout (lit "artifact_digest_mismatch")) then WfAcceptedMismatch else WfCheckout error.

(** The files of the checkout are those of the manifest. *)
Definition checkout_matches (checkout : CheckedOutArtifact) (accepted : RegularFileManifest) : bool :=
  (len (co_files checkout) =? len (mf_files accepted)) &&
  forallb (fun file => bool_decide (checked_out_bytes checkout (fst file) = Some (snd file))) (mf_files accepted).

Definition verify_existing_artifact_base (config : TrustedArtifactProjectConfig) (accepted : RegularFileManifest) repository
    (decision_ref proposal_namespace decision_head : str) : wresult ExistingArtifactBase :=
  decision ← inspect_decision repository decision_head;
  let proposal_refs :=
    List.filter (fun record => in_namespace proposal_namespace (RefStore.name record) &&
                               str_eqb (RefStore.head record) (dl_proposal_head decision)) (list_refs repository) in
  proposal_ref ← ok_or (match proposal_refs with [record] => Some record | _ => None end) WfIntegrity;
  let previous :=
    {| db_project := project_selector sha256 config; db_proposal_ref_name := RefStore.name proposal_ref;
       db_proposal_head := dl_proposal_head decision; db_decision_ref_name := decision_ref;
       db_decision_head := dl_parent decision |} in
  let binding :=
    {| tb_repository := cf_repository config; tb_project_key := cf_project_key config; tb_proposal := previous;
       tb_decision_head := decision_head; tb_disposition := dl_disposition decision;
       tb_reviewed_manifest_sha256 := artifact_manifest_sha256 sha256 accepted |} in
  checkout ← map_err checkout_error
    (checkout_artifact_decision_in_repository sha256 nfc to_lowercase json_pointer registry repository binding default_checkout_limits);
  reject_if (negb (checkout_matches checkout accepted)) WfAcceptedMismatch;;
  proposal ← load_structured_value repository (dl_proposal_head decision) Commit;
  proposal_snapshot_oid ← value_string proposal (lit "snapshot");
  proposal_snapshot ← load_structured_value repository proposal_snapshot_oid Tree;
  context_oid ← direct_entry proposal_snapshot (lit "context.json") Record;
  activity_oid ← direct_entry proposal_snapshot (lit "activity.json") Record;
  context ← load_structured_value repository context_oid Record;
  activity ← load_structured_value repository activity_oid Record;
  context_payload ← value_field context (lit "payload");
  policy ← value_string context_payload (lit "policy_snapshot_ref");
  grant ← value_string context_payload (lit "delegation_grant_ref");
  let ids := from_key_and_attempt sha256 (cf_project_key config) (lit "profile-check") in
  reject_if (negb (str_eqb (dl_human_id decision) (id_human ids))) WfUnsupportedProfile;;
  expect_strings proposal WfUnsupportedProfile [(lit "author_ref", id_agent ids)];;
  expect_strings activity WfUnsupportedProfile [(lit "asserted_by", id_agent ids)];;
  protected ← verify_protected_authority config repository (dl_snapshot decision) ids policy grant decision_ref proposal_namespace;
  value ← load_structured_value repository decision_head Commit;
  snapshot ← value_string value (lit "snapshot");
  tree ← load_structured_value repository snapshot Tree;
  site_tree ← direct_entry tree (lit "site") Tree;
  Ok {| eb_snapshot := dl_snapshot decision; eb_site_tree := site_tree; eb_authority := protected |}.

Definition require_manifest_digest (manifest : RegularFileManifest) (expected_sha256 : str) : wresult unit :=
  validate_digest_text expected_sha256;;
  reject_if (negb (str_eqb (artifact_manifest_sha256 sha256 manifest) expected_sha256)) WfRecoveryMismatch.
End Checks.
