(* ===== verification/Workflow.v ===== *)
(** * The artifact workflow

    The operations of crates/synapse-artifact/src/workflow.rs: a proposal is prepared, published
    and recovered, and a Decision on it is prepared and published.  What the repositories on disk
    hold is threaded through and kept where an operation fails; [Repository::open] creates one
    that is missing.  The private [Application] of a proposal is that of AppPrograms: each of its
    calls runs alone ([run_alone]) on what the repository holds then.  The readings of the clock
    and the number of the application are arguments.  Nobody else changes a repository during
    one operation; between operations anything may happen to it. *)

From Stdlib Require Import ZArith Lia.
From stdpp Require Import base list numbers strings gmap sets.
From S2P Require Import Prelude Bytes Sorting Text BTree RefStore Canonical Timestamp Oid SchemaSemantics Registry.
From S2P Require Import ObjectStore FileStore Inventory Closure Repository Policy Authorization HumanDecision AppState AppPrograms.
From S2P Require Import Artifact Checkout Approval WorkflowRecords WorkflowChecks.

#[local] Open Scope Z_scope.

(** ** Computations that keep the state of an error *)

Definition Flow (S A : Type) : Type := S -> S * wresult A.

#[export] Instance flow_ret {S} : MRet (Flow S) := fun A a s => (s, Ok a).
#[export] Instance flow_bind {S} : MBind (Flow S) := fun A B k m s =>
  match m s with
  | (s, Ok a) => k a s
  | (s, Err e) => (s, Err e)
  end.

Definition answer {S A} (r : wresult A) : Flow S A := fun s => (s, r).

Abbreviation FileRepository := (Repository FileObjectStore).

(** The repositories by their paths. *)
Abbreviation Disks := (@gmap str (@list_eq_dec Z Z.eq_dec) (@list_countable Z Z.eq_dec Z_countable) FileRepository).

(** What [Repository::open] creates. *)
Definition created_repository : FileRepository :=
  {| Repository.objects := {| FileStore.objects := ∅; quarantine := ∅; limits := default_store_limits; store_read_only := false |};
     Repository.refs := {| RefStore.tables := empty_tables; read_only := false |};
     graph_limits := default_graph_limits; tombstone_scan_limits := default_tombstone_limits; repo_read_only := false |}.

Definition repository_at (path : str) (disks : Disks) : FileRepository := default created_repository (disks !! path).

Definition open_repository (path : str) : Flow Disks unit := fun disks => (<[path := repository_at path disks]> disks, Ok tt).

Definition on_repository {A} (path : str) (f : FileRepository -> FileRepository * wresult A) : Flow Disks A := fun disks =>
  let '(repository, a) := f (repository_at path disks) in (<[path := repository]> disks, a).

Definition reading_at {A} (path : str) (f : FileRepository -> wresult A) : Flow Disks A := fun disks =>
  (disks, f (repository_at path disks)).

(** A program that runs alone; [None] where it would wait for ever. *)
Fixpoint run_alone {S A} (c : prog S A) (app : App S) : option (App S * ares A) :=
  match c with
  | Done r => Some (app, r)
  | Act f =>
    match f app with
    | Some (app, _, c) => run_alone c app
    | None => None
    end
  end.

(** ** Proposals and Decisions *)

Record ArtifactProposalReceipt := {
  pr_artifact_manifest_sha256 : str;
  pr_review_context_sha256 : str;
  pr_source_attribution : ArtifactSourceAttribution;
}.

Record ArtifactDecisionReceipt := { dr_disposition : ArtifactDisposition; dr_reviewed_artifact_manifest_sha256 : str }.

Record ArtifactProposalData := {
  pd_selector : str;
  pd_repository_path : str;
  pd_ids : WorkflowIds;
  pd_proposal_ref : str;
  pd_decision_ref : str;
  pd_base_head : str;
  pd_proposal_head : str;
  pd_base_snapshot : str;
  pd_proposal_snapshot : str;
  pd_base_manifest_sha256 : str;
  pd_recorded_at : str;
  pd_context_oid : str;
  pd_activity_oid : str;
  pd_receipt : ArtifactProposalReceipt;
}.

(** [ArtifactProposalData::durable_binding] *)
Definition durable_binding (data : ArtifactProposalData) : DurableProposalBinding :=
  {| db_project := pd_selector data; db_proposal_ref_name := pd_proposal_ref data; db_proposal_head := pd_proposal_head data;
     db_decision_ref_name := pd_decision_ref data; db_decision_head := pd_base_head data |}.

(** An [ArtifactApplication] has one project, whose repository is the one on disk: its number,
    the gate of the project, and the security state. *)
Record ArtifactApplication := { aa_instance : Z; aa_gate : FairGateState; aa_security : SecurityState }.

Record PreparedArtifactProposal := {
  pp_application : ArtifactApplication;
  pp_execution : Handle;
  pp_human_profile : Handle;
  pp_data : ArtifactProposalData;
  pp_initialize_decision_ref : bool;
}.

Inductive ArtifactProposalAdmission := SameProcess (admitted : AdmittedProposalHandle) | Recovered.

Record PendingArtifactProposal := {
  pa_application : ArtifactApplication;
  pa_human_profile : Handle;
  pa_admission : ArtifactProposalAdmission;
  pa_data : ArtifactProposalData;
  pa_state : PendingArtifactState;
}.

Definition set_state (state : PendingArtifactState) (pending : PendingArtifactProposal) : PendingArtifactProposal :=
  {| pa_application := pa_application pending; pa_human_profile := pa_human_profile pending; pa_admission := pa_admission pending;
     pa_data := pa_data pending; pa_state := state |}.
Definition set_application (application : ArtifactApplication) (pending : PendingArtifactProposal) : PendingArtifactProposal :=
  {| pa_application := application; pa_human_profile := pa_human_profile pending; pa_admission := pa_admission pending;
     pa_data := pa_data pending; pa_state := pa_state pending |}.

Record PreparedArtifactDecision := {
  px_permit : Permit;
  px_binding : DurableProposalBinding;
  px_new_decision_head : str;
  px_feedback_oid : str;
  px_disposition : ArtifactDisposition;
  px_selected_snapshot_oid : str;
  px_reviewed_manifest_sha256 : str;
}.

Record ArtifactDecisionPublication := {
  dp_receipt : ArtifactDecisionReceipt;
  dp_binding : DurableProposalBinding;
  dp_new_decision_head : str;
  dp_feedback_oid : str;
  dp_selected_snapshot_oid : str;
}.

(** [disposition_snapshot] *)
Definition disposition_snapshot (disposition : ArtifactDisposition) : str :=
  match disposition with
  | AdoptedUnchanged => lit "proposal"
  | ArtifactRejected | ArtifactDeferred => lit "base"
  end.

Section Workflow.
Variable sha256 : list byte -> list byte.
Variable nfc : list char -> list char.
Variable to_lowercase : char -> list char.
Variable json_pointer : Json -> str -> option (list nat).
Variable registry : SchemaRegistry.
(** [serde_json::to_vec] *)
Variable to_vec : Value -> list byte.

#[local] Instance store_here : ObjectStore FileObjectStore := file_object_store sha256 nfc.
#[local] Instance bounded_store_here : BoundedObjectStore FileObjectStore := file_bounded_store sha256 nfc.

(** ** Storing objects *)

Definition put_json (path : str) (value : option Value) : Flow Disks str :=
  value ← answer (expect value);
  on_repository path (fun r =>
    match put_object sha256 nfc json_pointer registry r (to_vec value) with
    | Ok (r, put) => (r, Ok (put_oid put))
    | Err e => (r, Err (WfRepository e))
    end).

(** [repository.put_blob(bytes)?.oid] *)
Definition put_bytes (path : str) (bytes : list byte) : Flow Disks str :=
  on_repository path (fun r =>
    match repo_put_blob sha256 r (whole_reads (Repository.objects r) bytes) with
    | Ok (r, put) => (r, Ok (put_oid put))
    | Err e => (r, Err (WfRepository e))
    end).

Definition map_files (path : str) (manifest : RegularFileManifest) : Flow Disks MappedArtifactTree :=
  on_repository path (fun r =>
    let '(r, mapped) := map_regular_files sha256 nfc json_pointer registry to_vec r manifest in (r, map_err WfArtifact mapped)).

(** [artifact_snapshot] with a control Tree, and with the parts of a proposal. *)
Definition initial_snapshot (path site_tree control : str) : Flow Disks str :=
  put_json path (Some (entries_tree [(lit "site", lit "tree", site_tree); (lit "control", lit "tree", control)])).
Definition proposal_snapshot (path site_tree base context activity : str) : Flow Disks str :=
  put_json path
    (Some (entries_tree [(lit "site", lit "tree", site_tree); (lit "base", lit "tree", base);
                         (lit "context.json", lit "record", context); (lit "activity.json", lit "record", activity)])).

(** ** Preparing a proposal *)

(** The head, the snapshot, the authority and the Blob of the context that a proposal starts from. *)
Record ProposalBase := { bs_head : str; bs_snapshot : str; bs_authority : ArtifactAuthorityOids; bs_context_blob : str }.

(** The accepted base of a further proposal, before anything is stored. *)
Definition sequential_base (config : TrustedArtifactProjectConfig) (accepted : RegularFileManifest)
    (recovery : RecoveryState) (expected_decision_head : option str) : Flow Disks (str * ExistingArtifactBase) :=
  let path := cf_repository config in
  let decision_ref := decision_ref_of (cf_project_key config) in
  let proposal_namespace := proposal_namespace_of (cf_project_key config) in
  (fun disks => (disks, reject_if (negb (bool_decide (is_Some (disks !! path)))) WfProjectMissing));;
  open_repository path;;
  reading_at path (fun verifier =>
    current_head ← ref_head_of verifier decision_ref;
    current_head ← ok_or current_head WfProjectMissing;
    reject_if (match expected_decision_head with Some expected => negb (str_eqb expected current_head) | None => false end) WfStaleBase;;
    validate_review_availability sha256 nfc json_pointer registry verifier proposal_namespace decision_ref current_head recovery;;
    existing ← verify_existing_artifact_base sha256 nfc to_lowercase json_pointer registry config accepted verifier decision_ref
                 proposal_namespace current_head;
    Ok (current_head, existing)).

(** The objects of a new project: its first Commit. *)
Definition initial_base (config : TrustedArtifactProjectConfig) (accepted : RegularFileManifest) (canonical_context : list byte)
  : Flow Disks ProposalBase :=
  let path := cf_repository config in
  let decision_ref := decision_ref_of (cf_project_key config) in
  let proposal_namespace := proposal_namespace_of (cf_project_key config) in
  let ids := from_key_and_attempt sha256 (cf_project_key config) (lit "pending") in
  context_blob ← put_bytes path canonical_context;
  mapped_base ← map_files path accepted;
  human_actor ← put_json path (Some (human_actor_record config ids));
  ai_actor ← put_json path (ai_actor_record nfc to_vec config ids);
  policy ← put_json path (project_policy nfc to_vec config ids decision_ref proposal_namespace);
  grant ← put_json path (project_grant nfc to_vec config ids proposal_namespace);
  subject ← put_json path (Some (project_subject config ids));
  let authority := {| ao_human_actor := human_actor; ao_ai_actor := ai_actor; ao_policy := policy; ao_grant := grant |} in
  control_tree ← put_json path (Some (control_tree authority subject context_blob));
  snapshot ← initial_snapshot path (mt_site_tree_oid mapped_base) control_tree;
  head ← put_json path (commit nfc to_vec (lit "checkpoint") [] snapshot [] (id_human ids) (cf_recorded_at config)
                          (lit "Generic artifact project initialized"));
  mret {| bs_head := head; bs_snapshot := snapshot; bs_authority := authority; bs_context_blob := context_blob |}.

(** The same from an existing base: the Refs are read again. *)
Definition existing_base (config : TrustedArtifactProjectConfig) (accepted : RegularFileManifest) (canonical_context : list byte)
    (recovery : RecoveryState) (current_head : str) (existing : ExistingArtifactBase) : Flow Disks ProposalBase :=
  let path := cf_repository config in
  let decision_ref := decision_ref_of (cf_project_key config) in
  let proposal_namespace := proposal_namespace_of (cf_project_key config) in
  reading_at path (fun repository =>
    live_head ← ref_head_of repository decision_ref;
    live_head ← ok_or live_head WfProjectMissing;
    reject_if (negb (str_eqb live_head current_head)) WfStaleBase;;
    validate_review_availability sha256 nfc json_pointer registry repository proposal_namespace decision_ref current_head recovery);;
  mapped_base ← map_files path accepted;
  answer (reject_if (negb (str_eqb (mt_site_tree_oid mapped_base) (eb_site_tree existing))) WfAcceptedMismatch);;
  context_blob ← put_bytes path canonical_context;
  mret {| bs_head := current_head; bs_snapshot := eb_snapshot existing; bs_authority := eb_authority existing;
          bs_context_blob := context_blob |}.

(** The objects of the proposal itself. *)
Definition proposal_objects (config : TrustedArtifactProjectConfig) (accepted proposed : RegularFileManifest)
    (canonical_context : list byte) (source_attribution : ArtifactSourceAttribution) (base : ProposalBase)
  : Flow Disks ArtifactProposalData :=
  let path := cf_repository config in
  let decision_ref := decision_ref_of (cf_project_key config) in
  let attempt := artifact_attempt_id sha256 (cf_project_key config) (bs_head base) in
  let ids := from_key_and_attempt sha256 (cf_project_key config) attempt in
  let authority := bs_authority base in
  mapped_proposal ← map_files path proposed;
  context_oid ← put_json path
    (context_record nfc to_vec (id_context ids) (id_human ids) (id_subject ids) (bs_head base) decision_ref (ao_policy authority)
       (ao_grant authority) (bs_context_blob base) (cf_recorded_at config));
  activity_oid ← put_json path
    (activity_record nfc to_vec (id_activity ids) (id_agent ids) (id_human ids) (id_subject ids) context_oid (ao_grant authority)
       (bs_context_blob base) (mt_site_tree_oid mapped_proposal) source_attribution (cf_recorded_at config));
  proposal_snapshot ← proposal_snapshot path (mt_site_tree_oid mapped_proposal) (bs_snapshot base) context_oid activity_oid;
  proposal_head ← put_json path
    (commit nfc to_vec (lit "checkpoint") [bs_head base] proposal_snapshot [activity_oid] (id_agent ids) (cf_recorded_at config)
       (lit "Generic artifact Proposal; canonical Decision unchanged"));
  mret {| pd_selector := id_project ids; pd_repository_path := path; pd_ids := ids;
          pd_proposal_ref := proposal_namespace_of (cf_project_key config) ++ lit "/" ++ attempt; pd_decision_ref := decision_ref;
          pd_base_head := bs_head base; pd_proposal_head := proposal_head; pd_base_snapshot := bs_snapshot base;
          pd_proposal_snapshot := proposal_snapshot; pd_base_manifest_sha256 := artifact_manifest_sha256 sha256 accepted;
          pd_recorded_at := cf_recorded_at config; pd_context_oid := context_oid; pd_activity_oid := activity_oid;
          pd_receipt := {| pr_artifact_manifest_sha256 := artifact_manifest_sha256 sha256 proposed;
                           pr_review_context_sha256 := sha256_hex sha256 canonical_context;
                           pr_source_attribution := source_attribution |} |}.

Definition validate_recovery_binding_and_refs (repository : FileRepository) (data : ArtifactProposalData)
    (base_kind : ProposalBaseKind) (recovery : RecoveryState) : wresult unit :=
  match recovery with
  | Fresh => Ok tt
  | Prepared expected | Published expected =>
    reject_if (negb (bool_decide (durable_binding data = expected))) WfRecoveryMismatch;;
    decision ← ref_head_of repository (pd_decision_ref data);
    reject_if (negb match base_kind, decision with
                    | Initial, None => true
                    | Sequential, None => false
                    | _, Some head => str_eqb head (pd_base_head data)
                    end) WfRecoveryMismatch;;
    proposal ← ref_head_of repository (pd_proposal_ref data);
    reject_if (negb match recovery with
                    | Prepared _ => bool_decide (proposal = None)
                    | Published _ => bool_decide (proposal = Some (pd_proposal_head data))
                    | Fresh => true
                    end) WfRecoveryMismatch
  end.

(** ** The private application *)

(** [ArtifactAuthenticator::authenticate] *)
Definition artifact_authenticate (ids : WorkflowIds) (credential : str) : Authentication :=
  let session actor_id session_id :=
    match session_new actor_id session_id with Some session => AuthSession session | None => AuthRefused end in
  if str_eqb credential AGENT_CREDENTIAL then session (id_agent ids) (lit "artifact-agent-session")
  else if str_eqb credential HUMAN_CREDENTIAL then session (id_human ids) (lit "artifact-human-session")
  else AuthRefused.

(** [PreparedArtifactExecutor::execute] *)
Definition artifact_execute (data : ArtifactProposalData) (_ : AiExecutionContext) : option ExecutedAiProposal :=
  Some {| ex_new_head := pd_proposal_head data; ex_activity_oid := pd_activity_oid data;
          ex_message := Some (lit "generic artifact Proposal") |}.

(** The state of the application over the repository. *)
Definition application_state (project : str) (repository : FileRepository) (application : ArtifactApplication) : App FileObjectStore :=
  {| slots := {[project := {| AppPrograms.repository := repository; publication_gate := aa_gate application |}]};
     security := aa_security application |}.

(** A call of the application of a proposal, from the repository that is on disk. *)
Definition call_application {A} (data : ArtifactProposalData) (c : Z -> prog FileObjectStore A)
  : Flow (Disks * ArtifactApplication) A := fun '(disks, application) =>
  let path := pd_repository_path data in
  let i := aa_instance application in
  match run_alone (c i) (application_state (pd_selector data) (repository_at path disks) application) with
  | None => ((disks, application), Err WorkflowBlocked)
  | Some (app, a) =>
    match slots app !! pd_selector data with
    | None => ((disks, application), Err WorkflowPanic)
    | Some slot =>
      ((<[path := AppPrograms.repository slot]> disks,
        {| aa_instance := i; aa_gate := publication_gate slot; aa_security := security app |}), map_err WfApplication a)
    end
  end.

(** Calls of an application that is kept when they succeed. *)
Definition on_application {A} (application : ArtifactApplication) (calls : Flow (Disks * ArtifactApplication) A)
  : Flow Disks (ArtifactApplication * A) := fun disks =>
  let '((disks, application), a) := calls (disks, application) in (disks, a ← a; Ok (application, a)).

(** [Application::new] with the one project. *)
Definition new_application (i : Z) (data : ArtifactProposalData) : Flow Disks ArtifactApplication := fun disks =>
  (disks, app ← map_err WfApplication (app_new PERMIT_TTL_NANOS [(pd_selector data, repository_at (pd_repository_path data) disks)]);
          slot ← expect (slots app !! pd_selector data);
          Ok {| aa_instance := i; aa_gate := publication_gate slot; aa_security := security app |}).

Definition ai_profile_config (data : ArtifactProposalData) (authority : ArtifactAuthorityOids) : AiAuthorityProfileConfig :=
  {| ac_project := pd_selector data; ac_actor_id := id_agent (pd_ids data); ac_principal_id := id_human (pd_ids data);
     ac_base_ref_name := pd_decision_ref data; ac_actor_record_oid := ao_ai_actor authority;
     ac_principal_actor_record_oid := ao_human_actor authority; ac_context_pack_oid := pd_context_oid data;
     ac_target_ref_name := pd_proposal_ref data; ac_exact_capabilities := [ProposeBranch; ReadContext];
     ac_runtime_capabilities := [ProposeBranch; ReadContext]; ac_side_effect_class := SideEffectNone |}.

Definition human_profile_config (data : ArtifactProposalData) (authority : ArtifactAuthorityOids) : HumanAuthorityProfileConfig :=
  {| hc_project := pd_selector data; hc_human_id := id_human (pd_ids data); hc_decision_ref_name := pd_decision_ref data;
     hc_human_actor_record_oid := ao_human_actor authority; hc_policy_record_oid := ao_policy authority |}.

Definition install_prepared_application (i : Z) (data : ArtifactProposalData) (authority : ArtifactAuthorityOids)
    (initialize_decision_ref : bool) : Flow Disks PreparedArtifactProposal :=
  application ← new_application i data;
  '(application, (execution, human_profile)) ← on_application application (
    call_application data (fun _ => grant_project_access (pd_selector data) (id_agent (pd_ids data)));;
    call_application data (fun _ => grant_project_access (pd_selector data) (id_human (pd_ids data)));;
    ai_profile ← call_application data (fun i => register_authority_profile i (ai_profile_config data authority));
    human_profile ← call_application data (fun i => register_human_profile i (human_profile_config data authority));
    execution ← call_application data (fun i => register_execution i ai_profile);
    mret (execution, human_profile));
  mret {| pp_application := application; pp_execution := execution; pp_human_profile := human_profile; pp_data := data;
          pp_initialize_decision_ref := initialize_decision_ref |}.

(** ** Preparation *)

(** [i] is the number of the new application. *)
Definition prepare_artifact_proposal_internal (config : TrustedArtifactProjectConfig) (accepted proposed : RegularFileManifest)
    (application_context_json : list byte) (source_attribution : ArtifactSourceAttribution) (base_kind : ProposalBaseKind)
    (recovery : RecoveryState) (expected_decision_head : option str) (now : option Z) (i : Z) : Flow Disks PreparedArtifactProposal :=
  let path := cf_repository config in
  answer (reject_if (negb (config_valid config)) WfInvalidArgument);;
  now ← answer (ok_or now WfClock);
  expires ← answer (map_err (fun _ => WfInvalidArgument) (timestamp_parse (cf_grant_expires_at config)));
  answer (reject_if (now >=? unix_nanos expires) WfAuthorityExpired);;
  canonical_context ← answer (of_canonical (canonical_review_context nfc application_context_json));
  existing ← match base_kind with
             | Sequential => base ← sequential_base config accepted recovery expected_decision_head; mret (Some base)
             | Initial => mret None
             end;
  open_repository path;;
  match base_kind, recovery with
  | Initial, Fresh => reading_at path (fun repository => reject_if (negb (bool_decide (list_refs repository = []))) WfProjectExists)
  | _, _ => mret tt
  end;;
  base ← match existing with
         | None => initial_base config accepted canonical_context
         | Some (current_head, existing) => existing_base config accepted canonical_context recovery current_head existing
         end;
  data ← proposal_objects config accepted proposed canonical_context source_attribution base;
  reading_at path (fun repository => validate_recovery_binding_and_refs repository data base_kind recovery);;
  install_prepared_application i data (bs_authority base) (match base_kind with Initial => true | Sequential => false end).

Definition prepare_artifact_proposal (config : TrustedArtifactProjectConfig) (accepted proposed : RegularFileManifest)
    (application_context_json : list byte) (source_attribution : ArtifactSourceAttribution) (now : option Z) (i : Z)
  : Flow Disks PreparedArtifactProposal :=
  prepare_artifact_proposal_internal config accepted proposed application_context_json source_attribution Initial Fresh None now i.

Definition prepare_next_artifact_proposal (config : TrustedArtifactProjectConfig) (accepted proposed : RegularFileManifest)
    (application_context_json : list byte) (source_attribution : ArtifactSourceAttribution) (now : option Z) (i : Z)
  : Flow Disks PreparedArtifactProposal :=
  prepare_artifact_proposal_internal config accepted proposed application_context_json source_attribution Sequential Fresh None now i.

Definition prepare_next_artifact_proposal_at_head (config : TrustedArtifactProjectConfig) (expected_decision_head : str)
    (accepted proposed : RegularFileManifest) (application_context_json : list byte)
    (source_attribution : ArtifactSourceAttribution) (now : option Z) (i : Z) : Flow Disks PreparedArtifactProposal :=
  answer (reject_if (negb (is_kind expected_decision_head Commit)) WfInvalidArgument);;
  prepare_artifact_proposal_internal config accepted proposed application_context_json source_attribution Sequential Fresh
    (Some expected_decision_head) now i.

Definition recovery_base_kind (config : TrustedArtifactProjectConfig) (binding : DurableProposalBinding)
  : Flow Disks ProposalBaseKind := fun disks =>
  (disks,
   reject_if (negb (config_valid config)) WfInvalidArgument;;
   reject_if (negb (str_eqb (db_project binding) (project_selector sha256 config)) ||
              negb (str_eqb (db_decision_ref_name binding) (decision_ref_of (cf_project_key config)))) WfRecoveryMismatch;;
   repository ← ok_or (disks !! cf_repository config) WfProjectMissing;
   commit ← load_structured_value sha256 nfc json_pointer registry repository (db_decision_head binding) Commit;
   kind ← value_string commit (lit "commit_kind");
   if str_eqb kind (lit "checkpoint") then Ok Initial
   else if str_eqb kind (lit "decision") then Ok Sequential
   else Err WfRecoveryMismatch).

Definition recover_prepared_artifact_proposal (config : TrustedArtifactProjectConfig) (binding : DurableProposalBinding)
    (expected_proposal_manifest_sha256 : str) (accepted proposed : RegularFileManifest) (application_context_json : list byte)
    (source_attribution : ArtifactSourceAttribution) (now : option Z) (i : Z) : Flow Disks PreparedArtifactProposal :=
  answer (require_manifest_digest sha256 proposed expected_proposal_manifest_sha256);;
  kind ← recovery_base_kind config binding;
  prepare_artifact_proposal_internal config accepted proposed application_context_json source_attribution kind (Prepared binding)
    (Some (db_decision_head binding)) now i.

(** ** Publication *)

(** [repository.update_ref(...)?] *)
Definition update_ref_at (path : str) (update : RefUpdate) : Flow Disks ReflogEntry :=
  on_repository path (fun r => let '(r, entry) := repo_update_ref r update in (r, map_err WfRepository entry)).

Definition initialize_decision_ref_if_needed (data : ArtifactProposalData) (now : option Z) : Flow Disks unit :=
  let path := pd_repository_path data in
  open_repository path;;
  head ← reading_at path (fun repository => ref_head_of repository (pd_decision_ref data));
  match head with
  | Some head => answer (reject_if (negb (str_eqb head (pd_base_head data))) WfProjectExists)
  | None =>
    observed ← answer (ok_or now WfClock);
    occurred_at ← answer (ok_or (if in_i64 observed then Some observed else None) WfClock);
    update_ref_at path
      {| u_ref_name := pd_decision_ref data; u_expected_head := None; u_new_head := pd_base_head data;
         u_metadata := {| md_occurred_at := occurred_at; md_actor := Some (id_human (pd_ids data));
                          md_message := Some (lit "initialize generic artifact project") |} |};;
    mret tt
  end.

(** The receipt of the publication is that of the prepared proposal. *)
Definition receipt_matches (data : ArtifactProposalData) (decision : AuthorizationDecision) : bool :=
  str_eqb (ref_name (ad_reflog decision)) (pd_proposal_ref data) && bool_decide (old_head (ad_reflog decision) = None) &&
  str_eqb (new_head (ad_reflog decision)) (pd_proposal_head data) && str_eqb (ad_activity_oid decision) (pd_activity_oid data) &&
  str_eqb (ad_context_pack_oid decision) (pd_context_oid data).

(** The readings of the clock: for the first Ref, for the permit, and those of the publication. *)
Record PublishClock := {
  ck_initialize : option Z;
  ck_prepare : option Z;
  ck_first : option Z;
  ck_second : option Z;
  ck_now : option Z;
  ck_transaction : option Z;
}.

Definition publish_prepared_artifact_proposal (prepared : PreparedArtifactProposal) (clock : PublishClock)
  : Flow Disks PendingArtifactProposal :=
  let data := pp_data prepared in
  let agent := artifact_authenticate (pd_ids data) AGENT_CREDENTIAL in
  (if pp_initialize_decision_ref prepared then initialize_decision_ref_if_needed data (ck_initialize clock) else mret tt);;
  '(application, publication) ← on_application (pp_application prepared) (
    permit ← call_application data (fun i =>
      prepare_ai nfc json_pointer registry i PERMIT_TTL_NANOS agent (pd_selector data) (pp_execution prepared) (ck_prepare clock));
    call_application data (fun i =>
      execute_and_publish_ai nfc json_pointer registry i agent agent (ck_first clock) (ck_second clock) (ck_now clock)
         (ck_transaction clock) (artifact_execute data) permit));
  answer (reject_if (negb (receipt_matches data (ar_decision publication))) WfIntegrity);;
  mret {| pa_application := application; pa_human_profile := pp_human_profile prepared;
          pa_admission := SameProcess (ar_admitted_proposal publication); pa_data := data; pa_state := Ready |}.

Definition begin_artifact_proposal (config : TrustedArtifactProjectConfig) (accepted proposed : RegularFileManifest)
    (application_context_json : list byte) (source_attribution : ArtifactSourceAttribution) (now : option Z) (i : Z) (clock : PublishClock)
  : Flow Disks PendingArtifactProposal :=
  prepared ← prepare_artifact_proposal config accepted proposed application_context_json source_attribution now i;
  publish_prepared_artifact_proposal prepared clock.

Definition begin_next_artifact_proposal (config : TrustedArtifactProjectConfig) (accepted proposed : RegularFileManifest)
    (application_context_json : list byte) (source_attribution : ArtifactSourceAttribution) (now : option Z) (i : Z) (clock : PublishClock)
  : Flow Disks PendingArtifactProposal :=
  prepared ← prepare_next_artifact_proposal config accepted proposed application_context_json source_attribution now i;
  publish_prepared_artifact_proposal prepared clock.

Definition begin_next_artifact_proposal_at_head (config : TrustedArtifactProjectConfig) (expected_decision_head : str)
    (accepted proposed : RegularFileManifest) (application_context_json : list byte)
    (source_attribution : ArtifactSourceAttribution) (now : option Z) (i : Z) (clock : PublishClock)
  : Flow Disks PendingArtifactProposal :=
  prepared ← prepare_next_artifact_proposal_at_head config expected_decision_head accepted proposed application_context_json
               source_attribution now i;
  publish_prepared_artifact_proposal prepared clock.

(** ** Recovery of a published proposal *)

(** What the Commit and the snapshot of the proposal say. *)
Record PublishedProposal := {
  pu_recorded_at : str;
  pu_snapshot : str;
  pu_site : str;
  pu_context_oid : str;
  pu_activity_oid : str;
}.

Definition read_published_proposal (repository : FileRepository) (binding : DurableProposalBinding) (ids : WorkflowIds)
    (base_snapshot : str) : wresult PublishedProposal :=
  let load := load_structured_value sha256 nfc json_pointer registry repository in
  proposal ← load (db_proposal_head binding) Commit;
  parents ← value_array proposal (lit "parents");
  transitions ← value_array proposal (lit "transition_refs");
  expect_strings proposal WfRecoveryMismatch [(lit "commit_kind", lit "checkpoint")];;
  reject_if (negb (is_single parents (db_decision_head binding))) WfRecoveryMismatch;;
  reject_if (negb (len transitions =? 1)) WfRecoveryMismatch;;
  expect_counts proposal WfRecoveryMismatch [(lit "bound_declaration_refs", 0)];;
  expect_strings proposal WfRecoveryMismatch [(lit "author_ref", id_agent ids)];;
  recorded_at ← value_string proposal (lit "authored_at");
  map_err (fun _ => WfRecoveryMismatch) (timestamp_parse recorded_at);;
  proposal_snapshot ← value_string proposal (lit "snapshot");
  snapshot ← load proposal_snapshot Tree;
  expect_names snapshot WfRecoveryMismatch proposal_names;;
  expect_entry snapshot WfRecoveryMismatch (lit "base", Tree, base_snapshot);;
  site ← direct_entry snapshot (lit "site") Tree;
  context_oid ← direct_entry snapshot (lit "context.json") Record;
  activity_oid ← direct_entry snapshot (lit "activity.json") Record;
  reject_if (negb (is_single transitions activity_oid)) WfRecoveryMismatch;;
  Ok {| pu_recorded_at := recorded_at; pu_snapshot := proposal_snapshot; pu_site := site; pu_context_oid := context_oid;
        pu_activity_oid := activity_oid |}.

(** The policy, the grant and the Blob that the context names. *)
Definition read_published_context (repository : FileRepository) (binding : DurableProposalBinding) (ids : WorkflowIds)
    (published : PublishedProposal) : wresult (str * str * str) :=
  context ← load_structured_value sha256 nfc json_pointer registry repository (pu_context_oid published) Record;
  context_payload ← value_field context (lit "payload");
  expect_strings context WfRecoveryMismatch
    [(lit "record_type", lit "context_pack"); (lit "entity_id", id_context ids); (lit "asserted_by", id_human ids);
     (lit "recorded_at", pu_recorded_at published)];;
  expect_strings context_payload WfRecoveryMismatch
    [(lit "base_commit", db_decision_head binding); (lit "base_ref_name", db_decision_ref_name binding);
     (lit "expected_ref_head", db_decision_head binding)];;
  subject_refs ← value_array context_payload (lit "subject_refs");
  reject_if (negb (is_single subject_refs (id_subject ids))) WfRecoveryMismatch;;
  policy ← value_string context_payload (lit "policy_snapshot_ref");
  grant ← value_string context_payload (lit "delegation_grant_ref");
  selected_context ← value_array context_payload (lit "selected_context_refs");
  application_context_blob ← ok_or
    (List.find (fun oid => negb (str_eqb oid (db_decision_head binding)) && is_kind oid Blob) (omap as_str selected_context))
    WfRecoveryMismatch;
  reject_if (negb (len selected_context =? 2) ||
             negb (existsb (fun value => bool_decide (as_str value = Some (db_decision_head binding))) selected_context))
    WfRecoveryMismatch;;
  Ok (policy, grant, application_context_blob).

Definition check_published_activity (repository : FileRepository) (ids : WorkflowIds) (published : PublishedProposal)
    (grant application_context_blob : str) : wresult unit :=
  activity ← load_structured_value sha256 nfc json_pointer registry repository (pu_activity_oid published) Record;
  activity_payload ← value_field activity (lit "payload");
  expect_strings activity WfRecoveryMismatch
    [(lit "record_type", lit "activity"); (lit "entity_id", id_activity ids); (lit "asserted_by", id_agent ids);
     (lit "recorded_at", pu_recorded_at published)];;
  expect_strings activity_payload WfRecoveryMismatch
    [(lit "activity_kind", lit "ai_run"); (lit "side_effect_class", lit "none");
     (lit "summary", lit "Recorded caller-supplied bytes as an AI-attributed generic artifact Proposal.")];;
  expect_counts activity_payload WfRecoveryMismatch
    [(lit "input_refs", 2); (lit "output_refs", 1); (lit "actor_refs", 2); (lit "subject_refs", 1)];;
  subject_refs ← value_array activity_payload (lit "subject_refs");
  reject_if (negb (is_single subject_refs (id_subject ids))) WfRecoveryMismatch;;
  expect_true (role_oid_matches activity_payload (lit "input_refs") (lit "context") (pu_context_oid published)) WfRecoveryMismatch;;
  expect_true (role_oid_matches activity_payload (lit "input_refs") (lit "application_context") application_context_blob)
    WfRecoveryMismatch;;
  expect_true (role_oid_matches activity_payload (lit "output_refs") (lit "proposal") (pu_site published)) WfRecoveryMismatch;;
  expect_true (role_actor_matches activity_payload (lit "agent") (id_agent ids)) WfRecoveryMismatch;;
  expect_true (role_actor_matches activity_payload (lit "responsible_principal") (id_human ids)) WfRecoveryMismatch;;
  ai_run ← value_field activity_payload (lit "ai_run");
  expect_strings ai_run WfRecoveryMismatch
    [(lit "agent_ref", id_agent ids); (lit "responsible_principal_ref", id_human ids);
     (lit "context_pack_ref", pu_context_oid published); (lit "delegation_grant_ref", grant);
     (lit "status", lit "proposal_ready"); (lit "reproducibility_class", lit "not_reproducible")].

(** [map_err] on the errors of [verify_protected_authority]. *)
Definition recovery_error (error : WorkflowError) : WorkflowError :=
  match error with
  | WfUnsupportedProfile | WfAcceptedMismatch => WfRecoveryMismatch
  | error => error
  end.

(** The data and the authority of a published proposal, as the repository holds them. *)
Definition read_published (config : TrustedArtifactProjectConfig) (binding : DurableProposalBinding)
    (expected_manifest_sha256 : str) (expected_attempt : str) (repository : FileRepository)
  : wresult (ArtifactProposalData * ArtifactAuthorityOids) :=
  let load := load_structured_value sha256 nfc json_pointer registry repository in
  let decision_ref := decision_ref_of (cf_project_key config) in
  let proposal_namespace := proposal_namespace_of (cf_project_key config) in
  decision_head ← ref_head_of repository (db_decision_ref_name binding);
  reject_if (negb (bool_decide (decision_head = Some (db_decision_head binding)))) WfRecoveryMismatch;;
  proposal_head ← ref_head_of repository (db_proposal_ref_name binding);
  reject_if (negb (bool_decide (proposal_head = Some (db_proposal_head binding)))) WfRecoveryMismatch;;
  validate_review_availability sha256 nfc json_pointer registry repository proposal_namespace decision_ref (db_decision_head binding)
    (Published binding);;
  let ids := from_key_and_attempt sha256 (cf_project_key config) expected_attempt in
  base ← load (db_decision_head binding) Commit;
  base_snapshot ← value_string base (lit "snapshot");
  published ← read_published_proposal repository binding ids base_snapshot;
  '(policy, grant, application_context_blob) ← read_published_context repository binding ids published;
  check_published_activity repository ids published grant application_context_blob;;
  authority ← map_err recovery_error
    (verify_protected_authority sha256 nfc json_pointer registry config repository base_snapshot ids policy grant decision_ref
       proposal_namespace);
  proposed_manifest ← read_site_manifest sha256 nfc to_lowercase json_pointer registry repository (pu_site published) default_artifact_limits;
  let proposed_digest := artifact_manifest_sha256 sha256 proposed_manifest in
  reject_if (negb (str_eqb proposed_digest expected_manifest_sha256)) WfRecoveryMismatch;;
  base_tree ← load base_snapshot Tree;
  base_site ← direct_entry base_tree (lit "site") Tree;
  base_manifest ← read_site_manifest sha256 nfc to_lowercase json_pointer registry repository base_site default_artifact_limits;
  context_bytes ← map_err (fun _ => WfRecoveryMismatch)
    (read_verified_blob_limited sha256 (Repository.objects repository) application_context_blob DEFAULT_MAX_STRUCTURED_BYTES);
  context_bytes ← ok_or context_bytes WfRecoveryMismatch;
  canonical ← of_canonical (canonical_review_context nfc context_bytes);
  reject_if (negb (str_eqb canonical context_bytes)) WfRecoveryMismatch;;
  Ok ({| pd_selector := project_selector sha256 config; pd_repository_path := cf_repository config; pd_ids := ids;
         pd_proposal_ref := db_proposal_ref_name binding; pd_decision_ref := decision_ref; pd_base_head := db_decision_head binding;
         pd_proposal_head := db_proposal_head binding; pd_base_snapshot := base_snapshot; pd_proposal_snapshot := pu_snapshot published;
         pd_base_manifest_sha256 := artifact_manifest_sha256 sha256 base_manifest; pd_recorded_at := pu_recorded_at published;
         pd_context_oid := pu_context_oid published; pd_activity_oid := pu_activity_oid published;
         pd_receipt := {| pr_artifact_manifest_sha256 := proposed_digest; pr_review_context_sha256 := sha256_hex sha256 context_bytes;
                          pr_source_attribution := CallerSuppliedAiAttributed |} |}, authority).

Definition install_recovered_pending (i : Z) (data : ArtifactProposalData) (authority : ArtifactAuthorityOids)
    (binding : DurableProposalBinding) : Flow Disks PendingArtifactProposal :=
  application ← new_application i data;
  '(application, human_profile) ← on_application application (
    call_application data (fun _ => grant_project_access (pd_selector data) (id_human (pd_ids data)));;
    human_profile ← call_application data (fun i => register_human_profile i (human_profile_config data authority));
    call_application data (fun i => verify_recovered_human_decision_binding i human_profile binding);;
    mret human_profile);
  mret {| pa_application := application; pa_human_profile := human_profile; pa_admission := Recovered; pa_data := data;
          pa_state := Ready |}.

Definition derive_published_artifact_proposal (config : TrustedArtifactProjectConfig) (binding : DurableProposalBinding)
    (expected_manifest_sha256 : str) (i : Z) : Flow Disks PendingArtifactProposal :=
  let expected_attempt := artifact_attempt_id sha256 (cf_project_key config) (db_decision_head binding) in
  answer (reject_if (negb (config_valid config)) WfInvalidArgument);;
  answer (validate_digest_text expected_manifest_sha256);;
  answer (reject_if (negb (str_eqb (db_project binding) (project_selector sha256 config)) ||
                     negb (str_eqb (db_decision_ref_name binding) (decision_ref_of (cf_project_key config)))) WfRecoveryMismatch);;
  answer (reject_if (negb (str_eqb (db_proposal_ref_name binding)
                                   (proposal_namespace_of (cf_project_key config) ++ lit "/" ++ expected_attempt))) WfRecoveryMismatch);;
  open_repository (cf_repository config);;
  '(data, authority) ← reading_at (cf_repository config)
                         (read_published config binding expected_manifest_sha256 expected_attempt);
  install_recovered_pending i data authority binding.

Definition recover_published_artifact_proposal (config : TrustedArtifactProjectConfig) (binding : DurableProposalBinding)
    (expected_proposal_manifest_sha256 : str) (i : Z) : Flow Disks PendingArtifactProposal :=
  derive_published_artifact_proposal config binding expected_proposal_manifest_sha256 i.

(** ** Decisions *)

(** What an operation on a pending proposal works on. *)
Record Desk := { dk_disks : Disks; dk_approvals : ApprovalState; dk_pending : PendingArtifactProposal }.

Definition set_pending (pending : PendingArtifactProposal) (desk : Desk) : Desk :=
  {| dk_disks := dk_disks desk; dk_approvals := dk_approvals desk; dk_pending := pending |}.

(** A computation on the repositories. *)
Definition at_disks {A} (m : Flow Disks A) : Flow Desk A := fun desk =>
  let '(disks, a) := m (dk_disks desk) in
  ({| dk_disks := disks; dk_approvals := dk_approvals desk; dk_pending := dk_pending desk |}, a).

(** A call of the application of the pending proposal, which keeps what the call does. *)
Definition call_pending {A} (c : Z -> prog FileObjectStore A) : Flow Desk A := fun desk =>
  let pending := dk_pending desk in
  let '((disks, application), a) := call_application (pa_data pending) c (dk_disks desk, pa_application pending) in
  ({| dk_disks := disks; dk_approvals := dk_approvals desk; dk_pending := set_application application pending |}, a).

(** The call of [claim_artifact_decision] on the registry of the given number. *)
Definition claim_approval (registry_instance : Z) (credential : Authentication) (approval : ArtifactDecisionApproval)
    (options : ArtifactDecisionOptions) (now : option Z) : Flow Desk unit := fun desk =>
  let pending := dk_pending desk in
  let '(approvals, a) :=
    claim_artifact_decision sha256 registry_instance credential approval (durable_binding (pa_data pending)) (pa_state pending)
      options now (dk_approvals desk) in
  ({| dk_disks := dk_disks desk; dk_approvals := approvals; dk_pending := pending |}, map_err WfApproval a).

Definition selected_by {A} (disposition : ArtifactDisposition) (proposal base : A) : A :=
  match disposition with
  | AdoptedUnchanged => proposal
  | ArtifactRejected | ArtifactDeferred => base
  end.

(** The feedback and the Commit of the Decision. *)
Definition decision_objects (data : ArtifactProposalData) (disposition : ArtifactDisposition) (rationale : str)
  : Flow Disks (str * str) :=
  let path := pd_repository_path data in
  let ids := pd_ids data in
  open_repository path;;
  feedback_oid ← put_json path
    (feedback_record nfc to_vec (id_feedback ids) (id_human ids) (id_subject ids) (pd_proposal_head data) disposition rationale
       (pd_recorded_at data));
  new_decision_head ← put_json path
    (commit nfc to_vec (lit "decision") [pd_base_head data]
       (selected_by disposition (pd_proposal_snapshot data) (pd_base_snapshot data)) [feedback_oid] (id_human ids)
       (pd_recorded_at data) (lit "Human reviewed generic artifact Proposal"));
  mret (feedback_oid, new_decision_head).

(** [register_human_decision] or its form for a recovered proposal. *)
Definition register_decision (pending : PendingArtifactProposal) (candidate : HumanDecisionCandidate) (i : Z)
  : prog FileObjectStore Handle :=
  match pa_admission pending with
  | SameProcess admitted => register_human_decision i (pa_human_profile pending) admitted candidate
  | Recovered => register_recovered_human_decision i (pa_human_profile pending) (durable_binding (pa_data pending)) candidate
  end.

Definition pending_state (state : PendingArtifactState) : Flow Desk unit := fun desk =>
  (set_pending (set_state state (dk_pending desk)) desk, Ok tt).

Definition prepare_artifact_decision (registry_instance : Z) (credential : Authentication) (approval : ArtifactDecisionApproval)
    (options : ArtifactDecisionOptions) (claim_now permit_now : option Z) : Flow Desk PreparedArtifactDecision := fun desk =>
  let data := pa_data (dk_pending desk) in
  let human_profile := pa_human_profile (dk_pending desk) in
  let pending := dk_pending desk in
  let rationale := default (default_rationale (disposition options)) (private_rationale options) in
  (claim_approval registry_instance credential approval options claim_now;;
   call_pending (fun i => verify_recovered_human_decision_binding i human_profile (durable_binding data));;
   answer (reject_if (negb (approval_value_ok rationale)) WfInvalidArgument);;
   '(feedback_oid, new_decision_head) ← at_disks (decision_objects data (disposition options) rationale);
   let candidate := {| cd_new_head := new_decision_head; cd_decision_feedback_oid := feedback_oid;
                       cd_message := Some (lit "generic artifact Human Decision") |} in
   registration ← call_pending (register_decision pending candidate);
   permit ← call_pending (fun i =>
     prepare_human_decision i PERMIT_TTL_NANOS (artifact_authenticate (pd_ids data) HUMAN_CREDENTIAL) (pd_selector data) registration
       permit_now);
   pending_state Deciding;;
   mret {| px_permit := permit; px_binding := durable_binding data; px_new_decision_head := new_decision_head;
           px_feedback_oid := feedback_oid; px_disposition := disposition options;
           px_selected_snapshot_oid := selected_by (disposition options) (pd_proposal_snapshot data) (pd_base_snapshot data);
           px_reviewed_manifest_sha256 :=
             selected_by (disposition options) (pr_artifact_manifest_sha256 (pd_receipt data)) (pd_base_manifest_sha256 data) |}) desk.

(** The receipt of the Decision is that of the prepared one. *)
Definition decision_matches (data : ArtifactProposalData) (prepared : PreparedArtifactDecision) (receipt : HumanDecisionReceipt) : bool :=
  str_eqb (ref_name (rc_reflog receipt)) (pd_decision_ref data) &&
  bool_decide (old_head (rc_reflog receipt) = Some (pd_base_head data)) &&
  str_eqb (new_head (rc_reflog receipt)) (px_new_decision_head prepared) &&
  str_eqb (rc_proposal_commit_oid receipt) (pd_proposal_head data) &&
  str_eqb (rc_decision_feedback_oid receipt) (px_feedback_oid prepared).

(** After an error the outcome is unknown. *)
Definition or_unknown {A} (m : Flow Desk A) : Flow Desk A := fun desk =>
  match m desk with
  | (desk, Ok a) => (desk, Ok a)
  | (desk, Err e) => (set_pending (set_state DecisionOutcomeUnknown (dk_pending desk)) desk, Err e)
  end.

Definition publish_prepared_artifact_decision (prepared : PreparedArtifactDecision) (first second now transaction_now : option Z)
  : Flow Desk ArtifactDecisionPublication := fun desk =>
  let data := pa_data (dk_pending desk) in
  let state := pa_state (dk_pending desk) in
  (or_unknown (
     answer (reject_if (negb (bool_decide (state = Deciding)) || negb (bool_decide (durable_binding data = px_binding prepared)))
               WfDecisionUnavailable);;
     receipt ← call_pending (fun i =>
       publish_human_decision nfc json_pointer registry i (artifact_authenticate (pd_ids data) HUMAN_CREDENTIAL) first second now
         transaction_now (px_permit prepared));
     answer (reject_if (negb (decision_matches data prepared receipt)) WfIntegrity));;
   pending_state Consumed;;
   mret {| dp_receipt := {| dr_disposition := px_disposition prepared;
                            dr_reviewed_artifact_manifest_sha256 := px_reviewed_manifest_sha256 prepared |};
           dp_binding := px_binding prepared; dp_new_decision_head := px_new_decision_head prepared;
           dp_feedback_oid := px_feedback_oid prepared; dp_selected_snapshot_oid := px_selected_snapshot_oid prepared |}) desk.

Definition decide_artifact_proposal (registry_instance : Z) (credential : Authentication) (approval : ArtifactDecisionApproval)
    (options : ArtifactDecisionOptions) (claim_now permit_now first second now transaction_now : option Z)
  : Flow Desk ArtifactDecisionReceipt :=
  prepared ← prepare_artifact_decision registry_instance credential approval options claim_now permit_now;
  publication ← publish_prepared_artifact_decision prepared first second now transaction_now;
  mret (dp_receipt publication).
End Workflow.
