(* ===== verification/WorkflowFacts.v ===== *)
(** * The artifact workflow: what its operations change

    [changes] says how a computation may change the repository of one path; the operations of
    Workflow are composed from computations that only add objects, and from calls of the private
    application, whose programs change nothing except where they publish ([answers_with]).  The
    Trees and Blobs that they store are those of the files they are given ([site_tree]). *)

From Stdlib Require Import ZArith Lia.
From stdpp Require Import base list numbers strings gmap sets.
From S2P Require Import RepairProps.
From S2P Require Import Prelude Bytes Sorting Text BTree RefStore RefStoreProps Canonical Timestamp Oid SchemaSemantics Registry.
From S2P Require Import ObjectStore FileStore FileStoreProps Inventory Closure Repository Policy Authorization BindingFacts AuthorizationProps.
From S2P Require Import HumanDecision HumanDecisionProps AppState AppPrograms TextFacts.
From S2P Require Import Artifact ArtifactProps Checkout Approval WorkflowRecords WorkflowChecks Workflow.

#[local] Open Scope Z_scope.

Abbreviation FileRepository := (Repository FileObjectStore).

(** ** Changes of one repository *)

(** A computation on a state [S] with repositories [get] leaves the other paths, and changes the
    repository of the path by [R], which may depend on the answer. *)
Definition changes {S A : Type} (get : S -> Disks) (path : str) (R : FileRepository -> FileRepository -> wresult A -> Prop) (m : Flow S A) : Prop :=
  forall s, let '(s', a) := m s in
    (forall other, other <> path -> get s' !! other = get s !! other) /\
    R (repository_at path (get s)) (repository_at path (get s')) a.

(** The changes of [m] that do not depend on the answer. *)
Definition keeps {S A : Type} (get : S -> Disks) (path : str) (R : relation FileRepository) (m : Flow S A) : Prop :=
  changes get path (fun r r' _ => R r r') m.

Section Changes.
Context {S : Type} (get : S -> Disks) (path : str).
Context (R : relation FileRepository) `{!PreOrder R}.

Lemma changes_bind {A B} (m : Flow S A) (k : A -> Flow S B) (Q : FileRepository -> FileRepository -> wresult B -> Prop) :
  keeps get path R m -> (forall a, changes get path Q (k a)) ->
  (forall r r1 r2 b, R r r1 -> Q r1 r2 b -> Q r r2 b) -> (forall r r' e, R r r' -> Q r r' (Err e)) ->
  changes get path Q (m ≫= k).
Proof.
  intros Hm Hk Htrans Herr s. specialize (Hm s). unfold mbind, flow_bind. destruct (m s) as [s1 [a|e]], Hm as [Ho HR]; cbn in *.
  - specialize (Hk a s1). destruct (k a s1) as [s2 b], Hk as [Ho2 HQ]. split; [|by eapply Htrans].
    intros other Hne. by rewrite Ho2, Ho.
  - split; [done|]. by apply Herr.
Qed.

Lemma keeps_bind {A B} (m : Flow S A) (k : A -> Flow S B) : keeps get path R m -> (forall a, keeps get path R (k a)) -> keeps get path R (m ≫= k).
Proof. intros Hm Hk. eapply changes_bind; [done|done|intros *; by transitivity r1|done]. Qed.

(** The change comes first: nothing follows that changes anything. *)
Lemma changes_then {A B} (m : Flow S A) (k : A -> Flow S B) (Q : FileRepository -> FileRepository -> wresult A -> Prop)
    (Q' : FileRepository -> FileRepository -> wresult B -> Prop) :
  changes get path Q m -> (forall r r' e, Q r r' (Err e) -> Q' r r' (Err e)) ->
  (forall a, changes get path (fun r r' b => r' = r /\ forall r0, Q r0 r (Ok a) -> Q' r0 r' b) (k a)) -> changes get path Q' (m ≫= k).
Proof.
  intros Hm Herr Hk s. specialize (Hm s). unfold mbind, flow_bind. destruct (m s) as [s1 [a|e]], Hm as [Ho HQ]; cbn in *; [|by auto].
  specialize (Hk a s1). destruct (k a s1) as [s2 b], Hk as [Ho2 [E HQ2]]. split; [|by apply HQ2].
  intros other Hne. by rewrite Ho2, Ho.
Qed.

Lemma keeps_answer {A} (r : wresult A) : keeps get path R (answer r).
Proof. intros s. by split. Qed.

Lemma keeps_ret {A} (a : A) : keeps get path R (mret a).
Proof. intros s. by split. Qed.

Lemma keeps_changes {A} (m : Flow S A) : (forall s, (m s).1 = s) -> keeps get path R m.
Proof. intros Hm s. specialize (Hm s). destruct (m s) as [s' a]. cbn in Hm. subst. by split. Qed.
End Changes.

Lemma repository_at_insert path r disks : repository_at path (<[path := r]> disks) = r.
Proof. unfold repository_at. by rewrite lookup_insert_eq. Qed.

Section Disks.
Context (path : str) (R : relation FileRepository) `{!PreOrder R}.

Lemma changes_on_repository {A : Type} (f : FileRepository -> FileRepository * wresult A) Q :
  (forall r, Q r (f r).1 (f r).2) -> changes Datatypes.id path Q (on_repository path f).
Proof.
  intros Hf disks. unfold on_repository. specialize (Hf (repository_at path disks)). destruct (f _) as [r a]. cbn in *.
  rewrite repository_at_insert. split; [|done]. intros other Hne. by apply lookup_insert_ne.
Qed.

Lemma keeps_open : keeps Datatypes.id path R (open_repository path).
Proof. intros disks. cbn. rewrite repository_at_insert. split; [|done]. intros other Hne. by apply lookup_insert_ne. Qed.

Lemma keeps_reading {A} (f : FileRepository -> wresult A) : keeps Datatypes.id path R (reading_at path f).
Proof. by apply keeps_changes. Qed.
End Disks.

(** ** Added objects *)

Section Grows.
Variable sha256 : list byte -> list byte.
Variable nfc : list char -> list char.

(** The repository has the same Refs and limits, and its objects and perhaps more. *)
Definition grows (r r' : FileRepository) : Prop :=
  r' = set_store r (Repository.objects r') /\ rtc (store_step sha256 nfc) (Repository.objects r) (Repository.objects r').

#[export] Instance grows_preorder : PreOrder grows.
Proof.
  split; [intros r; split; [by destruct r|done]|]. intros r1 r2 r3 [E1 H1] [E2 H2]. split; [|by etransitivity].
  rewrite E2, E1. done.
Qed.

Lemma grows_refs r r' : grows r r' -> Repository.refs r' = Repository.refs r.
Proof. intros [-> _]. done. Qed.

Lemma grows_objects r r' oid object : grows r r' -> file_get_verified sha256 nfc (Repository.objects r) oid = Ok (Some object) ->
  file_get_verified sha256 nfc (Repository.objects r') oid = Ok (Some object).
Proof. intros [_ Hs]. induction Hs as [|s s1 s2 Hstep _ IH]; [done|]. intros H. by eapply IH, store_step_preserves. Qed.

Lemma stored_grows r put r' result : stored r put = Ok (r', result) ->
  (forall store, put = Ok (store, result) -> store_step sha256 nfc (Repository.objects r) store) -> grows r r'.
Proof.
  unfold stored, of_store. destruct put as [[store result']|e]; [|done]. cbn. intros [= <- ->] Hput. split; [done|]. by apply rtc_once, Hput.
Qed.
End Grows.

(** ** The objects of the workflow *)

Section Objects.
Variable sha256 : list byte -> list byte.
Variable nfc : list char -> list char.
Variable to_lowercase : char -> list char.
Variable json_pointer : Json -> str -> option (list nat).
Variable registry : SchemaRegistry.
Variable to_vec : Value -> list byte.

Abbreviation growth := (grows sha256 nfc).

Lemma put_object_grows r input r' put : put_object sha256 nfc json_pointer registry r input = Ok (r', put) -> growth r r'.
Proof.
  unfold put_object. intros H. result_inv. eapply stored_grows; [done|]. intros store Hput. by eapply step_put_verified_raw.
Qed.

Lemma repo_put_blob_grows r reads r' put : repo_put_blob sha256 r reads = Ok (r', put) -> growth r r'.
Proof. unfold repo_put_blob. intros H. result_inv. eapply stored_grows; [done|]. intros store Hput. by eapply step_put_blob. Qed.

Lemma repo_step_grows {A} r put r' (a : aresult A) : repo_step r put = (r', a) -> (forall r1 x, put = Ok (r1, x) -> growth r r1) -> growth r r'.
Proof. unfold repo_step. destruct put as [[r1 x]|e]; intros [= <- <-] Hp; [by eapply Hp|done]. Qed.

Lemma store_files_grows files : forall r root mapped, growth r (store_files sha256 files r root mapped).1.
Proof.
  induction files as [|[p bytes] files IH]; intros r root mapped; cbn [store_files]; [done|].
  destruct (repo_step _ _) as [r1 a] eqn:E. apply repo_step_grows in E; [|intros *; apply repo_put_blob_grows].
  destruct a as [put|e]; [|done]. by rewrite <- IH.
Qed.

Fixpoint store_directory_grows (node : DirectoryNode) r : growth r (store_directory sha256 nfc json_pointer registry to_vec node r).1.
Proof.
  destruct node as [blobs directories]. cbn [store_directory].
  match goal with |- context [?go directories r ?es] => assert (forall entries r, growth r (go directories r entries).1) as Hgo end.
  { induction directories as [|[name directory] directories IH]; intros entries r'; [done|]. cbn.
    pose proof (store_directory_grows directory r') as Hd. destruct (store_directory _ _ _ _ _ _ _) as [r1 [oid|e]]; cbn in Hd; [|done].
    etransitivity; [exact Hd|apply IH]. }
  match goal with |- context [let '(_, _) := ?x in _] => pose proof (Hgo (blob_entries blobs []) r) as Hx; destruct x as [r1 [entries|e]] end; [|done].
  destruct (repo_step _ _) as [r2 a] eqn:E. apply repo_step_grows in E; [|intros r3 x; apply put_object_grows].
  assert (growth r r2) by (etransitivity; [exact Hx|exact E]). by destruct a.
Qed.

Lemma map_regular_files_grows r manifest : growth r (map_regular_files sha256 nfc json_pointer registry to_vec r manifest).1.
Proof.
  unfold map_regular_files. pose proof (store_files_grows (mf_files manifest) r empty_directory []) as Hf.
  destruct (store_files _ _ _ _ _) as [r1 [[root mapped]|e]]; cbn in Hf; [|done].
  pose proof (store_directory_grows root r1) as Hd. destruct (store_directory _ _ _ _ _ _ _) as [r2 [oid|e]]; cbn in *; by etransitivity.
Qed.

Abbreviation adds path := (keeps Datatypes.id path growth).

Lemma put_json_adds path value : adds path (put_json sha256 nfc json_pointer registry to_vec path value).
Proof.
  apply keeps_bind; [apply _|apply keeps_answer, _|]. intros v. apply changes_on_repository. intros r.
  destruct (put_object _ _ _ _ _ _) as [[r' put]|e] eqn:E; [|done]. by eapply put_object_grows.
Qed.

Lemma put_bytes_adds path bytes : adds path (put_bytes sha256 path bytes).
Proof.
  apply changes_on_repository. intros r. destruct (repo_put_blob _ _ _) as [[r' put]|e] eqn:E; [|done]. by eapply repo_put_blob_grows.
Qed.

Lemma map_files_adds path manifest : adds path (map_files sha256 nfc json_pointer registry to_vec path manifest).
Proof.
  apply changes_on_repository. intros r. pose proof (map_regular_files_grows r manifest) as H. by destruct (map_regular_files _ _ _ _ _ _ _) as [r' a].
Qed.
End Objects.

(** ** Programs that run alone *)

Section Programs.
Context {S : Type}.
Implicit Types app : App S.

Lemma run_alone_and_then {A B} (k : ares A -> prog S B) : forall c app,
  run_alone (and_then c k) app = match run_alone c app with Some (app, r) => run_alone (k r) app | None => None end.
Proof.
  fix IH 1. intros [r|f] app; [done|]. cbn. destruct (f app) as [[[app' events] c]|]; [apply IH|done].
Qed.

(** On an application with one project, a program leaves the project and changes its repository
    by [Q], which depends on the answer. *)
Definition answers_with {A} (project : str) (Q : Repository S -> Repository S -> ares A -> Prop) (c : prog S A) : Prop :=
  forall app app' r slot, (forall other, is_Some (slots app !! other) -> other = project) -> slots app !! project = Some slot ->
    run_alone c app = Some (app', r) ->
    (forall other, is_Some (slots app' !! other) -> other = project) /\
    exists slot', slots app' !! project = Some slot' /\ Q (repository slot) (repository slot') r.

(** It changes nothing. *)
Abbreviation unchanged := (fun r r' (_ : ares _) => r' = r).

Context (project : str).

Lemma answers_done {A} (Q : Repository S -> Repository S -> ares A -> Prop) r : (forall repo, Q repo repo r) -> answers_with project Q (Done r).
Proof. intros HQ app app' r' slot Hone Hs [= <- <-]. split; [done|]. by exists slot. Qed.

(** A block that keeps the repositories, then a continuation. *)
Lemma answers_act {A} (Q : Repository S -> Repository S -> ares A -> Prop) f :
  (forall app app' events c, f app = Some (app', events, c) ->
     (forall other, repository <$> slots app' !! other = repository <$> slots app !! other) /\ answers_with project Q c) ->
  answers_with project Q (Act f).
Proof.
  intros Hf app app' r slot Hone Hs. cbn. destruct (f app) as [[[app1 events] c]|] eqn:E; [|done]. intros Hrun.
  destruct (Hf _ _ _ _ E) as [Hsame Hc]. pose proof (Hsame project) as Hp. rewrite Hs in Hp.
  destruct (slots app1 !! project) as [slot1|] eqn:Hs1; [|done]. cbn in Hp. injection Hp as Hp.
  destruct (Hc app1 app' r slot1) as [Hone' (slot' & Hs' & HQ)]; [|done|done|].
  - intros other [s Ho]. apply Hone. specialize (Hsame other). rewrite Ho in Hsame. destruct (slots app !! other); [by eexists|done].
  - split; [done|]. exists slot'. split; [done|]. by rewrite <- Hp.
Qed.

Lemma answers_try {X A} (Q : Repository S -> Repository S -> ares A -> Prop) (r : ares X) k :
  (forall repo e, Q repo repo (Err e)) -> (forall x, r = Ok x -> answers_with project Q (k x)) -> answers_with project Q (try r k).
Proof. intros HQ Hk. destruct r as [x|e]; [by apply Hk|]. by apply answers_done. Qed.

Lemma answers_ensure {A} (Q : Repository S -> Repository S -> ares A -> Prop) (b : bool) e c :
  (forall repo e, Q repo repo (Err e)) -> (b = true -> answers_with project Q c) -> answers_with project Q (ensure b else e; c).
Proof. intros HQ Hc. destruct b; [by apply Hc|]. by apply answers_done. Qed.

Lemma answers_locked {X A} (Q : Repository S -> Repository S -> ares A -> Prop) (f : SecurityState -> ares (SecurityState * X)) events k :
  (forall repo e, Q repo repo (Err e)) -> (forall x, answers_with project Q (k x)) -> answers_with project Q (locked f events k).
Proof.
  intros HQ Hk. apply answers_act. intros app app' ev c. destruct (f _) as [[s x]|e]; intros [= <- <- <-]; (split; [done|]); [done|].
  by apply answers_done.
Qed.

Lemma answers_reading {X A} (Q : Repository S -> Repository S -> ares A -> Prop) (f : SecurityState -> ares X) k :
  (forall repo e, Q repo repo (Err e)) -> (forall x, answers_with project Q (k x)) -> answers_with project Q (reading f k).
Proof. intros HQ Hk. apply answers_act. intros app app' ev c [= <- <- <-]. split; [done|]. by apply answers_try. Qed.

Lemma answers_find_slot {A} (Q : Repository S -> Repository S -> ares A -> Prop) other e c :
  (forall repo e, Q repo repo (Err e)) -> answers_with project Q c -> answers_with project Q (find_slot other e c).
Proof. intros HQ Hc. apply answers_act. intros app app' ev c' [= <- <- <-]. split; [done|]. case_bool_decide; [done|]. by apply answers_done. Qed.

(** A slot whose repository stays. *)
Lemma set_slot_repository other slot slot' app p : slots app !! other = Some slot -> repository slot' = repository slot ->
  repository <$> slots (set_slot other slot' app) !! p = repository <$> slots app !! p.
Proof. intros Hs E. cbn. destruct (decide (other = p)) as [->|Hne]; [rewrite lookup_insert_eq, Hs; cbn; by rewrite E|by rewrite lookup_insert_ne]. Qed.

Lemma answers_reading_repository {X A} (Q : Repository S -> Repository S -> ares A -> Prop) other (f : Repository S -> ares X) k :
  (forall repo e, Q repo repo (Err e)) -> (forall x, answers_with project Q (k x)) -> answers_with project Q (reading_repository other f k).
Proof.
  intros HQ Hk. apply answers_act. intros app app' ev c. destruct (slots app !! other) as [slot|] eqn:Hs; [|done]. cbn.
  destruct (f _) as [x|e]; intros [= <- <- <-]; (split; [intros p; by eapply (set_slot_repository other slot)|]); [done|].
  by apply answers_done.
Qed.

(** The block that publishes. *)
Lemma answers_in_repository {X A} (Q : Repository S -> Repository S -> ares A -> Prop) other (f : Repository S -> Repository S * ares X) events g :
  (forall repo repo' r, f repo = (repo', r) -> Q repo repo' (r ≫= fun x => Ok (g x))) ->
  answers_with project Q (in_repository other f events (fun x => Done (Ok (g x)))).
Proof.
  intros HQ app app' r slot Hone Hs. cbn. destruct (slots app !! other) as [slot1|] eqn:Ho; [|done]. cbn.
  assert (other = project) as -> by (apply Hone; by eexists). assert (slot1 = slot) as -> by congruence.
  destruct (f (repository slot)) as [repo a] eqn:Ef. specialize (HQ _ _ _ Ef).
  destruct a as [x|e]; intros [= <- <-]; cbn; (split; [intros other [s Hl]; destruct (decide (other = project)); [done|]; apply Hone; rewrite lookup_insert_ne in Hl by done; by eexists|]);
    eexists; (split; [by rewrite lookup_insert_eq|done]).
Qed.

Lemma answers_enter_gate {A} (Q : Repository S -> Repository S -> ares A -> Prop) other e body :
  (forall repo e, Q repo repo (Err e)) -> answers_with project Q body -> answers_with project Q (enter_gate other e body).
Proof.
  intros HQ Hb. apply answers_act. intros app app' ev c. destruct (slots app !! other) as [slot|] eqn:Hs; [|intros [= <- <- <-]; split; [done|]; by apply answers_done]. cbn.
  destruct (usize_checked_add _ _) as [next|]; intros [= <- <- <-]; [|split; [done|]; by apply answers_done].
  split; [intros p; by eapply (set_slot_repository other slot)|].
  generalize (next_ticket (publication_gate slot)) as ticket. intros ticket. clear app slot next Hs.
  apply answers_act. intros app app' ev c. destruct (slots app !! other) as [slot|] eqn:Hs; [|done]. cbn.
  destruct (_ || _); [done|]. intros [= <- <- <-]. split; [intros p; by eapply (set_slot_repository other slot)|]. clear app slot Hs.
  intros app app' r slot Hone Hs. rewrite run_alone_and_then. destruct (run_alone body app) as [[app1 r1]|] eqn:E; [|done].
  destruct (Hb _ _ _ _ Hone Hs E) as [Hone1 (slot1 & Hs1 & HQ1)]. cbn. destruct (slots app1 !! other) as [slot2|] eqn:Ho; [|done]. cbn.
  assert (other = project) as -> by (apply Hone1; by eexists). assert (slot2 = slot1) as -> by congruence.
  destruct (usize_checked_add _ _) as [n|]; [|done]. cbn. intros [= <- <-]. cbn. split.
  - intros p [s Hl]. destruct (decide (p = project)); [done|]. apply Hone1. rewrite lookup_insert_ne in Hl by done. by eexists.
  - eexists. split; [by rewrite lookup_insert_eq|done].
Qed.
End Programs.

(** ** Publications *)

(** One Ref moves, as the entry says, and nothing else changes. *)
Definition ref_moved {S} (r r' : Repository S) (entry : ReflogEntry) : Prop :=
  heads (RefStore.tables (Repository.refs r)) !! ref_name entry = old_head entry /\
  heads (RefStore.tables (Repository.refs r')) = <[ref_name entry := new_head entry]> (heads (RefStore.tables (Repository.refs r))) /\
  t_events (RefStore.tables (Repository.refs r')) = t_events (RefStore.tables (Repository.refs r)) ++ [entry] /\
  r' = set_refs r (Repository.refs r').

Lemma cas_transaction_shape update ps guard t r : cas_transaction update ps guard t = Ok r ->
  Forall (precondition_holds t) ps /\ query_head t (u_ref_name update) = u_expected_head update /\
  r = (cas_tables update t, cas_entry update t).
Proof.
  unfold cas_transaction. intros H. apply bind_Ok in H as (u & _ & H). apply bind_Ok in H as (u' & Hp & H).
  apply check_preconditions_Ok in Hp. split; [done|]. cbv zeta in H. case_bool_decide as Eh; [|done]. cbn [negb reject_if mbind result_bind] in H.
  split; [done|]. apply bind_Ok in H as ([t1 i] & Hi & H). unfold insert_event in Hi. destruct (_ >=? _); [done|]. injection Hi as <- <-.
  apply bind_Ok in H as ([t2 n] & H2 & H). destruct (n =? 1) eqn:En; [|done]. cbn in H. injection H as <-. apply Z.eqb_eq in En as ->.
  unfold cas_entry. rewrite <- Eh. f_equal. destruct (u_expected_head update) as [expected|] eqn:Eu.
  - unfold update_ref in H2. destruct (t_refs _ !! _) as [[h i]|]; [|done]. destruct (negb _); [done|]. destruct (_ && _); [|done].
    injection H2 as <-. unfold cas_tables, cas_entry. by rewrite Eu, <- Eh.
  - unfold insert_or_ignore_ref in H2. destruct (t_refs _ !! _) as [|]; [done|]. destruct (negb _); [done|]. destruct (has_event _ _); [|done].
    injection H2 as <-. unfold cas_tables, cas_entry. by rewrite Eu, <- Eh.
Qed.

Lemma cas_moved {S} (r r' : Repository S) update ps validator guard entry :
  compare_and_swap_with_preconditions_and_guard update ps validator guard (Repository.refs r) = (Repository.refs r', Ok entry) ->
  r' = set_refs r (Repository.refs r') ->
  ref_moved r r' entry /\ Forall (precondition_holds (RefStore.tables (Repository.refs r))) ps /\
  ref_name entry = u_ref_name update /\ old_head entry = u_expected_head update /\ new_head entry = u_new_head update /\
  actor entry = md_actor (u_metadata update).
Proof.
  intros (_ & _ & _ & _ & t & Ht & Es)%cas_Ok_inv Er. apply cas_transaction_shape in Ht as (Hps & Hh & [= -> ->]).
  split; [|done]. unfold ref_moved. rewrite Es, heads_lookup. split_and!; [done|apply heads_cas|done|by rewrite <- Es].
Qed.

(** ** The operations of the application *)

Section Operations.
Context {S : Type} `{BoundedObjectStore S}.
Variable nfc : list char -> list char.
Variable json_pointer : Json -> str -> option (list nat).
Variable registry : SchemaRegistry.
Variable i : Z.
Variable permit_ttl_nanos : Z.
Context (project : str).

Abbreviation unchanged := (fun r r' (_ : ares _) => r' = r).
Abbreviation harmless c := (answers_with (S := S) project unchanged c).

Ltac harmless :=
  intros;
  repeat first
    [ apply answers_enter_gate; [done|] | apply answers_locked; [done|]; intros ? | apply answers_reading; [done|]; intros ?
    | apply answers_reading_repository; [done|]; intros ? | apply answers_try; [done|]; intros ? ?
    | apply answers_ensure; [done|]; intros _ | apply answers_done; done
    | match goal with x : (_ * _)%type |- _ => destruct x end ].

Lemma grant_harmless p actor_id : harmless (grant_project_access p actor_id).
Proof. harmless. Qed.
Lemma register_profile_harmless config : harmless (register_authority_profile i config).
Proof. harmless. Qed.
Lemma register_human_harmless config : harmless (register_human_profile i config).
Proof. harmless. Qed.
Lemma register_execution_harmless handle : harmless (register_execution i handle).
Proof. harmless. Qed.
Lemma prepare_ai_harmless answer p execution now :
  harmless (prepare_ai nfc json_pointer registry i permit_ttl_nanos answer p execution now).
Proof. harmless. Qed.
Lemma verify_recovered_harmless handle binding : harmless (verify_recovered_human_decision_binding i handle binding).
Proof. harmless. Qed.
Lemma register_decision_harmless handle admitted candidate : harmless (register_human_decision i handle admitted candidate).
Proof. harmless. Qed.
Lemma register_recovered_harmless handle binding candidate : harmless (register_recovered_human_decision i handle binding candidate).
Proof. harmless. Qed.
Lemma prepare_human_harmless answer p handle now : harmless (prepare_human_decision i permit_ttl_nanos answer p handle now).
Proof. harmless. Qed.

(** A publication of the AI's proposal moves one Ref to the generated Commit, or nothing. *)
Definition ai_publishes (execute : AiExecutionContext -> option ExecutedAiProposal) (r r' : Repository S) (a : ares AiPublicationReceipt) : Prop :=
  match a with
  | Ok receipt =>
    ref_moved r r' (ad_reflog (ar_decision receipt)) /\
    exists context generated, execute context = Some generated /\ new_head (ad_reflog (ar_decision receipt)) = ex_new_head generated
  | Err _ => r' = r
  end.

Lemma publish_ai_moves permit profile generated checked now tnow r r' decision :
  publish_ai nfc json_pointer registry permit profile generated checked now tnow r = (r', decision) ->
  match decision with
  | Ok decision => ref_moved r r' (ad_reflog decision) /\ new_head (ad_reflog decision) = ex_new_head generated
  | Err _ => r' = r
  end.
Proof.
  unfold publish_ai. destruct (publish_preflighted _ _ _ _ _ _ _ _ _) as [r1 d] eqn:E. intros [= -> <-].
  destruct d as [d|e]; cbn; [|by eapply preflighted_Err].
  unfold publish_preflighted in E. destruct (require_preflight_authority_binding _ _) as [u|]; [|done].
  apply publish_Ok in E as (verifier & rs & update & _ & Hpr & _ & _ & Hcas & Er & _).
  apply (cas_moved r r') in Hcas as (Hmoved & _ & _ & _ & Hnew & _); [|done]. split; [done|]. rewrite Hnew. by destruct Hpr as [_ -> _ _ _ _].
Qed.

Lemma execute_and_publish_moves answer final first second now tnow execute permit :
  answers_with project (ai_publishes execute)
    (execute_and_publish_ai nfc json_pointer registry i answer final first second now tnow execute permit).
Proof.
  harmless. apply answers_find_slot; [done|]. harmless.
  match goal with H : ok_or (execute ?context) _ = Ok ?g |- _ => apply ok_or_Ok in H; rename g into generated, H into Hg end.
  apply answers_in_repository. intros r r' decision Hp. apply publish_ai_moves in Hp.
  destruct decision as [decision|e]; [|done]. destruct Hp as [Hm Hn]. split; [done|]. by eexists _, generated.
Qed.

(** A publication of a Decision moves the decision Ref while the proposal stands, or nothing. *)
Definition human_publishes (r r' : Repository S) (a : ares HumanDecisionReceipt) : Prop :=
  match a with
  | Ok receipt =>
    ref_moved r r' (rc_reflog receipt) /\
    exists proposal_ref, namespace proposal_ref = Some (lit "proposal") /\
      heads (RefStore.tables (Repository.refs r)) !! proposal_ref = Some (rc_proposal_commit_oid receipt)
  | Err _ => r' = r
  end.

Lemma publish_human_moves permit profile checked now tnow r r' receipt :
  publish_human nfc json_pointer registry permit profile checked now tnow r = (r', receipt) -> human_publishes r r' receipt.
Proof.
  unfold publish_human. destruct (publish_decision _ _ _ _ _ _ _ _) as [r1 d] eqn:E. intros [= -> <-].
  destruct d as [d|e]; cbn; [|by eapply publish_decision_Err]. pose proof E as E'.
  apply publish_decision_Ok in E as (Had & _ & verifier & at_ & Hcas & Er). destruct Had as [_ _ _ _ [Hn1 Hn2]].
  apply (cas_moved r r') in Hcas as (Hmoved & Hps & _); [|done]. split; [done|]. rewrite Forall_singleton in Hps.
  eexists. split; [exact Hn2|]. rewrite heads_lookup. etransitivity; [exact Hps|]. cbn. f_equal. clear -E'.
  unfold publish_decision in E'. destruct (authorize_decision _ _ _ _ _ _ _) as [[[v a] dd]|e]; [|done].
  destruct (compare_and_swap_with_preconditions_and_guard _ _ _ _ _) as [store entry]. injection E' as _ E'.
  apply bind_Ok in E' as (reflog & _ & [= <-]). done.
Qed.

Lemma publish_human_decision_moves answer first second now tnow permit :
  answers_with project human_publishes (publish_human_decision nfc json_pointer registry i answer first second now tnow permit).
Proof.
  harmless. apply answers_find_slot; [done|]. harmless.
  apply (answers_in_repository project human_publishes _ _ _ (fun receipt => receipt)). intros r r' receipt Hp.
  apply publish_human_moves in Hp. by destruct receipt.
Qed.
End Operations.

(** ** Calls of the private application *)

Section Calls.
Context (data : ArtifactProposalData).
Abbreviation path := (pd_repository_path data).
Abbreviation project := (pd_selector data).

(** What a call does, seen from the workflow: a call that waits for ever changes nothing. *)
Definition called {A} (Q : FileRepository -> FileRepository -> ares A -> Prop) (r r' : FileRepository) (a : wresult A) : Prop :=
  (exists b, a = map_err WfApplication b /\ Q r r' b) \/ (r' = r /\ exists e, a = Err e).

Lemma changes_call {A} (c : Z -> prog FileObjectStore A) Q :
  (forall i, answers_with project Q (c i)) -> changes fst path (called Q) (call_application data c).
Proof.
  intros Hc [disks application]. unfold call_application. destruct (run_alone _ _) as [[app a]|] eqn:E.
  - eapply Hc in E; cbn [application_state slots]; [|intros other [s Ho%lookup_singleton_Some]; by destruct Ho|by rewrite lookup_singleton_eq].
    destruct E as [_ (slot & -> & HQ)]. cbn in *. rewrite repository_at_insert. split; [intros other Hne; by apply lookup_insert_ne|].
    left. by exists a.
  - split; [done|]. right. split; [done|]. by eexists.
Qed.

Lemma keeps_call {A} (R : relation FileRepository) `{!PreOrder R} (c : Z -> prog FileObjectStore A) :
  (forall i, answers_with project (fun r r' _ => r' = r) (c i)) -> keeps fst path R (call_application data c).
Proof.
  intros Hc s. pose proof (changes_call c _ Hc s) as H. destruct (call_application data c s) as [s' a], H as [Ho HR]. split; [done|].
  by destruct HR as [(b & _ & ->)|[-> _]].
Qed.

Lemma changes_on_application {A : Type} (application : ArtifactApplication) (calls : Flow (Disks * ArtifactApplication) A)
    (Q : FileRepository -> FileRepository -> wresult A -> Prop) :
  changes fst path Q calls ->
  changes Datatypes.id path (fun r r' a => exists b, Q r r' b /\ match a with Ok (_, x) => b = Ok x | Err e => b = Err e end)
    (on_application application calls).
Proof.
  intros Hc disks. unfold on_application. specialize (Hc (disks, application)). destruct (calls _) as [[disks' application'] a], Hc as [Ho HQ].
  split; [done|]. exists a. split; [done|]. by destruct a.
Qed.

Lemma keeps_on_application {A : Type} (R : relation FileRepository) (application : ArtifactApplication) (calls : Flow (Disks * ArtifactApplication) A) :
  keeps fst path R calls -> keeps Datatypes.id path R (on_application application calls).
Proof.
  intros Hc disks. pose proof (changes_on_application application calls _ Hc disks) as H.
  destruct (on_application application calls disks) as [disks' a], H as [Ho (b & HR & _)]. by split.
Qed.
End Calls.

(** ** The answers of a computation *)

Definition answers_only {S A} (m : Flow S A) (P : A -> Prop) : Prop := forall s s' a, m s = (s', Ok a) -> P a.

Lemma flow_bind_Ok {S A B} (m : Flow S A) (k : A -> Flow S B) s s' b : (m ≫= k) s = (s', Ok b) ->
  exists s1 a, m s = (s1, Ok a) /\ k a s1 = (s', Ok b).
Proof. unfold mbind, flow_bind. destruct (m s) as [s1 [a|e]]; [|done]. intros H. by exists s1, a. Qed.

Lemma open_then {A : Type} path (k : unit -> Flow Disks A) disks :
  (open_repository path ≫= k) disks = k tt (<[path := repository_at path disks]> disks).
Proof. done. Qed.

Lemma answer_then {S A B} (r : wresult A) (k : A -> Flow S B) s s' b : (answer r ≫= k) s = (s', Ok b) ->
  exists a, r = Ok a /\ k a s = (s', Ok b).
Proof. unfold mbind, flow_bind, answer. destruct r as [a|e]; [|done]. intros H. by exists a. Qed.

Lemma reading_then {A B} path (f : FileRepository -> wresult A) (k : A -> Flow Disks B) disks disks' b :
  (reading_at path f ≫= k) disks = (disks', Ok b) -> exists a, f (repository_at path disks) = Ok a /\ k a disks = (disks', Ok b).
Proof. apply (answer_then (f (repository_at path disks))). Qed.

Lemma only_bind {S A B} (m : Flow S A) (k : A -> Flow S B) P : (forall a, answers_only (k a) P) -> answers_only (m ≫= k) P.
Proof. intros Hk s s' b (s1 & a & _ & H)%flow_bind_Ok. by eapply Hk. Qed.

Lemma only_ret {S A} (a : A) (P : A -> Prop) : P a -> answers_only (S := S) (mret a) P.
Proof. intros HP s s' b [= <- <-]. done. Qed.

Lemma keeps_bind_only {S A B : Type} (get : S -> Disks) path (R : relation FileRepository) `{!PreOrder R} (m : Flow S A) (k : A -> Flow S B) P :
  answers_only m P -> keeps get path R m -> (forall a, P a -> keeps get path R (k a)) -> keeps get path R (m ≫= k).
Proof.
  intros Ha Hm Hk s. specialize (Hm s). specialize (Ha s). unfold mbind, flow_bind. destruct (m s) as [s1 [a|e]], Hm as [Ho HR]; cbn in *; [|done].
  specialize (Hk a (Ha _ _ eq_refl) s1). destruct (k a s1) as [s2 b], Hk as [Ho2 HR2]. split; [|by etransitivity].
  intros other Hne. by rewrite Ho2, Ho.
Qed.

(** ** Preparing *)

Section Preparing.
Variable sha256 : list byte -> list byte.
Variable nfc : list char -> list char.
Variable to_lowercase : char -> list char.
Variable json_pointer : Json -> str -> option (list nat).
Variable registry : SchemaRegistry.
Variable to_vec : Value -> list byte.

Abbreviation growth := (grows sha256 nfc).
Abbreviation adds path := (keeps Datatypes.id path growth).

(** Computations put together from those that add objects. *)
Ltac adding :=
  intros;
  repeat first
    [ apply put_json_adds | apply put_bytes_adds | apply map_files_adds | apply keeps_open, _ | apply keeps_reading, _
    | apply keeps_answer, _ | apply keeps_ret, _ | apply keeps_bind; [apply _| |intros ?] ].

Lemma sequential_base_adds config accepted recovery expected :
  adds (cf_repository config) (sequential_base sha256 nfc to_lowercase json_pointer registry config accepted recovery expected).
Proof. unfold sequential_base. adding. by apply keeps_changes; [apply _|]. Qed.

Lemma initial_base_adds config accepted context :
  adds (cf_repository config) (initial_base sha256 nfc json_pointer registry to_vec config accepted context).
Proof. unfold initial_base, initial_snapshot. adding. Qed.

Lemma existing_base_adds config accepted context recovery head existing :
  adds (cf_repository config) (existing_base sha256 nfc json_pointer registry to_vec config accepted context recovery head existing).
Proof. unfold existing_base. adding. Qed.

Lemma proposal_objects_adds config accepted proposed context attribution base :
  adds (cf_repository config) (proposal_objects sha256 nfc json_pointer registry to_vec config accepted proposed context attribution base).
Proof. unfold proposal_objects, proposal_snapshot. adding. Qed.

Lemma new_application_adds (R : relation FileRepository) `{!PreOrder R} i data path : keeps Datatypes.id path R (new_application i data).
Proof. by apply keeps_changes. Qed.

Ltac calling :=
  repeat first
    [ apply keeps_answer, _ | apply keeps_ret, _ | apply keeps_bind; [apply _| |intros ?]
    | apply keeps_call; [apply _|]; intros ?; first
        [ apply grant_harmless | apply register_profile_harmless | apply register_human_harmless | apply register_execution_harmless
        | apply verify_recovered_harmless ] ].

Lemma install_prepared_adds (R : relation FileRepository) `{!PreOrder R} i data authority flag :
  keeps Datatypes.id (pd_repository_path data) R (install_prepared_application i data authority flag).
Proof.
  unfold install_prepared_application. apply keeps_bind; [apply _|apply new_application_adds, _|]. intros application.
  apply keeps_bind; [apply _|apply keeps_on_application; calling|]. intros [? [? ?]]. apply keeps_ret, _.
Qed.

Lemma install_recovered_adds (R : relation FileRepository) `{!PreOrder R} i data authority binding :
  keeps Datatypes.id (pd_repository_path data) R (install_recovered_pending i data authority binding).
Proof.
  unfold install_recovered_pending. apply keeps_bind; [apply _|apply new_application_adds, _|]. intros application.
  apply keeps_bind; [apply _|apply keeps_on_application; calling|]. intros [? ?]. apply keeps_ret, _.
Qed.

Lemma publish_staged_oid s staged oid kind n s' put : publish_staged s staged oid kind n = Ok (s', put) -> put_oid put = oid.
Proof. unfold publish_staged. intros H. apply bind_Ok in H as (u & _ & H). destruct (FileStore.objects s !! _) as [f|]; [destruct (negb _); [done|]|]; by injection H as _ <-. Qed.

Lemma put_verified_raw_oid s oid bytes s' put : put_verified_raw sha256 nfc s oid bytes = Ok (s', put) -> put_oid put = oid.
Proof.
  unfold put_verified_raw. intros H. apply bind_Ok in H as (u & _ & H). apply bind_Ok in H as (kind & _ & H). case_bool_decide as Ek.
  - unfold put_blob_claimed, put_blob_inner in H. apply bind_Ok in H as (u1 & _ & H). apply bind_Ok in H as (k & _ & H).
    apply bind_Ok in H as (u2 & _ & H). apply bind_Ok in H as ([[staged o] n] & Hs & ->%publish_staged_oid).
    unfold stage_blob in Hs. result_inv. destruct (negb _) eqn:Es in Hs; [done|]. apply negb_false_iff, str_eqb_eq in Es. congruence.
  - unfold put_structured_inner in H. apply bind_Ok in H as ([[staged o] n] & Hs & H). apply bind_Ok in H as (k & _ & ->%publish_staged_oid).
    unfold stage_structured in Hs. result_inv. destruct (negb (str_eqb _ _)) eqn:Es in Hs; [done|]. apply negb_false_iff, str_eqb_eq in Es. congruence.
Qed.

(** The identifier of a stored object is the one that the checks of a history generate. *)
Lemma put_object_generated r value r' put : put_object sha256 nfc json_pointer registry r (to_vec value) = Ok (r', put) ->
  generated_structured_oid sha256 nfc json_pointer registry to_vec (Some value) = Ok (put_oid put).
Proof.
  unfold put_object. intros H. apply bind_Ok in H as (u & _ & H). apply bind_Ok in H as (validated & Hv & H).
  unfold stored in H. apply bind_Ok in H as ([store result] & Hp & [= _ ->]). unfold of_store in Hp. apply map_err_Ok, put_verified_raw_oid in Hp as ->.
  unfold of_core in Hv. apply map_err_Ok in Hv. unfold ingest, ingest_with_limits in Hv. apply bind_Ok in Hv as (parsed & Hparse & Hf).
  unfold finish_ingestion in Hf. apply bind_Ok in Hf as (bytes & Hb & Hf). apply bind_Ok in Hf as (name & Hn & Hf).
  apply bind_Ok in Hf as ([] & Hsel & Hf). apply bind_Ok in Hf as (oid & Hoid & Hf). injection Hf as <-.
  unfold generated_structured_oid, parse_strict, expect, of_canonical, validate, validate_with_limits, structured_oid_unchecked.
  cbn [ok_or mbind result_bind]. rewrite Hparse. cbn [map_err mbind result_bind]. unfold canonical_bytes in *. rewrite Hb. cbn [mbind result_bind]. rewrite Hn.
  cbn [mbind result_bind]. rewrite Hsel. cbn [map_err mbind result_bind]. by rewrite Hoid.
Qed.

Abbreviation generated := (generated_structured_oid sha256 nfc json_pointer registry to_vec).

Lemma put_json_generated path value : answers_only (put_json sha256 nfc json_pointer registry to_vec path value) (fun oid => generated value = Ok oid).
Proof.
  intros disks disks' oid (s1 & v & Hv & H)%flow_bind_Ok. destruct value as [value|]; [|done]. injection Hv as <- <-.
  unfold on_repository in H. destruct (put_object _ _ _ _ _ _) as [[r put]|e] eqn:E; [|done]. injection H as _ <-. by eapply put_object_generated.
Qed.
End Preparing.

(** ** The objects that a preparation stores *)

Section Sites.
Variable sha256 : list byte -> list byte.
Variable nfc : list char -> list char.
Variable json_pointer : Json -> str -> option (list nat).
Variable registry : SchemaRegistry.
Variable to_vec : Value -> list byte.

Abbreviation growth := (grows sha256 nfc).
Abbreviation generated := (generated_structured_oid sha256 nfc json_pointer registry to_vec).

(** The Tree of a site: below a directory, a name is that of a Blob, or of the Tree of a
    directory with something in it; and a name that is not there has nothing below it. *)
Inductive site_tree : (list str -> option str) -> str -> Prop :=
| site_tree_intro site entries oid :
    generated (Some (tree_json entries)) = Ok oid -> bt_ok entries ->
    (forall name entry, bt_get name entries = Some entry -> site_entry (fun rest => site (name :: rest)) entry) ->
    (forall name, bt_get name entries = None -> forall rest, site (name :: rest) = None) ->
    site_tree site oid
with site_entry : (list str -> option str) -> Value -> Prop :=
| site_blob site blob :
    site [] = Some blob -> (forall part rest, site (part :: rest) = None) -> site_entry site (tree_entry (lit "blob") blob)
| site_directory site below oid :
    (forall part rest, below (part :: rest) = site (part :: rest)) -> (exists part rest blob, site (part :: rest) = Some blob) ->
    site_tree below oid -> site_entry site (tree_entry (lit "tree") oid).

Lemma site_entry_ext site site' entry : (forall rest, site rest = site' rest) -> site_entry site entry -> site_entry site' entry.
Proof.
  intros He H. inversion H as [s blob Hb Hn|s below oid Hbelow (part & rest & blob & Hs) Ht]; subst.
  - constructor; [by rewrite <- He|]. intros part rest. by rewrite <- He.
  - apply (site_directory site' below); [intros part' rest'; by rewrite <- He| |done]. exists part, rest, blob. by rewrite <- He.
Qed.

Lemma site_tree_ext site site' oid : (forall name rest, site (name :: rest) = site' (name :: rest)) -> site_tree site oid -> site_tree site' oid.
Proof.
  intros He H. inversion H as [s entries o Hg Hok Hin Hout]; subst. apply (site_tree_intro site' entries oid); [done|done|..].
  - intros name entry Hget. eapply site_entry_ext; [|by apply Hin]. intros rest. apply He.
  - intros name Hget rest. rewrite <- He. by apply Hout.
Qed.

Lemma blob_entries_get blobs : forall entries, bt_ok entries -> bt_ok (blob_entries blobs entries) /\
  forall name, match bt_get name (blob_entries blobs entries) with
               | Some entry => (exists oid, (name, oid) ∈ blobs /\ entry = tree_entry (lit "blob") oid) \/ bt_get name entries = Some entry
               | None => (forall oid, (name, oid) ∉ blobs) /\ bt_get name entries = None
               end.
Proof.
  induction blobs as [|[key oid] blobs IH]; intros entries Hok; cbn [blob_entries].
  { split; [done|]. intros name. destruct (bt_get name entries); [by right|]. split; [|done]. intros o ?%not_elem_of_nil. done. }
  destruct (IH _ (bt_insert_ok entries key (tree_entry (lit "blob") oid) Hok)) as [Hok' Hget]. split; [exact Hok'|]. intros name.
  specialize (Hget name). rewrite bt_get_insert in Hget by done. destruct (bt_get name (blob_entries _ _)) as [entry|].
  - destruct Hget as [(o & Hin & ->)|Hget]; [left; exists o; split; [by right|done]|]. case_decide; [|by right].
    injection Hget as <-. subst. left. exists oid. split; [by left|done].
  - destruct Hget as [Hn Hget]. case_decide as Ek; [done|]. split; [|done]. intros o [[= -> ->]|Hin]%elem_of_cons; [done|by eapply Hn].
Qed.

(** The Tree of a directory, by the Trees of the directories in it. *)
Lemma directory_tree blobs directories entries oid : directory_ok (Directory blobs directories) -> bt_ok entries ->
  generated (Some (tree_json entries)) = Ok oid ->
  (forall name, match bt_get name entries with
     | Some entry =>
       (exists directory sub, (name, directory) ∈ directories /\ entry = tree_entry (lit "tree") sub /\ site_tree (node_at directory) sub) \/
       (forall directory, (name, directory) ∉ directories) /\ bt_get name (blob_entries blobs []) = Some entry
     | None => (forall directory, (name, directory) ∉ directories) /\ bt_get name (blob_entries blobs []) = None
     end) ->
  site_tree (node_at (Directory blobs directories)) oid.
Proof.
  intros Hok He Hg Hget. inversion Hok as [? ? Hb Hd Hc Hf]; subst.
  assert (forall name, (forall directory, (name, directory) ∉ directories) -> bt_get name directories = None) as Hnone.
  { intros name Hn. destruct (bt_get name directories) as [d|] eqn:E; [|done]. apply bt_get_elem in E; [|done]. by apply Hn in E. }
  destruct (blob_entries_get blobs [] bt_nil_ok) as [_ Hblob].
  apply (site_tree_intro _ entries oid Hg He); intros name; specialize (Hget name); specialize (Hblob name).
  - intros entry Hentry. rewrite Hentry in Hget. destruct Hget as [(directory & sub & Hin & -> & Ht)|[Hn Hentry']].
    + apply bt_get_elem in Hin; [|done]. apply (site_directory _ (node_at directory)); [intros part rest; cbn [node_at]; by rewrite Hin| |done].
      destruct (Hf _ _ Hin) as (components & blob & Hat). destruct components as [|part rest]; [by destruct directory|].
      exists part, rest, blob. cbn [node_at]. by rewrite Hin.
    + rewrite Hentry' in Hblob. destruct Hblob as [(blob & Hin & ->)|?]; [|done]. constructor; [by apply bt_get_elem|].
      intros part rest. cbn [node_at]. by rewrite (Hnone name Hn).
  - intros Hentry rest. rewrite Hentry in Hget. destruct Hget as [Hn Hentry']. rewrite Hentry' in Hblob. destruct Hblob as [Hnb _].
    destruct rest as [|part rest]; cbn [node_at]; [|by rewrite (Hnone name Hn)].
    destruct (bt_get name blobs) as [blob|] eqn:E; [|done]. apply bt_get_elem in E; [|done]. by apply Hnb in E.
Qed.

Lemma store_directory_tree : forall node r r' oid, directory_ok node ->
  store_directory sha256 nfc json_pointer registry to_vec node r = (r', Ok oid) -> site_tree (node_at node) oid.
Proof.
  fix IHnode 1. intros [blobs directories] r r' oid Hok H. inversion Hok as [? ? Hb Hd Hc Hf]; subst. cbn [store_directory] in H.
  match type of H with context [?go directories r ?es] => assert (forall ds entries r r' entries', bt_ok entries ->
    (forall name d, (name, d) ∈ ds -> directory_ok d) -> Forall (fun d => forall r r' oid, directory_ok d.2 ->
       store_directory sha256 nfc json_pointer registry to_vec d.2 r = (r', Ok oid) -> site_tree (node_at d.2) oid) ds ->
    go ds r entries = (r', Ok entries') -> bt_ok entries' /\
    forall name, match bt_get name entries' with
     | Some entry =>
       (exists directory sub, (name, directory) ∈ ds /\ entry = tree_entry (lit "tree") sub /\ site_tree (node_at directory) sub) \/
       (forall directory, (name, directory) ∉ ds) /\ bt_get name entries = Some entry
     | None => (forall directory, (name, directory) ∉ ds) /\ bt_get name entries = None
     end) as Hgo end.
  { clear - to_vec. induction ds as [|[key d] ds IH]; intros entries r r' entries' He Hds Hall H; cbn in H.
    { injection H as _ <-. split; [done|]. intros name. destruct (bt_get name entries); [right|]; split; try done; by intros ? ?%not_elem_of_nil. }
    destruct (store_directory _ _ _ _ _ d r) as [r1 [sub|e]] eqn:Es; [|done]. apply Forall_cons in Hall as [Hhere Hall].
    apply Hhere in Es; [|eapply Hds; left].
    apply IH in H as [Hok' Hget]; [|by apply bt_insert_ok|intros name d' Hin; eapply Hds; by right|done]. split; [done|].
    intros name. specialize (Hget name). rewrite bt_get_insert in Hget by done. destruct (bt_get name entries') as [entry|].
    - destruct Hget as [(d' & sub' & Hin & -> & Ht)|[Hn Hget]]; [left; exists d', sub'; split; [by right|done]|]. case_decide as Ek.
      + injection Hget as <-. subst. left. exists d, sub. split; [by left|done].
      + right. split; [|done]. intros d' [[= -> ->]|Hin]%elem_of_cons; [done|by eapply Hn].
    - destruct Hget as [Hn Hget]. case_decide as Ek; [done|]. split; [|done]. intros d' [[= -> ->]|Hin]%elem_of_cons; [done|by eapply Hn]. }
  match type of H with context [let '(_, _) := ?x in _] => destruct x as [r1 [entries|e]] eqn:E end; [|done].
  apply Hgo in E as [He Hget]; [|apply blob_entries_get, bt_nil_ok|intros name d Hin; eapply Hc; by apply bt_get_elem|].
  2: { clear - IHnode. induction directories as [|[key d] ds IH]; constructor; [intros; by eapply IHnode|exact IH]. }
  unfold repo_step in H. destruct (put_object _ _ _ _ _ _) as [[r2 put]|e] eqn:Ep; [|done]. injection H as _ <-.
  apply put_object_generated in Ep. by eapply directory_tree.
Qed.
(** *** The Blobs and the files *)

(** The limits of an open repository. *)
Definition sound (r : FileRepository) : Prop := store_limits_ok (limits (Repository.objects r)).

Lemma grows_sound r r' : growth r r' -> sound r -> sound r'.
Proof. intros [_ Hs]. unfold sound. by rewrite (RepairProps.steps_limits _ _ _ _ Hs). Qed.

Lemma put_blob_oid r bytes r' put : sound r -> repo_put_blob sha256 r (whole_reads (Repository.objects r) bytes) = Ok (r', put) ->
  put_oid put = blob_oid sha256 bytes.
Proof.
  intros Hl H. unfold repo_put_blob, stored in H. apply bind_Ok in H as (u & _ & ([s p] & H%map_err_Ok & [= _ ->])%bind_Ok).
  unfold put_blob, put_blob_inner in H. apply bind_Ok in H as (u0 & _ & ([[staged oid] n] & Hs & ->%publish_staged_oid)%bind_Ok).
  unfold stage_blob in Hs. apply bind_Ok in Hs as (u1 & _ & ([bs t] & Hr & [= _ <- _])%bind_Ok).
  destruct (read_buffers_spec (Z.to_nat (io_buffer_bytes (limits (Repository.objects r)))) (length bytes) bytes) as [Hc Hn];
    [destruct Hl as (? & _); lia|done|].
  unfold whole_reads in Hr. rewrite read_loop_spec in Hr by (done || apply Hl). destruct (_ || _); [|done]. injection Hr as <- _.
  by rewrite Hc.
Qed.

Lemma store_files_site files : forall r root mapped r' root' mapped' (site : gmap (list str) str), sound r -> directory_ok root ->
  (forall path, node_at root path = site !! path) -> store_files sha256 files r root mapped = (r', Ok (root', mapped')) ->
  directory_ok root' /\ forall path, node_at root' path =
    foldl (fun site file => <[split_on 47 (fst file) := blob_oid sha256 (snd file)]> site) site files !! path.
Proof.
  induction files as [|[path bytes] files IH]; intros r root mapped r' root' mapped' site Hl Hok Hat H; cbn [store_files] in H.
  { by injection H as _ <- _. }
  unfold repo_step in H. destruct (repo_put_blob _ _ _) as [[r1 put]|e] eqn:Ep; [|done].
  pose proof (put_blob_oid _ _ _ _ Hl Ep) as Eo. apply (repo_put_blob_grows sha256 nfc) in Ep.
  destruct (directory_insert_at (split_on 47 path) (put_oid put) root) as [Hok1 Hat1]; [|done|].
  { destruct (split_on_nonempty 47 path) as (piece & pieces & ->). done. }
  cbn [foldl fst snd]. refine (IH r1 _ _ r' root' mapped' (<[split_on 47 path := blob_oid sha256 bytes]> site) (grows_sound _ _ Ep Hl) Hok1 _ H).
  intros p. rewrite Hat1, Eo. case_decide as E; [by rewrite E, lookup_insert_eq|]. rewrite lookup_insert_ne by done. apply Hat.
Qed.

Abbreviation site_of manifest := (site_tree (fun path => site_files sha256 (mf_files manifest) !! path)).

Lemma map_regular_files_site r manifest r' mapped : sound r ->
  map_regular_files sha256 nfc json_pointer registry to_vec r manifest = (r', Ok mapped) -> site_of manifest (mt_site_tree_oid mapped).
Proof.
  intros Hl H. unfold map_regular_files in H. destruct (store_files _ _ _ _ _) as [r1 [[root files]|e]] eqn:Ef; [|done].
  apply (store_files_site _ _ _ _ _ _ _ ∅ Hl empty_directory_ok) in Ef as [Hok Hat]; [|intros path; by rewrite node_at_empty, lookup_empty].
  destruct (store_directory _ _ _ _ _ _ _) as [r2 [oid|e]] eqn:Ed; [|done]. injection H as _ <-. cbn [mt_site_tree_oid].
  eapply site_tree_ext; [|by eapply store_directory_tree]. intros name rest. apply Hat.
Qed.

(** A computation that starts on a repository with sound limits adds objects, and what it answers. *)
Definition answers_soundly {A} (path : str) (m : Flow Disks A) (P : A -> Prop) : Prop :=
  forall disks disks' a, sound (repository_at path disks) -> m disks = (disks', Ok a) ->
    growth (repository_at path disks) (repository_at path disks') /\ P a.

Lemma soundly_bind {A B} path (m : Flow Disks A) (k : A -> Flow Disks B) P Q :
  answers_soundly path m P -> (forall a, P a -> answers_soundly path (k a) Q) -> answers_soundly path (m ≫= k) Q.
Proof.
  intros Hm Hk disks disks' b Hs (s1 & a & H1 & H2)%flow_bind_Ok. destruct (Hm _ _ _ Hs H1) as [Hg1 HP].
  destruct (Hk a HP _ _ _ (grows_sound _ _ Hg1 Hs) H2) as [Hg2 HQ]. split; [by etransitivity|done].
Qed.

Lemma soundly_ret {A} path (a : A) (P : A -> Prop) : P a -> answers_soundly path (mret a) P.
Proof. by intros HP disks disks' b Hs [= <- <-]. Qed.

Lemma soundly_answer {A} path (r : wresult A) : answers_soundly path (answer r) (fun a => r = Ok a).
Proof. by intros disks disks' b Hs [= <- ->]. Qed.

Lemma soundly_only {A} path (m : Flow Disks A) P : keeps Datatypes.id path growth m -> answers_only m P -> answers_soundly path m P.
Proof.
  intros Hk Ha disks disks' a Hs H. specialize (Hk disks). rewrite H in Hk. destruct Hk as [_ Hg]. split; [exact Hg|by eapply Ha].
Qed.

Lemma soundly_any {A} path (m : Flow Disks A) : keeps Datatypes.id path growth m -> answers_soundly path m (fun _ => True).
Proof. intros Hk. by apply soundly_only. Qed.

Lemma soundly_json path value : answers_soundly path (put_json sha256 nfc json_pointer registry to_vec path value) (fun oid => generated value = Ok oid).
Proof. apply soundly_only; [apply put_json_adds|apply put_json_generated]. Qed.

Lemma soundly_bytes path bytes : answers_soundly path (put_bytes sha256 path bytes) (fun oid => oid = blob_oid sha256 bytes).
Proof.
  intros disks disks' a Hs H. pose proof (put_bytes_adds sha256 nfc path bytes disks) as Hk. rewrite H in Hk. destruct Hk as [_ Hg].
  split; [exact Hg|]. unfold put_bytes, on_repository in H. destruct (repo_put_blob _ _ _) as [[r put]|e] eqn:E; [|done].
  injection H as _ <-. by eapply put_blob_oid.
Qed.

Lemma soundly_files path manifest :
  answers_soundly path (map_files sha256 nfc json_pointer registry to_vec path manifest) (fun mapped => site_of manifest (mt_site_tree_oid mapped)).
Proof.
  intros disks disks' a Hs H. pose proof (map_files_adds sha256 nfc json_pointer registry to_vec path manifest disks) as Hk. rewrite H in Hk.
  destruct Hk as [_ Hg]. split; [exact Hg|]. unfold map_files, on_repository in H.
  destruct (map_regular_files _ _ _ _ _ _ _) as [r [mapped|e]] eqn:E; [|done]. injection H as _ <-. by eapply map_regular_files_site.
Qed.
End Sites.
