(* ===== verification/WorkflowProps.v ===== *)
(** * The artifact workflow: the properties

    Preparing changes no Ref; publishing moves exactly the Refs that it names; a Decision needs a
    claimed approval; a recovered proposal is the published one; and the history check accepts
    only chains of generated Decisions. *)

From Stdlib Require Import ZArith Lia.
From stdpp Require Import base list numbers strings gmap sets relations.
From S2P Require Import Prelude Bytes Sorting Text BTree RefStore RefStoreProps Canonical Timestamp Oid SchemaSemantics Registry.
From S2P Require Import ObjectStore FileStore FileStoreProps Inventory Closure Repository Policy Authorization BindingFacts HumanDecision.
From S2P Require Import CanonicalWrite CanonicalProps AuthorizationSample AppState AppPrograms Artifact ArtifactProps Checkout CheckoutProps Approval WorkflowRecords WorkflowChecks Workflow WorkflowFacts.

#[local] Open Scope Z_scope.

(** ** Preparing a proposal *)

Section Preparing.
Variable sha256 : list byte -> list byte.
Variable nfc : list char -> list char.
Variable to_lowercase : char -> list char.
Variable json_pointer : Json -> str -> option (list nat).
Variable registry : SchemaRegistry.
Variable to_vec : Value -> list byte.

Abbreviation growth := (grows sha256 nfc).
Abbreviation generated := (generated_structured_oid sha256 nfc json_pointer registry to_vec).

Abbreviation load r := (load_structured_value sha256 nfc json_pointer registry r).
Abbreviation site_of manifest := (site_tree sha256 nfc json_pointer registry to_vec (fun path => site_files sha256 (mf_files manifest) !! path)).
Abbreviation soundly := (answers_soundly sha256 nfc).

(** The data name the project, its Refs, and the generated objects of a proposal on the base: its
    site is that of the proposed files. *)
Record proposal_of (config : TrustedArtifactProjectConfig) (accepted proposed : RegularFileManifest) (canonical : list byte)
    (attribution : ArtifactSourceAttribution) (base : ProposalBase) (data : ArtifactProposalData) : Prop := {
  po_path : pd_repository_path data = cf_repository config;
  po_selector : pd_selector data = project_selector sha256 config;
  po_decision_ref : pd_decision_ref data = decision_ref_of (cf_project_key config);
  po_proposal_ref : pd_proposal_ref data = proposal_namespace_of (cf_project_key config) ++ lit "/" ++
    artifact_attempt_id sha256 (cf_project_key config) (pd_base_head data);
  po_ids : pd_ids data = from_key_and_attempt sha256 (cf_project_key config)
    (artifact_attempt_id sha256 (cf_project_key config) (pd_base_head data));
  po_base : pd_base_head data = bs_head base /\ pd_base_snapshot data = bs_snapshot base /\
    pd_base_manifest_sha256 data = artifact_manifest_sha256 sha256 accepted;
  po_recorded : pd_recorded_at data = cf_recorded_at config;
  po_receipt : pd_receipt data =
    {| pr_artifact_manifest_sha256 := artifact_manifest_sha256 sha256 proposed; pr_review_context_sha256 := sha256_hex sha256 canonical;
       pr_source_attribution := attribution |};
  po_objects : exists site,
    let ids := pd_ids data in
    let authority := bs_authority base in
    site_of proposed site /\
    generated (context_record nfc to_vec (id_context ids) (id_human ids) (id_subject ids) (bs_head base) (pd_decision_ref data)
      (ao_policy authority) (ao_grant authority) (bs_context_blob base) (cf_recorded_at config)) = Ok (pd_context_oid data) /\
    generated (activity_record nfc to_vec (id_activity ids) (id_agent ids) (id_human ids) (id_subject ids) (pd_context_oid data)
      (ao_grant authority) (bs_context_blob base) site attribution (cf_recorded_at config)) = Ok (pd_activity_oid data) /\
    generated (Some (proposal_tree (bs_snapshot base) site (pd_context_oid data) (pd_activity_oid data))) = Ok (pd_proposal_snapshot data) /\
    generated (commit nfc to_vec (lit "checkpoint") [bs_head base] (pd_proposal_snapshot data) [pd_activity_oid data] (id_agent ids)
      (cf_recorded_at config) (lit "Generic artifact Proposal; canonical Decision unchanged")) = Ok (pd_proposal_head data);
}.

Lemma proposal_objects_path config accepted proposed context attribution base :
  answers_only (proposal_objects sha256 nfc json_pointer registry to_vec config accepted proposed context attribution base)
    (fun data => pd_repository_path data = cf_repository config).
Proof. unfold proposal_objects. cbv zeta. do 5 (apply only_bind; intros ?). by apply only_ret. Qed.

Lemma proposal_objects_of config accepted proposed canonical attribution base :
  soundly (cf_repository config)
    (proposal_objects sha256 nfc json_pointer registry to_vec config accepted proposed canonical attribution base)
    (proposal_of config accepted proposed canonical attribution base).
Proof.
  unfold proposal_objects, proposal_snapshot. cbv zeta. eapply soundly_bind; [apply soundly_files|]. intros mapped Hm.
  eapply soundly_bind; [apply soundly_json|]; intros context_oid Hc. eapply soundly_bind; [apply soundly_json|]; intros activity_oid Ha.
  eapply soundly_bind; [apply soundly_json|]; intros snapshot Hs. eapply soundly_bind; [apply soundly_json|]; intros head Hh.
  apply soundly_ret. split; [done..|].
  exists (mt_site_tree_oid mapped). cbn. split_and!; [exact Hm|done|done| |done]. etransitivity; [|exact Hs]. done.
Qed.

(** The first Commit of a project: its snapshot has the accepted files, and the generated control
    Records. *)
Definition genesis (config : TrustedArtifactProjectConfig) (accepted : RegularFileManifest) (base : ProposalBase) : Prop :=
  let ids := from_key_and_attempt sha256 (cf_project_key config) (lit "pending") in
  exists subject control site,
    site_of accepted site /\
    expected_artifact_authority_oids sha256 nfc json_pointer registry to_vec config ids (decision_ref_of (cf_project_key config))
      (proposal_namespace_of (cf_project_key config)) = Ok {| xo_authority := bs_authority base; xo_subject := subject |} /\
    generated (Some (control_tree (bs_authority base) subject (bs_context_blob base))) = Ok control /\
    generated (Some (entries_tree [(lit "site", lit "tree", site); (lit "control", lit "tree", control)])) = Ok (bs_snapshot base) /\
    generated (commit nfc to_vec (lit "checkpoint") [] (bs_snapshot base) [] (id_human ids) (cf_recorded_at config)
      (lit "Generic artifact project initialized")) = Ok (bs_head base).

Lemma initial_base_genesis config accepted canonical :
  soundly (cf_repository config) (initial_base sha256 nfc json_pointer registry to_vec config accepted canonical)
    (fun base => bs_context_blob base = blob_oid sha256 canonical /\ genesis config accepted base).
Proof.
  unfold initial_base, initial_snapshot. cbv zeta. eapply soundly_bind; [apply soundly_bytes|]. intros blob ->.
  eapply soundly_bind; [apply soundly_files|]. intros mapped Hm.
  eapply soundly_bind; [apply soundly_json|]; intros human Hh. eapply soundly_bind; [apply soundly_json|]; intros ai Ha.
  eapply soundly_bind; [apply soundly_json|]; intros policy Hp. eapply soundly_bind; [apply soundly_json|]; intros grant Hg.
  eapply soundly_bind; [apply soundly_json|]; intros subject Hs. eapply soundly_bind; [apply soundly_json|]; intros control Hc.
  eapply soundly_bind; [apply soundly_json|]; intros snapshot Ht. eapply soundly_bind; [apply soundly_json|]; intros head Hhead.
  apply soundly_ret. split; [done|]. exists subject, control, (mt_site_tree_oid mapped). cbn [bs_authority bs_context_blob bs_snapshot bs_head].
  split_and!; [exact Hm| |exact Hc|exact Ht|exact Hhead]. unfold expected_artifact_authority_oids.
  rewrite Hh, Ha, Hp, Hg, Hs. done.
Qed.

(** The authority that a snapshot carries: below the bases of its proposals, the first snapshot of
    the project has it under its control. *)
Inductive protected_by (r : FileRepository) : str -> ArtifactAuthorityOids -> Prop :=
| protected_genesis oid snapshot control_oid control authority :
    load r oid Tree = Ok snapshot -> tree_entry_names snapshot = Ok genesis_names ->
    direct_entry snapshot (lit "control") Tree = Ok control_oid -> load r control_oid Tree = Ok control ->
    direct_entry control (lit "creator.actor.json") Record = Ok (ao_human_actor authority) ->
    direct_entry control (lit "agent.actor.json") Record = Ok (ao_ai_actor authority) ->
    direct_entry control (lit "policy.json") Record = Ok (ao_policy authority) ->
    direct_entry control (lit "grant.json") Record = Ok (ao_grant authority) -> protected_by r oid authority
| protected_proposal oid snapshot base authority :
    load r oid Tree = Ok snapshot -> tree_entry_names snapshot = Ok proposal_names ->
    direct_entry snapshot (lit "base") Tree = Ok base -> protected_by r base authority -> protected_by r oid authority.

Lemma protected_loop bound r config ids policy grant decision_ref namespace : forall cursor visited authority,
  protected_authority_loop sha256 nfc json_pointer registry bound cursor visited r config ids policy grant decision_ref namespace = Ok authority ->
  protected_by r cursor authority.
Proof.
  induction bound as [|bound IH]; intros cursor visited authority H; [done|]. cbn [protected_authority_loop] in H.
  apply bind_Ok in H as (u & _ & (snapshot & Hs & (entries & Hn & H)%bind_Ok)%bind_Ok). case_bool_decide as Hg.
  - subst entries. unfold verify_protected_control in H.
    apply bind_Ok in H as (control_oid & Hc & (control & Hl & (u1 & _ & H)%bind_Ok)%bind_Ok).
    apply bind_Ok in H as (human & Hh & (ai & Ha & (pol & Hp & (gr & Hgr & H)%bind_Ok)%bind_Ok)%bind_Ok).
    do 8 (apply bind_Ok in H as (? & _ & H)). injection H as <-. by eapply protected_genesis.
  - apply bind_Ok in H as (u1 & Hp%reject_if_Ok%negb_false_iff & (base & Hb & H)%bind_Ok). bool_props. subst entries.
    eapply protected_proposal; [done..|by eapply IH].
Qed.

(** A Commit with the accepted files as its site, and the authority of its snapshot. *)
Definition stands_on (accepted : RegularFileManifest) (r : FileRepository) (base : ProposalBase) : Prop :=
  exists commit tree site,
    load r (bs_head base) Commit = Ok commit /\ value_string commit (lit "snapshot") = Ok (bs_snapshot base) /\
    load r (bs_snapshot base) Tree = Ok tree /\ direct_entry tree (lit "site") Tree = Ok site /\ site_of accepted site /\
    protected_by r (bs_snapshot base) (bs_authority base).

(** The base as the preparation finds it: the first proposal of an empty Ref store, or the verified
    checkout of the current Decision, with exactly the accepted files. *)
Definition base_found (config : TrustedArtifactProjectConfig) (accepted : RegularFileManifest) (canonical : list byte)
    (kind : ProposalBaseKind) (recovery : RecoveryState) (expected : option str) (r : FileRepository) (base : ProposalBase) : Prop :=
  bs_context_blob base = blob_oid sha256 canonical /\
  match kind with
  | Initial => (recovery = Fresh -> list_refs r = []) /\ genesis config accepted base
  | Sequential =>
    (forall head, expected = Some head -> bs_head base = head) /\
    ref_head_of r (decision_ref_of (cf_project_key config)) = Ok (Some (bs_head base)) /\
    validate_review_availability sha256 nfc json_pointer registry r (proposal_namespace_of (cf_project_key config))
      (decision_ref_of (cf_project_key config)) (bs_head base) recovery = Ok tt /\
    stands_on accepted r base /\
    exists binding checkout,
      tb_decision_head binding = bs_head base /\ db_project (tb_proposal binding) = project_selector sha256 config /\
      checkout_artifact_decision_in_repository sha256 nfc to_lowercase json_pointer registry r binding default_checkout_limits = Ok checkout /\
      checkout_matches checkout accepted = true
  end.

(** What [verify_existing_artifact_base] establishes. *)
Lemma verify_existing_checkout config accepted r decision_ref namespace head existing :
  verify_existing_artifact_base sha256 nfc to_lowercase json_pointer registry config accepted r decision_ref namespace head = Ok existing ->
  (exists binding checkout,
    tb_decision_head binding = head /\ db_project (tb_proposal binding) = project_selector sha256 config /\
    checkout_artifact_decision_in_repository sha256 nfc to_lowercase json_pointer registry r binding default_checkout_limits = Ok checkout /\
    checkout_matches checkout accepted = true) /\
  (exists commit tree,
    load r head Commit = Ok commit /\ value_string commit (lit "snapshot") = Ok (eb_snapshot existing) /\
    load r (eb_snapshot existing) Tree = Ok tree /\ direct_entry tree (lit "site") Tree = Ok (eb_site_tree existing) /\
    protected_by r (eb_snapshot existing) (eb_authority existing)).
Proof.
  unfold verify_existing_artifact_base. intros H. apply bind_Ok in H as (decision & Hd & H). cbv zeta in H.
  apply bind_Ok in H as (proposal_ref & _ & H). apply bind_Ok in H as (checkout & Hc%map_err_Ok & H).
  apply bind_Ok in H as (u & Hm%reject_if_Ok & H). apply negb_false_iff in Hm.
  split; [by refine (ex_intro _ _ (ex_intro _ checkout (conj _ (conj _ (conj Hc Hm)))))|].
  do 13 (apply bind_Ok in H as (? & _ & H)). apply bind_Ok in H as (authority & Hp%protected_loop & H).
  apply bind_Ok in H as (value & Hv & (snapshot & Hs & (tree & Ht & (site & Hsite & [= <-])%bind_Ok)%bind_Ok)%bind_Ok).
  assert (dl_snapshot decision = snapshot) as E.
  { unfold inspect_decision in Hd. rewrite Hv in Hd. cbn [mbind result_bind] in Hd. do 3 (apply bind_Ok in Hd as (? & _ & Hd)).
    repeat case_match; try done. do 7 (apply bind_Ok in Hd as (? & _ & Hd)). rewrite Hs in Hd. cbn [mbind result_bind] in Hd.
    do 2 (apply bind_Ok in Hd as (? & _ & Hd)). by injection Hd as <-. }
  cbn [eb_snapshot eb_site_tree eb_authority]. rewrite E in *. exists value, tree. by split_and!.
Qed.

(** What the check of the current Decision leaves to be confirmed by the stored objects. *)
Lemma sequential_base_found config accepted recovery expected disks disks' head existing :
  sequential_base sha256 nfc to_lowercase json_pointer registry config accepted recovery expected disks = (disks', Ok (head, existing)) ->
  forall canonical base, bs_context_blob base = blob_oid sha256 canonical -> bs_head base = head -> bs_snapshot base = eb_snapshot existing ->
    bs_authority base = eb_authority existing -> site_of accepted (eb_site_tree existing) ->
    base_found config accepted canonical Sequential recovery expected (repository_at (cf_repository config) disks) base.
Proof.
  unfold sequential_base. intros H. cbv zeta in H. apply flow_bind_Ok in H as (s1 & u & Hu & H). apply (f_equal fst) in Hu. cbn [fst] in Hu. subst s1.
  rewrite open_then in H. unfold reading_at in H. apply (f_equal snd) in H. cbn [snd] in H. rewrite repository_at_insert in H.
  apply bind_Ok in H as (head' & Hh & H). apply bind_Ok in H as (current & ->%ok_or_Ok & H). apply bind_Ok in H as (u3 & He%reject_if_Ok & H).
  apply bind_Ok in H as ([] & Hv & H). apply bind_Ok in H as (existing' & [Hx (commit & tree & Hl & Hs & Ht & Hsite & Hp)]%verify_existing_checkout & [= <- <-]).
  intros canonical base Hblob <- Esnap Eauth Hsites. split; [done|]. split_and!; [|done|done| |done].
  - intros e ->. apply negb_false_iff, str_eqb_eq in He. done.
  - exists commit, tree, (eb_site_tree existing'). rewrite Esnap, Eauth. by split_and!.
Qed.

Lemma existing_base_of config accepted canonical recovery head existing :
  soundly (cf_repository config) (existing_base sha256 nfc json_pointer registry to_vec config accepted canonical recovery head existing)
    (fun base => bs_context_blob base = blob_oid sha256 canonical /\ bs_head base = head /\ bs_snapshot base = eb_snapshot existing /\
       bs_authority base = eb_authority existing /\ site_of accepted (eb_site_tree existing)).
Proof.
  unfold existing_base. cbv zeta. eapply soundly_bind; [apply soundly_any, keeps_reading, _|]. intros _ _.
  eapply soundly_bind; [apply soundly_files|]. intros mapped Hm.
  eapply soundly_bind; [apply soundly_answer|]. intros u Hu%reject_if_Ok%negb_false_iff%str_eqb_eq.
  eapply soundly_bind; [apply soundly_bytes|]. intros blob ->. apply soundly_ret. cbn. rewrite <- Hu. by split_and!.
Qed.

Lemma install_prepared_data i data authority flag :
  answers_only (install_prepared_application i data authority flag)
    (fun prepared => pp_data prepared = data /\ pp_initialize_decision_ref prepared = flag).
Proof. unfold install_prepared_application. apply only_bind. intros application. apply only_bind. intros [? [? ?]]. by apply only_ret. Qed.

Lemma prepare_adds config accepted proposed context attribution kind recovery expected now i :
  keeps Datatypes.id (cf_repository config) growth
    (prepare_artifact_proposal_internal sha256 nfc to_lowercase json_pointer registry to_vec config accepted proposed context attribution kind
       recovery expected now i).
Proof.
  unfold prepare_artifact_proposal_internal. cbv zeta.
  do 5 (apply keeps_bind; [apply _|apply keeps_answer, _|]; intros ?).
  apply keeps_bind; [apply _| |intros existing].
  { destruct kind; [apply keeps_ret, _|]. apply keeps_bind; [apply _|apply sequential_base_adds|]. intros ?. apply keeps_ret, _. }
  apply keeps_bind; [apply _|apply keeps_open, _|]. intros _.
  apply keeps_bind; [apply _|destruct kind, recovery; first [apply keeps_reading, _|apply keeps_ret, _]|]. intros _.
  apply keeps_bind; [apply _|destruct existing as [[? ?]|]; [apply existing_base_adds|apply initial_base_adds]|]. intros base.
  eapply keeps_bind_only; [apply _|apply proposal_objects_path|apply proposal_objects_adds|]. intros data Hdata.
  apply keeps_bind; [apply _|apply keeps_reading, _|]. intros _. rewrite <- Hdata. apply install_prepared_adds, _.
Qed.

(** A recovery gives the binding that it was asked for, on the Refs of its state. *)
Definition recovered_on (r : FileRepository) (data : ArtifactProposalData) (kind : ProposalBaseKind) (recovery : RecoveryState) : Prop :=
  let at_head name := heads (RefStore.tables (Repository.refs r)) !! name in
  match recovery with
  | Fresh => True
  | Prepared binding | Published binding =>
    durable_binding data = binding /\
    match at_head (pd_decision_ref data) with Some head => head = pd_base_head data | None => kind = Initial end /\
    at_head (pd_proposal_ref data) = match recovery with Published _ => Some (pd_proposal_head data) | _ => None end
  end.

Lemma head_found r name head : ref_head_of r name = Ok head -> heads (RefStore.tables (Repository.refs r)) !! name = head.
Proof.
  unfold ref_head_of. intros H. apply bind_Ok in H as (record & Hg%map_err_Ok & [= <-]). unfold RefStore.get in Hg.
  apply bind_Ok in Hg as (u & _ & [= <-]). unfold heads. rewrite lookup_fmap. by destruct (t_refs _ !! name) as [[h n]|].
Qed.

Lemma validate_recovery_on r r' data kind recovery : Repository.refs r' = Repository.refs r ->
  validate_recovery_binding_and_refs r' data kind recovery = Ok tt -> recovered_on r data kind recovery.
Proof.
  intros Er. unfold validate_recovery_binding_and_refs, recovered_on. rewrite <- Er. destruct recovery as [|binding|binding]; [done|..]; intros H;
    apply bind_Ok in H as (u & Hb%reject_if_Ok%negb_false_iff & (decision & Hd%head_found & (u1 & Hh%reject_if_Ok%negb_false_iff & H)%bind_Ok)%bind_Ok);
    apply bind_Ok in H as (proposal & Hp%head_found & H%reject_if_Ok%negb_false_iff); bool_props; rewrite Hd, Hp;
    (split_and!; [done| |done]); destruct decision as [head|], kind; try done; by apply str_eqb_eq.
Qed.

(** What a successful preparation established. *)
Lemma prepare_sound config accepted proposed context attribution kind recovery expected now i disks disks' prepared :
  prepare_artifact_proposal_internal sha256 nfc to_lowercase json_pointer registry to_vec config accepted proposed context attribution kind
    recovery expected now i disks = (disks', Ok prepared) ->
  config_valid config = true /\
  (exists at_ expires, now = Some at_ /\ timestamp_parse (cf_grant_expires_at config) = Ok expires /\ at_ < unix_nanos expires) /\
  exists canonical, canonical_review_context nfc context = Ok canonical /\
    let r := repository_at (cf_repository config) disks in
    (store_limits_ok (limits (Repository.objects r)) ->
     exists base, proposal_of config accepted proposed canonical attribution base (pp_data prepared) /\
       base_found config accepted canonical kind recovery expected r base /\ recovered_on r (pp_data prepared) kind recovery).
Proof.
  unfold prepare_artifact_proposal_internal. cbv zeta. intros H.
  apply answer_then in H as (u1 & Hc%reject_if_Ok%negb_false_iff & H). apply answer_then in H as (at_ & Hn%ok_or_Ok & H).
  apply answer_then in H as (expires & Hx%map_err_Ok & H). apply answer_then in H as (u2 & Hlt%reject_if_Ok & H).
  split; [done|]. split; [exists at_, expires; split_and!; [done..|lia]|]. apply answer_then in H as (canonical & Hcan & H).
  exists canonical. split; [unfold of_canonical in Hcan; by apply map_err_Ok in Hcan|]. intros Hl.
  apply flow_bind_Ok in H as (s1 & existing & Hex & H). rewrite open_then in H.
  apply flow_bind_Ok in H as (s2 & u3 & Hfresh & H). apply flow_bind_Ok in H as (s3 & base & Hbase & H).
  apply flow_bind_Ok in H as (s4 & data & Hdata & H). apply reading_then in H as ([] & Hrec & H).
  apply install_prepared_data in H as [-> _]. clear i disks'.
  set (r := repository_at (cf_repository config) disks) in *.
  assert (repository_at (cf_repository config) s1 = r /\ repository_at (cf_repository config) s2 = r) as [E1 E2].
  { assert (repository_at (cf_repository config) s1 = r) as E1.
    { destruct kind; [by injection Hex as <- _|]. apply flow_bind_Ok in Hex as (s6 & b & Hs & [= <- _]).
      unfold sequential_base in Hs. cbv zeta in Hs. apply flow_bind_Ok in Hs as (s7 & u & Hu%(f_equal fst) & Hs). cbn [fst] in Hu. subst s7.
      rewrite open_then in Hs. apply (f_equal fst) in Hs. cbn [fst reading_at] in Hs. rewrite <- Hs. apply repository_at_insert. }
    split; [done|]. rewrite <- E1. destruct kind, recovery; apply (f_equal fst) in Hfresh; cbn [fst reading_at mret flow_ret] in Hfresh;
      rewrite <- Hfresh; apply repository_at_insert. }
  assert (growth r (repository_at (cf_repository config) s3) /\ base_found config accepted canonical kind recovery expected r base) as [Hg3 Hfound].
  { destruct kind.
    - injection Hex as <- <-. apply initial_base_genesis in Hbase as [Hg [Hblob Hgen]]; [|by rewrite E2]. rewrite E2 in Hg.
      split; [done|]. split; [done|]. split; [|done]. intros ->. apply (f_equal snd) in Hfresh. cbn [snd reading_at] in Hfresh.
      rewrite repository_at_insert in Hfresh. apply reject_if_Ok, negb_false_iff in Hfresh. by bool_props.
    - apply flow_bind_Ok in Hex as (s6 & [head ex] & Hs & [= _ <-]). pose proof (sequential_base_found _ _ _ _ _ _ _ _ Hs) as Hf.
      apply existing_base_of in Hbase as [Hg (Hblob & Hhead & Hsnap & Hauth & Hsite)]; [|by rewrite E2]. rewrite E2 in Hg.
      split; [done|]. by apply Hf. }
  apply proposal_objects_of in Hdata as [Hg4 Hdata]; [|by eapply (grows_sound sha256 nfc)].
  exists base. split; [done|]. split; [done|]. eapply validate_recovery_on; [|exact Hrec].
  eapply (grows_refs sha256 nfc). by etransitivity.
Qed.
End Preparing.

(** C22: preparing a proposal is safe at any moment, and prepares what was asked for.  Whatever
    the repository holds and however the call ends, no Ref moves, objects are only added, and no
    other repository changes.  When it succeeds, the configuration is valid and its Grant has not
    expired.  The base is the generated first Commit of the project, in an empty Ref store unless
    this is a recovery; or it is the current Decision, with its own snapshot and the authority
    that this snapshot protects, whose verified checkout is exactly the accepted files.  The site
    of the base has the accepted files, the site of the proposal exactly the proposed ones, each
    as the Blob of its bytes, and the context Blob is that of the canonical review context.  The
    prepared data name the project's own Refs and the generated objects on that base.  A recovery
    gives the binding it was asked for, with the Refs of its state: the decision Ref at the base
    (or absent, for the first proposal), the proposal Ref at the proposal if it was published and
    absent if not. *)
Theorem proposal_preparation sha256 nfc to_lowercase json_pointer registry to_vec config accepted proposed context attribution kind
    recovery expected now i disks :
  let '(disks', prepared) :=
    prepare_artifact_proposal_internal sha256 nfc to_lowercase json_pointer registry to_vec config accepted proposed context attribution kind
      recovery expected now i disks in
  let before := repository_at (cf_repository config) disks in
  (forall other, other <> cf_repository config -> disks' !! other = disks !! other) /\
  grows sha256 nfc before (repository_at (cf_repository config) disks') /\
  match prepared with
  | Err _ => True
  | Ok prepared =>
    config_valid config = true /\
    (exists at_ expires, now = Some at_ /\ timestamp_parse (cf_grant_expires_at config) = Ok expires /\ at_ < unix_nanos expires) /\
    exists canonical, canonical_review_context nfc context = Ok canonical /\
      (store_limits_ok (limits (Repository.objects before)) ->
       exists base,
         proposal_of sha256 nfc json_pointer registry to_vec config accepted proposed canonical attribution base (pp_data prepared) /\
         base_found sha256 nfc to_lowercase json_pointer registry to_vec config accepted canonical kind recovery expected before base /\
         recovered_on before (pp_data prepared) kind recovery)
  end.
Proof.
  pose proof (prepare_adds sha256 nfc to_lowercase json_pointer registry to_vec config accepted proposed context attribution kind recovery
    expected now i disks) as Ha.
  destruct (prepare_artifact_proposal_internal _ _ _ _ _ _ _ _ _ _ _ _ _ _ _ _ _) as [disks' prepared] eqn:E. destruct Ha as [Ho Hg].
  cbv zeta. split_and!; [done|done|]. destruct prepared as [prepared|e]; [|done]. by apply prepare_sound in E.
Qed.

(** *** A new project *)

Definition new_config : TrustedArtifactProjectConfig :=
  {| cf_repository := lit "repository"; cf_project_key := lit "demo"; cf_creator_display_name := lit "Ada"; cf_agent_display_name := lit "Bot";
     cf_recorded_at := lit "2026-01-01T00:00:00.000000000Z"; cf_grant_expires_at := lit "2027-01-01T00:00:00.000000000Z" |}.

Definition accepted_files : RegularFileManifest := {| mf_files := [(lit "a.txt", [104; 105])]; mf_total_bytes := 2 |}.
Definition proposed_files : RegularFileManifest :=
  {| mf_files := [(lit "a.txt", [104; 111]); (lit "b/c.txt", [33])]; mf_total_bytes := 3 |}.

(** The first proposal of a project where there is no repository yet. *)
Example new_project_prepared :
  is_ok (prepare_artifact_proposal mixing_sha256 nfc_id (fun c => [c]) (fun _ _ => None) open_registry render new_config accepted_files
    proposed_files (render (Obj [])) CallerSuppliedAiAttributed (Some 1770000000000000000) 1 ∅).2 = true.
Proof. vm_compute. reflexivity. Qed.

(** ** Publishing a proposal *)

Section Publishing.
Variable sha256 : list byte -> list byte.
Variable nfc : list char -> list char.
Variable json_pointer : Json -> str -> option (list nat).
Variable registry : SchemaRegistry.

#[local] Instance store_here : ObjectStore FileObjectStore := file_object_store sha256 nfc.
#[local] Instance bounded_store_here : BoundedObjectStore FileObjectStore := file_bounded_store sha256 nfc.

(** The decision Ref of a new project, where there is none, starts at the base. *)
Definition initialized (data : ArtifactProposalData) (r r' : FileRepository) : Prop :=
  r' = r \/
  exists entry, ref_moved r r' entry /\ ref_name entry = pd_decision_ref data /\ old_head entry = None /\ new_head entry = pd_base_head data.

(** The proposal Ref moves to the prepared Commit, and nothing else changes. *)
Definition proposal_moved (data : ArtifactProposalData) (r r' : FileRepository) (entry : ReflogEntry) : Prop :=
  ref_moved r r' entry /\ new_head entry = pd_proposal_head data.

Lemma update_ref_moved r update r' entry :
  repo_update_ref r update = (r', Ok entry) ->
  ref_moved r r' entry /\ ref_name entry = u_ref_name update /\ old_head entry = u_expected_head update /\ new_head entry = u_new_head update.
Proof.
  unfold repo_update_ref. destruct (repo_ensure_writable r) as [u|e]; [|done]. unfold on_refs. intros H. injection H as <- He.
  unfold compare_and_swap, compare_and_swap_with_preconditions in *.
  destruct (compare_and_swap_with_preconditions_and_guard _ _ _ _ _) as [store a] eqn:E. cbn in *. unfold of_refs in He. apply map_err_Ok in He as ->.
  apply (cas_moved r (set_refs r store)) in E as (Hm & _ & Hn & Ho & Hnew & _); done.
Qed.

Lemma update_ref_failed r update r' e :
  repo_update_ref r update = (r', Err e) -> r' = r.
Proof.
  unfold repo_update_ref. destruct (repo_ensure_writable r) as [u|e1]; [|by intros [= <- _]]. unfold on_refs. intros H. injection H as <- He.
  unfold compare_and_swap, compare_and_swap_with_preconditions in *.
  destruct (compare_and_swap_with_preconditions_and_guard _ _ _ _ _) as [store a] eqn:E. cbn in *. destruct a as [entry|a]; [done|].
  apply finish_Err in E as [_ ->]. by destruct r.
Qed.

Lemma initialize_changes data now :
  changes Datatypes.id (pd_repository_path data)
    (fun r r' a => initialized data r r' /\ (is_ok a = true -> heads (RefStore.tables (Repository.refs r')) !! pd_decision_ref data = Some (pd_base_head data)))
    (initialize_decision_ref_if_needed sha256 nfc data now).
Proof.
  unfold initialize_decision_ref_if_needed. cbv zeta. set (path := pd_repository_path data).
  eapply (changes_bind Datatypes.id path eq (open_repository path)); [apply keeps_open, _| |by intros * -> |by intros * ->; split; [left|]].
  intros _ disks. unfold mbind, flow_bind, reading_at at 1. destruct (ref_head_of _ _) as [head|e] eqn:Eh; [|split; [done|]; by split; [left|]].
  apply head_found in Eh. destruct head as [head|].
  - unfold answer. split; [done|]. split; [by left|]. destruct (negb _) eqn:Ed; [done|]. intros _. apply negb_false_iff, str_eqb_eq in Ed. by subst.
  - unfold answer at 1. destruct now as [observed|]; cbn [ok_or]; [|split; [done|]; by split; [left|]].
    unfold answer at 1. destruct (in_i64 observed); cbn [ok_or]; [|split; [done|]; by split; [left|]].
    unfold update_ref_at, on_repository. destruct (repo_update_ref _ _) as [r' entry] eqn:Eu.
    assert (repository_at path (<[path:=r']> disks) = r') as Er by apply repository_at_insert.
    destruct entry as [entry|e]; cbn [map_err].
    + apply update_ref_moved in Eu as (Hm & Hn & Ho & Hnew). cbn in Hn, Ho, Hnew. unfold mret, flow_ret, Datatypes.id. rewrite Er.
      split; [intros other Hne; by apply lookup_insert_ne|]. split; [right; by exists entry|]. intros _. destruct Hm as (_ & -> & _).
      rewrite Hn, Hnew. by rewrite lookup_insert_eq.
    + apply update_ref_failed in Eu as ->. unfold Datatypes.id. rewrite Er. split; [intros other Hne; by apply lookup_insert_ne|]. by split; [left|].
Qed.

Lemma receipt_matches_entry data receipt : receipt_matches data receipt = true ->
  ref_name (ad_reflog receipt) = pd_proposal_ref data /\ old_head (ad_reflog receipt) = None /\
  ad_activity_oid receipt = pd_activity_oid data /\ ad_context_pack_oid receipt = pd_context_oid data.
Proof.
  unfold receipt_matches. intros H. repeat (apply andb_prop in H as [H ?]).
  split_and!; [by apply str_eqb_eq|by eapply bool_decide_eq_true|by apply str_eqb_eq..].
Qed.

(** The calls of the publication. *)
Definition published_or_not (data : ArtifactProposalData) (r r' : FileRepository) (a : wresult AiPublicationReceipt) : Prop :=
  match a with
  | Ok receipt => proposal_moved data r r' (ad_reflog (ar_decision receipt))
  | Err _ => r' = r
  end.

Lemma publish_calls_change data answer project execution prepared_at answer' final first second now tnow :
  changes fst (pd_repository_path data) (published_or_not data)
    (permit ← call_application data (fun i => prepare_ai
       nfc json_pointer registry i PERMIT_TTL_NANOS answer project execution prepared_at);
     call_application data (fun i => execute_and_publish_ai
       nfc json_pointer registry i answer' final first second now tnow (artifact_execute data) permit)).
Proof.
  eapply (changes_bind fst (pd_repository_path data) eq); [apply keeps_call; [apply _|intros ?; apply prepare_ai_harmless]| |by intros * -> |by intros * ->].
  intros permit s. pose proof (changes_call data _ _ (fun i => execute_and_publish_moves nfc json_pointer registry i (pd_selector data)
    answer' final first second now tnow (artifact_execute data) permit) s) as H.
  destruct (call_application _ _ s) as [s' a], H as [Ho HQ]. split; [done|].
  destruct HQ as [(b & -> & HQ)|[-> [e ->]]]; [|done]. destruct b as [receipt|e]; [|done].
  destruct HQ as (Hm & context & generated & Hg & Hn). split; [done|]. unfold artifact_execute in Hg. by simplify_eq.
Qed.
End Publishing.

(** C21: publishing a prepared proposal does what it says, or leaves it undone.  A new project's
    decision Ref first starts at the base if there is none; then the proposal Ref, which did not
    exist, moves to the prepared Commit by one reflog entry.  Nothing else changes: no object, no
    other Ref, no other repository.  The receipt names the prepared Activity and ContextPack, and
    the pending proposal is ready for review and carries the prepared data.  After an error the
    proposal is not published, with one exception: the error is [WfIntegrity], because the receipt
    of the publication contradicts the prepared data. *)
Theorem proposal_publication sha256 nfc json_pointer registry prepared clock disks :
  let '(disks', pending) := publish_prepared_artifact_proposal sha256 nfc json_pointer registry prepared clock disks in
  let data := pp_data prepared in
  let before := repository_at (pd_repository_path data) disks in
  let after := repository_at (pd_repository_path data) disks' in
  (forall other, other <> pd_repository_path data -> disks' !! other = disks !! other) /\
  exists middle, initialized data before middle /\ (pp_initialize_decision_ref prepared = false -> middle = before) /\
  match pending with
  | Ok pending =>
    (pp_initialize_decision_ref prepared = true ->
       heads (RefStore.tables (Repository.refs middle)) !! pd_decision_ref data = Some (pd_base_head data)) /\
    (exists decision, proposal_moved data middle after (ad_reflog decision) /\
       ref_name (ad_reflog decision) = pd_proposal_ref data /\ old_head (ad_reflog decision) = None /\
       ad_activity_oid decision = pd_activity_oid data /\ ad_context_pack_oid decision = pd_context_oid data) /\
    pa_data pending = data /\ pa_state pending = Ready
  | Err e =>
    after = middle \/
    e = WfIntegrity /\ exists decision, proposal_moved data middle after (ad_reflog decision) /\ receipt_matches data decision = false
  end.
Proof.
  unfold publish_prepared_artifact_proposal. cbv zeta. set (data := pp_data prepared). set (agent := artifact_authenticate _ _).
  set (start := if pp_initialize_decision_ref prepared then _ else _).
  assert (changes Datatypes.id (pd_repository_path data)
    (fun r r' a => initialized data r r' /\ (pp_initialize_decision_ref prepared = false -> r' = r) /\
       (pp_initialize_decision_ref prepared = true -> is_ok a = true -> heads (RefStore.tables (Repository.refs r')) !! pd_decision_ref data = Some (pd_base_head data)))
    start) as Hinit.
  { subst start. destruct (pp_initialize_decision_ref prepared).
    - intros s. pose proof (initialize_changes sha256 nfc data (ck_initialize clock) s) as H.
      destruct (initialize_decision_ref_if_needed _ _ _ _ s) as [s' a], H as (Ho & Hi & Hh). by split_and!.
    - intros s. cbn. split; [done|]. by split; [left|]. }
  specialize (Hinit disks). unfold mbind at 1, flow_bind at 1. destruct (start disks) as [d1 u].
  destruct Hinit as (Ho1 & Hi & Hkeep & Hhead). destruct u as [[]|e]; [|split; [done|]; exists (repository_at (pd_repository_path data) d1); by split_and!; [..|left]].
  unfold mbind at 1, flow_bind at 1.
  pose proof (fun d => changes_on_application data (pp_application prepared) _ _
    (publish_calls_change sha256 nfc json_pointer registry data agent (pd_selector data) (pp_execution prepared) (ck_prepare clock) agent
       agent (ck_first clock) (ck_second clock) (ck_now clock) (ck_transaction clock)) d) as Hpub.
  specialize (Hpub d1).
  destruct (on_application _ _ d1) as [d2 a]. destruct Hpub as (Ho2 & b & Hb & Hab).
  assert (forall other, other <> pd_repository_path data -> d2 !! other = disks !! other) as Ho by (intros other Hne; by rewrite <- Ho1, <- Ho2).
  destruct a as [[application receipt]|e]; subst b.
  2: { split; [done|]. exists (repository_at (pd_repository_path data) d1). split_and!; [done..|]. by left. }
  unfold mbind, flow_bind, answer. destruct (receipt_matches data (ar_decision receipt)) eqn:Em; cbn [negb reject_if].
  2: { split; [done|]. exists (repository_at (pd_repository_path data) d1). split_and!; [done..|]. right. split; [done|]. by eexists. }
  split; [done|]. exists (repository_at (pd_repository_path data) d1). split_and!; [done|done|by intros; apply Hhead| |done|done].
  apply receipt_matches_entry in Em. by eexists.
Qed.

(** ** Decisions *)

Section Deciding.
Variable sha256 : list byte -> list byte.
Variable nfc : list char -> list char.
Variable json_pointer : Json -> str -> option (list nat).
Variable registry : SchemaRegistry.
Variable to_vec : Value -> list byte.

#[local] Instance deciding_store : ObjectStore FileObjectStore := file_object_store sha256 nfc.
#[local] Instance deciding_bounded_store : BoundedObjectStore FileObjectStore := file_bounded_store sha256 nfc.

Abbreviation growth := (grows sha256 nfc).
Abbreviation generated := (generated_structured_oid sha256 nfc json_pointer registry to_vec).

(** A computation at the desk of a proposal with the data keeps the approvals, the data and the
    state, and changes the repository by [Q]. *)
Definition works_on {A} (data : ArtifactProposalData) (Q : FileRepository -> FileRepository -> wresult A -> Prop) (m : Flow Desk A) : Prop :=
  forall desk, pa_data (dk_pending desk) = data ->
    let '(desk', a) := m desk in
    pa_data (dk_pending desk') = data /\ pa_state (dk_pending desk') = pa_state (dk_pending desk) /\
    dk_approvals desk' = dk_approvals desk /\
    (forall other, other <> pd_repository_path data -> dk_disks desk' !! other = dk_disks desk !! other) /\
    Q (repository_at (pd_repository_path data) (dk_disks desk)) (repository_at (pd_repository_path data) (dk_disks desk')) a.

Abbreviation adding data := (works_on data (fun r r' _ => growth r r')).

Lemma works_bind {A B} data (m : Flow Desk A) (k : A -> Flow Desk B) :
  adding data m -> (forall a, adding data (k a)) -> adding data (m ≫= k).
Proof.
  intros Hm Hk desk Hd. specialize (Hm desk Hd). unfold mbind, flow_bind. destruct (m desk) as [desk1 [a|e]]; [|done].
  destruct Hm as (Hd1 & Hs1 & Ha1 & Ho1 & Hg1). specialize (Hk a desk1 Hd1). destruct (k a desk1) as [desk2 b].
  destruct Hk as (Hd2 & Hs2 & Ha2 & Ho2 & Hg2). split_and!; [done|congruence|congruence| |by etransitivity].
  intros other Hne. by rewrite Ho2, Ho1.
Qed.

Lemma works_answer {A} data (r : wresult A) : adding data (answer r).
Proof. intros desk Hd. by split_and!. Qed.

Lemma works_at_disks {A} data (m : Flow Disks A) : keeps Datatypes.id (pd_repository_path data) growth m -> adding data (at_disks m).
Proof.
  intros Hm [disks approvals pending] Hd. unfold at_disks. cbn in *. specialize (Hm disks). destruct (m disks) as [disks' a], Hm as [Ho Hg].
  by split_and!.
Qed.

Lemma works_call {A} data (c : Z -> prog FileObjectStore A) Q :
  (forall i, answers_with (pd_selector data) Q (c i)) -> works_on data (called Q) (call_pending c).
Proof.
  intros Hc [disks approvals pending] Hd. unfold call_pending. cbn [dk_disks dk_approvals dk_pending] in *. subst data.
  pose proof (changes_call (pa_data pending) c Q Hc (disks, pa_application pending)) as H.
  destruct (call_application _ _ _) as [[disks' application] a], H as [Ho HQ]. by split_and!.
Qed.

Lemma works_harmless {A} data (c : Z -> prog FileObjectStore A) :
  (forall i, answers_with (pd_selector data) (fun r r' _ => r' = r) (c i)) -> adding data (call_pending c).
Proof.
  intros Hc desk Hd. pose proof (works_call data c _ Hc desk Hd) as H. destruct (call_pending c desk) as [desk' a].
  destruct H as (Hd' & Hs & Ha & Ho & HQ). split_and!; [done..|]. by destruct HQ as [(b & _ & ->)|[-> _]].
Qed.

Lemma decision_objects_adds data disposition rationale :
  keeps Datatypes.id (pd_repository_path data) growth
    (decision_objects sha256 nfc json_pointer registry to_vec data disposition rationale).
Proof.
  unfold decision_objects. cbv zeta.
  repeat first [apply put_json_adds | apply keeps_open, _ | apply keeps_ret, _ | apply keeps_bind; [apply _| |intros ?]].
Qed.

(** The feedback and the Commit of a Decision, as the checks of a history generate them. *)
Definition decision_generated (data : ArtifactProposalData) (disposition : ArtifactDisposition) (rationale feedback head : str) : Prop :=
  generated (feedback_record nfc to_vec (id_feedback (pd_ids data)) (id_human (pd_ids data)) (id_subject (pd_ids data))
               (pd_proposal_head data) disposition rationale (pd_recorded_at data)) = Ok feedback /\
  generated (commit nfc to_vec (lit "decision") [pd_base_head data]
               (selected_by disposition (pd_proposal_snapshot data) (pd_base_snapshot data)) [feedback] (id_human (pd_ids data))
               (pd_recorded_at data) (lit "Human reviewed generic artifact Proposal")) = Ok head.

Lemma decision_objects_of data disposition rationale :
  answers_only (decision_objects sha256 nfc json_pointer registry to_vec data disposition rationale)
    (fun '(feedback, head) => decision_generated data disposition rationale feedback head).
Proof.
  unfold decision_objects. cbv zeta. intros disks disks' [feedback head] H. apply flow_bind_Ok in H as (s1 & u & _ & H).
  apply flow_bind_Ok in H as (s2 & f & Hf%put_json_generated & H). apply flow_bind_Ok in H as (s3 & h & Hh%put_json_generated & H).
  injection H as _ <- <-. done.
Qed.

(** What taking and checking an approval establishes. *)
Record approved (data : ArtifactProposalData) (state : PendingArtifactState) (credential : Authentication) (registry_instance : Z)
    (approval : ArtifactDecisionApproval) (options : ArtifactDecisionOptions) (now : option Z) (s s' : ApprovalState) : Prop := {
  ap_ready : state = Ready;
  ap_registry : aa_registry_instance approval = registry_instance;
  ap_taken : rs_approvals s' = delete (aa_serial approval) (rs_approvals s);
  ap_record : exists session record at_, credential = AuthSession session /\ now = Some at_ /\
    rs_approvals s !! aa_serial approval = Some record /\
    av_actor_id record = ss_actor_id session /\ av_session_id record = ss_session_id session /\
    av_binding record = durable_binding data /\ av_intent_sha256 record = decision_intent_sha256 sha256 options /\
    av_issued_at record <= at_ < av_not_after record;
}.

Lemma claim_approved data state credential i approval options now s s' :
  claim_artifact_decision sha256 i credential approval (durable_binding data) state options now s = (s', Ok tt) ->
  approved data state credential i approval options now s s'.
Proof.
  unfold claim_artifact_decision. destruct (claim_take i credential approval s) as [[s1 [session record]]|e] eqn:Et; [|done].
  intros H. assert (s' = s1) as -> by congruence. apply (f_equal snd) in H. cbn [snd] in H. unfold claim_take in Et.
  apply bind_Ok in Et as (session' & Ha & Et). apply bind_Ok in Et as (u1 & Hi%reject_if_Ok%negb_false_iff & Et).
  apply bind_Ok in Et as (record' & Hr%ok_or_Ok & Et). apply bind_Ok in Et as (security & _ & [= <- -> ->]).
  apply bind_Ok in H as (at' & H & _). unfold claim_check in H. apply bind_Ok in H as (at_ & Hn%ok_or_Ok & H).
  apply bind_Ok in H as (u2 & _ & H). apply bind_Ok in H as (u3 & Hv%reject_if_Ok%negb_false_iff & _). unfold claim_valid in Hv.
  repeat (apply andb_prop in Hv as [Hv ?]). split; [by eapply bool_decide_eq_true|by apply Z.eqb_eq|done|].
  exists session, record, at_. destruct credential; try done. injection Ha as <-.
  split_and!; [done..|by apply str_eqb_eq|by apply str_eqb_eq|by eapply bool_decide_eq_true|by eapply bool_decide_eq_true|lia|lia].
Qed.

(** A computation that adds objects and, when it succeeds, leaves the proposal [Deciding]. *)
Definition deciding {A} (data : ArtifactProposalData) (m : Flow Desk A) : Prop :=
  forall desk, pa_data (dk_pending desk) = data ->
    let '(desk', a) := m desk in
    pa_data (dk_pending desk') = data /\ dk_approvals desk' = dk_approvals desk /\
    pa_state (dk_pending desk') = (if is_ok a then Deciding else pa_state (dk_pending desk)) /\
    (forall other, other <> pd_repository_path data -> dk_disks desk' !! other = dk_disks desk !! other) /\
    growth (repository_at (pd_repository_path data) (dk_disks desk)) (repository_at (pd_repository_path data) (dk_disks desk')).

Lemma deciding_bind {A B} data (m : Flow Desk A) (k : A -> Flow Desk B) :
  adding data m -> (forall a, deciding data (k a)) -> deciding data (m ≫= k).
Proof.
  intros Hm Hk desk Hd. specialize (Hm desk Hd). unfold mbind, flow_bind. destruct (m desk) as [desk1 [a|e]].
  - destruct Hm as (Hd1 & Hs1 & Ha1 & Ho1 & Hg1). specialize (Hk a desk1 Hd1). destruct (k a desk1) as [desk2 b].
    destruct Hk as (Hd2 & Ha2 & Hs2 & Ho2 & Hg2). split_and!; [done|congruence| | |by etransitivity].
    + by rewrite Hs2, Hs1.
    + intros other Hne. by rewrite Ho2, Ho1.
  - destruct Hm as (Hd1 & Hs1 & Ha1 & Ho1 & Hg1). by split_and!.
Qed.

Lemma deciding_now {A} data (a : A) : deciding data (pending_state Deciding;; mret a).
Proof. intros desk Hd. by split_and!. Qed.

Lemma register_decision_harmless' pending candidate i project :
  answers_with project (fun r r' _ => r' = r) (register_decision pending candidate i).
Proof. unfold register_decision. destruct (pa_admission pending); [apply register_decision_harmless|apply register_recovered_harmless]. Qed.

Lemma publish_decision_call data answer first second now tnow permit :
  works_on data (called human_publishes) (call_pending (fun i => publish_human_decision nfc json_pointer registry i answer first second now tnow permit)).
Proof. apply works_call. intros i. apply publish_human_decision_moves. Qed.

(** The decision that a preparation answers. *)
Definition decision_of (data : ArtifactProposalData) (options : ArtifactDecisionOptions) (prepared : PreparedArtifactDecision) : Prop :=
  px_binding prepared = durable_binding data /\ px_disposition prepared = disposition options /\
  px_selected_snapshot_oid prepared = selected_by (disposition options) (pd_proposal_snapshot data) (pd_base_snapshot data) /\
  px_reviewed_manifest_sha256 prepared =
    selected_by (disposition options) (pr_artifact_manifest_sha256 (pd_receipt data)) (pd_base_manifest_sha256 data) /\
  decision_generated data (disposition options) (default (default_rationale (disposition options)) (private_rationale options))
    (px_feedback_oid prepared) (px_new_decision_head prepared).
End Deciding.

(** C19: a Decision is prepared only under an approval, which is spent.  Success means that the
    registry held a record for this actor and session, this proposal and this very choice, within
    its time; the record is gone, the proposal was [Ready] and is [Deciding], and the Decision
    names the generated feedback and Commit on the base.  After an error the state is what it was,
    even if the approval was spent.  In both cases no Ref moves: objects are only added. *)
Theorem decision_preparation sha256 nfc json_pointer registry to_vec i credential approval options claim_now permit_now desk :
  let '(desk', prepared) := prepare_artifact_decision sha256 nfc json_pointer registry to_vec i credential approval options claim_now
    permit_now desk in
  let data := pa_data (dk_pending desk) in
  pa_data (dk_pending desk') = data /\
  (forall other, other <> pd_repository_path data -> dk_disks desk' !! other = dk_disks desk !! other) /\
  grows sha256 nfc (repository_at (pd_repository_path data) (dk_disks desk)) (repository_at (pd_repository_path data) (dk_disks desk')) /\
  match prepared with
  | Ok prepared =>
    approved sha256 data (pa_state (dk_pending desk)) credential i approval options claim_now (dk_approvals desk) (dk_approvals desk') /\
    pa_state (dk_pending desk') = Deciding /\
    decision_of sha256 nfc json_pointer registry to_vec data options prepared
  | Err _ => pa_state (dk_pending desk') = pa_state (dk_pending desk)
  end.
Proof.
  unfold prepare_artifact_decision. cbv zeta. set (data := pa_data (dk_pending desk)).
  match goal with |- context [(claim_approval _ _ _ _ _ _ ≫= ?k) desk] => set (rest := k) end.
  assert (forall u, deciding sha256 nfc data (rest u)) as Hrest.
  { intros u. subst rest. cbv beta. apply deciding_bind; [apply works_harmless; intros ?; apply verify_recovered_harmless|intros ?].
    apply deciding_bind; [apply works_answer|intros ?]. apply deciding_bind; [apply works_at_disks, decision_objects_adds|intros [? ?]].
    apply deciding_bind; [apply works_harmless; intros ?; apply register_decision_harmless'|intros ?].
    apply deciding_bind; [apply works_harmless; intros ?; apply prepare_human_harmless|intros ?]. apply deciding_now. }
  assert (forall u, answers_only (rest u) (decision_of sha256 nfc json_pointer registry to_vec data options)) as Hof.
  { intros u s s' prepared H. subst rest. cbv beta in H. do 2 (apply flow_bind_Ok in H as (? & ? & _ & H)).
    apply flow_bind_Ok in H as (s1 & [feedback head] & Ho & H). do 3 (apply flow_bind_Ok in H as (? & ? & _ & H)). injection H as _ <-.
    split_and!; [done..|]. unfold at_disks in Ho. destruct (decision_objects _ _ _ _ _ _ _ _ _) as [disks a] eqn:E. injection Ho as _ ->.
    by apply decision_objects_of in E. }
  clearbody rest. unfold mbind, flow_bind, claim_approval. fold data.
  destruct (claim_artifact_decision _ _ _ _ _ _ _ _ _) as [approvals [u|e]] eqn:Ec; [|by split_and!]. destruct u.
  apply claim_approved in Ec. cbn [map_err].
  specialize (Hrest tt {| dk_disks := dk_disks desk; dk_approvals := approvals; dk_pending := dk_pending desk |} eq_refl).
  specialize (Hof tt {| dk_disks := dk_disks desk; dk_approvals := approvals; dk_pending := dk_pending desk |}).
  destruct (rest tt _) as [desk' prepared]. destruct Hrest as (Hd & Ha & Hs & Ho & Hg). split_and!; [done..|].
  destruct prepared as [prepared|e]; [|done]. split_and!; [by rewrite Ha|done|by eapply Hof].
Qed.

(** What the publication of a Decision did: the decision Ref moved to the prepared Commit by one
    reflog entry, while a Ref of the proposal namespace stood at the proposal. *)
Definition decision_moved (data : ArtifactProposalData) (prepared : PreparedArtifactDecision) (r r' : FileRepository) : Prop :=
  exists entry, ref_moved r r' entry /\ ref_name entry = pd_decision_ref data /\ old_head entry = Some (pd_base_head data) /\
    new_head entry = px_new_decision_head prepared /\
    exists proposal_ref, namespace proposal_ref = Some (lit "proposal") /\
      heads (RefStore.tables (Repository.refs r)) !! proposal_ref = Some (pd_proposal_head data).

Lemma decision_matches_moved data prepared receipt r r' :
  decision_matches data prepared receipt = true -> human_publishes r r' (Ok receipt) -> decision_moved data prepared r r'.
Proof.
  unfold decision_matches. intros H (Hm & proposal_ref & Hn & Hp). repeat (apply andb_prop in H as [H ?]). exists (rc_reflog receipt).
  split_and!; [done|by apply str_eqb_eq|by eapply bool_decide_eq_true|by apply str_eqb_eq|]. exists proposal_ref. split; [done|].
  rewrite Hp. f_equal. by apply str_eqb_eq.
Qed.

(** What the publication of a prepared Decision does to the desk and the repository. *)
Lemma publish_decision_moves sha256 nfc json_pointer registry prepared first second now transaction_now desk :
  let '(desk', publication) :=
    publish_prepared_artifact_decision sha256 nfc json_pointer registry prepared first second now transaction_now desk in
  let data := pa_data (dk_pending desk) in
  let before := repository_at (pd_repository_path data) (dk_disks desk) in
  let after := repository_at (pd_repository_path data) (dk_disks desk') in
  pa_data (dk_pending desk') = data /\ dk_approvals desk' = dk_approvals desk /\
  (forall other, other <> pd_repository_path data -> dk_disks desk' !! other = dk_disks desk !! other) /\
  match publication with
  | Ok publication =>
    pa_state (dk_pending desk') = Consumed /\ decision_moved data prepared before after /\
    dp_binding publication = durable_binding data /\ dp_new_decision_head publication = px_new_decision_head prepared /\
    dr_disposition (dp_receipt publication) = px_disposition prepared /\
    dr_reviewed_artifact_manifest_sha256 (dp_receipt publication) = px_reviewed_manifest_sha256 prepared
  | Err e =>
    pa_state (dk_pending desk') = DecisionOutcomeUnknown /\
    (after = before \/ e = WfIntegrity /\ exists entry, ref_moved before after entry)
  end.
Proof.
  unfold publish_prepared_artifact_decision. cbv zeta. set (data := pa_data (dk_pending desk)).
  unfold mbind, flow_bind, or_unknown, answer. destruct (bool_decide (pa_state _ = Deciding)) eqn:Es; cbn [negb orb].
  2: { cbn. by split_and!; [..|left]. }
  destruct (bool_decide (durable_binding data = px_binding prepared)) eqn:Eb; cbn [negb reject_if].
  2: { cbn. by split_and!; [..|left]. }
  apply bool_decide_eq_true in Eb. pose proof (publish_decision_call sha256 nfc json_pointer registry data (artifact_authenticate (pd_ids data) HUMAN_CREDENTIAL) first second
    now transaction_now (px_permit prepared) desk eq_refl) as H.
  match type of H with context [call_pending ?c desk] => set (call := call_pending c desk) in H; change (call_pending _ desk) with call end.
  destruct call as [desk1 receipt].
  destruct H as (Hd & Hs & Ha & Ho & [(a & -> & HQ)|[Hr [e ->]]]).
  2: { cbn. split_and!; [done|done|done|done|by left]. }
  destruct a as [receipt|e]; cbn [map_err].
  2: { cbn. split_and!; [done|done|done|done|by left]. }
  destruct (decision_matches data prepared receipt) eqn:Em; cbn [negb reject_if].
  - cbn. split_and!; [done|done|done|done|by eapply decision_matches_moved|done..].
  - cbn. split_and!; [done|done|done|done|]. right. split; [done|]. eexists. by destruct HQ.
Qed.

(** C20: a prepared Decision is published only once and only for its own proposal.  A proposal
    that is not [Deciding], or a Decision prepared for another one, changes nothing.  Success
    means that exactly the decision Ref moved, from the base to the prepared Commit, while the
    proposal still stood; the proposal is [Consumed].  After any error the outcome counts as
    unknown, although the repository is unchanged unless the core's receipt contradicted the
    prepared Decision. *)
Theorem decision_publication sha256 nfc json_pointer registry prepared first second now transaction_now desk :
  let '(desk', publication) :=
    publish_prepared_artifact_decision sha256 nfc json_pointer registry prepared first second now transaction_now desk in
  let data := pa_data (dk_pending desk) in
  let before := repository_at (pd_repository_path data) (dk_disks desk) in
  let after := repository_at (pd_repository_path data) (dk_disks desk') in
  pa_data (dk_pending desk') = data /\ dk_approvals desk' = dk_approvals desk /\
  (forall other, other <> pd_repository_path data -> dk_disks desk' !! other = dk_disks desk !! other) /\
  (pa_state (dk_pending desk) <> Deciding \/ px_binding prepared <> durable_binding data ->
     publication = Err WfDecisionUnavailable /\ dk_disks desk' = dk_disks desk) /\
  match publication with
  | Ok publication =>
    pa_state (dk_pending desk') = Consumed /\ decision_moved data prepared before after /\
    dp_binding publication = durable_binding data /\ dp_new_decision_head publication = px_new_decision_head prepared /\
    dr_disposition (dp_receipt publication) = px_disposition prepared /\
    dr_reviewed_artifact_manifest_sha256 (dp_receipt publication) = px_reviewed_manifest_sha256 prepared
  | Err e =>
    pa_state (dk_pending desk') = DecisionOutcomeUnknown /\
    (after = before \/ e = WfIntegrity /\ exists entry, ref_moved before after entry)
  end.
Proof.
  pose proof (publish_decision_moves sha256 nfc json_pointer registry prepared first second now transaction_now desk) as H.
  destruct (publish_prepared_artifact_decision _ _ _ _ _ _ _ _ _ desk) as [desk' publication] eqn:E. destruct H as (Hd & Ha & Ho & Hm).
  do 3 (split; [done|]). split; [|exact Hm]. intros Hgate. unfold publish_prepared_artifact_decision in E. cbv zeta in E.
  rewrite (proj2 (orb_true_iff _ _)) in E; [by injection E as <- <-|].
  destruct Hgate as [Hs|Hb]; [left|right]; apply negb_true_iff, bool_decide_eq_false_2; congruence.
Qed.

(** ** Recovery of a published proposal *)

Section Recovering.
Variable sha256 : list byte -> list byte.
Variable nfc : list char -> list char.
Variable to_lowercase : char -> list char.
Variable json_pointer : Json -> str -> option (list nat).
Variable registry : SchemaRegistry.

(** The data repeat the binding, whose Refs stand in the repository; the files of the published
    site have the expected digest, and the base is the snapshot of the decision head. *)
Record published_data (config : TrustedArtifactProjectConfig) (binding : DurableProposalBinding) (digest : str) (r : FileRepository)
    (data : ArtifactProposalData) : Prop := {
  pb_path : pd_repository_path data = cf_repository config;
  pb_binding : pd_selector data = project_selector sha256 config /\ pd_proposal_ref data = db_proposal_ref_name binding /\
    pd_proposal_head data = db_proposal_head binding /\ pd_decision_ref data = decision_ref_of (cf_project_key config) /\
    pd_base_head data = db_decision_head binding;
  pb_stands : heads (RefStore.tables (Repository.refs r)) !! db_decision_ref_name binding = Some (db_decision_head binding) /\
    heads (RefStore.tables (Repository.refs r)) !! db_proposal_ref_name binding = Some (db_proposal_head binding);
  pb_files : exists published manifest,
    read_published_proposal sha256 nfc json_pointer registry r binding (pd_ids data) (pd_base_snapshot data) = Ok published /\
    read_site_manifest sha256 nfc to_lowercase json_pointer registry r (pu_site published) default_artifact_limits = Ok manifest /\
    artifact_manifest_sha256 sha256 manifest = digest /\ pr_artifact_manifest_sha256 (pd_receipt data) = digest;
  pb_base : exists commit, load_structured_value sha256 nfc json_pointer registry r (pd_base_head data) Commit = Ok commit /\
    value_string commit (lit "snapshot") = Ok (pd_base_snapshot data);
}.

Lemma read_published_data config binding digest attempt r data authority :
  read_published sha256 nfc to_lowercase json_pointer registry config binding digest attempt r = Ok (data, authority) ->
  published_data config binding digest r data.
Proof.
  unfold read_published. cbv zeta. intros H.
  apply bind_Ok in H as (decision_head & Hd & H). apply bind_Ok in H as (u1 & Hd'%reject_if_Ok%negb_false_iff%bool_decide_eq_true & H). subst decision_head.
  apply bind_Ok in H as (proposal_head & Hp & H). apply bind_Ok in H as (u2 & Hp'%reject_if_Ok%negb_false_iff%bool_decide_eq_true & H). subst proposal_head.
  apply bind_Ok in H as (u3 & _ & H). apply bind_Ok in H as (base & Hb & H). apply bind_Ok in H as (snapshot & Hs & H).
  apply bind_Ok in H as (published & Hpub & H). apply bind_Ok in H as ([[policy grant] blob] & _ & H). apply bind_Ok in H as (u4 & _ & H).
  apply bind_Ok in H as (auth & _ & H). apply bind_Ok in H as (manifest & Hm & H).
  apply bind_Ok in H as (u5 & Hdig%reject_if_Ok%negb_false_iff%str_eqb_eq & H).
  do 7 (apply bind_Ok in H as (? & _ & H)). injection H as <- _.
  split; cbn; [done|by split_and!|split; by apply head_found|by exists published, manifest|by exists base].
Qed.

Lemma recover_keeps config binding digest i :
  keeps Datatypes.id (cf_repository config) eq
    (recover_published_artifact_proposal sha256 nfc to_lowercase json_pointer registry config binding digest i).
Proof.
  unfold recover_published_artifact_proposal, derive_published_artifact_proposal. cbv zeta.
  do 4 (apply keeps_bind; [apply _|apply keeps_answer, _|]; intros ?). apply keeps_bind; [apply _|apply keeps_open, _|intros ?].
  eapply (keeps_bind_only _ _ _ _ _ (fun '(data, _) => pd_repository_path data = cf_repository config)); [|apply keeps_reading, _|].
  - intros disks disks' [data authority] H. apply (f_equal snd) in H. cbn [snd reading_at] in H. by apply read_published_data, pb_path in H.
  - intros [data authority] <-. apply install_recovered_adds, _.
Qed.

Lemma install_recovered_data i data authority binding :
  answers_only (install_recovered_pending i data authority binding) (fun pending => pa_data pending = data /\ pa_state pending = Ready).
Proof. unfold install_recovered_pending. apply only_bind. intros ?. apply only_bind. intros [? ?]. by apply only_ret. Qed.
End Recovering.

(** ** The fuel of a site

    Each step of the loop counts a Tree, and the code rejects more than 100,000. *)

Section SiteFuel.
Variable sha256 : list byte -> list byte.
Variable nfc : list char -> list char.
Variable to_lowercase : char -> list char.
Variable json_pointer : Json -> str -> option (list nat).
Variable registry : SchemaRegistry.

Definition answered {A} (r : wresult A) : Prop := r <> Err WorkflowOutOfFuel.

Lemma answered_bind {A B} (m : wresult A) (k : A -> wresult B) : answered m -> (forall a, answered (k a)) -> answered (m ≫= k).
Proof. intros Hm Hk. destruct m as [a|e]; [apply Hk|]. cbn. unfold answered in *. congruence. Qed.
Lemma answered_map {E A} (f : E -> WorkflowError) (r : result E A) : (forall e, f e <> WorkflowOutOfFuel) -> answered (map_err f r).
Proof. intros Hf. destruct r as [a|e]; cbn; [done|]. intros [= H]. by eapply Hf. Qed.
Lemma answered_ok_or {A} (o : option A) e : e <> WorkflowOutOfFuel -> answered (ok_or o e).
Proof. destruct o; [done|]. cbn. intros He [= H]. done. Qed.
Lemma answered_reject b e : e <> WorkflowOutOfFuel -> answered (reject_if b e).
Proof. destruct b; [|done]. cbn. intros He [= H]. done. Qed.

Lemma answered_or_integrity {A} (r : cresult A) : answered (or_integrity r).
Proof. apply answered_map. intros e. by destruct e. Qed.

Ltac answers :=
  intros;
  repeat first
    [ done | apply answered_or_integrity | apply answered_map; done | apply answered_ok_or; done | apply answered_reject; done | apply answered_bind; [|intros ?]
    | match goal with |- answered (if ?b then _ else _) => destruct b | x : (_ * _)%type |- _ => destruct x end ].

Lemma load_answers r oid kind : answered (load_structured_value sha256 nfc json_pointer registry r oid kind).
Proof. unfold load_structured_value, of_canonical. answers. Qed.

Lemma read_site_entry_answers r limits tree segment entry s : answered (read_site_entry sha256 r limits tree segment entry s).
Proof. unfold read_site_entry, read_site_file, entry_fields, of_canonical. cbv zeta. answers. Qed.

Lemma read_site_entry_nodes r limits tree segment entry s s' :
  read_site_entry sha256 r limits tree segment entry s = Ok s' -> sr_tree_nodes s' = sr_tree_nodes s.
Proof.
  unfold read_site_entry. cbv zeta. intros H. do 5 (apply bind_Ok in H as (? & _ & H)). apply bind_Ok in H as ([[kind oid] count] & _ & H).
  apply bind_Ok in H as (? & _ & H). destruct (str_eqb _ _).
  - do 2 (apply bind_Ok in H as (? & _ & H)). by injection H as <-.
  - destruct (str_eqb _ _); [|done]. do 2 (apply bind_Ok in H as (? & _ & H)). unfold read_site_file in H. cbv zeta in H.
    do 6 (apply bind_Ok in H as (? & _ & H)). by injection H as <-.
Qed.

Lemma read_site_entries_answers r limits tree children : forall s, answered (read_site_entries sha256 r limits tree children s).
Proof.
  induction children as [|[segment entry] children IH]; intros s; [done|]. apply answered_bind; [apply read_site_entry_answers|apply IH].
Qed.

Lemma read_site_entries_nodes r limits tree children : forall s s',
  read_site_entries sha256 r limits tree children s = Ok s' -> sr_tree_nodes s' = sr_tree_nodes s.
Proof.
  induction children as [|[segment entry] children IH]; intros s s' H; [by injection H as <-|].
  apply bind_Ok in H as (s1 & Hs%read_site_entry_nodes & H%IH). congruence.
Qed.

Lemma read_site_tree_answers r limits tree s : answered (read_site_tree sha256 nfc json_pointer registry r limits tree s).
Proof.
  unfold read_site_tree, entries_of. answers; apply read_site_entries_answers.
Qed.

Lemma read_site_tree_nodes r limits tree s s' : read_site_tree sha256 nfc json_pointer registry r limits tree s = Ok s' ->
  sr_tree_nodes s' = sr_tree_nodes s + 1 /\ sr_tree_nodes s' <= 100000.
Proof.
  unfold read_site_tree. intros H. apply bind_Ok in H as (nodes & Hn%ok_or_Ok & H). apply bind_Ok in H as (u & Hl%reject_if_Ok & H).
  do 2 (apply bind_Ok in H as (? & _ & H)). apply read_site_entries_nodes in H. cbn in H. rewrite H.
  unfold usize_checked_add in Hn. destruct (_ <=? _) in Hn; [|done]. injection Hn as <-. lia.
Qed.

Lemma read_site_trees_answers r limits fuel : forall s, sr_tree_nodes s <= 100000 < Z.of_nat fuel + sr_tree_nodes s ->
  answered (read_site_trees sha256 nfc json_pointer registry fuel r limits s).
Proof.
  induction fuel as [|fuel IH]; intros s Hf; cbn [read_site_trees]; destruct (sr_pending s) as [|tree pending]; [done|lia|done|].
  intros H. apply bind_Err in H as [H|(s' & Hs%read_site_tree_nodes & H)]; [by eapply read_site_tree_answers|].
  cbn [sr_tree_nodes] in Hs. eapply IH; [|exact H]. lia.
Qed.

(** Reading the files of a site always answers. *)
Lemma read_site_manifest_answers r site limits :
  answered (read_site_manifest sha256 nfc to_lowercase json_pointer registry r site limits).
Proof.
  unfold read_site_manifest. apply answered_bind; [|intros; by apply answered_map]. apply read_site_trees_answers.
  unfold site_read_fuel. cbn [sr_tree_nodes]. lia.
Qed.
End SiteFuel.

(** C23: recovering a published proposal writes nothing and answers what was published.  Whatever
    the repositories hold, they stay as they are.  A recovered proposal is ready for review and
    has exactly the requested binding; both Refs of it stand at the heads that it names, the base
    is the snapshot of the decision head, and the files of the published site have the digest
    that the caller expected. *)
Theorem recovery_exact sha256 nfc to_lowercase json_pointer registry config binding digest i disks :
  let '(disks', pending) :=
    recover_published_artifact_proposal sha256 nfc to_lowercase json_pointer registry config binding digest i disks in
  let r := repository_at (cf_repository config) disks in
  (forall path, repository_at path disks' = repository_at path disks) /\
  match pending with
  | Ok pending =>
    pa_state pending = Ready /\ durable_binding (pa_data pending) = binding /\
    published_data sha256 nfc to_lowercase json_pointer registry config binding digest r (pa_data pending)
  | Err _ => True
  end.
Proof.
  pose proof (recover_keeps sha256 nfc to_lowercase json_pointer registry config binding digest i disks) as Hk.
  destruct (recover_published_artifact_proposal _ _ _ _ _ _ _ _ _ _) as [disks' pending] eqn:E. destruct Hk as [Ho Hr]. cbv zeta. split.
  { intros path. destruct (decide (path = cf_repository config)) as [->|Hne]; [done|]. unfold repository_at. f_equal. by apply Ho. }
  destruct pending as [pending|e]; [|done].
  unfold recover_published_artifact_proposal, derive_published_artifact_proposal in E. cbv zeta in E.
  apply answer_then in E as (u1 & _ & E). apply answer_then in E as (u2 & _ & E).
  apply answer_then in E as (u3 & Hp%reject_if_Ok%orb_false_iff & E). apply answer_then in E as (u4 & _ & E). rewrite open_then in E.
  apply reading_then in E as ([data authority] & Hd & E). rewrite repository_at_insert in Hd. apply read_published_data in Hd.
  apply install_recovered_data in E as [-> ->]. split; [done|]. split; [|done].
  destruct Hp as [Hp1%negb_false_iff%str_eqb_eq Hp2%negb_false_iff%str_eqb_eq]. destruct (pb_binding _ _ _ _ _ _ _ _ _ _ Hd) as (E1 & E2 & E3 & E4 & E5).
  unfold durable_binding. rewrite E1, E2, E3, E4, E5, <- Hp1, <- Hp2. by destruct binding.
Qed.

(** ** The history of Decisions

    [verify_artifact_decision_descendant] walks from a Decision to the checkpoint where the
    project began. *)

(** The equality of [Value] is equality. *)
Lemma value_eqb_eq v : forall w, value_eqb v w = true -> v = w.
Proof.
  induction v as [|b|n|s|vs IH|es IH] using Value_ind; intros [|b'|n'|s'|ws|fs] H; try done.
  - apply Bool.eqb_prop in H. by subst.
  - apply Z.eqb_eq in H. by subst.
  - apply str_eqb_eq in H. by subst.
  - f_equal. revert ws H. induction IH as [|v vs Hv _ IHvs]; intros [|w ws] H; try done. cbn in H. apply andb_prop in H as [H1 H2].
    f_equal; [by apply Hv|by apply IHvs].
  - f_equal. revert fs H. induction IH as [|[k v] es Hv _ IHes]; intros [|[l w] fs] H; try done. cbn in H.
    apply andb_prop in H as [H H2]. apply andb_prop in H as [H0 H1]. apply str_eqb_eq in H0 as ->.
    f_equal; [f_equal; by apply Hv|by apply IHes].
Qed.

Section History.
Variable sha256 : list byte -> list byte.
Variable nfc : list char -> list char.
Variable json_pointer : Json -> str -> option (list nat).
Variable registry : SchemaRegistry.
Variable to_vec : Value -> list byte.

Abbreviation load h := (load_structured_value sha256 nfc json_pointer registry (hy_repository h)).
Abbreviation history_commit := (validate_artifact_history_commit sha256 nfc json_pointer registry to_vec).

(** The object is stored, and its value is the generated one. *)
Definition stored_as (h : History) (oid : str) (kind : ObjectKind) (expected : option Value) : Prop :=
  exists value generated, load h oid kind = Ok value /\ expected = Some generated /\ parse_strict nfc (to_vec generated) = Ok value.

Lemma generated_stored h oid kind value expected :
  load h oid kind = Ok value -> require_generated_value nfc to_vec value expected = Ok tt -> stored_as h oid kind expected.
Proof.
  intros Hl H. unfold require_generated_value in H. apply bind_Ok in H as (generated & He & H). apply bind_Ok in H as (w & Hw & H).
  apply reject_if_Ok, negb_false_iff, value_eqb_eq in H as ->. exists w, generated. split; [done|].
  split; [by destruct expected; simplify_eq/=|]. by apply map_err_Ok in Hw.
Qed.

(** The checkpoint where the project began. *)
Definition began (h : History) (head : str) : Prop := exists snapshot,
  stored_as h head Commit
    (commit nfc to_vec (lit "checkpoint") [] snapshot [] (id_human (hy_stable_ids h)) (cf_recorded_at (hy_config h))
       (lit "Generic artifact project initialized")).

(** A Decision on its parent: the Ref of its attempt stands at the proposal, which is a generated
    Commit on the parent; the feedback names it with the disposition that selects the snapshot. *)
Definition decided (h : History) (head parent : str) : Prop :=
  let config := hy_config h in
  let attempt := artifact_attempt_id sha256 (cf_project_key config) parent in
  let ids := from_key_and_attempt sha256 (cf_project_key config) attempt in
  exists proposal disposition rationale feedback proposal_snapshot base_snapshot activity parent_commit,
    snapshot_ref_head (hy_refs h) (hy_proposal_namespace h ++ lit "/" ++ attempt) = Some proposal /\
    load h parent Commit = Ok parent_commit /\ value_string parent_commit (lit "snapshot") = Ok base_snapshot /\
    stored_as h proposal Commit
      (commit nfc to_vec (lit "checkpoint") [parent] proposal_snapshot [activity] (id_agent ids) (cf_recorded_at config)
         (lit "Generic artifact Proposal; canonical Decision unchanged")) /\
    stored_as h feedback Record
      (feedback_record nfc to_vec (id_feedback ids) (id_human ids) (id_subject ids) proposal disposition rationale (cf_recorded_at config)) /\
    stored_as h head Commit
      (commit nfc to_vec (lit "decision") [parent] (selected_by disposition proposal_snapshot base_snapshot) [feedback] (id_human ids)
         (cf_recorded_at config) (lit "Human reviewed generic artifact Proposal")).

Lemma checkpoint_began h head value : load h head Commit = Ok value ->
  validate_history_checkpoint sha256 nfc json_pointer registry to_vec h value = Ok tt -> began h head.
Proof.
  intros Hl H. unfold validate_history_checkpoint in H. cbv zeta in H.
  do 2 (apply bind_Ok in H as (? & _ & H)). apply bind_Ok in H as (snapshot & _ & H). do 10 (apply bind_Ok in H as (? & _ & H)).
  apply bind_Ok in H as (at_ & _ & H). apply bind_Ok in H as (u & Hat%reject_if_Ok%negb_false_iff%str_eqb_eq & H). subst at_.
  apply bind_Ok in H as ([] & Hg & _). exists snapshot. by eapply generated_stored.
Qed.

Lemma proposal_stands h ids parent proposal_head at_ attempt activity snapshot proposal :
  history_proposal sha256 nfc json_pointer registry h ids parent proposal_head at_ attempt = Ok (activity, snapshot, proposal) ->
  load h proposal_head Commit = Ok proposal /\ at_ = cf_recorded_at (hy_config h) /\
  snapshot_ref_head (hy_refs h) (hy_proposal_namespace h ++ lit "/" ++ attempt) = Some proposal_head.
Proof.
  unfold history_proposal. intros H. apply bind_Ok in H as (value & Hl & H). do 6 (apply bind_Ok in H as (? & _ & H)).
  apply bind_Ok in H as (u & Hs%reject_if_Ok%negb_false_iff%bool_decide_eq_true & H). apply bind_Ok in H as (ai & _ & H).
  apply bind_Ok in H as (authored & _ & H). apply bind_Ok in H as (u1 & Ha%reject_if_Ok & H).
  do 2 (apply bind_Ok in H as (? & _ & H)). injection H as _ _ <-. apply orb_false_iff in Ha as [[_ Ha]%orb_false_iff Hb].
  apply negb_false_iff, str_eqb_eq in Ha, Hb. split_and!; [done|by subst|done].
Qed.

Lemma decision_decided h head value parent : load h head Commit = Ok value ->
  validate_history_decision sha256 nfc json_pointer registry to_vec h value = Ok parent -> decided h head parent.
Proof.
  intros Hl H. unfold validate_history_decision in H. cbv zeta in H.
  do 7 (apply bind_Ok in H as (? & _ & H)). apply bind_Ok in H as (at_ & _ & H). apply bind_Ok in H as (feedback_oid & _ & H).
  apply bind_Ok in H as (feedback & Hf & H). apply bind_Ok in H as ([[proposal_head disposition] rationale] & _ & H).
  apply bind_Ok in H as ([[activity snapshot] proposal] & (Hp & -> & Hs)%proposal_stands & H).
  do 5 (apply bind_Ok in H as (? & _ & H)). apply bind_Ok in H as (parent_commit & Hpc & H).
  apply bind_Ok in H as (base & Hb & H). do 8 (apply bind_Ok in H as (? & _ & H)).
  apply bind_Ok in H as ([] & Hgp & H). apply bind_Ok in H as ([] & Hgf & H). apply bind_Ok in H as ([] & Hgd & [= ->]).
  exists proposal_head, disposition, rationale, feedback_oid, snapshot, base, activity, parent_commit.
  split_and!; [done..|by eapply generated_stored|by eapply generated_stored|]. eapply generated_stored; [done|]. by destruct disposition.
Qed.

Lemma commit_generated h head parent : history_commit h head = Ok parent ->
  match parent with None => began h head | Some parent => decided h head parent end.
Proof.
  unfold validate_artifact_history_commit. intros H. apply bind_Ok in H as (value & Hl & H). apply bind_Ok in H as (u & _ & H).
  apply bind_Ok in H as (kind & _ & H). destruct (str_eqb kind _).
  - apply bind_Ok in H as ([] & Hc & [= <-]). by eapply checkpoint_began.
  - apply bind_Ok in H as (u1 & _ & H). apply bind_Ok in H as (p & Hd & [= <-]). by eapply decision_decided.
Qed.

(** A chain of accepted Commits, from the latest to the first. *)
Inductive accepted_history (h : History) : list str -> Prop :=
| accepted_start head : history_commit h head = Ok None -> accepted_history h [head]
| accepted_decision head parent rest :
    history_commit h head = Ok (Some parent) -> accepted_history h (parent :: rest) -> accepted_history h (head :: parent :: rest).

(** The same chain as what the project generates. *)
Inductive generated_history (h : History) : list str -> Prop :=
| generated_start head : began h head -> generated_history h [head]
| generated_decision head parent rest :
    decided h head parent -> generated_history h (parent :: rest) -> generated_history h (head :: parent :: rest).

Lemma accepted_generated h commits : accepted_history h commits -> generated_history h commits.
Proof. induction 1 as [head H|head parent rest H _ IH]; constructor; try done; by apply commit_generated in H. Qed.

(** The loop accepts exactly the chains of at most [bound] Commits that avoid the visited ones. *)
Lemma descendant_loop_spec h ancestor bound : forall cursor visited seen answer,
  descendant_loop sha256 nfc json_pointer registry to_vec bound h ancestor cursor visited seen = Ok answer <->
  exists rest, accepted_history h (cursor :: rest) /\ NoDup (cursor :: rest) /\ (length (cursor :: rest) <= bound)%nat /\
    (forall commit, commit ∈ cursor :: rest -> commit ∉ visited) /\ answer = seen || bool_decide (ancestor ∈ cursor :: rest).
Proof.
  induction bound as [|bound IH]; intros cursor visited seen answer; cbn [descendant_loop].
  { split; [done|]. intros (rest & _ & _ & Hl & _). cbn in Hl. lia. }
  assert (forall rest, seen || bool_decide (ancestor ∈ cursor :: rest) = (seen || str_eqb cursor ancestor) || bool_decide (ancestor ∈ rest)) as Hseen.
  { intros rest. rewrite <- orb_assoc. f_equal. destruct (str_eqb cursor ancestor) eqn:E.
    - apply str_eqb_eq in E as ->. apply bool_decide_eq_true. left.
    - apply bool_decide_ext. split; [intros [->|]%elem_of_cons; [by rewrite str_eqb_refl in E|done]|by right]. }
  split.
  - intros H. apply bind_Ok in H as (u & Hv%reject_if_Ok%bool_decide_eq_false & H). apply bind_Ok in H as (parent & Hp & H).
    destruct parent as [parent|].
    + apply IH in H as (rest & Hc & Hn & Hl & Hd & ->). exists (parent :: rest). split; [by constructor|]. split.
      { constructor; [|done]. intros Hin%Hd. set_solver. }
      split; [cbn in *; lia|]. split; [|by rewrite Hseen]. intros commit [->|Hin]%elem_of_cons; [done|]. apply Hd in Hin. set_solver.
    + injection H as <-. exists []. split_and!; [by constructor|apply NoDup_singleton|cbn; lia| |by rewrite Hseen, orb_false_r].
      intros commit Hin. apply list_elem_of_singleton in Hin as ->. done.
  - intros (rest & Hc & Hn & Hl & Hd & ->). rewrite bool_decide_eq_false_2 by (apply Hd; left). cbn [reject_if mbind result_bind].
    rewrite Hseen. inversion Hc as [head Hh|head parent rest' Hh Hr]; subst; rewrite Hh; cbn [mbind result_bind].
    + by rewrite orb_false_r.
    + apply IH. exists rest'. apply NoDup_cons in Hn as [Hn1 Hn2]. split_and!; [done|done|cbn in *; lia| |done].
      intros commit Hin. assert (commit ∉ visited) by (apply Hd; by right). set_solver.
Qed.
End History.

(** C24: the check that one Decision descends from another answers exactly when the decision Ref
    stands at the descendant and the repository holds a complete history below it: a chain of at
    most 10,000 distinct Commits that its checks accept, down to the checkpoint where the project
    began.  The answer tells whether the ancestor is on that chain.  And such a chain is what the
    project itself generates: every Decision selects the snapshot of its disposition, on the
    generated feedback and the generated proposal at which the Ref of its attempt stands. *)
Theorem descendant_check sha256 nfc json_pointer registry to_vec config repository refs decision_ref ancestor descendant answer :
  let stable_ids := from_key_and_attempt sha256 (cf_project_key config) (lit "history-check") in
  let namespace := proposal_namespace_of (cf_project_key config) in
  let history expected :=
    {| hy_config := config; hy_repository := repository; hy_refs := refs; hy_decision_ref := decision_ref; hy_proposal_namespace := namespace;
       hy_stable_ids := stable_ids; hy_expected := expected |} in
  (verify_artifact_decision_descendant sha256 nfc json_pointer registry to_vec config repository refs decision_ref ancestor descendant = Ok answer <->
   config_valid config = true /\ decision_ref = decision_ref_of (cf_project_key config) /\
   is_kind ancestor Commit = true /\ is_kind descendant Commit = true /\ snapshot_ref_head refs decision_ref = Some descendant /\
   exists expected older,
     expected_artifact_authority_oids sha256 nfc json_pointer registry to_vec config stable_ids decision_ref namespace = Ok expected /\
     accepted_history sha256 nfc json_pointer registry to_vec (history expected) (descendant :: older) /\
     NoDup (descendant :: older) /\ len (descendant :: older) <= 10000 /\ answer = bool_decide (ancestor ∈ descendant :: older)) /\
  (forall expected commits, accepted_history sha256 nfc json_pointer registry to_vec (history expected) commits ->
     generated_history sha256 nfc json_pointer registry to_vec (history expected) commits).
Proof.
  cbv zeta. split; [|intros expected commits; apply accepted_generated]. unfold verify_artifact_decision_descendant. cbv zeta. split.
  - intros H. apply bind_Ok in H as (u1 & Hc%reject_if_Ok%negb_false_iff & H). apply bind_Ok in H as (u2 & Hk%reject_if_Ok & H).
    apply bind_Ok in H as (u3 & Hs%reject_if_Ok%negb_false_iff%bool_decide_eq_true & H). apply bind_Ok in H as (expected & He & H).
    apply descendant_loop_spec in H as (older & Ha & Hn & Hl & _ & ->).
    apply orb_false_iff in Hk as [[Hk1 Hk2]%orb_false_iff Hk3]. apply negb_false_iff in Hk1, Hk2, Hk3. apply str_eqb_eq in Hk1.
    split_and!; [done..|]. exists expected, older. split_and!; [done..| |done]. unfold history_bound in Hl. unfold len. lia.
  - intros (Hc & Hr & Hka & Hkd & Hs & expected & older & He & Ha & Hn & Hl & ->).
    subst decision_ref. rewrite Hc, Hka, Hkd, (bool_decide_eq_true_2 _ Hs), He, str_eqb_refl. cbn [negb orb reject_if mbind result_bind].
    apply descendant_loop_spec. exists older. split_and!; [done|done| |by intros ? ? ?%not_elem_of_empty|done].
    unfold history_bound. unfold len in Hl. lia.
Qed.
