(* ===== verification/Durable.v ===== *)
(** * Durable reviews

    crates/synapse-artifact/src/durable.rs: the workflow of artifacts joined with the journal.  An
    operation works on the journal, the repositories on disk and the approvals, and keeps what
    it did where it fails; a transaction of the journal that fails changes nothing.  A caller
    that is not authorized never gets to the journal.  The bytes of the random source are
    arguments, as the readings of the clock. *)

From Stdlib Require Import ZArith Lia.
From stdpp Require Import base list numbers strings gmap sets.
From S2P Require Import Prelude Bytes Sorting Text BTree RefStore Canonical Timestamp Oid SchemaSemantics Registry.
From S2P Require Import ObjectStore FileStore Inventory Closure Repository Policy Authorization HumanDecision AppState AppPrograms.
From S2P Require Import Journal JournalOps Artifact Checkout Approval WorkflowRecords WorkflowChecks Workflow.

#[local] Open Scope Z_scope.

Definition PROPOSAL_REQUEST_DOMAIN : list byte := lit "synapsegit.durable-artifact-proposal-request.v1" ++ [0].
Definition DECISION_REQUEST_DOMAIN : list byte := lit "synapsegit.durable-artifact-decision-request.v1" ++ [0].
Definition MAX_IDEMPOTENCY_KEY_BYTES : Z := 4096.

(** ** Answers *)

(** An error is its code; [DurablePanic] stands for what has none. *)
Inductive DurableArtifactError := DurableError (code : str) | DurablePanic.

Abbreviation dresult := (result DurableArtifactError).

Definition invalid_argument : DurableArtifactError := DurableError (lit "invalid_argument").
Definition integrity : DurableArtifactError := DurableError (lit "artifact_durable_integrity_error").
Definition review_not_found : DurableArtifactError := DurableError (lit "artifact_review_not_found").
Definition outcome_unknown : DurableArtifactError := DurableError (lit "artifact_outcome_unknown").

Definition from_workflow (error : WorkflowError) : DurableArtifactError :=
  match workflow_code error with Some code => DurableError code | None => DurablePanic end.
Definition from_journal (error : JournalError) : DurableArtifactError :=
  match error with
  | ReviewNotFound | ProposalIntentNotFound => review_not_found
  | error => DurableError (journal_code error)
  end.
Definition from_checkout (error : ArtifactCheckoutError) : DurableArtifactError :=
  match error with Checkout.Checkout code => DurableError code | _ => DurablePanic end.

Definition ArtifactReviewId_parse (value : str) : dresult str := map_err from_journal (ReviewId_parse value).

Inductive DurableArtifactReviewState :=
| DurablePendingReview | DurableDecisionCommitted | DurableTerminalDenial | DurableRetryableFailure | DurableOutcomeUnknown.
Inductive DurableArtifactSelectedSnapshot := DurableBase | DurableProposal.
Inductive DurableArtifactCheckoutState := CheckoutUnavailable | CheckoutCurrent | CheckoutSuperseded.

Record DurableArtifactDecisionStatus := {
  ds_disposition : ArtifactDisposition;
  ds_selected_snapshot : DurableArtifactSelectedSnapshot;
  ds_reviewed_artifact_manifest_sha256 : str;
}.

Record DurableArtifactReviewStatus := {
  st_review_id : str;
  st_state : DurableArtifactReviewState;
  st_proposal_artifact_manifest_sha256 : str;
  st_decision : option DurableArtifactDecisionStatus;
}.

Record PreparedDurableArtifactProposal := {
  pdp_prepared : PreparedArtifactProposal;
  pdp_proposal_intent_id : str;
  pdp_binding : ReviewBinding;
}.

Record PublishedDurableArtifactProposal := {
  ubp_pending : PendingArtifactProposal;
  ubp_proposal_intent_id : str;
  ubp_binding : ReviewBinding;
}.

Record DurablePendingArtifactReview := { dv_review_id : str; dv_pending : PendingArtifactProposal }.

Inductive DurableArtifactProposalRecovery :=
| RecoveredPrepared (prepared : PreparedDurableArtifactProposal)
| RecoveredPending (review : DurablePendingArtifactReview).

Record PreparedDurableArtifactDecision := { pdd_review_id : str; pdd_prepared : PreparedArtifactDecision }.
Record PublishedDurableArtifactDecision := { ubd_review_id : str; ubd_publication : ArtifactDecisionPublication }.

Record ReconciledDurableArtifactReview := {
  rec_status : DurableArtifactReviewStatus;
  rec_checkout_state : DurableArtifactCheckoutState;
  rec_checked_out_artifact : option CheckedOutArtifact;
}.

Inductive CasEvidence := NotCommitted | Committed | CommittedSuperseded | StaleNotCommitted | Ambiguous.
Inductive DecisionHeadRelation := HeadCurrent | HeadDescendant | HeadUnrelated.

(** ** The service *)

Record Service := { sv_journal : Journal; sv_disks : Disks; sv_approvals : ApprovalState }.

(** Computations that keep the state of an error. *)
Definition Durable (S A : Type) : Type := S -> S * dresult A.

#[export] Instance durable_ret {S} : MRet (Durable S) := fun A a s => (s, Ok a).
#[export] Instance durable_bind {S} : MBind (Durable S) := fun A B k m s =>
  match m s with
  | (s, Ok a) => k a s
  | (s, Err e) => (s, Err e)
  end.

Definition reply {S A} (r : dresult A) : Durable S A := fun s => (s, r).

Definition reading_service {A} (f : Service -> dresult A) : Durable Service A := fun s => (s, f s).

(** A transaction of the journal. *)
Definition in_journal {A} (f : Journal -> jresult (Journal * A)) : Durable Service A := fun s =>
  let '(journal, a) := transact (sv_journal s) (f (sv_journal s)) in
  ({| sv_journal := journal; sv_disks := sv_disks s; sv_approvals := sv_approvals s |}, map_err from_journal a).

(** A query of the journal. *)
Definition asking_journal {A} (f : Journal -> jresult A) : Durable Service A := fun s => (s, map_err from_journal (f (sv_journal s))).

(** An operation of the workflow. *)
Definition in_workflow {A} (m : Flow Disks A) : Durable Service A := fun s =>
  let '(disks, a) := m (sv_disks s) in
  ({| sv_journal := sv_journal s; sv_disks := disks; sv_approvals := sv_approvals s |}, map_err from_workflow a).

(** The service and a review that an operation borrows mutably. *)
Definition Bench : Type := Service * DurablePendingArtifactReview.

Definition at_service {A} (m : Durable Service A) : Durable Bench A := fun '(service, review) =>
  let '(service, a) := m service in ((service, review), a).

(** An operation of the workflow on the pending proposal of the review. *)
Definition at_desk {A} (m : Flow Desk A) : Durable Bench A := fun '(service, review) =>
  let '(desk, a) := m {| dk_disks := sv_disks service; dk_approvals := sv_approvals service; dk_pending := dv_pending review |} in
  (({| sv_journal := sv_journal service; sv_disks := dk_disks desk; sv_approvals := dk_approvals desk |},
    {| dv_review_id := dv_review_id review; dv_pending := dk_pending desk |}), map_err from_workflow a).

(** ** Requests and their journal forms *)

Definition canonical_fields (domain : list byte) (fields : list (list byte)) : list byte := domain ++ framed fields.

Definition validate_idempotency_key (idempotency_key : list byte) : dresult unit :=
  reject_if (bool_decide (idempotency_key = []) || (len idempotency_key >? MAX_IDEMPOTENCY_KEY_BYTES)) invalid_argument.

Definition journal_disposition (disposition : ArtifactDisposition) : DecisionDisposition :=
  match disposition with
  | AdoptedUnchanged => Journal.AdoptedUnchanged
  | ArtifactRejected => Journal.Rejected
  | ArtifactDeferred => Journal.Deferred
  end.
Definition artifact_disposition (disposition : DecisionDisposition) : ArtifactDisposition :=
  match disposition with
  | Journal.AdoptedUnchanged => AdoptedUnchanged
  | Journal.Rejected => ArtifactRejected
  | Journal.Deferred => ArtifactDeferred
  end.
Definition journal_selected_snapshot (disposition : ArtifactDisposition) : SelectedSnapshot :=
  match disposition with
  | AdoptedUnchanged => SnapshotProposal
  | ArtifactRejected | ArtifactDeferred => SnapshotBase
  end.
Definition artifact_review_state (state : ReviewState) : DurableArtifactReviewState :=
  match state with
  | PendingReview => DurablePendingReview
  | DecisionCommitted => DurableDecisionCommitted
  | TerminalDenial => DurableTerminalDenial
  | RetryableFailure => DurableRetryableFailure
  | OutcomeUnknown => DurableOutcomeUnknown
  end.

Definition decision_canonical_request (options : ArtifactDecisionOptions) : list byte :=
  let disposition := match disposition options with
                     | AdoptedUnchanged => lit "adopted_unchanged"
                     | ArtifactRejected => lit "rejected"
                     | ArtifactDeferred => lit "deferred"
                     end in
  let rationale_tag := match private_rationale options with Some _ => lit "some" | None => lit "none" end in
  canonical_fields DECISION_REQUEST_DOMAIN [disposition; rationale_tag; default [] (private_rationale options)].

(** What the journal binds a review to. *)
Definition review_binding (binding : DurableProposalBinding) : dresult ReviewBinding :=
  map_err from_journal (ReviewBinding_new
    {| project_scope := db_project binding; Journal.proposal_ref_name := db_proposal_ref_name binding;
       Journal.proposal_head := db_proposal_head binding; Journal.decision_ref_name := db_decision_ref_name binding;
       expected_decision_head := db_decision_head binding |}).

(** [review_binding(&binding).is_ok_and(|binding| binding == *intent.binding())] *)
Definition binds (binding : DurableProposalBinding) (expected : ReviewBinding) : bool :=
  match review_binding binding with Ok actual => bool_decide (actual = expected) | Err _ => false end.

Definition prepared_matches_intent (prepared : PreparedArtifactDecision) (intent : DecisionCommitIntent) : bool :=
  binds (px_binding prepared) (ci_binding intent) &&
  bool_decide (px_disposition prepared = artifact_disposition (ci_disposition intent)) &&
  bool_decide (journal_selected_snapshot (px_disposition prepared) = ci_selected_snapshot intent) &&
  str_eqb (px_reviewed_manifest_sha256 prepared) (ci_reviewed_artifact_manifest_sha256 intent) &&
  str_eqb (px_new_decision_head prepared) (ci_new_decision_head intent) &&
  str_eqb (px_feedback_oid prepared) (ci_feedback_oid intent).

Definition publication_matches_intent (publication : ArtifactDecisionPublication) (intent : DecisionCommitIntent) : bool :=
  binds (dp_binding publication) (ci_binding intent) &&
  bool_decide (dr_disposition (dp_receipt publication) = artifact_disposition (ci_disposition intent)) &&
  bool_decide (journal_selected_snapshot (dr_disposition (dp_receipt publication)) = ci_selected_snapshot intent) &&
  str_eqb (dr_reviewed_artifact_manifest_sha256 (dp_receipt publication)) (ci_reviewed_artifact_manifest_sha256 intent) &&
  str_eqb (dp_new_decision_head publication) (ci_new_decision_head intent) &&
  str_eqb (dp_feedback_oid publication) (ci_feedback_oid intent).

Definition outcome_request_from_publication (publication : ArtifactDecisionPublication) : DecisionOutcomeRequest :=
  let disposition := dr_disposition (dp_receipt publication) in
  {| oq_disposition := journal_disposition disposition; oq_selected_snapshot := journal_selected_snapshot disposition;
     oq_reviewed_artifact_manifest_sha256 := dr_reviewed_artifact_manifest_sha256 (dp_receipt publication);
     oq_proposal_head := db_proposal_head (dp_binding publication);
     oq_expected_decision_head := db_decision_head (dp_binding publication);
     oq_new_decision_head := dp_new_decision_head publication; oq_feedback_oid := dp_feedback_oid publication |}.

Definition outcome_request_from_intent (intent : DecisionCommitIntent) : DecisionOutcomeRequest :=
  {| oq_disposition := ci_disposition intent; oq_selected_snapshot := ci_selected_snapshot intent;
     oq_reviewed_artifact_manifest_sha256 := ci_reviewed_artifact_manifest_sha256 intent;
     oq_proposal_head := Journal.proposal_head (ci_binding intent);
     oq_expected_decision_head := expected_decision_head (ci_binding intent);
     oq_new_decision_head := ci_new_decision_head intent; oq_feedback_oid := ci_feedback_oid intent |}.

Definition decision_status (outcome : DecisionOutcome) : DurableArtifactDecisionStatus :=
  {| ds_disposition := artifact_disposition (oc_disposition outcome);
     ds_selected_snapshot := match oc_selected_snapshot outcome with SnapshotBase => DurableBase | SnapshotProposal => DurableProposal end;
     ds_reviewed_artifact_manifest_sha256 := oc_reviewed_artifact_manifest_sha256 outcome |}.

Definition status_from_reconciliation (reconciliation : ReviewReconciliation) : dresult DurableArtifactReviewStatus :=
  digest ← ok_or (rr_proposal_artifact_manifest_sha256 reconciliation) integrity;
  let decision := decision_status <$> rr_decision_outcome reconciliation in
  let state := rv_state (rr_review reconciliation) in
  reject_if (bool_decide (state = DecisionCommitted) && negb (is_some decision)) integrity;;
  Ok {| st_review_id := rv_review_id (rr_review reconciliation); st_state := artifact_review_state state;
        st_proposal_artifact_manifest_sha256 := digest; st_decision := decision |}.

Section Durable.
Variable sha256 : list byte -> list byte.
Variable nfc : list char -> list char.
Variable to_lowercase : char -> list char.
Variable json_pointer : Json -> str -> option (list nat).
Variable registry : SchemaRegistry.
(** [serde_json::to_vec] *)
Variable to_vec : Value -> list byte.

(** [review_context_sha256] of workflow.rs *)
Definition review_context_sha256 (application_context_json : list byte) : wresult str :=
  context ← of_canonical (canonical_review_context nfc application_context_json); Ok (sha256_hex sha256 context).

Definition proposal_canonical_request (accepted proposed : RegularFileManifest) (application_context_json : list byte)
    (source_attribution : ArtifactSourceAttribution) : dresult (list byte) :=
  context_sha256 ← map_err from_workflow (review_context_sha256 application_context_json);
  let source := match source_attribution with CallerSuppliedAiAttributed => lit "caller_supplied_ai_attributed" end in
  Ok (canonical_fields PROPOSAL_REQUEST_DOMAIN
        [artifact_manifest_sha256 sha256 accepted; artifact_manifest_sha256 sha256 proposed; context_sha256; source]).

(** The binding of a review, if it belongs to the project. *)
Definition durable_binding (config : TrustedArtifactProjectConfig) (binding : ReviewBinding) : dresult DurableProposalBinding :=
  let project := project_selector sha256 config in
  reject_if (negb (str_eqb (project_scope binding) project) ||
             negb (str_eqb (Journal.decision_ref_name binding) (decision_ref_of (cf_project_key config))) ||
             negb (in_namespace (proposal_namespace_of (cf_project_key config)) (Journal.proposal_ref_name binding))) integrity;;
  Ok {| db_project := project; db_proposal_ref_name := Journal.proposal_ref_name binding;
        db_proposal_head := Journal.proposal_head binding; db_decision_ref_name := Journal.decision_ref_name binding;
        db_decision_head := expected_decision_head binding |}.

(** [approvals.authorize_project(credential, project)?] *)
Definition authorized (credential : Authentication) (project : str) : Durable Service unit :=
  reading_service (fun s => map_err (fun error => DurableError (approval_code error)) (authorize_project credential project (sv_approvals s))).

Definition authorized_reconciliation (config : TrustedArtifactProjectConfig) (review_id : str) : Durable Service ReviewReconciliation :=
  reconciliation ← asking_journal (fun j => get_review_reconciliation j review_id);
  reply (match durable_binding config (rv_binding (rr_review reconciliation)) with
         | Ok _ => Ok reconciliation
         | Err _ => Err review_not_found
         end).

(** ** What the repository says about a Ref *)

(** [Repository::open_existing_read_only] *)
Definition open_existing (path : str) (disks : Disks) : dresult FileRepository :=
  ok_or (disks !! path) (DurableError (repository_code RepoIo)).

Definition transition_evidence (repository : FileRepository) (ref_name : str) (expected_old_head : option str) (candidate : str)
  : dresult RefTransitionEvidence :=
  map_err (fun error => DurableError (ref_store_code error))
    (read_ref_transition_evidence ref_name expected_old_head candidate (RefStore.tables (Repository.refs repository))).

Definition evidence_head (evidence : RefTransitionEvidence) (ref_name : str) : option str :=
  RefStore.head <$> List.find (fun record => str_eqb (RefStore.name record) ref_name) (RefStore.refs (evidence_snapshot evidence)).

(** The candidate is the current head, and reached it by exactly one transition, the last one. *)
Definition committed_now (evidence : RefTransitionEvidence) (current expected_old_head : option str) (candidate : str) : bool :=
  bool_decide (current = Some candidate) && (candidate_touch_count evidence =? 1) && (exact_transition_count evidence =? 1) &&
  match latest_entry evidence with
  | Some entry => bool_decide (old_head entry = expected_old_head) && str_eqb (new_head entry) candidate
  | None => false
  end.

Definition inspect_cas (config : TrustedArtifactProjectConfig) (ref_name : str) (expected_old_head : option str) (candidate_head : str)
    (disks : Disks) : dresult CasEvidence :=
  repository ← open_existing (cf_repository config) disks;
  evidence ← transition_evidence repository ref_name expected_old_head candidate_head;
  let current := evidence_head evidence ref_name in
  if committed_now evidence current expected_old_head candidate_head then Ok Committed
  else if candidate_touch_count evidence =? 0 then
    if bool_decide (current = expected_old_head) && (is_some expected_old_head || negb (is_some (latest_entry evidence)))
    then Ok NotCommitted else Ok StaleNotCommitted
  else Ok Ambiguous.

(** The binding whose checkout a Decision gives. *)
Definition decision_checkout_binding (config : TrustedArtifactProjectConfig) (binding : DurableProposalBinding) (decision_head : str)
    (disposition : DecisionDisposition) (reviewed_manifest_sha256 : str) : TrustedArtifactDecisionBinding :=
  {| tb_repository := cf_repository config; tb_project_key := cf_project_key config; tb_proposal := binding;
     tb_decision_head := decision_head; tb_disposition := artifact_disposition disposition;
     tb_reviewed_manifest_sha256 := reviewed_manifest_sha256 |}.

Definition intent_binding (config : TrustedArtifactProjectConfig) (binding : DurableProposalBinding) (intent : DecisionCommitIntent)
  : TrustedArtifactDecisionBinding :=
  decision_checkout_binding config binding (ci_new_decision_head intent) (ci_disposition intent) (ci_reviewed_artifact_manifest_sha256 intent).

Definition inspect_decision_cas (config : TrustedArtifactProjectConfig) (intent : DecisionCommitIntent) (limits : ArtifactCheckoutLimits)
    (disks : Disks) : dresult CasEvidence :=
  repository ← open_existing (cf_repository config) disks;
  let ref_name := Journal.decision_ref_name (ci_binding intent) in
  let candidate_head := ci_new_decision_head intent in
  let expected_old_head := expected_decision_head (ci_binding intent) in
  evidence ← transition_evidence repository ref_name (Some expected_old_head) candidate_head;
  let current := evidence_head evidence ref_name in
  if committed_now evidence current (Some expected_old_head) candidate_head then Ok Committed
  else if candidate_touch_count evidence =? 0 then
    if bool_decide (current = Some expected_old_head) then Ok NotCommitted else Ok StaleNotCommitted
  else
    match current with
    | Some head =>
      if (candidate_touch_count evidence =? 2) && (exact_transition_count evidence =? 1) && negb (str_eqb head candidate_head) then
        descends ← map_err from_workflow
          (verify_artifact_decision_descendant sha256 nfc json_pointer registry to_vec config repository (evidence_snapshot evidence)
             ref_name candidate_head head);
        if (descends : bool) then
          binding ← durable_binding config (ci_binding intent);
          map_err from_checkout
            (verify_historical_artifact_decision_in_repository sha256 nfc to_lowercase json_pointer registry repository
               (evidence_snapshot evidence) (intent_binding config binding intent) limits);;
          Ok CommittedSuperseded
        else Ok Ambiguous
      else Ok Ambiguous
    | None => Ok Ambiguous
    end.

Definition decision_head_relation (config : TrustedArtifactProjectConfig) (decision_ref_name committed_head : str) (disks : Disks)
  : dresult DecisionHeadRelation :=
  repository ← open_existing (cf_repository config) disks;
  evidence ← transition_evidence repository decision_ref_name None committed_head;
  match evidence_head evidence decision_ref_name with
  | None => Ok HeadUnrelated
  | Some current_head =>
    if str_eqb current_head committed_head then Ok HeadCurrent
    else
      descends ← map_err from_workflow
        (verify_artifact_decision_descendant sha256 nfc json_pointer registry to_vec config repository (evidence_snapshot evidence)
           decision_ref_name committed_head current_head);
      Ok (if (descends : bool) then HeadDescendant else HeadUnrelated)
  end.

(** [checkout_artifact_decision] *)
Definition checkout_artifact_decision (binding : TrustedArtifactDecisionBinding) (limits : ArtifactCheckoutLimits) (disks : Disks)
  : dresult CheckedOutArtifact :=
  repository ← ok_or (disks !! tb_repository binding) (from_checkout (external_error (Some (repository_code RepoIo))));
  map_err from_checkout
    (checkout_artifact_decision_in_repository sha256 nfc to_lowercase json_pointer registry repository binding limits).

Definition checkout_from_intent (config : TrustedArtifactProjectConfig) (intent : DecisionCommitIntent) (limits : ArtifactCheckoutLimits)
    (disks : Disks) : dresult CheckedOutArtifact :=
  binding ← durable_binding config (ci_binding intent);
  checkout_artifact_decision (intent_binding config binding intent) limits disks.

Definition checkout_from_outcome (config : TrustedArtifactProjectConfig) (review_binding : ReviewBinding) (outcome : DecisionOutcome)
    (limits : ArtifactCheckoutLimits) (disks : Disks) : dresult CheckedOutArtifact :=
  binding ← durable_binding config review_binding;
  checkout_artifact_decision
    (decision_checkout_binding config binding (oc_new_decision_head outcome) (oc_disposition outcome)
       (oc_reviewed_artifact_manifest_sha256 outcome)) limits disks.

(** ** Proposals *)

Definition register_request (idempotency_key canonical_request : list byte) (digest : str) (binding : ReviewBinding) : ProposalIntentRequest :=
  {| pq_idempotency_key := idempotency_key; pq_canonical_request := canonical_request; pq_artifact_manifest_sha256 := digest;
     pq_binding := binding |}.

Definition prepare_durable_artifact_proposal (random : nat -> option (list byte)) (config : TrustedArtifactProjectConfig)
    (accepted proposed : RegularFileManifest) (application_context_json : list byte) (source_attribution : ArtifactSourceAttribution)
    (idempotency_key : list byte) (now : option Z) (i : Z) : Durable Service PreparedDurableArtifactProposal :=
  reply (validate_idempotency_key idempotency_key);;
  canonical_request ← reply (proposal_canonical_request accepted proposed application_context_json source_attribution);
  prepared ← in_workflow
    (prepare_artifact_proposal sha256 nfc to_lowercase json_pointer registry to_vec config accepted proposed application_context_json
       source_attribution now i);
  let data := pp_data prepared in
  binding ← reply (review_binding (Workflow.durable_binding data));
  '(intent, _) ← in_journal (register_proposal_intent sha256 random
    (register_request idempotency_key canonical_request (pr_artifact_manifest_sha256 (pd_receipt data)) binding));
  reply (reject_if (is_some (pi_review_id intent)) (DurableError (lit "artifact_review_already_published")));;
  mret {| pdp_prepared := prepared; pdp_proposal_intent_id := pi_id intent; pdp_binding := binding |}.

Definition publish_prepared_durable_artifact_proposal (prepared : PreparedDurableArtifactProposal) (clock : PublishClock)
  : Durable Service PublishedDurableArtifactProposal :=
  pending ← in_workflow (publish_prepared_artifact_proposal sha256 nfc json_pointer registry (pdp_prepared prepared) clock);
  binding ← reply (review_binding (Workflow.durable_binding (pa_data pending)));
  reply (reject_if (negb (bool_decide (binding = pdp_binding prepared))) integrity);;
  mret {| ubp_pending := pending; ubp_proposal_intent_id := pdp_proposal_intent_id prepared; ubp_binding := pdp_binding prepared |}.

Definition commit_published_durable_artifact_proposal (random : nat -> option (list byte)) (published : PublishedDurableArtifactProposal)
  : Durable Service DurablePendingArtifactReview :=
  binding ← reply (review_binding (Workflow.durable_binding (pa_data (ubp_pending published))));
  reply (reject_if (negb (bool_decide (binding = ubp_binding published))) integrity);;
  '(review, _) ← in_journal (commit_proposal_publication random (ubp_proposal_intent_id published) (ubp_binding published));
  mret {| dv_review_id := rv_review_id review; dv_pending := ubp_pending published |}.

(** What follows the evidence about the proposal Ref. *)
Definition resume_proposal (random : nat -> option (list byte)) (config : TrustedArtifactProjectConfig)
    (accepted proposed : RegularFileManifest) (application_context_json : list byte) (source_attribution : ArtifactSourceAttribution)
    (now : option Z) (i : Z) (intent : ProposalIntent) (binding : DurableProposalBinding) (evidence : CasEvidence)
  : Durable Service DurableArtifactProposalRecovery :=
  match evidence with
  | NotCommitted =>
    reply (reject_if (is_some (pi_review_id intent)) integrity);;
    prepared ← in_workflow
      (recover_prepared_artifact_proposal sha256 nfc to_lowercase json_pointer registry to_vec config binding
         (pi_artifact_manifest_sha256 intent) accepted proposed application_context_json source_attribution now i);
    mret (RecoveredPrepared {| pdp_prepared := prepared; pdp_proposal_intent_id := pi_id intent; pdp_binding := pi_binding intent |})
  | Committed =>
    pending ← in_workflow
      (recover_published_artifact_proposal sha256 nfc to_lowercase json_pointer registry config binding
         (pi_artifact_manifest_sha256 intent) i);
    '(review, _) ← in_journal (commit_proposal_publication random (pi_id intent) (pi_binding intent));
    mret (RecoveredPending {| dv_review_id := rv_review_id review; dv_pending := pending |})
  | StaleNotCommitted => reply (Err (DurableError (lit "ref_conflict")))
  | CommittedSuperseded | Ambiguous => reply (Err outcome_unknown)
  end.

Definition recover_durable_artifact_proposal (random random' : nat -> option (list byte)) (credential : Authentication)
    (config : TrustedArtifactProjectConfig) (accepted proposed : RegularFileManifest) (application_context_json : list byte)
    (source_attribution : ArtifactSourceAttribution) (idempotency_key : list byte) (now : option Z) (i : Z)
  : Durable Service DurableArtifactProposalRecovery :=
  authorized credential (project_selector sha256 config);;
  reply (validate_idempotency_key idempotency_key);;
  canonical_request ← reply (proposal_canonical_request accepted proposed application_context_json source_attribution);
  intent ← asking_journal (fun j => get_proposal_intent_by_idempotency sha256 j (project_selector sha256 config) idempotency_key);
  intent ← reply (ok_or intent review_not_found);
  binding ← reply (durable_binding config (pi_binding intent));
  in_journal (register_proposal_intent sha256 random
    (register_request idempotency_key canonical_request (artifact_manifest_sha256 sha256 proposed) (pi_binding intent)));;
  evidence ← reading_service (fun s =>
    inspect_cas config (Journal.proposal_ref_name (pi_binding intent)) None (Journal.proposal_head (pi_binding intent)) (sv_disks s));
  resume_proposal random' config accepted proposed application_context_json source_attribution now i intent binding evidence.

(** ** Reviews *)

Definition get_durable_artifact_review_status (credential : Authentication) (config : TrustedArtifactProjectConfig) (review_id : str)
  : Durable Service DurableArtifactReviewStatus :=
  authorized credential (project_selector sha256 config);;
  reconciliation ← authorized_reconciliation config review_id;
  reply (status_from_reconciliation reconciliation).

Definition recover_durable_artifact_review (credential : Authentication) (config : TrustedArtifactProjectConfig) (review_id : str) (i : Z)
  : Durable Service DurablePendingArtifactReview :=
  authorized credential (project_selector sha256 config);;
  reconciliation ← authorized_reconciliation config review_id;
  let review := rr_review reconciliation in
  reply (reject_if (negb (open_for_decision (rv_state review))) (DurableError (state_as_str (rv_state review))));;
  digest ← reply (ok_or (rr_proposal_artifact_manifest_sha256 reconciliation) integrity);
  binding ← reply (durable_binding config (rv_binding review));
  pending ← in_workflow
    (recover_published_artifact_proposal sha256 nfc to_lowercase json_pointer registry config binding digest i);
  mret {| dv_review_id := review_id; dv_pending := pending |}.

(** ** Decisions *)

Definition commit_request (idempotency_key canonical_request : list byte) (prepared : PreparedArtifactDecision) : DecisionCommitIntentRequest :=
  {| cq_idempotency_key := idempotency_key; cq_canonical_request := canonical_request;
     cq_disposition := journal_disposition (px_disposition prepared);
     cq_selected_snapshot := journal_selected_snapshot (px_disposition prepared);
     cq_reviewed_artifact_manifest_sha256 := px_reviewed_manifest_sha256 prepared;
     cq_new_decision_head := px_new_decision_head prepared; cq_feedback_oid := px_feedback_oid prepared |}.

Definition prepare_durable_artifact_decision (registry_instance : Z) (credential : Authentication) (approval : ArtifactDecisionApproval)
    (options : ArtifactDecisionOptions) (idempotency_key : list byte) (claim_now permit_now : option Z)
  : Durable Bench PreparedDurableArtifactDecision := fun bench =>
  let review_id := dv_review_id (snd bench) in
  let binding := Workflow.durable_binding (pa_data (dv_pending (snd bench))) in
  (at_service (authorized credential (db_project binding));;
   reconciliation ← at_service (asking_journal (fun j => get_review_reconciliation j review_id));
   let review := rr_review reconciliation in
   expected ← reply (review_binding binding);
   reply (reject_if (negb (bool_decide (rv_binding review = expected))) review_not_found);;
   reply (reject_if (negb (open_for_decision (rv_state review))) (DurableError (state_as_str (rv_state review))));;
   reply (validate_idempotency_key idempotency_key);;
   prepared ← at_desk
     (prepare_artifact_decision sha256 nfc json_pointer registry to_vec registry_instance credential approval options claim_now permit_now);
   '(intent, _) ← at_service (in_journal (register_decision_commit_intent sha256 review_id
     (commit_request idempotency_key (decision_canonical_request options) prepared)));
   reply (reject_if (negb (prepared_matches_intent prepared intent)) integrity);;
   mret {| pdd_review_id := review_id; pdd_prepared := prepared |}) bench.

(** The journal says [OutcomeUnknown] before the Ref may move. *)
Definition mark_unknown (review : ReviewRecord) (review_id : str) : Durable Service unit :=
  match rv_state review with
  | PendingReview | RetryableFailure =>
    in_journal (transition_review_state review_id (rv_state review) OutcomeUnknown);; mret tt
  | OutcomeUnknown => reply (Err outcome_unknown)
  | state => reply (Err (DurableError (state_as_str state)))
  end.

Definition publish_prepared_durable_artifact_decision (prepared : PreparedDurableArtifactDecision)
    (first second now transaction_now : option Z) : Durable Bench PublishedDurableArtifactDecision := fun bench =>
  let review_id := dv_review_id (snd bench) in
  (reply (reject_if (negb (str_eqb review_id (pdd_review_id prepared))) integrity);;
   reconciliation ← at_service (asking_journal (fun j => get_review_reconciliation j review_id));
   intent ← reply (ok_or (rr_decision_intent reconciliation) integrity);
   reply (reject_if (negb (prepared_matches_intent (pdd_prepared prepared) intent)) integrity);;
   at_service (mark_unknown (rr_review reconciliation) review_id);;
   publication ← at_desk
     (publish_prepared_artifact_decision sha256 nfc json_pointer registry (pdd_prepared prepared) first second now transaction_now);
   reply (reject_if (negb (publication_matches_intent publication intent)) integrity);;
   mret {| ubd_review_id := review_id; ubd_publication := publication |}) bench.

(** The answer of a reconciliation. *)
Definition reconciled (reconciliation : ReviewReconciliation) (state : DurableArtifactCheckoutState) (checkout : option CheckedOutArtifact)
  : Durable Service ReconciledDurableArtifactReview :=
  reply (status ← status_from_reconciliation reconciliation;
         Ok {| rec_status := status; rec_checkout_state := state; rec_checked_out_artifact := checkout |}).

Definition commit_published_durable_artifact_decision (config : TrustedArtifactProjectConfig) (published : PublishedDurableArtifactDecision)
    (limits : ArtifactCheckoutLimits) : Durable Service ReconciledDurableArtifactReview :=
  let review_id := ubd_review_id published in
  let publication := ubd_publication published in
  intent ← asking_journal (fun j => get_decision_commit_intent j review_id);
  intent ← reply (ok_or intent integrity);
  reply (reject_if (negb (publication_matches_intent publication intent)) integrity);;
  binding ← reply (durable_binding config (ci_binding intent));
  checkout ← reading_service (fun s =>
    checkout_artifact_decision
      {| tb_repository := cf_repository config; tb_project_key := cf_project_key config; tb_proposal := binding;
         tb_decision_head := dp_new_decision_head publication; tb_disposition := dr_disposition (dp_receipt publication);
         tb_reviewed_manifest_sha256 := dr_reviewed_artifact_manifest_sha256 (dp_receipt publication) |} limits (sv_disks s));
  in_journal (commit_decision_outcome review_id (outcome_request_from_publication publication));;
  reconciliation ← asking_journal (fun j => get_review_reconciliation j review_id);
  reconciled reconciliation CheckoutCurrent (Some checkout).

(** A review that is already committed: the outcome against the current head. *)
Definition reconcile_committed (config : TrustedArtifactProjectConfig) (reconciliation : ReviewReconciliation)
    (limits : ArtifactCheckoutLimits) : Durable Service ReconciledDurableArtifactReview :=
  let binding := rv_binding (rr_review reconciliation) in
  outcome ← reply (ok_or (rr_decision_outcome reconciliation) integrity);
  relation ← reading_service (fun s =>
    decision_head_relation config (Journal.decision_ref_name binding) (oc_new_decision_head outcome) (sv_disks s));
  match relation with
  | HeadCurrent =>
    checkout ← reading_service (fun s => checkout_from_outcome config binding outcome limits (sv_disks s));
    reconciled reconciliation CheckoutCurrent (Some checkout)
  | HeadDescendant => reconciled reconciliation CheckoutSuperseded None
  | HeadUnrelated => reply (Err integrity)
  end.

(** What follows the evidence about the decision Ref. *)
Definition settle (config : TrustedArtifactProjectConfig) (review_id : str) (limits : ArtifactCheckoutLimits)
    (reconciliation : ReviewReconciliation) (intent : DecisionCommitIntent) (evidence : CasEvidence)
  : Durable Service ReconciledDurableArtifactReview :=
  let state := rv_state (rr_review reconciliation) in
  let commit_outcome := in_journal (commit_decision_outcome review_id (outcome_request_from_intent intent));; mret tt in
  let move next := in_journal (transition_review_state review_id state next);; mret tt in
  match evidence with
  | NotCommitted =>
    reconciliation ← (if bool_decide (state = OutcomeUnknown) then
                        in_journal (reconcile_decision_not_committed intent);; authorized_reconciliation config review_id
                      else mret reconciliation);
    reconciled reconciliation CheckoutUnavailable None
  | Committed =>
    checkout ← reading_service (fun s => checkout_from_intent config intent limits (sv_disks s));
    commit_outcome;;
    reconciliation ← authorized_reconciliation config review_id;
    reconciled reconciliation CheckoutCurrent (Some checkout)
  | CommittedSuperseded =>
    commit_outcome;;
    reconciliation ← authorized_reconciliation config review_id;
    reconciled reconciliation CheckoutSuperseded None
  | StaleNotCommitted =>
    move TerminalDenial;;
    reconciliation ← authorized_reconciliation config review_id;
    reconciled reconciliation CheckoutUnavailable None
  | Ambiguous =>
    reconciliation ← (if open_for_decision state then move OutcomeUnknown;; authorized_reconciliation config review_id
                      else mret reconciliation);
    reconciled reconciliation CheckoutUnavailable None
  end.

Definition reconcile_durable_artifact_review (credential : Authentication) (config : TrustedArtifactProjectConfig) (review_id : str)
    (limits : ArtifactCheckoutLimits) : Durable Service ReconciledDurableArtifactReview :=
  authorized credential (project_selector sha256 config);;
  reconciliation ← authorized_reconciliation config review_id;
  let state := rv_state (rr_review reconciliation) in
  if bool_decide (state = DecisionCommitted) then reconcile_committed config reconciliation limits
  else if bool_decide (state = TerminalDenial) then reconciled reconciliation CheckoutUnavailable None
  else
    match rr_decision_intent reconciliation with
    | None => reconciled reconciliation CheckoutUnavailable None
    | Some intent =>
      evidence ← reading_service (fun s => inspect_decision_cas config intent limits (sv_disks s));
      settle config review_id limits reconciliation intent evidence
    end.
End Durable.
