(* ===== verification/DurableProps.v ===== *)
(** * Durable reviews: the properties

    A Decision is written down before its Ref may move, and what a reconciliation writes down is
    what the history of the Ref says. *)

From Stdlib Require Import ZArith Lia.
From stdpp Require Import base list numbers strings gmap sets relations.
From S2P Require Import Prelude Bytes Sorting Text BTree RefStore RefStoreProps Canonical Timestamp Oid SchemaSemantics Registry.
From S2P Require Import ObjectStore FileStore Inventory Closure Repository Policy Authorization HumanDecision AppState AppPrograms.
From S2P Require Import Journal JournalOps JournalEffects JournalSound JournalRuns JournalProps Artifact Checkout Approval WorkflowRecords WorkflowChecks.
From S2P Require Import Workflow WorkflowFacts WorkflowProps Durable.

#[local] Open Scope Z_scope.

(** ** Evidence about a Ref *)

(** An event of the Ref comes from or goes to the candidate. *)
Definition touches (ref_name : str) (candidate : str) (e : ReflogEntry) : bool :=
  str_eqb (RefStore.ref_name e) ref_name && (bool_decide (old_head e = Some candidate) || str_eqb (new_head e) candidate).

Definition touched (t : Tables) (ref_name candidate : str) : Prop := exists e, e ∈ t_events t /\ touches ref_name candidate e = true.

Lemma select_events_elem p t e : e ∈ select_events p t <-> e ∈ t_events t /\ p e = true.
Proof. unfold select_events. rewrite sort_by_perm, list_elem_of_In, filter_In. by rewrite list_elem_of_In. Qed.

Lemma len_zero {A} (l : list A) : len l = 0 <-> l = [].
Proof. destruct l as [|x l]; [done|]. rewrite len_cons. pose proof (len_nonneg l). split; [lia|done]. Qed.

Lemma limited_fits max rows : forall acc l, len acc <= max -> push_limited max acc rows = Ok l -> len l <= max.
Proof.
  induction rows as [|row rows IH]; intros acc l Ha H; cbn [push_limited] in H; [by injection H as <-|].
  destruct (len acc =? max) eqn:E; [done|]. apply Z.eqb_neq in E. eapply IH; [|exact H]. rewrite len_app. cbn. unfold len at 2. cbn. lia.
Qed.

(** A snapshot within the bound has every Ref. *)
Lemma snapshot_complete t s : load_snapshot_count_limited MAX_REF_SNAPSHOT_ENTRIES t = Ok s -> RefStore.refs s = select_refs t.
Proof.
  unfold load_snapshot_count_limited. change (usize_saturating_add MAX_REF_SNAPSHOT_ENTRIES 1) with 100001.
  change (100001 >? i64_max) with false. cbv iota. intros H. apply bind_Ok in H as (rows & H & [= <-]). cbn [RefStore.refs].
  pose proof (limited_fits MAX_REF_SNAPSHOT_ENTRIES _ [] rows ltac:(done) H) as Hl. apply push_limited_rows in H as ->. cbn [app] in *.
  apply take_ge. unfold len in Hl. rewrite length_take in Hl. change MAX_REF_SNAPSHOT_ENTRIES with 100000 in Hl. lia.
Qed.

Lemma find_record t ref_name :
  RefStore.head <$> List.find (fun record => str_eqb (RefStore.name record) ref_name) (select_refs t) = heads t !! ref_name.
Proof.
  rewrite heads_lookup. unfold query_head. destruct (List.find _ _) as [[n h i]|] eqn:E; cbn.
  - apply find_some in E as [Hin%list_elem_of_In E]. cbn in E. apply str_eqb_eq in E as <-. apply select_refs_elem in Hin. by rewrite Hin.
  - destruct (t_refs t !! ref_name) as [[h i]|] eqn:Er; [|done]. apply select_refs_elem, list_elem_of_In in Er.
    apply (find_none _ _ E) in Er. cbn in Er. by rewrite str_eqb_refl in Er.
Qed.

(** What the evidence of a Ref says of the tables. *)
Record evidence_of (t : Tables) (ref_name : str) (expected : option str) (candidate : str) (evidence : RefTransitionEvidence) : Prop := {
  ev_head : evidence_head evidence ref_name = heads t !! ref_name;
  ev_snapshot : RefStore.refs (evidence_snapshot evidence) = select_refs t;
  ev_touched : candidate_touch_count evidence = 0 <-> ~ touched t ref_name candidate;
  ev_exact : exact_transition_count evidence = 1 -> exists e, e ∈ t_events t /\ is_exact ref_name expected candidate e = true;
}.

Lemma transition_evidence_of r ref_name expected candidate evidence : transition_evidence r ref_name expected candidate = Ok evidence ->
  evidence_of (RefStore.tables (Repository.refs r)) ref_name expected candidate evidence.
Proof.
  unfold transition_evidence, read_ref_transition_evidence. intros H%map_err_Ok.
  do 3 (apply bind_Ok in H as (? & _ & H)). apply bind_Ok in H as (s & Hs%snapshot_complete & [= <-]). split; cbn.
  - unfold evidence_head. cbn. by rewrite Hs, find_record.
  - done.
  - rewrite len_zero. split.
    + intros Hn (e & He & Ht). pose proof (proj2 (select_events_elem (touches ref_name candidate) _ e) (conj He Ht)) as Hin.
      unfold touches in Hin. rewrite Hn in Hin. by apply not_elem_of_nil in Hin.
    + intros Hn. match goal with |- ?events = _ => destruct events as [|e l] eqn:E end; [done|]. exfalso. apply Hn. exists e.
      apply (select_events_elem (touches ref_name candidate)). unfold touches. rewrite E. left.
  - intros H1. match type of H1 with len ?events = _ => destruct events as [|e l] eqn:E end; [done|]. exists e. apply select_events_elem. rewrite E. left.
Qed.

(** ** What the journal becomes *)

(** A later journal, in which the review is in the given state. *)
Definition advances (j j' : Journal) (id : str) (to : ReviewState) : Prop :=
  journal_ok j' /\ later j j' /\ exists b, review_at j' id b to.

Lemma strict_changes_ok j j' : journal_ok j -> strict_changes j j' -> journal_ok j' /\ later j j'.
Proof.
  intros Hj [->|H]; [split; [done|apply changes_later; by left]|]. split; [by eapply strict_effect_ok|apply strict_effect_later, H].
Qed.

Lemma transition_advances j id expected next j' r : journal_ok j ->
  transition_review_state id expected next j = Ok (j', r) -> advances j j' id next.
Proof.
  intros Hj H. destruct (strict_changes_ok j j' Hj (transition_changes j Hj id expected next j' r H)) as [Hj' Hl]. split; [done|]. split; [done|].
  unfold transition_review_state in H. apply bind_Ok in H as (o & Ho & H). apply bind_Ok in H as (cur & ->%ok_or_Ok & H).
  apply (load_review_Some j Hj) in Ho as [Hid Hat]. cbv zeta in H. apply bind_Ok in H as (u & Hs & H).
  apply reject_if_Ok, negb_false_iff, bool_decide_eq_true in Hs. do 4 (apply bind_Ok in H as (? & _ & H)).
  case_bool_decide as Hne; [injection H as <- _; exists (rv_binding cur); by rewrite <- Hne|].
  apply bind_Ok in H as (? & _ & H). destruct (update_state id expected next j) as [j1 n] eqn:Eu. do 3 (apply bind_Ok in H as (? & _ & H)).
  injection H as <- _. exists (rv_binding cur). assert (j1 = with_state id expected next j) as -> by (unfold with_state; by rewrite Eu).
  pose proof (with_state_at j id expected next id (rv_binding cur) _ Hat) as Hw.
  by rewrite Hs, !bool_decide_eq_true_2 in Hw.
Qed.

Lemma outcome_advances j id request j' r : journal_ok j ->
  commit_decision_outcome id request j = Ok (j', r) -> advances j j' id DecisionCommitted.
Proof.
  intros Hj H. destruct (strict_changes_ok j j' Hj (commit_outcome_changes j Hj id request j' r H)) as [Hj' Hl]. split; [done|]. split; [done|].
  unfold commit_decision_outcome in H. apply bind_Ok in H as (u & _ & H). apply bind_Ok in H as (o & Ho & H).
  apply bind_Ok in H as (review & ->%ok_or_Ok & H). apply (load_review_Some j Hj) in Ho as [Hid Hat]. cbv zeta in H.
  apply bind_Ok in H as (strict & _ & H). apply bind_Ok in H as (existing & _ & H). destruct existing as [existing|].
  - apply bind_Ok in H as (u1 & Hs%reject_if_Ok%negb_false_iff%bool_decide_eq_true & H). case_bool_decide; [|done].
    do 2 (apply bind_Ok in H as (? & _ & H)). injection H as <- _. exists (rv_binding review). by rewrite <- Hs.
  - destruct strict as [intent|]; [|apply bind_Ok in H as (l & _ & H); by destruct (is_some l)].
    apply bind_Ok in H as (j1 & H & [= <- _]). unfold record_outcome in H. cbv zeta in H. do 2 (apply bind_Ok in H as (? & _ & H)).
    apply bind_Ok in H as (j2 & Hi & H). unfold insert_outcome in Hi. apply bind_Ok in Hi as (? & _ & [= <-]).
    match type of H with context [update_state ?a ?b ?c ?k] => destruct (update_state a b c k) as [j3 n] eqn:Eu end.
    destruct (n =? 1); [|by do 2 (apply bind_Ok in H as (? & _ & H))]. injection H as <-. exists (rv_binding review).
    match type of Eu with update_state ?a ?b ?c ?k = _ => assert (j3 = with_state a b c k) as -> by (unfold with_state; by rewrite Eu) end.
    match goal with |- review_at (with_state ?a ?b ?c ?k) _ _ _ => pose proof (with_state_at k a b c id (rv_binding review) (rv_state review) Hat) as Hw end.
    by rewrite !bool_decide_eq_true_2 in Hw.
Qed.

Lemma reconcile_advances j intent j' r : journal_ok j ->
  reconcile_decision_not_committed intent j = Ok (j', r) -> (exists b, review_at j (ci_review_id intent) b OutcomeUnknown) ->
  advances j j' (ci_review_id intent) RetryableFailure.
Proof.
  intros Hj H [b0 Hb0]. destruct (strict_changes_ok j j' Hj (reconcile_changes j Hj intent j' r H)) as [Hj' Hl]. split; [done|]. split; [done|].
  unfold reconcile_decision_not_committed in H. cbv zeta in H. apply bind_Ok in H as (o & Ho & H). apply bind_Ok in H as (review & ->%ok_or_Ok & H).
  apply (load_review_Some j Hj) in Ho as [Hid Hat]. do 5 (apply bind_Ok in H as (? & _ & H)).
  destruct (review_at_inj j Hj _ _ _ _ _ Hb0 Hat) as [_ E]. rewrite <- E in H.
  destruct (update_state _ _ _ j) as [j1 n] eqn:Eu. apply bind_Ok in H as (? & _ & [= <- _]). exists (rv_binding review).
  assert (j1 = with_state (ci_review_id intent) OutcomeUnknown RetryableFailure j) as -> by (unfold with_state; by rewrite Eu).
  pose proof (with_state_at j (ci_review_id intent) OutcomeUnknown RetryableFailure _ _ _ Hat) as Hw. rewrite <- E in Hw.
  by rewrite !bool_decide_eq_true_2 in Hw.
Qed.

(** The restart view shows the state of the review and its intent. *)
Lemma reconciliation_view j id rec : journal_ok j -> get_review_reconciliation j id = Ok rec ->
  rv_review_id (rr_review rec) = id /\ review_at j id (rv_binding (rr_review rec)) (rv_state (rr_review rec)) /\
  load_decision_commit_intent j id = Ok (rr_decision_intent rec) /\ load_decision_outcome j id = Ok (rr_decision_outcome rec).
Proof.
  intros Hj H. unfold get_review_reconciliation in H. apply bind_Ok in H as (o & Ho & H). apply bind_Ok in H as (review & ->%ok_or_Ok & H).
  apply (load_review_Some j Hj) in Ho as [Hid Hat]. do 2 (apply bind_Ok in H as (? & _ & H)). apply bind_Ok in H as (intent & Hi & H).
  apply bind_Ok in H as (outcome & Hoc & H). apply bind_Ok in H as (? & _ & [= <-]). done.
Qed.

(** ** Reconciliation *)

Section Reconciling.
Variable sha256 : list byte -> list byte.
Variable nfc : list char -> list char.
Variable to_lowercase : char -> list char.
Variable json_pointer : Json -> str -> option (list nat).
Variable registry : SchemaRegistry.
Variable to_vec : Value -> list byte.

Abbreviation ref_of intent := (Journal.decision_ref_name (ci_binding intent)).
Abbreviation head_of r intent := (heads (RefStore.tables (Repository.refs r)) !! ref_of intent).

(** The reflog has the transition of the intent. *)
Definition happened (intent : DecisionCommitIntent) (r : FileRepository) : Prop :=
  exists e, e ∈ t_events (RefStore.tables (Repository.refs r)) /\
    is_exact (ref_of intent) (Some (expected_decision_head (ci_binding intent))) (ci_new_decision_head intent) e = true.

(** No event of the Ref knows the Commit of the intent. *)
Definition untouched (intent : DecisionCommitIntent) (r : FileRepository) : Prop :=
  ~ touched (RefStore.tables (Repository.refs r)) (ref_of intent) (ci_new_decision_head intent).

(** What a verdict says of the repository. *)
Definition justified (config : TrustedArtifactProjectConfig) (intent : DecisionCommitIntent) (r : FileRepository) (evidence : CasEvidence) : Prop :=
  match evidence with
  | Committed => head_of r intent = Some (ci_new_decision_head intent) /\ happened intent r
  | CommittedSuperseded => happened intent r /\ exists head refs, head_of r intent = Some head /\ head <> ci_new_decision_head intent /\
      verify_artifact_decision_descendant sha256 nfc json_pointer registry to_vec config r refs (ref_of intent)
        (ci_new_decision_head intent) head = Ok true
  | NotCommitted => head_of r intent = Some (expected_decision_head (ci_binding intent)) /\ untouched intent r
  | StaleNotCommitted => head_of r intent <> Some (expected_decision_head (ci_binding intent)) /\ untouched intent r
  | Ambiguous => ~ untouched intent r
  end.

Lemma inspect_justified config intent limits disks evidence :
  inspect_decision_cas sha256 nfc to_lowercase json_pointer registry to_vec config intent limits disks = Ok evidence ->
  exists r, disks !! cf_repository config = Some r /\ justified config intent r evidence.
Proof.
  unfold inspect_decision_cas. cbv zeta. intros H. apply bind_Ok in H as (r & Hr%ok_or_Ok & H). apply bind_Ok in H as (ev & He%transition_evidence_of & H).
  exists r. split; [done|]. destruct He as [Hh _ Ht Hx]. rewrite Hh in H. destruct (committed_now _ _ _ _) eqn:Ec.
  - injection H as <-. unfold committed_now in Ec. repeat (apply andb_prop in Ec as [Ec ?]). apply bool_decide_eq_true in Ec.
    split; [done|]. apply Hx. by apply Z.eqb_eq.
  - destruct (candidate_touch_count ev =? 0) eqn:E0.
    + apply Z.eqb_eq, Ht in E0. case_bool_decide as Eh; injection H as <-; by split.
    + assert (~ untouched intent r) as Hnt by (intros Hu%Ht; apply Z.eqb_neq in E0; done).
      destruct (head_of r intent) as [head|] eqn:Ehead; [|by injection H as <-].
      destruct (_ && _ && negb _) eqn:Es; [|by injection H as <-]. apply andb_prop in Es as [[_ E1%Z.eqb_eq]%andb_prop Hne%negb_true_iff%str_eqb_neq].
      apply bind_Ok in H as (descends & Hd%map_err_Ok & H). destruct descends; [|by injection H as <-].
      apply bind_Ok in H as (binding & _ & H). apply bind_Ok in H as (u & _ & [= <-]). split; [by apply Hx|].
      exists head, (evidence_snapshot ev). split_and!; [done|done|]. exact Hd.
Qed.

(** What a reconciliation makes of the state of a review, by the verdict. *)
Definition verdict (from : ReviewState) (evidence : CasEvidence) : ReviewState :=
  match evidence with
  | NotCommitted => if bool_decide (from = OutcomeUnknown) then RetryableFailure else from
  | Committed | CommittedSuperseded => DecisionCommitted
  | StaleNotCommitted => TerminalDenial
  | Ambiguous => if open_for_decision from then OutcomeUnknown else from
  end.

(** A computation that writes only to the journal. *)
Definition journals {A} (m : Durable Service A) : Prop :=
  forall s, journal_ok (sv_journal s) ->
    let '(s', _) := m s in
    sv_disks s' = sv_disks s /\ sv_approvals s' = sv_approvals s /\ journal_ok (sv_journal s') /\ later (sv_journal s) (sv_journal s').

Lemma journals_bind {A B} (m : Durable Service A) (k : A -> Durable Service B) : journals m -> (forall a, journals (k a)) -> journals (m ≫= k).
Proof.
  intros Hm Hk s Hj. specialize (Hm s Hj). unfold mbind, durable_bind. destruct (m s) as [s1 [a|e]]; [|done].
  destruct Hm as (Hd & Ha & Hj1 & Hl). specialize (Hk a s1 Hj1). destruct (k a s1) as [s2 b]. destruct Hk as (Hd2 & Ha2 & Hj2 & Hl2).
  split_and!; [congruence|congruence|done|]. by etransitivity.
Qed.

Lemma journals_same {A} (m : Durable Service A) : (forall s, (m s).1 = s) -> journals m.
Proof. intros Hm s Hj. specialize (Hm s). destruct (m s) as [s' a]. cbn in Hm. subst. split_and!; [done..|reflexivity]. Qed.

Lemma journals_in {A} (f : Journal -> jresult (Journal * A)) :
  (forall j j' a, journal_ok j -> f j = Ok (j', a) -> strict_changes j j') -> journals (in_journal f).
Proof.
  intros Hf s Hj. unfold in_journal, transact. destruct (f (sv_journal s)) as [[j a]|e] eqn:E; cbn.
  - apply Hf in E; [|done]. apply strict_changes_ok in E as [? ?]; [|done]. done.
  - split_and!; [done..|reflexivity].
Qed.

Lemma durable_bind_Ok {S A B} (m : Durable S A) (k : A -> Durable S B) s s' b : (m ≫= k) s = (s', Ok b) ->
  exists s1 a, m s = (s1, Ok a) /\ k a s1 = (s', Ok b).
Proof. unfold mbind, durable_bind. destruct (m s) as [s1 [a|e]]; [|done]. intros H. by exists s1, a. Qed.

Lemma in_journal_Ok {A} (f : Journal -> jresult (Journal * A)) s s' a : in_journal f s = (s', Ok a) ->
  f (sv_journal s) = Ok (sv_journal s', a) /\ sv_disks s' = sv_disks s.
Proof.
  unfold in_journal, transact. destruct (f (sv_journal s)) as [[j x]|e] eqn:E; [|done]. cbn. intros [= <- <-]. done.
Qed.

(** The view that an answer is made of. *)
Record viewed (config : TrustedArtifactProjectConfig) (id : str) (j : Journal) (rec : ReviewReconciliation) : Prop := {
  vw_view : get_review_reconciliation j id = Ok rec;
  vw_project : is_ok (durable_binding sha256 config (rv_binding (rr_review rec))) = true;
}.

Lemma authorized_view config id s s' rec : authorized_reconciliation sha256 config id s = (s', Ok rec) -> s' = s /\ viewed config id (sv_journal s) rec.
Proof.
  unfold authorized_reconciliation. intros (s1 & r & H & H')%durable_bind_Ok. unfold asking_journal in H. injection H as <- H%map_err_Ok.
  unfold reply in H'. destruct (durable_binding _ _ _) as [b|e] eqn:E; [|done]. injection H' as <- <-. split; [done|]. split; [done|]. by rewrite E.
Qed.

(** The checkout of an answer is the one that a checkout of the project gives for the binding of
    the review. *)
Definition checkout_shown (config : TrustedArtifactProjectConfig) (limits : ArtifactCheckoutLimits) (disks : Disks) (b : ReviewBinding)
    (state : DurableArtifactCheckoutState) (files : option CheckedOutArtifact) : Prop :=
  match state with
  | CheckoutCurrent => exists binding checkout, tb_repository binding = cf_repository config /\
      tb_project_key binding = cf_project_key config /\ durable_binding sha256 config b = Ok (tb_proposal binding) /\ files = Some checkout /\
      checkout_artifact_decision sha256 nfc to_lowercase json_pointer registry binding limits disks = Ok checkout
  | CheckoutSuperseded | CheckoutUnavailable => files = None
  end.

(** An answer shows the review as the journal has it. *)
Definition shows (config : TrustedArtifactProjectConfig) (limits : ArtifactCheckoutLimits) (id : str) (s : Service) (to : ReviewState)
    (answer : ReconciledDurableArtifactReview) : Prop :=
  st_review_id (rec_status answer) = id /\ st_state (rec_status answer) = artifact_review_state to /\
  (exists outcome, load_decision_outcome (sv_journal s) id = Ok outcome /\ st_decision (rec_status answer) = decision_status <$> outcome) /\
  exists b, review_at (sv_journal s) id b to /\ project_scope b = project_selector sha256 config /\
  checkout_shown config limits (sv_disks s) b (rec_checkout_state answer) (rec_checked_out_artifact answer).

Lemma durable_binding_project config binding : is_ok (durable_binding sha256 config binding) = true ->
  project_scope binding = project_selector sha256 config.
Proof.
  unfold durable_binding. destruct (_ || _) eqn:E; [done|]. intros _. apply orb_false_iff in E as [[E _]%orb_false_iff _].
  by apply negb_false_iff, str_eqb_eq in E.
Qed.

Lemma reconciled_shows config limits id s s' rec state checkout answer : journal_ok (sv_journal s) -> viewed config id (sv_journal s) rec ->
  reconciled rec state checkout s = (s', Ok answer) ->
  checkout_shown config limits (sv_disks s) (rv_binding (rr_review rec)) state checkout ->
  s' = s /\ shows config limits id s (rv_state (rr_review rec)) answer.
Proof.
  intros Hj [Hv Hp] H Hc. unfold reconciled, reply in H. injection H as <- H. apply bind_Ok in H as (status & Hs & [= <-]). split; [done|].
  apply reconciliation_view in Hv as (Hid & Hat & _ & Ho); [|done]. unfold status_from_reconciliation in Hs. cbv zeta in Hs.
  do 2 (apply bind_Ok in Hs as (? & _ & Hs)). injection Hs as <-. split_and!; [done|done| |].
  - by eexists.
  - eexists. split; [exact Hat|]. split; [by apply durable_binding_project|exact Hc].
Qed.

Lemma viewed_state config id j rec b to : journal_ok j -> viewed config id j rec -> review_at j id b to ->
  rv_binding (rr_review rec) = b /\ rv_state (rr_review rec) = to.
Proof. intros Hj [Hv _] Hat. apply reconciliation_view in Hv as (_ & Hat' & _); [|done]. by eapply review_at_inj. Qed.

(** A step of the journal, then the answer from its new view. *)
Lemma step_then_show {A} config limits id b from to (f : Journal -> jresult (Journal * A)) state checkout s s' answer :
  journal_ok (sv_journal s) -> review_at (sv_journal s) id b from ->
  (forall j' a, f (sv_journal s) = Ok (j', a) -> advances (sv_journal s) j' id to) ->
  (in_journal f;; rec ← authorized_reconciliation sha256 config id; reconciled rec state checkout) s = (s', Ok answer) ->
  checkout_shown config limits (sv_disks s) b state checkout ->
  shows config limits id s' to answer.
Proof.
  intros Hj Hb Hf H Hc. apply durable_bind_Ok in H as (s1 & a & [Hs1 Hd]%in_journal_Ok & H). destruct (Hf _ _ Hs1) as (Hj1 & Hl & b' & Hat).
  destruct (lt_reviews _ _ Hl _ _ _ Hb) as (to' & Hb' & _). destruct (review_at_inj _ Hj1 _ _ _ _ _ Hat Hb') as [-> _].
  apply durable_bind_Ok in H as (s2 & rec & [-> Hv]%authorized_view & H). destruct (viewed_state _ _ _ _ _ _ Hj1 Hv Hat) as [Eb <-].
  apply (reconciled_shows config limits id) in H as [-> H]; [done|done|done|by rewrite Hd, Eb].
Qed.

(** The same for a step whose answer is dropped. *)
Lemma move_then_show {A} config limits id b from to (f : Journal -> jresult (Journal * A)) state checkout s s1 s2 u answer :
  journal_ok (sv_journal s) -> review_at (sv_journal s) id b from ->
  (forall j' a, f (sv_journal s) = Ok (j', a) -> advances (sv_journal s) j' id to) ->
  (in_journal f;; mret tt) s = (s1, Ok u) ->
  (rec ← authorized_reconciliation sha256 config id; reconciled rec state checkout) s1 = (s2, Ok answer) ->
  checkout_shown config limits (sv_disks s) b state checkout ->
  shows config limits id s2 to answer.
Proof.
  intros Hj Hb Hf Hm Hr Hc. apply durable_bind_Ok in Hm as (s0 & x & Hm & [= -> _]).
  apply (step_then_show config limits id b from to f state checkout s); [done|done|done| |done]. unfold mbind at 1, durable_bind at 1. by rewrite Hm.
Qed.

Lemma checkout_of_intent config intent limits disks checkout :
  checkout_from_intent sha256 nfc to_lowercase json_pointer registry config intent limits disks = Ok checkout ->
  checkout_shown config limits disks (ci_binding intent) CheckoutCurrent (Some checkout).
Proof.
  unfold checkout_from_intent. intros H. apply bind_Ok in H as (binding & Hb & H). exists (intent_binding config binding intent), checkout.
  by split_and!.
Qed.

Lemma checkout_of_outcome config b outcome limits disks checkout :
  checkout_from_outcome sha256 nfc to_lowercase json_pointer registry config b outcome limits disks = Ok checkout ->
  checkout_shown config limits disks b CheckoutCurrent (Some checkout).
Proof.
  unfold checkout_from_outcome. intros H. apply bind_Ok in H as (binding & Hb & H).
  eexists (decision_checkout_binding config binding _ _ _), checkout. by split_and!.
Qed.

Lemma settle_shows config limits id rec intent evidence s s' answer :
  journal_ok (sv_journal s) -> viewed config id (sv_journal s) rec -> rr_decision_intent rec = Some intent ->
  settle sha256 nfc to_lowercase json_pointer registry config id limits rec intent evidence s = (s', Ok answer) ->
  shows config limits id s' (verdict (rv_state (rr_review rec)) evidence) answer.
Proof.
  intros Hj Hv Hi H. pose proof (vw_view _ _ _ _ Hv) as Hview. apply reconciliation_view in Hview as (Hid & Hat & Hl & _); [|done].
  rewrite Hi in Hl. apply load_commit_found in Hl as (Hcid & _ & [from Hci] & _); [|done].
  destruct (review_at_inj _ Hj _ _ _ _ _ Hci Hat) as [Eb _].
  assert (reconciled rec CheckoutUnavailable None s = (s', Ok answer) -> shows config limits id s' (rv_state (rr_review rec)) answer) as Hsame.
  { intros Hr. by apply (reconciled_shows config limits id) in Hr as [-> Hr]. }
  destruct evidence; cbn [settle verdict] in *.
  - case_bool_decide as Eu; [|by apply Hsame].
    apply durable_bind_Ok in H as (s1 & rec1 & Hm & H). apply durable_bind_Ok in Hm as (s0 & x & Hm & Ha).
    eapply (step_then_show config limits id _ _ RetryableFailure (reconcile_decision_not_committed intent) CheckoutUnavailable None s);
      [done|exact Hat| | |done].
    + intros j' r Ht. rewrite <- Hcid. eapply reconcile_advances; [done|done|]. rewrite Hcid. eexists. by rewrite <- Eu.
    + unfold mbind at 1, durable_bind at 1. rewrite Hm. unfold mbind at 1, durable_bind at 1. by rewrite Ha.
  - apply durable_bind_Ok in H as (s1 & checkout & [= -> Hc] & H). apply durable_bind_Ok in H as (s2 & u & Hm & H).
    eapply (move_then_show config limits id _ _ DecisionCommitted); [done|exact Hat| |exact Hm|exact H|].
    + intros ? ? Ht. by eapply outcome_advances.
    + rewrite <- Eb. by apply checkout_of_intent.
  - apply durable_bind_Ok in H as (s2 & u & Hm & H).
    eapply (move_then_show config limits id _ _ DecisionCommitted); [done|exact Hat| |exact Hm|exact H|done].
    intros ? ? Ht. by eapply outcome_advances.
  - apply durable_bind_Ok in H as (s2 & u & Hm & H).
    eapply (move_then_show config limits id _ _ TerminalDenial); [done|exact Hat| |exact Hm|exact H|done].
    intros ? ? Ht. by eapply transition_advances.
  - destruct (open_for_decision _); [|by apply Hsame]. apply durable_bind_Ok in H as (s1 & rec1 & Hm & H).
    apply durable_bind_Ok in Hm as (s0 & u & Hm & Ha).
    eapply (move_then_show config limits id _ _ OutcomeUnknown _ CheckoutUnavailable None); [done|exact Hat| |exact Hm| |done].
    + intros ? ? Ht. by eapply transition_advances.
    + unfold mbind at 1, durable_bind at 1. by rewrite Ha.
Qed.

(** A review in a final state is shown as it is. *)
Lemma committed_shows config limits id rec s s' answer :
  journal_ok (sv_journal s) -> viewed config id (sv_journal s) rec ->
  reconcile_committed sha256 nfc to_lowercase json_pointer registry to_vec config rec limits s = (s', Ok answer) ->
  s' = s /\ shows config limits id s (rv_state (rr_review rec)) answer.
Proof.
  intros Hj Hv H. unfold reconcile_committed in H. cbv zeta in H. apply durable_bind_Ok in H as (s1 & outcome & [= <- _] & H).
  apply durable_bind_Ok in H as (s2 & relation & [= <- _] & H). destruct relation; [|by eapply reconciled_shows|done].
  apply durable_bind_Ok in H as (s3 & checkout & [= <- Hc] & H). eapply reconciled_shows; [done|done|exact H|by eapply checkout_of_outcome].
Qed.

(** Whatever a reconciliation answers, it writes only to the journal. *)
Lemma settle_journals config limits id rec intent evidence :
  journals (settle sha256 nfc to_lowercase json_pointer registry config id limits rec intent evidence).
Proof.
  assert (forall config id, journals (authorized_reconciliation sha256 config id)) as Ha
    by (intros; apply journals_bind; [by apply journals_same|intros ?; by apply journals_same]).
  assert (forall state checkout rec, journals (reconciled rec state checkout)) as Hr by (intros; by apply journals_same).
  assert (forall state next, journals (in_journal (transition_review_state id state next);; mret tt)) as Hm.
  { intros. apply journals_bind; [|intros ?; by apply journals_same]. apply journals_in. intros j j' a Hj Hf. by eapply transition_changes. }
  assert (forall request, journals (in_journal (commit_decision_outcome id request);; mret tt)) as Hc.
  { intros. apply journals_bind; [|intros ?; by apply journals_same]. apply journals_in. intros j j' a Hj Hf. by eapply commit_outcome_changes. }
  destruct evidence; cbn [settle].
  - apply journals_bind; [|intros ?; apply Hr]. case_bool_decide; [|by apply journals_same].
    apply journals_bind; [|intros ?; apply Ha]. apply journals_in. intros j j' a Hj Hf. by eapply reconcile_changes.
  - apply journals_bind; [by apply journals_same|intros ?]. apply journals_bind; [apply Hc|intros ?].
    apply journals_bind; [apply Ha|intros ?; apply Hr].
  - apply journals_bind; [apply Hc|intros ?]. apply journals_bind; [apply Ha|intros ?; apply Hr].
  - apply journals_bind; [apply Hm|intros ?]. apply journals_bind; [apply Ha|intros ?; apply Hr].
  - apply journals_bind; [|intros ?; apply Hr]. destruct (open_for_decision _); [|by apply journals_same].
    apply journals_bind; [apply Hm|intros ?; apply Ha].
Qed.

Lemma reconcile_journals credential config id limits :
  journals (reconcile_durable_artifact_review sha256 nfc to_lowercase json_pointer registry to_vec credential config id limits).
Proof.
  apply journals_bind; [by apply journals_same|intros _]. apply journals_bind.
  { apply journals_bind; [by apply journals_same|intros ?; by apply journals_same]. }
  intros rec. cbv zeta. case_bool_decide; [|case_bool_decide; [by apply journals_same|]].
  - apply journals_bind; [by apply journals_same|intros outcome]. apply journals_bind; [by apply journals_same|intros []];
      [apply journals_bind; [by apply journals_same|intros ?]|..]; by apply journals_same.
  - destruct (rr_decision_intent rec) as [intent|]; [|by apply journals_same].
    apply journals_bind; [by apply journals_same|intros evidence; apply settle_journals].
Qed.

Lemma reconcile_shows credential config id limits service service' answer : journal_ok (sv_journal service) ->
  reconcile_durable_artifact_review sha256 nfc to_lowercase json_pointer registry to_vec credential config id limits service =
    (service', Ok answer) ->
  is_ok (authorize_project credential (project_selector sha256 config) (sv_approvals service)) = true /\
  exists b from to, review_at (sv_journal service) id b from /\ shows config limits id service' to answer /\
    (service' = service /\ to = from /\ (terminal from = true \/ load_decision_commit_intent (sv_journal service) id = Ok None) \/
     exists intent evidence r, terminal from = false /\ load_decision_commit_intent (sv_journal service) id = Ok (Some intent) /\
       sv_disks service !! cf_repository config = Some r /\ to = verdict from evidence /\ justified config intent r evidence).
Proof.
  intros Hj H. apply durable_bind_Ok in H as (s1 & u & Ha & H). unfold authorized, reading_service in Ha. injection Ha as <- Ha%map_err_Ok.
  rewrite Ha. split; [done|]. apply durable_bind_Ok in H as (s2 & rec & [-> Hv]%authorized_view & H). pose proof (vw_view _ _ _ _ Hv) as Hview.
  apply reconciliation_view in Hview as (Hid & Hat & Hl & _); [|done]. exists (rv_binding (rr_review rec)), (rv_state (rr_review rec)).
  assert (forall s s', reconciled rec CheckoutUnavailable None s = (s', Ok answer) -> s = service ->
    s' = service /\ shows config limits id s' (rv_state (rr_review rec)) answer) as Hsame
    by (intros s s' Hr ->; by apply (reconciled_shows config limits id) in Hr as [-> ?]).
  cbv zeta in H. case_bool_decide as Ec; [|case_bool_decide as Et; [|destruct (rr_decision_intent rec) as [intent|] eqn:Ei]].
  - apply (committed_shows _ _ id) in H as [-> Hs]; [|done..]. eexists. split_and!; [done|exact Hs|]. left. rewrite Ec. by split_and!; [..|left].
  - apply Hsame in H as [-> Hs]; [|done]. eexists. split_and!; [done|exact Hs|]. left. rewrite Et. by split_and!; [..|left].
  - apply durable_bind_Ok in H as (s3 & evidence & [= <- He] & H). apply inspect_justified in He as (r & Hr & He).
    apply settle_shows in H; [|done..]. eexists. split_and!; [done|exact H|]. right. exists intent, evidence, r.
    split_and!; [by destruct (rv_state _)|done..].
  - apply Hsame in H as [-> Hs]; [|done]. eexists. split_and!; [done|exact Hs|]. left. by split_and!; [..|right].
Qed.
End Reconciling.

(** ** Reconciliation of a review *)

(** C17: a reconciliation never writes to a repository or to the approvals; the journal stays
    well-formed and only moves forward, however it ends.  Only an authorized caller gets an answer.
    The answer shows the review as the journal has it then, with the recorded outcome, and files only
    where a checkout of the review's binding gives them.  Either nothing changed, because the state
    is final or no Decision was intended, or the new state is the verdict on evidence that the reflog
    of the decision Ref justifies. *)
Theorem reconciliation_faithful sha256 nfc to_lowercase json_pointer registry to_vec credential config id limits service :
  journal_ok (sv_journal service) ->
  let '(service', answer) :=
    reconcile_durable_artifact_review sha256 nfc to_lowercase json_pointer registry to_vec credential config id limits service in
  sv_disks service' = sv_disks service /\ sv_approvals service' = sv_approvals service /\ journal_ok (sv_journal service') /\
  later (sv_journal service) (sv_journal service') /\
  match answer with
  | Err _ => True
  | Ok answer =>
    is_ok (authorize_project credential (project_selector sha256 config) (sv_approvals service)) = true /\
    exists b from to, review_at (sv_journal service) id b from /\
      shows sha256 nfc to_lowercase json_pointer registry config limits id service' to answer /\
      (service' = service /\ to = from /\ (terminal from = true \/ load_decision_commit_intent (sv_journal service) id = Ok None) \/
       exists intent evidence r, terminal from = false /\ load_decision_commit_intent (sv_journal service) id = Ok (Some intent) /\
         sv_disks service !! cf_repository config = Some r /\ to = verdict from evidence /\
         justified sha256 nfc json_pointer registry to_vec config intent r evidence)
  end.
Proof.
  intros Hj. pose proof (reconcile_journals sha256 nfc to_lowercase json_pointer registry to_vec credential config id limits service Hj) as H.
  destruct (reconcile_durable_artifact_review _ _ _ _ _ _ _ _ _ _ _) as [service' [answer|e]] eqn:E; destruct H as (Hd & Ha & Hj' & Hl).
  - apply reconcile_shows in E; [|done]. do 4 (split; [done|]). exact E.
  - by split_and!.
Qed.

(** A review whose Decision was intended and marked unknown, of which the repository shows nothing. *)
Definition sample_config : TrustedArtifactProjectConfig :=
  {| cf_repository := lit "repository"; cf_project_key := lit "demo"; cf_creator_display_name := lit "Ada"; cf_agent_display_name := lit "Bot";
     cf_recorded_at := lit "2026-01-01T00:00:00Z"; cf_grant_expires_at := lit "2027-01-01T00:00:00Z" |}.

Definition commit_oid (digit : byte) : str := COMMIT_OID_PREFIX ++ replicate 64 digit.

Definition review_of_sample : ReviewBinding :=
  {| project_scope := project_selector toy_sha256 sample_config; Journal.proposal_ref_name := lit "proposal/artifact/demo/a";
     Journal.proposal_head := commit_oid 49; Journal.decision_ref_name := lit "decision/artifact/demo";
     expected_decision_head := commit_oid 48 |}.

Definition intended_ops : list operation :=
       [RegisterProposal sample_random {| pq_idempotency_key := [1]; pq_canonical_request := [2];
          pq_artifact_manifest_sha256 := sample_manifest; pq_binding := review_of_sample |};
        CommitPublication sample_random sample_id review_of_sample;
        RegisterDecisionCommit sample_id {| cq_idempotency_key := [3]; cq_canonical_request := [4]; cq_disposition := Journal.AdoptedUnchanged;
          cq_selected_snapshot := SnapshotProposal; cq_reviewed_artifact_manifest_sha256 := sample_manifest;
          cq_new_decision_head := commit_oid 50; cq_feedback_oid := lit "f1" |}].

Definition service_after (ops : list operation) : Service :=
  {| sv_journal := runs ops empty_journal;
     sv_disks := {[ lit "repository" := {| objects := objects created_repository;
       Repository.refs := {| tables := {| t_refs := {[ lit "decision/artifact/demo" := (commit_oid 48, 0) ]}; t_events := []; t_sequence := 0 |};
                  read_only := false |};
       graph_limits := graph_limits created_repository; tombstone_scan_limits := tombstone_scan_limits created_repository;
       repo_read_only := false |} ]};
     sv_approvals := {| rs_next_serial := 1; rs_approvals := ∅;
       rs_projects := {[ project_selector toy_sha256 sample_config := {| pa_epoch := 1; pa_allowed_actors := {[ lit "host:alice" ]} |} ]} |} |}.

Definition sample_service : Service := service_after (intended_ops ++ [Transition sample_id PendingReview OutcomeUnknown]).

Definition sample_caller : Authentication := AuthSession {| ss_actor_id := lit "host:alice"; ss_session_id := lit "session-1" |}.

Definition sample_registry : SchemaRegistry := {| documents := ∅; validators := ∅ |}.

Lemma service_after_ok ops : Forall fair ops -> journal_ok (sv_journal (service_after ops)).
Proof.
  intros Hops. apply (steps_ok toy_sha256 toy_sha256_digest empty_journal); [apply empty_journal_ok|]. by apply runs_steps.
Qed.

Lemma intended_ops_fair : Forall fair intended_ops.
Proof. fair_ops. Qed.

Lemma sample_service_ok : journal_ok (sv_journal sample_service).
Proof. apply service_after_ok, Forall_app. split; [apply intended_ops_fair|fair_ops]. Qed.

Abbreviation sample_reconcile :=
  (reconcile_durable_artifact_review toy_sha256 (fun s => s) (fun c => [c]) (fun _ _ => None) sample_registry (fun _ => []) sample_caller
     sample_config sample_id default_checkout_limits sample_service).

(** The unknown outcome becomes a failure that may be retried. *)
Example sample_reconciled : st_state ∘ rec_status <$> snd sample_reconcile = Ok DurableRetryableFailure.
Proof. vm_compute. reflexivity. Qed.

Lemma reconciliation_faithful_witness :
  exists service' answer to, sample_reconcile = (service', Ok answer) /\ sv_disks service' = sv_disks sample_service /\
    shows toy_sha256 (fun s => s) (fun c => [c]) (fun _ _ => None) sample_registry sample_config default_checkout_limits sample_id
      service' to answer.
Proof.
  pose proof (reconciliation_faithful toy_sha256 (fun s => s) (fun c => [c]) (fun _ _ => None) sample_registry (fun _ => []) sample_caller
    sample_config sample_id default_checkout_limits sample_service sample_service_ok) as H. pose proof sample_reconciled as E.
  destruct sample_reconcile as [service' [answer|e]]; [|discriminate E]. destruct H as (Hd & _ & _ & _ & _ & _ & _ & to & _ & Hs & _).
  exists service', answer, to. split; [reflexivity|]. split; assumption.
Defined.

(** ** Publication of a Decision *)

Lemma transact_same {A} (f : Journal -> jresult (Journal * A)) s e : f (sv_journal s) = Err e ->
  in_journal f s = (s, Err (from_journal e)).
Proof. intros H. unfold in_journal. rewrite H. by destruct s. Qed.

(** The mark is written down, or nothing happens. *)
Lemma mark_unknown_effect review id s : journal_ok (sv_journal s) -> review_at (sv_journal s) id (rv_binding review) (rv_state review) ->
  (exists e, mark_unknown review id s = (s, Err e)) \/
  exists s', mark_unknown review id s = (s', Ok tt) /\ sv_disks s' = sv_disks s /\ sv_approvals s' = sv_approvals s /\
    open_for_decision (rv_state review) = true /\ later (sv_journal s) (sv_journal s') /\ journal_ok (sv_journal s') /\
    review_at (sv_journal s') id (rv_binding review) OutcomeUnknown.
Proof.
  intros Hj Hat. assert (forall from, rv_state review = from -> open_for_decision from = true ->
    let m := in_journal (transition_review_state id from OutcomeUnknown);; mret tt in
    (exists e, m s = (s, Err e)) \/
    exists s', m s = (s', Ok tt) /\ sv_disks s' = sv_disks s /\ sv_approvals s' = sv_approvals s /\
      open_for_decision from = true /\ later (sv_journal s) (sv_journal s') /\ journal_ok (sv_journal s') /\
      review_at (sv_journal s') id (rv_binding review) OutcomeUnknown) as Hm.
  - intros from <- Hopen m. subst m. unfold mbind at 1 2, durable_bind at 1 2.
    destruct (transition_review_state id (rv_state review) OutcomeUnknown (sv_journal s)) as [[j' r]|e] eqn:Et.
    + right. eexists. unfold in_journal, transact. rewrite Et. split; [done|]. cbn.
      destruct (transition_advances _ _ _ _ _ _ Hj Et) as (Hj' & Hl & b & Hb). split_and!; [done..|].
      destruct (lt_reviews _ _ Hl _ _ _ Hat) as (s' & Hs' & _). by destruct (review_at_inj _ Hj' _ _ _ _ _ Hb Hs') as [-> _].
    + left. rewrite (transact_same _ _ _ Et). by eexists.
  - unfold mark_unknown. destruct (rv_state review) eqn:E; try (left; by eexists); by apply Hm.
Qed.

(** What the journal says before the decision Ref may move. *)
Record written_ahead (id : str) (prepared : PreparedArtifactDecision) (j j' : Journal) : Prop := {
  wa_later : later j j';
  wa_before : exists b from, review_at j id b from /\ open_for_decision from = true;
  wa_after : exists b, review_at j' id b OutcomeUnknown;
  wa_intent : exists intent, load_decision_commit_intent j' id = Ok (Some intent) /\ prepared_matches_intent prepared intent = true;
}.

(** C16: a Decision is published only after the journal has recorded its intent and the outcome as
    unknown: whenever the operation gets to the repository, the review, which was open, is
    [OutcomeUnknown] in the journal it leaves, next to an intent of exactly this Decision.  Otherwise
    nothing changes and the answer is an error.  Success moves exactly the decision Ref, to the head
    of that intent; after an error the repository is unchanged, or the core contradicted the Decision. *)
Theorem decision_write_ahead sha256 nfc json_pointer registry prepared first second now transaction_now service review :
  journal_ok (sv_journal service) ->
  let '((service', review'), published) :=
    publish_prepared_durable_artifact_decision sha256 nfc json_pointer registry prepared first second now transaction_now (service, review) in
  let data := pa_data (dv_pending review) in
  let before := repository_at (pd_repository_path data) (sv_disks service) in
  let after := repository_at (pd_repository_path data) (sv_disks service') in
  journal_ok (sv_journal service') /\ sv_approvals service' = sv_approvals service /\
  (service' = service /\ review' = review /\ is_ok published = false \/
   written_ahead (dv_review_id review) (pdd_prepared prepared) (sv_journal service) (sv_journal service') /\
   (forall other, other <> pd_repository_path data -> sv_disks service' !! other = sv_disks service !! other) /\
   match published with
   | Ok published => ubd_review_id published = dv_review_id review /\ decision_moved data (pdd_prepared prepared) before after /\
       dp_new_decision_head (ubd_publication published) = px_new_decision_head (pdd_prepared prepared)
   | Err _ => after = before \/ exists entry, ref_moved before after entry
   end).
Proof.
  intros Hj. unfold publish_prepared_durable_artifact_decision. cbv zeta. cbn [snd].
  unfold mbind, durable_bind, reply. destruct (str_eqb _ _); cbn [negb reject_if].
  2: { cbn. by split_and!; [..|left]. }
  unfold asking_journal, at_service at 1. destruct (get_review_reconciliation (sv_journal service) (dv_review_id review)) as [rec|e] eqn:Ev; cbn [map_err].
  2: { cbn. by split_and!; [..|left]. }
  apply reconciliation_view in Ev as (Hid & Hat & Hl & _); [|done].
  destruct (rr_decision_intent rec) as [intent|] eqn:Ei; cbn [ok_or].
  2: { cbn. by split_and!; [..|left]. }
  destruct (prepared_matches_intent _ intent) eqn:Em; cbn [negb reject_if].
  2: { cbn. by split_and!; [..|left]. }
  unfold at_service at 1. destruct (mark_unknown_effect (rr_review rec) (dv_review_id review) service Hj Hat) as [[e ->]|(s1 & -> & H)].
  { by split_and!; [..|left]. }
  destruct H as (Hd & Ha & Hopen & Hlater & Hj1 & Hat1). unfold at_desk at 1.
  set (desk := {| dk_disks := sv_disks s1; dk_approvals := sv_approvals s1; dk_pending := dv_pending review |}).
  pose proof (publish_decision_moves sha256 nfc json_pointer registry (pdd_prepared prepared) first second now transaction_now desk) as H.
  destruct (publish_prepared_artifact_decision _ _ _ _ _ _ _ _ _ desk) as [desk' publication]. destruct H as (_ & Hda & Ho & Hm).
  cbn [dk_disks dk_approvals dk_pending desk] in *. rewrite Hd in *. rewrite Ha in Hda.
  assert (written_ahead (dv_review_id review) (pdd_prepared prepared) (sv_journal service) (sv_journal s1)) as Hw.
  { split; [done|by do 2 eexists|by eexists|]. exists intent. split; [|done]. by eapply load_commit_later. }
  destruct publication as [publication|e]; cbn [map_err].
  2: { cbn. split_and!; [done|done|]. right. split_and!; [done|done|]. destruct Hm as [_ [H|[_ H]]]; [by left|by right]. }
  destruct Hm as (_ & Hmoved & _ & Hhead & _). destruct (publication_matches_intent _ _); cbn [negb reject_if].
  - cbn. split_and!; [done|done|]. right. by split_and!.
  - cbn. split_and!; [done|done|]. right. split_and!; [done|done|]. right. destruct Hmoved as (entry & Hr & _). by exists entry.
Qed.

(** A Decision whose permit is gone: the mark is written, and the repository stays. *)
Definition sample_review : DurablePendingArtifactReview :=
  let b := review_of_sample in
  {| dv_review_id := sample_id;
     dv_pending :=
       {| pa_application := {| aa_instance := 1; aa_gate := gate_new; aa_security := empty_security |};
          pa_human_profile := {| h_instance := 1; h_project := project_scope b; h_serial := 1 |}; pa_admission := Recovered;
          pa_data := {| pd_selector := project_scope b; pd_repository_path := lit "repository"; pd_ids := from_key_and_attempt toy_sha256 (lit "demo") (lit "a");
            pd_proposal_ref := Journal.proposal_ref_name b; pd_decision_ref := Journal.decision_ref_name b;
            pd_base_head := expected_decision_head b; pd_proposal_head := Journal.proposal_head b; pd_base_snapshot := []; pd_proposal_snapshot := [];
            pd_base_manifest_sha256 := []; pd_recorded_at := []; pd_context_oid := []; pd_activity_oid := [];
            pd_receipt := {| pr_artifact_manifest_sha256 := sample_manifest; pr_review_context_sha256 := [];
              pr_source_attribution := CallerSuppliedAiAttributed |} |};
          pa_state := Deciding |} |}.

Definition sample_prepared : PreparedDurableArtifactDecision :=
  {| pdd_review_id := sample_id;
     pdd_prepared := {| px_permit := {| pm_instance := 1; pm_serial := 1 |};
       px_binding := Workflow.durable_binding (pa_data (dv_pending sample_review)); px_new_decision_head := commit_oid 50;
       px_feedback_oid := lit "f1"; px_disposition := AdoptedUnchanged; px_selected_snapshot_oid := [];
       px_reviewed_manifest_sha256 := sample_manifest |} |}.

Abbreviation sample_publish :=
  (publish_prepared_durable_artifact_decision toy_sha256 (fun s => s) (fun _ _ => None) sample_registry sample_prepared
    (Some 1) (Some 1) (Some 1) (Some 1) (service_after intended_ops, sample_review)).

(** The state of the review in the journal, before and after. *)
Definition sample_state (s : Service) : jresult ReviewState := rv_state <$> get_review (sv_journal s) sample_id.

Example sample_marked : sample_state (service_after intended_ops) = Ok PendingReview /\ sample_state sample_publish.1.1 = Ok OutcomeUnknown.
Proof. vm_compute. done. Qed.

Lemma decision_write_ahead_witness : written_ahead sample_id (pdd_prepared sample_prepared)
  (sv_journal (service_after intended_ops)) (sv_journal sample_publish.1.1).
Proof.
  pose proof (decision_write_ahead toy_sha256 (fun s => s) (fun _ _ => None) sample_registry sample_prepared (Some 1) (Some 1) (Some 1) (Some 1)
    (service_after intended_ops) sample_review (service_after_ok intended_ops intended_ops_fair)) as H. pose proof sample_marked as [E1 E2].
  destruct sample_publish as [[service' review'] published]. destruct H as (_ & _ & [(-> & _)|[Hw _]]); [|exact Hw].
  exfalso. cbn [fst] in E2. rewrite E1 in E2. discriminate E2.
Defined.

(** ** Evidence of a publication *)

Lemma limited_whole max rows : forall acc, len acc + len rows <= max -> push_limited max acc rows = Ok (acc ++ rows).
Proof.
  induction rows as [|row rows IH]; intros acc Hl; cbn [push_limited]; [by rewrite app_nil_r|]. rewrite len_cons in Hl.
  pose proof (len_nonneg rows). destruct (len acc =? max) eqn:E; [apply Z.eqb_eq in E; lia|]. rewrite IH, <- app_assoc; [done|].
  rewrite len_app. change (len [row]) with 1. lia.
Qed.

Lemma snapshot_fits t : len (select_refs t) <= MAX_REF_SNAPSHOT_ENTRIES <-> is_ok (load_snapshot_count_limited MAX_REF_SNAPSHOT_ENTRIES t) = true.
Proof.
  split.
  - intros Hl. unfold load_snapshot_count_limited. change (usize_saturating_add MAX_REF_SNAPSHOT_ENTRIES 1) with 100001.
    change (100001 >? i64_max) with false. cbv iota. rewrite take_ge, limited_whole; [done|by change (len []) with 0; lia|].
    unfold len in Hl. change MAX_REF_SNAPSHOT_ENTRIES with 100000 in Hl. lia.
  - destruct (load_snapshot_count_limited _ t) as [s|e] eqn:E; [intros _|done]. unfold load_snapshot_count_limited in E.
    change (usize_saturating_add MAX_REF_SNAPSHOT_ENTRIES 1) with 100001 in E. change (100001 >? i64_max) with false in E. cbv iota in E.
    apply bind_Ok in E as (rows & E & _). pose proof (limited_fits MAX_REF_SNAPSHOT_ENTRIES _ [] rows ltac:(done) E) as Hl.
    apply push_limited_rows in E as ->. cbn [app] in Hl. unfold len in *. rewrite length_take in Hl.
    change MAX_REF_SNAPSHOT_ENTRIES with 100000 in *. lia.
Qed.

Lemma select_snoc p t t' e : wf t -> wf t' -> t_events t' = t_events t ++ [e] ->
  select_events p t' = select_events p t ++ (if p e then [e] else []).
Proof. intros Hw Hw' He. rewrite !select_events_wf, He by done. rewrite List.filter_app. cbn. by destruct (p e). Qed.

Lemma select_none p t : (forall e, e ∈ t_events t -> p e = false) -> select_events p t = [].
Proof.
  intros Hp. destruct (select_events p t) as [|e l] eqn:E; [done|]. exfalso.
  assert (e ∈ select_events p t) as [Hin He]%select_events_elem by (rewrite E; left). by rewrite Hp in He.
Qed.

(** The evidence after exactly the intended transition of a Ref that no event had touched. *)
Lemma moved_evidence t t' n expected candidate entry ev :
  wf t -> wf t' -> heads t !! n = Some expected -> heads t' = <[n := candidate]> (heads t) -> t_events t' = t_events t ++ [entry] ->
  ref_name entry = n -> old_head entry = Some expected -> new_head entry = candidate ->
  read_ref_transition_evidence n (Some expected) candidate t = Ok ev -> ~ touched t n candidate ->
  exists ev', read_ref_transition_evidence n (Some expected) candidate t' = Ok ev' /\ evidence_head ev' n = Some candidate /\
    candidate_touch_count ev' = 1 /\ exact_transition_count ev' = 1 /\ latest_entry ev' = Some entry.
Proof.
  intros Hw Hw' Hh Hh' He Hn Ho Hc H Hnt. unfold read_ref_transition_evidence in *.
  apply bind_Ok in H as (u1 & H1 & H). apply bind_Ok in H as (u2 & H2 & H). apply bind_Ok in H as (u3 & H3 & H). rewrite H1, H2, H3.
  apply bind_Ok in H as (s & Hs & _). assert (is_ok (load_snapshot_count_limited MAX_REF_SNAPSHOT_ENTRIES t') = true) as Hs'.
  { apply snapshot_fits. assert (size (t_refs t') = size (t_refs t)) as E.
    { assert (size (heads t') = size (heads t)) as E by (rewrite Hh'; apply map_size_insert_Some; by rewrite Hh).
      unfold heads in E. by rewrite !map_size_fmap in E. }
    rewrite len_select_refs, E, <- len_select_refs. apply snapshot_fits. by rewrite Hs. }
  destruct (load_snapshot_count_limited _ t') as [s'|e] eqn:Es'; [|done]. cbn [mbind result_bind]. eexists. split; [done|].
  cbn [candidate_touch_count exact_transition_count latest_entry].
  assert (forall e, e ∈ t_events t -> touches n candidate e = false) as Hfalse.
  { intros e Hin. apply not_true_iff_false. intros Ht. apply Hnt. by exists e. }
  assert (touches n candidate entry = true) as Hte by (unfold touches; by rewrite Hn, Hc, !str_eqb_refl, orb_true_r).
  assert (is_exact n (Some expected) candidate entry = true) as Hxe
    by (unfold is_exact; by rewrite Hn, Ho, Hc, !str_eqb_refl, bool_decide_eq_true_2).
  split_and!.
  - unfold evidence_head. cbn. apply snapshot_complete in Es' as ->. by rewrite find_record, Hh', lookup_insert_eq.
  - change (len (select_events (touches n candidate) t') = 1). rewrite (select_snoc _ t t' entry), Hte by done. by rewrite select_none.
  - rewrite (select_snoc _ t t' entry), Hxe by done. rewrite select_none; [done|]. intros e Hin%Hfalse. unfold touches in Hin. unfold is_exact.
    destruct (str_eqb (RefStore.ref_name e) n); [|done]. cbn in *. apply orb_false_iff in Hin as [_ ->]. by rewrite andb_false_r.
  - rewrite (select_snoc _ t t' entry) by done. cbn [for_ref]. rewrite Hn, str_eqb_refl. apply last_snoc.
Qed.

(** C18: the history decides what a crash left open.  If an inspection before said that the Decision
    of an intent was not committed, and since then exactly the transition of that intent happened,
    then an inspection says that it is committed: the two verdicts between which a reconciliation has
    to decide after a lost answer. *)
Theorem publication_reconciles sha256 nfc to_lowercase json_pointer registry to_vec config intent limits before after entry disks disks' :
  RefStoreProps.reachable (Repository.refs before) -> RefStoreProps.reachable (Repository.refs after) ->
  ref_moved before after entry ->
  ref_name entry = Journal.decision_ref_name (ci_binding intent) -> old_head entry = Some (expected_decision_head (ci_binding intent)) ->
  new_head entry = ci_new_decision_head intent ->
  disks !! cf_repository config = Some before -> disks' !! cf_repository config = Some after ->
  inspect_decision_cas sha256 nfc to_lowercase json_pointer registry to_vec config intent limits disks = Ok NotCommitted ->
  inspect_decision_cas sha256 nfc to_lowercase json_pointer registry to_vec config intent limits disks' = Ok Committed.
Proof.
  intros Hw%reachable_wf Hw'%reachable_wf (Hold & Hh & He & _) En Eo Ec Hb Ha H.
  pose proof H as (r & Hr & Hhead & Hnt)%inspect_justified. rewrite Hb in Hr. injection Hr as <-.
  unfold inspect_decision_cas, open_existing in *. rewrite Hb in H. rewrite Ha. cbn [ok_or mbind result_bind] in *. cbv zeta in *.
  apply bind_Ok in H as (ev & Hev & _). unfold transition_evidence in *. apply map_err_Ok in Hev.
  apply (moved_evidence _ (RefStore.tables (Repository.refs after)) _ _ _ entry) in Hev as (ev' & Hev' & Hcur & Ht & Hx & Hlast);
    [|done|done|done|by rewrite Hh, En, Ec|done|done|done|done|done].
  assert (committed_now ev' (evidence_head ev' (Journal.decision_ref_name (ci_binding intent)))
    (Some (expected_decision_head (ci_binding intent))) (ci_new_decision_head intent) = true) as Hnow.
  { unfold committed_now. rewrite Hcur, Ht, Hx, Hlast, Eo, Ec, str_eqb_refl. by rewrite !bool_decide_eq_true_2. }
  rewrite Hev'. unfold mbind, result_bind, map_err. by rewrite Hnow.
Qed.

Definition intent_of_store : DecisionCommitIntent :=
  {| ci_review_id := sample_id;
     ci_binding := {| project_scope := []; Journal.proposal_ref_name := []; Journal.proposal_head := [];
       Journal.decision_ref_name := lit "proposal/x"; expected_decision_head := sample_oid_a |};
     ci_idempotency_digest := []; ci_request_fingerprint := []; ci_disposition := Journal.AdoptedUnchanged; ci_selected_snapshot := SnapshotProposal;
     ci_reviewed_artifact_manifest_sha256 := []; ci_new_decision_head := sample_oid_b; ci_feedback_oid := [] |}.

Definition store_at (s : SqliteRefStore) : FileRepository := set_refs created_repository s.

Lemma publication_reconciles_witness :
  inspect_decision_cas toy_sha256 (fun s => s) (fun c => [c]) (fun _ _ => None) sample_registry (fun _ => []) sample_config intent_of_store
    default_checkout_limits {[ lit "repository" := store_at store2 ]} = Ok Committed.
Proof.
  apply (publication_reconciles toy_sha256 (fun s => s) (fun c => [c]) (fun _ _ => None) sample_registry (fun _ => []) sample_config
    intent_of_store default_checkout_limits (store_at store1) (store_at store2) (cas_entry sample_update2 (tables store1))
    {[ lit "repository" := store_at store1 ]} {[ lit "repository" := store_at store2 ]}).
  - exact store1_reachable.
  - exact store2_reachable.
  - split; [vm_compute; reflexivity|]. split; [vm_compute; reflexivity|]. split; [vm_compute; reflexivity|]. reflexivity.
  - reflexivity.
  - reflexivity.
  - reflexivity.
  - reflexivity.
  - reflexivity.
  - vm_compute. reflexivity.
Defined.
