(* ===== verification/Observation.v ===== *)
(** * Observation: the byte-identity adapter

    crates/synapse-observation/src (lib.rs and byte_identity.rs): two recorded Observations are
    compared by the OIDs of their primary media, and an AnalysisResult that says no more than that is
    stored.  The bytes of the sources that the crate compiles into itself are arguments. *)

From Stdlib Require Import ZArith Lia.
From stdpp Require Import base list numbers strings gmap sets.
From S2P Require Import Prelude Bytes Sorting Text BTree RefStore RefStoreProps Canonical CanonicalProps Oid SchemaSemantics Registry RegistryProps.
From S2P Require Import ObjectStore FileStore FileStoreProps FsckProps RepairProps RestoreFacts Repository AuthorizationSample RepositorySample Artifact WorkflowRecords WorkflowFacts.

#[local] Open Scope Z_scope.

Definition BYTE_IDENTITY_ADAPTER_ID : str := lit "synapsegit.observation.byte-identity".
Definition BYTE_IDENTITY_ADAPTER_VERSION : str := lit "1".
Definition CONFIGURATION_BYTES : list byte :=
  [123] ++ [34] ++ lit "algorithm" ++ [34; 58; 34] ++ lit "blob_oid_equality" ++ [34; 44; 34] ++ lit "media_interpretation" ++ [34; 58; 34] ++
  lit "none" ++ [34; 44; 34] ++ lit "profile" ++ [34; 58; 34] ++ lit "synapsegit-observation-byte-identity-v1" ++ [34; 125; 10].

(** ** Data *)

Record ByteIdentityComparisonRequest := {
  base_observation_oid : str;
  target_observation_oid : str;
  analysis_entity_id : str;
  asserted_by : str;
  recorded_at : str;
}.

Inductive ByteIdentityOutcome := Identical | Different | NotCompared.

Definition outcome_as_str (outcome : ByteIdentityOutcome) : str :=
  match outcome with Identical => lit "identical" | Different => lit "different" | NotCompared => lit "not_compared" end.
Definition byte_identical (outcome : ByteIdentityOutcome) : option bool :=
  match outcome with Identical => Some true | Different => Some false | NotCompared => None end.

Inductive AnalysisStatus := Succeeded | NotRun.
Definition status_as_str (status : AnalysisStatus) : str := match status with Succeeded => lit "succeeded" | NotRun => lit "not_run" end.

Inductive AnalysisComparability := Partial | Incomparable.
Definition comparability_as_str (comparability : AnalysisComparability) : str :=
  match comparability with Partial => lit "partial" | Incomparable => lit "incomparable" end.

Record ByteIdentityComparisonReceipt := {
  ir_analysis_oid : str;
  ir_implementation_oid : str;
  ir_configuration_oid : str;
  ir_base_observation_oid : str;
  ir_target_observation_oid : str;
  ir_base_media_oid : option str;
  ir_target_media_oid : option str;
  ir_outcome : ByteIdentityOutcome;
  ir_status : AnalysisStatus;
  ir_comparability : AnalysisComparability;
  ir_reason_codes : list str;
}.

Inductive ObservationAnalysisError :=
| ObsInvalidInput
| ObsMissingObject
| ObsCore (error : CoreError)
| ObsRepository (error : RepositoryError)
| ObsJson.

(** [None] where a core error has no code of its own in the model. *)
Definition observation_code (error : ObservationAnalysisError) : option str :=
  match error with
  | ObsInvalidInput => Some (lit "observation_input_invalid")
  | ObsMissingObject => Some (lit "closure_missing")
  | ObsCore (Core code) => Some (code_as_str code)
  | ObsCore _ => None
  | ObsRepository error => Some (repository_code error)
  | ObsJson => Some (lit "schema_invalid")
  end.

Abbreviation oresult := (result ObservationAnalysisError).

Record ComparisonDecision := {
  dc_outcome : ByteIdentityOutcome;
  dc_status : AnalysisStatus;
  dc_comparability : AnalysisComparability;
  dc_reason_codes : list str;
  dc_base_media_oid : option str;
  dc_target_media_oid : option str;
}.

Record ObservationFacts := {
  of_subject : str;
  of_series : str;
  of_capture_time_unknown : bool;
  of_capture_profile_level : option str;
  of_media_oids : list str;
  of_primary_media : list str;
}.

Definition only_primary (facts : ObservationFacts) : option str :=
  match of_primary_media facts with [oid] => Some oid | _ => None end.

Definition media_oids_are_identical (base_media_oid target_media_oid : str) : bool := str_eqb base_media_oid target_media_oid.

(** ** Fields *)

(** [require_object] of lib.rs, and its [require_string] and [require_equal] *)
Definition obs_object (value : Value) (key : str) : oresult Value :=
  field ← ok_or (Canonical.get value key) ObsInvalidInput;
  match as_object field with Some _ => Ok field | None => Err ObsInvalidInput end.
Definition obs_string (value : Value) (key : str) : oresult str :=
  ok_or (field ← Canonical.get value key; as_str field) ObsInvalidInput.
Definition obs_equal (actual expected : str) : oresult unit := reject_if (negb (str_eqb actual expected)) ObsInvalidInput.

Definition of_core_error {A} (r : cresult A) : oresult A := map_err ObsCore r.

(** The OIDs of the media, and those of the primary ones. *)
Fixpoint media_loop (media_refs : list Value) : oresult (list str * list str) :=
  match media_refs with
  | [] => Ok ([], [])
  | media_ref :: media_refs =>
    role ← obs_string media_ref (lit "role");
    oid ← obs_string media_ref (lit "oid");
    '(media, primary) ← media_loop media_refs;
    Ok (oid :: media, if str_eqb role (lit "primary") then oid :: primary else primary)
  end.

(** ** The decision *)

(** The reasons that depend only on how the Observations were captured. *)
Definition capture_reasons (base target : ObservationFacts) : list str :=
  let level_is o level := bool_decide (of_capture_profile_level o = Some level) in
  [lit "byte_identity_only"] ++
  (if of_capture_time_unknown base || of_capture_time_unknown target then [lit "capture_time_unknown"] else []) ++
  (if level_is base (lit "imported") || level_is target (lit "imported") then [lit "capture_profile_imported"] else []) ++
  (if bool_decide (of_capture_profile_level base = None) || bool_decide (of_capture_profile_level target = None)
   then [lit "capture_profile_missing"] else []).

(** [reasons.into_iter().collect()] *)
Definition reason_set (reasons : list str) : list str := sort_dedup reasons.

Definition not_compared (base target : ObservationFacts) (reason : str) : ComparisonDecision :=
  {| dc_outcome := NotCompared; dc_status := NotRun; dc_comparability := Incomparable;
     dc_reason_codes := reason_set (capture_reasons base target ++ [reason]);
     dc_base_media_oid := only_primary base; dc_target_media_oid := only_primary target |}.

Definition compare_observations (base target : ObservationFacts) : ComparisonDecision :=
  if negb (str_eqb (of_subject base) (of_subject target)) then not_compared base target (lit "subject_mismatch")
  else if negb (str_eqb (of_series base) (of_series target)) then not_compared base target (lit "series_mismatch")
  else
    match of_primary_media base, of_primary_media target with
    | [], _ | _, [] => not_compared base target (lit "primary_media_missing")
    | [base_media], [target_media] =>
      {| dc_outcome := if media_oids_are_identical base_media target_media then Identical else Different;
         dc_status := Succeeded; dc_comparability := Partial; dc_reason_codes := reason_set (capture_reasons base target);
         dc_base_media_oid := Some base_media; dc_target_media_oid := Some target_media |}
    | _, _ => not_compared base target (lit "primary_media_ambiguous")
    end.

(** ** The adapter *)

Section Observation.
Variable sha256 : list byte -> list byte.
Variable nfc : list char -> list char.
Variable json_pointer : Json -> str -> option (list nat).
Variable registry : SchemaRegistry.
(** [serde_json::to_vec] *)
Variable to_vec : Value -> list byte.
(** The files that [include_bytes!] reads. *)
Variables PACKAGE_MANIFEST ALGORITHM_SOURCE LIBRARY_SOURCE : list byte.

Abbreviation FileRepository := (Repository FileObjectStore).

Definition implementation_bundle : list byte :=
  lit "synapsegit-observation-implementation-bundle-v1" ++ [0] ++
  framed [lit "Cargo.toml"; PACKAGE_MANIFEST; lit "src/byte_identity.rs"; ALGORITHM_SOURCE; lit "src/lib.rs"; LIBRARY_SOURCE].

Definition byte_identity_implementation_oid : str := blob_oid sha256 implementation_bundle.
Definition byte_identity_configuration_oid : str := blob_oid sha256 CONFIGURATION_BYTES.

(** [repository.objects().get_verified(oid)] of an object that has to be there *)
Definition verified_object (r : FileRepository) (oid : str) (kind : ObjectKind) : oresult VerifiedObject :=
  object ← map_err (fun e => ObsRepository (RepoStore e)) (file_get_verified sha256 nfc (Repository.objects r) oid);
  object ← ok_or object ObsMissingObject;
  reject_if (negb (bool_decide (ob_kind object = kind))) ObsInvalidInput;;
  Ok object.

Definition load_record (r : FileRepository) (oid : str) : oresult Value :=
  object ← verified_object r oid Record;
  value ← ok_or (ob_structured object) ObsInvalidInput;
  of_core_error (validate nfc json_pointer registry value);;
  Ok value.

Definition verify_blob (r : FileRepository) (oid : str) : oresult unit := verified_object r oid Blob;; Ok tt.

Definition load_capture_profile_level (r : FileRepository) (oid : str) : oresult str :=
  record ← load_record r oid;
  record_type ← obs_string record (lit "record_type");
  obs_equal record_type (lit "capture_profile");;
  payload ← obs_object record (lit "payload");
  obs_string payload (lit "profile_level").

Definition load_observation (r : FileRepository) (oid : str) : oresult ObservationFacts :=
  record ← load_record r oid;
  record_type ← obs_string record (lit "record_type");
  obs_equal record_type (lit "observation");;
  payload ← obs_object record (lit "payload");
  subject ← obs_string payload (lit "subject_ref");
  series ← obs_string payload (lit "series_ref");
  capture_time ← obs_object payload (lit "capture_time");
  kind ← obs_string capture_time (lit "kind");
  media_refs ← ok_or (field ← Canonical.get payload (lit "media_refs"); as_array field) ObsInvalidInput;
  '(media, primary) ← media_loop media_refs;
  level ← match Canonical.get payload (lit "capture_profile_ref") with
          | None => Ok None
          | Some value => profile_oid ← ok_or (as_str value) ObsInvalidInput; Some <$> load_capture_profile_level r profile_oid
          end;
  Ok {| of_subject := subject; of_series := series; of_capture_time_unknown := str_eqb kind (lit "unknown");
        of_capture_profile_level := level; of_media_oids := media; of_primary_media := primary |}.

(** [canonical_set] of lib.rs: every member is parsed, also where there is nothing to sort. *)
Fixpoint keyed_loop (values : list Value) : oresult (list (list byte * Value)) :=
  match values with
  | [] => Ok []
  | value :: values =>
    parsed ← of_core_error (parse_strict nfc (to_vec value));
    key ← of_core_error (canonical_bytes nfc parsed);
    keyed ← keyed_loop values;
    Ok ((key, value) :: keyed)
  end.

Definition observation_set (values : list Value) : oresult Value :=
  keyed ← keyed_loop values;
  Ok (Arr (map snd (sort_by (fun left right => lex_compare (fst left) (fst right)) keyed))).

Definition identity_metrics (outcome : ByteIdentityOutcome) : Value :=
  json_object
    match byte_identical outcome with
    | Some identical =>
      [(lit "byte_identical", json_object [(lit "mantissa", Str (if (identical : bool) then lit "1" else lit "0")); (lit "scale", Integer 0);
                                           (lit "unit", Str (lit "unitless"))])]
    | None => []
    end.

Definition identity_warning (outcome : ByteIdentityOutcome) : str :=
  match outcome with
  | Identical => lit "Identical Blob bytes do not establish that the observed physical subject was unchanged."
  | Different => lit "Different Blob bytes do not establish visual or physical change."
  | NotCompared => lit "Byte identity was not compared because the ordered Observation inputs were incompatible."
  end.

Definition identity_evidence (decision : ComparisonDecision) : Value :=
  let media key oid := match oid with Some oid => [(key, Str oid)] | None => [] end in
  json_object ([(lit "format", Str (lit "synapsegit-observation-byte-identity-v1"));
                (lit "outcome", Str (outcome_as_str (dc_outcome decision)))] ++
               media (lit "base_media_ref") (dc_base_media_oid decision) ++ media (lit "target_media_ref") (dc_target_media_oid decision)).

Definition adapter_record (implementation_oid configuration_oid : str) : Value :=
  json_object [(lit "id", Str BYTE_IDENTITY_ADAPTER_ID); (lit "version", Str BYTE_IDENTITY_ADAPTER_VERSION);
               (lit "implementation_digest", Str implementation_oid); (lit "configuration_digest", Str configuration_oid);
               (lit "determinism", Str (lit "deterministic"))].

Definition role_ref (field role oid : str) : Value := json_object [(lit "role", Str role); (field, Str oid)].

Definition analysis_record (request : ByteIdentityComparisonRequest) (implementation_oid configuration_oid : str)
    (decision : ComparisonDecision) : oresult Value :=
  let inputs field := [role_ref field (lit "base_observation") (base_observation_oid request);
                       role_ref field (lit "target_observation") (target_observation_oid request)] in
  source_refs ← observation_set (inputs (lit "oid"));
  reason_codes ← observation_set (map Str (dc_reason_codes decision));
  Ok (json_object
    [(lit "object_type", Str (lit "record")); (lit "schema_version", Str WorkflowRecords.SCHEMA_VERSION);
     (lit "record_type", Str (lit "analysis_result")); (lit "entity_id", Str (analysis_entity_id request));
     (lit "recorded_at", Str (recorded_at request)); (lit "asserted_by", Str (asserted_by request));
     (lit "origin", Str (lit "tool_recorded")); (lit "source_refs", source_refs);
     (lit "payload", json_object
        [(lit "analysis_kind", Str (lit "byte_identity")); (lit "comparison_kind", Str (lit "temporal_observation"));
         (lit "inputs", Arr (inputs (lit "ref"))); (lit "adapter", adapter_record implementation_oid configuration_oid);
         (lit "status", Str (status_as_str (dc_status decision)));
         (lit "comparability", Str (comparability_as_str (dc_comparability decision))); (lit "reason_codes", reason_codes);
         (lit "derived_blob_refs", Arr []); (lit "metrics", identity_metrics (dc_outcome decision));
         (lit "warnings", Arr [Str (identity_warning (dc_outcome decision))]);
         (lit "limitations", Arr
            [Str (lit "This adapter compares verified Blob OIDs only and does not decode media, inspect pixels, register viewpoints, or infer appearance or physical change.");
             Str (lit "The implementation digest covers the semantic Rust source files and crate manifest, not Cargo.lock, transitive dependency sources, compiler, target, operating system, or full runtime environment.")])]);
     (lit "extensions", json_object [(lit "org.synapsegit.observation-byte-identity", identity_evidence decision)])]).

(** What is decided before anything is stored: the analysis, its text and its OID. *)
Definition prepare_comparison (r : FileRepository) (request : ByteIdentityComparisonRequest)
  : oresult (ComparisonDecision * list byte * str) :=
  base ← load_observation r (base_observation_oid request);
  target ← load_observation r (target_observation_oid request);
  for_each (verify_blob r) (of_media_oids base ++ of_media_oids target);;
  let decision := compare_observations base target in
  analysis ← analysis_record request byte_identity_implementation_oid byte_identity_configuration_oid decision;
  let encoded := to_vec analysis in
  validated ← of_core_error (ingest nfc sha256 json_pointer registry encoded);
  Ok (decision, encoded, vo_oid validated).

(** A put; an error leaves the repository as it is. *)
Definition put_step {A} (r : FileRepository) (put : presult (FileRepository * PutResult))
    (k : FileRepository -> FileRepository * oresult A) : FileRepository * oresult A :=
  match put with Ok (r, _) => k r | Err e => (r, Err (ObsRepository e)) end.

Definition record_byte_identity_comparison (r : FileRepository) (request : ByteIdentityComparisonRequest)
  : FileRepository * oresult ByteIdentityComparisonReceipt :=
  match prepare_comparison r request with
  | Err e => (r, Err e)
  | Ok (decision, encoded, analysis_oid) =>
    put_step r (repo_put_blob_claimed sha256 r byte_identity_implementation_oid (whole_reads (Repository.objects r) implementation_bundle))
      (fun r =>
    put_step r (repo_put_blob_claimed sha256 r byte_identity_configuration_oid (whole_reads (Repository.objects r) CONFIGURATION_BYTES))
      (fun r =>
    put_step r (put_object_claimed sha256 nfc json_pointer registry r analysis_oid encoded)
      (fun r =>
    (r, Ok {| ir_analysis_oid := analysis_oid; ir_implementation_oid := byte_identity_implementation_oid;
              ir_configuration_oid := byte_identity_configuration_oid; ir_base_observation_oid := base_observation_oid request;
              ir_target_observation_oid := target_observation_oid request; ir_base_media_oid := dc_base_media_oid decision;
              ir_target_media_oid := dc_target_media_oid decision; ir_outcome := dc_outcome decision; ir_status := dc_status decision;
              ir_comparability := dc_comparability decision; ir_reason_codes := dc_reason_codes decision |}))))
  end.
End Observation.

(** ** What is read of the inputs *)

(** Comparable Observations: the same subject and series, and exactly one primary medium each. *)
Definition comparable (base target : ObservationFacts) (base_media target_media : str) : Prop :=
  of_subject base = of_subject target /\ of_series base = of_series target /\
  of_primary_media base = [base_media] /\ of_primary_media target = [target_media].

Lemma compare_observations_spec base target :
  (exists b t, comparable base target b t /\ dc_outcome (compare_observations base target) = (if str_eqb b t then Identical else Different) /\
     dc_base_media_oid (compare_observations base target) = Some b /\ dc_target_media_oid (compare_observations base target) = Some t) \/
  (forall b t, ~ comparable base target b t) /\ dc_outcome (compare_observations base target) = NotCompared.
Proof.
  unfold compare_observations, comparable. destruct (str_eqb (of_subject base) _) eqn:Es; cbn [negb].
  2: { right. split; [|done]. intros b t [E _]. apply str_eqb_neq in Es. done. }
  destruct (str_eqb (of_series base) _) eqn:Er; cbn [negb].
  2: { right. split; [|done]. intros b t (_ & E & _). apply str_eqb_neq in Er. done. }
  apply str_eqb_eq in Es, Er.
  destruct (of_primary_media base) as [|b [|b' bs]], (of_primary_media target) as [|t [|t' ts]];
    try (right; split; [by intros ?? (_ & _ & ? & ?)|done]). left. by exists b, t.
Qed.

Lemma media_loop_primary media_refs : forall media primary, media_loop media_refs = Ok (media, primary) -> forall oid, oid ∈ primary -> oid ∈ media.
Proof.
  induction media_refs as [|m ms IH]; intros media primary H; cbn [media_loop] in H.
  { injection H as <- <-. intros oid Hin. by apply elem_of_nil in Hin. }
  apply bind_Ok in H as (role & _ & H). apply bind_Ok in H as (moid & _ & H). apply bind_Ok in H as ([media' primary'] & Hm & [= <- <-]).
  intros oid Hin. destruct (str_eqb role (lit "primary")).
  - apply elem_of_cons in Hin as [->|Hin]; [left|]. right. by eapply IH.
  - right. by eapply IH.
Qed.

Section Facts.
Variable sha256 : list byte -> list byte.
Variable nfc : list char -> list char.
Variable json_pointer : Json -> str -> option (list nat).
Variable registry : SchemaRegistry.
Variable to_vec : Value -> list byte.
Variables PACKAGE_MANIFEST ALGORITHM_SOURCE LIBRARY_SOURCE : list byte.
Hypothesis Hsha : sha256_digest sha256.

Abbreviation facts_of r oid := (load_observation sha256 nfc json_pointer registry r oid).

Lemma load_observation_primary r oid facts : facts_of r oid = Ok facts -> forall m, m ∈ of_primary_media facts -> m ∈ of_media_oids facts.
Proof.
  unfold load_observation. intros H. do 8 (apply bind_Ok in H as (? & _ & H)). apply bind_Ok in H as (refs & _ & H).
  apply bind_Ok in H as ([media primary] & Hm & H). apply bind_Ok in H as (level & _ & [= <-]). cbn. by eapply media_loop_primary.
Qed.

(** The bytes of a Blob that was verified. *)
Definition blob_bytes (r : FileRepository) (oid : str) (bytes : list byte) : Prop :=
  holds (Repository.objects r) oid Blob bytes /\ blob_oid sha256 bytes = oid.

Lemma verified_blob r oid : store_limits_ok (limits (Repository.objects r)) -> verify_blob sha256 nfc r oid = Ok tt -> exists bytes, blob_bytes r oid bytes.
Proof.
  intros Hlim H. unfold verify_blob, verified_object in H. apply bind_Ok in H as (ob & H & _).
  apply bind_Ok in H as (found & Hf%map_err_Ok & H). apply bind_Ok in H as (ob' & ->%ok_or_Ok & H).
  apply bind_Ok in H as (u & Hk%reject_if_Ok%negb_false_iff%bool_decide_eq_true & _). unfold file_get_verified in Hf.
  apply bind_Ok in Hf as ([kind path] & Hp & Hf). apply bind_Ok in Hf as (content & Hc & Hf). destruct content as [content|]; [|done].
  apply bind_Ok in Hf as (body & Hb & [= Ho]). subst ob'. cbn in Hk. subst kind. rewrite bool_decide_eq_true_2 in Hb by done.
  apply bind_Ok in Hb as (bytes & Hb & _). unfold validated_object_path in Hp. apply bind_Ok in Hp as (k & _ & [= -> <-]).
  exists content. split.
  - unfold regular_file_if_present in Hc. unfold holds. destruct (FileStore.objects _ !! _) as [[]|]; [|done..]. by injection Hc as ->.
  - unfold copy_verified_blob in Hb. destruct Hlim as (Hio & Hmax & _).
    destruct (read_buffers_spec (Z.to_nat (io_buffer_bytes (limits (Repository.objects r)))) (length content) content) as [Ec Hn]; [lia|done|].
    rewrite read_loop_spec in Hb by done. rewrite Ec in Hb. match type of Hb with context [if ?c then _ else _] => destruct c end; [|done]. cbn [mbind result_bind app] in Hb.
    destruct (negb _) eqn:E in Hb; [done|]. by apply negb_false_iff, str_eqb_eq in E.
Qed.

Abbreviation prepared := (prepare_comparison sha256 nfc json_pointer registry to_vec PACKAGE_MANIFEST ALGORITHM_SOURCE LIBRARY_SOURCE).
Abbreviation recorded := (record_byte_identity_comparison sha256 nfc json_pointer registry to_vec PACKAGE_MANIFEST ALGORITHM_SOURCE LIBRARY_SOURCE).
Abbreviation analysis_of :=
  (fun request => analysis_record nfc to_vec request
     (byte_identity_implementation_oid sha256 PACKAGE_MANIFEST ALGORITHM_SOURCE LIBRARY_SOURCE) (byte_identity_configuration_oid sha256)).

(** The two Observations that a comparison read, and the bytes of all their media. *)
Record compared (r : FileRepository) (request : ByteIdentityComparisonRequest) (base target : ObservationFacts) : Prop := {
  cp_base : facts_of r (base_observation_oid request) = Ok base;
  cp_target : facts_of r (target_observation_oid request) = Ok target;
  cp_media : forall oid, oid ∈ of_media_oids base ++ of_media_oids target -> exists bytes, blob_bytes r oid bytes;
}.

Lemma prepare_comparison_Ok r request decision encoded oid : store_limits_ok (limits (Repository.objects r)) ->
  prepared r request = Ok (decision, encoded, oid) ->
  exists base target analysis validated, compared r request base target /\ decision = compare_observations base target /\
    analysis_of request decision = Ok analysis /\ encoded = to_vec analysis /\
    ingest nfc sha256 json_pointer registry (to_vec analysis) = Ok validated /\ oid = vo_oid validated.
Proof.
  unfold prepare_comparison. intros Hlim H. apply bind_Ok in H as (base & Hb & H). apply bind_Ok in H as (target & Ht & H).
  apply bind_Ok in H as (u & Hm & H). cbv zeta in H. apply bind_Ok in H as (analysis & Ha & H). apply bind_Ok in H as (validated & Hv%map_err_Ok & [= <- <- <-]).
  exists base, target, analysis, validated. split_and!; [|done..]. split; [done..|]. intros m Hin. destruct u.
  rewrite for_each_Ok, Forall_forall in Hm. by apply verified_blob, Hm.
Qed.

(** The bytes of the media decide a comparison. *)
Lemma comparison_exact r request base target : compared r request base target ->
  match dc_outcome (compare_observations base target) with
  | NotCompared => forall b t, ~ comparable base target b t
  | outcome => exists b t bytes bytes', comparable base target b t /\ blob_bytes r b bytes /\ blob_bytes r t bytes' /\
      (outcome = Identical <-> bytes = bytes')
  end.
Proof.
  intros [Hb Ht Hm]. destruct (compare_observations_spec base target) as [(b & t & Hc & Ho & _)|[Hn ->]]; [|done].
  assert (exists bytes bytes', blob_bytes r b bytes /\ blob_bytes r t bytes') as (bytes & bytes' & Hbytes & Hbytes').
  { destruct Hc as (_ & _ & Eb & Et).
    destruct (Hm b) as [bytes ?]; [apply elem_of_app; left; eapply load_observation_primary; [done|]; rewrite Eb; by left|].
    destruct (Hm t) as [bytes' ?]; [apply elem_of_app; right; eapply load_observation_primary; [done|]; rewrite Et; by left|].
    by exists bytes, bytes'. }
  rewrite Ho. destruct (str_eqb b t) eqn:E.
  - apply str_eqb_eq in E as ->. exists t, t, bytes, bytes'. split_and!; [done..|]. split; [|done]. intros _.
    destruct Hbytes as [H1 _], Hbytes' as [H2 _]. unfold holds in *. congruence.
  - apply str_eqb_neq in E. exists b, t, bytes, bytes'. split_and!; [done..|]. split; [done|]. intros ->.
    destruct Hbytes as [_ <-], Hbytes' as [_ <-]. done.
Qed.

(** ** What is stored *)

Abbreviation growth := (grows sha256 nfc).
Abbreviation intact := (is_intact sha256 nfc).

Lemma grows_limits r r' : growth r r' -> limits (Repository.objects r') = limits (Repository.objects r).
Proof. intros [_ Hs]. induction Hs as [|s s1 s2 Hstep _ IH]; [done|]. by rewrite IH, (step_limits sha256 nfc _ _ Hstep). Qed.

Lemma grows_intact r r' oid : growth r r' -> intact (Repository.objects r) oid = true -> intact (Repository.objects r') oid = true.
Proof. intros [_ Hs]. induction Hs as [|s s1 s2 Hstep _ IH]; [done|]. intros H. by apply IH, (step_intact sha256 nfc _ _ _ Hstep). Qed.

(** A put that succeeded added an object that reads back. *)
Definition added (r : FileRepository) (oid : str) (put : presult (FileRepository * PutResult)) : Prop :=
  forall r' p, put = Ok (r', p) -> growth r r' /\ intact (Repository.objects r') oid = true.

Lemma put_blob_added r oid bytes : store_limits_ok (limits (Repository.objects r)) ->
  added r oid (repo_put_blob_claimed sha256 r oid (whole_reads (Repository.objects r) bytes)).
Proof.
  intros Hlim r' p H. unfold repo_put_blob_claimed in H. apply bind_Ok in H as (u & _ & H). split.
  - eapply stored_grows; [exact H|]. intros store Hput. by eapply step_put_blob_claimed.
  - unfold stored, of_store in H. apply bind_Ok in H as ([store result] & Hp%map_err_Ok & [= <- _]). cbn.
    eapply put_blob_claimed_intact; [done|done| |exact Hp]. apply read_buffers_spec; [|done]. destruct Hlim as (? & _). lia.
Qed.

Lemma put_object_added r oid input : store_limits_ok (limits (Repository.objects r)) ->
  added r oid (put_object_claimed sha256 nfc json_pointer registry r oid input).
Proof.
  intros Hlim r' p H. unfold put_object_claimed in H. apply bind_Ok in H as (u & _ & H). apply bind_Ok in H as (validated & Hv%map_err_Ok & H).
  assert (vo_oid validated = oid) as Ho.
  { unfold ingest_claimed, ingest_claimed_with_limits in Hv. apply bind_Ok in Hv as (value & _ & Hv). unfold finish_ingestion in Hv.
    do 4 (apply bind_Ok in Hv as (? & _ & Hv)). destruct (negb _) eqn:E in Hv; [done|]. injection Hv as <-. cbn. symmetry.
    by apply str_eqb_eq, negb_false_iff. }
  rewrite Ho in H. split.
  - eapply stored_grows; [exact H|]. intros store Hput. by eapply step_put_verified_raw.
  - unfold stored, of_store in H. apply bind_Ok in H as ([store result] & Hp%map_err_Ok & [= <- _]). cbn. by eapply put_verified_raw_intact.
Qed.
End Facts.

(** ** The property *)

(** C30: a comparison never moves a Ref, only adds objects, and adds nothing unless everything that it
    reads is there and verified.  Its outcome says exactly whether the bytes of the two primary media are
    the same, and nothing is compared unless subject and series agree and each Observation has one
    primary medium.  The analysis that says so, the sources of the adapter and its configuration read back
    under the OIDs of the receipt. *)
Theorem byte_identity_recorded sha256 nfc json_pointer registry to_vec manifest algorithm library r request :
  sha256_digest sha256 -> store_limits_ok (limits (Repository.objects r)) ->
  let '(r', answer) :=
    record_byte_identity_comparison sha256 nfc json_pointer registry to_vec manifest algorithm library r request in
  grows sha256 nfc r r' /\
  (is_ok (prepare_comparison sha256 nfc json_pointer registry to_vec manifest algorithm library r request) = false -> r' = r) /\
  match answer with
  | Err _ => True
  | Ok receipt =>
    exists base target analysis validated,
      compared sha256 nfc json_pointer registry r request base target /\
      match ir_outcome receipt with
      | NotCompared => forall b t, ~ comparable base target b t
      | outcome => exists b t bytes bytes', comparable base target b t /\ blob_bytes sha256 r b bytes /\ blob_bytes sha256 r t bytes' /\
          (outcome = Identical <-> bytes = bytes')
      end /\
      analysis_record nfc to_vec request (ir_implementation_oid receipt) (ir_configuration_oid receipt) (compare_observations base target) =
        Ok analysis /\
      ingest nfc sha256 json_pointer registry (to_vec analysis) = Ok validated /\ ir_analysis_oid receipt = vo_oid validated /\
      Forall (fun oid => is_intact sha256 nfc (Repository.objects r') oid = true)
        [ir_analysis_oid receipt; ir_implementation_oid receipt; ir_configuration_oid receipt]
  end.
Proof.
  intros Hsha Hlim. unfold record_byte_identity_comparison.
  destruct (prepare_comparison _ _ _ _ _ _ _ _ r request) as [[[decision encoded] oid]|e] eqn:E; [|by split_and!].
  apply prepare_comparison_Ok in E as (base & target & analysis & validated & Hc & -> & Ha & -> & Hv & ->); [|done].
  pose proof (comparison_exact sha256 nfc json_pointer registry r request base target Hc) as Hx. cbn [is_ok]. unfold put_step.
  destruct (repo_put_blob_claimed _ r _ _) as [[r1 p1]|e1] eqn:E1; [|by split_and!].
  destruct (put_blob_added sha256 nfc Hsha r _ _ Hlim _ _ E1) as [G1 I1]. pose proof (grows_limits sha256 nfc _ _ G1) as L1.
  destruct (repo_put_blob_claimed _ r1 _ _) as [[r2 p2]|e2] eqn:E2; [|by split_and!].
  assert (store_limits_ok (limits (Repository.objects r1))) as Hlim1 by (by rewrite L1).
  destruct (put_blob_added sha256 nfc Hsha r1 _ _ Hlim1 _ _ E2) as [G2 I2]. pose proof (grows_limits sha256 nfc _ _ G2) as L2.
  assert (grows sha256 nfc r r2) as G02 by (by transitivity r1).
  destruct (put_object_claimed _ _ _ _ r2 _ _) as [[r3 p3]|e3] eqn:E3; [|by split_and!].
  assert (store_limits_ok (limits (Repository.objects r2))) as Hlim2 by (by rewrite L2).
  destruct (put_object_added sha256 nfc json_pointer registry Hsha r2 _ _ Hlim2 _ _ E3) as [G3 I3].
  assert (grows sha256 nfc r1 r3) as G13 by (by transitivity r2).
  split; [by transitivity r1|]. split; [done|]. cbn [ir_outcome ir_implementation_oid ir_configuration_oid ir_analysis_oid].
  exists base, target, analysis, validated. split_and!; [done|done|done|done|done|].
  apply Forall_cons_2; [done|]. apply Forall_cons_2; [exact (grows_intact sha256 nfc r1 r3 _ G13 I1)|].
  apply Forall_cons_2; [exact (grows_intact sha256 nfc r2 r3 _ G3 I2)|apply Forall_nil_2].
Qed.

(** Two Observations of one subject with different media, in a store on disk. *)
Definition sample_observation (media_oid : str) (recorded_at : str) : Value :=
  json_object (envelope (lit "observation") (lit "entity") recorded_at (lit "actor") (lit "tool_recorded")
    (json_object [(lit "subject_ref", Str (lit "subject")); (lit "series_ref", Str (lit "series"));
                  (lit "capture_time", json_object [(lit "kind", Str (lit "unknown"))]);
                  (lit "media_refs", Arr [role_ref (lit "oid") (lit "primary") media_oid])])).

Definition other_blob : FileRepository * str := after_put with_blob.1 (repo_put_blob toy_sha256 with_blob.1 [[104; 105]]).
Definition base_sample : FileRepository * str := put_sample_value other_blob.1 (sample_observation with_blob.2 (lit "2026-01-01T00:00:00Z")).
Definition target_sample : FileRepository * str := put_sample_value base_sample.1 (sample_observation other_blob.2 (lit "2026-01-01T00:00:00.5Z")).
Definition sample_request : ByteIdentityComparisonRequest :=
  {| base_observation_oid := base_sample.2; target_observation_oid := target_sample.2; analysis_entity_id := lit "analysis";
     asserted_by := lit "tool"; recorded_at := lit "2026-01-02T00:00:00Z" |}.

Abbreviation sample_recorded :=
  (record_byte_identity_comparison toy_sha256 nfc_id no_pointer open_registry CanonicalWrite.render [1] [2] [3] target_sample.1 sample_request).

Example sample_different : ir_outcome <$> sample_recorded.2 = Ok Different.
Proof. vm_compute. reflexivity. Qed.

Lemma byte_identity_recorded_witness :
  exists r' receipt, sample_recorded = (r', Ok receipt) /\ Repository.refs r' = Repository.refs target_sample.1 /\
    is_intact toy_sha256 nfc_id (Repository.objects r') (ir_analysis_oid receipt) = true.
Proof.
  pose proof (byte_identity_recorded toy_sha256 nfc_id no_pointer open_registry CanonicalWrite.render [1] [2] [3] target_sample.1 sample_request
    toy_sha256_digest default_store_limits_ok) as H. pose proof sample_different as E.
  destruct sample_recorded as [r' [receipt|e]]; [|discriminate E]. exists r', receipt.
  destruct H as (Hg & _ & base & target & analysis & validated & _ & _ & _ & _ & _ & Hi).
  split; [reflexivity|]. split; [exact (grows_refs toy_sha256 nfc_id _ _ Hg)|]. inversion Hi; assumption.
Defined.
